(* ===== verification/_CoqProject ===== *)
-Q . S2P
Prelude.v
Program.v
Types.v
Queue.v
QueueSafety.v
Worker.v
Threads.v
ThreadLaws.v
Colleagues.v
Catalog.v
Compaction.v
CompactionLaws.v
Scheduling.v
SchedulingLaws.v
Billing.v
BillingLaws.v
Tools.v
Agent.v
AgentLaws.v
Approvals.v
ApprovalLaws.v
GatedAgent.v
Responses.v
ResponseLaws.v
Office.v
OfficeLaws.v
SendMessage.v
SendLaws.v
ApprovalFlow.v
ApprovalFlowLaws.v
Cache.v
RateLimits.v
Network.v
Identity.v
Orgs.v
OrgLaws.v
OrgRoutes.v
OrgRouteLaws.v
MemberSearch.v
Memory.v
MemoryLaws.v
MemoryReplay.v
MemorySafety.v
Composer.v
Profiles.v
AgentPrompt.v
Librarian.v
Reflection.v
LibrarianLaws.v
MemoryTools.v
Todos.v
Decimal.v
LarkFrames.v
Gateway.v
GatewayLaws.v
Signed.v
SignedLaws.v
Access.v
ChatText.v
ChatTextLaws.v
ChatPost.v
ChatPostLaws.v
ChatPump.v
ChatPumpLaws.v
DiscordBridge.v
DiscordBridgeLaws.v
McpStore.v
McpRegistry.v
McpOauth.v
McpRefresh.v
McpRoutes.v
McpRouteLaws.v
McpDemo.v
Submit.v
SubmitLaws.v
SubmitRetry.v
