(* ===== verification/Prelude.v ===== *)
(** * Patom: a verification development of the agent runtime

    Patom (crates/patom-core) runs teams of language-model agents.  People and
    agents post into threads; each post enqueues a trigger in a durable queue on
    Postgres; worker processes claim the pending triggers of one agent in one
    thread, run the agent over the thread's feed with its memory and its tools, and
    settle the batch; a scheduler turns due tasks into posts and triggers; a billing
    service admits runs and meters what they cost; people decide approvals; chat
    platforms are connected through gateways; organisations own all of it.  Paths
    below are under src/crates/patom-core/src.

    ** The parts, and where they are modelled

    A component [X] has its data and operations in X.v and its theorems below them, or
    in XLaws.v where they are long; a demonstration on concrete tables ends most of them.

    - Prelude: results with panics, bounded integers, strings as lists of Unicode
      scalar values with their UTF-8 length, tables as lists of rows, stable sorting;
      the lemmas and tactics the other files share.  Program: the two monads of the
      stateful parts, [Tx] (a transaction) and [Prog] (a handler of several calls).
      Decimal: reading integers back from text.  Types: types/*.rs, runtime/types.rs,
      provider/chat.rs, provider/attachment.rs; the label enums of [str_enum!] are
      instances of the class [StrEnum] and their clients use its laws only.
    - The turn.  Queue, QueueSafety: runtime/queue.rs, pg_queue.rs, dag.rs; the queue
      as tables ([db]), and as a transition system under interleaving.  Worker:
      runtime/worker.rs.  Threads, ThreadLaws: threads/*.rs, the feed and its windowed
      read.  Catalog, Compaction, CompactionLaws: provider/catalog.rs,
      agent_core/compaction.rs.  Tools, Agent, AgentLaws: tools/registry.rs,
      toolbox.rs, agent_core/core.rs, turn.rs, tool_reduction.rs, hook/, background/.
      Responses, ResponseLaws: runtime/response.rs, pg_response.rs, the chunk log and
      the hub of its subscribers.
    - Around the turn.  Scheduling, SchedulingLaws: scheduling/.  Billing, BillingLaws:
      billing/, entitlements/.  Approvals, ApprovalLaws: approvals/, with GatedAgent
      for the agent behind the gate.  Colleagues: types/participant.rs, colleagues/.
      Office, OfficeLaws: the stores a tool acts on together and the outbound routers
      (outbound/).  SendMessage, SendLaws: tools/system/send_message.rs.  ApprovalFlow,
      ApprovalFlowLaws: ask_approval.rs, approvals/decision.rs and resume.rs.
      Todos: tools/system/todos.
    - Memory.  Memory, MemoryLaws, MemoryReplay, MemorySafety: memory/store.rs and
      pg_store.rs, the journal and the table materialised from it.  Composer,
      AgentPrompt, Profiles: what a prompt shows (memory/composer.rs, loader.rs,
      agent.rs, prompts/mod.rs, colleagues/profile/).
      Librarian, LibrarianLaws, Reflection: memory/librarian.rs and
      reflection_scheduler.rs.  MemoryTools: tools/system/memory.
    - People and organisations.  Identity: auth/types.rs, language.rs, locale_hint.rs.
      Orgs, OrgLaws: orgs/pg_store.rs and auth/pg_store.rs on their six tables.
      OrgRoutes, OrgRouteLaws: http/routes/org.rs, me.rs, auth.rs.  MemberSearch:
      the listing and search of members.
    - Getting in.  Access: the session tokens, the cache of roles and the layers of
      authentication and against forged requests in front of the private routes
      (auth/, http/).
    - The outside.  Cache: cache.rs.  RateLimits: mcp/rate_limit.rs and
      discord/ratelimit.rs.  Network: tools/url.rs, web_fetch.rs and
      sandbox/egress.rs.  LarkFrames: lark/pbbp2.rs, codec.rs.  Gateway,
      GatewayLaws: discord/codec.rs, connection.rs, ws_manager.rs and lark/ws_manager.rs.
      Signed, SignedLaws: the signed links and webhooks of the three chat platforms.
    - The chats.  ChatText, ChatPost, ChatPump with their Laws: mentions and markup
      between the platforms and the feed, posting in parts with retries, and the pump
      that posts a thread's replies (discord/, slack/, lark/).  DiscordBridge,
      DiscordBridgeLaws: discord/bridge.rs with the stores of people, channels and
      threads, from a message to the feed and the queue.
    - Remote tools (mcp/, http/routes/mcp.rs).  McpStore: the values and the four
      tables (pg_store.rs, catalog.rs, pg_credentials.rs, oauth/state_adapter.rs) and
      an agent's allowlist (agents/types.rs).  McpRegistry: client.rs, tool.rs, the
      state of registry.rs and its view in scoped.rs.  McpOauth: oauth/session.rs and
      the adapters.  McpRefresh: the refresh of registry.rs and refresher.rs.
      McpRoutes: the requests, the callback and the chat links.  McpRouteLaws has
      the theorems on the requests, McpDemo the witnesses and the findings.
    - Posting a prompt.  Submit, SubmitLaws, SubmitRetry: http/routes/prompts.rs over
      Office, Billing and the channels.

    How they meet: Worker calls the operations of Queue, and [worker_turn_settles]
    ends in a state that QueueSafety reaches, so the two sets of theorems compose.
    Scheduling and Office enqueue through Queue's [enqueue_trigger_impl].  Compaction
    reads rows of Threads; Billing prices the models of Catalog.  Agent runs
    Compaction's [build_context], Threads' [append], Billing's gate and settle and
    Tools' plan as one program; GatedAgent instantiates its verdict with the gate of
    Approvals.  SendMessage and ApprovalFlow are programs over Office, whose calls
    keep the invariants of Threads, Queue, Responses and Approvals together
    ([office_ok]).  The memory tools act on Memory through the handles of Composer.
    OrgRoutes is a set of programs over the transactions of Orgs.  To Worker an agent
    run is the environment's answer: the two are proved separately.

    ** What the theorems show

    - Queue and Worker: a drain is at most once, a live lease excludes other claims, a
      claim makes progress, enqueue and the DAG budget are idempotent; a turn marks its
      batch once and releases the lease last whatever fails, and settles its batch when
      storage answers; a batch whose worker died stays Processing.
    - Threads, Compaction: appends keep sequence numbers gap-free and keys unique; a
      context read is bounded and has no orphaned tool result; an overflowing window is
      split in rows that are served and rows that are folded, in at most eight requests,
      the oldest of more chunks than that being given up.
    - Agent, GatedAgent: a run refines an abstract sequence of turns, sends at most
      [max_turns] requests for a next step (folds and reductions apart), leaves every
      tool call in the feed answered, and runs a gated tool only after a human approved
      that call.
    - Billing, Scheduling: the balance is the ledger and credit moves once per key; the
      next fire is the least admissible instant and firing advances a task once.
    - Office, SendMessage, ApprovalFlow: a send posts once, addressed as it was checked,
      and wakes only for what it posted; an approval is asked once, shown only when it
      was created and moves forward only; all of it keeps the office well formed.
      Responses: a subscriber sees each chunk once and misses none unless told so.
    - Memory: the journal replays to the table (a forget being reverted once); the
      librarian, alone, leaves a winner for every duplicate it merges and never touches
      a pinned row; the reflections that succeeded cover the posts up to the checkpoint;
      no tool touches a protected row; the handles of a prompt mean what it shows; a
      prompt needs four reads only.
    - Orgs, OrgRoutes, MemberSearch: every organisation keeps an owner, no request on
      organisations of somebody who is not an owner changes the owners (accepting an
      invitation, creating and login aside), an invitation admits once, a login lands in
      an organisation of the person, the search matches exactly the names that contain
      the query.
    - Access: a private route hands its handler only the identity of a token signed here,
      with a role the database gave and the cache kept for less than its lifetime.
    - Cache, Network, Gateway, LarkFrames, Signed: the cache never serves a value that
      an invalidation overtook; nothing outside the deny floor is requested; one
      connection per bot, whose session follows the server; a fragmented message is
      reassembled exactly while at most sixty-four identifiers are in use; a token
      accepted was issued, and an issued one is accepted.
    - ChatText, ChatPost, ChatPump, DiscordBridge: a rendered reply pings exactly the
      people it names and is read back as it was; parts are posted in order and stop at
      the first that fails; Discord's and Lark's pumps drop nothing unless they are
      cancelled; a message is appended once under its key and wakes its agent only when
      it is addressed.
    - Mcp: an agent reaches only the tools its list allows on servers of its
      organisation; a refresh installs the reference map of the listings, the first of
      a name standing; a callback stays with the server its state was started for and
      reports success only once the server is marked; requests and refreshes keep the
      tables in order under any interleaving and any fault.
    - Submit: a post writes nothing before the gate when it wakes an agent, lands once, in
      a thread that is open to its sender, and wakes whom it addresses; posted again it
      answers the same and changes nothing.
    - Round trips of the stored forms, as properties or lemmas: labels, weekdays and
      times, attachments, models, offloaded bodies, decimal numbers, tokens, events.
    Findings are theorems on concrete tables where they can be: the Demo modules.

    ** Modelling conventions

    - Integers are [Z] at their width: where the source uses checked or saturating
      arithmetic the check is written out ([in_i64], [I64_MAX], [U32_MAX]), and columns
      reject what BIGINT or a CHECK rejects.  Instants and durations are nanoseconds as
      [Z]; the end of chrono's range is not modelled.
    - [assert!], [expect] and [unreachable!] are the third constructor of [res],
      [Panic]: theorems state that it does not occur, where it does not.
    - UUIDs are [N]; a fresh id is an argument, and a clash is the primary key error the
      database would raise.  Foreign keys into tables outside the model are a parameter
      of Queue and Memory and taken as satisfied elsewhere; cascading deletes from those
      tables are not modelled.
    - A transaction ([Tx], or a function of the tables) is atomic: it applies as a whole
      or leaves the tables as they were.  Row locks appear where the code depends on
      them.  Reads and writes under row-level security take the predicate of what the
      caller may see.  Orgs also interleaves the statements of a transaction, as READ
      COMMITTED allows.
    - A handler of several calls is a [Prog]: between two calls the tables may change as
      the environment ([Net]) says, and any call may fail, having taken effect or not.
      [ensures] is its logic over every such environment; [Alone], [Follows], [Respects]
      and [moves] restrict what others do; [safe] says that it keeps [office_ok].
    - Fuel: the worker's ping-pong loop is structural on its bound; the calendar search
      on the nine dates the code tries ([recurring_never_exhausts]); the agent's turn
      loops on [max_turns], which the code bounds by 128; redirects on their limit of
      hops; reconnects on their limit of failures; the other loops on the list they read.
    - External code is a parameter: the providers and the fold ([FoldStrategy],
      [FoldEnv]), the time-zone database ([Tz] with [TzLaws]), the printers and parsers
      of UUIDs, JSON and RFC 3339 instants ([UuidPrinter], [UuidParser], [JsonPrinter],
      [Rfc3339]), [Debug] escapes ([DebugStr]), case mappings and folds ([Lowercase],
      [CharFold], [Citext], [Collation]), digests and keys ([Sha256], [Macs], [Base64],
      [JwtSigner]), URL parsing ([UrlParser]), embeddings and their distance ([Embedder],
      [VectorOps]), the JSON of the gateway ([GatewayJson]), the outbound routers, the MCP
      library ([Rmcp], [Script], [McpWire], [HeaderNames], [UrlText]) and the texts of
      third-party errors.  Decoding a tool's or a request's JSON is serde's: the
      model starts at the decoded arguments.  The iteration order of a hash map is a
      parameter wherever it can be observed.

    ** What is not modelled

    The wire formats of the providers, object storage and multipart uploads, the sandbox
    process, the sealing of secrets, configuration, telemetry and assembly are
    input/output, vendor protocols or wiring.  The token bucket of the Discord egress
    counts in floating point.  Most request handlers decode, call one modelled store and
    shape a response.  The thread list and feed projections of the web page, avatars, the
    mailer and the cookies' attributes are not modelled.  Of the bridges, the
    Discord one is modelled; Slack's and Lark's differ in their stores and texts.  Of MCP,
    the listings with their shapes and texts, a registry built without OAuth and the outer
    deadline of a connection are left out; what rmcp does between its requests is
    arbitrary within the two stores it is given. *)

From Stdlib Require Import ZArith Lia Ascii String Sorted.
From stdpp Require Import base gmap strings list pretty.

#[global] Set Default Goal Selector "!".

Declare Scope patom_scope.
Delimit Scope patom_scope with patom.

(** ** Results, errors and panics

    A Rust [Result<A, E>] is [Ok]/[Err]; the third constructor is a panic
    ([assert!], [expect], [unreachable!]), which unwinds the task and never
    yields a value to the caller. *)

Inductive res (E A : Type) : Type :=
| Ok (a : A)
| Err (e : E)
| Panic (msg : string).
Arguments Ok {E A} _.
Arguments Err {E A} _.
Arguments Panic {E A} _.

#[export] Instance res_eq_dec `{EqDecision E, EqDecision A} : EqDecision (res E A).
Proof. solve_decision. Defined.

Definition res_bind {E A B} (m : res E A) (k : A → res E B) : res E B :=
  match m with Ok a => k a | Err e => Err e | Panic s => Panic s end.

Definition res_map_err {E F A} (f : E → F) (m : res E A) : res F A :=
  match m with Ok a => Ok a | Err e => Err (f e) | Panic s => Panic s end.

(** [Option::ok_or] *)
Definition ok_or {E A} (o : option A) (e : E) : res E A :=
  match o with Some a => Ok a | None => Err e end.

(** [Option::expect] *)
Definition expect {E A} (o : option A) (msg : string) : res E A :=
  match o with Some a => Ok a | None => Panic msg end.

(** [Result::ok] *)
Definition res_ok {E A} (m : res E A) : option A :=
  match m with Ok a => Some a | _ => None end.

Definition is_ok {E A} (m : res E A) : bool :=
  match m with Ok _ => true | _ => false end.

(** [assert!(b)] *)
Definition rassert {E} (b : bool) (msg : string) : res E unit :=
  if b then Ok tt else Panic msg.

Notation "x <-? m ; k" := (res_bind m (λ x, k))
  (at level 100, m at next level, k at level 200, right associativity) : patom_scope.
Notation "m ;;? k" := (res_bind m (λ _, k))
  (at level 100, k at level 200, right associativity) : patom_scope.
#[global] Open Scope patom_scope.

Lemma res_bind_Ok {E A B} (m : res E A) (k : A → res E B) b :
  res_bind m k = Ok b ↔ ∃ a, m = Ok a ∧ k a = Ok b.
Proof.
  destruct m as [a| |]; simpl; split; try discriminate.
  - intros H. by exists a.
  - intros (? & [= <-] & H). exact H.
  - intros (? & H & _). discriminate H.
  - intros (? & H & _). discriminate H.
Qed.

Lemma res_bind_assoc {E A B C} (m : res E A) (k : A → res E B) (l : B → res E C) :
  res_bind (res_bind m k) l = res_bind m (λ a, res_bind (k a) l).
Proof. by destruct m. Qed.

Lemma is_ok_inv {E A} (m : res E A) : is_ok m = true ↔ ∃ a, m = Ok a.
Proof.
  destruct m as [a| |]; simpl; split; try discriminate.
  - intros _. by exists a.
  - done.
  - intros (? & H). discriminate H.
  - intros (? & H). discriminate H.
Qed.

(** Splits hypotheses that say a monadic computation ended in [Ok]. *)
Ltac res_inv :=
  repeat match goal with
  | H : res_bind _ _ = Ok _ |- _ =>
      apply res_bind_Ok in H; destruct H as (? & ? & H)
  | H : Ok _ = Ok _ |- _ => injection H as H; try subst
  | H : Err _ = Ok _ |- _ => discriminate H
  | H : Panic _ = Ok _ |- _ => discriminate H
  end.

(** ** Machine integers

    Rust integers are mathematical integers with their range written out. *)

Definition U32_MAX : Z := 4294967295.
Definition I32_MAX : Z := 2147483647.
Definition I64_MAX : Z := 9223372036854775807.
Definition I64_MIN : Z := -9223372036854775808.
Definition U64_MAX : Z := 18446744073709551615.
Definition USIZE_MAX : Z := U64_MAX.

Definition in_u32 (n : Z) : bool := (0 <=? n)%Z && (n <=? U32_MAX)%Z.
Definition in_i64 (n : Z) : bool := (I64_MIN <=? n)%Z && (n <=? I64_MAX)%Z.
Definition in_u64 (n : Z) : bool := (0 <=? n)%Z && (n <=? U64_MAX)%Z.

Definition u32_saturating_add (a b : Z) : Z := Z.min U32_MAX (a + b).
Definition u64_saturating_add (a b : Z) : Z := Z.min U64_MAX (a + b).
Definition u64_saturating_sub (a b : Z) : Z := Z.max 0 (a - b).
Definition u64_saturating_mul (a b : Z) : Z := Z.min U64_MAX (a * b).
Definition i64_clamp (n : Z) : Z := Z.max I64_MIN (Z.min I64_MAX n).
Definition i64_saturating_add (a b : Z) : Z := i64_clamp (a + b).
Definition i64_saturating_sub (a b : Z) : Z := i64_clamp (a - b).
Definition i64_saturating_mul (a b : Z) : Z := i64_clamp (a * b).
Definition u64_checked_add (a b : Z) : option Z :=
  if (a + b <=? U64_MAX)%Z then Some (a + b)%Z else None.

(** ** Strings

    A Rust [str] is the sequence of its Unicode scalar values ([str::chars]);
    its [len] is the number of bytes of its UTF-8 encoding. *)

Abbreviation str := (list N).

(** An ASCII literal. *)
Definition lit (s : string) : str := N_of_ascii <$> list_ascii_of_string s.

Definition len_utf8 (c : N) : nat :=
  if (c <? 0x80)%N then 1
  else if (c <? 0x800)%N then 2
  else if (c <? 0x10000)%N then 3 else 4.

(** [str::len] *)
Definition str_len (s : str) : nat := sum_list (len_utf8 <$> s).
(** [s.chars().count()] *)
Definition chars_count (s : str) : nat := length s.

(** [char::is_whitespace]: the Unicode White_Space property. *)
Definition is_whitespace (c : N) : bool :=
  ((0x9 <=? c) && (c <=? 0xd) || (c =? 0x20) || (c =? 0x85) || (c =? 0xa0)
   || (c =? 0x1680) || ((0x2000 <=? c) && (c <=? 0x200a))
   || (c =? 0x2028) || (c =? 0x2029) || (c =? 0x202f) || (c =? 0x205f)
   || (c =? 0x3000))%N.

Fixpoint trim_start (s : str) : str :=
  match s with
  | [] => []
  | c :: s' => if is_whitespace c then trim_start s' else s
  end.
Definition trim_end (s : str) : str := reverse (trim_start (reverse s)).
Definition trim (s : str) : str := trim_end (trim_start s).

Definition is_empty {A} (s : list A) : bool :=
  match s with [] => true | _ => false end.

(** [char::is_ascii_alphanumeric] and [char::to_ascii_lowercase] *)
Definition is_ascii_alphanumeric (c : N) : bool :=
  ((0x30 <=? c) && (c <=? 0x39) || (0x41 <=? c) && (c <=? 0x5a)
   || (0x61 <=? c) && (c <=? 0x7a))%N.
Definition to_ascii_lowercase_char (c : N) : N :=
  (if (0x41 <=? c) && (c <=? 0x5a) then c + 0x20 else c)%N.
Definition to_ascii_lowercase (s : str) : str := to_ascii_lowercase_char <$> s.

(** [str::starts_with] *)
Fixpoint starts_with (p s : str) : bool :=
  match p, s with
  | [], _ => true
  | a :: p', b :: s' => bool_decide (a = b) && starts_with p' s'
  | _ :: _, [] => false
  end.

(** [str::contains] *)
Fixpoint contains_str (p s : str) : bool :=
  starts_with p s ||
  match s with [] => false | _ :: s' => contains_str p s' end.

(** [str::find]: the position, in characters, of the first occurrence. *)
Fixpoint find_str (p s : str) : option nat :=
  if starts_with p s then Some 0
  else match s with [] => None | _ :: s' => S <$> find_str p s' end.

(** [s.matches(p).take(k).count()] for a non-empty [p]: left to right, without
    overlaps; [skip] is what is left of the current match. *)
Fixpoint count_matches (p s : str) (skip k : nat) : nat :=
  match s with
  | [] => 0
  | _ :: s' =>
      match skip with
      | S skip' => count_matches p s' skip' k
      | 0 =>
          if starts_with p s then
            match k with 0 => 0 | S k' => S (count_matches p s' (length p - 1) k') end
          else count_matches p s' 0 k
      end
  end.

(** [str::lines] *)
Fixpoint split_lines (cur s : str) : list str :=
  match s with
  | [] => match cur with [] => [] | _ => [reverse cur] end
  | c :: s' =>
      if (c =? 0xa)%N
      then reverse (match cur with 0xd%N :: cur' => cur' | _ => cur end) :: split_lines [] s'
      else split_lines (c :: cur) s'
  end.
Definition lines (s : str) : list str := split_lines [] s.

(** Decimal rendering of an integer ([Display]). *)
Definition show_Z (n : Z) : str := lit (pretty n).

Lemma lit_inj s t : lit s = lit t → s = t.
Proof.
  intros H. apply (f_equal (fmap ascii_of_N)) in H. unfold lit in H.
  rewrite <-!list_fmap_compose in H.
  rewrite !(Forall_fmap_ext_1 (ascii_of_N ∘ N_of_ascii) (λ x, x)), !list_fmap_id in H
    by (apply Forall_true; apply ascii_N_embedding).
  rewrite <-(string_of_list_ascii_of_string s), H. apply string_of_list_ascii_of_string.
Qed.

Lemma pretty_N_go_length x s :
  String.length (pretty_N_go x s) ≤ String.length s + (if decide (x = 0%N) then 0 else S (N.to_nat (N.log2 x))).
Proof.
  revert s. induction (N.lt_wf_0 x) as [x _ IH]; intros s.
  destruct (decide (x = 0%N)) as [->|Hx]; [rewrite pretty_N_go_0; lia|].
  rewrite pretty_N_go_step by lia. etrans; [apply IH, N.div_lt; lia|]. simpl.
  case_decide as Hd; [lia|].
  assert (N.log2 (x / 10) < N.log2 x)%N; [|lia].
  apply N.le_lt_trans with (N.log2 (x / 2)).
  - apply N.log2_le_mono. apply N.div_le_compat_l. lia.
  - change (x / 2)%N with (x / 2 ^ 1)%N. rewrite <-N.shiftr_div_pow2, N.log2_shiftr. assert (0 < N.log2 x)%N; [|lia].
    apply N.log2_pos. destruct (decide (x = 1%N)) as [->|]; [by destruct Hd|lia].
Qed.

Lemma list_ascii_length s : length (list_ascii_of_string s) = String.length s.
Proof. induction s as [|c s IH]; simpl; by rewrite ?IH. Qed.

(** A 64-bit integer prints in at most 64 characters. *)
Lemma show_Z_length n : (0 ≤ n < 2 ^ 64)%Z → length (show_Z n) ≤ 64.
Proof.
  intros Hn. unfold show_Z, lit. rewrite length_fmap, list_ascii_length.
  destruct n as [|p|p]; [vm_compute; lia| |lia].
  change (pretty (Z.pos p)) with (pretty (N.pos p)). unfold pretty, pretty_N.
  rewrite decide_False by done. etrans; [apply pretty_N_go_length|].
  rewrite decide_False by done. assert (N.log2 (N.pos p) < 64)%N; [|simpl String.length; lia].
  apply N.log2_lt_pow2; lia.
Qed.

Lemma lit_length s : length (lit s) = String.length s.
Proof. unfold lit. by rewrite length_fmap, list_ascii_length. Qed.

(** Substring search. *)

Lemma starts_with_spec p s : starts_with p s = true ↔ ∃ t, s = p ++ t.
Proof.
  revert s. induction p as [|a p IH]; intros s; [simpl; naive_solver|].
  destruct s as [|b s]; [split; [done|by intros [t ?]]|]. simpl.
  rewrite andb_true_iff, bool_decide_eq_true, IH. naive_solver.
Qed.

Lemma find_str_Some p s k :
  find_str p s = Some k → ∃ a b, s = a ++ p ++ b ∧ length a = k.
Proof.
  revert k. induction s as [|c s IH]; intros k; cbn [find_str].
  - destruct (starts_with p []) eqn:E; [|done]. apply starts_with_spec in E as [t ->].
    intros [= <-]. by exists [], t.
  - destruct (starts_with p (c :: s)) eqn:E.
    + apply starts_with_spec in E as [t ->]. intros [= <-]. by exists [], t.
    + destruct (find_str p s) as [k'|]; [|done]. intros [= <-].
      destruct (IH k' eq_refl) as (a & b & -> & <-). by exists (c :: a), b.
Qed.

Lemma find_str_app a p b : ∃ k, find_str p (a ++ p ++ b) = Some k ∧ k ≤ length a.
Proof.
  induction a as [|c a (k & IH & Hk)].
  - exists 0. split; [|done]. rewrite app_nil_l.
    assert (starts_with p (p ++ b) = true) as E by (apply starts_with_spec; eauto).
    destruct (p ++ b); cbn [find_str]; by rewrite E.
  - rewrite <-app_comm_cons. cbn [find_str]. case_match.
    + exists 0. split; [done|lia].
    + rewrite IH. exists (S k). split; [done|simpl; lia].
Qed.

Lemma forallb_Forall {A} (p : A → bool) (l : list A) :
  forallb p l = true ↔ Forall (λ x, p x = true) l.
Proof.
  induction l as [|x l IH]; simpl; [split; auto|].
  by rewrite andb_true_iff, Forall_cons, IH.
Qed.

Lemma is_empty_true {A} (l : list A) : is_empty l = true ↔ l = [].
Proof. by destruct l. Qed.
Lemma is_empty_false {A} (l : list A) : is_empty l = false ↔ l ≠ [].
Proof. by destruct l. Qed.

(** Turns every boolean test of the context into the proposition it decides. *)
Ltac bools :=
  repeat match goal with
  | H : is_empty _ = false |- _ => apply is_empty_false in H
  | H : is_empty _ = true |- _ => apply is_empty_true in H
  | H : (_ <? _)%nat = true |- _ => apply Nat.ltb_lt in H
  | H : (_ <? _)%nat = false |- _ => apply Nat.ltb_ge in H
  | H : (_ <=? _)%nat = true |- _ => apply Nat.leb_le in H
  | H : (_ <=? _)%nat = false |- _ => apply Nat.leb_gt in H
  | H : (_ =? _)%nat = true |- _ => apply Nat.eqb_eq in H
  | H : (_ =? _)%nat = false |- _ => apply Nat.eqb_neq in H
  | H : (_ =? _)%Z = true |- _ => apply Z.eqb_eq in H
  | H : (_ =? _)%Z = false |- _ => apply Z.eqb_neq in H
  | H : (_ <? _)%Z = true |- _ => apply Z.ltb_lt in H
  | H : (_ <? _)%Z = false |- _ => apply Z.ltb_ge in H
  | H : (_ <=? _)%Z = true |- _ => apply Z.leb_le in H
  | H : (_ <=? _)%Z = false |- _ => apply Z.leb_gt in H
  | H : negb _ = true |- _ => apply negb_true_iff in H
  | H : negb _ = false |- _ => apply negb_false_iff in H
  | H : _ && _ = true |- _ => apply andb_true_iff in H; destruct H
  | H : _ || _ = false |- _ => apply orb_false_iff in H; destruct H
  | H : bool_decide _ = true |- _ => apply bool_decide_eq_true_1 in H
  | H : bool_decide _ = false |- _ => apply bool_decide_eq_false_1 in H
  end.

Lemma str_len_app s t : str_len (s ++ t) = str_len s + str_len t.
Proof. unfold str_len. rewrite fmap_app. induction s as [|c s IH]; csimpl; [done|]. rewrite IH. lia. Qed.

Lemma len_utf8_bounds c : 1 ≤ len_utf8 c ≤ 4.
Proof. unfold len_utf8. repeat case_match; lia. Qed.

Lemma chars_le_len s : chars_count s ≤ str_len s.
Proof.
  unfold chars_count, str_len. induction s as [|c s IH]; csimpl; [lia|].
  pose proof (len_utf8_bounds c). lia.
Qed.

(** [trim] is idempotent: what is left starts and ends with a visible character. *)

Lemma trim_start_idemp s : trim_start (trim_start s) = trim_start s.
Proof.
  induction s as [|c s IH]; [done|]. simpl. destruct (is_whitespace c) eqn:E; [done|].
  simpl. by rewrite E.
Qed.

Lemma trim_start_prefix s t : s `prefix_of` trim_start t → trim_start s = s.
Proof.
  intros [k Hk]. destruct s as [|c s]; [done|]. pose proof (trim_start_idemp t) as Hi.
  rewrite Hk in Hi. simpl in *. destruct (is_whitespace c) eqn:E; [|done].
  assert (length (trim_start (s ++ k)) ≤ length (s ++ k)) as Hle.
  { clear. induction (s ++ k) as [|x l IH]; simpl; [lia|]. case_match; simpl; lia. }
  rewrite Hi in Hle. simpl in Hle. lia.
Qed.

Lemma trim_end_prefix s : trim_end s `prefix_of` s.
Proof.
  unfold trim_end.
  assert (∀ l, trim_start l `suffix_of` l) as Hs.
  { induction l as [|c l IH]; simpl; [done|]. case_match; [by apply suffix_cons_r|done]. }
  rewrite <-(reverse_involutive s) at 2. apply suffix_prefix_reverse.
  apply Hs.
Qed.

Lemma trim_idemp s : trim (trim s) = trim s.
Proof.
  unfold trim at 1. rewrite (trim_start_prefix (trim s) s) by apply trim_end_prefix.
  unfold trim, trim_end. by rewrite reverse_involutive, trim_start_idemp.
Qed.

(** ** Tables

    A table is the list of its rows in the order the executor happens to scan
    them.  Statements whose result depends on an unspecified order (ties of an
    [ORDER BY], the order of [RETURNING]) are functions of that list, so a
    theorem about every table is a theorem about every scan order. *)

(** Keys that are unique in a table. *)
Lemma NoDup_fmap_filter {A B} (g : A → B) P `{∀ x, Decision (P x)} (l : list A) :
  NoDup (g <$> l) → NoDup (g <$> filter P l).
Proof.
  induction l as [|x l IH]; [done|]. rewrite fmap_cons, NoDup_cons. intros [Hx Hl].
  rewrite filter_cons. case_decide; [|by apply IH]. rewrite fmap_cons, NoDup_cons.
  split; [|by apply IH]. rewrite list_elem_of_fmap in Hx |- *.
  intros (y & ? & [_ ?]%list_elem_of_filter). eauto.
Qed.

Lemma NoDup_fmap_eq {A B} (g : A → B) (l : list A) x y :
  NoDup (g <$> l) → x ∈ l → y ∈ l → g x = g y → x = y.
Proof.
  induction l as [|z l IH]; [by intros _ ?%elem_of_nil|].
  rewrite fmap_cons, NoDup_cons. intros [Hz Hl].
  rewrite !elem_of_cons. intros [->|Hx] [->|Hy] Hg; [done|..|by apply IH].
  - destruct Hz. rewrite list_elem_of_fmap. eauto.
  - destruct Hz. rewrite list_elem_of_fmap. eauto.
Qed.

Lemma NoDup_mjoin_eq {A B} (g : A → list B) (l : list A) x y i :
  NoDup (mjoin (g <$> l)) → x ∈ l → y ∈ l → i ∈ g x → i ∈ g y → x = y.
Proof.
  induction l as [|z l IH]; [by intros _ ?%elem_of_nil|]. cbn.
  rewrite NoDup_app. intros (_ & Hd & Hl).
  assert (∀ w, w ∈ l → i ∈ g w → i ∈ mjoin (g <$> l)) as Hw.
  { intros w Hwl Hi. apply list_elem_of_join. exists (g w). split; [done|].
    apply list_elem_of_fmap. eauto. }
  rewrite !elem_of_cons. intros [->|Hx] [->|Hy] Hix Hiy; [done|..|by apply IH].
  - destruct (Hd i Hix). by apply (Hw y).
  - destruct (Hd i Hiy). by apply (Hw x).
Qed.

Lemma filter_all {A} (P : A → Prop) `{∀ x, Decision (P x)} (l : list A) : Forall P l → filter P l = l.
Proof. induction 1 as [|x l Hx _ IH]; [done|]. by rewrite filter_cons_True, IH. Qed.
Lemma filter_none {A} (P : A → Prop) `{∀ x, Decision (P x)} (l : list A) : Forall (λ x, ¬ P x) l → filter P l = [].
Proof. induction 1 as [|x l Hx _ IH]; [done|]. by rewrite filter_cons_False. Qed.

Lemma filter_ext_in {A} (P Q : A → Prop) `{∀ x, Decision (P x), ∀ x, Decision (Q x)}
    (l : list A) : (∀ x, x ∈ l → P x ↔ Q x) → filter P l = filter Q l.
Proof.
  induction l as [|x l IH]; [done|]. intros Hpq. rewrite !filter_cons, IH by set_solver.
  specialize (Hpq x (list_elem_of_here x l)). repeat case_decide; tauto.
Qed.

(** [UPDATE t SET f WHERE P] *)
Definition update_where {A} (P : A → Prop) `{∀ x, Decision (P x)} (f : A → A)
    (t : list A) : list A :=
  (λ r, if decide (P r) then f r else r) <$> t.

(** [ORDER BY key ASC LIMIT 1]: the first row of the scan with the least key. *)
Fixpoint min_by {A} (key : A → Z) (t : list A) : option A :=
  match t with
  | [] => None
  | r :: t' =>
      match min_by key t' with
      | None => Some r
      | Some m => if (key m <? key r)%Z then Some m else Some r
      end
  end.

(** A stable sort on an integer key ([ORDER BY key ASC]). *)
Fixpoint insert_by {A} (key : A → Z) (r : A) (t : list A) : list A :=
  match t with
  | [] => [r]
  | m :: t' => if (key r <=? key m)%Z then r :: t else m :: insert_by key r t'
  end.
Definition sort_by {A} (key : A → Z) (t : list A) : list A :=
  foldr (insert_by key) [] t.

Section tables.
Context {A : Type}.
Implicit Types (t : list A) (r : A).

Lemma length_update_where P `{∀ x, Decision (P x)} (f : A → A) t :
  length (update_where P f t) = length t.
Proof. unfold update_where. by rewrite length_fmap. Qed.

Lemma elem_of_update_where P `{∀ x, Decision (P x)} (f : A → A) t r :
  r ∈ update_where P f t ↔ ∃ r0, r0 ∈ t ∧ r = (if decide (P r0) then f r0 else r0).
Proof. unfold update_where. rewrite list_elem_of_fmap. naive_solver. Qed.

Lemma update_where_id P `{∀ x, Decision (P x)} (f : A → A) t :
  (∀ r, r ∈ t → ¬ P r) → update_where P f t = t.
Proof.
  unfold update_where. induction t as [|r t IH]; intros HP; [done|].
  rewrite fmap_cons, IH by set_solver. rewrite decide_False by set_solver. done.
Qed.

Lemma update_where_ext P Q `{∀ x, Decision (P x), ∀ x, Decision (Q x)} (f : A → A) t :
  (∀ r, r ∈ t → P r ↔ Q r) → update_where P f t = update_where Q f t.
Proof.
  unfold update_where. induction t as [|r t IH]; intros Hpq; [done|].
  rewrite !fmap_cons, IH by set_solver. f_equal.
  specialize (Hpq r (list_elem_of_here r t)). repeat case_decide; tauto.
Qed.

Lemma update_where_fmap {B} (g : A → B) P `{∀ x, Decision (P x)} (f : A → A) t :
  (∀ r, r ∈ t → P r → g (f r) = g r) → g <$> update_where P f t = g <$> t.
Proof.
  unfold update_where. induction t as [|r t IH]; intros Hg; [done|].
  rewrite !fmap_cons, IH by set_solver. f_equal. case_decide; [|done].
  apply Hg; set_solver.
Qed.

Lemma min_by_elem key t m : min_by key t = Some m → m ∈ t.
Proof.
  revert m. induction t as [|r t IH]; intros m; simpl; [done|].
  destruct (min_by key t) as [m'|] eqn:E; [|set_solver].
  case_match; intros [= <-]; set_solver.
Qed.

Lemma min_by_le key t m : min_by key t = Some m → ∀ r, r ∈ t → (key m ≤ key r)%Z.
Proof.
  revert m. induction t as [|r t IH]; intros m; simpl; [done|].
  destruct (min_by key t) as [m'|] eqn:E.
  - specialize (IH _ eq_refl). destruct (Z.ltb_spec (key m') (key r)); intros [= <-] x
      [->|Hx]%elem_of_cons; try lia; specialize (IH _ Hx); lia.
  - intros [= <-] x [->|Hx]%elem_of_cons; [lia|].
    destruct t as [|y t']; [set_solver|]. simpl in E. by repeat case_match.
Qed.

Lemma min_by_is_Some key t : t ≠ [] → is_Some (min_by key t).
Proof. destruct t; simpl; [done|]. intros _. repeat case_match; eauto. Qed.

Lemma insert_by_perm key r t : insert_by key r t ≡ₚ r :: t.
Proof.
  induction t as [|m t IH]; simpl; [done|]. case_match; [done|].
  rewrite IH. constructor.
Qed.

Lemma sort_by_perm key t : sort_by key t ≡ₚ t.
Proof.
  unfold sort_by. induction t as [|r t IH]; simpl; [done|].
  by rewrite insert_by_perm, IH.
Qed.

Lemma elem_of_sort_by key t r : r ∈ sort_by key t ↔ r ∈ t.
Proof. by rewrite sort_by_perm. Qed.

Lemma insert_by_sorted key r t :
  StronglySorted (λ x y, (key x ≤ key y)%Z) t →
  StronglySorted (λ x y, (key x ≤ key y)%Z) (insert_by key r t).
Proof.
  induction 1 as [|m t Hs IH Hm]; simpl; [by repeat constructor|].
  destruct (Z.leb_spec (key r) (key m)) as [Hle|Hlt].
  - constructor; [by constructor|]. constructor; [done|].
    eapply Forall_impl; [exact Hm|]. simpl. intros; lia.
  - constructor; [done|]. rewrite insert_by_perm. constructor; [lia|done].
Qed.

Lemma sort_by_sorted key t : StronglySorted (λ x y, (key x ≤ key y)%Z) (sort_by key t).
Proof. induction t as [|r t IH]; simpl; [constructor|]. by apply insert_by_sorted. Qed.

(** [ORDER BY key LIMIT n] keeps the least keys. *)
Lemma sorted_take_le (key : A → Z) n t x y :
  StronglySorted (λ a b, (key a ≤ key b)%Z) t → x ∈ take n t → y ∈ t → y ∉ take n t →
  (key x ≤ key y)%Z.
Proof.
  intros Hs. revert n. induction Hs as [|m t Hs IH Hm]; intros [|n]; simpl; try set_solver.
  rewrite !elem_of_cons. intros [->|Hx] [->|Hy] Hn; try tauto.
  - rewrite Forall_forall in Hm. by apply Hm.
  - apply (IH n); tauto.
Qed.
End tables.

(** *** Searches, appended and rewritten rows *)

Lemma find_Some_iff {A} (f : A → bool) l x : List.find f l = Some x → x ∈ l ∧ f x = true.
Proof. intros [H ?]%List.find_some. split; [by apply list_elem_of_In|done]. Qed.

Lemma find_None_iff {A} (f : A → bool) l : List.find f l = None ↔ ∀ x, x ∈ l → f x = false.
Proof.
  split.
  - intros H x Hx. by apply (List.find_none _ _ H), list_elem_of_In.
  - intros H. destruct (List.find f l) as [x|] eqn:E; [|done].
    apply find_Some_iff in E as [Hx Hf]. by rewrite (H x Hx) in Hf.
Qed.

(** Rows updated in place keep a key distinct when at most one row is updated, to a
    key no other row has. *)
Lemma NoDup_fmap_update_where {A B} (g : A → B) P `{∀ x, Decision (P x)} (f : A → A) (t : list A) :
  NoDup (g <$> t) → (∀ x y, x ∈ t → y ∈ t → P x → P y → g x = g y) →
  (∀ x y, x ∈ t → y ∈ t → P x → ¬ P y → g (f x) ≠ g y) → NoDup (g <$> update_where P f t).
Proof.
  rewrite !NoDup_alt. intros Hnd Hone Hnew i j k.
  unfold update_where. rewrite !list_lookup_fmap. specialize (Hnd i j).
  rewrite !list_lookup_fmap in Hnd.
  destruct (t !! i) as [x|] eqn:Ex, (t !! j) as [y|] eqn:Ey; csimpl; try done.
  assert (x ∈ t ∧ y ∈ t) as [Hx Hy] by (split; eapply list_elem_of_lookup_2; eauto).
  intros [= Hi] [= Hj]. csimpl in *. destruct (decide (P x)), (decide (P y)).
  - apply (Hnd (g x)); [done|]. f_equal. symmetry. by apply Hone.
  - destruct (Hnew x y); congruence.
  - destruct (Hnew y x); congruence.
  - apply (Hnd k); congruence.
Qed.

Lemma NoDup_snoc {A} (l : list A) x : NoDup l → x ∉ l → NoDup (l ++ [x]).
Proof. intros ? ?. apply NoDup_app. split_and!; [done| |by apply NoDup_singleton]. set_solver. Qed.

Lemma Forall_snoc {A} (P : A → Prop) l x : Forall P l → P x → Forall P (l ++ [x]).
Proof. intros. apply Forall_app. eauto. Qed.

Lemma Forall_filter {A} (Q P : A → Prop) `{∀ x, Decision (P x)} (t : list A) : Forall Q t → Forall Q (filter P t).
Proof. rewrite !Forall_forall. intros HQ x [_ Hx]%list_elem_of_filter. by apply HQ. Qed.

Lemma Forall_update_where {A} (Q : A → Prop) P `{∀ x, Decision (P x)} (f : A → A) (t : list A) :
  Forall Q t → (∀ x, x ∈ t → P x → Q (f x)) → Forall Q (update_where P f t).
Proof.
  rewrite !Forall_forall. intros HQ Hf x (r & Hr & ->)%elem_of_update_where. case_decide; eauto.
Qed.

Lemma filter_update_where_sub {A} (Q P : A → Prop) `{∀ x, Decision (Q x), ∀ x, Decision (P x)} (f : A → A) t :
  (∀ x, x ∈ t → P x → ¬ Q (f x)) →
  filter Q (update_where P f t) = filter (λ x, Q x ∧ ¬ P x) t.
Proof.
  unfold update_where. induction t as [|x t IH]; intros H1; [done|].
  rewrite fmap_cons, !filter_cons, IH by set_solver.
  specialize (H1 x (list_elem_of_here x t)). destruct (decide (P x)); repeat case_decide; tauto.
Qed.

Lemma existsb_false {A} (f : A → bool) l : existsb f l = false ↔ ∀ x, x ∈ l → f x = false.
Proof.
  split.
  - intros Hf x Hx. destruct (f x) eqn:E; [|done].
    assert (existsb f l = true); [|congruence]. apply existsb_exists. exists x.
    by rewrite <-list_elem_of_In.
  - intros Hf. destruct (existsb f l) eqn:E; [|done].
    apply existsb_exists in E as (x & ?%list_elem_of_In & E). by rewrite Hf in E.
Qed.
