(* ===== verification/Program.v ===== *)
(** * Transactions and programs

    Two monads the later components share.  [Tx] is one database transaction: a
    function of the tables that ends in a value and new tables, or in an error
    that rolls back.  [Prog] is a handler that makes several calls: between two of
    them others may change the tables, and any call may fail, with or without
    having taken effect ([Net]).
    Then the logic of what a program may call. *)

From Stdlib Require Import ZArith Lia String.
From stdpp Require Import base list strings relations.
From S2P Require Import Prelude.

Definition no_panic {E A} (r : res E A) : Prop := match r with Panic _ => False | _ => True end.

(** ** Transactions *)

Definition Tx (S E A : Type) : Type := S → res E (A * S).

Definition tret {S E A} (a : A) : Tx S E A := λ s, Ok (a, s).
Definition terr {S E A} (e : E) : Tx S E A := λ _, Err e.
Definition tlift {S E A} (r : res E A) : Tx S E A := λ s, a <-? r ; Ok (a, s).
Definition tbind {S E A B} (m : Tx S E A) (k : A → Tx S E B) : Tx S E B :=
  λ s, p <-? m s ; k p.1 p.2.
Definition tget {S E A} (f : S → A) : Tx S E A := λ s, Ok (f s, s).
Definition tmod {S E} (f : S → S) : Tx S E unit := λ s, Ok (tt, f s).
Definition tguard {S E} (b : bool) (e : E) : Tx S E unit := if b then tret tt else terr e.

Notation "x <-$ m ; k" := (tbind m (λ x, k))
  (at level 100, m at next level, k at level 200, right associativity) : patom_scope.
Notation "m ;;$ k" := (tbind m (λ _, k))
  (at level 100, k at level 200, right associativity) : patom_scope.

(** [run_as_user] / [run_privileged]: commit, or leave the tables as they were. *)
Definition trun {S E A} (m : Tx S E A) (s : S) : res E A * S :=
  match m s with
  | Ok (a, s') => (Ok a, s')
  | Err e => (Err e, s)
  | Panic p => (Panic p, s)
  end.

Lemma tbind_Ok {S E A B} (m : Tx S E A) (k : A → Tx S E B) s b s' :
  tbind m k s = Ok (b, s') ↔ ∃ a s0, m s = Ok (a, s0) ∧ k a s0 = Ok (b, s').
Proof.
  unfold tbind. rewrite res_bind_Ok. split.
  - intros ([a s0] & ? & ?). eauto.
  - intros (a & s0 & ? & ?). by exists (a, s0).
Qed.

Lemma trun_Ok {S E A} (m : Tx S E A) s a s' :
  trun m s = (Ok a, s') ↔ m s = Ok (a, s').
Proof. unfold trun. destruct (m s) as [[]| |]; naive_solver. Qed.

(** What holds after every transaction that can only commit good tables. *)
Lemma trun_keeps {S E A} (P : S → Prop) (m : Tx S E A) s :
  P s → (∀ a s', m s = Ok (a, s') → P s') → P (trun m s).2.
Proof. intros Hs Hm. unfold trun. destruct (m s) as [[a s']| |] eqn:Em; cbn; eauto. Qed.

(** Splits a hypothesis that says a transaction ended in [Ok]. *)
Ltac tx_inv :=
  repeat match goal with
  | H : tbind _ _ _ = Ok _ |- _ => apply tbind_Ok in H; destruct H as (? & ? & ? & H)
  | H : tret _ _ = Ok _ |- _ => unfold tret in H; injection H; clear H; intros; subst
  | H : tget _ _ = Ok _ |- _ => unfold tget in H; injection H; clear H; intros; subst
  | H : tmod _ _ = Ok _ |- _ => unfold tmod in H; injection H; clear H; intros; subst
  | H : terr _ _ = Ok _ |- _ => discriminate H
  | H : tlift ?r _ = Ok _ |- _ => unfold tlift in H; destruct r eqn:?; [|discriminate H..]
  | H : tguard ?b _ _ = Ok _ |- _ => unfold tguard in H; destruct b eqn:?; [|discriminate H]
  | H : (if ?b then _ else _) _ = Ok _ |- _ => destruct b eqn:?
  | H : res_bind _ _ = Ok _ |- _ => apply res_bind_Ok in H; destruct H as (? & ? & H)
  | H : Ok _ = Ok _ |- _ => injection H; clear H; intros; subst
  end; cbn [fst snd] in *.

(** ** Programs *)

(** [others n]: what everybody else does to the tables before the [n]-th call;
    [fault n]: the [n]-th call fails, and whether it took effect first. *)
Record Net (W : Type) := mkNet {
  net_others : nat → W → W;
  net_fault : nat → option (str * bool) }.
Arguments mkNet {W} _ _.
Arguments net_others {W} _ _ _.
Arguments net_fault {W} _ _.

(** The tables and the trace of the calls made, with their results. *)
Record run_state (W V : Type) := mkRun { run_tables : W; run_trace : list V }.
Arguments mkRun {W V} _ _.
Arguments run_tables {W V} _.
Arguments run_trace {W V} _.

Definition Prog (W V E A : Type) : Type := run_state W V → res E A * run_state W V.

Definition pret {W V E A} (a : A) : Prog W V E A := λ s, (Ok a, s).
Definition perr {W V E A} (e : E) : Prog W V E A := λ s, (Err e, s).
Definition plift {W V E A} (r : res E A) : Prog W V E A := λ s, (r, s).
Definition pbind {W V E A B} (m : Prog W V E A) (k : A → Prog W V E B) : Prog W V E B := λ s,
  match m s with
  | (Ok a, s') => k a s'
  | (Err e, s') => (Err e, s')
  | (Panic p, s') => (Panic p, s')
  end.
Notation "x <-% m ; k" := (pbind m (λ x, k))
  (at level 100, m at next level, k at level 200, right associativity) : patom_scope.
Notation "m ;;% k" := (pbind m (λ _, k))
  (at level 100, k at level 200, right associativity) : patom_scope.

Definition pcall {W V E A} (net : Net W) (ev : res E A → V) (wrap : str → E)
    (f : nat → W → res E A * W) : Prog W V E A := λ s,
  let n := length (run_trace s) in
  let w := net_others net n (run_tables s) in
  let '(r, w') := f n w in
  let '(r, w') := match net_fault net n with
                  | None => (r, w')
                  | Some (msg, committed) => (Err (wrap msg), if (committed : bool) then w' else w)
                  end in
  (r, mkRun w' (run_trace s ++ [ev r])).

(** A step on the process's own memory, or the passing of time: it cannot fail. *)
Definition plocal {W V E A} (net : Net W) (ev : A → V) (f : W → A * W) : Prog W V E A := λ s,
  let w := net_others net (length (run_trace s)) (run_tables s) in
  let '(a, w') := f w in
  (Ok a, mkRun w' (run_trace s ++ [ev a])).

Lemma bind_plocal {W V E A B} (net : Net W) (ev : A → V) (f : W → A * W) (k : A → Prog W V E B) s :
  pbind (plocal net ev f) k s =
  let w := net_others net (length (run_trace s)) (run_tables s) in
  k (f w).1 (mkRun (f w).2 (run_trace s ++ [ev (f w).1])).
Proof. unfold pbind, plocal. by destruct (f _). Qed.

(** [let _ = m.await]: an error is dropped. *)
Definition ptry {W V E E' A} (m : Prog W V E A) : Prog W V E' unit := λ s,
  match m s with
  | (Panic p, s') => (Panic p, s')
  | (_, s') => (Ok tt, s')
  end.

(** [m.await] matched by the caller. *)
Definition pcatch {W V E E' A} (m : Prog W V E A) : Prog W V E' (E + A) := λ s,
  match m s with
  | (Ok a, s') => (Ok (inr a), s')
  | (Err e, s') => (Ok (inl e), s')
  | (Panic p, s') => (Panic p, s')
  end.

(** Nobody else, no fault. *)
Definition calm {W} : Net W := mkNet (λ _ w, w) (λ _, None).

(** ** What a program leaves in the trace

    [traced m Q]: whatever the tables, the others and the faults, [m] appends
    calls [vs] to the trace and ends in [r] with [Q r vs]. *)

Definition traced {W V E A} (m : Prog W V E A) (Q : res E A → list V → Prop) : Prop :=
  ∀ s, ∃ vs, run_trace (m s).2 = run_trace s ++ vs ∧ Q (m s).1 vs.

Section traced.
Context {W V E : Type}.

Lemma traced_mono {A} (m : Prog W V E A) (P Q : res E A → list V → Prop) :
  traced m P → (∀ r vs, P r vs → Q r vs) → traced m Q.
Proof. intros Hm HPQ s. destruct (Hm s) as (vs & ? & ?). eauto. Qed.

Lemma traced_lift {A} (r : res E A) (Q : res E A → list V → Prop) :
  Q r [] → traced (W := W) (plift r) Q.
Proof. intros HQ s. exists []. by rewrite app_nil_r. Qed.
Lemma traced_ret {A} (a : A) (Q : res E A → list V → Prop) :
  Q (Ok a) [] → traced (W := W) (pret a) Q.
Proof. apply traced_lift. Qed.
Lemma traced_err {A} (e : E) (Q : res E A → list V → Prop) :
  Q (Err e) [] → traced (W := W) (perr e) Q.
Proof. apply traced_lift. Qed.

Lemma traced_call {A} net (ev : res E A → V) wrap f (Q : res E A → list V → Prop) :
  (∀ r, Q r [ev r]) → traced (W := W) (pcall net ev wrap f) Q.
Proof.
  intros HQ s. unfold pcall. destruct (f _ _) as [r w].
  destruct (net_fault net _) as [[msg c]|]; eexists; (split; [done|apply HQ]).
Qed.

(** A call whose only results are [P]. *)
Lemma traced_call_of {A} (P : res E A → Prop) net (ev : res E A → V) wrap f (Q : res E A → list V → Prop) :
  (∀ n w, P (f n w).1) → (∀ msg, P (Err (wrap msg))) →
  (∀ r, P r → Q r [ev r]) → traced (W := W) (pcall net ev wrap f) Q.
Proof.
  intros Hf Hw HQ s. unfold pcall.
  specialize (Hf (length (run_trace s)) (net_others net (length (run_trace s)) (run_tables s))).
  destruct (f _ _) as [r w]. cbn in Hf.
  destruct (net_fault net _) as [[msg c]|]; eexists; (split; [done|by apply HQ]).
Qed.

Lemma traced_local {A} net (ev : A → V) f (Q : res E A → list V → Prop) :
  (∀ a, Q (Ok a) [ev a]) → traced (W := W) (plocal net ev f) Q.
Proof. intros HQ s. unfold plocal. destruct (f _) as [a w]. eexists. by split; [|apply HQ]. Qed.

(** The rule of sequence, in continuation form. *)
Lemma traced_bind {A B} (m : Prog W V E A) (k : A → Prog W V E B) P Q :
  traced m P →
  (∀ a vs, P (Ok a) vs → traced (k a) (λ r vs', Q r (vs ++ vs'))) →
  (∀ e vs, P (Err e) vs → Q (Err e) vs) → (∀ p vs, P (Panic p) vs → Q (Panic p) vs) →
  traced (pbind m k) Q.
Proof.
  intros Hm Hk He Hp s. unfold pbind. destruct (Hm s) as (vs & Hvs & HP).
  destruct (m s) as [[a|e|p] s']; cbn in *; [|by eauto..].
  destruct (Hk a vs HP s') as (vs' & Hvs' & HQ). exists (vs ++ vs').
  by rewrite Hvs', Hvs, app_assoc.
Qed.

Lemma traced_bind_call {A B} net (ev : res E A → V) wrap f (k : A → Prog W V E B) Q :
  (∀ a, traced (k a) (λ r vs, Q r (ev (Ok a) :: vs))) →
  (∀ e, Q (Err e) [ev (Err e)]) → (∀ p, Q (Panic p) [ev (Panic p)]) →
  traced (pbind (pcall net ev wrap f) k) Q.
Proof.
  intros Hk He Hp. apply (traced_bind _ _ (λ r vs, vs = [ev r])).
  - by apply traced_call.
  - intros a vs ->. apply Hk.
  - by intros e vs ->.
  - by intros p vs ->.
Qed.

Lemma traced_bind_lift {A B} (r : res E A) (k : A → Prog W V E B) Q :
  (∀ a, r = Ok a → traced (k a) Q) → (∀ e, r = Err e → Q (Err e) []) →
  (∀ p, r = Panic p → Q (Panic p) []) →
  traced (pbind (plift r) k) Q.
Proof.
  intros Hk He Hp. apply (traced_bind _ _ (λ r' vs, r' = r ∧ vs = [])).
  - by apply traced_lift.
  - intros a vs [<- ->]. by apply Hk.
  - intros e vs [<- ->]. by apply He.
  - intros p vs [<- ->]. by apply Hp.
Qed.

Lemma traced_try {E' A} (m : Prog W V E' A) (Q : res E unit → list V → Prop) :
  traced m (λ r vs, match r with Panic p => Q (Panic p) vs | _ => Q (Ok tt) vs end) →
  traced (ptry m) Q.
Proof.
  intros Hm s. destruct (Hm s) as (vs & Hvs & HQ). unfold ptry.
  destruct (m s) as [[a|e|p] s']; cbn in *; eauto.
Qed.
End traced.

(** ** What a program does to the tables

    [moves R m]: the tables go from one state to the next along [R]. *)

Definition moves {W V E A} (R : W → W → Prop) (m : Prog W V E A) : Prop :=
  ∀ s, rtc R (run_tables s) (run_tables (m s).2).

(** A net whose others move along [R]. *)
Class Follows {W} (R : W → W → Prop) (net : Net W) : Prop :=
  follows : ∀ n w, rtc R w (net_others net n w).

#[export] Instance calm_follows {W} (R : W → W → Prop) : Follows R calm.
Proof. intros n w. apply rtc_refl. Qed.

Section moves.
Context {W V E : Type} (R : W → W → Prop).

Lemma moves_lift {A} (r : res E A) : moves (V := V) R (plift r).
Proof. intros s. apply rtc_refl. Qed.
Lemma moves_ret {A} (a : A) : moves (V := V) (E := E) R (pret a).
Proof. intros s. apply rtc_refl. Qed.
Lemma moves_err {A} (e : E) : moves (V := V) (A := A) R (perr e).
Proof. intros s. apply rtc_refl. Qed.

Lemma moves_bind {A B} (m : Prog W V E A) (k : A → Prog W V E B) :
  moves R m → (∀ a, moves R (k a)) → moves R (pbind m k).
Proof.
  intros Hm Hk s. unfold pbind. specialize (Hm s). destruct (m s) as [[a|e|p] s']; cbn in *; try done.
  etrans; [done|apply Hk].
Qed.

Lemma moves_call {A} net `{!Follows R net} (ev : res E A → V) wrap f :
  (∀ n w, rtc R w (f n w).2) → moves R (pcall net ev wrap f).
Proof.
  intros Hf s. unfold pcall. specialize (Hf (length (run_trace s))
    (net_others net (length (run_trace s)) (run_tables s))).
  destruct (f _ _) as [r w]. cbn in Hf. pose proof (follows (length (run_trace s)) (run_tables s)) as Ho.
  destruct (net_fault net _) as [[msg [|]]|]; cbn; [by etrans|done|by etrans].
Qed.

Lemma moves_try {E' A} (m : Prog W V E' A) : moves R m → moves (E := E) R (ptry m).
Proof. intros Hm s. specialize (Hm s). unfold ptry. by destruct (m s) as [[]]. Qed.
Lemma moves_catch {E' A} (m : Prog W V E' A) : moves R m → moves (E := E) R (pcatch m).
Proof. intros Hm s. specialize (Hm s). unfold pcatch. by destruct (m s) as [[]]. Qed.
End moves.

Create HintDb patom_program.
#[export] Hint Resolve moves_lift moves_ret moves_err moves_bind moves_call moves_try moves_catch : patom_program.

(** [m.await.map_err(f)] *)
Definition pmap_err {W V E F A} (f : E → F) (m : Prog W V E A) : Prog W V F A := λ s,
  match m s with
  | (Ok a, s') => (Ok a, s')
  | (Err e, s') => (Err (f e), s')
  | (Panic p, s') => (Panic p, s')
  end.

Section map_err.
Context {W V E F : Type}.

Lemma traced_map_err {A} (f : E → F) (m : Prog W V E A) (Q : res F A → list V → Prop) :
  traced m (λ r vs, Q (res_map_err f r) vs) → traced (pmap_err f m) Q.
Proof.
  intros Hm s. destruct (Hm s) as (vs & Hvs & HQ). unfold pmap_err.
  destruct (m s) as [[a|e|p] s']; cbn in *; eauto.
Qed.

Lemma traced_catch {A} (m : Prog W V E A) (Q : res F (E + A) → list V → Prop) :
  traced m (λ r vs, Q (match r with Ok a => Ok (inr a) | Err e => Ok (inl e) | Panic p => Panic p end) vs) →
  traced (pcatch m) Q.
Proof.
  intros Hm s. destruct (Hm s) as (vs & Hvs & HQ). unfold pcatch.
  destruct (m s) as [[a|e|p] s']; cbn in *; eauto.
Qed.

Lemma moves_map_err {A} (R : W → W → Prop) (f : E → F) (m : Prog W V E A) :
  moves R m → moves R (pmap_err f m).
Proof. intros Hm s. specialize (Hm s). unfold pmap_err. by destruct (m s) as [[]]. Qed.
End map_err.
#[export] Hint Resolve moves_map_err : patom_program.

(** ** What a program preserves

    [safe I m P]: from tables that satisfy [I], [m] ends in tables that do, in an
    error or in a value of [P], never in a panic. *)

Definition safe {W V E A} (I : W → Prop) (m : Prog W V E A) (P : A → Prop) : Prop :=
  ∀ s, I (run_tables s) →
  I (run_tables (m s).2) ∧ match (m s).1 with Ok a => P a | Err _ => True | Panic _ => False end.

(** A net whose others preserve [I]. *)
Class Respects {W} (I : W → Prop) (net : Net W) : Prop :=
  respects : ∀ n w, I w → I (net_others net n w).

#[export] Instance calm_respects {W} (I : W → Prop) : Respects I calm.
Proof. by intros n w. Qed.

Section safe.
Context {W V E : Type} (I : W → Prop).

Lemma safe_lift {A} (r : res E A) (P : A → Prop) :
  match r with Ok a => P a | Err _ => True | Panic _ => False end → safe (V := V) I (plift r) P.
Proof. by intros Hr s Hs. Qed.
Lemma safe_ret {A} (a : A) (P : A → Prop) : P a → safe (V := V) (E := E) I (pret a) P.
Proof. by intros Ha s Hs. Qed.
Lemma safe_err {A} (e : E) (P : A → Prop) : safe (V := V) I (perr e) P.
Proof. by intros s Hs. Qed.

Lemma safe_mono {A} (m : Prog W V E A) (P Q : A → Prop) :
  safe I m P → (∀ a, P a → Q a) → safe I m Q.
Proof.
  intros Hm HPQ s Hs. destruct (Hm s Hs) as [H1 H2]. split; [done|].
  destruct (m s) as [[]]; cbn in *; auto.
Qed.

Lemma safe_bind {A B} (m : Prog W V E A) (k : A → Prog W V E B) P Q :
  safe I m P → (∀ a, P a → safe I (k a) Q) → safe I (pbind m k) Q.
Proof.
  intros Hm Hk s Hs. unfold pbind. destruct (Hm s Hs) as [H1 H2].
  destruct (m s) as [[a|e|p] s']; cbn in *; [by apply Hk|done|done].
Qed.

(** A call that keeps [I] and whose result satisfies [P]. *)
Lemma safe_call {A} net `{!Respects I net} (ev : res E A → V) (wrap : str → E) f (P : A → Prop) :
  (∀ n w, I w → I (f n w).2 ∧ match (f n w).1 with Ok a => P a | Err _ => True | Panic _ => False end) →
  safe I (pcall net ev wrap f) P.
Proof.
  intros Hf s Hs. unfold pcall. pose proof (respects (length (run_trace s)) _ Hs) as Ho.
  specialize (Hf (length (run_trace s)) _ Ho). destruct (f _ _) as [r w]. cbn in Hf.
  destruct (net_fault net _) as [[msg [|]]|]; cbn; naive_solver.
Qed.

Lemma safe_map_err {F A} (g : E → F) (m : Prog W V E A) P : safe I m P → safe I (pmap_err g m) P.
Proof.
  intros Hm s Hs. destruct (Hm s Hs) as [H1 H2]. unfold pmap_err.
  by destruct (m s) as [[a|e|p] s'].
Qed.
Lemma safe_try {E' A} (m : Prog W V E A) P : safe I m P → safe (E := E') I (ptry m) (λ _, True).
Proof.
  intros Hm s Hs. destruct (Hm s Hs) as [H1 H2]. unfold ptry. by destruct (m s) as [[a|e|p] s'].
Qed.
Lemma safe_catch {E' A} (m : Prog W V E A) P :
  safe I m P → safe (E := E') I (pcatch m) (λ x, match x with inr a => P a | inl _ => True end).
Proof.
  intros Hm s Hs. destruct (Hm s Hs) as [H1 H2]. unfold pcatch. by destruct (m s) as [[a|e|p] s'].
Qed.

(** Sequencing that needs nothing of the value. *)
Lemma safe_seq {A B} (m : Prog W V E A) (k : A → Prog W V E B) Q :
  safe I m (λ _, True) → (∀ a, safe I (k a) Q) → safe I (pbind m k) Q.
Proof. intros Hm Hk. eapply safe_bind; eauto. Qed.
End safe.

#[export] Hint Resolve safe_ret safe_err safe_seq safe_map_err safe_try safe_catch : patom_program.

(** ** Protocols

    A protocol says which call is allowed after which trace.  [obeys allowed pre m
    Q]: run after the calls [pre], every call of [m] is allowed after those before
    it, and [m] ends in [r] after [pre'] with [Q r pre']. *)

Definition obeys {W V E A} (allowed : list V → V → Prop) (pre : list V) (m : Prog W V E A)
    (Q : res E A → list V → Prop) : Prop :=
  traced m (λ r vs, (∀ xs v ys, vs = xs ++ v :: ys → allowed (pre ++ xs) v) ∧ Q r (pre ++ vs)).

Section obeys.
Context {W V E : Type} (allowed : list V → V → Prop).

Lemma obeys_lift {A} pre (r : res E A) (Q : res E A → list V → Prop) :
  Q r pre → obeys (W := W) allowed pre (plift r) Q.
Proof.
  intros HQ. apply traced_lift. rewrite app_nil_r. split; [|done]. intros [|] ? ? ?; discriminate.
Qed.
Lemma obeys_ret {A} pre (a : A) (Q : res E A → list V → Prop) :
  Q (Ok a) pre → obeys (W := W) allowed pre (pret a) Q.
Proof. apply obeys_lift. Qed.
Lemma obeys_err {A} pre (e : E) (Q : res E A → list V → Prop) :
  Q (Err e) pre → obeys (W := W) allowed pre (perr e) Q.
Proof. apply obeys_lift. Qed.

Lemma obeys_call {A} pre net (ev : res E A → V) wrap f (Q : res E A → list V → Prop) :
  (∀ r, allowed pre (ev r)) → (∀ r, Q r (pre ++ [ev r])) →
  obeys (W := W) allowed pre (pcall net ev wrap f) Q.
Proof.
  intros Ha HQ. apply traced_call. intros r. split; [|apply HQ].
  intros [|x xs] v ys; cbn; [|by destruct xs]. intros [= <- _]. by rewrite app_nil_r.
Qed.

(** A call whose only results are [P]. *)
Lemma obeys_call_of {A} (P : res E A → Prop) pre net (ev : res E A → V) (wrap : str → E) f
    (Q : res E A → list V → Prop) :
  (∀ n w, P (f n w).1) → (∀ msg, P (Err (wrap msg))) →
  (∀ r, allowed pre (ev r)) → (∀ r, P r → Q r (pre ++ [ev r])) →
  obeys (W := W) allowed pre (pcall net ev wrap f) Q.
Proof.
  intros Hf Hw Ha HQ. apply (traced_call_of P); [done|done|]. intros r Hr. split; [|by apply HQ].
  intros [|x xs] v ys; cbn; [|by destruct xs]. intros [= <- _]. by rewrite app_nil_r.
Qed.

Lemma obeys_mono {A} pre (m : Prog W V E A) (P Q : res E A → list V → Prop) :
  obeys allowed pre m P → (∀ r vs, P r (pre ++ vs) → Q r (pre ++ vs)) → obeys allowed pre m Q.
Proof. intros Hm HPQ. eapply traced_mono; [exact Hm|]. cbn. naive_solver. Qed.

Lemma obeys_split pre (vs vs' : list V) :
  (∀ xs v ys, vs = xs ++ v :: ys → allowed (pre ++ xs) v) →
  (∀ xs v ys, vs' = xs ++ v :: ys → allowed ((pre ++ vs) ++ xs) v) →
  ∀ xs v ys, vs ++ vs' = xs ++ v :: ys → allowed (pre ++ xs) v.
Proof.
  intros H1 H2 xs v ys Heq. apply app_eq_inv in Heq as [(k & -> & Hk)|(k & -> & Hk)].
  - destruct k as [|x k]; cbn in *.
    + specialize (H2 [] v ys). rewrite !app_nil_r in *. by apply H2.
    + injection Hk as -> Hk. by eapply H1.
  - rewrite app_assoc. by eapply H2.
Qed.

(** The rule of sequence; the errors of the first part are those of the whole. *)
Lemma obeys_bind {A B} pre (m : Prog W V E A) (k : A → Prog W V E B) P Q :
  obeys allowed pre m P →
  (∀ a vs, P (Ok a) (pre ++ vs) → obeys allowed (pre ++ vs) (k a) Q) →
  (∀ e vs, P (Err e) (pre ++ vs) → Q (Err e) (pre ++ vs)) →
  (∀ p vs, P (Panic p) (pre ++ vs) → Q (Panic p) (pre ++ vs)) →
  obeys allowed pre (pbind m k) Q.
Proof.
  intros Hm Hk He Hp. eapply traced_bind; [exact Hm|..]; cbn.
  - intros a vs [Hvs HP]. eapply traced_mono; [by apply Hk|]. cbn. intros r vs' [Hvs' HQ].
    split; [by apply obeys_split|]. by rewrite app_assoc.
  - naive_solver.
  - naive_solver.
Qed.

Lemma obeys_map_err {F A} pre (g : E → F) (m : Prog W V E A) (Q : res F A → list V → Prop) :
  obeys allowed pre m (λ r vs, Q (res_map_err g r) vs) → obeys allowed pre (pmap_err g m) Q.
Proof. intros Hm. by apply traced_map_err. Qed.

Lemma obeys_catch {F A} pre (m : Prog W V E A) (Q : res F (E + A) → list V → Prop) :
  obeys allowed pre m
    (λ r vs, Q (match r with Ok a => Ok (inr a) | Err e => Ok (inl e) | Panic p => Panic p end) vs) →
  obeys allowed pre (pcatch m) Q.
Proof. intros Hm. by apply traced_catch. Qed.

Lemma obeys_try {F A} pre (m : Prog W V E A) (Q : res F unit → list V → Prop) :
  obeys allowed pre m (λ r vs, match r with Panic p => Q (Panic p) vs | _ => Q (Ok tt) vs end) →
  obeys allowed pre (ptry m) Q.
Proof.
  intros Hm. apply traced_try. eapply traced_mono; [exact Hm|]. cbn. intros [] vs; naive_solver.
Qed.

Lemma obeys_bind_lift {A B} pre (r : res E A) (k : A → Prog W V E B) Q :
  (∀ a, r = Ok a → obeys allowed pre (k a) Q) → (∀ e, r = Err e → Q (Err e) pre) →
  (∀ p, r = Panic p → Q (Panic p) pre) → obeys allowed pre (pbind (plift r) k) Q.
Proof.
  intros Hk He Hp. destruct r as [a|e|p].
  - intros s. apply (Hk a eq_refl s).
  - by apply (obeys_lift pre (Err e) Q), He.
  - by apply (obeys_lift pre (Panic p) Q), Hp.
Qed.

(** A step that only looks at its environment. *)
Lemma obeys_pure {A B} pre (f : run_state W V → A) (k : A → Prog W V E B) Q :
  (∀ a, obeys allowed pre (k a) Q) → obeys allowed pre (pbind (λ s, (Ok (f s), s)) k) Q.
Proof. intros Hk s. apply (Hk (f s) s). Qed.

Lemma obeys_bind_call {F A B} (P : res F A → Prop) (g : F → E) pre net (ev : res F A → V) (wrap : str → F) f
    (k : A → Prog W V E B) (Q : res E B → list V → Prop) :
  (∀ n w, P (f n w).1) → (∀ msg, P (Err (wrap msg))) → (∀ r, allowed pre (ev r)) →
  (∀ a, P (Ok a) → obeys allowed (pre ++ [ev (Ok a)]) (k a) Q) →
  (∀ e, P (Err e) → Q (Err (g e)) (pre ++ [ev (Err e)])) →
  (∀ p, P (Panic p) → Q (Panic p) (pre ++ [ev (Panic p)])) →
  obeys allowed pre (pbind (pmap_err g (pcall net ev wrap f)) k) Q.
Proof.
  intros Hf Hw Ha Hk He Hp.
  apply (obeys_bind pre _ _ (λ r vs, ∃ r0, r = res_map_err g r0 ∧ P r0 ∧ vs = pre ++ [ev r0])).
  - apply traced_map_err. apply (traced_call_of P); [done|done|]. intros r Hr. split; [|by exists r].
    intros [|x xs] v ys; cbn; [|by destruct xs]. intros [= <- _]. by rewrite app_nil_r.
  - intros a vs ([a0|e0|p0] & [= ->] & HP & ->). by apply Hk.
  - intros a vs ([a0|e0|p0] & [= ->] & HP & ->). by apply He.
  - intros a vs ([a0|e0|p0] & [= ->] & HP & ->). by apply Hp.
Qed.
End obeys.

(** The calls of a trace that count. *)
Definition picked {V} (p : V → bool) (vs : list V) : list V := filter (λ v, p v = true) vs.

Lemma picked_app {V} (p : V → bool) xs ys : picked p (xs ++ ys) = picked p xs ++ picked p ys.
Proof. apply filter_app. Qed.
Lemma picked_snoc {V} (p : V → bool) xs v :
  picked p (xs ++ [v]) = picked p xs ++ (if p v then [v] else []).
Proof. rewrite picked_app. f_equal. unfold picked. rewrite filter_cons. by destruct (p v). Qed.
Lemma picked_quiet {V} (p : V → bool) xs v : p v = false → picked p (xs ++ [v]) = picked p xs.
Proof. intros Hv. by rewrite picked_snoc, Hv, app_nil_r. Qed.
Lemma picked_in {V} (p : V → bool) xs v : v ∈ picked p xs → v ∈ xs.
Proof. unfold picked. by intros [_ ?]%list_elem_of_filter. Qed.

(** ** What a program ensures while nobody else writes

    [ensures P m Q]: from tables of [P], [m] ends in a result and tables of [Q]. *)

Definition ensures {W V E A} (P : W → Prop) (m : Prog W V E A) (Q : res E A → W → Prop) : Prop :=
  ∀ s, P (run_tables s) → Q (m s).1 (run_tables (m s).2).

(** A net whose others write nothing; calls may still fail. *)
Class Alone {W} (net : Net W) : Prop := alone : ∀ n w, net_others net n w = w.

#[export] Instance calm_alone {W} : Alone (W := W) calm.
Proof. by intros n w. Qed.

Section ensures.
Context {W V E : Type}.
Implicit Types P : W → Prop.

Lemma ensures_mono {A} P P' (m : Prog W V E A) (Q Q' : res E A → W → Prop) :
  ensures P m Q → (∀ w, P' w → P w) → (∀ r w, Q r w → Q' r w) → ensures P' m Q'.
Proof. intros Hm HP HQ s Hs. apply HQ, Hm, HP, Hs. Qed.

Lemma ensures_lift {A} P (r : res E A) (Q : res E A → W → Prop) :
  (∀ w, P w → Q r w) → ensures (V := V) P (plift r) Q.
Proof. intros HQ s Hs. by apply HQ. Qed.
Lemma ensures_ret {A} P (a : A) (Q : res E A → W → Prop) :
  (∀ w, P w → Q (Ok a) w) → ensures (V := V) P (pret a) Q.
Proof. intros HQ s Hs. by apply HQ. Qed.
Lemma ensures_err {A} P (e : E) (Q : res E A → W → Prop) :
  (∀ w, P w → Q (Err e) w) → ensures (V := V) P (perr e) Q.
Proof. intros HQ s Hs. by apply HQ. Qed.

Lemma ensures_bind {A B} P (m : Prog W V E A) (k : A → Prog W V E B) (R : A → W → Prop) Q :
  ensures P m (λ r w, match r with Ok a => R a w | Err e => Q (Err e) w | Panic p => Q (Panic p) w end) →
  (∀ a, ensures (R a) (k a) Q) → ensures P (pbind m k) Q.
Proof.
  intros Hm Hk s Hs. specialize (Hm s Hs). unfold pbind. destruct (m s) as [[a|e|p] s']; cbn in *; [|done..].
  by apply Hk.
Qed.

Lemma ensures_bind_lift {A B} P (r : res E A) (k : A → Prog W V E B) Q :
  (∀ a, r = Ok a → ensures P (k a) Q) → (∀ e w, r = Err e → P w → Q (Err e) w) →
  (∀ p w, r = Panic p → P w → Q (Panic p) w) → ensures P (pbind (plift r) k) Q.
Proof.
  intros Hk He Hp s Hs. destruct r as [a|e|p]; cbn; [by apply Hk|by apply He|by apply Hp].
Qed.

(** A fact that does not depend on the tables. *)
Lemma ensures_pure {A} P (C : Prop) (m : Prog W V E A) (Q : res E A → W → Prop) :
  (C → ensures P m Q) → ensures (λ w, P w ∧ C) m Q.
Proof. intros Hm s [Hs Hc]. by apply Hm. Qed.

(** A call that takes effect, or fails before or after it did. *)
Lemma ensures_call {A} P net `{!Alone net} (ev : res E A → V) wrap f (Q : res E A → W → Prop) :
  (∀ n w, P w → Q (f n w).1 (f n w).2 ∧ ∀ msg, Q (Err (wrap msg)) w ∧ Q (Err (wrap msg)) (f n w).2) →
  ensures P (pcall net ev wrap f) Q.
Proof.
  intros Hf s Hs. unfold pcall. rewrite alone. specialize (Hf (length (run_trace s)) _ Hs).
  destruct (f _ _) as [r w]. cbn in Hf. destruct Hf as [Hq He].
  destruct (net_fault net _) as [[msg [|]]|]; cbn; [apply He|apply He|done].
Qed.
End ensures.

Lemma ensures_map_err {W V E F A} P (g : E → F) (m : Prog W V E A) (Q : res F A → W → Prop) :
  ensures P m (λ r w, Q (res_map_err g r) w) → ensures P (pmap_err g m) Q.
Proof. intros Hm s Hs. specialize (Hm s Hs). unfold pmap_err. by destruct (m s) as [[] ?]. Qed.

Lemma ensures_catch {W V E F A} P (m : Prog W V E A) (Q : res F (E + A) → W → Prop) :
  ensures P m (λ r w, Q (match r with Ok a => Ok (inr a) | Err e => Ok (inl e) | Panic p => Panic p end) w) →
  ensures P (pcatch m) Q.
Proof. intros Hm s Hs. specialize (Hm s Hs). unfold pcatch. by destruct (m s) as [[] ?]. Qed.

(** * Programs by their calls

    [calls_only C m]: whatever the tables, the others and the faults, every call [m]
    makes satisfies [C], and [m] never panics.  Shared by the components whose safety is
    a statement on what may be called. *)

(** ** Results that are no panic *)

Lemma trun_no_panic {S E A} (t : Tx S E A) s : no_panic (t s) → no_panic (trun t s).1.
Proof. unfold trun. by destruct (t s) as [[]| |]. Qed.
Lemma tbind_no_panic {S E A B} (t : Tx S E A) (k : A → Tx S E B) s :
  no_panic (t s) → (∀ a s', no_panic (k a s')) → no_panic (tbind t k s).
Proof. unfold tbind. destruct (t s) as [[]| |]; cbn; auto. Qed.
Lemma tlift_no_panic {S E A} (r : res E A) (s : S) : no_panic r → no_panic (tlift r s).
Proof. by destruct r. Qed.
Lemma tguard_no_panic {S E} b (e : E) (s : S) : no_panic (tguard b e s).
Proof. by destruct b. Qed.
Lemma ok_or_no_panic {E A} (o : option A) (e : E) : no_panic (ok_or o e).
Proof. by destruct o. Qed.
Lemma map_err_no_panic {E F A} (f : E → F) (r : res E A) : no_panic r → no_panic (res_map_err f r).
Proof. by destruct r. Qed.

(** ** Programs that make certain calls only, and never panic *)

Definition calls_only {W V E A} (C : V → Prop) (m : Prog W V E A) : Prop :=
  traced m (λ r vs, Forall C vs ∧ no_panic r).

Create HintDb patom_calls.
Section calls_only.
Context {W V E : Type} (C : V → Prop).

Lemma calls_lift {A} (r : res E A) : no_panic r → calls_only (W := W) C (plift r).
Proof. intros Hr. apply traced_lift. by split; [constructor|]. Qed.
Lemma calls_ret {A} (a : A) : calls_only (W := W) (E := E) C (pret a).
Proof. by apply calls_lift. Qed.
Lemma calls_err {A} (e : E) : calls_only (W := W) (A := A) C (perr e).
Proof. by apply calls_lift. Qed.
Lemma calls_bind {A B} (m : Prog W V E A) (k : A → Prog W V E B) :
  calls_only C m → (∀ a, calls_only C (k a)) → calls_only C (pbind m k).
Proof.
  intros Hm Hk. apply (traced_bind _ _ _ _ Hm).
  - intros a vs [Hvs _]. eapply traced_mono; [apply Hk|]. cbn. intros r vs' [? ?]. by split; [apply Forall_app|].
  - by intros e vs [? _].
  - by intros p vs [_ ?].
Qed.
Lemma calls_call {A} net (ev : res E A → V) wrap f :
  (∀ r, C (ev r)) → (∀ n w, no_panic (f n w).1) → calls_only (W := W) C (pcall net ev wrap f).
Proof.
  intros Hev Hf. apply (traced_call_of no_panic); [done|done|]. intros r Hr. split; [|done]. by apply Forall_singleton.
Qed.
Lemma calls_local {A} net (ev : A → V) f : (∀ a, C (ev a)) → calls_only (W := W) (E := E) C (plocal net ev f).
Proof. intros Hev. apply traced_local. intros a. split; [by apply Forall_singleton|done]. Qed.
Lemma calls_map_err {F A} (g : E → F) (m : Prog W V E A) : calls_only C m → calls_only C (pmap_err g m).
Proof. intros Hm. apply traced_map_err. eapply traced_mono; [exact Hm|]. intros [] vs [? ?]; by split. Qed.
Lemma calls_try {E' A} (m : Prog W V E A) : calls_only C m → calls_only (E := E') C (ptry m).
Proof. intros Hm. apply traced_try. eapply traced_mono; [exact Hm|]. intros [] vs [? ?]; by split. Qed.
Lemma calls_catch {E' A} (m : Prog W V E A) : calls_only C m → calls_only (E := E') C (pcatch m).
Proof. intros Hm. apply traced_catch. eapply traced_mono; [exact Hm|]. intros [] vs [? ?]; by split. Qed.
End calls_only.
#[export] Hint Resolve calls_ret calls_err calls_map_err calls_try calls_catch : patom_calls.

(** With something known of the value. *)
Definition calls_to {W V E A} (C : V → Prop) (m : Prog W V E A) (P : A → Prop) : Prop :=
  traced m (λ r vs, Forall C vs ∧ match r with Ok a => P a | Err _ => True | Panic _ => False end).
Section calls_to.
Context {W V E : Type} (C : V → Prop).
Lemma calls_to_ret {A} (a : A) (P : A → Prop) : P a → calls_to (W := W) (E := E) C (pret a) P.
Proof. intros Ha. apply traced_ret. by split; [constructor|]. Qed.
Lemma calls_to_bind {A B} (m : Prog W V E A) (k : A → Prog W V E B) P Q :
  calls_to C m P → (∀ a, P a → calls_to C (k a) Q) → calls_to C (pbind m k) Q.
Proof.
  intros Hm Hk. apply (traced_bind _ _ _ _ Hm).
  - intros a vs [Hvs HP]. eapply traced_mono; [by apply Hk|]. cbn. intros r vs' [? ?]. by split; [apply Forall_app|].
  - by intros e vs [? _].
  - by intros p vs [_ ?].
Qed.
Lemma calls_only_to {A} (m : Prog W V E A) : calls_only C m → calls_to C m (λ _, True).
Proof. intros Hm. eapply traced_mono; [exact Hm|]. intros [] vs [? ?]; by split. Qed.
Lemma calls_bind_to {A B} (m : Prog W V E A) (k : A → Prog W V E B) P :
  calls_to C m P → (∀ a, P a → calls_only C (k a)) → calls_only C (pbind m k).
Proof.
  intros Hm Hk. apply (traced_bind _ _ _ _ Hm).
  - intros a vs [Hvs HP]. eapply traced_mono; [by apply Hk|]. cbn. intros r vs' [? ?]. by split; [apply Forall_app|].
  - by intros e vs [? _].
  - by intros p vs [_ ?].
Qed.
End calls_to.

(** Splits a program into its calls. *)
Ltac calls_tac :=
  repeat first
    [ solve [eauto 3 with patom_calls nocore]
    | apply calls_bind; [|intros ?]
    | apply calls_map_err | apply calls_try | apply calls_catch
    | match goal with |- calls_only _ (if ?b then _ else _) => destruct b end
    | match goal with |- calls_only _ (match ?x with _ => _ end) => destruct x end ].

Lemma calls_ok_or {W V E A} (C : V → Prop) (o : option A) (e : E) : calls_only (W := W) C (plift (ok_or o e)).
Proof. apply calls_lift, ok_or_no_panic. Qed.
#[export] Hint Resolve calls_ok_or : patom_calls.
