(* ===== verification/Types.v ===== *)
(** * Domain primitives

    [types/] and [runtime/types.rs], [provider/chat.rs], [provider/attachment.rs]:
    the newtypes with their smart constructors, the label enums of [str_enum!],
    and the provider-agnostic chat data model that the store, the compactor and
    the worker exchange. *)

From Stdlib Require Import ZArith Lia Ascii String.
From stdpp Require Import base list sets strings.
From S2P Require Import Prelude.

(** ** Opaque identifiers ([uuid_newtype!]): a 128-bit value with equality only. *)

Abbreviation Uuid := N (only parsing).
Abbreviation PromptRequestId := N (only parsing).
Abbreviation WorkerId := N (only parsing).
Abbreviation ClaimKey := N (only parsing).
Abbreviation OrgId := N (only parsing).
Abbreviation UserId := N (only parsing).
Abbreviation AgentId := N (only parsing).
Abbreviation ColleagueId := N (only parsing).
Abbreviation ThreadId := N (only parsing).
Abbreviation ThreadMessageId := N (only parsing).
Abbreviation AgentThreadId := N (only parsing).
Abbreviation BackgroundTurnId := N (only parsing).
Abbreviation ContradictionEventId := N (only parsing).

(** Rendering a [Uuid] ([Display]) is the [uuid] crate's. *)
Class UuidPrinter := uuid_to_string : N → str.

(** ** Boundary parsing errors ([types/error.rs]) *)

Inductive ParseError : Type :=
| Empty (field : string)
| TooLong (field : string) (max got : nat)
| OutOfRange (field detail : string)
| Malformed (field detail : string).

#[export] Instance ParseError_eq_dec : EqDecision ParseError.
Proof. solve_decision. Defined.

(** ** Bounded integers ([types/limits.rs]) *)

Definition MAX_OUTPUT_TOKENS_CAP : Z := 200000.
Definition MAX_TURNS_CAP : Z := 128.

Record MaxOutputTokens := mkMaxOutputTokens { MaxOutputTokens_get : Z }.
Record MaxTurns := mkMaxTurns { MaxTurns_get : Z }.
Record TurnIndex := mkTurnIndex { TurnIndex_get : Z }.

Definition MaxOutputTokens_try_from (n : Z) : res ParseError MaxOutputTokens :=
  if (n =? 0)%Z then Err (OutOfRange "max_output_tokens" "must be > 0")
  else if (MAX_OUTPUT_TOKENS_CAP <? n)%Z
  then Err (OutOfRange "max_output_tokens" "exceeds ceiling")
  else Ok (mkMaxOutputTokens n).

Definition MaxTurns_try_from (n : Z) : res ParseError MaxTurns :=
  if (n =? 0)%Z then Err (OutOfRange "max_turns" "must be > 0")
  else if (MAX_TURNS_CAP <? n)%Z then Err (OutOfRange "max_turns" "exceeds ceiling")
  else Ok (mkMaxTurns n).

Definition TurnIndex_ZERO : TurnIndex := mkTurnIndex 0.

Definition TurnIndex_next (i : TurnIndex) : option TurnIndex :=
  if (MAX_TURNS_CAP <=? TurnIndex_get i + 1)%Z then None
  else Some (mkTurnIndex (TurnIndex_get i + 1)).

Definition TurnIndex_try_from (n : Z) : res ParseError TurnIndex :=
  if (MAX_TURNS_CAP <=? n)%Z then Err (OutOfRange "turn_index" "exceeds ceiling")
  else Ok (mkTurnIndex n).

(** ** Bounded strings *)

Definition TOOL_NAME_MAX_LEN : nat := 64.
Definition PROMPT_MAX_BYTES : nat := 64 * 1024.
Definition MAX_IDEMPOTENCY_KEY_BYTES : nat := 200.
Definition TOOL_CALL_ID_MAX_BYTES : nat := 256.

Record ToolName := mkToolName { ToolName_as_str : str }.
Record Prompt := mkPrompt { Prompt_as_str : str }.
Record IdempotencyKey := mkIdempotencyKey { IdempotencyKey_as_str : str }.
Record ToolCallId := mkToolCallId { ToolCallId_as_str : str }.

#[export] Instance ToolName_eq_dec : EqDecision ToolName.
Proof. solve_decision. Defined.
#[export] Instance Prompt_eq_dec : EqDecision Prompt.
Proof. solve_decision. Defined.
#[export] Instance IdempotencyKey_eq_dec : EqDecision IdempotencyKey.
Proof. solve_decision. Defined.
#[export] Instance ToolCallId_eq_dec : EqDecision ToolCallId.
Proof. solve_decision. Defined.

Definition tool_name_char (c : N) : bool :=
  is_ascii_alphanumeric c || (c =? 0x5f)%N || (c =? 0x2d)%N.

Definition ToolName_try_from (raw : str) : res ParseError ToolName :=
  if is_empty raw then Err (Empty "tool_name")
  else if TOOL_NAME_MAX_LEN <? str_len raw
  then Err (TooLong "tool_name" TOOL_NAME_MAX_LEN (str_len raw))
  else if negb (forallb tool_name_char raw)
  then Err (Malformed "tool_name" "allowed: a-z A-Z 0-9 _ -")
  else Ok (mkToolName raw).

Definition Prompt_try_from (raw : str) : res ParseError Prompt :=
  if is_empty (trim raw) then Err (Empty "prompt")
  else if PROMPT_MAX_BYTES <? str_len raw
  then Err (TooLong "prompt" PROMPT_MAX_BYTES (str_len raw))
  else Ok (mkPrompt raw).

Definition IdempotencyKey_try_from (raw : str) : res ParseError IdempotencyKey :=
  if is_empty raw then Err (Empty "idempotency_key")
  else if MAX_IDEMPOTENCY_KEY_BYTES <? str_len raw
  then Err (TooLong "idempotency_key" MAX_IDEMPOTENCY_KEY_BYTES (str_len raw))
  else Ok (mkIdempotencyKey raw).

Definition ToolCallId_try_from (raw : str) : res ParseError ToolCallId :=
  if is_empty raw then Err (Empty "tool_call_id")
  else if TOOL_CALL_ID_MAX_BYTES <? str_len raw
  then Err (TooLong "tool_call_id" TOOL_CALL_ID_MAX_BYTES (str_len raw))
  else Ok (mkToolCallId raw).

(** ** Reply summary ([types/agent_reply.rs]) *)

Record AgentReply := mkAgentReply { final_text : str; send_message_calls : nat }.
Definition AgentReply_text_only (t : str) : AgentReply := mkAgentReply t 0.
Definition delivered (r : AgentReply) : bool := 0 <? send_message_calls r.

(** ** Label enums ([str_enum!])

    The macro derives [ALL], [as_str] and [parse] from one list of
    variant/label pairs; [StrEnum] is what it derives them from, with the two
    facts a duplicate-free list of literals gives: every variant is listed, and
    labels are distinct. *)

Class StrEnum (A : Type) := {
  ALL : list A;
  as_str : A → string;
  ALL_complete : ∀ v, v ∈ ALL;
  as_str_inj : ∀ v w, as_str v = as_str w → v = w;
}.

Definition parse `{StrEnum A} (raw : str) : option A :=
  List.find (λ v, bool_decide (lit (as_str v) = raw)) ALL.

Inductive RequestStatus := Pending | Processing | Done | Failed.
Inductive RequestKind := Normal | Reflection | Resolution.
Inductive MetricKind := MNormal | MReflection | MResolution | MCompaction.
Inductive Role := RUser | RAssistant.

#[export] Instance RequestStatus_eq_dec : EqDecision RequestStatus.
Proof. solve_decision. Defined.
#[export] Instance RequestKind_eq_dec : EqDecision RequestKind.
Proof. solve_decision. Defined.
#[export] Instance MetricKind_eq_dec : EqDecision MetricKind.
Proof. solve_decision. Defined.
#[export] Instance Role_eq_dec : EqDecision Role.
Proof. solve_decision. Defined.

(** Discharges the two laws for an enumeration given by its constructors. *)
Ltac str_enum :=
  first
  [ let v := fresh in intros v; destruct v; set_solver
  | let v := fresh in let w := fresh in
    intros v w; destruct v, w; vm_compute; congruence ].

Definition RequestStatus_as_str (s : RequestStatus) : string :=
  match s with
  | Pending => "pending" | Processing => "processing" | Done => "done" | Failed => "failed"
  end.
Definition RequestKind_as_str (k : RequestKind) : string :=
  match k with
  | Normal => "normal" | Reflection => "reflection" | Resolution => "resolution"
  end.
Definition MetricKind_as_str (k : MetricKind) : string :=
  match k with
  | MNormal => "normal" | MReflection => "reflection"
  | MResolution => "resolution" | MCompaction => "compaction"
  end.
Definition Role_as_str (r : Role) : string :=
  match r with RUser => "user" | RAssistant => "assistant" end.

#[export] Instance RequestStatus_StrEnum : StrEnum RequestStatus.
Proof.
  refine {| ALL := [Pending; Processing; Done; Failed]; as_str := RequestStatus_as_str |};
    abstract str_enum.
Defined.
#[export] Instance RequestKind_StrEnum : StrEnum RequestKind.
Proof.
  refine {| ALL := [Normal; Reflection; Resolution]; as_str := RequestKind_as_str |};
    abstract str_enum.
Defined.
#[export] Instance MetricKind_StrEnum : StrEnum MetricKind.
Proof.
  refine {| ALL := [MNormal; MReflection; MResolution; MCompaction];
            as_str := MetricKind_as_str |};
    abstract str_enum.
Defined.
#[export] Instance Role_StrEnum : StrEnum Role.
Proof. refine {| ALL := [RUser; RAssistant]; as_str := Role_as_str |}; abstract str_enum. Defined.

Definition is_terminal (s : RequestStatus) : bool :=
  match s with Done | Failed => true | _ => false end.

Definition MetricKind_from (k : RequestKind) : MetricKind :=
  match k with
  | Normal => MNormal | Reflection => MReflection | Resolution => MResolution
  end.

(** ** Sequence numbers and attempts ([runtime/types.rs]) *)

Definition MAX_ATTEMPTS : Z := 3.

Record SeqOverflow := mkSeqOverflow { overflow_seq : string }.

(** [TurnSeq] and [ChunkSeq] are [u64] counters. *)
Definition TurnSeq_next (s : Z) : res SeqOverflow Z :=
  match u64_checked_add s 1 with
  | Some n => Ok n
  | None => Err (mkSeqOverflow "turn_seq")
  end.
Definition ChunkSeq_next (s : Z) : res SeqOverflow Z :=
  match u64_checked_add s 1 with
  | Some n => Ok n
  | None => Err (mkSeqOverflow "chunk_seq")
  end.

(** Crossing the [BIGINT] column: a value above [i64::MAX] panics on the way
    in, a negative one is an error on the way out. *)
Definition decode_u64 (raw : Z) (name : string) : res string Z :=
  if (raw <? 0)%Z then Err (name +:+ " must be non-negative")%string else Ok raw.
Definition encode_u64 (n : Z) (name : string) : res string Z :=
  if (n <=? I64_MAX)%Z then Ok n else Panic (name +:+ " fits in i64")%string.

Inductive AttemptOutcome := Live | Poisoned.

Definition Attempts_increment (a : Z) : Z * AttemptOutcome :=
  let a' := u32_saturating_add a 1 in
  (a', if (MAX_ATTEMPTS <=? a')%Z then Poisoned else Live).

(** ** Job payloads and failure reasons ([runtime/types.rs]) *)

Inductive RequestKindPayload :=
| PNormal
| PReflection (thread_id : ThreadId) (up_to_message_id : ThreadMessageId)
| PResolution (contradiction_event_id : ContradictionEventId).

Definition RequestKindPayload_kind (p : RequestKindPayload) : RequestKind :=
  match p with
  | PNormal => Normal
  | PReflection _ _ => Reflection
  | PResolution _ => Resolution
  end.

Inductive FailureReason :=
| Cancelled
| Timeout
| Provider (detail : str)
| Hook (detail : str)
| Poison
| Unrecoverable (detail : str)
| DagBudgetExceeded
| BillingExceeded
| OutOfCredit
| NoEgress.

#[export] Instance RequestKindPayload_eq_dec : EqDecision RequestKindPayload.
Proof. solve_decision. Defined.
#[export] Instance FailureReason_eq_dec : EqDecision FailureReason.
Proof. solve_decision. Defined.

Definition FailureReason_label (r : FailureReason) : string :=
  match r with
  | Cancelled => "cancelled"
  | Timeout => "timeout"
  | Provider _ => "provider"
  | Hook _ => "hook"
  | Poison => "poison"
  | Unrecoverable _ => "unrecoverable"
  | DagBudgetExceeded => "dag_budget_exceeded"
  | BillingExceeded => "billing_exceeded"
  | OutOfCredit => "out_of_credit"
  | NoEgress => "no_egress"
  end.

Definition FailureReason_fmt (r : FailureReason) : str :=
  match r with
  | Cancelled => lit "cancelled"
  | Timeout => lit "turn timed out"
  | Provider s => lit "provider error: " ++ s
  | Hook s => lit "hook denied: " ++ s
  | Poison => lit "max attempts exceeded"
  | Unrecoverable s => lit "unrecoverable: " ++ s
  | DagBudgetExceeded => lit "dag turn budget exceeded"
  | BillingExceeded => lit "monthly spend budget exceeded"
  | OutOfCredit => lit "out of platform credit"
  | NoEgress => lit "agent produced text without calling send_message after retries"
  end.

(** ** Attachments ([provider/attachment.rs]) *)

Inductive AttachmentMime := Png | Jpeg | Webp | Gif | Pdf | Xlsx | Docx | Pptx | Text.
#[export] Instance AttachmentMime_eq_dec : EqDecision AttachmentMime.
Proof. solve_decision. Defined.

Definition as_mime (m : AttachmentMime) : string :=
  match m with
  | Png => "image/png"
  | Jpeg => "image/jpeg"
  | Webp => "image/webp"
  | Gif => "image/gif"
  | Pdf => "application/pdf"
  | Xlsx => "application/vnd.openxmlformats-officedocument.spreadsheetml.sheet"
  | Docx => "application/vnd.openxmlformats-officedocument.wordprocessingml.document"
  | Pptx => "application/vnd.openxmlformats-officedocument.presentationml.presentation"
  | Text => "text/plain"
  end.

Definition extension (m : AttachmentMime) : string :=
  match m with
  | Png => "png" | Jpeg => "jpg" | Webp => "webp" | Gif => "gif" | Pdf => "pdf"
  | Xlsx => "xlsx" | Docx => "docx" | Pptx => "pptx" | Text => "txt"
  end.

(** The first field of [str::split(';')]. *)
Fixpoint before_char (c : N) (s : str) : str :=
  match s with
  | [] => []
  | x :: s' => if (x =? c)%N then [] else x :: before_char c s'
  end.

Definition from_mime (raw : str) : option AttachmentMime :=
  let canonical := to_ascii_lowercase (trim (before_char 0x3b raw)) in
  let eq (s : string) := bool_decide (canonical = lit s) in
  if eq "image/png" then Some Png
  else if eq "image/jpeg" || eq "image/jpg" then Some Jpeg
  else if eq "image/webp" then Some Webp
  else if eq "image/gif" then Some Gif
  else if eq "application/pdf" then Some Pdf
  else if eq "application/vnd.openxmlformats-officedocument.spreadsheetml.sheet"
  then Some Xlsx
  else if eq "application/vnd.openxmlformats-officedocument.wordprocessingml.document"
  then Some Docx
  else if eq "application/vnd.openxmlformats-officedocument.presentationml.presentation"
  then Some Pptx
  else if eq "application/json" || eq "application/toml" || eq "application/x-toml"
       || eq "application/xml" || eq "application/yaml" || eq "application/x-yaml"
       || eq "application/x-ndjson"
  then Some Text
  else if starts_with (lit "text/") canonical then Some Text
  else None.

Definition is_image (m : AttachmentMime) : bool :=
  match m with Png | Jpeg | Webp | Gif => true | _ => false end.

Definition MAX_FILENAME_LEN : nat := 255.
Definition MAX_ATTACHMENT_IMAGE_BYTES : Z := 10 * 1024 * 1024.
Definition MAX_ATTACHMENT_FILE_BYTES : Z := 32 * 1024 * 1024.

Definition max_bytes (m : AttachmentMime) : Z :=
  if is_image m then MAX_ATTACHMENT_IMAGE_BYTES else MAX_ATTACHMENT_FILE_BYTES.

(** [char::is_control]: general category Cc. *)
Definition is_control (c : N) : bool :=
  ((c <=? 0x1f) || (0x7f <=? c) && (c <=? 0x9f))%N.

Record FileName := mkFileName { FileName_as_str : str }.

Definition FileName_try_from (raw : str) : res ParseError FileName :=
  let trimmed := trim raw in
  if is_empty trimmed then Err (Empty "attachment.filename")
  else if MAX_FILENAME_LEN <? str_len trimmed
  then Err (TooLong "attachment.filename" MAX_FILENAME_LEN (str_len trimmed))
  else if existsb (λ c, (c =? 0x2f)%N || (c =? 0x5c)%N) trimmed || existsb is_control trimmed
  then Err (Malformed "attachment.filename"
              "must not contain path separators or control characters")
  else Ok (mkFileName trimmed).

Record RawAttachment := mkRawAttachment {
  raw_url : str; raw_mime : str; raw_filename : str; raw_size : Z }.
Record Attachment := mkAttachment {
  att_url : str; att_mime : AttachmentMime; att_filename : FileName; att_size : Z }.

(** [AssetUrl::try_from] rests on the [url] crate's parser: it is an argument. *)
Definition Attachment_try_from (AssetUrl_try_from : str → res ParseError str)
    (raw : RawAttachment) : res ParseError Attachment :=
  url <-? AssetUrl_try_from (raw_url raw);
  mime <-? ok_or (from_mime (raw_mime raw))
             (Malformed "attachment.mime" "unsupported content type");
  filename <-? FileName_try_from (raw_filename raw);
  if (raw_size raw =? 0)%Z
  then Err (OutOfRange "attachment.size" "must be greater than zero")
  else if (max_bytes mime <? raw_size raw)%Z
  then Err (OutOfRange "attachment.size" "exceeds the per-type byte cap")
  else Ok (mkAttachment url mime filename (raw_size raw)).

Definition RawAttachment_from (a : Attachment) : RawAttachment :=
  mkRawAttachment (att_url a) (lit (as_mime (att_mime a)))
    (FileName_as_str (att_filename a)) (att_size a).

(** ** Chat data model ([provider/chat.rs]) *)

(** [serde_json::Value]; its printer is the crate's, so it is the argument
    [json_to_string] of what uses it. *)
Inductive Value :=
| Null
| Bool (b : bool)
| Number (repr : str)
| String_ (s : str)
| Array (vs : list Value)
| Object (kvs : list (str * Value)).

Class JsonPrinter := json_to_string : Value → str.

Record ToolCall := mkToolCall { tc_id : ToolCallId; tc_name : ToolName; tc_input : Value }.
Record ToolResult := mkToolResult { tr_call_id : ToolCallId; tr_output : str; tr_is_error : bool }.

Inductive UserContent :=
| UText (t : str)
| UToolResult (r : ToolResult)
| UImage (a : Attachment)
| UFile (a : Attachment).

Inductive AssistantContent :=
| AText (t : str)
| AReasoning (t : str)
| AToolCall (c : ToolCall).

Inductive ChatMessage :=
| User (contents : list UserContent)
| Assistant (contents : list AssistantContent).

Definition role (m : ChatMessage) : Role :=
  match m with User _ => RUser | Assistant _ => RAssistant end.

Definition UserContent_from (a : Attachment) : UserContent :=
  if is_image (att_mime a) then UImage a else UFile a.

Inductive StopReason := EndTurn | ToolUse | MaxTokens | Other (s : str).

Record Usage := mkUsage {
  input_tokens : Z;
  output_tokens : Z;
  cache_creation_input_tokens : option Z;
  cache_read_input_tokens : option Z }.

Record ChatResponse := mkChatResponse {
  response_content : list AssistantContent;
  stop_reason : StopReason;
  usage : Usage;
  response_model : option str }.

Definition tool_calls (r : ChatResponse) : list ToolCall :=
  omap (λ c, match c with AToolCall call => Some call | _ => None end) (response_content r).

Definition ChatResponse_text (r : ChatResponse) : str :=
  foldl (λ out c,
    match c with
    | AText t => (if is_empty out then out else out ++ [0xa%N]) ++ t
    | _ => out
    end) [] (response_content r).

(** ** Correctness *)

Lemma parse_Some `{StrEnum A} raw v : parse raw = Some v ↔ raw = lit (as_str v).
Proof.
  unfold parse. split.
  - intros [_ Hb]%List.find_some. by case_bool_decide.
  - intros ->. destruct (List.find _ ALL) as [w|] eqn:E.
    + apply List.find_some in E as [_ Hb]. case_bool_decide as Hl; [|done].
      f_equal. apply as_str_inj, lit_inj, Hl.
    + eapply List.find_none in E; [|apply list_elem_of_In, (ALL_complete v)].
      by case_bool_decide.
Qed.

(** Every label enum round trips and its parser accepts nothing else. *)
Theorem str_enum_roundtrip `{StrEnum A} (v : A) (raw : str) :
  parse (lit (as_str v)) = Some v ∧ (parse raw = Some v ↔ raw = lit (as_str v)).
Proof. split; [by apply parse_Some|apply parse_Some]. Qed.

(** Opens the guards of a smart constructor, one goal per outcome. *)
Ltac smart_ctor :=
  repeat case_match; bools; split; intros; destruct_and?; simplify_eq;
  try (exfalso; congruence || lia); try done.

Lemma ToolName_try_from_Ok raw t :
  ToolName_try_from raw = Ok t ↔
  t = mkToolName raw ∧ raw ≠ [] ∧ str_len raw ≤ 64 ∧ forallb tool_name_char raw = true.
Proof. unfold ToolName_try_from, TOOL_NAME_MAX_LEN. smart_ctor. Qed.

Lemma Prompt_try_from_Ok raw p :
  Prompt_try_from raw = Ok p ↔
  p = mkPrompt raw ∧ trim raw ≠ [] ∧ str_len raw ≤ 64 * 1024.
Proof. unfold Prompt_try_from. fold PROMPT_MAX_BYTES. smart_ctor. Qed.

Lemma IdempotencyKey_try_from_Ok raw k :
  IdempotencyKey_try_from raw = Ok k ↔
  k = mkIdempotencyKey raw ∧ raw ≠ [] ∧ str_len raw ≤ 200.
Proof. unfold IdempotencyKey_try_from, MAX_IDEMPOTENCY_KEY_BYTES. smart_ctor. Qed.

(** The agent loop's index: the [n]-th step from [ZERO] is index [n] exactly
    when [n] parses as an index, and stepping stops after 128 indices. *)
Theorem turn_index_walk (n : nat) :
  Nat.iter n (λ o, o ≫= TurnIndex_next) (Some TurnIndex_ZERO)
  = res_ok (TurnIndex_try_from (Z.of_nat n)).
Proof.
  induction n as [|n IH]; [done|].
  replace (Z.of_nat (S n)) with (Z.of_nat n + 1)%Z by lia.
  change (Nat.iter (S n) ?f ?x) with (f (Nat.iter n f x)). cbv beta. rewrite IH. unfold TurnIndex_try_from, TurnIndex_next, MAX_TURNS_CAP.
  repeat (case_match; simpl in *; bools; simplify_eq); try done; lia.
Qed.

Lemma from_mime_as_mime m : from_mime (lit (as_mime m)) = Some m.
Proof. by destruct m. Qed.

Lemma FileName_try_from_fix raw f :
  FileName_try_from raw = Ok f → FileName_try_from (FileName_as_str f) = Ok f.
Proof.
  unfold FileName_try_from. intros H. repeat case_match; simplify_eq; simpl in *;
    rewrite ?trim_idemp in *; congruence.
Qed.

(** An attachment survives its storage form, whatever text it was parsed from,
    as long as the URL parser returns the text it accepted. *)
Theorem attachment_roundtrip (AssetUrl_try_from : str → res ParseError str) raw a
    (Hurl : ∀ s u, AssetUrl_try_from s = Ok u → u = s)
    (Hu64 : (0 ≤ raw_size raw)%Z)
    (Ha : Attachment_try_from AssetUrl_try_from raw = Ok a) :
  Attachment_try_from AssetUrl_try_from (RawAttachment_from a) = Ok a
  ∧ (0 < att_size a ≤ max_bytes (att_mime a))%Z.
Proof.
  unfold Attachment_try_from in *. res_inv.
  destruct (raw_size raw =? 0)%Z eqn:E0; [done|].
  destruct (max_bytes _ <? raw_size raw)%Z eqn:E1; simplify_eq.
  match goal with H : AssetUrl_try_from _ = Ok ?u |- _ => pose proof (Hurl _ _ H); subst u;
    simpl; rewrite H end.
  rewrite from_mime_as_mime. simpl. erewrite FileName_try_from_fix by done. simpl.
  rewrite E0, E1. bools. split; [done|lia].
Qed.

(** The URL check of the test suite: an absolute [https] URL is kept as it is. *)
Lemma attachment_roundtrip_witness :
  let f (s : str) := if starts_with (lit "https://") s then Ok s
                     else Err (Malformed "asset.url" "must be http:// or https://") in
  let raw := mkRawAttachment (lit "https://a/b") (lit "text/markdown; charset=utf-8")
               (lit " notes.md ") 12 in
  let a := mkAttachment (lit "https://a/b") Text (mkFileName (lit "notes.md")) 12 in
  Attachment_try_from f (RawAttachment_from a) = Ok a.
Proof.
  intros f raw a. refine (proj1 (attachment_roundtrip f raw a _ _ _)).
  - intros s u. unfold f. case_match; congruence.
  - vm_compute. discriminate.
  - vm_compute. reflexivity.
Defined.
