(* ===== verification/Queue.v ===== *)
(** * The durable prompt queue

    [runtime/queue.rs], [runtime/pg_queue.rs] and [runtime/dag.rs]: trigger rows,
    per-claim-key leases and fence sequences, the DAG turn budget.  Every SQL
    statement is a function of the tables it reads; a transaction that ends in an
    error leaves the tables as they were. *)

From Stdlib Require Import ZArith Lia Ascii String.
From stdpp Require Import base gmap list strings.
From S2P Require Import Prelude Types.

(** ** Limits ([runtime/limits.rs]); durations are nanoseconds. *)

Definition SECOND : Z := 1000000000.
Definition LEASE_TTL : Z := 30 * SECOND.
Definition LEASE_HEARTBEAT_INTERVAL : Z := 10 * SECOND.
Definition MAX_DAG_TURNS : Z := 64.

(** ** Errors ([runtime/error.rs]) *)

Inductive PromptError :=
| Parse (e : ParseError)
| RequestNotFound (id : PromptRequestId)
| DagBudgetExceeded_ (root : PromptRequestId) (turns_used turns_cap : Z)
| DagNotFound (root : PromptRequestId)
| Sequence (e : SeqOverflow)
| Backend (msg : string)
| Db (msg : string).

Inductive LeaseTimingError :=
| IntervalZero
| IntervalNotUnderTtl (ttl heartbeat_interval : Z).

(** ** Lease timing ([runtime/queue.rs]) *)

Record LeaseTiming := mkLeaseTiming { ttl : Z; heartbeat_interval : Z }.

Definition LeaseTiming_try_new (ttl heartbeat_interval : Z)
    : res LeaseTimingError LeaseTiming :=
  if (heartbeat_interval =? 0)%Z then Err IntervalZero
  else if (ttl <=? heartbeat_interval)%Z
  then Err (IntervalNotUnderTtl ttl heartbeat_interval)
  else Ok (mkLeaseTiming ttl heartbeat_interval).

Definition LeaseTiming_default_const : res LeaseTimingError LeaseTiming :=
  match LeaseTiming_try_new LEASE_TTL LEASE_HEARTBEAT_INTERVAL with
  | Ok t => Ok t
  | _ => Panic "invariant: default LEASE_TTL/LEASE_HEARTBEAT_INTERVAL satisfy try_new"
  end.

(** ** Tables *)

Record PromptRequest := mkPromptRequest {
  pr_id : PromptRequestId;
  pr_org_id : OrgId;
  pr_idempotency_key : str;
  pr_status : RequestStatus;
  pr_attempts : Z;
  pr_turn_seq : Z;
  pr_cancellation_requested : bool;
  pr_failure_reason : option FailureReason;
  pr_sender_colleague_id : ColleagueId;
  pr_receiver_colleague_id : ColleagueId;
  pr_root_request_id : PromptRequestId;
  pr_traceparent : option str;
  pr_kind : RequestKind;
  pr_kind_payload : RequestKindPayload;
  pr_thread_id : option ThreadId;
  pr_state_id : option AgentThreadId;
  pr_background_turn_id : option BackgroundTurnId;
  pr_trigger_message_id : option ThreadMessageId;
  pr_acting_user_id : option UserId;
  pr_created_at : Z;
  pr_updated_at : Z }.

Record ClaimLease := mkClaimLease {
  cl_org_id : OrgId; cl_worker_id : WorkerId; cl_lease_seq : Z; cl_leased_until : Z }.
Record ClaimSeq := mkClaimSeq { cs_next_seq : Z; cs_org_id : OrgId }.
Record Dag := mkDag {
  dag_org_id : OrgId; dag_turns_used : Z; dag_turns_cap : Z; dag_created_at : Z }.
Record Colleague := mkColleague {
  co_id : ColleagueId; co_org_id : OrgId; co_agent_id : option AgentId }.

(** [prompt_requests] and [colleagues] are lists in scan order; the tables read
    by primary key only are maps. [memberships] is what row-level security asks
    ([app_user_is_member]); [claim_parents] are the [agent_thread_state] and
    [background_turns] rows a trigger may point at, with their org. *)
Record db := mkDb {
  prompt_requests : list PromptRequest;
  claim_leases : gmap ClaimKey ClaimLease;
  claim_seq : gmap ClaimKey ClaimSeq;
  prompt_request_dags : gmap PromptRequestId Dag;
  colleagues : list Colleague;
  memberships : list (UserId * OrgId);
  agent_thread_state : gmap AgentThreadId OrgId;
  background_turns : gmap BackgroundTurnId OrgId }.

Definition set_requests (t : list PromptRequest) (d : db) : db :=
  mkDb t (claim_leases d) (claim_seq d) (prompt_request_dags d) (colleagues d)
    (memberships d) (agent_thread_state d) (background_turns d).
Definition set_leases (t : gmap ClaimKey ClaimLease) (d : db) : db :=
  mkDb (prompt_requests d) t (claim_seq d) (prompt_request_dags d) (colleagues d)
    (memberships d) (agent_thread_state d) (background_turns d).
Definition set_seqs (t : gmap ClaimKey ClaimSeq) (d : db) : db :=
  mkDb (prompt_requests d) (claim_leases d) t (prompt_request_dags d) (colleagues d)
    (memberships d) (agent_thread_state d) (background_turns d).
Definition set_dags (t : gmap PromptRequestId Dag) (d : db) : db :=
  mkDb (prompt_requests d) (claim_leases d) (claim_seq d) t (colleagues d)
    (memberships d) (agent_thread_state d) (background_turns d).

(** [COALESCE(state_id, background_turn_id)] *)
Definition claim_key (r : PromptRequest) : option ClaimKey :=
  match pr_state_id r with Some k => Some k | None => pr_background_turn_id r end.

(** ** Transactions *)

Definition M (A : Type) : Type := db → res PromptError (A * db).
Definition ret {A} (a : A) : M A := λ d, Ok (a, d).
Definition throw {A} (e : PromptError) : M A := λ _, Err e.
Definition bind {A B} (m : M A) (k : A → M B) : M B :=
  λ d, p <-? m d ; k p.1 p.2.
Definition select {A} (f : db → A) : M A := λ d, Ok (f d, d).
Definition update (f : db → db) : M unit := λ d, Ok (tt, f d).

Notation "x <-- m ; k" := (bind m (λ x, k))
  (at level 100, m at next level, k at level 200, right associativity) : patom_scope.
Notation "m ;;- k" := (bind m (λ _, k))
  (at level 100, k at level 200, right associativity) : patom_scope.

(** [run_as_user] / [begin_privileged] + [commit]: an error rolls back. *)
Definition run {A} (m : M A) (d : db) : res PromptError A * db :=
  match m d with
  | Ok (a, d') => (Ok a, d')
  | Err e => (Err e, d)
  | Panic s => (Panic s, d)
  end.

Definition is_member (d : db) (u : UserId) (o : OrgId) : bool :=
  bool_decide ((u, o) ∈ memberships d).

(** ** Enqueue *)

Record NewTrigger := mkNewTrigger {
  nt_org_id : OrgId;
  nt_acting_user_id : UserId;
  nt_thread_id : option ThreadId;
  nt_state_id : option AgentThreadId;
  nt_background_turn_id : option BackgroundTurnId;
  nt_sender_colleague_id : ColleagueId;
  nt_receiver_agent_id : AgentId;
  nt_root_request_id : option PromptRequestId;
  nt_trigger_message_id : option ThreadMessageId;
  nt_idempotency_key : IdempotencyKey;
  nt_kind_payload : RequestKindPayload }.

(** Row-level security shows a tenant transaction its own orgs' colleagues. *)
Definition resolve_agent_colleague (user : UserId) (org : OrgId) (agent : AgentId)
    : M ColleagueId := λ d,
  match List.find (λ c, bool_decide (co_org_id c = org)
                        && bool_decide (co_agent_id c = Some agent)
                        && is_member d user (co_org_id c)) (colleagues d) with
  | Some c => Ok (co_id c, d)
  | None => Err (Backend "no colleague mapped for agent in org")
  end.

(** The org of the participation or background turn the row points at
    (trigger [prompt_requests_enforce_org]). *)
Definition parent_org (d : db) (r : PromptRequest) : option OrgId :=
  match pr_state_id r with
  | Some s => agent_thread_state d !! s
  | None => pr_background_turn_id r ≫= λ b, background_turns d !! b
  end.

(** Trigger [prompt_requests_receiver_agent]. *)
Definition receiver_is_agent (d : db) (r : PromptRequest) : bool :=
  existsb (λ c, bool_decide (co_id c = pr_receiver_colleague_id r)
                && bool_decide (is_Some (co_agent_id c))) (colleagues d).

(** CHECK [prompt_requests_claim_key_xor]. *)
Definition claim_key_xor (r : PromptRequest) : bool :=
  xorb (bool_decide (is_Some (pr_state_id r)))
       (bool_decide (is_Some (pr_background_turn_id r))).

Definition same_idem (o : OrgId) (k : str) (r : PromptRequest) : bool :=
  bool_decide (pr_org_id r = o) && bool_decide (pr_idempotency_key r = k).

(** [INSERT INTO prompt_requests ... ON CONFLICT (org_id, idempotency_key) DO
    NOTHING RETURNING id]. [fk_ok] is the check of the foreign keys into tables
    that are not modelled (threads, messages, users, the sender). *)
Definition insert_request (fk_ok : PromptRequest → bool) (user : UserId)
    (r : PromptRequest) : M (option PromptRequestId) := λ d,
  if negb (bool_decide (parent_org d r = Some (pr_org_id r)))
  then Err (Db "prompt_requests_enforce_org")
  else if negb (receiver_is_agent d r) then Err (Db "prompt_requests_receiver_agent")
  else if negb (claim_key_xor r) then Err (Db "prompt_requests_claim_key_xor")
  else if negb (is_member d user (pr_org_id r))
  then Err (Db "prompt_requests_org_isolation")
  else if existsb (same_idem (pr_org_id r) (pr_idempotency_key r)) (prompt_requests d)
  then Ok (None, d)
  else if bool_decide (pr_id r ∈ (pr_id <$> prompt_requests d))
  then Err (Db "prompt_requests_pkey")
  else if negb (fk_ok r) then Err (Db "foreign key")
  else Ok (Some (pr_id r), set_requests (prompt_requests d ++ [r]) d).

Definition insert_dag (root : PromptRequestId) (row : Dag) : M unit := λ d,
  match prompt_request_dags d !! root with
  | Some _ => Err (Db "prompt_request_dags_pkey")
  | None => Ok (tt, set_dags (<[root := row]> (prompt_request_dags d)) d)
  end.

(** The row [enqueue_trigger] inserts. *)
Definition trigger_row (id : PromptRequestId) (now : Z) (traceparent : option str)
    (trig : NewTrigger) (receiver : ColleagueId) : PromptRequest :=
  mkPromptRequest id (nt_org_id trig) (IdempotencyKey_as_str (nt_idempotency_key trig))
    Pending 0 0 false None (nt_sender_colleague_id trig) receiver
    (default id (nt_root_request_id trig)) traceparent
    (RequestKindPayload_kind (nt_kind_payload trig)) (nt_kind_payload trig)
    (nt_thread_id trig) (nt_state_id trig) (nt_background_turn_id trig)
    (nt_trigger_message_id trig) (Some (nt_acting_user_id trig)) now now.

(** [id] is the fresh uuid, [now] the clock, [traceparent] the current span. *)
Definition enqueue_trigger_tx (fk_ok : PromptRequest → bool) (id : PromptRequestId)
    (now : Z) (traceparent : option str) (trig : NewTrigger) : M PromptRequestId :=
  receiver <-- resolve_agent_colleague (nt_acting_user_id trig) (nt_org_id trig)
                 (nt_receiver_agent_id trig) ;
  inserted <-- insert_request fk_ok (nt_acting_user_id trig)
                 (trigger_row id now traceparent trig receiver) ;
  match inserted with
  | Some rid =>
      match nt_root_request_id trig with
      | None => insert_dag rid (mkDag (nt_org_id trig) 0 MAX_DAG_TURNS now) ;;- ret rid
      | Some _ => ret rid
      end
  | None => λ d,
      match List.find (λ r, same_idem (nt_org_id trig)
                              (IdempotencyKey_as_str (nt_idempotency_key trig)) r
                            && is_member d (nt_acting_user_id trig) (pr_org_id r))
              (prompt_requests d) with
      | Some r => Ok (pr_id r, d)
      | None => Err (Db "RowNotFound")
      end
  end.

Definition enqueue_trigger_impl fk_ok id now traceparent trig (d : db)
    : res PromptError PromptRequestId * db :=
  run (enqueue_trigger_tx fk_ok id now traceparent trig) d.

(** ** Claim *)

(** [EXISTS (SELECT 1 FROM claim_leases WHERE claim_key = k AND leased_until > now)] *)
Definition has_live_lease (d : db) (now : Z) (k : ClaimKey) : bool :=
  match claim_leases d !! k with
  | Some l => (now <? cl_leased_until l)%Z
  | None => false
  end.

(** SQL: a NULL claim key matches no lease. *)
Definition claimable (d : db) (now : Z) (r : PromptRequest) : Prop :=
  pr_status r = Pending
  ∧ match claim_key r with Some k => has_live_lease d now k = false | None => True end.
#[export] Instance claimable_dec d now r : Decision (claimable d now r).
Proof. unfold claimable. destruct (claim_key r); apply _. Defined.

(** Oldest pending trigger whose claim key has no live lease. *)
Definition next_turn_candidate (d : db) (now : Z)
    : res PromptError (option (ClaimKey * OrgId * UserId)) :=
  match min_by pr_created_at (filter (claimable d now) (prompt_requests d)) with
  | None => Ok None
  | Some r =>
      match claim_key r, pr_acting_user_id r with
      | None, _ => Err (Db "decode claim_key: unexpected null")
      | Some _, None =>
          Err (Backend "trigger row missing acting_user_id")
      | Some k, Some u => Ok (Some (k, pr_org_id r, u))
      end
  end.

(** [INSERT ... VALUES (k, 1, org) ON CONFLICT DO UPDATE SET next_seq = next_seq + 1
    RETURNING next_seq] on a BIGINT column, decoded as a [u64]. *)
Definition bump_claim_seq (k : ClaimKey) (org : OrgId) : M Z := λ d,
  match claim_seq d !! k with
  | None => Ok (1%Z, set_seqs (<[k := mkClaimSeq 1 org]> (claim_seq d)) d)
  | Some s =>
      let n := (cs_next_seq s + 1)%Z in
      if (I64_MAX <? n)%Z then Err (Db "bigint out of range")
      else if (n <? 0)%Z then Err (Db "invariant: turn_seq must be non-negative")
      else Ok (n, set_seqs (<[k := mkClaimSeq n (cs_org_id s)]> (claim_seq d)) d)
  end.

Definition try_take_claim_lease (k : ClaimKey) (org : OrgId) (worker : WorkerId)
    (lease_seq deadline now : Z) : M bool := λ d,
  match claim_leases d !! k with
  | None =>
      Ok (true, set_leases (<[k := mkClaimLease org worker lease_seq deadline]>
                              (claim_leases d)) d)
  | Some l =>
      if (cl_leased_until l <=? now)%Z
      then Ok (true, set_leases (<[k := mkClaimLease (cl_org_id l) worker lease_seq deadline]>
                                   (claim_leases d)) d)
      else Ok (false, d)
  end.

Record DrainedTrigger := mkDrainedTrigger {
  dt_id : PromptRequestId;
  dt_kind : RequestKind;
  dt_thread_id : option ThreadId;
  dt_receiver_colleague_id : ColleagueId;
  dt_agent_id : option AgentId;
  dt_kind_payload : RequestKindPayload;
  dt_root_request_id : PromptRequestId }.

(** The [FROM colleagues rc WHERE rc.id = pr.receiver_colleague_id] join. *)
Definition receiver_row (d : db) (r : PromptRequest) : option Colleague :=
  List.find (λ c, bool_decide (co_id c = pr_receiver_colleague_id r)) (colleagues d).

Definition drainable (d : db) (k : ClaimKey) (r : PromptRequest) : Prop :=
  claim_key r = Some k ∧ pr_status r = Pending ∧ is_Some (receiver_row d r).
#[export] Instance drainable_dec d k r : Decision (drainable d k r).
Proof. unfold drainable. apply _. Defined.

Definition drain_row (lease_seq now : Z) (r : PromptRequest) : PromptRequest :=
  mkPromptRequest (pr_id r) (pr_org_id r) (pr_idempotency_key r)
    Processing (pr_attempts r + 1) lease_seq
    (pr_cancellation_requested r) (pr_failure_reason r) (pr_sender_colleague_id r)
    (pr_receiver_colleague_id r) (pr_root_request_id r) (pr_traceparent r) (pr_kind r)
    (pr_kind_payload r) (pr_thread_id r) (pr_state_id r) (pr_background_turn_id r)
    (pr_trigger_message_id r) (pr_acting_user_id r) (pr_created_at r) now.

Definition drained_of (d : db) (r : PromptRequest) : DrainedTrigger :=
  mkDrainedTrigger (pr_id r) (pr_kind r) (pr_thread_id r) (pr_receiver_colleague_id r)
    (receiver_row d r ≫= co_agent_id) (pr_kind_payload r) (pr_root_request_id r).

Definition drain_turn_pending (k : ClaimKey) (lease_seq now : Z)
    : M (list DrainedTrigger) := λ d,
  Ok (drained_of d <$> filter (drainable d k) (prompt_requests d),
      set_requests (update_where (drainable d k) (drain_row lease_seq now)
                      (prompt_requests d)) d).

Record ClaimedTurn := mkClaimedTurn {
  ct_claim_key : ClaimKey;
  ct_kind : RequestKind;
  ct_thread_id : option ThreadId;
  ct_org_id : OrgId;
  ct_acting_user_id : UserId;
  ct_receiver_agent_id : AgentId;
  ct_receiver_colleague_id : ColleagueId;
  ct_trigger_ids : list PromptRequestId;
  ct_root_request_id : PromptRequestId;
  ct_kind_payload : RequestKindPayload;
  ct_worker : WorkerId;
  ct_lease_seq : Z }.

Record TurnReceipt := mkTurnReceipt {
  rc_claim_key : ClaimKey;
  rc_lease_seq : Z;
  rc_trigger_ids : list PromptRequestId;
  rc_acting_user_id : UserId;
  rc_root_request_id : PromptRequestId }.

Definition receipt (c : ClaimedTurn) : TurnReceipt :=
  mkTurnReceipt (ct_claim_key c) (ct_lease_seq c) (ct_trigger_ids c)
    (ct_acting_user_id c) (ct_root_request_id c).

(** The loop over [drained[1..]]: the first mismatch is the error. *)
Fixpoint check_batch (agent : AgentId) (kind : RequestKind) (rest : list DrainedTrigger)
    : res PromptError unit :=
  match rest with
  | [] => Ok tt
  | t :: rest' =>
      if negb (bool_decide (dt_agent_id t = Some agent))
      then Err (Backend "drained triggers for one claim_key must share receiver_agent_id")
      else if negb (bool_decide (dt_kind t = kind))
      then Err (Backend "drained triggers for one claim_key must share kind")
      else check_batch agent kind rest'
  end.

Definition build_claimed_turn (k : ClaimKey) (org : OrgId) (user : UserId)
    (worker : WorkerId) (lease_seq : Z) (drained : list DrainedTrigger)
    : res PromptError ClaimedTurn :=
  match drained with
  | [] => Panic "invariant: caller checks `drained.is_empty()` before assembly"
  | t :: rest =>
      agent <-? ok_or (dt_agent_id t)
        (Backend "drained trigger receiver missing agent_id") ;
      check_batch agent (dt_kind t) rest ;;?
      Ok (mkClaimedTurn k (dt_kind t) (dt_thread_id t) org user agent
            (dt_receiver_colleague_id t) (dt_id <$> drained) (dt_root_request_id t)
            (dt_kind_payload t) worker lease_seq)
  end.

(** What the claim transaction does once it has a candidate. [None]: the lease
    was lost, or nothing was left to drain. *)
Definition claim_body (timing : LeaseTiming) (worker : WorkerId) (now : Z)
    (k : ClaimKey) (org : OrgId) : M (option (Z * list DrainedTrigger)) :=
  lease_seq <-- bump_claim_seq k org ;
  taken <-- try_take_claim_lease k org worker lease_seq (now + ttl timing) now ;
  if negb taken then ret None else
  drained <-- drain_turn_pending k lease_seq now ;
  if is_empty drained then ret None else ret (Some (lease_seq, drained)).

(** The rest of the transaction, its commit, and the assembly after the commit. *)
Definition claim_with (timing : LeaseTiming) (worker : WorkerId) (now : Z)
    (cand : ClaimKey * OrgId * UserId) (d : db)
    : res PromptError (option ClaimedTurn) * db :=
  let '(k, org, user) := cand in
  let '(r, d') := run (claim_body timing worker now k org) d in
  (drained <-? r ;
   match drained with
   | None => Ok None
   | Some (lease_seq, batch) =>
       turn <-? build_claimed_turn k org user worker lease_seq batch ;
       Ok (Some turn)
   end, d').

Definition claim_next_turn_impl (timing : LeaseTiming) (worker : WorkerId) (now : Z)
    (d : db) : res PromptError (option ClaimedTurn) * db :=
  match next_turn_candidate d now with
  | Err e => (Err e, d)
  | Panic s => (Panic s, d)
  | Ok None => (Ok None, d)
  | Ok (Some cand) => claim_with timing worker now cand d
  end.

(** ** Finalise, heartbeat, release *)

Definition finalised_by (rc : TurnReceipt) (r : PromptRequest) : Prop :=
  pr_id r ∈ rc_trigger_ids rc ∧ pr_turn_seq r = rc_lease_seq rc ∧ pr_status r = Processing.
#[export] Instance finalised_by_dec rc r : Decision (finalised_by rc r).
Proof. unfold finalised_by. apply _. Defined.

Definition finalise_row (status : RequestStatus) (reason : option FailureReason) (now : Z)
    (r : PromptRequest) : PromptRequest :=
  mkPromptRequest (pr_id r) (pr_org_id r) (pr_idempotency_key r)
    status (pr_attempts r) (pr_turn_seq r)
    (pr_cancellation_requested r) reason (pr_sender_colleague_id r)
    (pr_receiver_colleague_id r) (pr_root_request_id r) (pr_traceparent r) (pr_kind r)
    (pr_kind_payload r) (pr_thread_id r) (pr_state_id r) (pr_background_turn_id r)
    (pr_trigger_message_id r) (pr_acting_user_id r) (pr_created_at r) now.

Definition finalise_turn (rc : TurnReceipt) (status : RequestStatus)
    (reason : option FailureReason) (now : Z) (d : db) : res PromptError unit * db :=
  run (update (λ d, set_requests (update_where (finalised_by rc)
                      (finalise_row status reason now) (prompt_requests d)) d)) d.

Definition mark_turn_done (rc : TurnReceipt) (now : Z) (d : db) :=
  finalise_turn rc Done None now d.
Definition mark_turn_failed (rc : TurnReceipt) (reason : FailureReason) (now : Z) (d : db) :=
  finalise_turn rc Failed (Some reason) now d.

(** [WHERE claim_key = $1 AND lease_seq = $2] *)
Definition holds_lease (rc : TurnReceipt) (d : db) : option ClaimLease :=
  match claim_leases d !! rc_claim_key rc with
  | Some l => if (cl_lease_seq l =? rc_lease_seq rc)%Z then Some l else None
  | None => None
  end.

Definition heartbeat_turn_impl (timing : LeaseTiming) (rc : TurnReceipt) (now : Z) (d : db)
    : res PromptError unit * db :=
  run (update (λ d,
    match holds_lease rc d with
    | Some l => set_leases (<[rc_claim_key rc :=
                  mkClaimLease (cl_org_id l) (cl_worker_id l) (cl_lease_seq l)
                    (now + ttl timing)]> (claim_leases d)) d
    | None => d
    end)) d.

Definition release_turn_impl (rc : TurnReceipt) (d : db) : res PromptError unit * db :=
  run (update (λ d,
    match holds_lease rc d with
    | Some _ => set_leases (delete (rc_claim_key rc) (claim_leases d)) d
    | None => d
    end)) d.

(** ** Cancellation and status *)

Definition cancel_row (now : Z) (r : PromptRequest) : PromptRequest :=
  mkPromptRequest (pr_id r) (pr_org_id r) (pr_idempotency_key r)
    (pr_status r) (pr_attempts r) (pr_turn_seq r)
    true (pr_failure_reason r) (pr_sender_colleague_id r)
    (pr_receiver_colleague_id r) (pr_root_request_id r) (pr_traceparent r) (pr_kind r)
    (pr_kind_payload r) (pr_thread_id r) (pr_state_id r) (pr_background_turn_id r)
    (pr_trigger_message_id r) (pr_acting_user_id r) (pr_created_at r) now.

(** The update commits before [rows_affected] is looked at. *)
Definition request_cancellation (id : PromptRequestId) (now : Z) (d : db)
    : res PromptError unit * db :=
  let t := update_where (λ r, pr_id r = id) (cancel_row now) (prompt_requests d) in
  (if is_empty (filter (λ r, pr_id r = id) (prompt_requests d))
   then Err (RequestNotFound id) else Ok tt, set_requests t d).

Record RequestStatusView := mkRequestStatusView {
  sv_request_id : PromptRequestId;
  sv_claim_key : ClaimKey;
  sv_status : RequestStatus;
  sv_cancellation_requested : bool;
  sv_failure_reason : option FailureReason }.

Definition status_view (r : PromptRequest) : res PromptError RequestStatusView :=
  match claim_key r with
  | Some k => Ok (mkRequestStatusView (pr_id r) k (pr_status r)
                    (pr_cancellation_requested r) (pr_failure_reason r))
  | None => Err (Db "decode claim_key: unexpected null")
  end.

Definition status (d : db) (id : PromptRequestId) : res PromptError RequestStatusView :=
  match List.find (λ r, bool_decide (pr_id r = id)) (prompt_requests d) with
  | Some r => status_view r
  | None => Err (RequestNotFound id)
  end.

Fixpoint collect {A B} (f : A → res PromptError B) (l : list A) : res PromptError (list B) :=
  match l with
  | [] => Ok []
  | a :: l' => b <-? f a ; bs <-? collect f l' ; Ok (b :: bs)
  end.

Definition statuses (d : db) (ids : list PromptRequestId)
    : res PromptError (list RequestStatusView) :=
  if is_empty ids then Ok []
  else collect status_view (filter (λ r, pr_id r ∈ ids) (prompt_requests d)).

(** ** The DAG turn budget ([runtime/dag.rs]) *)

Record BudgetBumped := mkBudgetBumped { turns_used : Z; turns_cap : Z }.

Definition u32_or_invariant (raw : Z) (name : string) : res PromptError Z :=
  if in_u32 raw then Ok raw else Panic ("invariant: " +:+ name +:+ " fits in u32").

(** [visible] is the row filter of the transaction: everything when privileged,
    the member orgs of the acting user otherwise. A panic after the commit
    leaves the increment in place. *)
Definition bump_or_fail_in_tx (visible : Dag → bool) (root : PromptRequestId) (d : db)
    : res PromptError BudgetBumped * db :=
  match prompt_request_dags d !! root with
  | Some row =>
      if negb (visible row) then (Err (DagNotFound root), d)
      else if (dag_turns_used row <? dag_turns_cap row)%Z
      then let used := (dag_turns_used row + 1)%Z in
           (u <-? u32_or_invariant used "turns_used" ;
            c <-? u32_or_invariant (dag_turns_cap row) "turns_cap" ;
            Ok (mkBudgetBumped u c),
            set_dags (<[root := mkDag (dag_org_id row) used (dag_turns_cap row)
                                  (dag_created_at row)]> (prompt_request_dags d)) d)
      else (u <-? u32_or_invariant (dag_turns_used row) "turns_used" ;
            c <-? u32_or_invariant (dag_turns_cap row) "turns_cap" ;
            Err (DagBudgetExceeded_ root u c), d)
  | None => (Err (DagNotFound root), d)
  end.

Definition bump_or_fail (root : PromptRequestId) (d : db) :=
  bump_or_fail_in_tx (λ _, true) root d.
Definition bump_or_fail_for_user (user : UserId) (root : PromptRequestId) (d : db) :=
  bump_or_fail_in_tx (λ row, is_member d user (dag_org_id row)) root d.

Definition live_status (s : RequestStatus) : bool :=
  match s with Pending | Processing => true | _ => false end.

Definition quiescent (root : PromptRequestId) (d : db) : bool :=
  negb (existsb (λ r, bool_decide (pr_root_request_id r = root) && live_status (pr_status r))
          (prompt_requests d)).
