(* ===== verification/QueueSafety.v ===== *)
(** * Safety of the prompt queue under interleaving

    The queue as a transition system: workers, producers and HTTP handlers take
    steps in any order, clocks are arbitrary per step, and a claim is two steps
    (the candidate read, then the rest of its transaction against tables that
    others may have changed meanwhile).  The ghost component is the list of
    committed drains. *)

From Stdlib Require Import ZArith Lia Ascii String.
From stdpp Require Import base gmap list strings sets relations.
From S2P Require Import Prelude Types Queue.

(** ** The transition system *)

(** A committed drain: the claim key, its fence value and the trigger ids. *)
Record Claim := mkClaim { cm_key : ClaimKey; cm_seq : Z; cm_ids : list PromptRequestId }.

Record sys := mkSys {
  sys_db : db;
  sys_reads : list (WorkerId * Z * (ClaimKey * OrgId * UserId));
  sys_claims : list Claim }.

(** The batch a claim transaction commits, if it drains one. *)
Definition drained_batch (timing : LeaseTiming) (worker : WorkerId) (now : Z)
    (cand : ClaimKey * OrgId * UserId) (d : db) : option Claim :=
  let '(k, org, _) := cand in
  match (run (claim_body timing worker now k org) d).1 with
  | Ok (Some (s, batch)) => Some (mkClaim k s (dt_id <$> batch))
  | _ => None
  end.

(** A receipt some worker was handed. *)
Definition receipt_of (rc : TurnReceipt) (c : Claim) : Prop :=
  rc_claim_key rc = cm_key c ∧ rc_lease_seq rc = cm_seq c ∧ rc_trigger_ids rc = cm_ids c.

(** What the other components may rewrite: the directory, memberships and the
    participations. *)
Definition same_queue (d d' : db) : Prop :=
  prompt_requests d' = prompt_requests d ∧ claim_leases d' = claim_leases d
  ∧ claim_seq d' = claim_seq d ∧ prompt_request_dags d' = prompt_request_dags d.

(** Labels single out the drains and the finalisations. *)
Inductive label :=
| LClaim (worker : WorkerId) (now : Z) (cand : ClaimKey * OrgId * UserId)
| LFinalise (c : Claim)
| LOther.

Inductive lstep (timing : LeaseTiming) : label → sys → sys → Prop :=
| step_enqueue fk_ok id now tp trig d rds cs :
    lstep timing LOther (mkSys d rds cs)
      (mkSys (enqueue_trigger_impl fk_ok id now tp trig d).2 rds cs)
| step_claim_read worker now cand d rds cs :
    next_turn_candidate d now = Ok (Some cand) →
    lstep timing LOther (mkSys d rds cs) (mkSys d ((worker, now, cand) :: rds) cs)
| step_claim_commit worker now cand d rds1 rds2 cs :
    lstep timing (LClaim worker now cand) (mkSys d (rds1 ++ (worker, now, cand) :: rds2) cs)
      (mkSys (claim_with timing worker now cand d).2 (rds1 ++ rds2)
         (match drained_batch timing worker now cand d with
          | Some c => c :: cs | None => cs end))
| step_finalise rc c status reason now d rds cs :
    c ∈ cs → receipt_of rc c → is_terminal status = true →
    lstep timing (LFinalise c) (mkSys d rds cs) (mkSys (finalise_turn rc status reason now d).2 rds cs)
| step_heartbeat rc c now d rds cs :
    c ∈ cs → receipt_of rc c →
    lstep timing LOther (mkSys d rds cs) (mkSys (heartbeat_turn_impl timing rc now d).2 rds cs)
| step_release rc c d rds cs :
    c ∈ cs → receipt_of rc c →
    lstep timing LOther (mkSys d rds cs) (mkSys (release_turn_impl rc d).2 rds cs)
| step_cancel id now d rds cs :
    lstep timing LOther (mkSys d rds cs) (mkSys (request_cancellation id now d).2 rds cs)
| step_bump visible root d rds cs :
    lstep timing LOther (mkSys d rds cs) (mkSys (bump_or_fail_in_tx visible root d).2 rds cs)
| step_scan_order rows d rds cs :
    rows ≡ₚ prompt_requests d →
    lstep timing LOther (mkSys d rds cs) (mkSys (set_requests rows d) rds cs)
| step_directory d' d rds cs :
    same_queue d d' → lstep timing LOther (mkSys d rds cs) (mkSys d' rds cs).

Definition step (timing : LeaseTiming) (s s' : sys) : Prop := ∃ l, lstep timing l s s'.

Definition initial (s : sys) : Prop :=
  prompt_requests (sys_db s) = [] ∧ claim_leases (sys_db s) = ∅
  ∧ claim_seq (sys_db s) = ∅ ∧ prompt_request_dags (sys_db s) = ∅
  ∧ sys_reads s = [] ∧ sys_claims s = [].

Definition reachable (timing : LeaseTiming) (s : sys) : Prop :=
  ∃ s0, initial s0 ∧ rtc (step timing) s0 s.

(** ** The invariant *)

(** The current fence value of a claim key. *)
Definition fence (d : db) (k : ClaimKey) : Z := from_option cs_next_seq 0%Z (claim_seq d !! k).

Record row_inv (cs : list Claim) (r : PromptRequest) : Prop := {
  ri_pending : pr_status r = Pending →
    pr_attempts r = 0%Z ∧ pr_failure_reason r = None ∧ pr_id r ∉ mjoin (cm_ids <$> cs);
  ri_claimed : pr_status r ≠ Pending →
    pr_attempts r = 1%Z ∧ ∃ c, c ∈ cs ∧ pr_id r ∈ cm_ids c
      ∧ claim_key r = Some (cm_key c) ∧ pr_turn_seq r = cm_seq c }.

Record inv (s : sys) : Prop := {
  inv_ids : NoDup (pr_id <$> prompt_requests (sys_db s));
  inv_idem : NoDup ((λ r, (pr_org_id r, pr_idempotency_key r)) <$> prompt_requests (sys_db s));
  inv_rows : ∀ r, r ∈ prompt_requests (sys_db s) → row_inv (sys_claims s) r;
  inv_exist : ∀ c i, c ∈ sys_claims s → i ∈ cm_ids c → i ∈ (pr_id <$> prompt_requests (sys_db s));
  inv_once : NoDup (mjoin (cm_ids <$> sys_claims s));
  inv_fence : NoDup ((λ c, (cm_key c, cm_seq c)) <$> sys_claims s);
  inv_seq : ∀ c, c ∈ sys_claims s → (1 ≤ cm_seq c ≤ fence (sys_db s) (cm_key c))%Z;
  inv_nonneg : ∀ k, (0 ≤ fence (sys_db s) k)%Z;
  inv_lease : ∀ k l, claim_leases (sys_db s) !! k = Some l →
    (cl_lease_seq l ≤ fence (sys_db s) k)%Z;
  inv_dags : ∀ root row, prompt_request_dags (sys_db s) !! root = Some row →
    (0 ≤ dag_turns_used row ≤ dag_turns_cap row)%Z ∧ dag_turns_cap row = MAX_DAG_TURNS }.

(** ** What a claim transaction can do *)

Definition bumped (k : ClaimKey) (o : OrgId) (d : db) : db :=
  set_seqs (<[k := mkClaimSeq (fence d k + 1) o]> (claim_seq d)) d.

Definition batch_of (d : db) (k : ClaimKey) : list DrainedTrigger :=
  drained_of d <$> filter (drainable d k) (prompt_requests d).

Definition taken (timing : LeaseTiming) (worker : WorkerId) (now : Z) (k : ClaimKey)
    (o o' : OrgId) (d : db) : db :=
  set_requests (update_where (drainable d k) (drain_row (fence d k + 1) now)
                  (prompt_requests d))
    (set_leases (<[k := mkClaimLease o' worker (fence d k + 1) (now + ttl timing)]>
                   (claim_leases d)) (bumped k o d)).

Inductive claim_outcome (timing : LeaseTiming) (worker : WorkerId) (now : Z)
    (k : ClaimKey) (d : db) : res PromptError (option (Z * list DrainedTrigger)) → db → Prop :=
| co_error e : claim_outcome timing worker now k d (Err e) d
| co_lost o :
    has_live_lease d now k = true →
    claim_outcome timing worker now k d (Ok None) (bumped k o d)
| co_empty o o' :
    has_live_lease d now k = false → batch_of d k = [] →
    claim_outcome timing worker now k d (Ok None) (taken timing worker now k o o' d)
| co_batch o o' :
    has_live_lease d now k = false → batch_of d k ≠ [] →
    claim_outcome timing worker now k d (Ok (Some (fence d k + 1, batch_of d k)%Z))
      (taken timing worker now k o o' d).

Lemma bump_claim_seq_cases k org d :
  (∃ e, bump_claim_seq k org d = Err e) ∨
  (∃ o, bump_claim_seq k org d = Ok ((fence d k + 1)%Z, bumped k o d)).
Proof.
  unfold bump_claim_seq, bumped, fence. destruct (claim_seq d !! k) as [s|] eqn:E; simpl.
  - repeat case_match; eauto.
  - right. by exists org.
Qed.

Lemma try_take_cases k org worker s deadline now d :
  (has_live_lease d now k = true ∧
   try_take_claim_lease k org worker s deadline now d = Ok (false, d)) ∨
  (has_live_lease d now k = false ∧ ∃ o,
   try_take_claim_lease k org worker s deadline now d
   = Ok (true, set_leases (<[k := mkClaimLease o worker s deadline]> (claim_leases d)) d)).
Proof.
  unfold try_take_claim_lease, has_live_lease.
  destruct (claim_leases d !! k) as [l|] eqn:E; [|by eauto].
  destruct (Z.leb_spec (cl_leased_until l) now); destruct (Z.ltb_spec now (cl_leased_until l));
    try lia; eauto.
Qed.

Lemma claim_body_outcome timing worker now k org d :
  claim_outcome timing worker now k d
    (run (claim_body timing worker now k org) d).1
    (run (claim_body timing worker now k org) d).2.
Proof.
  unfold run, claim_body, bind.
  destruct (bump_claim_seq_cases k org d) as [[e He]|[o Ho]].
  { rewrite He. apply co_error. }
  rewrite Ho. cbn [res_bind fst snd].
  destruct (try_take_cases k org worker (fence d k + 1) (now + ttl timing) now (bumped k o d))
    as [[Hl He]|[Hl [o' He]]]; rewrite He; cbn [res_bind fst snd negb].
  - exact (co_lost timing worker now k d o Hl).
  - unfold drain_turn_pending, select, ret. cbn [res_bind fst snd].
    match goal with |- context [is_empty ?b] => change b with (batch_of d k) end.
    destruct (is_empty (batch_of d k)) eqn:Hb; bools; cbn [res_bind fst snd].
    + exact (co_empty timing worker now k d o o' Hl Hb).
    + exact (co_batch timing worker now k d o o' Hl Hb).
Qed.

(** The database part of [claim_with] is the transaction's. *)
Lemma claim_with_db timing worker now k org user d :
  (claim_with timing worker now (k, org, user) d).2
  = (run (claim_body timing worker now k org) d).2.
Proof. unfold claim_with. by destruct (run _ d). Qed.

(** ** Preservation *)

Lemma fence_bumped k o d k' :
  fence (bumped k o d) k' = if decide (k = k') then (fence d k' + 1)%Z else fence d k'.
Proof.
  unfold fence at 1, bumped. simpl. case_decide; simplify_map_eq; done.
Qed.

Lemma fence_set_seqs_le k o d k' : (fence d k' ≤ fence (bumped k o d) k')%Z.
Proof. rewrite fence_bumped. case_decide; lia. Qed.

(** A row rewrite the invariant cannot see. *)
Record keeps (r r' : PromptRequest) : Prop := {
  kp_id : pr_id r' = pr_id r;
  kp_org : pr_org_id r' = pr_org_id r;
  kp_idem : pr_idempotency_key r' = pr_idempotency_key r;
  kp_key : claim_key r' = claim_key r;
  kp_seq : pr_turn_seq r' = pr_turn_seq r;
  kp_attempts : pr_attempts r' = pr_attempts r;
  kp_pending : pr_status r' = Pending ↔ pr_status r = Pending;
  kp_reason : pr_status r = Pending → pr_failure_reason r' = pr_failure_reason r }.

Lemma row_inv_keeps cs r r' : keeps r r' → row_inv cs r → row_inv cs r'.
Proof.
  intros [] [H1 H2]. split.
  - rewrite kp_pending0. intros Hp. rewrite kp_attempts0, kp_id0, kp_reason0 by done. auto.
  - rewrite kp_pending0, kp_attempts0, kp_id0, kp_key0, kp_seq0. auto.
Qed.

(** Steps that rewrite no drained batch: rows change by [keeps], fences grow,
    leases stay below their fence, budgets stay within their cap. *)
Lemma inv_quiet s d' rds P `{∀ r, Decision (P r)} f :
  inv s →
  prompt_requests d' = update_where P f (prompt_requests (sys_db s)) →
  (∀ r, r ∈ prompt_requests (sys_db s) → P r → keeps r (f r)) →
  (∀ k, fence (sys_db s) k ≤ fence d' k)%Z →
  (∀ k l, claim_leases d' !! k = Some l → cl_lease_seq l ≤ fence d' k)%Z →
  (∀ root row, prompt_request_dags d' !! root = Some row →
    (0 ≤ dag_turns_used row ≤ dag_turns_cap row)%Z ∧ dag_turns_cap row = MAX_DAG_TURNS) →
  inv (mkSys d' rds (sys_claims s)).
Proof.
  intros [] Hr Hf Hfe Hl Hd.
  assert (∀ {B} (g : PromptRequest → B), (∀ r r', keeps r r' → g r' = g r) →
    g <$> prompt_requests d' = g <$> prompt_requests (sys_db s)) as Hg.
  { intros B g Hk. rewrite Hr. apply update_where_fmap. auto. }
  constructor; simpl; try done.
  - rewrite Hg; [done|]. intros ?? []; done.
  - rewrite Hg; [done|]. intros ?? []; congruence.
  - intros r. rewrite Hr, elem_of_update_where. intros (r0 & Hr0 & ->).
    case_decide; [|by auto]. eapply row_inv_keeps; eauto.
  - rewrite Hg; [done|]. intros ?? []; done.
  - intros c Hc. specialize (inv_seq0 c Hc). specialize (Hfe (cm_key c)). lia.
  - intros k. specialize (inv_nonneg0 k). specialize (Hfe k). lia.
Qed.

(** The special case where no row changes. *)
Lemma inv_same_rows s d' rds :
  inv s →
  prompt_requests d' = prompt_requests (sys_db s) →
  (∀ k, fence (sys_db s) k ≤ fence d' k)%Z →
  (∀ k l, claim_leases d' !! k = Some l → cl_lease_seq l ≤ fence d' k)%Z →
  (∀ root row, prompt_request_dags d' !! root = Some row →
    (0 ≤ dag_turns_used row ≤ dag_turns_cap row)%Z ∧ dag_turns_cap row = MAX_DAG_TURNS) →
  inv (mkSys d' rds (sys_claims s)).
Proof.
  intros Hi Hr. eapply (inv_quiet _ _ _ (λ _, False) (λ r, r)); eauto; [|done].
  rewrite Hr. symmetry. apply update_where_id. auto.
Qed.

Lemma claimed_ids_elem cs i : i ∈ mjoin (cm_ids <$> cs) ↔ ∃ c, c ∈ cs ∧ i ∈ cm_ids c.
Proof.
  rewrite list_elem_of_join. setoid_rewrite list_elem_of_fmap. naive_solver.
Qed.

Lemma batch_ids d k :
  dt_id <$> batch_of d k = pr_id <$> filter (drainable d k) (prompt_requests d).
Proof. unfold batch_of. by rewrite <-list_fmap_compose. Qed.

Lemma drainable_Pending d k r : drainable d k r → pr_status r = Pending.
Proof. by intros (_ & ? & _). Qed.

(** The committed drain: the rows of the batch become the newest claim's. *)
Lemma inv_drain timing worker now k o o' s rds :
  inv s → has_live_lease (sys_db s) now k = false →
  inv (mkSys (taken timing worker now k o o' (sys_db s)) rds
         (mkClaim k (fence (sys_db s) k + 1) (dt_id <$> batch_of (sys_db s) k) :: sys_claims s)).
Proof.
  intros [] _. destruct s as [d rds0 cs]. simpl in *.
  set (c := mkClaim _ _ _).
  assert (∀ k', fence (taken timing worker now k o o' d) k' = fence (bumped k o d) k') as Hfe
    by done.
  assert (∀ r, r ∈ prompt_requests d → pr_id r ∈ cm_ids c → drainable d k r) as Hin.
  { intros r Hr. simpl. rewrite batch_ids, list_elem_of_fmap.
    intros (r' & Heq & [Hd Hr']%list_elem_of_filter).
    by rewrite (NoDup_fmap_eq pr_id _ r r' inv_ids0). }
  constructor; simpl.
  - rewrite update_where_fmap; done.
  - rewrite update_where_fmap; done.
  - intros r (r0 & Hr0 & ->)%elem_of_update_where.
    destruct (decide (drainable d k r0)) as [Hd|Hd]; split; simpl.
    + done.
    + intros _. split.
      * destruct (inv_rows0 r0 Hr0) as [Hp _]. destruct (Hp (drainable_Pending _ _ _ Hd)). lia.
      * exists c. repeat split; [set_solver| |by destruct Hd].
        simpl. rewrite batch_ids, list_elem_of_fmap. exists r0.
        by rewrite list_elem_of_filter.
    + intros Hp. destruct (inv_rows0 r0 Hr0) as [H1 _]. destruct (H1 Hp) as (? & ? & Hn).
      repeat split; [done..|]. rewrite elem_of_app.
      intros [?|?]; [|done]. apply Hd. by apply Hin.
    + intros Hp. destruct (inv_rows0 r0 Hr0) as [_ H2]. destruct (H2 Hp) as (? & c' & ?).
      split; [done|]. exists c'. set_solver.
  - intros c' i [->|Hc']%elem_of_cons Hi; rewrite update_where_fmap by done.
    + simpl in Hi. rewrite batch_ids in Hi. apply list_elem_of_fmap in Hi as (r & -> & Hr).
      apply list_elem_of_filter in Hr as [_ Hr]. apply list_elem_of_fmap. eauto.
    + eauto.
  - rewrite NoDup_app. split; [rewrite batch_ids; by apply NoDup_fmap_filter|].
    split; [|done]. intros i Hi. rewrite batch_ids in Hi.
    apply list_elem_of_fmap in Hi as (r & -> & [Hd Hr]%list_elem_of_filter).
    destruct (inv_rows0 r Hr) as [H1 _]. by destruct (H1 (drainable_Pending _ _ _ Hd)) as (_&_&?).
  - rewrite NoDup_cons. split; [|done]. rewrite list_elem_of_fmap.
    intros (c' & [= Hk Hs] & Hc'). specialize (inv_seq0 c' Hc'). rewrite <-Hk in inv_seq0. lia.
  - intros c' [->|Hc']%elem_of_cons; rewrite Hfe.
    + simpl. rewrite fence_bumped. case_decide; [|done]. specialize (inv_nonneg0 k). lia.
    + specialize (inv_seq0 c' Hc'). pose proof (fence_set_seqs_le k o d (cm_key c')). lia.
  - intros k'. rewrite Hfe. pose proof (fence_set_seqs_le k o d k').
    specialize (inv_nonneg0 k'). lia.
  - intros k' l Hl. rewrite Hfe. rewrite fence_bumped.
    destruct (decide (k = k')) as [->|Hn].
    + rewrite lookup_insert_eq in Hl. injection Hl as <-. simpl. lia.
    + rewrite lookup_insert_ne in Hl by done. eauto.
  - done.
Qed.

Lemma insert_request_cases fk_ok user r d :
  (∃ e, insert_request fk_ok user r d = Err e) ∨
  (insert_request fk_ok user r d = Ok (None, d)
   ∧ existsb (same_idem (pr_org_id r) (pr_idempotency_key r)) (prompt_requests d) = true) ∨
  (insert_request fk_ok user r d = Ok (Some (pr_id r), set_requests (prompt_requests d ++ [r]) d)
   ∧ existsb (same_idem (pr_org_id r) (pr_idempotency_key r)) (prompt_requests d) = false
   ∧ pr_id r ∉ (pr_id <$> prompt_requests d)).
Proof.
  unfold insert_request.
  repeat match goal with
  | |- (∃ e, (if negb ?b then _ else _) = _) ∨ _ =>
      destruct b; cbn [negb]; [|left; by eexists]
  end.
  destruct (existsb _ (prompt_requests d)) eqn:Hex; [by right; left|].
  case_bool_decide; [left; by eexists|].
  repeat match goal with
  | |- (∃ e, (if negb ?b then _ else _) = _) ∨ _ =>
      destruct b; cbn [negb]; [|left; by eexists]
  end.
  by right; right.
Qed.

(** Either nothing was written, or one fresh row (and its budget) was. *)
Inductive enqueue_outcome (id : PromptRequestId) (now : Z) (tp : option str)
    (trig : NewTrigger) (d : db) : res PromptError PromptRequestId → db → Prop :=
| eo_error e : enqueue_outcome id now tp trig d (Err e) d
| eo_existing row :
    row ∈ prompt_requests d →
    same_idem (nt_org_id trig) (IdempotencyKey_as_str (nt_idempotency_key trig)) row = true →
    enqueue_outcome id now tp trig d (Ok (pr_id row)) d
| eo_inserted receiver dags :
    (∀ row, row ∈ prompt_requests d →
      same_idem (nt_org_id trig) (IdempotencyKey_as_str (nt_idempotency_key trig)) row = false) →
    id ∉ (pr_id <$> prompt_requests d) →
    dags = match nt_root_request_id trig with
           | Some _ => prompt_request_dags d
           | None => <[id := mkDag (nt_org_id trig) 0 MAX_DAG_TURNS now]> (prompt_request_dags d)
           end →
    enqueue_outcome id now tp trig d (Ok id)
      (set_dags dags
        (set_requests (prompt_requests d ++ [trigger_row id now tp trig receiver]) d)).

Lemma enqueue_cases fk_ok id now tp trig d :
  enqueue_outcome id now tp trig d
    (enqueue_trigger_impl fk_ok id now tp trig d).1
    (enqueue_trigger_impl fk_ok id now tp trig d).2.
Proof.
  unfold enqueue_trigger_impl, run, enqueue_trigger_tx, bind, resolve_agent_colleague.
  destruct (List.find _ (colleagues d)) as [co|]; cbn [res_bind fst snd]; [|by apply eo_error].
  destruct (insert_request_cases fk_ok (nt_acting_user_id trig)
              (trigger_row id now tp trig (co_id co)) d)
    as [[e He]|[[He Hex]|(He & Hex & Hid)]]; rewrite He; cbn [res_bind fst snd].
  - apply eo_error.
  - destruct (List.find _ (prompt_requests d)) as [row|] eqn:Hf; [|by apply eo_error].
    apply List.find_some in Hf as [Hr Hb]. bools. apply list_elem_of_In in Hr. by apply eo_existing.
  - assert (∀ row, row ∈ prompt_requests d →
      same_idem (nt_org_id trig) (IdempotencyKey_as_str (nt_idempotency_key trig)) row = false)
      as Hn.
    { intros row Hr. apply not_true_iff_false. intros Hs. apply not_true_iff_false in Hex.
      apply Hex, existsb_exists. exists row. by rewrite <-list_elem_of_In. }
    destruct (nt_root_request_id trig) as [root|] eqn:Hroot.
    + replace (set_requests _ d) with (set_dags (prompt_request_dags d)
        (set_requests (prompt_requests d ++ [trigger_row id now tp trig (co_id co)]) d)) by done.
      apply eo_inserted; [done|done|]. by rewrite Hroot.
    + unfold insert_dag. simpl. destruct (prompt_request_dags d !! id) eqn:Hdag; [by apply eo_error|].
      cbn [res_bind fst snd ret].
      apply (eo_inserted id now tp trig d (co_id co)); [done|done|]. by rewrite Hroot.
Qed.

Lemma inv_enqueue fk_ok id now tp trig d rds cs :
  inv (mkSys d rds cs) → inv (mkSys (enqueue_trigger_impl fk_ok id now tp trig d).2 rds cs).
Proof.
  intros Hi. destruct (enqueue_cases fk_ok id now tp trig d) as [| |receiver dags Hn Hid Hdags];
    [done|done|]. destruct Hi. simpl in *. constructor; simpl.
  - rewrite fmap_app, NoDup_app. split; [done|]. split; [|simpl; apply NoDup_singleton].
    intros i Hi. simpl. by intros ->%list_elem_of_singleton.
  - rewrite fmap_app, NoDup_app. split; [done|]. split; [|simpl; apply NoDup_singleton].
    intros p Hp. simpl. intros ->%list_elem_of_singleton.
    apply list_elem_of_fmap in Hp as (row & [= Ho Hk] & Hrow).
    specialize (Hn row Hrow). unfold same_idem in Hn. rewrite <-Ho, <-Hk in Hn.
    by rewrite !bool_decide_true in Hn.
  - intros r [Hr| ->%list_elem_of_singleton]%elem_of_app; [by apply inv_rows0|].
    split; simpl; [|done]. intros _. repeat split. rewrite claimed_ids_elem.
    intros (c & Hc & Hi). apply Hid. eauto.
  - intros c i Hc Hi. rewrite fmap_app, elem_of_app. left. eauto.
  - done.
  - done.
  - done.
  - done.
  - done.
  - intros root row Hl. subst dags. destruct (nt_root_request_id trig); [eauto|].
    apply lookup_insert_Some in Hl as [[_ <-]|[_ Hl]]; [|eauto].
    simpl. unfold MAX_DAG_TURNS. split; [lia|done].
Qed.

Lemma inv_claim timing worker now cand d rds rds' cs :
  inv (mkSys d rds cs) →
  inv (mkSys (claim_with timing worker now cand d).2 rds'
         (match drained_batch timing worker now cand d with
          | Some c => c :: cs | None => cs end)).
Proof.
  intros Hi. destruct cand as [[k org] user]. rewrite claim_with_db. unfold drained_batch.
  destruct (claim_body_outcome timing worker now k org d) as [e|o Hl|o o' Hl Hb|o o' Hl Hb].
  - by destruct Hi.
  - apply (inv_same_rows _ (bumped k o d) rds' Hi); [done|apply fence_set_seqs_le| |apply Hi].
    intros k' l Hk'. pose proof (inv_lease _ Hi k' l Hk'). simpl in *.
    pose proof (fence_set_seqs_le k o d k'). lia.
  - apply (inv_quiet _ (taken timing worker now k o o' d) rds' (drainable d k)
             (drain_row (fence d k + 1) now) Hi); [done| |apply fence_set_seqs_le| |apply Hi].
    + intros r Hr Hd. exfalso. apply fmap_nil_inv in Hb.
      assert (r ∈ filter (drainable d k) (prompt_requests d)) as Hin
        by (by apply list_elem_of_filter).
      rewrite Hb in Hin. by apply elem_of_nil in Hin.
    + intros k' l Hk'. pose proof (fence_set_seqs_le k o d k') as Hle.
      change (fence (taken timing worker now k o o' d) k') with (fence (bumped k o d) k').
      simpl in Hk'. apply lookup_insert_Some in Hk' as [[<- <-]|[_ Hk']].
      * simpl. rewrite fence_bumped, decide_True by done. lia.
      * pose proof (inv_lease _ Hi k' l Hk'). simpl in *. lia.
  - by apply (inv_drain timing worker now k o o' (mkSys d rds cs)).
Qed.

Lemma finalise_keeps rc status reason now r :
  is_terminal status = true → finalised_by rc r → keeps r (finalise_row status reason now r).
Proof.
  intros Ht (_ & _ & Hp). split; simpl; try done.
  - rewrite Hp. split; [by intros ->|done].
  - by rewrite Hp.
Qed.

Lemma inv_scan_order d rows rds cs :
  rows ≡ₚ prompt_requests d → inv (mkSys d rds cs) → inv (mkSys (set_requests rows d) rds cs).
Proof.
  intros Hp []. constructor; simpl in *; try done.
  - by rewrite Hp.
  - by rewrite Hp.
  - intros r. rewrite Hp. auto.
  - intros c i Hc Hi. rewrite Hp. eauto.
Qed.

Lemma holds_lease_Some rc d l :
  holds_lease rc d = Some l ↔
  claim_leases d !! rc_claim_key rc = Some l ∧ cl_lease_seq l = rc_lease_seq rc.
Proof.
  unfold holds_lease. destruct (claim_leases d !! rc_claim_key rc) as [l'|]; [|naive_solver].
  destruct (Z.eqb_spec (cl_lease_seq l') (rc_lease_seq rc)); naive_solver.
Qed.

Lemma inv_step timing s s' : step timing s s' → inv s → inv s'.
Proof.
  intros [l Hstep] Hi.
  destruct Hstep as [| |worker now cand d rds1 rds2 cs|rc c status reason now d rds cs Hc Hrc Ht
    |rc c now d rds cs Hc Hrc|rc c d rds cs Hc Hrc|id now d rds cs|visible root d rds cs
    |rows d rds cs Hp|d' d rds cs (Hr & Hl & Hs & Hd)].
  - by apply inv_enqueue.
  - by destruct Hi.
  - by eapply inv_claim.
  - eapply (inv_quiet _ _ rds (finalised_by rc) (finalise_row status reason now) Hi); try done;
      [|apply Hi..]. intros. by eapply finalise_keeps.
  - unfold heartbeat_turn_impl, run, update. simpl.
    destruct (holds_lease rc d) as [l|] eqn:El; [|done]. apply holds_lease_Some in El as [El _].
    apply (inv_same_rows _ _ rds Hi); try done; [|apply Hi].
    intros k l' Hk. simpl in Hk. apply lookup_insert_Some in Hk as [[<- <-]|[_ Hk]].
    + simpl. apply (inv_lease _ Hi _ _ El).
    + apply (inv_lease _ Hi _ _ Hk).
  - unfold release_turn_impl, run, update. simpl.
    destruct (holds_lease rc d) as [l|] eqn:El; [|done]. apply holds_lease_Some in El as [El _].
    apply (inv_same_rows _ _ rds Hi); try done; [|apply Hi].
    intros k l' Hk. simpl in Hk. apply lookup_delete_Some in Hk as [_ Hk]. apply (inv_lease _ Hi _ _ Hk).
  - eapply (inv_quiet _ _ rds (λ r, pr_id r = id) (cancel_row now) Hi); try done;
      apply Hi.
  - unfold bump_or_fail_in_tx.
    destruct (prompt_request_dags d !! root) as [row|] eqn:El; [|done].
    case_match; [done|]. case_match; [|done]. bools.
    apply (inv_same_rows _ _ rds Hi); try done; [apply Hi|].
    intros root' row' Hk. simpl in Hk. pose proof (inv_dags _ Hi _ _ El) as [? ?].
    apply lookup_insert_Some in Hk as [[<- <-]|[_ Hk]]; [simpl; split; [lia|done]|].
    apply (inv_dags _ Hi _ _ Hk).
  - by apply inv_scan_order.
  - apply (inv_same_rows _ _ rds Hi); [done| | |]; unfold fence; rewrite ?Hs, ?Hl, ?Hd;
      [done|apply Hi..].
Qed.

Lemma inv_initial s : initial s → inv s.
Proof.
  destruct s as [d rds cs]. intros (Hr & Hl & Hs & Hd & _ & Hc). simpl in *.
  constructor; simpl; unfold fence; rewrite ?Hr, ?Hl, ?Hs, ?Hd, ?Hc; simpl;
    try (intros; set_solver || constructor).
Qed.

Lemma reachable_inv timing s : reachable timing s → inv s.
Proof.
  intros (s0 & H0 & Hrtc). apply inv_initial in H0.
  induction Hrtc as [|x y z Hxy _ IH]; [done|]. apply IH. by eapply inv_step.
Qed.

(** ** How one row can evolve *)

Inductive row_step : label → PromptRequest → PromptRequest → Prop :=
| rs_same l r : row_step l r r
| rs_cancel l now r : row_step l r (cancel_row now r)
| rs_drain worker now now' cand fence r :
    pr_status r = Pending → row_step (LClaim worker now cand) r (drain_row fence now' r)
| rs_finalise rc c status reason now r :
    receipt_of rc c → is_terminal status = true → finalised_by rc r →
    row_step (LFinalise c) r (finalise_row status reason now r).

Lemma row_in_update l P `{∀ r, Decision (P r)} f rows r :
  r ∈ rows → (P r → row_step l r (f r)) →
  ∃ r', r' ∈ update_where P f rows ∧ row_step l r r'.
Proof.
  intros Hr Hf. exists (if decide (P r) then f r else r). split.
  - rewrite elem_of_update_where. eauto.
  - case_decide; [auto|constructor].
Qed.

Lemma lstep_row timing l s s' r :
  lstep timing l s s' → r ∈ prompt_requests (sys_db s) →
  ∃ r', r' ∈ prompt_requests (sys_db s') ∧ row_step l r r'.
Proof.
  intros Hstep. pose proof (rs_same l r) as Hsame.
  destruct Hstep as [fk id now tp trig d rds cs| |worker now [[k org] user] d rds1 rds2 cs
    |rc c status reason now d rds cs Hc Hrc Ht|rc c now d rds cs Hc Hrc|rc c d rds cs Hc Hrc
    |id now d rds cs|visible root d rds cs|rows d rds cs Hp|d' d rds cs (Hq & _)]; cbn [sys_db] in *; intros Hr.
  - destruct (enqueue_cases fk id now tp trig d) as [| |receiver dags]; [eauto..|].
    exists r. split; [|done]. simpl. set_solver.
  - eauto.
  - rewrite claim_with_db.
    destruct (claim_body_outcome timing worker now k org d); [eauto|eauto|..]; simpl;
      apply row_in_update; try done; intros (_ & Hp & _); by constructor.
  - apply row_in_update; [done|]. by econstructor.
  - unfold heartbeat_turn_impl, run, update. simpl. case_match; eauto.
  - unfold release_turn_impl, run, update. simpl. case_match; eauto.
  - apply row_in_update; [done|]. by constructor.
  - unfold bump_or_fail_in_tx. repeat case_match; simpl; eauto.
  - exists r. split; [|done]. simpl. by rewrite Hp.
  - exists r. by rewrite Hq.
Qed.

(** [Pending -> Processing -> Done | Failed], nothing else. *)
Definition status_edge (s s' : RequestStatus) : bool :=
  match s, s' with
  | Pending, Processing => true
  | Processing, Done | Processing, Failed => true
  | _, _ => bool_decide (s = s')
  end.

(** The columns no step rewrites. *)
Definition immutable (r : PromptRequest) :=
  (pr_id r, pr_org_id r, pr_idempotency_key r, pr_root_request_id r, claim_key r,
   pr_receiver_colleague_id r, pr_kind r, pr_acting_user_id r, pr_created_at r).

(** The life of a trigger row is forward only: whatever step the system takes,
    every row is still there with the same identity, its status moves along an
    edge of [Pending -> Processing -> Done | Failed], and a terminal row keeps
    its status, its failure reason and its attempts. *)
Theorem queue_forward_only timing s s' r
    (Hstep : step timing s s') (Hr : r ∈ prompt_requests (sys_db s)) :
  ∃ r', r' ∈ prompt_requests (sys_db s') ∧ immutable r' = immutable r
    ∧ status_edge (pr_status r) (pr_status r') = true
    ∧ (is_terminal (pr_status r) = true →
        pr_status r' = pr_status r ∧ pr_failure_reason r' = pr_failure_reason r
        ∧ pr_attempts r' = pr_attempts r).
Proof.
  destruct Hstep as [l Hl]. destruct (lstep_row _ _ _ _ _ Hl Hr) as (r' & Hr' & Hrow).
  exists r'. split; [done|].
  destruct Hrow as [|l now r|worker now now' cand fence r Hp|rc c status reason now r Hrc Ht Hf];
    simpl.
  - split; [done|]. split; [by destruct (pr_status r)|done].
  - split; [done|]. split; [by destruct (pr_status r)|done].
  - rewrite Hp. done.
  - destruct Hf as (_ & _ & ->). split; [done|]. split; [by destruct status|done].
Qed.

(** C1: Drains are at most once: no trigger is ever in two batches, no two batches
    share a claim key and a fence value, and a drained row carries its batch's
    key and fence and one attempt. *)
Theorem queue_at_most_once timing s (Hs : reachable timing s) :
  NoDup (mjoin (cm_ids <$> sys_claims s))
  ∧ NoDup ((λ c, (cm_key c, cm_seq c)) <$> sys_claims s)
  ∧ ∀ r, r ∈ prompt_requests (sys_db s) →
      if decide (pr_status r = Pending)
      then pr_attempts r = 0%Z ∧ ∀ c, c ∈ sys_claims s → pr_id r ∉ cm_ids c
      else pr_attempts r = 1%Z ∧ ∃ c, c ∈ sys_claims s ∧ pr_id r ∈ cm_ids c
             ∧ claim_key r = Some (cm_key c) ∧ pr_turn_seq r = cm_seq c.
Proof.
  apply reachable_inv in Hs as []. split; [done|]. split; [done|].
  intros r Hr. destruct (inv_rows0 r Hr) as [H1 H2]. case_decide as Hp; [|auto].
  destruct (H1 Hp) as (? & _ & Hn). split; [done|]. intros c Hc Hi. apply Hn.
  rewrite claimed_ids_elem. eauto.
Qed.

(** A later drain of a claim key carries a strictly larger fence value than
    every earlier one, its triggers were never drained before, and its lease is
    the one the table holds. *)
Theorem claim_fence_increases timing worker now k org user s c
    (Hs : reachable timing s)
    (Hc : drained_batch timing worker now (k, org, user) (sys_db s) = Some c) :
  cm_key c = k
  ∧ (∀ c', c' ∈ sys_claims s → cm_key c' = k → (cm_seq c' < cm_seq c)%Z)
  ∧ (∀ i c', i ∈ cm_ids c → c' ∈ sys_claims s → i ∉ cm_ids c')
  ∧ ∃ l, claim_leases (claim_with timing worker now (k, org, user) (sys_db s)).2 !! k = Some l
      ∧ cl_worker_id l = worker ∧ cl_lease_seq l = cm_seq c
      ∧ cl_leased_until l = (now + ttl timing)%Z.
Proof.
  apply reachable_inv in Hs. rewrite claim_with_db. unfold drained_batch in Hc.
  destruct (claim_body_outcome timing worker now k org (sys_db s)) as [e|o|o o'|o o' Hl Hb];
    try discriminate. injection Hc as <-. simpl. split; [done|]. split; [|split].
  - intros c' Hc' <-. pose proof (inv_seq _ Hs c' Hc'). lia.
  - intros i c' Hi Hc' Hi'. rewrite batch_ids in Hi.
    apply list_elem_of_fmap in Hi as (r & -> & [(_ & Hp & _) Hr]%list_elem_of_filter).
    destruct (inv_rows _ Hs r Hr) as [H1 _]. destruct (H1 Hp) as (_ & _ & Hn).
    apply Hn, claimed_ids_elem. eauto.
  - eexists. rewrite lookup_insert_eq. split; [done|]. done.
Qed.

(** A claim cannot get past a live lease: it drains nothing, changes no row and
    no lease, and reports no turn. *)
Theorem claim_excluded_by_live_lease timing worker now k org user d
    (Hl : has_live_lease d now k = true) :
  let '(r, d') := claim_with timing worker now (k, org, user) d in
  prompt_requests d' = prompt_requests d ∧ claim_leases d' = claim_leases d
  ∧ drained_batch timing worker now (k, org, user) d = None
  ∧ match r with Ok (Some _) => False | _ => True end.
Proof.
  unfold claim_with, drained_batch.
  pose proof (claim_body_outcome timing worker now k org d) as Ho.
  destruct (run (claim_body timing worker now k org) d) as [r d']. simpl in Ho.
  destruct Ho; simpl; try done; congruence.
Qed.

(** Finalising with a receipt settles exactly its own batch: every trigger of
    the batch is terminal afterwards, a trigger still processing takes the
    status and the reason given, and every row of another batch (and every
    pending one) is untouched. The [turn_seq] guard of the statement therefore
    never rejects a receipt the queue handed out. *)
Theorem finalise_settles_batch timing s c rc status reason now
    (Hs : reachable timing s) (Hc : c ∈ sys_claims s) (Hrc : receipt_of rc c)
    (Ht : is_terminal status = true) :
  let '(r, d') := finalise_turn rc status reason now (sys_db s) in
  r = Ok tt
  ∧ prompt_requests d' =
      (λ r, if decide (pr_id r ∈ cm_ids c ∧ pr_status r = Processing)
            then finalise_row status reason now r else r) <$> prompt_requests (sys_db s)
  ∧ ∀ r', r' ∈ prompt_requests d' → pr_id r' ∈ cm_ids c → is_terminal (pr_status r') = true.
Proof.
  apply reachable_inv in Hs. destruct Hrc as (Hk & Hseq & Hids). simpl.
  assert (∀ r, r ∈ prompt_requests (sys_db s) → pr_id r ∈ cm_ids c →
            pr_status r ≠ Pending ∧ pr_turn_seq r = cm_seq c) as Hown.
  { intros r Hr Hi. destruct (inv_rows _ Hs r Hr) as [H1 H2].
    destruct (decide (pr_status r = Pending)) as [Hp|Hp].
    - destruct (H1 Hp) as (_ & _ & []). apply claimed_ids_elem. eauto.
    - split; [done|]. destruct (H2 Hp) as (_ & c' & Hc' & Hi' & _ & ->). f_equal.
      by apply (NoDup_mjoin_eq cm_ids (sys_claims s) c' c (pr_id r) (inv_once _ Hs)). }
  assert (update_where (finalised_by rc) (finalise_row status reason now)
            (prompt_requests (sys_db s))
    = (λ r, if decide (pr_id r ∈ cm_ids c ∧ pr_status r = Processing)
            then finalise_row status reason now r else r) <$> prompt_requests (sys_db s)) as Heq.
  { apply list_fmap_ext. intros i r Hr%list_elem_of_lookup_2.
    assert (finalised_by rc r ↔ pr_id r ∈ cm_ids c ∧ pr_status r = Processing) as Hiff.
    { unfold finalised_by. rewrite Hids, Hseq. split; [tauto|]. intros [Hi Hp].
      by destruct (Hown r Hr Hi). }
    repeat case_decide; tauto. }
  split; [done|]. split; [done|]. rewrite Heq.
  intros r' (r & -> & Hr)%list_elem_of_fmap. case_decide as Hd; [done|].
  intros Hi. destruct (Hown r Hr Hi) as [Hp _].
  destruct (pr_status r); naive_solver.
Qed.

(** ** What nothing recovers *)

(** Every step but the finalisation of the batch [c]. *)
Definition step_without (timing : LeaseTiming) (c : Claim) (s s' : sys) : Prop :=
  ∃ l, l ≠ LFinalise c ∧ lstep timing l s s'.

(** A trigger whose worker died is never retried and never failed: as long as
    its own receipt is not finalised it stays [Processing] with one attempt,
    however many leases expire and claims run, and its DAG never quiesces.  No
    step turns attempts into the [poison] failure that [MAX_ATTEMPTS] is
    documented to cause. *)
Theorem crashed_trigger_is_stranded timing s s' c r
    (Hs : reachable timing s) (Hc : c ∈ sys_claims s)
    (Hr : r ∈ prompt_requests (sys_db s)) (Hi : pr_id r ∈ cm_ids c)
    (Hp : pr_status r = Processing)
    (Hsteps : rtc (step_without timing c) s s') :
  ∃ r', r' ∈ prompt_requests (sys_db s') ∧ pr_id r' = pr_id r
    ∧ pr_status r' = Processing ∧ pr_attempts r' = 1%Z ∧ (pr_attempts r' < MAX_ATTEMPTS)%Z
    ∧ quiescent (pr_root_request_id r) (sys_db s') = false.
Proof.
  assert (∃ r', r' ∈ prompt_requests (sys_db s') ∧ immutable r' = immutable r
    ∧ pr_status r' = Processing ∧ c ∈ sys_claims s' ∧ reachable timing s') as
    (r' & Hr' & Him & Hp' & Hc' & Hs').
  { revert r Hr Hi Hp. induction Hsteps as [s|s s1 s2 (l & Hl & Hstep) _ IH]; intros r Hr Hi Hp.
    { by exists r. }
    destruct (lstep_row _ _ _ _ _ Hstep Hr) as (r1 & Hr1 & Hrow).
    assert (reachable timing s1) as Hs1.
    { destruct Hs as (s0 & H0 & H1). exists s0. split; [done|].
      eapply rtc_r; [done|]. by exists l. }
    assert (c ∈ sys_claims s1) as Hc1.
    { destruct Hstep; simpl in *; try done. case_match; set_solver. }
    assert (immutable r1 = immutable r ∧ pr_status r1 = Processing) as [Him1 Hp1].
    { destruct Hrow as [| |worker now now' cand fence r Hpe|rc c' status reason now r Hrc Ht Hf];
        [done|done|congruence|]. exfalso. apply Hl. f_equal.
      destruct Hf as (Hid & _ & _). destruct Hrc as (_ & _ & Heq). rewrite Heq in Hid.
      apply reachable_inv in Hs.
      refine (NoDup_mjoin_eq cm_ids (sys_claims s) c' c (pr_id r) (inv_once _ Hs) _ Hc Hid Hi).
      inversion Hstep; subst; done. }
    destruct (IH Hs1 Hc1 r1 Hr1) as (r' & ? & ? & ? & ? & ?);
      [unfold immutable in *; congruence|done|].
    exists r'. repeat split; [done|congruence|done..]. }
  exists r'. pose proof (reachable_inv _ _ Hs') as Hinv.
  destruct (inv_rows _ Hinv r' Hr') as [_ H2]. destruct H2 as [Ha _]; [congruence|].
  unfold immutable in Him. repeat split; [done|congruence|done|done|rewrite Ha; done|].
  unfold quiescent. apply negb_false_iff, existsb_exists. exists r'.
  rewrite <-list_elem_of_In. split; [done|]. rewrite Hp', bool_decide_true by congruence. done.
Qed.

(** ** Enqueue is idempotent *)

Lemma inserted_row_found d org key user r :
  NoDup ((λ r, (pr_org_id r, pr_idempotency_key r)) <$> prompt_requests d) →
  r ∈ prompt_requests d → same_idem org key r = true → is_member d user org = true →
  List.find (λ r, same_idem org key r && is_member d user (pr_org_id r)) (prompt_requests d)
  = Some r.
Proof.
  intros Hnd Hr Hs Hm. unfold same_idem in *. bools. subst.
  destruct (List.find _ _) as [r'|] eqn:Hf.
  - apply List.find_some in Hf as [Hr' Hb]. apply list_elem_of_In in Hr'. bools.
    f_equal. apply (NoDup_fmap_eq _ _ r' r Hnd Hr' Hr). simpl. congruence.
  - eapply List.find_none in Hf; [|by apply list_elem_of_In].
    rewrite !bool_decide_true, Hm in Hf by done. done.
Qed.

Lemma insert_request_again fk_ok user r o d dx r2 d2 :
  insert_request fk_ok user r d = Ok (o, dx) →
  colleagues d2 = colleagues d → memberships d2 = memberships d →
  agent_thread_state d2 = agent_thread_state d → background_turns d2 = background_turns d →
  pr_org_id r2 = pr_org_id r → pr_receiver_colleague_id r2 = pr_receiver_colleague_id r →
  pr_state_id r2 = pr_state_id r → pr_background_turn_id r2 = pr_background_turn_id r →
  existsb (same_idem (pr_org_id r2) (pr_idempotency_key r2)) (prompt_requests d2) = true →
  insert_request fk_ok user r2 d2 = Ok (None, d2) ∧ is_member d2 user (pr_org_id r) = true.
Proof.
  unfold insert_request, parent_org, receiver_is_agent, claim_key_xor, is_member.
  intros Hins -> -> -> -> -> -> -> -> Hex.
  repeat match type of Hins with
  | (if negb ?b then _ else _) = _ => destruct b; cbn [negb] in Hins |- *; [|discriminate]
  end.
  by rewrite Hex.
Qed.

Lemma resolve_same_directory user org agent d d1 :
  colleagues d1 = colleagues d → memberships d1 = memberships d →
  resolve_agent_colleague user org agent d1
  = (p <-? resolve_agent_colleague user org agent d ; Ok (p.1, d1)).
Proof.
  intros Hco Hme. unfold resolve_agent_colleague, is_member. rewrite Hco, Hme.
  by destruct (List.find _ _).
Qed.

Lemma resolve_unchanged user org agent d co d' :
  resolve_agent_colleague user org agent d = Ok (co, d') → d' = d.
Proof. unfold resolve_agent_colleague. case_match; congruence. Qed.

(** Enqueueing the same trigger again, with any fresh id, at any time, returns
    the id of the first enqueue and changes nothing. *)
Theorem enqueue_idempotent timing s fk_ok id now tp trig rid d1 id2 now2 tp2
    (Hs : reachable timing s)
    (Hfirst : enqueue_trigger_impl fk_ok id now tp trig (sys_db s) = (Ok rid, d1)) :
  enqueue_trigger_impl fk_ok id2 now2 tp2 trig d1 = (Ok rid, d1)
  ∧ ∃ r, r ∈ prompt_requests d1 ∧ pr_id r = rid.
Proof.
  assert (inv (mkSys d1 [] (sys_claims s))) as Hinv.
  { replace d1 with (enqueue_trigger_impl fk_ok id now tp trig (sys_db s)).2
      by (by rewrite Hfirst). apply inv_enqueue. destruct s. apply reachable_inv in Hs. by destruct Hs. }
  set (d := sys_db s) in *. clearbody d.
  assert (∃ r, r ∈ prompt_requests d1 ∧ pr_id r = rid
    ∧ same_idem (nt_org_id trig) (IdempotencyKey_as_str (nt_idempotency_key trig)) r = true
    ∧ colleagues d1 = colleagues d ∧ memberships d1 = memberships d
    ∧ agent_thread_state d1 = agent_thread_state d ∧ background_turns d1 = background_turns d)
    as (r & Hr & Hid & Hsame & Hco & Hme & Hst & Hbg).
  { pose proof (enqueue_cases fk_ok id now tp trig d) as Ho. rewrite Hfirst in Ho.
    cbn [fst snd] in Ho. inversion Ho as [|row Hrow Hsame|receiver dags]; subst; [by exists row|].
    exists (trigger_row rid now tp trig receiver).
    split; [simpl; apply elem_of_app; right; by apply list_elem_of_singleton|].
    simpl. unfold same_idem. simpl. by rewrite !bool_decide_true. }
  split; [|by eauto].
  revert Hfirst. unfold enqueue_trigger_impl, run, enqueue_trigger_tx, bind.
  rewrite (resolve_same_directory _ _ _ d d1 Hco Hme).
  destruct (resolve_agent_colleague _ _ _ d) as [[co ?]|e|e] eqn:Hres; cbn [res_bind fst snd];
    [|discriminate..]. apply resolve_unchanged in Hres as ->.
  destruct (insert_request _ _ _ d) as [[o dx]|e|e] eqn:Hins; cbn [res_bind fst snd];
    [|discriminate..]. intros _.
  assert (existsb (same_idem (nt_org_id trig) (IdempotencyKey_as_str (nt_idempotency_key trig)))
    (prompt_requests d1) = true) as Hex.
  { apply existsb_exists. exists r. by rewrite <-list_elem_of_In. }
  destruct (insert_request_again _ _ _ _ _ _ (trigger_row id2 now2 tp2 trig co) d1 Hins)
    as [He Hm]; [done..|]. rewrite He. cbn [res_bind fst snd].
  rewrite (inserted_row_found d1 _ _ _ r (inv_idem _ Hinv) Hr Hsame Hm). by rewrite Hid.
Qed.

(** ** The DAG budget *)

Definition bump_n (n : nat) (root : PromptRequestId) (d : db) : db :=
  Nat.iter n (λ d, (bump_or_fail root d).2) d.

Lemma bump_n_row n root row d :
  prompt_request_dags d !! root = Some row → (0 ≤ dag_turns_used row ≤ dag_turns_cap row)%Z →
  prompt_request_dags (bump_n n root d) !! root
  = Some (mkDag (dag_org_id row)
            (Z.min (dag_turns_cap row) (dag_turns_used row + Z.of_nat n))
            (dag_turns_cap row) (dag_created_at row)).
Proof.
  intros Hrow Hb. induction n as [|n IH].
  - rewrite Z.min_r by lia. change (bump_n 0 root d) with d.
    replace (dag_turns_used row + Z.of_nat 0)%Z with (dag_turns_used row) by lia.
    rewrite Hrow. by destruct row.
  - unfold bump_n. change (Nat.iter (S n) ?f ?x) with (f (Nat.iter n f x)). cbv beta.
    fold (bump_n n root d).
    unfold bump_or_fail, bump_or_fail_in_tx at 1. rewrite IH. cbn [negb dag_turns_used dag_turns_cap].
    case_match; bools; simpl; [rewrite lookup_insert_eq|rewrite IH]; do 2 f_equal; lia.
Qed.

(** The budget of a root is exact: from a fresh budget row, the first
    [MAX_DAG_TURNS] bumps succeed and count up, and every later one fails with
    [DagBudgetExceeded], whoever bumps. *)
Theorem dag_budget_exact timing s root row n
    (Hs : reachable timing s) (Hrow : prompt_request_dags (sys_db s) !! root = Some row) :
  (bump_or_fail root (bump_n n root (sys_db s))).1
  = if (dag_turns_used row + Z.of_nat n <? MAX_DAG_TURNS)%Z
    then Ok (mkBudgetBumped (dag_turns_used row + Z.of_nat n + 1) MAX_DAG_TURNS)
    else Err (DagBudgetExceeded_ root MAX_DAG_TURNS MAX_DAG_TURNS).
Proof.
  apply reachable_inv in Hs. destruct (inv_dags _ Hs _ _ Hrow) as [Hb Hcap].
  unfold bump_or_fail, bump_or_fail_in_tx. rewrite (bump_n_row _ _ _ _ Hrow Hb).
  cbn [negb dag_turns_used dag_turns_cap]. rewrite Hcap in *.
  assert (∀ z nm, (0 ≤ z ≤ MAX_DAG_TURNS)%Z → u32_or_invariant z nm = Ok z) as Hu.
  { intros z nm Hz. unfold u32_or_invariant, in_u32, U32_MAX. unfold MAX_DAG_TURNS in Hz.
    by rewrite (proj2 (Z.leb_le _ _)), (proj2 (Z.leb_le _ _)) by lia. }
  destruct (Z.ltb_spec (dag_turns_used row + Z.of_nat n) MAX_DAG_TURNS).
  - rewrite (proj2 (Z.ltb_lt _ _)) by lia. cbn [fst]. rewrite !Hu by lia. simpl.
    do 2 f_equal. lia.
  - rewrite (proj2 (Z.ltb_ge _ _)) by lia. cbn [fst]. rewrite !Hu by lia. simpl.
    do 2 f_equal. lia.
Qed.

(** ** Progress *)

(** What the enqueue path and the directory promise the claim: pending rows have
    a claim key, an acting user and an agent receiver, the rows of one key agree
    on receiver and kind, and no fence is exhausted. *)
Record claim_ready (d : db) : Prop := {
  cr_row : ∀ r, r ∈ prompt_requests d → pr_status r = Pending →
    is_Some (claim_key r) ∧ is_Some (pr_acting_user_id r)
    ∧ is_Some (receiver_row d r ≫= co_agent_id);
  cr_batch : ∀ r r', r ∈ prompt_requests d → r' ∈ prompt_requests d →
    pr_status r = Pending → pr_status r' = Pending → claim_key r = claim_key r' →
    (receiver_row d r ≫= co_agent_id) = (receiver_row d r' ≫= co_agent_id)
    ∧ pr_kind r = pr_kind r';
  cr_fence : ∀ k, (0 ≤ fence d k < I64_MAX)%Z }.

Lemma bump_claim_seq_ok k org d :
  (0 ≤ fence d k < I64_MAX)%Z →
  ∃ o, bump_claim_seq k org d = Ok ((fence d k + 1)%Z, bumped k o d).
Proof.
  unfold bump_claim_seq, bumped, fence. destruct (claim_seq d !! k) as [s|] eqn:E; simpl; [|eauto].
  intros Hb. rewrite (proj2 (Z.ltb_ge _ _)), (proj2 (Z.ltb_ge _ _)) by lia. eauto.
Qed.

Lemma claim_body_ok timing worker now k org d :
  (0 ≤ fence d k < I64_MAX)%Z → has_live_lease d now k = false → batch_of d k ≠ [] →
  ∃ o o', run (claim_body timing worker now k org) d
    = (Ok (Some ((fence d k + 1)%Z, batch_of d k)), taken timing worker now k o o' d).
Proof.
  intros Hf Hl Hb.
  destruct (run (claim_body timing worker now k org) d) as [r d'] eqn:Hrun.
  pose proof (claim_body_outcome timing worker now k org d) as Ho. rewrite Hrun in Ho.
  cbn [fst snd] in Ho. destruct Ho as [e|o Hl'|o o' _ Hb'|o o' _ _]; [|congruence|done|eauto].
  exfalso. revert Hrun. unfold run, claim_body, bind.
  destruct (bump_claim_seq_ok k org d Hf) as [o ->]. cbn [res_bind fst snd].
  destruct (try_take_cases k org worker (fence d k + 1) (now + ttl timing) now (bumped k o d))
    as [[_ ->]|[_ [o' ->]]]; cbn [res_bind fst snd negb]; [done|].
  unfold drain_turn_pending, ret. cbn [res_bind fst snd].
  destruct (is_empty _); cbn; discriminate.
Qed.

Lemma check_batch_ok agent kind ts :
  Forall (λ t, dt_agent_id t = Some agent ∧ dt_kind t = kind) ts →
  check_batch agent kind ts = Ok tt.
Proof.
  induction 1 as [|t ts [Ha Hk] _ IH]; [done|]. simpl. by rewrite Ha, Hk, !bool_decide_true.
Qed.

Lemma batch_all_pending d k :
  claim_ready d →
  filter (drainable d k) (prompt_requests d)
  = filter (λ r, claim_key r = Some k ∧ pr_status r = Pending) (prompt_requests d).
Proof.
  intros Hw. apply filter_ext_in. intros r Hr. unfold drainable.
  split; [tauto|]. intros [Hk Hp]. split; [done|]. split; [done|].
  destruct (cr_row d Hw r Hr Hp) as (_ & _ & Ha). by destruct (receiver_row d r); destruct Ha.
Qed.

Lemma build_batch_ok k org user worker s d :
  claim_ready d → batch_of d k ≠ [] →
  ∃ turn, build_claimed_turn k org user worker s (batch_of d k) = Ok turn
    ∧ ct_claim_key turn = k ∧ ct_worker turn = worker ∧ ct_lease_seq turn = s
    ∧ ct_trigger_ids turn = dt_id <$> batch_of d k.
Proof.
  intros Hw Hb. destruct (batch_of d k) as [|t ts] eqn:Hbat; [done|].
  assert (∀ t, t ∈ batch_of d k → ∃ r, r ∈ prompt_requests d ∧ pr_status r = Pending
    ∧ claim_key r = Some k ∧ t = drained_of d r) as Hrow.
  { intros u (r & -> & Hr)%list_elem_of_fmap. rewrite batch_all_pending in Hr by done.
    apply list_elem_of_filter in Hr as [[? ?] ?]. by exists r. }
  rewrite Hbat in Hrow. destruct (Hrow t) as (r & Hr & Hp & Hk & ->); [set_solver|].
  destruct (cr_row d Hw r Hr Hp) as (_ & _ & [agent Ha]).
  unfold build_claimed_turn. cbn [drained_of dt_agent_id]. rewrite Ha. cbn [ok_or res_bind].
  rewrite check_batch_ok.
  { cbn [res_bind]. eexists. by repeat split. }
  apply Forall_forall. intros u Hu. destruct (Hrow u) as (r' & Hr' & Hp' & Hk' & ->); [set_solver|].
  destruct (cr_batch d Hw r r' Hr Hr' Hp Hp') as [Hag Hkd]; [congruence|]. simpl.
  by rewrite <-Hag, Hkd.
Qed.

(** C5: A pending trigger whose key is not leased is never left behind: the claim
    returns a turn for the oldest claimable trigger's key, the turn holds every
    pending trigger of that key, none of them is pending afterwards, and the
    worker holds the key's lease. *)
Theorem claim_next_turn_progress timing worker now d r0
    (Hw : claim_ready d) (Hr0 : r0 ∈ prompt_requests d) (Hc0 : claimable d now r0) :
  ∃ turn d' r1, claim_next_turn_impl timing worker now d = (Ok (Some turn), d')
    ∧ r1 ∈ prompt_requests d ∧ claimable d now r1
    ∧ (∀ r, r ∈ prompt_requests d → claimable d now r → (pr_created_at r1 ≤ pr_created_at r)%Z)
    ∧ claim_key r1 = Some (ct_claim_key turn)
    ∧ ct_trigger_ids turn = pr_id <$>
        filter (λ r, claim_key r = Some (ct_claim_key turn) ∧ pr_status r = Pending)
          (prompt_requests d)
    ∧ (∀ r', r' ∈ prompt_requests d' → claim_key r' = Some (ct_claim_key turn) →
        pr_status r' ≠ Pending)
    ∧ ∃ org, claim_leases d' !! ct_claim_key turn
        = Some (mkClaimLease org worker (ct_lease_seq turn) (now + ttl timing)).
Proof.
  unfold claim_next_turn_impl, next_turn_candidate.
  destruct (min_by_is_Some pr_created_at (filter (claimable d now) (prompt_requests d)))
    as [r1 Hmin].
  { intros Hn. assert (r0 ∈ filter (claimable d now) (prompt_requests d)) as Hin
      by (by apply list_elem_of_filter). rewrite Hn in Hin. by apply elem_of_nil in Hin. }
  rewrite Hmin. pose proof (min_by_elem _ _ _ Hmin) as [Hc1 Hr1]%list_elem_of_filter.
  pose proof (min_by_le _ _ _ Hmin) as Hle.
  pose proof Hc1 as [Hp1 Hl1].
  destruct (cr_row d Hw r1 Hr1 Hp1) as ([k Hk] & [u Hu] & Ha).
  rewrite Hk, Hu. rewrite Hk in Hl1.
  assert (batch_of d k ≠ []) as Hb.
  { intros Hn%fmap_nil_inv. assert (r1 ∈ filter (drainable d k) (prompt_requests d)) as Hin.
    { rewrite batch_all_pending by done. by apply list_elem_of_filter. }
    rewrite Hn in Hin. by apply elem_of_nil in Hin. }
  destruct (claim_body_ok timing worker now k (pr_org_id r1) d (cr_fence d Hw k) Hl1 Hb)
    as (o & o' & Hrun).
  destruct (build_batch_ok k (pr_org_id r1) u worker (fence d k + 1) d Hw Hb)
    as (turn & Hbuild & Hk' & Hw' & Hs' & Hids).
  exists turn, (taken timing worker now k o o' d), r1.
  rewrite Hk', Hids, batch_ids, batch_all_pending by done.
  unfold claim_with. rewrite Hrun. cbn [res_bind]. rewrite Hbuild. cbn [res_bind].
  split_and!; try done.
  - intros r Hr Hc. apply Hle. by apply list_elem_of_filter.
  - intros r' (r & Hr & ->)%elem_of_update_where Hkr. case_decide as Hd; [done|].
    intros Hp. apply Hd.
    assert (r ∈ filter (drainable d k) (prompt_requests d)) as [? _]%list_elem_of_filter; [|done].
    rewrite batch_all_pending by done. by apply list_elem_of_filter.
  - exists o'. simpl. by rewrite lookup_insert_eq, Hs'.
Qed.

(** A heartbeat with a stale receipt is silent: it renews nothing, and still
    reports success. With a current one it extends the lease and nothing else. *)
Theorem heartbeat_renews_only_current timing rc now d :
  let '(r, d') := heartbeat_turn_impl timing rc now d in
  r = Ok tt ∧ prompt_requests d' = prompt_requests d ∧ claim_seq d' = claim_seq d
  ∧ ∀ k, claim_leases d' !! k =
      match claim_leases d !! k with
      | Some l => if decide (k = rc_claim_key rc ∧ cl_lease_seq l = rc_lease_seq rc)
                  then Some (mkClaimLease (cl_org_id l) (cl_worker_id l) (cl_lease_seq l)
                               (now + ttl timing))
                  else Some l
      | None => None
      end.
Proof.
  unfold heartbeat_turn_impl, run, update. simpl.
  destruct (holds_lease rc d) as [l|] eqn:Hh; simpl; split_and!; try done; intros k.
  - apply holds_lease_Some in Hh as [Hl Hs].
    destruct (decide (k = rc_claim_key rc)) as [->|Hn].
    + rewrite lookup_insert_eq, Hl. by rewrite decide_True.
    + rewrite lookup_insert_ne by done. case_match; [|done]. rewrite decide_False; naive_solver.
  - destruct (claim_leases d !! k) as [l|] eqn:Hl; [|done]. rewrite decide_False; [done|].
    intros [-> Hs]. assert (holds_lease rc d = Some l) by (by apply holds_lease_Some). congruence.
Qed.

(** ** A concrete run: two triggers for one participation, one claim *)

Module Demo.
Definition timing : LeaseTiming := mkLeaseTiming LEASE_TTL LEASE_HEARTBEAT_INTERVAL.
Definition db0 : db :=
  mkDb [] ∅ ∅ ∅ [mkColleague 6 1 None; mkColleague 7 1 (Some 70%N)] [(5, 1)%N]
    {[ 100%N := 1%N ]} ∅.
Definition trigger (key : string) (root : option PromptRequestId) : NewTrigger :=
  mkNewTrigger 1 5 (Some 9%N) (Some 100%N) None 6 70 root None
    (mkIdempotencyKey (lit key)) PNormal.
Definition ok (_ : PromptRequest) : bool := true.
Definition db1 : db := (enqueue_trigger_impl ok 11 1000 None (trigger "a" None) db0).2.
Definition db2 : db :=
  (enqueue_trigger_impl ok 12 2000 None (trigger "b" (Some 11%N)) db1).2.
Definition cand : ClaimKey * OrgId * UserId := (100, 1, 5)%N.
Definition db3 : db := (claim_with timing 99 3000 cand db2).2.
Definition claim : Claim := mkClaim 100 1 [11; 12]%N.
Definition receipt : TurnReceipt := mkTurnReceipt 100 1 [11; 12]%N 5 11.
Definition s0 : sys := mkSys db0 [] [].
Definition s2 : sys := mkSys db2 [] [].
Definition s3 : sys := mkSys db3 [] [claim].

Lemma reachable_s2 : reachable timing s2.
Proof.
  exists s0. split; [by vm_compute|].
  eapply rtc_l; [eexists; apply (step_enqueue timing ok 11 1000 None (trigger "a" None))|].
  eapply rtc_l; [eexists; apply (step_enqueue timing ok 12 2000 None (trigger "b" (Some 11%N)))|].
  apply rtc_refl.
Qed.

Lemma reachable_s3 : reachable timing s3.
Proof.
  destruct reachable_s2 as (s & Hs & Hrtc). exists s. split; [done|].
  eapply rtc_r; [eapply rtc_r; [exact Hrtc|]|].
  - eexists. apply (step_claim_read timing 99 3000 cand). by vm_compute.
  - exists (LClaim 99 3000 cand).
    exact (step_claim_commit timing 99 3000 cand db2 [] [] []).
Qed.

Lemma claimed_row : ∃ r, r ∈ prompt_requests db3 ∧ pr_id r = 11%N ∧ pr_status r = Processing
  ∧ pr_root_request_id r = 11%N.
Proof. eexists. split; [apply list_elem_of_here|]. by vm_compute. Qed.
End Demo.

Lemma queue_forward_only_witness :
  ∃ r', r' ∈ prompt_requests Demo.db3 ∧ status_edge Pending (pr_status r') = true.
Proof.
  set (r := trigger_row 11 1000 None (Demo.trigger "a" None) 7).
  destruct (queue_forward_only Demo.timing
    (mkSys Demo.db2 ([] ++ [(99%N, 3000%Z, Demo.cand)]) []) Demo.s3 r) as (r' & H1 & _ & H2 & _).
  - exists (LClaim 99 3000 Demo.cand).
    exact (step_claim_commit Demo.timing 99 3000 Demo.cand Demo.db2 [] [] []).
  - vm_compute. apply list_elem_of_here.
  - exists r'. by split.
Defined.

Lemma queue_at_most_once_witness :
  NoDup (mjoin (cm_ids <$> sys_claims Demo.s3)) ∧ sys_claims Demo.s3 = [Demo.claim].
Proof.
  split; [|done]. exact (proj1 (queue_at_most_once Demo.timing Demo.s3 Demo.reachable_s3)).
Defined.

Lemma claim_fence_increases_witness :
  drained_batch Demo.timing 99 3000 Demo.cand Demo.db2 = Some Demo.claim
  ∧ cm_key Demo.claim = 100%N.
Proof.
  assert (drained_batch Demo.timing 99 3000 Demo.cand Demo.db2 = Some Demo.claim) as H
    by (vm_compute; reflexivity).
  split; [exact H|].
  exact (proj1 (claim_fence_increases Demo.timing 99 3000 100 1 5 Demo.s2 Demo.claim
                  Demo.reachable_s2 H)).
Defined.

Lemma claim_excluded_by_live_lease_witness :
  prompt_requests (claim_with Demo.timing 98 4000 Demo.cand Demo.db3).2
  = prompt_requests Demo.db3.
Proof.
  pose proof (claim_excluded_by_live_lease Demo.timing 98 4000 100 1 5 Demo.db3) as H.
  assert (has_live_lease Demo.db3 4000 100 = true) as Hl by (vm_compute; reflexivity).
  specialize (H Hl). change (100, 1, 5)%N with Demo.cand in H.
  destruct (claim_with Demo.timing 98 4000 Demo.cand Demo.db3) as [r d']. exact (proj1 H).
Defined.

Lemma finalise_settles_batch_witness :
  Forall (λ r', pr_id r' ∈ [11; 12]%N → is_terminal (pr_status r') = true)
    (prompt_requests (finalise_turn Demo.receipt Done None 5000 Demo.db3).2).
Proof.
  apply Forall_forall.
  pose proof (finalise_settles_batch Demo.timing Demo.s3 Demo.claim Demo.receipt Done None 5000
    Demo.reachable_s3 (list_elem_of_here _ _)
    (conj eq_refl (conj eq_refl eq_refl)) eq_refl) as H.
  exact (proj2 (proj2 H)).
Defined.

Lemma crashed_trigger_is_stranded_witness :
  ∃ r', r' ∈ prompt_requests (sys_db Demo.s3) ∧ pr_status r' = Processing
    ∧ (pr_attempts r' < MAX_ATTEMPTS)%Z.
Proof.
  destruct Demo.claimed_row as (r & Hr & Hid & Hp & _).
  destruct (crashed_trigger_is_stranded Demo.timing Demo.s3 Demo.s3 Demo.claim r
    Demo.reachable_s3 (list_elem_of_here _ _) Hr) as (r' & H1 & _ & H2 & _ & H3 & _).
  - rewrite Hid. apply list_elem_of_here.
  - exact Hp.
  - apply rtc_refl.
  - exists r'. by split_and!.
Defined.

Lemma enqueue_idempotent_witness :
  enqueue_trigger_impl Demo.ok 13 9000 None (Demo.trigger "a" None) Demo.db1
  = (Ok 11%N, Demo.db1).
Proof.
  assert (reachable Demo.timing Demo.s0) as Hs
    by (exists Demo.s0; split; [by vm_compute|apply rtc_refl]).
  refine (proj1 (enqueue_idempotent Demo.timing Demo.s0 Demo.ok 11 1000 None
    (Demo.trigger "a" None) 11 Demo.db1 13 9000 None Hs _)).
  unfold Demo.db1. vm_compute. reflexivity.
Defined.

Lemma dag_budget_exact_witness :
  (bump_or_fail 11 (bump_n 64 11 Demo.db3)).1
  = Err (DagBudgetExceeded_ 11 MAX_DAG_TURNS MAX_DAG_TURNS).
Proof.
  exact (dag_budget_exact Demo.timing Demo.s3 11 (mkDag 1 0 MAX_DAG_TURNS 1000) 64
    Demo.reachable_s3 eq_refl).
Defined.

Lemma claim_next_turn_progress_witness :
  ∃ turn d', claim_next_turn_impl Demo.timing 99 3000 Demo.db2 = (Ok (Some turn), d').
Proof.
  assert (∀ r, r ∈ prompt_requests Demo.db2 →
    pr_status r = Pending ∧ claim_key r = Some 100%N ∧ pr_acting_user_id r = Some 5%N
    ∧ (receiver_row Demo.db2 r ≫= co_agent_id) = Some 70%N ∧ pr_kind r = Normal) as Hall.
  { apply Forall_forall. vm_compute. repeat constructor. }
  destruct (claim_next_turn_progress Demo.timing 99 3000 Demo.db2
    (trigger_row 11 1000 None (Demo.trigger "a" None) 7)) as (turn & d' & r1 & H & _).
  - split.
    + intros r Hr _. destruct (Hall r Hr) as (_ & -> & -> & -> & _). by split_and!.
    + intros r r' Hr Hr' _ _ _. destruct (Hall r Hr) as (_ & _ & _ & -> & ->).
      by destruct (Hall r' Hr') as (_ & _ & _ & -> & ->).
    + intros k. vm_compute. by split.
  - vm_compute. apply list_elem_of_here.
  - by vm_compute.
  - exists turn, d'. exact H.
Defined.
