(* ===== verification/Worker.v ===== *)
(** * The worker's turn

    [runtime/worker.rs]: what a worker does with a claimed turn, as a program
    over the queue's tables and a trace of its calls.  What it does not control
    (the agent, other processes between two calls, storage faults, the clock) is
    the environment record. *)

From Stdlib Require Import ZArith Lia Ascii String.
From stdpp Require Import base gmap list strings sets relations.
From S2P Require Import Prelude Types Queue QueueSafety.

(** ** Limits and errors *)

Definition MAX_PINGPONG_RETRIES : nat := 2.

(** [agent_core/error.rs]; the payloads of wrapped errors are opaque. *)
Inductive AgentError :=
| AEProvider (e : str)
| AEInternal (msg : str)
| AEThread (e : str)
| AEBackground (e : str)
| AEMemory (e : str)
| AETodos (e : str)
| AETodosLoadTimeout
| AEHook (e : str)
| AEHookDenied (d : str)
| AEProviderTimeout
| AEToolTimeout (name : str)
| AEUnknownTool (name : str)
| AETooManyToolCalls (max : nat)
| AEMaxTurnsExceeded (n : Z)
| AEEmptyReply
| AEBillingExceeded (org : OrgId)
| AEOutOfCredit (org : OrgId)
| AECancelled.

(** [Display] of [AgentError]. *)
Definition AgentError_to_string `{UuidPrinter} (e : AgentError) : str :=
  match e with
  | AEProvider e => lit "provider: " ++ e
  | AEInternal m => lit "agent_core invariant: " ++ m
  | AEThread e => lit "thread: " ++ e
  | AEBackground e => lit "background: " ++ e
  | AEMemory e => lit "memory: " ++ e
  | AETodos e => lit "todos: " ++ e
  | AETodosLoadTimeout => lit "todos pre-turn read timed out"
  | AEHook e => lit "hook: " ++ e
  | AEHookDenied d => lit "hook denied: " ++ d
  | AEProviderTimeout => lit "provider call timed out"
  | AEToolTimeout n => lit "tool `" ++ n ++ lit "` timed out"
  | AEUnknownTool n => lit "model issued an unknown tool: " ++ n
  | AETooManyToolCalls n =>
      lit "model issued more than " ++ show_Z (Z.of_nat n) ++ lit " tool calls in a single turn"
  | AEMaxTurnsExceeded n =>
      lit "max turns (" ++ show_Z n ++ lit ") exceeded without final reply"
  | AEEmptyReply => lit "provider returned no usable content"
  | AEBillingExceeded o =>
      lit "org " ++ uuid_to_string o ++ lit " has exhausted its monthly spend budget"
  | AEOutOfCredit o => lit "org " ++ uuid_to_string o ++ lit " is out of platform credit"
  | AECancelled => lit "agent cancelled"
  end.

(** The match of [handle_agent_error]. *)
Definition reason_of_agent_error `{UuidPrinter} (err : AgentError) : FailureReason :=
  match err with
  | AECancelled => Cancelled
  | AEProviderTimeout | AETodosLoadTimeout => Timeout
  | AEHookDenied d => Hook d
  | AEBillingExceeded _ => BillingExceeded
  | AEOutOfCredit _ => OutOfCredit
  | e => Provider (AgentError_to_string e)
  end.

(** ** The world of one turn *)

Inductive event :=
| EStatuses (ids : list PromptRequestId)
| EResolveAgent (agent : AgentId)
| ESpawnWatchers
| EAbortWatchers
| EAttempt
| EBackground
| ENudge
| ECheckpoint (agent : AgentId) (thread : ThreadId) (upto : ThreadMessageId)
| EPublishFailure (id : PromptRequestId) (reason : FailureReason)
| EPublishDone (id : PromptRequestId)
| EClose (id : PromptRequestId)
| EMarkDone
| EMarkFailed (reason : FailureReason)
| EQuiescent (root : PromptRequestId)
| ERelease.

#[export] Instance event_eq_dec : EqDecision event.
Proof. solve_decision. Defined.

Record world := mkWorld { w_db : db; w_events : list event }.

(** How one attempt at the agent's reply ends: [Elapsed] is the outer timeout. *)
Inductive attempt :=
| Replied (r : AgentReply)
| AgentFailed (e : AgentError)
| Elapsed.

(** The [n]-th call of the turn sees the clock [env_now n], happens after
    whatever [env_others n] did to the tables, and may fail with
    [env_fault n = Some (e, committed)], with or without having taken effect. *)
Record Env := mkEnv {
  env_now : nat → Z;
  env_others : nat → db → db;
  env_fault : nat → option (PromptError * bool);
  env_sink : nat → bool;
  env_resolve : AgentId → option str;
  env_attempt : nat → db → attempt * db;
  env_nudge : nat → option str }.

Inductive ctl (A : Type) := Ret (a : A) | Unwind (msg : string) | Diverge.
Arguments Ret {A} _.
Arguments Unwind {A} _.
Arguments Diverge {A}.

Definition WM (A : Type) : Type := world → ctl A * world.
Definition wret {A} (a : A) : WM A := λ w, (Ret a, w).
Definition wpanic {A} (msg : string) : WM A := λ w, (Unwind msg, w).
Definition wbind {A B} (m : WM A) (k : A → WM B) : WM B := λ w,
  match m w with
  | (Ret a, w') => k a w'
  | (Unwind s, w') => (Unwind s, w')
  | (Diverge, w') => (Diverge, w')
  end.

Notation "x <~ m ; k" := (wbind m (λ x, k))
  (at level 100, m at next level, k at level 200, right associativity) : patom_scope.
Notation "m ;~ k" := (wbind m (λ _, k))
  (at level 100, k at level 200, right associativity) : patom_scope.

Fixpoint witer {A} (f : A → WM unit) (l : list A) : WM unit :=
  match l with [] => wret tt | a :: l' => f a ;~ witer f l' end.

Section worker.
Context `{UuidPrinter} (env : Env).

(** The next call: others run first, then the event is recorded. *)
Definition emit (e : event) : WM nat := λ w,
  let n := length (w_events w) in
  (Ret n, mkWorld (env_others env n (w_db w)) (w_events w ++ [e])).

(** A storage call with its effect on the tables. *)
Definition call {A} (e : event) (f : Z → db → res PromptError A * db)
    : WM (res PromptError A) :=
  n <~ emit e ;
  λ w, let '(r, d) := f (env_now env n) (w_db w) in
    match env_fault env n with
    | None => (Ret r, mkWorld d (w_events w))
    | Some (err, committed) =>
        (Ret (Err err), mkWorld (if committed then d else w_db w) (w_events w))
    end.

(** ** The helpers of [impl Worker] *)

Definition cancelled_view (v : RequestStatusView) : bool :=
  sv_cancellation_requested v || is_terminal (sv_status v).

Definition any_cancelled (ids : list PromptRequestId) : WM bool :=
  r <~ call (EStatuses ids) (λ _ d, (statuses d ids, d)) ;
  wret (match r with Ok views => existsb cancelled_view views | _ => false end).

(** The first view the cancel watcher fires on. *)
Definition cancel_watcher_fire (views : list RequestStatusView)
    : option RequestStatusView := List.find cancelled_view views.

(** [publish_for_user] / [close_for_user]: an error is only logged. *)
Definition sink_call (e : event) : WM bool := n <~ emit e ; wret (env_sink env n).

Definition publish_failure (rc : TurnReceipt) (reason : FailureReason) : WM unit :=
  witer (λ id, sink_call (EPublishFailure id reason) ;~ sink_call (EClose id) ;~ wret tt)
    (rc_trigger_ids rc).

Definition maybe_emit_quiescence (rc : TurnReceipt) : WM unit :=
  r <~ call (EQuiescent (rc_root_request_id rc))
         (λ _ d, (Ok (quiescent (rc_root_request_id rc) d), d)) ;
  match r with
  | Ok true =>
      witer (λ id, ok <~ sink_call (EPublishDone id) ;
                   if ok then sink_call (EClose id) ;~ wret tt else wret tt)
        (rc_trigger_ids rc)
  | _ => wret tt
  end.

Definition finalise (rc : TurnReceipt) (reason : FailureReason) : WM unit :=
  call (EMarkFailed reason) (mark_turn_failed rc reason) ;~ maybe_emit_quiescence rc.

Definition release (rc : TurnReceipt) : WM unit :=
  call ERelease (λ _, release_turn_impl rc) ;~ wret tt.

Definition handle_success (rc : TurnReceipt) (reply : AgentReply) : WM unit :=
  call EMarkDone (mark_turn_done rc) ;~ maybe_emit_quiescence rc.

Definition handle_agent_error (rc : TurnReceipt) (err : AgentError) : WM unit :=
  let reason := reason_of_agent_error err in
  publish_failure rc reason ;~ finalise rc reason.

Definition thread_of (claim : ClaimedTurn) : WM ThreadId :=
  match ct_thread_id claim with
  | Some t => wret t
  | None => wpanic "invariant: a Normal chat trigger always carries a thread_id"
  end.

Definition lead_request_id (claim : ClaimedTurn) : WM PromptRequestId :=
  match ct_trigger_ids claim with
  | id :: _ => wret id
  | [] => wpanic "invariant: claim_next_turn drains at least one trigger"
  end.

Definition run_agent (e : event) : WM attempt :=
  n <~ emit e ;
  λ w, let '(o, d) := env_attempt env n (w_db w) in (Ret o, mkWorld d (w_events w)).

Definition run_one_attempt (claim : ClaimedTurn) : WM attempt :=
  thread_of claim ;~ lead_request_id claim ;~ run_agent EAttempt.

(** [None] on success, the error's text otherwise. *)
Definition inject_pingpong_nudge (claim : ClaimedTurn) (rc : TurnReceipt)
    : WM (option str) :=
  thread_of claim ;~ n <~ emit ENudge ;
  wret ((λ e, lit "queue backend error: nudge: " ++ e) <$> env_nudge env n).

(** The loop of [run_with_pingpong_guard]; [fuel] bounds its iterations. *)
Fixpoint pingpong_loop (fuel : nat) (retries : nat) (claim : ClaimedTurn)
    (rc : TurnReceipt) : WM unit :=
  match fuel with
  | 0 => λ w, (Diverge, w)
  | S fuel' =>
      outcome <~ run_one_attempt claim ;
      match outcome with
      | Replied reply =>
          if send_message_calls reply =? 0 then
            if MAX_PINGPONG_RETRIES <=? retries then
              publish_failure rc NoEgress ;~ finalise rc NoEgress
            else
              e <~ inject_pingpong_nudge claim rc ;
              match e with
              | Some msg =>
                  let reason := Unrecoverable (lit "nudge append: " ++ msg) in
                  publish_failure rc reason ;~ finalise rc reason
              | None => pingpong_loop fuel' (S retries) claim rc
              end
          else handle_success rc reply
      | AgentFailed e => handle_agent_error rc e
      | Elapsed => publish_failure rc Timeout ;~ finalise rc Timeout
      end
  end.

Definition run_with_pingpong_guard (claim : ClaimedTurn) (rc : TurnReceipt) : WM unit :=
  pingpong_loop (S MAX_PINGPONG_RETRIES) 0 claim rc.

Definition advance_reflection_checkpoint (claim : ClaimedTurn) : WM unit :=
  match ct_kind_payload claim with
  | PReflection thread_id up_to_message_id =>
      emit (ECheckpoint (ct_receiver_agent_id claim) thread_id up_to_message_id) ;~ wret tt
  | _ => wret tt
  end.

Definition run_background (claim : ClaimedTurn) (rc : TurnReceipt) : WM unit :=
  lead_request_id claim ;~
  outcome <~ run_agent EBackground ;
  match outcome with
  | Replied _ =>
      advance_reflection_checkpoint claim ;~
      call EMarkDone (mark_turn_done rc) ;~ maybe_emit_quiescence rc
  | AgentFailed e => handle_agent_error rc e
  | Elapsed => finalise rc Timeout
  end.

Definition handle_turn_inner (claim : ClaimedTurn) : WM unit :=
  let rc := receipt claim in
  cancelled <~ any_cancelled (rc_trigger_ids rc) ;
  if cancelled then
    publish_failure rc Cancelled ;~ finalise rc Cancelled ;~ release rc
  else
    emit (EResolveAgent (ct_receiver_agent_id claim)) ;~
    match env_resolve env (ct_receiver_agent_id claim) with
    | Some e =>
        let reason := Unrecoverable (lit "agent resolve: " ++ e) in
        publish_failure rc reason ;~ finalise rc reason ;~ release rc
    | None =>
        emit ESpawnWatchers ;~
        match ct_kind claim with
        | Normal => run_with_pingpong_guard claim rc
        | Reflection | Resolution => run_background claim rc
        end ;~
        emit EAbortWatchers ;~
        release rc
    end.
End worker.

(** ** The calls of a turn *)

Definition is_mark (e : event) : bool :=
  match e with EMarkDone | EMarkFailed _ => true | _ => false end.
Definition is_attempt (e : event) : bool :=
  match e with EAttempt | EBackground => true | _ => false end.
Definition is_release (e : event) : bool :=
  match e with ERelease => true | _ => false end.

Definition count (p : event → bool) (es : list event) : nat :=
  length (List.filter p es).

Lemma count_app p es es' : count p (es ++ es') = count p es + count p es'.
Proof. unfold count. by rewrite List.filter_app, length_app. Qed.

(** [m] returns, having appended events [es] with [Φ a es]. *)
Definition emits {A} (m : WM A) (Φ : A → list event → Prop) : Prop :=
  ∀ w, ∃ a d es, m w = (Ret a, mkWorld d (w_events w ++ es)) ∧ Φ a es.

(** At most [a] attempts, exactly [m] marks and [r] releases. *)
Definition shape (a m r : nat) (es : list event) : Prop :=
  count is_attempt es ≤ a ∧ count is_mark es = m ∧ count is_release es = r.

Lemma shape_app a m r a' m' r' es es' :
  shape a m r es → shape a' m' r' es' → shape (a + a') (m + m') (r + r') (es ++ es').
Proof. intros (?&?&?) (?&?&?). unfold shape. rewrite !count_app. lia. Qed.

Lemma shape_weaken a a' m r es : a ≤ a' → shape a m r es → shape a' m r es.
Proof. unfold shape. lia. Qed.

Lemma emits_mono {A} (m : WM A) (Φ Ψ : A → list event → Prop) :
  emits m Φ → (∀ a es, Φ a es → Ψ a es) → emits m Ψ.
Proof. intros Hm Hi w. destruct (Hm w) as (a & d & es & ? & ?). eauto 10. Qed.

Lemma emits_ret {A} (a : A) : emits (wret a) (λ _, shape 0 0 0).
Proof.
  intros [d es]. exists a, d, []. rewrite app_nil_r. split; [done|]. by repeat split.
Qed.

Lemma emits_bind {A B} (m : WM A) (k : A → WM B) a1 m1 r1 a2 m2 r2 :
  emits m (λ _, shape a1 m1 r1) → (∀ a, emits (k a) (λ _, shape a2 m2 r2)) →
  emits (wbind m k) (λ _, shape (a1 + a2) (m1 + m2) (r1 + r2)).
Proof.
  intros Hm Hk w. destruct (Hm w) as (a & d & es & Hw & Hs). unfold wbind. rewrite Hw.
  destruct (Hk a (mkWorld d (w_events w ++ es))) as (b & d' & es' & Hw' & Hs').
  exists b, d', (es ++ es'). rewrite app_assoc. split; [exact Hw'|]. by apply shape_app.
Qed.

Lemma emits_iter {A} (f : A → WM unit) l :
  (∀ a, emits (f a) (λ _, shape 0 0 0)) → emits (witer f l) (λ _, shape 0 0 0).
Proof.
  intros Hf. induction l as [|a l IH]; [apply emits_ret|].
  exact (emits_bind _ _ 0 0 0 0 0 0 (Hf a) (λ _, IH)).
Qed.

Section worker_calls.
Context `{UuidPrinter} (env : Env).

Definition cost (e : event) : list event → Prop :=
  shape (if is_attempt e then 1 else 0) (if is_mark e then 1 else 0)
    (if is_release e then 1 else 0).

Lemma cost_one e : cost e [e].
Proof. destruct e; by repeat split. Qed.

Lemma emits_emit e : emits (emit env e) (λ _, cost e).
Proof. intros w. do 3 eexists. split; [done|]. apply cost_one. Qed.

Lemma emits_call {A} e (f : Z → db → res PromptError A * db) :
  emits (call env e f) (λ _, cost e).
Proof.
  intros w. unfold call, wbind, emit. cbn.
  destruct (f _ _) as [r d]. destruct (env_fault env _) as [[err cm]|];
    (do 3 eexists; split; [done|apply cost_one]).
Qed.

Lemma emits_agent e : emits (run_agent env e) (λ _, cost e).
Proof.
  intros w. unfold run_agent, wbind, emit. cbn. destruct (env_attempt env _ _) as [o d].
  do 3 eexists. split; [done|]. apply cost_one.
Qed.

Lemma emits_sink_publish id reason :
  emits (sink_call env (EPublishFailure id reason)) (λ _, shape 0 0 0).
Proof. apply (emits_bind _ _ 0 0 0 0 0 0); [apply emits_emit|intros ?; apply emits_ret]. Qed.

Lemma emits_sink_done id : emits (sink_call env (EPublishDone id)) (λ _, shape 0 0 0).
Proof. apply (emits_bind _ _ 0 0 0 0 0 0); [apply emits_emit|intros ?; apply emits_ret]. Qed.

Lemma emits_close id : emits (sink_call env (EClose id) ;~ wret tt) (λ _, shape 0 0 0).
Proof.
  apply (emits_bind _ _ 0 0 0 0 0 0); [|intros ?; apply emits_ret].
  apply (emits_bind _ _ 0 0 0 0 0 0); [apply emits_emit|intros ?; apply emits_ret].
Qed.

Lemma emits_publish rc reason : emits (publish_failure env rc reason) (λ _, shape 0 0 0).
Proof.
  apply emits_iter. intros id.
  apply (emits_bind _ _ 0 0 0 0 0 0); [apply emits_sink_publish|intros ?; apply emits_close].
Qed.

Lemma emits_quiescence rc : emits (maybe_emit_quiescence env rc) (λ _, shape 0 0 0).
Proof.
  apply (emits_bind _ _ 0 0 0 0 0 0); [apply emits_call|].
  intros [[] | |]; try apply emits_ret. apply emits_iter. intros id.
  apply (emits_bind _ _ 0 0 0 0 0 0); [apply emits_sink_done|].
  intros []; [apply emits_close|apply emits_ret].
Qed.

Lemma emits_finalise rc reason : emits (finalise env rc reason) (λ _, shape 0 1 0).
Proof.
  apply (emits_bind _ _ 0 1 0 0 0 0); [apply emits_call|intros ?; apply emits_quiescence].
Qed.

Lemma emits_fail rc reason :
  emits (publish_failure env rc reason ;~ finalise env rc reason) (λ _, shape 0 1 0).
Proof.
  apply (emits_bind _ _ 0 0 0 0 1 0); [apply emits_publish|intros ?; apply emits_finalise].
Qed.

Lemma emits_success rc reply : emits (handle_success env rc reply) (λ _, shape 0 1 0).
Proof.
  apply (emits_bind _ _ 0 1 0 0 0 0); [apply emits_call|intros ?; apply emits_quiescence].
Qed.

Lemma emits_thread claim : is_Some (ct_thread_id claim) →
  emits (thread_of claim) (λ _, shape 0 0 0).
Proof. intros [t Ht]. unfold thread_of. rewrite Ht. apply emits_ret. Qed.

Lemma emits_lead claim : ct_trigger_ids claim ≠ [] →
  emits (lead_request_id claim) (λ _, shape 0 0 0).
Proof. unfold lead_request_id. case_match; [done|]. intros ?. apply emits_ret. Qed.

Lemma emits_loop fuel retries claim rc :
  is_Some (ct_thread_id claim) → ct_trigger_ids claim ≠ [] →
  retries ≤ MAX_PINGPONG_RETRIES → MAX_PINGPONG_RETRIES < fuel + retries →
  emits (pingpong_loop env fuel retries claim rc) (λ _, shape fuel 1 0).
Proof.
  intros Ht Hid. revert retries. induction fuel as [|fuel IH]; intros retries Hr Hf; [lia|].
  cbn [pingpong_loop]. apply (emits_bind _ _ 1 0 0 fuel 1 0).
  { apply (emits_bind _ _ 0 0 0 1 0 0); [by apply emits_thread|]. intros ?.
    apply (emits_bind _ _ 0 0 0 1 0 0); [by apply emits_lead|]. intros ?. apply emits_agent. }
  assert (∀ m, emits m (λ _ : unit, shape 0 1 0) → emits m (λ _, shape fuel 1 0)) as Hw.
  { intros m Hm. eapply emits_mono; [exact Hm|]. cbv beta. intros u es Hs. eapply shape_weaken; [|exact Hs]. lia. }
  intros [reply|e|]; [|apply Hw, emits_fail..].
  destruct (_ =? 0); [|apply Hw, emits_success].
  destruct (Nat.leb_spec MAX_PINGPONG_RETRIES retries); [apply Hw, emits_fail|].
  apply (emits_bind _ _ 0 0 0 fuel 1 0).
  { apply (emits_bind _ _ 0 0 0 0 0 0); [by apply emits_thread|]. intros ?.
    apply (emits_bind _ _ 0 0 0 0 0 0); [apply emits_emit|intros ?; apply emits_ret]. }
  intros [msg|]; [apply Hw, emits_fail|]. apply IH; lia.
Qed.

Lemma emits_background claim rc : ct_trigger_ids claim ≠ [] →
  emits (run_background env claim rc) (λ _, shape 1 1 0).
Proof.
  intros Hid. apply (emits_bind _ _ 0 0 0 1 1 0); [by apply emits_lead|]. intros ?.
  apply (emits_bind _ _ 1 0 0 0 1 0); [apply emits_agent|].
  intros [reply|e|]; [|apply emits_fail|apply emits_finalise].
  apply (emits_bind _ _ 0 0 0 0 1 0); [|intros _].
  - unfold advance_reflection_checkpoint. case_match; try apply emits_ret.
    apply (emits_bind _ _ 0 0 0 0 0 0); [apply emits_emit|intros ?; apply emits_ret].
  - apply (emits_bind _ _ 0 1 0 0 0 0); [apply emits_call|intros ?; apply emits_quiescence].
Qed.

(** The same shape, and the release is the last call. *)
Definition ending (a m : nat) (es : list event) : Prop :=
  shape a m 1 es ∧ last es = Some ERelease.

Lemma ending_bind {A} (p : WM A) (k : A → WM unit) a1 m1 a2 m2 :
  emits p (λ _, shape a1 m1 0) → (∀ a, emits (k a) (λ _, ending a2 m2)) →
  emits (wbind p k) (λ _, ending (a1 + a2) (m1 + m2)).
Proof.
  intros Hm Hk w. destruct (Hm w) as (a & d & es & Hw & Hs). unfold wbind. rewrite Hw.
  destruct (Hk a (mkWorld d (w_events w ++ es))) as (b & d' & es' & Hw' & Hs' & Hl).
  exists b, d', (es ++ es'). rewrite app_assoc. split; [exact Hw'|].
  split; [apply (shape_app a1 m1 0 a2 m2 1); done|]. by rewrite last_app, Hl.
Qed.

Lemma emits_release rc : emits (release env rc) (λ _, ending 0 0).
Proof.
  intros w. unfold release, call, wbind, emit. cbn.
  destruct (env_fault env _) as [[err cm]|]; do 3 eexists; (split; [done|by repeat split]).
Qed.

Lemma ending_weaken a a' m es : a ≤ a' → ending a m es → ending a' m es.
Proof. intros Ha [Hs Hl]. split; [by eapply shape_weaken|done]. Qed.

Lemma emits_turn claim :
  ct_trigger_ids claim ≠ [] → (ct_kind claim = Normal → is_Some (ct_thread_id claim)) →
  emits (handle_turn_inner env claim) (λ _, ending (S MAX_PINGPONG_RETRIES) 1).
Proof.
  intros Hid Ht. unfold handle_turn_inner.
  assert (∀ reason, emits (publish_failure env (receipt claim) reason ;~
    finalise env (receipt claim) reason ;~ release env (receipt claim)) (λ _, ending 3 1))
    as Hfail.
  { intros reason. apply (ending_bind _ _ 0 0 3 1); [apply emits_publish|intros ?].
    apply (ending_bind _ _ 0 1 3 0); [apply emits_finalise|intros ?].
    eapply emits_mono; [apply emits_release|]. intros u es. apply ending_weaken. lia. }
  apply (ending_bind _ _ 0 0 3 1).
  { apply (emits_bind _ _ 0 0 0 0 0 0); [apply emits_call|intros ?; apply emits_ret]. }
  intros [|]; [apply Hfail|].
  apply (ending_bind _ _ 0 0 3 1); [apply emits_emit|intros ?].
  destruct (env_resolve env _); [apply Hfail|].
  apply (ending_bind _ _ 0 0 3 1); [apply emits_emit|intros ?].
  assert (∀ p : WM unit, emits p (λ _, shape 3 1 0) →
    emits (p ;~ emit env EAbortWatchers ;~ release env (receipt claim)) (λ _, ending 3 1))
    as Hrun.
  { intros p Hp. apply (ending_bind _ _ 3 1 0 0); [done|intros ?].
    apply (ending_bind _ _ 0 0 0 0); [apply emits_emit|intros ?; apply emits_release]. }
  destruct (ct_kind claim) eqn:Hk; apply Hrun.
  - apply emits_loop; [by apply Ht|done|unfold MAX_PINGPONG_RETRIES; lia..].
  - eapply emits_mono; [by apply emits_background|]. cbv beta. intros u es Hs.
    eapply shape_weaken; [|exact Hs]. lia.
  - eapply emits_mono; [by apply emits_background|]. cbv beta. intros u es Hs.
    eapply shape_weaken; [|exact Hs]. lia.
Qed.
End worker_calls.

(** C3: Whatever the agent, the storage and the other processes do, a turn ends: it
    runs the agent at most three times, marks its batch exactly once, and its
    last call, made exactly once, is the lease release. *)
Theorem worker_turn_marks_once `{UuidPrinter} env claim w
    (Hid : ct_trigger_ids claim ≠ [])
    (Hthread : ct_kind claim = Normal → is_Some (ct_thread_id claim)) :
  ∃ d es, handle_turn_inner env claim w = (Ret tt, mkWorld d (w_events w ++ es))
    ∧ count is_attempt es ≤ 3 ∧ count is_mark es = 1 ∧ count is_release es = 1
    ∧ last es = Some ERelease.
Proof.
  destruct (emits_turn env claim Hid Hthread w) as ([] & d & es & Hw & (Ha & Hm & Hr) & Hl).
  by exists d, es.
Qed.

(** ** The turn on the queue's tables *)

(** Every trigger of the batch has reached a terminal status. *)
Definition settled (c : Claim) (s : sys) : Prop :=
  ∀ r, r ∈ prompt_requests (sys_db s) → pr_id r ∈ cm_ids c → is_terminal (pr_status r) = true.


Section tracking.
Context (timing : LeaseTiming) (c : Claim).

(** The tables are those of a reachable queue that has committed the claim. *)
Definition tracked (Ψ : sys → Prop) (d : db) : Prop :=
  ∃ s, reachable timing s ∧ c ∈ sys_claims s ∧ sys_db s = d ∧ Ψ s.

(** What other processes may do between two calls: any steps of the queue
    but the finalisation of this claim, which takes this worker's receipt. *)
Definition others (f : db → db) : Prop :=
  ∀ s, reachable timing s → c ∈ sys_claims s →
    ∃ s', rtc (step_without timing c) s s' ∧ sys_db s' = f (sys_db s).

Lemma lstep_claims l s s' : lstep timing l s s' → c ∈ sys_claims s → c ∈ sys_claims s'.
Proof. destruct 1; simpl; try done. case_match; set_solver. Qed.

Lemma reachable_lstep l s s' : reachable timing s → lstep timing l s s' → reachable timing s'.
Proof. intros (s0 & ? & ?) Hl. exists s0. split; [done|]. eapply rtc_r; [done|]. by exists l. Qed.

Lemma settled_lstep l s s' :
  reachable timing s → c ∈ sys_claims s → lstep timing l s s' → settled c s → settled c s'.
Proof.
  intros Hs Hc Hl Hset r' Hr' Hi.
  pose proof (reachable_inv _ _ Hs) as Hinv.
  pose proof (reachable_inv _ _ (reachable_lstep _ _ _ Hs Hl)) as Hinv'.
  pose proof (inv_exist _ Hinv c _ Hc Hi) as Hex.
  apply list_elem_of_fmap in Hex as (r & Hid & Hr).
  destruct (lstep_row _ _ _ _ _ Hl Hr) as (r'' & Hr'' & Hrow).
  assert (pr_id r'' = pr_id r) as Hid'' by (by destruct Hrow).
  assert (r'' = r') as -> by (apply (NoDup_fmap_eq pr_id _ _ _ (inv_ids _ Hinv')); congruence).
  assert (is_terminal (pr_status r) = true) as Ht by (apply Hset; [done|congruence]).
  destruct Hrow as [| |worker now now' cand fence r Hp|rc c' status reason now r Hrc Hst Hf];
    [done|done| |done]. by rewrite Hp in Ht.
Qed.

Lemma tracked_others Ψ f d :
  (∀ l s s', reachable timing s → c ∈ sys_claims s → lstep timing l s s' → Ψ s → Ψ s') →
  others f → tracked Ψ d → tracked Ψ (f d).
Proof.
  intros Hst Hf (s & Hs & Hc & <- & HΨ). destruct (Hf s Hs Hc) as (s' & Hrtc & <-).
  exists s'. revert Hs Hc HΨ. clear Hf. induction Hrtc as [|s s1 s2 (l & _ & Hl) _ IH]; [done|].
  intros Hs Hc HΨ. apply IH; [by eapply reachable_lstep|by eapply lstep_claims|by eapply Hst].
Qed.

Lemma tracked_settled f d : others f → tracked (settled c) d → tracked (settled c) (f d).
Proof. apply tracked_others. apply settled_lstep. Qed.

Lemma tracked_any f d : others f → tracked (λ _, True) d → tracked (λ _, True) (f d).
Proof. by apply tracked_others. Qed.

(** This worker's own finalisation settles the batch. *)
Lemma tracked_finalise rc status reason now d :
  receipt_of rc c → is_terminal status = true → tracked (λ _, True) d →
  (finalise_turn rc status reason now d).1 = Ok tt
  ∧ tracked (settled c) (finalise_turn rc status reason now d).2.
Proof.
  intros Hrc Ht (s & Hs & Hc & <- & _).
  pose proof (finalise_settles_batch timing s c rc status reason now Hs Hc Hrc Ht) as Hfin.
  split; [done|]. destruct s as [d rds cs]. cbn [sys_db] in *.
  exists (mkSys (finalise_turn rc status reason now d).2 rds cs).
  split; [eapply reachable_lstep; [done|by eapply step_finalise]|].
  split; [done|]. split; [done|]. intros r Hr Hi. simpl in Hfin.
  exact (proj2 (proj2 Hfin) r Hr Hi).
Qed.
End tracking.

Section settlement.
Context `{UuidPrinter} (env : Env) (timing : LeaseTiming) (c : Claim).
Context (Hothers : ∀ n, others timing c (env_others env n)).
Context (Hagent : ∀ n, others timing c (λ d, (env_attempt env n d).2)).
Context (Hfault : ∀ n, env_fault env n = None).

Definition hoare {A} (Ψ : sys → Prop) (m : WM A) (Ψ' : sys → Prop) : Prop :=
  ∀ w, tracked timing c Ψ (w_db w) →
    match m w with (Ret _, w') => tracked timing c Ψ' (w_db w') | _ => True end.

(** Assertions that the steps of others keep. *)
Definition stable (Ψ : sys → Prop) : Prop :=
  ∀ f d, others timing c f → tracked timing c Ψ d → tracked timing c Ψ (f d).

Lemma stable_any : stable (λ _, True).
Proof. intros f d. apply tracked_any. Qed.
Lemma stable_settled : stable (settled c).
Proof. intros f d. apply tracked_settled. Qed.

Lemma h_ret {A} (a : A) Ψ : hoare Ψ (wret a) Ψ.
Proof. by intros w. Qed.

Lemma h_panic {A} msg Ψ Ψ' : hoare Ψ (wpanic (A:=A) msg) Ψ'.
Proof. by intros w. Qed.

Lemma h_bind {A B} (m : WM A) (k : A → WM B) Ψ1 Ψ2 Ψ3 :
  hoare Ψ1 m Ψ2 → (∀ a, hoare Ψ2 (k a) Ψ3) → hoare Ψ1 (wbind m k) Ψ3.
Proof.
  intros Hm Hk w Hw. specialize (Hm w Hw). unfold wbind.
  destruct (m w) as [[a|s|] w']; [|done..]. by apply Hk.
Qed.

Lemma h_emit e Ψ : stable Ψ → hoare Ψ (emit env e) Ψ.
Proof. intros Hst w Hw. simpl. by apply Hst. Qed.

(** A storage call that only reads. *)
Lemma h_read {A} e (f : db → res PromptError A) Ψ :
  stable Ψ → hoare Ψ (call env e (λ _ d, (f d, d))) Ψ.
Proof. intros Hst w Hw. unfold call, wbind, emit. cbn. rewrite Hfault. by apply Hst. Qed.

Lemma h_agent e Ψ : stable Ψ → hoare Ψ (run_agent env e) Ψ.
Proof.
  intros Hst w Hw. unfold run_agent, wbind, emit. cbn.
  pose proof (Hst _ _ (Hagent (length (w_events w))) (Hst _ _ (Hothers (length (w_events w))) Hw))
    as Ha. cbv beta in Ha. by destruct (env_attempt env _ _) as [o d].
Qed.

Lemma h_iter {A} (f : A → WM unit) l Ψ :
  (∀ a, hoare Ψ (f a) Ψ) → hoare Ψ (witer f l) Ψ.
Proof.
  intros Hf. induction l as [|a l IH]; [apply h_ret|].
  eapply h_bind; [apply Hf|intros ?; apply IH].
Qed.

(** The finalising calls take any tracked state to a settled one. *)
Lemma h_mark e rc status reason :
  receipt_of rc c → is_terminal status = true →
  hoare (λ _, True) (call env e (finalise_turn rc status reason)) (settled c).
Proof.
  intros Hrc Ht w Hw. unfold call, wbind, emit. cbn. rewrite Hfault.
  apply (tracked_finalise timing c rc status reason _ _ Hrc Ht). by apply stable_any.
Qed.

Lemma h_sink e Ψ : stable Ψ → hoare Ψ (sink_call env e) Ψ.
Proof. intros Hst. eapply h_bind; [by apply h_emit|intros ?; apply h_ret]. Qed.

Lemma h_publish rc reason Ψ : stable Ψ → hoare Ψ (publish_failure env rc reason) Ψ.
Proof.
  intros Hst. apply h_iter. intros id. eapply h_bind; [by apply h_sink|intros ?].
  eapply h_bind; [by apply h_sink|intros ?; apply h_ret].
Qed.

Lemma h_quiescence rc Ψ : stable Ψ → hoare Ψ (maybe_emit_quiescence env rc) Ψ.
Proof.
  intros Hst. eapply h_bind;
    [by apply (h_read _ (λ d, Ok (quiescent (rc_root_request_id rc) d)))|].
  intros [[] | |]; try apply h_ret. apply h_iter. intros id.
  eapply h_bind; [by apply h_sink|]. intros []; [|apply h_ret].
  eapply h_bind; [by apply h_sink|intros ?; apply h_ret].
Qed.

Lemma h_finalise rc reason : receipt_of rc c →
  hoare (λ _, True) (finalise env rc reason) (settled c).
Proof.
  intros Hrc. eapply h_bind; [by apply h_mark|intros ?].
  apply h_quiescence, stable_settled.
Qed.

Lemma h_done rc : receipt_of rc c →
  hoare (λ _, True) (call env EMarkDone (mark_turn_done rc) ;~ maybe_emit_quiescence env rc)
    (settled c).
Proof.
  intros Hrc. eapply h_bind; [by apply h_mark|intros ?].
  apply h_quiescence, stable_settled.
Qed.

Lemma h_fail rc reason : receipt_of rc c →
  hoare (λ _, True) (publish_failure env rc reason ;~ finalise env rc reason) (settled c).
Proof.
  intros Hrc. eapply h_bind; [by apply h_publish, stable_any|intros ?]. by apply h_finalise.
Qed.

Lemma h_thread claim Ψ : hoare Ψ (thread_of claim) Ψ.
Proof. unfold thread_of. case_match; [apply h_ret|apply h_panic]. Qed.

Lemma h_lead claim Ψ : hoare Ψ (lead_request_id claim) Ψ.
Proof. unfold lead_request_id. case_match; [apply h_panic|apply h_ret]. Qed.

Lemma h_loop fuel retries claim rc : receipt_of rc c →
  hoare (λ _, True) (pingpong_loop env fuel retries claim rc) (settled c).
Proof.
  intros Hrc. revert retries. induction fuel as [|fuel IH]; intros retries; [done|].
  cbn [pingpong_loop].
  apply h_bind with (λ _, True).
  { eapply h_bind; [apply h_thread|intros ?]. eapply h_bind; [apply h_lead|intros ?].
    apply h_agent, stable_any. }
  intros [reply|e|]; [|by apply h_fail..].
  destruct (_ =? 0); [|by apply h_done].
  destruct (_ <=? retries); [by apply h_fail|].
  apply h_bind with (λ _, True).
  { eapply h_bind; [apply h_thread|intros ?].
    eapply h_bind; [apply h_emit, stable_any|intros ?; apply h_ret]. }
  intros [msg|]; [by apply h_fail|apply IH].
Qed.

Lemma h_background claim rc : receipt_of rc c →
  hoare (λ _, True) (run_background env claim rc) (settled c).
Proof.
  intros Hrc. eapply h_bind; [apply h_lead|intros ?].
  eapply h_bind; [apply h_agent, stable_any|].
  intros [reply|e|]; [|by apply h_fail|by apply h_finalise].
  eapply h_bind; [|intros ?; by apply h_done].
  unfold advance_reflection_checkpoint. case_match; try apply h_ret.
  eapply h_bind; [apply h_emit, stable_any|intros ?; apply h_ret].
Qed.

Definition released (rc : TurnReceipt) (s : sys) : Prop :=
  settled c s ∧ holds_lease rc (sys_db s) = None.

Lemma holds_lease_released rc d : holds_lease rc (release_turn_impl rc d).2 = None.
Proof.
  unfold release_turn_impl, run, update. cbn [snd].
  destruct (holds_lease rc d) as [l|] eqn:Hl; [|done].
  unfold holds_lease. simpl. by rewrite lookup_delete_eq.
Qed.

Lemma h_release rc : receipt_of rc c →
  hoare (settled c) (release env rc) (released rc).
Proof.
  intros Hrc w Hw. unfold release, call, wbind, emit, wret. cbn. rewrite Hfault.
  apply (stable_settled _ _ (Hothers (length (w_events w)))) in Hw as (s & Hs & Hc & Hd & Hset).
  cbn. rewrite <-Hd. destruct s as [d rds cs].
  assert (lstep timing LOther (mkSys d rds cs) (mkSys (release_turn_impl rc d).2 rds cs)) as Hl
    by (by eapply step_release).
  exists (mkSys (release_turn_impl rc d).2 rds cs).
  split; [by eapply reachable_lstep|]. split; [done|]. split; [done|].
  split; [by eapply settled_lstep|apply holds_lease_released].
Qed.

Lemma h_turn claim : receipt_of (receipt claim) c →
  hoare (λ _, True) (handle_turn_inner env claim) (released (receipt claim)).
Proof.
  intros Hrc. unfold handle_turn_inner.
  assert (∀ reason, hoare (λ _, True) (publish_failure env (receipt claim) reason ;~
    finalise env (receipt claim) reason ;~ release env (receipt claim))
    (released (receipt claim))) as Hfail.
  { intros reason. eapply h_bind; [by apply h_publish, stable_any|intros ?].
    eapply h_bind; [by apply h_finalise|intros ?]. by apply h_release. }
  apply h_bind with (λ _, True).
  { eapply h_bind; [|intros ?; apply h_ret].
    apply (h_read _ (λ d, statuses d (rc_trigger_ids (receipt claim)))), stable_any. }
  intros [|]; [apply Hfail|].
  eapply h_bind; [apply h_emit, stable_any|intros ?].
  destruct (env_resolve env _); [apply Hfail|].
  eapply h_bind; [apply h_emit, stable_any|intros ?].
  apply h_bind with (settled c).
  { destruct (ct_kind claim); [by apply h_loop|by apply h_background..]. }
  intros ?. eapply h_bind; [apply h_emit, stable_settled|intros ?]. by apply h_release.
Qed.
End settlement.

(** C2: A worker that holds a claim and whose own storage calls get through settles
    it, whatever the agent and the other processes do in between: the turn
    returns with every trigger of the batch terminal and the fenced lease gone,
    in a state of the tables the queue can reach. *)
Theorem worker_turn_settles `{UuidPrinter} timing env claim c s
    (Hs : reachable timing s) (Hc : c ∈ sys_claims s) (Hrc : receipt_of (receipt claim) c)
    (Hothers : ∀ n, others timing c (env_others env n))
    (Hagent : ∀ n, others timing c (λ d, (env_attempt env n d).2))
    (Hfault : ∀ n, env_fault env n = None)
    (Hid : ct_trigger_ids claim ≠ [])
    (Hthread : ct_kind claim = Normal → is_Some (ct_thread_id claim)) :
  ∃ w' s', handle_turn_inner env claim (mkWorld (sys_db s) []) = (Ret tt, w')
    ∧ reachable timing s' ∧ sys_db s' = w_db w'
    ∧ settled c s' ∧ holds_lease (receipt claim) (w_db w') = None.
Proof.
  assert (tracked timing c (λ _, True) (sys_db s)) as Ht by (by exists s).
  pose proof (h_turn env timing c Hothers Hagent Hfault claim Hrc (mkWorld (sys_db s) []) Ht) as Hh.
  destruct (emits_turn env claim Hid Hthread (mkWorld (sys_db s) [])) as ([] & d & es & Hw & _).
  rewrite Hw in Hh. destruct Hh as (s' & Hs' & _ & Hd & Hset & Hl).
  exists (mkWorld d ([] ++ es)), s'. rewrite Hd in Hl. by split_and!.
Qed.

(** The environment of the demonstration: nobody interferes, the agent answers
    without sending twice, then delivers. *)
Definition demo_env : Env :=
  mkEnv (λ n, 4000 + Z.of_nat n)%Z (λ _ d, d) (λ _, None) (λ _, true) (λ _, None)
    (λ n d, (Replied (mkAgentReply (lit "ok") (if n <? 6 then 0 else 1)), d)) (λ _, None).

Definition demo_claim : ClaimedTurn :=
  mkClaimedTurn 100 Normal (Some 9%N) 1 5 70 7 [11; 12]%N 11 PNormal 99 1.

#[local] Instance demo_uuid : UuidPrinter := λ _, [].

Lemma worker_turn_marks_once_witness :
  ∃ es, (handle_turn_inner demo_env demo_claim (mkWorld Demo.db3 [])).2 = mkWorld
          (handle_turn_inner demo_env demo_claim (mkWorld Demo.db3 [])).2.(w_db) es
    ∧ count is_attempt es = 3 ∧ count is_mark es = 1 ∧ last es = Some ERelease.
Proof.
  destruct (worker_turn_marks_once demo_env demo_claim (mkWorld Demo.db3 []))
    as (d & es & Hw & _ & Hm & _ & Hl); [discriminate|by eexists|].
  exists es. rewrite Hw. split_and!; [done| |done|done].
  pose proof (f_equal (λ x, w_events x.2) Hw) as He. vm_compute in He. rewrite <-He.
  vm_compute. reflexivity.
Defined.

Lemma worker_turn_settles_witness :
  ∃ w', handle_turn_inner demo_env demo_claim (mkWorld Demo.db3 []) = (Ret tt, w')
    ∧ holds_lease Demo.receipt (w_db w') = None.
Proof.
  destruct (worker_turn_settles Demo.timing demo_env demo_claim Demo.claim Demo.s3)
    as (w' & s' & Hw & _ & _ & _ & Hl).
  - exact Demo.reachable_s3.
  - apply list_elem_of_here.
  - by split_and!.
  - intros n s _ _. exists s. split; [apply rtc_refl|done].
  - intros n s _ _. exists s. split; [apply rtc_refl|done].
  - done.
  - discriminate.
  - intros _. by eexists.
  - exists w'. by split.
Defined.
