(* ===== verification/Threads.v ===== *)
(** * The thread feed

    [threads/traits.rs] and [threads/pg_store.rs]: the ordered feed of a thread,
    the windowed context an agent reads from it, the rolling compaction row and
    the offloaded tool results. *)

From Stdlib Require Import ZArith Lia Ascii String.
From stdpp Require Import base gmap list strings sets.
From S2P Require Import Prelude Types.

(** ** Limits ([threads/limits.rs], [tools/limits.rs]) *)

Definition MAX_CONTEXT_MESSAGES : nat := 200.
Definition MAX_TOOL_RESULT_CHARS : nat := Z.to_nat 32000.
Definition MAX_ARTIFACT_SLICE : nat := Z.to_nat 16000.
Definition MAX_ARTIFACT_GREP_SCAN : Z := 1000000.

Inductive ThreadError :=
| ThreadNotFound (t : ThreadId)
| ThreadBackend (msg : string)
| ThreadDb (msg : string).

Definition ThreadError_to_string `{UuidPrinter} (e : ThreadError) : str :=
  match e with
  | ThreadNotFound t => lit "thread ThreadId(" ++ uuid_to_string t ++ lit ") not found"
  | ThreadBackend m => lit "thread store backend error: " ++ lit m
  | ThreadDb m => lit "thread store db error: " ++ lit m
  end.

(** ** Data ([threads/traits.rs]) *)

Record Seq := mkSeq { Seq_get : Z }.
#[export] Instance Seq_eq_dec : EqDecision Seq.
Proof. solve_decision. Defined.

Definition Seq_ZERO : Seq := mkSeq 0.
Definition Seq_try_from (raw : Z) : res ParseError Seq :=
  if (raw <? 0)%Z then Err (OutOfRange "seq" "must be non-negative") else Ok (mkSeq raw).

Inductive MessageKind := KPosted | KReasoning | KToolUse | KToolResult | KSystemNote.
#[export] Instance MessageKind_eq_dec : EqDecision MessageKind.
Proof. solve_decision. Defined.

Definition MessageKind_as_str (k : MessageKind) : string :=
  match k with
  | KPosted => "posted" | KReasoning => "reasoning" | KToolUse => "tool_use"
  | KToolResult => "tool_result" | KSystemNote => "system_note"
  end.
#[export] Instance MessageKind_StrEnum : StrEnum MessageKind.
Proof.
  refine {| ALL := [KPosted; KReasoning; KToolUse; KToolResult; KSystemNote];
            as_str := MessageKind_as_str |}; abstract str_enum.
Defined.

Record TailRow := mkTailRow { tail_seq : Seq; tail_message : ChatMessage }.
Record ContextTail := mkContextTail { tail_rows : list TailRow }.

Definition tail_len (t : ContextTail) : nat := length (tail_rows t).
Definition max_seq (t : ContextTail) : option Seq :=
  foldl (λ m r, match m with
                | Some s => Some (if (Seq_get s <=? Seq_get (tail_seq r))%Z
                                  then tail_seq r else s)
                | None => Some (tail_seq r)
                end) None (tail_rows t).
Definition into_messages (t : ContextTail) : list ChatMessage :=
  tail_message <$> tail_rows t.

Record ThreadCompaction := mkThreadCompaction {
  tc_summary : str;
  tc_covers_through_seq : Seq;
  tc_summary_tokens : Z;
  tc_failed_attempts : Z;
  tc_cooldown_until : option Z }.

Record NewMessage := mkNewMessage {
  nm_kind : MessageKind;
  nm_sender : option ColleagueId;
  nm_owner_agent_id : option AgentId;
  nm_receiver : option ColleagueId;
  nm_body : ChatMessage;
  nm_request_id : option PromptRequestId;
  nm_idempotency_key : option IdempotencyKey }.

Record Caller := mkCaller { user_id : UserId; org_id : OrgId }.

(** ** Perspective mapping *)

Definition assistant_to_user_blocks (blocks : list AssistantContent) : list UserContent :=
  omap (λ b, match b with AText t => Some (UText t) | _ => None end) blocks.

Definition user_to_assistant_blocks (blocks : list UserContent) : list AssistantContent :=
  omap (λ b, match b with UText t => Some (AText t) | _ => None end) blocks.

Definition prefix_sender_label (label : option str) (blocks : list UserContent)
    : list UserContent :=
  match label with
  | Some (c :: l) => UText ((c :: l) ++ lit ": ") :: blocks
  | _ => blocks
  end.

Definition map_row_for_viewer (kind : MessageKind) (sender : option ColleagueId)
    (sender_label : option str) (stored : ChatMessage) (viewer : ColleagueId) : ChatMessage :=
  if negb (bool_decide (kind = KPosted)) then stored
  else if bool_decide (sender = Some viewer) then
    match stored with
    | Assistant blocks => Assistant blocks
    | User blocks => Assistant (user_to_assistant_blocks blocks)
    end
  else
    User (prefix_sender_label sender_label
            (match stored with
             | User blocks => blocks
             | Assistant blocks => assistant_to_user_blocks blocks
             end)).

(** ** The render cap on tool results *)

Definition cap_tool_result_output (output : str) (seq : Seq) : option str :=
  let total := chars_count output in
  if total <=? MAX_TOOL_RESULT_CHARS then None
  else
    let keep := MAX_TOOL_RESULT_CHARS / 2 in
    let head := take keep output in
    let tail := drop (total - keep) output in
    let omitted := total - keep - keep in
    Some (head ++ lit "
[" ++ [0x2026%N] ++ lit " omitted " ++ show_Z (Z.of_nat omitted) ++ lit " chars "
      ++ [0xb7%N] ++ lit " thread seq " ++ show_Z (Seq_get seq) ++ lit " " ++ [0x2026%N]
      ++ lit "]
" ++ tail).

Definition cap_tool_results_in_place (message : ChatMessage) (seq : Seq) : ChatMessage :=
  match message with
  | User contents =>
      User ((λ c, match c with
                  | UToolResult r =>
                      match cap_tool_result_output (tr_output r) seq with
                      | Some capped =>
                          UToolResult (mkToolResult (tr_call_id r) capped (tr_is_error r))
                      | None => c
                      end
                  | _ => c
                  end) <$> contents)
  | Assistant _ => message
  end.

(** ** Tool pairs *)

(** The ids of the tool calls an assistant message issues. *)
Definition message_calls (m : ChatMessage) : list ToolCallId :=
  match m with
  | Assistant contents =>
      omap (λ c, match c with AToolCall call => Some (tc_id call) | _ => None end) contents
  | User _ => []
  end.

(** The call a user message answers, if its first block is a tool result. *)
Definition leading_result (m : ChatMessage) : option ToolCallId :=
  match m with
  | User (UToolResult r :: _) => Some (tr_call_id r)
  | _ => None
  end.

Definition answered_in (ids : list ToolCallId) (m : ChatMessage) : bool :=
  match leading_result m with Some id => bool_decide (id ∈ ids) | None => true end.

Definition drop_orphan_tool_results {S} (rows : list (S * ChatMessage))
    : list (S * ChatMessage) :=
  let call_ids := mjoin (message_calls <$> rows.*2) in
  filter (λ r, answered_in call_ids r.2 = true) rows.

(** The loop of [repair_tool_pairs] on the rows left, with its accumulators. *)
Fixpoint repair_go {A} (rows : list (MessageKind * A)) (out deferred : list A)
    (awaiting_result : bool) : list A :=
  match rows with
  | [] => out ++ deferred
  | (kind, a) :: rows' =>
      if awaiting_result then
        if bool_decide (kind = KToolResult)
        then repair_go rows' ((out ++ [a]) ++ deferred) [] false
        else repair_go rows' out (deferred ++ [a]) true
      else repair_go rows' (out ++ [a]) deferred (bool_decide (kind = KToolUse))
  end.

Definition repair_tool_pairs {A} (rows : list (MessageKind * A)) : list A :=
  repair_go rows [] [] false.

(** ** Grep over an offloaded artifact *)

(** The [{:?}] rendering of a string. *)
Class DebugStr := debug_str : str → str.

Definition grep_slice `{DebugStr} (body pattern : str) (max_matches : nat) : str :=
  if is_empty pattern then lit "[grep: empty pattern]"
  else match find_str pattern body with
  | None => lit "[grep: no match for " ++ debug_str pattern ++ lit " in artifact]"
  | Some first =>
      let count := count_matches pattern body 0 (Nat.max max_matches 1) in
      let header := lit "[grep " ++ debug_str pattern ++ lit ": "
                    ++ show_Z (Z.of_nat count)
                    ++ lit "+ match(es); window from first match]
" in
      let budget := MAX_ARTIFACT_SLICE - chars_count header in
      header ++ take budget (drop first body)
  end.

(** ** The store ([threads/pg_store.rs]) *)

Record ThreadRow := mkThreadRow {
  th_org_id : OrgId;
  th_channel_id : option N;
  th_root_message_id : option ThreadMessageId;
  th_created_by : ColleagueId;
  th_dm_counterpart : option ColleagueId;
  th_created_at : Z;
  th_last_activity_at : Z }.

Record FeedRow := mkFeedRow {
  fr_id : ThreadMessageId;
  fr_thread_id : ThreadId;
  fr_seq : Z;
  fr_kind : MessageKind;
  fr_sender : option ColleagueId;
  fr_owner_agent_id : option AgentId;
  fr_receiver : option ColleagueId;
  fr_body : ChatMessage;
  fr_request_id : option PromptRequestId;
  fr_org_id : OrgId;
  fr_created_at : Z;
  fr_idempotency_key : option str }.

Record CompactionRow := mkCompactionRow {
  cr_org_id : OrgId;
  cr_summary : str;
  cr_covers_through_seq : Z;
  cr_summary_tokens : Z;
  cr_failed_attempts : Z;
  cr_cooldown_until : option Z;
  cr_version : Z }.

Record StateRow := mkStateRow {
  st_id : AgentThreadId; st_thread : ThreadId; st_agent : AgentId;
  st_org : OrgId; st_created_at : Z }.

Record CheckpointRow := mkCheckpoint { cp_last_message_id : ThreadMessageId; cp_created_at : Z }.

(** [names] is the display name the SQL joins resolve for a colleague. *)
Record store := mkStore {
  threads : gmap ThreadId ThreadRow;
  thread_seq : gmap ThreadId Z;
  thread_messages : list FeedRow;
  thread_compactions : gmap (ThreadId * AgentId) CompactionRow;
  tool_artifacts : gmap (OrgId * str) str;
  reflection_checkpoints : gmap (AgentId * ThreadId) CheckpointRow;
  agent_thread_states : list StateRow;
  org_members : list (UserId * OrgId);
  names : ColleagueId → option str }.

Definition set_feed (ts : gmap ThreadId ThreadRow) (sq : gmap ThreadId Z)
    (ms : list FeedRow) (s : store) : store :=
  mkStore ts sq ms (thread_compactions s) (tool_artifacts s) (reflection_checkpoints s)
    (agent_thread_states s) (org_members s) (names s).
Definition set_compactions (c : gmap (ThreadId * AgentId) CompactionRow) (s : store) : store :=
  mkStore (threads s) (thread_seq s) (thread_messages s) c (tool_artifacts s)
    (reflection_checkpoints s) (agent_thread_states s) (org_members s) (names s).
Definition set_artifacts (a : gmap (OrgId * str) str) (s : store) : store :=
  mkStore (threads s) (thread_seq s) (thread_messages s) (thread_compactions s) a
    (reflection_checkpoints s) (agent_thread_states s) (org_members s) (names s).
Definition set_checkpoints (c : gmap (AgentId * ThreadId) CheckpointRow) (s : store) : store :=
  mkStore (threads s) (thread_seq s) (thread_messages s) (thread_compactions s)
    (tool_artifacts s) c (agent_thread_states s) (org_members s) (names s).
Definition set_states (t : list StateRow) (s : store) : store :=
  mkStore (threads s) (thread_seq s) (thread_messages s) (thread_compactions s)
    (tool_artifacts s) (reflection_checkpoints s) t (org_members s) (names s).

Definition member (s : store) (u : UserId) (o : OrgId) : bool :=
  bool_decide ((u, o) ∈ org_members s).

(** Row-level security: a tenant sees the threads of its member orgs. *)
Definition visible_thread (s : store) (u : UserId) (t : ThreadId) : option ThreadRow :=
  match threads s !! t with
  | Some row => if member s u (th_org_id row) then Some row else None
  | None => None
  end.

(** [fk_ok] stands for the keys into the tables not modelled here. *)
Definition create_thread (fk_ok : bool) (caller : Caller) (channel_id : option N)
    (root_message_id : option ThreadMessageId) (created_by : ColleagueId)
    (dm_counterpart : option ColleagueId) (id : ThreadId) (now : Z) (s : store)
    : res ThreadError ThreadId * store :=
  if negb (bool_decide (channel_id = None) || bool_decide (dm_counterpart = None))
  then (Panic "invariant: a channel thread carries no DM counterpart", s)
  else if negb (bool_decide (is_Some channel_id) || bool_decide (is_Some dm_counterpart))
  then (Panic "invariant: a DM thread names its counterpart", s)
  else if negb (member s (user_id caller) (org_id caller))
  then (Err (ThreadDb "threads_org_isolation"), s)
  else match threads s !! id with
  | Some _ => (Err (ThreadDb "threads_pkey"), s)
  | None =>
      if negb fk_ok then (Err (ThreadDb "foreign key"), s)
      else (Ok id,
            set_feed (<[id := mkThreadRow (org_id caller) channel_id root_message_id
                                created_by dm_counterpart now now]> (threads s))
              (thread_seq s) (thread_messages s) s)
  end.

(** [INSERT ... SELECT FROM threads ... ON CONFLICT DO UPDATE SET id = id RETURNING id] *)
Definition resolve_participation (caller : Caller) (thread : ThreadId) (agent : AgentId)
    (new_id : AgentThreadId) (now : Z) (s : store) : res ThreadError AgentThreadId * store :=
  match visible_thread s (user_id caller) thread with
  | None => (Err (ThreadNotFound thread), s)
  | Some t =>
      match List.find (λ r, bool_decide (st_thread r = thread) && bool_decide (st_agent r = agent))
              (agent_thread_states s) with
      | Some r => (Ok (st_id r), s)
      | None =>
          if bool_decide (new_id ∈ (st_id <$> agent_thread_states s))
          then (Err (ThreadDb "agent_thread_state_pkey"), s)
          else (Ok new_id,
                set_states (agent_thread_states s
                            ++ [mkStateRow new_id thread agent (th_org_id t) now]) s)
      end
  end.

(** CHECKs [thread_messages_owner_kind] and [thread_messages_receiver_only_posted]. *)
Definition owner_kind_ok (m : NewMessage) : bool :=
  Bool.eqb (bool_decide (nm_kind m = KPosted)) (bool_decide (nm_owner_agent_id m = None))
  && (bool_decide (nm_receiver m = None) || bool_decide (nm_kind m = KPosted)).

Definition same_key (o : OrgId) (k : option str) (r : FeedRow) : bool :=
  match k with
  | Some _ => bool_decide (fr_org_id r = o) && bool_decide (fr_idempotency_key r = k)
  | None => false
  end.

(** [append]: the [WITH] statement bumps the thread's seq whether or not the row
    is inserted; the fallback read is a second transaction. *)
Definition append_insert (fk_ok : bool) (caller : Caller) (thread : ThreadId)
    (message : NewMessage) (id : ThreadMessageId) (now : Z) (s : store)
    : res ThreadError bool * store :=
  match visible_thread s (user_id caller) thread with
  | None => (Ok false, s)
  | Some t =>
      let next := (default 0 (thread_seq s !! thread) + 1)%Z in
      let idem := IdempotencyKey_as_str <$> nm_idempotency_key message in
      if (I64_MAX <? next)%Z then (Err (ThreadDb "bigint out of range"), s)
      else if negb (owner_kind_ok message) then (Err (ThreadDb "check constraint"), s)
      else if existsb (same_key (th_org_id t) idem) (thread_messages s)
      then (Ok false,
            set_feed (threads s) (<[thread := next]> (thread_seq s)) (thread_messages s) s)
      else if existsb (λ r, bool_decide (fr_id r = id)
                            || bool_decide (fr_thread_id r = thread)
                               && bool_decide (fr_seq r = next)) (thread_messages s)
      then (Err (ThreadDb "unique violation"), s)
      else if negb fk_ok then (Err (ThreadDb "foreign key"), s)
      else
        let row := mkFeedRow id thread next (nm_kind message) (nm_sender message)
                     (nm_owner_agent_id message) (nm_receiver message) (nm_body message)
                     (nm_request_id message) (th_org_id t) now idem in
        (Ok true,
         set_feed (<[thread := mkThreadRow (th_org_id t) (th_channel_id t)
                                 (th_root_message_id t) (th_created_by t)
                                 (th_dm_counterpart t) (th_created_at t) now]> (threads s))
           (<[thread := next]> (thread_seq s)) (thread_messages s ++ [row]) s)
  end.

Definition append (fk_ok : bool) (caller : Caller) (thread : ThreadId) (message : NewMessage)
    (id : ThreadMessageId) (now : Z) (s : store) : res ThreadError ThreadMessageId * store :=
  match append_insert fk_ok caller thread message id now s with
  | (Err e, s') => (Err e, s')
  | (Panic m, s') => (Panic m, s')
  | (Ok true, s') => (Ok id, s')
  | (Ok false, s') =>
      let idem := IdempotencyKey_as_str <$> nm_idempotency_key message in
      match List.find (λ r, same_key (org_id caller) idem r
                            && member s' (user_id caller) (fr_org_id r)) (thread_messages s') with
      | Some r => (Ok (fr_id r), s')
      | None => (Err (ThreadNotFound thread), s')
      end
  end.

(** [CONTEXT_SQL]: the newest [MAX_CONTEXT_MESSAGES] rows past [since] that are
    posted or [agent]'s own, oldest first. *)
Definition in_context (thread : ThreadId) (agent : AgentId) (since : Z) (r : FeedRow) : Prop :=
  fr_thread_id r = thread ∧ (fr_kind r = KPosted ∨ fr_owner_agent_id r = Some agent)
  ∧ (since < fr_seq r)%Z.
#[export] Instance in_context_dec t a s r : Decision (in_context t a s r).
Proof. unfold in_context. apply _. Defined.

Definition context_rows (thread : ThreadId) (agent : AgentId) (since : Seq) (s : store)
    : list FeedRow :=
  sort_by fr_seq
    (take MAX_CONTEXT_MESSAGES
       (sort_by (λ r, - fr_seq r)%Z
          (filter (in_context thread agent (Seq_get since)) (thread_messages s)))).

Fixpoint decode_rows (s : store) (viewer : ColleagueId)
    (overrides : ColleagueId → option str) (rows : list FeedRow)
    : res ThreadError (list (MessageKind * (Seq * ChatMessage))) :=
  match rows with
  | [] => Ok []
  | r :: rows' =>
      seq <-? res_map_err (λ _, ThreadBackend "decode feed seq") (Seq_try_from (fr_seq r)) ;
      let label := match fr_sender r ≫= overrides with
                   | Some n => Some n
                   | None => fr_sender r ≫= names s
                   end in
      let message := map_row_for_viewer (fr_kind r) (fr_sender r) label (fr_body r) viewer in
      rest <-? decode_rows s viewer overrides rows' ;
      Ok ((fr_kind r, (seq, cap_tool_results_in_place message seq)) :: rest)
  end.

Definition context_tail (thread : ThreadId) (agent : AgentId) (viewer : ColleagueId)
    (since : Seq) (overrides : ColleagueId → option str) (s : store)
    : res ThreadError ContextTail :=
  mapped <-? decode_rows s viewer overrides (context_rows thread agent since s) ;
  let rows := (λ r, mkTailRow r.1 r.2) <$>
                drop_orphan_tool_results (repair_tool_pairs mapped) in
  rassert (length rows <=? MAX_CONTEXT_MESSAGES)
    "context_tail exceeded the windowing floor" ;;?
  Ok (mkContextTail rows).

Definition load_compaction (thread : ThreadId) (agent : AgentId) (s : store)
    : res ThreadError (option ThreadCompaction) :=
  match thread_compactions s !! (thread, agent) with
  | None => Ok None
  | Some r =>
      covers <-? res_map_err (λ _, ThreadBackend "decode covers_through_seq")
                   (Seq_try_from (cr_covers_through_seq r)) ;
      Ok (Some (mkThreadCompaction (cr_summary r) covers (cr_summary_tokens r)
                  (cr_failed_attempts r) (cr_cooldown_until r)))
  end.

(** The CHECKs of [thread_compactions]. *)
Definition compaction_checks (r : CompactionRow) : bool :=
  (0 <=? cr_covers_through_seq r)%Z && (0 <=? cr_summary_tokens r)%Z
  && (0 <=? cr_failed_attempts r)%Z && (cr_failed_attempts r <=? I32_MAX)%Z
  && (cr_version r <=? I32_MAX)%Z.

Definition put_compaction (k : ThreadId * AgentId) (r : CompactionRow) (s : store)
    : res ThreadError unit * store :=
  if compaction_checks r
  then (Ok tt, set_compactions (<[k := r]> (thread_compactions s)) s)
  else (Err (ThreadDb "check constraint"), s).

Definition save_compaction (org : OrgId) (thread : ThreadId) (agent : AgentId)
    (summary : str) (covers_through_seq : Seq) (summary_tokens : Z) (s : store)
    : res ThreadError unit * store :=
  let covers := Seq_get covers_through_seq in
  put_compaction (thread, agent)
    (match thread_compactions s !! (thread, agent) with
     | None => mkCompactionRow org summary covers summary_tokens 0 None 1
     | Some old => mkCompactionRow (cr_org_id old) summary covers summary_tokens 0 None
                     (cr_version old + 1)
     end) s.

Definition bump_cooldown (org : OrgId) (thread : ThreadId) (agent : AgentId)
    (cooldown_until : Z) (s : store) : res ThreadError unit * store :=
  put_compaction (thread, agent)
    (match thread_compactions s !! (thread, agent) with
     | None => mkCompactionRow org [] 0 0 1 (Some cooldown_until) 1
     | Some old => mkCompactionRow (cr_org_id old) (cr_summary old)
                     (cr_covers_through_seq old) (cr_summary_tokens old)
                     (cr_failed_attempts old + 1) (Some cooldown_until) (cr_version old)
     end) s.

Definition save_tool_artifact (org : OrgId) (handle full_body : str) (s : store) : store :=
  match tool_artifacts s !! (org, handle) with
  | Some _ => s
  | None => set_artifacts (<[(org, handle) := full_body]> (tool_artifacts s)) s
  end.

Inductive ArtifactSelector :=
| Page (offset limit : Z)
| Grep (pattern : str) (max_matches : nat).

(** Postgres [substr(text, start, len)], 1-based, both bounds in range. *)
Definition substr (body : str) (start len : Z) : str :=
  take (Z.to_nat len) (drop (Z.to_nat (start - 1)) body).

Definition load_tool_artifact_slice `{DebugStr} (org : OrgId) (handle : str)
    (selector : ArtifactSelector) (s : store) : option str :=
  match selector with
  | Page offset limit =>
      let clamped := Z.min limit (Z.of_nat MAX_ARTIFACT_SLICE) in
      let start := Z.min I32_MAX (u64_saturating_add offset 1) in
      let len := Z.min I32_MAX clamped in
      (λ body, substr body start len) <$> tool_artifacts s !! (org, handle)
  | Grep pattern max_matches =>
      let scan := Z.min I32_MAX MAX_ARTIFACT_GREP_SCAN in
      (λ body, grep_slice (substr body 1 scan) pattern max_matches)
        <$> tool_artifacts s !! (org, handle)
  end.

(** On conflict only the message moves: the row keeps the time of its creation. *)
Definition advance_reflection_checkpoint (agent : AgentId) (thread : ThreadId)
    (up_to_message_id : ThreadMessageId) (now : Z) (s : store) : store :=
  let created := match reflection_checkpoints s !! (agent, thread) with Some c => cp_created_at c | None => now end in
  set_checkpoints (<[(agent, thread) := mkCheckpoint up_to_message_id created]> (reflection_checkpoints s)) s.

(** [ORDER BY created_at DESC LIMIT 1] *)
Definition last_agent (thread : ThreadId) (s : store) : option AgentId :=
  st_agent <$> min_by (λ r, - st_created_at r)%Z
    (filter (λ r, st_thread r = thread) (agent_thread_states s)).
