(* ===== verification/ThreadLaws.v ===== *)
(** * What the thread feed promises

    Theorems about [Threads]: the tool-pair repair against its abstract
    specification, the windowed context read, sequence numbers and idempotent
    appends, the render cap, the compaction row and artifact paging. *)

From Stdlib Require Import ZArith Lia Ascii String.
From stdpp Require Import base gmap list strings sets.
From S2P Require Import Prelude Types Threads.

(** ** Tool pairs *)

Section repair.
Context {A : Type}.
Implicit Types (rows mid : list (MessageKind * A)) (out : list A).

(** What the repair means: rows outside a tool pair keep their place, what
    interleaved an open pair follows it, an unclosed call keeps what came after. *)
Inductive repaired : list (MessageKind * A) → list A → Prop :=
| repaired_nil : repaired [] []
| repaired_plain k a rows out :
    k ≠ KToolUse → repaired rows out → repaired ((k, a) :: rows) (a :: out)
| repaired_pair use mid result rows out :
    Forall (λ r, r.1 ≠ KToolResult) mid → repaired rows out →
    repaired ((KToolUse, use) :: mid ++ (KToolResult, result) :: rows)
             (use :: result :: mid.*2 ++ out)
| repaired_open use mid :
    Forall (λ r, r.1 ≠ KToolResult) mid →
    repaired ((KToolUse, use) :: mid) (use :: mid.*2).

Lemma repair_go_out rows out pre deferred w :
  repair_go rows (pre ++ out) deferred w = pre ++ repair_go rows out deferred w.
Proof.
  revert out deferred w. induction rows as [|[k a] rows IH]; intros out deferred w.
  { simpl. by rewrite (assoc_L (++)). }
  simpl. destruct w; [case_bool_decide|]; try rewrite <-(assoc_L (++) pre); try rewrite <-(assoc_L (++) pre); apply IH.
Qed.

Lemma repair_go_acc rows out : repair_go rows out [] false = out ++ repair_tool_pairs rows.
Proof. unfold repair_tool_pairs. by rewrite <-(repair_go_out rows [] out), app_nil_r. Qed.

Lemma repair_go_open rows out deferred mid :
  Forall (λ r, r.1 ≠ KToolResult) mid →
  repair_go (mid ++ rows) out deferred true = repair_go rows out (deferred ++ mid.*2) true.
Proof.
  revert deferred. induction mid as [|[k a] mid IH]; intros deferred Hm.
  { by rewrite app_nil_r. }
  apply Forall_cons in Hm as [Hk Hm]. simpl in *. rewrite bool_decide_eq_false_2 by done.
  rewrite IH by done. by rewrite <-(assoc_L (++)).
Qed.

Lemma repair_plain k a rows :
  k ≠ KToolUse → repair_tool_pairs ((k, a) :: rows) = a :: repair_tool_pairs rows.
Proof.
  intros Hk. unfold repair_tool_pairs at 1. simpl. rewrite bool_decide_eq_false_2 by done.
  by rewrite repair_go_acc.
Qed.

Lemma repair_pair use mid result rows :
  Forall (λ r, r.1 ≠ KToolResult) mid →
  repair_tool_pairs ((KToolUse, use) :: mid ++ (KToolResult, result) :: rows)
  = use :: result :: mid.*2 ++ repair_tool_pairs rows.
Proof.
  intros Hm. unfold repair_tool_pairs at 1. cbn [repair_go app].
  rewrite (bool_decide_eq_true_2 (KToolUse = KToolUse)) by done.
  rewrite repair_go_open by done. cbn [repair_go app].
  rewrite (bool_decide_eq_true_2 (KToolResult = KToolResult)) by done.
  by rewrite repair_go_acc.
Qed.

Lemma repair_open use mid :
  Forall (λ r, r.1 ≠ KToolResult) mid →
  repair_tool_pairs ((KToolUse, use) :: mid) = use :: mid.*2.
Proof.
  intros Hm. unfold repair_tool_pairs. cbn [repair_go app].
  rewrite (bool_decide_eq_true_2 (KToolUse = KToolUse)) by done.
  rewrite <-(app_nil_r mid), repair_go_open by done. simpl. by rewrite app_nil_r.
Qed.

Lemma split_at_result rows :
  Forall (λ r, r.1 ≠ KToolResult) rows ∨
  ∃ mid a rest, rows = mid ++ (KToolResult, a) :: rest ∧ Forall (λ r, r.1 ≠ KToolResult) mid.
Proof.
  induction rows as [|[k a] rows IH]; [by left; constructor|].
  destruct (decide (k = KToolResult)) as [->|Hk].
  { right. exists [], a, rows. auto. }
  destruct IH as [IH|(mid & b & rest & -> & Hm)]; [left; by constructor|right].
  exists ((k, a) :: mid), b, rest. split; [done|by constructor].
Qed.

Lemma repaired_total rows : repaired rows (repair_tool_pairs rows).
Proof.
  induction rows as [rows IH] using (induction_ltof1 _ (@length _)). unfold ltof in IH.
  destruct rows as [|[k a] rows]; [constructor|].
  destruct (decide (k = KToolUse)) as [->|Hk].
  2: { rewrite repair_plain by done. constructor; [done|]. apply IH. simpl. lia. }
  destruct (split_at_result rows) as [Hm|(mid & b & rest & -> & Hm)].
  - rewrite repair_open by done. by constructor.
  - rewrite repair_pair by done. constructor; [done|]. apply IH. simpl.
    rewrite length_app. simpl. lia.
Qed.

Lemma repaired_eq rows out : repaired rows out → repair_tool_pairs rows = out.
Proof.
  induction 1 as [|k a rows out Hk _ <-|use mid r rows out Hm _ <-|use mid Hm]; [done|..].
  - by apply repair_plain.
  - by apply repair_pair.
  - by apply repair_open.
Qed.

Lemma repaired_perm rows out : repaired rows out → out ≡ₚ rows.*2.
Proof.
  induction 1 as [|k a rows out _ _ IH|use mid r rows out _ _ IH|use mid _]; csimpl; [done|..|done].
  - by rewrite IH.
  - rewrite fmap_app, IH. csimpl. constructor. by rewrite Permutation_middle.
Qed.

Lemma repair_perm rows : repair_tool_pairs rows ≡ₚ rows.*2.
Proof. apply repaired_perm, repaired_total. Qed.

(** The repair pass computes exactly the abstract pairing: rows outside an open
    tool call keep their place, a closed call is followed at once by its result
    and then by the rows that interleaved the two, an unclosed call by the rest
    of the window; no row is dropped, duplicated or invented. *)
Theorem repair_tool_pairs_refines rows :
  (∀ out, repaired rows out ↔ repair_tool_pairs rows = out) ∧
  repair_tool_pairs rows ≡ₚ rows.*2.
Proof.
  split; [|apply repair_perm]. intros out. split; [apply repaired_eq|].
  intros <-. apply repaired_total.
Qed.
End repair.

(** ** Orphaned results *)

Definition calls_of (ms : list ChatMessage) : list ToolCallId := mjoin (message_calls <$> ms).

#[export] Instance calls_of_perm : Proper ((≡ₚ) ==> (≡ₚ)) calls_of.
Proof. intros ms ms' H. unfold calls_of. by rewrite H. Qed.

Lemma answered_in_ext ids ids' m :
  (∀ i, i ∈ ids ↔ i ∈ ids') → answered_in ids m = answered_in ids' m.
Proof.
  intros H. unfold answered_in. destruct (leading_result m) as [i|]; [|done].
  by apply bool_decide_ext.
Qed.

Lemma answered_calls ids m : message_calls m ≠ [] → answered_in ids m = true.
Proof. by destruct m. Qed.

Lemma drop_orphans_perm {S} (rows rows' : list (S * ChatMessage)) :
  rows ≡ₚ rows' → drop_orphan_tool_results rows ≡ₚ drop_orphan_tool_results rows'.
Proof.
  intros H. unfold drop_orphan_tool_results. rewrite H.
  erewrite filter_ext_in; [done|]. intros r _. cbn beta.
  rewrite (answered_in_ext _ (mjoin (message_calls <$> rows'.*2))); [done|].
  intros i. by rewrite H.
Qed.

(** A filter that keeps every row that issues calls keeps every call. *)
Lemma calls_of_filter ids (ms : list ChatMessage) i :
  i ∈ calls_of (filter (λ m, answered_in ids m = true) ms) ↔ i ∈ calls_of ms.
Proof.
  unfold calls_of. rewrite !list_elem_of_join. split; intros (l & Hi & Hl);
    exists l; (split; [done|]); apply list_elem_of_fmap in Hl as (m & -> & Hm);
    apply list_elem_of_fmap_2; apply list_elem_of_filter in Hm || apply list_elem_of_filter.
  - tauto.
  - split; [|done]. apply answered_calls. intros Hn. rewrite Hn in Hi. set_solver.
Qed.

(** ** The windowed read *)

Definition label_of (s : store) (overrides : ColleagueId → option str) (r : FeedRow) : option str :=
  match fr_sender r ≫= overrides with
  | Some n => Some n
  | None => fr_sender r ≫= names s
  end.

(** What the agent sees of a feed row. *)
Definition render (s : store) (viewer : ColleagueId) (overrides : ColleagueId → option str)
    (r : FeedRow) : ChatMessage :=
  cap_tool_results_in_place
    (map_row_for_viewer (fr_kind r) (fr_sender r) (label_of s overrides r) (fr_body r) viewer)
    (mkSeq (fr_seq r)).

Lemma decode_rows_Ok s viewer overrides rows :
  Forall (λ r, (0 ≤ fr_seq r)%Z) rows →
  decode_rows s viewer overrides rows
  = Ok ((λ r, (fr_kind r, (mkSeq (fr_seq r), render s viewer overrides r))) <$> rows).
Proof.
  induction 1 as [|r rows Hr _ IH]; [done|]. cbn [decode_rows]. unfold Seq_try_from.
  rewrite (proj2 (Z.ltb_ge _ _) Hr). cbn [res_map_err res_bind]. by rewrite IH.
Qed.

Lemma context_rows_spec thread agent since s :
  length (context_rows thread agent since s) ≤ MAX_CONTEXT_MESSAGES ∧
  (∀ r, r ∈ context_rows thread agent since s →
     r ∈ thread_messages s ∧ in_context thread agent (Seq_get since) r) ∧
  (∀ r r', r ∈ thread_messages s → in_context thread agent (Seq_get since) r →
     r ∉ context_rows thread agent since s → r' ∈ context_rows thread agent since s →
     (fr_seq r ≤ fr_seq r')%Z).
Proof.
  unfold context_rows. split_and!.
  - rewrite sort_by_perm, length_take. lia.
  - intros r. rewrite elem_of_sort_by. intros Hr%elem_of_take.
    destruct Hr as (i & Hr & _). apply list_elem_of_lookup_2 in Hr.
    rewrite elem_of_sort_by, list_elem_of_filter in Hr. tauto.
  - intros r r' Hr Hc. rewrite !elem_of_sort_by. intros Hn Hr'.
    apply Z.opp_le_mono. eapply (sorted_take_le (λ r, - fr_seq r)%Z);
      [apply sort_by_sorted|exact Hr'| |exact Hn].
    rewrite elem_of_sort_by, list_elem_of_filter. done.
Qed.

(** The rows of the window whose leading result, if any, answers a call of the
    window. *)
Definition kept_rows (s : store) (viewer : ColleagueId)
    (overrides : ColleagueId → option str) (window : list FeedRow) : list FeedRow :=
  filter (λ r, answered_in (calls_of (render s viewer overrides <$> window))
                 (render s viewer overrides r) = true) window.

Lemma fmap_filter {A B} (f : A → B) (P : B → Prop) `{∀ b, Decision (P b)} (l : list A) :
  filter P (f <$> l) = f <$> filter (λ a, P (f a)) l.
Proof.
  induction l as [|a l IH]; [done|]. rewrite fmap_cons, !filter_cons, IH.
  by case_decide.
Qed.

Lemma context_tail_perm thread agent viewer since overrides s :
  Forall (λ r, (0 ≤ fr_seq r)%Z) (thread_messages s) →
  ∃ tail, context_tail thread agent viewer since overrides s = Ok (mkContextTail tail) ∧
    tail ≡ₚ (λ r, mkTailRow (mkSeq (fr_seq r)) (render s viewer overrides r)) <$>
              kept_rows s viewer overrides (context_rows thread agent since s).
Proof.
  intros Hpos. destruct (context_rows_spec thread agent since s) as (Hlen & Hin & _).
  unfold context_tail. rewrite decode_rows_Ok.
  2: { rewrite Forall_forall in Hpos |- *. intros r Hr. apply Hpos, Hin, Hr. }
  cbn [res_bind]. set (window := context_rows thread agent since s) in *.
  set (g := λ r, (mkSeq (fr_seq r), render s viewer overrides r)).
  assert (drop_orphan_tool_results
            (repair_tool_pairs
               ((λ r, (fr_kind r, (mkSeq (fr_seq r), render s viewer overrides r))) <$> window))
          ≡ₚ g <$> kept_rows s viewer overrides window) as Hp.
  { rewrite (drop_orphans_perm _ (g <$> window)).
    2: { rewrite repair_perm, <-list_fmap_compose. done. }
    unfold drop_orphan_tool_results, kept_rows. rewrite fmap_filter. cbn [snd g].
    unfold calls_of. rewrite <-!list_fmap_compose. reflexivity. }
  unfold rassert. rewrite (proj2 (Nat.leb_le _ _)).
  2: { rewrite length_fmap, Hp, length_fmap. unfold kept_rows.
       etrans; [apply length_filter|done]. }
  cbn [res_bind]. eexists. split; [done|]. by rewrite Hp, <-list_fmap_compose.
Qed.

(** A context read over a feed with non-negative sequence numbers always
    succeeds (the windowing-floor assertion never fires), returns at most
    [MAX_CONTEXT_MESSAGES] rows, all newer than the watermark and either posted
    or the agent's own; they are the newest such rows, less the results whose
    call is not in the window, and every leading tool result that is returned
    answers a tool call that is returned too. *)
Theorem context_tail_sound thread agent viewer since overrides s :
  Forall (λ r, (0 ≤ fr_seq r)%Z) (thread_messages s) →
  ∃ tail kept,
    context_tail thread agent viewer since overrides s = Ok (mkContextTail tail) ∧
    tail ≡ₚ (λ r, mkTailRow (mkSeq (fr_seq r)) (render s viewer overrides r)) <$> kept ∧
    length tail ≤ MAX_CONTEXT_MESSAGES ∧
    (∀ r, r ∈ kept → r ∈ thread_messages s ∧ in_context thread agent (Seq_get since) r) ∧
    (∀ t id, t ∈ tail → leading_result (tail_message t) = Some id →
       id ∈ calls_of (tail_message <$> tail)) ∧
    (∀ r r', r ∈ thread_messages s → in_context thread agent (Seq_get since) r → r ∉ kept →
       r' ∈ kept →
       (fr_seq r ≤ fr_seq r')%Z ∨
       ∃ id, leading_result (render s viewer overrides r) = Some id ∧
             id ∉ calls_of (tail_message <$> tail)).
Proof.
  intros Hpos. destruct (context_tail_perm thread agent viewer since overrides s Hpos)
    as (tail & Ht & Hp).
  destruct (context_rows_spec thread agent since s) as (Hlen & Hin & Hnew).
  set (window := context_rows thread agent since s) in *.
  set (kept := kept_rows s viewer overrides window) in *.
  assert (∀ r, r ∈ kept ↔ answered_in (calls_of (render s viewer overrides <$> window))
            (render s viewer overrides r) = true ∧ r ∈ window) as Hk
    by (intros r; unfold kept, kept_rows; by rewrite list_elem_of_filter).
  assert (∀ i, i ∈ calls_of (tail_message <$> tail)
               ↔ i ∈ calls_of (render s viewer overrides <$> window)) as Hcalls.
  { intros i. rewrite Hp, <-list_fmap_compose.
    rewrite <-(calls_of_filter (calls_of (render s viewer overrides <$> window))
                 (render s viewer overrides <$> window) i).
    rewrite fmap_filter. reflexivity. }
  exists tail, kept. split_and!; [done|done|..].
  - rewrite Hp, length_fmap. unfold kept, kept_rows. etrans; [apply length_filter|done].
  - intros r Hr. apply Hk in Hr as [_ Hr]. by apply Hin.
  - intros t id Hmem Hl. rewrite Hp in Hmem. apply list_elem_of_fmap in Hmem as (r & -> & Hr).
    apply Hk in Hr as [Hr _]. cbn in Hl. apply Hcalls. unfold answered_in in Hr.
    rewrite Hl in Hr. by bools.
  - intros r r' Hr Hc Hn Hr'.
    destruct (answered_in (calls_of (render s viewer overrides <$> window))
                (render s viewer overrides r)) eqn:Ha.
    { left. apply (Hnew r r'); [done|done| |by apply Hk in Hr' as [_ ?]].
      intros Hw. destruct Hn. by apply Hk. }
    right. unfold answered_in in Ha. destruct (leading_result _) as [id|]; [|done].
    exists id. split; [done|]. rewrite Hcalls. by bools.
Qed.

(** ** Sequence numbers and idempotent appends *)

(** The key a row holds in the partial unique index on [(org_id, idempotency_key)]. *)
Definition keyed (r : FeedRow) : option (OrgId * str) :=
  k ← fr_idempotency_key r; Some (fr_org_id r, k).

Record feed_ok (s : store) : Prop := {
  feed_seq : ∀ r, r ∈ thread_messages s →
    ∃ n, thread_seq s !! fr_thread_id r = Some n ∧ (1 ≤ fr_seq r ≤ n)%Z;
  feed_counter : ∀ t n, thread_seq s !! t = Some n → (0 ≤ n ≤ I64_MAX)%Z;
  feed_slots : NoDup ((λ r, (fr_thread_id r, fr_seq r)) <$> thread_messages s);
  feed_ids : NoDup (fr_id <$> thread_messages s);
  feed_keys : NoDup (omap keyed (thread_messages s)) }.

Lemma same_key_keyed o k r : same_key o k r = true ↔ ∃ k', k = Some k' ∧ keyed r = Some (o, k').
Proof.
  unfold same_key, keyed. destruct k as [k|].
  - rewrite andb_true_iff, !bool_decide_eq_true. split.
    + intros [<- ->]. eauto.
    + intros (? & [= <-] & H). destruct (fr_idempotency_key r); simplify_eq/=. done.
  - split; [done|]. intros (? & ? & _). done.
Qed.

Lemma existsb_false_elem {A} (p : A → bool) l x :
  existsb p l = false → x ∈ l → p x = false.
Proof.
  induction l as [|y l IH]; [by intros _ ?%elem_of_nil|]. simpl. intros [Hy Hl]%orb_false_iff.
  intros [->|?]%elem_of_cons; auto.
Qed.

Lemma omap_snoc {A B} (f : A → option B) l x :
  omap f (l ++ [x]) = omap f l ++ match f x with Some y => [y] | None => [] end.
Proof. rewrite omap_app. cbn. by destruct (f x). Qed.

Definition next_seq (s : store) (thread : ThreadId) : Z :=
  (default 0 (thread_seq s !! thread) + 1)%Z.

Lemma next_seq_lt s thread r :
  feed_ok s → r ∈ thread_messages s → fr_thread_id r = thread → (fr_seq r < next_seq s thread)%Z.
Proof.
  intros Hok Hr <-. destruct (feed_seq s Hok r Hr) as (n & Hn & ?). unfold next_seq.
  rewrite Hn. simpl. lia.
Qed.

Lemma next_seq_pos s thread : feed_ok s → (1 ≤ next_seq s thread)%Z.
Proof.
  intros Hok. unfold next_seq. destruct (thread_seq s !! thread) eqn:E; simpl; [|done].
  apply (feed_counter s Hok) in E. lia.
Qed.

(** Bumping the counter, with or without the row that takes the number. *)
Lemma feed_ok_bump s ts thread :
  feed_ok s → (next_seq s thread ≤ I64_MAX)%Z →
  feed_ok (set_feed ts (<[thread := next_seq s thread]> (thread_seq s)) (thread_messages s) s).
Proof.
  intros Hok Hmax. pose proof (next_seq_pos s thread Hok). constructor; cbn; try apply Hok.
  - intros r Hr. destruct (feed_seq s Hok r Hr) as (n & Hn & ?).
    destruct (decide (fr_thread_id r = thread)) as [<-|].
    + rewrite lookup_insert_eq. eexists. split; [done|].
      pose proof (next_seq_lt s _ r Hok Hr eq_refl). lia.
    + rewrite lookup_insert_ne by done. eauto.
  - intros u m. rewrite lookup_insert_Some. intros [[<- <-]|[_ Hm]]; [lia|].
    by apply (feed_counter s Hok) in Hm.
Qed.

Lemma feed_ok_snoc s ts row :
  feed_ok s → fr_seq row = next_seq s (fr_thread_id row) →
  (next_seq s (fr_thread_id row) ≤ I64_MAX)%Z → fr_id row ∉ (fr_id <$> thread_messages s) →
  (∀ k, keyed row = Some k → k ∉ omap keyed (thread_messages s)) →
  feed_ok (set_feed ts (<[fr_thread_id row := next_seq s (fr_thread_id row)]> (thread_seq s))
             (thread_messages s ++ [row]) s).
Proof.
  intros Hok Hs Hmax Hid Hk. pose proof (next_seq_pos s (fr_thread_id row) Hok).
  destruct (feed_ok_bump s ts _ Hok Hmax) as [Hb1 Hb2 _ _ _]. constructor; cbn in *.
  - intros r [Hr|Hr]%elem_of_app; [by apply Hb1|].
    apply list_elem_of_singleton in Hr as ->. rewrite lookup_insert_eq. eexists.
    split; [done|]. lia.
  - exact Hb2.
  - rewrite fmap_app. apply NoDup_snoc; [apply Hok|]. intros (r & Hr & Hin)%list_elem_of_fmap.
    pose proof (next_seq_lt s (fr_thread_id row) r Hok Hin). simplify_eq. lia.
  - rewrite fmap_app. apply NoDup_snoc; [apply Hok|done].
  - rewrite omap_snoc. destruct (keyed row) as [k|] eqn:E.
    + apply NoDup_snoc; [apply Hok|by apply Hk].
    + rewrite app_nil_r. apply Hok.
Qed.

(** What the insert statement of [append] does. *)
Definition inserted (s s' : store) (caller : Caller) (thread : ThreadId) (message : NewMessage)
    (id : ThreadMessageId) (row : FeedRow) : Prop :=
  thread_messages s' = thread_messages s ++ [row] ∧ fr_id row = id
  ∧ fr_thread_id row = thread ∧ fr_body row = nm_body message
  ∧ fr_idempotency_key row = IdempotencyKey_as_str <$> nm_idempotency_key message
  ∧ th_org_id <$> visible_thread s (user_id caller) thread = Some (fr_org_id row)
  ∧ ∀ old, old ∈ thread_messages s → fr_thread_id old = thread → (fr_seq old < fr_seq row)%Z.

Lemma append_insert_inv fk_ok caller thread message id now s r s' :
  feed_ok s → append_insert fk_ok caller thread message id now s = (r, s') →
  feed_ok s' ∧ org_members s' = org_members s ∧
  match r with
  | Ok true => ∃ row, inserted s s' caller thread message id row
  | Panic _ => False
  | _ => thread_messages s' = thread_messages s
  end.
Proof.
  intros Hok. unfold append_insert.
  destruct (visible_thread s (user_id caller) thread) as [t|] eqn:Hv; [|by intros [= <- <-]].
  fold (next_seq s thread). cbn zeta.
  destruct (I64_MAX <? next_seq s thread)%Z eqn:Hmax; [by intros [= <- <-]|].
  destruct (negb (owner_kind_ok message)); [by intros [= <- <-]|].
  destruct (existsb (same_key _ _) _) eqn:Hkey; bools.
  { intros [= <- <-]. split; [by apply feed_ok_bump|done]. }
  destruct (existsb _ (thread_messages s)) eqn:Huniq in |- *; [by intros [= <- <-]|].
  destruct (negb fk_ok); [by intros [= <- <-]|]. intros [= <- <-].
  split; [|split; [done|]].
  - set (row := mkFeedRow _ _ _ _ _ _ _ _ _ _ _ _).
    apply (feed_ok_snoc s _ row Hok); [done|done|..].
    + intros (x & Hx & Hin)%list_elem_of_fmap.
      apply (existsb_false_elem _ _ x) in Huniq; [|done]. cbn in *. bools. done.
    + intros [o k] Hk (x & Hin & Hx)%list_elem_of_omap.
      apply (existsb_false_elem _ _ x) in Hkey; [|done].
      apply not_true_iff_false in Hkey. apply Hkey, same_key_keyed.
      unfold keyed in Hk. cbn in Hk. destruct (IdempotencyKey_as_str <$> _); simplify_eq/=. eauto.
  - eexists. unfold inserted. cbn. rewrite Hv. split_and!; try done.
    intros old Hold Hth. by apply next_seq_lt.
Qed.

Lemma append_insert_visible fk_ok caller thread message id now s r s' u t :
  append_insert fk_ok caller thread message id now s = (r, s') →
  th_org_id <$> visible_thread s' u t = th_org_id <$> visible_thread s u t.
Proof.
  unfold append_insert. destruct (visible_thread s (user_id caller) thread) as [row|] eqn:Hv;
    [|by intros [= <- <-]].
  cbn zeta. repeat (case_match; [by intros [= <- <-]|]). intros [= <- <-].
  unfold visible_thread in *. cbn. destruct (decide (t = thread)) as [->|Hne].
  - rewrite lookup_insert_eq. destruct (threads s !! thread) as [old|]; [|done].
    destruct (member s (user_id caller) (th_org_id old)); simplify_eq. cbn.
    unfold member. cbn. by case_match.
  - by rewrite lookup_insert_ne.
Qed.

Lemma NoDup_omap_eq {A B} (f : A → option B) (l : list A) x y b :
  NoDup (omap f l) → x ∈ l → y ∈ l → f x = Some b → f y = Some b → x = y.
Proof.
  induction l as [|z l IH]; [by intros _ ?%elem_of_nil|]. cbn.
  assert (∀ w, w ∈ l → f w = Some b → b ∈ omap f l) as Hw
    by (intros w ? ?; apply list_elem_of_omap; eauto).
  rewrite !elem_of_cons. destruct (f z) as [c|] eqn:Hz.
  - rewrite NoDup_cons. intros [Hc Hl] [->|Hx] [->|Hy] Hfx Hfy; simplify_eq; try done.
    + destruct Hc. by apply (Hw y).
    + destruct Hc. by apply (Hw x).
    + by apply IH.
  - intros Hl [->|Hx] [->|Hy] Hfx Hfy; simplify_eq. by apply IH.
Qed.

Lemma List_find_Some {A} (p : A → bool) l x :
  List.find p l = Some x → x ∈ l ∧ p x = true.
Proof. intros H. apply find_some in H as [? ?]. split; [by apply list_elem_of_In|done]. Qed.

Lemma List_find_ex {A} (p : A → bool) l x :
  x ∈ l → p x = true → ∃ y, List.find p l = Some y.
Proof.
  intros Hx Hp. destruct (List.find p l) as [y|] eqn:E; [eauto|].
  apply list_elem_of_In in Hx. by rewrite (find_none _ _ E x Hx) in Hp.
Qed.

Definition message_key (m : NewMessage) : option str :=
  IdempotencyKey_as_str <$> nm_idempotency_key m.

(** [append] never panics and keeps the feed well formed (numbers unique per
    thread and bounded by the thread's counter, ids and idempotency keys
    unique): on success it either adds exactly the message, numbered above every
    earlier row of its thread, or returns a row already stored under the key; an
    error adds no row. *)
Theorem append_keeps_feed fk_ok caller thread message id now s r s' :
  feed_ok s → append fk_ok caller thread message id now s = (r, s') →
  feed_ok s' ∧
  match r with
  | Ok mid =>
      (mid = id ∧ ∃ row, inserted s s' caller thread message id row) ∨
      (thread_messages s' = thread_messages s ∧
       ∃ row, row ∈ thread_messages s ∧ fr_id row = mid ∧
              same_key (org_id caller) (message_key message) row = true)
  | Err _ => thread_messages s' = thread_messages s
  | Panic _ => False
  end.
Proof.
  intros Hok. unfold append.
  destruct (append_insert _ _ _ _ _ _ s) as [r0 s0] eqn:E.
  destruct (append_insert_inv _ _ _ _ _ _ _ _ _ Hok E) as (Hok' & _ & Hr).
  destruct r0 as [[|]| |]; try done.
  - intros [= <- <-]. eauto.
  - destruct (List.find _ _) as [row|] eqn:F; intros [= <- <-]; (split; [done|]); [|done].
    apply List_find_Some in F as [Hin Hk]. bools. rewrite Hr in Hin. right. eauto.
  - intros [= <- <-]. done.
Qed.

Lemma append_state fk_ok caller thread message id now s :
  (append fk_ok caller thread message id now s).2
  = (append_insert fk_ok caller thread message id now s).2.
Proof.
  unfold append. destruct (append_insert _ _ _ _ _ _ s) as [[[|]| |] s0]; try done.
  by case_match.
Qed.

Lemma append_Ok_owner fk_ok caller thread message id now s mid s' :
  is_Some (visible_thread s (user_id caller) thread) →
  append fk_ok caller thread message id now s = (Ok mid, s') → owner_kind_ok message = true.
Proof.
  intros [t Hv]. unfold append, append_insert. rewrite Hv. cbn zeta.
  destruct (_ <? _)%Z; [done|]. by destruct (owner_kind_ok message).
Qed.

Lemma visible_member s u thread o :
  th_org_id <$> visible_thread s u thread = Some o → member s u o = true.
Proof.
  unfold visible_thread. destruct (threads s !! thread) as [t|]; [|done].
  destruct (member s u (th_org_id t)) eqn:E; [|done]. by intros [= <-].
Qed.

(** The fallback read finds the one row that holds the key. *)
Lemma find_taken s caller message row :
  feed_ok s → member s (user_id caller) (org_id caller) = true → row ∈ thread_messages s →
  same_key (org_id caller) (message_key message) row = true →
  List.find (λ r, same_key (org_id caller) (message_key message) r
                  && member s (user_id caller) (fr_org_id r)) (thread_messages s) = Some row.
Proof.
  intros Hok Hm Hin Hk.
  destruct (List_find_ex (λ r, same_key (org_id caller) (message_key message) r
                               && member s (user_id caller) (fr_org_id r))
              (thread_messages s) row Hin) as [y Hy].
  { rewrite Hk. apply same_key_keyed in Hk as (k & _ & Hk). unfold keyed in Hk.
    destruct (fr_idempotency_key row); simplify_eq/=. congruence. }
  rewrite Hy. apply List_find_Some in Hy as [Hyin Hyk]. bools.
  apply same_key_keyed in Hk as (k & Hk & Hrow).
  match goal with H : same_key _ _ y = true |- _ => apply same_key_keyed in H as (k' & Hk' & Hy') end.
  assert (k' = k) as -> by congruence. f_equal.
  exact (NoDup_omap_eq keyed (thread_messages s) y row _ (feed_keys s Hok) Hyin Hin Hy' Hrow).
Qed.

(** An append whose key is taken by [row] adds nothing and returns [row]. *)
Lemma append_taken fk_ok caller thread message id now s row :
  feed_ok s → owner_kind_ok message = true → (next_seq s thread ≤ I64_MAX)%Z →
  th_org_id <$> visible_thread s (user_id caller) thread = Some (org_id caller) →
  row ∈ thread_messages s → same_key (org_id caller) (message_key message) row = true →
  ∃ s', append fk_ok caller thread message id now s = (Ok (fr_id row), s') ∧
        thread_messages s' = thread_messages s.
Proof.
  intros Hok Ho Hmax Hv Hin Hk. pose proof (visible_member _ _ _ _ Hv) as Hm.
  destruct (visible_thread s (user_id caller) thread) as [t|] eqn:Et; [|done].
  injection Hv as Ht. unfold append, append_insert. rewrite Et. fold (next_seq s thread).
  fold (message_key message). cbn zeta.
  rewrite (proj2 (Z.ltb_ge _ _) Hmax), Ho, Ht. cbn [negb].
  assert (existsb (same_key (org_id caller) (message_key message)) (thread_messages s) = true)
    as -> by (apply existsb_exists; exists row; by rewrite <-list_elem_of_In).
  cbn [thread_messages set_feed].
  change (List.find _ _)
    with (List.find (λ r, same_key (org_id caller) (message_key message) r
                          && member s (user_id caller) (fr_org_id r)) (thread_messages s)).
  rewrite (find_taken s caller message row) by done. by eexists.
Qed.

(** Retrying an append under its idempotency key, whatever new id and clock the
    retry carries, returns the message the first attempt returned and adds no
    row. *)
Theorem append_idempotent fk_ok fk_ok' caller thread message id id' now now' s mid s' :
  feed_ok s → is_Some (nm_idempotency_key message) →
  th_org_id <$> visible_thread s (user_id caller) thread = Some (org_id caller) →
  (next_seq s' thread ≤ I64_MAX)%Z →
  append fk_ok caller thread message id now s = (Ok mid, s') →
  ∃ s'', append fk_ok' caller thread message id' now' s' = (Ok mid, s'') ∧
         thread_messages s'' = thread_messages s'.
Proof.
  intros Hok [k Hk] Hv Hmax H.
  destruct (append_keeps_feed _ _ _ _ _ _ _ _ _ Hok H) as [Hok' Hr].
  assert (th_org_id <$> visible_thread s' (user_id caller) thread = Some (org_id caller)) as Hv'.
  { pose proof (append_state fk_ok caller thread message id now s) as Hs. rewrite H in Hs.
    cbn in Hs. subst s'. erewrite append_insert_visible; [done|]. apply surjective_pairing. }
  assert (∃ row, row ∈ thread_messages s' ∧ fr_id row = mid ∧
            same_key (org_id caller) (message_key message) row = true) as (row & Hin & <- & Hkey).
  { destruct Hr as [(-> & row & Hm & Hid & _ & _ & Hkey & Horg & _)|(-> & Hr)]; [|done].
    exists row. rewrite Hm. split_and!; [set_solver|done|]. apply same_key_keyed.
    rewrite Hv in Horg. injection Horg as Horg. unfold message_key, keyed.
    rewrite Hkey, Hk, <-Horg. cbn. eauto. }
  apply append_taken; try done. eapply append_Ok_owner; [|done].
  destruct (visible_thread s (user_id caller) thread); [eauto|done].
Qed.

(** ** Perspective *)

(** The text blocks of a message, in order. *)
Definition texts (m : ChatMessage) : list str :=
  match m with
  | User bs => omap (λ b, match b with UText t => Some t | _ => None end) bs
  | Assistant bs => omap (λ b, match b with AText t => Some t | _ => None end) bs
  end.

Definition speaker_prefix (label : option str) : list str :=
  match label with Some (c :: l) => [(c :: l) ++ lit ": "] | _ => [] end.

Lemma texts_user_to_assistant bs :
  texts (Assistant (user_to_assistant_blocks bs)) = texts (User bs).
Proof.
  unfold user_to_assistant_blocks. induction bs as [|b bs IH]; [done|].
  cbn in *. destruct b; cbn; by rewrite ?IH.
Qed.

Lemma texts_assistant_to_user bs :
  texts (User (assistant_to_user_blocks bs)) = texts (Assistant bs).
Proof.
  unfold assistant_to_user_blocks. induction bs as [|b bs IH]; [done|].
  cbn in *. destruct b; cbn; by rewrite ?IH.
Qed.

Lemma texts_prefix label bs :
  texts (User (prefix_sender_label label bs)) = speaker_prefix label ++ texts (User bs).
Proof. by destruct label as [[|c l]|]. Qed.

(** A private row is shown as stored. A posted row keeps exactly its text: as
    the viewer's own speech ([Assistant]) when the viewer sent it, otherwise as
    a [User] message that opens with the sender's label, and calls or reasoning
    of another agent are never shown. *)
Theorem map_row_perspective kind sender label stored viewer :
  let shown := map_row_for_viewer kind sender label stored viewer in
  (kind ≠ KPosted → shown = stored) ∧
  (kind = KPosted → sender = Some viewer →
     (∃ bs, shown = Assistant bs) ∧ texts shown = texts stored) ∧
  (kind = KPosted → sender ≠ Some viewer →
     (∃ bs, shown = User bs) ∧ texts shown = speaker_prefix label ++ texts stored
     ∧ message_calls shown = []).
Proof.
  cbn zeta. unfold map_row_for_viewer. split_and!.
  - intros Hk. by rewrite bool_decide_eq_false_2.
  - intros -> ->. rewrite !bool_decide_eq_true_2 by done. cbn [negb].
    destruct stored as [bs|bs]; (split; [by eexists|]); [apply texts_user_to_assistant|done].
  - intros -> Hs. rewrite bool_decide_eq_true_2, bool_decide_eq_false_2 by done. cbn [negb].
    split_and!; [by eexists| |done]. rewrite texts_prefix. f_equal.
    destruct stored as [bs|bs]; [done|apply texts_assistant_to_user].
Qed.

(** ** The render cap *)

Definition CAP_MARKER_MAX : nat := 200.

(** Capping leaves short results alone and replaces a longer one by its first
    and last [MAX_TOOL_RESULT_CHARS / 2] characters around a marker of bounded
    length, so a rendered tool result never exceeds the cap by more than the
    marker. *)
Theorem cap_tool_result_bounded output seq :
  (0 ≤ Seq_get seq ≤ I64_MAX)%Z → (Z.of_nat (length output) ≤ USIZE_MAX)%Z →
  match cap_tool_result_output output seq with
  | None => length output ≤ MAX_TOOL_RESULT_CHARS
  | Some capped =>
      let half := MAX_TOOL_RESULT_CHARS / 2 in
      MAX_TOOL_RESULT_CHARS < length output
      ∧ take half capped = take half output
      ∧ drop (length capped - half) capped = drop (length output - half) output
      ∧ length capped ≤ MAX_TOOL_RESULT_CHARS + CAP_MARKER_MAX
  end.
Proof.
  intros Hseq Hlen. unfold cap_tool_result_output, chars_count.
  destruct (length output <=? MAX_TOOL_RESULT_CHARS) eqn:Hle; bools; [done|]. cbn zeta.
  set (half := MAX_TOOL_RESULT_CHARS / 2).
  assert (half + half = MAX_TOOL_RESULT_CHARS) as Hhalf.
  { apply Nat2Z.inj. unfold half, MAX_TOOL_RESULT_CHARS. rewrite Nat2Z.inj_add, Nat2Z.inj_div.
    by rewrite Z2Nat.id. }
  set (n := length output - half - half).
  pose proof (show_Z_length (Z.of_nat n) ltac:(unfold USIZE_MAX, U64_MAX in *; lia)) as Hn.
  pose proof (show_Z_length (Seq_get seq) ltac:(unfold I64_MAX in *; lia)) as Hs.
  assert (length (take half output) = half) as Ht by (rewrite length_take; lia).
  assert (length (drop (length output - half) output) = half) as Hd by (rewrite length_drop; lia).
  split_and!; [done|..].
  - rewrite take_app_le by lia. apply take_ge. lia.
  - rewrite !(assoc_L (++)), length_app, Hd, Nat.add_sub. by rewrite drop_app_length.
  - rewrite !length_app, Ht, Hd, !lit_length. unfold CAP_MARKER_MAX. cbn [String.length length]. lia.
Qed.

(** ** The rolling compaction row *)

(** A failed fold leaves the summary and its watermark untouched and counts one
    more failure; a saved fold replaces them and clears the failures; neither
    touches another agent's or another thread's row. *)
Theorem compaction_row_lifecycle org thread agent s c cooldown s' :
  load_compaction thread agent s = Ok (Some c) →
  bump_cooldown org thread agent cooldown s = (Ok tt, s') →
  load_compaction thread agent s'
    = Ok (Some (mkThreadCompaction (tc_summary c) (tc_covers_through_seq c)
                  (tc_summary_tokens c) (tc_failed_attempts c + 1) (Some cooldown))) ∧
  (∀ summary covers tokens s'',
     save_compaction org thread agent summary covers tokens s' = (Ok tt, s'') →
     load_compaction thread agent s''
       = Ok (Some (mkThreadCompaction summary covers tokens 0 None))) ∧
  (∀ thread' agent', (thread', agent') ≠ (thread, agent) →
     load_compaction thread' agent' s' = load_compaction thread' agent' s).
Proof.
  unfold bump_cooldown, load_compaction at 1, put_compaction.
  destruct (thread_compactions s !! (thread, agent)) as [old|] eqn:Hold; [|done].
  unfold Seq_try_from. destruct (cr_covers_through_seq old <? 0)%Z eqn:Hneg; [done|].
  cbn [res_map_err res_bind]. intros [= <-].
  destruct (compaction_checks _) in |- *; [|done]. intros [= <-]. bools. split_and!.
  - unfold load_compaction. cbn [thread_compactions set_compactions].
    rewrite lookup_insert_eq. unfold Seq_try_from. cbn. by rewrite (proj2 (Z.ltb_ge _ _) Hneg).
  - intros summary [covers] tokens s''. unfold save_compaction, put_compaction, load_compaction.
    cbn [thread_compactions set_compactions]. rewrite lookup_insert_eq.
    destruct (compaction_checks _) eqn:Hc in |- *; [|done]. intros [= <-].
    cbn [thread_compactions set_compactions]. rewrite lookup_insert_eq.
    unfold compaction_checks in Hc. cbn in *. bools. unfold Seq_try_from.
    by rewrite (proj2 (Z.ltb_ge _ _)) by done.
  - intros t a Hne. unfold load_compaction. cbn [thread_compactions set_compactions].
    by rewrite lookup_insert_ne.
Qed.

(** ** Offloaded artifacts *)

Lemma mjoin_chunks {A} (l : list A) k n :
  mjoin ((λ i, take k (drop (i * k) l)) <$> seq 0 n) = take (n * k) l.
Proof.
  induction n as [|n IH]; [done|]. rewrite seq_S, fmap_app, join_app, IH. cbn.
  rewrite app_nil_r, take_take_drop. f_equal. lia.
Qed.

(** The first body saved under a handle stays: reading it back page by page
    returns it unchanged, whatever is saved under the handle afterwards, and no
    page exceeds [MAX_ARTIFACT_SLICE]. *)
Theorem artifact_pages_reassemble `{DebugStr} org handle body later s (limit n : nat) :
  tool_artifacts s !! (org, handle) = None →
  0 < limit ≤ MAX_ARTIFACT_SLICE → length body ≤ n * limit →
  (Z.of_nat (n * limit) < I32_MAX)%Z →
  let s' := save_tool_artifact org handle later (save_tool_artifact org handle body s) in
  let page i := load_tool_artifact_slice org handle
                  (Page (Z.of_nat (i * limit)) (Z.of_nat limit)) s' in
  mjoin ((λ i, default [] (page i)) <$> seq 0 n) = body ∧
  (∀ offset lim, ∃ p, load_tool_artifact_slice org handle (Page offset lim) s' = Some p ∧
                      length p ≤ MAX_ARTIFACT_SLICE).
Proof.
  intros Hnew Hl Hlen Hmax s' page.
  assert (tool_artifacts s' !! (org, handle) = Some body) as Hb.
  { unfold s', save_tool_artifact. rewrite Hnew. cbn [tool_artifacts set_artifacts].
    rewrite lookup_insert_eq. apply lookup_insert_eq. }
  unfold page, load_tool_artifact_slice. rewrite Hb. clearbody s'. split.
  - trans (take (n * limit) body); [|by apply take_ge]. rewrite <-mjoin_chunks. f_equal.
    apply list_fmap_ext. intros j i Hi. apply lookup_seq in Hi as [-> Hj]. cbn [fmap option_fmap option_map default].
    unfold substr, u64_saturating_add, I32_MAX, U64_MAX in *.
    assert ((j + 1) * limit ≤ n * limit) by (apply Nat.mul_le_mono_r; lia).
    cbn [id]. rewrite Nat.add_0_l. apply f_equal2; [lia|]. apply f_equal2; [lia|done].
  - intros offset lim. eexists. split; [done|]. unfold substr. rewrite length_take. lia.
Qed.

(** A grep that finds nothing, or a pattern longer than the cap, renders the
    whole pattern: the slice then exceeds [MAX_ARTIFACT_SLICE]. *)
Lemma grep_slice_can_exceed_cap `{DebugStr} body pattern k :
  length pattern ≤ length (debug_str pattern) → MAX_ARTIFACT_SLICE < length pattern →
  MAX_ARTIFACT_SLICE < length (grep_slice body pattern k).
Proof.
  intros Hd Hp. unfold grep_slice. destruct (is_empty pattern) eqn:He.
  { apply is_empty_true in He. subst. simpl in Hp. lia. }
  destruct (find_str pattern body); rewrite ?length_app; cbn zeta; rewrite ?length_app; lia.
Qed.

(** An append to a thread that does not exist, under a key already used in the
    caller's organisation, reports the other thread's message. *)
Lemma append_missing_thread_with_used_key fk_ok caller thread message id now s row :
  feed_ok s → visible_thread s (user_id caller) thread = None →
  member s (user_id caller) (org_id caller) = true → row ∈ thread_messages s →
  same_key (org_id caller) (message_key message) row = true →
  append fk_ok caller thread message id now s = (Ok (fr_id row), s).
Proof.
  intros Hok Hv Hm Hin Hk. unfold append, append_insert. rewrite Hv.
  fold (message_key message). by rewrite (find_taken s caller message row).
Qed.

(** ** A concrete feed *)

Module Feed.
Definition caller : Caller := mkCaller 1 1.
Definition thread : ThreadId := 10%N.
Definition agent : AgentId := 7%N.
Definition key : IdempotencyKey := mkIdempotencyKey (lit "k1").
Definition call : ToolCallId := mkToolCallId (lit "call-1").
Definition posted (text : string) : NewMessage :=
  mkNewMessage KPosted (Some 3%N) None None (User [UText (lit text)]) None (Some key).
Definition result : NewMessage :=
  mkNewMessage KToolResult None (Some agent) None
    (User [UToolResult (mkToolResult call (lit "orphan") false)]) None None.

(** A store with one visible thread and no message. *)
Definition empty : store :=
  mkStore {[ thread := mkThreadRow 1 (Some 5%N) None 3 None 0 0 ]} ∅ [] ∅ ∅ ∅ [] [(1%N, 1%N)]
    (λ _, None).
Definition step (m : NewMessage) (id : ThreadMessageId) (s : store) : store :=
  (append true caller thread m id 50 s).2.
Definition feed : store := step result 101 (step (posted "hello") 100 empty).
Definition compacted : store := (save_compaction 1 thread agent (lit "so far") (mkSeq 1) 12 feed).2.
#[local] Instance debug : DebugStr := λ s, lit "'" ++ s ++ lit "'".
End Feed.

Lemma empty_ok : feed_ok Feed.empty.
Proof.
  constructor; cbn; [set_solver| |constructor..]. intros t n. by rewrite lookup_empty.
Qed.

Lemma context_tail_sound_witness :
  Forall (λ r, (0 ≤ fr_seq r)%Z) (thread_messages Feed.feed) ∧
  context_tail Feed.thread Feed.agent 9 Seq_ZERO (λ _, Some (lit "Ann")) Feed.feed
  = Ok (mkContextTail [mkTailRow (mkSeq 1) (User [UText (lit "Ann: "); UText (lit "hello")])]) ∧
  ∃ tail, context_tail Feed.thread Feed.agent 9 Seq_ZERO (λ _, Some (lit "Ann")) Feed.feed
          = Ok (mkContextTail tail) ∧ length tail ≤ MAX_CONTEXT_MESSAGES.
Proof.
  assert (Forall (λ r, (0 ≤ fr_seq r)%Z) (thread_messages Feed.feed)) as Hp
    by (repeat constructor; by vm_compute).
  split; [exact Hp|split; [by vm_compute|]].
  destruct (context_tail_sound Feed.thread Feed.agent 9 Seq_ZERO (λ _, Some (lit "Ann"))
              Feed.feed Hp) as (tail & kept & Ht & _ & Hl & _).
  exists tail. split; [exact Ht|exact Hl].
Defined.

Lemma append_keeps_feed_witness :
  append true Feed.caller Feed.thread (Feed.posted "hello") 100 50 Feed.empty
  = (Ok 100%N, Feed.step (Feed.posted "hello") 100 Feed.empty) ∧
  feed_ok (Feed.step (Feed.posted "hello") 100 Feed.empty).
Proof.
  split; [by vm_compute|].
  refine (proj1 (append_keeps_feed true Feed.caller Feed.thread (Feed.posted "hello") 100 50
                   Feed.empty (Ok 100%N) _ empty_ok _)).
  by vm_compute.
Defined.

Lemma append_idempotent_witness :
  ∃ s'', append true Feed.caller Feed.thread (Feed.posted "hello") 200 60
           (Feed.step (Feed.posted "hello") 100 Feed.empty) = (Ok 100%N, s'') ∧
         length (thread_messages s'') = 1.
Proof.
  destruct (append_idempotent true true Feed.caller Feed.thread (Feed.posted "hello") 100 200
              50 60 Feed.empty 100 (Feed.step (Feed.posted "hello") 100 Feed.empty) empty_ok)
    as (s'' & H & Hm).
  - by eexists.
  - by vm_compute.
  - by vm_compute.
  - by vm_compute.
  - exists s''. split; [exact H|]. rewrite Hm. by vm_compute.
Defined.

Lemma cap_tool_result_bounded_witness :
  length (lit "short") ≤ MAX_TOOL_RESULT_CHARS.
Proof.
  refine (cap_tool_result_bounded (lit "short") (mkSeq 4) _ _); by vm_compute.
Defined.

Lemma compaction_row_lifecycle_witness :
  load_compaction Feed.thread Feed.agent (bump_cooldown 1 Feed.thread Feed.agent 99 Feed.compacted).2
  = Ok (Some (mkThreadCompaction (lit "so far") (mkSeq 1) 12 1 (Some 99%Z))).
Proof.
  refine (proj1 (compaction_row_lifecycle 1 Feed.thread Feed.agent Feed.compacted
                   (mkThreadCompaction (lit "so far") (mkSeq 1) 12 0 None) 99 _ _ _));
    by vm_compute.
Defined.

Lemma artifact_pages_reassemble_witness :
  mjoin ((λ i, default []
            (load_tool_artifact_slice (H := Feed.debug) 1 (lit "h") (Page (Z.of_nat (i * 4)) 4)
               (save_tool_artifact 1 (lit "h") (lit "other")
                  (save_tool_artifact 1 (lit "h") (lit "0123456789") Feed.feed)))) <$> seq 0 3)
  = lit "0123456789".
Proof.
  refine (proj1 (artifact_pages_reassemble (H := Feed.debug) 1 (lit "h") (lit "0123456789")
                   (lit "other") Feed.feed 4 3 _ _ _ _)).
  - by vm_compute.
  - unfold MAX_ARTIFACT_SLICE. lia.
  - vm_compute. lia.
  - by vm_compute.
Defined.
