(* ===== verification/Colleagues.v ===== *)
(** * Colleagues and participants

    [types/participant.rs], [colleagues/types.rs] and [colleagues/pg_store.rs], and
    the channel membership queries of [threads/pg_store.rs]: who can be at one end
    of a conversation, and who may read a channel. *)

From Stdlib Require Import ZArith Lia Ascii String.
From stdpp Require Import base gmap list strings sets.
From S2P Require Import Prelude Types Threads.

Abbreviation ChannelId := N (only parsing).

(** ** Participants *)

Inductive Participant :=
| Human (c : ColleagueId) (u : UserId)
| AgentP (c : ColleagueId) (a : AgentId)
| System.
#[export] Instance Participant_eq_dec : EqDecision Participant.
Proof. solve_decision. Defined.

Definition participant_colleague (p : Participant) : option ColleagueId :=
  match p with Human c _ | AgentP c _ => Some c | System => None end.
Definition participant_agent (p : Participant) : option AgentId :=
  match p with AgentP _ a => Some a | _ => None end.
Definition participant_user (p : Participant) : option UserId :=
  match p with Human _ u => Some u | _ => None end.
Definition is_system (p : Participant) : bool :=
  match p with System => true | _ => false end.

Inductive ParticipantKind := PKHuman | PKAgent | PKSystem.
#[export] Instance ParticipantKind_eq_dec : EqDecision ParticipantKind.
Proof. solve_decision. Defined.
Definition ParticipantKind_as_str (k : ParticipantKind) : string :=
  match k with PKHuman => "human" | PKAgent => "agent" | PKSystem => "system" end.
#[export] Instance ParticipantKind_StrEnum : StrEnum ParticipantKind.
Proof.
  refine {| ALL := [PKHuman; PKAgent; PKSystem]; as_str := ParticipantKind_as_str |};
    abstract str_enum.
Defined.
Definition participant_kind (p : Participant) : ParticipantKind :=
  match p with Human _ _ => PKHuman | AgentP _ _ => PKAgent | System => PKSystem end.

Definition canonical_cmp (lhs rhs : Participant) : comparison :=
  match participant_colleague lhs, participant_colleague rhs with
  | Some l, Some r => N.compare l r
  | Some _, None => Lt
  | None, Some _ => Gt
  | None, None => Eq
  end.

Definition canonical_pair (lhs rhs : Participant) : option (Participant * Participant) :=
  match canonical_cmp lhs rhs with
  | Lt => Some (lhs, rhs)
  | Gt => Some (rhs, lhs)
  | Eq => None
  end.

(** ** Colleagues *)

Definition COLLEAGUE_NAME_MAX_LEN : nat := 200.

Inductive ColleagueKind := CKHuman | CKAgent.
#[export] Instance ColleagueKind_eq_dec : EqDecision ColleagueKind.
Proof. solve_decision. Defined.
Definition ColleagueKind_as_str (k : ColleagueKind) : string :=
  match k with CKHuman => "human" | CKAgent => "agent" end.
#[export] Instance ColleagueKind_StrEnum : StrEnum ColleagueKind.
Proof. refine {| ALL := [CKHuman; CKAgent]; as_str := ColleagueKind_as_str |}; abstract str_enum. Defined.

Inductive ColleagueError :=
| ColleagueNotFound (id : ColleagueId)
| KindSatelliteMismatch
| SatelliteUnmapped (kind : ColleagueKind)
| ColleagueParse (e : ParseError)
| ColleagueDb (msg : str).

Record ColleagueName := mkColleagueName { ColleagueName_as_str : str }.

Definition ColleagueName_try_from (raw : str) : res ParseError ColleagueName :=
  if is_empty raw then Err (Empty "colleague_name")
  else if COLLEAGUE_NAME_MAX_LEN <? str_len raw
  then Err (TooLong "colleague_name" COLLEAGUE_NAME_MAX_LEN (str_len raw))
  else Ok (mkColleagueName raw).

(** [Colleague]; the row of the queue's own join is [Queue.Colleague]. *)
Record ResolvedColleague := mkResolved {
  rcol_id : ColleagueId;
  rcol_org_id : OrgId;
  rcol_kind : ColleagueKind;
  rcol_display_name : ColleagueName;
  rcol_user_id : option UserId;
  rcol_agent_id : option AgentId }.

Definition Colleague_try_new (id : ColleagueId) (org : OrgId) (kind : ColleagueKind)
    (name : ColleagueName) (user : option UserId) (agent : option AgentId)
    : res ColleagueError ResolvedColleague :=
  let consistent := match kind with
                    | CKHuman => bool_decide (is_Some user) && bool_decide (agent = None)
                    | CKAgent => bool_decide (is_Some agent) && bool_decide (user = None)
                    end in
  if negb consistent then Err KindSatelliteMismatch
  else Ok (mkResolved id org kind name user agent).

Definition Participant_from (c : ResolvedColleague) : res ColleagueError Participant :=
  match rcol_kind c with
  | CKHuman => u <-? expect (rcol_user_id c) "invariant: human colleague carries user_id" ;
               Ok (Human (rcol_id c) u)
  | CKAgent => a <-? expect (rcol_agent_id c) "invariant: agent colleague carries agent_id" ;
               Ok (AgentP (rcol_id c) a)
  end.

(** [TryFrom<ColleagueColumns>]: the four columns of a [LEFT JOIN]. *)
Definition Participant_try_from (colleague : option ColleagueId) (kind : option ColleagueKind)
    (user : option UserId) (agent : option AgentId) : res ParseError Participant :=
  match colleague, kind with
  | None, _ => Ok System
  | Some c, Some CKHuman =>
      u <-? ok_or user (Malformed "participant.user_id" "human colleague without user_id") ;
      Ok (Human c u)
  | Some c, Some CKAgent =>
      a <-? ok_or agent (Malformed "participant.agent_id" "agent colleague without agent_id") ;
      Ok (AgentP c a)
  | Some _, None => Err (Malformed "participant.kind" "colleague read without joined kind")
  end.

(** ** The directory's tables *)

Record ColleagueRow := mkColleagueRow {
  cw_id : ColleagueId;
  cw_org_id : OrgId;
  cw_kind : ColleagueKind;
  cw_user_id : option UserId;
  cw_agent_id : option AgentId }.

Record UserRow := mkUserRow { us_display_name : option str; us_email : option str }.

(** [channel_members] rows carry the org of their channel. *)
Record directory := mkDirectory {
  dir_colleagues : list ColleagueRow;
  dir_agent_names : gmap AgentId str;
  dir_users : gmap UserId UserRow;
  channel_members : list (ChannelId * UserId * OrgId);
  channel_agent_members : list (ChannelId * ColleagueId) }.

(** [split_part(email, '@', 1)] *)
Fixpoint before_at (s : str) : str :=
  match s with
  | [] => []
  | c :: s' => if (c =? 0x40)%N then [] else c :: before_at s'
  end.

(** [COALESCE(a.name, u.display_name, split_part(u.email, '@', 1))] over the joins. *)
Definition display_name (d : directory) (r : ColleagueRow) : option str :=
  let user := cw_user_id r ≫= λ u, dir_users d !! u in
  match cw_agent_id r ≫= λ a, dir_agent_names d !! a with
  | Some n => Some n
  | None =>
      match user ≫= us_display_name with
      | Some n => Some n
      | None => before_at <$> (user ≫= us_email)
      end
  end.

Definition read_colleague (d : directory) (id : ColleagueId) : res ColleagueError ResolvedColleague :=
  match List.find (λ r, bool_decide (cw_id r = id)) (dir_colleagues d) with
  | None => Err (ColleagueNotFound id)
  | Some r =>
      match display_name d r with
      | None => Err (ColleagueDb (lit "unexpected null"))
      | Some raw =>
          name <-? res_map_err ColleagueParse (ColleagueName_try_from raw) ;
          Colleague_try_new (cw_id r) (cw_org_id r) (cw_kind r) name (cw_user_id r) (cw_agent_id r)
      end
  end.

Definition resolve_agent_row (d : directory) (org : OrgId) (agent : AgentId)
    : res ColleagueError ColleagueId :=
  match List.find (λ r, bool_decide (cw_org_id r = org)
                        && bool_decide (cw_agent_id r = Some agent)) (dir_colleagues d) with
  | Some r => Ok (cw_id r)
  | None => Err (SatelliteUnmapped CKAgent)
  end.

Definition resolve_user_row (d : directory) (org : OrgId) (user : UserId)
    : res ColleagueError ColleagueId :=
  match List.find (λ r, bool_decide (cw_org_id r = org)
                        && bool_decide (cw_user_id r = Some user)) (dir_colleagues d) with
  | Some r => Ok (cw_id r)
  | None => Err (SatelliteUnmapped CKHuman)
  end.

(** ** Channel membership *)

(** [dm_visible_to!]: the two ends of a direct message. *)
Definition dm_visible_to (d : directory) (t : ThreadRow) (user : UserId) : bool :=
  existsb (λ r, bool_decide (cw_id r = th_created_by t)
                && bool_decide (cw_user_id r = Some user)) (dir_colleagues d)
  || existsb (λ r, bool_decide (Some (cw_id r) = th_dm_counterpart t)
                   && bool_decide (cw_user_id r = Some user)) (dir_colleagues d).

Definition in_channel (d : directory) (channel : ChannelId) (user : UserId) : bool :=
  existsb (λ m, bool_decide (m.1.1 = channel) && bool_decide (m.1.2 = user)) (channel_members d).

Definition is_channel_member (d : directory) (s : store) (thread : ThreadId) (user : UserId)
    : res ThreadError bool :=
  match threads s !! thread with
  | None => Err (ThreadNotFound thread)
  | Some t =>
      Ok (match th_channel_id t with
          | None => dm_visible_to d t user
          | Some channel => in_channel d channel user
          end)
  end.

Definition colleague_in_channel (d : directory) (channel : ChannelId) (colleague : ColleagueId) : bool :=
  existsb (λ m, bool_decide (m.1 = channel) && bool_decide (m.2 = colleague))
    (channel_agent_members d)
  || existsb (λ m, bool_decide (m.1.1 = channel)
                   && existsb (λ r, bool_decide (cw_user_id r = Some m.1.2)
                                    && bool_decide (cw_org_id r = m.2)
                                    && bool_decide (cw_id r = colleague)) (dir_colleagues d))
       (channel_members d).

(** ** Facts *)

(** CHECK [colleagues_kind_satellite] and the primary key. *)
Definition satellite_ok (r : ColleagueRow) : Prop :=
  match cw_kind r with
  | CKHuman => is_Some (cw_user_id r) ∧ cw_agent_id r = None
  | CKAgent => is_Some (cw_agent_id r) ∧ cw_user_id r = None
  end.

Lemma Colleague_try_new_Ok id org kind name user agent c :
  Colleague_try_new id org kind name user agent = Ok c ↔
  c = mkResolved id org kind name user agent ∧
  satellite_ok (mkColleagueRow id org kind user agent).
Proof.
  unfold Colleague_try_new, satellite_ok. cbn.
  destruct kind; repeat case_bool_decide; cbn; naive_solver.
Qed.

(** A colleague that was read projects to the participant of its kind, under its
    own id; the [expect] of the projection never fails. *)
Lemma read_colleague_participant d id c :
  read_colleague d id = Ok c →
  rcol_id c = id ∧ ∃ p, Participant_from c = Ok p ∧ participant_colleague p = Some id ∧
    participant_user p = rcol_user_id c ∧ participant_agent p = rcol_agent_id c ∧
    ∃ r, r ∈ dir_colleagues d ∧ cw_id r = id ∧ cw_org_id r = rcol_org_id c ∧
         cw_user_id r = rcol_user_id c ∧ cw_agent_id r = rcol_agent_id c.
Proof.
  unfold read_colleague. destruct (List.find _ _) as [r|] eqn:Ef; [|done].
  apply List.find_some in Ef as [Hr Hid]. apply bool_decide_eq_true in Hid as <-.
  destruct (display_name d r); [|done]. intros H. res_inv.
  apply Colleague_try_new_Ok in H as [-> Hs]. split; [done|]. apply list_elem_of_In in Hr.
  unfold satellite_ok, Participant_from in *. cbn in *.
  destruct (cw_kind r); destruct Hs as [[y Hy] Hn]; rewrite Hy, Hn; cbn; eexists;
    (split; [done|]); split_and!; cbn; eauto 10.
Qed.

Lemma canonical_cmp_sym p q : canonical_cmp q p = CompOpp (canonical_cmp p q).
Proof.
  unfold canonical_cmp. destruct (participant_colleague p), (participant_colleague q); try done.
  apply N.compare_antisym.
Qed.

(** The pair does not depend on the direction of the call; it is refused exactly
    when both ends are the same colleague, and System always takes slot b. *)
Lemma canonical_pair_sym p q : canonical_pair q p = canonical_pair p q.
Proof. unfold canonical_pair. rewrite canonical_cmp_sym. by destruct (canonical_cmp p q). Qed.

Lemma canonical_pair_None p q :
  canonical_pair p q = None ↔ participant_colleague p = participant_colleague q.
Proof.
  unfold canonical_pair, canonical_cmp.
  destruct (participant_colleague p) as [l|], (participant_colleague q) as [r|]; try done.
  destruct (N.compare_spec l r); naive_solver lia.
Qed.

Lemma canonical_pair_real_first p q a b : canonical_pair p q = Some (a, b) → a ≠ System.
Proof.
  unfold canonical_pair, canonical_cmp.
  destruct p, q; cbn; repeat case_match; naive_solver.
Qed.

Lemma Participant_try_from_agrees d id c p :
  read_colleague d id = Ok c → Participant_from c = Ok p →
  Participant_try_from (Some id) (Some (rcol_kind c)) (rcol_user_id c) (rcol_agent_id c) = Ok p.
Proof.
  intros Hc. apply read_colleague_participant in Hc as (<- & _).
  unfold Participant_from. destruct (rcol_kind c); cbn;
    [destruct (rcol_user_id c)|destruct (rcol_agent_id c)]; cbn; naive_solver.
Qed.
