(* ===== verification/Catalog.v ===== *)
(** * The model catalog

    [provider/id.rs] and [provider/catalog.rs]: the closed set of models, the
    provider that serves each, its context window and the input it accepts. *)

From Stdlib Require Import ZArith Lia Ascii String.
From stdpp Require Import base gmap list strings.
From S2P Require Import Prelude Types.

Inductive ProviderId := Anthropic | Openai | Deepseek.
#[export] Instance ProviderId_eq_dec : EqDecision ProviderId.
Proof. solve_decision. Defined.

Definition ProviderId_as_str (p : ProviderId) : string :=
  match p with Anthropic => "anthropic" | Openai => "openai" | Deepseek => "deepseek" end.
#[export] Instance ProviderId_StrEnum : StrEnum ProviderId.
Proof.
  refine {| ALL := [Anthropic; Openai; Deepseek]; as_str := ProviderId_as_str |};
    abstract str_enum.
Defined.

Definition ProviderId_try_from (raw : str) : res ParseError ProviderId :=
  if bool_decide (raw = lit "anthropic") then Ok Anthropic
  else if bool_decide (raw = lit "openai") then Ok Openai
  else if bool_decide (raw = lit "deepseek") then Ok Deepseek
  else Err (Malformed "provider_id" "unknown provider").

Record ContextWindow := mkContextWindow { ContextWindow_get : Z }.
Inductive InvalidContextWindow := mkInvalidContextWindow.

Definition ContextWindow_try_from (raw : Z) : res InvalidContextWindow ContextWindow :=
  if (raw =? 0)%Z then Err mkInvalidContextWindow else Ok (mkContextWindow raw).

Record ModelCapabilities := mkModelCapabilities {
  images : bool; pdf : bool; office : bool; text : bool }.

Definition TEXT_ONLY : ModelCapabilities := mkModelCapabilities false false false true.
Definition ALL_CAPABILITIES : ModelCapabilities := mkModelCapabilities true true true true.

Definition is_pdf (m : AttachmentMime) : bool := match m with Pdf => true | _ => false end.
Definition is_text (m : AttachmentMime) : bool := match m with Text => true | _ => false end.

Definition accepts (c : ModelCapabilities) (m : AttachmentMime) : bool :=
  if is_image m then images c
  else if is_pdf m then pdf c
  else if is_text m then text c
  else office c.

Record CatalogEntry := mkCatalogEntry {
  ce_name : string;
  ce_provider : ProviderId;
  ce_context_window : ContextWindow;
  ce_capabilities : ModelCapabilities }.

Definition MODEL_CATALOG : list CatalogEntry :=
  [ mkCatalogEntry "claude-opus-4-7" Anthropic (mkContextWindow 200000) ALL_CAPABILITIES;
    mkCatalogEntry "claude-sonnet-4-6" Anthropic (mkContextWindow 200000) ALL_CAPABILITIES;
    mkCatalogEntry "claude-haiku-4-5" Anthropic (mkContextWindow 200000) ALL_CAPABILITIES;
    mkCatalogEntry "claude-sonnet-4-5" Anthropic (mkContextWindow 200000) ALL_CAPABILITIES;
    mkCatalogEntry "gpt-5.5" Openai (mkContextWindow 400000) ALL_CAPABILITIES;
    mkCatalogEntry "gpt-5.4" Openai (mkContextWindow 400000) ALL_CAPABILITIES;
    mkCatalogEntry "gpt-5.4-mini" Openai (mkContextWindow 400000) ALL_CAPABILITIES;
    mkCatalogEntry "gpt-5.4-nano" Openai (mkContextWindow 400000) ALL_CAPABILITIES;
    mkCatalogEntry "gpt-4o-mini" Openai (mkContextWindow 128000) ALL_CAPABILITIES;
    mkCatalogEntry "deepseek-v4-pro" Deepseek (mkContextWindow 1000000) TEXT_ONLY;
    mkCatalogEntry "deepseek-v4-flash" Deepseek (mkContextWindow 1000000) TEXT_ONLY ].

(** [Model]: a reference to a catalog row; the release build has no other rows. *)
Record Model := mkModel { entry : CatalogEntry }.

Definition provider (m : Model) : ProviderId := ce_provider (entry m).
Definition Model_as_str (m : Model) : str := lit (ce_name (entry m)).
Definition context_window (m : Model) : ContextWindow := ce_context_window (entry m).
Definition capabilities (m : Model) : ModelCapabilities := ce_capabilities (entry m).
Definition Model_all : list Model := mkModel <$> MODEL_CATALOG.

Inductive UnknownModel := mkUnknownModel (raw : str).

Definition Model_try_from (raw : str) : res UnknownModel Model :=
  match List.find (λ e, bool_decide (lit (ce_name e) = raw)) MODEL_CATALOG with
  | Some e => Ok (mkModel e)
  | None => Err (mkUnknownModel raw)
  end.

(** ** Correctness *)

Lemma catalog_entry_ok e : e ∈ MODEL_CATALOG →
  Model_try_from (lit (ce_name e)) = Ok (mkModel e)
  ∧ (2000 ≤ ContextWindow_get (ce_context_window e) ≤ U32_MAX)%Z
  ∧ text (ce_capabilities e) = true.
Proof.
  assert (Forall (λ e, Model_try_from (lit (ce_name e)) = Ok (mkModel e)
     ∧ (2000 ≤ ContextWindow_get (ce_context_window e) ≤ U32_MAX)%Z
     ∧ text (ce_capabilities e) = true) MODEL_CATALOG) as H.
  { repeat constructor; by vm_compute. }
  rewrite Forall_forall in H. apply H.
Qed.

(** The catalog's smart constructor accepts exactly the listed names, a model's
    name parses back to it, and every model has a positive window that fits
    [u32], takes text files, and takes images only where it also takes PDF. *)
Theorem model_roundtrip raw m :
  Model_try_from raw = Ok m →
  raw = Model_as_str m ∧ m ∈ Model_all ∧ Model_try_from (Model_as_str m) = Ok m
  ∧ (0 < ContextWindow_get (context_window m) ≤ U32_MAX)%Z
  ∧ accepts (capabilities m) Text = true
  ∧ (accepts (capabilities m) Png = accepts (capabilities m) Pdf).
Proof.
  unfold Model_try_from at 1. destruct (List.find _ _) as [e|] eqn:E; [|done]. intros [= <-].
  apply List.find_some in E as [Hin Hn]. apply list_elem_of_In in Hin. bools. subst raw.
  pose proof (catalog_entry_ok e Hin) as (Ht & Hw & Hx). split_and!; try done.
  - unfold Model_all. by apply list_elem_of_fmap_2.
  - unfold context_window. cbn. lia.
  - unfold context_window. cbn. lia.
  - cut (Forall (λ e, accepts (ce_capabilities e) Png = accepts (ce_capabilities e) Pdf)
           MODEL_CATALOG).
    + rewrite Forall_forall. intros H. by apply H.
    + repeat constructor.
Qed.

Lemma model_roundtrip_witness :
  ∃ m, Model_try_from (lit "gpt-4o-mini") = Ok m ∧ Model_try_from (Model_as_str m) = Ok m.
Proof.
  eexists. split; [by vm_compute|].
  refine (proj1 (proj2 (proj2 (model_roundtrip (lit "gpt-4o-mini") _ _)))). by vm_compute.
Defined.
