(* ===== verification/CompactionLaws.v ===== *)
(** * What compaction promises

    Theorems about [Compaction]: the summary cap, the chunking and its bounds,
    the tool-safe cut, and what becomes of every row of an overflowing window. *)

From Stdlib Require Import ZArith Lia Ascii String Sorted.
From stdpp Require Import base gmap list strings sets.
From S2P Require Import Prelude Types Catalog Threads ThreadLaws Compaction.

(** ** The summary cap *)

(** The headers occur in [s] one after the other. *)
Fixpoint has_sections (headers : list str) (s : str) : Prop :=
  match headers with
  | [] => True
  | h :: headers' => ∃ a b, s = a ++ h ++ b ∧ has_sections headers' b
  end.

Lemma has_sections_app headers a b : has_sections headers b → has_sections headers (a ++ b).
Proof.
  destruct headers as [|h headers]; [done|]. intros (x & y & -> & H).
  exists (a ++ x), y. split; [by rewrite (assoc_L (++))|done].
Qed.

Lemma section_starts_iff headers text from :
  is_Some (section_starts headers text from) ↔ has_sections headers (drop from text).
Proof.
  revert from. induction headers as [|h headers IH]; intros from; simpl; [naive_solver|].
  assert (∀ k, drop (from + k + length h) text = drop (k + length h) (drop from text)) as Hd
    by (intros; rewrite drop_drop; f_equal; lia).
  split.
  - destruct (find_str h (drop from text)) as [k|] eqn:E; [|by intros [? ?]].
    destruct (find_str_Some _ _ _ E) as (a & b & Hs & Hk). intros [starts H].
    exists a, b. split; [done|]. destruct (section_starts headers _ _) eqn:E2; [|done].
    assert (drop (from + k + length h) text = b) as <-.
    { rewrite Hd, Hs, (assoc_L (++)). apply drop_app_length'. rewrite length_app. lia. }
    apply IH. eauto.
  - intros (a & b & Hs & H). destruct (find_str_app a h b) as (k & Hk & Hle).
    rewrite Hs, Hk. destruct (proj2 (IH (from + k + length h))) as [starts ->]; [|eauto].
    rewrite Hd, Hs, (assoc_L (++)), drop_app_le by (rewrite length_app; lia).
    by apply has_sections_app.
Qed.

Definition lengths (l : list str) : nat := sum_list (length <$> l).

Lemma Z_sum_count l : Z_sum (count <$> l) = Z.of_nat (lengths l).
Proof.
  unfold lengths, count, chars_count. induction l as [|s l IH]; csimpl; [done|]. rewrite IH. lia.
Qed.

(** Headers and bodies tile the text from the first header on. *)
Lemma section_bodies_tile headers text from starts :
  from ≤ length text → section_starts headers text from = Some starts →
  length (section_bodies headers text starts) = length headers ∧
  match head starts with
  | Some s => from ≤ s ∧ lengths headers + lengths (section_bodies headers text starts) + s
                         = length text
  | None => headers = []
  end.
Proof.
  revert from starts. induction headers as [|h headers IH]; intros from starts Hf; simpl.
  { by intros [= <-]. }
  destruct (find_str h (drop from text)) as [k|] eqn:E; [|done]. cbn.
  destruct (section_starts headers text (from + k + length h)) as [starts'|] eqn:E2; [|done].
  cbn. intros [= <-]. apply find_str_Some in E as (a & b & Hs & Hk).
  apply (f_equal length) in Hs. rewrite !length_app, length_drop in Hs.
  destruct (IH (from + k + length h) starts' ltac:(lia) E2) as [Hl Ht]. split; [simpl; by rewrite Hl|].
  cbn [head]. split; [lia|]. unfold lengths in *. csimpl. rewrite length_take, length_drop.
  destruct (head starts') as [s'|]; cbn [default option_union] in *; simpl.
  - destruct Ht as [? Ht]. lia.
  - subst headers. simpl in *. destruct (section_bodies [] text starts') eqn:Eb; [|done].
    simpl. lia.
Qed.

Lemma clamp_section_length budget total h body :
  (0 ≤ budget)%Z → (0 < total)%Z →
  (count (clamp_section budget total h body) ≤ count h + budget * count body / total)%Z.
Proof.
  intros Hb Ht. unfold clamp_section, count, chars_count. rewrite length_app, length_take.
  assert (Z.min USIZE_MAX (budget * Z.of_nat (length body)) / total
          ≤ budget * Z.of_nat (length body) / total)%Z by (apply Z.div_le_mono; lia).
  assert (0 ≤ budget * Z.of_nat (length body) / total)%Z by (apply Z.div_pos; lia). lia.
Qed.

Lemma join_length sep parts :
  parts ≠ [] → lengths parts + length sep * (length parts - 1) = length (join sep parts).
Proof.
  unfold lengths. induction parts as [|p parts IH]; [done|]. intros _.
  destruct parts as [|q parts]; [simpl; lia|].
  change (join sep (p :: q :: parts)) with (p ++ sep ++ join sep (q :: parts)).
  rewrite !length_app, <-IH by done. csimpl. lia.
Qed.

Lemma shares_le budget total hs bodies :
  (0 ≤ budget)%Z → (0 < total)%Z → length bodies = length hs →
  (Z.of_nat (lengths (zip_with (clamp_section budget total) hs bodies))
   ≤ Z.of_nat (lengths hs) + budget * Z.of_nat (lengths bodies) / total)%Z.
Proof.
  intros Hb Ht. revert bodies. induction hs as [|h hs IH]; intros [|b bodies] Hl; try done.
  - unfold lengths. simpl. rewrite Z.mul_0_r, Z.div_0_l by lia. lia.
  - injection Hl as Hl. specialize (IH _ Hl). unfold lengths in *. csimpl.
    pose proof (clamp_section_length budget total h b Hb Ht) as Hc.
    unfold count, chars_count in Hc.
    assert (budget * Z.of_nat (length b) / total
            + budget * Z.of_nat (sum_list (length <$> bodies)) / total
            ≤ budget * Z.of_nat (length b + sum_list (length <$> bodies)) / total)%Z; [|lia].
    rewrite Nat2Z.inj_add, Z.mul_add_distr_l. apply Z.div_le_lower_bound; [done|].
    rewrite Z.mul_add_distr_l.
    pose proof (Z.mul_div_le (budget * Z.of_nat (length b)) total Ht).
    pose proof (Z.mul_div_le (budget * Z.of_nat (sum_list (length <$> bodies))) total Ht). lia.
Qed.

Lemma has_sections_join budget total hs bodies :
  length bodies = length hs →
  has_sections hs (join [0xa%N] (zip_with (clamp_section budget total) hs bodies)).
Proof.
  revert bodies. induction hs as [|h hs IH]; intros [|b bodies] Hl; try done.
  injection Hl as Hl. specialize (IH _ Hl). cbn [zip_with].
  destruct hs as [|h' hs], bodies as [|b' bodies]; try done.
  - exists [], (drop (length h) (clamp_section budget total h b)). split; [|done].
    unfold clamp_section. simpl. by rewrite drop_app_length.
  - eexists [], _. split.
    + cbn [zip_with join]. unfold clamp_section at 1. rewrite app_nil_l, <-(assoc_L (++)). done.
    + apply has_sections_app, (has_sections_app (h' :: hs) [0xa%N]), IH.
Qed.

Lemma section_starts_head h headers text starts :
  starts_with h text = true → section_starts (h :: headers) text 0 = Some starts →
  head starts = Some 0.
Proof.
  intros Hst. cbn [section_starts]. rewrite drop_0.
  assert (find_str h text = Some 0) as -> by (destruct text; cbn [find_str]; by rewrite Hst).
  cbn zeta. destruct (section_starts headers _ _); [|done]. by intros [= <-].
Qed.

(** A clamp within the sections stays under the cap and keeps every header. *)
Lemma clamp_within_sections_ok text cap out :
  clamp_within_sections text cap = Some out →
  (count out ≤ cap)%Z ∧ has_sections SUMMARY_SECTIONS out.
Proof.
  unfold clamp_within_sections. destruct (section_starts _ text 0) as [starts|] eqn:E; [|done].
  cbn [mbind option_bind]. destruct (section_bodies_tile _ _ _ _ (Nat.le_0_l _) E) as [Hl _].
  set (bodies := section_bodies SUMMARY_SECTIONS text starts) in *.
  rewrite !Z_sum_count. set (hc := lengths SUMMARY_SECTIONS).
  set (budget := Z.max 0 (cap - (Z.of_nat hc + SUMMARY_SECTION_SEPARATORS))).
  destruct ((Z.of_nat (lengths bodies) =? 0)%Z || (budget =? 0)%Z) eqn:Hz; [done|].
  intros Heq. apply (inj Some) in Heq. subst out. bools.
  split; [|exact (has_sections_join budget (Z.of_nat (lengths bodies)) SUMMARY_SECTIONS bodies Hl)].
  set (parts := zip_with (clamp_section budget (Z.of_nat (lengths bodies))) SUMMARY_SECTIONS bodies).
  assert (length parts = 5) as Hp by (unfold parts; rewrite length_zip_with, Hl; done).
  unfold count, chars_count. rewrite <-join_length by (destruct parts; done).
  rewrite Hp. cbn [length].
  pose proof (shares_le budget (Z.of_nat (lengths bodies)) SUMMARY_SECTIONS bodies
                ltac:(lia) ltac:(lia) Hl) as Hs.
  rewrite Z.div_mul in Hs by lia. fold parts hc in Hs.
  change SUMMARY_SECTION_SEPARATORS with 4%Z in *. lia.
Qed.

(** [clamp] always fits the cap, keeps a text that fits and is idempotent; a
    five-section summary, one that opens with its first header, still has its
    five sections in order after being trimmed, however long it was. *)
Theorem clamp_bounded_keeps_sections text :
  let s := clamp text in
  (count (CompactionSummary_as_str s) ≤ SUMMARY_CAP_CHARS)%Z ∧
  (estimated_tokens s ≤ MAX_SUMMARY_TOKENS)%Z ∧
  ((count text ≤ SUMMARY_CAP_CHARS)%Z → s = mkCompactionSummary text) ∧
  clamp (CompactionSummary_as_str s) = s ∧
  (starts_with (lit "Facts:") text = true →
   is_Some (section_starts SUMMARY_SECTIONS text 0) →
   is_Some (section_starts SUMMARY_SECTIONS (CompactionSummary_as_str s) 0)).
Proof.
  cbn zeta. assert (count (CompactionSummary_as_str (clamp text)) ≤ SUMMARY_CAP_CHARS)%Z as Hle.
  { unfold clamp. destruct (count text <=? SUMMARY_CAP_CHARS)%Z eqn:E; bools; [done|].
    destruct (clamp_within_sections text SUMMARY_CAP_CHARS) as [out|] eqn:Ec; cbn [CompactionSummary_as_str].
    - by apply clamp_within_sections_ok in Ec as [? _].
    - unfold count, chars_count. rewrite length_take. unfold SUMMARY_CAP_CHARS, MAX_SUMMARY_TOKENS, CHARS_PER_TOKEN. lia. }
  assert (∀ t, (count t ≤ SUMMARY_CAP_CHARS)%Z → clamp t = mkCompactionSummary t) as Hfit
    by (intros t Ht; unfold clamp; by rewrite (proj2 (Z.leb_le _ _) Ht)).
  split_and!; [done| |by apply Hfit|rewrite Hfit by done; by destruct (clamp text)|].
  - unfold estimated_tokens. etrans; [apply Z.le_min_r|].
    unfold SUMMARY_CAP_CHARS, CHARS_PER_TOKEN, MAX_SUMMARY_TOKENS in *.
    apply Z.div_le_upper_bound; lia.
  - intros Hst [starts Hs]. unfold clamp.
    destruct (count text <=? SUMMARY_CAP_CHARS)%Z eqn:E; bools; [by eexists|].
    destruct (clamp_within_sections text SUMMARY_CAP_CHARS) as [out|] eqn:Ec; cbn [CompactionSummary_as_str].
    + apply clamp_within_sections_ok in Ec as [_ Ho]. by apply section_starts_iff.
    + exfalso. unfold clamp_within_sections in Ec. rewrite Hs in Ec.
      cbn [mbind option_bind] in Ec. rewrite !Z_sum_count in Ec.
      destruct (section_bodies_tile _ _ _ _ (Nat.le_0_l _) Hs) as [_ Ht].
      assert (head starts = Some 0) as Hh.
      { by apply (section_starts_head (lit "Facts:") (tail SUMMARY_SECTIONS) text). }
      rewrite Hh in Ht. destruct Ht as [_ Ht].
      change (lengths SUMMARY_SECTIONS) with 48 in *.
      change SUMMARY_SECTION_SEPARATORS with 4%Z in *. unfold count, chars_count in E.
      unfold SUMMARY_CAP_CHARS, CHARS_PER_TOKEN, MAX_SUMMARY_TOKENS in *.
      destruct (_ || _) eqn:Hor; [|done]. apply orb_true_iff in Hor as [?|?]; bools; lia.
Qed.

(** ** Chunks *)

Section chunks.
Context `{JsonPrinter}.

(** The running estimate of [split_chunks] and [keep_count]. *)
Definition sum_tokens (acc : Z) (ms : list ChatMessage) : Z :=
  foldl (λ acc m, u32_saturating_add acc (message_tokens m)) acc ms.

Definition chunk_ok (budget : Z) (c : list ChatMessage) : Prop :=
  c ≠ [] ∧ (length c = 1 ∨ (sum_tokens 0 c ≤ budget)%Z).

Lemma split_loop_spec overflow budget chunks current :
  Forall (chunk_ok budget) chunks → (current = [] ∨ chunk_ok budget current) →
  let out := split_loop overflow budget chunks current (sum_tokens 0 current) in
  mjoin out = mjoin chunks ++ current ++ overflow ∧ Forall (chunk_ok budget) out.
Proof.
  revert chunks current. induction overflow as [|m overflow IH]; intros chunks current Hc Hcur.
  { cbn [split_loop]. rewrite app_nil_r. destruct (is_empty current) eqn:E; bools.
    - subst. by rewrite app_nil_r.
    - rewrite join_app. cbn. rewrite app_nil_r. split; [done|].
      apply Forall_app. split; [done|]. constructor; [|done]. naive_solver. }
  cbn [split_loop]. cbn zeta.
  destruct ((budget <? u32_saturating_add (sum_tokens 0 current) (message_tokens m))%Z
            && negb (is_empty current)) eqn:E; bools.
  - change (u32_saturating_add 0 (message_tokens m)) with (sum_tokens 0 [m]).
    destruct (IH (chunks ++ [current]) [m]) as [-> Hf].
    + apply Forall_app. split; [done|]. constructor; [|done]. naive_solver.
    + right. split; [done|by left].
    + split; [|done]. rewrite join_app. cbn. by rewrite app_nil_r, <-(assoc_L (++)).
  - assert (u32_saturating_add (sum_tokens 0 current) (message_tokens m)
            = sum_tokens 0 (current ++ [m])) as -> by (unfold sum_tokens; by rewrite foldl_app).
    destruct (IH chunks (current ++ [m])) as [-> Hf]; [done| |].
    + right. split; [by destruct current|]. apply andb_false_iff in E as [E|E]; bools.
      * right. unfold sum_tokens in *. by rewrite foldl_app.
      * subst. by left.
    + by rewrite <-!(assoc_L (++)).
Qed.

(** Chunking loses, reorders and duplicates nothing; every chunk is non-empty
    and within the budget, save a message that alone exceeds it. *)
Theorem split_chunks_partition overflow budget :
  mjoin (split_chunks overflow budget) = overflow ∧
  Forall (λ c, c ≠ [] ∧ (length c = 1 ∨ (sum_tokens 0 c ≤ budget)%Z))
    (split_chunks overflow budget).
Proof.
  destruct (split_loop_spec overflow budget [] [] (Forall_nil_2 _) (or_introl eq_refl)) as [? ?].
  split; done.
Qed.

(** ** The keep window *)

Lemma sum_tokens_mono acc ms : (acc ≤ U32_MAX)%Z → (acc ≤ sum_tokens acc ms ≤ U32_MAX)%Z.
Proof.
  revert acc. induction ms as [|m ms IH]; intros acc Ha; [done|].
  change (sum_tokens acc (m :: ms)) with (sum_tokens (u32_saturating_add acc (message_tokens m)) ms).
  assert (0 ≤ message_tokens m)%Z.
  { unfold message_tokens, from_chars, U32_MAX. cbn. apply Z.min_glb; [done|].
    apply Z.div_pos; [|done]. unfold message_chars.
    assert (∀ A (f : A → Z) l a, (0 ≤ a)%Z → (∀ x, 0 ≤ f x)%Z →
              (0 ≤ foldl (λ c x, usize_saturating_add c (f x)) a l)%Z) as Hf.
    { intros A f l. induction l as [|x l IHl]; intros a Ha' Hfx; [done|]. cbn. apply IHl; [|done].
      specialize (Hfx x). unfold usize_saturating_add, USIZE_MAX, U64_MAX. lia. }
    destruct m; apply Hf; try done; intros []; cbn; unfold count; lia. }
  assert (acc ≤ u32_saturating_add acc (message_tokens m) ≤ U32_MAX)%Z as [H1 H2]
    by (unfold u32_saturating_add; lia).
  specialize (IH _ H2). lia.
Qed.

Lemma keep_loop_spec rows kb sb acc c :
  (acc ≤ U32_MAX)%Z → (acc ≤ sb)%Z ∨ c ≤ 1 → (kb ≤ sb)%Z →
  let n := keep_loop rows kb sb acc c in
  c ≤ n ≤ c + length rows ∧
  (n ≤ 1 ∨ (sum_tokens acc (tail_message <$> take (n - c) rows) ≤ sb)%Z) ∧
  (∀ row, rows !! (n - c) = Some row →
     1 ≤ n ∧ (kb < sum_tokens acc (tail_message <$> take (S (n - c)) rows))%Z).
Proof.
  revert acc c. induction rows as [|row rows IH]; intros acc c Ha Hinv Hb; cbn [keep_loop].
  { cbn zeta. rewrite Nat.sub_diag. simpl. split_and!; [lia|lia|naive_solver|done]. }
  set (acc' := u32_saturating_add acc (message_tokens (tail_message row))).
  assert (acc ≤ acc' ≤ U32_MAX)%Z as Hacc'
    by (apply (sum_tokens_mono acc [tail_message row] Ha)).
  destruct ((kb <? acc')%Z && (1 <=? c) && _) eqn:E; cbn zeta.
  { bools. rewrite Nat.sub_diag. simpl. split_and!; [lia|lia|naive_solver|].
    intros ? _. split; [done|]. fold acc'. lia. }
  specialize (IH acc' (S c) ltac:(lia)). cbn zeta in IH.
  set (n := keep_loop rows kb sb acc' (S c)) in *.
  destruct IH as (Hn & Hsum & Hstop); [|done|].
  { destruct (decide (c = 0)); [right; lia|left].
    apply andb_false_iff in E as [E|E].
    - apply andb_false_iff in E as [E|E]; bools; lia.
    - apply negb_false_iff in E. bools. lia. }
  replace (n - c) with (S (n - S c)) by lia. cbn [length]. split_and!; [lia|lia|exact Hsum|].
  intros r Hr. exact (Hstop r Hr).
Qed.

(** The keep window holds at least one row and never more than the tail; unless
    it is a single row, it stays within the budget and the importance slack; and
    it ends only at a row that would overrun the budget. *)
Theorem keep_count_bounds rows keep_budget :
  rows ≠ [] → (0 ≤ keep_budget)%Z → (keep_budget + IMPORTANCE_KEEP_SLACK ≤ U32_MAX)%Z →
  let n := keep_count rows keep_budget in
  let newest k := tail_message <$> take k (reverse rows) in
  1 ≤ n ≤ length rows ∧
  (n = 1 ∨ (sum_tokens 0 (newest n) ≤ keep_budget + IMPORTANCE_KEEP_SLACK)%Z) ∧
  (n < length rows → (keep_budget < sum_tokens 0 (newest (S n)))%Z).
Proof.
  intros Hne Hkb Hmax. unfold keep_count.
  set (sb := u32_saturating_add keep_budget IMPORTANCE_KEEP_SLACK).
  assert (sb = keep_budget + IMPORTANCE_KEEP_SLACK)%Z as Hsb
    by (unfold sb, u32_saturating_add; lia).
  destruct (keep_loop_spec (reverse rows) keep_budget sb 0 0) as (Hn & Hsum & Hstop);
    [by vm_compute|right; lia|rewrite Hsb; unfold IMPORTANCE_KEEP_SLACK; lia|].
  set (n := keep_loop (reverse rows) keep_budget sb 0 0) in *.
  rewrite !Nat.sub_0_r, length_reverse in *.
  assert (1 ≤ length rows) by (destruct rows; simpl; [done|lia]).
  assert (1 ≤ n) as H1.
  { destruct (decide (n = length rows)); [lia|].
    destruct (lookup_lt_is_Some_2 (reverse rows) n) as [r Hr]; [rewrite length_reverse; lia|].
    by apply Hstop in Hr as [? _]. }
  replace (Nat.max 1 (Nat.min n (Nat.max (length rows) 1))) with n by lia.
  cbn zeta. split_and!; [lia|lia| |].
  - destruct Hsum as [?|?]; [left; lia|right; lia].
  - intros Hlt. destruct (lookup_lt_is_Some_2 (reverse rows) n) as [r Hr];
      [rewrite length_reverse; lia|]. by apply Hstop in Hr as [_ ?].
Qed.
End chunks.

(** ** The tool-safe cut *)

(** The cut splits the tail in two, keeps at least the messages asked for and at
    most one more, and never leaves a tool result at the head of the kept part
    whose call is the last overflowing message. *)
Theorem cut_never_splits_pair tail target_keep :
  let '(overflow, keep) := cut_at_tool_safe_boundary tail target_keep in
  overflow ++ keep = tail ∧
  Nat.min target_keep (length tail) ≤ length keep ≤ S (Nat.min target_keep (length tail)) ∧
  (∀ h id before, head keep = Some h → leading_result h = Some id →
     last overflow = Some before → assistant_calls before id = false).
Proof.
  unfold cut_at_tool_safe_boundary. set (cut := tool_safe_cut_index tail target_keep).
  assert (length tail - target_keep - 1 ≤ cut ≤ length tail - target_keep ∧
          (length tail ≤ target_keep → cut = 0) ∧
          ∀ h id before, tail !! cut = Some h → leading_result h = Some id →
            tail !! pred cut = Some before → 0 < cut → assistant_calls before id = false)
    as (Hb & H0 & Hsafe).
  { unfold cut, tool_safe_cut_index. set (c := length tail - target_keep).
    destruct (tail !! c) as [h|] eqn:Eh, (tail !! pred c) as [b|] eqn:Eb;
      try (split_and!; [lia|lia|lia|naive_solver]).
    unfold tool_result_head. destruct (leading_result h) as [id|] eqn:El;
      [|split_and!; [lia|lia|lia|naive_solver]].
    destruct ((0 <? c) && (c <? length tail) && assistant_calls b id) eqn:E; bools.
    - split_and!; [lia|lia|lia|]. intros h' id' b' Hh Hl _ _.
      replace (c - 1) with (pred c) in Hh by lia. assert (h' = b) as -> by congruence.
      by destruct b.
    - split_and!; [lia|lia|lia|]. intros h' id' b' Hh Hl Hb' Hpos.
      assert (h' = h) as -> by congruence. assert (b' = b) as -> by congruence.
      assert (id' = id) as -> by congruence.
      apply lookup_lt_Some in Hh. destruct (assistant_calls b id); [|done].
      apply andb_false_iff in E as [E|E]; [|done]. apply andb_false_iff in E as [E|E]; bools; lia. }
  assert (cut ≤ length tail) by lia.
  split_and!; [apply take_drop|rewrite length_drop; lia|rewrite length_drop; lia|].
  intros h id before Hh Hl Hlast. rewrite head_lookup, lookup_drop, Nat.add_0_r in Hh.
  rewrite last_lookup, length_take, Nat.min_l in Hlast by done.
  destruct (decide (cut = 0)) as [Hc|Hc]; [rewrite Hc in Hlast; by destruct tail|].
  rewrite lookup_take_lt in Hlast by lia. apply (Hsafe h id before); (done || lia).
Qed.

(** ** What becomes of an overflowing window *)

(** The rows of the seed anchor. *)
Definition founding (t : TailRow) : Prop := (Seq_get (tail_seq t) ≤ SEED_ANCHOR_MSGS)%Z.
#[export] Instance founding_dec t : Decision (founding t).
Proof. unfold founding. apply _. Defined.

(** [c] is the newest sequence number of [rows]. *)
Definition newest_of (rows : list TailRow) (c : Seq) : Prop :=
  c ∈ tail_seq <$> rows ∧ ∀ t, t ∈ rows → (Seq_get (tail_seq t) ≤ Seq_get c)%Z.

Lemma peel_loop_spec rows :
  ∃ covers,
    peel_loop (tail_seq <$> rows) (tail_message <$> rows)
    = (tail_message <$> filter founding rows,
       tail_message <$> filter (λ t, ¬ founding t) rows, covers) ∧
    match covers with
    | None => filter (λ t, ¬ founding t) rows = []
    | Some c => newest_of (filter (λ t, ¬ founding t) rows) c
    end.
Proof.
  induction rows as [|t rows (covers & IH & Hc)] using rev_ind; [by exists None|].
  unfold peel_loop in *. rewrite !fmap_app, zip_with_app, foldl_app, IH by (by rewrite !length_fmap).
  rewrite !filter_app, !filter_cons, !filter_nil. cbn [zip_with foldl fmap list_fmap].
  destruct (decide (founding t)) as [Hf|Hf].
  - rewrite (proj2 (Z.leb_le _ _) Hf), decide_False by tauto.
    rewrite !app_nil_r, !fmap_app. exists covers. by split.
  - rewrite (proj2 (Z.leb_gt _ _)) by (unfold founding in Hf; lia).
    rewrite decide_True, !app_nil_r, !fmap_app by done. eexists. split; [done|].
    cbn [fmap list_fmap].
    set (new := match covers with None => _ | Some _ => _ end).
    assert (Seq_get (tail_seq t) ≤ Seq_get new ∧
            (new = tail_seq t ∨ covers = Some new) ∧
            ∀ c, covers = Some c → Seq_get c ≤ Seq_get new)%Z as (H1 & H2 & H3).
    { unfold new. destruct covers as [c|]; [|naive_solver lia].
      destruct (Z.leb_spec (Seq_get c) (Seq_get (tail_seq t))); naive_solver lia. }
    split.
    + rewrite fmap_app, elem_of_app. destruct H2 as [->|H2]; [right; set_solver|].
      rewrite H2 in Hc. left. apply Hc.
    + intros u [Hu|Hu]%elem_of_app; [|by apply list_elem_of_singleton in Hu as ->].
      destruct covers as [c|]; [|rewrite Hc in Hu; set_solver].
      etrans; [by apply Hc|by apply H3].
Qed.

(** ** The calls of a fold *)

(** From its [i]-th call on, a fold that holds the text [acc] and has [chunks]
    left sends [reqs], records [samples] and ends with the result: every chunk is
    shown once, in order, together with the text the call before gave. *)
Inductive folding `{FoldStrategy} (env : FoldEnv) (deadline : Z) :
    nat → str → list (list ChatMessage) → list ChatRequest → list FoldSample →
    res CompactionError str → Prop :=
| fold_done i acc : folding env deadline i acc [] [] [] (Ok acc)
| fold_late i acc c cs :
    (deadline ≤ fe_now env i)%Z → folding env deadline i acc (c :: cs) [] [] (Err WallClockExceeded)
| fold_timeout i acc c cs :
    (fe_now env i < deadline)%Z → fe_send env i (fold_request acc c) = SendTimeout →
    folding env deadline i acc (c :: cs) [fold_request acc c] [] (Err SummarizerTimeout)
| fold_refused i acc c cs e :
    (fe_now env i < deadline)%Z → fe_send env i (fold_request acc c) = SendError e →
    folding env deadline i acc (c :: cs) [fold_request acc c] [] (Err (SummarizerProvider e))
| fold_empty i acc c cs resp :
    (fe_now env i < deadline)%Z → fe_send env i (fold_request acc c) = SendOk resp →
    extract_text resp = None →
    folding env deadline i acc (c :: cs) [fold_request acc c]
      [mkFoldSample (fe_started_at env i) (fe_duration env i) resp] (Err SummarizerEmpty)
| fold_step i acc c cs resp acc' reqs samples r :
    (fe_now env i < deadline)%Z → fe_send env i (fold_request acc c) = SendOk resp →
    extract_text resp = Some acc' →
    folding env deadline (S i) acc' cs reqs samples r →
    folding env deadline i acc (c :: cs) (fold_request acc c :: reqs)
      (mkFoldSample (fe_started_at env i) (fe_duration env i) resp :: samples) r.

Lemma fold_loop_folding (strategy : FoldStrategy) env deadline chunks i acc samples r samples' :
  fold_loop env deadline chunks i acc samples = (r, samples') →
  ∃ reqs new, samples' = samples ++ new ∧ folding env deadline i acc chunks reqs new r.
Proof.
  revert i acc samples. induction chunks as [|c chunks IH]; intros i acc samples; cbn [fold_loop].
  { intros [= <- <-]. exists [], []. rewrite app_nil_r. split; [done|constructor]. }
  destruct (Z.leb_spec deadline (fe_now env i)).
  { intros [= <- <-]. exists [], []. rewrite app_nil_r. by split; [|constructor]. }
  destruct (fe_send env i (fold_request acc c)) as [|e|resp] eqn:Es.
  1, 2: intros [= <- <-]; eexists _, []; rewrite app_nil_r; split; [done|]; by econstructor.
  cbn zeta. destruct (extract_text resp) as [acc'|] eqn:Et.
  - intros (reqs & new & -> & Hf)%IH. eexists _, (_ :: new).
    rewrite <-(assoc_L (++)). split; [done|]. by econstructor.
  - intros [= <- <-]. eexists _, [_]. split; [done|]. by econstructor.
Qed.

(** What a fold asks for is counted by its chunks; a fold that succeeds showed all
    of them, and an answer is recorded for each call that got one. *)
Lemma folding_calls `{FoldStrategy} env deadline i acc chunks reqs samples r :
  folding env deadline i acc chunks reqs samples r →
  length samples ≤ length reqs ≤ length chunks ∧
  (∀ req, req ∈ reqs → ∃ a c, c ∈ chunks ∧ req = fold_request a c) ∧
  (∀ m, r ≠ Panic m) ∧
  (is_ok r = true → length samples = length chunks ∧
     ∀ c, c ∈ chunks → ∃ a, fold_request a c ∈ reqs).
Proof.
  induction 1 as [| | | | |i acc c cs resp acc' reqs samples r _ _ _ _ (Hl & Hr & Hp & Hok)];
    cbn [length]; (split; [lia|]); (split; [set_solver|]); (split; [done|]); try done.
  { intros _. split; [done|]. set_solver. }
  intros [Hn Hc]%Hok. split; [lia|]. intros d [->|Hd]%elem_of_cons; [eexists; by left|].
  apply Hc in Hd as [a Hd]. exists a. by right.
Qed.

(** The chunks a fold pass makes of the messages, the oldest of which it gives up
    when there are more than it may show, and the calls it makes for the others. *)
Record fold_pass `{JsonPrinter, FoldStrategy} (env : FoldEnv) (deadline : Z) (prev : option str)
    (messages : list ChatMessage) (dropped chunks : list (list ChatMessage))
    (reqs : list ChatRequest) (samples : list FoldSample) (r : res CompactionError str) : Prop := {
  pass_all : mjoin dropped ++ mjoin chunks = messages;
  pass_fit : Forall (chunk_ok input_budget) (dropped ++ chunks);
  pass_cap : length samples ≤ length reqs ≤ length chunks ∧ length chunks ≤ MAX_COMPACTION_CHUNKS;
  pass_dropped : dropped ≠ [] → length chunks = MAX_COMPACTION_CHUNKS;
  pass_calls : folding env deadline 0 (seed prev) chunks reqs samples r;
  pass_shown : is_ok r = true → ∀ c, c ∈ chunks → ∃ a, fold_request a c ∈ reqs }.

Lemma drop_oldest_split {A} (chunks : list A) :
  ∃ dropped, chunks = dropped ++ drop_oldest_chunks chunks ∧
    length (drop_oldest_chunks chunks) ≤ MAX_COMPACTION_CHUNKS ∧
    (dropped ≠ [] → length (drop_oldest_chunks chunks) = MAX_COMPACTION_CHUNKS).
Proof.
  unfold drop_oldest_chunks. destruct (MAX_COMPACTION_CHUNKS <? length chunks) eqn:E; bools.
  - exists (take (length chunks - MAX_COMPACTION_CHUNKS) chunks).
    rewrite take_drop, length_drop. split_and!; [done|lia|lia].
  - by exists [].
Qed.

Lemma run_fold_pass_spec `{JsonPrinter} (strategy : FoldStrategy) env prev messages deadline r samples :
  run_fold_pass env prev messages deadline [] = (r, samples) →
  (∀ m, r ≠ Panic m) ∧
  ∃ dropped chunks reqs, fold_pass env deadline prev messages dropped chunks reqs samples r.
Proof.
  unfold run_fold_pass. destruct (drop_oldest_split (split_chunks messages input_budget))
    as (dropped & Hsplit & Hcap & Hfull).
  destruct (split_chunks_partition messages input_budget) as [Hjoin Hfit].
  set (chunks := drop_oldest_chunks _) in *. rewrite (proj2 (Nat.leb_le _ _) Hcap). cbn [negb].
  intros (reqs & new & -> & Hf)%fold_loop_folding. destruct (folding_calls _ _ _ _ _ _ _ _ Hf) as (Hl & _ & Hp & Hok).
  split; [done|]. exists dropped, chunks, reqs. rewrite Hsplit in Hjoin, Hfit. split; try done.
  - by rewrite <-join_app.
  - intros Hres. by apply Hok.
Qed.

Lemma save_then_load org thread agent summary covers tokens s r s' :
  save_compaction org thread agent summary covers tokens s = (r, s') →
  match r with
  | Ok _ => load_compaction thread agent s'
            = Ok (Some (mkThreadCompaction summary covers tokens 0 None))
            ∧ thread_messages s' = thread_messages s
  | Err _ => s' = s
  | Panic _ => False
  end.
Proof.
  unfold save_compaction, put_compaction. set (row := match _ with None => _ | Some _ => _ end).
  destruct (compaction_checks row) eqn:Hc; intros [= <- <-]; [|done].
  assert (cr_summary row = summary ∧ cr_covers_through_seq row = Seq_get covers
          ∧ cr_summary_tokens row = tokens ∧ cr_failed_attempts row = 0%Z
          ∧ cr_cooldown_until row = None) as (H1 & H2 & H3 & H4 & H5)
    by (unfold row; destruct (thread_compactions s !! _); done).
  unfold compaction_checks in Hc. bools. split; [|done]. unfold load_compaction.
  cbn [thread_compactions set_compactions]. rewrite lookup_insert_eq, H1, H2, H3, H4, H5.
  unfold Seq_try_from. rewrite (proj2 (Z.ltb_ge _ _)) by lia. by destruct covers.
Qed.

Lemma bump_or_same org thread agent until s r s' :
  bump_cooldown org thread agent until s = (r, s') →
  match r with Ok _ => True | Err _ => s' = s | Panic _ => False end.
Proof.
  unfold bump_cooldown, put_compaction. destruct (compaction_checks _); by intros [= <- <-].
Qed.

(** The outcome of an overflow, row by row. *)
Record overflow_split (rows anchor folded keep : list TailRow) : Prop := {
  split_older : ∃ older, rows = older ++ keep ∧ anchor = filter founding older ∧
                         folded = filter (λ t, ¬ founding t) older }.

Lemma sorted_split rows anchor folded keep c :
  overflow_split rows anchor folded keep →
  StronglySorted Z.lt ((Seq_get ∘ tail_seq) <$> rows) → newest_of folded c →
  ∀ t, t ∈ keep → (Seq_get c < Seq_get (tail_seq t))%Z.
Proof.
  intros [(older & -> & _ & ->)] Hs [Hc _] t Ht. apply list_elem_of_fmap in Hc as (u & -> & Hu).
  apply list_elem_of_filter in Hu as [_ Hu]. induction older as [|o older IH]; [set_solver|].
  cbn in Hs. apply StronglySorted_inv in Hs as [Hs Hf]. apply elem_of_cons in Hu as [->|Hu].
  - rewrite Forall_forall in Hf. apply Hf. rewrite fmap_app. apply elem_of_app. right.
    apply list_elem_of_fmap. by exists t.
  - by apply IH.
Qed.

(** The strategy [compact_overflow] folds with. *)
Definition overflow_fold (env : TurnEnv) : FoldStrategy :=
  CompactionFold (fold_system (te_persona env)) (te_model env) (te_max_output_tokens env).

(** What became of the folded rows: the store and the effects the turn leaves,
    by the result of the fold and of the write of it. *)
Definition fold_stored (env : TurnEnv) (thread : ThreadId) (agent : AgentId)
    (prior : PriorCompaction) (folded keep rows : list TailRow) (s s' : store)
    (result : res CompactionError str) (r : res ThreadError AgentContext)
    (alerts : list effect) : Prop :=
  match result with
  | Ok acc =>
      alerts = [] ∧
      match r with
      | Ok ctx =>
          ∃ covers tokens, newest_of folded covers ∧ ctx_summary ctx = Some (clamp acc) ∧
            (count (CompactionSummary_as_str (clamp acc)) ≤ SUMMARY_CAP_CHARS)%Z ∧
            load_compaction thread agent s'
            = Ok (Some (mkThreadCompaction (CompactionSummary_as_str (clamp acc)) covers tokens 0 None)) ∧
            (StronglySorted Z.lt ((Seq_get ∘ tail_seq) <$> rows) →
             ∀ t, t ∈ keep → (Seq_get covers < Seq_get (tail_seq t))%Z)
      | _ => s' = s
      end
  | _ =>
      match r with
      | Ok ctx =>
          ctx_summary ctx = clamp <$> prior_summary prior ∧
          bump_cooldown (te_org env) thread agent (te_failure_utc env + COMPACTION_COOLDOWN)%Z s
          = (Ok tt, s') ∧
          alerts = (if (2 <=? prior_failed_attempts prior)%Z
                    then [FailureAlert (i32_saturating_add (prior_failed_attempts prior) 1)] else [])
      | _ => s' = s ∧ alerts = []
      end
  end.

Lemma alert_spec n : crosses_failure_alert n = (2 <=? n)%Z.
Proof.
  unfold crosses_failure_alert, COMPACTION_FAILURE_ALERT_THRESHOLD, i32_saturating_add, I32_MAX.
  destruct (Z.leb_spec 2 n), (Z.leb_spec 3 (Z.max (-2147483647 - 1) (Z.min 2147483647 (n + 1)))); lia.
Qed.

Lemma persist_stored env thread agent prior folded keep rows anchor covers acc s r0 s' :
  overflow_split rows anchor folded keep → newest_of folded covers →
  persist_compaction env thread agent (Some covers) (clamp acc) s = (r0, s') →
  (∀ m, r0 ≠ Panic m) ∧
  ∀ msgs, fold_stored env thread agent prior folded keep rows s s' (Ok acc)
    (r0 ;;? Ok (mkAgentContext (Some (clamp acc)) msgs)) [].
Proof.
  intros Hsplit Hcov Ev. apply save_then_load in Ev.
  destruct r0 as [u|e|m]; [|by split|done]. split; [done|]. intros msgs.
  split; [done|]. cbn. eexists covers, _. split; [done|]. split; [done|].
  split; [by destruct (clamp_bounded_keeps_sections acc)|]. split; [apply Ev|].
  intros Hs. by apply (sorted_split rows anchor folded keep).
Qed.

(** C6: An overflowing window never panics, and what becomes of each of its rows
    is known. It is an older part and a kept tail; of the older part the founding
    rows and the whole tail are shown verbatim, and the rest is folded. Folding
    cuts it into chunks within the summarizer's budget (a single message may
    exceed it), gives up the oldest chunks when there are more than
    [MAX_COMPACTION_CHUNKS], and shows every other chunk, in order and with the
    summary so far, in one request each, so at most [MAX_COMPACTION_CHUNKS]
    requests are sent; the only metrics are those of the answered requests. If
    the fold succeeds, all those chunks were shown, and the bounded summary is
    shown and stored with the newest folded number as its watermark; when the
    window was in order every kept row is still above it. If it fails, the summary
    of before is shown, only the failure is recorded and the third failure in a
    row or later raises an alert. If the store fails, nothing is stored. *)
Theorem compact_overflow_accounts `{JsonPrinter} env thread agent prior tail s r s' es :
  compact_overflow env thread agent prior tail s = (r, s', es) →
  ∃ anchor folded keep,
    overflow_split (tail_rows tail) anchor folded keep ∧
    match r with
    | Ok ctx => ctx_messages ctx = tail_message <$> anchor ++ keep
    | Err _ => s' = s
    | Panic _ => False
    end ∧
    ((folded = [] ∧ s' = s ∧ es = [] ∧
      ∃ ctx, r = Ok ctx ∧ ctx_summary ctx = clamp <$> prior_summary prior) ∨
     (folded ≠ [] ∧ ∃ dropped chunks reqs samples result alerts,
        fold_pass (H0 := overflow_fold env) (te_fold env)
          (te_fold_start env + MAX_COMPACTION_WALL_CLOCK)%Z (prior_summary prior)
          (tail_message <$> folded) dropped chunks reqs samples result ∧
        es = (Metered <$> samples) ++ alerts ∧
        fold_stored env thread agent prior folded keep (tail_rows tail) s s' result r alerts)).
Proof.
  unfold compact_overflow. destruct tail as [rows]. cbn [tail_rows].
  set (cut := tool_safe_cut_index _ _).
  assert (overflow_split rows (filter founding (take cut rows))
            (filter (λ t, ¬ founding t) (take cut rows)) (drop cut rows)) as Hsplit
    by (constructor; exists (take cut rows); by rewrite take_drop).
  destruct (cut =? 0) eqn:E0; bools.
  { intros [= <- <- <-]. rewrite E0 in *. exists [], [], rows. cbn in Hsplit.
    rewrite drop_0 in Hsplit. split_and!; try done. left. naive_solver. }
  rewrite <-!fmap_take, <-!fmap_drop. unfold peel_seed_anchor.
  rewrite !length_fmap, (proj2 (Nat.eqb_eq _ _) eq_refl). cbn [rassert res_bind].
  destruct (peel_loop_spec (take cut rows)) as (covers & -> & Hcov).
  set (anchor := filter founding (take cut rows)) in *.
  set (folded := filter (λ t, ¬ founding t) (take cut rows)) in *.
  set (keep := drop cut rows) in *. rewrite <-fmap_app.
  destruct (is_empty (tail_message <$> folded)) eqn:Ef; bools.
  { intros [= <- <- <-]. apply fmap_nil_inv in Ef. exists anchor, folded, keep.
    split_and!; try done. left. naive_solver. }
  assert (folded ≠ []) as Hne by (by intros Hn; rewrite Hn in Ef).
  destruct covers as [c|]; [|done]. unfold summarize. cbn [cp_perspective cp_model cp_max_output_tokens].
  fold (overflow_fold env). destruct (run_fold_pass _ _ _ _ _) as [result samples] eqn:Es.
  apply run_fold_pass_spec in Es as (Hp & dropped & chunks & reqs & Hpass).
  destruct result as [acc|e|m]; [| |by destruct (Hp m)].
  - destruct (persist_compaction _ _ _ _ _ s) as [r0 s0] eqn:Ev.
    destruct (persist_stored _ _ _ prior _ _ _ _ _ _ _ _ _ Hsplit Hcov Ev) as [Hnp Hst].
    destruct r0 as [[]|e|m]; [| |by destruct (Hnp m)]; intros [= <- <- <-];
      exists anchor, folded, keep; (split; [done|]).
    + split; [done|]. right. split; [done|]. exists dropped, chunks, reqs, samples, (Ok acc), [].
      rewrite app_nil_r. split_and!; [done|done|apply Hst].
    + split; [apply (Hst [])|]. right. split; [done|].
      exists dropped, chunks, reqs, samples, (Ok acc), [].
      rewrite app_nil_r. split_and!; [done|done|apply (Hst [])].
  - unfold handle_compaction_failure. destruct (bump_cooldown _ _ _ _ _) as [r0 s0] eqn:Eb.
    pose proof (bump_or_same _ _ _ _ _ _ _ Eb) as Hb. rewrite alert_spec.
    destruct r0 as [[]| |]; [| |done]; intros [= <- <- <-];
      exists anchor, folded, keep; (split; [done|]); (split; [done|]); right; (split; [done|]);
      eexists dropped, chunks, reqs, samples, (Err e), _; (split; [done|]); by split.
Qed.

(** ** A concrete overflow *)

Module Overflow.
#[local] Instance json : JsonPrinter := λ _, [].

(** The sentinel row of the test catalog: a window of 2000 tokens. *)
Definition small : Model :=
  mkModel (mkCatalogEntry "test-model" Anthropic (mkContextWindow 2000) ALL_CAPABILITIES).
Definition filler : str := repeat 97%N 1500.
Definition agent_row (k : MessageKind) (m : ChatMessage) : NewMessage :=
  mkNewMessage k None (Some Feed.agent) None m None None.
Definition peer_post (text : str) : NewMessage :=
  mkNewMessage KPosted (Some 3%N) None None (User [UText text]) None None.
Definition marker : str := lit "PEER".

(** A post of a peer lands between an agent's tool call and its result. *)
Definition feed : store :=
  Feed.step (agent_row KToolResult (User [UToolResult (mkToolResult Feed.call filler false)])) 104
    (Feed.step (peer_post (marker ++ filler)) 103
       (Feed.step (agent_row KToolUse
                     (Assistant [AText filler; AToolCall (mkToolCall Feed.call (mkToolName (lit "t")) Null)]))
          102 (Feed.step (peer_post filler) 101 Feed.empty))).

(** A summarizer that answers any request, except one that shows it the post. *)
Definition summarizer (_ : nat) (r : ChatRequest) : SendResult :=
  if existsb (λ m, existsb (contains_str marker) (texts m)) (cq_messages r)
  then SendError (lit "unexpected")
  else SendOk (mkChatResponse [AText (lit "Facts: folded")] EndTurn (mkUsage 1 1 None None) None).
Definition env : TurnEnv :=
  mkTurnEnv 1 small (mkMaxOutputTokens 1000) None 0 0 0 None
    (mkFoldEnv (λ _, 1%Z) (λ _, 1%Z) (λ _, 1%Z) summarizer).
Definition viewer : ColleagueId := 9%N.
Definition resolve (s : store) : res ThreadError AgentContext * store * list effect :=
  resolve_agent_context env Feed.thread Feed.agent viewer (λ _, None) s.
Definition tail : ContextTail :=
  default (mkContextTail [])
    (res_ok (context_tail Feed.thread Feed.agent viewer Seq_ZERO (λ _, None) feed)).
Definition outcome := compact_overflow env Feed.thread Feed.agent (mkPriorCompaction None 0) tail feed.

(** Whether a context shows the post, in its messages or its summary. *)
Definition shows_post (r : res ThreadError AgentContext) : bool :=
  match r with
  | Ok c => existsb (λ m, existsb (contains_str marker) (texts m)) (ctx_messages c)
            || match ctx_summary c with
               | Some sm => contains_str marker (CompactionSummary_as_str sm)
               | None => false
               end
  | _ => false
  end.
Definition watermark (s : store) : option Seq :=
  match load_compaction Feed.thread Feed.agent s with
  | Ok (Some c) => Some (tc_covers_through_seq c)
  | _ => None
  end.
End Overflow.

(** The watermark hides a row that was never summarised: the pair moves ahead of
    the interleaved post, the cut keeps only the post, and the stored watermark is
    the number of the folded result, above the post's. The summarizer never saw
    the post (it fails on any request that shows it), this turn's context shows
    it, the next turn's, a well formed one, does not. *)
Lemma compaction_hides_interleaved_post :
  let '(now, s', _) := Overflow.resolve Overflow.feed in
  let '(next, _, _) := Overflow.resolve s' in
  Overflow.watermark s' = Some (mkSeq 4) ∧
  Overflow.shows_post now = true ∧ is_ok next = true ∧ Overflow.shows_post next = false.
Proof. vm_compute. repeat split. Qed.

(** The overflow above asks the summarizer once, and the theorem says what for. *)
Lemma compact_overflow_accounts_witness :
  length Overflow.outcome.2 = 1 ∧
  ∃ folded dropped chunks reqs samples result, folded ≠ [] ∧
    @fold_pass Overflow.json (overflow_fold Overflow.env) (te_fold Overflow.env)
      (te_fold_start Overflow.env + MAX_COMPACTION_WALL_CLOCK)%Z
      (prior_summary (mkPriorCompaction None 0)) (tail_message <$> folded) dropped chunks reqs samples result.
Proof.
  split; [by vm_compute|].
  assert (length (@compact_overflow Overflow.json Overflow.env Feed.thread Feed.agent
            (mkPriorCompaction None 0) Overflow.tail Overflow.feed).2 = 1) as Hone by (by vm_compute).
  destruct (@compact_overflow Overflow.json Overflow.env Feed.thread Feed.agent
              (mkPriorCompaction None 0) Overflow.tail Overflow.feed) as [[r s'] es] eqn:E.
  destruct (@compact_overflow_accounts Overflow.json Overflow.env Feed.thread Feed.agent
              (mkPriorCompaction None 0) Overflow.tail Overflow.feed r s' es E)
    as (anchor & folded & keep & _ & _ & Hout). clear E. cbn [snd] in Hone.
  destruct Hout as [(_ & _ & Hes & _)|Hout]; [by rewrite Hes in Hone|].
  destruct Hout as (Hne & dropped & chunks & reqs & samples & result & _ & Hpass & _).
  by exists folded, dropped, chunks, reqs, samples, result.
Defined.

Lemma keep_count_bounds_witness :
  1 ≤ @keep_count Overflow.json (tail_rows Overflow.tail) 500 ≤ length (tail_rows Overflow.tail).
Proof.
  refine (proj1 (@keep_count_bounds Overflow.json (tail_rows Overflow.tail) 500 _ _ _)); by vm_compute.
Defined.
