(* ===== verification/Scheduling.v ===== *)
(** * Scheduled tasks

    [scheduling/types.rs], [scheduling/pg_store.rs] and [scheduling/scheduler.rs]:
    when a task fires next, the task table, and the tick that turns a due task
    into a thread and a queue trigger. *)

From Stdlib Require Import ZArith Lia Ascii String.
From stdpp Require Import base gmap list strings sets.
From S2P Require Import Prelude Types Queue Threads.

(** ** Limits ([scheduling/limits.rs]) *)

Definition SCHEDULED_TASK_NAME_MAX_LEN : nat := 200.
Definition MAX_SCHEDULED_TASKS_PER_AGENT : nat := 50.
Definition SCHEDULED_TASK_BATCH_LIMIT : nat := 20.

Abbreviation ScheduledTaskId := N (only parsing).
Abbreviation ChannelId := N (only parsing).

(** ** Names, prompts, weekdays and wall times *)

Record ScheduledTaskName := mkScheduledTaskName { ScheduledTaskName_as_str : str }.
Record ScheduledPrompt := mkScheduledPrompt { ScheduledPrompt_as_str : str }.

Definition ScheduledTaskName_try_from (raw : str) : res ParseError ScheduledTaskName :=
  if is_empty raw then Err (Empty "scheduled_task_name")
  else if SCHEDULED_TASK_NAME_MAX_LEN <? str_len raw
  then Err (TooLong "scheduled_task_name" SCHEDULED_TASK_NAME_MAX_LEN (str_len raw))
  else Ok (mkScheduledTaskName raw).

Definition ScheduledPrompt_try_from (raw : str) : res ParseError ScheduledPrompt :=
  if is_empty (trim raw) then Err (Empty "scheduled_prompt")
  else if PROMPT_MAX_BYTES <? str_len raw
  then Err (TooLong "scheduled_prompt" PROMPT_MAX_BYTES (str_len raw))
  else Ok (mkScheduledPrompt raw).

Inductive Weekday := Mon | Tue | Wed | Thu | Fri | Sat | Sun.
#[export] Instance Weekday_eq_dec : EqDecision Weekday.
Proof. solve_decision. Defined.

Definition Weekday_as_str (w : Weekday) : string :=
  match w with
  | Mon => "mon" | Tue => "tue" | Wed => "wed" | Thu => "thu"
  | Fri => "fri" | Sat => "sat" | Sun => "sun"
  end.
#[export] Instance Weekday_StrEnum : StrEnum Weekday.
Proof.
  refine {| ALL := [Mon; Tue; Wed; Thu; Fri; Sat; Sun]; as_str := Weekday_as_str |};
    abstract str_enum.
Defined.

Definition bit (w : Weekday) : Z :=
  match w with
  | Mon => 0 | Tue => 1 | Wed => 2 | Thu => 3 | Fri => 4 | Sat => 5 | Sun => 6
  end.

(** A calendar date is the number of days since 1970-01-01, a Thursday. *)
Definition weekday_of (day : Z) : Weekday :=
  match ((day + 3) mod 7)%Z with
  | 0 => Mon | 1 => Tue | 2 => Wed | 3 => Thu | 4 => Fri | 5 => Sat | _ => Sun
  end%Z.

(** A byte with one bit per day. *)
Record Weekdays := mkWeekdays { bits : Z }.
#[export] Instance Weekdays_eq_dec : EqDecision Weekdays.
Proof. solve_decision. Defined.

Definition Weekdays_ALL : Weekdays := mkWeekdays 127.
Definition WORKDAYS : Weekdays := mkWeekdays 31.
Definition WEEKENDS : Weekdays := mkWeekdays 96.

Definition Weekdays_try_from_iter (ws : list Weekday) : res ParseError Weekdays :=
  let bits := foldl (λ b w, Z.lor b (Z.shiftl 1 (bit w))) 0%Z ws in
  if (bits =? 0)%Z then Err (Empty "weekdays") else Ok (mkWeekdays bits).

Definition Weekdays_is_empty (w : Weekdays) : bool := (bits w =? 0)%Z.
Definition contains (ws : Weekdays) (w : Weekday) : bool :=
  negb (Z.land (bits ws) (Z.shiftl 1 (bit w)) =? 0)%Z.
Definition Weekdays_iter (ws : Weekdays) : list Weekday :=
  filter (λ w, contains ws w = true) [Mon; Tue; Wed; Thu; Fri; Sat; Sun].

Record TimeOfDay := mkTimeOfDay { hour : Z; minute : Z }.
#[export] Instance TimeOfDay_eq_dec : EqDecision TimeOfDay.
Proof. solve_decision. Defined.

Definition TimeOfDay_try_new (hour minute : Z) : res ParseError TimeOfDay :=
  if (23 <? hour)%Z then Err (OutOfRange "time_of_day.hour" "0..=23")
  else if (59 <? minute)%Z then Err (OutOfRange "time_of_day.minute" "0..=59")
  else Ok (mkTimeOfDay hour minute).

(** ["{:02}"] of a value below 100. *)
Definition two_digits (n : Z) : str :=
  [(48 + Z.to_N (n / 10))%N; (48 + Z.to_N (n mod 10))%N].
Definition TimeOfDay_serialize (t : TimeOfDay) : str :=
  two_digits (hour t) ++ [0x3a%N] ++ two_digits (minute t).

Definition digit_value (c : N) : option Z :=
  if (48 <=? c)%N && (c <=? 57)%N then Some (Z.of_N c - 48)%Z else None.

(** [u8::from_str] on two characters: an optional sign, then digits. *)
Definition parse_u8_2 (a b : N) : option Z :=
  match digit_value a, digit_value b with
  | Some x, Some y => Some (10 * x + y)%Z
  | None, Some y => if (a =? 0x2b)%N then Some y else None
  | _, None => None
  end.

Definition TimeOfDay_deserialize (raw : str) : res string TimeOfDay :=
  match raw with
  | [a; b; colon; c; d] =>
      if negb (str_len raw =? 5) || negb (colon =? 0x3a)%N
      then Err "time_of_day must be HH:MM"%string
      else match parse_u8_2 a b, parse_u8_2 c d with
      | None, _ => Err "time_of_day hour"%string
      | Some _, None => Err "time_of_day minute"%string
      | Some h, Some m => res_map_err (λ _, "time_of_day range"%string) (TimeOfDay_try_new h m)
      end
  | _ => Err "time_of_day must be HH:MM"%string
  end.

(** ** The next fire *)

(** [chrono::offset::MappedLocalTime] *)
Inductive MappedLocalTime :=
| NoLocal
| Single (utc : Z)
| Ambiguous (earliest later : Z).

(** A time zone is what [chrono_tz] makes of it: the local date of an instant
    and the instants of a wall time. *)
Record Tz := mkTz {
  local_date : Z → Z;
  with_ymd_and_hms : Z → Z → Z → MappedLocalTime }.

Inductive ScheduleSpec :=
| Once (run_at : Z)
| Recurring (weekdays : Weekdays) (time : TimeOfDay) (tz : Tz).

(** The instant a wall time denotes on a date: the earlier one when it exists
    twice, none in a gap. *)
Definition fire_instant (tz : Tz) (time : TimeOfDay) (date : Z) : option Z :=
  match with_ymd_and_hms tz date (hour time) (minute time) with
  | NoLocal => None
  | Single dt => Some dt
  | Ambiguous earliest _ => Some earliest
  end.

(** The loop of [next_recurring], [fuel] candidate dates from [date] on. *)
Fixpoint next_recurring_loop (now : Z) (weekdays : Weekdays) (time : TimeOfDay) (tz : Tz)
    (date : Z) (fuel : nat) : option Z :=
  match fuel with
  | 0 => None
  | S fuel' =>
      let continue := next_recurring_loop now weekdays time tz (date + 1)%Z fuel' in
      if negb (contains weekdays (weekday_of date)) then continue
      else match fire_instant tz time date with
      | None => continue
      | Some utc_dt => if (now <? utc_dt)%Z then Some utc_dt else continue
      end
  end.

(** Offsets 0 to 8. *)
Definition next_recurring (now : Z) (weekdays : Weekdays) (time : TimeOfDay) (tz : Tz) : option Z :=
  next_recurring_loop now weekdays time tz (local_date tz now) 9.

Definition next_after (s : ScheduleSpec) (now : Z) : option Z :=
  match s with
  | Once run_at => if (now <? run_at)%Z then Some run_at else None
  | Recurring weekdays time tz =>
      if Weekdays_is_empty weekdays then None else next_recurring now weekdays time tz
  end.

(** ** The task table *)

Inductive ScheduledTaskState := TaskActive | TaskDone | TaskCancelled.
#[export] Instance ScheduledTaskState_eq_dec : EqDecision ScheduledTaskState.
Proof. solve_decision. Defined.

Record ScheduledTaskRecord := mkScheduledTaskRecord {
  tk_id : ScheduledTaskId;
  tk_owner_agent_id : AgentId;
  tk_org_id : OrgId;
  tk_created_by_user_id : UserId;
  tk_channel_id : option ChannelId;
  tk_name : ScheduledTaskName;
  tk_prompt : ScheduledPrompt;
  tk_schedule : ScheduleSpec;
  tk_next_run_at : option Z;
  tk_last_fired_at : option Z;
  tk_last_request_id : option PromptRequestId;
  tk_state : ScheduledTaskState;
  tk_created_at : Z;
  tk_updated_at : Z }.

Record NewScheduledTask := mkNewScheduledTask {
  nk_owner_agent_id : AgentId;
  nk_org_id : OrgId;
  nk_created_by_user_id : UserId;
  nk_channel_id : option ChannelId;
  nk_name : ScheduledTaskName;
  nk_prompt : ScheduledPrompt;
  nk_schedule : ScheduleSpec;
  nk_next_run_at : option Z }.

Inductive ScheduledTaskError :=
| TaskNotFound (task : ScheduledTaskId)
| PerAgentCapExceeded (agent : AgentId) (max : nat)
| TaskParse (e : ParseError)
| TaskQueue (e : PromptError)
| TaskThread (e : ThreadError)
| TaskDb (msg : string)
| TaskBackend (msg : str).

(** [row_to_record] parses the text columns again. *)
Definition row_to_record (r : ScheduledTaskRecord) : res ScheduledTaskError ScheduledTaskRecord :=
  _ <-? res_map_err TaskParse (ScheduledTaskName_try_from (ScheduledTaskName_as_str (tk_name r))) ;
  _ <-? res_map_err TaskParse (ScheduledPrompt_try_from (ScheduledPrompt_as_str (tk_prompt r))) ;
  Ok r.

Fixpoint records (rows : list ScheduledTaskRecord)
    : res ScheduledTaskError (list ScheduledTaskRecord) :=
  match rows with
  | [] => Ok []
  | r :: rows' => a <-? row_to_record r ; l <-? records rows' ; Ok (a :: l)
  end.

Definition active_of (owner : AgentId) (r : ScheduledTaskRecord) : Prop :=
  tk_owner_agent_id r = owner ∧ tk_state r = TaskActive.
#[export] Instance active_of_dec o r : Decision (active_of o r).
Proof. unfold active_of. apply _. Defined.

Abbreviation table := (list ScheduledTaskRecord) (only parsing).

(** [visible] is the row filter of the transaction: everything in a privileged
    one, the caller's organisations otherwise; [fk_ok] the foreign keys and the
    parent-organisation trigger. *)
Definition create_in_tx (visible : OrgId → bool) (fk_ok : bool) (id : ScheduledTaskId)
    (now : Z) (p : NewScheduledTask) (t : table) : res ScheduledTaskError ScheduledTaskRecord * table :=
  let owner := nk_owner_agent_id p in
  let count := length (filter (λ r, active_of owner r ∧ visible (tk_org_id r) = true) t) in
  if MAX_SCHEDULED_TASKS_PER_AGENT <=? count
  then (Err (PerAgentCapExceeded owner MAX_SCHEDULED_TASKS_PER_AGENT), t)
  else if negb (visible (nk_org_id p)) then (Err (TaskDb "row-level security"), t)
  else if negb fk_ok then (Err (TaskDb "foreign key or trigger"), t)
  else if bool_decide (id ∈ (tk_id <$> t)) then (Err (TaskDb "scheduled_tasks_pkey"), t)
  else
    let row := mkScheduledTaskRecord id owner (nk_org_id p) (nk_created_by_user_id p)
                 (nk_channel_id p) (nk_name p) (nk_prompt p) (nk_schedule p)
                 (nk_next_run_at p) None None TaskActive now now in
    match row_to_record row with
    | Ok r => (Ok r, t ++ [row])
    | Err e => (Err e, t)
    | Panic m => (Panic m, t)
    end.

Definition create fk_ok id now p t := create_in_tx (λ _, true) fk_ok id now p t.
Definition create_for_user (members : OrgId → bool) fk_ok (acting_user_id : UserId) id now
    (p : NewScheduledTask) t :=
  create_in_tx members fk_ok id now
    (mkNewScheduledTask (nk_owner_agent_id p) (nk_org_id p) acting_user_id (nk_channel_id p)
       (nk_name p) (nk_prompt p) (nk_schedule p) (nk_next_run_at p)) t.

Definition set_cursor (last_fired_at : option Z) (last_request_id : option PromptRequestId)
    (next_run_at : option Z) (state : ScheduledTaskState) (now : Z) (r : ScheduledTaskRecord)
    : ScheduledTaskRecord :=
  mkScheduledTaskRecord (tk_id r) (tk_owner_agent_id r) (tk_org_id r) (tk_created_by_user_id r)
    (tk_channel_id r) (tk_name r) (tk_prompt r) (tk_schedule r) next_run_at last_fired_at
    last_request_id state (tk_created_at r) now.

Definition cancel_in_tx (visible : OrgId → bool) (task : ScheduledTaskId) (owner : AgentId)
    (now : Z) (t : table) : res ScheduledTaskError unit * table :=
  match List.find (λ r, bool_decide (tk_id r = task) && bool_decide (tk_owner_agent_id r = owner)
                        && visible (tk_org_id r)) t with
  | None => (Err (TaskNotFound task), t)
  | Some r =>
      if negb (bool_decide (tk_state r = TaskActive)) then (Ok tt, t)
      else (Ok tt,
            update_where (λ r, tk_id r = task)
              (λ r, set_cursor (tk_last_fired_at r) (tk_last_request_id r) None TaskCancelled now r) t)
  end.

Definition list_for_agent (owner : AgentId) (t : table)
    : res ScheduledTaskError (list ScheduledTaskRecord) :=
  let rows := take MAX_SCHEDULED_TASKS_PER_AGENT
                (sort_by tk_created_at (filter (active_of owner) t)) in
  rassert (length rows <=? MAX_SCHEDULED_TASKS_PER_AGENT)
    "invariant: list_for_agent exceeded per-agent cap" ;;?
  records rows.

Definition due (now : Z) (r : ScheduledTaskRecord) : Prop :=
  tk_state r = TaskActive ∧
  match tk_next_run_at r with Some t => (t ≤ now)%Z | None => False end.
#[export] Instance due_dec now r : Decision (due now r).
Proof. unfold due. destruct (tk_next_run_at r); apply _. Defined.

Definition claim_due (now : Z) (limit : nat) (t : table)
    : res ScheduledTaskError (list ScheduledTaskRecord) :=
  records (take limit (sort_by (λ r, default 0%Z (tk_next_run_at r)) (filter (due now) t))).

Definition record_fired (task : ScheduledTaskId) (request_id : PromptRequestId) (fired_at : Z)
    (next_run_at : option Z) (now : Z) (t : table) : table :=
  let next_state := if next_run_at then TaskActive else TaskDone in
  update_where (λ r, tk_id r = task)
    (set_cursor (Some fired_at) (Some request_id) next_run_at next_state now) t.

(** ** The scheduler *)

(** Rendering an instant ([DateTime::to_rfc3339]) is [chrono]'s. *)
Class Rfc3339 := to_rfc3339 : Z → str.

Definition seed_prompt_text `{Rfc3339} (task : ScheduledTaskRecord) : str :=
  let base := ScheduledPrompt_as_str (tk_prompt task) in
  match tk_channel_id task with
  | None => base
  | Some _ =>
      let since := default (tk_created_at task) (tk_last_fired_at task) in
      base ++ [0xa%N; 0xa%N] ++ lit "<digest-window since=" ++ [0x22%N] ++ to_rfc3339 since
      ++ [0x22%N] ++ lit "/>" ++ [0xa%N]
      ++ lit "Messages since the last run are those at or after this timestamp; pass it as `since` when you read a channel."
  end.

(** What one firing meets: the colleague directory (a timeout is an error), the
    ids minted, the clock of the stores and the foreign keys. *)
Record FireEnv := mkFireEnv {
  fv_resolve_user : OrgId → UserId → res str ColleagueId;
  fv_resolve_agent : OrgId → AgentId → res str ColleagueId;
  fv_thread_id : ThreadId;
  fv_state_id : AgentThreadId;
  fv_message_id : ThreadMessageId;
  fv_request_id : PromptRequestId;
  fv_clock : Z;
  fv_traceparent : option str;
  fv_fk_threads : bool;
  fv_fk_request : PromptRequest → bool }.

(** The stores the scheduler writes; [deliveries] are its best-effort
    [ensure_delivery] calls, whose result is only logged. *)
Record world := mkWorld {
  w_tasks : table;
  w_threads : store;
  w_queue : db;
  w_deliveries : list (OrgId * ThreadId) }.

Definition initiate_thread `{Rfc3339} (env : FireEnv) (task : ScheduledTaskRecord)
    (caller : Caller) (human : ColleagueId) (s : store)
    : res ScheduledTaskError (ThreadId * AgentThreadId * ThreadMessageId) * store :=
  let counterpart : res ScheduledTaskError (option ColleagueId) :=
    match tk_channel_id task with
    | Some _ => Ok None
    | None => c <-? res_map_err (λ e, TaskBackend (lit "resolve agent colleague: " ++ e))
                      (fv_resolve_agent env (tk_org_id task) (tk_owner_agent_id task)) ;
              Ok (Some c)
    end in
  match counterpart with
  | Err e => (Err e, s)
  | Panic m => (Panic m, s)
  | Ok counterpart =>
      match create_thread (fv_fk_threads env) caller (tk_channel_id task) None human counterpart
              (fv_thread_id env) (fv_clock env) s with
      | (Err e, s) => (Err (TaskThread e), s)
      | (Panic m, s) => (Panic m, s)
      | (Ok thread, s) =>
          match resolve_participation caller thread (tk_owner_agent_id task) (fv_state_id env)
                  (fv_clock env) s with
          | (Err e, s) => (Err (TaskThread e), s)
          | (Panic m, s) => (Panic m, s)
          | (Ok state, s) =>
              match append (fv_fk_threads env) caller thread
                      (mkNewMessage KSystemNote None (Some (tk_owner_agent_id task)) None
                         (User [UText (seed_prompt_text task)]) None None)
                      (fv_message_id env) (fv_clock env) s with
              | (Err e, s) => (Err (TaskThread e), s)
              | (Panic m, s) => (Panic m, s)
              | (Ok seed, s) => (Ok (thread, state, seed), s)
              end
          end
      end
  end.

Definition fire_at (task : ScheduledTaskRecord) (now : Z) : Z := default now (tk_next_run_at task).

(** [format!("sched-{}-{}", task.id, fire_at.timestamp())] *)
Definition fire_key `{UuidPrinter} (task : ScheduledTaskRecord) (now : Z) : str :=
  lit "sched-" ++ uuid_to_string (tk_id task) ++ lit "-" ++ show_Z (fire_at task now / SECOND).

Definition set_threads (s : store) (w : world) : world :=
  mkWorld (w_tasks w) s (w_queue w) (w_deliveries w).
Definition set_queue (d : db) (w : world) : world :=
  mkWorld (w_tasks w) (w_threads w) d (w_deliveries w).
Definition deliver (o : OrgId) (t : ThreadId) (w : world) : world :=
  mkWorld (w_tasks w) (w_threads w) (w_queue w) (w_deliveries w ++ [(o, t)]).
Definition set_tasks (t : table) (w : world) : world :=
  mkWorld t (w_threads w) (w_queue w) (w_deliveries w).

Definition fire `{UuidPrinter, Rfc3339} (env : FireEnv) (task : ScheduledTaskRecord) (now : Z)
    (w : world) : res ScheduledTaskError unit * world :=
  match fv_resolve_user env (tk_org_id task) (tk_created_by_user_id task) with
  | Err e => (Err (TaskBackend (lit "resolve human colleague: " ++ e)), w)
  | Panic m => (Panic m, w)
  | Ok human =>
      let caller := mkCaller (tk_created_by_user_id task) (tk_org_id task) in
      match initiate_thread env task caller human (w_threads w) with
      | (Err e, s) => (Err e, set_threads s w)
      | (Panic m, s) => (Panic m, set_threads s w)
      | (Ok (thread, state, seed), s) =>
          let w := set_threads s w in
          match IdempotencyKey_try_from (fire_key task now) with
          | Err e => (Err (TaskParse e), w)
          | Panic m => (Panic m, w)
          | Ok key =>
              match enqueue_trigger_impl (fv_fk_request env) (fv_request_id env) (fv_clock env)
                      (fv_traceparent env)
                      (mkNewTrigger (tk_org_id task) (tk_created_by_user_id task) (Some thread)
                         (Some state) None human (tk_owner_agent_id task) None (Some seed) key
                         PNormal) (w_queue w) with
              | (Err e, d) => (Err (TaskQueue e), set_queue d w)
              | (Panic m, d) => (Panic m, set_queue d w)
              | (Ok request_id, d) =>
                  let w := deliver (tk_org_id task) thread (set_queue d w) in
                  (Ok tt,
                   set_tasks (record_fired (tk_id task) request_id (fire_at task now)
                                (next_after (tk_schedule task) now) (fv_clock env) (w_tasks w)) w)
              end
          end
      end
  end.

(** The loop of [tick]: an error is logged and the next task is tried. *)
Fixpoint fire_all `{UuidPrinter, Rfc3339} (env : nat → FireEnv) (i : nat)
    (tasks : list ScheduledTaskRecord) (now : Z) (w : world)
    : res ScheduledTaskError unit * world :=
  match tasks with
  | [] => (Ok tt, w)
  | task :: tasks' =>
      match fire (env i) task now w with
      | (Panic m, w) => (Panic m, w)
      | (_, w) => fire_all env (S i) tasks' now w
      end
  end.

Definition tick `{UuidPrinter, Rfc3339} (env : nat → FireEnv) (now : Z) (w : world)
    : res ScheduledTaskError unit * world :=
  match claim_due now SCHEDULED_TASK_BATCH_LIMIT (w_tasks w) with
  | Err e => (Err e, w)
  | Panic m => (Panic m, w)
  | Ok due => fire_all env 0 due now w
  end.
