(* ===== verification/SchedulingLaws.v ===== *)
(** * What the scheduler promises

    Theorems about [Scheduling]: the next fire is the least one, a schedule
    without clock gaps never runs dry, the task table's life cycle, and what one
    firing does to the task and to the queue. *)

From Stdlib Require Import ZArith Lia Ascii String.
From stdpp Require Import base gmap list strings sets.
From S2P Require Import Prelude Types Queue QueueSafety Threads Scheduling.

(** ** Wire forms *)

Lemma contains_testbit ws w : contains ws w = Z.testbit (bits ws) (bit w).
Proof.
  unfold contains. assert (0 ≤ bit w)%Z by (by destruct w).
  rewrite Z.shiftl_1_l. destruct (Z.testbit (bits ws) (bit w)) eqn:E.
  - apply negb_true_iff, Z.eqb_neq. intros H0.
    assert (Z.testbit (Z.land (bits ws) (2 ^ bit w)) (bit w) = true) as Hb
      by (rewrite Z.land_spec, E, Z.pow2_bits_true by done; done).
    by rewrite H0, Z.bits_0 in Hb.
  - apply negb_false_iff, Z.eqb_eq, Z.bits_inj'. intros n Hn.
    rewrite Z.land_spec, Z.bits_0, Z.pow2_bits_eqb by done.
    destruct (Z.eqb_spec (bit w) n) as [<-|]; [by rewrite E|apply andb_false_r].
Qed.

Lemma bit_inj w w' : bit w = bit w' → w = w'.
Proof. by destruct w, w'. Qed.

Definition bits_of (b : Z) (ws : list Weekday) : Z :=
  foldl (λ b w, Z.lor b (Z.shiftl 1 (bit w))) b ws.

Lemma bits_of_spec ws b n :
  (0 ≤ n)%Z →
  Z.testbit (bits_of b ws) n = Z.testbit b n || existsb (λ w, (bit w =? n)%Z) ws.
Proof.
  intros Hn. revert b. induction ws as [|w ws IH]; intros b; simpl; [by rewrite orb_false_r|].
  rewrite IH, Z.lor_spec, Z.shiftl_1_l. assert (0 ≤ bit w)%Z by (by destruct w).
  rewrite Z.pow2_bits_eqb by done. by rewrite orb_assoc.
Qed.

Lemma contains_of_iter ws wd w :
  Weekdays_try_from_iter ws = Ok wd → contains wd w = true ↔ w ∈ ws.
Proof.
  unfold Weekdays_try_from_iter. fold (bits_of 0 ws). destruct (_ =? 0)%Z; [done|]. intros [= <-].
  rewrite contains_testbit. cbn [bits]. rewrite bits_of_spec, Z.bits_0 by (by destruct w).
  rewrite orb_false_l, existsb_exists. split.
  - intros (w' & Hin & Heq). bools. apply bit_inj in Heq as ->. by apply list_elem_of_In.
  - intros Hin. exists w. split; [by apply list_elem_of_In|]. by apply Z.eqb_eq.
Qed.

Lemma elem_of_weekdays w : w ∈ [Mon; Tue; Wed; Thu; Fri; Sat; Sun].
Proof. destruct w; set_solver. Qed.

Lemma digit_value_digit n : (0 ≤ n ≤ 9)%Z → digit_value (48 + Z.to_N n)%N = Some n.
Proof.
  intros Hn. unfold digit_value.
  rewrite (proj2 (N.leb_le _ _)), (proj2 (N.leb_le _ _)) by lia. cbn [andb]. f_equal. lia.
Qed.

Lemma parse_two_digits n :
  (0 ≤ n ≤ 99)%Z →
  ∃ a b, two_digits n = [a; b] ∧ parse_u8_2 a b = Some n ∧ (a < 128)%N ∧ (b < 128)%N.
Proof.
  intros Hn. unfold two_digits.
  assert (0 ≤ n / 10 ≤ 9)%Z by (split; [apply Z.div_pos; lia|apply Z.lt_succ_r, Z.div_lt_upper_bound; lia]).
  pose proof (Z.mod_pos_bound n 10 ltac:(lia)). pose proof (Z.div_mod n 10 ltac:(lia)).
  eexists _, _. split; [done|]. unfold parse_u8_2. rewrite !digit_value_digit by lia.
  split; [f_equal; lia|lia].
Qed.

Lemma len_ascii c : (c < 128)%N → len_utf8 c = 1.
Proof. intros Hc. unfold len_utf8. by rewrite (proj2 (N.ltb_lt _ _)). Qed.

(** The wire forms of the schedule types round trip: a time of day reads back
    from its ["HH:MM"] text, and a weekday set contains exactly the days it was
    built from and is rebuilt from the list of its members. *)
Theorem schedule_wire_roundtrip h m t ws wd :
  (0 ≤ h)%Z → (0 ≤ m)%Z → TimeOfDay_try_new h m = Ok t → Weekdays_try_from_iter ws = Ok wd →
  TimeOfDay_deserialize (TimeOfDay_serialize t) = Ok t ∧
  (∀ w, contains wd w = true ↔ w ∈ ws) ∧
  Weekdays_try_from_iter (Weekdays_iter wd) = Ok wd.
Proof.
  intros Hh Hm Ht Hw. split_and!.
  - unfold TimeOfDay_try_new in Ht. destruct (23 <? h)%Z eqn:E1; [done|].
    destruct (59 <? m)%Z eqn:E2; [done|]. injection Ht as <-. bools.
    unfold TimeOfDay_serialize. cbn [hour minute].
    destruct (parse_two_digits h) as (a & b & -> & Hp1 & ? & ?); [lia|].
    destruct (parse_two_digits m) as (c & d & -> & Hp2 & ? & ?); [lia|].
    cbn [app TimeOfDay_deserialize]. unfold str_len. csimpl.
    rewrite !len_ascii by done. cbn. rewrite Hp1, Hp2. unfold TimeOfDay_try_new.
    by rewrite (proj2 (Z.ltb_ge _ _) E1), (proj2 (Z.ltb_ge _ _) E2).
  - intros w. by apply contains_of_iter.
  - assert (∀ w, w ∈ Weekdays_iter wd ↔ w ∈ ws) as Hiter.
    { intros w. unfold Weekdays_iter. rewrite list_elem_of_filter, (contains_of_iter ws) by done.
      pose proof (elem_of_weekdays w). tauto. }
    assert (bits_of 0 (Weekdays_iter wd) = bits_of 0 ws) as Hb.
    { apply Z.bits_inj'. intros n Hn. rewrite !bits_of_spec by done. f_equal.
      apply eq_true_iff_eq. rewrite !existsb_exists. by setoid_rewrite <-list_elem_of_In; setoid_rewrite Hiter. }
    unfold Weekdays_try_from_iter in *. fold (bits_of 0 (Weekdays_iter wd)). fold (bits_of 0 ws) in Hw.
    by rewrite Hb.
Qed.

(** ** The next fire *)

Definition valid_time (t : TimeOfDay) : Prop := (0 ≤ hour t ≤ 23)%Z ∧ (0 ≤ minute t ≤ 59)%Z.

(** What the time-zone database guarantees of the instants it names: later
    dates come later, an earlier local date is past, a later one is to come. *)
Class TzLaws (tz : Tz) : Prop := {
  tz_order : ∀ time d d' u u', valid_time time → fire_instant tz time d = Some u →
    fire_instant tz time d' = Some u' → (d < d')%Z → (u < u')%Z;
  tz_past : ∀ time d u now, valid_time time → fire_instant tz time d = Some u →
    (d < local_date tz now)%Z → (u ≤ now)%Z;
  tz_future : ∀ time d u now, valid_time time → fire_instant tz time d = Some u →
    (local_date tz now < d)%Z → (now < u)%Z }.

(** The instants a schedule names. *)
Definition fires_on (wd : Weekdays) (time : TimeOfDay) (tz : Tz) (d u : Z) : Prop :=
  contains wd (weekday_of d) = true ∧ fire_instant tz time d = Some u.

Lemma next_recurring_loop_spec now wd time tz date fuel :
  match next_recurring_loop now wd time tz date fuel with
  | Some u => ∃ d, (date ≤ d < date + Z.of_nat fuel)%Z ∧ fires_on wd time tz d u ∧ (now < u)%Z ∧
      ∀ d' u', (date ≤ d' < d)%Z → fires_on wd time tz d' u' → (u' ≤ now)%Z
  | None => ∀ d u, (date ≤ d < date + Z.of_nat fuel)%Z → fires_on wd time tz d u → (u ≤ now)%Z
  end.
Proof.
  revert date. induction fuel as [|fuel IH]; intros date; cbn [next_recurring_loop]; [lia|].
  specialize (IH (date + 1)%Z). set (rest := next_recurring_loop _ _ _ _ _ _) in *.
  assert ((∀ u, fires_on wd time tz date u → (u ≤ now)%Z) →
    match rest with
    | Some u => ∃ d, (date ≤ d < date + Z.of_nat (S fuel))%Z ∧ fires_on wd time tz d u ∧ (now < u)%Z ∧
        ∀ d' u', (date ≤ d' < d)%Z → fires_on wd time tz d' u' → (u' ≤ now)%Z
    | None => ∀ d u, (date ≤ d < date + Z.of_nat (S fuel))%Z → fires_on wd time tz d u → (u ≤ now)%Z
    end) as Hskip.
  { intros Hdate. destruct rest as [u|].
    - destruct IH as (d & Hd & Hf & Hu & Hmin). exists d. split_and!; try (done || lia).
      intros d' u' Hd' Hf'. destruct (decide (d' = date)) as [->|]; [by apply Hdate|].
      apply (Hmin d'); [lia|done].
    - intros d u Hd Hf. destruct (decide (d = date)) as [->|]; [by apply Hdate|].
      apply (IH d); [lia|done]. }
  destruct (contains wd (weekday_of date)) eqn:Ec; cbn [negb].
  2: { apply Hskip. intros u [? _]. congruence. }
  destruct (fire_instant tz time date) as [v|] eqn:Ef.
  2: { apply Hskip. intros u [_ ?]. congruence. }
  destruct (now <? v)%Z eqn:Ev; bools.
  - exists date. split; [lia|]. split; [done|]. split; [done|]. lia.
  - apply Hskip. intros u [_ ?]. simplify_eq. lia.
Qed.

(** The next fire of a schedule is the least instant it names after now. When a
    recurring schedule reports none, every later instant it names lies more than
    eight local days ahead. *)
Theorem next_after_least wd time tz now `{TzLaws tz} :
  valid_time time →
  match next_after (Recurring wd time tz) now with
  | Some u => (now < u)%Z ∧ (∃ d, fires_on wd time tz d u) ∧
      ∀ d' u', fires_on wd time tz d' u' → (now < u')%Z → (u ≤ u')%Z
  | None => ∀ d u, fires_on wd time tz d u → (now < u)%Z → (local_date tz now + 8 < d)%Z
  end.
Proof.
  intros Ht. cbn [next_after]. destruct (Weekdays_is_empty wd) eqn:Ee.
  { intros d u [Hc _]. unfold Weekdays_is_empty in Ee. rewrite contains_testbit in Hc. bools.
    by rewrite Ee, Z.bits_0 in Hc. }
  unfold next_recurring. pose proof (next_recurring_loop_spec now wd time tz (local_date tz now) 9) as Hs.
  assert (∀ d u, fires_on wd time tz d u → (now < u)%Z → (local_date tz now ≤ d)%Z) as Htoday.
  { intros d u [_ Hf] Hu. destruct (decide (d < local_date tz now)%Z) as [Hd|]; [|lia].
    pose proof (tz_past time d u now Ht Hf Hd). lia. }
  destruct (next_recurring_loop _ _ _ _ _ _) as [u|].
  - destruct Hs as (d & Hd & Hf & Hu & Hmin). split_and!; [done|eauto|].
    intros d' u' Hf' Hu'. destruct (Z.lt_trichotomy d' d) as [Hlt|[->|Hgt]].
    + pose proof (Hmin d' u' (conj (Htoday _ _ Hf' Hu') Hlt) Hf'). lia.
    + destruct Hf, Hf'. simplify_eq. lia.
    + destruct Hf as [_ Hf], Hf' as [_ Hf'].
      pose proof (tz_order time d d' u u' Ht Hf Hf' Hgt). lia.
  - intros d u Hf Hu. pose proof (Htoday d u Hf Hu).
    destruct (decide (d < local_date tz now + Z.of_nat 9)%Z) as [Hd|]; [|lia].
    pose proof (Hs d u ltac:(lia) Hf). lia.
Qed.

Lemma weekday_of_mod d : weekday_of d = weekday_of (d mod 7).
Proof. unfold weekday_of. by rewrite Z.add_mod_idemp_l. Qed.

(** Every weekday comes within seven days. *)
Lemma weekday_soon d w : ∃ k, (1 ≤ k ≤ 7)%Z ∧ weekday_of (d + k) = w.
Proof.
  set (r := (d mod 7)%Z). assert (0 ≤ r < 7)%Z as Hr by (apply Z.mod_pos_bound; lia).
  assert (∃ k, (1 ≤ k ≤ 7)%Z ∧ ((r + k + 3) mod 7 = bit w)%Z) as (k & Hk & Hm).
  { exists (1 + (bit w - r - 4) mod 7)%Z. pose proof (Z.mod_pos_bound (bit w - r - 4) 7 ltac:(lia)).
    split; [lia|].
    replace (r + (1 + (bit w - r - 4) mod 7) + 3)%Z with ((bit w - r - 4) mod 7 + (r + 4))%Z by lia.
    rewrite Z.add_mod_idemp_l by lia. replace (bit w - r - 4 + (r + 4))%Z with (bit w) by lia.
    apply Z.mod_small. destruct w; simpl; lia. }
  exists k. split; [done|]. unfold weekday_of.
  replace ((d + k + 3) mod 7)%Z with ((r + k + 3) mod 7)%Z.
  - rewrite Hm. by destruct w.
  - unfold r. rewrite <-!Z.add_assoc. by rewrite Z.add_mod_idemp_l.
Qed.

(** A recurring schedule whose wall time exists on each of the seven days after
    today always has a next fire, at most seven local days ahead. *)
Theorem recurring_never_exhausts ws wd time tz now `{TzLaws tz} :
  valid_time time → Weekdays_try_from_iter ws = Ok wd →
  (∀ k, (1 ≤ k ≤ 7)%Z → is_Some (fire_instant tz time (local_date tz now + k))) →
  ∃ u k, next_after (Recurring wd time tz) now = Some u ∧ (1 ≤ k ≤ 7)%Z ∧
    ∀ v, fire_instant tz time (local_date tz now + k) = Some v → (now < u ≤ v)%Z.
Proof.
  intros Ht Hw Hgap.
  assert (∃ w, contains wd w = true) as [w Hcw].
  { destruct ws as [|w ws]; [done|]. exists w. apply (contains_of_iter (w :: ws)); [done|set_solver]. }
  destruct (weekday_soon (local_date tz now) w) as (k & Hk & Hd).
  destruct (Hgap k Hk) as [v Hv].
  assert (now < v)%Z as Hnv by (apply (tz_future time (local_date tz now + k)); [done|done|lia]).
  assert (fires_on wd time tz (local_date tz now + k) v) as Hf by (split; [by rewrite Hd|done]).
  cbn [next_after]. assert (Weekdays_is_empty wd = false) as ->.
  { unfold Weekdays_try_from_iter in Hw. unfold Weekdays_is_empty.
    destruct (foldl _ _ _ =? 0)%Z eqn:E; [done|]. by injection Hw as <-. }
  unfold next_recurring.
  pose proof (next_recurring_loop_spec now wd time tz (local_date tz now) 9) as Hs.
  destruct (next_recurring_loop _ _ _ _ _ _) as [u|].
  - destruct Hs as (d & Hd' & Hfd & Hu & Hmin). exists u, k. split_and!; try done; try lia.
    intros v' Hv'. assert (v' = v) as -> by congruence. split; [done|].
    destruct (Z.lt_trichotomy (local_date tz now + k) d) as [Hlt|[Heq|Hgt]].
    + pose proof (Hmin (local_date tz now + k)%Z v ltac:(lia) Hf). lia.
    + destruct Hfd as [_ Hfd]. rewrite <-Heq in Hfd. assert (u = v) by congruence. lia.
    + destruct Hfd as [_ Hfd]. pose proof (tz_order time d (local_date tz now + k) u v Ht Hfd Hv ltac:(lia)). lia.
  - pose proof (Hs (local_date tz now + k)%Z v ltac:(lia) Hf). lia.
Qed.

(** ** Concrete zones *)

Definition DAY : Z := 86400 * SECOND.
Definition wall (d h m : Z) : Z := d * DAY + (h * 60 + m) * 60 * SECOND.

Definition utc : Tz := mkTz (λ u, u / DAY)%Z (λ d h m, Single (wall d h m)).

(** A zone that springs forward by an hour at 02:00 on day [g]. *)
Definition spring (g : Z) : Tz :=
  mkTz (λ u, if (u <? wall g 2 0)%Z then (u / DAY)%Z else ((u + 3600 * SECOND) / DAY)%Z)
    (λ d h m,
       if (wall d h m <? wall g 2 0)%Z then Single (wall d h m)
       else if (wall d h m <? wall g 3 0)%Z then NoLocal
       else Single (wall d h m - 3600 * SECOND)).

Lemma wall_range t d : valid_time t → (d * DAY ≤ wall d (hour t) (minute t) < (d + 1) * DAY)%Z.
Proof. unfold valid_time, wall, DAY, SECOND. lia. Qed.

Lemma div_day u d : (u / DAY)%Z = d ↔ (d * DAY ≤ u < (d + 1) * DAY)%Z.
Proof.
  pose proof (Z.mod_pos_bound u DAY eq_refl). pose proof (Z.div_mod u DAY ltac:(done)).
  unfold DAY, SECOND in *. split; [intros <-; lia|]. intros. nia.
Qed.

#[export] Instance utc_laws : TzLaws utc.
Proof.
  constructor; unfold fire_instant; cbn [with_ymd_and_hms local_date utc].
  - intros t d d' u u' Ht [= <-] [= <-] Hd. unfold wall, valid_time, DAY, SECOND in *. lia.
  - intros t d u now Ht [= <-] Hd. pose proof (wall_range t d Ht).
    pose proof (proj1 (div_day now (now / DAY) ) eq_refl). unfold DAY, SECOND in *. lia.
  - intros t d u now Ht [= <-] Hd. pose proof (wall_range t d Ht).
    pose proof (proj1 (div_day now (now / DAY) ) eq_refl). unfold DAY, SECOND in *. lia.
Qed.

#[export] Instance spring_laws g : TzLaws (spring g).
Proof.
  constructor; unfold fire_instant; cbn [with_ymd_and_hms local_date spring].
  - intros t d d' u u' Ht Hu Hu' Hd. pose proof (wall_range t d Ht). pose proof (wall_range t d' Ht).
    repeat case_match; bools; simplify_eq; unfold wall, valid_time, DAY, SECOND in *; lia.
  - intros t d u now Ht Hu Hd. pose proof (wall_range t d Ht).
    destruct (now <? wall g 2 0)%Z eqn:E; bools.
    + pose proof (proj1 (div_day now (now / DAY)) eq_refl).
      repeat case_match; bools; simplify_eq; unfold wall, DAY, SECOND in *; lia.
    + pose proof (proj1 (div_day (now + 3600 * SECOND) ((now + 3600 * SECOND) / DAY)) eq_refl).
      repeat case_match; bools; simplify_eq; unfold wall, DAY, SECOND in *; lia.
  - intros t d u now Ht Hu Hd. pose proof (wall_range t d Ht).
    destruct (now <? wall g 2 0)%Z eqn:E; bools.
    + pose proof (proj1 (div_day now (now / DAY)) eq_refl).
      repeat case_match; bools; simplify_eq; unfold wall, DAY, SECOND in *; lia.
    + pose proof (proj1 (div_day (now + 3600 * SECOND) ((now + 3600 * SECOND) / DAY)) eq_refl).
      repeat case_match; bools; simplify_eq; unfold wall, DAY, SECOND in *; lia.
Qed.

(** A weekly task whose only day next week falls in the gap has no next fire,
    although it has one the week after: today's wall time is past, the eighth day
    tried is the gap, and the fifteenth is never tried. Firing it marks it done
    for good. *)
Lemma weekly_task_dies_in_gap :
  let time := mkTimeOfDay 2 30 in
  let spec tz := Recurring (mkWeekdays (Z.shiftl 1 (bit Sun))) time tz in
  let now := wall 3 3 0 in
  next_after (spec (spring 10)) now = None ∧
  fires_on (mkWeekdays (Z.shiftl 1 (bit Sun))) time (spring 10) 17 (wall 17 1 30) ∧
  (now < wall 17 1 30)%Z ∧
  ∀ t id rid at_ r, r ∈ record_fired id rid at_ (next_after (spec (spring 10)) now) now t →
    tk_id r = id → tk_state r = TaskDone.
Proof.
  split_and!; try by vm_compute. cbn zeta. intros t id rid at_ r.
  change (next_after _ _) with (@None Z) at 1. unfold record_fired.
  rewrite elem_of_update_where. intros (r0 & _ & ->). by case_decide.
Qed.

(** ** The life cycle of a task *)

Definition active_count (owner : AgentId) (t : table) : nat := length (filter (active_of owner) t).

(** The writes of the store. A tenant's transaction sees every task of an agent of
    its organisation, which the parent-organisation trigger pins to one; a firing
    is recorded for a task that is still active ([cancelled_task_revived] shows
    what it does to one that no longer is). *)
Inductive task_step : table → table → Prop :=
| step_create fk_ok id now p t : task_step t (create fk_ok id now p t).2
| step_create_for_user members fk_ok user id now p t :
    (∀ r, r ∈ t → tk_owner_agent_id r = nk_owner_agent_id p → tk_org_id r = nk_org_id p) →
    task_step t (create_for_user members fk_ok user id now p t).2
| step_cancel visible task owner now t : task_step t (cancel_in_tx visible task owner now t).2
| step_fired task rid at_ next now t :
    (∀ r, r ∈ t → tk_id r = task → tk_state r = TaskActive) →
    task_step t (record_fired task rid at_ next now t).

Record table_ok (t : table) : Prop := {
  table_ids : NoDup (tk_id <$> t);
  table_cap : ∀ owner, active_count owner t ≤ MAX_SCHEDULED_TASKS_PER_AGENT;
  table_ended : ∀ r, r ∈ t → tk_state r ≠ TaskActive → tk_next_run_at r = None }.

Lemma filter_fmap_le {A} (P : A → Prop) `{∀ x, Decision (P x)} (g : A → A) l :
  (∀ x, x ∈ l → P (g x) → P x) → length (filter P (g <$> l)) ≤ length (filter P l).
Proof.
  induction l as [|x l IH]; intros Hg; [done|]. rewrite fmap_cons, !filter_cons.
  specialize (IH ltac:(intros; apply Hg; set_solver)). pose proof (Hg x (list_elem_of_here x l)).
  repeat case_decide; simpl; (tauto || lia).
Qed.

(** Changing cursors: a row may leave the active state but not enter it. *)
Lemma update_ok t task f :
  table_ok t →
  (∀ r, r ∈ t → tk_id r = task → tk_state (f r) = TaskActive → tk_state r = TaskActive) →
  (∀ r, r ∈ t → tk_id r = task → tk_state (f r) ≠ TaskActive → tk_next_run_at (f r) = None) →
  (∀ r, tk_id (f r) = tk_id r ∧ tk_owner_agent_id (f r) = tk_owner_agent_id r) →
  table_ok (update_where (λ r, tk_id r = task) f t).
Proof.
  intros Hok Ha He Hf. constructor.
  - rewrite update_where_fmap; [apply Hok|]. intros r _ _. apply Hf.
  - intros owner. etrans; [|apply Hok]. unfold active_count, update_where.
    apply filter_fmap_le. intros r Hr. unfold active_of. case_decide; [|done].
    destruct (Hf r) as [_ ->]. intros [? ?]. split; [done|]. by apply Ha.
  - intros r. rewrite elem_of_update_where. intros (r0 & Hr0 & ->). case_decide; [by apply He|].
    by apply Hok.
Qed.

Lemma create_in_tx_ok visible fk_ok id now p t :
  table_ok t →
  (visible (nk_org_id p) = true →
   ∀ r, r ∈ t → active_of (nk_owner_agent_id p) r → visible (tk_org_id r) = true) →
  table_ok (create_in_tx visible fk_ok id now p t).2.
Proof.
  intros Hok Hvis. unfold create_in_tx. cbn zeta.
  destruct (_ <=? _) eqn:Hcap; [done|]. destruct (negb (visible (nk_org_id p))) eqn:Hv; [done|].
  destruct (negb fk_ok); [done|]. destruct (bool_decide _) eqn:Hid; [done|]. bools.
  destruct (row_to_record _); [|done..]. cbn [snd].
  rewrite (filter_ext_in _ (active_of (nk_owner_agent_id p))) in Hcap.
  2: { intros r Hr. specialize (Hvis Hv r Hr). tauto. }
  constructor.
  - rewrite fmap_app. apply NoDup_app. split_and!; [apply Hok| |apply NoDup_singleton].
    intros i Hi Hin. apply list_elem_of_singleton in Hin as ->. by apply Hid.
  - intros owner. unfold active_count. rewrite filter_app, length_app, filter_cons, filter_nil.
    pose proof (table_cap t Hok owner). unfold active_count in *.
    case_decide as Ha; simpl; [|lia]. destruct Ha as [Ha _]. cbn in Ha. subst owner. lia.
  - intros r [Hr|Hr]%elem_of_app; [by apply Hok|]. apply list_elem_of_singleton in Hr as ->.
    cbn. by intros [].
Qed.

Lemma cancel_cases visible task owner now t :
  (cancel_in_tx visible task owner now t).2 = t ∨
  (∃ r, r ∈ t ∧ tk_id r = task ∧ tk_state r = TaskActive) ∧
  (cancel_in_tx visible task owner now t).2 =
    update_where (λ r, tk_id r = task)
      (λ r, set_cursor (tk_last_fired_at r) (tk_last_request_id r) None TaskCancelled now r) t.
Proof.
  unfold cancel_in_tx. destruct (List.find _ t) as [r|] eqn:E; [|by left].
  apply List.find_some in E as [Hin Hb]. apply list_elem_of_In in Hin. bools.
  destruct (bool_decide (tk_state r = TaskActive)) eqn:Ha; [|by left]. bools. right. eauto.
Qed.

Lemma task_step_ok t t' : task_step t t' → table_ok t → table_ok t'.
Proof.
  destruct 1 as [fk_ok id now p t|members fk_ok user id now p t Horg|visible task owner now t
                 |task rid at_ next now t Hact]; intros Hok.
  - by apply create_in_tx_ok.
  - apply create_in_tx_ok; [done|]. cbn. intros Hv r Hr [Ho _]. by rewrite (Horg r Hr Ho).
  - destruct (cancel_cases visible task owner now t) as [->|[_ ->]]; [done|]. by apply update_ok.
  - apply update_ok; [done|by intros r Hr Hid _; apply Hact| |done].
    intros r _ _. cbn. by destruct next.
Qed.

(** From an empty table, whatever tasks are created, cancelled and fired: ids stay
    unique, no agent ever has more than [MAX_SCHEDULED_TASKS_PER_AGENT] active
    tasks, a task that ended has no next run, and no step changes it again. *)
Theorem task_lifecycle t :
  rtc task_step [] t →
  table_ok t ∧
  ∀ t' r, task_step t t' → r ∈ t → tk_state r ≠ TaskActive → r ∈ t'.
Proof.
  intros Hr. assert (table_ok t) as Hok.
  { assert (table_ok []) as H0
      by (constructor; [constructor|intros; unfold active_count; simpl; lia|set_solver]).
    revert H0. induction Hr as [|x y z Hxy _ IH]; [done|]. intros Hx.
    apply IH. by apply (task_step_ok x). }
  split; [done|]. intros t' r Hst Hin Hne.
  assert (∀ task f, (∃ r0, r0 ∈ t ∧ tk_id r0 = task ∧ tk_state r0 = TaskActive) ∨
            (∀ r0, r0 ∈ t → tk_id r0 = task → tk_state r0 = TaskActive) →
            r ∈ update_where (λ r, tk_id r = task) f t) as Hupd.
  { intros task f Ht. apply elem_of_update_where. exists r. split; [done|].
    rewrite decide_False; [done|]. intros Hid. destruct Ht as [(r0 & H0 & Hid0 & Ha)|Ha].
    - apply Hne. by rewrite (NoDup_fmap_eq tk_id t r r0 (table_ids t Hok) Hin H0 ltac:(congruence)).
    - by apply Hne, Ha. }
  destruct Hst as [fk_ok id now p t|members fk_ok user id now p t _|visible task owner now t
                   |task rid at_ next now t Hact].
  - unfold create, create_in_tx. cbn zeta. repeat (case_match; try done). cbn. set_solver.
  - unfold create_for_user, create_in_tx. cbn zeta. repeat (case_match; try done). cbn. set_solver.
  - destruct (cancel_cases visible task owner now t) as [->|[Hex ->]]; [done|].
    apply Hupd. by left.
  - apply Hupd. by right.
Qed.

(** A task cancelled between the scheduler's read and the end of its firing is
    active again: [record_fired] does not look at the state it overwrites. *)
Lemma cancelled_task_revived task rid at_ next now t r :
  r ∈ t → tk_id r = task → tk_state r = TaskCancelled →
  ∃ r', r' ∈ record_fired task rid at_ (Some next) now t ∧ tk_id r' = task ∧
        tk_state r' = TaskActive ∧ tk_next_run_at r' = Some next.
Proof.
  intros Hr Hid Hs. eexists. split.
  - apply elem_of_update_where. exists r. split; [done|]. by rewrite decide_True.
  - by rewrite <-Hid.
Qed.

(** ** One firing *)

Lemma next_after_gt spec now u : next_after spec now = Some u → (now < u)%Z.
Proof.
  destruct spec as [run_at|wd time tz]; cbn [next_after].
  - destruct (now <? run_at)%Z eqn:E; [|done]. intros [= <-]. by bools.
  - destruct (Weekdays_is_empty wd); [done|]. unfold next_recurring.
    pose proof (next_recurring_loop_spec now wd time tz (local_date tz now) 9) as Hs.
    intros Hu. rewrite Hu in Hs. by destruct Hs as (d & _ & _ & ? & _).
Qed.

Lemma enqueue_Ok_row fk_ok id now tp trig d rid d' :
  enqueue_trigger_impl fk_ok id now tp trig d = (Ok rid, d') →
  ∃ q, q ∈ prompt_requests d' ∧ pr_id q = rid ∧
       same_idem (nt_org_id trig) (IdempotencyKey_as_str (nt_idempotency_key trig)) q = true ∧
       ((∃ q0, q0 ∈ prompt_requests d ∧
          same_idem (nt_org_id trig) (IdempotencyKey_as_str (nt_idempotency_key trig)) q0 = true) →
        d' = d).
Proof.
  intros H. pose proof (enqueue_cases fk_ok id now tp trig d) as Ho. rewrite H in Ho. cbn in Ho.
  inversion Ho as [|row Hin Hs|receiver dags Hn Hid Hdags]; subst; [eauto|].
  eexists. split; [cbn; apply elem_of_app; right; apply list_elem_of_here|].
  split; [done|]. split; [unfold same_idem; cbn; by rewrite !bool_decide_eq_true_2|].
  intros (q0 & Hq & Hs). specialize (Hn q0 Hq). congruence.
Qed.

(** A firing that succeeds leaves exactly one kind of trace: the queue holds a
    request under the key of this fire instant (none is added when one was there,
    as after a crash between the enqueue and the cursor), the task points at it
    and is not due again at this time, active exactly when the schedule goes on.
    A firing that fails leaves the task where it was, to be retried. *)
Theorem fire_advances_once `{UuidPrinter, Rfc3339} env task now w r w' :
  fire env task now w = (r, w') →
  match r with
  | Ok _ =>
      ∃ q, q ∈ prompt_requests (w_queue w') ∧
        same_idem (tk_org_id task) (fire_key task now) q = true ∧
        ((∃ q0, q0 ∈ prompt_requests (w_queue w) ∧
                same_idem (tk_org_id task) (fire_key task now) q0 = true) →
         w_queue w' = w_queue w) ∧
        ∀ row, row ∈ w_tasks w' →
          if decide (tk_id row = tk_id task) then
            ¬ due now row ∧ tk_last_request_id row = Some (pr_id q) ∧
            tk_last_fired_at row = Some (fire_at task now) ∧
            tk_next_run_at row = next_after (tk_schedule task) now ∧
            (tk_state row = TaskActive ↔ is_Some (next_after (tk_schedule task) now))
          else row ∈ w_tasks w
  | _ => w_tasks w' = w_tasks w
  end.
Proof.
  unfold fire. destruct (fv_resolve_user env _ _) as [human| |]; [|by intros [= <- <-]..].
  destruct (initiate_thread _ _ _ _ _) as [[[[thread state] seed]| |] s]; [|by intros [= <- <-]..].
  destruct (IdempotencyKey_try_from (fire_key task now)) as [key| |] eqn:Ek; [|by intros [= <- <-]..].
  apply IdempotencyKey_try_from_Ok in Ek as (-> & _ & _).
  destruct (enqueue_trigger_impl _ _ _ _ _ _) as [[rid| |] d] eqn:Eq; [|by intros [= <- <-]..].
  intros [= <- <-]. apply enqueue_Ok_row in Eq as (q & Hq & <- & Hs & Hold). cbn in Hs, Hold, Hq.
  exists q. cbn [w_queue w_tasks set_tasks deliver set_queue set_threads].
  split; [exact Hq|]. split; [exact Hs|]. split; [exact Hold|].
  intros row. unfold record_fired. rewrite elem_of_update_where. intros (r0 & Hr0 & ->).
  destruct (decide (tk_id r0 = tk_id task)) as [Hid|Hid]; cbn [tk_id set_cursor];
    [rewrite decide_True by done|by rewrite decide_False].
  destruct (next_after (tk_schedule task) now) as [u|] eqn:En; unfold due; cbn; split_and!; try done.
  - apply next_after_gt in En. intros [_ ?]. lia.
  - by intros [? _].
Qed.

(** ** Concrete runs *)

Module Sched.
#[local] Instance uuid : UuidPrinter := λ n, show_Z (Z.of_N n).
#[local] Instance rfc3339 : Rfc3339 := show_Z.
Definition nine : TimeOfDay := mkTimeOfDay 9 0.
Definition monday : Weekdays := mkWeekdays 1.
Definition new_task : NewScheduledTask :=
  mkNewScheduledTask 70 1 5 (Some 3%N) (mkScheduledTaskName (lit "digest"))
    (mkScheduledPrompt (lit "summarise")) (Recurring monday nine utc) (Some (wall 4 9 0)).
Definition tasks : table := (create true 500 0 new_task []).2.
Definition threads : store := mkStore ∅ ∅ [] ∅ ∅ ∅ [] [(5, 1)%N] (λ _, None).
Definition before : world := mkWorld tasks threads Demo.db0 [].
Definition env : FireEnv :=
  mkFireEnv (λ _ _, Ok 6%N) (λ _ _, Ok 7%N) 40 100 41 42 (wall 4 9 1) None true (λ _, true).
Definition task : ScheduledTaskRecord :=
  mkScheduledTaskRecord 500 70 1 5 (Some 3%N) (mkScheduledTaskName (lit "digest"))
    (mkScheduledPrompt (lit "summarise")) (Recurring monday nine utc) (Some (wall 4 9 0))
    None None TaskActive 0 0.
Definition now : Z := wall 4 9 1.
End Sched.

Lemma schedule_wire_roundtrip_witness :
  TimeOfDay_deserialize (TimeOfDay_serialize Sched.nine) = Ok Sched.nine ∧
  Weekdays_try_from_iter (Weekdays_iter Sched.monday) = Ok Sched.monday.
Proof.
  refine (let H := schedule_wire_roundtrip 9 0 Sched.nine [Mon] Sched.monday _ _ _ _ in
          conj (proj1 H) (proj2 (proj2 H))); by vm_compute.
Defined.

Lemma nine_valid : valid_time Sched.nine.
Proof. split; split; by vm_compute. Qed.

Lemma next_after_least_witness :
  next_after (Recurring Sched.monday Sched.nine utc) Sched.now = Some (wall 11 9 0) ∧
  (Sched.now < wall 11 9 0)%Z.
Proof.
  assert (next_after (Recurring Sched.monday Sched.nine utc) Sched.now = Some (wall 11 9 0)) as E
    by (by vm_compute).
  pose proof (next_after_least Sched.monday Sched.nine utc Sched.now nine_valid) as H.
  rewrite E in H. split; [exact E|exact (proj1 H)].
Defined.

Lemma recurring_never_exhausts_witness :
  ∃ u, next_after (Recurring Sched.monday Sched.nine utc) Sched.now = Some u.
Proof.
  destruct (recurring_never_exhausts [Mon] Sched.monday Sched.nine utc Sched.now)
    as (u & k & Hu & _).
  - exact nine_valid.
  - by vm_compute.
  - intros k _. by eexists.
  - by exists u.
Defined.

Lemma task_lifecycle_witness :
  length Sched.tasks = 1 ∧ table_ok Sched.tasks.
Proof.
  split; [by vm_compute|]. refine (proj1 (task_lifecycle Sched.tasks _)).
  apply rtc_once. apply (step_create true 500 0 Sched.new_task []).
Defined.

Lemma fire_advances_once_witness :
  ∃ q, q ∈ prompt_requests (w_queue (@fire Sched.uuid Sched.rfc3339 Sched.env Sched.task
                                       Sched.now Sched.before).2) ∧
       same_idem 1 (@fire_key Sched.uuid Sched.task Sched.now) q = true.
Proof.
  destruct (@fire Sched.uuid Sched.rfc3339 Sched.env Sched.task Sched.now Sched.before)
    as [r w'] eqn:E.
  pose proof (@fire_advances_once Sched.uuid Sched.rfc3339 Sched.env Sched.task Sched.now
                Sched.before r w' E) as H.
  assert (r = Ok tt) as -> by (apply (f_equal fst) in E; vm_compute in E; by rewrite <-E).
  destruct H as (q & Hq & Hk & _). exists q. split; [exact Hq|exact Hk].
Defined.
