(* ===== verification/Billing.v ===== *)
(** * Spend caps and credit

    [billing/*.rs] and [entitlements/mod.rs]: the price table, the admission gate,
    the post-paid settle and the idempotent credit ledger. *)

From Stdlib Require Import ZArith Lia Ascii String.
From stdpp Require Import base gmap list strings sets.
From S2P Require Import Prelude Types Catalog.

(** ** Amounts ([billing/types.rs]) *)

Record CostMicros := mkCostMicros { CostMicros_get : Z }.
Record MonthlyCapMicros := mkMonthlyCapMicros { MonthlyCapMicros_get : Z }.
Record GrantAmount := mkGrantAmount { GrantAmount_get : Z }.
Record LedgerDelta := mkLedgerDelta { LedgerDelta_get : Z }.
Record WarnThresholdBps := mkWarnThresholdBps { WarnThresholdBps_get : Z }.

Definition CostMicros_ZERO : CostMicros := mkCostMicros 0.
Definition CostMicros_try_from (raw : Z) : res ParseError CostMicros :=
  if (raw <? 0)%Z then Err (OutOfRange "cost_micros" "must be >= 0") else Ok (mkCostMicros raw).
Definition CostMicros_try_from_i128 (raw : Z) : res ParseError CostMicros :=
  if (raw <? 0)%Z then Err (OutOfRange "cost_micros" "must be >= 0")
  else if (I64_MAX <? raw)%Z then Err (OutOfRange "cost_micros" "exceeds i64")
  else Ok (mkCostMicros raw).
Definition MonthlyCapMicros_try_from (raw : Z) : res ParseError MonthlyCapMicros :=
  if (raw <=? 0)%Z then Err (OutOfRange "monthly_cap_micro_usd" "must be > 0")
  else Ok (mkMonthlyCapMicros raw).
Definition GrantAmount_try_from (raw : Z) : res ParseError GrantAmount :=
  if (raw <=? 0)%Z then Err (OutOfRange "grant_amount_micro_usd" "must be > 0")
  else Ok (mkGrantAmount raw).
Definition LedgerDelta_from_grant (g : GrantAmount) : LedgerDelta := mkLedgerDelta (GrantAmount_get g).
Definition LedgerDelta_from_cost (c : CostMicros) : LedgerDelta := mkLedgerDelta (- CostMicros_get c).

Definition FULL : Z := 10000.
Definition DEFAULT_WARN_BPS : Z := 8000.
Definition WarnThresholdBps_try_from (raw : Z) : res ParseError WarnThresholdBps :=
  if (raw =? 0)%Z then Err (OutOfRange "warn_threshold_bps" "must be > 0")
  else if (FULL <? raw)%Z then Err (OutOfRange "warn_threshold_bps" "must be <= 10000")
  else Ok (mkWarnThresholdBps raw).

Inductive LedgerKind := Grant | Debit | Adjustment.
Inductive LedgerReason := SignupBonus | Promo | Referral | Manual | Refund | UsageReason.
#[export] Instance LedgerKind_eq_dec : EqDecision LedgerKind.
Proof. solve_decision. Defined.
#[export] Instance LedgerReason_eq_dec : EqDecision LedgerReason.
Proof. solve_decision. Defined.

Definition LedgerKind_as_str (k : LedgerKind) : string :=
  match k with Grant => "grant" | Debit => "debit" | Adjustment => "adjustment" end.
Definition LedgerReason_as_str (r : LedgerReason) : string :=
  match r with
  | SignupBonus => "signup_bonus" | Promo => "promo" | Referral => "referral"
  | Manual => "manual" | Refund => "refund" | UsageReason => "usage"
  end.
#[export] Instance LedgerKind_StrEnum : StrEnum LedgerKind.
Proof. refine {| ALL := [Grant; Debit; Adjustment]; as_str := LedgerKind_as_str |}; abstract str_enum. Defined.
#[export] Instance LedgerReason_StrEnum : StrEnum LedgerReason.
Proof.
  refine {| ALL := [SignupBonus; Promo; Referral; Manual; Refund; UsageReason];
            as_str := LedgerReason_as_str |}; abstract str_enum.
Defined.

(** ** Prices ([billing/pricing.rs]); rates are micro-USD per million tokens *)

Record Price := mkPrice { p_input : Z; p_output : Z; p_cache_write : Z; p_cache_read : Z }.
#[export] Instance Price_eq_dec : EqDecision Price.
Proof. solve_decision. Defined.

Definition FALLBACK_PRICE : Price := mkPrice 20000000 80000000 25000000 2000000.

Definition price_for_name (name : str) : Price :=
  let eq (s : string) := bool_decide (name = lit s) in
  if eq "claude-opus-4-7" then mkPrice 5000000 25000000 6250000 500000
  else if eq "claude-sonnet-4-6" || eq "claude-sonnet-4-5"
  then mkPrice 3000000 15000000 3750000 300000
  else if eq "claude-haiku-4-5" then mkPrice 1000000 5000000 1250000 100000
  else if eq "gpt-5.5" then mkPrice 5000000 30000000 5000000 500000
  else if eq "gpt-5.4" then mkPrice 2500000 15000000 2500000 250000
  else if eq "gpt-5.4-mini" then mkPrice 250000 2000000 250000 25000
  else if eq "gpt-5.4-nano" then mkPrice 50000 400000 50000 5000
  else if eq "gpt-4o-mini" then mkPrice 150000 600000 150000 15000
  else if eq "deepseek-v4-pro" then mkPrice 1740000 3480000 1740000 174000
  else if eq "deepseek-v4-flash" then mkPrice 140000 280000 140000 14000
  else FALLBACK_PRICE.

Definition price_for (m : Model) : Price := price_for_name (Model_as_str m).

Definition lanes (price : Price) (u : Usage) : list (Z * Z) :=
  [ (input_tokens u, p_input price);
    (output_tokens u, p_output price);
    (default 0%Z (cache_creation_input_tokens u), p_cache_write price);
    (default 0%Z (cache_read_input_tokens u), p_cache_read price) ].

(** [i128] arithmetic: division truncates toward zero. *)
Definition turn_cost {E} (price : Price) (u : Usage) : res E CostMicros :=
  let total_micros := foldl (λ acc '(tokens, rate), acc + Z.quot (tokens * rate) 1000000)%Z 0%Z
                        (lanes price u) in
  rassert (0 <=? total_micros)%Z "invariant: total cost non-negative" ;;?
  match CostMicros_try_from_i128 total_micros with
  | Ok c => Ok c
  | Err _ => Panic "invariant: bounded turn cost fits i64 micro-USD"
  | Panic m => Panic m
  end.

(** ** Entitlements *)

Inductive AgentLimit := UnlimitedAgents | MaxAgents (cap : Z).
Inductive Feature := Reserved.
Inductive LicenseError := FeatureNotLicensed (f : Feature) | AgentLimitReached (limit : Z).

(** The policy seam: core asks, the build supplies the answers. *)
Class Entitlements := {
  agent_limit : OrgId → AgentLimit;
  allows : OrgId → Feature → bool;
  credit_gate_active : OrgId → bool;
  signup_grant : OrgId → option GrantAmount }.

Definition UnlimitedEntitlements : Entitlements :=
  {| agent_limit _ := UnlimitedAgents; allows _ _ := true;
     credit_gate_active _ := false; signup_grant _ := None |}.

Definition require_agent_capacity `{Entitlements} (org : OrgId) (current : Z) : res LicenseError unit :=
  match agent_limit org with
  | UnlimitedAgents => Ok tt
  | MaxAgents cap => if (current <? cap)%Z then Ok tt else Err (AgentLimitReached cap)
  end.

Definition require_feature `{Entitlements} (org : OrgId) (f : Feature) : res LicenseError unit :=
  if allows org f then Ok tt else Err (FeatureNotLicensed f).

(** ** Tables *)

Inductive BillingError :=
| Exceeded (org : OrgId) (used_micro_usd cap_micro_usd : Z)
| OutOfCredit (org : OrgId) (balance_micro_usd : Z)
| BillingDb (msg : string).

Definition NaiveDate : Type := Z * Z * Z.
(** The first of the month. *)
Definition BillingPeriod_current (today : NaiveDate) : NaiveDate := (today.1.1, today.1.2, 1)%Z.

Record BillingRow := mkBillingRow { br_monthly_cap : option Z; br_warn_bps : Z }.
Record UsageRow := mkUsageRow { ur_used : Z; ur_warned_at : option Z }.
Record CreditRow := mkCreditRow { cd_balance : Z; cd_granted : Z; cd_used : Z }.
Record LedgerRow := mkLedgerRow {
  lr_id : N; lr_org_id : OrgId; lr_delta : Z; lr_kind : LedgerKind; lr_reason : LedgerReason;
  lr_key : option str; lr_actor : option UserId; lr_created_at : Z }.

Record bdb := mkBdb {
  org_billing : gmap OrgId BillingRow;
  org_billing_usage : gmap (OrgId * NaiveDate) UsageRow;
  org_credits : gmap OrgId CreditRow;
  org_credit_ledger : list LedgerRow }.

Definition set_billing (t : gmap OrgId BillingRow) (d : bdb) : bdb :=
  mkBdb t (org_billing_usage d) (org_credits d) (org_credit_ledger d).
Definition set_usage (t : gmap (OrgId * NaiveDate) UsageRow) (d : bdb) : bdb :=
  mkBdb (org_billing d) t (org_credits d) (org_credit_ledger d).
Definition set_credits (c : gmap OrgId CreditRow) (l : list LedgerRow) (d : bdb) : bdb :=
  mkBdb (org_billing d) (org_billing_usage d) c l.

(** A transaction body, and the transaction: anything but [Ok] rolls back. *)
Definition BM (A : Type) : Type := bdb → res BillingError (A * bdb).
Definition bret {A} (a : A) : BM A := λ d, Ok (a, d).
Definition bbind {A B} (m : BM A) (k : A → BM B) : BM B := λ d, p <-? m d ; k p.1 p.2.
Definition blift {A} (r : res BillingError A) : BM A := λ d, a <-? r ; Ok (a, d).
Definition brun {A} (m : BM A) (d : bdb) : res BillingError A * bdb :=
  match m d with
  | Ok (a, d') => (Ok a, d')
  | Err e => (Err e, d)
  | Panic s => (Panic s, d)
  end.
Notation "x <$- m ; k" := (bbind m (λ x, k))
  (at level 100, m at next level, k at level 200, right associativity) : patom_scope.
Notation "m ;$- k" := (bbind m (λ _, k))
  (at level 100, k at level 200, right associativity) : patom_scope.

(** ** The gate *)

Record UsageSnapshot := mkUsageSnapshot { us_used : Z; us_cap : option Z }.

Definition UsageSnapshot_decide (s : UsageSnapshot) (org : OrgId) : res BillingError unit :=
  match us_cap s with
  | None => Ok tt
  | Some cap =>
      rassert (0 <? cap)%Z "invariant: configured cap must be positive" ;;?
      rassert (0 <=? us_used s)%Z "invariant: usage non-negative" ;;?
      if (cap <=? us_used s)%Z then Err (Exceeded org (us_used s) cap) else Ok tt
  end.

(** [visible] is what the transaction's row-level security lets it read. *)
Definition read_snapshot (visible : OrgId → bool) (org : OrgId) (period : NaiveDate) (d : bdb)
    : UsageSnapshot * Z :=
  if visible org then
    (mkUsageSnapshot (default 0%Z (ur_used <$> org_billing_usage d !! (org, period)))
       (org_billing d !! org ≫= br_monthly_cap),
     default 0%Z (cd_balance <$> org_credits d !! org))
  else (mkUsageSnapshot 0 None, 0%Z).

Definition gate `{Entitlements} (visible : OrgId → bool) (org : OrgId) (today : NaiveDate)
    (d : bdb) : res BillingError unit :=
  let '(snapshot, balance) := read_snapshot visible org (BillingPeriod_current today) d in
  let credit_balance := if credit_gate_active org then Some balance else None in
  UsageSnapshot_decide snapshot org ;;?
  match credit_balance with
  | Some balance => if (balance <=? 0)%Z then Err (OutOfCredit org balance) else Ok tt
  | None => Ok tt
  end.

Definition check_or_fail `{Entitlements} (org : OrgId) today d := gate (λ _, true) org today d.
Definition check_or_fail_for_user `{Entitlements} (visible : OrgId → bool) (org : OrgId) today d :=
  gate visible org today d.

(** ** Settle *)

Definition warn_threshold_micros (cap bps : Z) : res BillingError Z :=
  rassert (0 <? cap)%Z "invariant: cap positive" ;;?
  rassert (0 <? bps)%Z "invariant: warn bps positive" ;;?
  let threshold := Z.quot (cap * bps) FULL in
  if (threshold <=? I64_MAX)%Z then Ok threshold
  else Panic "invariant: warn threshold <= cap fits i64".

(** [MARK_WARNED]; returns whether this settle flipped [warned_at]. *)
Definition fire_warn_once (org : OrgId) (period : NaiveDate) (used : Z) (cap bps : option Z)
    (now : Z) : BM bool :=
  match cap, bps with
  | Some cap, Some bps =>
      threshold <$- blift (warn_threshold_micros cap bps) ;
      if (used <? threshold)%Z then bret false
      else λ d,
        match org_billing_usage d !! (org, period) with
        | Some (mkUsageRow u None) =>
            Ok (true, set_usage (<[(org, period) := mkUsageRow u (Some now)]> (org_billing_usage d)) d)
        | _ => Ok (false, d)
        end
  | _, _ => bret false
  end.

Definition key_taken (key : option str) (d : bdb) : bool :=
  match key with
  | Some _ => existsb (λ l, bool_decide (lr_key l = key)) (org_credit_ledger d)
  | None => false
  end.
Definition ledger_id_taken (id : N) (d : bdb) : bool :=
  existsb (λ l, bool_decide (lr_id l = id)) (org_credit_ledger d).

(** BIGINT columns and their CHECKs. *)
Definition credit_row_ok (r : CreditRow) : bool :=
  in_i64 (cd_balance r) && in_i64 (cd_granted r) && in_i64 (cd_used r)
  && (0 <=? cd_granted r)%Z && (0 <=? cd_used r)%Z.

Definition assert_totals (r : CreditRow) : res BillingError unit :=
  rassert (0 <=? cd_granted r)%Z "invariant: granted_total non-negative" ;;?
  rassert (0 <=? cd_used r)%Z "invariant: used_total non-negative" ;;?
  rassert (cd_balance r =? cd_granted r - cd_used r)%Z "invariant: balance == granted - used".

(** [SETTLE_DEBIT_CREDITS]: [None] when it wrote nothing. *)
Definition settle_debit (id : N) (org : OrgId) (cost : Z) (key : option str) (now : Z)
    : BM (option CreditRow) := λ d,
  match org_credits d !! org with
  | None => Ok (None, d)
  | Some c =>
      if key_taken key d then Ok (None, d)
      else if ledger_id_taken id d then Err (BillingDb "org_credit_ledger_pkey")
      else
        let c' := mkCreditRow (cd_balance c - cost) (cd_granted c) (cd_used c + cost) in
        if negb (credit_row_ok c') then Err (BillingDb "org_credits check or range")
        else Ok (Some c',
                 set_credits (<[org := c']> (org_credits d))
                   (org_credit_ledger d
                    ++ [mkLedgerRow id org (- cost) Debit UsageReason key None now]) d)
  end.

Definition debit_credits `{Entitlements} (id : N) (org : OrgId) (cost : CostMicros) (now : Z)
    (usage_key : option IdempotencyKey) : BM unit :=
  if negb (credit_gate_active org) || (CostMicros_get cost =? 0)%Z then bret tt
  else
    debited <$- settle_debit id org (CostMicros_get cost) (IdempotencyKey_as_str <$> usage_key) now ;
    match debited with
    | None => bret tt
    | Some r => blift (assert_totals r)
    end.

(** [SETTLE] *)
Definition settle_usage (org : OrgId) (period : NaiveDate) (cost : Z)
    : BM (Z * option Z * option Z) := λ d,
  let row := match org_billing_usage d !! (org, period) with
             | Some u => mkUsageRow (ur_used u + cost) (ur_warned_at u)
             | None => mkUsageRow cost None
             end in
  if negb (in_i64 (ur_used row)) || (ur_used row <? 0)%Z
  then Err (BillingDb "org_billing_usage check or range")
  else Ok ((ur_used row, org_billing d !! org ≫= br_monthly_cap, br_warn_bps <$> org_billing d !! org),
           set_usage (<[(org, period) := row]> (org_billing_usage d)) d).

Definition settle_tx `{Entitlements} (id : N) (org : OrgId) (cost : CostMicros)
    (usage_key : option IdempotencyKey) (today : NaiveDate) (now : Z) : BM bool :=
  let period := BillingPeriod_current today in
  r <$- settle_usage org period (CostMicros_get cost) ;
  let '(used, cap, bps) := r in
  blift (rassert (0 <=? used)%Z "invariant: period total never negative") ;$-
  warned <$- fire_warn_once org period used cap bps now ;
  debit_credits id org cost now usage_key ;$-
  bret warned.

(** The flag returned is what the code records in its span. *)
Definition settle `{Entitlements} id org cost usage_key today now (d : bdb)
    : res BillingError bool * bdb :=
  brun (settle_tx id org cost usage_key today now) d.

(** ** Grants *)

(** [INSERT_LEDGER_ENTRY] *)
Definition insert_ledger_entry (row : LedgerRow) : BM (option N) := λ d,
  if key_taken (lr_key row) d then Ok (None, d)
  else if ledger_id_taken (lr_id row) d then Err (BillingDb "org_credit_ledger_pkey")
  else Ok (Some (lr_id row), set_credits (org_credits d) (org_credit_ledger d ++ [row]) d).

(** [GRANT_UPSERT_CREDITS] *)
Definition grant_upsert_credits (org : OrgId) (amount : Z) : BM CreditRow := λ d,
  let c' := match org_credits d !! org with
            | Some c => mkCreditRow (cd_balance c + amount) (cd_granted c + amount) (cd_used c)
            | None => mkCreditRow amount amount 0
            end in
  if negb (credit_row_ok c') then Err (BillingDb "org_credits check or range")
  else Ok (c', set_credits (<[org := c']> (org_credits d)) (org_credit_ledger d) d).

Definition grant_credit_tx (id : N) (org : OrgId) (amount : GrantAmount) (reason : LedgerReason)
    (key : IdempotencyKey) (actor : option UserId) (now : Z) : BM bool :=
  let delta := LedgerDelta_get (LedgerDelta_from_grant amount) in
  blift (rassert (0 <? delta)%Z "invariant: a grant is a positive delta") ;$-
  inserted <$- insert_ledger_entry
                 (mkLedgerRow id org delta Grant reason (Some (IdempotencyKey_as_str key)) actor now) ;
  match inserted with
  | Some _ =>
      r <$- grant_upsert_credits org (GrantAmount_get amount) ;
      blift (assert_totals r) ;$- bret true
  | None => bret false
  end.

(** The flag returned is what the code logs as applied. *)
Definition grant_credit id org amount reason key actor now (d : bdb) : res BillingError bool * bdb :=
  brun (grant_credit_tx id org amount reason key actor now) d.

(** ** Reads and configuration *)

Record CreditSummary := mkCreditSummary {
  cs_balance : Z; cs_granted : Z; cs_used : Z; cs_recent : list LedgerRow }.

Definition read_credits (visible : OrgId → bool) (org : OrgId) (limit : nat) (d : bdb)
    : res BillingError CreditSummary :=
  rassert (0 <? limit) "invariant: ledger read limit is positive" ;;?
  let c := if visible org then default (mkCreditRow 0 0 0) (org_credits d !! org)
           else mkCreditRow 0 0 0 in
  let recent := take limit (sort_by (λ l, - lr_created_at l)%Z
                  (filter (λ l, lr_org_id l = org ∧ visible org = true) (org_credit_ledger d))) in
  rassert (0 <=? cd_granted c)%Z "invariant: granted_total non-negative" ;;?
  rassert (0 <=? cd_used c)%Z "invariant: used_total non-negative" ;;?
  Ok (mkCreditSummary (cd_balance c) (cd_granted c) (cd_used c) recent).

Record BillingConfig := mkBillingConfig {
  bc_cap : option Z; bc_warn_bps : Z; bc_used : Z; bc_warned_at : option Z;
  bc_period_start : NaiveDate }.

Definition read_config (visible : OrgId → bool) (org : OrgId) (period : NaiveDate)
    : BM BillingConfig := λ d,
  let b := if visible org then org_billing d !! org else None in
  let u := if visible org then org_billing_usage d !! (org, period) else None in
  let used := default 0%Z (ur_used <$> u) in
  rassert (0 <=? used)%Z "invariant: usage non-negative" ;;?
  Ok (mkBillingConfig (b ≫= br_monthly_cap)
        (match b with
         | Some r => if (0 <=? br_warn_bps r)%Z && (br_warn_bps r <=? 65535)%Z
                     then br_warn_bps r else DEFAULT_WARN_BPS
         | None => DEFAULT_WARN_BPS
         end) used (u ≫= ur_warned_at) period, d).

Definition get_config (visible : OrgId → bool) (org : OrgId) (today : NaiveDate) (d : bdb) :=
  brun (read_config visible org (BillingPeriod_current today)) d.

(** [WRITE_CONFIG] under row-level security and the column CHECKs. *)
Definition write_config (visible : OrgId → bool) (org : OrgId) (cap : option Z) (bps : Z)
    : BM unit := λ d,
  if negb (visible org) then Err (BillingDb "org_billing_org_isolation")
  else if match cap with Some c => (c <=? 0)%Z | None => false end || negb ((1 <=? bps)%Z && (bps <=? FULL)%Z)
  then Err (BillingDb "org_billing check")
  else Ok (tt, set_billing (<[org := mkBillingRow cap bps]> (org_billing d)) d).

Definition set_config (visible : OrgId → bool) (org : OrgId) (cap : option MonthlyCapMicros)
    (warn : WarnThresholdBps) (today : NaiveDate) (d : bdb) : res BillingError BillingConfig * bdb :=
  brun (write_config visible org (MonthlyCapMicros_get <$> cap) (WarnThresholdBps_get warn) ;$-
        read_config visible org (BillingPeriod_current today)) d.
