(* ===== verification/BillingLaws.v ===== *)
(** * What billing promises

    Theorems about [Billing]: the balance is what the ledger says, credit moves
    once per key, the gate's exact decision and the cost of a turn. *)

From Stdlib Require Import ZArith Lia Ascii String.
From stdpp Require Import base gmap list strings sets.
From S2P Require Import Prelude Program Types Catalog Billing.

(** ** The cost of a turn *)

Definition u32_usage (u : Usage) : Prop :=
  Forall (λ n, (0 ≤ n ≤ U32_MAX)%Z)
    [input_tokens u; output_tokens u; default 0%Z (cache_creation_input_tokens u);
     default 0%Z (cache_read_input_tokens u)].

Definition price_le (p q : Price) : Prop :=
  (0 ≤ p_input p ≤ p_input q)%Z ∧ (0 ≤ p_output p ≤ p_output q)%Z
  ∧ (0 ≤ p_cache_write p ≤ p_cache_write q)%Z ∧ (0 ≤ p_cache_read p ≤ p_cache_read q)%Z.

(** Micro-dollars times a million, before the truncating divisions. *)
Definition exact_cost (p : Price) (u : Usage) : Z :=
  (input_tokens u * p_input p + output_tokens u * p_output p
   + default 0 (cache_creation_input_tokens u) * p_cache_write p
   + default 0 (cache_read_input_tokens u) * p_cache_read p)%Z.

Lemma catalog_price e :
  e ∈ MODEL_CATALOG →
  price_for (mkModel e) ≠ FALLBACK_PRICE ∧ price_le (price_for (mkModel e)) FALLBACK_PRICE.
Proof.
  assert (Forall (λ e, price_for (mkModel e) ≠ FALLBACK_PRICE
                       ∧ price_le (price_for (mkModel e)) FALLBACK_PRICE) MODEL_CATALOG) as H.
  { unfold MODEL_CATALOG, price_le. repeat constructor; vm_compute; congruence. }
  rewrite Forall_forall in H. apply H.
Qed.

Lemma turn_cost_spec {E} p u :
  price_le p FALLBACK_PRICE → u32_usage u →
  ∃ c, @turn_cost E p u = Ok (mkCostMicros c) ∧
       (0 ≤ c)%Z ∧ (c * 1000000 ≤ exact_cost p u < (c + 4) * 1000000)%Z.
Proof.
  intros (H1 & H2 & H3 & H4) Hu. unfold u32_usage in Hu.
  repeat match goal with H : Forall _ (_ :: _) |- _ => apply Forall_cons in H as [? H] end.
  unfold turn_cost, lanes, exact_cost in *. cbn [foldl].
  set (n1 := input_tokens u) in *. set (n2 := output_tokens u) in *.
  set (n3 := default 0%Z (cache_creation_input_tokens u)) in *.
  set (n4 := default 0%Z (cache_read_input_tokens u)) in *.
  assert (∀ n r m, (0 ≤ n ≤ U32_MAX)%Z → (0 ≤ r ≤ m)%Z → (m ≤ 80000000)%Z →
    (0 ≤ Z.quot (n * r) 1000000 ∧ Z.quot (n * r) 1000000 * 1000000 ≤ n * r
     < (Z.quot (n * r) 1000000 + 1) * 1000000 ∧ n * r ≤ U32_MAX * 80000000)%Z) as Hl.
  { intros n r m Hn Hr Hm. rewrite Z.quot_div_nonneg by nia.
    pose proof (Z.mod_pos_bound (n * r) 1000000 ltac:(lia)).
    pose proof (Z.div_mod (n * r) 1000000 ltac:(lia)).
    assert (0 ≤ n * r)%Z by nia. pose proof (Z.div_pos (n * r) 1000000 ltac:(lia) ltac:(lia)).
    split; [done|]. split; [lia|]. nia. }
  cbn in H1, H2, H3, H4.
  pose proof (Hl n1 _ _ ltac:(done) H1 ltac:(lia)). pose proof (Hl n2 _ _ ltac:(done) H2 ltac:(lia)).
  pose proof (Hl n3 _ _ ltac:(done) H3 ltac:(lia)). pose proof (Hl n4 _ _ ltac:(done) H4 ltac:(lia)).
  unfold rassert, CostMicros_try_from_i128, I64_MAX, U32_MAX in *.
  rewrite (proj2 (Z.leb_le _ _)) by lia. cbn [res_bind].
  rewrite (proj2 (Z.ltb_ge _ _)), (proj2 (Z.ltb_ge _ _)) by lia.
  eexists. split; [done|]. lia.
Qed.

(** Every catalog model has a price of its own, below the fallback in every lane;
    the cost of a turn whose counts fit [u32] never panics and is the exact price
    rounded down lane by lane, less than four micro-dollars short. *)
Theorem turn_cost_exact {E} m u :
  m ∈ Model_all → u32_usage u →
  price_for m ≠ FALLBACK_PRICE ∧ price_le (price_for m) FALLBACK_PRICE ∧
  ∃ c, @turn_cost E (price_for m) u = Ok (mkCostMicros c) ∧
       (0 ≤ c)%Z ∧ (c * 1000000 ≤ exact_cost (price_for m) u < (c + 4) * 1000000)%Z.
Proof.
  intros Hm Hu. unfold Model_all in Hm. apply list_elem_of_fmap in Hm as (e & -> & He).
  destruct (catalog_price e He) as [Hne Hle]. split; [done|]. split; [done|].
  by apply turn_cost_spec.
Qed.

Lemma turn_cost_exact_witness :
  ∃ m c, Model_try_from (lit "claude-haiku-4-5") = Ok m ∧
    @turn_cost unit (price_for m) (mkUsage 1000 200 None (Some 50%Z)) = Ok (mkCostMicros c) ∧ c = 2005%Z.
Proof.
  destruct (Model_try_from (lit "claude-haiku-4-5")) as [m| |] eqn:E; [|done..].
  assert (m ∈ Model_all) as Hm.
  { vm_compute in E. injection E as <-. vm_compute. set_solver. }
  destruct (turn_cost_exact (E := unit) m (mkUsage 1000 200 None (Some 50%Z)) Hm) as (_ & _ & c & Hc & _).
  { repeat constructor; by vm_compute. }
  exists m, c. split; [done|]. split; [done|]. vm_compute in E. injection E as <-.
  vm_compute in Hc. by injection Hc.
Defined.

(** ** The ledger *)

(** What the ledger says an organisation has. *)
Definition ledger_sum (o : OrgId) (l : list LedgerRow) : Z :=
  foldr (λ r acc, if decide (lr_org_id r = o) then lr_delta r + acc else acc)%Z 0%Z l.

Lemma ledger_sum_app o l l' : ledger_sum o (l ++ l') = (ledger_sum o l + ledger_sum o l')%Z.
Proof.
  unfold ledger_sum. induction l as [|r l IH]; simpl; [lia|]. rewrite IH. case_decide; lia.
Qed.

Record credit_ok (d : bdb) : Prop := {
  ok_balance : ∀ o c, org_credits d !! o = Some c →
    cd_balance c = (cd_granted c - cd_used c)%Z ∧ (0 ≤ cd_granted c)%Z ∧ (0 ≤ cd_used c)%Z;
  ok_ledger : ∀ o, default 0%Z (cd_balance <$> org_credits d !! o) = ledger_sum o (org_credit_ledger d);
  ok_keys : NoDup (omap lr_key (org_credit_ledger d));
  ok_config : ∀ o b, org_billing d !! o = Some b →
    (∀ c, br_monthly_cap b = Some c → (0 < c ≤ I64_MAX)%Z) ∧ (1 ≤ br_warn_bps b ≤ FULL)%Z;
  ok_usage : ∀ k u, org_billing_usage d !! k = Some u → (0 ≤ ur_used u)%Z }.

(** A transaction body that keeps [P], establishes [Q] and never panics. *)
Definition bhoare {A} (P : bdb → Prop) (m : BM A) (Q : A → bdb → Prop) : Prop :=
  ∀ d, P d → match m d with Ok (a, d') => Q a d' | Err _ => True | Panic _ => False end.

Lemma bhoare_bind {A B} P (m : BM A) (k : A → BM B) R Q :
  bhoare P m R → (∀ a, bhoare (R a) (k a) Q) → bhoare P (bbind m k) Q.
Proof.
  intros Hm Hk d Hd. unfold bbind. specialize (Hm d Hd). destruct (m d) as [[a d']| |]; [|done..].
  apply (Hk a d' Hm).
Qed.

Lemma bhoare_ret {A} (P : A → bdb → Prop) (a : A) : bhoare (P a) (bret a) P.
Proof. by intros d Hd. Qed.

Lemma bhoare_lift {A} P (r : res BillingError A) (Q : A → bdb → Prop) :
  (∀ d, P d → match r with Ok a => Q a d | Err _ => True | Panic _ => False end) →
  bhoare P (blift r) Q.
Proof. intros H d Hd. specialize (H d Hd). unfold blift. by destruct r. Qed.

Lemma bhoare_run {A} P (m : BM A) (Q : A → bdb → Prop) d :
  bhoare P m Q → P d →
  match brun m d with (Ok a, d') => Q a d' | (Err _, d') => d' = d | (Panic _, _) => False end.
Proof. intros Hm Hd. specialize (Hm d Hd). unfold brun. by destruct (m d) as [[a d']| |]. Qed.

Lemma usage_ok d u : credit_ok d → (∀ k r, u !! k = Some r → (0 ≤ ur_used r)%Z) → credit_ok (set_usage u d).
Proof. intros Hok Hu. destruct Hok. by constructor. Qed.

Lemma settle_usage_ok org period cost :
  (0 ≤ cost)%Z →
  bhoare credit_ok (settle_usage org period cost) (λ r d,
    credit_ok d ∧ (0 ≤ r.1.1)%Z ∧ (∀ c, r.1.2 = Some c → (0 < c ≤ I64_MAX)%Z) ∧
    (∀ b, r.2 = Some b → (1 ≤ b ≤ FULL)%Z)).
Proof.
  intros Hc d Hok. unfold settle_usage. set (row := match _ with Some _ => _ | None => _ end).
  destruct (negb (in_i64 (ur_used row)) || (ur_used row <? 0)%Z) eqn:E; [done|]. bools. cbn.
  split_and!; [|done|..].
  - apply usage_ok; [done|]. intros k r. rewrite lookup_insert_Some.
    intros [[_ <-]|[_ Hk]]; [done|by apply (ok_usage d Hok) in Hk].
  - intros c. destruct (org_billing d !! org) as [b|] eqn:Eb; [|done]. cbn.
    apply (ok_config d Hok) in Eb as [Hcap _]. apply Hcap.
  - intros b. destruct (org_billing d !! org) as [b'|] eqn:Eb; [|done]. intros [= <-].
    by apply (ok_config d Hok) in Eb as [_ ?].
Qed.

Lemma warn_threshold_ok cap bps :
  (0 < cap ≤ I64_MAX)%Z → (1 ≤ bps ≤ FULL)%Z →
  ∃ t, warn_threshold_micros cap bps = Ok t ∧ (0 ≤ t ≤ cap)%Z.
Proof.
  intros Hc Hb. unfold warn_threshold_micros, rassert.
  rewrite (proj2 (Z.ltb_lt 0 cap)), (proj2 (Z.ltb_lt 0 bps)) by lia. cbn [res_bind].
  assert (0 ≤ Z.quot (cap * bps) FULL ≤ cap)%Z as Ht.
  { unfold FULL in *. rewrite Z.quot_div_nonneg by nia. split; [apply Z.div_pos; nia|].
    apply Z.div_le_upper_bound; [done|]. nia. }
  rewrite (proj2 (Z.leb_le _ _)) by lia. eauto.
Qed.

Lemma fire_warn_ok org period used cap bps now :
  (∀ c, cap = Some c → (0 < c ≤ I64_MAX)%Z) → (∀ b, bps = Some b → (1 ≤ b ≤ FULL)%Z) →
  bhoare credit_ok (fire_warn_once org period used cap bps now) (λ _, credit_ok).
Proof.
  intros Hc Hb d Hok. unfold fire_warn_once.
  destruct cap as [cap|]; [|done]. destruct bps as [bps|]; [|done].
  destruct (warn_threshold_ok cap bps) as (t & Ht & _); [by apply Hc|by apply Hb|].
  unfold bbind, blift. rewrite Ht. cbn [res_bind fst snd].
  destruct (used <? t)%Z; [done|].
  destruct (org_billing_usage d !! (org, period)) as [[u [w|]]|] eqn:Eu; try done.
  apply usage_ok; [done|]. intros k r. rewrite lookup_insert_Some.
  intros [[_ <-]|[_ Hk]]; [by apply (ok_usage d Hok) in Eu|by apply (ok_usage d Hok) in Hk].
Qed.

Lemma key_taken_false key d :
  key_taken key d = false → ∀ k, key = Some k → k ∉ omap lr_key (org_credit_ledger d).
Proof.
  intros H k -> (l & Hl & Hk)%list_elem_of_omap. unfold key_taken in H.
  apply not_true_iff_false in H. apply H, existsb_exists. exists l.
  split; [by apply list_elem_of_In|]. by apply bool_decide_eq_true_2.
Qed.

(** Writing one ledger row and moving the balance by its delta. *)
Lemma credit_move_ok d row c' :
  credit_ok d → (∀ k, lr_key row = Some k → k ∉ omap lr_key (org_credit_ledger d)) →
  cd_balance c' = (cd_granted c' - cd_used c')%Z → (0 ≤ cd_granted c')%Z → (0 ≤ cd_used c')%Z →
  cd_balance c' = (default 0 (cd_balance <$> org_credits d !! lr_org_id row) + lr_delta row)%Z →
  credit_ok (set_credits (<[lr_org_id row := c']> (org_credits d)) (org_credit_ledger d ++ [row]) d).
Proof.
  intros Hok Hk Hid Hg Hu Hb.
  constructor; cbn [org_credits org_credit_ledger org_billing org_billing_usage set_credits];
    try apply Hok.
  - intros o c. rewrite lookup_insert_Some. intros [[_ <-]|[_ Hc]]; [done|by apply (ok_balance d Hok o c)].
  - intros o. rewrite ledger_sum_app, <-(ok_ledger d Hok). simpl.
    destruct (decide (o = lr_org_id row)) as [->|Hne].
    + rewrite lookup_insert_eq. cbn. rewrite Hb, decide_True by done. lia.
    + rewrite lookup_insert_ne, decide_False by done. lia.
  - rewrite omap_app. cbn. destruct (lr_key row) as [k|] eqn:E; [|rewrite app_nil_r; apply Hok].
    apply NoDup_app. split_and!; [apply Hok| |apply NoDup_singleton].
    intros x Hx Hin. apply list_elem_of_singleton in Hin as ->. by apply (Hk k).
Qed.

Lemma credit_row_ok_nonneg c : credit_row_ok c = true → (0 ≤ cd_granted c)%Z ∧ (0 ≤ cd_used c)%Z.
Proof. unfold credit_row_ok. intros H. bools. done. Qed.

Definition totals_ok (r : CreditRow) : Prop :=
  cd_balance r = (cd_granted r - cd_used r)%Z ∧ (0 ≤ cd_granted r)%Z ∧ (0 ≤ cd_used r)%Z.

Lemma assert_totals_ok r : totals_ok r → assert_totals r = Ok tt.
Proof.
  intros (H1 & H2 & H3). unfold assert_totals, rassert.
  rewrite (proj2 (Z.leb_le _ _) H2), (proj2 (Z.leb_le _ _) H3), (proj2 (Z.eqb_eq _ _) H1). done.
Qed.

Lemma settle_debit_ok id org cost key now :
  bhoare credit_ok (settle_debit id org cost key now)
    (λ r d, credit_ok d ∧ ∀ c, r = Some c → totals_ok c).
Proof.
  intros d Hok. unfold settle_debit. destruct (org_credits d !! org) as [c|] eqn:Ec; [|done].
  destruct (key_taken key d) eqn:Ek; [done|]. destruct (ledger_id_taken id d); [done|]. cbn zeta.
  set (c' := mkCreditRow _ _ _). destruct (credit_row_ok c') eqn:Eok; [|done]. cbn [negb].
  apply credit_row_ok_nonneg in Eok as [Hg Hu].
  pose proof (ok_balance d Hok org c Ec) as (Hb & _ & _).
  assert (cd_balance c' = (cd_granted c' - cd_used c')%Z) as Hid by (cbn; lia).
  split; [|intros ? [= <-]; done].
  apply (credit_move_ok d (mkLedgerRow id org (- cost) Debit UsageReason key None now)); try done.
  - cbn. by apply key_taken_false.
  - cbn. rewrite Ec. cbn. lia.
Qed.

Lemma debit_credits_ok `{Entitlements} id org cost now key :
  bhoare credit_ok (debit_credits id org cost now key) (λ _, credit_ok).
Proof.
  unfold debit_credits. destruct (_ || _); [apply (bhoare_ret (λ _, credit_ok))|].
  eapply bhoare_bind; [apply settle_debit_ok|]. intros [r|].
  - apply bhoare_lift. intros d [Hok Hr]. by rewrite assert_totals_ok by by apply Hr.
  - intros d [Hok _]. done.
Qed.

Lemma settle_tx_ok `{Entitlements} id org cost key today now :
  (0 ≤ CostMicros_get cost)%Z →
  bhoare credit_ok (settle_tx id org cost key today now) (λ _, credit_ok).
Proof.
  intros Hc. unfold settle_tx. eapply bhoare_bind; [by apply settle_usage_ok|].
  intros [[used cap] bps] d (Hok & Hu & Hcap & Hbps). cbn in Hu, Hcap, Hbps.
  revert d Hok. change (bhoare credit_ok
    (blift (rassert (0 <=? used)%Z "invariant: period total never negative") ;$-
     warned <$- fire_warn_once org (BillingPeriod_current today) used cap bps now ;
     debit_credits id org cost now key ;$- bret warned) (λ _, credit_ok)).
  eapply bhoare_bind with (R := λ _, credit_ok).
  { apply bhoare_lift. intros d Hd. rewrite (proj2 (Z.leb_le _ _) Hu). exact Hd. }
  intros _. eapply bhoare_bind with (R := λ _, credit_ok); [by apply fire_warn_ok|]. intros w.
  eapply bhoare_bind with (R := λ _, credit_ok); [apply debit_credits_ok|]. intros _. apply (bhoare_ret (λ _, credit_ok)).
Qed.

Lemma grant_tx_ok id org amount reason key actor now :
  (0 < GrantAmount_get amount)%Z →
  bhoare credit_ok (grant_credit_tx id org amount reason key actor now) (λ _, credit_ok).
Proof.
  intros Ha d Hok. unfold grant_credit_tx, bbind, blift, bret, insert_ledger_entry.
  cbn [LedgerDelta_get LedgerDelta_from_grant lr_key lr_id].
  rewrite (proj2 (Z.ltb_lt _ _) Ha). cbn [rassert res_bind fst snd].
  destruct (key_taken (Some (IdempotencyKey_as_str key)) d) eqn:Ek; [done|].
  destruct (ledger_id_taken id d); [done|].
  cbn [res_bind fst snd]. unfold grant_upsert_credits. cbn [org_credits set_credits].
  set (c' := match org_credits d !! org with Some _ => _ | None => _ end).
  destruct (credit_row_ok c') eqn:Eok; [|done]. cbn [negb res_bind fst snd].
  apply credit_row_ok_nonneg in Eok as [Hg Hu].
  assert (cd_balance c' = (cd_granted c' - cd_used c')%Z
          ∧ cd_balance c' = (default 0 (cd_balance <$> org_credits d !! org) + GrantAmount_get amount)%Z)
    as [Hid Hb].
  { unfold c'. destruct (org_credits d !! org) as [c|] eqn:Ec; cbn; [|lia].
    pose proof (ok_balance d Hok org c Ec) as (? & _ & _). lia. }
  rewrite assert_totals_ok by done. cbn [res_bind].
  apply (credit_move_ok d (mkLedgerRow id org (GrantAmount_get amount) Grant reason
           (Some (IdempotencyKey_as_str key)) actor now)); try done.
  cbn. by apply key_taken_false.
Qed.

(** ** Histories *)

Section history.
Context `{Entitlements}.

(** The writes of the service, with the amounts its newtypes admit. *)
Inductive bstep : bdb → bdb → Prop :=
| bstep_settle id org cost key today now d :
    (0 ≤ CostMicros_get cost)%Z → bstep d (settle id org cost key today now d).2
| bstep_grant id org amount reason key actor now d :
    (0 < GrantAmount_get amount)%Z → bstep d (grant_credit id org amount reason key actor now d).2
| bstep_config visible org cap warn today d :
    (∀ c, cap = Some c → 0 < MonthlyCapMicros_get c ≤ I64_MAX)%Z →
    bstep d (set_config visible org cap warn today d).2.

Definition empty_bdb : bdb := mkBdb ∅ ∅ ∅ [].

Lemma empty_credit_ok : credit_ok empty_bdb.
Proof.
  constructor; cbn; try (intros ? ?; rewrite lookup_empty; done).
  - intros o. by rewrite lookup_empty.
  - constructor.
Qed.

Lemma config_ok visible org cap bps period :
  (∀ c, cap = Some c → (0 < c ≤ I64_MAX)%Z) →
  bhoare credit_ok (write_config visible org cap bps ;$- read_config visible org period)
    (λ _, credit_ok).
Proof.
  intros Hc. eapply bhoare_bind with (R := λ _, credit_ok).
  - intros d Hok. unfold write_config. destruct (negb (visible org)); [done|].
    destruct (_ || _) eqn:E; [done|]. apply orb_false_iff in E as [_ E]. bools.
    constructor; cbn; try apply Hok. intros o b. rewrite lookup_insert_Some.
    intros [[_ <-]|[_ Hb]]; [done|by apply (ok_config d Hok) in Hb].
  - intros _ d Hok. unfold read_config, rassert.
    set (u := if visible org then org_billing_usage d !! (org, period) else None).
    assert (0 ≤ default 0 (ur_used <$> u))%Z as Hu.
    { unfold u. destruct (visible org); [|done].
      destruct (org_billing_usage d !! (org, period)) eqn:E; [|done]. by apply (ok_usage d Hok) in E. }
    by rewrite (proj2 (Z.leb_le _ _) Hu).
Qed.

Lemma bstep_ok d d' : bstep d d' → credit_ok d → credit_ok d'.
Proof.
  destruct 1 as [id org cost key today now d Hc|id org amount reason key actor now d Ha
                 |visible org cap warn today d Hc]; intros Hok.
  - pose proof (bhoare_run _ _ _ d (settle_tx_ok id org cost key today now Hc) Hok) as Hr.
    unfold settle. by destruct (brun _ d) as [[| |] ?]; subst.
  - pose proof (bhoare_run _ _ _ d (grant_tx_ok id org amount reason key actor now Ha) Hok) as Hr.
    unfold grant_credit. by destruct (brun _ d) as [[| |] ?]; subst.
  - pose proof (bhoare_run _ _ _ d (config_ok visible org (MonthlyCapMicros_get <$> cap)
      (WarnThresholdBps_get warn) (BillingPeriod_current today)
      ltac:(intros c; destruct cap as [c'|]; [intros [= <-]; by apply Hc|done])) Hok) as Hr.
    unfold set_config. by destruct (brun _ d) as [[| |] ?]; subst.
Qed.

Lemma history_ok d : rtc bstep empty_bdb d → credit_ok d.
Proof.
  intros Hr. pose proof empty_credit_ok as H0. revert H0.
  induction Hr as [|x y z Hxy _ IH]; [done|]. intros Hx. apply IH. by apply (bstep_ok x).
Qed.

(** The gate never trips an assertion. *)
Lemma gate_no_panic visible org today d : credit_ok d → no_panic (gate visible org today d).
Proof.
  intros Hok. unfold gate, read_snapshot. destruct (visible org); cbn zeta.
  2: { unfold UsageSnapshot_decide. cbn. destruct (credit_gate_active org); [|done]. by case_match. }
  unfold UsageSnapshot_decide. cbn [us_cap us_used].
  destruct (org_billing d !! org) as [[[cap|] bps]|] eqn:Eb; cbn [mbind option_bind br_monthly_cap].
  - apply (ok_config d Hok) in Eb as [Hcap _]. specialize (Hcap cap eq_refl).
    rewrite (proj2 (Z.ltb_lt 0 cap)) by lia. cbn [rassert res_bind].
    set (used := default 0%Z _). assert (0 ≤ used)%Z as Hu.
    { unfold used. destruct (org_billing_usage d !! _) eqn:E; [|done]. by apply (ok_usage d Hok) in E. }
    rewrite (proj2 (Z.leb_le _ _) Hu). cbn [rassert res_bind].
    destruct (cap <=? used)%Z; [done|]. cbn. destruct (credit_gate_active org); [|done]. by case_match.
  - cbn. destruct (credit_gate_active org); [|done]. by case_match.
  - cbn. destruct (credit_gate_active org); [|done]. by case_match.
Qed.

(** C7: After any history of settles, grants and configuration writes, an
    organisation's balance is what its ledger adds up to and what was granted
    less what was used, no key is in the ledger twice, and neither the next
    settle, nor the next grant, nor the gate ever trips an assertion. *)
Theorem balance_is_ledger d :
  rtc bstep empty_bdb d →
  (∀ org, default 0%Z (cd_balance <$> org_credits d !! org) = ledger_sum org (org_credit_ledger d)) ∧
  (∀ org c, org_credits d !! org = Some c → cd_balance c = (cd_granted c - cd_used c)%Z) ∧
  NoDup (omap lr_key (org_credit_ledger d)) ∧
  (∀ id org cost key today now msg, (0 ≤ CostMicros_get cost)%Z →
     (settle id org cost key today now d).1 ≠ Panic msg) ∧
  (∀ id org amount reason key actor now msg, (0 < GrantAmount_get amount)%Z →
     (grant_credit id org amount reason key actor now d).1 ≠ Panic msg) ∧
  (∀ org today msg, check_or_fail org today d ≠ Panic msg).
Proof.
  intros Hr. apply history_ok in Hr as Hok. split_and!.
  - apply Hok.
  - intros org c Hc. by apply (ok_balance d Hok) in Hc as [? _].
  - apply Hok.
  - intros id org cost key today now msg Hc.
    pose proof (bhoare_run _ _ _ d (settle_tx_ok id org cost key today now Hc) Hok) as Hs.
    unfold settle. by destruct (brun _ d) as [[| |] ?].
  - intros id org amount reason key actor now msg Ha.
    pose proof (bhoare_run _ _ _ d (grant_tx_ok id org amount reason key actor now Ha) Hok) as Hs.
    unfold grant_credit. by destruct (brun _ d) as [[| |] ?].
  - intros org today msg Hp. pose proof (gate_no_panic (λ _, true) org today d Hok) as Hn.
    unfold check_or_fail in Hp. by rewrite Hp in Hn.
Qed.
End history.

Lemma balance_is_ledger_witness :
  ∃ d, @rtc bdb (@bstep UnlimitedEntitlements) empty_bdb d ∧
    default 0%Z (cd_balance <$> org_credits d !! 1%N) = ledger_sum 1%N (org_credit_ledger d)
    ∧ ledger_sum 1%N (org_credit_ledger d) = 700%Z.
Proof.
  set (d := (grant_credit 7 1%N (mkGrantAmount 700) Promo (mkIdempotencyKey (lit "k")) None 5 empty_bdb).2).
  assert (@rtc bdb (@bstep UnlimitedEntitlements) empty_bdb d) as Hr.
  { apply rtc_once. by apply (@bstep_grant UnlimitedEntitlements). }
  exists d. split; [done|].
  destruct (@balance_is_ledger UnlimitedEntitlements d Hr) as (Hb & _).
  split; [apply Hb|by vm_compute].
Defined.

(** ** What never goes back *)

(** A later database: its ledger extends the earlier one's, and a period that
    was warned about stays so. *)
Definition grows (d d' : bdb) : Prop :=
  (∃ l, org_credit_ledger d' = org_credit_ledger d ++ l) ∧
  ∀ k u w, org_billing_usage d !! k = Some u → ur_warned_at u = Some w →
    ∃ u', org_billing_usage d' !! k = Some u' ∧ ur_warned_at u' = Some w.

#[export] Instance grows_preorder : PreOrder grows.
Proof.
  split.
  - intros d. split; [exists []; by rewrite app_nil_r|eauto].
  - intros x y z [[l Hl] Hw] [[l' Hl'] Hw']. split.
    + exists (l ++ l'). by rewrite Hl', Hl, app_assoc.
    + intros k u w Hu Hwu. destruct (Hw k u w Hu Hwu) as (u' & Hu' & ?). by apply (Hw' k u' w).
Qed.

Definition bgrow {A} (m : BM A) : Prop := ∀ d a d', m d = Ok (a, d') → grows d d'.

Lemma bgrow_bind {A B} (m : BM A) (k : A → BM B) : bgrow m → (∀ a, bgrow (k a)) → bgrow (bbind m k).
Proof.
  intros Hm Hk d b d'. unfold bbind. destruct (m d) as [[a d1]| |] eqn:E; [|done..]. cbn.
  intros Hd. transitivity d1; [by apply (Hm d a)|by apply (Hk a d1 b)].
Qed.
Lemma bgrow_ret {A} (a : A) : bgrow (bret a).
Proof. by intros d ? d' [= <- <-]. Qed.
Lemma bgrow_lift {A} (r : res BillingError A) : bgrow (blift r).
Proof. intros d a d'. unfold blift. destruct r; [|done..]. by intros [= <- <-]. Qed.
Lemma bgrow_run {A} (m : BM A) d : bgrow m → grows d (brun m d).2.
Proof. intros H. unfold brun. destruct (m d) as [[a d']| |] eqn:E; [by apply (H d a)|done..]. Qed.
Create HintDb grow.
#[local] Hint Resolve bgrow_ret bgrow_lift bgrow_bind : grow.

Lemma set_credits_grows c l d : grows d (set_credits c (org_credit_ledger d ++ l) d).
Proof. split; [by eexists|]. eauto. Qed.

Lemma set_usage_grows k r d :
  (∀ u w, org_billing_usage d !! k = Some u → ur_warned_at u = Some w → ur_warned_at r = Some w) →
  grows d (set_usage (<[k := r]> (org_billing_usage d)) d).
Proof.
  intros Hr. split; [exists []; by rewrite app_nil_r|]. intros k' u w Hu Hw. cbn.
  destruct (decide (k' = k)) as [->|Hne].
  - exists r. rewrite lookup_insert_eq. eauto.
  - exists u. by rewrite lookup_insert_ne by done.
Qed.

Lemma settle_debit_grows id org cost key now : bgrow (settle_debit id org cost key now).
Proof.
  intros d a d'. unfold settle_debit. destruct (org_credits d !! org) as [c|]; [|by intros [= <- <-]].
  destruct (key_taken key d); [by intros [= <- <-]|]. destruct (ledger_id_taken id d); [done|].
  cbn zeta. destruct (negb _); [done|]. intros [= <- <-]. apply set_credits_grows.
Qed.

Lemma debit_credits_grows `{Entitlements} id org cost now key : bgrow (debit_credits id org cost now key).
Proof.
  unfold debit_credits. destruct (_ || _); [apply bgrow_ret|].
  apply bgrow_bind; [apply settle_debit_grows|]. intros [r|]; auto with grow.
Qed.

Lemma settle_usage_grows org period cost : bgrow (settle_usage org period cost).
Proof.
  intros d a d'. unfold settle_usage. set (row := match _ with Some _ => _ | None => _ end).
  destruct (negb (in_i64 (ur_used row)) || _); [done|]. intros [= <- <-]. apply set_usage_grows.
  intros u w Hu Hw. unfold row. by rewrite Hu.
Qed.

Lemma fire_warn_grows org period used cap bps now : bgrow (fire_warn_once org period used cap bps now).
Proof.
  unfold fire_warn_once. destruct cap as [cap|], bps as [bps|]; auto with grow.
  apply bgrow_bind; [auto with grow|]. intros t. destruct (used <? t)%Z; [auto with grow|].
  intros d a d'. destruct (org_billing_usage d !! _) as [[u [w|]]|] eqn:Eu; intros [= <- <-]; try done.
  apply set_usage_grows. intros u' w. rewrite Eu. by intros [= <-].
Qed.

Lemma bstep_grows `{Entitlements} d d' : bstep d d' → grows d d'.
Proof.
  destruct 1 as [id org cost key today now d Hc|id org amount reason key actor now d Ha
                 |visible org cap warn today d Hc]; apply bgrow_run.
  - apply bgrow_bind; [apply settle_usage_grows|]. intros [[used cap] bps].
    apply bgrow_bind; [auto with grow|]. intros _. apply bgrow_bind; [apply fire_warn_grows|].
    intros w. apply bgrow_bind; [apply debit_credits_grows|auto with grow].
  - apply bgrow_bind; [auto with grow|]. intros _. apply bgrow_bind.
    + intros d1 a d2. unfold insert_ledger_entry. destruct (key_taken _ d1); [by intros [= <- <-]|].
      destruct (ledger_id_taken _ d1); [done|]. intros [= <- <-]. apply set_credits_grows.
    + intros [i|]; [|auto with grow]. apply bgrow_bind; [|auto with grow].
      intros d1 a d2. unfold grant_upsert_credits. destruct (negb _); [done|]. intros [= <- <-].
      rewrite <-(app_nil_r (org_credit_ledger d1)). apply set_credits_grows.
  - apply bgrow_bind.
    + intros d1 a d2. unfold write_config. destruct (negb _); [done|]. destruct (_ || _); [done|].
      intros [= <- <-]. split; [exists []; by rewrite app_nil_r|eauto].
    + intros _ d1 a d2. unfold read_config, rassert. destruct (0 <=? _)%Z; [|done]. by intros [= <- <-].
Qed.

Lemma history_grows `{Entitlements} d d' : rtc bstep d d' → grows d d'.
Proof.
  induction 1 as [|x y z Hxy _ IH]; [done|]. transitivity y; [by apply bstep_grows|done].
Qed.

Lemma key_taken_grows key d d' : grows d d' → key_taken key d = true → key_taken key d' = true.
Proof.
  intros [[l Hl] _]. unfold key_taken. destruct key; [|done]. rewrite Hl, existsb_app.
  intros ->. done.
Qed.

(** ** Once per key *)

(** The transactions that put [key] in the ledger. *)
Inductive keyed_move `{Entitlements} (key : IdempotencyKey) : bdb → bdb → Prop :=
| keyed_grant id org amount reason actor now d d' w :
    grant_credit id org amount reason key actor now d = (Ok w, d') → keyed_move key d d'
| keyed_settle id org cost today now d d' w :
    credit_gate_active org = true → CostMicros_get cost ≠ 0%Z → is_Some (org_credits d !! org) →
    settle id org cost (Some key) today now d = (Ok w, d') → keyed_move key d d'.

Lemma settle_debit_takes_key id org cost k now d a d' :
  is_Some (org_credits d !! org) → settle_debit id org cost (Some k) now d = Ok (a, d') →
  key_taken (Some k) d' = true.
Proof.
  intros [c Hc]. unfold settle_debit. rewrite Hc.
  destruct (key_taken (Some k) d) eqn:Ek; [by intros [= <- <-]|].
  destruct (ledger_id_taken id d); [done|]. cbn zeta. destruct (negb _); [done|]. intros [= <- <-].
  cbn [key_taken org_credit_ledger set_credits]. rewrite existsb_app. apply orb_true_iff. right.
  cbn. by rewrite bool_decide_eq_true_2.
Qed.

Lemma bbind_ok {A B} (m : BM A) (k : A → BM B) d b d' :
  bbind m k d = Ok (b, d') ↔ ∃ a d1, m d = Ok (a, d1) ∧ k a d1 = Ok (b, d').
Proof.
  unfold bbind. split.
  - destruct (m d) as [[a d1]| |]; [|done..]. eauto.
  - by intros (a & d1 & -> & Hk).
Qed.

Lemma blift_ok {A} (r : res BillingError A) d a d' : blift r d = Ok (a, d') ↔ r = Ok a ∧ d' = d.
Proof. unfold blift. destruct r; cbn; naive_solver. Qed.

Lemma brun_ok {A} (m : BM A) d a d' : brun m d = (Ok a, d') ↔ m d = Ok (a, d').
Proof. unfold brun. destruct (m d) as [[? ?]| |]; naive_solver. Qed.

Lemma fire_warn_credits org period used cap bps now d w d' :
  fire_warn_once org period used cap bps now d = Ok (w, d') →
  org_credits d' = org_credits d ∧ org_credit_ledger d' = org_credit_ledger d.
Proof.
  unfold fire_warn_once. destruct cap as [cap|], bps as [bps|]; try by intros [= <- <-].
  intros (t & d1 & [_ ->]%blift_ok & Ht)%bbind_ok. revert Ht.
  destruct (used <? t)%Z; [by intros [= <- <-]|].
  by destruct (org_billing_usage d !! _) as [[u [?|]]|]; intros [= <- <-].
Qed.

(** What an [Ok] settle did, step by step. *)
Lemma settle_inv `{Entitlements} id org cost key today now d w d' :
  settle id org cost key today now d = (Ok w, d') →
  ∃ used cap bps d1 d2,
    settle_usage org (BillingPeriod_current today) (CostMicros_get cost) d = Ok (used, cap, bps, d1) ∧
    fire_warn_once org (BillingPeriod_current today) used cap bps now d1 = Ok (w, d2) ∧
    debit_credits id org cost now key d2 = Ok (tt, d').
Proof.
  unfold settle, settle_tx. intros Hs. apply brun_ok in Hs.
  apply bbind_ok in Hs as ([[used cap] bps] & d1 & Hu & Hs).
  apply bbind_ok in Hs as ([] & d1' & [_ ->]%blift_ok & Hs).
  apply bbind_ok in Hs as (w' & d2 & Hw & Hs). apply bbind_ok in Hs as ([] & d3 & Hd & Hs).
  injection Hs as -> ->. by exists used, cap, bps, d1, d2.
Qed.

Lemma settle_usage_inv org period cost d used cap bps d1 :
  settle_usage org period cost d = Ok (used, cap, bps, d1) →
  used = (default 0 (ur_used <$> org_billing_usage d !! (org, period)) + cost)%Z ∧
  cap = org_billing d !! org ≫= br_monthly_cap ∧ bps = br_warn_bps <$> org_billing d !! org ∧
  d1 = set_usage (<[(org, period) := mkUsageRow used
         (org_billing_usage d !! (org, period) ≫= ur_warned_at)]> (org_billing_usage d)) d.
Proof.
  unfold settle_usage. destruct (negb _ || _); [done|]. intros [= <- <- <- <-].
  by destruct (org_billing_usage d !! (org, period)) as [[u w]|].
Qed.

Lemma settle_takes_key `{Entitlements} id org cost key today now d w d' :
  credit_gate_active org = true → CostMicros_get cost ≠ 0%Z → is_Some (org_credits d !! org) →
  settle id org cost (Some key) today now d = (Ok w, d') →
  key_taken (Some (IdempotencyKey_as_str key)) d' = true.
Proof.
  intros Hg Hc Hs (used & cap & bps & d1 & d2 & Hu & Hw & Hd)%settle_inv.
  apply settle_usage_inv in Hu as (_ & _ & _ & ->).
  apply fire_warn_credits in Hw as [Hcr _]. cbn in Hcr.
  unfold debit_credits in Hd. rewrite Hg in Hd. apply Z.eqb_neq in Hc. rewrite Hc in Hd.
  cbn [negb orb] in Hd. apply bbind_ok in Hd as (r & d3 & Hd & Hr).
  apply settle_debit_takes_key in Hd; [|by rewrite Hcr].
  destruct r as [r|]; [by apply blift_ok in Hr as [_ ->]|by injection Hr as <-].
Qed.

Lemma keyed_move_taken `{Entitlements} key d d' :
  keyed_move key d d' → key_taken (Some (IdempotencyKey_as_str key)) d' = true.
Proof.
  destruct 1 as [id org amount reason actor now d d' w Hs|id org cost today now d d' w Hg Hc Hs Hok];
    [|by eapply settle_takes_key].
  apply brun_ok in Hs. apply bbind_ok in Hs as ([] & d1 & [_ ->]%blift_ok & Hs).
  apply bbind_ok in Hs as (i & d1 & Hi & Hs). revert Hi. unfold insert_ledger_entry.
  cbn [lr_key lr_id]. set (k := Some (IdempotencyKey_as_str key)).
  destruct (key_taken k d) eqn:Ek.
  { intros [= <- <-]. by injection Hs as _ ->. }
  destruct (ledger_id_taken id d); [done|]. intros [= <- <-].
  apply bbind_ok in Hs as (r & d2 & Hr & Hs). apply bbind_ok in Hs as ([] & d3 & [_ ->]%blift_ok & Hs).
  injection Hs as _ ->. revert Hr. unfold grant_upsert_credits. destruct (negb _); [done|].
  intros [= <- <-]. unfold key_taken, k. cbn [org_credit_ledger set_credits]. rewrite existsb_app.
  apply orb_true_iff. right. cbn. by rewrite bool_decide_eq_true_2.
Qed.

(** Once a grant or a charged settle has committed under a key, then whatever
    commits in between, a second grant under that key - of any amount, to any
    organisation - reports that it did nothing and does nothing, and a second
    settle under it leaves every balance and the ledger as they were. *)
Theorem credit_moves_once `{Entitlements} key d d1 d2 :
  keyed_move key d d1 → rtc bstep d1 d2 →
  (∀ id org amount reason actor now, (0 < GrantAmount_get amount)%Z →
     grant_credit id org amount reason key actor now d2 = (Ok false, d2)) ∧
  (∀ id org cost today now,
     let d3 := (settle id org cost (Some key) today now d2).2 in
     org_credits d3 = org_credits d2 ∧ org_credit_ledger d3 = org_credit_ledger d2).
Proof.
  intros Hm%keyed_move_taken Hr%history_grows.
  apply (key_taken_grows _ d1 d2 Hr) in Hm as Hk. split.
  - intros id org amount reason actor now Ha.
    unfold grant_credit, brun, grant_credit_tx, bbind, blift, insert_ledger_entry.
    cbn [LedgerDelta_get LedgerDelta_from_grant lr_key].
    rewrite (proj2 (Z.ltb_lt _ _) Ha). cbn [rassert res_bind fst snd]. by rewrite Hk.
  - intros id org cost today now. cbn zeta.
    destruct (settle id org cost (Some key) today now d2) as [r d3] eqn:E. cbn [snd].
    destruct r as [w| |]; [|unfold settle, brun in E; by destruct (settle_tx _ _ _ _ _ _ _) as [[? ?]| |]; simplify_eq..].
    apply settle_inv in E as (used & cap & bps & x & y & Hu & Hw & Hd).
    apply settle_usage_inv in Hu as (_ & _ & _ & ->).
    apply fire_warn_credits in Hw as [Hc Hl]. cbn in Hc, Hl. rewrite <-Hc, <-Hl. revert Hd.
    unfold debit_credits. destruct (_ || _); [by intros [= <-]|].
    intros (r & z & Hs & Hd)%bbind_ok. revert Hs. unfold settle_debit.
    assert (key_taken (Some (IdempotencyKey_as_str key)) y = true) as Hky.
    { unfold key_taken in *. by rewrite Hl. }
    destruct (org_credits y !! org) as [c|]; cbn [fmap option_fmap option_map]; [rewrite Hky|];
      intros [= <- <-]; by injection Hd as <-.
Qed.

Lemma credit_moves_once_witness :
  ∃ d1 d2, let e := {| agent_limit _ := UnlimitedAgents; allows _ _ := true;
                       credit_gate_active _ := true; signup_grant _ := None |} in
    let key := mkIdempotencyKey (lit "charge-1") in
    let d3 := (@settle e 9 1%N (mkCostMicros 30) (Some key) (2026, 5, 3)%Z 8 d2).2 in
    @rtc bdb (@bstep e) d1 d2 ∧ org_credits d3 = org_credits d2
    ∧ cd_balance <$> org_credits d2 !! 1%N = Some 70%Z.
Proof.
  set (e := {| agent_limit _ := UnlimitedAgents; allows _ _ := true;
               credit_gate_active _ := true; signup_grant _ := None |}).
  set (key := mkIdempotencyKey (lit "charge-1")).
  set (d := (grant_credit 7 1%N (mkGrantAmount 100) Promo (mkIdempotencyKey (lit "k")) None 5 empty_bdb).2).
  set (d1 := (@settle e 8 1%N (mkCostMicros 30) (Some key) (2026, 5, 3)%Z 8 d).2).
  exists d1, d1. cbn zeta. split; [done|].
  assert (@keyed_move e key d d1) as Hm.
  { apply (@keyed_settle e key 8 1%N (mkCostMicros 30) (2026, 5, 3)%Z 8 d d1 false); try by vm_compute.
    vm_compute. eauto. }
  destruct (@credit_moves_once e key d d1 d1 Hm ltac:(done)) as [_ Hs].
  split; [apply Hs|by vm_compute].
Defined.

(** ** The gate and the meter *)

(** In every reachable state the gate admits exactly when the configured cap is
    not reached and, where the build gates credit, the balance is positive; a
    reached cap is reported before an empty balance, with the figures read. *)
Theorem gate_decides `{Entitlements} org today d :
  rtc bstep empty_bdb d →
  let used := default 0%Z (ur_used <$> org_billing_usage d !! (org, BillingPeriod_current today)) in
  let cap := org_billing d !! org ≫= br_monthly_cap in
  let balance := ledger_sum org (org_credit_ledger d) in
  (check_or_fail org today d = Ok tt ↔
     (∀ c, cap = Some c → used < c)%Z ∧ (credit_gate_active org = true → 0 < balance)%Z) ∧
  (∀ o u c, check_or_fail org today d = Err (Exceeded o u c) ↔
     o = org ∧ u = used ∧ cap = Some c ∧ (c ≤ used)%Z) ∧
  (∀ o b, check_or_fail org today d = Err (OutOfCredit o b) ↔
     o = org ∧ b = balance ∧ (∀ c, cap = Some c → used < c)%Z ∧
     credit_gate_active org = true ∧ (balance ≤ 0)%Z).
Proof.
  intros Hr%history_ok. cbn zeta. rewrite <-(ok_ledger d Hr org).
  unfold check_or_fail, gate, read_snapshot, UsageSnapshot_decide. cbn [us_cap us_used].
  set (balance := default 0%Z (cd_balance <$> _)).
  set (used := default 0%Z (ur_used <$> _)). assert (0 ≤ used)%Z as Hu.
  { unfold used. destruct (org_billing_usage d !! _) eqn:E; [|done]. by apply (ok_usage d Hr) in E. }
  assert (∀ c, org_billing d !! org ≫= br_monthly_cap = Some c → 0 < c)%Z as Hc.
  { intros c. destruct (org_billing d !! org) as [b|] eqn:Eb; [|done]. cbn. intros Hb.
    apply (ok_config d Hr) in Eb as [Hcap _]. by apply Hcap in Hb as [? _]. }
  destruct (org_billing d !! org ≫= br_monthly_cap) as [c|].
  - specialize (Hc c eq_refl). rewrite (proj2 (Z.ltb_lt 0 c)) by done. cbn [rassert res_bind].
    rewrite (proj2 (Z.leb_le 0 used)) by done. cbn [rassert res_bind].
    destruct (Z.leb_spec c used); cbn [res_bind].
    + split_and!; naive_solver lia.
    + destruct (credit_gate_active org); [destruct (Z.leb_spec balance 0)|]; split_and!; naive_solver lia.
  - cbn [res_bind]. destruct (credit_gate_active org); [destruct (Z.leb_spec balance 0)|];
      split_and!; naive_solver lia.
Qed.

Lemma gate_decides_witness :
  ∃ d, @rtc bdb (@bstep UnlimitedEntitlements) empty_bdb d ∧
    @check_or_fail UnlimitedEntitlements 1%N (2026, 5, 3)%Z d = Err (Exceeded 1%N 60 50).
Proof.
  set (d1 := (set_config (λ _, true) 1%N (Some (mkMonthlyCapMicros 50)) (mkWarnThresholdBps 8000)
                (2026, 5, 1)%Z empty_bdb).2).
  set (d2 := (@settle UnlimitedEntitlements 8 1%N (mkCostMicros 60) None (2026, 5, 2)%Z 8 d1).2).
  assert (@rtc bdb (@bstep UnlimitedEntitlements) empty_bdb d2) as Hr.
  { apply (rtc_l _ _ d1); [apply (@bstep_config UnlimitedEntitlements); by intros c [= <-]|].
    apply rtc_once. by apply (@bstep_settle UnlimitedEntitlements). }
  exists d2. split; [done|].
  destruct (@gate_decides UnlimitedEntitlements 1%N (2026, 5, 3)%Z d2 Hr) as (_ & Hex & _).
  apply Hex. split_and!; [done|by vm_compute..|vm_compute; congruence].
Defined.

Lemma fire_warn_spec org period used cap bps now d w d' :
  fire_warn_once org period used cap bps now d = Ok (w, d') →
  (w = true ↔ ∃ c b u, cap = Some c ∧ bps = Some b ∧
     (Z.quot (c * b) FULL ≤ used)%Z ∧ org_billing_usage d !! (org, period) = Some (mkUsageRow u None)) ∧
  (∀ k, ur_used <$> org_billing_usage d' !! k = ur_used <$> org_billing_usage d !! k) ∧
  (w = true → ∃ u, org_billing_usage d' !! (org, period) = Some (mkUsageRow u (Some now))).
Proof.
  unfold fire_warn_once. destruct cap as [c|], bps as [b|];
    try (intros [= <- <-]; split_and!; naive_solver).
  intros (t & d1 & [Ht ->]%blift_ok & Hw)%bbind_ok. revert Ht. unfold warn_threshold_micros, rassert.
  destruct (0 <? c)%Z, (0 <? b)%Z; try done. cbn [res_bind]. destruct (Z.leb_spec (Z.quot (c * b) FULL) I64_MAX); [|done].
  intros [= <-]. revert Hw. destruct (Z.ltb_spec used (Z.quot (c * b) FULL)).
  { intros [= <- <-]. split_and!; [naive_solver lia|naive_solver..]. }
  destruct (org_billing_usage d !! (org, period)) as [[u [x|]]|] eqn:Eu; intros [= <- <-];
    try (split_and!; naive_solver).
  cbn [org_billing_usage set_usage]. split_and!; [naive_solver| |rewrite lookup_insert_eq; eauto].
  intros k. destruct (decide (k = (org, period))) as [->|Hne].
  - by rewrite lookup_insert_eq, Eu.
  - by rewrite lookup_insert_ne.
Qed.

Lemma debit_keeps_usage `{Entitlements} id org cost now key d d' :
  debit_credits id org cost now key d = Ok (tt, d') → org_billing_usage d' = org_billing_usage d.
Proof.
  unfold debit_credits. destruct (_ || _); [by intros [= <-]|].
  intros (r & z & Hs & Hd)%bbind_ok. assert (z = d') as <-.
  { destruct r; [by apply blift_ok in Hd as [_ ->]|by injection Hd]. }
  revert Hs. unfold settle_debit. destruct (org_credits d !! org); [|by intros [= <- <-]].
  destruct (key_taken _ d); [by intros [= <- <-]|]. destruct (ledger_id_taken id d); [done|].
  cbn zeta. destruct (negb _); [done|]. by intros [= <- <-].
Qed.

(** A settle adds its cost to the organisation's own month and to no other
    counter; it reports a warning exactly when the new total reaches the
    configured share of the cap in a month not yet warned about, and after that
    no settle of the month reports one again. *)
Theorem settle_warns_once `{Entitlements} id org cost key today now d warned d1 :
  settle id org cost key today now d = (Ok warned, d1) →
  let k := (org, BillingPeriod_current today) in
  let used := (default 0 (ur_used <$> org_billing_usage d !! k) + CostMicros_get cost)%Z in
  ur_used <$> org_billing_usage d1 !! k = Some used ∧
  (∀ k', k' ≠ k → ur_used <$> org_billing_usage d1 !! k' = ur_used <$> org_billing_usage d !! k') ∧
  (warned = true ↔
     org_billing_usage d !! k ≫= ur_warned_at = None ∧
     ∃ b c, org_billing d !! org = Some b ∧ br_monthly_cap b = Some c ∧
            (Z.quot (c * br_warn_bps b) FULL ≤ used)%Z) ∧
  (warned = true → ∀ d2 id' cost' key' now' w', rtc bstep d1 d2 →
     (settle id' org cost' key' today now' d2).1 = Ok w' → w' = false).
Proof.
  intros (used & cap & bps & x & y & Hu & Hw & Hd)%settle_inv. cbn zeta.
  apply settle_usage_inv in Hu as (-> & -> & -> & ->).
  set (k := (org, BillingPeriod_current today)) in *. rewrite (debit_keeps_usage _ _ _ _ _ _ _ Hd).
  apply fire_warn_spec in Hw as (Hw & Hused & Hflag). fold k in Hw, Hflag.
  cbn [org_billing_usage set_usage] in Hw, Hused. setoid_rewrite lookup_insert_eq in Hw.
  split_and!.
  - by rewrite Hused, lookup_insert_eq.
  - intros k' Hk. by rewrite Hused, lookup_insert_ne.
  - rewrite Hw. split.
    + intros (c & b & u & Hc & Hb & Hq & [= _ Hn]). split; [done|].
      destruct (org_billing d !! org) as [r|]; [|done]. injection Hb as <-. by exists r, c.
    + intros (Hn & r & c & Hr & Hc & Hq). rewrite Hn, Hr. by repeat eexists.
  - intros ->. destruct (Hflag eq_refl) as [u Hu].
    intros d2 id' cost' key' now' w' [_ Hg]%history_grows Hs.
    rewrite <-(debit_keeps_usage _ _ _ _ _ _ _ Hd) in Hu.
    destruct (Hg k _ now Hu eq_refl) as (u' & Hu' & Hn).
    destruct (settle id' org cost' key' today now' d2) as [r d3] eqn:E. cbn in Hs. subst r.
    apply settle_inv in E as (used' & cap' & bps' & x' & y' & Hx & Hw' & _).
    apply settle_usage_inv in Hx as (-> & -> & -> & ->).
    apply fire_warn_spec in Hw' as [Hw' _]. destruct w'; [|done].
    destruct (proj1 Hw' eq_refl) as (? & ? & ? & _ & _ & _ & Hx).
    cbn [org_billing_usage set_usage] in Hx. fold k in Hx. rewrite lookup_insert_eq, Hu' in Hx.
    cbn in Hx. congruence.
Qed.

Lemma settle_warns_once_witness :
  ∃ d d1, @settle UnlimitedEntitlements 8 1%N (mkCostMicros 45) None (2026, 5, 2)%Z 8 d = (Ok true, d1)
    ∧ ur_used <$> org_billing_usage d1 !! (1%N, (2026, 5, 1)%Z) = Some 45%Z.
Proof.
  set (d := (set_config (λ _, true) 1%N (Some (mkMonthlyCapMicros 50)) (mkWarnThresholdBps 8000)
               (2026, 5, 1)%Z empty_bdb).2).
  set (d1 := (@settle UnlimitedEntitlements 8 1%N (mkCostMicros 45) None (2026, 5, 2)%Z 8 d).2).
  exists d, d1.
  assert (@settle UnlimitedEntitlements 8 1%N (mkCostMicros 45) None (2026, 5, 2)%Z 8 d = (Ok true, d1))
    as Hs by by vm_compute.
  split; [done|].
  destruct (@settle_warns_once UnlimitedEntitlements 8 1%N (mkCostMicros 45) None (2026, 5, 2)%Z 8 d
    true d1 Hs) as [Hu _]. exact Hu.
Defined.

(** A settle retried under one key debits the credit once but adds its cost to
    the period twice. *)
Lemma retried_settle_counts_twice :
  let e := {| agent_limit _ := UnlimitedAgents; allows _ _ := true;
              credit_gate_active _ := true; signup_grant _ := None |} in
  let run d := (@settle e 8 1%N (mkCostMicros 30) (Some (mkIdempotencyKey (lit "u"))) (2026, 5, 2)%Z 8 d).2 in
  let d := (grant_credit 7 1%N (mkGrantAmount 100) Promo (mkIdempotencyKey (lit "k")) None 5 empty_bdb).2 in
  cd_balance <$> org_credits (run (run d)) !! 1%N = Some 70%Z ∧
  ur_used <$> org_billing_usage (run (run d)) !! (1%N, (2026, 5, 1)%Z) = Some 60%Z.
Proof. split; by vm_compute. Qed.
