(* ===== verification/Agent.v ===== *)
(** * The agent's loop

    [agent_core/core.rs] and [agent_core/turn.rs] with the hook chain ([hook/]) and
    the private log of cognition turns ([background/]): what one run of an agent
    does to the thread's feed, the organisation's meter and its tools. *)

From Stdlib Require Import ZArith Lia Ascii String.
From stdpp Require Import base gmap list strings sets.
From S2P Require Import Prelude Types Threads Colleagues Catalog Compaction Billing Worker Tools.

(** ** Hooks ([hook/traits.rs], [hook/dispatcher.rs]) *)

Record TurnContext := mkTurnContext { tx_claim_key : ClaimKey; tx_turn_index : TurnIndex }.

Inductive HookDecision := Continue | Deny (reason : str).
Inductive HookError := HookErrDenied (s : str) | HookBackend (s : str).

(** A plug-in; it may answer differently each time it is asked. *)
Record Hook := mkHook {
  before_turn : nat → TurnContext → res HookError HookDecision;
  after_turn : nat → TurnContext → ChatResponse → res HookError HookDecision;
  before_tool : nat → TurnContext → ToolCall → res HookError HookDecision;
  after_tool : nat → TurnContext → ToolCall → ToolResult → res HookError HookDecision }.

Definition is_continue (d : HookDecision) : bool :=
  match d with Continue => true | Deny _ => false end.

(** The loop all four methods of [HookChain] share. *)
Fixpoint chain_run (ask : Hook → res HookError HookDecision) (hooks : list Hook)
    : res HookError HookDecision :=
  match hooks with
  | [] => Ok Continue
  | hook :: hooks' =>
      decision <-? ask hook ;
      if negb (is_continue decision) then Ok decision else chain_run ask hooks'
  end.

Definition HookError_to_string (e : HookError) : str :=
  match e with
  | HookErrDenied s => lit "hook denied operation: " ++ s
  | HookBackend s => lit "hook backend error: " ++ s
  end.

(** [chain?.into_result()?] *)
Definition hook_result (r : res HookError HookDecision) : res AgentError unit :=
  match r with
  | Ok Continue => Ok tt
  | Ok (Deny reason) => Err (AEHookDenied reason)
  | Err e => Err (AEHook (HookError_to_string e))
  | Panic m => Panic m
  end.

(** ** The private log of a cognition turn ([background/pg_store.rs]) *)

Definition BackgroundTurnId : Type := N.
Record BackgroundTurn := mkBackgroundTurn {
  bt_id : BackgroundTurnId; bt_agent_id : AgentId; bt_org_id : OrgId }.
Record BackgroundMessage := mkBackgroundMessage {
  bm_turn_id : BackgroundTurnId; bm_seq : Z; bm_sender : option ColleagueId;
  bm_body : ChatMessage; bm_request_id : option PromptRequestId; bm_org_id : OrgId }.
Record bglog := mkBglog {
  background_turns : list BackgroundTurn; background_turn_messages : list BackgroundMessage }.

Inductive BackgroundError := BgNotFound (t : BackgroundTurnId) | BgDb (msg : string).

(** [sees] is the tenant's row-level security. *)
Definition background_create_turn (sees : OrgId → bool) (caller : Caller) (agent : AgentId)
    (id : BackgroundTurnId) (b : bglog) : res BackgroundError BackgroundTurnId * bglog :=
  if negb (sees (org_id caller)) then (Err (BgDb "background_turns_org_isolation"), b)
  else if existsb (λ t, bool_decide (bt_id t = id)) (background_turns b)
  then (Err (BgDb "background_turns_pkey"), b)
  else (Ok id, mkBglog (background_turns b ++ [mkBackgroundTurn id agent (org_id caller)])
                 (background_turn_messages b)).

Definition bg_max_seq (turn : BackgroundTurnId) (ms : list BackgroundMessage) : Z :=
  foldr (λ m acc, if bool_decide (bm_turn_id m = turn) then Z.max (bm_seq m) acc else acc) 0%Z ms.

Definition background_append (sees : OrgId → bool) (turn : BackgroundTurnId)
    (sender : option ColleagueId) (body : ChatMessage) (request_id : option PromptRequestId)
    (b : bglog) : res BackgroundError Z * bglog :=
  match List.find (λ t, bool_decide (bt_id t = turn) && sees (bt_org_id t)) (background_turns b) with
  | None => (Err (BgNotFound turn), b)
  | Some t =>
      let seq := (bg_max_seq turn (background_turn_messages b) + 1)%Z in
      if (I64_MAX <? seq)%Z then (Err (BgDb "bigint out of range"), b)
      else (Ok seq, mkBglog (background_turns b)
                      (background_turn_messages b
                       ++ [mkBackgroundMessage turn seq sender body request_id (bt_org_id t)]))
  end.

Definition background_context (sees : OrgId → bool) (turn : BackgroundTurnId) (b : bglog)
    : list ChatMessage :=
  bm_body <$> sort_by bm_seq
    (filter (λ m, bm_turn_id m = turn ∧ sees (bm_org_id m) = true) (background_turn_messages b)).

(** ** The agent and its world *)

Record Agent := mkAgent {
  ag_org_id : OrgId;
  ag_model : Model;
  ag_max_output_tokens : MaxOutputTokens;
  ag_max_turns : MaxTurns;
  ag_tools : ToolBox;
  ag_hooks : list Hook;
  ag_providers : ProviderId → bool;
  ag_approval_gate : bool;
  ag_tool_call_store : bool;
  ag_todos_store : bool;
  ag_turn_metrics : bool;
  ag_billing : bool }.

Inductive aevent :=
| EvBeforeTurn (i : TurnIndex)
| EvRoute (i : TurnIndex)
| EvGate (i : TurnIndex)
| EvContext (i : TurnIndex)
| EvSend (i : TurnIndex) (request : ChatRequest)
| EvMetrics (kind : MetricKind)
| EvSettle (key : option IdempotencyKey) (cost : CostMicros)
| EvAfterTurn (i : TurnIndex)
| EvAppend (kind : MessageKind) (body : ChatMessage)
| EvBgAppend (body : ChatMessage)
| EvBeforeTool (call : ToolCall)
| EvApproval (call : ToolCall)
| EvExec (call : ToolCall)
| EvReduce (call : ToolCall)
| EvAfterTool (call : ToolCall)
| EvResult (r : ToolResult)
| EvAudit (call : ToolCall).

Record tables := mkTables { t_store : store; t_log : bglog; t_bill : bdb }.
Record aworld := mkAworld { aw_tables : tables; aw_events : list aevent }.

Inductive Sent := SentCancelled | SentElapsed | SentFailed (e : str) | SentOk (r : ChatResponse).
Inductive Executed := ExCancelled | ExElapsed | ExFailed (e : str) | ExOk (output : str).
Inductive Todos := TodosElapsed | TodosFailed (e : str) | TodosBlock (rendered : str).

(** What a run does not control, by the number of calls made so far: what
    others - the tools the agent runs among them - do to the tables, faults of the
    stores (with or without effect), the answers of the provider, of the tools,
    of the approval gate and of the prompt stores, the cancellation token, who
    serves the model, the clocks and the fresh ids. *)
Record AgentEnv := mkAgentEnv {
  ae_others : nat → tables → tables;
  ae_fault : nat → option (str * bool);
  ae_now : nat → Z;
  ae_today : nat → NaiveDate;
  ae_fresh : nat → N;
  ae_fk : nat → bool;
  ae_sees : nat → OrgId → bool;
  ae_cancelled : nat → bool;
  ae_byo : nat → ProviderId → bool;
  ae_turn : nat → TurnEnv;
  ae_overrides : nat → ColleagueId → option str;
  ae_prompt : nat → res str str;
  ae_participants : nat → option str;
  ae_todos : nat → Todos;
  ae_send : nat → ChatRequest → Sent;
  ae_approval : nat → ToolCall → option str;
  ae_exec : nat → ToolCall → Executed;
  ae_reduce : nat → ReduceEnv }.

Definition AM (A : Type) : Type := aworld → res AgentError A * aworld.
Definition aret {A} (a : A) : AM A := λ w, (Ok a, w).
Definition aerr {A} (e : AgentError) : AM A := λ w, (Err e, w).
Definition alift {A} (r : res AgentError A) : AM A := λ w, (r, w).
Definition abind {A B} (m : AM A) (k : A → AM B) : AM B := λ w,
  match m w with
  | (Ok a, w') => k a w'
  | (Err e, w') => (Err e, w')
  | (Panic s, w') => (Panic s, w')
  end.
Notation "x <@- m ; k" := (abind m (λ x, k))
  (at level 100, m at next level, k at level 200, right associativity) : patom_scope.
Notation "m ;@- k" := (abind m (λ _, k))
  (at level 100, k at level 200, right associativity) : patom_scope.

(** What every call of a run shares; [tcx_state_id] is [None] for cognition. *)
Record ToolCallContext := mkToolCallContext {
  tcx_claim_key : ClaimKey;
  tcx_thread_id : option ThreadId;
  tcx_state_id : option AgentThreadId;
  tcx_viewer : Participant;
  tcx_root_request_id : PromptRequestId;
  tcx_request_id : PromptRequestId;
  tcx_kind_payload : RequestKindPayload;
  tcx_caller : Caller }.

Definition tool_is_egress (name : str) : bool :=
  bool_decide (name = lit "send_message") || bool_decide (name = lit "ask_approval").

Definition call_name (c : ToolCall) : str := ToolName_as_str (tc_name c).

(** [turn_index], whose [expect] the bound on [max_turns] discharges. *)
Definition turn_index (turn : Z) : res AgentError TurnIndex :=
  match TurnIndex_try_from turn with
  | Ok i => Ok i
  | _ => Panic "invariant: max_turns is bounded so loop index fits TurnIndex"
  end.

(** The key a turn's settle is deduplicated under. *)
Definition usage_key `{UuidPrinter} (request_id : PromptRequestId) (i : TurnIndex)
    : option IdempotencyKey :=
  match IdempotencyKey_try_from
          (lit "usage:" ++ uuid_to_string request_id ++ lit ":" ++ show_Z (TurnIndex_get i)) with
  | Ok k => Some k
  | _ => None
  end.

Definition BackgroundError_to_string `{UuidPrinter} (e : BackgroundError) : str :=
  match e with
  | BgNotFound t => lit "background turn BackgroundTurnId(" ++ uuid_to_string t ++ lit ") not found"
  | BgDb m => lit "background store db error: " ++ lit m
  end.

Section agent.
Context `{UuidPrinter, JsonPrinter, Sha256, Entitlements} (env : AgentEnv) (ag : Agent).

(** The next call: others run first, then the event is recorded. *)
Definition aemit (e : aevent) : AM nat := λ w,
  let n := length (aw_events w) in
  (Ok n, mkAworld (ae_others env n (aw_tables w)) (aw_events w ++ [e])).

Definition is_cancelled : AM bool := λ w, (Ok (ae_cancelled env (length (aw_events w))), w).

(** A call on the thread store, the private log or the meter, with its effect. *)
Definition acall {A} (e : aevent) (wrap : str → AgentError)
    (f : nat → tables → res AgentError A * tables) : AM A :=
  n <@- aemit e ;
  λ w, let '(r, t) := f n (aw_tables w) in
    match ae_fault env n with
    | None => (r, mkAworld t (aw_events w))
    | Some (msg, committed) =>
        (Err (wrap msg), mkAworld (if committed then t else aw_tables w) (aw_events w))
    end.

Definition on_store {E A} (wrap : E → AgentError) (f : store → res E A * store) (t : tables)
    : res AgentError A * tables :=
  let '(r, s) := f (t_store t) in (res_map_err wrap r, mkTables s (t_log t) (t_bill t)).

(** ** Tools *)

Definition fits_i32 (r : ChatResponse) : bool :=
  (input_tokens (usage r) <=? I32_MAX)%Z && (output_tokens (usage r) <=? I32_MAX)%Z.

Definition record_turn_metrics (state_id : option AgentThreadId) (kind : MetricKind)
    (response : ChatResponse) : AM unit :=
  match state_id with
  | Some _ => if ag_turn_metrics ag && fits_i32 response
              then aemit (EvMetrics kind) ;@- aret tt else aret tt
  | None => aret tt
  end.

Fixpoint meter_fold_samples (state_id : option AgentThreadId) (samples : list FoldSample) : AM unit :=
  match samples with
  | [] => aret tt
  | s :: samples' =>
      record_turn_metrics state_id MCompaction (fs_response s) ;@-
      meter_fold_samples state_id samples'
  end.

(** [Some reason] when the hard gate refuses the call. *)
Definition approval_blocked (tx : ToolCallContext) (call : ToolCall) : AM (option str) :=
  if ag_approval_gate ag then
    match participant_agent (tcx_viewer tx) with
    | Some _ => n <@- aemit (EvApproval call) ; aret (ae_approval env n call)
    | None => aret None
    end
  else aret None.

Definition reduce_call (tx : ToolCallContext) (call : ToolCall) (tool : Tool) (output : str)
    : AM ToolResult :=
  n <@- aemit (EvReduce call) ;
  λ w,
    let '(r, s, samples) :=
      reduce_and_offload (ae_reduce env n) (ag_max_output_tokens ag) (org_id (tcx_caller tx))
        call tool output (t_store (aw_tables w)) in
    let w' := mkAworld (mkTables s (t_log (aw_tables w)) (t_bill (aw_tables w))) (aw_events w) in
    match r with
    | Ok result => (meter_fold_samples (tcx_state_id tx) samples ;@- aret result) w'
    | Err e => match e with end
    | Panic m => (Panic m, w')
    end.

Definition run_one_tool (call : ToolCall) (tool : option Tool) (kind : RequestKind)
    (tx : ToolCallContext) : AM ToolResult :=
  let id := tc_id call in
  match tool with
  | None =>
      aret (error_result id (lit "unknown tool for kind=" ++ lit (RequestKind_as_str kind)
                             ++ lit ": " ++ call_name call))
  | Some tool =>
      blocked <@- approval_blocked tx call ;
      match blocked with
      | Some reason => aret (error_result id reason)
      | None =>
          n <@- aemit (EvExec call) ;
          match ae_exec env n call with
          | ExCancelled => aret (error_result id (lit "cancelled"))
          | ExElapsed => aret (error_result id (lit "tool `" ++ call_name call ++ lit "` timed out"))
          | ExFailed e => aret (error_result id e)
          | ExOk output =>
              if (TOOL_RESULT_REDUCE_THRESHOLD <? str_len output)
                 && (TOOL_RESULT_REDUCE_THRESHOLD <? chars_count output)
              then reduce_call tx call tool output
              else aret (mkToolResult id output false)
          end
      end
  end.

Definition run_call_with_hooks (tc : TurnContext) (call : ToolCall) (tool : option Tool)
    (kind : RequestKind) (tx : ToolCallContext) : AM ToolResult :=
  n <@- aemit (EvBeforeTool call) ;
  alift (hook_result (chain_run (λ h, before_tool h n tc call) (ag_hooks ag))) ;@-
  result <@- run_one_tool call tool kind tx ;
  n <@- aemit (EvAfterTool call) ;
  alift (hook_result (chain_run (λ h, after_tool h n tc call result) (ag_hooks ag))) ;@-
  aret result.

(** [join_all]: every call of the batch runs, an error is kept for the merge. *)
Fixpoint join_all {A B} (f : A → AM B) (l : list A) : AM (list (A * res AgentError B)) :=
  match l with
  | [] => aret []
  | a :: l' => λ w,
      match f a w with
      | (Panic m, w') => (Panic m, w')
      | (r, w') => (rest <@- join_all f l' ; aret ((a, r) :: rest)) w'
      end
  end.

Definition record_tool_call (tx : ToolCallContext) (call : ToolCall) : AM unit :=
  match participant_agent (tcx_viewer tx), tcx_state_id tx with
  | Some _, Some _ => if ag_tool_call_store ag then aemit (EvAudit call) ;@- aret tt else aret tt
  | _, _ => aret tt
  end.

(** The merge of a batch, in call order; the first error ends the run. *)
Fixpoint merge_batch (tx : ToolCallContext)
    (results : list ((ToolCall * CallClass) * res AgentError ToolResult)) : AM (list ToolResult) :=
  match results with
  | [] => aret []
  | ((call, _), r) :: results' =>
      result <@- alift r ;
      aemit (EvResult result) ;@-
      record_tool_call tx call ;@-
      rest <@- merge_batch tx results' ;
      aret (result :: rest)
  end.

Fixpoint run_batches (tc : TurnContext) (kind : RequestKind) (tx : ToolCallContext)
    (batches : list (list (ToolCall * CallClass))) : AM (list ToolResult) :=
  match batches with
  | [] => aret []
  | batch :: batches' =>
      cancelled <@- is_cancelled ;
      if (cancelled : bool) then aerr AECancelled
      else
        results <@- join_all (λ c, run_call_with_hooks tc c.1 (class_tool c.2) kind tx) batch ;
        out <@- merge_batch tx results ;
        rest <@- run_batches tc kind tx batches' ;
        aret (out ++ rest)
  end.

Definition classified (kind : RequestKind) (calls : list ToolCall) : list (ToolCall * CallClass) :=
  (λ c, (c, classify (get_for (ag_tools ag) kind (call_name c)))) <$> calls.

Definition batches_of (cs : list (ToolCall * CallClass)) : list (list (ToolCall * CallClass)) :=
  (λ b, take (b.2 - b.1) (drop b.1 cs)) <$> plan_batches ((is_safe ∘ snd) <$> cs).

Definition run_tools (tc : TurnContext) (calls : list ToolCall) (kind : RequestKind)
    (tx : ToolCallContext) : AM (list ToolResult) :=
  run_batches tc kind tx (batches_of (classified kind calls)).

(** ** One turn *)

Definition route : AM bool :=
  n <@- (λ w, (Ok (length (aw_events w)), w)) ;
  if ae_byo env n (provider (ag_model ag)) then aret true
  else if ag_providers ag (provider (ag_model ag)) then aret false
  else alift (Panic "invariant: a Model that reaches call_provider is served either by an org BYO key or the platform registry").

Definition billing_gate (i : TurnIndex) (org : OrgId) (is_byo : bool) : AM unit :=
  if is_byo then aret tt
  else if negb (ag_billing ag) then aret tt
  else
    n <@- aemit (EvGate i) ;
    λ w,
      match ae_fault env n with
      | Some _ => (Ok tt, w)
      | None =>
          match check_or_fail org (ae_today env n) (t_bill (aw_tables w)) with
          | Ok _ => (Ok tt, w)
          | Err (Exceeded _ _ _) => (Err (AEBillingExceeded org), w)
          | Err (OutOfCredit _ _) => (Err (AEOutOfCredit org), w)
          | Err (BillingDb _) => (Ok tt, w)
          | Panic m => (Panic m, w)
          end
      end.

(** Fail-open: an error of the meter is only logged. *)
Definition billing_settle (org : OrgId) (request_id : PromptRequestId) (i : TurnIndex)
    (response : ChatResponse) (is_byo : bool) : AM unit :=
  cost <@- alift (turn_cost (price_for (ag_model ag)) (usage response)) ;
  if (is_byo : bool) then aret tt
  else if negb (ag_billing ag) then aret tt
  else
    let key := usage_key request_id i in
    n <@- aemit (EvSettle key cost) ;
    λ w,
      let '(r, b) := settle (ae_fresh env n) org cost key (ae_today env n) (ae_now env n)
                       (t_bill (aw_tables w)) in
      let charged := mkAworld (mkTables (t_store (aw_tables w)) (t_log (aw_tables w)) b)
                       (aw_events w) in
      match ae_fault env n with
      | Some (_, committed) => (Ok tt, if (committed : bool) then charged else w)
      | None => match r with
                | Panic m => (Panic m, charged)
                | _ => (Ok tt, charged)
                end
      end.

Definition call_provider (i : TurnIndex) (request : ChatRequest) : AM ChatResponse :=
  n <@- aemit (EvSend i request) ;
  match ae_send env n request with
  | SentCancelled => aerr AECancelled
  | SentElapsed => aerr AEProviderTimeout
  | SentFailed e => aerr (AEProvider e)
  | SentOk r => aret r
  end.

(** The turn's settings around what the clocks and the metrics store answer. *)
Definition turn_env (n : nat) (org : OrgId) : TurnEnv :=
  let e := ae_turn env n in
  mkTurnEnv org (ag_model ag) (ag_max_output_tokens ag) (te_measured e) (te_now_utc e)
    (te_fold_start e) (te_failure_utc e) (te_persona e) (te_fold e).

Definition meter_effect (state_id : AgentThreadId) (e : effect) : AM unit :=
  match e with
  | Metered s => record_turn_metrics (Some state_id) MCompaction (fs_response s)
  | FailureAlert _ => aret tt
  end.
Fixpoint meter_effects (state_id : AgentThreadId) (es : list effect) : AM unit :=
  match es with [] => aret tt | e :: es' => meter_effect state_id e ;@- meter_effects state_id es' end.

(** [thread_participants] and its rendering fail to the empty block. *)
Definition compose_system (memory_system participants_block todos_block : str)
    (summary : option CompactionSummary) : str :=
  memory_system
  ++ (if is_empty participants_block then [] else nl ++ participants_block)
  ++ (if is_empty todos_block then [] else nl ++ todos_block)
  ++ match summary with
     | Some s => nl ++ nl ++ lit "## Earlier conversation (compacted)" ++ nl
                 ++ CompactionSummary_as_str s
     | None => []
     end.

Definition todos_section (n : nat) : res AgentError str :=
  if ag_todos_store ag then
    match ae_todos env n with
    | TodosElapsed => Err AETodosLoadTimeout
    | TodosFailed e => Err (AETodos e)
    | TodosBlock b => Ok b
    end
  else Ok [].

Definition build_thread_request (i : TurnIndex) (state_id : AgentThreadId) (thread : ThreadId)
    (viewer : Participant) (kind_payload : RequestKindPayload) (org : OrgId) : AM ChatRequest :=
  match participant_agent viewer, participant_colleague viewer with
  | None, _ => aerr (AEInternal (lit "build_thread_request requires an agent viewer"))
  | _, None => aerr (AEInternal (lit "build_thread_request agent viewer has no colleague"))
  | Some agent_id, Some viewer_colleague =>
      n <@- aemit (EvContext i) ;
      ctx <@- (λ w,
        let '(r, s, es) := resolve_agent_context (turn_env n org) thread agent_id viewer_colleague
                             (ae_overrides env n) (t_store (aw_tables w)) in
        let w' s := mkAworld (mkTables s (t_log (aw_tables w)) (t_bill (aw_tables w))) (aw_events w) in
        match ae_fault env n with
        | Some (e, committed) => (Err (AEThread e), if (committed : bool) then w' s else w)
        | None =>
            (meter_effects state_id es ;@-
             alift (res_map_err (λ e, AEThread (ThreadError_to_string e)) r)) (w' s)
        end) ;
      memory_system <@- alift (res_map_err AEMemory (ae_prompt env n)) ;
      let messages := ctx_messages ctx in
      if is_empty messages then alift (Panic "thread turn must read at least one feed message")
      else if MAX_CONTEXT_MESSAGES <? length messages
      then alift (Panic "context tail must respect the windowing floor")
      else
        todos_block <@- alift (todos_section n) ;
        aret (mkChatRequest (ag_model ag)
                (compose_system memory_system (default [] (ae_participants env n)) todos_block
                   (ctx_summary ctx))
                messages
                (specs_for (ag_tools ag) (RequestKindPayload_kind kind_payload))
                (ag_max_output_tokens ag))
  end.

Definition append_private (caller : Caller) (thread : ThreadId) (kind : MessageKind)
    (sender : option ColleagueId) (owner : AgentId) (body : ChatMessage)
    (request_id : PromptRequestId) : AM unit :=
  acall (EvAppend kind body) AEThread (λ n t,
    on_store (λ e, AEThread (ThreadError_to_string e))
      (append (ae_fk env n) caller thread
         (mkNewMessage kind sender (Some owner) None body (Some request_id) None)
         (ae_fresh env n) (ae_now env n)) t) ;@-
  aret tt.

Definition append_background (turn : BackgroundTurnId) (sender : option ColleagueId)
    (body : ChatMessage) (request_id : PromptRequestId) : AM unit :=
  acall (EvBgAppend body) AEBackground (λ n t,
    let '(r, b) := background_append (ae_sees env n) turn sender body (Some request_id) (t_log t) in
    (res_map_err (λ e, AEBackground (BackgroundError_to_string e)) r,
     mkTables (t_store t) b (t_bill t))) ;@-
  aret tt.

Definition egress_count (calls : list ToolCall) : nat :=
  length (List.filter (λ c, tool_is_egress (call_name c)) calls).

(** The end both kinds of turn share: the final text, or the tool calls. *)
Definition final_text_of (response : ChatResponse) : AM (option str) :=
  let text := ChatResponse_text response in
  if is_empty text then aerr AEEmptyReply else aret (Some text).

(** The final text if the turn ends the run, and the egress calls so far. *)
Definition run_thread_turn (tc : TurnContext) (claim_key : AgentThreadId) (thread : ThreadId)
    (viewer : Participant) (request_id root_request_id : PromptRequestId) (caller : Caller)
    (kind_payload : RequestKindPayload) (send_calls : nat) : AM (option str * nat) :=
  let i := tx_turn_index tc in
  n <@- aemit (EvBeforeTurn i) ;
  alift (hook_result (chain_run (λ h, before_turn h n tc) (ag_hooks ag))) ;@-
  is_byo <@- route ;
  billing_gate i (org_id caller) is_byo ;@-
  request <@- build_thread_request i claim_key thread viewer kind_payload (org_id caller) ;
  response <@- call_provider i request ;
  record_turn_metrics (Some claim_key) (MetricKind_from (RequestKindPayload_kind kind_payload))
    response ;@-
  billing_settle (org_id caller) request_id i response is_byo ;@-
  n <@- aemit (EvAfterTurn i) ;
  alift (hook_result (chain_run (λ h, after_turn h n tc response) (ag_hooks ag))) ;@-
  match participant_agent viewer with
  | None => aerr (AEInternal (lit "run_thread_turn requires an agent viewer"))
  | Some agent_id =>
      let calls := tool_calls response in
      let assistant_kind := if is_empty calls then KReasoning else KToolUse in
      append_private caller thread assistant_kind (participant_colleague viewer) agent_id
        (Assistant (response_content response)) request_id ;@-
      if is_empty calls then text <@- final_text_of response ; aret (text, send_calls)
      else if MAX_TOOL_CALLS_PER_TURN <? length calls
      then aerr (AETooManyToolCalls MAX_TOOL_CALLS_PER_TURN)
      else
        let tx := mkToolCallContext (tx_claim_key tc) (Some thread) (Some claim_key) viewer
                    root_request_id request_id kind_payload caller in
        results <@- run_tools tc calls (RequestKindPayload_kind kind_payload) tx ;
        append_private caller thread KToolResult None agent_id
          (User (UToolResult <$> results)) request_id ;@-
        aret (None, send_calls + egress_count calls)
  end.

(** The loop of [run_thread_loop]; [fuel] turns are left, the next is [turn]. *)
Fixpoint thread_loop (fuel : nat) (turn : Z) (claim_key : AgentThreadId) (thread : ThreadId)
    (viewer : Participant) (request_id root_request_id : PromptRequestId) (caller : Caller)
    (kind_payload : RequestKindPayload) (send_calls : nat) : AM AgentReply :=
  match fuel with
  | 0 => aerr (AEMaxTurnsExceeded (MaxTurns_get (ag_max_turns ag)))
  | S fuel' =>
      cancelled <@- is_cancelled ;
      if (cancelled : bool) then aerr AECancelled
      else
        i <@- alift (turn_index turn) ;
        outcome <@- run_thread_turn (mkTurnContext claim_key i) claim_key thread viewer request_id
                      root_request_id caller kind_payload send_calls ;
        match outcome with
        | (Some text, send_calls) => aret (mkAgentReply text send_calls)
        | (None, send_calls) =>
            thread_loop fuel' (turn + 1)%Z claim_key thread viewer request_id root_request_id
              caller kind_payload send_calls
        end
  end.

Definition reply_in_thread (claim_key : AgentThreadId) (thread : ThreadId) (viewer : Participant)
    (request_id root_request_id : PromptRequestId) (caller : Caller)
    (kind_payload : RequestKindPayload) : AM AgentReply :=
  thread_loop (Z.to_nat (MaxTurns_get (ag_max_turns ag))) 0 claim_key thread viewer request_id
    root_request_id caller kind_payload 0.

(** ** Cognition turns *)

Definition build_background_request (i : TurnIndex) (turn : BackgroundTurnId)
    (kind_payload : RequestKindPayload) : AM ChatRequest :=
  n <@- aemit (EvContext i) ;
  messages <@- (λ w,
    match ae_fault env n with
    | Some (e, _) => (Err (AEBackground e), w)
    | None => (Ok (background_context (ae_sees env n) turn (t_log (aw_tables w))), w)
    end) ;
  if is_empty messages then alift (Panic "background turn must have a seeded prompt to read")
  else
    system <@- alift (res_map_err AEMemory (ae_prompt env n)) ;
    aret (mkChatRequest (ag_model ag) system messages
            (specs_for (ag_tools ag) (RequestKindPayload_kind kind_payload))
            (ag_max_output_tokens ag)).

Definition run_background_turn (tc : TurnContext) (turn : BackgroundTurnId) (viewer : Participant)
    (request_id : PromptRequestId) (caller : Caller) (kind_payload : RequestKindPayload)
    (send_calls : nat) : AM (option str * nat) :=
  let i := tx_turn_index tc in
  n <@- aemit (EvBeforeTurn i) ;
  alift (hook_result (chain_run (λ h, before_turn h n tc) (ag_hooks ag))) ;@-
  is_byo <@- route ;
  billing_gate i (org_id caller) is_byo ;@-
  request <@- build_background_request i turn kind_payload ;
  response <@- call_provider i request ;
  record_turn_metrics None (MetricKind_from (RequestKindPayload_kind kind_payload)) response ;@-
  billing_settle (org_id caller) request_id i response is_byo ;@-
  n <@- aemit (EvAfterTurn i) ;
  alift (hook_result (chain_run (λ h, after_turn h n tc response) (ag_hooks ag))) ;@-
  match participant_agent viewer with
  | None => aerr (AEInternal (lit "run_background_turn requires an agent viewer"))
  | Some _ =>
      append_background turn (participant_colleague viewer)
        (Assistant (response_content response)) request_id ;@-
      let calls := tool_calls response in
      if is_empty calls then text <@- final_text_of response ; aret (text, send_calls)
      else if MAX_TOOL_CALLS_PER_TURN <? length calls
      then aerr (AETooManyToolCalls MAX_TOOL_CALLS_PER_TURN)
      else
        let tx := mkToolCallContext (tx_claim_key tc) None None viewer request_id request_id
                    kind_payload caller in
        results <@- run_tools tc calls (RequestKindPayload_kind kind_payload) tx ;
        append_background turn None (User (UToolResult <$> results)) request_id ;@-
        aret (None, send_calls + egress_count calls)
  end.

Fixpoint background_loop (fuel : nat) (turn_idx : Z) (turn : BackgroundTurnId)
    (viewer : Participant) (request_id : PromptRequestId) (caller : Caller)
    (kind_payload : RequestKindPayload) (send_calls : nat) : AM AgentReply :=
  match fuel with
  | 0 => aerr (AEMaxTurnsExceeded (MaxTurns_get (ag_max_turns ag)))
  | S fuel' =>
      cancelled <@- is_cancelled ;
      if (cancelled : bool) then aerr AECancelled
      else
        i <@- alift (turn_index turn_idx) ;
        outcome <@- run_background_turn (mkTurnContext turn i) turn viewer request_id caller
                      kind_payload send_calls ;
        match outcome with
        | (Some text, send_calls) => aret (mkAgentReply text send_calls)
        | (None, send_calls) =>
            background_loop fuel' (turn_idx + 1)%Z turn viewer request_id caller kind_payload
              send_calls
        end
  end.

Definition reply_background (turn : BackgroundTurnId) (viewer : Participant)
    (request_id : PromptRequestId) (caller : Caller) (kind_payload : RequestKindPayload)
    : AM AgentReply :=
  background_loop (Z.to_nat (MaxTurns_get (ag_max_turns ag))) 0 turn viewer request_id caller
    kind_payload 0.
End agent.
