(* ===== verification/AgentLaws.v ===== *)
(** * What a run of the agent promises

    Theorems about [Tools] and [Agent]: the dispatch plan, what is advertised and
    what is callable, the shape of a run, its transcript and its privacy, the
    approval gate, and what an oversized result leaves behind. *)

From Stdlib Require Import ZArith Lia Ascii String.
From stdpp Require Import base gmap list strings sets sorting pretty.
From S2P Require Import Prelude Types Threads ThreadLaws Colleagues Catalog Compaction Billing BillingLaws Worker Tools Agent.

(** ** The dispatch plan *)

Lemma nth_lookup_true (l : list bool) i : nth i l false = true ↔ l !! i = Some true.
Proof.
  rewrite nth_lookup. destruct (l !! i) as [[|]|]; naive_solver.
Qed.

Lemma run_end_spec fuel classes j :
  length classes ≤ fuel + j →
  let e := run_end fuel classes j in
  j ≤ e ∧ (j ≤ length classes → e ≤ length classes) ∧
  (∀ k, j ≤ k < e → classes !! k = Some true) ∧ classes !! e ≠ Some true.
Proof.
  revert j. induction fuel as [|fuel IH]; intros j Hf; cbn [run_end] in *; cbn zeta.
  - split_and!; [lia|lia|lia|]. rewrite lookup_ge_None_2 by lia. done.
  - destruct ((j <? length classes) && nth j classes false) eqn:E.
    + apply andb_true_iff in E as [Hj Hn]. apply Nat.ltb_lt in Hj. apply nth_lookup_true in Hn.
      destruct (IH (S j)) as (H1 & H2 & H3 & H4); [lia|]. split_and!; [lia|lia| |done].
      intros k Hk. destruct (decide (k = j)) as [->|]; [done|]. apply H3. lia.
    + split_and!; [lia|lia|lia|]. intros Ht.
      assert (j < length classes) by (by eapply lookup_lt_Some).
      apply nth_lookup_true in Ht. rewrite Ht, andb_true_r in E. by apply Nat.ltb_ge in E; lia.
Qed.

Lemma seq_split i j n : i ≤ j ≤ n → seq i (n - i) = seq i (j - i) ++ seq j (n - j).
Proof.
  intros Hj. replace (n - i) with ((j - i) + (n - j)) by lia. rewrite seq_app. by replace (i + (j - i)) with j by lia.
Qed.

(** What one range of the plan is. *)
Definition batch_ok (classes : list bool) (b : nat * nat) : Prop :=
  b.1 < b.2 ≤ length classes ∧
  (b.2 = S b.1 ∨ ∀ k, b.1 ≤ k < b.2 → classes !! k = Some true).

Lemma plan_loop_spec fuel classes i :
  length classes ≤ fuel + i → i ≤ length classes →
  let bs := plan_loop fuel classes i in
  mjoin (range <$> bs) = seq i (length classes - i) ∧ Forall (batch_ok classes) bs ∧
  (∀ k b b', bs !! k = Some b → bs !! S k = Some b' →
     classes !! b.1 = Some true → classes !! b'.1 ≠ Some true).
Proof.
  revert i. induction fuel as [|fuel IH]; intros i Hf Hi; cbn [plan_loop] in *; cbn zeta.
  { replace (length classes - i) with 0 by lia. split_and!; [done|done|]. intros k b b' Hk. done. }
  destruct (i <? length classes) eqn:E; bools.
  2:{ replace (length classes - i) with 0 by lia. split_and!; [done|done|]. intros k b b' Hk. done. }
  set (j := if nth i classes false then _ else _).
  assert (i < j ≤ length classes ∧ (j = S i ∨ ∀ k, i ≤ k < j → classes !! k = Some true)
          ∧ (classes !! i = Some true → classes !! j ≠ Some true)) as (Hj & Hb & Hstop).
  { unfold j. destruct (nth i classes false) eqn:En.
    - apply nth_lookup_true in En.
      destruct (run_end_spec (length classes) classes (S i)) as (H1 & H2 & H3 & H4); [lia|].
      split_and!; [lia|lia| |done]. right. intros k Hk.
      destruct (decide (k = i)) as [->|]; [done|]. apply H3. lia.
    - split_and!; [lia|lia|by left|]. intros Ht%nth_lookup_true. congruence. }
  clearbody j. destruct (IH j) as (H1 & H2 & H3); [lia|lia|]. split_and!.
  - rewrite fmap_cons, (seq_split i j) by lia. rewrite <-H1. done.
  - constructor; [|done]. split; cbn; lia || done.
  - intros [|k] b b' Hk Hk'; cbn in Hk, Hk'; [|by apply (H3 k b b')].
    injection Hk as <-. cbn. intros Ht%Hstop.
    destruct fuel as [|fuel]; [done|]. cbn [plan_loop] in Hk'.
    destruct (j <? length classes); [|done]. injection Hk' as <-. done.
Qed.

(** The dispatch plan visits every call exactly once and in order; each range is
    a single call or a run of concurrency-safe calls, and runs are maximal: two
    neighbouring ranges never both start with a safe call. *)
Theorem plan_batches_partition classes :
  let bs := plan_batches classes in
  mjoin (range <$> bs) = seq 0 (length classes) ∧ Forall (batch_ok classes) bs ∧
  (∀ k b b', bs !! k = Some b → bs !! S k = Some b' →
     classes !! b.1 = Some true → classes !! b'.1 ≠ Some true).
Proof.
  pose proof (plan_loop_spec (length classes) classes 0 ltac:(lia) ltac:(lia)) as H.
  by rewrite Nat.sub_0_r in H.
Qed.

Lemma mjoin_slices {A} (l : list A) (bs : list (nat * nat)) :
  Forall (λ b, b.1 ≤ b.2 ≤ length l) bs →
  mjoin ((λ b, take (b.2 - b.1) (drop b.1 l)) <$> bs) = omap (λ i, l !! i) (mjoin (range <$> bs)).
Proof.
  induction 1 as [|[i j] bs Hb _ IH]; [done|]. rewrite !fmap_cons.
  change (mjoin (?x :: ?y)) with (x ++ mjoin y). rewrite omap_app, <-IH. f_equal. cbn in *.
  unfold range. cbn. clear IH. remember (j - i) as n eqn:Hn. revert i Hb Hn.
  induction n as [|n IHn]; intros i Hb Hn; [done|]. cbn.
  destruct (lookup_lt_is_Some_2 l i ltac:(lia)) as [x Hx]. rewrite (drop_S _ x) by done. cbn.
  rewrite Hx. f_equal. apply IHn; lia.
Qed.

Lemma omap_seq_lookup {A} (l : list A) : omap (λ i, l !! i) (seq 0 (length l)) = l.
Proof.
  induction l as [|x l IH]; [done|]. cbn. f_equal. rewrite <-IH at 2. rewrite <-seq_shift.
  clear IH. induction (seq 0 (length l)) as [|i s IH]; [done|]. cbn. by rewrite IH.
Qed.

Lemma mjoin_batches cs : mjoin (batches_of cs) = cs.
Proof.
  unfold batches_of, plan_batches.
  destruct (plan_loop_spec (length ((is_safe ∘ snd) <$> cs)) ((is_safe ∘ snd) <$> cs) 0)
    as (H1 & H2 & _); [lia..|].
  rewrite Nat.sub_0_r, length_fmap in *. rewrite mjoin_slices, H1; [apply omap_seq_lookup|].
  eapply Forall_impl; [exact H2|]. intros b [Hb _]. rewrite length_fmap in Hb. lia.
Qed.

(** ** Reasoning about a run

    [traces m X]: whatever the world, [m] appends events, and [X] holds of its
    result and of them. *)

Definition traces {A} (m : AM A) (X : res AgentError A → list aevent → Prop) : Prop :=
  ∀ w, ∃ es, aw_events (m w).2 = aw_events w ++ es ∧ X (m w).1 es.

Lemma traces_ret {A} (a : A) (X : res AgentError A → list aevent → Prop) :
  X (Ok a) [] → traces (aret a) X.
Proof. intros HX w. exists []. by rewrite app_nil_r. Qed.

Lemma traces_lift {A} (r : res AgentError A) (X : res AgentError A → list aevent → Prop) :
  X r [] → traces (alift r) X.
Proof. intros HX w. exists []. by rewrite app_nil_r. Qed.

Lemma traces_err {A} e (X : res AgentError A → list aevent → Prop) :
  X (Err e) [] → traces (aerr e) X.
Proof. intros HX w. exists []. by rewrite app_nil_r. Qed.

Lemma traces_mono {A} (m : AM A) (X Y : res AgentError A → list aevent → Prop) :
  traces m X → (∀ r es, X r es → Y r es) → traces m Y.
Proof. intros Hm HXY w. destruct (Hm w) as (es & ? & ?). eauto. Qed.

Lemma traces_bind {A B} (m : AM A) (k : A → AM B) X (Y : res AgentError B → list aevent → Prop) :
  traces m X →
  (∀ a es, X (Ok a) es → traces (k a) (λ r es', Y r (es ++ es'))) →
  (∀ e es, X (Err e) es → Y (Err e) es) → (∀ s es, X (Panic s) es → Y (Panic s) es) →
  traces (abind m k) Y.
Proof.
  intros Hm Hk He Hp w. unfold abind. destruct (Hm w) as (es & Hes & HX).
  destruct (m w) as [[a|e|s] w']; cbn in *; [|by eauto..].
  destruct (Hk a es HX w') as (es' & Hes' & HY). exists (es ++ es').
  by rewrite Hes', Hes, app_assoc.
Qed.

(** Every event satisfies [P]. *)
Definition only (P : aevent → Prop) {A} (m : AM A) : Prop := traces m (λ _, Forall P).

Lemma only_bind P {A B} (m : AM A) (k : A → AM B) :
  only P m → (∀ a, only P (k a)) → only P (abind m k).
Proof.
  intros Hm Hk. eapply traces_bind; [exact Hm|..]; [|by eauto..].
  intros a es Hes. eapply traces_mono; [apply Hk|]. intros r es' Hes'. by apply Forall_app.
Qed.
Lemma only_ret P {A} (a : A) : only P (aret a).
Proof. by apply traces_ret. Qed.
Lemma only_lift P {A} (r : res AgentError A) : only P (alift r).
Proof. by apply traces_lift. Qed.
Lemma only_err P {A} e : only P (aerr (A := A) e).
Proof. by apply traces_err. Qed.

Create HintDb agent.
#[local] Hint Resolve only_ret only_lift only_err : agent.

(** The calls that shape a turn; the others belong to a tool or to the metrics. *)
Definition key_event (e : aevent) : bool :=
  match e with
  | EvBeforeTurn _ | EvGate _ | EvContext _ | EvSend _ _ | EvSettle _ _ | EvAfterTurn _
  | EvAppend _ _ | EvBgAppend _ => true
  | _ => false
  end.
Definition skel (es : list aevent) : list aevent := List.filter key_event es.

Lemma skel_app es es' : skel (es ++ es') = skel es ++ skel es'.
Proof. apply List.filter_app. Qed.

Section run.
Context `{UuidPrinter, JsonPrinter, Sha256, Entitlements} (env : AgentEnv) (ag : Agent).

(** Some time, the gate let [call] pass, or it was not asked. *)
Definition allowed (viewer : Participant) (call : ToolCall) : Prop :=
  ag_approval_gate ag = true → is_Some (participant_agent viewer) →
  ∃ n, ae_approval env n call = None.

Definition tool_ok (viewer : Participant) (e : aevent) : Prop :=
  key_event e = false ∧ ∀ call, e = EvExec call → allowed viewer call.

Lemma tool_ok_skel viewer es : Forall (tool_ok viewer) es → skel es = [].
Proof. induction 1 as [|e es [He _] _ IH]; [done|]. unfold skel. cbn. by rewrite He. Qed.

Lemma traces_emit e : traces (aemit env e) (λ r es, es = [e] ∧ ∃ n, r = Ok n).
Proof. intros w. exists [e]. cbn. split; [done|]. eauto. Qed.

Lemma only_emit (P : aevent → Prop) e : P e → only P (aemit env e).
Proof. intros He. eapply traces_mono; [apply traces_emit|]. intros r es [-> _]. by constructor. Qed.

Lemma traces_call {A} e wrap f :
  traces (acall (A := A) env e wrap f) (λ _ es, es = [e]).
Proof.
  intros w. exists [e]. unfold acall, abind, aemit. cbn.
  destruct (f _ _) as [r t]. by destruct (ae_fault env _) as [[msg c]|].
Qed.

Lemma tool_ok_quiet viewer e :
  match e with
  | EvRoute _ | EvMetrics _ | EvBeforeTool _ | EvApproval _ | EvReduce _ | EvAfterTool _
  | EvResult _ | EvAudit _ => True
  | _ => False
  end → tool_ok viewer e.
Proof. by destruct e. Qed.
#[local] Hint Resolve only_bind only_emit : agent.
#[local] Hint Extern 1 (tool_ok _ _) => (by apply tool_ok_quiet) : agent.

Lemma metrics_only viewer sid k r : only (tool_ok viewer) (record_turn_metrics env ag sid k r).
Proof. unfold record_turn_metrics. destruct sid; [destruct (_ && _)|]; auto 10 with agent. Qed.
#[local] Hint Resolve metrics_only : agent.

Lemma fold_metrics_only viewer sid ss : only (tool_ok viewer) (meter_fold_samples env ag sid ss).
Proof. induction ss; cbn; auto with agent. Qed.

Lemma effects_only viewer sid es : only (tool_ok viewer) (meter_effects env ag sid es).
Proof.
  induction es as [|e es IH]; cbn [meter_effects]; [apply only_ret|].
  apply only_bind; [|done]. destruct e; cbn [meter_effect]; auto with agent.
Qed.

Lemma approval_traces tx call :
  traces (approval_blocked env ag tx call) (λ r es,
    Forall (tool_ok (tcx_viewer tx)) es ∧ (r = Ok None → allowed (tcx_viewer tx) call)).
Proof.
  unfold approval_blocked, allowed. destruct (ag_approval_gate ag).
  2:{ by apply traces_ret. }
  destruct (participant_agent (tcx_viewer tx)) as [a|].
  2:{ apply traces_ret. split; [done|]. by intros _ _ [? ?]. }
  intros w. unfold abind, aemit, aret. cbn. eexists. split; [done|]. split.
  - constructor; [by apply tool_ok_quiet|done].
  - intros [= Hn]. eauto.
Qed.

Lemma reduce_and_offload_id (re : ReduceEnv) own org call tool output s r :
  (reduce_and_offload re own org call tool output s).1.1 = Ok r → tr_call_id r = tc_id call.
Proof.
  unfold reduce_and_offload. destruct (offload_artifact _ _ _ _ _) as [ok s'].
  destruct ok; cbn [negb]; [|by intros [= <-]].
  destruct (tl_result_policy tool (tc_input call)); [by intros [= <-]|].
  destruct (summarize_tool_result _ _ _ _) as [[[x|]|[]|] ss]; by intros [= <-].
Qed.

Lemma reduce_call_traces viewer tx call tool output :
  traces (reduce_call env ag tx call tool output) (λ r es,
    Forall (tool_ok viewer) es ∧ ∀ x, r = Ok x → tr_call_id x = tc_id call).
Proof.
  unfold reduce_call. eapply traces_bind; [apply traces_emit| |naive_solver..].
  intros n es [-> _] w. pose proof (reduce_and_offload_id (ae_reduce env n)
    (ag_max_output_tokens ag) (org_id (tcx_caller tx)) call tool output (t_store (aw_tables w))) as Hid.
  destruct (reduce_and_offload _ _ _ _ _ _ _) as [[r s] ss]. cbn in Hid.
  destruct r as [x|[]|m].
  - match goal with |- context [abind ?m ?k ?w'] => set (w1 := w') end.
    assert (traces (meter_fold_samples env ag (tcx_state_id tx) ss ;@- aret x)
      (λ r es, Forall (tool_ok viewer) es ∧ ∀ x, r = Ok x → tr_call_id x = tc_id call)) as Ht.
    { eapply traces_bind; [apply (fold_metrics_only viewer)|..]; [|naive_solver..].
      intros [] es Hes. apply traces_ret. rewrite app_nil_r. split; [done|]. intros y [= ->]. by apply Hid. }
    destruct (Ht w1) as (es & Hes & Hf & Hx). exists es. split; [exact Hes|].
    split; [|done]. constructor; [by apply tool_ok_quiet|done].
  - exists []. cbn. rewrite app_nil_r. split; [done|]. split; [|done].
    by constructor; [apply tool_ok_quiet|].
Qed.

Lemma run_one_tool_traces call tool kind tx :
  traces (run_one_tool env ag call tool kind tx) (λ r es,
    Forall (tool_ok (tcx_viewer tx)) es ∧ ∀ x, r = Ok x → tr_call_id x = tc_id call).
Proof.
  unfold run_one_tool. destruct tool as [tool|].
  2:{ apply traces_ret. split; [done|]. by intros x [= <-]. }
  eapply traces_bind; [apply approval_traces| |naive_solver..].
  intros blocked es [Hes Hal]. destruct blocked as [reason|].
  { apply traces_ret. rewrite app_nil_r. split; [done|]. by intros x [= <-]. }
  eapply traces_bind; [apply traces_emit| |naive_solver..].
  intros n es' [-> _].
  assert (Forall (tool_ok (tcx_viewer tx)) (es ++ [EvExec call])) as Hf.
  { apply Forall_app. split; [done|]. constructor; [|done]. split; [done|].
    intros c [= <-]. by apply Hal. }
  destruct (ae_exec env n call); [apply traces_ret; rewrite app_nil_r; split; [done|]; by intros x [= <-]..|].
  destruct (_ && _).
  - eapply traces_mono; [apply (reduce_call_traces (tcx_viewer tx))|].
    intros r es' [Hes' Hx]. rewrite app_assoc. split; [by apply Forall_app|done].
  - apply traces_ret. rewrite app_nil_r. split; [done|]. by intros x [= <-].
Qed.

Ltac tool_events :=
  repeat first [ assumption | apply Forall_nil_2 | by apply tool_ok_quiet
               | apply Forall_app_2 | apply Forall_cons_2 ].

Definition answers (p : (ToolCall * CallClass) * res AgentError ToolResult) : Prop :=
  ∀ x, p.2 = Ok x → tr_call_id x = tc_id p.1.1.

Lemma run_call_traces tc call tool kind tx :
  traces (run_call_with_hooks env ag tc call tool kind tx) (λ r es,
    Forall (tool_ok (tcx_viewer tx)) es ∧ ∀ x, r = Ok x → tr_call_id x = tc_id call).
Proof.
  unfold run_call_with_hooks.
  eapply traces_bind; [apply traces_emit| |naive_solver..]. intros n es [-> _].
  eapply traces_bind; [apply (only_lift (tool_ok (tcx_viewer tx)))| |(intros e es Hes; split; [tool_events|done])..].
  intros [] es Hes. eapply traces_bind; [apply run_one_tool_traces|..].
  2:{ intros e es' [Hes' _]. split; [tool_events|done]. }
  2:{ intros e es' [Hes' _]. split; [tool_events|done]. }
  intros x es' [Hes' Hid]. eapply traces_bind; [apply traces_emit| |naive_solver..].
  intros n' es'' [-> _].
  eapply traces_bind; [apply (only_lift (tool_ok (tcx_viewer tx)))|..].
  2:{ intros e es'' Hes''. split; [tool_events|done]. }
  2:{ intros e es'' Hes''. split; [tool_events|done]. }
  intros [] es'' Hes''. apply traces_ret. rewrite app_nil_r. split.
  - tool_events.
  - intros y [= <-]. by apply Hid.
Qed.

Lemma join_all_traces tc kind tx (l : list (ToolCall * CallClass)) :
  traces (join_all (λ c, run_call_with_hooks env ag tc c.1 (class_tool c.2) kind tx) l) (λ r es,
    Forall (tool_ok (tcx_viewer tx)) es ∧ ∀ rs, r = Ok rs → rs.*1 = l ∧ Forall answers rs).
Proof.
  induction l as [|c l IH]; cbn [join_all].
  { apply traces_ret. split; [done|]. by intros rs [= <-]. }
  intros w. destruct (run_call_traces tc c.1 (class_tool c.2) kind tx w) as (es & Hes & Hok & Hid).
  destruct (run_call_with_hooks _ _ _ _ _ _ _ w) as [r w'] eqn:E. cbn [fst snd] in *.
  assert (∀ r0 : res AgentError ToolResult, (∀ x, r0 = Ok x → tr_call_id x = tc_id c.1) →
    traces (rest <@- join_all (λ c, run_call_with_hooks env ag tc c.1 (class_tool c.2) kind tx) l ;
            aret ((c, r0) :: rest))
      (λ r es, Forall (tool_ok (tcx_viewer tx)) es ∧
               ∀ rs, r = Ok rs → rs.*1 = c :: l ∧ Forall answers rs)) as Hk.
  { intros r0 Hr0. eapply traces_bind; [exact IH| |naive_solver..].
    intros rs es' [Hes' Hrs]. apply traces_ret. rewrite app_nil_r. split; [done|].
    intros rs' [= <-]. destruct (Hrs rs eq_refl) as [Hl Ha]. split; [by rewrite fmap_cons, Hl|].
    by constructor. }
  destruct r as [x|e|m].
  - destruct (Hk (Ok x) Hid w') as (es' & Hes' & Hf & Hx). exists (es ++ es').
    rewrite Hes', Hes, app_assoc. split; [done|]. split; [tool_events|done].
  - destruct (Hk (Err e) ltac:(done) w') as (es' & Hes' & Hf & Hx). exists (es ++ es').
    rewrite Hes', Hes, app_assoc. split; [done|]. split; [tool_events|done].
  - exists es. by split.
Qed.

Lemma audit_only viewer tx call : only (tool_ok viewer) (record_tool_call env ag tx call).
Proof.
  unfold record_tool_call. destruct (participant_agent _), (tcx_state_id tx);
    [destruct (ag_tool_call_store ag)|..]; auto with agent.
Qed.

Lemma merge_batch_traces viewer tx rs :
  Forall answers rs →
  traces (merge_batch env ag tx rs) (λ r es,
    Forall (tool_ok viewer) es ∧
    ∀ out, r = Ok out → tr_call_id <$> out = (λ p, tc_id p.1) <$> rs.*1).
Proof.
  induction 1 as [|[[call cl] r] rs Hr Hrs IH]; cbn [merge_batch].
  { apply traces_ret. split; [done|]. by intros out [= <-]. }
  eapply traces_bind; [apply (traces_lift r (λ r' es, r' = r ∧ es = [])); done| |naive_solver..].
  intros x es [<- ->]. eapply traces_bind; [apply traces_emit| |naive_solver..].
  intros n es [-> _]. eapply traces_bind; [apply (audit_only viewer)|..].
  2:{ intros e es Hes. split; [tool_events|done]. }
  2:{ intros e es Hes. split; [tool_events|done]. }
  intros [] es Hes. eapply traces_bind; [exact IH|..].
  2:{ intros e es' [Hes' _]. split; [tool_events|done]. }
  2:{ intros e es' [Hes' _]. split; [tool_events|done]. }
  intros out es' [Hes' Hout]. apply traces_ret. rewrite app_nil_r. split.
  - tool_events.
  - intros out' [= <-]. rewrite !fmap_cons, (Hout out eq_refl). cbn. f_equal. by apply Hr.
Qed.

Lemma run_batches_traces tc kind tx bs :
  traces (run_batches env ag tc kind tx bs) (λ r es,
    Forall (tool_ok (tcx_viewer tx)) es ∧
    ∀ out, r = Ok out → tr_call_id <$> out = (λ p, tc_id p.1) <$> mjoin bs).
Proof.
  induction bs as [|b bs IH]; cbn [run_batches].
  { apply traces_ret. split; [done|]. by intros out [= <-]. }
  eapply traces_bind with (X := λ r es, es = []); [intros w; exists []; by rewrite app_nil_r| |naive_solver..].
  intros cancelled es ->. destruct cancelled; [by apply traces_err|].
  eapply traces_bind; [apply join_all_traces| |naive_solver..].
  intros rs es [Hes Hrs]. destruct (Hrs rs eq_refl) as [Hl Ha].
  eapply traces_bind; [by apply (merge_batch_traces (tcx_viewer tx))|..].
  2:{ intros e es' [Hes' _]. split; [tool_events|done]. }
  2:{ intros e es' [Hes' _]. split; [tool_events|done]. }
  intros out es' [Hes' Hout]. eapply traces_bind; [exact IH|..].
  2:{ intros e es'' [Hes'' _]. split; [tool_events|done]. }
  2:{ intros e es'' [Hes'' _]. split; [tool_events|done]. }
  intros rest es'' [Hes'' Hrest]. apply traces_ret. rewrite app_nil_r. split; [tool_events|].
  intros o [= <-]. change (mjoin (b :: bs)) with (b ++ mjoin bs).
  by rewrite !fmap_app, (Hout out eq_refl), (Hrest rest eq_refl), Hl.
Qed.

Lemma run_tools_traces tc calls kind tx :
  traces (run_tools env ag tc calls kind tx) (λ r es,
    Forall (tool_ok (tcx_viewer tx)) es ∧
    ∀ out, r = Ok out → tr_call_id <$> out = tc_id <$> calls).
Proof.
  eapply traces_mono; [apply run_batches_traces|]. intros r es [Hes Hout]. split; [done|].
  intros out Ho. rewrite (Hout out Ho), mjoin_batches. unfold classified.
  rewrite <-list_fmap_compose. done.
Qed.

(** ** The shape of a turn *)

(** A turn up to its hooks; [metered] says whether the platform pays for it. *)
Definition turn_pre (request_id : PromptRequestId) (i : TurnIndex) (metered : bool)
    (rq : ChatRequest) (cost : CostMicros) : list aevent :=
  EvBeforeTurn i :: (if metered then [EvGate i] else []) ++ EvContext i :: EvSend i rq
  :: (if metered then [EvSettle (usage_key request_id i) cost] else []) ++ [EvAfterTurn i].

(** Unmetered only for an organisation's own key, or with no billing wired. *)
Definition metered_ok (metered : bool) : Prop :=
  metered = false → ag_billing ag = false ∨ ∃ n, ae_byo env n (provider (ag_model ag)) = true.

Definition answered (resp : ChatResponse) (rs : list ToolResult) : list aevent :=
  [EvAppend KToolUse (Assistant (response_content resp));
   EvAppend KToolResult (User (UToolResult <$> rs))].

(** A turn that goes on: between one and sixteen calls, each with its answer. *)
Definition turn_more (request_id : PromptRequestId) (i : TurnIndex) (calls : list ToolCall)
    (es : list aevent) : Prop :=
  ∃ metered rq cost resp rs, metered_ok metered ∧ calls = tool_calls resp ∧
    0 < length calls ≤ MAX_TOOL_CALLS_PER_TURN ∧ tr_call_id <$> rs = tc_id <$> calls ∧
    (metered = true → @turn_cost AgentError (price_for (ag_model ag)) (usage resp) = Ok cost) ∧
    es = turn_pre request_id i metered rq cost ++ answered resp rs.

(** A turn that ends the run with a text. *)
Definition turn_final (request_id : PromptRequestId) (i : TurnIndex) (text : str)
    (es : list aevent) : Prop :=
  ∃ metered rq cost resp, metered_ok metered ∧ tool_calls resp = [] ∧
    text = ChatResponse_text resp ∧ text ≠ [] ∧
    (metered = true → @turn_cost AgentError (price_for (ag_model ag)) (usage resp) = Ok cost) ∧
    es = turn_pre request_id i metered rq cost
         ++ [EvAppend KReasoning (Assistant (response_content resp))].

Definition content_calls (content : list AssistantContent) : list ToolCall :=
  omap (λ c, match c with AToolCall call => Some call | _ => None end) content.

(** A turn that fails stops somewhere along the way: before it writes anything,
    after its assistant row, or at the row of its results. *)
Definition turn_failed (request_id : PromptRequestId) (i : TurnIndex) (es : list aevent) : Prop :=
  ∃ metered rq cost, metered_ok metered ∧
    (es `prefix_of` turn_pre request_id i metered rq cost ∨
     (∃ content, es = turn_pre request_id i metered rq cost
        ++ [EvAppend (if is_empty (content_calls content) then KReasoning else KToolUse)
              (Assistant content)]) ∨
     ∃ content rs, content_calls content ≠ [] ∧ tr_call_id <$> rs = tc_id <$> content_calls content ∧
       es = turn_pre request_id i metered rq cost
         ++ [EvAppend KToolUse (Assistant content); EvAppend KToolResult (User (UToolResult <$> rs))]).

Definition turn_spec (request_id : PromptRequestId) (i : TurnIndex) (sends : nat)
    (r : res AgentError (option str * nat)) (es : list aevent) : Prop :=
  match r with
  | Ok (None, sends') => ∃ calls, turn_more request_id i calls es ∧ sends' = sends + egress_count calls
  | Ok (Some text, sends') => turn_final request_id i text es ∧ sends' = sends
  | _ => turn_failed request_id i es
  end.

Lemma route_traces :
  traces (route env ag) (λ r es, es = [] ∧
    ∀ b, r = Ok b → b = true → ∃ n, ae_byo env n (provider (ag_model ag)) = true).
Proof.
  intros w. exists []. unfold route, abind. rewrite app_nil_r.
  destruct (ae_byo env _ _) eqn:E; [|destruct (ag_providers ag _)]; cbn; naive_solver.
Qed.

Definition is_metered (is_byo : bool) : bool := negb is_byo && ag_billing ag.

Lemma gate_traces i org is_byo :
  traces (billing_gate env ag i org is_byo) (λ _ es,
    es = if is_metered is_byo then [EvGate i] else []).
Proof.
  unfold billing_gate, is_metered. destruct is_byo; [by apply traces_ret|].
  destruct (ag_billing ag); [|by apply traces_ret]. cbn [negb andb].
  intros w. exists [EvGate i]. unfold abind, aemit. by repeat case_match.
Qed.

Lemma settle_traces org request_id i resp is_byo :
  traces (billing_settle env ag org request_id i resp is_byo) (λ r es,
    if is_metered is_byo then
      (es = [] ∧ ∀ a, r ≠ Ok a) ∨
      ∃ cost, @turn_cost AgentError (price_for (ag_model ag)) (usage resp) = Ok cost ∧
              es = [EvSettle (usage_key request_id i) cost]
    else es = []).
Proof.
  unfold billing_settle, is_metered. intros w. unfold abind, alift.
  destruct (turn_cost _ _) as [cost|e|m].
  - destruct is_byo; [exists []; by rewrite app_nil_r|].
    destruct (ag_billing ag); [|exists []; by rewrite app_nil_r]. cbn [negb andb].
    exists [EvSettle (usage_key request_id i) cost]. unfold aemit.
    split; [by repeat case_match|]. right. eauto.
  - exists []. rewrite app_nil_r. split; [done|]. destruct (negb is_byo && ag_billing ag); [|done].
    by left.
  - exists []. rewrite app_nil_r. split; [done|]. destruct (negb is_byo && ag_billing ag); [|done].
    by left.
Qed.

(** [traces] on the key events only. *)
Definition skels {A} (m : AM A) (X : res AgentError A → list aevent → Prop) : Prop :=
  traces m (λ r es, X r (skel es)).

Lemma skels_bind {A B} (m : AM A) (k : A → AM B) X (Y : res AgentError B → list aevent → Prop) :
  skels m X →
  (∀ a es, X (Ok a) es → skels (k a) (λ r es', Y r (es ++ es'))) →
  (∀ e es, X (Err e) es → Y (Err e) es) → (∀ s es, X (Panic s) es → Y (Panic s) es) →
  skels (abind m k) Y.
Proof.
  intros Hm Hk He Hp. eapply traces_bind; [exact Hm|..]; [|by eauto..].
  intros a es Hes. eapply traces_mono; [exact (Hk a _ Hes)|]. intros r es'. cbn. by rewrite skel_app.
Qed.

(** The rule for a step with known key events, whatever it returns. *)
Lemma skels_step {A B} (m : AM A) (k : A → AM B) l (Y : res AgentError B → list aevent → Prop) :
  skels m (λ _ es, es = l) → (∀ a, skels (k a) (λ r es', Y r (l ++ es'))) →
  (∀ r, (∀ a, r ≠ Ok a) → Y r l) → skels (abind m k) Y.
Proof.
  intros Hm Hk HY. eapply skels_bind; [exact Hm|..].
  - by intros a es ->.
  - intros e es ->. by apply HY.
  - intros s es ->. by apply HY.
Qed.

Lemma skels_ret {A} (a : A) (Y : res AgentError A → list aevent → Prop) : Y (Ok a) [] → skels (aret a) Y.
Proof. apply (traces_ret a (λ r es, Y r (skel es))). Qed.
Lemma skels_err {A} e (Y : res AgentError A → list aevent → Prop) : Y (Err e) [] → skels (aerr e) Y.
Proof. apply (traces_err e (λ r es, Y r (skel es))). Qed.
Lemma skels_lift {A} (r : res AgentError A) : skels (alift r) (λ _ es, es = []).
Proof. apply (traces_lift r (λ _ es, skel es = [])). done. Qed.
Lemma skels_only {A} viewer (m : AM A) : only (tool_ok viewer) m → skels m (λ _ es, es = []).
Proof. intros Hm. eapply traces_mono; [exact Hm|]. intros r es. cbn. apply tool_ok_skel. Qed.
Lemma skels_emit e : key_event e = true → skels (aemit env e) (λ _ es, es = [e]).
Proof.
  intros He. eapply traces_mono; [apply traces_emit|]. intros r es [-> _]. unfold skel. cbn. by rewrite He.
Qed.
Lemma skels_call {A} e wrap f : key_event e = true → skels (acall (A := A) env e wrap f) (λ _ es, es = [e]).
Proof.
  intros He. eapply traces_mono; [apply traces_call|]. intros r es ->. unfold skel. cbn. by rewrite He.
Qed.

Lemma context_skels i sid thread viewer kp org :
  skels (build_thread_request env ag i sid thread viewer kp org) (λ r es,
    es = [EvContext i] ∨ es = [] ∧ ∀ a, r ≠ Ok a).
Proof.
  unfold build_thread_request.
  destruct (participant_agent viewer) as [agent|]; [|apply skels_err; by right].
  destruct (participant_colleague viewer) as [col|]; [|apply skels_err; by right].
  eapply skels_step; [by apply skels_emit| |by left]. intros n.
  match goal with |- skels ?m _ => assert (skels m (λ _ es, es = [])) as Hs end;
    [|eapply traces_mono; [exact Hs|]; intros r es ->; by left].
  apply (skels_step _ _ []).
  - intros w. destruct (resolve_agent_context _ _ _ _ _ _) as [[r s] es].
    destruct (ae_fault env n) as [[e c]|].
    + exists []. rewrite app_nil_r. by destruct c.
    + match goal with |- context [abind ?m ?k ?w'] =>
        assert (skels (abind m k) (λ _ es, es = [])) as Ht; [|exact (Ht w')] end.
      apply (skels_step _ _ []); [apply (skels_only viewer), effects_only| |done].
      intros _. apply skels_lift.
  - intros ctx. apply (skels_step _ _ []); [apply skels_lift| |done]. intros ms.
    cbn zeta. destruct (is_empty _); [apply skels_lift|]. destruct (_ <? _); [apply skels_lift|].
    apply (skels_step _ _ []); [apply skels_lift| |done]. intros tb. by apply skels_ret.
  - done.
Qed.

Lemma provider_skels i rq : skels (call_provider env i rq) (λ _ es, es = [EvSend i rq]).
Proof.
  eapply skels_step; [by apply skels_emit| |done]. intros n.
  destruct (ae_send env n rq); [by apply skels_err..|by apply skels_ret].
Qed.

Lemma append_skels caller thread kind sender owner body rid :
  skels (append_private env caller thread kind sender owner body rid) (λ _ es, es = [EvAppend kind body]).
Proof.
  eapply skels_step; [by apply skels_call| |done]. intros a. by apply skels_ret.
Qed.

Definition zero_request : ChatRequest :=
  mkChatRequest (ag_model ag) [] [] [] (ag_max_output_tokens ag).

Lemma fail_early i req sends r m rq cost es suffix :
  metered_ok m → (∀ a, r ≠ Ok a) → es ++ suffix = turn_pre req i m rq cost →
  turn_spec req i sends r es.
Proof.
  intros Hm Hr He. unfold turn_spec. destruct r as [a| |]; [by destruct (Hr a)|..];
    exists m, rq, cost; (split; [done|]); left; exists suffix; by symmetry.
Qed.

Lemma fail_late i req sends r m rq cost resp es :
  metered_ok m → (∀ a, r ≠ Ok a) →
  es = turn_pre req i m rq cost
       ++ [EvAppend (if is_empty (tool_calls resp) then KReasoning else KToolUse)
             (Assistant (response_content resp))] →
  turn_spec req i sends r es.
Proof.
  intros Hm Hr He. unfold turn_spec. destruct r as [a| |]; [by destruct (Hr a)|..];
    exists m, rq, cost; (split; [done|]); right; left; exists (response_content resp); done.
Qed.

Lemma fail_last i req sends r m rq cost resp rs es :
  metered_ok m → (∀ a, r ≠ Ok a) → tool_calls resp ≠ [] → tr_call_id <$> rs = tc_id <$> tool_calls resp →
  es = turn_pre req i m rq cost ++ answered resp rs →
  turn_spec req i sends r es.
Proof.
  intros Hm Hr Hne Hids He. unfold turn_spec. destruct r as [a| |]; [by destruct (Hr a)|..];
    exists m, rq, cost; (split; [done|]); right; right; exists (response_content resp), rs; done.
Qed.

(** The calls of a turn once its assistant message is appended. *)
Lemma tool_phase_skels tc sid thread agent rid caller calls tx k :
  skels (results <@- run_tools env ag tc calls k tx ;
         append_private env caller thread KToolResult None agent (User (UToolResult <$> results)) rid ;@-
         aret (@None str, sid + egress_count calls)) (λ r es,
    match r with
    | Ok (o, n) => o = None ∧ n = sid + egress_count calls ∧
        ∃ rs, tr_call_id <$> rs = tc_id <$> calls ∧ es = [EvAppend KToolResult (User (UToolResult <$> rs))]
    | _ => es = [] ∨ ∃ rs, tr_call_id <$> rs = tc_id <$> calls ∧
             es = [EvAppend KToolResult (User (UToolResult <$> rs))]
    end).
Proof.
  eapply traces_bind; [apply run_tools_traces| |..].
  2:{ intros e es [Hes _]. left. by eapply tool_ok_skel. }
  2:{ intros e es [Hes _]. left. by eapply tool_ok_skel. }
  intros rs es [Hes Hids].
  assert (skels (append_private env caller thread KToolResult None agent
            (User (UToolResult <$> rs)) rid ;@- aret (@None str, sid + egress_count calls)) (λ r es,
    match r with
    | Ok (o, n) => o = None ∧ n = sid + egress_count calls ∧
        es = [EvAppend KToolResult (User (UToolResult <$> rs))]
    | _ => es = [EvAppend KToolResult (User (UToolResult <$> rs))]
    end)) as Hs.
  { eapply skels_step; [apply append_skels| |].
    - intros a. by apply skels_ret.
    - intros [a|e|s] Ha; [by destruct (Ha a)|done..]. }
  eapply traces_mono; [exact Hs|]. intros r es' Hr. cbn.
  rewrite skel_app, (tool_ok_skel (tcx_viewer tx) es Hes). cbn [app].
  destruct r as [[o n]|e|s]; [|right; exists rs; (split; [by apply Hids|done])..].
  destruct Hr as (-> & -> & ->). split; [done|]. split; [done|]. exists rs. split; [by apply Hids|done].
Qed.

Ltac stop_here Hm Hr :=
  eapply (fail_early _ _ _ _ _ _ _ _ _ Hm Hr); unfold turn_pre; cbn [app]; reflexivity.

Lemma is_metered_ok b :
  (b = true → ∃ n, ae_byo env n (provider (ag_model ag)) = true) → metered_ok (is_metered b).
Proof.
  intros Hb. unfold metered_ok, is_metered. destruct b; cbn; [by right; apply Hb|].
  destruct (ag_billing ag); [done|by left].
Qed.

Lemma run_thread_turn_skels tc claim thread viewer req root caller kp sends :
  skels (run_thread_turn env ag tc claim thread viewer req root caller kp sends)
    (turn_spec req (tx_turn_index tc) sends).
Proof.
  unfold run_thread_turn. set (i := tx_turn_index tc).
  assert (metered_ok true) as Hm0 by done.
  eapply skels_step; [by apply skels_emit| |intros r Hr; stop_here Hm0 Hr]. intros n.
  eapply skels_step; [apply skels_lift| |intros r Hr; stop_here Hm0 Hr]. intros [].
  eapply skels_bind with (X := λ r es, es = [] ∧ ∀ b, r = Ok b → b = true →
    ∃ n, ae_byo env n (provider (ag_model ag)) = true).
  { eapply traces_mono; [apply route_traces|]. by intros r es [-> Hb]. }
  2:{ intros e es [-> _]. assert (∀ a : option str * nat, Err (E := AgentError) e ≠ Ok a) as Hr by done. stop_here Hm0 Hr. }
  2:{ intros e es [-> _]. assert (∀ a : option str * nat, Panic (E := AgentError) e ≠ Ok a) as Hr by done. stop_here Hm0 Hr. }
  intros byo es [-> Hbyo]. assert (metered_ok (is_metered byo)) as Hm.
  { apply is_metered_ok. intros ->. by apply (Hbyo true). }
  eapply skels_step.
  { eapply traces_mono; [apply gate_traces|]. intros r es ->.
    instantiate (1 := if is_metered byo then [EvGate i] else []). by destruct (is_metered byo). }
  2:{ intros r Hr. destruct (is_metered byo); stop_here Hm Hr. }
  intros []. pose proof (λ a : option str * nat, λ e, @id (Err (E := AgentError) e ≠ Ok a) ltac:(done)) as He.
  pose proof (λ a : option str * nat, λ s, @id (Panic (E := AgentError) s ≠ Ok a) ltac:(done)) as Hp.
  eapply skels_bind; [apply context_skels|..].
  2:{ intros e es Hes. pose proof (λ a, He a e) as Hr.
      destruct (is_metered byo), Hes as [->|[-> _]]; stop_here Hm Hr. }
  2:{ intros e es Hes. pose proof (λ a, Hp a e) as Hr.
      destruct (is_metered byo), Hes as [->|[-> _]]; stop_here Hm Hr. }
  intros rq es [->|[-> Hno]]; [|by destruct (Hno rq)].
  eapply skels_step; [apply provider_skels| |intros r Hr; destruct (is_metered byo); stop_here Hm Hr].
  intros resp.
  eapply skels_step; [apply (skels_only viewer), metrics_only| |intros r Hr; destruct (is_metered byo); stop_here Hm Hr].
  intros [].
  eapply skels_bind with (X := λ r es, if is_metered byo then
      (es = [] ∧ ∀ a, r ≠ Ok a) ∨
      ∃ cost, @turn_cost AgentError (price_for (ag_model ag)) (usage resp) = Ok cost ∧
              es = [EvSettle (usage_key req i) cost] else es = []).
  { eapply traces_mono; [apply settle_traces|]. intros r es. cbn beta.
    destruct (is_metered byo); [|by intros ->]. intros [[-> ?]|(cost & ? & ->)]; [by left|right; eauto]. }
  2:{ intros e es Hes. pose proof (λ a, He a e) as Hr.
      destruct (is_metered byo); [destruct Hes as [[-> _]|(cost & _ & ->)]|subst es]; stop_here Hm Hr. }
  2:{ intros e es Hes. pose proof (λ a, Hp a e) as Hr.
      destruct (is_metered byo); [destruct Hes as [[-> _]|(cost & _ & ->)]|subst es]; stop_here Hm Hr. }
  intros [] es Hes.
  assert (∃ cost, (is_metered byo = true → @turn_cost AgentError (price_for (ag_model ag)) (usage resp) = Ok cost)
    ∧ es = if is_metered byo then [EvSettle (usage_key req i) cost] else []) as (cost & Hcost & ->).
  { destruct (is_metered byo); [|subst es; by exists CostMicros_ZERO].
    destruct Hes as [[_ Hno]|(cost & ? & ->)]; [by destruct (Hno tt)|]. by exists cost. }
  clear Hes Hbyo. set (m := is_metered byo) in *. clearbody m.
  eapply skels_step; [by apply skels_emit| |intros r Hr; destruct m; stop_here Hm Hr]. intros n'.
  eapply skels_step; [apply skels_lift| |intros r Hr; destruct m; stop_here Hm Hr]. intros [].
  destruct (participant_agent viewer) as [agent|].
  2:{ apply skels_err. pose proof (λ a, He a (AEInternal (lit "run_thread_turn requires an agent viewer"))) as Hr.
      destruct m; stop_here Hm Hr. }
  cbn zeta. set (calls := tool_calls resp).
  assert (∀ r : res AgentError (option str * nat), (∀ a, r ≠ Ok a) →
    turn_spec req i sends r (turn_pre req i m rq cost
      ++ [EvAppend (if is_empty calls then KReasoning else KToolUse) (Assistant (response_content resp))]))
    as Hlate by by (intros r Hr; eapply fail_late).
  unfold turn_pre in Hlate.
  eapply skels_step; [apply append_skels| |intros r Hr; destruct m; by apply Hlate]. intros [].
  destruct (is_empty calls) eqn:Ecalls.
  - unfold final_text_of. destruct (ChatResponse_text resp) as [|c text] eqn:Et; cbn [is_empty].
    + match goal with |- skels _ ?Y => change (skels (aerr (A := option str * nat) AEEmptyReply) Y) end.
      apply skels_err. destruct m; apply Hlate; done.
    + match goal with |- skels _ ?Y => change (skels (aret (Some (c :: text), sends)) Y) end.
      apply skels_ret. split; [|done]. exists m, rq, cost, resp. rewrite Et. split_and!; try done.
      * by destruct (tool_calls resp) eqn:?; unfold calls in Ecalls; simplify_eq/=.
      * unfold turn_pre. by destruct m.
  - assert (calls ≠ []) as Hne by by destruct calls.
    destruct (MAX_TOOL_CALLS_PER_TURN <? length calls) eqn:Elen.
    + apply skels_err. destruct m; apply Hlate; done.
    + eapply traces_mono; [apply tool_phase_skels|]. intros r es. cbn beta. destruct r as [[o n0]|e|s].
      * intros (-> & -> & rs & Hids & ->). exists calls. split; [|done].
        exists m, rq, cost, resp, rs. apply Nat.ltb_ge in Elen.
        split_and!; try done; [destruct calls; [done|cbn; lia]|]. unfold turn_pre, answered. by destruct m.
      * pose proof (λ a, He a e) as Hr. intros [->|(rs & Hids & ->)]; [destruct m; by apply Hlate|].
        eapply fail_last; [exact Hm|done|exact Hne|exact Hids|]. unfold turn_pre, answered. by destruct m.
      * pose proof (λ a, Hp a s) as Hr. intros [->|(rs & Hids & ->)]; [destruct m; by apply Hlate|].
        eapply fail_last; [exact Hm|done|exact Hne|exact Hids|]. unfold turn_pre, answered. by destruct m.
Unshelve.
  all: first [exact zero_request | exact CostMicros_ZERO].
Qed.

(** ** The shape of a run *)

(** What a run with [n] turns left, from turn [t] and [sends] egress calls, may
    do and return. *)
Inductive run_spec (request_id : PromptRequestId)
    : Z → nat → nat → res AgentError AgentReply → list aevent → Prop :=
| run_out t sends :
    run_spec request_id t 0 sends (Err (AEMaxTurnsExceeded (MaxTurns_get (ag_max_turns ag)))) []
| run_cancelled t n sends : run_spec request_id t (S n) sends (Err AECancelled) []
| run_more t n sends calls r es es' :
    turn_more request_id (mkTurnIndex t) calls es →
    run_spec request_id (t + 1) n (sends + egress_count calls) r es' →
    run_spec request_id t (S n) sends r (es ++ es')
| run_final t n sends text es :
    turn_final request_id (mkTurnIndex t) text es →
    run_spec request_id t (S n) sends (Ok (mkAgentReply text sends)) es
| run_failed t n sends r es :
    (∀ a, r ≠ Ok a) → turn_failed request_id (mkTurnIndex t) es →
    run_spec request_id t (S n) sends r es.

Lemma thread_loop_skels fuel t claim thread viewer req root caller kp sends :
  (0 ≤ t)%Z → (t + Z.of_nat fuel ≤ MAX_TURNS_CAP)%Z →
  skels (thread_loop env ag fuel t claim thread viewer req root caller kp sends)
    (run_spec req t fuel sends).
Proof.
  revert t sends. induction fuel as [|fuel IH]; intros t sends Ht Hcap; cbn [thread_loop].
  { apply skels_err, run_out. }
  eapply skels_bind with (X := λ r es, es = [] ∧ ∃ b, r = Ok b).
  { intros w. exists []. rewrite app_nil_r. split; [done|]. split; [done|]. eexists. reflexivity. }
  2,3: naive_solver.
  intros [] es [-> _]; [apply skels_err, run_cancelled|].
  unfold turn_index, TurnIndex_try_from. destruct (MAX_TURNS_CAP <=? t)%Z eqn:E; [lia|].
  eapply skels_bind with (X := λ r es, es = [] ∧ r = Ok (mkTurnIndex t)); [by apply (traces_lift (Ok _) (λ r es, skel es = [] ∧ r = Ok (mkTurnIndex t)))| |naive_solver..].
  intros i es [-> [= ->]].
  eapply skels_bind; [apply run_thread_turn_skels|..]; cbn [app tx_turn_index].
  - intros [[text|] sends'] es Hes.
    + destruct Hes as [Hes ->]. apply skels_ret. rewrite app_nil_r. by apply run_final.
    + destruct Hes as (calls & Hes & ->). eapply traces_mono; [apply IH; lia|].
      intros r es' Hr. by eapply run_more.
  - intros e es Hes. by apply run_failed.
  - intros s es Hes. by apply run_failed.
Qed.

(** C4: One run of the agent implements its specification: at most [max_turns] turns,
    in each turn the gate before the provider, the settle after it under the
    turn's own key, then the assistant's row; a turn that goes on has between one
    and sixteen tool calls, all answered in one row in call order; the reply's
    text is the last assistant row's and is not empty; its egress count is that of
    the calls answered; any failure stops at a known point. *)
Theorem reply_in_thread_refines claim thread viewer req root caller kp w :
  (0 < MaxTurns_get (ag_max_turns ag) ≤ MAX_TURNS_CAP)%Z →
  ∃ es, aw_events (reply_in_thread env ag claim thread viewer req root caller kp w).2
          = aw_events w ++ es ∧
    run_spec req 0 (Z.to_nat (MaxTurns_get (ag_max_turns ag))) 0
      (reply_in_thread env ag claim thread viewer req root caller kp w).1 (skel es).
Proof.
  intros Hm. apply (thread_loop_skels (Z.to_nat (MaxTurns_get (ag_max_turns ag))) 0); lia.
Qed.

(** ** What follows from the shape *)

Definition sends_of (es : list aevent) : nat :=
  length (List.filter (λ e, match e with EvSend _ _ => true | _ => false end) es).
Definition settle_keys (es : list aevent) : list IdempotencyKey :=
  omap (λ e, match e with EvSettle k _ => k | _ => None end) es.
Definition row_egress (e : aevent) : nat :=
  match e with
  | EvAppend KToolUse (Assistant content) => egress_count (content_calls content)
  | _ => 0
  end.

(** The egress calls of the tool-use rows written. *)
Definition egress_of (es : list aevent) : nat := sum_list (row_egress <$> es).

Lemma egress_of_app es es' : egress_of (es ++ es') = egress_of es + egress_of es'.
Proof. unfold egress_of. induction es as [|e es IH]; csimpl; [done|]. rewrite IH. lia. Qed.

Lemma sends_of_app es es' : sends_of (es ++ es') = sends_of es + sends_of es'.
Proof. unfold sends_of. by rewrite List.filter_app, length_app. Qed.

Lemma usage_key_str req i k :
  usage_key req i = Some k →
  IdempotencyKey_as_str k
  = lit "usage:" ++ uuid_to_string req ++ lit ":" ++ show_Z (TurnIndex_get i).
Proof.
  unfold usage_key, IdempotencyKey_try_from. destruct (is_empty _); [done|].
  destruct (_ <? _); [done|]. by intros [= <-].
Qed.

Lemma usage_key_inj req i j k :
  usage_key req i = Some k → usage_key req j = Some k → i = j.
Proof.
  intros Hi%usage_key_str Hj%usage_key_str. rewrite Hi in Hj.
  do 3 apply app_inv_head in Hj. apply lit_inj, (inj pretty) in Hj.
  destruct i, j. by f_equal.
Qed.

(** One turn sends at most once and settles at most once, under its own key. *)
Definition footprint (req : PromptRequestId) (i : TurnIndex) (es : list aevent) : Prop :=
  sends_of es ≤ 1 ∧ (settle_keys es = [] ∨ ∃ k, usage_key req i = Some k ∧ settle_keys es = [k]).

Lemma pre_footprint req i m rq cost : footprint req i (turn_pre req i m rq cost).
Proof.
  unfold footprint, turn_pre. destruct m; cbn; [|split; [lia|by left]]. split; [lia|].
  destruct (usage_key req i) as [k|]; [right; by exists k|by left].
Qed.

Lemma footprint_app req i es es' : footprint req i (es ++ es') → footprint req i es.
Proof.
  unfold footprint, settle_keys. rewrite sends_of_app, omap_app. intros [Hs Hk].
  split; [lia|]. destruct Hk as [[Hk _]%app_eq_nil|(k & Hk & He)]; [by left|].
  apply app_eq_unit in He as [[He _]|[He _]]; [by left|]. right. by exists k.
Qed.

Lemma footprint_writes req i es l :
  sends_of l = 0 → settle_keys l = [] → footprint req i es → footprint req i (es ++ l).
Proof.
  unfold footprint, settle_keys. intros Hs Hk [Hl Hr]. rewrite sends_of_app, omap_app, Hk, app_nil_r.
  split; [lia|done].
Qed.

Lemma more_footprint req i calls es : turn_more req i calls es → footprint req i es.
Proof. intros (m & rq & cost & resp & rs & _ & _ & _ & _ & _ & ->). apply footprint_writes, pre_footprint; done. Qed.
Lemma final_footprint req i text es : turn_final req i text es → footprint req i es.
Proof. intros (m & rq & cost & resp & _ & _ & _ & _ & _ & ->). apply footprint_writes, pre_footprint; done. Qed.
Lemma failed_footprint req i es : turn_failed req i es → footprint req i es.
Proof.
  intros (m & rq & cost & _ & [[l Hl]|[(content & ->)|(content & rs & _ & _ & ->)]]).
  - apply (footprint_app _ _ _ l). rewrite <-Hl. apply pre_footprint.
  - apply footprint_writes, pre_footprint; done.
  - apply footprint_writes, pre_footprint; done.
Qed.

Lemma run_footprint req t n sends r es :
  run_spec req t n sends r es →
  sends_of es ≤ n ∧ NoDup (settle_keys es) ∧
  Forall (λ k, ∃ j, (t ≤ j)%Z ∧ usage_key req (mkTurnIndex j) = Some k) (settle_keys es).
Proof.
  assert (∀ es t n, footprint req (mkTurnIndex t) es → sends_of es ≤ S n ∧ NoDup (settle_keys es) ∧
    Forall (λ k, ∃ j, (t ≤ j)%Z ∧ usage_key req (mkTurnIndex j) = Some k) (settle_keys es)) as Hone.
  { clear. intros es t n [Hs [->|(k & Hk & ->)]]; (split; [lia|]); split; try by constructor.
    - apply NoDup_singleton.
    - constructor; [|done]. by exists t. }
  induction 1 as [t sends|t n sends|t n sends calls r es es' Hm _ IH|t n sends text es Hf|t n sends r es _ Hf].
  - by repeat constructor.
  - split; [cbn; lia|by repeat constructor].
  - destruct IH as (IHs & IHn & IHf). apply more_footprint in Hm as [Hs Hk].
    unfold settle_keys in *. rewrite sends_of_app, omap_app. split; [lia|].
    assert (Forall (λ k, ∃ j, (t ≤ j)%Z ∧ usage_key req (mkTurnIndex j) = Some k) (settle_keys es')) as Hw.
    { eapply Forall_impl; [exact IHf|]. intros k (j & Hj & ?). exists j. split; [lia|done]. }
    destruct Hk as [->|(k & Hk & ->)]; [done|]. cbn. split.
    + constructor; [|done]. intros Hin. rewrite Forall_forall in IHf.
      destruct (IHf k Hin) as (j & Hj & Hkj). pose proof (usage_key_inj _ _ _ _ Hk Hkj) as [= ->]. lia.
    + constructor; [by exists t|done].
  - by apply Hone, (final_footprint _ _ text).
  - by apply Hone, failed_footprint.
Qed.

Lemma run_reply req t n sends r es :
  run_spec req t n sends r es → ∀ reply, r = Ok reply →
  final_text reply ≠ [] ∧ send_message_calls reply = sends + egress_of es.
Proof.
  assert (∀ m rq cost i, egress_of (turn_pre req i m rq cost) = 0) as Hpre.
  { intros [] *; done. }
  induction 1 as [| |t n sends calls r es es' Hm _ IH|t n sends text es Hf|t n sends r es Hr _];
    intros reply [= Hrep]; [..|by destruct (Hr reply)].
  - destruct (IH reply Hrep) as [Ht ->]. split; [done|].
    destruct Hm as (m & rq & cost & resp & rs & _ & -> & _ & _ & _ & ->).
    rewrite !egress_of_app, Hpre. unfold egress_of at 2. cbn. unfold content_calls, tool_calls. lia.
  - subst. destruct Hf as (m & rq & cost & resp & _ & _ & _ & Hne & _ & ->).
    cbn [final_text send_message_calls]. split; [done|].
    rewrite egress_of_app, Hpre. cbn. lia.
Qed.

(** C11: In any run, whatever fails: at most [max_turns] requests for a next step of the
    agent are sent to the provider (the requests of a compaction fold and of the
    reduction of a long tool result, which the run makes too, are not counted here;
    those of a fold are at most [MAX_COMPACTION_CHUNKS]); no two settles share a key;
    and a reply has a text, with the number of egress calls that its written tool-use
    rows contain. *)
Theorem run_is_bounded claim thread viewer req root caller kp w :
  (0 < MaxTurns_get (ag_max_turns ag) ≤ MAX_TURNS_CAP)%Z →
  ∃ es, aw_events (reply_in_thread env ag claim thread viewer req root caller kp w).2
          = aw_events w ++ es ∧
    sends_of (skel es) ≤ Z.to_nat (MaxTurns_get (ag_max_turns ag)) ∧
    NoDup (settle_keys (skel es)) ∧
    ∀ reply, (reply_in_thread env ag claim thread viewer req root caller kp w).1 = Ok reply →
      final_text reply ≠ [] ∧ send_message_calls reply = egress_of (skel es).
Proof.
  intros Hm. destruct (thread_loop_skels (Z.to_nat (MaxTurns_get (ag_max_turns ag))) 0 claim thread
    viewer req root caller kp 0 ltac:(done) ltac:(lia) w) as (es & Hes & Hr).
  exists es. split; [exact Hes|]. destruct (run_footprint _ _ _ _ _ _ Hr) as (Hs & Hk & _).
  split; [done|]. split; [done|]. intros reply Hreply. by apply (run_reply _ _ _ _ _ _ Hr).
Qed.

Definition is_row (e : aevent) : bool := match e with EvAppend _ _ => true | _ => false end.
Definition rows_of (es : list aevent) : list aevent := List.filter is_row es.

(** Each tool-use row is directly followed by the row of its results, one per
    call and in call order; only the last row may lack its successor, and a row
    without calls is the last. *)
Fixpoint paired (rows : list aevent) : Prop :=
  match rows with
  | [] => True
  | EvAppend KReasoning (Assistant c) :: rows' => content_calls c = [] ∧ rows' = []
  | EvAppend KToolUse (Assistant c) :: rows' =>
      content_calls c ≠ [] ∧
      match rows' with
      | [] => True
      | EvAppend KToolResult (User us) :: rows'' =>
          (∃ rs, us = UToolResult <$> rs ∧ tr_call_id <$> rs = tc_id <$> content_calls c) ∧
          paired rows''
      | _ => False
      end
  | _ => False
  end.

Lemma rows_of_app es es' : rows_of (es ++ es') = rows_of es ++ rows_of es'.
Proof. apply List.filter_app. Qed.
Lemma rows_of_pre req i m rq cost : rows_of (turn_pre req i m rq cost) = [].
Proof. by destruct m. Qed.

Lemma run_paired req t n sends r es : run_spec req t n sends r es → paired (rows_of es).
Proof.
  induction 1 as [| |t n sends calls r es es' Hm _ IH|t n sends text es Hf|t n sends r es Hr Hf]; try done.
  - destruct Hm as (m & rq & cost & resp & rs & _ & -> & Hl & Hids & _ & ->).
    rewrite !rows_of_app, rows_of_pre. cbn. split; [|eauto].
    change (tool_calls resp ≠ []). intros Hn. rewrite Hn in Hl. cbn in Hl. lia.
  - destruct Hf as (m & rq & cost & resp & _ & Hn & _ & _ & _ & ->).
    rewrite rows_of_app, rows_of_pre. by cbn.
  - destruct Hf as (m & rq & cost & _ & [[l Hl]|[(content & ->)|(content & rs & Hne & Hids & ->)]]).
    + apply (f_equal rows_of) in Hl. rewrite rows_of_app, rows_of_pre in Hl.
      symmetry in Hl. by apply app_eq_nil in Hl as [-> _].
    + rewrite rows_of_app, rows_of_pre. cbn [app]. destruct (content_calls content) eqn:E; cbn -[content_calls]; by rewrite E.
    + rewrite rows_of_app, rows_of_pre. cbn. split; [done|]. split; [by exists rs|done].
Qed.

(** C12: Whatever fails, the rows a run writes to the feed are paired: every tool-use
    row but possibly the last has its results right behind it. *)
Theorem transcript_is_paired claim thread viewer req root caller kp w :
  (0 < MaxTurns_get (ag_max_turns ag) ≤ MAX_TURNS_CAP)%Z →
  ∃ es, aw_events (reply_in_thread env ag claim thread viewer req root caller kp w).2
          = aw_events w ++ es ∧ paired (rows_of (skel es)).
Proof.
  intros Hm. destruct (thread_loop_skels (Z.to_nat (MaxTurns_get (ag_max_turns ag))) 0 claim thread
    viewer req root caller kp 0 ltac:(done) ltac:(lia) w) as (es & Hes & Hr).
  exists es. split; [exact Hes|]. by eapply run_paired.
Qed.

(** ** The approval gate *)

(** A tool runs only when the gate let its call pass. *)
Definition exec_ok (viewer : Participant) (e : aevent) : Prop :=
  ∀ call, e = EvExec call → allowed viewer call.

Lemma exec_ok_other viewer e : (∀ call, e ≠ EvExec call) → exec_ok viewer e.
Proof. intros He call ->. by destruct (He call). Qed.
#[local] Hint Extern 1 (exec_ok _ _) => (by apply exec_ok_other) : agent.

Lemma tool_exec_only viewer {A} (m : AM A) : only (tool_ok viewer) m → only (exec_ok viewer) m.
Proof.
  intros Hm. eapply traces_mono; [exact Hm|]. intros r es Hes.
  eapply Forall_impl; [exact Hes|]. by intros e [_ ?].
Qed.

Lemma call_only viewer {A} e wrap f : exec_ok viewer e → only (exec_ok viewer) (acall (A := A) env e wrap f).
Proof. intros He. eapply traces_mono; [apply traces_call|]. intros r es ->. by constructor. Qed.

Lemma append_only viewer caller thread kind sender owner body rid :
  only (exec_ok viewer) (append_private env caller thread kind sender owner body rid).
Proof. apply only_bind; [apply call_only; auto with agent|]. intros a. apply only_ret. Qed.

Lemma gate_only viewer i org byo : only (exec_ok viewer) (billing_gate env ag i org byo).
Proof.
  eapply traces_mono; [apply gate_traces|]. intros r es ->. destruct (is_metered byo); [|done].
  constructor; [by apply exec_ok_other|done].
Qed.

Lemma settle_only viewer org rid i resp byo : only (exec_ok viewer) (billing_settle env ag org rid i resp byo).
Proof.
  eapply traces_mono; [apply settle_traces|]. intros r es. cbn beta.
  destruct (is_metered byo); [|by intros ->]. intros [[-> _]|(cost & _ & ->)]; [done|].
  constructor; [by apply exec_ok_other|done].
Qed.

Lemma route_only viewer : only (exec_ok viewer) (route env ag).
Proof. eapply traces_mono; [apply route_traces|]. by intros r es [-> _]. Qed.

Lemma provider_only viewer i rq : only (exec_ok viewer) (call_provider env i rq).
Proof.
  apply only_bind; [apply only_emit; auto with agent|]. intros n. destruct (ae_send env n rq); auto with agent.
Qed.

Lemma context_only viewer i sid thread v kp org :
  only (exec_ok viewer) (build_thread_request env ag i sid thread v kp org).
Proof.
  unfold build_thread_request. destruct (participant_agent v) as [agent|]; [|apply only_err].
  destruct (participant_colleague v) as [col|]; [|apply only_err].
  apply only_bind; [apply only_emit; auto with agent|]. intros n. apply only_bind.
  - intros w. destruct (resolve_agent_context _ _ _ _ _ _) as [[r s] es].
    destruct (ae_fault env n) as [[e c]|].
    + exists []. rewrite app_nil_r. by destruct c.
    + match goal with |- context [abind ?m ?k ?w'] =>
        assert (only (exec_ok viewer) (abind m k)) as Ht; [|exact (Ht w')] end.
      apply only_bind; [apply tool_exec_only, effects_only|]. intros []. apply only_lift.
  - intros ctx. apply only_bind; [apply only_lift|]. intros ms. cbn zeta.
    destruct (is_empty _); [apply only_lift|]. destruct (_ <? _); [apply only_lift|].
    apply only_bind; [apply only_lift|]. intros tb. apply only_ret.
Qed.

Lemma run_tools_only tc calls k tx : only (exec_ok (tcx_viewer tx)) (run_tools env ag tc calls k tx).
Proof.
  apply tool_exec_only. eapply traces_mono; [apply run_tools_traces|]. by intros r es [Hes _].
Qed.

Lemma run_thread_turn_only tc claim thread viewer req root caller kp sends :
  only (exec_ok viewer) (run_thread_turn env ag tc claim thread viewer req root caller kp sends).
Proof.
  unfold run_thread_turn.
  apply only_bind; [apply only_emit; auto with agent|]. intros n.
  apply only_bind; [apply only_lift|]. intros [].
  apply only_bind; [apply route_only|]. intros byo.
  apply only_bind; [apply gate_only|]. intros [].
  apply only_bind; [apply context_only|]. intros rq.
  apply only_bind; [apply provider_only|]. intros resp.
  apply only_bind; [apply tool_exec_only, metrics_only|]. intros [].
  apply only_bind; [apply settle_only|]. intros [].
  apply only_bind; [apply only_emit; auto with agent|]. intros n'.
  apply only_bind; [apply only_lift|]. intros [].
  destruct (participant_agent viewer); [|apply only_err]. cbn zeta.
  apply only_bind; [apply append_only|]. intros [].
  destruct (is_empty _).
  { apply only_bind; [unfold final_text_of; destruct (is_empty _); auto with agent|auto with agent]. }
  destruct (_ <? _); [apply only_err|].
  apply only_bind; [apply (run_tools_only _ _ _ (mkToolCallContext _ _ _ viewer _ _ _ _))|].
  intros rs. apply only_bind; [apply append_only|auto with agent].
Qed.

Lemma thread_loop_only fuel t claim thread viewer req root caller kp sends :
  only (exec_ok viewer) (thread_loop env ag fuel t claim thread viewer req root caller kp sends).
Proof.
  revert t sends. induction fuel as [|fuel IH]; intros t sends; cbn [thread_loop]; [apply only_err|].
  apply only_bind; [intros w; exists []; by rewrite app_nil_r|]. intros c.
  destruct c; [apply only_err|].
  apply only_bind; [apply only_lift|]. intros i.
  apply only_bind; [apply run_thread_turn_only|]. intros [[text|] sends']; [apply only_ret|apply IH].
Qed.

(** A call that the gate refuses whenever it is asked is never executed, whatever
    else the model asks for and whatever else happens in the run. *)
Theorem blocked_call_never_runs call claim thread viewer req root caller kp w :
  ag_approval_gate ag = true → is_Some (participant_agent viewer) →
  (∀ n, is_Some (ae_approval env n call)) →
  ∃ es, aw_events (reply_in_thread env ag claim thread viewer req root caller kp w).2
          = aw_events w ++ es ∧ EvExec call ∉ es.
Proof.
  intros Hg Hv Hb. destruct (thread_loop_only (Z.to_nat (MaxTurns_get (ag_max_turns ag))) 0 claim
    thread viewer req root caller kp 0 w) as (es & Hes & Hok).
  exists es. split; [exact Hes|]. intros Hin. rewrite Forall_forall in Hok.
  destruct (Hok _ Hin call eq_refl Hg Hv) as [n Hn]. destruct (Hb n). congruence.
Qed.

(** ** Privacy *)

(** What a run may do to the thread store: it adds rows that only its own agent
    reads, and replaces only that agent's compaction. *)
Record private (agent : AgentId) (s s' : store) : Prop := {
  private_rows : ∃ l, thread_messages s' = thread_messages s ++ l ∧
    Forall (λ r, fr_kind r ≠ KPosted ∧ fr_owner_agent_id r = Some agent) l;
  private_names : names s' = names s;
  private_compactions : ∀ th b, b ≠ agent →
    thread_compactions s' !! (th, b) = thread_compactions s !! (th, b) }.

#[local] Instance private_preorder agent : PreOrder (private agent).
Proof.
  split.
  - intros s. split; [exists []; by rewrite app_nil_r|done|done].
  - intros x y z [(l & Hl & Fl) Hn Hc] [(l' & Hl' & Fl') Hn' Hc']. split.
    + exists (l ++ l'). rewrite Hl', Hl, app_assoc. split; [done|by apply Forall_app].
    + by rewrite Hn'.
    + intros th b Hb. by rewrite Hc', Hc.
Qed.

Lemma context_rows_private agent b thread since s s' :
  private agent s s' → b ≠ agent → context_rows thread b since s' = context_rows thread b since s.
Proof.
  intros [(l & Hl & Fl) _ _] Hb. unfold context_rows. rewrite Hl, filter_app.
  assert (filter (in_context thread b (Seq_get since)) l = []) as ->; [|by rewrite app_nil_r].
  clear Hl. induction Fl as [|r l [Hk Ho] _ IH]; [done|]. rewrite filter_cons_False; [done|].
  unfold in_context. rewrite Ho. intros (_ & [?|[= ?]] & _); congruence.
Qed.

Lemma context_tail_private agent b thread viewer since ov s s' :
  private agent s s' → b ≠ agent →
  context_tail thread b viewer since ov s' = context_tail thread b viewer since ov s.
Proof.
  intros Hp Hb. unfold context_tail. rewrite (context_rows_private agent b thread since s s') by done.
  assert (∀ rows, decode_rows s' viewer ov rows = decode_rows s viewer ov rows) as ->; [|done].
  intros rows. induction rows as [|r rows IH]; [done|]. cbn [decode_rows].
  by rewrite IH, (private_names agent s s' Hp).
Qed.

Lemma load_compaction_private agent b thread s s' :
  private agent s s' → b ≠ agent → load_compaction thread b s' = load_compaction thread b s.
Proof. intros Hp Hb. unfold load_compaction. by rewrite (private_compactions agent s s' Hp). Qed.

(** [m] leaves the store as [private] allows. *)
Definition keeps_private (agent : AgentId) {A} (m : AM A) : Prop :=
  ∀ w, private agent (t_store (aw_tables w)) (t_store (aw_tables (m w).2)).

Section quiet.
Variable agent : AgentId.
Hypothesis others_private : ∀ n t, private agent (t_store t) (t_store (ae_others env n t)).

Lemma private_bind {A B} (m : AM A) (k : A → AM B) :
  keeps_private agent m → (∀ a, keeps_private agent (k a)) → keeps_private agent (abind m k).
Proof.
  intros Hm Hk w. unfold abind. specialize (Hm w). destruct (m w) as [[a|e|s] w']; [|done..].
  etrans; [exact Hm|]. apply Hk.
Qed.
Lemma private_ret {A} (a : A) : keeps_private agent (aret a). Proof. by intros w. Qed.
Lemma private_lift {A} (r : res AgentError A) : keeps_private agent (alift r). Proof. by intros w. Qed.
Lemma private_err {A} e : keeps_private agent (aerr (A := A) e). Proof. by intros w. Qed.
Lemma private_emit e : keeps_private agent (aemit env e).
Proof. intros w. apply others_private. Qed.
Create HintDb private.
#[local] Hint Resolve private_bind private_ret private_lift private_err private_emit : private.

Lemma private_set_feed ts sq s row :
  fr_kind row ≠ KPosted → fr_owner_agent_id row = Some agent →
  private agent s (set_feed ts sq (thread_messages s ++ [row]) s).
Proof. intros Hk Ho. split; [exists [row]; by repeat constructor|done|done]. Qed.

Lemma append_insert_private fk caller thread m id now s :
  nm_kind m ≠ KPosted → nm_owner_agent_id m = Some agent →
  private agent s (append_insert fk caller thread m id now s).2.
Proof.
  intros Hk Ho. unfold append_insert. destruct (visible_thread s _ thread) as [t|]; [|done].
  cbn zeta. destruct (I64_MAX <? _)%Z; [done|]. destruct (negb (owner_kind_ok m)); [done|].
  destruct (existsb _ (thread_messages s)).
  { split; [exists []; by rewrite app_nil_r|done|done]. }
  destruct (existsb _ (thread_messages s)); [done|]. destruct (negb fk); [done|].
  by apply private_set_feed.
Qed.

Lemma append_store_private fk caller thread m id now s :
  nm_kind m ≠ KPosted → nm_owner_agent_id m = Some agent →
  private agent s (append fk caller thread m id now s).2.
Proof.
  intros Hk Ho. pose proof (append_insert_private fk caller thread m id now s Hk Ho) as Hp.
  unfold append. destruct (append_insert _ _ _ _ _ _ _) as [[[|]|e|x] s'] eqn:E; try exact Hp.
  by destruct (List.find _ _).
Qed.

Lemma append_private_private caller thread kind sender body rid :
  kind ≠ KPosted → keeps_private agent (append_private env caller thread kind sender agent body rid).
Proof.
  intros Hk. apply private_bind; [|auto with private]. intros w. unfold acall, abind, aemit.
  pose proof (others_private (length (aw_events w)) (aw_tables w)) as Ho.
  set (t := ae_others env _ _) in *. cbn [aw_tables aw_events].
  match goal with |- context [on_store ?wrap ?f t] =>
    assert (private agent (t_store t) (t_store (on_store wrap f t).2)) as Hp end.
  { unfold on_store. match goal with |- context [append ?a ?b ?c ?d ?e ?f ?g] =>
      pose proof (append_store_private a b c d e f g Hk eq_refl) as Hp;
      by destruct (append a b c d e f g) end. }
  destruct (on_store _ _ t) as [r t']. destruct (ae_fault env _) as [[msg [|]]|]; cbn; by etrans.
Qed.

Lemma metrics_private sid k r : keeps_private agent (record_turn_metrics env ag sid k r).
Proof. unfold record_turn_metrics. destruct sid; [destruct (_ && _)|]; auto with private. Qed.

Lemma fold_metrics_private sid ss : keeps_private agent (meter_fold_samples env ag sid ss).
Proof.
  induction ss as [|s ss IH]; cbn [meter_fold_samples]; [auto with private|].
  apply private_bind; [apply metrics_private|done].
Qed.

Lemma effects_private sid es : keeps_private agent (meter_effects env ag sid es).
Proof.
  induction es as [|e es IH]; cbn [meter_effects]; [auto with private|].
  apply private_bind; [|done]. destruct e; cbn [meter_effect]; [apply metrics_private|auto with private].
Qed.

Lemma save_artifact_private org handle body s : private agent s (save_tool_artifact org handle body s).
Proof.
  unfold save_tool_artifact. destruct (tool_artifacts s !! _); [done|].
  split; [exists []; by rewrite app_nil_r|done|done].
Qed.

Lemma reduce_store_private re own org call tool output s :
  private agent s (reduce_and_offload re own org call tool output s).1.2.
Proof.
  unfold reduce_and_offload. destruct (offload_artifact re org _ output s) as [ok s'] eqn:E.
  assert (private agent s s') as Hp.
  { revert E. unfold offload_artifact. destruct (re_threads re); [|by intros [= _ <-]].
    destruct (re_fault re) as [[|]|]; intros [= _ <-]; done || apply save_artifact_private. }
  destruct (negb ok); [done|]. destruct (tl_result_policy tool _); [done|].
  by destruct (summarize_tool_result _ _ _ _) as [[[x|]|[]|] ss].
Qed.

Lemma reduce_call_private tx call tool output : keeps_private agent (reduce_call env ag tx call tool output).
Proof.
  apply private_bind; [apply private_emit|]. intros n w.
  pose proof (reduce_store_private (ae_reduce env n) (ag_max_output_tokens ag)
    (org_id (tcx_caller tx)) call tool output (t_store (aw_tables w))) as Hp.
  destruct (reduce_and_offload _ _ _ _ _ _ _) as [[r s] ss]. cbn [fst snd] in Hp.
  destruct r as [x|[]|m]; [|exact Hp]. cbv zeta.
  match goal with |- context [abind ?m ?k ?w'] =>
    assert (keeps_private agent (abind m k)) as Ht; [|etrans; [exact Hp|exact (Ht w')]] end.
  apply private_bind; [apply fold_metrics_private|auto with private].
Qed.

Lemma run_one_tool_private call tool k tx : keeps_private agent (run_one_tool env ag call tool k tx).
Proof.
  unfold run_one_tool. destruct tool as [tool|]; [|auto with private].
  apply private_bind.
  { unfold approval_blocked. destruct (ag_approval_gate ag), (participant_agent (tcx_viewer tx)); auto with private. }
  intros [reason|]; [auto with private|]. apply private_bind; [apply private_emit|]. intros n.
  destruct (ae_exec env n call); auto with private.
  destruct (_ && _); [apply reduce_call_private|auto with private].
Qed.

Lemma run_call_private tc call tool k tx : keeps_private agent (run_call_with_hooks env ag tc call tool k tx).
Proof.
  apply private_bind; [apply private_emit|]. intros n. apply private_bind; [apply private_lift|]. intros [].
  apply private_bind; [apply run_one_tool_private|]. intros r.
  apply private_bind; [apply private_emit|]. intros n'. apply private_bind; [apply private_lift|].
  auto with private.
Qed.

Lemma join_all_private {A B} (f : A → AM B) l :
  (∀ a, keeps_private agent (f a)) → keeps_private agent (join_all f l).
Proof.
  intros Hf. induction l as [|a l IH]; cbn [join_all]; [apply private_ret|]. intros w.
  pose proof (Hf a w) as Ha. destruct (f a w) as [r w'].
  assert (∀ r0, keeps_private agent (rest <@- join_all f l ; aret ((a, r0) :: rest))) as Hk.
  { intros r0. apply private_bind; [exact IH|]. intros rest. apply private_ret. }
  destruct r; [etrans; [exact Ha|apply Hk]..|exact Ha].
Qed.

Lemma merge_private tx rs : keeps_private agent (merge_batch env ag tx rs).
Proof.
  induction rs as [|[[call cl] r] rs IH]; cbn [merge_batch]; [apply private_ret|].
  apply private_bind; [apply private_lift|]. intros x. apply private_bind; [apply private_emit|].
  intros n. apply private_bind.
  { unfold record_tool_call. destruct (participant_agent (tcx_viewer tx)), (tcx_state_id tx);
      [destruct (ag_tool_call_store ag)|..]; auto with private. }
  intros []. apply private_bind; [exact IH|]. intros rest. apply private_ret.
Qed.

Lemma run_tools_private tc calls k tx : keeps_private agent (run_tools env ag tc calls k tx).
Proof.
  unfold run_tools. induction (batches_of _) as [|b bs IH]; cbn [run_batches]; [apply private_ret|].
  apply private_bind; [by intros w|]. intros c. destruct c; [apply private_err|].
  apply private_bind; [apply join_all_private; intros a; apply run_call_private|]. intros rs.
  apply private_bind; [apply merge_private|]. intros out.
  apply private_bind; [exact IH|]. intros rest. apply private_ret.
Qed.

Lemma put_compaction_private th r s : private agent s (put_compaction (th, agent) r s).2.
Proof.
  unfold put_compaction. destruct (compaction_checks r); [|done].
  split; [exists []; by rewrite app_nil_r|done|]. intros th' b Hb. cbn.
  rewrite lookup_insert_ne; [done|]. congruence.
Qed.

Lemma compact_overflow_private te thread prior tail s :
  private agent s (compact_overflow te thread agent prior tail s).1.2.
Proof.
  unfold compact_overflow. destruct (_ =? 0); [done|].
  destruct (peel_seed_anchor _ _) as [[[anchor overflow] covers]|e|m]; [|done..].
  destruct (is_empty overflow); [done|].
  destruct (summarize _ _ _ _ _ _) as [[summary|e|m] samples]; [| |done].
  - assert (private agent s (persist_compaction te thread agent covers summary s).2) as Hp.
    { unfold persist_compaction. destruct covers; [apply put_compaction_private|done]. }
    by destruct (persist_compaction _ _ _ _ _ _) as [[?|?|?] s'].
  - assert (private agent s (handle_compaction_failure te thread agent
      (prior_failed_attempts prior) s).1.2) as Hp.
    { unfold handle_compaction_failure.
      pose proof (put_compaction_private thread) as Hput. unfold bump_cooldown.
      match goal with |- context [put_compaction ?k ?r s] => specialize (Hput r s);
        by destruct (put_compaction k r s) as [[?|?|?] s'] end. }
    by destruct (handle_compaction_failure _ _ _ _ _) as [[[?|?|?] s'] es].
Qed.

Lemma resolve_private te thread col ov s :
  private agent s (resolve_agent_context te thread agent col ov s).1.2.
Proof.
  unfold resolve_agent_context. destruct (load_compaction thread agent s) as [comp|e|m]; [|done..].
  destruct (match comp with Some _ => _ | None => _ end) as [[[prev since] cool] failed].
  destruct (context_tail _ _ _ _ _ _) as [tail|e|m]; [|done..]. cbn zeta.
  destruct (_ && _); [done|]. destruct (match cool with Some _ => _ | None => _ end); [done|].
  apply compact_overflow_private.
Qed.

Lemma context_private i sid thread viewer kp org :
  participant_agent viewer = Some agent →
  keeps_private agent (build_thread_request env ag i sid thread viewer kp org).
Proof.
  intros Hv. unfold build_thread_request. rewrite Hv.
  destruct (participant_colleague viewer) as [col|]; [|apply private_err].
  apply private_bind; [apply private_emit|]. intros n. apply private_bind.
  - intros w. pose proof (resolve_private (turn_env env ag n org) thread col
      (ae_overrides env n) (t_store (aw_tables w))) as Hp.
    destruct (resolve_agent_context _ _ _ _ _ _) as [[r s] es]. cbn [fst snd] in Hp.
    destruct (ae_fault env n) as [[e [|]]|]; [exact Hp|done|].
    match goal with |- context [abind ?m ?k ?w'] =>
      assert (keeps_private agent (abind m k)) as Ht; [|etrans; [exact Hp|exact (Ht w')]] end.
    apply private_bind; [apply effects_private|auto with private].
  - intros ctx. apply private_bind; [apply private_lift|]. intros ms. cbn zeta.
    destruct (is_empty _); [apply private_lift|]. destruct (_ <? _); [apply private_lift|].
    apply private_bind; [apply private_lift|]. intros tb. apply private_ret.
Qed.

Lemma gate_private i org byo : keeps_private agent (billing_gate env ag i org byo).
Proof.
  unfold billing_gate. destruct byo; [apply private_ret|]. destruct (negb _); [apply private_ret|].
  apply private_bind; [apply private_emit|]. intros n w. by repeat case_match.
Qed.

Lemma settle_private org rid i resp byo : keeps_private agent (billing_settle env ag org rid i resp byo).
Proof.
  unfold billing_settle. apply private_bind; [apply private_lift|]. intros cost.
  destruct byo; [apply private_ret|]. destruct (negb _); [apply private_ret|].
  apply private_bind; [apply private_emit|]. intros n w. by repeat case_match.
Qed.

Lemma route_private : keeps_private agent (route env ag).
Proof.
  apply private_bind; [by intros w|]. intros n.
  destruct (ae_byo env n _); [apply private_ret|]. destruct (ag_providers ag _); auto with private.
Qed.

Lemma provider_private i rq : keeps_private agent (call_provider env i rq).
Proof.
  apply private_bind; [apply private_emit|]. intros n. destruct (ae_send env n rq); auto with private.
Qed.

Lemma run_thread_turn_private tc claim thread viewer req root caller kp sends :
  participant_agent viewer = Some agent →
  keeps_private agent (run_thread_turn env ag tc claim thread viewer req root caller kp sends).
Proof.
  intros Hv. unfold run_thread_turn. rewrite Hv.
  apply private_bind; [apply private_emit|]. intros n.
  apply private_bind; [apply private_lift|]. intros [].
  apply private_bind; [apply route_private|]. intros byo.
  apply private_bind; [apply gate_private|]. intros [].
  apply private_bind; [by apply context_private|]. intros rq.
  apply private_bind; [apply provider_private|]. intros resp.
  apply private_bind; [apply metrics_private|]. intros [].
  apply private_bind; [apply settle_private|]. intros [].
  apply private_bind; [apply private_emit|]. intros n'.
  apply private_bind; [apply private_lift|]. intros []. cbn zeta.
  apply private_bind; [apply append_private_private; by destruct (is_empty _)|]. intros [].
  destruct (is_empty _).
  { apply private_bind; [unfold final_text_of; destruct (is_empty _); auto with private|auto with private]. }
  destruct (_ <? _); [apply private_err|].
  apply private_bind; [apply run_tools_private|]. intros rs.
  apply private_bind; [by apply append_private_private|]. intros u. apply private_ret.
Qed.

Lemma thread_loop_private fuel t claim thread viewer req root caller kp sends :
  participant_agent viewer = Some agent →
  keeps_private agent (thread_loop env ag fuel t claim thread viewer req root caller kp sends).
Proof.
  intros Hv. revert t sends. induction fuel as [|fuel IH]; intros t sends; cbn [thread_loop]; [apply private_err|].
  apply private_bind; [by intros w|]. intros c. destruct c; [apply private_err|].
  apply private_bind; [apply private_lift|]. intros i.
  apply private_bind; [by apply run_thread_turn_private|].
  intros [[text|] sends']; [apply private_ret|apply IH].
Qed.
End quiet.

(** The loop itself - its model output, its tool calls and results, its folds and
    offloads - never reaches another agent: as long as the tools it runs and the
    other processes leave that agent's view alone, the context and the compaction
    row of every other agent are after the run what they were before. *)
Theorem run_is_private agent claim thread viewer req root caller kp w b col since ov th :
  participant_agent viewer = Some agent → b ≠ agent →
  (∀ n t, private agent (t_store t) (t_store (ae_others env n t))) →
  let s := t_store (aw_tables w) in
  let s' := t_store (aw_tables (reply_in_thread env ag claim thread viewer req root caller kp w).2) in
  context_tail th b col since ov s' = context_tail th b col since ov s ∧
  load_compaction th b s' = load_compaction th b s.
Proof.
  intros Hv Hb Ho s s'.
  assert (private agent s s') as Hp by (apply thread_loop_private; done).
  split; [by eapply context_tail_private|by eapply load_compaction_private].
Qed.
End run.

(** ** What is advertised is what can be called *)

(** What the toolbox relies on in a dynamic source: the specs it lists for a mode
    are those of the tools it resolves there. *)
Class DynamicLaws (d : DynamicToolSource) : Prop :=
  dyn_advertised : ∀ kind name,
    name ∈ spec_key <$> dyn_specs_for d kind ↔ is_Some (dyn_get_for d kind name).

#[export] Instance EmptySource_laws : DynamicLaws EmptySource.
Proof. intros kind name. cbn. split; [by intros ?%elem_of_nil|by intros [? ?]]. Qed.

Lemma build_loop_spec {E : Type} tools m specs :
  NoDup (tool_key <$> tools) → (∀ t, t ∈ tools → m !! tool_key t = None) →
  ∃ m', @build_loop E tools m specs = Ok (m', specs ++ (spec_of <$> tools)) ∧
    ∀ k t, m' !! k = Some t ↔ m !! k = Some t ∨ t ∈ tools ∧ tool_key t = k.
Proof.
  revert m specs. induction tools as [|t tools IH]; intros m specs Hnd Hm; cbn [build_loop].
  { exists m. rewrite app_nil_r. split; [done|]. intros k t. set_solver. }
  rewrite fmap_cons in Hnd. apply NoDup_cons in Hnd as [Ht Hnd]. rewrite (Hm t) by set_solver.
  destruct (IH (<[tool_key t := t]> m) (specs ++ [spec_of t]) Hnd) as (m' & Hb & Hm').
  { intros t' Ht'. rewrite lookup_insert_ne; [apply Hm; set_solver|].
    intros Hk. apply Ht. rewrite Hk. by apply list_elem_of_fmap_2. }
  exists m'. rewrite Hb. split; [by rewrite <-app_assoc|]. intros k t'. rewrite Hm', lookup_insert_Some.
  split.
  - intros [[[<- <-]|[_ ?]]|[? ?]]; set_solver.
  - intros [Hk|[[->|Hin]%elem_of_cons Hk]]; [|by left; left|set_solver].
    left. right. split; [|done]. intros <-. rewrite (Hm t) in Hk by set_solver. done.
Qed.

Lemma registry_advertised tools r (kind : RequestKind) name :
  (∀ k t, by_name r !! k = Some t ↔ t ∈ tools ∧ tool_key t = k) →
  rg_specs r = merge_sort spec_le (spec_of <$> tools) →
  name ∈ spec_key <$> registry_specs_for r kind ↔ is_Some (registry_get_for r kind name).
Proof.
  intros Hm Hs.
  assert (is_Some (registry_get_for r kind name) ↔
    ∃ t, t ∈ tools ∧ tool_key t = name ∧ includes (tl_modes t) kind = true) as ->.
  { unfold registry_get_for. split.
    - destruct (by_name r !! name) as [t|] eqn:E; [|by intros [? ?]]. apply Hm in E as [? ?].
      destruct (includes _ kind) eqn:Ei; [|by intros [? ?]]. by exists t.
    - intros (t & Ht & Hk & Hi). assert (by_name r !! name = Some t) as -> by by apply Hm.
      rewrite Hi. eauto. }
  assert (∀ t, t ∈ (map_to_list (by_name r)).*2 ↔ t ∈ tools) as Hall.
  { intros t. rewrite list_elem_of_fmap. split.
    - intros ([k t'] & -> & Hin). apply elem_of_map_to_list, Hm in Hin as [? _]. done.
    - intros Ht. exists (tool_key t, t). split; [done|]. by apply elem_of_map_to_list, Hm. }
  unfold registry_specs_for. destruct (forallb _ _) eqn:Ef.
  - rewrite Hs, list_elem_of_fmap. setoid_rewrite merge_sort_Permutation.
    rewrite forallb_forall in Ef. split.
    + intros (s & -> & (t & -> & Ht)%list_elem_of_fmap). exists t. split_and!; [done|done|].
      apply Ef, list_elem_of_In, Hall, Ht.
    + intros (t & Ht & <- & _). exists (spec_of t). split; [done|]. by apply list_elem_of_fmap_2.
  - rewrite list_elem_of_fmap. setoid_rewrite merge_sort_Permutation. split.
    + intros (s & -> & (t & -> & [Hi Ht]%list_elem_of_filter)%list_elem_of_fmap).
      exists t. split_and!; [by apply Hall|done|done].
    + intros (t & Ht & <- & Hi). exists (spec_of t). split; [done|]. apply list_elem_of_fmap_2.
      apply list_elem_of_filter. split; [done|by apply Hall].
Qed.

(** A registry built from distinctly named tools never panics, and in every mode
    the toolbox over it advertises to the model exactly the names it can call. *)
Theorem advertised_iff_callable tools d `{DynamicLaws d} :
  NoDup (tool_key <$> tools) →
  ∃ r, @registry_build AgentError tools = Ok r ∧
    ∀ kind name, name ∈ spec_key <$> specs_for (mkToolBox r d) kind ↔
                 is_Some (get_for (mkToolBox r d) kind name).
Proof.
  intros Hnd. destruct (build_loop_spec (E := AgentError) tools ∅ [] Hnd) as (m & Hb & Hm); [done|].
  exists (mkToolRegistry m (merge_sort spec_le (spec_of <$> tools))). split.
  { unfold registry_build. by rewrite Hb. }
  intros kind name.
  set (r := mkToolRegistry m _).
  assert (name ∈ spec_key <$> registry_specs_for r kind ↔ is_Some (registry_get_for r kind name)) as Hr.
  { apply (registry_advertised tools); [|done]. intros k t. cbn. rewrite Hm, lookup_empty. naive_solver. }
  pose proof (dyn_advertised (d := d) kind name) as Hd.
  unfold specs_for, get_for. cbn [tb_builtins tb_dynamic].
  assert (is_Some (match registry_get_for r kind name with Some t => Some t | None => dyn_get_for d kind name end)
    ↔ is_Some (registry_get_for r kind name) ∨ is_Some (dyn_get_for d kind name)) as ->.
  { destruct (registry_get_for r kind name); [|destruct (dyn_get_for d kind name)]; naive_solver. }
  rewrite <-Hr, <-Hd.
  destruct (dyn_specs_for d kind) as [|s ds]; cbn [is_empty]; [set_solver|].
  destruct (registry_specs_for r kind) as [|s' bs]; cbn [is_empty]; [set_solver|].
  rewrite fmap_app. set_solver.
Qed.

(** ** What an oversized result leaves behind *)

Lemma fold_loop_no_panic `{FoldStrategy} fe deadline chunks i acc samples msg :
  (fold_loop fe deadline chunks i acc samples).1 ≠ Panic msg.
Proof.
  revert i acc samples. induction chunks as [|c chunks IH]; intros i acc samples; cbn [fold_loop]; [done|].
  destruct (_ <=? _)%Z; [done|]. destruct (fe_send fe i _) as [|e|resp]; [done..|].
  destruct (extract_text resp); [apply IH|done].
Qed.

Lemma run_fold_pass_no_panic `{JsonPrinter, FoldStrategy} fe prev overflow deadline samples msg :
  (run_fold_pass fe prev overflow deadline samples).1 ≠ Panic msg.
Proof.
  unfold run_fold_pass. set (chunks := drop_oldest_chunks _).
  assert (length chunks <=? MAX_COMPACTION_CHUNKS = true) as ->; [|apply fold_loop_no_panic].
  unfold chunks, drop_oldest_chunks. apply Nat.leb_le. destruct (_ <? _) eqn:E; bools; [|lia].
  rewrite length_drop. lia.
Qed.

Lemma summarizer_chain_ok {E : Type} ps : ∃ chain, @summarizer_chain E ps = Ok chain.
Proof.
  unfold summarizer_chain.
  assert (length (usable_models ps) <=? MAX_SUMMARIZER_CANDIDATES = true) as ->; [|eauto].
  apply Nat.leb_le. trans (length Model_all); [|by vm_compute; lia].
  unfold usable_models. rewrite !sort_by_perm, !length_filter. done.
Qed.

Lemma summarize_ok `{JsonPrinter} env own intent body :
  ∃ o, (summarize_tool_result env own intent body).1 = Ok o.
Proof.
  unfold summarize_tool_result. destruct (summarizer_chain_ok (E := Empty_set) (re_providers env)) as [chain ->].
  destruct (is_empty chain); [by eexists|]. generalize 0 at 1. generalize (@nil FoldSample) as samples.
  induction chain as [|m chain IH]; intros samples i; cbn [summarize_attempts]; [by eexists|].
  match goal with |- context [@run_fold_pass ?j ?f ?a ?b ?c ?d ?e] =>
    pose proof (@run_fold_pass_no_panic j f a b c d e) as Hnp;
    destruct (@run_fold_pass j f a b c d e) as [[t|e'|s] ss] end.
  - destruct (negb _); [by eexists|apply IH].
  - apply IH.
  - by destruct (Hnp s).
Qed.

Lemma encode_32_length bytes : length (encode_32 bytes) = 2 * length bytes.
Proof. unfold encode_32. induction bytes as [|b bytes IH]; [done|]. csimpl. cbn in IH. rewrite IH. lia. Qed.

(** A digest is 32 bytes. *)
Class Sha256Laws `{Sha256} : Prop := sha256_length : ∀ s, length (sha256 s) = 32.

Lemma render_preview_length body handle :
  length handle = 64 → (Z.of_nat (length body) < 2 ^ 64)%Z →
  length (render_preview body handle (length body)) ≤ TOOL_RESULT_REDUCE_THRESHOLD.
Proof.
  intros Hh Hb. unfold render_preview. set (head := take _ body).
  set (tail := if PREVIEW_TAIL_CHARS <? length body then drop (length body - PREVIEW_TAIL_CHARS) body else []).
  assert (length head ≤ 2000) by (unfold head; rewrite length_take; unfold PREVIEW_HEAD_CHARS; lia).
  assert (length tail ≤ 2000).
  { unfold tail. destruct (PREVIEW_TAIL_CHARS <? length body) eqn:E; [|cbn; lia]. bools.
    rewrite length_drop. unfold PREVIEW_TAIL_CHARS in *. lia. }
  pose proof (show_Z_length (Z.of_nat (length body - chars_count head - chars_count tail)) ltac:(lia)).
  rewrite !length_app, !lit_length, Hh. cbn [length String.length]. clearbody head tail.
  unfold nl. cbn [length].
  assert (TOOL_RESULT_REDUCE_THRESHOLD = Z.to_nat 32000) as -> by done. lia.
Qed.

Lemma names_cons (l t h : str) :
  (∃ pre post, t = pre ++ h ++ post) → ∃ pre post, l ++ t = pre ++ h ++ post.
Proof. intros (pre & post & ->). exists (l ++ pre), post. by rewrite <-app_assoc. Qed.

Lemma names_here (h t : str) : ∃ pre post, h ++ t = pre ++ h ++ post.
Proof. by exists [], t. Qed.

Lemma preview_names_handle body handle total :
  ∃ pre post, render_preview body handle total = pre ++ handle ++ post.
Proof. unfold render_preview. cbn zeta. do 10 apply names_cons. apply names_here. Qed.

Lemma summary_names_handle summary handle total :
  ∃ pre post, render_summary summary handle total = pre ++ handle ++ post.
Proof. unfold render_summary. do 5 apply names_cons. apply names_here. Qed.

(** Reducing an oversized result never fails, whatever the stores and the
    summarizers do: the model sees either the whole output, or a text that names
    the handle under which the whole output is stored; a preview is short enough
    never to be reduced again. *)
Theorem oversized_result_recoverable `{JsonPrinter, Sha256Laws} env own org call tool output s :
  (Z.of_nat (length output) < 2 ^ 64)%Z →
  (∀ body, tool_artifacts s !! (org, content_address output) = Some body → body = output) →
  ∃ r s' samples,
    reduce_and_offload env own org call tool output s = (Ok r, s', samples) ∧
    tr_call_id r = tc_id call ∧ tr_is_error r = false ∧
    (tr_output r = output ∨
     tool_artifacts s' !! (org, content_address output) = Some output ∧
     (∃ pre post, tr_output r = pre ++ content_address output ++ post) ∧
     (tl_result_policy tool (tc_input call) = Paginate →
      length (tr_output r) ≤ TOOL_RESULT_REDUCE_THRESHOLD)).
Proof.
  intros Hlen Hcoll. unfold reduce_and_offload, chars_count. set (handle := content_address output) in *.
  assert (tool_artifacts (save_tool_artifact org handle output s) !! (org, handle) = Some output) as Hsave.
  { unfold save_tool_artifact. destruct (tool_artifacts s !! (org, handle)) as [b|] eqn:E.
    - by rewrite E, (Hcoll b).
    - cbn. by rewrite lookup_insert_eq. }
  assert (length handle = 64) as Hh.
  { unfold handle, content_address. rewrite encode_32_length. by rewrite sha256_length. }
  unfold offload_artifact. destruct (re_threads env); [|by repeat eexists; left].
  destruct (re_fault env) as [c|]; cbn [negb]; [by repeat eexists; left|].
  destruct (tl_result_policy tool (tc_input call)) as [|intent].
  - repeat eexists; [done..|]. right. split_and!; [done|apply preview_names_handle|].
    intros _. by apply render_preview_length.
  - destruct (summarize_ok env own intent output) as [o Ho].
    destruct (summarize_tool_result env own intent output) as [r samples]. cbn [fst] in Ho. subst r.
    destruct o as [summary|]; (repeat eexists; [done..|]); right; (split_and!; [done| |done]).
    + apply summary_names_handle.
    + apply preview_names_handle.
Qed.

(** ** A concrete run *)

Module Demo.
#[local] Instance uuid : UuidPrinter := λ n, show_Z (Z.of_N n).
#[local] Instance json : JsonPrinter := λ _, [].
#[local] Instance sha : Sha256 := λ s, repeat (N.of_nat (length s)) 32.
#[local] Instance gated : Entitlements :=
  {| agent_limit _ := UnlimitedAgents; allows _ _ := true; credit_gate_active _ := true;
     signup_grant _ := None |}.

Definition haiku : Model :=
  match Model_try_from (lit "claude-haiku-4-5") with
  | Ok m => m
  | _ => mkModel (mkCatalogEntry "none" Anthropic (mkContextWindow 2000) ALL_CAPABILITIES)
  end.
Definition echo : Tool :=
  mkTool (mkToolName (lit "echo")) [] Null modes_ALL true (λ _, Paginate).
Definition registry : ToolRegistry :=
  match @registry_build AgentError [echo] with Ok r => r | _ => registry_empty end.
Definition agent : Agent :=
  mkAgent 1 haiku (mkMaxOutputTokens 1000) (mkMaxTurns 5) (mkToolBox registry EmptySource) []
    (λ _, true) true true false true true.
Definition viewer : Participant := AgentP 9 Feed.agent.
Definition call : ToolCall := mkToolCall Feed.call (mkToolName (lit "echo")) Null.

Definition ask : ChatResponse :=
  mkChatResponse [AToolCall call] ToolUse (mkUsage 1000 100 None None) None.
Definition final : ChatResponse :=
  mkChatResponse [AText (lit "done")] EndTurn (mkUsage 1000 100 None None) None.

(** The model answers with [ask] as long as fewer than [k] calls were made. *)
Definition env (k : nat) (verdict : option str) : AgentEnv := {|
  ae_others _ t := t; ae_fault _ := None; ae_now n := Z.of_nat n; ae_today _ := (2026, 5, 2)%Z;
  ae_fresh n := (200 + N.of_nat n)%N; ae_fk _ := true; ae_sees _ _ := true;
  ae_cancelled _ := false; ae_byo _ _ := false;
  ae_turn _ := mkTurnEnv 1 haiku (mkMaxOutputTokens 1000) None 0 0 0 None
                 (mkFoldEnv (λ _, 0%Z) (λ _, 0%Z) (λ _, 0%Z) (λ _ _, SendTimeout));
  ae_overrides _ _ := None; ae_prompt _ := Ok (lit "You are an agent."); ae_participants _ := None;
  ae_todos _ := TodosBlock [];
  ae_send n _ := SentOk (if n <? k then ask else final);
  ae_approval _ _ := verdict; ae_exec _ _ := ExOk (lit "pong");
  ae_reduce _ := mkReduceEnv false None (mkProviders (λ _, true) (λ _, false)) 0
                   (λ _, mkFoldEnv (λ _, 0%Z) (λ _, 0%Z) (λ _, 0%Z) (λ _ _, SendTimeout)) |}.

Definition funded : bdb :=
  (grant_credit 7 1 (mkGrantAmount 100000) Promo (mkIdempotencyKey (lit "k")) None 5 empty_bdb).2.
Definition world : aworld :=
  mkAworld (mkTables (Feed.step (Feed.posted "hello") 100 Feed.empty) (mkBglog [] []) funded) [].

Definition run (e : AgentEnv) (w : aworld) : res AgentError AgentReply * aworld :=
  reply_in_thread e agent 50 Feed.thread viewer 60 60 Feed.caller PNormal w.
End Demo.

Example demo_run :
  let '(r, w) := Demo.run (Demo.env 7 None) Demo.world in
  (r, sends_of (aw_events w), fr_kind <$> thread_messages (t_store (aw_tables w)))
  = (Ok (mkAgentReply (lit "done") 0), 2, [KPosted; KToolUse; KToolResult; KReasoning]).
Proof. by vm_compute. Qed.

Lemma demo_turns : (0 < MaxTurns_get (ag_max_turns Demo.agent) ≤ MAX_TURNS_CAP)%Z.
Proof. split; by vm_compute. Qed.

Lemma reply_in_thread_refines_witness :
  ∃ es, aw_events (Demo.run (Demo.env 7 None) Demo.world).2 = es ∧
    (Demo.run (Demo.env 7 None) Demo.world).1 = Ok (mkAgentReply (lit "done") 0) ∧
    run_spec (H := Demo.uuid) (Demo.env 7 None) Demo.agent 60 0 5 0
      (Demo.run (Demo.env 7 None) Demo.world).1 (skel es).
Proof.
  destruct (@reply_in_thread_refines Demo.uuid Demo.json Demo.sha Demo.gated (Demo.env 7 None)
    Demo.agent 50 Feed.thread Demo.viewer 60 60 Feed.caller PNormal Demo.world demo_turns)
    as (es & Hes & Hr).
  exists es. split; [exact Hes|]. split; [by vm_compute|exact Hr].
Defined.

Lemma run_is_bounded_witness :
  ∃ es, aw_events (Demo.run (Demo.env 1000 None) Demo.world).2 = es ∧ sends_of (skel es) ≤ 5 ∧
    (Demo.run (Demo.env 1000 None) Demo.world).1 = Err (AEMaxTurnsExceeded 5).
Proof.
  destruct (@run_is_bounded Demo.uuid Demo.json Demo.sha Demo.gated (Demo.env 1000 None)
    Demo.agent 50 Feed.thread Demo.viewer 60 60 Feed.caller PNormal Demo.world demo_turns)
    as (es & Hes & Hs & _).
  exists es. split; [exact Hes|]. split; [exact Hs|by vm_compute].
Defined.

Lemma transcript_is_paired_witness :
  ∃ es, aw_events (Demo.run (Demo.env 7 None) Demo.world).2 = es ∧ paired (rows_of (skel es)) ∧
    length (rows_of (aw_events (Demo.run (Demo.env 7 None) Demo.world).2)) = 3.
Proof.
  destruct (@transcript_is_paired Demo.uuid Demo.json Demo.sha Demo.gated (Demo.env 7 None)
    Demo.agent 50 Feed.thread Demo.viewer 60 60 Feed.caller PNormal Demo.world demo_turns)
    as (es & Hes & Hp).
  exists es. split; [exact Hes|]. split; [exact Hp|by vm_compute].
Defined.

Lemma blocked_call_never_runs_witness :
  ∃ es, aw_events (Demo.run (Demo.env 7 (Some (lit "ask first"))) Demo.world).2 = es ∧
    EvExec Demo.call ∉ es.
Proof.
  destruct (@blocked_call_never_runs Demo.uuid Demo.json Demo.sha Demo.gated
    (Demo.env 7 (Some (lit "ask first"))) Demo.agent Demo.call 50 Feed.thread Demo.viewer 60 60
    Feed.caller PNormal Demo.world) as (es & Hes & Hn).
  - reflexivity.
  - by eexists.
  - intros n. by eexists.
  - exists es. split; [exact Hes|exact Hn].
Defined.

Lemma run_is_private_witness :
  let s := t_store (aw_tables Demo.world) in
  let s' := t_store (aw_tables (Demo.run (Demo.env 7 None) Demo.world).2) in
  context_tail Feed.thread 8 4 Seq_ZERO (λ _, None) s' = context_tail Feed.thread 8 4 Seq_ZERO (λ _, None) s
  ∧ length (thread_messages s') = 4.
Proof.
  split; [|by vm_compute].
  refine (proj1 (@run_is_private Demo.uuid Demo.json Demo.sha Demo.gated (Demo.env 7 None)
    Demo.agent Feed.agent 50 Feed.thread Demo.viewer 60 60 Feed.caller PNormal Demo.world 8 4
    Seq_ZERO (λ _, None) Feed.thread _ _ _)).
  - reflexivity.
  - done.
  - intros n t. split; [exists []; by rewrite app_nil_r|done|done].
Defined.

Lemma advertised_iff_callable_witness :
  ∃ r, @registry_build AgentError [Demo.echo] = Ok r ∧
    lit "echo" ∈ spec_key <$> specs_for (mkToolBox r EmptySource) Reflection.
Proof.
  destruct (advertised_iff_callable [Demo.echo] EmptySource) as (r & Hr & Hiff).
  { apply NoDup_singleton. }
  exists r. split; [exact Hr|]. apply Hiff. vm_compute in Hr. injection Hr as <-. vm_compute. eauto.
Defined.

#[local] Instance demo_sha_laws : @Sha256Laws Demo.sha.
Proof. intros s. apply repeat_length. Qed.

Lemma oversized_result_recoverable_witness :
  ∃ r s' samples, let body := repeat 97%N 33000 in
    @reduce_and_offload Demo.json Demo.sha
      (mkReduceEnv true None (mkProviders (λ _, true) (λ _, false)) 0
         (λ _, mkFoldEnv (λ _, 0%Z) (λ _, 0%Z) (λ _, 0%Z) (λ _ _, SendTimeout)))
      (mkMaxOutputTokens 1000) 1 Demo.call Demo.echo body Feed.empty = (Ok r, s', samples)
    ∧ tr_is_error r = false.
Proof.
  destruct (@oversized_result_recoverable Demo.json Demo.sha demo_sha_laws
    (mkReduceEnv true None (mkProviders (λ _, true) (λ _, false)) 0
       (λ _, mkFoldEnv (λ _, 0%Z) (λ _, 0%Z) (λ _, 0%Z) (λ _ _, SendTimeout)))
    (mkMaxOutputTokens 1000) 1 Demo.call Demo.echo (repeat 97%N 33000) Feed.empty)
    as (r & s' & samples & Hr & _ & He & _).
  - rewrite repeat_length. by vm_compute.
  - intros body. change (tool_artifacts Feed.empty) with (∅ : gmap (OrgId * str) str).
    by rewrite lookup_empty.
  - exists r, s', samples. split; [exact Hr|exact He].
Defined.

(** The worker nudges an agent that posted nothing by running it again under the
    same request: the second run's settles reuse the first run's keys, so its
    provider calls count toward the cap but are never debited. *)
Lemma nudged_rerun_is_free :
  let w1 := (Demo.run (Demo.env 0 None) Demo.world).2 in
  let w2 := (Demo.run (Demo.env 0 None) w1).2 in
  sends_of (aw_events w1) = 1 ∧ sends_of (aw_events w2) = 2 ∧
  cd_balance <$> org_credits (t_bill (aw_tables w1)) !! 1%N = Some 98500%Z ∧
  org_credits (t_bill (aw_tables w2)) = org_credits (t_bill (aw_tables w1)) ∧
  ur_used <$> org_billing_usage (t_bill (aw_tables w2)) !! (1%N, (2026, 5, 1)%Z) = Some 3000%Z.
Proof. split_and!; by vm_compute. Qed.
