(* ===== verification/Approvals.v ===== *)
(** * Approvals

    [approvals/]: the policy of who may decide, the [pending_approval] table with
    its transactions, the per-agent list of gated tools and the hard gate the tool
    dispatch consults. *)

From Stdlib Require Import ZArith Lia Ascii String.
From stdpp Require Import base gmap list strings sets relations.
From S2P Require Import Prelude Program Types Threads.

Abbreviation ApprovalId := N (only parsing).

(** ** Limits ([approvals/limits.rs]); durations are nanoseconds. *)

Definition APPROVAL_SUMMARY_MAX : nat := 2048.
Definition MAX_APPROVERS : nat := 16.
Definition APPROVAL_DEFAULT_TTL : Z := 24 * 60 * 60 * 1000000000.
Definition APPROVAL_MAX_TTL : Z := 7 * 24 * 60 * 60 * 1000000000.
Definition APPROVAL_SWEEP_BATCH : nat := 256.
Definition PLATFORM_MESSAGE_ID_MAX : nat := 128.

Inductive ApprovalError :=
| ApprovalNotFound
| NotPending
| Unauthorized
| ApprovalExpired
| ApprovalBackend (msg : str)
| ApprovalParse (e : ParseError)
| ApprovalDb (msg : string).

(** ** Data ([approvals/types.rs]) *)

Record ActionSummary := mkActionSummary { ActionSummary_as_str : str }.
Record PlatformMessageId := mkPlatformMessageId { PlatformMessageId_as_str : str }.
#[export] Instance ActionSummary_eq_dec : EqDecision ActionSummary.
Proof. solve_decision. Defined.
#[export] Instance PlatformMessageId_eq_dec : EqDecision PlatformMessageId.
Proof. solve_decision. Defined.

Definition ActionSummary_try_from (raw : str) : res ParseError ActionSummary :=
  if is_empty raw then Err (Empty "action_summary")
  else if APPROVAL_SUMMARY_MAX <? str_len raw
  then Err (TooLong "action_summary" APPROVAL_SUMMARY_MAX (str_len raw))
  else Ok (mkActionSummary raw).

Definition PlatformMessageId_try_from (raw : str) : res ParseError PlatformMessageId :=
  if is_empty raw then Err (Empty "platform_message_id")
  else if PLATFORM_MESSAGE_ID_MAX <? str_len raw
  then Err (TooLong "platform_message_id" PLATFORM_MESSAGE_ID_MAX (str_len raw))
  else Ok (mkPlatformMessageId raw).

Inductive ApprovalStatus := ApPending | ApApproved | ApDenied | ApExpired.
#[export] Instance ApprovalStatus_eq_dec : EqDecision ApprovalStatus.
Proof. solve_decision. Defined.
Definition ApprovalStatus_as_str (s : ApprovalStatus) : string :=
  match s with
  | ApPending => "pending" | ApApproved => "approved" | ApDenied => "denied" | ApExpired => "expired"
  end.
#[export] Instance ApprovalStatus_StrEnum : StrEnum ApprovalStatus.
Proof.
  refine {| ALL := [ApPending; ApApproved; ApDenied; ApExpired]; as_str := ApprovalStatus_as_str |};
    abstract str_enum.
Defined.

Inductive Platform := PDiscord | PLark | PWeb.
#[export] Instance Platform_eq_dec : EqDecision Platform.
Proof. solve_decision. Defined.
Definition Platform_as_str (p : Platform) : string :=
  match p with PDiscord => "discord" | PLark => "lark" | PWeb => "web" end.
#[export] Instance Platform_StrEnum : StrEnum Platform.
Proof. refine {| ALL := [PDiscord; PLark; PWeb]; as_str := Platform_as_str |}; abstract str_enum. Defined.

Inductive ApproverKind := AKAnyone | AKColleague | AKOneOf.
#[export] Instance ApproverKind_eq_dec : EqDecision ApproverKind.
Proof. solve_decision. Defined.
Definition ApproverKind_as_str (k : ApproverKind) : string :=
  match k with AKAnyone => "anyone" | AKColleague => "colleague" | AKOneOf => "one_of" end.
#[export] Instance ApproverKind_StrEnum : StrEnum ApproverKind.
Proof.
  refine {| ALL := [AKAnyone; AKColleague; AKOneOf]; as_str := ApproverKind_as_str |};
    abstract str_enum.
Defined.

Inductive ApproverPolicy :=
| PolAnyone
| PolColleague (c : ColleagueId)
| PolOneOf (set : list ColleagueId).

(** The [HashSet] filter of [from_ids]: first occurrences, in order. *)
Fixpoint dedup_first (seen : list ColleagueId) (ids : list ColleagueId) : list ColleagueId :=
  match ids with
  | [] => []
  | id :: ids' =>
      if decide (id ∈ seen) then dedup_first seen ids'
      else id :: dedup_first (id :: seen) ids'
  end.

Definition from_ids (ids : list ColleagueId) : res ParseError ApproverPolicy :=
  if is_empty ids then Ok PolAnyone
  else
    let deduped := dedup_first [] ids in
    if MAX_APPROVERS <? length deduped then Err (OutOfRange "approvers" "too many approvers")
    else Ok (PolOneOf deduped).

Definition policy_kind (p : ApproverPolicy) : ApproverKind :=
  match p with PolAnyone => AKAnyone | PolColleague _ => AKColleague | PolOneOf _ => AKOneOf end.
Definition pinned (p : ApproverPolicy) : option ColleagueId :=
  match p with PolColleague c => Some c | _ => None end.
Definition members (p : ApproverPolicy) : list ColleagueId :=
  match p with PolOneOf set => set | _ => [] end.

Definition policy_allows (kind : ApproverKind) (pin : option ColleagueId)
    (one_of : list ColleagueId) (clicker : ColleagueId) : bool :=
  match kind with
  | AKAnyone => true
  | AKColleague => bool_decide (pin = Some clicker)
  | AKOneOf => bool_decide (clicker ∈ one_of)
  end.

Inductive Verdict := VApproved | VDenied.
Definition verdict_status (d : Verdict) : ApprovalStatus :=
  match d with VApproved => ApApproved | VDenied => ApDenied end.
Definition verdict_tag (d : Verdict) : str :=
  match d with VApproved => lit "a" | VDenied => lit "d" end.
Definition verdict_from_tag (tag : str) : option Verdict :=
  if bool_decide (tag = lit "a") then Some VApproved
  else if bool_decide (tag = lit "d") then Some VDenied else None.

Inductive PlatformTarget :=
| TWeb
| TDiscord (application_id container_id : str) (reply_to : option str)
| TLark (app_id chat_id : str) (reply_to : option str).
Definition target_platform (t : PlatformTarget) : Platform :=
  match t with TWeb => PWeb | TDiscord _ _ _ => PDiscord | TLark _ _ _ => PLark end.
Definition target_columns (t : PlatformTarget) : option str * option str * option str :=
  match t with
  | TWeb => (None, None, None)
  | TDiscord app container reply | TLark app container reply => (Some app, Some container, reply)
  end.

(** ** The table

    A row holds the columns; [ApprovalRecord] is what [record_from_row] makes of
    them.  Status, kind and platform columns carry a CHECK with exactly the labels
    of the enum, so they are enums here. *)

Record ApprovalRow := mkApprovalRow {
  ap_id : ApprovalId;
  ap_org_id : OrgId;
  ap_thread_id : ThreadId;
  ap_requesting_agent_id : AgentId;
  ap_requesting_colleague_id : ColleagueId;
  ap_root_request_id : PromptRequestId;
  ap_action_summary : str;
  ap_gated_tool : str;
  ap_approver_kind : ApproverKind;
  ap_approver_colleague : option ColleagueId;
  ap_status : ApprovalStatus;
  ap_platform : Platform;
  ap_platform_columns : option str * option str * option str;
  ap_platform_message_id : option str;
  ap_idempotency_key : str;
  ap_decided_by_colleague : option ColleagueId;
  ap_decided_at : option Z;
  ap_expires_at : Z;
  ap_created_at : Z }.
#[export] Instance ApprovalRow_eq_dec : EqDecision ApprovalRow.
Proof. solve_decision. Defined.

Record ApprovalRecord := mkApprovalRecord {
  ar_id : ApprovalId;
  ar_org_id : OrgId;
  ar_thread_id : ThreadId;
  ar_requesting_agent_id : AgentId;
  ar_requesting_colleague_id : ColleagueId;
  ar_root_request_id : PromptRequestId;
  ar_action_summary : ActionSummary;
  ar_gated_tool : ToolName;
  ar_approver_kind : ApproverKind;
  ar_approver_colleague : option ColleagueId;
  ar_status : ApprovalStatus;
  ar_platform : Platform;
  ar_platform_columns : option str * option str * option str;
  ar_platform_message_id : option PlatformMessageId;
  ar_decided_by_colleague : option ColleagueId;
  ar_decided_at : option Z;
  ar_expires_at : Z;
  ar_created_at : Z }.

Record NewApproval := mkNewApproval {
  na_id : ApprovalId;
  na_thread_id : ThreadId;
  na_requesting_agent_id : AgentId;
  na_requesting_colleague_id : ColleagueId;
  na_root_request_id : PromptRequestId;
  na_action_summary : ActionSummary;
  na_gated_tool : ToolName;
  na_approvers : ApproverPolicy;
  na_target : PlatformTarget;
  na_idempotency_key : str;
  na_expires_at : Z }.

Record GatedTool := mkGatedTool {
  gt_agent_id : AgentId; gt_tool_name : str; gt_org_id : OrgId; gt_created_at : Z }.

(** [a_members] is what row-level security asks. *)
Record approvals := mkApprovals {
  pending_approval : list ApprovalRow;
  pending_approval_approvers : list (ApprovalId * ColleagueId * OrgId);
  agent_gated_tools : list GatedTool;
  a_members : list (UserId * OrgId) }.

Definition set_rows (t : list ApprovalRow) (s : approvals) : approvals :=
  mkApprovals t (pending_approval_approvers s) (agent_gated_tools s) (a_members s).
Definition set_approvers (t : list (ApprovalId * ColleagueId * OrgId)) (s : approvals) : approvals :=
  mkApprovals (pending_approval s) t (agent_gated_tools s) (a_members s).
Definition set_gates (t : list GatedTool) (s : approvals) : approvals :=
  mkApprovals (pending_approval s) (pending_approval_approvers s) t (a_members s).

Definition a_member (s : approvals) (u : UserId) (o : OrgId) : bool :=
  bool_decide ((u, o) ∈ a_members s).

Abbreviation ATx := (Tx approvals ApprovalError).

Definition record_from_row (r : ApprovalRow) : res ApprovalError ApprovalRecord :=
  summary <-? res_map_err ApprovalParse (ActionSummary_try_from (ap_action_summary r)) ;
  tool <-? res_map_err ApprovalParse (ToolName_try_from (ap_gated_tool r)) ;
  message <-? match ap_platform_message_id r with
              | None => Ok None
              | Some m => res_map_err ApprovalParse (m <-? PlatformMessageId_try_from m ; Ok (Some m))
              end ;
  Ok (mkApprovalRecord (ap_id r) (ap_org_id r) (ap_thread_id r) (ap_requesting_agent_id r)
        (ap_requesting_colleague_id r) (ap_root_request_id r) summary tool (ap_approver_kind r)
        (ap_approver_colleague r) (ap_status r) (ap_platform r) (ap_platform_columns r) message
        (ap_decided_by_colleague r) (ap_decided_at r) (ap_expires_at r) (ap_created_at r)).

(** The CHECKs of [pending_approval]. *)
Definition approval_checks (r : ApprovalRow) : bool :=
  (1 <=? str_len (ap_action_summary r)) && (str_len (ap_action_summary r) <=? 2048)
  && (1 <=? str_len (ap_gated_tool r)) && (str_len (ap_gated_tool r) <=? 64)
  && match ap_status r with
     | ApPending | ApExpired =>
         bool_decide (ap_decided_by_colleague r = None) && bool_decide (ap_decided_at r = None)
     | ApApproved | ApDenied =>
         bool_decide (is_Some (ap_decided_by_colleague r)) && bool_decide (is_Some (ap_decided_at r))
     end
  && match ap_approver_kind r with
     | AKColleague => bool_decide (is_Some (ap_approver_colleague r))
     | AKAnyone | AKOneOf => bool_decide (ap_approver_colleague r = None)
     end.

Definition new_row (new : NewApproval) (org : OrgId) (now : Z) : ApprovalRow :=
  mkApprovalRow (na_id new) org (na_thread_id new) (na_requesting_agent_id new)
    (na_requesting_colleague_id new) (na_root_request_id new)
    (ActionSummary_as_str (na_action_summary new)) (ToolName_as_str (na_gated_tool new))
    (policy_kind (na_approvers new)) (pinned (na_approvers new)) ApPending
    (target_platform (na_target new)) (target_columns (na_target new)) None
    (na_idempotency_key new) None None (na_expires_at new) now.

Definition same_idem_key (org : OrgId) (key : str) (r : ApprovalRow) : bool :=
  bool_decide (ap_org_id r = org) && bool_decide (ap_idempotency_key r = key).

(** [INSERT ... ON CONFLICT (org_id, idempotency_key) DO NOTHING RETURNING]; [fk_ok]
    stands for the keys into the tables not modelled here. *)
Definition insert_row (fk_ok : ApprovalRow → bool) (user : UserId) (new : NewApproval)
    (org : OrgId) (now : Z) : ATx (option ApprovalRow) := λ s,
  let r := new_row new org now in
  if negb (a_member s user org) then Err (ApprovalDb "pending_approval_org_isolation")
  else if negb (approval_checks r) then Err (ApprovalDb "check constraint")
  else if existsb (same_idem_key org (na_idempotency_key new)) (pending_approval s)
  then Ok (None, s)
  else if bool_decide (ap_id r ∈ (ap_id <$> pending_approval s))
  then Err (ApprovalDb "pending_approval_pkey")
  else if negb (fk_ok r) then Err (ApprovalDb "foreign key")
  else Ok (Some r, set_rows (pending_approval s ++ [r]) s).

(** [INSERT ... ON CONFLICT DO NOTHING] for each member of the whitelist. *)
Fixpoint insert_approvers (fk_col : ColleagueId → bool) (id : ApprovalId)
    (colleagues : list ColleagueId) (org : OrgId) : ATx unit :=
  match colleagues with
  | [] => tret tt
  | c :: colleagues' =>
      (λ s, if bool_decide ((id, c) ∈ (λ r, r.1) <$> pending_approval_approvers s)
            then Ok (tt, s)
            else if negb (fk_col c) then Err (ApprovalDb "foreign key")
            else Ok (tt, set_approvers (pending_approval_approvers s ++ [(id, c, org)]) s)) ;;$
      insert_approvers fk_col id colleagues' org
  end.

Inductive CreateOutcome := Created (r : ApprovalRecord) | Existing (r : ApprovalRecord).
Definition create_record (o : CreateOutcome) : ApprovalRecord :=
  match o with Created r | Existing r => r end.

Definition create_tx (fk_ok : ApprovalRow → bool) (fk_col : ColleagueId → bool)
    (caller : Caller) (new : NewApproval) (now : Z) : ATx CreateOutcome :=
  inserted <-$ insert_row fk_ok (user_id caller) new (org_id caller) now ;
  match inserted with
  | Some row =>
      insert_approvers fk_col (na_id new) (members (na_approvers new)) (org_id caller) ;;$
      record <-$ tlift (record_from_row row) ; tret (Created record)
  | None =>
      row <-$ tget (λ s, List.find (λ r, same_idem_key (org_id caller) (na_idempotency_key new) r
                                         && a_member s (user_id caller) (ap_org_id r))
                           (pending_approval s)) ;
      row <-$ tlift (ok_or row ApprovalNotFound) ;
      record <-$ tlift (record_from_row row) ; tret (Existing record)
  end.

Definition create fk_ok fk_col caller new now (s : approvals) : res ApprovalError CreateOutcome * approvals :=
  trun (create_tx fk_ok fk_col caller new now) s.

Definition set_message (m : PlatformMessageId) (r : ApprovalRow) : ApprovalRow :=
  mkApprovalRow (ap_id r) (ap_org_id r) (ap_thread_id r) (ap_requesting_agent_id r)
    (ap_requesting_colleague_id r) (ap_root_request_id r) (ap_action_summary r) (ap_gated_tool r)
    (ap_approver_kind r) (ap_approver_colleague r) (ap_status r) (ap_platform r)
    (ap_platform_columns r) (Some (PlatformMessageId_as_str m)) (ap_idempotency_key r)
    (ap_decided_by_colleague r) (ap_decided_at r) (ap_expires_at r) (ap_created_at r).

(** [WHERE id = $2 AND org_id = $3], of the rows the user may see. *)
Definition attach_message (caller : Caller) (id : ApprovalId) (m : PlatformMessageId)
    (s : approvals) : res ApprovalError unit * approvals :=
  trun (
    let P r := ap_id r = id ∧ ap_org_id r = org_id caller
               ∧ a_member s (user_id caller) (ap_org_id r) = true in
    affected <-$ tget (λ s, length (filter P (pending_approval s))) ;
    tmod (λ s, set_rows (update_where P (set_message m) (pending_approval s)) s) ;;$
    tguard (negb (affected =? 0)) ApprovalNotFound) s.

Definition row_by_id (org : OrgId) (id : ApprovalId) (s : approvals) : option ApprovalRow :=
  List.find (λ r, bool_decide (ap_id r = id) && bool_decide (ap_org_id r = org)) (pending_approval s).

Definition read (org : OrgId) (id : ApprovalId) (s : approvals) : res ApprovalError ApprovalRecord :=
  row <-? ok_or (row_by_id org id s) ApprovalNotFound ;
  record_from_row row.

Inductive DecideOutcome := Decided (r : ApprovalRecord) | AlreadyDecided (r : ApprovalRecord).
Definition decide_record (o : DecideOutcome) : ApprovalRecord :=
  match o with Decided r | AlreadyDecided r => r end.

Definition decide_row (status : ApprovalStatus) (clicker : ColleagueId) (now : Z)
    (r : ApprovalRow) : ApprovalRow :=
  mkApprovalRow (ap_id r) (ap_org_id r) (ap_thread_id r) (ap_requesting_agent_id r)
    (ap_requesting_colleague_id r) (ap_root_request_id r) (ap_action_summary r) (ap_gated_tool r)
    (ap_approver_kind r) (ap_approver_colleague r) status (ap_platform r)
    (ap_platform_columns r) (ap_platform_message_id r) (ap_idempotency_key r)
    (Some clicker) (Some now) (ap_expires_at r) (ap_created_at r).

(** [select_approver_ids] *)
Definition approver_ids (id : ApprovalId) (s : approvals) : list ColleagueId :=
  (λ r, r.1.2) <$> filter (λ r, r.1.1 = id) (pending_approval_approvers s).

(** The row is locked from the first read, so the transaction is one step. *)
Definition decide_tx (org : OrgId) (id : ApprovalId) (decision : Verdict)
    (clicker : ColleagueId) (now : Z) : ATx DecideOutcome :=
  row <-$ tget (row_by_id org id) ;
  row <-$ tlift (ok_or row ApprovalNotFound) ;
  record <-$ tlift (record_from_row row) ;
  match ar_status record with
  | ApApproved | ApDenied => tret (AlreadyDecided record)
  | ApExpired => terr ApprovalExpired
  | ApPending =>
      tguard (negb (ar_expires_at record <=? now)%Z) ApprovalExpired ;;$
      one_of <-$ tget (λ s, if bool_decide (ar_approver_kind record = AKOneOf)
                            then approver_ids id s else []) ;
      tguard (policy_allows (ar_approver_kind record) (ar_approver_colleague record) one_of clicker)
        Unauthorized ;;$
      let P r := ap_id r = id ∧ ap_org_id r = org ∧ ap_status r = ApPending in
      let updated := decide_row (verdict_status decision) clicker now row in
      tmod (λ s, set_rows (update_where P (decide_row (verdict_status decision) clicker now)
                             (pending_approval s)) s) ;;$
      record <-$ tlift (record_from_row updated) ; tret (Decided record)
  end.

Definition decide_approval (org : OrgId) (id : ApprovalId) (decision : Verdict)
    (clicker : ColleagueId) (now : Z) (s : approvals) : res ApprovalError DecideOutcome * approvals :=
  trun (decide_tx org id decision clicker now) s.

Definition expire_row (r : ApprovalRow) : ApprovalRow :=
  mkApprovalRow (ap_id r) (ap_org_id r) (ap_thread_id r) (ap_requesting_agent_id r)
    (ap_requesting_colleague_id r) (ap_root_request_id r) (ap_action_summary r) (ap_gated_tool r)
    (ap_approver_kind r) (ap_approver_colleague r) ApExpired (ap_platform r)
    (ap_platform_columns r) (ap_platform_message_id r) (ap_idempotency_key r)
    (ap_decided_by_colleague r) (ap_decided_at r) (ap_expires_at r) (ap_created_at r).

Definition due (now : Z) (r : ApprovalRow) : Prop := ap_status r = ApPending ∧ (ap_expires_at r <= now)%Z.
#[export] Instance due_dec now r : Decision (due now r).
Proof. unfold due. apply _. Defined.

(** [ORDER BY expires_at LIMIT 256 FOR UPDATE SKIP LOCKED]; [locked] rows are those a
    concurrent decision holds. *)
Definition sweep_batch (locked : ApprovalId → bool) (now : Z) (s : approvals) : list ApprovalId :=
  ap_id <$> take APPROVAL_SWEEP_BATCH
    (sort_by ap_expires_at (filter (λ r, due now r ∧ locked (ap_id r) = false) (pending_approval s))).

Definition expire_due (locked : ApprovalId → bool) (now : Z) (s : approvals)
    : res ApprovalError nat * approvals :=
  let batch := sweep_batch locked now s in
  let P r := ap_id r ∈ batch in
  (Ok (length (filter P (pending_approval s))),
   set_rows (update_where P expire_row (pending_approval s)) s).

Definition has_approved_for_dag (org : OrgId) (root : PromptRequestId) (tool : ToolName)
    (s : approvals) : bool :=
  existsb (λ r, bool_decide (ap_root_request_id r = root) && bool_decide (ap_org_id r = org)
                && bool_decide (ap_status r = ApApproved)
                && bool_decide (ap_gated_tool r = ToolName_as_str tool)) (pending_approval s).

(** ** Gated tools ([approvals/config.rs]) *)

Definition is_gated (org : OrgId) (agent : AgentId) (tool : ToolName) (s : approvals) : bool :=
  existsb (λ g, bool_decide (gt_agent_id g = agent) && bool_decide (gt_org_id g = org)
                && bool_decide (gt_tool_name g = ToolName_as_str tool)) (agent_gated_tools s).

Definition set_gated (fk_ok : bool) (caller : Caller) (agent : AgentId) (tool : ToolName) (now : Z)
    (s : approvals) : res ApprovalError unit * approvals :=
  trun (λ s,
    if negb (a_member s (user_id caller) (org_id caller))
    then Err (ApprovalDb "agent_gated_tools_org_isolation")
    else if existsb (λ g, bool_decide (gt_agent_id g = agent)
                          && bool_decide (gt_tool_name g = ToolName_as_str tool)) (agent_gated_tools s)
    then Ok (tt, s)
    else if negb fk_ok then Err (ApprovalDb "foreign key")
    else Ok (tt, set_gates (agent_gated_tools s
                            ++ [mkGatedTool agent (ToolName_as_str tool) (org_id caller) now]) s)) s.

Definition unset_gated (caller : Caller) (agent : AgentId) (tool : ToolName) (s : approvals)
    : res ApprovalError unit * approvals :=
  (Ok tt,
   set_gates (filter (λ g, ¬ (gt_agent_id g = agent ∧ gt_tool_name g = ToolName_as_str tool
                              ∧ gt_org_id g = org_id caller
                              ∧ a_member s (user_id caller) (gt_org_id g) = true))
                (agent_gated_tools s)) s).

(** ** The hard gate ([approvals/gate.rs]) *)

Inductive GateOutcome := Allowed | Blocked (message : str).

Definition blocked_message (tool : ToolName) : str :=
  lit "`" ++ ToolName_as_str tool
  ++ lit "` is an approval-gated action. Call `ask_approval` with `gated_tool` set to `"
  ++ ToolName_as_str tool
  ++ lit "`, wait for a human to approve, then retry "
  ++ [0x2014%N] ++ lit " it cannot run without an approved decision in this conversation.".

(** What each of the two reads answers: the table, or a failure of the store. *)
Record GateReads := mkGateReads { gr_config : option ApprovalError; gr_approvals : option ApprovalError }.

(** The two reads are separate transactions: [s1] and [s2] are what they see. *)
Definition check (reads : GateReads) (org : OrgId) (agent : AgentId) (root : PromptRequestId)
    (tool : ToolName) (s1 s2 : approvals) : GateOutcome :=
  match gr_config reads with
  | Some _ => Blocked (blocked_message tool)
  | None =>
      if negb (is_gated org agent tool s1) then Allowed
      else match gr_approvals reads with
      | Some _ => Blocked (blocked_message tool)
      | None => if has_approved_for_dag org root tool s2 then Allowed
                else Blocked (blocked_message tool)
      end
  end.
