(* ===== verification/ApprovalLaws.v ===== *)
(** * What the approval store promises

    The approval tables as a transition system: any number of processes create,
    decide, sweep and reconfigure in any order.  Every approved row was decided
    once, in time, by somebody its policy allows. *)

From Stdlib Require Import ZArith Lia Ascii String.
From stdpp Require Import base gmap list strings sets relations.
From S2P Require Import Prelude Program Types Threads Approvals.

(** ** The transition system *)

Inductive astep : approvals → approvals → Prop :=
| step_create fk_ok fk_col caller new now s :
    astep s (create fk_ok fk_col caller new now s).2
| step_attach caller id m s : astep s (attach_message caller id m s).2
| step_decide org id d clicker now s : astep s (decide_approval org id d clicker now s).2
| step_sweep locked now s : astep s (expire_due locked now s).2
| step_gate fk_ok caller agent tool now s : astep s (set_gated fk_ok caller agent tool now s).2
| step_ungate caller agent tool s : astep s (unset_gated caller agent tool s).2
| step_members ms s :
    astep s (mkApprovals (pending_approval s) (pending_approval_approvers s) (agent_gated_tools s) ms)
| step_scan_order rows s : rows ≡ₚ pending_approval s → astep s (set_rows rows s).

Definition a_initial (s : approvals) : Prop :=
  pending_approval s = [] ∧ pending_approval_approvers s = [].
Definition a_reachable (s : approvals) : Prop := ∃ s0, a_initial s0 ∧ rtc astep s0 s.

(** ** One row *)

(** Columns no operation writes after the insert. *)
Definition fixed (r : ApprovalRow) :=
  (ap_id r, ap_org_id r, ap_thread_id r, ap_requesting_agent_id r, ap_requesting_colleague_id r,
   ap_root_request_id r, ap_action_summary r, ap_gated_tool r,
   (ap_approver_kind r, ap_approver_colleague r, ap_platform r, ap_platform_columns r,
    ap_idempotency_key r, ap_expires_at r, ap_created_at r)).

Definition authorised (ids : list ColleagueId) (r : ApprovalRow) : Prop :=
  ∃ c t, ap_decided_by_colleague r = Some c ∧ ap_decided_at r = Some t ∧ (t < ap_expires_at r)%Z
    ∧ policy_allows (ap_approver_kind r) (ap_approver_colleague r) ids c = true.

Definition row_ok (ids : list ColleagueId) (r : ApprovalRow) : Prop :=
  match ap_status r with
  | ApPending | ApExpired => ap_decided_by_colleague r = None ∧ ap_decided_at r = None
  | ApApproved | ApDenied => authorised ids r
  end.

(** How a row may change in one step; [ids] is its whitelist. *)
Inductive row_move (ids : list ColleagueId) (r : ApprovalRow) : ApprovalRow → Prop :=
| rm_same : row_move ids r r
| rm_message m : row_move ids r (set_message m r)
| rm_expire now : due now r → row_move ids r (expire_row r)
| rm_decide d c now :
    ap_status r = ApPending → (now < ap_expires_at r)%Z →
    policy_allows (ap_approver_kind r) (ap_approver_colleague r) ids c = true →
    row_move ids r (decide_row (verdict_status d) c now r).

Lemma row_move_fixed ids r r' : row_move ids r r' → fixed r' = fixed r.
Proof. by destruct 1. Qed.
Lemma row_move_ok ids r r' : row_move ids r r' → row_ok ids r → row_ok ids r'.
Proof.
  destruct 1 as [|m|now [Hp Hd]|d c now Hp Ht Ha]; unfold row_ok; cbn; [done|done|by rewrite Hp|].
  rewrite Hp. intros _. destruct d; cbn; exists c, now; naive_solver.
Qed.
Lemma row_move_status ids r r' :
  row_move ids r r' → ap_status r' = ap_status r ∨ ap_status r = ApPending.
Proof. destruct 1 as [|m|now [Hp Hd]|d c now Hp Ht Ha]; naive_solver. Qed.

(** ** The invariant *)

Record a_inv (s : approvals) : Prop := {
  ai_ids : NoDup (ap_id <$> pending_approval s);
  ai_keys : NoDup ((λ r, (ap_org_id r, ap_idempotency_key r)) <$> pending_approval s);
  ai_rows : ∀ r, r ∈ pending_approval s → row_ok (approver_ids (ap_id r) s) r;
  ai_fk : ∀ id c o, (id, c, o) ∈ pending_approval_approvers s → id ∈ (ap_id <$> pending_approval s) }.

(** Every row of [t] moves to a row of [t'], whose other rows are new. *)
Definition evolves (ids : ApprovalId → list ColleagueId) (t t' : list ApprovalRow) : Prop :=
  (∀ r, r ∈ t → ∃ r', r' ∈ t' ∧ row_move (ids (ap_id r)) r r').

Lemma update_evolves (P : ApprovalRow → Prop) `{∀ r, Decision (P r)} f t ids :
  (∀ r, r ∈ t → P r → row_move (ids (ap_id r)) r (f r)) → evolves ids t (update_where P f t).
Proof.
  intros Hf r Hr. exists (if decide (P r) then f r else r). split.
  - apply elem_of_update_where. eauto.
  - case_decide; [by apply Hf|apply rm_same].
Qed.

(** An update that moves rows keeps the invariant. *)
Lemma update_inv P `{∀ r, Decision (P r)} f s :
  a_inv s → (∀ r, r ∈ pending_approval s → P r → row_move (approver_ids (ap_id r) s) r (f r)) →
  a_inv (set_rows (update_where P f (pending_approval s)) s).
Proof.
  intros [Hid Hk Hr Hfk] Hf.
  assert (∀ {B} (g : ApprovalRow → B), (∀ ids r r', row_move ids r r' → g r' = g r) →
    g <$> update_where P f (pending_approval s) = g <$> pending_approval s) as Hg.
  { intros B g Hg. apply update_where_fmap. intros r Hin HP. eapply Hg. by apply Hf. }
  assert (∀ ids r r', row_move ids r r' → ap_id r' = ap_id r) as Hmid by (by destruct 1).
  constructor; cbn.
  - rewrite (Hg _ ap_id); [done|]. exact Hmid.
  - rewrite (Hg _ (λ r, (ap_org_id r, ap_idempotency_key r))); [done|]. by destruct 1.
  - intros r' (r & Hin & ->)%elem_of_update_where. case_decide; [|by apply Hr].
    rewrite (Hmid _ _ _ (Hf r Hin H0)). eapply row_move_ok; [by apply Hf|]. by apply Hr.
  - intros id c o Hc. rewrite (Hg _ ap_id); [|exact Hmid]. by eapply Hfk.
Qed.

Lemma approver_ids_app id t s :
  approver_ids id (set_approvers (pending_approval_approvers s ++ t) s)
  = approver_ids id s ++ ((λ r, r.1.2) <$> filter (λ r, r.1.1 = id) t).
Proof. unfold approver_ids. cbn. by rewrite filter_app, fmap_app. Qed.

(** What the whitelist insert leaves: the rows of the new approval, and no others. *)
Lemma insert_approvers_ok fk id cs org s s' :
  insert_approvers fk id cs org s = Ok (tt, s') →
  pending_approval s' = pending_approval s ∧ agent_gated_tools s' = agent_gated_tools s
  ∧ a_members s' = a_members s
  ∧ (∀ id', id' ≠ id → approver_ids id' s' = approver_ids id' s)
  ∧ (∀ c, c ∈ approver_ids id s' ↔ c ∈ approver_ids id s ∨ c ∈ cs)
  ∧ (∀ i c o, (i, c, o) ∈ pending_approval_approvers s' →
       i = id ∨ (i, c, o) ∈ pending_approval_approvers s).
Proof.
  revert s. induction cs as [|c cs IH]; intros s H; cbn [insert_approvers] in H.
  { tx_inv. split_and!; [done..| |]; [set_solver|auto]. }
  apply tbind_Ok in H as ([] & s0 & H0 & H). apply IH in H as (H1 & H2 & H3 & H4 & H5 & H6).
  destruct (bool_decide _) eqn:Hin; [|destruct (negb _); [done|]]; injection H0 as <-.
  - split_and!; [done..|set_solver| |done]. intros x. rewrite H5.
    apply bool_decide_eq_true, list_elem_of_fmap in Hin as ([[i c'] o] & Hic & Hin).
    cbn in Hic. injection Hic as -> ->.
    assert (c' ∈ approver_ids i s) as Hc.
    { apply list_elem_of_fmap. exists (i, c', o). split; [done|].
      apply list_elem_of_filter. done. }
    set_solver.
  - split_and!; [done..| | |].
    + intros i Hi. rewrite H4 by done. rewrite approver_ids_app.
      rewrite filter_cons_False by (cbn; congruence). by rewrite app_nil_r.
    + intros x. rewrite H5, approver_ids_app. rewrite filter_cons_True by done. cbn. set_solver.
    + intros i c' o Hi. apply H6 in Hi as [->|Hi]; [by left|].
      apply elem_of_app in Hi as [Hi|Hi%list_elem_of_singleton]; [by right|].
      left. by injection Hi.
Qed.

(** What the insert of [create] leaves. *)
Lemma insert_row_ok fk user new org now s o s' :
  insert_row fk user new org now s = Ok (o, s') →
  (o = None ∧ s' = s) ∨
  (o = Some (new_row new org now) ∧ s' = set_rows (pending_approval s ++ [new_row new org now]) s
   ∧ na_id new ∉ (ap_id <$> pending_approval s)
   ∧ (∀ r, r ∈ pending_approval s → same_idem_key org (na_idempotency_key new) r = false)).
Proof.
  unfold insert_row. intros H. destruct (negb _); [done|]. destruct (negb _); [done|].
  destruct (existsb _ _) eqn:Ek; [injection H as <- <-; by left|].
  destruct (bool_decide _) eqn:Eid; [done|]. destruct (negb _); [done|].
  injection H as <- <-. right. bools. split_and!; [done..|].
  intros r Hr. destruct (same_idem_key org (na_idempotency_key new) r) eqn:E; [|done].
  rewrite <-Ek. symmetry. apply existsb_exists. exists r. split; [by apply list_elem_of_In|done].
Qed.

(** [create] adds at most the one row, with its whitelist. *)
Lemma create_ok fk fkc caller new now s o s' :
  create_tx fk fkc caller new now s = Ok (o, s') →
  (∃ r, o = Existing r ∧ s' = s) ∨
  (∃ r, o = Created r ∧ record_from_row (new_row new (org_id caller) now) = Ok r
   ∧ pending_approval s' = pending_approval s ++ [new_row new (org_id caller) now]
   ∧ agent_gated_tools s' = agent_gated_tools s ∧ a_members s' = a_members s
   ∧ na_id new ∉ (ap_id <$> pending_approval s)
   ∧ (∀ x, x ∈ pending_approval s → same_idem_key (org_id caller) (na_idempotency_key new) x = false)
   ∧ (∀ id, id ≠ na_id new → approver_ids id s' = approver_ids id s)
   ∧ (∀ c, c ∈ approver_ids (na_id new) s' ↔
        c ∈ approver_ids (na_id new) s ∨ c ∈ members (na_approvers new))
   ∧ (∀ i c o, (i, c, o) ∈ pending_approval_approvers s' →
        i = na_id new ∨ (i, c, o) ∈ pending_approval_approvers s)).
Proof.
  unfold create_tx. intros H. apply tbind_Ok in H as (ins & s0 & Hi & H).
  apply insert_row_ok in Hi as [[-> ->]|(-> & -> & Hid & Hk)].
  - apply tbind_Ok in H as (row & s1 & Hg & H). unfold tget in Hg. injection Hg as <- <-.
    tx_inv. left. eauto.
  - apply tbind_Ok in H as ([] & s1 & Ha & H). apply insert_approvers_ok in Ha as (H1 & H2 & H3 & H4 & H5 & H6).
    apply tbind_Ok in H as (rec & s2 & Hr & H). unfold tlift in Hr.
    destruct (record_from_row _) as [rec'| |] eqn:Er; [|done..]. cbn in Hr. injection Hr as -> ->.
    unfold tret in H. injection H as <- <-. right. exists rec. split_and!; try done.
Qed.

Lemma create_inv fk fkc caller new now s : a_inv s → a_inv (create fk fkc caller new now s).2.
Proof.
  intros Hi. unfold create. apply (trun_keeps a_inv); [done|]. intros o s' H.
  apply create_ok in H as [(r & -> & ->)|(r & -> & Hrec & Hrows & Hg & Hm & Hid & Hk & Hother & Hown & Hfk)];
    [done|].
  destruct Hi as [I1 I2 I3 I4]. constructor; rewrite ?Hrows.
  - rewrite fmap_app, NoDup_app. split_and!; [done| |apply NoDup_singleton].
    intros x Hx ->%list_elem_of_singleton. done.
  - rewrite fmap_app, NoDup_app. split_and!; [done| |apply NoDup_singleton].
    intros x (y & -> & Hy)%list_elem_of_fmap Hx%list_elem_of_singleton.
    apply Hk in Hy. unfold same_idem_key in Hy. cbn in Hx. injection Hx as Ho Hkey.
    rewrite Ho, Hkey in Hy. by rewrite !bool_decide_true in Hy.
  - intros x [Hx| ->%list_elem_of_singleton]%elem_of_app; [|done].
    rewrite Hother; [by apply I3|]. intros He. apply Hid. rewrite <-He. apply list_elem_of_fmap. eauto.
  - intros i c o [->|Hi]%Hfk; rewrite fmap_app; [set_solver|]. apply I4 in Hi. set_solver.
Qed.

Lemma find_by_id id org s r :
  row_by_id org id s = Some r → r ∈ pending_approval s ∧ ap_id r = id ∧ ap_org_id r = org.
Proof.
  unfold row_by_id. intros [Hin Hb]%List.find_some. apply list_elem_of_In in Hin. by bools.
Qed.

Lemma record_from_row_fields r rec :
  record_from_row r = Ok rec →
  ar_id rec = ap_id r ∧ ar_org_id rec = ap_org_id r ∧ ar_status rec = ap_status r
  ∧ ar_expires_at rec = ap_expires_at r ∧ ar_approver_kind rec = ap_approver_kind r
  ∧ ar_approver_colleague rec = ap_approver_colleague r
  ∧ ar_decided_by_colleague rec = ap_decided_by_colleague r ∧ ar_decided_at rec = ap_decided_at r.
Proof. unfold record_from_row. intros H. res_inv. done. Qed.

(** The effect of a decision that went through. *)
Definition decision_effect (org : OrgId) (id : ApprovalId) (d : Verdict) (c : ColleagueId) (now : Z)
    (s : approvals) : approvals :=
  set_rows (update_where (λ r, ap_id r = id ∧ ap_org_id r = org ∧ ap_status r = ApPending)
              (decide_row (verdict_status d) c now) (pending_approval s)) s.

Definition decidable (s : approvals) (r : ApprovalRow) (c : ColleagueId) (now : Z) : Prop :=
  ap_status r = ApPending ∧ (now < ap_expires_at r)%Z
  ∧ policy_allows (ap_approver_kind r) (ap_approver_colleague r)
      (if bool_decide (ap_approver_kind r = AKOneOf) then approver_ids (ap_id r) s else []) c = true.

Lemma policy_allows_ids k p ids c :
  policy_allows k p (if bool_decide (k = AKOneOf) then ids else []) c = policy_allows k p ids c.
Proof. by destruct k. Qed.

Lemma decide_ok org id d c now s o s' :
  decide_tx org id d c now s = Ok (o, s') →
  ∃ r rec, row_by_id org id s = Some r ∧ record_from_row r = Ok rec ∧
    ((o = AlreadyDecided rec ∧ s' = s ∧ (ap_status r = ApApproved ∨ ap_status r = ApDenied)) ∨
     (decidable s r c now ∧ s' = decision_effect org id d c now s ∧
      ∃ rec', o = Decided rec' ∧ record_from_row (decide_row (verdict_status d) c now r) = Ok rec')).
Proof.
  unfold decide_tx. intros H. apply tbind_Ok in H as (row & s0 & Hg & H).
  unfold tget in Hg. injection Hg as <- <-.
  destruct (row_by_id org id s) as [r|] eqn:Er; [|by tx_inv].
  apply tbind_Ok in H as (r' & s0 & Hr & H). cbn in Hr. unfold tlift in Hr. cbn in Hr. injection Hr as <- <-.
  apply tbind_Ok in H as (rec & s0 & Hrec & H). unfold tlift in Hrec.
  destruct (record_from_row r) as [rec0| |] eqn:Erec; [|done..]. cbn in Hrec. injection Hrec as -> <-.
  exists r, rec. split; [done|]. split; [done|].
  apply record_from_row_fields in Erec as (E1 & E2 & E3 & E4 & E5 & E6 & _).
  rewrite E3, E4, E5, E6 in H. destruct (ap_status r) eqn:Es.
  2,3: (left; unfold tret in H; injection H as <- <-; eauto).
  2: done.
  right. apply tbind_Ok in H as ([] & s1 & Hx & H). unfold tguard in Hx.
  destruct (negb _) eqn:Ex; [|done]. unfold tret in Hx. injection Hx as <-.
  apply tbind_Ok in H as (ids & s1 & Hg & H). unfold tget in Hg. injection Hg as <- <-.
  apply tbind_Ok in H as ([] & s1 & Hx & H). unfold tguard in Hx.
  destruct (policy_allows _ _ _ _) eqn:Ep; [|done]. unfold tret in Hx. injection Hx as <-.
  apply tbind_Ok in H as ([] & s1 & Hm & H). unfold tmod in Hm. injection Hm as <-.
  apply tbind_Ok in H as (rec' & s2 & Hl & H). unfold tlift in Hl.
  destruct (record_from_row (decide_row _ _ _ r)) as [rec1| |] eqn:Erec'; [|done..].
  cbn in Hl. injection Hl as -> <-. unfold tret in H. injection H as <- <-.
  apply find_by_id in Er as (_ & <- & _). bools. unfold decidable. eauto 10.
Qed.

(** Every row the effect touches is decided by its own policy. *)
Lemma decision_effect_moves org id d c now s r :
  a_inv s → row_by_id org id s = Some r → decidable s r c now →
  ∀ x, x ∈ pending_approval s → ap_id x = id ∧ ap_org_id x = org ∧ ap_status x = ApPending →
    row_move (approver_ids (ap_id x) s) x (decide_row (verdict_status d) c now x).
Proof.
  intros Hi Hr (Hp & Ht & Ha) x Hx (Hid & _ & _). apply find_by_id in Hr as (Hr & Hrid & _).
  assert (x = r) as -> by (eapply NoDup_fmap_eq; [by apply ai_ids|..]; congruence).
  rewrite policy_allows_ids in Ha. by apply rm_decide.
Qed.

Lemma sweep_due locked now s id :
  id ∈ sweep_batch locked now s →
  ∃ r, r ∈ pending_approval s ∧ ap_id r = id ∧ due now r ∧ locked id = false.
Proof.
  unfold sweep_batch. intros (r & -> & Hr)%list_elem_of_fmap.
  apply (subseteq_take APPROVAL_SWEEP_BATCH) in Hr. apply elem_of_sort_by, list_elem_of_filter in Hr.
  naive_solver.
Qed.

Lemma sweep_moves locked now s x :
  a_inv s → x ∈ pending_approval s → ap_id x ∈ sweep_batch locked now s →
  row_move (approver_ids (ap_id x) s) x (expire_row x).
Proof.
  intros Hi Hx (r & Hr & Hid & Hd & _)%sweep_due.
  assert (r = x) as -> by (eapply NoDup_fmap_eq; [by apply ai_ids|..]; done).
  by apply (rm_expire _ _ now).
Qed.

(** ** Every step keeps the invariant and moves rows forward *)

Definition kept (s s' : approvals) : Prop :=
  a_inv s' ∧ evolves (λ id, approver_ids id s) (pending_approval s) (pending_approval s') ∧
  (∀ id, id ∈ (ap_id <$> pending_approval s) → approver_ids id s' = approver_ids id s).

Lemma kept_same_rows s s' :
  a_inv s → pending_approval s' = pending_approval s →
  pending_approval_approvers s' = pending_approval_approvers s → kept s s'.
Proof.
  intros [I1 I2 I3 I4] Hr Ha. split_and!.
  - constructor; unfold approver_ids; rewrite ?Hr, ?Ha; done.
  - intros r Hin. exists r. rewrite Hr. split; [done|apply rm_same].
  - intros id _. unfold approver_ids. by rewrite Ha.
Qed.

Lemma kept_update P `{∀ r, Decision (P r)} f s :
  a_inv s → (∀ r, r ∈ pending_approval s → P r → row_move (approver_ids (ap_id r) s) r (f r)) →
  kept s (set_rows (update_where P f (pending_approval s)) s).
Proof.
  intros Hi Hf. split_and!; [by apply update_inv|by apply update_evolves|done].
Qed.

Lemma kept_trun {A} (m : ATx A) s :
  a_inv s → (∀ a s', m s = Ok (a, s') → kept s s') → kept s (trun m s).2.
Proof. intros Hi Hm. apply trun_keeps; [by apply kept_same_rows|done]. Qed.

Lemma create_kept fk fkc caller new now s : a_inv s → kept s (create fk fkc caller new now s).2.
Proof.
  intros Hi. pose proof (create_inv fk fkc caller new now s Hi) as Hinv. unfold create in *.
  destruct (create_tx fk fkc caller new now s) as [[o s']|e|p] eqn:E.
  2,3: (unfold trun in *; rewrite E; by apply kept_same_rows).
  unfold trun in *. rewrite E in *. cbn in *.
  apply create_ok in E as [(r & -> & ->)|(r & -> & Hrec & Hrows & _ & _ & Hid & _ & Hother & _)];
    [by apply kept_same_rows|].
  split_and!; [done| |].
  - intros x Hx. exists x. rewrite Hrows. split; [set_solver|apply rm_same].
  - intros id Hin. apply Hother. set_solver.
Qed.

Lemma astep_kept s s' : a_inv s → astep s s' → kept s s'.
Proof.
  intros Hi Hstep. destruct Hstep as [fk fkc caller new now s|caller id m s|org id d c now s
    |locked now s|fk caller agent tool now s|caller agent tool s|ms s|rows s Hperm].
  - by apply create_kept.
  - apply kept_trun; [done|]. intros [] s' H.
    apply tbind_Ok in H as (n & s1 & Hg & H). unfold tget in Hg. injection Hg as <- <-.
    apply tbind_Ok in H as ([] & s1 & Hm & H). unfold tmod in Hm. injection Hm as <-.
    unfold tguard in H. destruct (negb _); [|done]. unfold tret in H. injection H as <-.
    apply kept_update; [done|]. intros r _ _. apply rm_message.
  - apply kept_trun; [done|]. intros o s' H.
    apply decide_ok in H as (r & rec & Hr & _ & [(_ & -> & _)|(Hd & -> & _)]);
      [by apply kept_same_rows|].
    apply kept_update; [done|]. by eapply decision_effect_moves.
  - apply kept_update; [done|]. intros r Hr Hp. by eapply sweep_moves.
  - apply kept_trun; [done|]. intros [] s' H. repeat (destruct (negb _); [done|] || destruct (existsb _ _));
      injection H as <-; by apply kept_same_rows.
  - by apply kept_same_rows.
  - by apply kept_same_rows.
  - destruct Hi as [I1 I2 I3 I4]. split_and!; [constructor; cbn| |done].
    + by rewrite Hperm.
    + by rewrite Hperm.
    + intros r Hr. rewrite Hperm in Hr. by apply I3.
    + intros id c o Hin. rewrite Hperm. by eapply I4.
    + intros r Hr. exists r. cbn. rewrite Hperm. split; [done|apply rm_same].
Qed.

Lemma a_reachable_inv s : a_reachable s → a_inv s.
Proof.
  intros (s0 & [Hr Ha] & Hrtc). assert (a_inv s0) as H0.
  { constructor; rewrite ?Hr, ?Ha; [constructor..| |]; set_solver. }
  clear Hr Ha. induction Hrtc as [|x y z Hxy _ IH]; [done|]. apply IH. by apply astep_kept in Hxy as [].
Qed.

(** ** Theorems *)

(** C30: An approval only moves forward: whatever is done to the tables, a row stays
    in the table with the columns it was created with; once decided or expired its
    status never changes again, and its decision (who and when) stays. *)
Theorem approval_forward_only s s' r :
  a_reachable s → rtc astep s s' → r ∈ pending_approval s →
  ∃ r', r' ∈ pending_approval s' ∧ fixed r' = fixed r ∧
    (ap_status r ≠ ApPending →
       ap_status r' = ap_status r ∧ ap_decided_by_colleague r' = ap_decided_by_colleague r
       ∧ ap_decided_at r' = ap_decided_at r).
Proof.
  intros Hs%a_reachable_inv Hrtc. revert r. induction Hrtc as [s|s s1 s' Hstep _ IH]; intros r Hr; [eauto 10|].
  destruct (astep_kept _ _ Hs Hstep) as (Hs1 & Hev & _). destruct (Hev r Hr) as (r1 & Hr1 & Hmove).
  destruct (IH Hs1 r1 Hr1) as (r' & Hr' & Hf & Hst). exists r'. split; [done|].
  rewrite Hf. split; [by eapply row_move_fixed|]. intros Hp.
  assert (ap_status r1 = ap_status r ∧ ap_decided_by_colleague r1 = ap_decided_by_colleague r
    ∧ ap_decided_at r1 = ap_decided_at r) as (E1 & E2 & E3)
    by (destruct Hmove as [|m|now [? ?]|d c now ? ? ?]; done).
  rewrite <-E1, <-E2, <-E3 in *. by apply Hst.
Qed.

(** The row behind an approved decision. *)
Definition human_approved (s : approvals) (org : OrgId) (root : PromptRequestId) (tool : ToolName) : Prop :=
  ∃ r c t, r ∈ pending_approval s ∧ ap_org_id r = org ∧ ap_root_request_id r = root
    ∧ ap_gated_tool r = ToolName_as_str tool ∧ ap_status r = ApApproved
    ∧ ap_decided_by_colleague r = Some c ∧ ap_decided_at r = Some t ∧ (t < ap_expires_at r)%Z
    ∧ policy_allows (ap_approver_kind r) (ap_approver_colleague r) (approver_ids (ap_id r) s) c = true.

Lemma has_approved_human s org root tool :
  a_reachable s → has_approved_for_dag org root tool s = true → human_approved s org root tool.
Proof.
  intros Hs%a_reachable_inv (r & Hr%list_elem_of_In & Hb)%existsb_exists. bools.
  pose proof (ai_rows _ Hs r Hr) as Hok. unfold row_ok in Hok.
  assert (ap_status r = ApApproved) as Hst by done. rewrite Hst in Hok.
  destruct Hok as (c & t & ? & ? & ? & ?). unfold human_approved. exists r, c, t. by split_and!.
Qed.

(** The hard gate fails closed: it lets a call run only if both reads it needed
    succeeded and either the tool is not gated for the agent, or somebody the
    request's policy allows approved this tool for this conversation tree before the
    request expired. *)
Theorem gate_needs_human reads org agent root tool s1 s2 :
  a_reachable s2 → check reads org agent root tool s1 s2 = Allowed →
  gr_config reads = None ∧
  (is_gated org agent tool s1 = false ∨
   (gr_approvals reads = None ∧ human_approved s2 org root tool)).
Proof.
  intros Hs. unfold check. destruct (gr_config reads); [done|].
  destruct (is_gated _ _ _ _); cbn; [|by auto]. destruct (gr_approvals reads); [done|].
  destruct (has_approved_for_dag _ _ _ _) eqn:E; [|done]. intros _. split; [done|]. right.
  split; [done|]. by apply has_approved_human.
Qed.

(** A decision on every branch: unknown ids, undecodable rows, decided, expired
    and unauthorised requests leave the tables as they were with the error (or the
    first decision) of that case; otherwise exactly the one row is decided. *)
Theorem decide_on_every_branch org id d c now s :
  a_reachable s →
  match row_by_id org id s with
  | None => decide_approval org id d c now s = (Err ApprovalNotFound, s)
  | Some r =>
      match record_from_row r with
      | Ok rec =>
          match ap_status r with
          | ApApproved | ApDenied => decide_approval org id d c now s = (Ok (AlreadyDecided rec), s)
          | ApExpired => decide_approval org id d c now s = (Err ApprovalExpired, s)
          | ApPending =>
              if (ap_expires_at r <=? now)%Z then decide_approval org id d c now s = (Err ApprovalExpired, s)
              else if policy_allows (ap_approver_kind r) (ap_approver_colleague r) (approver_ids id s) c
              then ∃ rec', record_from_row (decide_row (verdict_status d) c now r) = Ok rec' ∧
                     decide_approval org id d c now s
                     = (Ok (Decided rec'),
                        set_rows (update_where (λ x, x = r) (decide_row (verdict_status d) c now)
                                    (pending_approval s)) s)
              else decide_approval org id d c now s = (Err Unauthorized, s)
          end
      | Err e => decide_approval org id d c now s = (Err e, s)
      | Panic p => decide_approval org id d c now s = (Panic p, s)
      end
  end.
Proof.
  intros Hs%a_reachable_inv. unfold decide_approval, decide_tx, trun, tbind, tget, tlift, terr, tret, tguard, tmod.
  cbn. destruct (row_by_id org id s) as [r|] eqn:Er; cbn; [|done].
  destruct (record_from_row r) as [rec| |] eqn:Erec; cbn; [|done..].
  pose proof (record_from_row_fields _ _ Erec) as (E1 & E2 & E3 & E4 & E5 & E6 & _).
  rewrite E3, E4, E5, E6. destruct (ap_status r) eqn:Es; cbn; [|done..].
  destruct (ap_expires_at r <=? now)%Z; cbn; [done|]. rewrite policy_allows_ids.
  destruct (policy_allows _ _ _ _); cbn; [|done].
  assert (∃ rec', record_from_row (decide_row (verdict_status d) c now r) = Ok rec') as [rec' Hrec'].
  { clear - Erec. unfold record_from_row in *. cbn. destruct (res_map_err _ _); [|done..].
    cbn in *. destruct (res_map_err _ _); [|done..]. cbn in *.
    destruct (match ap_platform_message_id r with Some _ => _ | None => _ end); [|done..]. eexists. done. }
  exists rec'. split; [done|]. rewrite Hrec'. cbn. f_equal. unfold set_rows. f_equal.
  apply find_by_id in Er as (Hin & Hid & Ho). apply update_where_ext. intros x Hx.
  split; [|naive_solver]. intros (? & ? & ?).
  eapply NoDup_fmap_eq; [by apply ai_ids|..]; congruence.
Qed.

(** ** The whitelist of a request *)

Lemma elem_of_dedup_first seen ids x :
  x ∈ dedup_first seen ids ↔ x ∈ ids ∧ x ∉ seen.
Proof.
  revert seen. induction ids as [|i ids IH]; intros seen; cbn [dedup_first]; [set_solver|].
  case_decide as Hi; rewrite ?elem_of_cons, IH; [|destruct (decide (x = i))]; set_solver.
Qed.

Lemma NoDup_dedup_first seen ids : NoDup (dedup_first seen ids).
Proof.
  revert seen. induction ids as [|i ids IH]; intros seen; cbn [dedup_first]; [constructor|].
  case_decide; [done|]. constructor; [|done]. rewrite elem_of_dedup_first. set_solver.
Qed.

Lemma dedup_first_sublist seen ids : dedup_first seen ids `sublist_of` ids.
Proof.
  revert seen. induction ids as [|i ids IH]; intros seen; cbn [dedup_first]; [constructor|].
  case_decide; by constructor.
Qed.

(** The approver list of a request, deduplicated: an empty list means anybody;
    otherwise the policy holds each listed colleague once, in the order given, and
    the only refusal is for more than sixteen distinct ones. *)
Theorem from_ids_exact ids :
  match from_ids ids with
  | Ok PolAnyone => ids = []
  | Ok (PolColleague _) => False
  | Ok (PolOneOf l) =>
      ids ≠ [] ∧ NoDup l ∧ l `sublist_of` ids ∧ (∀ c, c ∈ l ↔ c ∈ ids) ∧ 1 ≤ length l ≤ MAX_APPROVERS
  | Err e => MAX_APPROVERS < size (list_to_set ids : gset N)
             ∧ e = OutOfRange "approvers" "too many approvers"
  | Panic _ => False
  end.
Proof.
  unfold from_ids. destruct ids as [|i ids]; [done|]. cbn [is_empty].
  pose proof (elem_of_dedup_first [] (i :: ids)) as Hel.
  pose proof (NoDup_dedup_first [] (i :: ids)) as Hnd.
  destruct (MAX_APPROVERS <? length (dedup_first [] (i :: ids))) eqn:E; bools.
  - split; [|done]. rewrite <-(size_list_to_set (C := gset N)) in E by done.
    eapply Nat.lt_le_trans; [exact E|]. apply subseteq_size. set_solver.
  - split_and!; [done|done|apply dedup_first_sublist|set_solver| |done].
    destruct (dedup_first [] (i :: ids)); [set_solver|cbn; lia].
Qed.

Lemma rtc_astep_kept s s' r :
  a_inv s → rtc astep s s' → r ∈ pending_approval s →
  a_inv s' ∧ ∃ r', r' ∈ pending_approval s' ∧ fixed r' = fixed r
    ∧ approver_ids (ap_id r) s' = approver_ids (ap_id r) s.
Proof.
  intros Hs Hrtc. revert r. induction Hrtc as [s|s s1 s' Hstep _ IH]; intros r Hr; [eauto 10|].
  destruct (astep_kept _ _ Hs Hstep) as (Hs1 & Hev & Hids). destruct (Hev r Hr) as (r1 & Hr1 & Hm).
  apply row_move_fixed in Hm as Hf. destruct (IH Hs1 r1 Hr1) as (Hs' & r' & Hr' & Hf' & Hi).
  split; [done|]. exists r'. split; [done|]. split; [congruence|].
  assert (ap_id r1 = ap_id r) as Hid by (unfold fixed in Hf; congruence).
  rewrite Hid in Hi. rewrite Hi. apply Hids, list_elem_of_fmap. eauto.
Qed.

(** Who may decide: whatever happened since a request was created, a click that
    finds it pending and in time is recorded exactly when the request named nobody or
    named the clicker. *)
Theorem whitelist_enforced fk fkc caller new now s rec s1 ids pol s2 org d c t :
  a_reachable s → from_ids ids = Ok pol → na_approvers new = pol →
  create fk fkc caller new now s = (Ok (Created rec), s1) → rtc astep s1 s2 →
  ((∃ rec' s3, decide_approval org (na_id new) d c t s2 = (Ok (Decided rec'), s3)) →
     ids = [] ∨ c ∈ ids)
  ∧ (org = org_id caller → (t < na_expires_at new)%Z → (ids = [] ∨ c ∈ ids) →
     (∀ r, r ∈ pending_approval s2 → ap_id r = na_id new → ap_status r = ApPending
        ∧ is_ok (record_from_row r) = true) →
     ∃ rec' s3, decide_approval org (na_id new) d c t s2 = (Ok (Decided rec'), s3)).
Proof.
  intros Hs Hpol Hnew Hc Hrtc. apply a_reachable_inv in Hs as Hi.
  pose proof (create_inv fk fkc caller new now s Hi) as Hi1. rewrite Hc in Hi1. cbn in Hi1.
  assert (a_reachable s2) as Hs2.
  { destruct Hs as (s0 & H0 & Hr0). exists s0. split; [done|]. etrans; [exact Hr0|].
    eapply rtc_l; [|exact Hrtc]. assert (s1 = (create fk fkc caller new now s).2) as -> by (by rewrite Hc). constructor. }
  unfold create in Hc. apply trun_Ok, create_ok in Hc as
    [(? & [=] & _)|(r & _ & _ & Hrows & _ & _ & Hid & _ & _ & Hown & _)].
  assert (approver_ids (na_id new) s = []) as Hnil.
  { apply elem_of_nil_inv. intros x (m & -> & Hm)%list_elem_of_fmap.
    apply list_elem_of_filter in Hm as [Hm1 Hm]. destruct m as [[i y] o]. cbn in *. subst i.
    apply (ai_fk _ Hi) in Hm. done. }
  destruct (rtc_astep_kept s1 s2 (new_row new (org_id caller) now) Hi1 Hrtc) as (Hi2 & r2 & Hr2 & Hf & Hids).
  { rewrite Hrows. set_solver. }
  cbn in Hids. assert (policy_allows (ap_approver_kind r2) (ap_approver_colleague r2)
    (approver_ids (na_id new) s2) c = true ↔ ids = [] ∨ c ∈ ids) as Hal.
  { unfold fixed in Hf. injection Hf as ? ? ? ? ? ? ? ? Hk Hpin. rewrite Hk, Hpin, Hids, Hnew. clear Hk Hpin.
    pose proof (from_ids_exact ids) as Hex. rewrite Hpol in Hex. rewrite Hnew, Hnil in Hown.
    destruct pol as [|x|l]; cbn in *; [naive_solver|done|].
    rewrite bool_decide_eq_true, Hown. destruct Hex as (? & _ & _ & Hl & _). specialize (Hl c). set_solver. }
  assert (ap_id r2 = na_id new ∧ ap_org_id r2 = org_id caller ∧ ap_expires_at r2 = na_expires_at new)
    as (E1 & E2 & E3) by (unfold fixed in Hf; cbn in Hf; by injection Hf).
  assert (∀ r o, row_by_id o (na_id new) s2 = Some r → r = r2) as Hr2'.
  { intros x o (Hx & Hxid & _)%find_by_id. eapply NoDup_fmap_eq; [by apply ai_ids|..]; congruence. }
  pose proof (decide_on_every_branch org (na_id new) d c t s2 Hs2) as Hd. split.
  - intros (rec' & s3 & Hdec). rewrite <-Hal.
    destruct (row_by_id _ _ _) as [x|] eqn:Ex; [|congruence]. apply Hr2' in Ex as ->.
    destruct (record_from_row r2); [|congruence..]. destruct (ap_status r2); [|congruence..].
    destruct (_ <=? _)%Z; [congruence|]. destruct (policy_allows _ _ _ _); [done|congruence].
  - intros -> Ht Hin Hpend. destruct (Hpend r2 Hr2 E1) as [Hp Hok].
    assert (row_by_id (org_id caller) (na_id new) s2 = Some r2) as Hrow.
    { destruct (row_by_id _ _ _) as [x|] eqn:Ex; [by f_equal; eapply Hr2'|].
      unfold row_by_id in Ex. eapply List.find_none in Ex; [|by apply list_elem_of_In].
      cbn in Ex. by rewrite !bool_decide_true in Ex. }
    rewrite Hrow, Hp in Hd. destruct (record_from_row r2) as [rec2| |]; [|done..].
    rewrite E3 in Hd. destruct (Z.leb_spec (na_expires_at new) t); [lia|].
    apply Hal in Hin. rewrite Hin in Hd. destruct Hd as (rec' & _ & ->). eauto.
Qed.

(** ** The expiry sweep *)

Lemma length_filter_split {A} (P Q : A → Prop) `{∀ x, Decision (P x), ∀ x, Decision (Q x)} (l : list A) :
  (∀ x, x ∈ l → P x → Q x) →
  length (filter Q l) = length (filter P l) + length (filter (λ x, Q x ∧ ¬ P x) l).
Proof.
  induction l as [|x l IH]; intros HPQ; [done|]. rewrite !filter_cons.
  specialize (IH ltac:(set_solver)). specialize (HPQ x (list_elem_of_here x l)).
  repeat case_decide; cbn; try lia; tauto.
Qed.

Definition unlocked (id : ApprovalId) : bool := false.

Lemma sweep_batch_rows now s :
  a_inv s →
  length (filter (λ r, ap_id r ∈ sweep_batch unlocked now s) (pending_approval s))
  = Nat.min APPROVAL_SWEEP_BATCH (length (filter (due now) (pending_approval s))).
Proof.
  intros Hi. set (B := take APPROVAL_SWEEP_BATCH (sort_by ap_expires_at
    (filter (λ r, due now r ∧ unlocked (ap_id r) = false) (pending_approval s)))).
  assert (∀ r, r ∈ B → r ∈ pending_approval s) as HB.
  { intros r Hr%subseteq_take. apply elem_of_sort_by, list_elem_of_filter in Hr. tauto. }
  transitivity (length B).
  - apply Permutation_length, NoDup_Permutation.
    + apply NoDup_filter. eapply NoDup_fmap_1. by apply (ai_ids _ Hi).
    + eapply sublist_NoDup; [|apply sublist_take]. rewrite sort_by_perm.
      apply NoDup_filter. eapply NoDup_fmap_1. by apply (ai_ids _ Hi).
    + intros r. rewrite list_elem_of_filter. unfold sweep_batch. fold B. split.
      * intros [(x & Hx & HxB)%list_elem_of_fmap Hr].
        replace r with x; [done|]. eapply NoDup_fmap_eq; [by apply (ai_ids _ Hi)|..]; auto.
      * intros Hr. split; [|auto]. apply list_elem_of_fmap. eauto.
  - unfold B. rewrite length_take, sort_by_perm. f_equal. f_equal. apply filter_ext_in.
    intros r _. unfold unlocked. naive_solver.
Qed.

Lemma filter_due_update (P : ApprovalRow → Prop) `{∀ r, Decision (P r)} now t :
  length (filter (due now) (update_where P expire_row t))
  = length (filter (λ x, due now x ∧ ¬ P x) t).
Proof.
  induction t as [|r t IH]; [done|]. unfold update_where in *. rewrite fmap_cons, !filter_cons.
  destruct (decide (P r)) as [HP|HP].
  - rewrite decide_False by (by intros [[=] _]). by rewrite decide_False by tauto.
  - destruct (decide (due now r)) as [Hd|Hd].
    + rewrite decide_True by done. cbn. by rewrite IH.
    + by rewrite decide_False by tauto.
Qed.

Lemma sweep_count now s :
  a_inv s →
  length (filter (due now) (pending_approval (expire_due unlocked now s).2))
  = length (filter (due now) (pending_approval s)) - APPROVAL_SWEEP_BATCH.
Proof.
  intros Hi. pose proof (sweep_batch_rows now s Hi) as Hb. unfold expire_due.
  cbn [snd set_rows pending_approval].
  assert (∀ r, r ∈ pending_approval s → ap_id r ∈ sweep_batch unlocked now s → due now r) as HPd.
  { intros r Hr (x & Hx & Hid & Hd & _)%sweep_due.
    replace r with x; [done|]. eapply NoDup_fmap_eq; [by apply (ai_ids _ Hi)|..]; auto. }
  pose proof (length_filter_split _ (due now) _ HPd) as Hsp. rewrite filter_due_update. lia.
Qed.

(** The sweep drains any backlog: with nothing locked, each tick expires the oldest
    due requests, at most 256 of them, and reports how many; after as many ticks as the
    backlog needs nothing is due. *)
Theorem sweep_drains now k s :
  a_reachable s →
  length (filter (due now) (pending_approval s)) ≤ APPROVAL_SWEEP_BATCH * k →
  (expire_due unlocked now s).1
    = Ok (Nat.min APPROVAL_SWEEP_BATCH (length (filter (due now) (pending_approval s))))
  ∧ filter (due now) (pending_approval
      (Nat.iter k (λ s, (expire_due unlocked now s).2) s)) = [].
Proof.
  intros Hs%a_reachable_inv Hk. split; [unfold expire_due; cbn; f_equal; by apply sweep_batch_rows|].
  assert (a_inv (Nat.iter k (λ s, (expire_due unlocked now s).2) s) ∧
    length (filter (due now) (pending_approval (Nat.iter k (λ s, (expire_due unlocked now s).2) s)))
    = length (filter (due now) (pending_approval s)) - APPROVAL_SWEEP_BATCH * k) as [_ Hl].
  { clear Hk. induction k as [|k [IHi IH]]; [split; [done|cbn; lia]|]. rewrite Nat.iter_succ. split.
    - by apply (astep_kept _ _ IHi), step_sweep.
    - rewrite sweep_count by done. rewrite IH. lia. }
  apply nil_length_inv. lia.
Qed.

(** ** A request through its life

    Agent 20 asks colleague 4 for [echo]; colleague 4 approves. *)
Module ApprovalDemo.
Definition caller : Caller := mkCaller 1 1.
Definition echo : ToolName := mkToolName (lit "echo").
Definition new : NewApproval :=
  mkNewApproval 900 10 20 9 60 (mkActionSummary (lit "Echo the figures")) echo (PolOneOf [4%N]) TWeb
    (lit "apv:demo") 5000.
Definition yes {A} (_ : A) : bool := true.
Definition s0 : approvals := mkApprovals [] [] [] [(1%N, 1%N)].
Definition s1 : approvals := (set_gated true caller 20 echo 1 s0).2.
Definition s2 : approvals := (create yes yes caller new 2 s1).2.
Definition s3 : approvals := (decide_approval 1 900 VApproved 4 3 s2).2.
Definition created : res ApprovalError CreateOutcome := (create yes yes caller new 2 s1).1.

Lemma gated_reachable : a_reachable s1.
Proof. exists s0. split; [by split|]. apply rtc_once, (step_gate true). Qed.
Lemma asked_reachable : a_reachable s2.
Proof.
  destruct gated_reachable as (x & Hx & Hr). exists x. split; [done|].
  eapply rtc_r; [exact Hr|]. apply (step_create yes yes).
Qed.
Lemma s2_s3 : rtc astep s2 s3.
Proof. apply rtc_once, step_decide. Qed.
Lemma approved_reachable : a_reachable s3.
Proof.
  destruct asked_reachable as (x & Hx & Hr). exists x. split; [done|]. etrans; [exact Hr|exact s2_s3].
Qed.
End ApprovalDemo.

Lemma approval_forward_only_witness : ∃ r r',
  r ∈ pending_approval ApprovalDemo.s3 ∧ ap_status r = ApApproved
  ∧ r' ∈ pending_approval (decide_approval 1 900 VDenied 4 4 ApprovalDemo.s3).2 ∧ ap_status r' = ApApproved.
Proof.
  destruct (pending_approval ApprovalDemo.s3) as [|r l] eqn:E; [vm_compute in E; discriminate|].
  destruct (approval_forward_only ApprovalDemo.s3 (decide_approval 1 900 VDenied 4 4 ApprovalDemo.s3).2 r)
    as (r' & Hr' & _ & Hst).
  - exact ApprovalDemo.approved_reachable.
  - apply rtc_once, step_decide.
  - rewrite E. apply list_elem_of_here.
  - assert (ap_status r = ApApproved) as Hr by (vm_compute in E; injection E as <- _; reflexivity).
    exists r, r'. split; [apply list_elem_of_here|]. split; [exact Hr|]. split; [exact Hr'|].
    destruct Hst as (-> & _); [by rewrite Hr|exact Hr].
Defined.

Lemma gate_needs_human_witness : human_approved ApprovalDemo.s3 1 60 ApprovalDemo.echo.
Proof.
  destruct (gate_needs_human (mkGateReads None None) 1 20 60 ApprovalDemo.echo ApprovalDemo.s3 ApprovalDemo.s3)
    as (_ & [Hn|[_ Hh]]).
  - exact ApprovalDemo.approved_reachable.
  - vm_compute. reflexivity.
  - vm_compute in Hn. discriminate.
  - exact Hh.
Defined.

Lemma decide_on_every_branch_witness :
  decide_approval 1 900 VApproved 5 3 ApprovalDemo.s2 = (Err Unauthorized, ApprovalDemo.s2)
  ∧ decide_approval 1 901 VApproved 4 3 ApprovalDemo.s2 = (Err ApprovalNotFound, ApprovalDemo.s2).
Proof.
  split.
  - exact (decide_on_every_branch 1 900 VApproved 5 3 ApprovalDemo.s2 ApprovalDemo.asked_reachable).
  - exact (decide_on_every_branch 1 901 VApproved 4 3 ApprovalDemo.s2 ApprovalDemo.asked_reachable).
Defined.

Lemma whitelist_enforced_witness : ∃ rec' s, 
  decide_approval 1 900 VDenied 4 3 ApprovalDemo.s2 = (Ok (Decided rec'), s).
Proof.
  destruct (ApprovalDemo.created) as [[rec|rec]| |] eqn:E; [|vm_compute in E; discriminate..].
  destruct (whitelist_enforced ApprovalDemo.yes ApprovalDemo.yes ApprovalDemo.caller ApprovalDemo.new 2
    ApprovalDemo.s1 rec ApprovalDemo.s2 [4%N] (PolOneOf [4%N]) ApprovalDemo.s2 1 VDenied 4 3) as (_ & Hd).
  - exact ApprovalDemo.gated_reachable.
  - reflexivity.
  - reflexivity.
  - unfold ApprovalDemo.created in E. unfold ApprovalDemo.s2.
    destruct (create _ _ _ _ _ _) as [o s]. cbn in *. by rewrite E.
  - apply rtc_refl.
  - apply Hd; [reflexivity|reflexivity|right; set_solver|].
    intros r Hr _. vm_compute in Hr. apply list_elem_of_singleton in Hr as ->. by split.
Defined.

Lemma sweep_drains_witness :
  (expire_due unlocked 6000 ApprovalDemo.s2).1 = Ok 1
  ∧ filter (due 6000) (pending_approval (expire_due unlocked 6000 ApprovalDemo.s2).2) = [].
Proof.
  apply (sweep_drains 6000 1 ApprovalDemo.s2).
  - exact ApprovalDemo.asked_reachable.
  - vm_compute. lia.
Defined.
