(* ===== verification/GatedAgent.v ===== *)
(** * The agent behind the hard gate

    [Agent] takes the verdict of the approval gate from its environment;
    [Approvals] says what the gate answers.  Together: a run executes a gated tool
    only after a human approved it. *)

From Stdlib Require Import ZArith Lia Ascii String.
From stdpp Require Import base gmap list strings sets relations.
From S2P Require Import Prelude Program Types Threads ThreadLaws Colleagues Catalog Compaction Billing Worker Tools Agent AgentLaws Approvals ApprovalLaws.

(** The match of [approval_blocked] on the gate's outcome. *)
Definition gate_answer (o : GateOutcome) : option str :=
  match o with Allowed => None | Blocked reason => Some reason end.

(** The [n]-th call of a run that asks the gate finds the approval tables in the two
    states [seen n], one per read, each in a state they can reach. *)
Record gate_views := mkGateViews {
  gv_reads : nat → GateReads;
  gv_config : nat → approvals;
  gv_approvals : nat → approvals }.

Definition with_gate (gv : gate_views) (org : OrgId) (agent : AgentId) (root : PromptRequestId)
    (env : AgentEnv) : AgentEnv :=
  mkAgentEnv (ae_others env) (ae_fault env) (ae_now env) (ae_today env) (ae_fresh env) (ae_fk env)
    (ae_sees env) (ae_cancelled env) (ae_byo env) (ae_turn env) (ae_overrides env) (ae_prompt env)
    (ae_participants env) (ae_todos env) (ae_send env)
    (λ n call, gate_answer (check (gv_reads gv n) org agent root (tc_name call) (gv_config gv n)
                              (gv_approvals gv n)))
    (ae_exec env) (ae_reduce env).

(** C13: An agent behind the hard gate executes a tool call only if, at a moment of the
    run when it asked, the tool was not gated for it, or a person the request's
    policy allows had approved that tool for this conversation tree in time. *)
Theorem gated_call_needs_human `{UuidPrinter, JsonPrinter, Sha256, Entitlements}
    env ag gv claim thread viewer agent req root caller kp w call :
  ag_approval_gate ag = true → participant_agent viewer = Some agent →
  (∀ n, a_reachable (gv_approvals gv n)) →
  let env := with_gate gv (org_id caller) agent root env in
  ∃ es, aw_events (reply_in_thread env ag claim thread viewer req root caller kp w).2
          = aw_events w ++ es ∧
    (EvExec call ∈ es →
     ∃ n, gr_config (gv_reads gv n) = None ∧
       (is_gated (org_id caller) agent (tc_name call) (gv_config gv n) = false ∨
        human_approved (gv_approvals gv n) (org_id caller) root (tc_name call))).
Proof.
  intros Hg Hv Hr env'. destruct (thread_loop_only env' ag (Z.to_nat (MaxTurns_get (ag_max_turns ag))) 0 claim
    thread viewer req root caller kp 0 w) as (es & Hes & Hok).
  exists es. split; [exact Hes|]. intros Hin. rewrite Forall_forall in Hok.
  destruct (Hok _ Hin call eq_refl Hg) as [n Hn]; [by rewrite Hv|]. exists n. cbn in Hn.
  destruct (check _ _ _ _ _ _ _) eqn:Ec; [|done]. unfold check in Ec.
  destruct (gr_config _); [done|]. split; [done|].
  destruct (is_gated _ _ _ _); cbn in Ec; [right|by left].
  destruct (gr_approvals _); [done|]. destruct (has_approved_for_dag _ _ _ _) eqn:E; [|done].
  by apply has_approved_human.
Qed.

(** ** A concrete run

    The model asks for [echo], gated for the agent; colleague 4 approved it. *)
Module GateDemo.
Definition caller : Caller := Feed.caller.
Definition echo : ToolName := mkToolName (lit "echo").
Definition new : NewApproval :=
  mkNewApproval 900 Feed.thread Feed.agent 9 60 (mkActionSummary (lit "Echo the figures")) echo
    (PolOneOf [4%N]) TWeb (lit "apv:demo") 5000.
Definition yes {A} (_ : A) : bool := true.
Definition s0 : approvals := mkApprovals [] [] [] [(user_id caller, org_id caller)].
Definition s1 : approvals := (set_gated true caller Feed.agent echo 1 s0).2.
Definition s2 : approvals := (create yes yes caller new 2 s1).2.
Definition s3 : approvals := (decide_approval (org_id caller) 900 VApproved 4 3 s2).2.

Lemma s2_reachable : a_reachable s2.
Proof.
  exists s0. split; [by split|]. eapply rtc_l; [apply (step_gate true)|].
  eapply rtc_l; [apply (step_create yes yes)|]. apply rtc_refl.
Qed.
Lemma s3_reachable : a_reachable s3.
Proof.
  destruct s2_reachable as (x & Hx & Hr). exists x. split; [done|].
  eapply rtc_r; [exact Hr|]. apply step_decide.
Qed.
Definition views : gate_views := mkGateViews (λ _, mkGateReads None None) (λ _, s2) (λ _, s3).
End GateDemo.

Lemma gated_call_needs_human_witness :
  human_approved GateDemo.s3 (org_id Feed.caller) 60 GateDemo.echo.
Proof.
  destruct (@gated_call_needs_human Demo.uuid Demo.json Demo.sha Demo.gated (Demo.env 7 None)
    Demo.agent GateDemo.views 50 Feed.thread Demo.viewer Feed.agent 60 60 Feed.caller PNormal Demo.world
    Demo.call) as (es & Hes & H).
  - reflexivity.
  - reflexivity.
  - intros n. apply GateDemo.s3_reachable.
  - destruct H as (n & _ & [Hng|Hh]); [|vm_compute in Hng; discriminate|exact Hh].
    apply (list_elem_of_lookup_2 _ 10). change es with (aw_events Demo.world ++ es). rewrite <-Hes.
    vm_compute. reflexivity.
Defined.

(** An approval is not tied to the action it describes: after "Refund $40" is approved,
    the gate lets the same tool run for the pending "Refund $900". *)
Module ScopeDemo.
Definition refund : ToolName := mkToolName (lit "refund_customer").
Definition ask (id : ApprovalId) (key : string) (action : string) : NewApproval :=
  mkNewApproval id Feed.thread Feed.agent 9 60 (mkActionSummary (lit action)) refund PolAnyone TWeb
    (lit key) 5000.
Definition s1 : approvals := (set_gated true Feed.caller Feed.agent refund 1 GateDemo.s0).2.
Definition s2 : approvals := (create GateDemo.yes GateDemo.yes Feed.caller (ask 901 "k1" "Refund $40") 2 s1).2.
Definition s3 : approvals := (create GateDemo.yes GateDemo.yes Feed.caller (ask 902 "k2" "Refund $900") 3 s2).2.
Definition s4 : approvals := (decide_approval (org_id Feed.caller) 901 VApproved 4 4 s3).2.
End ScopeDemo.

Lemma approval_covers_other_actions :
  (λ r, (ap_id r, ap_status r)) <$> pending_approval ScopeDemo.s4
    = [(901%N, ApApproved); (902%N, ApPending)] ∧
  check (mkGateReads None None) (org_id Feed.caller) Feed.agent 60 ScopeDemo.refund ScopeDemo.s4 ScopeDemo.s4
    = Allowed ∧
  (** ... any number of times, and for another agent of the conversation. *)
  check (mkGateReads None None) (org_id Feed.caller) Feed.agent 60 ScopeDemo.refund
    (set_gated true Feed.caller 77 ScopeDemo.refund 5 ScopeDemo.s4).2 ScopeDemo.s4 = Allowed.
Proof. by vm_compute. Qed.
