(* ===== verification/Responses.v ===== *)
(** * Response streams

    [runtime/response.rs] and [runtime/pg_response.rs]: the chunks of a turn, the
    log they are persisted in, and the in-process hub that fans them out to live
    subscribers after a replay of the log. *)

From Stdlib Require Import ZArith Lia Ascii String.
From stdpp Require Import base gmap list strings sets.
From S2P Require Import Prelude Program Types.

Definition MAX_CHUNK_BUFFER_PER_REQUEST : nat := 256.
Definition MAX_RESPONSE_SLOTS : nat := 4096.
Definition THREAD_NOTIFY_CHANNEL : str := lit "patom_thread_chunk".

(** ** Chunks ([runtime/response.rs]) *)

(** [mcp/catalog.rs] *)
Inductive McpAuthKind := OAuth2 | StaticHeaders | NoAuth.
#[export] Instance McpAuthKind_eq_dec : EqDecision McpAuthKind.
Proof. solve_decision. Defined.
Definition McpAuthKind_as_str (k : McpAuthKind) : string :=
  match k with OAuth2 => "oauth2" | StaticHeaders => "static_headers" | NoAuth => "none" end.
#[export] Instance McpAuthKind_StrEnum : StrEnum McpAuthKind.
Proof. refine {| ALL := [OAuth2; StaticHeaders; NoAuth]; as_str := McpAuthKind_as_str |}; abstract str_enum. Defined.

Inductive ResponseChunk :=
| RText (value : str)
| RReasoning (value : str)
| RToolCall (c : ToolCall)
| RToolResult (r : ToolResult)
| RAgentMessage (from : AgentId) (to_thread : ThreadId) (content : str) (to : option ColleagueId)
| RWireMcpRequest (from : AgentId) (catalog_id display_name reason : str) (auth_kind : McpAuthKind)
    (homepage_url : option str)
| RDone (final_text : str)
| RError (reason code : str)
| RStalled.

Definition chunk_is_terminal (c : ResponseChunk) : bool :=
  match c with RDone _ | RError _ _ => true | _ => false end.

Definition event_kind (c : ResponseChunk) : string :=
  match c with
  | RText _ => "text"
  | RReasoning _ => "reasoning"
  | RToolCall _ => "tool_call"
  | RToolResult _ => "tool_result"
  | RAgentMessage _ _ _ _ => "agent_message"
  | RWireMcpRequest _ _ _ _ _ _ => "wire_mcp_request"
  | RDone _ => "done"
  | RError _ _ => "error"
  | RStalled => "stalled"
  end.

Definition weight `{JsonPrinter} (c : ResponseChunk) : nat :=
  match c with
  | RText v | RReasoning v => str_len v
  | RError reason code => str_len reason + str_len code
  | RDone t => str_len t
  | RAgentMessage _ _ content _ => str_len content + 36
  | RWireMcpRequest _ catalog name reason _ url =>
      str_len catalog + str_len name + str_len reason + from_option str_len 0 url + 36
  | RToolCall c =>
      str_len (ToolCallId_as_str (tc_id c)) + str_len (ToolName_as_str (tc_name c))
      + str_len (json_to_string (tc_input c))
  | RToolResult r => str_len (ToolCallId_as_str (tr_call_id r)) + str_len (tr_output r)
  | RStalled => 0
  end.

Definition from_failure (r : FailureReason) : ResponseChunk :=
  RError (FailureReason_fmt r) (lit (FailureReason_label r)).

Record Envelope := mkEnvelope { en_seq : Z; en_chunk : ResponseChunk }.

Inductive StreamEvent := SEChunk (e : Envelope) | SEStalled.

Inductive ResponseError :=
| ResponseNotFound (id : PromptRequestId)
| Lagged
| ResponseSequence (e : SeqOverflow)
| ResponseBackend (msg : str)
| ResponseDb (msg : string).

(** ** The log ([runtime/pg_response.rs]) *)

Record StreamRow := mkStreamRow { sr_org_id : OrgId; sr_next_seq : Z; sr_closed : bool }.
Record ChunkRow := mkChunkRow {
  ck_request_id : PromptRequestId;
  ck_org_id : OrgId;
  ck_seq : Z;
  ck_payload : ResponseChunk;
  ck_bytes : Z;
  ck_is_terminal : bool;
  ck_created_at : Z }.

(** [rl_requests] is the part of [prompt_requests] the statements read: the org and the
    thread of a request.  Payloads are stored as the values they decode to. *)
Record rlog := mkRlog {
  rl_requests : gmap PromptRequestId (OrgId * option ThreadId);
  prompt_response_streams : gmap PromptRequestId StreamRow;
  prompt_response_chunks : list ChunkRow;
  rl_notified : list (PromptRequestId * option ThreadId * Z) }.

Record PersistedChunk := mkPersisted { pc_seq : Z; pc_envelope : Envelope; pc_terminal : bool }.

(** [PUBLISH_CTE_SQL] and what follows it; [visible] is the row filter of the
    transaction. *)
Definition publish_in_tx `{UuidPrinter, JsonPrinter} (visible : OrgId → bool) (now : Z)
    (id : PromptRequestId) (chunk : ResponseChunk) : Tx rlog ResponseError PersistedChunk := λ l,
  let bytes := Z.min (Z.of_nat (weight chunk)) I32_MAX in
  let missing := Err (ResponseBackend (lit "publish: request " ++ uuid_to_string id
                                       ++ lit " has no prompt_requests row")) in
  match rl_requests l !! id with
  | None => missing
  | Some (org, thread) =>
      if negb (visible org) then missing
      else
        let row := match prompt_response_streams l !! id with
                   | None => mkStreamRow org 1 (chunk_is_terminal chunk)
                   | Some s => mkStreamRow (sr_org_id s) (sr_next_seq s + 1)
                                 (sr_closed s || chunk_is_terminal chunk)
                   end in
        let seq := (sr_next_seq row - 1)%Z in
        if (I64_MAX <? sr_next_seq row)%Z then Err (ResponseDb "bigint out of range")
        else if existsb (λ c, bool_decide (ck_request_id c = id) && (ck_seq c =? seq)%Z)
                  (prompt_response_chunks l)
        then Err (ResponseDb "prompt_response_chunks_pkey")
        else if (sr_next_seq row <? 1)%Z
        then Panic "invariant: post-bump next_seq is at least 1"
        else Ok (mkPersisted seq (mkEnvelope seq chunk) (chunk_is_terminal chunk),
                 mkRlog (rl_requests l) (<[id := row]> (prompt_response_streams l))
                   (prompt_response_chunks l
                    ++ [mkChunkRow id org seq chunk bytes (chunk_is_terminal chunk) now])
                   (rl_notified l ++ [(id, thread, seq)]))
  end.

Definition close_in_tx (visible : OrgId → bool) (id : PromptRequestId) : Tx rlog ResponseError unit := λ l,
  match rl_requests l !! id with
  | None => Ok (tt, l)
  | Some (org, _) =>
      if negb (visible org) then Ok (tt, l)
      else
        let row := match prompt_response_streams l !! id with
                   | None => mkStreamRow org 0 true
                   | Some s => mkStreamRow (sr_org_id s) (sr_next_seq s) true
                   end in
        Ok (tt, mkRlog (rl_requests l) (<[id := row]> (prompt_response_streams l))
                  (prompt_response_chunks l) (rl_notified l))
  end.

(** [read_backlog]: the chunks after [since], oldest first, and the highest number. *)
Definition after (since : option Z) (n : Z) : bool :=
  match since with None => true | Some s => (s <? n)%Z end.

Definition read_backlog (id : PromptRequestId) (since : option Z) (l : rlog)
    : list Envelope * option Z :=
  let rows := sort_by ck_seq (filter (λ c, ck_request_id c = id ∧ after since (ck_seq c) = true)
                                (prompt_response_chunks l)) in
  ((λ c, mkEnvelope (ck_seq c) (ck_payload c)) <$> rows,
   foldl (λ m c, Some (match m with None => ck_seq c | Some m => Z.max m (ck_seq c) end)) since rows).

(** ** The hub

    A broadcast channel is the list of all it was sent; a receiver is a position in
    it.  A slot owns its channel; dropping the slot leaves the receivers theirs. *)

Record StreamSlot := mkSlot { sl_chan : nat; sl_closed : bool }.

Record hub := mkHub {
  hb_slots : gmap PromptRequestId StreamSlot;
  hb_order : list PromptRequestId;
  hb_channels : list (list Envelope) }.

Definition hub_empty : hub := mkHub ∅ [] [].

Definition slot_closed (h : hub) (id : PromptRequestId) : bool :=
  match hb_slots h !! id with Some s => sl_closed s | None => false end.

(** [VecDeque::remove] at the first position that satisfies [p]. *)
Fixpoint remove_first (p : PromptRequestId → bool) (l : list PromptRequestId)
    : option (PromptRequestId * list PromptRequestId) :=
  match l with
  | [] => None
  | x :: l' =>
      if p x then Some (x, l')
      else match remove_first p l' with Some (v, r) => Some (v, x :: r) | None => None end
  end.

(** The oldest closed slot, else the oldest. *)
Definition hub_evict_one (h : hub) : hub :=
  let pick := match remove_first (slot_closed h) (hb_order h) with
              | Some v => Some v
              | None => match hb_order h with [] => None | x :: l => Some (x, l) end
              end in
  match pick with
  | Some (victim, order) => mkHub (delete victim (hb_slots h)) order (hb_channels h)
  | None => h
  end.

Definition touch_slot (cap : nat) (id : PromptRequestId) (h : hub) : hub :=
  match hb_slots h !! id with
  | Some _ => h
  | None =>
      let h := if cap <=? size (hb_slots h) then hub_evict_one h else h in
      mkHub (<[id := mkSlot (length (hb_channels h)) false]> (hb_slots h))
        (hb_order h ++ [id]) (hb_channels h ++ [[]])
  end.

Definition set_closed (id : PromptRequestId) (h : hub) : hub :=
  mkHub (alter (λ s, mkSlot (sl_chan s) true) id (hb_slots h)) (hb_order h) (hb_channels h).

(** The lookup after [touch_slot] never misses. *)
Definition slot_of (id : PromptRequestId) (h : hub) : res ResponseError StreamSlot :=
  expect (hb_slots h !! id) "invariant: slot was just inserted or already present".

Definition publish_sender `{UuidPrinter} (cap : nat) (id : PromptRequestId) (terminal : bool)
    (h : hub) : res ResponseError nat * hub :=
  let h := touch_slot cap id h in
  match slot_of id h with
  | Ok slot =>
      if sl_closed slot
      then (Err (ResponseBackend (lit "request " ++ uuid_to_string id ++ lit " stream already closed")), h)
      else (Ok (sl_chan slot), if terminal then set_closed id h else h)
  | Err e => (Err e, h)
  | Panic m => (Panic m, h)
  end.

Definition mark_closed (cap : nat) (id : PromptRequestId) (h : hub) : res ResponseError unit * hub :=
  let h := touch_slot cap id h in
  match slot_of id h with
  | Ok _ => (Ok tt, set_closed id h)
  | Err e => (Err e, h)
  | Panic m => (Panic m, h)
  end.

(** The new receiver starts after what was sent so far. *)
Definition subscribe_live (cap : nat) (id : PromptRequestId) (h : hub)
    : res ResponseError (nat * nat * bool) * hub :=
  let h := touch_slot cap id h in
  (slot <-? slot_of id h ;
   Ok (sl_chan slot, length (default [] (hb_channels h !! sl_chan slot)), sl_closed slot), h).

(** [broadcast::Sender::send] *)
Definition send (chan : nat) (e : Envelope) (h : hub) : hub :=
  mkHub (hb_slots h) (hb_order h) (alter (λ log, log ++ [e]) chan (hb_channels h)).

(** [broadcast::Receiver::recv]: a receiver more than [MAX_CHUNK_BUFFER_PER_REQUEST]
    behind is told once that it lagged and moves to the oldest kept item. *)
Definition recv (log : list Envelope) (pos : nat) : option (option Envelope * nat) :=
  if length log <=? pos then None
  else if MAX_CHUNK_BUFFER_PER_REQUEST <? length log - pos
  then Some (None, length log - MAX_CHUNK_BUFFER_PER_REQUEST)
  else match log !! pos with Some e => Some (Some e, S pos) | None => None end.

(** [filter_live_stream] on one item. *)
Definition filter_live (threshold : option Z) (item : option Envelope) : option StreamEvent :=
  match item with
  | None => Some SEStalled
  | Some e =>
      if match threshold with Some t => (en_seq e <=? t)%Z | None => false end
      then None else Some (SEChunk e)
  end.
