(* ===== verification/ResponseLaws.v ===== *)
(** * What the response hub promises

    The log, the hub, the publishers between commit and fan-out and the
    subscribers as one transition system.  Every persisted chunk is at exactly one
    place; a subscriber sees each chunk once, and misses none that was sent on its
    channel unless it was told that it stalled. *)

From Stdlib Require Import ZArith Lia Ascii String Sorted.
From stdpp Require Import base gmap list strings sets relations sorting.
From S2P Require Import Prelude Program Types Responses.

(** ** The system *)

Definition keyed : Type := N * Envelope.

(** A publisher after its commit: before and after [publish_sender]. *)
Inductive task := Committed (id : N) (p : PersistedChunk) | Holding (id : N) (chan : nat) (e : Envelope).

Definition task_key (t : task) : keyed :=
  match t with Committed id p => (id, pc_envelope p) | Holding id _ e => (id, e) end.

(** A stream of [subscribe]: its receiver, the backlog once read, what is left of
    it, and what the client got. *)
Record sub := mkSub {
  sb_id : N;
  sb_since : option Z;
  sb_chan : nat;
  sb_start : nat;
  sb_pos : nat;
  sb_backlog : option (list Envelope * option Z);
  sb_left : list Envelope;
  sb_out : list StreamEvent }.

(** [w_owners] gives each channel the request it was opened for, and [w_lost] what
    was committed and never sent: refused by a closed slot, or cancelled. *)
Record world := mkWorld {
  w_log : rlog;
  w_hub : hub;
  w_owners : list N;
  w_tasks : list task;
  w_lost : list keyed;
  w_subs : list sub }.

Definition with_hub (id : N) (h : hub) (w : world) : world :=
  mkWorld (w_log w) h
    (w_owners w ++ replicate (length (hb_channels h) - length (hb_channels (w_hub w))) id)
    (w_tasks w) (w_lost w) (w_subs w).
Definition with_log (l : rlog) (w : world) : world :=
  mkWorld l (w_hub w) (w_owners w) (w_tasks w) (w_lost w) (w_subs w).
Definition with_tasks (ts : list task) (lost : list keyed) (w : world) : world :=
  mkWorld (w_log w) (w_hub w) (w_owners w) ts lost (w_subs w).
Definition with_subs (ss : list sub) (w : world) : world :=
  mkWorld (w_log w) (w_hub w) (w_owners w) (w_tasks w) (w_lost w) ss.

(** One item of the stream [subscribe] returns, when there is one. *)
Definition poll (log : list Envelope) (s : sub) : option sub :=
  match sb_backlog s with
  | None => None
  | Some (_, thr) =>
      match sb_left s with
      | e :: l => Some (mkSub (sb_id s) (sb_since s) (sb_chan s) (sb_start s) (sb_pos s) (sb_backlog s)
                          l (sb_out s ++ [SEChunk e]))
      | [] =>
          match recv log (sb_pos s) with
          | None => None
          | Some (item, pos) =>
              Some (mkSub (sb_id s) (sb_since s) (sb_chan s) (sb_start s) pos (sb_backlog s) []
                      (sb_out s ++ option_list (filter_live thr item)))
          end
      end
  end.

Definition read_sub (l : rlog) (s : sub) : sub :=
  let b := read_backlog (sb_id s) (sb_since s) l in
  mkSub (sb_id s) (sb_since s) (sb_chan s) (sb_start s) (sb_pos s) (Some b) b.1 (sb_out s).

Section system.
Context `{UuidPrinter, JsonPrinter} (cap : nat).

Inductive wstep (w : world) : world → Prop :=
| ws_request id row :
    rl_requests (w_log w) !! id = None →
    wstep w (with_log (mkRlog (<[id := row]> (rl_requests (w_log w))) (prompt_response_streams (w_log w))
                         (prompt_response_chunks (w_log w)) (rl_notified (w_log w))) w)
| ws_commit visible now id c p l :
    publish_in_tx visible now id c (w_log w) = Ok (p, l) →
    wstep w (with_tasks (w_tasks w ++ [Committed id p]) (w_lost w) (with_log l w))
| ws_sender i id p chan h :
    w_tasks w !! i = Some (Committed id p) →
    publish_sender cap id (pc_terminal p) (w_hub w) = (Ok chan, h) →
    wstep w (with_tasks (<[i := Holding id chan (pc_envelope p)]> (w_tasks w)) (w_lost w) (with_hub id h w))
| ws_refused i id p e h :
    w_tasks w !! i = Some (Committed id p) →
    publish_sender cap id (pc_terminal p) (w_hub w) = (Err e, h) →
    wstep w (with_tasks (delete i (w_tasks w)) ((id, pc_envelope p) :: w_lost w) (with_hub id h w))
| ws_send i id chan e :
    w_tasks w !! i = Some (Holding id chan e) →
    wstep w (with_tasks (delete i (w_tasks w)) (w_lost w) (with_hub id (send chan e (w_hub w)) w))
| ws_cancel i t :
    w_tasks w !! i = Some t →
    wstep w (with_tasks (delete i (w_tasks w)) (task_key t :: w_lost w) w)
| ws_close visible id l :
    close_in_tx visible id (w_log w) = Ok (tt, l) → wstep w (with_log l w)
| ws_mark id :
    wstep w (with_hub id (mark_closed cap id (w_hub w)).2 w)
| ws_subscribe id since chan start closed h :
    subscribe_live cap id (w_hub w) = (Ok (chan, start, closed), h) →
    wstep w (with_subs (w_subs w ++ [mkSub id since chan start start None [] []]) (with_hub id h w))
| ws_backlog i s :
    w_subs w !! i = Some s → sb_backlog s = None →
    wstep w (with_subs (<[i := read_sub (w_log w) s]> (w_subs w)) w)
| ws_poll i s log s' :
    w_subs w !! i = Some s → hb_channels (w_hub w) !! sb_chan s = Some log → poll log s = Some s' →
    wstep w (with_subs (<[i := s']> (w_subs w)) w)
| ws_drop i : wstep w (with_subs (delete i (w_subs w)) w).

Definition w_empty : world := mkWorld (mkRlog ∅ ∅ [] []) hub_empty [] [] [] [].
Definition w_reachable : world → Prop := rtc wstep w_empty.
End system.

(** ** Where the chunks are *)

Definition chunk_key (c : ChunkRow) : keyed := (ck_request_id c, mkEnvelope (ck_seq c) (ck_payload c)).
Definition persisted (l : rlog) : list keyed := chunk_key <$> prompt_response_chunks l.
Definition sent (owners : list N) (chans : list (list Envelope)) : list keyed :=
  concat (zip_with (λ o log, pair o <$> log) owners chans).
Definition places (w : world) : list keyed :=
  (task_key <$> w_tasks w) ++ sent (w_owners w) (hb_channels (w_hub w)) ++ w_lost w.

Lemma sent_snoc owners chans o :
  length owners = length chans → sent (owners ++ [o]) (chans ++ [[]]) = sent owners chans.
Proof.
  intros Hl. unfold sent. rewrite zip_with_app by done. by rewrite concat_app, app_nil_r.
Qed.
Lemma sent_send owners chans c id e :
  length owners = length chans → owners !! c = Some id →
  sent owners (alter (λ log, log ++ [e]) c chans) ≡ₚ (id, e) :: sent owners chans.
Proof.
  revert chans c. induction owners as [|o owners IH]; intros [|log chans] [|c]; try done; cbn.
  - intros _ [= ->]. unfold sent. cbn. rewrite fmap_app. cbn. rewrite <-app_assoc. cbn.
    by rewrite <-Permutation_middle.
  - intros [= Hl] Hc. unfold sent in *. cbn. rewrite (IH _ _ Hl Hc). by rewrite <-Permutation_middle.
Qed.
Lemma elem_of_sent owners chans id e :
  (id, e) ∈ sent owners chans ↔ ∃ c log, owners !! c = Some id ∧ chans !! c = Some log ∧ e ∈ log.
Proof.
  revert chans. unfold sent. induction owners as [|o owners IH]; intros [|log chans]; cbn;
    [set_solver| | |].
  - split; [set_solver|naive_solver].
  - split; [set_solver|]. intros ([|] & ? & ? & ? & ?); done.
  - rewrite elem_of_app, IH, list_elem_of_fmap. split.
    + intros [(e' & [= -> ->] & He)|(c & l & ? & ? & ?)]; [by exists 0, log|by exists (S c), l].
    + intros ([|c] & l & Ho & Hl & He); cbn in *; simplify_eq; [left; eauto|right; eauto].
Qed.
Lemma sent_log_nodup owners chans c id log :
  owners !! c = Some id → chans !! c = Some log →
  NoDup ((λ k, (k.1, en_seq k.2)) <$> sent owners chans) → NoDup (en_seq <$> log).
Proof.
  revert chans c. unfold sent.
  induction owners as [|o owners IH]; intros [|l chans] [|c]; cbn; try done.
  - intros [= ->] [= ->]. rewrite fmap_app, NoDup_app. intros [Hd _].
    rewrite <-list_fmap_compose in Hd. apply (NoDup_fmap_1 (pair id)).
    rewrite <-list_fmap_compose. exact Hd.
  - intros Ho Hl. rewrite fmap_app, NoDup_app. intros (_ & _ & Hd). by eapply IH.
Qed.

(** ** The log: numbers without gaps *)

Definition stream_seqs (l : rlog) (id : N) : list Z :=
  ck_seq <$> filter (λ c, ck_request_id c = id) (prompt_response_chunks l).
Definition next_of (l : rlog) (id : N) : Z := from_option sr_next_seq 0%Z (prompt_response_streams l !! id).

Record log_ok (l : rlog) : Prop := {
  lo_next : ∀ id, (0 ≤ next_of l id)%Z;
  lo_seqs : ∀ id, stream_seqs l id = seqZ 0 (next_of l id) }.

Lemma persisted_seq l id e : log_ok l → (id, e) ∈ persisted l → (0 ≤ en_seq e < next_of l id)%Z.
Proof.
  intros Hl (c & [= -> ->] & Hc)%list_elem_of_fmap. cbn.
  assert (ck_seq c ∈ stream_seqs l (ck_request_id c)) as Hs.
  { apply list_elem_of_fmap_2. by apply list_elem_of_filter. }
  rewrite (lo_seqs _ Hl), elem_of_seqZ in Hs. lia.
Qed.

Lemma persisted_nodup l : log_ok l → NoDup ((λ k, (k.1, en_seq k.2)) <$> persisted l).
Proof.
  intros Hl. unfold persisted. rewrite <-list_fmap_compose. unfold compose. cbn.
  assert (∀ id, NoDup (stream_seqs l id)) as Hs.
  { intros id. rewrite (lo_seqs _ Hl). apply NoDup_seqZ. }
  unfold stream_seqs in Hs. clear Hl.
  induction (prompt_response_chunks l) as [|c cs IH]; cbn; constructor.
  - intros (c' & [= Hid Hq] & Hc')%list_elem_of_fmap. specialize (Hs (ck_request_id c)).
    rewrite filter_cons_True in Hs by done. cbn in Hs. apply NoDup_cons in Hs as [Hn _]. apply Hn.
    rewrite Hq. apply list_elem_of_fmap_2. by apply list_elem_of_filter.
  - apply IH. intros id. specialize (Hs id). rewrite filter_cons in Hs.
    case_decide; [by apply NoDup_cons in Hs as [_ Hs]|done].
Qed.

Section log.
Context `{UuidPrinter, JsonPrinter}.

(** One publish adds the next number of its request, whatever else is in the log. *)
Lemma publish_in_tx_ok visible now id c l p l' :
  publish_in_tx visible now id c l = Ok (p, l') → log_ok l →
  log_ok l' ∧ persisted l' = persisted l ++ [(id, pc_envelope p)]
  ∧ pc_envelope p = mkEnvelope (next_of l id) c ∧ pc_terminal p = chunk_is_terminal c
  ∧ rl_requests l' = rl_requests l.
Proof.
  intros Hp Hl. unfold publish_in_tx in Hp.
  destruct (rl_requests l !! id) as [[org th]|]; [|done].
  destruct (visible org); [|done]. cbn [negb] in Hp.
  set (row := match prompt_response_streams l !! id with None => _ | Some _ => _ end) in Hp.
  assert (sr_next_seq row - 1 = next_of l id)%Z as Hrow.
  { unfold next_of, row. destruct (prompt_response_streams l !! id); cbn; lia. }
  rewrite Hrow in Hp. destruct (I64_MAX <? _)%Z; [done|]. destruct (existsb _ _); [done|].
  destruct (sr_next_seq row <? 1)%Z; [done|]. injection Hp as <- <-. cbn.
  split; [|split; [by unfold persisted; cbn; rewrite fmap_app|done]].
  assert (∀ i, next_of (mkRlog (rl_requests l) (<[id:=row]> (prompt_response_streams l))
    (prompt_response_chunks l ++ [mkChunkRow id org (next_of l id) c
       (Z.min (Z.of_nat (weight c)) I32_MAX) (chunk_is_terminal c) now])
    (rl_notified l ++ [(id, th, next_of l id)])) i
    = if decide (i = id) then (next_of l id + 1)%Z else next_of l i) as Hn.
  { intros i. unfold next_of at 1. cbn. case_decide as Hi; [subst i|].
    - rewrite lookup_insert_eq. cbn. lia.
    - by rewrite lookup_insert_ne. }
  split; intros i; rewrite Hn.
  - pose proof (lo_next _ Hl i). pose proof (lo_next _ Hl id). case_decide; lia.
  - unfold stream_seqs. cbn. rewrite filter_app, fmap_app.
    change (ck_seq <$> filter _ (prompt_response_chunks l)) with (stream_seqs l i).
    rewrite (lo_seqs _ Hl). case_decide as Hi; [subst i|].
    + rewrite filter_cons_True by done. cbn. pose proof (lo_next _ Hl id). by rewrite seqZ_app by lia.
    + rewrite filter_cons_False by done. cbn. by rewrite app_nil_r.
Qed.

(** The statement that would fail on a number taken twice never does. *)
Lemma publish_never_clashes visible now id c l :
  log_ok l → publish_in_tx visible now id c l ≠ Err (ResponseDb "prompt_response_chunks_pkey")
  ∧ (∀ m, publish_in_tx visible now id c l ≠ Panic m).
Proof.
  intros Hl. unfold publish_in_tx. destruct (rl_requests l !! id) as [[org th]|]; [|done].
  destruct (visible org); [|done]. cbn [negb].
  set (row := match prompt_response_streams l !! id with None => _ | Some _ => _ end).
  assert (sr_next_seq row = next_of l id + 1)%Z as Hrow.
  { unfold next_of, row. destruct (prompt_response_streams l !! id); cbn; lia. }
  rewrite Hrow. destruct (I64_MAX <? _)%Z; [done|].
  destruct (existsb _ _) eqn:Ex.
  - exfalso. apply existsb_exists in Ex as (ch & Hin & Hch). bools.
    apply list_elem_of_In in Hin.
    pose proof (persisted_seq l id (mkEnvelope (ck_seq ch) (ck_payload ch)) Hl) as Hq. cbn in Hq.
    assert ((id, mkEnvelope (ck_seq ch) (ck_payload ch)) ∈ persisted l) as Hx; [|specialize (Hq Hx); lia].
    apply list_elem_of_fmap. exists ch. split; [|done]. unfold chunk_key. by f_equal.
  - pose proof (lo_next _ Hl id). destruct (next_of l id + 1 <? 1)%Z eqn:E; [lia|]. done.
Qed.
End log.

Lemma close_in_tx_ok visible id l l' :
  close_in_tx visible id l = Ok (tt, l') → log_ok l →
  log_ok l' ∧ prompt_response_chunks l' = prompt_response_chunks l.
Proof.
  intros Hc Hl. unfold close_in_tx in Hc.
  destruct (rl_requests l !! id) as [[org th]|]; [|by injection Hc as <-].
  destruct (visible org); [|by injection Hc as <-]. cbn [negb] in Hc. injection Hc as <-. cbn. split; [|done].
  assert (∀ row i, row = match prompt_response_streams l !! id with
      | None => mkStreamRow org 0 true | Some s => mkStreamRow (sr_org_id s) (sr_next_seq s) true end →
    next_of (mkRlog (rl_requests l) (<[id:=row]> (prompt_response_streams l))
      (prompt_response_chunks l) (rl_notified l)) i = next_of l i) as Hn.
  { intros row i Hrow. unfold next_of. cbn. destruct (decide (i = id)) as [->|Hi].
    - rewrite lookup_insert_eq, Hrow. cbn. by destruct (prompt_response_streams l !! id).
    - by rewrite lookup_insert_ne. }
  split; intros i; rewrite (Hn _ _ eq_refl); [apply (lo_next _ Hl)|apply (lo_seqs _ Hl)].
Qed.

(** ** The hub: a bounded table of slots *)

Record hub_ok (cap : nat) (owners : list N) (h : hub) : Prop := {
  ho_order : NoDup (hb_order h);
  ho_dom : ∀ id, id ∈ hb_order h ↔ is_Some (hb_slots h !! id);
  ho_cap : length (hb_order h) ≤ cap;
  ho_len : length owners = length (hb_channels h);
  ho_own : ∀ id s, hb_slots h !! id = Some s → owners !! sl_chan s = Some id }.

Lemma hub_size cap owners h : hub_ok cap owners h → size (hb_slots h) = length (hb_order h).
Proof.
  intros Hh. rewrite <-size_dom, <-(size_list_to_set (C := gset N)) by apply (ho_order _ _ _ Hh).
  f_equal. apply set_eq. intros id. by rewrite elem_of_dom, elem_of_list_to_set, (ho_dom _ _ _ Hh).
Qed.

Lemma remove_first_Some p l v r :
  remove_first p l = Some (v, r) → ∃ a b, l = a ++ v :: b ∧ r = a ++ b.
Proof.
  revert r. induction l as [|x l IH]; intros r; cbn; [done|].
  destruct (p x); [intros [= <- <-]; by exists [], l|].
  destruct (remove_first p l) as [[v' r']|]; [|done]. intros [= <- <-].
  destruct (IH _ eq_refl) as (a & b & -> & ->). by exists (x :: a), b.
Qed.

Lemma hub_evict_ok cap owners h :
  hub_ok cap owners h → hb_order h ≠ [] →
  hub_ok (pred (length (hb_order h))) owners (hub_evict_one h) ∧ hb_channels (hub_evict_one h) = hb_channels h
  ∧ (∀ id, hb_slots h !! id = None → hb_slots (hub_evict_one h) !! id = None).
Proof.
  intros Hh Hne.
  assert (∃ v a b, hb_order h = a ++ v :: b
    ∧ hub_evict_one h = mkHub (delete v (hb_slots h)) (a ++ b) (hb_channels h)) as (v & a & b & Ho & ->).
  { unfold hub_evict_one. destruct (remove_first _ _) as [[v r]|] eqn:Er.
    - apply remove_first_Some in Er as (a & b & -> & ->). eauto.
    - destruct (hb_order h) as [|x l] eqn:E; [done|]. by exists x, [], l. }
  destruct Hh as [H1 H2 H3 H4 H5]. rewrite Ho in *.
  assert (NoDup (v :: a ++ b)) as Hnd by (by rewrite Permutation_middle).
  apply NoDup_cons in Hnd as [Hv Hnd].
  split; [|split; [done|]].
  - split; cbn.
    + done.
    + intros id. destruct (decide (id = v)) as [->|Hi].
      * rewrite lookup_delete_eq. split; [done|by intros []].
      * rewrite lookup_delete_ne by done. rewrite <-H2, !elem_of_app, elem_of_cons. naive_solver.
    + rewrite !length_app. cbn. lia.
    + done.
    + intros id s [_ Hs]%lookup_delete_Some. by apply H5.
  - intros id Hi. cbn. apply lookup_delete_None. by right.
Qed.

(** [touch_slot] keeps the table within its cap and leaves a slot to be found. *)
Lemma touch_slot_ok cap id owners h :
  0 < cap → hub_ok cap owners h →
  let h' := touch_slot cap id h in
  let owners' := owners ++ replicate (length (hb_channels h') - length (hb_channels h)) id in
  hub_ok cap owners' h' ∧ (∃ s, hb_slots h' !! id = Some s)
  ∧ sent owners' (hb_channels h') = sent owners (hb_channels h)
  ∧ hb_channels h `prefix_of` hb_channels h'.
Proof.
  intros Hc Hh. unfold touch_slot.
  destruct (hb_slots h !! id) as [s|] eqn:Es; cbn zeta.
  { rewrite Nat.sub_diag. cbn. rewrite app_nil_r. eauto 10. }
  set (h1 := if _ <=? _ then _ else h).
  assert (hub_ok (pred cap) owners h1 ∧ hb_channels h1 = hb_channels h ∧ hb_slots h1 !! id = None)
    as (Hh1 & Hch & Hid).
  { unfold h1. pose proof (hub_size _ _ _ Hh) as Hsz. pose proof (ho_cap _ _ _ Hh).
    destruct (cap <=? size (hb_slots h)) eqn:Ec.
    - apply Nat.leb_le in Ec.
      destruct (hub_evict_ok _ _ _ Hh) as (Ho & Hch & Hn); [by destruct (hb_order h); cbn in *; [lia|]|].
      split; [|by eauto]. destruct Ho. split; try done. lia.
    - apply Nat.leb_gt in Ec. split; [|done]. destruct Hh. split; try done. lia. }
  clearbody h1. rewrite Hch. cbn. rewrite length_app. cbn.
  replace (length (hb_channels h) + 1 - length (hb_channels h)) with 1 by lia. cbn.
  assert (length owners = length (hb_channels h)) as Hlen by (by rewrite <-Hch; apply (ho_len _ _ _ Hh1)).
  split_and!.
  - destruct Hh1 as [H1 H2 H3 H4 H5]. split; cbn.
    + apply NoDup_app. split; [done|]. split; [|apply NoDup_singleton].
      intros x Hx ->%list_elem_of_singleton. apply H2 in Hx as [? ?]. congruence.
    + intros i. rewrite elem_of_app, list_elem_of_singleton. destruct (decide (i = id)) as [->|Hi].
      * rewrite lookup_insert_eq. naive_solver.
      * rewrite lookup_insert_ne by done. rewrite <-H2. naive_solver.
    + rewrite length_app. cbn. lia.
    + rewrite !length_app. cbn. lia.
    + intros i s. destruct (decide (i = id)) as [->|Hi].
      * rewrite lookup_insert_eq. intros [= <-]. cbn. rewrite <-Hlen. apply list_lookup_middle. done.
      * rewrite lookup_insert_ne by done. intros Hs. apply lookup_app_l_Some. by apply H5.
  - rewrite lookup_insert_eq. eauto.
  - by apply sent_snoc.
  - by eexists.
Qed.

Lemma set_closed_ok cap owners id h : hub_ok cap owners h → hub_ok cap owners (set_closed id h).
Proof.
  intros [H1 H2 H3 H4 H5]. split; cbn; try done.
  - intros i. by rewrite H2, lookup_alter_is_Some.
  - intros i s Hs. destruct (decide (i = id)) as [->|Hi].
    + rewrite lookup_alter_eq in Hs. destruct (hb_slots h !! id) as [s0|] eqn:E; [|done].
      injection Hs as <-. cbn. by apply H5.
    + rewrite lookup_alter_ne in Hs by done. by apply H5.
Qed.

Lemma send_ok cap owners c e h : hub_ok cap owners h → hub_ok cap owners (send c e h).
Proof. intros []. split; cbn; try done. by rewrite length_alter. Qed.

(** ** A subscriber *)

Definition chunks_of (out : list StreamEvent) : list Envelope :=
  omap (λ ev, match ev with SEChunk e => Some e | SEStalled => None end) out.
Definition covered (thr : option Z) (n : Z) : bool :=
  match thr with Some t => (n <=? t)%Z | None => false end.

(** A backlog as of some earlier state of the log, still right in this one. *)
Record backlog_ok (l : rlog) (id : N) (since : option Z) (bl : list Envelope) (thr : option Z) : Prop := {
  bo_nodup : NoDup (en_seq <$> bl);
  bo_elem : ∀ e, e ∈ bl ↔ (id, e) ∈ persisted l ∧ after since (en_seq e) = true ∧ covered thr (en_seq e) = true;
  bo_since : ∀ n, after since n = false → covered thr n = true;
  bo_thr : thr = since ∨ ∃ e, (id, e) ∈ persisted l ∧ thr = Some (en_seq e) }.

Lemma after_covered since n : after since n = negb (covered since n).
Proof. destruct since; cbn; lia. Qed.

Lemma max_seq_spec (rows : list ChunkRow) (since : option Z) :
  let thr := foldl (λ m c, Some (match m with None => ck_seq c | Some m => Z.max m (ck_seq c) end)) since rows in
  (∀ n, covered since n = true → covered thr n = true)
  ∧ (∀ c, c ∈ rows → covered thr (ck_seq c) = true)
  ∧ (thr = since ∨ ∃ c, c ∈ rows ∧ thr = Some (ck_seq c)).
Proof.
  revert since. induction rows as [|c rows IH]; intros since; cbn zeta; cbn [foldl].
  { split; [done|]. split; [set_solver|by left]. }
  destruct (IH (Some (match since with None => ck_seq c | Some m => Z.max m (ck_seq c) end))) as (H1 & H2 & H3).
  split_and!.
  - intros n Hn. apply H1. destruct since; cbn in *; lia.
  - intros c' [->|Hc]%elem_of_cons; [|by apply H2]. apply H1. destruct since; cbn; lia.
  - destruct H3 as [->|(c' & ? & ->)]; [|right; set_solver].
    destruct since as [t|]; [|right; set_solver].
    destruct (Z.max_spec t (ck_seq c)) as [[_ ->]|[_ ->]]; [right; set_solver|by left].
Qed.

Lemma read_backlog_ok l id since :
  log_ok l →
  let b := read_backlog id since l in
  backlog_ok l id since b.1 b.2 ∧ ∀ e, (id, e) ∈ persisted l → covered b.2 (en_seq e) = true.
Proof.
  intros Hl. unfold read_backlog. cbn. set (rows := sort_by _ _).
  assert (∀ c, c ∈ rows ↔ (ck_request_id c = id ∧ after since (ck_seq c) = true) ∧ c ∈ prompt_response_chunks l) as Hrows.
  { intros c. unfold rows. by rewrite elem_of_sort_by, list_elem_of_filter. }
  destruct (max_seq_spec rows since) as (H1 & H2 & H3). cbn zeta in *.
  set (thr := foldl _ since rows) in *. clearbody thr.
  assert (∀ n, after since n = false → covered thr n = true) as Hsince.
  { intros n Hn. apply H1. rewrite after_covered in Hn. by destruct (covered since n). }
  assert (∀ e, e ∈ ((λ c, mkEnvelope (ck_seq c) (ck_payload c)) <$> rows)
    ↔ (id, e) ∈ persisted l ∧ after since (en_seq e) = true) as Hel.
  { intros e. unfold persisted. rewrite !list_elem_of_fmap. split.
    - intros (c & -> & ((<- & ?) & ?)%Hrows). cbn. eauto.
    - intros ((c & [= -> ->] & ?) & ?). exists c. by rewrite Hrows. }
  assert (∀ e, (id, e) ∈ persisted l → covered thr (en_seq e) = true) as Hcov.
  { intros e He. destruct (after since (en_seq e)) eqn:Ha; [|by apply Hsince].
    assert (e ∈ ((λ c, mkEnvelope (ck_seq c) (ck_payload c)) <$> rows)) as (c & -> & Hc)%list_elem_of_fmap
      by (by apply Hel). by apply (H2 c). }
  split; [|done]. split; [| |done|].
  - rewrite <-list_fmap_compose. unfold compose. cbn.
    unfold rows. rewrite sort_by_perm.
    assert (NoDup (stream_seqs l id)) as Hn by (rewrite (lo_seqs _ Hl); apply NoDup_seqZ).
    unfold stream_seqs in Hn. rewrite (filter_ext_in _ (λ c, after since (ck_seq c) = true ∧ ck_request_id c = id)) by naive_solver.
    rewrite <-list_filter_filter. by apply NoDup_fmap_filter.
  - intros e. rewrite Hel. naive_solver.
  - destruct H3 as [?|(c & Hc & ->)]; [by left|right].
    exists (mkEnvelope (ck_seq c) (ck_payload c)). split; [|done].
    apply Hrows in Hc as [[<- _] Hc]. unfold persisted. apply list_elem_of_fmap. by exists c.
Qed.

#[local] Arguments read_backlog : simpl never.

(** The log only grows at the end of each request. *)
Definition log_grows (l l' : rlog) : Prop :=
  ∃ ks, persisted l' = persisted l ++ ks ∧ ∀ id e, (id, e) ∈ ks → (next_of l id ≤ en_seq e)%Z.

Lemma backlog_ok_grows l l' id since bl thr :
  log_ok l → log_grows l l' → backlog_ok l id since bl thr → backlog_ok l' id since bl thr.
Proof.
  intros Hl (ks & Hks & Hnew) [H1 H2 H3 H4]. split; [done| |done|].
  - intros e. rewrite H2, Hks, elem_of_app. split; [naive_solver|].
    intros ([?|Hk] & Ha & Hc); [done|exfalso]. specialize (Hnew _ _ Hk).
    destruct H4 as [->|(e' & He' & ->)].
    + rewrite after_covered, Hc in Ha. done.
    + apply (persisted_seq _ _ _ Hl) in He'. cbn in Hc. lia.
  - rewrite Hks. destruct H4 as [?|(e & ? & ?)]; [by left|right]. exists e. set_solver.
Qed.

(** What the client got so far, against the receiver's log. *)
Definition stream_ok (log : list Envelope) (s : sub) (bl : list Envelope) (thr : option Z) : Prop :=
  ∃ seen, seen `sublist_of` drop (sb_start s) (take (sb_pos s) log)
  ∧ chunks_of (sb_out s) ++ sb_left s = bl ++ filter (λ e, covered thr (en_seq e) = false) seen
  ∧ (sb_left s ≠ [] → sb_pos s = sb_start s)
  ∧ (SEStalled ∉ sb_out s → seen = drop (sb_start s) (take (sb_pos s) log)).

Definition sub_ok (w : world) (s : sub) : Prop :=
  ∃ log, w_owners w !! sb_chan s = Some (sb_id s) ∧ hb_channels (w_hub w) !! sb_chan s = Some log
  ∧ sb_start s ≤ sb_pos s ≤ length log
  ∧ match sb_backlog s with
    | None => sb_pos s = sb_start s ∧ sb_left s = [] ∧ sb_out s = []
    | Some (bl, thr) =>
        backlog_ok (w_log w) (sb_id s) (sb_since s) bl thr
        ∧ (∀ e, e ∈ take (sb_start s) log → covered thr (en_seq e) = true)
        ∧ stream_ok log s bl thr
    end.

Definition world_grows (w w' : world) : Prop :=
  log_grows (w_log w) (w_log w') ∧ w_owners w `prefix_of` w_owners w'
  ∧ ∀ c log, hb_channels (w_hub w) !! c = Some log → ∃ t, hb_channels (w_hub w') !! c = Some (log ++ t).

Lemma sub_ok_grows w w' s :
  log_ok (w_log w) → world_grows w w' → sub_ok w s → sub_ok w' s.
Proof.
  intros Hl (Hlog & Hown & Hch) (log & Ho & Hc & Hp & Hs). destruct (Hch _ _ Hc) as [t Ht].
  exists (log ++ t). rewrite length_app. split_and!; [|done|lia|lia|].
  - destruct Hown as [k ->]. by apply lookup_app_l_Some.
  - destruct (sb_backlog s) as [[bl thr]|]; [|done]. destruct Hs as (Hb & Hcov & Hst).
    split; [by eapply backlog_ok_grows|]. unfold stream_ok. rewrite !take_app_le by lia. done.
Qed.

Lemma log_grows_refl l : log_grows l l.
Proof. exists []. rewrite app_nil_r. split; [done|set_solver]. Qed.

(** One item of the stream. *)
Lemma poll_ok w s log s' :
  sub_ok w s → hb_channels (w_hub w) !! sb_chan s = Some log → poll log s = Some s' → sub_ok w s'.
Proof.
  intros (log' & Ho & Hc & Hp & Hs) Hc' Hpoll. rewrite Hc in Hc'. injection Hc' as ->.
  unfold poll in Hpoll. destruct (sb_backlog s) as [[bl thr]|] eqn:Eb; [|done].
  destruct Hs as (Hb & Hcov & seen & Hsub & Hout & Hleft & Hall).
  destruct (sb_left s) as [|e lft] eqn:El.
  - destruct (recv log (sb_pos s)) as [[item pos]|] eqn:Er; [|done]. injection Hpoll as <-.
    unfold recv in Er. destruct (length log <=? sb_pos s) eqn:E1; [done|]. apply Nat.leb_gt in E1.
    destruct (MAX_CHUNK_BUFFER_PER_REQUEST <? length log - sb_pos s) eqn:E2.
    + injection Er as <- <-. apply Nat.ltb_lt in E2. exists log. cbn [sb_chan sb_id sb_start sb_pos sb_backlog sb_since].
      rewrite ?Eb. split_and!; [done|done|lia|lia|done|done|]. exists seen. cbn. split_and!.
      * etrans; [exact Hsub|]. set (p := length log - _).
        replace (take p log) with (take (sb_pos s) log ++ drop (sb_pos s) (take p log))
          by (rewrite <-(take_drop (sb_pos s) (take p log)) at 2; by rewrite take_take, Nat.min_l by lia).
        rewrite drop_app_le by (rewrite length_take; lia). by apply sublist_inserts_r.
      * rewrite app_nil_r in Hout. unfold chunks_of in *. rewrite omap_app. cbn. by rewrite !app_nil_r.
      * done.
      * set_solver.
    + destruct (log !! sb_pos s) as [e|] eqn:Ee; [|done]. injection Er as <- <-. exists log.
      cbn [sb_chan sb_id sb_start sb_pos sb_backlog sb_since]. rewrite ?Eb.
      split_and!; [done|done|lia|lia|done|done|].
      assert (drop (sb_start s) (take (S (sb_pos s)) log) = drop (sb_start s) (take (sb_pos s) log) ++ [e]) as Hd.
      { rewrite (take_S_r _ _ _ Ee), drop_app_le; [done|]. rewrite length_take. lia. }
      exists (seen ++ [e]). cbn. rewrite Hd. split_and!.
      * by apply sublist_app.
      * rewrite app_nil_r in Hout. rewrite app_nil_r. unfold chunks_of in *. rewrite omap_app, filter_app, app_assoc, <-Hout. f_equal.
        unfold filter_live. rewrite filter_cons. change (match thr with Some t => (en_seq e <=? t)%Z | None => false end) with (covered thr (en_seq e)).
        destruct (covered thr (en_seq e)); by (case_decide || idtac).
      * done.
      * intros Hn. rewrite Hall; [done|set_solver].
  - injection Hpoll as <-. exists log. cbn [sb_chan sb_id sb_start sb_pos sb_backlog sb_since]. rewrite ?Eb.
    split_and!; [done|done|lia|lia|done|done|]. exists seen. cbn. split_and!; [done| | |].
    + rewrite <-Hout. unfold chunks_of. rewrite omap_app. cbn. by rewrite <-app_assoc.
    + intros _. by apply Hleft.
    + intros Hn. apply Hall. set_solver.
Qed.

(** ** The invariant *)

Record w_inv (cap : nat) (w : world) : Prop := {
  wi_log : log_ok (w_log w);
  wi_hub : hub_ok cap (w_owners w) (w_hub w);
  wi_places : places w ≡ₚ persisted (w_log w);
  wi_tasks : ∀ id c e, Holding id c e ∈ w_tasks w → w_owners w !! c = Some id;
  wi_subs : ∀ s, s ∈ w_subs w → sub_ok w s }.

(** The hub operations other than [send]. *)
Definition touched (cap : nat) (id : N) (w : world) (h : hub) : Prop :=
  let owners := w_owners (with_hub id h w) in
  hub_ok cap owners h ∧ sent owners (hb_channels h) = sent (w_owners w) (hb_channels (w_hub w))
  ∧ hb_channels (w_hub w) `prefix_of` hb_channels h.

Lemma touched_touch cap id w :
  0 < cap → hub_ok cap (w_owners w) (w_hub w) →
  touched cap id w (touch_slot cap id (w_hub w))
  ∧ ∃ s, slot_of id (touch_slot cap id (w_hub w)) = Ok s
    ∧ w_owners (with_hub id (touch_slot cap id (w_hub w)) w) !! sl_chan s = Some id.
Proof.
  intros Hc Hh. destruct (touch_slot_ok cap id _ _ Hc Hh) as (Hh' & [s Hs] & Hsent & Hpre).
  split; [done|]. exists s. unfold slot_of. rewrite Hs. split; [done|]. by apply (ho_own _ _ _ Hh').
Qed.

Lemma touched_closed cap id w h : touched cap id w h → touched cap id w (set_closed id h).
Proof. intros (? & ? & ?). split; [|done]. by apply set_closed_ok. Qed.

Lemma publish_sender_ok `{UuidPrinter} cap id b w r h :
  0 < cap → hub_ok cap (w_owners w) (w_hub w) → publish_sender cap id b (w_hub w) = (r, h) →
  touched cap id w h
  ∧ match r with Ok c => w_owners (with_hub id h w) !! c = Some id | Err _ => True | Panic _ => False end.
Proof.
  intros Hc Hh. destruct (touched_touch cap id w Hc Hh) as (Ht & s & Hs & Ho).
  unfold publish_sender. rewrite Hs. destruct (sl_closed s); intros [= <- <-]; [done|].
  destruct b; [|done]. split; [by apply touched_closed|done].
Qed.

Lemma mark_closed_ok cap id w :
  0 < cap → hub_ok cap (w_owners w) (w_hub w) →
  touched cap id w (mark_closed cap id (w_hub w)).2 ∧ (mark_closed cap id (w_hub w)).1 = Ok tt.
Proof.
  intros Hc Hh. destruct (touched_touch cap id w Hc Hh) as (Ht & s & Hs & Ho).
  unfold mark_closed. rewrite Hs. cbn. split; [by apply touched_closed|done].
Qed.

Lemma subscribe_live_ok cap id w :
  0 < cap → hub_ok cap (w_owners w) (w_hub w) →
  ∃ chan start closed h, subscribe_live cap id (w_hub w) = (Ok (chan, start, closed), h)
  ∧ touched cap id w h ∧ w_owners (with_hub id h w) !! chan = Some id
  ∧ ∃ log, hb_channels h !! chan = Some log ∧ length log = start.
Proof.
  intros Hc Hh. destruct (touched_touch cap id w Hc Hh) as (Ht & s & Hs & Ho).
  unfold subscribe_live. rewrite Hs. cbn. do 4 eexists. split; [done|]. split; [done|]. split; [done|].
  destruct (lookup_lt_is_Some_2 (hb_channels (touch_slot cap id (w_hub w))) (sl_chan s)) as [log Hlog].
  - destruct Ht as (Hh' & _). rewrite <-(ho_len _ _ _ Hh'). by eapply lookup_lt_Some.
  - exists log. by rewrite Hlog.
Qed.

Lemma w_grows_of cap id w h : touched cap id w h → world_grows w (with_hub id h w).
Proof.
  intros (Hh & Hs & Hp). split; [apply log_grows_refl|]. split; [by eexists|].
  intros c log Hc. exists []. rewrite app_nil_r. destruct Hp as [k Hk]. cbn. rewrite Hk.
  by apply lookup_app_l_Some.
Qed.

(** Changing only the tasks and the lost. *)
Lemma w_inv_tasks cap w ts lost :
  w_inv cap w → (task_key <$> ts) ++ lost ≡ₚ (task_key <$> w_tasks w) ++ w_lost w →
  (∀ id c e, Holding id c e ∈ ts → w_owners w !! c = Some id) →
  w_inv cap (with_tasks ts lost w).
Proof.
  intros [H1 H2 H3 H4 H5] Hp Ht. split; try done.
  rewrite <-H3. unfold places. cbn.
  etrans; [apply Permutation_app_swap_app|]. etrans; [|apply Permutation_app_swap_app]. by apply Permutation_app_head.
Qed.

Lemma w_inv_touched cap id w h : w_inv cap w → touched cap id w h → w_inv cap (with_hub id h w).
Proof.
  intros [H1 H2 H3 H4 H5] Ht. pose proof (w_grows_of _ _ _ _ Ht) as Hg. destruct Ht as (Hh & Hs & Hp).
  split; [done|done| | |].
  - unfold places. cbn in *. by rewrite Hs.
  - intros i c e Hin. destruct Hg as (_ & Hg & _). cbn in *. destruct Hg as [k ->].
    apply lookup_app_l_Some. by eapply H4.
  - intros s Hin. eapply sub_ok_grows; eauto.
Qed.

Lemma w_inv_log cap w l :
  w_inv cap w → log_ok l → persisted l = persisted (w_log w) → w_inv cap (with_log l w).
Proof.
  intros [H1 H2 H3 H4 H5] Hl Hp. split; try done.
  - cbn. by rewrite Hp.
  - intros s Hs. eapply sub_ok_grows; [exact H1| |by apply H5]. split; [|split].
    + exists []. rewrite app_nil_r. split; [done|set_solver].
    + done.
    + intros c log ?. exists []. by rewrite app_nil_r.
Qed.

Lemma w_inv_subs cap w ss :
  w_inv cap w → (∀ s, s ∈ ss → sub_ok w s) → w_inv cap (with_subs ss w).
Proof. intros [] Hs. by split. Qed.

Lemma elem_of_list_insert {A} (l : list A) i x y : y ∈ <[i:=x]> l → y = x ∨ y ∈ l.
Proof.
  intros [j Hj]%list_elem_of_lookup. apply list_lookup_insert_Some in Hj as [(_ & -> & _)|[_ Hj]];
    [by left|right]. by eapply list_elem_of_lookup_2.
Qed.
Lemma elem_of_list_delete {A} (l : list A) i y : y ∈ delete i l → y ∈ l.
Proof. intros. eapply elem_of_sublist; [done|]. apply sublist_delete. Qed.

Lemma empty_hub_ok cap : hub_ok cap [] hub_empty.
Proof.
  split; cbn; [constructor| |lia|done|by intros id s]. intros id. rewrite lookup_empty.
  split; [set_solver|by intros []].
Qed.
Lemma empty_log_ok rs : log_ok (mkRlog rs ∅ [] []).
Proof. split; intros id; unfold stream_seqs, next_of; cbn; by rewrite lookup_empty. Qed.

Section inv.
Context `{UuidPrinter, JsonPrinter} (cap : nat) (Hcap : 0 < cap).

Lemma w_inv_commit w visible now id c p l :
  w_inv cap w → publish_in_tx visible now id c (w_log w) = Ok (p, l) →
  w_inv cap (with_tasks (w_tasks w ++ [Committed id p]) (w_lost w) (with_log l w)).
Proof.
  intros [H1 H2 H3 H4 H5] Hp. destruct (publish_in_tx_ok _ _ _ _ _ _ _ Hp H1) as (Hl & Hk & He & _ & _).
  split; [done|done| | |].
  - unfold places in *. cbn. rewrite Hk, fmap_app, <-H3. cbn. rewrite <-!app_assoc.
    apply Permutation_app_head. cbn. rewrite app_assoc. by apply Permutation_cons_append.
  - intros i ch e. cbn. rewrite elem_of_app, list_elem_of_singleton. intros [?|?]; [by eapply H4|done].
  - intros s Hs. eapply sub_ok_grows; [exact H1| |by apply H5]. split; [|split].
    + exists [(id, pc_envelope p)]. split; [done|]. intros i e [= -> ->]%list_elem_of_singleton. by rewrite He.
    + done.
    + intros ch log ?. exists []. by rewrite app_nil_r.
Qed.

Lemma w_inv_send w i id c e :
  w_inv cap w → w_tasks w !! i = Some (Holding id c e) →
  w_inv cap (with_tasks (delete i (w_tasks w)) (w_lost w) (with_hub id (send c e (w_hub w)) w)).
Proof.
  intros [H1 H2 H3 H4 H5] Hi.
  assert (w_owners w !! c = Some id) as Hc by (eapply H4, list_elem_of_lookup_2, Hi).
  assert (with_hub id (send c e (w_hub w)) w
    = mkWorld (w_log w) (send c e (w_hub w)) (w_owners w) (w_tasks w) (w_lost w) (w_subs w)) as ->.
  { unfold with_hub. cbn. rewrite length_alter, Nat.sub_diag. cbn. by rewrite app_nil_r. }
  split; [done|by apply send_ok| | |].
  - rewrite <-H3.
    change (places _) with ((task_key <$> delete i (w_tasks w))
      ++ sent (w_owners w) (alter (λ log, log ++ [e]) c (hb_channels (w_hub w))) ++ w_lost w) at 1.
    unfold places. rewrite (sent_send _ _ _ id) by (done || apply (ho_len _ _ _ H2)).
    rewrite (delete_Permutation (w_tasks w) i _ Hi) at 2. cbn. by rewrite <-Permutation_middle.
  - intros j ch x Hin%elem_of_list_delete. by eapply H4.
  - intros s Hs. eapply sub_ok_grows; [exact H1| |by apply H5]. split; [apply log_grows_refl|]. split; [done|].
    intros ch log Hch. cbn. destruct (decide (ch = c)) as [->|].
    + rewrite list_lookup_alter_eq, Hch. cbn. by exists [e].
    + rewrite list_lookup_alter_ne by done. exists []. by rewrite app_nil_r.
Qed.

Lemma wstep_inv w w' : w_inv cap w → wstep cap w w' → w_inv cap w'.
Proof.
  intros Hw Hstep. pose proof (wi_hub _ _ Hw) as Hh.
  destruct Hstep as [id row Hr|visible now id c p l Hp|i id p ch h Hi Hp|i id p e h Hi Hp|i id ch e Hi|i t Hi
    |visible id l Hc|id|id since ch start closed h Hs|i s Hi Hb|i s log s' Hi Hl Hp|i].
  - apply w_inv_log; [done| |done]. destruct (wi_log _ _ Hw). by split.
  - by eapply w_inv_commit.
  - destruct (publish_sender_ok _ _ _ w _ _ Hcap Hh Hp) as (Ht & Ho).
    apply w_inv_tasks; [by apply w_inv_touched| |].
    + cbn. apply Permutation_app_tail. rewrite list_fmap_insert, list_insert_id; [done|].
      by rewrite list_lookup_fmap, Hi.
    + intros j k x [[= -> -> ->]|Hin]%elem_of_list_insert; [done|].
      eapply (wi_tasks _ _ (w_inv_touched _ _ _ _ Hw Ht)), Hin.
  - destruct (publish_sender_ok _ _ _ w _ _ Hcap Hh Hp) as (Ht & _).
    apply w_inv_tasks; [by apply w_inv_touched| |].
    + cbn. rewrite (delete_Permutation (w_tasks w) i _ Hi) at 2. cbn. by rewrite <-Permutation_middle.
    + intros j k x Hin%elem_of_list_delete. eapply (wi_tasks _ _ (w_inv_touched _ _ _ _ Hw Ht)), Hin.
  - by apply w_inv_send.
  - apply w_inv_tasks; [done| |].
    + rewrite (delete_Permutation (w_tasks w) i _ Hi) at 2. cbn. by rewrite <-Permutation_middle.
    + intros j k x Hin%elem_of_list_delete. by eapply (wi_tasks _ _ Hw).
  - destruct (close_in_tx_ok _ _ _ _ Hc (wi_log _ _ Hw)) as (Hl & Hk).
    apply w_inv_log; [done|done|]. unfold persisted. by rewrite Hk.
  - by apply w_inv_touched, mark_closed_ok.
  - destruct (subscribe_live_ok cap id w Hcap Hh) as (ch' & st' & cl' & h' & Hs' & Ht & Ho & log & Hlog & Hlen).
    rewrite Hs' in Hs. injection Hs as <- <- <- <-.
    pose proof (w_inv_touched _ _ _ _ Hw Ht) as Hw'. apply w_inv_subs; [done|].
    intros s [Hs|Hs]%elem_of_app; [by apply (wi_subs _ _ Hw')|apply list_elem_of_singleton in Hs as ->].
    exists log. cbn. split_and!; try done; lia.
  - apply w_inv_subs; [done|]. intros s' [->|Hin]%elem_of_list_insert; [|by apply (wi_subs _ _ Hw)].
    destruct (wi_subs _ _ Hw s) as (log & Ho & Hl & Hp & Hsub); [by eapply list_elem_of_lookup_2|].
    rewrite Hb in Hsub. destruct Hsub as (Hpos & Hleft & Hout).
    destruct (read_backlog_ok (w_log w) (sb_id s) (sb_since s) (wi_log _ _ Hw)) as (Hbo & Hcov).
    exists log. unfold read_sub. cbn. split; [done|]. split; [done|]. split; [lia|].
    revert Hbo Hcov. destruct (read_backlog _ _ _) as [bl thr]. cbn. intros Hbo Hcov. split_and!; [done| |].
    + intros e He. apply Hcov. rewrite <-(wi_places _ _ Hw). apply elem_of_app. right.
      apply elem_of_app. left. apply elem_of_sent. exists (sb_chan s), log. split_and!; [done..|].
      eapply elem_of_take in He as (j & Hj & _). by eapply list_elem_of_lookup_2.
    + exists []. unfold stream_ok. cbn. rewrite Hout, Hpos. cbn. rewrite app_nil_r.
      split_and!; [apply sublist_nil_l|done|done|]. intros _. symmetry. apply drop_ge. rewrite length_take. lia.
  - apply w_inv_subs; [done|]. intros x [->|Hin]%elem_of_list_insert; [|by apply (wi_subs _ _ Hw)].
    eapply poll_ok; [|done|done]. eapply (wi_subs _ _ Hw), list_elem_of_lookup_2, Hi.
  - apply w_inv_subs; [done|]. intros x Hin%elem_of_list_delete. by apply (wi_subs _ _ Hw).
Qed.

Lemma w_reachable_inv w : w_reachable cap w → w_inv cap w.
Proof.
  intros Hr. cut (w_inv cap w_empty); [|].
  - unfold w_reachable in Hr. induction Hr as [|x y z Hs _ IH]; [done|]. intros Hx. by eapply IH, wstep_inv.
  - split; [apply empty_log_ok|apply empty_hub_ok|done|cbn; set_solver|cbn; set_solver].
Qed.
End inv.

(** ** The theorems *)

(** The subscriber has read its backlog and polled all there is. *)
Definition drained (w : world) (s : sub) : Prop :=
  is_Some (sb_backlog s) ∧ ∀ log, hb_channels (w_hub w) !! sb_chan s = Some log → poll log s = None.

(** Persisted for [id], and not (yet) on the channel the subscriber listens to. *)
Definition elsewhere (w : world) (s : sub) (e : Envelope) : Prop :=
  (sb_id s, e) ∈ (task_key <$> w_tasks w) ∨ (sb_id s, e) ∈ w_lost w
  ∨ ∃ c log, c ≠ sb_chan s ∧ w_owners w !! c = Some (sb_id s)
      ∧ hb_channels (w_hub w) !! c = Some log ∧ e ∈ log.

Lemma drained_spec w s log bl thr :
  sb_pos s ≤ length log → hb_channels (w_hub w) !! sb_chan s = Some log → sb_backlog s = Some (bl, thr) →
  drained w s → sb_left s = [] ∧ sb_pos s = length log.
Proof.
  intros Hle Hl Hb [_ Hd]. specialize (Hd _ Hl). unfold poll in Hd. rewrite Hb in Hd.
  destruct (sb_left s); [|done]. split; [done|]. unfold recv in Hd.
  destruct (length log <=? sb_pos s) eqn:E1; [apply Nat.leb_le in E1; lia|]. apply Nat.leb_gt in E1.
  destruct (_ <? _); [done|]. destruct (lookup_lt_is_Some_2 log (sb_pos s) E1) as [e He]. by rewrite He in Hd.
Qed.

Lemma nodup_sub_log cap w s log :
  w_inv cap w → w_owners w !! sb_chan s = Some (sb_id s) →
  hb_channels (w_hub w) !! sb_chan s = Some log → NoDup (en_seq <$> log).
Proof.
  intros Hw Ho Hl. eapply sent_log_nodup; [done..|].
  pose proof (persisted_nodup _ (wi_log _ _ Hw)) as Hn. rewrite <-(wi_places _ _ Hw) in Hn.
  unfold places in Hn. rewrite !fmap_app, !NoDup_app in Hn. naive_solver.
Qed.

Section theorems.
Context `{UuidPrinter, JsonPrinter}.

(** Whatever publishers, closers and subscribers do, the numbers of a request's
    chunks are 0, 1, 2, ... without gap or repetition; every persisted chunk is at
    exactly one place (with a publisher that has not sent it, on one channel, or
    lost to a closed slot or a cancelled publisher), and nothing is on a channel that
    was not persisted; the hub holds at most [cap] slots. *)
Theorem chunks_accounted_once (cap : nat) (w : world) :
  0 < cap → w_reachable cap w →
  (∀ id, stream_seqs (w_log w) id = seqZ 0 (next_of (w_log w) id))
  ∧ places w ≡ₚ persisted (w_log w)
  ∧ NoDup ((λ k, (k.1, en_seq k.2)) <$> places w)
  ∧ size (hb_slots (w_hub w)) ≤ cap.
Proof.
  intros Hc Hr. pose proof (w_reachable_inv cap Hc w Hr) as Hw. split_and!.
  - apply (lo_seqs _ (wi_log _ _ Hw)).
  - apply (wi_places _ _ Hw).
  - rewrite (wi_places _ _ Hw). apply persisted_nodup, Hw.
  - rewrite (hub_size _ _ _ (wi_hub _ _ Hw)). apply (ho_cap _ _ _ (wi_hub _ _ Hw)).
Qed.

(** C31: A stream of [subscribe], at any moment of any interleaving: the client has been
    given no chunk twice, only chunks persisted for its request, and none at or
    before [since].  Once it has polled all there is and was not told that it
    stalled, it has every chunk after [since] except those not sent on its channel. *)
Theorem subscriber_sees_each_once (cap : nat) (w : world) (s : sub) :
  0 < cap → w_reachable cap w → s ∈ w_subs w →
  NoDup (en_seq <$> chunks_of (sb_out s))
  ∧ (∀ e, e ∈ chunks_of (sb_out s) →
       (sb_id s, e) ∈ persisted (w_log w) ∧ after (sb_since s) (en_seq e) = true)
  ∧ (drained w s → SEStalled ∉ sb_out s → ∀ e, (sb_id s, e) ∈ persisted (w_log w) →
       after (sb_since s) (en_seq e) = true → e ∈ chunks_of (sb_out s) ∨ elsewhere w s e).
Proof.
  intros Hc Hr Hs. pose proof (w_reachable_inv cap Hc w Hr) as Hw.
  destruct (wi_subs _ _ Hw s Hs) as (log & Ho & Hl & Hp & Hsub).
  destruct (sb_backlog s) as [[bl thr]|] eqn:Eb.
  2: { destruct Hsub as (_ & _ & ->). cbn. split; [constructor|]. split; [set_solver|]. intros [[? ?] _]. congruence. }
  destruct Hsub as ([Hnd Hbl Hsince _] & Hcov & seen & Hseen & Hout & Hleft & Hall).
  assert (∀ e, e ∈ log → (sb_id s, e) ∈ persisted (w_log w)) as Hlog.
  { intros e He. rewrite <-(wi_places _ _ Hw). apply elem_of_app. right. apply elem_of_app. left.
    apply elem_of_sent. eauto. }
  assert (seen `sublist_of` log) as Hsl.
  { etrans; [exact Hseen|]. etrans; [apply sublist_drop|]. apply sublist_take. }
  pose proof (nodup_sub_log _ _ _ _ Hw Ho Hl) as Hnl.
  assert (∀ e, e ∈ chunks_of (sb_out s) ++ sb_left s →
    (sb_id s, e) ∈ persisted (w_log w) ∧ after (sb_since s) (en_seq e) = true) as Hgot.
  { intros e. rewrite Hout, elem_of_app, list_elem_of_filter, Hbl. intros [(? & ? & _)|[Hn He]]; [done|].
    split; [apply Hlog; by eapply elem_of_sublist|]. destruct (after _ _) eqn:Ea; [done|].
    apply Hsince in Ea. congruence. }
  split_and!.
  - assert (NoDup (en_seq <$> (chunks_of (sb_out s) ++ sb_left s))) as Hn.
    { rewrite Hout, fmap_app, NoDup_app. split_and!; [done| |].
      - intros n (e & -> & He%Hbl)%list_elem_of_fmap (e' & Hq & [Hn _]%list_elem_of_filter)%list_elem_of_fmap.
        rewrite <-Hq in Hn. destruct He as (_ & _ & He). congruence.
      - apply NoDup_fmap_filter. eapply sublist_NoDup; [apply Hnl|]. by apply fmap_sublist. }
    rewrite fmap_app, NoDup_app in Hn. naive_solver.
  - intros e He. apply Hgot. apply elem_of_app. by left.
  - intros Hd Hst e He Ha. destruct (drained_spec _ _ _ _ _ (proj2 Hp) Hl Eb Hd) as [Hl0 Hpos].
    rewrite Hl0, app_nil_r in Hout. rewrite Hout. rewrite (Hall Hst), Hpos, take_ge by lia.
    destruct (covered thr (en_seq e)) eqn:Ec.
    { left. apply elem_of_app. left. by apply Hbl. }
    rewrite <-(wi_places _ _ Hw) in He. unfold places, elsewhere in *. rewrite !elem_of_app in He.
    destruct He as [?|[(c & l & Hoc & Hlc & He)%elem_of_sent|?]]; [by eauto| |by eauto].
    destruct (decide (c = sb_chan s)) as [->|Hne]; [|by eauto 12]. left. rewrite Hl in Hlc. injection Hlc as <-.
    apply elem_of_app. right. apply list_elem_of_filter. split; [done|].
    rewrite <-(take_drop (sb_start s) log), elem_of_app in He. destruct He as [He|He]; [|done].
    apply Hcov in He. congruence.
Qed.
End theorems.

(** ** A run: a subscriber overlaps two publishers *)

Module StreamDemo.
#[local] Instance uuid : UuidPrinter := λ n, show_Z (Z.of_N n).
#[local] Instance json : JsonPrinter := λ _, [].
Definition all (_ : OrgId) : bool := true.
Definition text (s : string) : ResponseChunk := RText (lit s).
Definition final : world :=
  {| w_log := mkRlog {[7%N := (1%N, Some 5%N)]} {[7%N := mkStreamRow 1 2 false]}
       [mkChunkRow 7 1 0 (text "a") 1 false 10; mkChunkRow 7 1 1 (text "b") 1 false 11]
       [(7%N, Some 5%N, 0%Z); (7%N, Some 5%N, 1%Z)];
     w_hub := mkHub {[7%N := mkSlot 0 false]} [7%N] [[mkEnvelope 0 (text "a"); mkEnvelope 1 (text "b")]];
     w_owners := [7%N]; w_tasks := []; w_lost := [];
     w_subs := [mkSub 7 None 0 1 2
       (Some ([mkEnvelope 0 (text "a"); mkEnvelope 1 (text "b")], Some 1%Z)) []
       [SEChunk (mkEnvelope 0 (text "a")); SEChunk (mkEnvelope 1 (text "b"))]] |}.

Tactic Notation "run" uconstr(step) :=
  eapply rtc_l; [eapply step; vm_compute; reflexivity|];
  match goal with |- rtc _ ?w _ => let w' := eval vm_compute in w in change w with w' end.

(** "a" is sent, the client subscribes, "b" is committed, the backlog is read, "b" is
    sent: the client polls "a", "b" and skips the second "b". *)
Lemma final_reachable : w_reachable 2 final.
Proof.
  unfold w_reachable. run (ws_request 2 w_empty 7 (1%N, Some 5%N)).
  run (ws_commit 2 _ all 10 7 (text "a")). run (ws_sender 2 _ 0). run (ws_send 2 _ 0).
  run (ws_subscribe 2 _ 7 None). run (ws_commit 2 _ all 11 7 (text "b")). run (ws_sender 2 _ 0).
  run (ws_backlog 2 _ 0). run (ws_send 2 _ 0).
  do 3 run (ws_poll 2 _ 0). apply rtc_refl.
Qed.

(** The live order is the order of the sends: of two publishers on one stream the later
    chunk may come first.  A client that reconnects after it with [since] = 1 is
    never given chunk 0. *)
Lemma live_order_is_send_order : ∃ w s s', w_reachable 2 w ∧ w_subs w = [s; s']
  ∧ (en_seq <$> chunks_of (sb_out s)) = [1%Z] ∧ sb_since s' = Some 1%Z ∧ drained w s'
  ∧ SEStalled ∉ sb_out s' ∧ chunks_of (sb_out s') = []
  ∧ (7%N, mkEnvelope 0 (text "a")) ∈ persisted (w_log w) ∧ w_tasks w = [].
Proof.
  do 3 eexists. split.
  { unfold w_reachable. run (ws_request 2 w_empty 7 (1%N, Some 5%N)).
    run (ws_subscribe 2 _ 7 None). run (ws_backlog 2 _ 0).
    run (ws_commit 2 _ all 10 7 (text "a")). run (ws_commit 2 _ all 11 7 (text "b")).
    run (ws_sender 2 _ 1). run (ws_send 2 _ 1). run (ws_poll 2 _ 0).
    run (ws_subscribe 2 _ 7 (Some 1%Z)). run (ws_sender 2 _ 0). run (ws_send 2 _ 0).
    run (ws_backlog 2 _ 1). run (ws_poll 2 _ 1). apply rtc_refl. }
  split; [reflexivity|]. cbn. split_and!; try done; try set_solver.
  split; [by eexists|]. by intros log [= <-].
Qed.
End StreamDemo.

Lemma chunks_accounted_once_witness :
  stream_seqs (w_log StreamDemo.final) 7 = [0%Z; 1%Z] ∧ size (hb_slots (w_hub StreamDemo.final)) ≤ 2.
Proof.
  destruct (chunks_accounted_once (H := StreamDemo.uuid) (H0 := StreamDemo.json) 2 StreamDemo.final) as (Hs & _ & _ & Hc).
  - lia.
  - exact StreamDemo.final_reachable.
  - split; [exact (Hs 7%N)|exact Hc].
Defined.

Lemma subscriber_sees_each_once_witness :
  ∃ s, s ∈ w_subs StreamDemo.final
  ∧ ∀ e, (7%N, e) ∈ persisted (w_log StreamDemo.final) → e ∈ chunks_of (sb_out s) ∨ elsewhere StreamDemo.final s e.
Proof.
  eexists. split; [apply list_elem_of_here|].
  destruct (subscriber_sees_each_once (H := StreamDemo.uuid) (H0 := StreamDemo.json) 2 StreamDemo.final
    (mkSub 7 None 0 1 2
       (Some ([mkEnvelope 0 (StreamDemo.text "a"); mkEnvelope 1 (StreamDemo.text "b")], Some 1%Z)) []
       [SEChunk (mkEnvelope 0 (StreamDemo.text "a")); SEChunk (mkEnvelope 1 (StreamDemo.text "b"))])) as (_ & _ & Hall).
  - lia.
  - exact StreamDemo.final_reachable.
  - apply list_elem_of_here.
  - intros e He. apply Hall; [|set_solver|exact He|done].
    split; [eexists; reflexivity|]. intros log [= <-]. reflexivity.
Defined.
