(* ===== verification/Office.v ===== *)
(** * The office: the stores a tool call acts on together

    The thread store, the queue, the directory, the response hub and the approval
    store as one state; what each sees of the others' tables; the calls the tools
    make on them, as steps of [Prog] with their results in the trace; and the
    outbound routers ([outbound/router.rs]). *)

From Stdlib Require Import ZArith Lia Ascii String.
From stdpp Require Import base gmap list strings sets relations.
From S2P Require Import Prelude Program Types Queue Threads Colleagues Approvals Responses.

(** ** Error texts *)

Definition ParseError_to_string (e : ParseError) : str :=
  match e with
  | Empty f => lit f ++ lit " is empty"
  | TooLong f max got => lit f ++ lit " too long: max " ++ show_Z (Z.of_nat max) ++ lit ", got "
                         ++ show_Z (Z.of_nat got)
  | OutOfRange f d => lit f ++ lit " out of range: " ++ lit d
  | Malformed f d => lit f ++ lit " malformed: " ++ lit d
  end.

Definition PromptError_to_string `{UuidPrinter} (e : PromptError) : str :=
  match e with
  | Parse e => lit "parse: " ++ ParseError_to_string e
  | RequestNotFound id => lit "request PromptRequestId(" ++ uuid_to_string id ++ lit ") not found"
  | DagBudgetExceeded_ root used cap =>
      lit "dag PromptRequestId(" ++ uuid_to_string root ++ lit ") budget exceeded: " ++ show_Z used
      ++ lit "/" ++ show_Z cap
  | DagNotFound root => lit "dag PromptRequestId(" ++ uuid_to_string root ++ lit ") not found"
  | Sequence e => lit "sequence: " ++ lit (overflow_seq e) ++ lit " overflow"
  | Backend m => lit "queue backend error: " ++ lit m
  | Db m => lit "queue db error: " ++ lit m
  end.

Definition ColleagueKind_debug (k : ColleagueKind) : str :=
  match k with CKHuman => lit "Human" | CKAgent => lit "Agent" end.
Definition ColleagueError_to_string `{UuidPrinter} (e : ColleagueError) : str :=
  match e with
  | ColleagueNotFound id => lit "colleague ColleagueId(" ++ uuid_to_string id ++ lit ") not found"
  | KindSatelliteMismatch => lit "invariant: colleague kind/satellite mismatch"
  | SatelliteUnmapped k => lit "no colleague mapped for " ++ ColleagueKind_debug k ++ lit " satellite"
  | ColleagueParse e => lit "colleague decode: " ++ ParseError_to_string e
  | ColleagueDb m => lit "colleague store db error: " ++ m
  end.

Definition ApprovalError_to_string (e : ApprovalError) : str :=
  match e with
  | ApprovalNotFound => lit "approval not found"
  | NotPending => lit "approval is not pending"
  | Unauthorized => lit "not authorized to decide this approval"
  | ApprovalExpired => lit "approval has expired"
  | ApprovalBackend m => lit "approval backend error: " ++ m
  | ApprovalParse e => ParseError_to_string e
  | ApprovalDb m => lit m
  end.

Inductive OutboundError := OutboundBackend (msg : str) | Timeout.
Definition OutboundError_to_string (e : OutboundError) : str :=
  match e with
  | OutboundBackend m => lit "outbound backend error: " ++ m
  | Timeout => lit "outbound delivery timed out"
  end.

(** The errors of [tools/traits.rs] the system tools raise; the others wrap errors of
    HTTP, URL and JSON. *)
Inductive ToolError := InvalidInput (msg : str) | ToolBackend (msg : str).

(** ** Outbound routers

    What a chat surface answers is the surface's business: a router gives, at each
    moment, the answers of its three calls. *)

Definition MAX_OUTBOUND_ROUTERS : nat := 8.

Record OutboundRouter := mkRouter {
  ensure_delivery : nat → OrgId → ThreadId → res OutboundError unit;
  resolve_target : nat → OrgId → ThreadId → res OutboundError (option PlatformTarget);
  post_approval : nat → OrgId → ThreadId → PlatformTarget → ApprovalId → ActionSummary →
                  res OutboundError (option PlatformMessageId) }.

Definition NoopOutboundRouter : OutboundRouter :=
  mkRouter (λ _ _ _, Ok tt) (λ _ _ _, Ok None) (λ _ _ _ _ _ _, Ok None).

(** [inner] at each moment: empty until the composite is installed. *)
Definition DeferredOutboundRouter (inner : nat → option OutboundRouter) : OutboundRouter :=
  mkRouter
    (λ n o t, match inner n with Some r => ensure_delivery r n o t | None => Ok tt end)
    (λ n o t, match inner n with Some r => resolve_target r n o t | None => Ok None end)
    (λ n o t p i a, match inner n with Some r => post_approval r n o t p i a | None => Ok None end).

(** The loops of [CompositeOutboundRouter]: failures of [ensure_delivery] are logged;
    the first router that answers owns the thread. *)
Fixpoint deliver_all (n : nat) (o : OrgId) (t : ThreadId) (rs : list OutboundRouter)
    : res OutboundError unit :=
  match rs with
  | [] => Ok tt
  | r :: rs' =>
      match ensure_delivery r n o t with
      | Panic m => Panic m
      | _ => deliver_all n o t rs'
      end
  end.
Fixpoint first_answer {A} (f : OutboundRouter → res OutboundError (option A)) (rs : list OutboundRouter)
    : res OutboundError (option A) :=
  match rs with
  | [] => Ok None
  | r :: rs' =>
      a <-? f r ;
      match a with Some a => Ok (Some a) | None => first_answer f rs' end
  end.

Definition CompositeOutboundRouter (rs : list OutboundRouter) : res OutboundError OutboundRouter :=
  rassert (length rs <=? MAX_OUTBOUND_ROUTERS) "outbound router fan-out exceeds bound" ;;?
  Ok (mkRouter (λ n o t, deliver_all n o t rs)
        (λ n o t, first_answer (λ r, resolve_target r n o t) rs)
        (λ n o t p i a, first_answer (λ r, post_approval r n o t p i a) rs)).

(** ** The state *)

Record office := mkOffice {
  of_store : store;
  of_queue : db;
  of_dir : directory;
  of_log : rlog;
  of_hub : hub;
  of_approvals : approvals }.

Definition with_store (s : store) (o : office) : office :=
  mkOffice s (of_queue o) (of_dir o) (of_log o) (of_hub o) (of_approvals o).
Definition with_queue (d : db) (o : office) : office :=
  mkOffice (of_store o) d (of_dir o) (of_log o) (of_hub o) (of_approvals o).
Definition with_stream (l : rlog) (h : hub) (o : office) : office :=
  mkOffice (of_store o) (of_queue o) (of_dir o) l h (of_approvals o).
Definition with_approvals (a : approvals) (o : office) : office :=
  mkOffice (of_store o) (of_queue o) (of_dir o) (of_log o) (of_hub o) a.

(** The tables the queue's statements read beside its own. *)
Definition queue_view (o : office) : db :=
  let d := of_queue o in
  mkDb (prompt_requests d) (claim_leases d) (claim_seq d) (prompt_request_dags d)
    ((λ r, mkColleague (cw_id r) (cw_org_id r) (cw_agent_id r)) <$> dir_colleagues (of_dir o))
    (org_members (of_store o))
    (list_to_map ((λ r, (st_id r, st_org r)) <$> agent_thread_states (of_store o)))
    (background_turns d).

(** The part of [prompt_requests] the response statements read. *)
Definition log_view (o : office) : rlog :=
  mkRlog (list_to_map ((λ r, (pr_id r, (pr_org_id r, pr_thread_id r))) <$> prompt_requests (of_queue o)))
    (prompt_response_streams (of_log o)) (prompt_response_chunks (of_log o)) (rl_notified (of_log o)).

Definition approvals_view (o : office) : approvals :=
  mkApprovals (pending_approval (of_approvals o)) (pending_approval_approvers (of_approvals o))
    (agent_gated_tools (of_approvals o)) (org_members (of_store o)).

Definition sees (o : office) (user : UserId) (org : OrgId) : bool :=
  bool_decide ((user, org) ∈ org_members (of_store o)).

(** ** The calls *)

Inductive ocall :=
| OReadColleague (id : ColleagueId) (r : res ColleagueError ResolvedColleague)
| OColleagueInChannel (channel : ChannelId) (c : ColleagueId) (r : res ThreadError bool)
| OIsMember (thread : ThreadId) (user : UserId) (r : res ThreadError bool)
| OCreateThread (caller : Caller) (channel : option ChannelId) (by_ : ColleagueId) (dm : option ColleagueId)
    (r : res ThreadError ThreadId)
| OParticipation (caller : Caller) (thread : ThreadId) (agent : AgentId) (r : res ThreadError AgentThreadId)
| OAppend (caller : Caller) (thread : ThreadId) (m : NewMessage) (r : res ThreadError ThreadMessageId)
| OCommitChunk (user : UserId) (id : PromptRequestId) (c : ResponseChunk) (r : res ResponseError PersistedChunk)
| OFanout (id : PromptRequestId) (p : PersistedChunk) (r : res ResponseError Z)
| OCommitClose (user : UserId) (id : PromptRequestId) (r : res ResponseError unit)
| OMarkClosed (id : PromptRequestId) (r : res ResponseError unit)
| OBump (user : UserId) (root : PromptRequestId) (r : res PromptError BudgetBumped)
| OEnqueue (trig : NewTrigger) (r : res PromptError PromptRequestId)
| ODeliver (org : OrgId) (thread : ThreadId) (r : res OutboundError unit)
| OResolveTarget (org : OrgId) (thread : ThreadId) (r : res OutboundError (option PlatformTarget))
| OPostApproval (target : PlatformTarget) (id : ApprovalId) (action : ActionSummary)
    (r : res OutboundError (option PlatformMessageId))
| OCreateApproval (caller : Caller) (new : NewApproval) (r : res ApprovalError CreateOutcome)
| OAttach (caller : Caller) (id : ApprovalId) (m : PlatformMessageId) (r : res ApprovalError unit)
| ODecide (org : OrgId) (id : ApprovalId) (d : Verdict) (clicker : ColleagueId) (r : res ApprovalError DecideOutcome).

(** What a run does not control: the others, faults, clocks, fresh ids, foreign keys
    into tables outside the model, the routers. *)
Record OfficeEnv := mkOfficeEnv {
  oe_net : Net office;
  oe_now : nat → Z;
  oe_fresh : nat → N;
  oe_fk : nat → bool;
  oe_fk_request : nat → PromptRequest → bool;
  oe_fk_approval : nat → ApprovalRow → bool;
  oe_fk_approver : nat → ColleagueId → bool;
  oe_traceparent : option str;
  oe_slot_cap : nat;
  oe_outbound : OutboundRouter }.

Definition ascii (s : str) : string := string_of_list_ascii (ascii_of_N <$> s).

Definition OP (E A : Type) : Type := Prog office ocall E A.

Section calls.
Context `{UuidPrinter, JsonPrinter} (env : OfficeEnv).

Definition thread_call {A} (ev : res ThreadError A → ocall) (f : nat → store → res ThreadError A * store)
    : OP ThreadError A :=
  pcall (oe_net env) ev (λ m, ThreadDb (ascii m))
    (λ n o, let '(r, s) := f n (of_store o) in (r, with_store s o)).
Definition queue_call {A} (ev : res PromptError A → ocall) (f : nat → db → res PromptError A * db)
    : OP PromptError A :=
  pcall (oe_net env) ev (λ m, Db (ascii m))
    (λ n o, let '(r, d) := f n (queue_view o) in (r, with_queue d o)).
Definition approval_call {A} (ev : res ApprovalError A → ocall)
    (f : nat → approvals → res ApprovalError A * approvals) : OP ApprovalError A :=
  pcall (oe_net env) ev (λ m, ApprovalDb (ascii m))
    (λ n o, let '(r, a) := f n (approvals_view o) in (r, with_approvals a o)).
Definition outbound_call {A} (ev : res OutboundError A → ocall) (f : nat → res OutboundError A)
    : OP OutboundError A :=
  pcall (oe_net env) ev OutboundBackend (λ n o, (f n, o)).

Definition colleague_read (id : ColleagueId) : OP ColleagueError ResolvedColleague :=
  pcall (oe_net env) (OReadColleague id) ColleagueDb (λ _ o, (read_colleague (of_dir o) id, o)).

Definition call_colleague_in_channel (channel : ChannelId) (c : ColleagueId) : OP ThreadError bool :=
  pcall (oe_net env) (OColleagueInChannel channel c) (λ m, ThreadDb (ascii m))
    (λ _ o, (Ok (colleague_in_channel (of_dir o) channel c), o)).
Definition call_is_channel_member (thread : ThreadId) (user : UserId) : OP ThreadError bool :=
  pcall (oe_net env) (OIsMember thread user) (λ m, ThreadDb (ascii m))
    (λ _ o, (is_channel_member (of_dir o) (of_store o) thread user, o)).

Definition call_create_thread (caller : Caller) (channel : option ChannelId) (by_ : ColleagueId)
    (dm : option ColleagueId) : OP ThreadError ThreadId :=
  thread_call (OCreateThread caller channel by_ dm)
    (λ n, create_thread (oe_fk env n) caller channel None by_ dm (oe_fresh env n) (oe_now env n)).
Definition call_participation (caller : Caller) (thread : ThreadId) (agent : AgentId)
    : OP ThreadError AgentThreadId :=
  thread_call (OParticipation caller thread agent)
    (λ n, resolve_participation caller thread agent (oe_fresh env n) (oe_now env n)).
Definition call_append (caller : Caller) (thread : ThreadId) (m : NewMessage)
    : OP ThreadError ThreadMessageId :=
  thread_call (OAppend caller thread m)
    (λ n, append (oe_fk env n) caller thread m (oe_fresh env n) (oe_now env n)).

Definition call_bump (user : UserId) (root : PromptRequestId) : OP PromptError BudgetBumped :=
  queue_call (OBump user root) (λ _, bump_or_fail_for_user user root).
Definition call_enqueue (trig : NewTrigger) : OP PromptError PromptRequestId :=
  queue_call (OEnqueue trig)
    (λ n, enqueue_trigger_impl (oe_fk_request env n) (oe_fresh env n) (oe_now env n)
            (oe_traceparent env) trig).

(** [publish_for_user]: commit, then fan out. *)
Definition commit_chunk (user : UserId) (id : PromptRequestId) (c : ResponseChunk)
    : OP ResponseError PersistedChunk :=
  pcall (oe_net env) (OCommitChunk user id c) (λ m, ResponseDb (ascii m))
    (λ n o, let '(r, l) := trun (publish_in_tx (sees o user) (oe_now env n) id c) (log_view o) in
            (r, with_stream l (of_hub o) o)).
Definition fanout (id : PromptRequestId) (p : PersistedChunk) : OP ResponseError Z :=
  pcall (oe_net env) (OFanout id p) (λ m, ResponseDb (ascii m))
    (λ _ o, match publish_sender (oe_slot_cap env) id (pc_terminal p) (of_hub o) with
            | (Ok chan, h) => (Ok (pc_seq p), with_stream (of_log o) (send chan (pc_envelope p) h) o)
            | (Err e, h) => (Err e, with_stream (of_log o) h o)
            | (Panic m, h) => (Panic m, with_stream (of_log o) h o)
            end).
Definition publish_for_user (user : UserId) (id : PromptRequestId) (c : ResponseChunk)
    : OP ResponseError Z :=
  p <-% commit_chunk user id c ; fanout id p.

Definition commit_close (user : UserId) (id : PromptRequestId) : OP ResponseError unit :=
  pcall (oe_net env) (OCommitClose user id) (λ m, ResponseDb (ascii m))
    (λ _ o, let '(r, l) := trun (close_in_tx (sees o user) id) (log_view o) in
            (r, with_stream l (of_hub o) o)).
Definition call_mark_closed (id : PromptRequestId) : OP ResponseError unit :=
  pcall (oe_net env) (OMarkClosed id) (λ m, ResponseDb (ascii m))
    (λ _ o, let '(r, h) := mark_closed (oe_slot_cap env) id (of_hub o) in
            (r, with_stream (of_log o) h o)).
Definition close_for_user (user : UserId) (id : PromptRequestId) : OP ResponseError unit :=
  commit_close user id ;;% call_mark_closed id.

Definition call_deliver (org : OrgId) (thread : ThreadId) : OP OutboundError unit :=
  outbound_call (ODeliver org thread) (λ n, ensure_delivery (oe_outbound env) n org thread).
Definition call_resolve_target (org : OrgId) (thread : ThreadId) : OP OutboundError (option PlatformTarget) :=
  outbound_call (OResolveTarget org thread) (λ n, resolve_target (oe_outbound env) n org thread).
Definition call_post_approval (org : OrgId) (thread : ThreadId) (target : PlatformTarget)
    (id : ApprovalId) (action : ActionSummary) : OP OutboundError (option PlatformMessageId) :=
  outbound_call (OPostApproval target id action)
    (λ n, post_approval (oe_outbound env) n org thread target id action).
End calls.
