(* ===== verification/OfficeLaws.v ===== *)
(** * The calls keep the office well formed

    [office_ok] puts the invariants of the feed, the queue, the response log and hub
    and the approval store together; each call of [Office] keeps it and does not
    panic, so a program of such calls does ([safe]). *)

From Stdlib Require Import ZArith Lia Ascii String.
From stdpp Require Import base gmap list strings sets relations.
From S2P Require Import Prelude Program Types Queue QueueSafety Threads ThreadLaws Colleagues Approvals ApprovalLaws Responses ResponseLaws Office.

Definition queue_ok (timing : LeaseTiming) (d : db) : Prop :=
  ∃ rds cs, reachable timing (mkSys d rds cs).

Record office_ok (timing : LeaseTiming) (cap : nat) (o : office) : Prop := {
  oo_feed : feed_ok (of_store o);
  oo_queue : queue_ok timing (of_queue o);
  oo_log : log_ok (of_log o);
  oo_hub : ∃ owners, hub_ok cap owners (of_hub o);
  oo_approvals : a_reachable (of_approvals o) }.

(** ** The queue *)

Lemma queue_ok_step timing l d d' :
  queue_ok timing d → (∀ rds cs, lstep timing l (mkSys d rds cs) (mkSys d' rds cs)) → queue_ok timing d'.
Proof.
  intros (rds & cs & s0 & H0 & Hr) Hs. exists rds, cs, s0. split; [done|].
  eapply rtc_r; [exact Hr|]. by exists l.
Qed.

Lemma queue_ok_view timing o : queue_ok timing (of_queue o) → queue_ok timing (queue_view o).
Proof. intros Hq. eapply queue_ok_step; [exact Hq|]. intros rds cs. by apply step_directory. Qed.

Lemma enqueue_no_panic fk_ok id now tp trig d : no_panic (enqueue_trigger_impl fk_ok id now tp trig d).1.
Proof. by destruct (enqueue_cases fk_ok id now tp trig d). Qed.

Lemma bump_no_panic timing visible root d :
  queue_ok timing d → no_panic (bump_or_fail_in_tx visible root d).1.
Proof.
  intros (rds & cs & Hr). pose proof (reachable_inv _ _ Hr) as Hi. unfold bump_or_fail_in_tx.
  destruct (prompt_request_dags d !! root) as [row|] eqn:E; [|done].
  destruct (inv_dags _ Hi root row E) as [Hu Hc]. destruct (visible row); [|done]. cbn [negb].
  assert (in_u32 (dag_turns_cap row) = true) as Ec by (unfold in_u32, U32_MAX, MAX_DAG_TURNS in *; lia).
  destruct (dag_turns_used row <? dag_turns_cap row)%Z eqn:El; cbn; unfold u32_or_invariant; rewrite Ec.
  - assert (in_u32 (dag_turns_used row + 1) = true) as -> by (unfold in_u32, U32_MAX, MAX_DAG_TURNS in *; lia). done.
  - assert (in_u32 (dag_turns_used row) = true) as -> by (unfold in_u32, U32_MAX, MAX_DAG_TURNS in *; lia). done.
Qed.

(** ** The feed *)

Lemma create_thread_ok fk caller channel root by_ dm id now s :
  feed_ok s → bool_decide (is_Some channel) = negb (bool_decide (is_Some dm)) →
  feed_ok (create_thread fk caller channel root by_ dm id now s).2
  ∧ no_panic (create_thread fk caller channel root by_ dm id now s).1.
Proof.
  intros Hs Hx. unfold create_thread.
  assert (bool_decide (channel = None) || bool_decide (dm = None) = true) as ->.
  { destruct channel, dm; by vm_compute in Hx |- *. }
  assert (bool_decide (is_Some channel) || bool_decide (is_Some dm) = true) as ->.
  { rewrite Hx. by destruct (bool_decide (is_Some dm)). }
  cbn [negb]. destruct (member _ _ _); [|done]. destruct (threads s !! id); [done|]. destruct fk; [|done].
  split; [|done]. by destruct Hs.
Qed.

Lemma participation_ok caller thread agent id now s :
  feed_ok s → feed_ok (resolve_participation caller thread agent id now s).2
  ∧ no_panic (resolve_participation caller thread agent id now s).1.
Proof.
  intros Hs. unfold resolve_participation. destruct (visible_thread _ _ _); [|done].
  destruct (List.find _ _); [done|]. case_bool_decide; [done|]. split; [|done]. by destruct Hs.
Qed.

Lemma append_ok fk caller thread m id now s :
  feed_ok s → feed_ok (append fk caller thread m id now s).2 ∧ no_panic (append fk caller thread m id now s).1.
Proof.
  intros Hs. unfold append. destruct (append_insert fk caller thread m id now s) as [r s'] eqn:E.
  destruct (append_insert_inv _ _ _ _ _ _ _ _ _ Hs E) as (Hs' & _ & Hr).
  destruct r as [[|]| |]; try done. by destruct (List.find _ _).
Qed.

(** ** The stream *)

Lemma publish_sender_keeps `{UuidPrinter} cap id b h :
  0 < cap → (∃ owners, hub_ok cap owners h) →
  (∃ owners, hub_ok cap owners (publish_sender cap id b h).2) ∧ no_panic (publish_sender cap id b h).1.
Proof.
  intros Hc [owners Hh]. destruct (publish_sender cap id b h) as [r h'] eqn:E.
  destruct (publish_sender_ok cap id b (mkWorld (mkRlog ∅ ∅ [] []) h owners [] [] []) r h' Hc Hh E) as (Ht & Hr).
  split; [eexists; apply (proj1 Ht)|]. by destruct r.
Qed.

Lemma mark_closed_keeps cap id h :
  0 < cap → (∃ owners, hub_ok cap owners h) →
  (∃ owners, hub_ok cap owners (mark_closed cap id h).2) ∧ no_panic (mark_closed cap id h).1.
Proof.
  intros Hc [owners Hh].
  destruct (mark_closed_ok cap id (mkWorld (mkRlog ∅ ∅ [] []) h owners [] [] []) Hc Hh) as (Ht & Hr). cbn in *.
  split; [eexists; apply (proj1 Ht)|]. by rewrite Hr.
Qed.

Lemma log_view_ok o : log_ok (of_log o) → log_ok (log_view o).
Proof. intros []. by split. Qed.

Lemma commit_keeps `{UuidPrinter, JsonPrinter} visible now id c l :
  log_ok l → log_ok (trun (publish_in_tx visible now id c) l).2 ∧ no_panic (trun (publish_in_tx visible now id c) l).1.
Proof.
  intros Hl. unfold trun. destruct (publish_in_tx visible now id c l) as [[p l']|e|m] eqn:E; [|done|].
  - split; [|done]. by eapply publish_in_tx_ok.
  - by destruct (proj2 (publish_never_clashes visible now id c l Hl) m).
Qed.

Lemma commit_close_keeps visible id l :
  log_ok l → log_ok (trun (close_in_tx visible id) l).2 ∧ no_panic (trun (close_in_tx visible id) l).1.
Proof.
  intros Hl. unfold trun. destruct (close_in_tx visible id l) as [[[] l']|e|m] eqn:E; [|done|].
  - split; [|done]. by eapply close_in_tx_ok.
  - unfold close_in_tx in E. repeat case_match; done.
Qed.

(** ** The approvals *)

Lemma approvals_view_ok o : a_reachable (of_approvals o) → a_reachable (approvals_view o).
Proof.
  intros (s0 & H0 & Hr). exists s0. split; [done|]. eapply rtc_r; [exact Hr|].
  apply (step_members (org_members (of_store o)) (of_approvals o)).
Qed.

(** ** The calls *)

Section calls.
Context `{UuidPrinter, JsonPrinter} (env : OfficeEnv) (timing : LeaseTiming).
Context (Hcap : 0 < oe_slot_cap env).
Abbreviation I := (office_ok timing (oe_slot_cap env)).
Context `{!Respects I (oe_net env)}.

Lemma safe_thread_call {A} (ev : res ThreadError A → ocall) f (P : A → Prop) :
  (∀ n s, feed_ok s → feed_ok (f n s).2 ∧ match (f n s).1 with Ok a => P a | Err _ => True | Panic _ => False end) →
  safe I (thread_call env ev f) P.
Proof.
  intros Hf. apply safe_call; [done|]. intros n w Hw. specialize (Hf n (of_store w) (oo_feed _ _ _ Hw)).
  destruct (f n (of_store w)) as [r s]. cbn in *. destruct Hf, Hw. split; [by split|done].
Qed.

Lemma safe_participation caller thread agent :
  safe I (call_participation env caller thread agent) (λ _, True).
Proof. apply safe_thread_call. intros n s Hs. by apply participation_ok. Qed.
Lemma safe_append caller thread m : safe I (call_append env caller thread m) (λ _, True).
Proof. apply safe_thread_call. intros n s Hs. by apply append_ok. Qed.
Lemma safe_create_thread caller channel by_ dm :
  bool_decide (is_Some channel) = negb (bool_decide (is_Some dm)) →
  safe I (call_create_thread env caller channel by_ dm) (λ _, True).
Proof. intros Hx. apply safe_thread_call. intros n s Hs. by apply create_thread_ok. Qed.

Lemma safe_bump user root : safe I (call_bump env user root) (λ _, True).
Proof.
  apply safe_call; [done|]. intros n w Hw.
  pose proof (queue_ok_view _ _ (oo_queue _ _ _ Hw)) as Hq. unfold bump_or_fail_for_user.
  set (vis := λ row, _).
  assert (queue_ok timing (bump_or_fail_in_tx vis root (queue_view w)).2) as Hq'
    by (eapply queue_ok_step; [exact Hq|]; intros rds cs; apply step_bump).
  pose proof (bump_no_panic _ vis root _ Hq). destruct (bump_or_fail_in_tx _ _ _) as [r d]. cbn in *.
  destruct Hw. split; [by split|done].
Qed.
Lemma safe_enqueue trig : safe I (call_enqueue env trig) (λ _, True).
Proof.
  apply safe_call; [done|]. intros n w Hw.
  pose proof (queue_ok_view _ _ (oo_queue _ _ _ Hw)) as Hq.
  match goal with |- context [enqueue_trigger_impl ?a ?b ?c ?d ?e ?f] =>
    pose proof (enqueue_no_panic a b c d e f) as Hn;
    assert (queue_ok timing (enqueue_trigger_impl a b c d e f).2) as Hq'
      by (eapply queue_ok_step; [exact Hq|]; intros rds cs; apply step_enqueue);
    destruct (enqueue_trigger_impl a b c d e f) as [r q] end. cbn in *.
  destruct Hw. split; [by split|done].
Qed.

Lemma safe_commit_chunk user id c : safe I (commit_chunk env user id c) (λ _, True).
Proof.
  apply safe_call; [done|]. intros n w Hw.
  pose proof (commit_keeps (sees w user) (oe_now env n) id c _ (log_view_ok _ (oo_log _ _ _ Hw))) as Hk.
  revert Hk. destruct (trun _ _) as [r l]. cbn. intros [Hl Hn]. destruct Hw. split; [by split|done].
Qed.
Lemma safe_fanout id p : safe I (fanout env id p) (λ _, True).
Proof.
  apply safe_call; [done|]. intros n w Hw.
  destruct (publish_sender_keeps (oe_slot_cap env) id (pc_terminal p) (of_hub w) Hcap (oo_hub _ _ _ Hw)) as [[owners Hh] Hn].
  destruct (publish_sender _ _ _ _) as [[chan|e|m] h]; cbn in *; [| |done]; destruct Hw; (split; [|done]); split; try done.
  - exists owners. by apply send_ok.
  - by exists owners.
Qed.
Lemma safe_publish user id c : safe I (publish_for_user env user id c) (λ _, True).
Proof. eapply safe_seq; [apply safe_commit_chunk|]. intros p. apply safe_fanout. Qed.
Lemma safe_close user id : safe I (close_for_user env user id) (λ _, True).
Proof.
  eapply safe_seq.
  - apply safe_call; [done|]. intros n w Hw.
    pose proof (commit_close_keeps (sees w user) id _ (log_view_ok _ (oo_log _ _ _ Hw))) as Hk.
    revert Hk. destruct (trun _ _) as [r l]. cbn. intros [Hl Hn]. destruct Hw. split; [by split|done].
  - intros []. apply safe_call; [done|]. intros n w Hw.
    destruct (mark_closed_keeps (oe_slot_cap env) id (of_hub w) Hcap (oo_hub _ _ _ Hw)) as [Hh Hn].
    destruct (mark_closed _ _ _) as [r h]. cbn in *. destruct Hw. split; [by split|done].
Qed.

Lemma safe_approval_call {A} (ev : res ApprovalError A → ocall) f (P : A → Prop) :
  (∀ n s, a_reachable s → a_reachable (f n s).2 ∧ match (f n s).1 with Ok a => P a | Err _ => True | Panic _ => False end) →
  safe I (approval_call env ev f) P.
Proof.
  intros Hf. apply safe_call; [done|]. intros n w Hw.
  specialize (Hf n (approvals_view w) (approvals_view_ok _ (oo_approvals _ _ _ Hw))).
  destruct (f n (approvals_view w)) as [r s]. cbn in *. destruct Hf, Hw. split; [by split|done].
Qed.

(** A call that only reads. *)
Lemma safe_read {E A} (ev : res E A → ocall) (wrap : str → E) (f : nat → office → res E A) (P : A → Prop) :
  (∀ n w, I w → match f n w with Ok a => P a | Err _ => True | Panic _ => False end) →
  safe I (pcall (oe_net env) ev wrap (λ n w, (f n w, w))) P.
Proof. intros Hf. apply safe_call; [done|]. intros n w Hw. split; [done|]. by apply Hf. Qed.

(** A colleague that was read is a participant. *)
Lemma safe_colleague_read id :
  safe I (colleague_read env id) (λ c, ∃ p, Participant_from c = Ok p).
Proof.
  apply safe_read. intros _ w _. destruct (read_colleague (of_dir w) id) as [c| |] eqn:E; [|done|].
  - apply read_colleague_participant in E as (_ & p & Hp & _). eauto.
  - exfalso. unfold read_colleague, ColleagueName_try_from, Colleague_try_new in E.
    repeat (case_match; simplify_eq/=; try done).
Qed.

Lemma safe_is_member thread user : safe I (call_is_channel_member env thread user) (λ _, True).
Proof. apply safe_read. intros n w _. unfold is_channel_member. by destruct (_ !! _). Qed.
(** The surfaces answer. *)
Lemma safe_outbound {A} (ev : res OutboundError A → ocall) f :
  (∀ n, no_panic (f n)) → safe I (outbound_call env ev f) (λ _, True).
Proof. intros Hf. apply safe_read. intros n w _. specialize (Hf n). by destruct (f n). Qed.
Lemma safe_in_channel channel c : safe I (call_colleague_in_channel env channel c) (λ _, True).
Proof. by apply safe_read. Qed.
End calls.
