(* ===== verification/SendMessage.v ===== *)
(** * The send_message tool

    [tools/system/send_message.rs]: an agent's only way to speak.  The handler as a
    program over the office; decoding its JSON arguments is left to serde. *)

From Stdlib Require Import ZArith Lia Ascii String.
From stdpp Require Import base gmap list strings sets relations.
From S2P Require Import Prelude Program Types Queue Threads Colleagues Catalog Compaction Billing Tools Agent Approvals Responses Office.

Inductive Target := TChannel (channel : ChannelId) | TDm (counterpart : ColleagueId).

Record SendMessageInput := mkSendInput {
  si_receiver : option ColleagueId;
  si_content : str;
  si_to : option Target }.

Record SendMessageOutput := mkSendOutput {
  so_thread_id : ThreadId;
  so_request_id : option PromptRequestId;
  so_delivery : string }.

Definition ERR_SYSTEM_RECEIVER : str := lit "send_message: cannot deliver to System".

(** The order in which the two futures of the [join!] of an agent delivery run: the
    participation before, within (after the append) or after the post. *)
Inductive join_order := JoinBefore | JoinWithin | JoinAfter.

Definition outbound_chat_message (content : str) : ChatMessage := User [UText content].

(** [posted] *)
Definition posted (thread : ThreadId) (request_id : option PromptRequestId) : SendMessageOutput :=
  mkSendOutput thread request_id (if bool_decide (is_Some request_id) then "queued" else "posted").

Section send_message.
Context `{UuidPrinter, JsonPrinter} (env : OfficeEnv) (join : join_order).

Definition resolve_colleague (id : ColleagueId) (ctx : ToolCallContext) : OP ToolError Participant :=
  colleague <-% pmap_err (λ e,
      match e with
      | ColleagueNotFound _ => InvalidInput (lit "send_message: unknown colleague " ++ uuid_to_string id)
      | err => ToolBackend (lit "send_message: colleague lookup: " ++ ColleagueError_to_string err)
      end) (colleague_read env id) ;
  if negb (bool_decide (rcol_org_id colleague = org_id (tcx_caller ctx)))
  then perr (InvalidInput (lit "send_message: unknown colleague " ++ uuid_to_string id))
  else plift (res_map_err (λ e, ToolBackend (ColleagueError_to_string e)) (Participant_from colleague)).

Definition validate (content : str) (receiver : option ColleagueId) (ctx : ToolCallContext)
    : OP ToolError (Prompt * option Participant * AgentId) :=
  content <-% plift (res_map_err (λ e, InvalidInput (ParseError_to_string e)) (Prompt_try_from content)) ;
  viewer_agent_id <-% plift (ok_or (participant_agent (tcx_viewer ctx))
                               (InvalidInput (lit "send_message: caller must be an agent"))) ;
  match receiver with
  | None => pret (content, None, viewer_agent_id)
  | Some id =>
      receiver <-% resolve_colleague id ctx ;
      if bool_decide (receiver = tcx_viewer ctx)
      then perr (InvalidInput (lit "send_message: receiver equals caller"))
      else if is_system receiver then perr (InvalidInput ERR_SYSTEM_RECEIVER)
      else pret (content, Some receiver, viewer_agent_id)
  end.

Definition backend {E} (what : string) (show : E → str) (e : E) : ToolError :=
  ToolBackend (lit "send_message: " ++ lit what ++ lit ": " ++ show e).

(** The channel and the counterpart of a new thread. *)
Definition target_of (ctx : ToolCallContext) (creator : ColleagueId) (target : Target)
    : OP ToolError (option ChannelId * option ColleagueId) :=
  match target with
  | TChannel channel =>
      member <-% pmap_err (backend "membership check" ThreadError_to_string)
                   (call_colleague_in_channel env channel creator) ;
      if negb (member : bool)
      then perr (InvalidInput (lit "send_message: you are not a member of that channel"))
      else pret (Some channel, None)
  | TDm counterpart =>
      participant <-% resolve_colleague counterpart ctx ;
      match participant with
      | Human colleague_id _ => pret (None, Some colleague_id)
      | _ => perr (InvalidInput (lit "send_message: a dm target must be a human colleague"))
      end
  end.

Definition resolve_or_create_target (ctx : ToolCallContext) (caller : Caller) (from : AgentId)
    (to : option Target) : OP ToolError ThreadId :=
  match to with
  | None => plift (ok_or (tcx_thread_id ctx)
                     (ToolBackend (lit "send_message: no thread context on this call")))
  | Some target =>
      creator <-% plift (ok_or (participant_colleague (tcx_viewer ctx))
                           (InvalidInput (lit "send_message: caller must be a colleague"))) ;
      place <-% target_of ctx creator target ;
      thread <-% pmap_err (backend "create thread" ThreadError_to_string)
                   (call_create_thread env caller place.1 creator place.2) ;
      pmap_err (backend "resolve participation" ThreadError_to_string)
        (call_participation env caller thread from) ;;%
      pret thread
  end.

(** [post]: the row, then a best-effort chunk on the current request. *)
Definition post_row (caller : Caller) (thread : ThreadId) (sender receiver : option ColleagueId)
    (content : Prompt) (request_id : PromptRequestId) : OP ToolError ThreadMessageId :=
  pmap_err (backend "post failed" ThreadError_to_string)
    (call_append env caller thread
       (mkNewMessage KPosted sender None receiver (outbound_chat_message (Prompt_as_str content))
          (Some request_id) None)).
Definition post_chunk (caller : Caller) (thread : ThreadId) (from : AgentId)
    (receiver : option ColleagueId) (content : Prompt) (request_id : PromptRequestId)
    : OP ToolError unit :=
  ptry (publish_for_user env (user_id caller) request_id
          (RAgentMessage from thread (Prompt_as_str content) receiver)).
Definition post (caller : Caller) (thread : ThreadId) (from : AgentId) (sender receiver : option ColleagueId)
    (content : Prompt) (request_id : PromptRequestId) : OP ToolError ThreadMessageId :=
  id <-% post_row caller thread sender receiver content request_id ;
  post_chunk caller thread from receiver content request_id ;;%
  pret id.

Definition deliver_to_human (caller : Caller) (ctx : ToolCallContext) (thread : ThreadId)
    (from : AgentId) (sender : option ColleagueId) (colleague : ColleagueId) (user : UserId)
    (content : Prompt) : OP ToolError SendMessageOutput :=
  member <-% pmap_err (backend "membership check failed" ThreadError_to_string)
               (call_is_channel_member env thread user) ;
  if negb (member : bool)
  then perr (InvalidInput (lit "send_message: recipient is not a member of this channel"))
  else
    post caller thread from sender (Some colleague) content (tcx_request_id ctx) ;;%
    pret (posted thread None).

(** On exceed: a failure on the root stream, then reject; the posted row stays. *)
Definition bump_dag_budget (ctx : ToolCallContext) : OP ToolError unit :=
  let user := user_id (tcx_caller ctx) in
  let root := tcx_root_request_id ctx in
  bumped <-% pcatch (call_bump env user root) ;
  match bumped with
  | inr _ => pret tt
  | inl (DagBudgetExceeded_ _ _ _ as e) =>
      ptry (publish_for_user env user root (from_failure DagBudgetExceeded)) ;;%
      ptry (close_for_user env user root) ;;%
      perr (InvalidInput (lit "send_message: dag budget exceeded: " ++ PromptError_to_string e))
  | inl e => perr (backend "dag bump failed" PromptError_to_string e)
  end.

(** [tag:{thread}:{agent}:{message}] *)
Definition trigger_key (thread : ThreadId) (agent : AgentId) (message : ThreadMessageId) : str :=
  lit "tag:" ++ uuid_to_string thread ++ lit ":" ++ uuid_to_string agent ++ lit ":"
  ++ uuid_to_string message.

Definition enqueue_agent_trigger (ctx : ToolCallContext) (thread : ThreadId) (state : AgentThreadId)
    (agent : AgentId) (sender : option ColleagueId) (trigger_msg : ThreadMessageId)
    : OP ToolError PromptRequestId :=
  sender_colleague <-% plift (ok_or sender (ToolBackend (lit "send_message: agent caller missing colleague"))) ;
  key <-% plift (res_map_err (λ e, ToolBackend (lit "send_message: bad idempotency: " ++ ParseError_to_string e))
                   (IdempotencyKey_try_from (trigger_key thread agent trigger_msg))) ;
  pmap_err (backend "enqueue failed" PromptError_to_string)
    (call_enqueue env
       (mkNewTrigger (org_id (tcx_caller ctx)) (user_id (tcx_caller ctx)) (Some thread) (Some state) None
          sender_colleague agent (Some (tcx_root_request_id ctx)) (Some trigger_msg) key PNormal)).

(** [tokio::join!] of the post and the participation, both to their end. *)
Definition post_and_join (caller : Caller) (thread : ThreadId) (from : AgentId)
    (sender : option ColleagueId) (receiver : option ColleagueId) (content : Prompt)
    (request_id : PromptRequestId) (agent : AgentId)
    : OP ToolError ((ToolError + ThreadMessageId) * (ThreadError + AgentThreadId)) :=
  let participation := pcatch (call_participation env caller thread agent) in
  match join with
  | JoinBefore =>
      state <-% participation ;
      id <-% pcatch (post caller thread from sender receiver content request_id) ;
      pret (id, state)
  | JoinWithin =>
      row <-% pcatch (post_row caller thread sender receiver content request_id) ;
      state <-% participation ;
      match row with
      | inl e => pret (inl e, state)
      | inr id => post_chunk caller thread from receiver content request_id ;;% pret (inr id, state)
      end
  | JoinAfter =>
      id <-% pcatch (post caller thread from sender receiver content request_id) ;
      state <-% participation ;
      pret (id, state)
  end.

Definition from_sum {E A} (x : E + A) : res E A := match x with inl e => Err e | inr a => Ok a end.

Definition deliver_to_agent (caller : Caller) (ctx : ToolCallContext) (thread : ThreadId)
    (from : AgentId) (sender : option ColleagueId) (colleague : ColleagueId) (agent : AgentId)
    (content : Prompt) : OP ToolError SendMessageOutput :=
  joined <-% post_and_join caller thread from sender (Some colleague) content (tcx_request_id ctx) agent ;
  message <-% plift (from_sum joined.1) ;
  state <-% plift (res_map_err (backend "resolve participation" ThreadError_to_string) (from_sum joined.2)) ;
  bump_dag_budget ctx ;;%
  request_id <-% enqueue_agent_trigger ctx thread state agent sender message ;
  pret (posted thread (Some request_id)).

Definition dispatch (ctx : ToolCallContext) (caller : Caller) (thread : ThreadId) (from : AgentId)
    (sender : option ColleagueId) (receiver : option Participant) (content : Prompt)
    : OP ToolError SendMessageOutput :=
  match receiver with
  | None =>
      post caller thread from sender None content (tcx_request_id ctx) ;;%
      pret (posted thread None)
  | Some (Human colleague user) => deliver_to_human caller ctx thread from sender colleague user content
  | Some (AgentP colleague agent) => deliver_to_agent caller ctx thread from sender colleague agent content
  | Some System => perr (InvalidInput ERR_SYSTEM_RECEIVER)
  end.

Definition handle (input : SendMessageInput) (ctx : ToolCallContext) : OP ToolError SendMessageOutput :=
  checked <-% validate (si_content input) (si_receiver input) ctx ;
  let '(content, receiver, from) := checked in
  let caller := mkCaller (user_id (tcx_caller ctx)) (org_id (tcx_caller ctx)) in
  thread <-% resolve_or_create_target ctx caller from (si_to input) ;
  out <-% dispatch ctx caller thread from (participant_colleague (tcx_viewer ctx)) receiver content ;
  ptry (call_deliver env (org_id (tcx_caller ctx)) thread) ;;%
  pret out.
End send_message.
