(* ===== verification/SendLaws.v ===== *)
(** * What send_message promises

    It keeps the office well formed; its trace says exactly what a send may do:
    one post at most, addressed as checked, and a wake-up only for the posted row,
    after the budget was charged. *)

From Stdlib Require Import ZArith Lia Ascii String.
From stdpp Require Import base gmap list strings sets relations.
From S2P Require Import Prelude Program Types Queue QueueSafety Threads ThreadLaws Colleagues Tools Agent Approvals ApprovalLaws Responses ResponseLaws Office OfficeLaws SendMessage.

Section safety.
Context `{UuidPrinter, JsonPrinter} (env : OfficeEnv) (join : join_order) (timing : LeaseTiming).
Context (Hcap : 0 < oe_slot_cap env).
Abbreviation I := (office_ok timing (oe_slot_cap env)).
Context `{!Respects I (oe_net env)}.
Context (Hout : ∀ n org t, no_panic (ensure_delivery (oe_outbound env) n org t)).

#[local] Hint Resolve safe_participation safe_append safe_bump safe_enqueue safe_publish safe_close
  safe_is_member safe_in_channel : patom_program.

Lemma safe_ok_or {A} (o : option A) (e : ToolError) : safe (V := ocall) I (plift (ok_or o e)) (λ _, True).
Proof. apply safe_lift. by destruct o. Qed.
Lemma safe_parse {A} (f : ParseError → ToolError) (r : res ParseError A) :
  no_panic r → safe (V := ocall) I (plift (res_map_err f r)) (λ _, True).
Proof. intros Hr. apply safe_lift. by destruct r. Qed.
Lemma safe_from_sum {E A} (f : E → ToolError) (x : E + A) :
  safe (V := ocall) I (plift (res_map_err f (from_sum x))) (λ _, True).
Proof. apply safe_lift. by destruct x. Qed.
Lemma safe_caught {E E' A} (m : OP E A) :
  safe I m (λ _, True) → safe (E := E') I (pcatch m) (λ _, True).
Proof. intros Hm. eapply safe_mono; [by apply safe_catch|done]. Qed.
#[local] Hint Resolve safe_ok_or safe_from_sum safe_caught : patom_program.

Lemma safe_resolve id ctx : safe I (resolve_colleague env id ctx) (λ _, True).
Proof.
  unfold resolve_colleague. eapply safe_bind; [by apply safe_map_err, safe_colleague_read|].
  intros c (p & Hp). destruct (negb _); [by apply safe_err|]. rewrite Hp. by apply safe_ret.
Qed.
#[local] Hint Resolve safe_resolve : patom_program.

Lemma safe_validate content receiver ctx : safe I (validate env content receiver ctx) (λ _, True).
Proof.
  unfold validate. apply safe_seq.
  { apply safe_parse. unfold Prompt_try_from. by repeat case_match. }
  intros c. apply safe_seq; [auto with patom_program|]. intros a. destruct receiver; [|by apply safe_ret].
  apply safe_seq; [auto with patom_program|]. intros r. repeat case_match; auto with patom_program.
Qed.

Lemma safe_target ctx caller from to : safe I (resolve_or_create_target env ctx caller from to) (λ _, True).
Proof.
  unfold resolve_or_create_target. destruct to as [target|]; [|auto with patom_program].
  apply safe_seq; [auto with patom_program|]. intros creator.
  eapply (safe_bind _ _ _ (λ p, bool_decide (is_Some p.1) = negb (bool_decide (is_Some p.2)))).
  - destruct target as [ch|c]; cbn.
    + apply safe_seq; [auto with patom_program|]. intros []; cbn; [by apply safe_ret|by apply safe_err].
    + apply safe_seq; [auto with patom_program|]. intros []; [by apply safe_ret|by apply safe_err..].
  - intros [ch dm] Hp. cbn in *. apply safe_seq; [by apply safe_map_err, safe_create_thread|].
    intros t. auto 6 with patom_program.
Qed.

Lemma safe_post caller thread from sender receiver content id :
  safe I (post env caller thread from sender receiver content id) (λ _, True).
Proof.
  unfold post, post_row, post_chunk. apply safe_seq; [auto with patom_program|]. intros m.
  apply safe_seq; [eapply safe_try; auto with patom_program|]. intros _. auto with patom_program.
Qed.
#[local] Hint Resolve safe_post : patom_program.

Lemma safe_join caller thread from sender receiver content id agent :
  safe I (post_and_join env join caller thread from sender receiver content id agent) (λ _, True).
Proof.
  unfold post_and_join. destruct join.
  - apply safe_seq; [auto with patom_program|]. intros s. apply safe_seq; [auto with patom_program|]. auto with patom_program.
  - unfold post_row. apply safe_seq; [auto with patom_program|]. intros r. apply safe_seq; [auto with patom_program|].
    intros s. destruct r; [auto with patom_program|]. unfold post_chunk.
    apply safe_seq; [eapply safe_try; auto with patom_program|]. auto with patom_program.
  - apply safe_seq; [auto with patom_program|]. intros s. apply safe_seq; [auto with patom_program|]. auto with patom_program.
Qed.

Lemma safe_budget ctx : safe I (bump_dag_budget env ctx) (λ _, True).
Proof.
  unfold bump_dag_budget. apply safe_seq; [auto with patom_program|]. intros [e|b]; [|auto with patom_program].
  destruct e; try (by apply safe_err).
  apply safe_seq; [eapply safe_try; auto with patom_program|]. intros _.
  apply safe_seq; [eapply safe_try; auto with patom_program|]. intros _. apply safe_err.
Qed.

Lemma safe_trigger ctx thread state agent sender msg :
  safe I (enqueue_agent_trigger env ctx thread state agent sender msg) (λ _, True).
Proof.
  unfold enqueue_agent_trigger. apply safe_seq; [auto with patom_program|]. intros s. apply safe_seq.
  { apply safe_parse. unfold IdempotencyKey_try_from. by repeat case_match. }
  intros k. auto with patom_program.
Qed.

Lemma safe_dispatch ctx caller thread from sender receiver content :
  safe I (dispatch env join ctx caller thread from sender receiver content) (λ _, True).
Proof.
  destruct receiver as [[c u|c a|]|]; cbn.
  - unfold deliver_to_human. apply safe_seq; [auto with patom_program|]. intros []; cbn; [|apply safe_err].
    apply safe_seq; [auto with patom_program|]. auto with patom_program.
  - unfold deliver_to_agent. apply safe_seq; [apply safe_join|]. intros [p s]. cbn.
    apply safe_seq; [apply safe_lift; by destruct p|]. intros m.
    apply safe_seq; [auto with patom_program|]. intros st.
    apply safe_seq; [apply safe_budget|]. intros _. apply safe_seq; [apply safe_trigger|]. auto with patom_program.
  - apply safe_err.
  - apply safe_seq; [auto with patom_program|]. auto with patom_program.
Qed.

(** A send keeps every invariant of the office, whatever fails and whatever others
    who keep them do between its calls, and never panics: the feed's numbering and
    keys, the queue's reachability, the stream's numbering, the hub's bound, the
    approvals. *)
Theorem send_keeps_office input ctx s :
  office_ok timing (oe_slot_cap env) (run_tables s) →
  office_ok timing (oe_slot_cap env) (run_tables (handle env join input ctx s).2)
  ∧ ∀ p, (handle env join input ctx s).1 ≠ Panic p.
Proof.
  intros Hs. assert (safe I (handle env join input ctx) (λ _, True)) as Hh; [|].
  - unfold handle. apply safe_seq; [apply safe_validate|]. intros [[content receiver] from].
    apply safe_seq; [apply safe_target|]. intros thread. apply safe_seq; [apply safe_dispatch|]. intros out.
    apply safe_seq; [|auto with patom_program]. eapply safe_try, safe_outbound; [done|]. intros n. apply Hout.
  - destruct (Hh s Hs) as [H1 H2]. split; [done|]. intros p Hp. by rewrite Hp in H2.
Qed.
End safety.

(** ** The protocol of a send *)

Section protocol.
Context `{UuidPrinter, JsonPrinter} (ctx : ToolCallContext) (input : SendMessageInput).

Definition the_caller : Caller := mkCaller (user_id (tcx_caller ctx)) (org_id (tcx_caller ctx)).
Definition the_message : NewMessage :=
  mkNewMessage KPosted (participant_colleague (tcx_viewer ctx)) None (si_receiver input)
    (outbound_chat_message (si_content input)) (Some (tcx_request_id ctx)) None.

(** Colleague [id] was read, in the caller's organisation, and is [p]. *)
Definition checked (pre : list ocall) (id : ColleagueId) (p : Participant) : Prop :=
  ∃ c, OReadColleague id (Ok c) ∈ pre ∧ rcol_org_id c = org_id (tcx_caller ctx)
       ∧ Participant_from c = Ok p.

(** The receiver may be addressed in thread [t]. *)
Definition addressed (pre : list ocall) (t : ThreadId) : Prop :=
  match si_receiver input with
  | None => True
  | Some id => ∃ p, checked pre id p ∧ p ≠ tcx_viewer ctx ∧
      match p with
      | Human _ user => OIsMember t user (Ok true) ∈ pre
      | AgentP _ _ => True
      | System => False
      end
  end.

(** [t] is the thread the input names. *)
Definition placed (pre : list ocall) (t : ThreadId) : Prop :=
  match si_to input with
  | None => tcx_thread_id ctx = Some t
  | Some (TChannel ch) => ∃ creator, participant_colleague (tcx_viewer ctx) = Some creator
      ∧ OColleagueInChannel ch creator (Ok true) ∈ pre
      ∧ OCreateThread the_caller (Some ch) creator None (Ok t) ∈ pre
  | Some (TDm h) => ∃ creator user, participant_colleague (tcx_viewer ctx) = Some creator
      ∧ checked pre h (Human h user)
      ∧ OCreateThread the_caller None creator (Some h) (Ok t) ∈ pre
  end.

Definition stored (pre : list ocall) (t : ThreadId) (msg : ThreadMessageId) : Prop :=
  OAppend the_caller t the_message (Ok msg) ∈ pre.
Definition exceeded (pre : list ocall) : Prop :=
  ∃ used cap, OBump (user_id the_caller) (tcx_root_request_id ctx)
                (Err (DagBudgetExceeded_ (tcx_root_request_id ctx) used cap)) ∈ pre.

Definition the_trigger (t : ThreadId) (state : AgentThreadId) (sender : ColleagueId) (agent : AgentId)
    (msg : ThreadMessageId) (key : IdempotencyKey) : NewTrigger :=
  mkNewTrigger (org_id the_caller) (user_id the_caller) (Some t) (Some state) None sender agent
    (Some (tcx_root_request_id ctx)) (Some msg) key PNormal.

Definition is_effect (c : ocall) : bool :=
  match c with OAppend _ _ _ _ | OBump _ _ _ | OEnqueue _ _ => true | _ => false end.
Definition effects (vs : list ocall) : list ocall := picked is_effect vs.

(** What a send may call after [pre]. *)
Definition send_allowed (pre : list ocall) (c : ocall) : Prop :=
  match c with
  | OReadColleague _ _ | OColleagueInChannel _ _ _ | OIsMember _ _ _ => True
  | OCreateThread caller channel by_ dm _ =>
      caller = the_caller ∧ participant_colleague (tcx_viewer ctx) = Some by_ ∧
      match channel, dm with
      | Some ch, None => si_to input = Some (TChannel ch) ∧ OColleagueInChannel ch by_ (Ok true) ∈ pre
      | None, Some h => si_to input = Some (TDm h) ∧ ∃ user, checked pre h (Human h user)
      | _, _ => False
      end
  | OParticipation caller t agent _ =>
      caller = the_caller ∧ (placed pre t ∨ participant_agent (tcx_viewer ctx) = Some agent)
  | OAppend caller t m _ =>
      effects pre = [] ∧ caller = the_caller ∧ m = the_message ∧ placed pre t ∧ addressed pre t
  | OCommitChunk user id chunk _ =>
      user = user_id the_caller ∧
      ((∃ t msg from, stored pre t msg ∧ id = tcx_request_id ctx ∧
          chunk = RAgentMessage from t (si_content input) (si_receiver input))
       ∨ (exceeded pre ∧ id = tcx_root_request_id ctx ∧ chunk = from_failure DagBudgetExceeded))
  | OFanout id p _ => ∃ user chunk, OCommitChunk user id chunk (Ok p) ∈ pre
  | OCommitClose user id _ => user = user_id the_caller ∧ id = tcx_root_request_id ctx ∧ exceeded pre
  | OMarkClosed id _ => ∃ user, OCommitClose user id (Ok tt) ∈ pre
  | OBump user root _ =>
      user = user_id the_caller ∧ root = tcx_root_request_id ctx ∧
      (∃ t msg, effects pre = [OAppend the_caller t the_message (Ok msg)]) ∧
      ∃ id agent, si_receiver input = Some id ∧ checked pre id (AgentP id agent)
  | OEnqueue trig _ =>
      ∃ t msg b id agent state sender key,
        effects pre = [OAppend the_caller t the_message (Ok msg);
                       OBump (user_id the_caller) (tcx_root_request_id ctx) (Ok b)]
        ∧ si_receiver input = Some id ∧ checked pre id (AgentP id agent)
        ∧ OParticipation the_caller t agent (Ok state) ∈ pre
        ∧ participant_colleague (tcx_viewer ctx) = Some sender
        ∧ IdempotencyKey_try_from (trigger_key t agent msg) = Ok key
        ∧ trig = the_trigger t state sender agent msg key
  | ODeliver org t _ => org = org_id the_caller ∧ ∃ msg, stored pre t msg
  | _ => False
  end.

(** The abstract send: post, charge, wake; success is the whole of it. *)
Inductive send_run : res ToolError SendMessageOutput → list ocall → Prop :=
| sr_rejected e : send_run (Err e) []
| sr_post_failed t x e :
    send_run (Err e) [OAppend the_caller t the_message (Err x)]
| sr_posted t msg :
    send_run (Ok (posted t None)) [OAppend the_caller t the_message (Ok msg)]
| sr_unjoined t msg e :
    send_run (Err e) [OAppend the_caller t the_message (Ok msg)]
| sr_uncharged t msg x e :
    send_run (Err e) [OAppend the_caller t the_message (Ok msg);
                      OBump (user_id the_caller) (tcx_root_request_id ctx) (Err x)]
| sr_unkeyed t msg b e :
    send_run (Err e) [OAppend the_caller t the_message (Ok msg);
                      OBump (user_id the_caller) (tcx_root_request_id ctx) (Ok b)]
| sr_wake_failed t msg b trig x e :
    send_run (Err e) [OAppend the_caller t the_message (Ok msg);
                      OBump (user_id the_caller) (tcx_root_request_id ctx) (Ok b); OEnqueue trig (Err x)]
| sr_woken t msg b trig id :
    send_run (Ok (posted t (Some id)))
      [OAppend the_caller t the_message (Ok msg);
       OBump (user_id the_caller) (tcx_root_request_id ctx) (Ok b); OEnqueue trig (Ok id)]
| sr_panic p es : send_run (Panic p) es.

(** Nobody is woken only where there is nobody to wake. *)
Definition unwoken_ok (out : SendMessageOutput) (pre : list ocall) : Prop :=
  so_request_id out = None →
  si_receiver input = None ∨ ∃ id user, si_receiver input = Some id ∧ checked pre id (Human id user).

(** *** The facts only grow *)

Lemma effects_app xs ys : effects (xs ++ ys) = effects xs ++ effects ys.
Proof. apply picked_app. Qed.
Lemma checked_app xs ys id p : checked xs id p → checked (xs ++ ys) id p.
Proof. intros (c & ? & ?). exists c. set_solver. Qed.
Lemma addressed_app xs ys t : addressed xs t → addressed (xs ++ ys) t.
Proof.
  unfold addressed. destruct (si_receiver input); [|done]. intros (p & Hp & Hne & Hm). exists p.
  split; [by apply checked_app|]. split; [done|]. destruct p; [set_solver|done|done].
Qed.
Lemma placed_app xs ys t : placed xs t → placed (xs ++ ys) t.
Proof.
  unfold placed. destruct (si_to input) as [[ch|h]|]; [|intros (cr & u & ? & ? & ?)|done].
  - set_solver.
  - exists cr, u. split; [done|]. split; [by apply checked_app|set_solver].
Qed.

(** *** Each part of the handler *)

Section parts.
Context (env : OfficeEnv) (join : join_order).
Abbreviation follows_protocol := (obeys send_allowed).

(** A part without effects. *)
Definition quiet {A} (pre : list ocall) (P : A → list ocall → Prop) (r : res ToolError A) (pre' : list ocall) : Prop :=
  effects pre' = effects pre ∧ ∀ a, r = Ok a → P a pre'.

Lemma quiet_here {A} pre (P : A → list ocall → Prop) (r : res ToolError A) :
  (∀ a, r = Ok a → P a pre) → quiet pre P r pre.
Proof. done. Qed.
Lemma quiet_snoc {A} pre c (P : A → list ocall → Prop) r :
  is_effect c = false → (∀ a, r = Ok a → P a (pre ++ [c])) → quiet pre P r (pre ++ [c]).
Proof.
  intros Hc HP. split; [by apply picked_quiet|done].
Qed.

Definition read_of (id : ColleagueId) (r : res ColleagueError ResolvedColleague) : Prop :=
  ∀ c, r = Ok c → ∃ p, Participant_from c = Ok p ∧ participant_colleague p = Some id.

Lemma resolve_obeys pre id :
  follows_protocol pre (resolve_colleague env id ctx)
    (quiet pre (λ p pre', checked pre' id p ∧ participant_colleague p = Some id)).
Proof.
  unfold resolve_colleague. apply (obeys_bind_call _ (read_of id)).
  - intros n w c Hc. cbn in Hc. apply read_colleague_participant in Hc as (_ & p & Hp & Hi & _). eauto.
  - by intros msg c.
  - done.
  - intros c Hc. destruct (Hc c eq_refl) as (p & Hp & Hi). rewrite Hp. cbn.
    destruct (bool_decide (rcol_org_id c = _)) eqn:E; bools; cbn.
    + apply obeys_lift, quiet_snoc; [done|]. intros a [= <-]. split; [|done]. exists c. set_solver.
    + by apply obeys_err, quiet_snoc.
  - intros e _. by apply quiet_snoc.
  - intros m _. by apply quiet_snoc.
Qed.

Definition receiver_ok (pre : list ocall) (receiver : option Participant) : Prop :=
  match receiver with
  | None => si_receiver input = None
  | Some p => ∃ id, si_receiver input = Some id ∧ participant_colleague p = Some id ∧ checked pre id p
                    ∧ p ≠ tcx_viewer ctx ∧ is_system p = false
  end.

Lemma validate_obeys :
  follows_protocol [] (validate env (si_content input) (si_receiver input) ctx)
    (quiet [] (λ v pre', Prompt_as_str v.1.1 = si_content input ∧ receiver_ok pre' v.1.2
                         ∧ participant_agent (tcx_viewer ctx) = Some v.2)).
Proof.
  unfold validate. apply obeys_bind_lift; [|by intros e _; apply quiet_here|by intros e _; apply quiet_here].
  intros c Hc. destruct (Prompt_try_from (si_content input)) as [c'| |] eqn:E; [|done..]. injection Hc as <-.
  assert (Prompt_as_str c' = si_content input) as Hcontent by (by apply Prompt_try_from_Ok in E as [-> _]).
  apply obeys_bind_lift; [|by intros e _; apply quiet_here|by intros e _; apply quiet_here].
  intros a Ha. destruct (participant_agent (tcx_viewer ctx)) as [a'|] eqn:Ev; [|done]. injection Ha as <-.
  destruct (si_receiver input) as [id|] eqn:Er; [|by apply obeys_ret, quiet_here; intros v [= <-]].
  eapply obeys_bind; [apply resolve_obeys|..].
  - intros p vs [He Hp]. destruct (Hp p eq_refl) as [Hck Hcol].
    destruct (bool_decide (p = tcx_viewer ctx)) eqn:E1; bools; [by apply obeys_err|].
    destruct (is_system p) eqn:E2; [by apply obeys_err|].
    apply obeys_ret. split; [done|]. intros v [= <-]. cbn. split; [done|]. split; [|done]. eauto 10.
  - by intros e vs [He _].
  - by intros m vs [He _].
Qed.

Lemma effects_snoc pre c : effects (pre ++ [c]) = effects pre ++ (if is_effect c then [c] else []).
Proof. apply picked_snoc. Qed.
Lemma quiet_eff pre c : is_effect c = false → effects (pre ++ [c]) = effects pre.
Proof. apply picked_quiet. Qed.

Lemma receiver_ok_app pre ys receiver : receiver_ok pre receiver → receiver_ok (pre ++ ys) receiver.
Proof.
  destruct receiver; cbn; [|done]. intros (id & ? & ? & ? & ?). exists id. split; [done|]. split; [done|].
  split; [by apply checked_app|done].
Qed.

Lemma target_obeys pre from :
  effects pre = [] → participant_agent (tcx_viewer ctx) = Some from →
  follows_protocol pre (resolve_or_create_target env ctx the_caller from (si_to input))
    (quiet pre (λ t pre', placed pre' t)).
Proof.
  intros Heff Hfrom. unfold resolve_or_create_target. destruct (si_to input) as [target|] eqn:Eto.
  2: { apply obeys_lift, quiet_here. unfold placed. rewrite Eto. by destruct (tcx_thread_id ctx); intros a [= <-]. }
  apply obeys_bind_lift; [|by intros e _; apply quiet_here|by intros e _; apply quiet_here].
  intros creator Hc. destruct (participant_colleague (tcx_viewer ctx)) as [c'|] eqn:Ec; [|done].
  injection Hc as ->.
  eapply (obeys_bind _ _ _ _ (quiet pre (λ p pre', match target, p with
    | TChannel ch, (Some ch', None) => ch' = ch ∧ OColleagueInChannel ch creator (Ok true) ∈ pre'
    | TDm h, (None, Some h') => h' = h ∧ ∃ user, checked pre' h (Human h user)
    | _, _ => False end))).
  - destruct target as [ch|h]; cbn.
    + apply (obeys_bind_call _ (λ _, True)); [done..| | |].
      * intros [] _; cbn; [|by apply obeys_err, quiet_snoc]. apply obeys_ret, quiet_snoc; [done|].
        intros a [= <-]. set_solver.
      * intros e _. by apply quiet_snoc.
      * intros m _. by apply quiet_snoc.
    + eapply obeys_bind; [apply resolve_obeys|..]; [|by intros ? ? [? _]..].
      intros p vs [He Hp]. destruct (Hp p eq_refl) as [Hck Hcol].
      destruct p as [c u|c a|]; [|by apply obeys_err..]. cbn in Hcol. injection Hcol as ->.
      apply obeys_ret. split; [done|]. intros a [= <-]. eauto.
  - intros [ch dm] vs [He Hp]. specialize (Hp _ eq_refl). cbn [fst snd].
    apply (obeys_bind_call _ (λ _, True)); [done..| | | |].
    + intros r. cbn. split; [done|]. split; [done|]. rewrite Eto.
      destruct target, ch, dm; try done; destruct Hp as [-> Hp]; eauto.
    + intros t _. assert (placed ((pre ++ vs) ++ [OCreateThread the_caller ch creator dm (Ok t)]) t) as Hpl.
      { unfold placed. rewrite Eto. destruct target, ch, dm; try done; destruct Hp as [-> Hp].
        - exists creator. set_solver.
        - destruct Hp as [user Hp]. exists creator, user. split; [done|]. split; [by apply checked_app|set_solver]. }
      apply (obeys_bind_call _ (λ _, True)); [done..| | | |].
      * intros r. cbn. by auto.
      * intros st _. apply obeys_ret. split; [by rewrite !quiet_eff|]. intros t' [= <-]. by apply placed_app.
      * intros e _. split; [by rewrite !quiet_eff|done].
      * intros e _. split; [by rewrite !quiet_eff|done].
    + intros e _. split; [by rewrite !quiet_eff|done].
    + intros e _. split; [by rewrite !quiet_eff|done].
  - by intros e vs [? _].
  - by intros e vs [? _].
Qed.

(** **** The post *)

Definition post_call (t : ThreadId) (r : res ThreadError ThreadMessageId) : ocall :=
  OAppend the_caller t the_message r.

Section delivery.
Context (content : Prompt) (Hcontent : Prompt_as_str content = si_content input).
Abbreviation sender := (participant_colleague (tcx_viewer ctx)).

Lemma post_row_obeys pre t :
  effects pre = [] → placed pre t → addressed pre t →
  follows_protocol pre (post_row env the_caller t sender (si_receiver input) content (tcx_request_id ctx))
    (λ r pre', ∃ x, pre' = pre ++ [post_call t x] ∧
       match r with Ok m => x = Ok m | Err _ => ∃ e, x = Err e | Panic _ => ∃ p, x = Panic p end).
Proof.
  intros He Hp Ha. unfold post_row. rewrite Hcontent. apply obeys_map_err, obeys_call.
  - intros r. cbn. by split_and!.
  - intros [m|e|p]; eexists; (split; [done|]); cbn; eauto.
Qed.

(** The chunk after the row changes no effect and fails nothing. *)
Lemma publish_obeys pre user id chunk (Q : res ToolError unit → list ocall → Prop) :
  (∀ r, send_allowed pre (OCommitChunk user id chunk r)) →
  (∀ ys, effects (pre ++ ys) = effects pre → Q (Ok tt) (pre ++ ys) ∧ ∀ m, Q (Panic m) (pre ++ ys)) →
  follows_protocol pre (ptry (publish_for_user env user id chunk)) Q.
Proof.
  intros Ha HQ. apply obeys_try. unfold publish_for_user.
  eapply (obeys_bind _ _ _ _ (λ r pre', pre' = pre ++ [OCommitChunk user id chunk r])).
  - apply obeys_call; [done|]. by intros r.
  - intros p vs Hvs. rewrite Hvs. apply obeys_call.
    + intros r. cbn. exists user, chunk. set_solver.
    + intros r. rewrite <-app_assoc. cbn [app].
      destruct (HQ [OCommitChunk user id chunk (Ok p); OFanout id p r]) as [H1 H2].
      { rewrite effects_app. by rewrite app_nil_r. }
      by destruct r.
  - intros e vs Hvs. rewrite Hvs. apply HQ. by rewrite quiet_eff.
  - intros m vs Hvs. rewrite Hvs. apply HQ. by rewrite quiet_eff.
Qed.

Lemma close_obeys pre (Q : res ToolError unit → list ocall → Prop) :
  exceeded pre →
  (∀ ys, effects (pre ++ ys) = effects pre → Q (Ok tt) (pre ++ ys) ∧ ∀ m, Q (Panic m) (pre ++ ys)) →
  follows_protocol pre (ptry (close_for_user env (user_id the_caller) (tcx_root_request_id ctx))) Q.
Proof.
  intros Ha HQ. apply obeys_try. unfold close_for_user.
  set (ev := OCommitClose (user_id the_caller) (tcx_root_request_id ctx)).
  eapply (obeys_bind _ _ _ _ (λ r pre', pre' = pre ++ [ev r])).
  - apply obeys_call; [done|]. by intros r.
  - intros [] vs Hvs. rewrite Hvs. apply obeys_call.
    + intros r. cbn. exists (user_id the_caller). set_solver.
    + intros r. rewrite <-app_assoc. cbn [app].
      destruct (HQ [ev (Ok ()); OMarkClosed (tcx_root_request_id ctx) r]) as [H1 H2].
      { rewrite effects_app. by rewrite app_nil_r. }
      by destruct r.
  - intros e vs Hvs. rewrite Hvs. apply HQ. by rewrite quiet_eff.
  - intros m vs Hvs. rewrite Hvs. apply HQ. by rewrite quiet_eff.
Qed.

Lemma post_chunk_obeys pre t msg from (Q : res ToolError unit → list ocall → Prop) :
  stored pre t msg →
  (∀ ys, effects (pre ++ ys) = effects pre → Q (Ok tt) (pre ++ ys) ∧ ∀ m, Q (Panic m) (pre ++ ys)) →
  follows_protocol pre (post_chunk env the_caller t from (si_receiver input) content (tcx_request_id ctx)) Q.
Proof.
  intros Hst HQ. unfold post_chunk. rewrite Hcontent. apply publish_obeys; [|done].
  intros r. cbn. split; [done|]. left. exists t, msg, from. by split_and!.
Qed.

(** What a post leaves. *)
Definition post_done (pre : list ocall) (t : ThreadId) (r : res ToolError ThreadMessageId) (pre' : list ocall) : Prop :=
  match r with
  | Ok m => effects pre' = [post_call t (Ok m)]
  | Err _ => ∃ e, effects pre' = [post_call t (Err e)]
  | Panic _ => True
  end.

Lemma effects_in pre c : c ∈ effects pre → c ∈ pre.
Proof. apply picked_in. Qed.

Lemma post_obeys pre t from :
  effects pre = [] → placed pre t → addressed pre t →
  follows_protocol pre (post env the_caller t from sender (si_receiver input) content (tcx_request_id ctx))
    (post_done pre t).
Proof.
  intros He Hp Ha. unfold post. eapply obeys_bind; [by apply post_row_obeys|..].
  - intros m vs (x & -> & ->).
    eapply (obeys_bind _ _ _ _ (λ r pre', match r with Err _ => False | _ => effects pre' = [post_call t (Ok m)] end)).
    + apply (post_chunk_obeys _ t m); [unfold stored, post_call; set_solver|]. intros ys Hys.
      by rewrite Hys, effects_snoc, He.
    + intros u vs' Hu. by apply obeys_ret.
    + by intros e vs' [].
    + done.
  - intros e vs (x & -> & e' & ->). exists e'. by rewrite effects_snoc, He.
  - done.
Qed.

(** **** To an agent *)

Definition joined_call (t : ThreadId) (agent : AgentId) (s : ThreadError + AgentThreadId) (pre : list ocall) : Prop :=
  match s with inr st => OParticipation the_caller t agent (Ok st) ∈ pre | inl _ => True end.

Lemma participation_obeys pre t agent :
  placed pre t →
  follows_protocol pre (pcatch (call_participation env the_caller t agent))
    (λ (r : res ToolError _) pre', ∃ x, pre' = pre ++ [OParticipation the_caller t agent x] ∧
       match r with Ok s => joined_call t agent s pre' | Err _ => False | Panic _ => True end).
Proof.
  intros Hp. apply obeys_catch, obeys_call.
  - intros r. cbn. by auto.
  - intros r. exists r. split; [done|]. destruct r; cbn; set_solver.
Qed.

Definition join_done (t : ThreadId) (agent : AgentId)
    (r : res ToolError ((ToolError + ThreadMessageId) * (ThreadError + AgentThreadId))) (pre' : list ocall) : Prop :=
  match r with
  | Ok (p, s) =>
      joined_call t agent s pre' ∧
      match p with
      | inr m => effects pre' = [post_call t (Ok m)]
      | inl _ => ∃ e, effects pre' = [post_call t (Err e)]
      end
  | Err _ => False
  | Panic _ => True
  end.

Lemma joined_call_app t agent s xs ys : joined_call t agent s xs → joined_call t agent s (xs ++ ys).
Proof. destruct s; [done|]. cbn. set_solver. Qed.

(** A caught post. *)
Lemma caught_post_obeys pre t from :
  effects pre = [] → placed pre t → addressed pre t →
  follows_protocol pre
    (pcatch (post env the_caller t from sender (si_receiver input) content (tcx_request_id ctx)))
    (λ (r : res ToolError _) pre',
       match r with
       | Ok (inr m) => effects pre' = [post_call t (Ok m)]
       | Ok (inl _) => ∃ e, effects pre' = [post_call t (Err e)]
       | Err _ => False
       | Panic _ => True
       end).
Proof.
  intros He Hp Ha. apply obeys_catch. eapply obeys_mono; [by apply post_obeys|]. by intros [].
Qed.

(** The row, the participation, the chunk. *)
Lemma within_obeys pre t from agent :
  effects pre = [] → placed pre t → addressed pre t →
  follows_protocol pre
    (post_and_join env JoinWithin the_caller t from sender (si_receiver input) content (tcx_request_id ctx) agent)
    (join_done t agent).
Proof.
  intros He Hp Ha. unfold post_and_join.
  eapply (obeys_bind _ _ _ _ (λ (r : res ToolError _) pre', ∃ x, pre' = pre ++ [post_call t x] ∧
    match r with Ok (inr m) => x = Ok m | Ok (inl _) => ∃ e, x = Err e | Err _ => False | Panic _ => True end)).
  - apply obeys_catch. eapply obeys_mono; [by apply post_row_obeys|].
    intros [m|e|p] vs (x & Hx & Hr); exists x; by split.
  - intros row vs (x & -> & Hr).
    eapply obeys_bind; [apply participation_obeys; by apply placed_app|..]; [|by intros ? ? (? & _ & [])|done].
    intros s vs' (y & -> & Hs). destruct row as [e0|m].
    { destruct Hr as [e ->]. apply obeys_ret. split; [done|]. exists e. by rewrite quiet_eff, effects_snoc, He. }
    subst x. eapply (obeys_bind _ _ _ _ (λ r pre', match r with Err _ => False
      | _ => joined_call t agent s pre' ∧ effects pre' = [post_call t (Ok m)] end)).
    + apply (post_chunk_obeys _ t m); [unfold stored, post_call; set_solver|]. intros ys Hys.
      rewrite Hys, quiet_eff, effects_snoc, He by done. by pose proof (joined_call_app t agent s _ ys Hs).
    + intros u vs'' Hu. by apply obeys_ret.
    + by intros e vs'' [].
    + done.
  - by intros e vs (x & _ & []).
  - done.
Qed.

Lemma join_obeys pre t from agent :
  effects pre = [] → placed pre t → addressed pre t →
  follows_protocol pre
    (post_and_join env join the_caller t from sender (si_receiver input) content (tcx_request_id ctx) agent)
    (join_done t agent).
Proof.
  intros He Hp Ha. destruct join; [| by apply within_obeys|]; unfold post_and_join.
  - eapply obeys_bind; [by apply participation_obeys|..]; [|by intros ? ? (? & _ & [])|done].
    intros s vs (x & -> & Hs).
    eapply obeys_bind; [apply caught_post_obeys|..]; [by rewrite quiet_eff|by apply placed_app|by apply addressed_app
      | |by intros ? ? []|done].
    intros r vs' Hr. apply obeys_ret. split; [by apply joined_call_app|by destruct r].
  - eapply obeys_bind; [by apply caught_post_obeys|..]; [|by intros ? ? []|done].
    intros r vs Hr. eapply obeys_bind; [apply participation_obeys; by apply placed_app|..];
      [|by intros ? ? (? & _ & [])|done].
    intros s vs' (y & -> & Hs). apply obeys_ret. split; [done|]. destruct r; by rewrite quiet_eff.
Qed.

Abbreviation bump_call r := (OBump (user_id the_caller) (tcx_root_request_id ctx) r).

Lemma budget_obeys pre t m id agent :
  effects pre = [post_call t (Ok m)] → si_receiver input = Some id → checked pre id (AgentP id agent) →
  follows_protocol pre (bump_dag_budget env ctx)
    (λ r pre',
       match r with
       | Ok _ => ∃ b, effects pre' = [post_call t (Ok m); bump_call (Ok b)]
       | Err _ => ∃ x, effects pre' = [post_call t (Ok m); bump_call (Err x)]
       | Panic _ => True
       end).
Proof.
  intros He Hr Hck. unfold bump_dag_budget.
  eapply (obeys_bind _ _ _ _ (λ (r : res ToolError _) pre', ∃ x, pre' = pre ++ [bump_call x] ∧
    match r with Ok (inr b) => x = Ok b
    | Ok (inl e) => x = Err e ∧ ∀ r' u c, e = DagBudgetExceeded_ r' u c → r' = tcx_root_request_id ctx
    | Err _ => False | Panic _ => True end)); [|intros s vs (x & -> & Hs)|by intros ? ? (? & _ & [])|done].
  - apply obeys_catch. apply (obeys_call_of _ (λ r, ∀ r' u c, r = Err (DagBudgetExceeded_ r' u c) → r' = tcx_root_request_id ctx)).
    + intros n w r' u c. cbn. unfold bump_or_fail_for_user, bump_or_fail_in_tx.
      destruct (prompt_request_dags _ !! _) as [row|]; [|done]. destruct (negb _); [done|].
      destruct (_ <? _)%Z; cbn; unfold u32_or_invariant; repeat case_match; naive_solver.
    + naive_solver.
    + intros r. cbn. split; [done|]. split; [done|]. split; [by exists t, m|by exists id, agent].
    + intros [b|e|p] Hx; eexists; (split; [done|]); cbn; naive_solver.
  - destruct s as [e|b]; [|subst x; apply obeys_ret; exists b; by rewrite effects_snoc, He].
    destruct Hs as [-> Hroot].
    destruct e as [| |root used c| | | |]; try (apply obeys_err; eexists; by rewrite effects_snoc, He).
    specialize (Hroot _ _ _ eq_refl). subst root. set (pre1 := pre ++ [_]).
    assert (exceeded pre1) as Hex by (exists used, c; unfold pre1; set_solver).
    assert (effects pre1 = [post_call t (Ok m); bump_call (Err (DagBudgetExceeded_ (tcx_root_request_id ctx) used c))]) as He1
      by (unfold pre1; by rewrite effects_snoc, He).
    eapply (obeys_bind _ _ _ _ (λ r pre', match r with Err _ => False | _ => effects pre' = effects pre1 end)).
    + apply publish_obeys; [|by auto]. intros r. cbn. by eauto 10.
    + intros u vs' Hys. eapply (obeys_bind _ _ _ _ (λ r pre', match r with Err _ => False | _ => effects pre' = effects pre1 end)).
      * apply close_obeys; [destruct Hex as (a & b & ?); exists a, b; set_solver|]. intros zs Hzs. rewrite Hzs. by auto.
      * intros u' vs'' He2. apply obeys_err. rewrite He2, He1. by eexists.
      * by intros ? ? [].
      * done.
    + by intros ? ? [].
    + done.
Qed.

Lemma trigger_obeys pre t m b id agent state :
  effects pre = [post_call t (Ok m); bump_call (Ok b)] → si_receiver input = Some id →
  checked pre id (AgentP id agent) → OParticipation the_caller t agent (Ok state) ∈ pre →
  follows_protocol pre (enqueue_agent_trigger env ctx t state agent sender m)
    (λ r pre',
       match r with
       | Ok i => ∃ trig, effects pre' = [post_call t (Ok m); bump_call (Ok b); OEnqueue trig (Ok i)]
       | Err _ => effects pre' = effects pre
                  ∨ ∃ trig x, effects pre' = [post_call t (Ok m); bump_call (Ok b); OEnqueue trig (Err x)]
       | Panic _ => True
       end).
Proof.
  intros He Hr Hck Hst. unfold enqueue_agent_trigger.
  apply obeys_bind_lift; [|by auto|done]. intros s Hs.
  apply obeys_bind_lift; [|by auto|done]. intros key Hkey.
  destruct (IdempotencyKey_try_from (trigger_key t agent m)) as [key'| |] eqn:Ek; [|done..]. injection Hkey as ->.
  destruct (participant_colleague (tcx_viewer ctx)) as [s'|] eqn:Es; [|done]. injection Hs as ->.
  apply obeys_map_err, obeys_call.
  - intros r. cbn. exists t, m, b, id, agent, state, s, key. by split_and!.
  - intros [i|e|p]; rewrite ?effects_snoc, ?He; cbn; eauto.
Qed.

(** **** The whole delivery *)

(** The end of a send: an abstract run, whose success has its message stored. *)
Definition delivered (t : ThreadId) (r : res ToolError SendMessageOutput) (pre : list ocall) : Prop :=
  send_run r (effects pre) ∧
  match r with Ok out => (∃ msg, stored pre t msg) ∧ unwoken_ok out pre | _ => True end.

Lemma dispatch_obeys pre t from receiver :
  effects pre = [] → placed pre t → receiver_ok pre receiver →
  follows_protocol pre (dispatch env join ctx the_caller t from sender receiver content) (delivered t).
Proof.
  intros He Hp Hrec. unfold delivered, stored.
  assert (∀ pre' m, effects pre' = [post_call t (Ok m)] → post_call t (Ok m) ∈ pre') as Hin.
  { intros pre' m Hm. apply effects_in. rewrite Hm. set_solver. }
  destruct receiver as [[c u|c a|]|]; cbn [receiver_ok] in Hrec.
  - destruct Hrec as (id & Hid & [= ->] & Hck & Hne & _). cbn. unfold deliver_to_human.
    apply (obeys_bind_call _ (λ _, True)); [done..| | |].
    + intros [] _; cbn; [|apply obeys_err; rewrite quiet_eff, He by done; split; [constructor|done]].
      rewrite <-Hid. eapply obeys_bind; [apply post_obeys|..].
      * by rewrite quiet_eff.
      * by apply placed_app.
      * unfold addressed. rewrite Hid. exists (Human id u). split; [by apply checked_app|]. set_solver.
      * intros m vs Hm. apply obeys_ret. split; [rewrite Hm; constructor|]. split; [eexists; by apply Hin|].
        intros _. right. exists id, u. split; [done|]. rewrite <-app_assoc. by apply checked_app.
      * intros e vs [x Hx]. rewrite Hx. by split; [econstructor|].
      * intros p vs _. by split; [constructor|].
    + intros e _. rewrite quiet_eff, He by done. by split; [constructor|].
    + intros p _. by split; [constructor|].
  - destruct Hrec as (id & Hid & [= ->] & Hck & Hne & _). cbn. unfold deliver_to_agent. rewrite <-Hid.
    eapply obeys_bind; [apply join_obeys; try done|..].
    { unfold addressed. rewrite Hid. by exists (AgentP id a). }
    2: { by intros e vs []. }
    2: { intros p vs _. by split; [constructor|]. }
    intros [msg s] vs [Hj Hm]. cbn [fst snd].
    apply obeys_bind_lift; [|destruct msg; try done; destruct Hm as [x ->]; intros e' _; by split; [econstructor|]|by destruct msg].
    intros m Hok. destruct msg as [|m']; [done|]. injection Hok as ->.
    apply obeys_bind_lift; [|intros e _; rewrite Hm; by split; [econstructor|]|by destruct s].
    intros state Hs. destruct s as [|st]; [done|]. injection Hs as ->.
    eapply obeys_bind; [eapply budget_obeys; [done..|by apply checked_app]|..].
    + intros u vs' [b Hb]. eapply obeys_bind; [eapply trigger_obeys; [done..|by apply checked_app, checked_app|set_solver]|..].
      * intros i vs'' [trig Ht]. apply obeys_ret. rewrite Ht. split; [by econstructor|]. split; [|done]. exists m.
        apply effects_in. rewrite Ht. set_solver.
      * intros e vs'' [Ht|(trig & x & Ht)]; rewrite Ht, ?Hb; by split; [econstructor|].
      * intros p vs'' _. by split; [constructor|].
    + intros e vs' [x Hx]. rewrite Hx. by split; [econstructor|].
    + intros p vs' _. by split; [constructor|].
  - by destruct Hrec as (id & _ & _ & _ & _ & ?).
  - cbn in *. pose proof (post_obeys pre t from He Hp) as Hpost. unfold addressed in Hpost.
    rewrite Hrec in Hpost. eapply obeys_bind; [by apply Hpost|..].
    + intros m vs Hm. apply obeys_ret. split; [rewrite Hm; constructor|].
      split; [eexists; by apply Hin|]. intros _. by left.
    + intros e vs [x Hx]. rewrite Hx. by split; [econstructor|].
    + intros p vs _. by split; [constructor|].
Qed.
End delivery.

Definition sent_as (r : res ToolError SendMessageOutput) (vs : list ocall) : Prop :=
  send_run r (effects vs) ∧ ∀ out, r = Ok out → unwoken_ok out vs.

Lemma sent_as_err e vs : send_run (Err e) (effects vs) → sent_as (Err e) vs.
Proof. by split. Qed.
Lemma sent_as_panic p vs : sent_as (Panic p) vs.
Proof. split; [constructor|done]. Qed.

Lemma handle_obeys : follows_protocol [] (handle env join input ctx) sent_as.
Proof.
  unfold handle. eapply obeys_bind; [apply validate_obeys|..].
  - intros [[content receiver] from] vs [He Hv]. destruct (Hv _ eq_refl) as (Hc & Hrec & Hfrom). cbn [fst snd] in *.
    eapply obeys_bind; [by apply target_obeys|..].
    + intros t vs' [He' Hp]. specialize (Hp _ eq_refl). rewrite He in He'.
      eapply obeys_bind; [apply dispatch_obeys; [done|done|done|by apply receiver_ok_app]|..].
      * intros out vs'' (Hrun & [msg Hmsg] & Hun).
        eapply (obeys_bind _ _ _ _ (λ r pre', match r with Err _ => False | Panic _ => True
          | Ok _ => sent_as (Ok out) pre' end)).
        -- apply obeys_try, obeys_call; [intros r; cbn; by eauto|].
           intros r. assert (sent_as (Ok out) ((([] ++ vs) ++ vs') ++ vs'' ++ [ODeliver (org_id (tcx_caller ctx)) t r])) as Hs.
           { rewrite app_assoc. split; [by rewrite quiet_eff|]. intros out' [= <-] Hno. destruct (Hun Hno) as [?|(id & u & ? & ?)]; [by left|].
             right. exists id, u. split; [done|]. by apply checked_app. }
           rewrite app_assoc in Hs. by destruct r.
        -- intros u ws Hu. by apply obeys_ret.
        -- by intros e ws [].
        -- intros p ws _. apply sent_as_panic.
      * intros e vs'' [Hrun _]. by apply sent_as_err.
      * intros p vs'' _. apply sent_as_panic.
    + intros e vs' [He' _]. apply sent_as_err. rewrite He', He. constructor.
    + intros p vs' _. apply sent_as_panic.
  - intros e vs [He _]. apply sent_as_err. rewrite He. constructor.
  - intros p vs _. apply sent_as_panic.
Qed.
End parts.

(** C14: Whatever others do and whatever fails, the calls of a send are those its protocol
    allows: a thread is created only where the author may open one; the one post is
    the author's message in the thread named, to a checked receiver that may see it;
    the budget is charged only for a stored post to an agent, and that agent is
    woken only for that post, in its participation, under its key, after the charge;
    a failure goes to the root stream only when the budget is exceeded.  And the
    effects are a run of the abstract send: post, charge, wake, stopped at the first
    failure; a success to an agent has woken it. *)
Theorem send_follows_protocol (env : OfficeEnv) (join : join_order) (s : run_state office ocall) :
  ∃ vs, run_trace (handle env join input ctx s).2 = run_trace s ++ vs
  ∧ (∀ xs v ys, vs = xs ++ v :: ys → send_allowed xs v)
  ∧ send_run (handle env join input ctx s).1 (effects vs)
  ∧ ∀ out, (handle env join input ctx s).1 = Ok out → unwoken_ok out vs.
Proof. apply handle_obeys. Qed.
End protocol.

(** ** A delivery

    Agent 7 (colleague 3) wakes agent 8 (colleague 6) in thread 10. *)
Module SendDemo.
#[local] Instance uuid : UuidPrinter := λ n, show_Z (Z.of_N n).
#[local] Instance json : JsonPrinter := λ _, [].
Definition dir : directory :=
  mkDirectory [mkColleagueRow 3 1 CKAgent None (Some 7%N); mkColleagueRow 4 1 CKHuman (Some 1%N) None;
               mkColleagueRow 6 1 CKAgent None (Some 8%N)]
    {[ 7%N := lit "Ada"; 8%N := lit "Bo" ]} {[ 1%N := mkUserRow (Some (lit "Eve")) None ]} [(5, 1, 1)%N] [].
Definition here : office :=
  mkOffice Feed.empty Demo.db1 dir (mkRlog ∅ ∅ [] []) hub_empty (mkApprovals [] [] [] []).
Definition env : OfficeEnv :=
  mkOfficeEnv calm (λ n, Z.of_nat n + 100)%Z (λ n, N.of_nat n + 500)%N (λ _, true) (λ _ _, true) (λ _ _, true)
    (λ _ _, true) None 2 NoopOutboundRouter.
Definition ctx : ToolCallContext := mkToolCallContext 100 (Some 10%N) (Some 100%N) (AgentP 3 7) 11 11 PNormal (mkCaller 1 1).
Definition input : SendMessageInput := mkSendInput (Some 6%N) (lit "Please check the figures.") None.
Definition outcome := handle env JoinWithin input ctx (mkRun here []).

Lemma here_ok : office_ok Demo.timing 2 here.
Proof.
  split; cbn.
  - apply empty_ok.
  - exists [], [], Demo.s0. split; [by vm_compute|]. apply rtc_once. eexists.
    apply (step_enqueue Demo.timing Demo.ok 11 1000 None (Demo.trigger "a" None)).
  - apply empty_log_ok.
  - exists []. apply empty_hub_ok.
  - exists (mkApprovals [] [] [] []). split; [by split|apply rtc_refl].
Qed.

(** The post is in the feed, and agent 8 has a pending trigger for it. *)
Lemma delivered_and_woken :
  outcome.1 = Ok (posted 10 (Some 506%N))
  ∧ (fr_id <$> thread_messages (of_store (run_tables outcome.2))) = [501%N]
  ∧ ((λ r, (pr_id r, pr_status r, pr_trigger_message_id r, pr_root_request_id r))
       <$> prompt_requests (of_queue (run_tables outcome.2)))
    = [(11, Pending, None, 11); (506, Pending, Some 501, 11)]%N.
Proof. vm_compute. repeat split. Qed.
End SendDemo.

Lemma send_keeps_office_witness : office_ok Demo.timing 2 (run_tables SendDemo.outcome.2).
Proof.
  apply (send_keeps_office (H := SendDemo.uuid) (H0 := SendDemo.json) SendDemo.env JoinWithin Demo.timing).
  - cbn. lia.
  - apply _.
  - done.
  - exact SendDemo.here_ok.
Defined.
