(* ===== verification/ApprovalFlow.v ===== *)
(** * Asking for an approval, deciding it, and resuming the agent

    [tools/system/ask_approval.rs], [approvals/decision.rs] and
    [approvals/resume.rs] as programs over the office. *)

From Stdlib Require Import ZArith Lia Ascii String.
From stdpp Require Import base gmap list strings sets relations.
From S2P Require Import Prelude Program Types Queue Threads Colleagues Catalog Compaction Billing Tools Agent Approvals Responses Office.

Record AskApprovalInput := mkAskInput {
  ai_action : str;
  ai_gated_tool : str;
  ai_approvers : list ColleagueId;
  ai_expires_in_secs : option Z }.

Record AskApprovalOutput := mkAskOutput {
  ao_approval_id : ApprovalId;
  ao_status : string;
  ao_expires_at : Z }.

Definition SECOND_NS : Z := 1000000000.

(** [deadline]: [Duration::from_secs] of a [u64], capped at a week. *)
Definition deadline (now : Z) (expires_in_secs : option Z) : Z :=
  let requested := match expires_in_secs with Some n => (n * SECOND_NS)%Z | None => APPROVAL_DEFAULT_TTL end in
  (now + Z.min requested APPROVAL_MAX_TTL)%Z.

(** [apv:{thread}:{root}:{gated_tool}:{sha256(action)}] *)
Definition idempotency_key `{UuidPrinter, Sha256} (thread : ThreadId) (root : PromptRequestId)
    (gated_tool : ToolName) (action : str) : str :=
  lit "apv:" ++ uuid_to_string thread ++ lit ":" ++ uuid_to_string root ++ lit ":"
  ++ ToolName_as_str gated_tool ++ lit ":" ++ encode_32 (sha256 action).

(** The bell is U+1F514. *)
Definition request_text (action : ActionSummary) : str :=
  0x1F514%N :: lit " Approval needed: " ++ ActionSummary_as_str action
  ++ lit ". Awaiting a human decision before I proceed.".
Definition request_message (sender : ColleagueId) (action : ActionSummary) (request : PromptRequestId)
    : NewMessage :=
  mkNewMessage KPosted (Some sender) None None (User [UText (request_text action)]) (Some request) None.

Section flow.
Context `{UuidPrinter, JsonPrinter, Sha256} (env : OfficeEnv).

(** The injected clock, and [ApprovalId::new]. *)
Definition now_utc {E} : OP E Z := λ s, (Ok (oe_now env (length (run_trace s))), s).
Definition fresh_id {E} : OP E N := λ s, (Ok (oe_fresh env (length (run_trace s))), s).

Definition call_create_approval (caller : Caller) (new : NewApproval) : OP ApprovalError CreateOutcome :=
  approval_call env (OCreateApproval caller new)
    (λ n, create (oe_fk_approval env n) (oe_fk_approver env n) caller new (oe_now env n)).
Definition call_attach (caller : Caller) (id : ApprovalId) (m : PlatformMessageId) : OP ApprovalError unit :=
  approval_call env (OAttach caller id m) (λ _, attach_message caller id m).
Definition call_decide (org : OrgId) (id : ApprovalId) (d : Verdict) (clicker : ColleagueId) (now : Z)
    : OP ApprovalError DecideOutcome :=
  approval_call env (ODecide org id d clicker) (λ _, decide_approval org id d clicker now).

(** ** ask_approval *)

Definition ask_err {E} (what : string) (show : E → str) (e : E) : ToolError :=
  ToolBackend (lit "ask_approval: " ++ lit what ++ lit ": " ++ show e).
Definition ask_input (what : string) (e : ParseError) : ToolError :=
  InvalidInput (lit "ask_approval: " ++ lit what ++ ParseError_to_string e).

(** The loop of [validate_approvers]: each a human of the caller's organisation. *)
Fixpoint check_approvers (org : OrgId) (ids : list ColleagueId) : OP ToolError unit :=
  match ids with
  | [] => pret tt
  | id :: ids' =>
      colleague <-% pmap_err (λ e,
          match e with
          | ColleagueNotFound _ => InvalidInput (lit "ask_approval: unknown approver " ++ uuid_to_string id)
          | err => ask_err "approver lookup" ColleagueError_to_string err
          end) (colleague_read env id) ;
      if negb (bool_decide (rcol_org_id colleague = org))
      then perr (InvalidInput (lit "ask_approval: unknown approver " ++ uuid_to_string id))
      else if bool_decide (rcol_user_id colleague = None)
      then perr (InvalidInput (lit "ask_approval: approver " ++ uuid_to_string id
                               ++ lit " is an agent; only humans can approve"))
      else check_approvers org ids'
  end.

Definition validate_approvers (org : OrgId) (ids : list ColleagueId) : OP ToolError ApproverPolicy :=
  check_approvers org ids ;;%
  plift (res_map_err (ask_input "") (from_ids ids)).

Definition post_request (caller : Caller) (thread : ThreadId) (sender : ColleagueId)
    (action : ActionSummary) (ctx : ToolCallContext) : OP ToolError unit :=
  pmap_err (ask_err "post failed" ThreadError_to_string)
    (call_append env caller thread (request_message sender action (tcx_request_id ctx))) ;;%
  pret tt.

(** Every failure is logged and dropped. *)
Definition post_interactive (caller : Caller) (thread : ThreadId) (target : PlatformTarget)
    (id : ApprovalId) (action : ActionSummary) (ctx : ToolCallContext) : OP ToolError unit :=
  match target with
  | TWeb => pret tt
  | _ =>
      posted <-% pcatch (call_post_approval env (org_id (tcx_caller ctx)) thread target id action) ;
      match posted with
      | inr (Some message_id) => ptry (call_attach caller id message_id)
      | _ => pret tt
      end
  end.

Definition resolve_surface (org : OrgId) (thread : ThreadId) : OP ToolError PlatformTarget :=
  target <-% pmap_err (ask_err "resolve_target" OutboundError_to_string) (call_resolve_target env org thread) ;
  pret (default TWeb target).

Definition ask (input : AskApprovalInput) (ctx : ToolCallContext) : OP ToolError AskApprovalOutput :=
  let org := org_id (tcx_caller ctx) in
  agent <-% plift (ok_or (participant_agent (tcx_viewer ctx))
                     (InvalidInput (lit "ask_approval: caller must be an agent"))) ;
  requesting_colleague <-% plift (ok_or (participant_colleague (tcx_viewer ctx))
                     (InvalidInput (lit "ask_approval: caller must be a colleague"))) ;
  thread <-% plift (ok_or (tcx_thread_id ctx)
                     (ToolBackend (lit "ask_approval: no thread context on this call"))) ;
  action <-% plift (res_map_err (ask_input "action: ") (ActionSummary_try_from (ai_action input))) ;
  gated_tool <-% plift (res_map_err (ask_input "gated_tool: ") (ToolName_try_from (ai_gated_tool input))) ;
  approvers <-% validate_approvers org (ai_approvers input) ;
  now <-% now_utc ;
  let expires_at := deadline now (ai_expires_in_secs input) in
  let key := idempotency_key thread (tcx_root_request_id ctx) gated_tool (ActionSummary_as_str action) in
  let caller := mkCaller (user_id (tcx_caller ctx)) org in
  target <-% resolve_surface org thread ;
  id <-% fresh_id ;
  outcome <-% pmap_err (ask_err "create" ApprovalError_to_string)
    (call_create_approval caller
       (mkNewApproval id thread agent requesting_colleague (tcx_root_request_id ctx) action gated_tool
          approvers target key expires_at)) ;
  let record := create_record outcome in
  match outcome with
  | Created record =>
      post_request caller thread requesting_colleague action ctx ;;%
      post_interactive caller thread target (ar_id record) action ctx ;;%
      ptry (call_deliver env org thread)
  | Existing _ => pret tt
  end ;;%
  pret (mkAskOutput (ar_id record) (ApprovalStatus_as_str (ar_status record)) (ar_expires_at record)).

(** ** Resume *)

Definition resume_err {E} (what : string) (show : E → str) (e : E) : ApprovalError :=
  ApprovalBackend (lit "resume: " ++ lit what ++ lit ": " ++ show e).

Definition decision_label (s : ApprovalStatus) : res ApprovalError str :=
  match s with
  | ApApproved => Ok (lit "approved")
  | ApDenied => Ok (lit "denied")
  | ApPending | ApExpired => Err (ApprovalBackend (lit "resume called on an unresolved approval"))
  end.

Definition note_text (label : str) (action : ActionSummary) (decider : ColleagueName) : str :=
  lit "APPROVAL " ++ label ++ lit " for: " ++ ActionSummary_as_str action ++ lit ". Decided by "
  ++ ColleagueName_as_str decider ++ lit ".".
Definition note_message (record : ApprovalRecord) (text : str) (key : IdempotencyKey) : NewMessage :=
  mkNewMessage KSystemNote None (Some (ar_requesting_agent_id record)) None (User [UText text])
    (Some (ar_root_request_id record)) (Some key).

Definition note_key (id : ApprovalId) : str := lit "apv-note-" ++ uuid_to_string id.
Definition resume_key (id : ApprovalId) : str := lit "apv-resume-" ++ uuid_to_string id.

Definition resume (record : ApprovalRecord) : OP ApprovalError unit :=
  decided_by <-% plift (ok_or (ar_decided_by_colleague record)
                          (ApprovalBackend (lit "resume called on a non-decided approval"))) ;
  label <-% plift (decision_label (ar_status record)) ;
  decider <-% pmap_err (resume_err "read decider" ColleagueError_to_string) (colleague_read env decided_by) ;
  acting_user <-% plift (ok_or (rcol_user_id decider)
                          (ApprovalBackend (lit "resume: decider colleague has no user"))) ;
  let caller := mkCaller acting_user (ar_org_id record) in
  state <-% pmap_err (resume_err "participation" ThreadError_to_string)
    (call_participation env caller (ar_thread_id record) (ar_requesting_agent_id record)) ;
  nkey <-% plift (res_map_err ApprovalParse (IdempotencyKey_try_from (note_key (ar_id record)))) ;
  note <-% pmap_err (resume_err "append note" ThreadError_to_string)
    (call_append env caller (ar_thread_id record)
       (note_message record (note_text label (ar_action_summary record) (rcol_display_name decider)) nkey)) ;
  ptry (call_bump env acting_user (ar_root_request_id record)) ;;%
  key <-% plift (res_map_err ApprovalParse (IdempotencyKey_try_from (resume_key (ar_id record)))) ;
  pmap_err (resume_err "enqueue" PromptError_to_string)
    (call_enqueue env
       (mkNewTrigger (ar_org_id record) acting_user (Some (ar_thread_id record)) (Some state) None decided_by
          (ar_requesting_agent_id record) (Some (ar_root_request_id record)) (Some note) key PNormal)) ;;%
  pret tt.

(** ** Decide *)

Definition decider_decide (org : OrgId) (id : ApprovalId) (decision : Verdict) (clicker : ColleagueId)
    : OP ApprovalError DecideOutcome :=
  now <-% now_utc ;
  outcome <-% call_decide org id decision clicker now ;
  match outcome with
  | Decided record => resume record
  | AlreadyDecided _ => pret tt
  end ;;%
  pret outcome.
End flow.
