(* ===== verification/ApprovalFlowLaws.v ===== *)
(** * What the approval flow promises

    An approval is asked for once per action, shown only when it was created, and
    its decision wakes the requesting agent for the decision's note.  All of it keeps
    the office well formed.  A decision whose resume fails is never resumed. *)

From Stdlib Require Import ZArith Lia Ascii String.
From stdpp Require Import base gmap list strings sets relations.
From S2P Require Import Prelude Program Types Queue QueueSafety Threads ThreadLaws Colleagues Tools Agent Approvals ApprovalLaws Responses ResponseLaws Office OfficeLaws SendMessage SendLaws ApprovalFlow.

(** ** The office stays well formed *)

Section safety.
Context `{UuidPrinter, JsonPrinter, Sha256} (env : OfficeEnv) (timing : LeaseTiming).
Abbreviation I := (office_ok timing (oe_slot_cap env)).
Context `{!Respects I (oe_net env)}.

(** Routers that answer. *)
Definition answers (r : OutboundRouter) : Prop :=
  (∀ n o t, no_panic (ensure_delivery r n o t)) ∧ (∀ n o t, no_panic (resolve_target r n o t))
  ∧ (∀ n o t p i a, no_panic (post_approval r n o t p i a)).
Context (Hout : answers (oe_outbound env)).

#[local] Hint Resolve safe_participation safe_append safe_bump safe_enqueue : patom_program.

Lemma safe_lift_no {E A} (r : res E A) : no_panic r → safe (V := ocall) I (plift r) (λ _, True).
Proof. intros Hr. apply safe_lift. by destruct r. Qed.
Lemma safe_parse_no {E A} (f : ParseError → E) (r : res ParseError A) :
  no_panic r → safe (V := ocall) I (plift (res_map_err f r)) (λ _, True).
Proof. intros Hr. apply safe_lift. by destruct r. Qed.
Lemma safe_option {E A} (o : option A) (e : E) : safe (V := ocall) I (plift (ok_or o e)) (λ _, True).
Proof. apply safe_lift. by destruct o. Qed.
#[local] Hint Resolve safe_option : patom_program.

Lemma key_no_panic raw : no_panic (IdempotencyKey_try_from raw).
Proof. unfold IdempotencyKey_try_from. by repeat case_match. Qed.
Lemma action_no_panic raw : no_panic (ActionSummary_try_from raw).
Proof. unfold ActionSummary_try_from. by repeat case_match. Qed.
Lemma tool_name_no_panic raw : no_panic (ToolName_try_from raw).
Proof. unfold ToolName_try_from. by repeat case_match. Qed.
Lemma from_ids_no_panic ids : no_panic (from_ids ids).
Proof. unfold from_ids. by repeat case_match. Qed.

Lemma safe_read_colleague id : safe I (colleague_read env id) (λ _, True).
Proof. eapply safe_mono; [by apply safe_colleague_read|done]. Qed.
#[local] Hint Resolve safe_read_colleague : patom_program.

Lemma record_no_panic r : no_panic (record_from_row r).
Proof.
  unfold record_from_row. pose proof (action_no_panic (ap_action_summary r)) as Ha.
  destruct (ActionSummary_try_from _); cbn; [|done..].
  pose proof (tool_name_no_panic (ap_gated_tool r)). destruct (ToolName_try_from _); cbn; [|done..].
  destruct (ap_platform_message_id r) as [m|]; cbn; [|done].
  unfold PlatformMessageId_try_from. by repeat case_match.
Qed.

Lemma decide_no_panic org id d c now s : no_panic (decide_approval org id d c now s).1.
Proof.
  unfold decide_approval, decide_tx, trun, tbind, tget, tlift, terr, tret, tguard, tmod. cbn.
  destruct (row_by_id org id s) as [r|]; cbn; [|done].
  pose proof (record_no_panic r). destruct (record_from_row r) as [rec| |]; cbn; [|done..].
  destruct (ar_status rec); cbn; try done.
  destruct (_ <=? _)%Z; cbn; [done|]. destruct (policy_allows _ _ _ _); cbn; [|done].
  pose proof (record_no_panic (decide_row (verdict_status d) c now r)) as Hp.
  destruct (record_from_row (decide_row (verdict_status d) c now r)); done.
Qed.

Lemma insert_approvers_no_panic fkc id cs org s : no_panic (insert_approvers fkc id cs org s).
Proof.
  revert s. induction cs as [|c cs IH]; intros s; cbn; [done|]. unfold tbind.
  case_bool_decide; cbn; [apply IH|]. destruct (fkc c); cbn; [apply IH|done].
Qed.

Lemma create_no_panic fk fkc caller new now s : no_panic (create fk fkc caller new now s).1.
Proof.
  unfold create, create_tx, trun, tbind. destruct (insert_row fk (user_id caller) new (org_id caller) now s)
    as [[o s1]|e|m] eqn:E; cbn; [|done|].
  - destruct o as [row|]; cbn.
    + pose proof (insert_approvers_no_panic fkc (na_id new) (members (na_approvers new)) (org_id caller) s1).
      destruct (insert_approvers _ _ _ _ s1) as [[]| |]; cbn; [|done..]. unfold tlift, tret.
      pose proof (record_no_panic row). by destruct (record_from_row row).
    + unfold tget, tlift, tret. destruct (List.find _ _) as [row|]; cbn; [|done].
      pose proof (record_no_panic row). by destruct (record_from_row row).
  - unfold insert_row in E. by repeat case_match.
Qed.

Lemma attach_no_panic caller id m s : no_panic (attach_message caller id m s).1.
Proof.
  unfold attach_message, trun, tbind, tget, tmod, tguard, tret, terr. cbn. by destruct (negb _).
Qed.

Lemma a_reachable_step s s' : a_reachable s → astep s s' → a_reachable s'.
Proof. intros (s0 & Hi & Hr) Hs. exists s0. split; [done|]. by eapply rtc_r. Qed.

Lemma safe_create_approval caller new : safe I (call_create_approval env caller new) (λ _, True).
Proof.
  apply safe_approval_call; [done|]. intros n s Hs. split.
  - eapply a_reachable_step; [done|constructor].
  - pose proof (create_no_panic (oe_fk_approval env n) (oe_fk_approver env n) caller new (oe_now env n) s).
    by destruct (create _ _ _ _ _ _) as [[]].
Qed.
Lemma safe_attach caller id m : safe I (call_attach env caller id m) (λ _, True).
Proof.
  apply safe_approval_call; [done|]. intros n s Hs. split; [eapply a_reachable_step; [done|constructor]|].
  pose proof (attach_no_panic caller id m s). by destruct (attach_message _ _ _ _) as [[]].
Qed.
Lemma safe_decide_call org id d c now : safe I (call_decide env org id d c now) (λ _, True).
Proof.
  apply safe_approval_call; [done|]. intros n s Hs. split; [eapply a_reachable_step; [done|constructor]|].
  pose proof (decide_no_panic org id d c now s). by destruct (decide_approval _ _ _ _ _ _) as [[]].
Qed.
#[local] Hint Resolve safe_create_approval safe_attach safe_decide_call : patom_program.

Lemma safe_clock {E} : safe (E := E) I (now_utc env) (λ _, True).
Proof. by intros s Hs. Qed.
Lemma safe_fresh {E} : safe (E := E) I (fresh_id env) (λ _, True).
Proof. by intros s Hs. Qed.

Lemma safe_validate_approvers org ids : safe I (validate_approvers env org ids) (λ _, True).
Proof.
  unfold validate_approvers. apply safe_seq; [|intros _; apply safe_parse_no, from_ids_no_panic].
  induction ids as [|id ids IH]; cbn; [by apply safe_ret|].
  apply safe_seq; [auto with patom_program|]. intros c. destruct (negb _); [by apply safe_err|].
  case_bool_decide; [by apply safe_err|done].
Qed.

Lemma safe_resume record : safe I (resume env record) (λ _, True).
Proof.
  unfold resume. apply safe_seq; [auto with patom_program|]. intros by_.
  apply safe_seq; [apply safe_lift_no; by destruct (ar_status record)|]. intros l.
  apply safe_seq; [auto with patom_program|]. intros c. apply safe_seq; [auto with patom_program|]. intros u.
  apply safe_seq; [auto with patom_program|]. intros st.
  apply safe_seq; [apply safe_parse_no, key_no_panic|]. intros k.
  apply safe_seq; [auto with patom_program|]. intros note.
  apply safe_seq; [eapply safe_try; auto with patom_program|]. intros _.
  apply safe_seq; [apply safe_parse_no, key_no_panic|]. intros k'.
  apply safe_seq; [auto with patom_program|]. auto with patom_program.
Qed.

Lemma safe_ask input ctx : safe I (ask env input ctx) (λ _, True).
Proof.
  destruct Hout as (Hdel & Hres & Hpost). unfold ask.
  do 3 (apply safe_seq; [auto with patom_program|]; intros ?).
  apply safe_seq; [apply safe_parse_no, action_no_panic|]. intros action.
  apply safe_seq; [apply safe_parse_no, tool_name_no_panic|]. intros tool.
  apply safe_seq; [apply safe_validate_approvers|]. intros pol.
  apply safe_seq; [apply safe_clock|]. intros now. apply safe_seq.
  { unfold resolve_surface. apply safe_seq; [apply safe_map_err, safe_outbound; [done|]; intros n; apply Hres|].
    auto with patom_program. }
  intros target. apply safe_seq; [apply safe_fresh|]. intros id.
  apply safe_seq; [auto with patom_program|]. intros outcome. apply safe_seq; [|auto with patom_program].
  destruct outcome as [record|record]; [|by apply safe_ret].
  apply safe_seq; [unfold post_request; apply safe_seq; auto with patom_program|]. intros _.
  apply safe_seq; [|intros _; eapply safe_try, safe_outbound; [done|]; intros n; apply Hdel].
  unfold post_interactive. destruct target; [by apply safe_ret|..].
  all: apply safe_seq; [eapply safe_mono; [apply safe_catch, safe_outbound; [done|]; intros n; apply Hpost|done]|].
  all: intros [|[m|]]; [by apply safe_ret|eapply safe_try; auto with patom_program|by apply safe_ret].
Qed.

(** C22: Asking for an approval and deciding one keep every invariant of the office,
    whatever fails and whatever others who keep them do between the calls, and never
    panic: no decided request is decided again, no row of the feed is renumbered, the
    queue stays in a reachable state. *)
Theorem approval_flow_keeps_office input ctx org id d clicker s :
  office_ok timing (oe_slot_cap env) (run_tables s) →
  (office_ok timing (oe_slot_cap env) (run_tables (ask env input ctx s).2)
   ∧ no_panic (ask env input ctx s).1)
  ∧ (office_ok timing (oe_slot_cap env) (run_tables (decider_decide env org id d clicker s).2)
     ∧ no_panic (decider_decide env org id d clicker s).1).
Proof.
  intros Hs. split; [destruct (safe_ask input ctx s Hs) as [Hk Hn]; split; [done|]; by destruct (ask _ _ _ _) as [[]]|].
  assert (safe I (decider_decide env org id d clicker) (λ _, True)) as Hd.
  { unfold decider_decide. apply safe_seq; [apply safe_clock|]. intros now. apply safe_seq; [auto with patom_program|].
    intros o. apply safe_seq; [|auto with patom_program]. destruct o; [apply safe_resume|by apply safe_ret]. }
  destruct (Hd s Hs) as [Hk Hn]. split; [done|]. by destruct (decider_decide _ _ _ _ _ _) as [[]].
Qed.
End safety.

(** ** The protocol of a request *)

Section ask_protocol.
Context `{UuidPrinter, JsonPrinter, Sha256} (input : AskApprovalInput) (ctx : ToolCallContext).

Definition asker : Caller := mkCaller (user_id (tcx_caller ctx)) (org_id (tcx_caller ctx)).

(** A person of the caller's organisation, as read. *)
Definition read_human (pre : list ocall) (id : ColleagueId) : Prop :=
  ∃ c, OReadColleague id (Ok c) ∈ pre ∧ rcol_org_id c = org_id asker ∧ is_Some (rcol_user_id c).

(** The request the input stands for. *)
Definition asked (pre : list ocall) (new : NewApproval) : Prop :=
  tcx_thread_id ctx = Some (na_thread_id new)
  ∧ participant_agent (tcx_viewer ctx) = Some (na_requesting_agent_id new)
  ∧ participant_colleague (tcx_viewer ctx) = Some (na_requesting_colleague_id new)
  ∧ na_root_request_id new = tcx_root_request_id ctx
  ∧ ActionSummary_try_from (ai_action input) = Ok (na_action_summary new)
  ∧ ToolName_try_from (ai_gated_tool input) = Ok (na_gated_tool new)
  ∧ from_ids (ai_approvers input) = Ok (na_approvers new)
  ∧ (∀ id, id ∈ ai_approvers input → read_human pre id)
  ∧ (∃ t, OResolveTarget (org_id asker) (na_thread_id new) (Ok t) ∈ pre ∧ na_target new = default TWeb t)
  ∧ na_idempotency_key new = idempotency_key (na_thread_id new) (na_root_request_id new) (na_gated_tool new)
                               (ActionSummary_as_str (na_action_summary new))
  ∧ ∃ now, na_expires_at new = deadline now (ai_expires_in_secs input).

Definition created (pre : list ocall) (new : NewApproval) (rec : ApprovalRecord) : Prop :=
  OCreateApproval asker new (Ok (Created rec)) ∈ pre.

Definition shown (new : NewApproval) (r : res ThreadError ThreadMessageId) : ocall :=
  OAppend asker (na_thread_id new)
    (request_message (na_requesting_colleague_id new) (na_action_summary new) (tcx_request_id ctx)) r.

Definition ask_allowed (pre : list ocall) (c : ocall) : Prop :=
  match c with
  | OReadColleague _ _ => True
  | OResolveTarget org t _ => org = org_id asker ∧ tcx_thread_id ctx = Some t
  | OCreateApproval caller new _ => caller = asker ∧ asked pre new
  | OAppend caller t m _ =>
      ∃ new rec, created pre new rec ∧ ∀ r, OAppend caller t m r = shown new r
  | OPostApproval target id action _ =>
      target ≠ TWeb ∧ ∃ new rec m, created pre new rec ∧ shown new (Ok m) ∈ pre
        ∧ target = na_target new ∧ id = ar_id rec ∧ action = na_action_summary new
  | OAttach caller id m _ =>
      caller = asker ∧ ∃ target action, OPostApproval target id action (Ok (Some m)) ∈ pre
  | ODeliver org t _ =>
      org = org_id asker ∧ ∃ new rec m, created pre new rec ∧ shown new (Ok m) ∈ pre ∧ t = na_thread_id new
  | _ => False
  end.

Definition asks (c : ocall) : bool :=
  match c with OCreateApproval _ _ _ | OAppend _ _ _ _ => true | _ => false end.

Definition output_of (rec : ApprovalRecord) : AskApprovalOutput :=
  mkAskOutput (ar_id rec) (ApprovalStatus_as_str (ar_status rec)) (ar_expires_at rec).

(** The abstract request: create, and show what was created. *)
Inductive ask_run : res ToolError AskApprovalOutput → list ocall → Prop :=
| ar_rejected e : ask_run (Err e) []
| ar_uncreated new x e : ask_run (Err e) [OCreateApproval asker new (Err x)]
| ar_repeated new rec :
    ask_run (Ok (output_of rec)) [OCreateApproval asker new (Ok (Existing rec))]
| ar_unshown new rec x e :
    ask_run (Err e) [OCreateApproval asker new (Ok (Created rec)); shown new (Err x)]
| ar_shown new rec m :
    ask_run (Ok (output_of rec)) [OCreateApproval asker new (Ok (Created rec)); shown new (Ok m)]
| ar_panic p es : ask_run (Panic p) es.

Context (env : OfficeEnv).
Abbreviation follows_ask := (obeys ask_allowed).
Abbreviation asked_in := (picked asks).

Definition still {A} (pre : list ocall) (P : A → list ocall → Prop) (r : res ToolError A) (pre' : list ocall) : Prop :=
  asked_in pre' = asked_in pre ∧ ∀ a, r = Ok a → P a pre'.

Lemma read_human_app xs ys id : read_human xs id → read_human (xs ++ ys) id.
Proof. intros (c & ? & ?). exists c. set_solver. Qed.

Lemma check_approvers_obeys pre ids :
  follows_ask pre (check_approvers env (org_id asker) ids)
    (still pre (λ _ pre', ∀ id, id ∈ ids → read_human pre' id)).
Proof.
  revert pre. induction ids as [|id ids IH]; intros pre; cbn.
  { apply obeys_ret. split; [done|]. set_solver. }
  apply (obeys_bind_call _ (λ _, True)); [done..| | |].
  - intros c _. destruct (bool_decide (rcol_org_id c = _)) eqn:Eo; bools; cbn;
      [|apply obeys_err; split; [by rewrite picked_quiet|done]].
    case_bool_decide as Eu; [apply obeys_err; split; [by rewrite picked_quiet|done]|].
    eapply obeys_mono; [apply IH|]. intros r vs [He Hr]. split; [by rewrite He, picked_quiet|].
    intros a Ha i [->|Hi]%elem_of_cons; [|by eapply Hr]. apply read_human_app.
    exists c. split; [set_solver|]. split; [done|]. by destruct (rcol_user_id c).
  - intros e _. split; [by rewrite picked_quiet|done].
  - intros p _. split; [by rewrite picked_quiet|done].
Qed.

Lemma interactive_obeys pre new rec m :
  created pre new rec → shown new (Ok m) ∈ pre →
  follows_ask pre (post_interactive env asker (na_thread_id new) (na_target new) (ar_id rec) (na_action_summary new) ctx)
    (λ r pre', asked_in pre' = asked_in pre ∧ match r with Err _ => False | _ => True end).
Proof.
  intros Hc Hs. unfold post_interactive.
  assert (na_target new = TWeb ∨ na_target new ≠ TWeb) as [->|Hne] by (destruct (na_target new); auto); [by apply obeys_ret|].
  assert (∀ k, follows_ask pre
    (posted <-% pcatch (call_post_approval env (org_id (tcx_caller ctx)) (na_thread_id new) (na_target new) (ar_id rec) (na_action_summary new)) ;
     match posted with inr (Some message_id) => ptry (call_attach env asker (ar_id rec) message_id) | _ => pret tt end) k
    ↔ follows_ask pre (post_interactive env asker (na_thread_id new) (na_target new) (ar_id rec) (na_action_summary new) ctx) k) as Hk.
  { intros k. unfold post_interactive. by destruct (na_target new). }
  apply Hk. clear Hk.
  eapply (obeys_bind _ _ _ _ (λ (r : res ToolError _) pre', ∃ x,
    pre' = pre ++ [OPostApproval (na_target new) (ar_id rec) (na_action_summary new) x]
    ∧ match r with Ok (inr a) => x = Ok a | Err _ => False | _ => True end)).
  - apply obeys_catch, obeys_call; [|intros r; exists r; split; [done|]; by destruct r].
    intros r. cbn. split; [done|]. by exists new, rec, m.
  - intros posted vs (x & -> & Hx). assert (asked_in (pre ++ [OPostApproval (na_target new) (ar_id rec) (na_action_summary new) x]) = asked_in pre) as He
      by (by rewrite picked_quiet).
    destruct posted as [e|[mid|]]; [by apply obeys_ret| |by apply obeys_ret]. subst x.
    apply obeys_try, obeys_call.
    + intros r. cbn. split; [done|]. exists (na_target new), (na_action_summary new). set_solver.
    + intros r. rewrite picked_quiet by done. by destruct r.
  - by intros e vs (x & _ & []).
  - intros p vs (x & -> & _). by rewrite picked_quiet.
Qed.

Lemma ask_run_err e pre : asked_in pre = [] → ask_run (Err e) (asked_in pre).
Proof. intros ->. constructor. Qed.

Lemma shown_obeys pre new rec :
  asked_in pre = [OCreateApproval asker new (Ok (Created rec))] → created pre new rec →
  follows_ask pre
    (post_request env asker (na_thread_id new) (na_requesting_colleague_id new) (na_action_summary new) ctx ;;%
     post_interactive env asker (na_thread_id new) (na_target new) (ar_id rec) (na_action_summary new) ctx ;;%
     ptry (call_deliver env (org_id (tcx_caller ctx)) (na_thread_id new)))
    (λ r pre', match r with
       | Ok _ => ∃ m, asked_in pre' = [OCreateApproval asker new (Ok (Created rec)); shown new (Ok m)]
       | Err _ => ∃ x, asked_in pre' = [OCreateApproval asker new (Ok (Created rec)); shown new (Err x)]
       | Panic _ => True
       end).
Proof.
  intros He Hc. unfold post_request.
  eapply (obeys_bind _ _ _ _ (λ (r : res ToolError unit) pre', ∃ x, pre' = pre ++ [shown new x] ∧
    match r with Ok _ => ∃ m, x = Ok m | Err _ => ∃ e, x = Err e | Panic _ => True end)).
  - apply (obeys_bind_call _ (λ _, True)); [done..| | | |].
    + intros r. cbn. by exists new, rec.
    + intros m _. apply obeys_ret. by eexists; eauto.
    + intros e _. by eexists; eauto.
    + intros p _. by eexists; eauto.
  - intros u vs (x & -> & m & ->).
    assert (asked_in (pre ++ [shown new (Ok m)]) = [OCreateApproval asker new (Ok (Created rec)); shown new (Ok m)]) as He1
      by (rewrite picked_snoc, He; done).
    assert (created (pre ++ [shown new (Ok m)]) new rec) as Hc1 by (unfold created in *; set_solver).
    assert (shown new (Ok m) ∈ pre ++ [shown new (Ok m)]) as Hs1 by set_solver.
    eapply obeys_bind; [by eapply interactive_obeys|..].
    + intros u' vs' [Hq _]. apply obeys_try, obeys_call.
      * intros r. cbn. split; [done|]. exists new, rec, m. unfold created in *. split; [set_solver|]. set_solver.
      * intros r. rewrite picked_quiet, Hq, He1 by done. destruct r; eauto.
    + by intros e vs' [_ []].
    + done.
  - intros e vs (x & -> & e' & ->). exists e'. by rewrite picked_snoc, He.
  - done.
Qed.

Lemma ask_obeys : follows_ask [] (ask env input ctx) (λ r vs, ask_run r (asked_in vs)).
Proof.
  unfold ask.
  apply obeys_bind_lift; [intros agent Ha|intros; constructor|intros; constructor].
  apply obeys_bind_lift; [intros col Hcol|intros; constructor|intros; constructor].
  apply obeys_bind_lift; [intros thread Ht|intros; constructor|intros; constructor].
  apply obeys_bind_lift; [intros action Hact|intros; constructor|intros; constructor].
  apply obeys_bind_lift; [intros tool Htool|intros; constructor|intros; constructor].
  assert (∀ {E A} (o : option A) (e : E) a, ok_or o e = Ok a → o = Some a) as Hok
    by (intros E A [a0|] e a; cbn; congruence).
  assert (∀ {A} (r : res ParseError A) (f : ParseError → ToolError) a, res_map_err f r = Ok a → r = Ok a) as Hpa
    by (intros A [a0| |] f a; cbn; congruence).
  apply Hok in Ha, Hcol, Ht. apply Hpa in Hact, Htool.
  eapply (obeys_bind _ _ _ _ (still [] (λ pol pre', from_ids (ai_approvers input) = Ok pol ∧
    ∀ id, id ∈ ai_approvers input → read_human pre' id))).
  { unfold validate_approvers. eapply obeys_bind; [apply check_approvers_obeys|..].
    - intros u vs [He Hr]. apply obeys_lift. split; [done|]. intros pol Hp. split; [by eapply Hpa|].
      by apply (Hr u eq_refl).
    - intros e vs [He _]. by split.
    - intros p vs [He _]. by split. }
  2: { intros e vs [He _]. rewrite He. constructor. }
  2: { intros p vs _. constructor. }
  intros pol vs [He Hpol]. destruct (Hpol pol eq_refl) as [Hids Hhum]. cbn [app] in *.
  apply obeys_pure. intros now.
  eapply (obeys_bind _ _ _ _ (still vs (λ target pre', ∃ t,
    OResolveTarget (org_id asker) thread (Ok t) ∈ pre' ∧ target = default TWeb t))).
  { unfold resolve_surface. apply (obeys_bind_call _ (λ _, True)); [done..| | | |].
    - by intros r.
    - intros t _. apply obeys_ret. split; [by rewrite picked_quiet|]. intros a [= <-]. exists t. split; [set_solver|done].
    - intros e _. split; [by rewrite picked_quiet|done].
    - intros p _. split; [by rewrite picked_quiet|done]. }
  2: { intros e vs' [He' _]. rewrite He', He. constructor. }
  2: { intros p vs' _. constructor. }
  intros target vs' [He' Htar]. destruct (Htar target eq_refl) as (t & Hres & ->).
  apply obeys_pure. intros id.
  set (new := mkNewApproval id thread agent col (tcx_root_request_id ctx) action tool pol (default TWeb t) _ _).
  apply (obeys_bind_call _ (λ _, True)); [done..| | | |].
  - intros r. cbn. split; [done|]. split_and!; try done.
    + intros i Hi. apply read_human_app. by apply Hhum.
    + eauto.
    + eexists. done.
  - intros [rec|rec] _.
    + eapply obeys_bind; [apply (shown_obeys _ new rec)|..].
      * by rewrite picked_snoc, He', He.
      * unfold created. set_solver.
      * intros u ws [m Hm]. apply obeys_ret. rewrite Hm. constructor.
      * intros e ws [x Hx]. rewrite Hx. constructor.
      * intros p ws _. constructor.
    + apply (obeys_bind_lift _ _ (Ok tt)); [|done..]. intros u _. apply obeys_ret. rewrite picked_snoc, He', He. constructor.
  - intros e _. rewrite picked_snoc, He', He. econstructor.
  - intros p _. constructor.
Qed.

(** Whatever others do and whatever fails, the calls of a request are those allowed:
    the row is the one the input stands for, its approvers people read in the
    caller's organisation, its surface the one the thread was resolved to; the feed
    and the surface show only a request this call created.  The effects are a run of
    the abstract request: create, then show; a repeated request shows nothing and
    reports the stored row. *)
Theorem ask_follows_protocol (s : run_state office ocall) :
  ∃ vs, run_trace (ask env input ctx s).2 = run_trace s ++ vs
  ∧ (∀ xs v ys, vs = xs ++ v :: ys → ask_allowed xs v)
  ∧ ask_run (ask env input ctx s).1 (asked_in vs).
Proof. apply ask_obeys. Qed.
End ask_protocol.

(** ** The protocol of a decision *)

Section decide_protocol.
Context `{UuidPrinter, JsonPrinter, Sha256} (env : OfficeEnv).
Context (org : OrgId) (id : ApprovalId) (d : Verdict) (clicker : ColleagueId).

Abbreviation decided r := (ODecide org id d clicker r).

(** The note of a decided request, from the person who decided it. *)
Definition decision_note (rec : ApprovalRecord) (caller : Caller) (m : NewMessage) : Prop :=
  org_id caller = ar_org_id rec ∧
  ∃ text key, IdempotencyKey_try_from (note_key (ar_id rec)) = Ok key ∧ m = note_message rec text key.

Definition wake_up (rec : ApprovalRecord) (user : UserId) (by_ : ColleagueId) (state : AgentThreadId)
    (note : ThreadMessageId) (key : IdempotencyKey) : NewTrigger :=
  mkNewTrigger (ar_org_id rec) user (Some (ar_thread_id rec)) (Some state) None by_
    (ar_requesting_agent_id rec) (Some (ar_root_request_id rec)) (Some note) key PNormal.

Definition decide_allowed (pre : list ocall) (c : ocall) : Prop :=
  match c with
  | ODecide _ _ _ _ _ => pre = []
  | OReadColleague by_ _ =>
      ∃ rec, decided (Ok (Decided rec)) ∈ pre ∧ ar_decided_by_colleague rec = Some by_
  | OParticipation caller t agent _ =>
      ∃ rec, decided (Ok (Decided rec)) ∈ pre ∧ t = ar_thread_id rec ∧ agent = ar_requesting_agent_id rec
  | OAppend caller t m _ =>
      ∃ rec, decided (Ok (Decided rec)) ∈ pre ∧ t = ar_thread_id rec ∧ decision_note rec caller m
  | OBump _ root _ => ∃ rec, decided (Ok (Decided rec)) ∈ pre ∧ root = ar_root_request_id rec
  | OEnqueue trig _ =>
      ∃ rec by_ c user state caller m note key,
        decided (Ok (Decided rec)) ∈ pre ∧ ar_decided_by_colleague rec = Some by_
        ∧ OReadColleague by_ (Ok c) ∈ pre ∧ rcol_user_id c = Some user
        ∧ OParticipation caller (ar_thread_id rec) (ar_requesting_agent_id rec) (Ok state) ∈ pre
        ∧ OAppend caller (ar_thread_id rec) m (Ok note) ∈ pre ∧ decision_note rec caller m
        ∧ IdempotencyKey_try_from (resume_key (ar_id rec)) = Ok key
        ∧ trig = wake_up rec user by_ state note key
  | _ => False
  end.

Definition decides (c : ocall) : bool :=
  match c with ODecide _ _ _ _ _ | OAppend _ _ _ _ | OEnqueue _ _ => true | _ => false end.

(** The abstract decision: decide, note, wake. *)
Inductive decide_run : res ApprovalError DecideOutcome → list ocall → Prop :=
| dr_refused e x : decide_run (Err e) [decided (Err x)]
| dr_again rec : decide_run (Ok (AlreadyDecided rec)) [decided (Ok (AlreadyDecided rec))]
| dr_woken rec caller m note trig r :
    decide_run (Ok (Decided rec))
      [decided (Ok (Decided rec)); OAppend caller (ar_thread_id rec) m (Ok note); OEnqueue trig (Ok r)]
| dr_lost rec e : decide_run (Err e) [decided (Ok (Decided rec))]
| dr_unnoted rec caller m x e :
    decide_run (Err e) [decided (Ok (Decided rec)); OAppend caller (ar_thread_id rec) m (Err x)]
| dr_noted rec caller m note e :
    decide_run (Err e) [decided (Ok (Decided rec)); OAppend caller (ar_thread_id rec) m (Ok note)]
| dr_unwoken rec caller m note trig x e :
    decide_run (Err e)
      [decided (Ok (Decided rec)); OAppend caller (ar_thread_id rec) m (Ok note); OEnqueue trig (Err x)]
| dr_panic p es : decide_run (Panic p) es.

Abbreviation follows_decide := (obeys decide_allowed).
Abbreviation decided_in := (picked decides).

(** What a resume of [rec] ends in, as a decision. *)
Definition resumed (rec : ApprovalRecord) (r : res ApprovalError unit) (pre : list ocall) : Prop :=
  decide_run (match r with Ok _ => Ok (Decided rec) | Err e => Err e | Panic p => Panic p end) (decided_in pre).

Lemma resume_obeys rec :
  follows_decide [decided (Ok (Decided rec))] (resume env rec) (resumed rec).
Proof.
  unfold resume, resumed.
  apply obeys_bind_lift; [intros by_ Hby|intros; constructor|intros; constructor].
  apply obeys_bind_lift; [intros label Hlabel|intros; constructor|intros; constructor].
  destruct (ar_decided_by_colleague rec) as [by'|] eqn:Eby; [|done]. injection Hby as ->.
  apply (obeys_bind_call _ (λ _, True)); [done|done| | |intros; constructor|intros; constructor].
  { intros r. cbn. exists rec. set_solver. }
  intros c _. apply obeys_bind_lift; [intros user Hu|intros; constructor|intros; constructor].
  destruct (rcol_user_id c) as [user'|] eqn:Eu; [|done]. injection Hu as ->.
  apply (obeys_bind_call _ (λ _, True)); [done|done| | |intros; constructor|intros; constructor].
  { intros r. cbn. exists rec. set_solver. }
  intros state _. apply obeys_bind_lift; [intros nkey Hn|intros; constructor|intros; constructor].
  destruct (IdempotencyKey_try_from (note_key (ar_id rec))) as [nkey'| |] eqn:En; [|done..]. injection Hn as ->.
  set (note_m := note_message rec _ nkey).
  assert (decision_note rec (mkCaller user (ar_org_id rec)) note_m) as Hnote by (split; [done|]; by eexists _, nkey).
  apply (obeys_bind_call _ (λ _, True)); [done|done| | |intros; econstructor|intros; constructor].
  { intros r. cbn. exists rec. set_solver. }
  intros note _.
  eapply (obeys_bind _ _ _ _ (λ r pre', match r with Err _ => False | _ => True end ∧ ∃ x,
    pre' = _ ++ [OBump user (ar_root_request_id rec) x])).
  { apply obeys_try, obeys_call; [intros r; cbn; exists rec; set_solver|]. intros r. destruct r; eauto. }
  2: { by intros e vs [[] _]. }
  2: { intros; constructor. }
  intros u vs (_ & x & ->). cbn [app].
  apply obeys_bind_lift; [intros key Hk|intros; econstructor|intros; constructor].
  destruct (IdempotencyKey_try_from (resume_key (ar_id rec))) as [key'| |] eqn:Ek; [|done..]. injection Hk as ->.
  apply (obeys_bind_call _ (λ _, True)); [done|done| | |intros; econstructor|intros; constructor].
  - intros r. cbn. exists rec, by_, c, user, state, (mkCaller user (ar_org_id rec)), note_m, note, key.
    split_and!; try done; set_solver.
  - intros r _. apply obeys_ret. econstructor.
Qed.

(** A decision makes no call but its own unless it is the first; then every call is for
    the decided row, its note is keyed to the approval, and the agent that asked is
    woken for that note under the key of the approval.  The effects are a run of the
    abstract decision: a successful first decision has woken the agent. *)
Theorem decide_follows_protocol (s : run_state office ocall) :
  ∃ vs, run_trace (decider_decide env org id d clicker s).2 = run_trace s ++ vs
  ∧ (∀ xs v ys, vs = xs ++ v :: ys → decide_allowed xs v)
  ∧ decide_run (decider_decide env org id d clicker s).1 (decided_in vs).
Proof.
  cut (follows_decide [] (decider_decide env org id d clicker) (λ r vs, decide_run r (decided_in vs)));
    [intros Hd; apply Hd|].
  unfold decider_decide. apply obeys_pure. intros now.
  eapply (obeys_bind _ _ _ _ (λ r pre', pre' = [decided r])).
  - by apply obeys_call.
  - intros o vs ->. eapply (obeys_bind _ _ _ _ (λ r pre', match o with
      | Decided rec => resumed rec r pre'
      | AlreadyDecided _ => r = Ok tt ∧ pre' = [decided (Ok o)] end)).
    + destruct o as [rec|rec]; [apply resume_obeys|by apply obeys_ret].
    + intros [] vs' Ho. apply obeys_ret. destruct o as [rec|rec]; [exact Ho|]. destruct Ho as [_ ->]. constructor.
    + intros e vs' Ho. destruct o as [rec|rec]; [exact Ho|]. by destruct Ho.
    + intros p vs' _. constructor.
  - intros e vs ->. constructor.
  - intros p vs _. constructor.
Qed.
End decide_protocol.

(** ** The key of a request *)

(** What the crates promise: a printed uuid has no colon and names one uuid; a digest
    is 32 bytes. *)
Class UuidLaws `{UuidPrinter} : Prop := {
  uuid_to_string_inj : Inj (=) (=) uuid_to_string;
  uuid_to_string_plain : ∀ id, 0x3A%N ∉ uuid_to_string id }.
Class DigestLaws `{Sha256} : Prop := sha256_bytes : ∀ s, Forall (λ b, (b < 256)%N) (sha256 s).

Lemma nibble_digit d : (d < 16)%N → nibble (hex_digit d) = Some d.
Proof.
  intros Hd. assert (∃ k, d = N.of_nat k ∧ k < 16) as (k & -> & Hk) by (exists (N.to_nat d); lia).
  do 16 (destruct k as [|k]; [done|]). lia.
Qed.

Lemma byte_halves b : (b < 256)%N →
  (N.shiftr b 4 < 16 ∧ N.land b 15 < 16)%N ∧ N.lor (N.shiftl (N.shiftr b 4) 4) (N.land b 15) = b.
Proof.
  intros Hb. rewrite N.shiftr_div_pow2. change 15%N with (N.ones 4). rewrite N.land_ones. split.
  { split; [apply N.Div0.div_lt_upper_bound|apply N.mod_lt]; lia. }
  rewrite <-N.shiftr_div_pow2, <-N.land_ones. apply N.bits_inj. intros n.
  rewrite N.lor_spec. destruct (N.lt_ge_cases n 4).
  - rewrite N.shiftl_spec_low, N.land_spec, N.ones_spec_low by done. by rewrite andb_true_r.
  - rewrite N.shiftl_spec_high', N.shiftr_spec', N.land_spec, N.ones_spec_high, andb_false_r, orb_false_r by done.
    by rewrite N.sub_add.
Qed.

Lemma decode_encode_loop bytes :
  Forall (λ b, (b < 256)%N) bytes → decode_loop (encode_32 bytes) = Some bytes.
Proof.
  induction 1 as [|b bytes Hb _ IH]; [done|]. destruct (byte_halves b Hb) as [[Hh Hl] Hj].
  change (encode_32 (b :: bytes)) with (hex_digit (N.shiftr b 4) :: hex_digit (N.land b 15) :: encode_32 bytes).
  cbn [decode_loop]. rewrite !nibble_digit, IH by done. cbn. by rewrite Hj.
Qed.

Lemma encode_inj xs ys :
  Forall (λ b, (b < 256)%N) xs → Forall (λ b, (b < 256)%N) ys → encode_32 xs = encode_32 ys → xs = ys.
Proof. intros Hx Hy He. apply (f_equal decode_loop) in He. rewrite !decode_encode_loop in He by done. by injection He. Qed.

(** A part without colons is read back up to the first colon. *)
Lemma colon_split (a b xs ys : str) :
  0x3A%N ∉ a → 0x3A%N ∉ b → a ++ lit ":" ++ xs = b ++ lit ":" ++ ys → a = b ∧ xs = ys.
Proof.
  revert b. induction a as [|c a IH]; intros [|d b] Ha Hb He; cbn in He.
  - by injection He.
  - injection He as <- _. set_solver.
  - injection He as -> _. set_solver.
  - injection He as <- He. destruct (IH b) as [-> ->]; set_solver.
Qed.

Lemma tool_name_plain raw t : ToolName_try_from raw = Ok t → 0x3A%N ∉ ToolName_as_str t.
Proof.
  intros (-> & _ & _ & Ha)%ToolName_try_from_Ok Hin. cbn in Hin.
  rewrite forallb_forall in Ha. apply list_elem_of_In in Hin. by apply Ha in Hin.
Qed.

(** The key of a request tells requests apart: two requests share it only when they
    are of one thread and one conversation tree, for one tool, and their actions have
    one digest.  So asking again finds the stored request only for the same action. *)
Theorem idempotency_key_injective `{UuidPrinter, !UuidLaws, Sha256, !DigestLaws} t t' root root' raw raw' tool tool' action action' :
  ToolName_try_from raw = Ok tool → ToolName_try_from raw' = Ok tool' →
  idempotency_key t root tool action = idempotency_key t' root' tool' action' →
  t = t' ∧ root = root' ∧ tool = tool' ∧ sha256 action = sha256 action'.
Proof.
  intros Ht Ht' He. unfold idempotency_key in He. apply (inj (app (lit "apv:"))) in He.
  apply colon_split in He as [Et%uuid_to_string_inj He]; [|apply uuid_to_string_plain..].
  apply colon_split in He as [Er%uuid_to_string_inj He]; [|apply uuid_to_string_plain..].
  apply colon_split in He as [En He]; [|by eapply tool_name_plain..].
  apply encode_inj in He; [|apply sha256_bytes..]. split_and!; try done.
  destruct tool, tool'. by f_equal.
Qed.

Module KeyDemo.
(** A printer with the laws, and a digest that keeps the length. *)
#[local] Instance uuid : UuidPrinter := λ n, replicate (N.to_nat n) 0x30%N.
#[local] Instance sha : Sha256 := λ s, [N.modulo (N.of_nat (length s)) 256].
#[local] Instance uuid_laws : UuidLaws.
Proof.
  split.
  - intros m n He%(f_equal length). unfold uuid_to_string, uuid in He. rewrite !length_replicate in He. lia.
  - intros id Hin. unfold uuid_to_string, uuid in Hin. by apply elem_of_replicate in Hin as [].
Qed.
#[local] Instance sha_laws : DigestLaws.
Proof. intros s. apply Forall_singleton. apply N.mod_lt. lia. Qed.
Definition tool : ToolName := mkToolName (lit "pay").
End KeyDemo.

Lemma idempotency_key_injective_witness :
  (10 = 10 ∧ 11 = 11)%N ∧ KeyDemo.tool = KeyDemo.tool
  ∧ KeyDemo.sha (lit "pay Bo") = KeyDemo.sha (lit "pay Al").
Proof.
  destruct (idempotency_key_injective (H := KeyDemo.uuid) (H0 := KeyDemo.uuid_laws) (H1 := KeyDemo.sha)
    (H2 := KeyDemo.sha_laws) 10 10 11 11 (lit "pay") (lit "pay") KeyDemo.tool KeyDemo.tool
    (lit "pay Bo") (lit "pay Al")) as (H1 & H2 & H3 & H4); [reflexivity..|]. by repeat split.
Defined.

(** ** Approvals that nobody acts on

    Agent 7 (colleague 3) asks colleague 4 in thread 10. *)
Module FlowDemo.
#[local] Instance uuid : UuidPrinter := λ n, show_Z (Z.of_N n).
#[local] Instance json : JsonPrinter := λ _, [].
#[local] Instance sha : Sha256 := λ _, replicate 32 0%N.
Definition with_net (net : Net office) : OfficeEnv :=
  mkOfficeEnv net (λ n, Z.of_nat n + 100)%Z (λ n, N.of_nat n + 500)%N (λ _, true) (λ _ _, true) (λ _ _, true)
    (λ _ _, true) None 2 NoopOutboundRouter.
Definition calm_env : OfficeEnv := with_net calm.
(** The [n]-th call fails without effect. *)
Definition failing (n : nat) : OfficeEnv :=
  with_net (mkNet (λ _ o, o) (λ k, if k =? n then Some (lit "down", false) else None)).
Definition succeeded {E A} (r : res E A) : bool := match r with Ok _ => true | _ => false end.
Definition refused {E A} (r : res E A) : bool := match r with Err _ => true | _ => false end.
Definition input : AskApprovalInput := mkAskInput (lit "pay the bill") (lit "pay") [4%N] None.
Definition start : run_state office ocall := mkRun SendDemo.here [].
Definition asked_state (env : OfficeEnv) := ask env input SendDemo.ctx start.
Definition posts (s : run_state office ocall) : list ThreadMessageId :=
  fr_id <$> thread_messages (of_store (run_tables s)).
Definition request (s : run_state office ocall) : ApprovalId :=
  default 0%N (head (ap_id <$> pending_approval (of_approvals (run_tables s)))).
Definition decided_state (env : OfficeEnv) :=
  let s := (asked_state calm_env).2 in decider_decide env 1 (request s) VApproved 4 s.
Definition wakeups (s : run_state office ocall) : list PromptRequestId :=
  pr_id <$> prompt_requests (of_queue (run_tables s)).

(** Asking shows the request; deciding it wakes the agent. *)
Lemma asked_and_decided :
  length (posts (asked_state calm_env).2) = 1
  ∧ length (posts (decided_state calm_env).2) = 2
  ∧ length (wakeups (decided_state calm_env).2) = S (length (wakeups (asked_state calm_env).2)).
Proof. vm_compute. repeat split. Qed.

(** The row is created and its post fails: the agent is told to retry, and the retry
    finds the row and shows nothing. *)
Lemma unshown_request_stays_unshown :
  refused (asked_state (failing 3)).1 = true
  ∧ length (pending_approval (of_approvals (run_tables (asked_state (failing 3)).2))) = 1
  ∧ posts (asked_state (failing 3)).2 = []
  ∧ let retry := ask calm_env input SendDemo.ctx (asked_state (failing 3)).2 in
    succeeded retry.1 = true ∧ posts retry.2 = [].
Proof. vm_compute. repeat split. Qed.

(** The decision is stored and the wake-up fails: deciding again reports the decision
    and wakes nobody. *)
Lemma unresumed_decision_stays_unresumed :
  let s := (decided_state (failing 10)).2 in
  refused (decided_state (failing 10)).1 = true
  ∧ (ap_status <$> pending_approval (of_approvals (run_tables s))) = [ApApproved]
  ∧ wakeups s = wakeups (asked_state calm_env).2
  ∧ let retry := decider_decide calm_env 1 (request s) VApproved 4 s in
    succeeded retry.1 = true ∧ wakeups retry.2 = wakeups s.
Proof. vm_compute. repeat split. Qed.
End FlowDemo.

Lemma approval_flow_keeps_office_witness :
  office_ok Demo.timing 2 (run_tables (FlowDemo.asked_state FlowDemo.calm_env).2).
Proof.
  apply (approval_flow_keeps_office (H := FlowDemo.uuid) (H1 := FlowDemo.sha) FlowDemo.calm_env Demo.timing
    ltac:(by split_and!) FlowDemo.input SendDemo.ctx 1%N 1%N VApproved 4%N FlowDemo.start).
  exact SendDemo.here_ok.
Defined.
