(* ===== verification/Cache.v ===== *)
(** * The bounded TTL cache

    [cache.rs]: a shared map with a size bound, a lifetime per entry and an epoch
    that fences a loader against an invalidation that overtakes it.  The operations
    as functions of the cache; several tasks using one cache as a transition system
    whose steps are the atomic ones of the code (one lock, one atomic access, one
    read of the source). *)

From Stdlib Require Import ZArith Lia String.
From stdpp Require Import base gmap list fin_maps strings relations.
From S2P Require Import Prelude.

Record Entry (V : Type) := mkEntry { en_value : V; en_fetched_at : Z }.
Arguments mkEntry {V} _ _.
Arguments en_value {V} _.
Arguments en_fetched_at {V} _.

Section cache.
Context `{Countable K} {V : Type}.

(** [Inner]: times are nanoseconds of the monotonic clock, the epoch is a [u64]. *)
Record BoundedTtlCache := mkCache {
  c_state : gmap K (Entry V);
  c_epoch : Z;
  c_cap : nat;
  c_ttl : Z }.
Implicit Types c : BoundedTtlCache.

Definition with_state (m : gmap K (Entry V)) c : BoundedTtlCache :=
  mkCache m (c_epoch c) (c_cap c) (c_ttl c).

Definition cache_new (cap : nat) (ttl : Z) : res Empty_set BoundedTtlCache :=
  rassert (0 <? cap) "cap must be > 0" ;;?
  rassert (0 <? ttl)%Z "ttl must be > 0" ;;?
  Ok (mkCache ∅ 0 cap ttl).

(** [saturating_duration_since] *)
Definition age (now fetched_at : Z) : Z := Z.max 0 (now - fetched_at).

Definition lookup_fresh c (k : K) (now : Z) : option V :=
  e ← c_state c !! k ;
  if (c_ttl c <=? age now (en_fetched_at e))%Z then None else Some (en_value e).

(** The loop of [evict_one]: stops at the first expired entry, and keeps the oldest
    seen so far. *)
Fixpoint evict_scan (now ttl : Z) (oldest : option (K * Z)) (entries : list (K * Entry V)) : option K :=
  match entries with
  | [] => fst <$> oldest
  | (k, e) :: entries' =>
      if (ttl <=? age now (en_fetched_at e))%Z then Some k
      else evict_scan now ttl
             match oldest with
             | None => Some (k, en_fetched_at e)
             | Some (_, ts) => if (en_fetched_at e <? ts)%Z then Some (k, en_fetched_at e) else oldest
             end entries'
  end.

(** The map is iterated in an order of its own. *)
Definition evict_one (order : list (K * Entry V)) (now ttl : Z) (m : gmap K (Entry V)) : gmap K (Entry V) :=
  match evict_scan now ttl None order with Some k => delete k m | None => m end.

Definition insert_if_epoch {E} (order : list (K * Entry V)) c (k : K) (v : V) (now started_at_epoch : Z)
    : res E BoundedTtlCache :=
  if negb (c_epoch c =? started_at_epoch)%Z then Ok c
  else
    let m := c_state c in
    m' <-? if (c_cap c <=? size m) && negb (bool_decide (is_Some (m !! k)))
           then
             let m1 := evict_one order now (c_ttl c) m in
             rassert (size m1 <? c_cap c) "eviction made room" ;;? Ok m1
           else Ok m ;
    Ok (with_state (<[k := mkEntry v now]> m') c).

(** [fetch_add] wraps. *)
Definition bump_epoch c : BoundedTtlCache :=
  mkCache (c_state c) ((c_epoch c + 1) `mod` 2 ^ 64)%Z (c_cap c) (c_ttl c).

(** [clear] and [invalidate] are each a bump and then, under the lock, a removal. *)
Definition clear c : BoundedTtlCache := with_state ∅ (bump_epoch c).
Definition invalidate (k : K) c : BoundedTtlCache := with_state (delete k (c_state c)) (bump_epoch c).

(** [load] also does what the other tasks do to the cache while it is awaited. *)
Definition get_or_load {E} (now now_after : Z) (order : BoundedTtlCache → list (K * Entry V)) (k : K)
    (load : BoundedTtlCache → res E V * BoundedTtlCache) c : res E V * BoundedTtlCache :=
  match lookup_fresh c k now with
  | Some v => (Ok v, c)
  | None =>
      let started_at_epoch := c_epoch c in
      match load c with
      | (Ok v, c1) =>
          match insert_if_epoch (order c1) c1 k v now_after started_at_epoch with
          | Ok c2 => (Ok v, c2)
          | Err e => (Err e, c1)
          | Panic p => (Panic p, c1)
          end
      | (r, c1) => (r, c1)
      end
  end.

(** ** Concurrent use

    A loader is inside [get_or_load], after its miss.  A writer changes the source
    of the values of some keys and then invalidates: by key when it changed one, or
    all of them. *)
Inductive loader := LMissed (k : K) | LSnapshot (k : K) (started : Z) | LLoaded (k : K) (v : V) (started : Z).
Inductive writer := Wrote (ks : gset K) | BumpedKey (k : K) | BumpedAll.

Record csys := mkCsys {
  cs_cache : BoundedTtlCache;
  cs_source : K → V;
  cs_loaders : gmap nat loader;
  cs_writers : gmap nat writer;
  (** the number of bumps so far *)
  cs_bumps : Z }.

Definition pending (k : K) (w : writer) : Prop :=
  match w with Wrote ks => k ∈ ks | BumpedKey k' => k = k' | BumpedAll => True end.

Inductive cstep : csys → csys → Prop :=
| st_write w ks source' c source ls ws n :
    ws !! w = None → (∀ k, k ∉ ks → source' k = source k) →
    cstep (mkCsys c source ls ws n) (mkCsys c source' ls (<[w := Wrote ks]> ws) n)
| st_bump_key w k c source ls ws n :
    ws !! w = None ∨ ws !! w = Some (Wrote {[k]}) →
    cstep (mkCsys c source ls ws n) (mkCsys (bump_epoch c) source ls (<[w := BumpedKey k]> ws) (n + 1))
| st_remove w k c source ls ws n :
    ws !! w = Some (BumpedKey k) →
    cstep (mkCsys c source ls ws n)
      (mkCsys (with_state (delete k (c_state c)) c) source ls (delete w ws) n)
| st_bump_all w c source ls ws n :
    ws !! w = None ∨ (∃ ks, ws !! w = Some (Wrote ks)) →
    cstep (mkCsys c source ls ws n) (mkCsys (bump_epoch c) source ls (<[w := BumpedAll]> ws) (n + 1))
| st_clear w c source ls ws n :
    ws !! w = Some BumpedAll →
    cstep (mkCsys c source ls ws n) (mkCsys (with_state ∅ c) source ls (delete w ws) n)
| st_miss t k now c source ls ws n :
    ls !! t = None → lookup_fresh c k now = None →
    cstep (mkCsys c source ls ws n) (mkCsys c source (<[t := LMissed k]> ls) ws n)
| st_snapshot t k c source ls ws n :
    ls !! t = Some (LMissed k) →
    cstep (mkCsys c source ls ws n) (mkCsys c source (<[t := LSnapshot k (c_epoch c)]> ls) ws n)
| st_load t k ep c source ls ws n :
    ls !! t = Some (LSnapshot k ep) →
    cstep (mkCsys c source ls ws n) (mkCsys c source (<[t := LLoaded k (source k) ep]> ls) ws n)
| st_insert t k v ep now order c c' source ls ws n :
    ls !! t = Some (LLoaded k v ep) → order ≡ₚ map_to_list (c_state c) →
    insert_if_epoch (E := Empty_set) order c k v now ep = Ok c' →
    cstep (mkCsys c source ls ws n) (mkCsys c' source (delete t ls) ws n)
| st_gone t c source ls ws n :
    (** the load failed, or its future was dropped *)
    cstep (mkCsys c source ls ws n) (mkCsys c source (delete t ls) ws n).

Definition c_initial (s : csys) : Prop :=
  (∃ cap ttl, cache_new cap ttl = Ok (cs_cache s)) ∧ cs_loaders s = ∅ ∧ cs_writers s = ∅ ∧ cs_bumps s = 0%Z.
Definition c_reachable (s : csys) : Prop := ∃ s0, c_initial s0 ∧ rtc cstep s0 s.

(** ** The bound *)

Lemma evict_scan_some now ttl oldest entries :
  is_Some oldest ∨ entries ≠ [] →
  ∃ k, evict_scan now ttl oldest entries = Some k ∧ (k ∈ entries.*1 ∨ Some k = fst <$> oldest).
Proof.
  revert oldest. induction entries as [|[k e] entries IH]; intros oldest Ho; cbn.
  { destruct oldest as [[k ts]|]; [cbn; eauto|]. by destruct Ho as [[? ?]|?]. }
  case_match; [exists k; split; [done|]; left; apply list_elem_of_here|].
  destruct (IH match oldest with
      | None => Some (k, en_fetched_at e)
      | Some (_, ts) => if (en_fetched_at e <? ts)%Z then Some (k, en_fetched_at e) else oldest end)
    as (k' & Hk & Hin).
  { left. destruct oldest as [[? ?]|]; [case_match|]; eauto. }
  exists k'. split; [exact Hk|]. destruct Hin as [Hin|Hin]; [left; by apply list_elem_of_further|].
  destruct oldest as [[k0 ts]|]; [case_match|]; cbn in *; simplify_eq; eauto using list_elem_of_here.
Qed.

Lemma evict_one_size order now ttl m :
  order ≡ₚ map_to_list m → m ≠ ∅ → size (evict_one order now ttl m) = size m - 1.
Proof.
  intros Ho Hm. unfold evict_one. destruct (evict_scan_some now ttl None order) as (k & -> & [Hin|Hn]).
  - right. intros ->. apply Permutation_nil in Ho. by apply map_to_list_empty_iff in Ho.
  - rewrite Ho in Hin. apply list_elem_of_fmap in Hin as ([k' e] & -> & Hin).
    apply elem_of_map_to_list in Hin. cbn. rewrite map_size_delete, Hin. lia.
  - done.
Qed.

Definition bounded c : Prop := 0 < c_cap c ∧ size (c_state c) ≤ c_cap c.

Lemma insert_bounded {E} order c k v now ep :
  bounded c → order ≡ₚ map_to_list (c_state c) →
  ∃ c', insert_if_epoch (E := E) order c k v now ep = Ok c' ∧ bounded c'
    ∧ c_epoch c' = c_epoch c ∧ c_ttl c' = c_ttl c.
Proof.
  intros [Hp Hs] Ho. unfold insert_if_epoch. destruct (negb _); [by exists c|].
  destruct ((_ <=? _) && _) eqn:Ef; bools.
  - assert (c_state c !! k = None) as Hk by (by apply eq_None_not_Some).
    assert (c_state c ≠ ∅) as Hne by (intros He; rewrite He, map_size_empty in *; lia).
    pose proof (evict_one_size order now (c_ttl c) _ Ho Hne) as Hsz.
    assert ((size (evict_one order now (c_ttl c) (c_state c)) <? c_cap c) = true) as -> by (apply Nat.ltb_lt; lia).
    eexists. split; [done|]. split; [|done]. split; [done|]. cbn [with_state c_state c_cap]. rewrite map_size_insert.
    case_match; unfold id; lia.
  - eexists. split; [done|]. split; [|done]. split; [done|]. cbn [with_state c_state c_cap]. rewrite map_size_insert.
    destruct (c_state c !! k) eqn:Ek; [unfold id; lia|]. apply andb_false_iff in Ef as [Ef|Ef]; [apply Nat.leb_gt in Ef; lia|]. vm_compute in Ef. discriminate.
Qed.

(** ** Coherence *)

Definition unbumped (k : K) (w : writer) : Prop := match w with Wrote ks => k ∈ ks | _ => False end.

(** What a cached value and a loaded value are, against the source. *)
Definition cached_ok (s : csys) : Prop :=
  ∀ k e, c_state (cs_cache s) !! k = Some e →
    en_value e = cs_source s k ∨ ∃ w x, cs_writers s !! w = Some x ∧ pending k x.
Definition loader_ok (s : csys) (l : loader) : Prop :=
  match l with
  | LMissed _ => True
  | LSnapshot _ ep => (ep ≤ cs_bumps s)%Z
  | LLoaded k v ep =>
      (ep ≤ cs_bumps s)%Z ∧
      (ep = cs_bumps s → v = cs_source s k ∨ ∃ w x, cs_writers s !! w = Some x ∧ unbumped k x)
  end.

Record coherent (s : csys) : Prop := {
  co_bounded : bounded (cs_cache s);
  co_epoch : c_epoch (cs_cache s) = (cs_bumps s `mod` 2 ^ 64)%Z;
  co_bumps : (0 ≤ cs_bumps s)%Z;
  co_cached : (cs_bumps s < 2 ^ 64)%Z → cached_ok s;
  co_loaders : (cs_bumps s < 2 ^ 64)%Z → ∀ t l, cs_loaders s !! t = Some l → loader_ok s l }.

Lemma c_initial_coherent s : c_initial s → coherent s.
Proof.
  intros ((cap & ttl & Hn) & Hl & Hw & Hb). unfold cache_new in Hn.
  destruct (0 <? cap) eqn:Ec; [|done]. destruct (0 <? ttl)%Z; [|done]. injection Hn as Hc. apply Nat.ltb_lt in Ec.
  destruct s as [c source ls ws n]. cbn in *. subst. split; cbn.
  - split; cbn; [lia|]. rewrite map_size_empty. lia.
  - done.
  - lia.
  - intros _ k e. cbn. by rewrite lookup_empty.
  - intros _ t l. by rewrite lookup_empty.
Qed.

Lemma epoch_bumps s :
  coherent s → (cs_bumps s < 2 ^ 64)%Z → c_epoch (cs_cache s) = cs_bumps s.
Proof. intros [] ?. rewrite co_epoch0. apply Z.mod_small. lia. Qed.

(** A writer that exists still exists after another comes. *)
Lemma writer_kept (ws : gmap nat writer) w x k (P : K → writer → Prop) :
  ws !! w = None →
  (∃ w' x', ws !! w' = Some x' ∧ P k x') → ∃ w' x', <[w := x]> ws !! w' = Some x' ∧ P k x'.
Proof. intros Hw (w' & x' & Hw' & Hp). exists w', x'. split; [|done]. rewrite lookup_insert_ne; congruence. Qed.

Lemma write_coherent w ks source' c source ls (ws : gmap nat writer) n :
  ws !! w = None → (∀ k, k ∉ ks → source' k = source k) →
  coherent (mkCsys c source ls ws n) → coherent (mkCsys c source' ls (<[w := Wrote ks]> ws) n).
Proof.
  intros Hw Hs [Hb He Hn Hc Hl]. split; try done; cbn in *.
  - intros Hlt k e Hk. cbn in *. destruct (decide (k ∈ ks)) as [Hin|Hni].
    { right. exists w, (Wrote ks). by rewrite lookup_insert_eq. }
    destruct (Hc Hlt k e Hk) as [Hv|Hp]; cbn in *; [left; by rewrite Hs|right].
    by eapply (writer_kept _ _ _ k pending).
  - intros Hlt t l Ht. pose proof (Hl Hlt t l Ht) as Hok. destruct l as [k|k ep|k v ep]; cbn in *; try done.
    destruct Hok as [Hle Hok]. split; [done|]. intros Heq. destruct (decide (k ∈ ks)) as [Hin|Hni].
    { right. exists w, (Wrote ks). by rewrite lookup_insert_eq. }
    destruct (Hok Heq) as [Hv|Hp]; [left; by rewrite Hs|right]. by eapply (writer_kept _ _ _ k unbumped).
Qed.

(** A bump makes every load under way stale. *)
Lemma bump_coherent w x c source ls ws n :
  (∀ k x', ws !! w = Some x' → pending k x' → pending k x) →
  coherent (mkCsys c source ls ws n) →
  coherent (mkCsys (bump_epoch c) source ls (<[w := x]> ws) (n + 1)).
Proof.
  intros Hx [[] He Hn Hc Hl]. split; cbn in *.
  - by split.
  - rewrite He. by rewrite Zplus_mod_idemp_l.
  - lia.
  - intros Hlt k e Hk. cbn in *. destruct (Hc ltac:(lia) k e Hk) as [Hv|(w' & x' & Hw' & Hp)]; [by left|right].
    destruct (decide (w' = w)) as [->|Hne]; [|exists w', x'; by rewrite lookup_insert_ne].
    exists w, x. rewrite lookup_insert_eq. eauto.
  - intros Hlt t l Ht. pose proof (Hl ltac:(lia) t l Ht) as Hok.
    destruct l as [k|k ep|k v ep]; cbn in *; [done|lia|]. destruct Hok. split; [lia|]. intros ->. lia.
Qed.

(** The end of an invalidation: what it covered is gone from the cache. *)
Lemma finish_coherent w x m c source ls ws n :
  ws !! w = Some x → (∀ k, ¬ unbumped k x) → m ⊆ c_state c → (∀ k, pending k x → m !! k = None) →
  coherent (mkCsys c source ls ws n) → coherent (mkCsys (with_state m c) source ls (delete w ws) n).
Proof.
  intros Hw Hu Hsub Hgone [[Hp Hs] He Hn Hc Hl]. split; cbn in *.
  - split; [done|]. cbn. apply map_subseteq_size in Hsub. lia.
  - done.
  - done.
  - intros Hlt k e Hk. cbn in *.
    destruct (Hc Hlt k e) as [Hv|(w' & x' & Hw' & Hpe)]; [by eapply lookup_weaken|by left|right].
    destruct (decide (w' = w)) as [->|Hne].
    + cbn in *. rewrite Hw in Hw'. injection Hw' as ->. by rewrite Hgone in Hk.
    + exists w', x'. by rewrite lookup_delete_ne.
  - intros Hlt t l Ht. pose proof (Hl Hlt t l Ht) as Hok. destruct l as [k|k ep|k v ep]; cbn in *; try done.
    destruct Hok as [Hle Hok]. split; [done|]. intros Heq. destruct (Hok Heq) as [Hv|(w' & x' & Hw' & Hpe)]; [by left|].
    right. exists w', x'. rewrite lookup_delete_ne; [done|]. intros ->. rewrite Hw in Hw'. injection Hw' as <-. by eapply Hu.
Qed.

(** A loader moves on, the cache as it was. *)
Lemma loader_coherent ls' c source ls ws n :
  coherent (mkCsys c source ls ws n) →
  ((n < 2 ^ 64)%Z → ∀ t l, ls' !! t = Some l → ls !! t = Some l ∨ loader_ok (mkCsys c source ls ws n) l) →
  coherent (mkCsys c source ls' ws n).
Proof.
  intros [Hb He Hn Hc Hl] Hls. split; try done. intros Hlt t l Ht.
  destruct (Hls Hlt t l Ht) as [Hin|Hok]; [by apply Hl in Hin|done].
Qed.

Lemma insert_cached order c c' k v now ep k' e :
  insert_if_epoch (E := Empty_set) order c k v now ep = Ok c' → c_state c' !! k' = Some e →
  c_state c !! k' = Some e ∨ (k' = k ∧ en_value e = v ∧ ep = c_epoch c).
Proof.
  unfold insert_if_epoch. destruct (negb _) eqn:En; [intros [= <-]; by left|]. bools.
  intros (m' & Hm & [= <-])%res_bind_Ok Hk. cbn in Hk.
  assert (m' ⊆ c_state c) as Hsub.
  { destruct (_ && _); [|by injection Hm as <-]. apply res_bind_Ok in Hm as (u & _ & [= <-]).
    unfold evict_one. case_match; [apply delete_subseteq|done]. }
  destruct (decide (k' = k)) as [->|Hne].
  - rewrite lookup_insert_eq in Hk. injection Hk as <-. by right.
  - rewrite lookup_insert_ne in Hk by done. left. by eapply lookup_weaken.
Qed.

Lemma insert_coherent t k v ep now order c c' source ls ws n :
  ls !! t = Some (LLoaded k v ep) → order ≡ₚ map_to_list (c_state c) →
  insert_if_epoch (E := Empty_set) order c k v now ep = Ok c' →
  coherent (mkCsys c source ls ws n) → coherent (mkCsys c' source (delete t ls) ws n).
Proof.
  intros Ht Ho Hi Hco. pose proof Hco as [Hb He Hn Hc Hl]. cbn in *.
  destruct (insert_bounded (E := Empty_set) order c k v now ep Hb Ho) as (c1 & Hi1 & Hb1 & He1 & _).
  rewrite Hi in Hi1. injection Hi1 as <-. split; cbn; try done.
  - by rewrite He1.
  - intros Hlt k' e Hk'. cbn in *.
    destruct (insert_cached _ _ _ _ _ _ _ _ _ Hi Hk') as [Hold|(-> & Hv & Hep)]; [by apply Hc|].
    destruct (Hl Hlt t _ Ht) as [_ Hok]. cbn in Hok.
    pose proof (epoch_bumps _ Hco Hlt) as Hb0. cbn in Hb0. rewrite Hb0 in Hep. destruct (Hok Hep) as [Hs|(w & x & Hw & Hu)]; [left; congruence|].
    right. exists w, x. split; [done|]. by destruct x.
  - intros Hlt t' l Ht'. apply lookup_delete_Some in Ht' as [_ Ht']. by apply Hl in Ht'.
Qed.

Lemma cstep_coherent s s' : coherent s → cstep s s' → coherent s'.
Proof.
  intros Hco Hs. destruct Hs.
  - by eapply write_coherent.
  - eapply bump_coherent; [|done]. intros k' x' Hx Hp. destruct H0 as [H0|H0]; rewrite H0 in Hx; [done|].
    injection Hx as <-. cbn in *. set_solver.
  - eapply finish_coherent; [done|by intros ? ?|apply delete_subseteq|intros ? ->; apply lookup_delete_eq|done].
  - eapply bump_coherent; [|done]. done.
  - eapply finish_coherent; [done|by intros ? ?|apply map_empty_subseteq|intros; apply lookup_empty|done].
  - eapply loader_coherent; [done|]. intros _ t' l [[<- <-]|[? ?]]%lookup_insert_Some; [by right|by left].
  - eapply loader_coherent; [done|]. intros Hlt t' l [[<- <-]|[? ?]]%lookup_insert_Some; [right|by left].
    cbn. pose proof (epoch_bumps _ Hco Hlt) as He. cbn in He. lia.
  - eapply loader_coherent; [done|]. intros Hlt t' l [[<- <-]|[? ?]]%lookup_insert_Some; [right|by left].
    pose proof (co_loaders _ Hco Hlt _ _ H0) as Hok. cbn in *. split; [lia|]. by left.
  - by eapply insert_coherent.
  - eapply loader_coherent; [done|]. intros _ t' l [_ ?]%lookup_delete_Some. by left.
Qed.

Lemma c_reachable_coherent s : c_reachable s → coherent s.
Proof.
  intros (s0 & Hi & Hr). apply c_initial_coherent in Hi. induction Hr as [|s s' s'' Hs _ IH]; [done|].
  by apply IH, (cstep_coherent s).
Qed.

(** C23: However the tasks interleave, over the first 2^64 invalidations: the cache never
    holds more than its cap and its eviction always makes room; a hit is younger
    than the lifetime; and it is the value the source has now, unless an
    invalidation of its key is still under way.  A value loaded before an
    invalidation is never served after it. *)
Theorem cache_coherent s k now :
  c_reachable s → (cs_bumps s < 2 ^ 64)%Z →
  size (c_state (cs_cache s)) ≤ c_cap (cs_cache s)
  ∧ (∀ order k' v ep now', order ≡ₚ map_to_list (c_state (cs_cache s)) →
       ∃ c', insert_if_epoch (E := Empty_set) order (cs_cache s) k' v now' ep = Ok c')
  ∧ ∀ v, lookup_fresh (cs_cache s) k now = Some v →
      (∃ e, c_state (cs_cache s) !! k = Some e ∧ en_value e = v ∧ (now - en_fetched_at e < c_ttl (cs_cache s))%Z)
      ∧ (v = cs_source s k ∨ ∃ w x, cs_writers s !! w = Some x ∧ pending k x).
Proof.
  intros Hr Hlt. pose proof (c_reachable_coherent s Hr) as [[Hp Hs] He Hn Hc Hl]. split; [done|]. split.
  - intros order k' v ep now' Ho. destruct (insert_bounded (E := Empty_set) order (cs_cache s) k' v now' ep) as (c' & ? & _); eauto.
    by split.
  - unfold lookup_fresh. intros v (e & Hk & Hv)%bind_Some. case_match eqn:Ea; [done|]. injection Hv as <-.
    split; [|by apply Hc]. exists e. unfold age in Ea. split; [done|]. split; [done|]. lia.
Qed.
End cache.
Arguments BoundedTtlCache K {_ _} V.
Arguments csys K {_ _} V.

(** ** A load overtaken by a write *)
Module CacheDemo.
Definition src1 : N → nat := λ _, 1.
Definition src2 : N → nat := λ k, if bool_decide (k = 7%N) then 2 else 1.
Definition c0 : BoundedTtlCache N nat := mkCache ∅ 0 2 60.
Definition c1 : BoundedTtlCache N nat := bump_epoch c0.
(** The overtaken load inserts nothing. *)
Definition c2 : res Empty_set (BoundedTtlCache N nat) := insert_if_epoch [] (with_state ∅ c1) 7%N 1 5 0.
Definition c3 : BoundedTtlCache N nat := mkCache {[ 7%N := mkEntry 2 9 ]} 1 2 60.

Lemma dropped : c2 = Ok (with_state ∅ c1).
Proof. by vm_compute. Qed.

Definition at_end : csys N nat := mkCsys c3 src2 ∅ ∅ 1.

Lemma end_reachable : c_reachable at_end.
Proof.
  exists (mkCsys c0 src1 ∅ ∅ 0). split; [split; [by exists 2, 60%Z|done]|].
  eapply rtc_l; [apply (st_miss 0 7%N 1); done|].
  eapply rtc_l; [eapply (st_snapshot 0 7%N); done|].
  eapply rtc_l; [eapply (st_load 0 7%N 0%Z); done|].
  eapply rtc_l; [apply (st_write 0 {[7%N]} src2)|].
  { done. }
  { intros k Hk. unfold src2. rewrite bool_decide_false; [done|]. set_solver. }
  eapply rtc_l; [apply (st_bump_key 0 7%N); by right|].
  eapply rtc_l; [eapply (st_remove 0 7%N); done|].
  eapply rtc_l; [apply (st_insert 0 7%N 1 0 5 [] _ (with_state ∅ c1)); by vm_compute|].
  eapply rtc_l; [apply (st_miss 0 7%N 6); by vm_compute|].
  eapply rtc_l; [eapply (st_snapshot 0 7%N); done|].
  eapply rtc_l; [eapply (st_load 0 7%N 1%Z); by vm_compute|].
  eapply rtc_l; [apply (st_insert 0 7%N 2 1 9 [] _ c3); by vm_compute|].
  apply rtc_refl.
Qed.
End CacheDemo.

Lemma cache_coherent_witness :
  lookup_fresh CacheDemo.c3 7%N 20 = Some 2 ∧ 2 = CacheDemo.src2 7%N.
Proof.
  destruct (cache_coherent CacheDemo.at_end 7%N 20) as (_ & _ & Hhit).
  - exact CacheDemo.end_reachable.
  - vm_compute. reflexivity.
  - split; [vm_compute; reflexivity|]. destruct (Hhit 2) as (_ & [Hs|(w & x & Hw & _)]).
    + vm_compute. reflexivity.
    + exact Hs.
    + cbn in Hw. rewrite lookup_empty in Hw. discriminate.
Defined.

(** The first expired entry met goes, though another has been expired for longer. *)
Lemma evicts_first_expired :
  evict_scan 100 10 None [(1%N, mkEntry 0 80); (2%N, mkEntry 0 50)] = Some 1%N.
Proof. done. Qed.
