(* ===== verification/RateLimits.v ===== *)
(** * Rate limits

    The per-user limiter of the connection test ([mcp/rate_limit.rs]) and the
    budget of invalid responses of the Discord egress ([discord/ratelimit.rs]).
    Times are nanoseconds of the monotonic clock. *)

From Stdlib Require Import ZArith Lia Sorted String.
From stdpp Require Import base gmap list fin_maps strings sorting relations.
From S2P Require Import Prelude Types.

Definition MCP_TEST_CONNECT_PER_MIN : nat := 10.
Definition MCP_TEST_CONNECT_BUCKETS_MAX : nat := 4096.
Definition WINDOW : Z := 60 * 10 ^ 9.

Record Bucket := mkBucket { bk_samples : list Z; bk_last_touched : Z }.
Abbreviation limiter := (gmap UserId Bucket).

(** The [while] over the front of the queue. *)
Fixpoint drop_before (cutoff : Z) (samples : list Z) : list Z :=
  match samples with
  | t :: samples' => if (t <? cutoff)%Z then drop_before cutoff samples' else samples
  | [] => []
  end.

(** [min_by_key]: the first least element. *)
Fixpoint least_touched (best : option (UserId * Z)) (buckets : list (UserId * Bucket)) : option UserId :=
  match buckets with
  | [] => fst <$> best
  | (k, b) :: buckets' =>
      least_touched
        match best with
        | None => Some (k, bk_last_touched b)
        | Some (_, t) => if (bk_last_touched b <? t)%Z then Some (k, bk_last_touched b) else best
        end buckets'
  end.

Section limiter.
(** The least instant the platform represents, and the iteration orders of the map. *)
Context (instant_min : Z) (order : limiter → list (UserId * Bucket)).

Definition checked_sub (now d : Z) : option Z :=
  if (now - d <? instant_min)%Z then None else Some (now - d)%Z.

Definition try_admit (now : Z) (user : UserId) (guard : limiter) : res Empty_set (bool * limiter) :=
  let bucket := default (mkBucket [] now) (guard !! user) in
  let samples := match checked_sub now WINDOW with
                 | Some cutoff => drop_before cutoff (bk_samples bucket)
                 | None => bk_samples bucket
                 end in
  rassert (length samples <=? MCP_TEST_CONNECT_PER_MIN) "samples" ;;?
  if MCP_TEST_CONNECT_PER_MIN <=? length samples
  then Ok (false, <[user := mkBucket samples now]> guard)
  else
    let guard' := <[user := mkBucket (samples ++ [now]) now]> guard in
    Ok (true,
        if MCP_TEST_CONNECT_BUCKETS_MAX <? size guard'
        then match least_touched None (filter (λ kb, kb.1 ≠ user) (order guard')) with
             | Some v => delete v guard'
             | None => guard'
             end
        else guard').

(** A sequence of calls, with their answers. *)
Fixpoint admits (calls : list (Z * UserId)) (guard : limiter) : res Empty_set (list bool * limiter) :=
  match calls with
  | [] => Ok ([], guard)
  | (now, user) :: calls' =>
      r <-? try_admit now user guard ;
      rs <-? admits calls' r.2 ;
      Ok (r.1 :: rs.1, rs.2)
  end.

(** ** The reference: a sliding window over everything admitted so far *)

Definition recent (now : Z) (user : UserId) (log : list (Z * UserId)) : list (Z * UserId) :=
  filter (λ e, e.2 = user ∧ (now - WINDOW ≤ e.1)%Z) log.

Fixpoint window_spec (calls log : list (Z * UserId)) : list bool :=
  match calls with
  | [] => []
  | (now, user) :: calls' =>
      let ok := length (recent now user log) <? MCP_TEST_CONNECT_PER_MIN in
      ok :: window_spec calls' (if ok then log ++ [(now, user)] else log)
  end.

(** ** The simulation *)

Definition times_of (user : UserId) (log : list (Z * UserId)) : list Z :=
  (filter (λ e, e.2 = user) log).*1.
Definition samples_of (user : UserId) (guard : limiter) : list Z :=
  from_option bk_samples [] (guard !! user).

(** A bucket holds what was admitted, but for a part that has left every window to
    come. *)
Definition tracks (last : Z) (log : list (Z * UserId)) (guard : limiter) : Prop :=
  ∀ user, ∃ gone, times_of user log = gone ++ samples_of user guard ∧ Forall (λ t, (t < last - WINDOW)%Z) gone.

Record tracked (last : Z) (log : list (Z * UserId)) : Prop := {
  tr_sorted : StronglySorted Z.le log.*1;
  tr_bounds : Forall (λ e, instant_min ≤ e.1 ≤ last)%Z log }.

(** Filtering a queue in order is dropping its front. *)
Lemma drop_before_filter cutoff (l : list Z) :
  StronglySorted Z.le l → drop_before cutoff l = filter (λ t, (cutoff ≤ t)%Z) l.
Proof.
  induction 1 as [|t l Hs IH Hle]; [done|]. cbn [drop_before]. destruct (t <? cutoff)%Z eqn:E.
  - rewrite filter_cons_False by lia. done.
  - rewrite filter_cons_True by lia. f_equal. symmetry. apply filter_all. rewrite Forall_forall in Hle |- *.
    intros x Hx. specialize (Hle x Hx). lia.
Qed.

Lemma times_sorted user log : StronglySorted Z.le log.*1 → StronglySorted Z.le (times_of user log).
Proof.
  unfold times_of. induction log as [|e log IH]; [done|]. rewrite fmap_cons. inversion_clear 1 as [|? ? Hs Hle].
  destruct (decide (e.2 = user)); [rewrite filter_cons_True by done|rewrite filter_cons_False by done; by apply IH].
  rewrite fmap_cons. constructor; [by apply IH|]. rewrite Forall_forall in Hle |- *. intros t Ht. apply Hle.
  apply list_elem_of_fmap in Ht as (x & -> & Hx). apply list_elem_of_filter in Hx as [_ Hx].
  by apply list_elem_of_fmap_2.
Qed.

Lemma recent_times now user log :
  length (recent now user log) = length (filter (λ t, (now - WINDOW ≤ t)%Z) (times_of user log)).
Proof.
  unfold recent, times_of. induction log as [|e log IH]; [done|]. rewrite !filter_cons.
  destruct (decide (e.2 = user)) as [He|He].
  - rewrite fmap_cons, filter_cons. destruct (decide (now - WINDOW ≤ e.1)%Z) as [Hw|Hw].
    + rewrite decide_True by done. by rewrite !length_cons, IH.
    + rewrite decide_False by naive_solver. done.
  - rewrite decide_False by naive_solver. done.
Qed.

(** The samples kept by a call are the recent ones. *)
Lemma pruned_is_recent now last user log guard :
  tracked last log → tracks last log guard → (instant_min ≤ now)%Z → (last ≤ now)%Z →
  ∃ gone, times_of user log = gone ++ (match checked_sub now WINDOW with
                                         | Some cutoff => drop_before cutoff (samples_of user guard)
                                         | None => samples_of user guard end)
    ∧ Forall (λ t, (t < now - WINDOW)%Z) gone
    ∧ length (match checked_sub now WINDOW with
              | Some cutoff => drop_before cutoff (samples_of user guard)
              | None => samples_of user guard end) = length (recent now user log).
Proof.
  intros [Hso Hbo] Htr Hmin Hle. destruct (Htr user) as (gone & Hg & Hgone).
  pose proof (times_sorted user log Hso) as Hs. rewrite Hg in Hs.
  assert (Forall (λ t, (t < now - WINDOW)%Z) gone) as Hgone' by (eapply Forall_impl; [exact Hgone|]; cbn; lia).
  assert (length (recent now user log) = length (filter (λ t, (now - WINDOW ≤ t)%Z) (samples_of user guard))) as Hrec.
  { rewrite recent_times, Hg, filter_app, length_app. rewrite (filter_none _ gone); [done|].
    eapply Forall_impl; [exact Hgone'|]. cbn. lia. }
  apply StronglySorted_app in Hs as (_ & _ & Hs). unfold checked_sub.
  destruct (now - WINDOW <? instant_min)%Z eqn:Ec.
  - exists gone. split; [done|]. split; [done|]. rewrite Hrec, filter_all; [done|].
    rewrite Forall_forall in Hbo. apply Forall_forall. intros t Ht.
    assert (t ∈ times_of user log) as Hin by (rewrite Hg; set_solver). unfold times_of in Hin.
    apply list_elem_of_fmap in Hin as (e & -> & He). apply list_elem_of_filter in He as [_ He]. specialize (Hbo e He). lia.
  - rewrite (drop_before_filter _ _ Hs). exists (gone ++ filter (λ t, ¬ (now - WINDOW ≤ t)%Z) (samples_of user guard)).
    assert (∀ l, StronglySorted Z.le l →
      l = filter (λ t, ¬ (now - WINDOW ≤ t)%Z) l ++ filter (λ t, (now - WINDOW ≤ t)%Z) l) as Hsplit.
    { induction 1 as [|t l Hs' IH Hall]; [done|]. destruct (decide (now - WINDOW ≤ t)%Z).
      - rewrite (filter_cons_False (λ t, ¬ _)), (filter_cons_True (λ t, (_ ≤ t)%Z)) by tauto.
        rewrite filter_none, filter_all; [done|..]; rewrite Forall_forall in Hall |- *; intros x Hx; specialize (Hall x Hx); lia.
      - rewrite (filter_cons_True (λ t, ¬ _)), (filter_cons_False (λ t, (_ ≤ t)%Z)) by tauto. cbn. by f_equal. }
    split_and!; [by rewrite Hg, <-app_assoc, <-Hsplit| |done].
    apply Forall_app. split; [done|]. rewrite Forall_forall. intros t Ht%list_elem_of_filter. lia.
Qed.

(** ** Bounds *)

Definition guard_ok (guard : limiter) : Prop :=
  size guard ≤ MCP_TEST_CONNECT_BUCKETS_MAX
  ∧ ∀ u b, guard !! u = Some b → length (bk_samples b) ≤ MCP_TEST_CONNECT_PER_MIN.

Lemma drop_before_length cutoff l : length (drop_before cutoff l) ≤ length l.
Proof. induction l as [|t l IH]; [done|]. cbn. case_match; cbn; lia. Qed.

Lemma least_touched_elem best buckets :
  is_Some best ∨ buckets ≠ [] →
  ∃ k, least_touched best buckets = Some k ∧ (k ∈ buckets.*1 ∨ Some k = fst <$> best).
Proof.
  revert best. induction buckets as [|[k b] buckets IH]; intros best Hb; cbn.
  { destruct best as [[k t]|]; [cbn; eauto|]. by destruct Hb as [[? ?]|?]. }
  destruct (IH match best with
      | None => Some (k, bk_last_touched b)
      | Some (_, t) => if (bk_last_touched b <? t)%Z then Some (k, bk_last_touched b) else best
      end) as (k' & Hk & Hin).
  { left. destruct best as [[? ?]|]; [case_match|]; eauto. }
  exists k'. split; [exact Hk|]. destruct Hin as [Hin|Hin]; [left; by apply list_elem_of_further|].
  destruct best as [[k0 t]|]; [case_match|]; cbn in Hin; injection Hin as ->;
    [left; apply list_elem_of_here|by right|left; apply list_elem_of_here].
Qed.

Context (Horder : ∀ g, order g ≡ₚ map_to_list g).

(** The bucket evicted is another one, and it makes room. *)
Lemma evict_makes_room user (guard : limiter) b :
  MCP_TEST_CONNECT_BUCKETS_MAX < size (<[user := b]> guard) →
  ∃ v, least_touched None (filter (λ kb, kb.1 ≠ user) (order (<[user := b]> guard))) = Some v
    ∧ v ≠ user ∧ is_Some (guard !! v).
Proof.
  set (g := <[user := b]> guard). intros Hs.
  destruct (least_touched_elem None (filter (λ kb, kb.1 ≠ user) (order g))) as (v & Hv & [Hin|Hn]); [right|..|done].
  - intros He. assert (g ⊆ {[ user := b ]}) as Hsub.
    { apply map_subseteq_spec. intros k x Hk. destruct (decide (k = user)) as [->|Hne].
      - unfold g in Hk. rewrite lookup_insert_eq in Hk. injection Hk as <-. by rewrite lookup_singleton_eq.
      - apply elem_of_map_to_list in Hk. rewrite <-(Horder g) in Hk.
        by apply (filter_nil_not_elem_of _ _ (k, x)) in He. }
    apply map_subseteq_size in Hsub. rewrite map_size_singleton in Hsub. unfold MCP_TEST_CONNECT_BUCKETS_MAX in Hs. lia.
  - exists v. split; [done|]. apply list_elem_of_fmap in Hin as ([k x] & -> & Hin).
    apply list_elem_of_filter in Hin as [Hne Hin]. rewrite Horder in Hin. apply elem_of_map_to_list in Hin.
    split; [done|]. unfold g in Hin. cbn in *. rewrite lookup_insert_ne in Hin by done. by eexists.
Qed.

Lemma try_admit_ok now user guard :
  guard_ok guard → ∃ ok guard', try_admit now user guard = Ok (ok, guard') ∧ guard_ok guard'.
Proof.
  intros [Hsz Hb]. unfold try_admit.
  set (bucket := default (mkBucket [] now) (guard !! user)).
  assert (length (bk_samples bucket) ≤ MCP_TEST_CONNECT_PER_MIN) as Hl.
  { unfold bucket. destruct (guard !! user) as [b|] eqn:E; cbn; [by eapply Hb|]. unfold MCP_TEST_CONNECT_PER_MIN. lia. }
  set (samples := match checked_sub now WINDOW with Some _ => _ | None => _ end).
  assert (length samples ≤ length (bk_samples bucket)) as Hls.
  { unfold samples. destruct (checked_sub now WINDOW); [apply drop_before_length|lia]. }
  assert ((length samples <=? MCP_TEST_CONNECT_PER_MIN) = true) as -> by (apply Nat.leb_le; lia).
  destruct (MCP_TEST_CONNECT_PER_MIN <=? length samples) eqn:Ef; bools.
  - eexists false, _. split; [done|]. split.
    + rewrite map_size_insert. destruct (guard !! user) eqn:E; [done|].
      unfold bucket in Hl, Hls. cbn in *. unfold MCP_TEST_CONNECT_PER_MIN in Ef. lia.
    + intros u b [[<- <-]|[_ Hu]]%lookup_insert_Some; [cbn; lia|by eapply Hb].
  - set (b' := mkBucket (samples ++ [now]) now).
    assert (length (bk_samples b') ≤ MCP_TEST_CONNECT_PER_MIN) as Hb' by (cbn; rewrite length_app; cbn; lia).
    assert (size (<[user := b']> guard) ≤ S (size guard)) as Hins by (rewrite map_size_insert; case_match; unfold id; lia).
    destruct (MCP_TEST_CONNECT_BUCKETS_MAX <? size (<[user := b']> guard)) eqn:Ee.
    + apply Nat.ltb_lt in Ee. destruct (evict_makes_room user guard b' Ee) as (v & -> & Hv & [x Hx]).
      eexists true, _. split; [done|]. split.
      * rewrite map_size_delete, lookup_insert_ne, Hx by done. lia.
      * intros u b [_ [[<- <-]|[_ Hu]]%lookup_insert_Some]%lookup_delete_Some; [done|by eapply Hb].
    + apply Nat.ltb_ge in Ee. eexists true, _. split; [done|]. split; [done|].
      intros u b [[<- <-]|[_ Hu]]%lookup_insert_Some; [done|by eapply Hb].
Qed.

(** ** One call, while no bucket was evicted *)

Lemma tracks_insert user samples now last log log' guard lt :
  tracks last log guard → (last ≤ now)%Z →
  (∀ u, u ≠ user → times_of u log' = times_of u log) →
  (∃ gone, times_of user log' = gone ++ samples ∧ Forall (λ t, (t < now - WINDOW)%Z) gone) →
  tracks now log' (<[user := mkBucket samples lt]> guard).
Proof.
  intros Htr Hle Hoth Hown u. destruct (decide (u = user)) as [->|Hne].
  - unfold samples_of. rewrite lookup_insert_eq. exact Hown.
  - destruct (Htr u) as (gone & Hg & Hf). exists gone. unfold samples_of in *. rewrite lookup_insert_ne, Hoth by done.
    split; [done|]. eapply Forall_impl; [exact Hf|]. cbn. lia.
Qed.

Lemma try_admit_window now last user (users : gset UserId) log guard :
  guard_ok guard → tracked last log → tracks last log guard → (instant_min ≤ now)%Z → (last ≤ now)%Z →
  dom guard ⊆ users → user ∈ users → size users ≤ MCP_TEST_CONNECT_BUCKETS_MAX →
  let ok := length (recent now user log) <? MCP_TEST_CONNECT_PER_MIN in
  let log' := if ok then log ++ [(now, user)] else log in
  ∃ guard', try_admit now user guard = Ok (ok, guard')
    ∧ tracked now log' ∧ tracks now log' guard' ∧ dom guard' ⊆ users.
Proof.
  intros Hok Htd Htr Hmin Hle Hdom Hu Hsize.
  destruct (try_admit_ok now user guard Hok) as (ok0 & guard0 & Hrun & _).
  destruct (pruned_is_recent now last user log guard Htd Htr Hmin Hle) as (gone & Hg & Hgone & Hlen).
  assert (∀ b, size (<[user := b]> guard) ≤ MCP_TEST_CONNECT_BUCKETS_MAX) as Hfit.
  { intros b. rewrite <-size_dom, dom_insert. etrans; [apply subseteq_size|exact Hsize]. set_solver. }
  assert (∀ b : Bucket, dom (<[user := b]> guard) ⊆ users) as Hdom' by (intros b; rewrite dom_insert; set_solver).
  unfold try_admit in *. set (samples := match checked_sub now WINDOW with Some _ => _ | None => _ end) in Hrun |- *.
  assert (samples = match checked_sub now WINDOW with
    | Some cutoff => drop_before cutoff (samples_of user guard) | None => samples_of user guard end) as Hsame.
  { unfold samples, samples_of. destruct (guard !! user); [done|]. by destruct (checked_sub now WINDOW). }
  rewrite <-Hsame in Hg, Hlen. destruct (length samples <=? MCP_TEST_CONNECT_PER_MIN) eqn:Ea; [|done]. cbn [rassert res_bind] in *.
  rewrite <-Hlen. cbv zeta. destruct Htd as [Hso Hbo].
  destruct (MCP_TEST_CONNECT_PER_MIN <=? length samples) eqn:Ef.
  - assert ((length samples <? MCP_TEST_CONNECT_PER_MIN) = false) as -> by (apply Nat.ltb_ge; by apply Nat.leb_le in Ef).
    eexists. split; [done|]. split; [|split; [|done]].
    + split; [done|]. eapply Forall_impl; [exact Hbo|]. cbn. lia.
    + eapply tracks_insert; [done|done|done|by exists gone].
  - assert ((length samples <? MCP_TEST_CONNECT_PER_MIN) = true) as -> by (apply Nat.ltb_lt; by apply Nat.leb_gt in Ef).
    assert (∀ b, (MCP_TEST_CONNECT_BUCKETS_MAX <? size (<[user := b]> guard)) = false) as Hno by (intros b; apply Nat.ltb_ge, Hfit).
    eexists. split; [by rewrite Hno|]. split; [|split; [|apply Hdom']].
    + split.
      * rewrite fmap_app. apply StronglySorted_app. split_and!; [|done|repeat constructor].
        intros x y Hx Hy. apply list_elem_of_singleton in Hy as ->. rewrite Forall_forall in Hbo.
        apply list_elem_of_fmap in Hx as (e & -> & He). specialize (Hbo e He). cbn. lia.
      * apply Forall_app. split; [eapply Forall_impl; [exact Hbo|]; cbn; lia|]. constructor; [cbn; lia|done].
    + eapply tracks_insert; [done|done|..].
      * intros u Hne. unfold times_of. by rewrite filter_app, filter_singleton_False, app_nil_r.
      * exists gone. unfold times_of in *. rewrite filter_app, filter_singleton_True, fmap_app, Hg by done.
        by rewrite <-app_assoc.
Qed.

Lemma admits_window (users : gset UserId) calls last log guard :
  guard_ok guard → tracked last log → tracks last log guard → dom guard ⊆ users →
  size users ≤ MCP_TEST_CONNECT_BUCKETS_MAX → Forall (λ c, (instant_min ≤ c.1)%Z ∧ (last ≤ c.1)%Z ∧ c.2 ∈ users) calls →
  StronglySorted Z.le calls.*1 →
  ∃ guard', admits calls guard = Ok (window_spec calls log, guard').
Proof.
  revert last log guard. induction calls as [|[now user] calls IH]; intros last log guard Hok Htd Htr Hdom Hsz Hc Hs; [by eexists|].
  apply Forall_cons in Hc as [(Hmin & Hle & Hu) Hc]. rewrite fmap_cons in Hs. inversion_clear Hs as [|? ? Hs' Hall].
  destruct (try_admit_window now last user users log guard) as (g & Hg & Htd' & Htr' & Hd'); try done.
  destruct (try_admit_ok now user guard Hok) as (ok & g' & Hg' & Hok').
  rewrite Hg in Hg'. injection Hg' as <- <-.
  cbn [admits window_spec]. rewrite Hg. cbn [res_bind fst snd].
  destruct (IH now _ _ Hok' Htd' Htr' Hd' Hsz) as (g'' & ->); [|done|by eexists].
  apply Forall_forall. intros c Hin. rewrite Forall_forall in Hc. rewrite List.Forall_forall in Hall. destruct (Hc c Hin) as (? & _ & ?). split_and!; [done| |done].
  apply Hall, list_elem_of_In. by apply list_elem_of_fmap_2.
Qed.

Lemma admits_ok calls guard :
  guard_ok guard → ∃ rs guard', admits calls guard = Ok (rs, guard') ∧ guard_ok guard'.
Proof.
  revert guard. induction calls as [|[now user] calls IH]; intros guard Hok; [by exists [], guard|].
  destruct (try_admit_ok now user guard Hok) as (ok & g & Hg & Hok'). destruct (IH g Hok') as (rs & g' & Hg' & ?).
  exists (ok :: rs), g'. cbn. rewrite Hg. cbn. by rewrite Hg'.
Qed.

(** The limiter never fails its assertion and never holds more buckets than its cap,
    whatever the clock and the order of the map.  While no more users call than it
    has buckets, on a clock that does not go back, its queues of samples give the
    answers of the sliding window over everything admitted so far: a call is
    admitted exactly when fewer than ten of its user's were admitted in the minute
    before it. *)
Theorem test_connect_sliding_window calls :
  ∃ rs guard, admits calls ∅ = Ok (rs, guard)
  ∧ size guard ≤ MCP_TEST_CONNECT_BUCKETS_MAX
  ∧ (StronglySorted Z.le calls.*1 → Forall (Z.le instant_min) calls.*1 →
     size (list_to_set (C := gset UserId) calls.*2) ≤ MCP_TEST_CONNECT_BUCKETS_MAX →
     rs = window_spec calls []).
Proof.
  assert (guard_ok ∅) as Hok.
  { split; [rewrite map_size_empty; lia|]. intros u b. by rewrite lookup_empty. }
  destruct (admits_ok calls ∅ Hok) as (rs & g & Hrun & Hg & _). exists rs, g. split; [done|]. split; [done|].
  intros Hs Hmin Hsz. destruct calls as [|[t0 u0] calls']; [by injection Hrun as <- _|].
  destruct (admits_window (list_to_set ((t0, u0) :: calls').*2) ((t0, u0) :: calls') t0 [] ∅) as (g' & Hw); try done.
  - split; constructor.
  - intros u. exists []. split; [|constructor]. unfold samples_of. by rewrite lookup_empty.
  - rewrite fmap_cons in Hs. inversion_clear Hs as [|? ? Hs' Hall]. rewrite List.Forall_forall in Hmin, Hall.
    apply Forall_forall. intros c Hc. split; [apply Hmin, list_elem_of_In; by apply list_elem_of_fmap_2|]. split.
    + apply elem_of_cons in Hc as [->|Hc]; [done|]. apply Hall, list_elem_of_In. by apply list_elem_of_fmap_2.
    + apply elem_of_list_to_set. by apply list_elem_of_fmap_2.
  - rewrite Hw in Hrun. by injection Hrun as <-.
Qed.
End limiter.

Module LimiterDemo.
(** Eleven calls of one user within a minute, one of another, and one a minute later. *)
Definition second : Z := 10 ^ 9.
Definition burst : list (Z * UserId) :=
  ((λ i, (Z.of_nat i * second, 1%N)%Z) <$> seq 0 11) ++ [(11 * second, 2%N); (70 * second, 1%N)]%Z.
Definition answers : list bool := replicate 10 true ++ [false; true; true].
End LimiterDemo.

Lemma test_connect_sliding_window_witness :
  ∃ guard, admits 0 map_to_list LimiterDemo.burst ∅ = Ok (LimiterDemo.answers, guard).
Proof.
  destruct (test_connect_sliding_window 0 map_to_list (λ g, Permutation_refl _) LimiterDemo.burst)
    as (rs & guard & Hrun & _ & Hspec).
  exists guard. rewrite Hrun, Hspec; [by vm_compute|..].
  - unfold LimiterDemo.burst. cbn. repeat constructor; vm_compute; discriminate.
  - unfold LimiterDemo.burst. cbn. repeat constructor; vm_compute; discriminate.
  - vm_compute. lia.
Defined.

(** ** The budget of invalid responses ([discord/ratelimit.rs])

    The token bucket of the same file counts in floating point and is not modelled. *)

Definition DISCORD_INVALID_REQUEST_BUDGET : Z := 10000.
Definition DISCORD_INVALID_REQUEST_WINDOW : Z := 600 * 10 ^ 9.

Record InvalidBudget := mkInvalidBudget { ib_window_start : Z; ib_count : Z }.

Definition invalid_budget_new (now : Z) : InvalidBudget := mkInvalidBudget now 0.

(** [now.saturating_duration_since(window_start) > WINDOW] *)
Definition window_over (now : Z) (b : InvalidBudget) : bool :=
  (DISCORD_INVALID_REQUEST_WINDOW <? Z.max 0 (now - ib_window_start b))%Z.

(** [count] is a [u32], added to with saturation. *)
Definition record_invalid (now : Z) (b : InvalidBudget) : Z * InvalidBudget :=
  let b := if window_over now b then mkInvalidBudget now 0 else b in
  let count := Z.min U32_MAX (ib_count b + 1) in
  (count, mkInvalidBudget (ib_window_start b) count).

Definition invalid_budget_exhausted (now : Z) (b : InvalidBudget) : bool :=
  if window_over now b then false else (DISCORD_INVALID_REQUEST_BUDGET <=? ib_count b)%Z.

Fixpoint record_all (times : list Z) (b : InvalidBudget) : InvalidBudget :=
  match times with [] => b | now :: times' => record_all times' (record_invalid now b).2 end.

(** Within one window the budget is exhausted exactly from its ten-thousandth invalid
    response on. *)
Lemma record_all_in_window times b :
  Forall (λ now, window_over now b = false) times → (0 ≤ ib_count b)%Z →
  (ib_count b + Z.of_nat (length times) ≤ U32_MAX)%Z →
  record_all times b = mkInvalidBudget (ib_window_start b) (ib_count b + Z.of_nat (length times)).
Proof.
  revert b. induction times as [|now times IH]; intros [ws n] Hw Hn Hm; cbn in *.
  { f_equal. lia. }
  apply Forall_cons in Hw as [Hw Hw']. rewrite Hw. cbn. rewrite IH; cbn; [f_equal; lia|done|lia..].
Qed.

Lemma exhausted_in_window times start now :
  Forall (λ t, window_over t (invalid_budget_new start) = false) (now :: times) →
  (Z.of_nat (length times) ≤ U32_MAX)%Z →
  invalid_budget_exhausted now (record_all times (invalid_budget_new start))
  = (DISCORD_INVALID_REQUEST_BUDGET <=? Z.of_nat (length times))%Z.
Proof.
  intros [Hw Hws]%Forall_cons Hm. rewrite record_all_in_window; [|done|cbn; lia|cbn; lia].
  unfold invalid_budget_exhausted. unfold window_over in *. cbn in *. rewrite Hw. done.
Qed.

(** The windows do not slide: twice the budget but one fits in ten minutes around the
    end of a window, and the budget is never reported exhausted. *)
Lemma budget_doubles_across_windows :
  let minute := (60 * 10 ^ 9)%Z in
  let late := replicate (Z.to_nat 9999) (10 * minute)%Z in
  let early := replicate (Z.to_nat 9999) (10 * minute + 1)%Z in
  let b := record_all (late ++ early) (invalid_budget_new 0) in
  invalid_budget_exhausted (10 * minute) (record_all late (invalid_budget_new 0)) = false
  ∧ invalid_budget_exhausted (10 * minute + 1) b = false
  ∧ ib_count b = 9999%Z.
Proof. vm_compute. repeat split. Qed.
