(* ===== verification/Network.v ===== *)
(** * Where the agents may connect

    The deny floor of outbound addresses ([tools/url.rs]), the redirects of
    web_fetch ([tools/system/web_fetch.rs]) and the egress allowlist of the sandbox
    ([sandbox/egress.rs], [tools/system/run_code.rs]).  Parsing a URL and a host is
    the [url] crate's; an address is the number of its bits.
    Then that no fetch leaves the cleared addresses. *)

From Stdlib Require Import ZArith Sorted Lia Ascii String.
From stdpp Require Import base gmap list strings sorting.
From S2P Require Import Prelude Types.

#[local] Ltac Zify.zify_post_hook ::= Z.to_euclidean_division_equations.

(** ** Addresses, as the standard library reads them *)

Inductive IpAddr := V4 (bits : Z) | V6 (bits : Z).
Inductive Host := Domain (name : str) | Ipv4 (bits : Z) | Ipv6 (bits : Z).
#[export] Instance Host_eq_dec : EqDecision Host.
Proof. solve_decision. Defined.

Definition ip_valid (ip : IpAddr) : Prop :=
  match ip with V4 v => (0 ≤ v < 2 ^ 32)%Z | V6 v => (0 ≤ v < 2 ^ 128)%Z end.

(** [Ipv4Addr::octets] *)
Definition octet (v i : Z) : Z := Z.land (Z.shiftr v (24 - 8 * i)) 0xff.
(** [Ipv6Addr::segments()[0]] *)
Definition segment0 (v : Z) : Z := Z.land (Z.shiftr v 112) 0xffff.

Definition octets_are (v a b c d : Z) : bool :=
  (octet v 0 =? a)%Z && (octet v 1 =? b)%Z && (octet v 2 =? c)%Z && (octet v 3 =? d)%Z.

Definition is_loopback (v : Z) : bool := (octet v 0 =? 127)%Z.
Definition is_private (v : Z) : bool :=
  (octet v 0 =? 10)%Z
  || (octet v 0 =? 172)%Z && (16 <=? octet v 1)%Z && (octet v 1 <=? 31)%Z
  || (octet v 0 =? 192)%Z && (octet v 1 =? 168)%Z.
Definition is_link_local (v : Z) : bool := (octet v 0 =? 169)%Z && (octet v 1 =? 254)%Z.
Definition is_broadcast (v : Z) : bool := octets_are v 255 255 255 255.
Definition is_multicast (v : Z) : bool := (224 <=? octet v 0)%Z && (octet v 0 <=? 239)%Z.
Definition is_unspecified (v : Z) : bool := octets_are v 0 0 0 0.
Definition is_documentation (v : Z) : bool :=
  (octet v 0 =? 192)%Z && (octet v 1 =? 0)%Z && (octet v 2 =? 2)%Z
  || (octet v 0 =? 198)%Z && (octet v 1 =? 51)%Z && (octet v 2 =? 100)%Z
  || (octet v 0 =? 203)%Z && (octet v 1 =? 0)%Z && (octet v 2 =? 113)%Z.

Definition v6_is_loopback (v : Z) : bool := (v =? 1)%Z.
Definition v6_is_unspecified (v : Z) : bool := (v =? 0)%Z.
Definition v6_is_multicast (v : Z) : bool := (Z.land (segment0 v) 0xff00 =? 0xff00)%Z.
(** [to_ipv4_mapped]: ::ffff:a.b.c.d *)
Definition to_ipv4_mapped (v : Z) : option Z :=
  if (Z.shiftr v 32 =? 0xffff)%Z then Some (Z.land v 0xffffffff) else None.

(** ** The deny floor *)

Inductive UrlError :=
| UrlMalformed (msg : str)
| DisallowedScheme (scheme : str)
| HostMissing
| HostBlocked (host : Host)
| UrlTooLong (max got : nat).

Definition check_ip (ip : IpAddr) : res UrlError unit :=
  let blocked :=
    match ip with
    | V4 v =>
        is_loopback v || is_private v || is_link_local v || is_broadcast v || is_multicast v
        || is_unspecified v || is_documentation v || octets_are v 169 254 169 254
    | V6 v =>
        v6_is_loopback v || v6_is_unspecified v || v6_is_multicast v
        || (Z.land (segment0 v) 0xfe00 =? 0xfc00)%Z
        || (Z.land (segment0 v) 0xffc0 =? 0xfe80)%Z
        || match to_ipv4_mapped v with
           | Some m => is_loopback m || is_private m || is_link_local m || is_unspecified m
                       || octets_are m 169 254 169 254
           | None => false
           end
    end in
  if blocked
  then Err (HostBlocked match ip with V4 v => Ipv4 v | V6 v => Ipv6 v end)
  else Ok tt.

(** [trim_end_matches('.')] and [ends_with] *)
Fixpoint trim_start_dots (s : str) : str :=
  match s with c :: s' => if (c =? 0x2e)%N then trim_start_dots s' else s | [] => [] end.
Definition trim_end_dots (s : str) : str := reverse (trim_start_dots (reverse s)).
Definition ends_with (p s : str) : bool := starts_with (reverse p) (reverse s).

Definition check_host (host : Host) : res UrlError unit :=
  match host with
  | Domain name =>
      let lowered := to_ascii_lowercase (trim_end_dots name) in
      if bool_decide (lowered = lit "localhost") || ends_with (lit ".localhost") lowered
         || ends_with (lit ".internal") lowered || ends_with (lit ".local") lowered
      then Err (HostBlocked host) else Ok tt
  | Ipv4 v => check_ip (V4 v)
  | Ipv6 v => check_ip (V6 v)
  end.

(** ** Fetching *)

(** What the [url] crate reads in a text. *)
Record Url := mkUrl { url_scheme : str; url_host : option Host }.
Class UrlParser := { url_parse : str → str + Url; host_parse : str → str + Host }.

Definition FETCH_MAX_REDIRECTS : nat := 5.

Definition FetchUrl_try_from `{UrlParser} (raw : str) : res UrlError Url :=
  if PROMPT_MAX_BYTES <? str_len raw then Err (UrlTooLong PROMPT_MAX_BYTES (str_len raw))
  else
    match url_parse raw with
    | inl e => Err (UrlMalformed e)
    | inr url =>
        if negb (bool_decide (url_scheme url = lit "https")) then Err (DisallowedScheme (url_scheme url))
        else
          match url_host url with
          | None => Err HostMissing
          | Some host => check_host host ;;? Ok url
          end
    end.

Inductive Attempt := Follow | TooManyRedirects | Refused (e : UrlError).

(** The redirect policy of [build_client]. *)
Definition redirect_policy (previous : nat) (url : Url) : Attempt :=
  if FETCH_MAX_REDIRECTS <=? previous then TooManyRedirects
  else
    match url_host url with
    | Some host => match check_host host with Err e => Refused e | _ => Follow end
    | None => Refused HostMissing
    end.

(** [client.get(url).send()]: the client asks the policy before each hop with the
    number of the URLs it has been to, and [https_only] refuses other schemes.  The
    list is of the URLs requested, the flag says whether an answer was reached. *)
Fixpoint send_request (fuel : nat) (server : Url → option Url) (previous : list Url) (url : Url) : list Url * bool :=
  if negb (bool_decide (url_scheme url = lit "https")) then (previous, false)
  else
    match server url with
    | None => (previous ++ [url], true)
    | Some next =>
        match redirect_policy (length (previous ++ [url])) next, fuel with
        | Follow, S fuel => send_request fuel server (previous ++ [url]) next
        | _, _ => (previous ++ [url], false)
        end
    end.
Definition fetch (server : Url → option Url) (url : Url) : list Url * bool :=
  send_request FETCH_MAX_REDIRECTS server [] url.

(** ** The egress allowlist *)

Definition MAX_EGRESS_HOST_LEN : nat := 255.
Definition MAX_EGRESS_HOSTS_PER_ORG : nat := 64.

Record EgressHost := mkEgressHost { EgressHost_as_str : str }.
#[export] Instance EgressHost_eq_dec : EqDecision EgressHost.
Proof. solve_decision. Defined.

Definition check_egress_host `{UrlParser} (raw : str) : res UrlError unit :=
  match host_parse raw with
  | inl e => Err (UrlMalformed e)
  | inr host => check_host host
  end.

Definition deny_floor_to_parse (e : UrlError) : ParseError :=
  match e with
  | HostBlocked _ =>
      Malformed "egress_host" "host is in a blocked range (loopback / private / link-local / metadata)"
  | _ => Malformed "egress_host" "not a valid host"
  end.

Definition EgressHost_try_from `{UrlParser} (raw : str) : res ParseError EgressHost :=
  if is_empty raw then Err (Empty "egress_host")
  else if MAX_EGRESS_HOST_LEN <? str_len raw
  then Err (TooLong "egress_host" MAX_EGRESS_HOST_LEN (str_len raw))
  else res_map_err deny_floor_to_parse (check_egress_host raw) ;;? Ok (mkEgressHost raw).

Inductive EgressPolicy := DenyAll | AllowHosts (hosts : list EgressHost).

Definition is_deny_all (p : EgressPolicy) : bool :=
  match p with DenyAll => true | AllowHosts hosts => is_empty hosts end.

(** The order of strings: by bytes, which is by characters. *)
Fixpoint str_lt (a b : str) : bool :=
  match a, b with
  | [], [] => false
  | [], _ => true
  | _, [] => false
  | x :: a', y :: b' => if (x <? y)%N then true else if (y <? x)%N then false else str_lt a' b'
  end.

(** A [BTreeSet<EgressHost>]: its elements in order. *)
Record EgressAllowlist := mkAllowlist { al_hosts : list EgressHost }.

Fixpoint btree_insert (h : EgressHost) (set : list EgressHost) : list EgressHost :=
  match set with
  | [] => [h]
  | x :: set' =>
      if str_lt (EgressHost_as_str h) (EgressHost_as_str x) then h :: set
      else if str_lt (EgressHost_as_str x) (EgressHost_as_str h) then x :: btree_insert h set'
      else set
  end.

Fixpoint collect_hosts `{UrlParser} (raw : list str) (set : list EgressHost) : res ParseError (list EgressHost) :=
  match raw with
  | [] => Ok set
  | host :: raw' => h <-? EgressHost_try_from host ; collect_hosts raw' (btree_insert h set)
  end.

Definition Allowlist_try_from `{UrlParser} (raw : list str) : res ParseError EgressAllowlist :=
  if MAX_EGRESS_HOSTS_PER_ORG <? length raw
  then Err (TooLong "egress_allowlist" MAX_EGRESS_HOSTS_PER_ORG (length raw))
  else hosts <-? collect_hosts raw [] ; Ok (mkAllowlist hosts).

Definition Allowlist_serialize (a : EgressAllowlist) : list str := EgressHost_as_str <$> al_hosts a.
Definition Allowlist_default : EgressAllowlist := mkAllowlist [].

Definition to_policy (a : EgressAllowlist) : EgressPolicy :=
  if is_empty (al_hosts a) then DenyAll else AllowHosts (al_hosts a).

Inductive EgressStoreError := EgressMalformed (e : ParseError) | EgressDb (msg : str).

(** [org_egress_allowlist] *)
Abbreviation egress_rows := (gmap OrgId (list str)).

Definition allowlist_for_org `{UrlParser} (rows : egress_rows) (org : OrgId) : res EgressStoreError EgressAllowlist :=
  match rows !! org with
  | None => Ok Allowlist_default
  | Some hosts => res_map_err EgressMalformed (Allowlist_try_from hosts)
  end.
Definition set_allowlist (org : OrgId) (a : EgressAllowlist) (rows : egress_rows) : egress_rows :=
  <[org := Allowlist_serialize a]> rows.

(** [resolve_egress] of run_code: any failure fails the call. *)
Definition resolve_egress `{UrlParser} (rows : egress_rows) (org : OrgId) : res EgressStoreError EgressPolicy :=
  a <-? allowlist_for_org rows org ; Ok (to_policy a).

(** ** Address blocks: the reference *)

(** A network in CIDR form: its bits and the length of its prefix. *)
Definition in_cidr (width v : Z) (net : Z * Z) : bool :=
  (v / 2 ^ (width - net.2) =? net.1 / 2 ^ (width - net.2))%Z.

Definition v4_net (a b c d len : Z) : Z * Z := (a * 2 ^ 24 + b * 2 ^ 16 + c * 2 ^ 8 + d, len)%Z.
Definition v4_internal : list (Z * Z) :=
  [v4_net 127 0 0 0 8; v4_net 10 0 0 0 8; v4_net 172 16 0 0 12; v4_net 192 168 0 0 16;
   v4_net 169 254 0 0 16; v4_net 0 0 0 0 32]%Z.
Definition v4_blocked : list (Z * Z) :=
  v4_internal ++ [v4_net 255 255 255 255 32; v4_net 224 0 0 0 4; v4_net 192 0 2 0 24;
                  v4_net 198 51 100 0 24; v4_net 203 0 113 0 24]%Z.
(** A block of mapped addresses. *)
Definition mapped (net : Z * Z) : Z * Z := (0xffff * 2 ^ 32 + net.1, 96 + net.2)%Z.
Definition v6_blocked : list (Z * Z) :=
  [(1, 128); (0, 128); (0xff * 2 ^ 120, 8); (0xfc * 2 ^ 120, 7); (0xfe80 * 2 ^ 112, 10)]%Z
  ++ (mapped <$> v4_internal).

Definition blocked_by_cidr (ip : IpAddr) : bool :=
  match ip with
  | V4 v => existsb (in_cidr 32 v) v4_blocked
  | V6 v => existsb (in_cidr 128 v) v6_blocked
  end.

(** * What the deny floor lets through

    The tests of [check_ip] are membership in a list of address blocks; every URL
    web_fetch requests and every host an allowlist grants has passed them. *)

#[local] Ltac Zify.zify_post_hook ::= Z.to_euclidean_division_equations.

(** ** Octets and masks as quotients *)

Lemma octet_div v i : (0 ≤ i ≤ 3)%Z → octet v i = ((v / 2 ^ (24 - 8 * i)) `mod` 256)%Z.
Proof.
  intros Hi. unfold octet. rewrite Z.shiftr_div_pow2 by lia. change 0xff%Z with (Z.ones 8).
  rewrite Z.land_ones by lia. done.
Qed.

Lemma land_high s m n : (0 ≤ n)%Z → Z.land s (Z.shiftl m n) = Z.shiftl (Z.land (Z.shiftr s n) m) n.
Proof.
  intros Hn. apply Z.bits_inj'. intros k Hk. rewrite Z.land_spec, !Z.shiftl_spec, Z.land_spec by lia.
  destruct (Z.lt_ge_cases k n).
  - rewrite !(Z.testbit_neg_r _ (k - n)) by lia. by rewrite andb_false_r.
  - rewrite Z.shiftr_spec by lia. by rewrite Z.sub_add.
Qed.

(** A mask of the high bits of 16 compares their quotient. *)
Lemma high_mask s n y :
  (0 ≤ s < 2 ^ 16)%Z → (0 ≤ n ≤ 16)%Z →
  (Z.land s (Z.shiftl (Z.ones (16 - n)) n) =? Z.shiftl y n)%Z = (s / 2 ^ n =? y)%Z.
Proof.
  intros Hs Hn. rewrite land_high, Z.land_ones, Z.shiftr_div_pow2, !Z.shiftl_mul_pow2 by lia.
  assert (0 < 2 ^ n)%Z by (apply Z.pow_pos_nonneg; lia).
  assert (2 ^ 16 = 2 ^ n * 2 ^ (16 - n))%Z as Hp by (rewrite <-Z.pow_add_r by lia; f_equal; lia).
  rewrite Z.mod_small; [|split; [by apply Z.div_pos; lia|apply Z.div_lt_upper_bound; lia]].
  apply eq_true_iff_eq. rewrite !Z.eqb_eq. nia.
Qed.

Lemma segment0_div v : (0 ≤ v < 2 ^ 128)%Z → segment0 v = (v / 2 ^ 112)%Z ∧ (0 ≤ segment0 v < 2 ^ 16)%Z.
Proof.
  intros Hv. unfold segment0. rewrite Z.shiftr_div_pow2 by lia. change 0xffff%Z with (Z.ones 16).
  rewrite Z.land_ones by lia. assert (0 ≤ v / 2 ^ 112 < 2 ^ 16)%Z by lia. rewrite Z.mod_small by lia. done.
Qed.

(** ** Version 4 *)

Section v4.
Context (v : Z) (Hv : (0 ≤ v < 2 ^ 32)%Z).
#[local] Ltac octets :=
  unfold is_loopback, is_private, is_link_local, is_broadcast, is_multicast, is_unspecified, is_documentation,
    octets_are, in_cidr, v4_net; rewrite ?octet_div by lia; cbn [fst snd existsb];
  apply eq_true_iff_eq; rewrite ?orb_true_iff, ?andb_true_iff, ?Z.eqb_eq, ?Z.leb_le;
  repeat match goal with |- context [(2 ^ ?n)%Z] => let x := eval vm_compute in (2 ^ n)%Z in change (2 ^ n)%Z with x end;
  lia.

Lemma loopback_cidr : is_loopback v = in_cidr 32 v (v4_net 127 0 0 0 8).
Proof. octets. Qed.
Lemma private_cidr :
  is_private v = in_cidr 32 v (v4_net 10 0 0 0 8) || in_cidr 32 v (v4_net 172 16 0 0 12)
                 || in_cidr 32 v (v4_net 192 168 0 0 16).
Proof. octets. Qed.
Lemma link_local_cidr : is_link_local v = in_cidr 32 v (v4_net 169 254 0 0 16).
Proof. octets. Qed.
Lemma broadcast_cidr : is_broadcast v = in_cidr 32 v (v4_net 255 255 255 255 32).
Proof. octets. Qed.
Lemma multicast_cidr : is_multicast v = in_cidr 32 v (v4_net 224 0 0 0 4).
Proof. octets. Qed.
Lemma unspecified_cidr : is_unspecified v = in_cidr 32 v (v4_net 0 0 0 0 32).
Proof. octets. Qed.
Lemma documentation_cidr :
  is_documentation v = in_cidr 32 v (v4_net 192 0 2 0 24) || in_cidr 32 v (v4_net 198 51 100 0 24)
                       || in_cidr 32 v (v4_net 203 0 113 0 24).
Proof. octets. Qed.
Lemma metadata_link_local : octets_are v 169 254 169 254 = true → is_link_local v = true.
Proof. unfold octets_are, is_link_local. rewrite !andb_true_iff. tauto. Qed.

Lemma internal_cidr :
  is_loopback v || is_private v || is_link_local v || is_unspecified v || octets_are v 169 254 169 254
  = existsb (in_cidr 32 v) v4_internal.
Proof.
  pose proof metadata_link_local as Hm. unfold v4_internal. cbn [existsb].
  rewrite <-loopback_cidr, <-link_local_cidr, <-unspecified_cidr.
  rewrite private_cidr in *. apply eq_true_iff_eq. rewrite !orb_true_iff. intuition congruence.
Qed.
End v4.

(** ** Version 6 *)

Section v6.
Context (v : Z) (Hv : (0 ≤ v < 2 ^ 128)%Z).

Lemma segment_cidr n y :
  (0 ≤ n ≤ 16)%Z →
  (Z.land (segment0 v) (Z.shiftl (Z.ones (16 - n)) n) =? Z.shiftl y n)%Z
  = in_cidr 128 v (y * 2 ^ (112 + n), 16 - n)%Z.
Proof.
  intros Hn. destruct (segment0_div v Hv) as [Hs Hr]. rewrite high_mask, Hs by done.
  unfold in_cidr. cbn [fst snd]. replace (128 - (16 - n))%Z with (112 + n)%Z by lia.
  assert (0 < 2 ^ (112 + n))%Z by (apply Z.pow_pos_nonneg; lia).
  rewrite Z.div_mul, Z.pow_add_r, Z.div_div by lia. done.
Qed.

Lemma v6_multicast_cidr : v6_is_multicast v = in_cidr 128 v (0xff * 2 ^ 120, 8)%Z.
Proof. exact (segment_cidr 8 0xff ltac:(lia)). Qed.
Lemma ula_cidr : (Z.land (segment0 v) 0xfe00 =? 0xfc00)%Z = in_cidr 128 v (0xfc * 2 ^ 120, 7)%Z.
Proof. exact (segment_cidr 9 0x7e ltac:(lia)). Qed.
Lemma v6_link_local_cidr : (Z.land (segment0 v) 0xffc0 =? 0xfe80)%Z = in_cidr 128 v (0xfe80 * 2 ^ 112, 10)%Z.
Proof. exact (segment_cidr 6 0x3fa ltac:(lia)). Qed.

Lemma mapped_cidr net len :
  (0 ≤ net < 2 ^ 32)%Z → (0 ≤ len ≤ 32)%Z →
  in_cidr 128 v (mapped (net, len))
  = match to_ipv4_mapped v with Some m => in_cidr 32 m (net, len) | None => false end.
Proof.
  intros Hnet Hlen. unfold to_ipv4_mapped, in_cidr, mapped. cbn [fst snd].
  rewrite Z.shiftr_div_pow2 by lia. change 0xffffffff%Z with (Z.ones 32). rewrite Z.land_ones by lia.
  replace (128 - (96 + len))%Z with (32 - len)%Z by lia. set (k := (32 - len)%Z).
  assert (0 < 2 ^ k)%Z as Hk by (apply Z.pow_pos_nonneg; lia).
  assert (2 ^ 32 = 2 ^ k * 2 ^ (32 - k))%Z as Hp by (rewrite <-Z.pow_add_r by lia; f_equal; lia).
  assert (∀ a m, a * 2 ^ 32 + m = (a * 2 ^ (32 - k)) * 2 ^ k + m)%Z as Hsplit by (intros; rewrite Hp; ring).
  assert (v = v / 2 ^ 32 * 2 ^ 32 + v `mod` 2 ^ 32)%Z as Hvm by (pose proof (Z.div_mod v (2 ^ 32)); lia).
  assert (0 ≤ v `mod` 2 ^ 32 < 2 ^ 32)%Z as Hm by (apply Z.mod_pos_bound; lia).
  assert (∀ x, 0 ≤ x < 2 ^ 32 → 0 ≤ x / 2 ^ k < 2 ^ (32 - k))%Z as Hq.
  { intros x Hx. split; [apply Z.div_pos; lia|apply Z.div_lt_upper_bound; lia]. }
  pose proof (Hq _ Hm) as Hqm. pose proof (Hq _ Hnet) as Hqn.
  rewrite Hvm at 1. rewrite !Hsplit, !Z.div_add_l by lia.
  destruct (v / 2 ^ 32 =? 0xffff)%Z eqn:E.
  - apply Z.eqb_eq in E. rewrite E. apply eq_true_iff_eq. rewrite !Z.eqb_eq. lia.
  - apply Z.eqb_neq in E. apply Z.eqb_neq. nia.
Qed.
End v6.

(** The tests on octets, segments and mapped addresses are membership in a list of
    address blocks: check_ip refuses an address exactly when it lies in one. *)
Theorem ip_filter_is_cidr ip :
  ip_valid ip →
  check_ip ip = if blocked_by_cidr ip
                then Err (HostBlocked match ip with V4 v => Ipv4 v | V6 v => Ipv6 v end) else Ok tt.
Proof.
  intros Hv. unfold check_ip. cbv zeta. destruct ip as [v|v]; cbn in Hv.
  - assert (blocked_by_cidr (V4 v)
      = is_loopback v || is_private v || is_link_local v || is_broadcast v || is_multicast v
        || is_unspecified v || is_documentation v || octets_are v 169 254 169 254) as ->; [|done].
    unfold blocked_by_cidr, v4_blocked. rewrite existsb_app, <-internal_cidr by done. cbn [existsb].
    rewrite <-broadcast_cidr, <-multicast_cidr, orb_false_r by done.
    rewrite (documentation_cidr v Hv). apply eq_true_iff_eq. rewrite !orb_true_iff. tauto.
  - assert (blocked_by_cidr (V6 v)
      = v6_is_loopback v || v6_is_unspecified v || v6_is_multicast v
        || (Z.land (segment0 v) 0xfe00 =? 0xfc00)%Z || (Z.land (segment0 v) 0xffc0 =? 0xfe80)%Z
        || match to_ipv4_mapped v with
           | Some m => is_loopback m || is_private m || is_link_local m || is_unspecified m
                       || octets_are m 169 254 169 254
           | None => false
           end) as ->; [|done].
    unfold blocked_by_cidr, v6_blocked. rewrite existsb_app. cbn [existsb].
    rewrite <-v6_multicast_cidr, <-ula_cidr, <-v6_link_local_cidr by done.
    assert (in_cidr 128 v (1, 128)%Z = v6_is_loopback v) as ->.
    { unfold in_cidr, v6_is_loopback. cbn. by rewrite Z.div_1_r. }
    assert (in_cidr 128 v (0, 128)%Z = v6_is_unspecified v) as ->.
    { unfold in_cidr, v6_is_unspecified. cbn. by rewrite Z.div_1_r. }
    assert (existsb (in_cidr 128 v) (mapped <$> v4_internal)
      = match to_ipv4_mapped v with Some m => existsb (in_cidr 32 m) v4_internal | None => false end) as ->.
    { unfold v4_internal, v4_net. cbn [fmap list_fmap existsb]. rewrite !mapped_cidr by lia.
      by destruct (to_ipv4_mapped v). }
    assert (match to_ipv4_mapped v with Some m => existsb (in_cidr 32 m) v4_internal | None => false end
      = match to_ipv4_mapped v with
        | Some m => is_loopback m || is_private m || is_link_local m || is_unspecified m || octets_are m 169 254 169 254
        | None => false end) as ->.
    { unfold to_ipv4_mapped. destruct (_ =? _)%Z; [|done]. rewrite internal_cidr; [done|].
      change 0xffffffff%Z with (Z.ones 32). rewrite Z.land_ones by lia. apply Z.mod_pos_bound. lia. }
    apply eq_true_iff_eq. rewrite !orb_true_iff. intuition congruence.
Qed.

Lemma ip_filter_is_cidr_witness :
  check_ip (V6 (0xffff * 2 ^ 32 + 0x7f000001)) = Err (HostBlocked (Ipv6 (0xffff * 2 ^ 32 + 0x7f000001))).
Proof. rewrite ip_filter_is_cidr; [vm_compute; reflexivity|]. vm_compute. split; [discriminate|reflexivity]. Defined.

(** What the list leaves out: a mapped address of a blocked multicast or broadcast
    address, the other forms that embed a loopback address, the shared block
    100.64.0.0/10 and the rest of 0.0.0.0/8. *)
Lemma deny_floor_gaps :
  is_ok (check_ip (V4 (224 * 2 ^ 24 + 1))) = false
  ∧ check_ip (V6 (0xffff * 2 ^ 32 + 224 * 2 ^ 24 + 1)) = Ok tt
  ∧ check_ip (V6 (0xffff * 2 ^ 32 + 0xffffffff)) = Ok tt
  ∧ check_ip (V6 0x7f000001) = Ok tt
  ∧ check_ip (V6 (0x64ff9b * 2 ^ 96 + 0x7f000001)) = Ok tt
  ∧ check_ip (V4 (100 * 2 ^ 24 + 64 * 2 ^ 16 + 1)) = Ok tt
  ∧ check_ip (V4 1) = Ok tt.
Proof. vm_compute. repeat split. Qed.

(** ** Names *)

Lemma trim_end_dots_app s n : trim_end_dots (s ++ replicate n 0x2e%N) = trim_end_dots s.
Proof.
  unfold trim_end_dots. f_equal. rewrite reverse_app. induction n as [|n IH]; [done|].
  rewrite replicate_S_end, reverse_snoc. exact IH.
Qed.

(** Trailing dots do not change the verdict on a name. *)
Lemma check_host_dots name n :
  is_ok (check_host (Domain (name ++ replicate n 0x2e%N))) = is_ok (check_host (Domain name)).
Proof. unfold check_host. rewrite trim_end_dots_app. by repeat case_match. Qed.

(** ** Fetching *)

Definition cleared (u : Url) : Prop :=
  url_scheme u = lit "https" ∧ ∃ h, url_host u = Some h ∧ check_host h = Ok tt.

Lemma FetchUrl_cleared `{UrlParser} raw u : FetchUrl_try_from raw = Ok u → cleared u.
Proof.
  unfold FetchUrl_try_from, cleared. repeat case_match; try done; bools.
  destruct (check_host _) as [[]| |] eqn:E; [|done..]. intros [= <-]. eauto.
Qed.

(** Where a URL may be followed to. *)
Definition reachable_host (u : Url) : Prop := ∃ h, url_host u = Some h ∧ is_ok (check_host h) = true.

Lemma check_host_no_panic h : check_host h = Ok tt ∨ ∃ e, check_host h = Err e.
Proof. destruct h; cbn; unfold check_ip; cbv zeta; repeat case_match; eauto. Qed.

Lemma policy_follow n u : redirect_policy n u = Follow → n < FETCH_MAX_REDIRECTS ∧ ∃ h, url_host u = Some h ∧ check_host h = Ok tt.
Proof.
  unfold redirect_policy. destruct (_ <=? _) eqn:El; [done|]. apply Nat.leb_gt in El. split; [done|].
  destruct (url_host u) as [h|]; [|done]. exists h. split; [done|].
  by destruct (check_host_no_panic h) as [?|[e He]]; [|rewrite He in *].
Qed.

Lemma send_cleared fuel server previous url :
  Forall cleared previous → (∃ h, url_host url = Some h ∧ check_host h = Ok tt) →
  length previous < FETCH_MAX_REDIRECTS →
  Forall cleared (send_request fuel server previous url).1 ∧ length (send_request fuel server previous url).1 ≤ FETCH_MAX_REDIRECTS.
Proof.
  revert previous url. induction fuel as [|fuel IH]; intros previous url Hp Hu Hl; cbn [send_request];
    (destruct (bool_decide (url_scheme url = lit "https")) eqn:Es; bools; cbn [negb]; [|cbn; split; [done|lia]]).
  all: assert (Forall cleared (previous ++ [url])) as Hp' by (apply Forall_app; split; [done|]; by repeat constructor).
  all: assert (length (previous ++ [url]) ≤ FETCH_MAX_REDIRECTS) as Hl' by (rewrite length_app; cbn; lia).
  all: destruct (server url) as [next|]; [|by split].
  all: destruct (redirect_policy _ next) eqn:Er; try by split.
  apply policy_follow in Er as [Hn Hh]. by apply IH.
Qed.

(** More fuel makes no difference. *)
Lemma send_fuel fuel more server previous url :
  FETCH_MAX_REDIRECTS ≤ length previous + fuel →
  send_request (fuel + more) server previous url = send_request fuel server previous url.
Proof.
  revert previous url. induction fuel as [|fuel IH]; intros previous url Hf.
  - destruct more as [|more]; [done|]. cbn [Nat.add send_request]. destruct (negb _); [done|].
    destruct (server url); [|done]. unfold redirect_policy.
    assert ((FETCH_MAX_REDIRECTS <=? length (previous ++ [url])) = true) as ->; [|done].
    apply Nat.leb_le. rewrite length_app. lia.
  - cbn [Nat.add send_request]. destruct (negb _); [done|]. destruct (server url) as [next|]; [|done].
    destruct (redirect_policy _ next); [|done..]. apply IH. rewrite length_app. cbn. lia.
Qed.

(** C24: However the servers redirect it, a fetch ends, requests at most
    FETCH_MAX_REDIRECTS URLs, and every one of them is https with a host that passed
    the deny floor: no redirect leads to a blocked host. *)
Theorem fetch_stays_cleared `{UrlParser} raw url server :
  FetchUrl_try_from raw = Ok url →
  Forall cleared (fetch server url).1
  ∧ length (fetch server url).1 ≤ FETCH_MAX_REDIRECTS
  ∧ ∀ more, send_request (FETCH_MAX_REDIRECTS + more) server [] url = fetch server url.
Proof.
  intros Hu%FetchUrl_cleared. pose proof Hu as [_ Hh].
  destruct (send_cleared FETCH_MAX_REDIRECTS server [] url) as [Hc Hl]; [done|done|cbn; unfold FETCH_MAX_REDIRECTS; lia|].
  split_and!; [done|done|]. intros more. by apply send_fuel.
Qed.

(** The bound counts the first URL as a hop: a fetch follows four redirects. *)
Module NetDemo.
(** A parser for texts that are names: everything is https. *)
#[local] Instance parser : UrlParser :=
  {| url_parse s := inr (mkUrl (lit "https") (Some (Domain s))); host_parse s := inr (Domain s) |}.
Definition start : Url := mkUrl (lit "https") (Some (Domain (lit "a.example"))).
(** Page [n] redirects to page [n+1], up to [last]. *)
Definition page (n : nat) : Url := mkUrl (lit "https") (Some (Domain (replicate n 0x61%N))).
Definition chain (last : nat) (u : Url) : option Url :=
  match url_host u with
  | Some (Domain s) => if length s <? last then Some (page (S (length s))) else None
  | _ => None
  end.
Definition to_metadata (u : Url) : option Url :=
  if bool_decide (url_host u = Some (Domain (lit "a.example")))
  then Some (mkUrl (lit "https") (Some (Ipv4 (169 * 2 ^ 24 + 254 * 2 ^ 16 + 169 * 2 ^ 8 + 254)))) else None.
Lemma four_redirects :
  (fetch (chain 5) (page 1)).2 = true ∧ (fetch (chain 6) (page 1)).2 = false.
Proof. by vm_compute. Qed.
Lemma metadata_not_requested : fetch to_metadata start = ([start], false).
Proof. by vm_compute. Qed.
End NetDemo.

Lemma fetch_stays_cleared_witness :
  Forall cleared (fetch NetDemo.to_metadata NetDemo.start).1.
Proof.
  apply (fetch_stays_cleared (H := NetDemo.parser) (lit "a.example") NetDemo.start NetDemo.to_metadata).
  vm_compute. reflexivity.
Defined.

(** ** The allowlist *)

Definition host_lt (a b : EgressHost) : Prop := str_lt (EgressHost_as_str a) (EgressHost_as_str b) = true.

Lemma str_lt_irrefl s : str_lt s s = false.
Proof. induction s as [|c s IH]; [done|]. cbn. by rewrite N.ltb_irrefl. Qed.
Lemma str_lt_trans a b c : str_lt a b = true → str_lt b c = true → str_lt a c = true.
Proof.
  revert b c. induction a as [|x a IH]; intros [|y b] [|z c]; cbn; try done.
  destruct (x <? y)%N eqn:Exy; destruct (y <? z)%N eqn:Eyz; rewrite ?N.ltb_lt, ?N.ltb_ge in *.
  - intros _ _. assert ((x <? z)%N = true) as -> by (apply N.ltb_lt; lia). done.
  - destruct (z <? y)%N eqn:Ezy; [done|]. rewrite N.ltb_ge in *. intros _ _.
    assert ((x <? z)%N = true) as -> by (apply N.ltb_lt; lia). done.
  - destruct (y <? x)%N eqn:Eyx; [done|]. rewrite N.ltb_ge in *. intros _ _.
    assert ((x <? z)%N = true) as -> by (apply N.ltb_lt; lia). done.
  - destruct (y <? x)%N eqn:Eyx; [done|]. destruct (z <? y)%N eqn:Ezy; [done|]. rewrite N.ltb_ge in *.
    intros ? ?. assert ((x <? z)%N = false) as -> by (apply N.ltb_ge; lia).
    assert ((z <? x)%N = false) as -> by (apply N.ltb_ge; lia). by eapply IH.
Qed.
Lemma str_lt_total a b : str_lt a b = false → str_lt b a = false → a = b.
Proof.
  revert b. induction a as [|x a IH]; intros [|y b]; cbn; try done.
  destruct (x <? y)%N eqn:Exy; [done|]. destruct (y <? x)%N eqn:Eyx; [done|].
  rewrite N.ltb_ge in *. intros ? ?. f_equal; [lia|by apply IH].
Qed.

Lemma btree_insert_elem h set x : x ∈ btree_insert h set ↔ x = h ∨ x ∈ set.
Proof.
  induction set as [|y set IH]; cbn; [set_solver|].
  destruct (str_lt (EgressHost_as_str h) (EgressHost_as_str y)) eqn:E1; [set_solver|].
  destruct (str_lt (EgressHost_as_str y) (EgressHost_as_str h)) eqn:E2; [set_solver|].
  assert (h = y) as -> by (destruct h, y; f_equal; by apply str_lt_total). set_solver.
Qed.

Lemma btree_insert_sorted h set : StronglySorted host_lt set → StronglySorted host_lt (btree_insert h set).
Proof.
  induction 1 as [|y set Hs IH Hall]; cbn; [by repeat constructor|].
  destruct (str_lt (EgressHost_as_str h) (EgressHost_as_str y)) eqn:E1.
  - constructor; [by constructor|]. constructor; [done|]. eapply Forall_impl; [exact Hall|].
    intros z Hz. by eapply str_lt_trans.
  - destruct (str_lt (EgressHost_as_str y) (EgressHost_as_str h)) eqn:E2; [|by constructor].
    constructor; [done|]. rewrite Forall_forall in Hall |- *. intros z [->|Hz]%btree_insert_elem; [done|by apply Hall].
Qed.

Lemma btree_insert_length h set : length (btree_insert h set) ≤ S (length set).
Proof. induction set as [|y set IH]; cbn; [done|]. repeat case_match; cbn; lia. Qed.

(** A host above all others goes to the end. *)
Lemma btree_insert_end h set : Forall (λ x, host_lt x h) set → btree_insert h set = set ++ [h].
Proof.
  induction 1 as [|y set Hy _ IH]; [done|]. cbn.
  destruct (str_lt (EgressHost_as_str h) (EgressHost_as_str y)) eqn:E.
  - pose proof (str_lt_trans _ _ _ Hy E) as Hc. by rewrite str_lt_irrefl in Hc.
  - unfold host_lt in Hy. by rewrite Hy, IH.
Qed.

Section allowlist.
Context `{UrlParser}.

Definition passes (h : EgressHost) : Prop := EgressHost_try_from (EgressHost_as_str h) = Ok h.

Lemma EgressHost_passes raw h : EgressHost_try_from raw = Ok h → passes h ∧ EgressHost_as_str h = raw.
Proof.
  intros He. assert (h = mkEgressHost raw) as ->; [|done].
  unfold EgressHost_try_from in He. repeat case_match; try done. by apply res_bind_Ok in He as (? & _ & [= <-]).
Qed.

Lemma collect_hosts_ok raw set hosts :
  collect_hosts raw set = Ok hosts → StronglySorted host_lt set → Forall passes set →
  StronglySorted host_lt hosts ∧ Forall passes hosts ∧ length hosts ≤ length set + length raw.
Proof.
  revert set. induction raw as [|r raw IH]; intros set Hc Hs Hp; cbn in Hc; [injection Hc as <-; split_and!; [done|done|lia]|].
  apply res_bind_Ok in Hc as (h & Hh & Hc). apply EgressHost_passes in Hh as [Hh _].
  destruct (IH _ Hc) as (? & ? & Hl); [by apply btree_insert_sorted| |].
  - rewrite Forall_forall in Hp |- *. intros x [->|Hx]%btree_insert_elem; [done|by apply Hp].
  - split_and!; [done|done|]. pose proof (btree_insert_length h set). cbn. lia.
Qed.

Lemma collect_hosts_again set hosts :
  StronglySorted host_lt (set ++ hosts) → Forall passes hosts →
  collect_hosts (EgressHost_as_str <$> hosts) set = Ok (set ++ hosts).
Proof.
  revert set. induction hosts as [|h hosts IH]; intros set Hs Hp; cbn; [by rewrite app_nil_r|].
  apply Forall_cons in Hp as [Hh Hp]. unfold passes in Hh. rewrite Hh. cbn.
  rewrite btree_insert_end.
  - rewrite (IH (set ++ [h])), <-app_assoc; [done| |done]. by rewrite <-app_assoc.
  - apply Forall_forall. intros x Hx. eapply StronglySorted_app_1_elem_of; [exact Hs|done|]. apply list_elem_of_here.
Qed.

Record allowlist_ok (a : EgressAllowlist) : Prop := {
  ao_sorted : StronglySorted host_lt (al_hosts a);
  ao_passes : Forall passes (al_hosts a);
  ao_bounded : length (al_hosts a) ≤ MAX_EGRESS_HOSTS_PER_ORG }.

Lemma Allowlist_ok raw a : Allowlist_try_from raw = Ok a → allowlist_ok a.
Proof.
  unfold Allowlist_try_from. case_match eqn:El; [done|]. apply Nat.ltb_ge in El.
  intros (hosts & Hc & [= <-])%res_bind_Ok. destruct (collect_hosts_ok raw [] hosts Hc) as (? & ? & ?); [constructor..|].
  split; cbn in *; [done|done|lia].
Qed.

(** Whatever texts the table holds, an allowlist read from it has at most
    MAX_EGRESS_HOSTS_PER_ORG hosts, in order and without repetition, and each is one
    the deny floor accepts now; a row with any other host is an error and the call
    of run_code fails, so a run is given no network or the hosts of such a list.  A
    list that was accepted is read back as it was written, and touches no other
    organisation. *)
Theorem allowlist_checked rows org :
  (∀ p, resolve_egress rows org = Ok p →
     p = DenyAll ∨ ∃ a, p = AllowHosts (al_hosts a) ∧ al_hosts a ≠ [] ∧ allowlist_ok a)
  ∧ (∀ raw h, rows !! org = Some raw → h ∈ raw → ¬ is_ok (EgressHost_try_from h) = true →
       is_ok (resolve_egress rows org) = false)
  ∧ ∀ raw a, Allowlist_try_from raw = Ok a →
      allowlist_for_org (set_allowlist org a rows) org = Ok a
      ∧ (∀ h, h ∈ raw ↔ mkEgressHost h ∈ al_hosts a)
      ∧ ∀ other, other ≠ org → allowlist_for_org (set_allowlist org a rows) other = allowlist_for_org rows other.
Proof.
  split_and!.
  - intros p (a & Ha & [= <-])%res_bind_Ok. assert (allowlist_ok a) as Hok.
    { unfold allowlist_for_org in Ha. destruct (rows !! org) as [raw|].
      - destruct (Allowlist_try_from raw) as [a'| |] eqn:Ea; cbn in Ha; try done. injection Ha as <-. by eapply Allowlist_ok.
      - injection Ha as <-. split; cbn; [constructor..|lia]. }
    unfold to_policy. destruct (al_hosts a) as [|h hs] eqn:Eh; cbn; [by left|right]. exists a. by rewrite Eh.
  - intros raw h Hr Hin Hbad. unfold resolve_egress, allowlist_for_org. rewrite Hr.
    unfold Allowlist_try_from. case_match; [done|].
    assert (∀ set hosts, collect_hosts raw set ≠ Ok hosts) as Hno.
    { clear -Hin Hbad. induction raw as [|r raw IH]; intros set hosts Hc; [set_solver|].
      cbn in Hc. apply res_bind_Ok in Hc as (h' & Hh' & Hc). apply elem_of_cons in Hin as [->|Hin]; [by rewrite Hh' in Hbad|].
      by eapply (IH Hin). }
    destruct (collect_hosts raw []) as [hosts| |] eqn:Ec; [|done..]. by apply Hno in Ec.
  - intros raw a Ha. pose proof (Allowlist_ok raw a Ha) as [Hs Hp Hl]. unfold allowlist_for_org, set_allowlist. split_and!.
    + rewrite lookup_insert_eq. unfold Allowlist_serialize, Allowlist_try_from. rewrite length_fmap.
      assert ((MAX_EGRESS_HOSTS_PER_ORG <? length (al_hosts a)) = false) as -> by (apply Nat.ltb_ge; lia).
      rewrite (collect_hosts_again [] (al_hosts a)) by done. by destruct a.
    + unfold Allowlist_try_from in Ha. case_match; [done|]. apply res_bind_Ok in Ha as (hosts & Hc & [= <-]). cbn.
      assert (∀ set, collect_hosts raw set = Ok hosts → ∀ h, mkEgressHost h ∈ hosts ↔ h ∈ raw ∨ mkEgressHost h ∈ set) as Hin.
      { clear. induction raw as [|r raw IH]; intros set Hc h; cbn in Hc; [injection Hc as <-; set_solver|].
        apply res_bind_Ok in Hc as (h' & Hh' & Hc). rewrite (IH _ Hc h), btree_insert_elem.
        apply EgressHost_passes in Hh' as [_ Hh']. destruct h' as [h']. cbn in Hh'. subst. rewrite elem_of_cons.
        split; [intros [?|[[= ->]|?]]; auto|intros [[->|?]|?]; auto]. }
      intros h. rewrite (Hin [] Hc h). set_solver.
    + intros other Hne. by rewrite lookup_insert_ne.
Qed.
End allowlist.

Lemma allowlist_checked_witness :
  allowlist_for_org (H := NetDemo.parser)
    (set_allowlist 1 (mkAllowlist [mkEgressHost (lit "a.example"); mkEgressHost (lit "b.example")]) ∅) 1
  = Ok (mkAllowlist [mkEgressHost (lit "a.example"); mkEgressHost (lit "b.example")]).
Proof.
  destruct (allowlist_checked (H := NetDemo.parser) ∅ 1) as (_ & _ & Hrt).
  apply (Hrt [lit "b.example"; lit "a.example"; lit "b.example"]). vm_compute. reflexivity.
Defined.
