(* ===== verification/Identity.v ===== *)
(** * Identity primitives

    [auth/types.rs], [auth/language.rs], [auth/locale_hint.rs], [auth/org_rule.rs],
    and the pure helpers of [auth/pg_store.rs] and [http/routes/auth.rs]: the parsed
    names of the sign-in surface, the language picked from locale hints, the slug
    derived from a name, the return path of a login.  [to_lowercase] (the Unicode
    case mapping of the standard library's tables) and the [url] crate are
    parameters. *)

From Stdlib Require Import ZArith Lia Ascii String.
From stdpp Require Import base list strings sets.
From S2P Require Import Prelude Types Network.

(** How the database folds the case of a CITEXT value. *)
Class Citext := ci_fold : str → str.
Definition ci_eq `{Citext} (a b : str) : bool := bool_decide (ci_fold a = ci_fold b).

(** ** Roles and languages ([str_enum!]) *)

Inductive OrgRole := Owner | Admin | Member.
Inductive Language := En | Vi.
#[export] Instance OrgRole_eq_dec : EqDecision OrgRole.
Proof. solve_decision. Defined.
#[export] Instance Language_eq_dec : EqDecision Language.
Proof. solve_decision. Defined.

Definition OrgRole_as_str (r : OrgRole) : string :=
  match r with Owner => "owner" | Admin => "admin" | Member => "member" end.
Definition Language_as_str (l : Language) : string := match l with En => "en" | Vi => "vi" end.
#[export] Instance OrgRole_StrEnum : StrEnum OrgRole.
Proof. refine {| ALL := [Owner; Admin; Member]; as_str := OrgRole_as_str |}; abstract str_enum. Defined.
#[export] Instance Language_StrEnum : StrEnum Language.
Proof. refine {| ALL := [En; Vi]; as_str := Language_as_str |}; abstract str_enum. Defined.

Definition Language_DEFAULT : Language := En.

(** ** Parsed strings *)

Definition EMAIL_MAX_BYTES : nat := 320.
Definition EMAIL_MIN_BYTES : nat := 3.
Definition ORG_SLUG_MAX_BYTES : nat := 63.
Definition MAX_ORG_NAME_BYTES : nat := 200.
Definition MAX_ORG_RULE_BYTES : nat := 16 * 1024.
Definition DETECTED_LOCALE_MAX_LEN : nat := 32.
Definition INVITE_TOKEN_MIN_BYTES : nat := 43.
Definition INVITE_TOKEN_MAX_BYTES : nat := 64.
Definition PKCE_MIN_BYTES : nat := 43.
Definition PKCE_MAX_BYTES : nat := 128.
Definition OAUTH_STATE_MIN_BYTES : nat := 32.
Definition OAUTH_STATE_MAX_BYTES : nat := 128.
Definition OIDC_SUBJECT_MAX_BYTES : nat := 255.
Definition OIDC_NONCE_MIN_BYTES : nat := 1.
Definition OIDC_NONCE_MAX_BYTES : nat := 128.

Record Email := mkEmail { Email_as_str : str }.
Record OrgSlug := mkOrgSlug { OrgSlug_as_str : str }.
Record OrgName := mkOrgName { OrgName_as_str : str }.
Record OrganizationRule := mkOrganizationRule { OrganizationRule_as_str : str }.
Record LocaleHint := mkLocaleHint { LocaleHint_as_str : str }.
Record InviteToken := mkInviteToken { InviteToken_as_str : str }.
Record PkceVerifier := mkPkceVerifier { PkceVerifier_as_str : str }.
Record OAuthState := mkOAuthState { OAuthState_as_str : str }.
Record OidcSubject := mkOidcSubject { OidcSubject_as_str : str }.
Record OidcNonce := mkOidcNonce { OidcNonce_as_str : str }.
#[export] Instance Email_eq_dec : EqDecision Email.
Proof. solve_decision. Defined.
#[export] Instance OrgSlug_eq_dec : EqDecision OrgSlug.
Proof. solve_decision. Defined.
#[export] Instance InviteToken_eq_dec : EqDecision InviteToken.
Proof. solve_decision. Defined.

(** [trimmed.find('@')] *)
Definition Email_try_from (raw : str) : res ParseError Email :=
  let trimmed := trim raw in
  if is_empty trimmed then Err (Empty "email")
  else if str_len trimmed <? EMAIL_MIN_BYTES then Err (OutOfRange "email" "too short")
  else if EMAIL_MAX_BYTES <? str_len trimmed then Err (TooLong "email" EMAIL_MAX_BYTES (str_len trimmed))
  else
    k <-? ok_or (find_str (lit "@") trimmed) (Malformed "email" "missing @") ;
    let at_ := str_len (take k trimmed) in
    if (at_ =? 0) || (at_ =? str_len trimmed - 1)
    then Err (Malformed "email" "missing local or domain part")
    else Ok (mkEmail trimmed).

Definition is_ascii_lowercase (c : N) : bool := ((0x61 <=? c) && (c <=? 0x7a))%N.
Definition is_ascii_digit (c : N) : bool := ((0x30 <=? c) && (c <=? 0x39))%N.
Definition slug_head (c : N) : bool := is_ascii_lowercase c || is_ascii_digit c.
Definition slug_char (c : N) : bool := slug_head c || (c =? 0x2d)%N.

Definition OrgSlug_try_from (raw : str) : res ParseError OrgSlug :=
  if is_empty raw then Err (Empty "org_slug")
  else if ORG_SLUG_MAX_BYTES <? str_len raw then Err (TooLong "org_slug" ORG_SLUG_MAX_BYTES (str_len raw))
  else match raw with
       | [] => Err (Empty "org_slug")
       | first :: chars =>
           if negb (slug_head first) then Err (Malformed "org_slug" "must start with [a-z0-9]")
           else if negb (forallb slug_char chars)
           then Err (Malformed "org_slug" "only [a-z0-9-] after the first char")
           else Ok (mkOrgSlug raw)
       end.

Definition OrgName_try_from (raw : str) : res ParseError OrgName :=
  let trimmed := trim raw in
  if is_empty trimmed then Err (Empty "org_name")
  else if MAX_ORG_NAME_BYTES <? str_len trimmed
  then Err (TooLong "org_name" MAX_ORG_NAME_BYTES (str_len trimmed))
  else Ok (mkOrgName trimmed).

Definition OrganizationRule_try_from (raw : str) : res ParseError OrganizationRule :=
  let trimmed := trim raw in
  if is_empty trimmed then Err (Empty "organization_rule")
  else if MAX_ORG_RULE_BYTES <? str_len trimmed
  then Err (TooLong "organization_rule" MAX_ORG_RULE_BYTES (str_len trimmed))
  else Ok (mkOrganizationRule trimmed).

Definition LocaleHint_try_from (raw : str) : res ParseError LocaleHint :=
  if is_empty raw then Err (Empty "locale_hint")
  else if DETECTED_LOCALE_MAX_LEN <? str_len raw
  then Err (TooLong "locale_hint" DETECTED_LOCALE_MAX_LEN (str_len raw))
  else Ok (mkLocaleHint raw).

Definition url_safe_byte (c : N) : bool := is_ascii_alphanumeric c || (c =? 0x2d)%N || (c =? 0x5f)%N.
Definition unreserved_byte (c : N) : bool :=
  is_ascii_alphanumeric c || (c =? 0x2d)%N || (c =? 0x2e)%N || (c =? 0x5f)%N || (c =? 0x7e)%N.

Definition InviteToken_try_from (raw : str) : res ParseError InviteToken :=
  if str_len raw <? INVITE_TOKEN_MIN_BYTES then Err (Malformed "invite_token" "too short")
  else if INVITE_TOKEN_MAX_BYTES <? str_len raw
  then Err (TooLong "invite_token" INVITE_TOKEN_MAX_BYTES (str_len raw))
  else if negb (forallb url_safe_byte raw) then Err (Malformed "invite_token" "non-URL-safe character")
  else Ok (mkInviteToken raw).

Definition PkceVerifier_try_from (raw : str) : res ParseError PkceVerifier :=
  if str_len raw <? PKCE_MIN_BYTES
  then Err (Malformed "pkce_verifier" "shorter than RFC 7636 minimum (43)")
  else if PKCE_MAX_BYTES <? str_len raw then Err (TooLong "pkce_verifier" PKCE_MAX_BYTES (str_len raw))
  else if negb (forallb unreserved_byte raw) then Err (Malformed "pkce_verifier" "non-unreserved character")
  else Ok (mkPkceVerifier raw).

Definition OAuthState_try_from (raw : str) : res ParseError OAuthState :=
  if str_len raw <? OAUTH_STATE_MIN_BYTES then Err (Malformed "oauth_state" "too short")
  else if OAUTH_STATE_MAX_BYTES <? str_len raw
  then Err (TooLong "oauth_state" OAUTH_STATE_MAX_BYTES (str_len raw))
  else if negb (forallb unreserved_byte raw) then Err (Malformed "oauth_state" "non-URL-safe character")
  else Ok (mkOAuthState raw).

Definition OidcSubject_try_from (raw : str) : res ParseError OidcSubject :=
  if is_empty raw then Err (Empty "oidc_subject")
  else if OIDC_SUBJECT_MAX_BYTES <? str_len raw
  then Err (TooLong "oidc_subject" OIDC_SUBJECT_MAX_BYTES (str_len raw))
  else Ok (mkOidcSubject raw).

Definition OidcNonce_try_from (raw : str) : res ParseError OidcNonce :=
  if str_len raw <? OIDC_NONCE_MIN_BYTES then Err (Empty "oidc_nonce")
  else if OIDC_NONCE_MAX_BYTES <? str_len raw
  then Err (TooLong "oidc_nonce" OIDC_NONCE_MAX_BYTES (str_len raw))
  else Ok (mkOidcNonce raw).

Definition AVATAR_URL_MAX_BYTES : nat := 2048.
Record AvatarUrl := mkAvatarUrl { AvatarUrl_as_str : str }.

Definition AvatarUrl_try_from `{UrlParser} (raw : str) : res ParseError AvatarUrl :=
  if is_empty raw then Err (Empty "avatar.url")
  else if AVATAR_URL_MAX_BYTES <? str_len raw
  then Err (TooLong "avatar.url" AVATAR_URL_MAX_BYTES (str_len raw))
  else match url_parse raw with
       | inl _ => Err (Malformed "avatar.url" "must be a valid absolute url")
       | inr url =>
           if negb (bool_decide (url_scheme url = lit "http")) && negb (bool_decide (url_scheme url = lit "https"))
           then Err (Malformed "avatar.url" "must be http:// or https://")
           else if negb (bool_decide (is_Some (url_host url)))
           then Err (Malformed "avatar.url" "must have a host")
           else Ok (mkAvatarUrl raw)
       end.

(** ** Locale hints *)

(** [raw.split(seps)]: the pieces between separators. *)
Fixpoint split_on (sep : N → bool) (s : str) : list str :=
  match s with
  | [] => [[]]
  | c :: s' =>
      if sep c then [] :: split_on sep s'
      else match split_on sep s' with p :: ps => (c :: p) :: ps | [] => [[c]] end
  end.
(** [raw.split(seps).next()] *)
Definition split_first (sep : N → bool) (s : str) : str := default [] (head (split_on sep s)).

Definition tag_sep (c : N) : bool := (c =? 0x2d)%N || (c =? 0x5f)%N || (c =? 0x3b)%N.
Definition comma (c : N) : bool := (c =? 0x2c)%N.
Definition semicolon (c : N) : bool := (c =? 0x3b)%N.
Definition at_sign (c : N) : bool := (c =? 0x40)%N.

Definition primary_subtag (entry : str) : option str :=
  let primary := trim (split_first tag_sep entry) in
  if is_empty primary then None else Some (to_ascii_lowercase primary).

Definition parse_primary_tag (raw : str) : option Language := lower ← primary_subtag raw; parse lower.

(** [Iterator::find_map] *)
Fixpoint find_map {A B} (f : A → option B) (l : list A) : option B :=
  match l with
  | [] => None
  | x :: l' => match f x with Some y => Some y | None => find_map f l' end
  end.

Definition from_locale_hint (google accept_language : option str) : Language :=
  match g ← google; parse_primary_tag g with
  | Some lang => lang
  | None =>
      match raw ← accept_language;
            find_map parse_primary_tag (split_first semicolon ∘ trim <$> split_on comma raw) with
      | Some lang => lang
      | None => Language_DEFAULT
      end
  end.

Definition extract_primary_locale (raw : str) : option LocaleHint :=
  tag ← List.find (λ tag, match parse (A:=Language) tag with Some _ => true | None => false end)
          (omap (λ entry, primary_subtag (trim entry)) (split_on comma raw));
  res_ok (LocaleHint_try_from tag).

(** ** Slugs ([sanitize_slug]) *)

(** [str::to_lowercase] *)
Class Lowercase := to_lowercase : str → str.

Definition dash : N := 0x2d%N.

(** The loop: [out] is built backwards. *)
Fixpoint slug_loop (chars : str) (out : str) (last_dash : bool) : str :=
  match chars with
  | [] => out
  | ch :: chars' =>
      if slug_head ch then slug_loop chars' (ch :: out) false
      else if negb last_dash && negb (is_empty out) then slug_loop chars' (dash :: out) true
      else slug_loop chars' out last_dash
  end.

(** [while out.ends_with('-') { out.pop(); }], [out] being reversed. *)
Fixpoint pop_dashes (out : str) : str :=
  match out with c :: out' => if (c =? dash)%N then pop_dashes out' else out | [] => [] end.

Definition sanitize_slug `{Lowercase} (raw : str) : str :=
  let out := reverse (pop_dashes (slug_loop (to_lowercase raw) [] false)) in
  let out := if is_empty out then lit "org" else out in
  if 50 <? str_len out then reverse (pop_dashes (reverse (take 50 out))) else out.

(** ** Return paths ([sanitize_return_to]) *)

Definition sanitize_return_to (raw : str) : option str :=
  if starts_with (lit "/") raw && negb (starts_with (lit "//") raw) && (str_len raw <=? 2048)
  then Some raw else None.
