(* ===== verification/Orgs.v ===== *)
(** * Organisations, their members and their invitations

    [orgs/pg_store.rs] and [auth/pg_store.rs] on the six tables they share.  A
    statement is a function of the tables; an operation that commits before it
    decodes its row returns the committed tables with the error.  The role columns
    hold a role (their CHECK), so the asserts on [Role::parse] cannot trip.  The
    database's case folding of CITEXT, the digest, random bytes, the [uuid] and
    [url] crates are parameters. *)

From Stdlib Require Import ZArith Lia Ascii String.
From stdpp Require Import base list strings sets.
From S2P Require Import Prelude Program Types Network Tools Identity.

Abbreviation InviteId := N (only parsing).

(** ** Tables *)

Record UserRow := mkUserRow {
  us_id : UserId; us_email : str; us_display_name : option str; us_avatar_url : option str;
  us_created_at : Z; us_updated_at : Z }.
Record IdentityRow := mkIdentityRow {
  ui_user_id : UserId; ui_oidc_issuer : str; ui_oidc_subject : str; ui_email_at_link : str;
  ui_created_at : Z }.
Record OrgRow := mkOrgRow {
  og_id : OrgId; og_name : str; og_slug : str; og_default_language : Language;
  og_default_rule : option str; og_avatar_url : option str; og_onboarded_at : option Z;
  og_created_at : Z; og_updated_at : Z }.
Record OrgMemberRow := mkOrgMember {
  om_org_id : OrgId; om_user_id : UserId; om_role : OrgRole; om_created_at : Z }.
Record OrgInviteRow := mkInvite {
  iv_id : InviteId; iv_org_id : OrgId; iv_email : str; iv_role : OrgRole; iv_token_hash : str;
  iv_invited_by : UserId; iv_created_at : Z; iv_expires_at : Z; iv_consumed_at : option Z }.
Record OAuthStateRow := mkOAuthStateRow {
  os_state : str; os_pkce_verifier : str; os_nonce : str; os_redirect_to : option str;
  os_detected_locale : option str; os_created_at : Z; os_expires_at : Z }.

Record orgs := mkOrgs {
  users : list UserRow;
  user_identities : list IdentityRow;
  organizations : list OrgRow;
  org_members : list OrgMemberRow;
  org_invites : list OrgInviteRow;
  oauth_login_states : list OAuthStateRow }.

Definition set_users t s := mkOrgs t (user_identities s) (organizations s) (org_members s) (org_invites s) (oauth_login_states s).
Definition set_identities t s := mkOrgs (users s) t (organizations s) (org_members s) (org_invites s) (oauth_login_states s).
Definition set_organizations t s := mkOrgs (users s) (user_identities s) t (org_members s) (org_invites s) (oauth_login_states s).
Definition set_members t s := mkOrgs (users s) (user_identities s) (organizations s) t (org_invites s) (oauth_login_states s).
Definition set_invites t s := mkOrgs (users s) (user_identities s) (organizations s) (org_members s) t (oauth_login_states s).
Definition set_login_states t s := mkOrgs (users s) (user_identities s) (organizations s) (org_members s) (org_invites s) t.

(** A failure of the database: a unique index (code 23505), or anything else. *)
Inductive DbError := UniqueViolation (index : string) | OtherDb (msg : str).

Inductive AuthError :=
| Unauthenticated
| NotMember (o : OrgId)
| OAuthStateInvalid
| OAuthProvider (msg : str)
| DiscoveryFailed (msg : str)
| EmailUnverified
| Jwt (msg : str)
| AuthParse (e : ParseError)
| OrgLimitReached (max : Z)
| AuthDb (e : DbError)
| AuthInternal (msg : string)
| Misconfigured (msg : str).

Inductive OrgError :=
| SlugTaken
| LastOwnerProtected
| OrgNotFound
| InviteExpired
| InviteAlreadyConsumed
| InviteBatchTooLarge (max got : nat)
| OrgParse (e : ParseError)
| OrgAuth (e : AuthError)
| OrgDb (e : DbError).

#[export] Instance DbError_eq_dec : EqDecision DbError.
Proof. solve_decision. Defined.
#[export] Instance AuthError_eq_dec : EqDecision AuthError.
Proof. solve_decision. Defined.
#[export] Instance OrgError_eq_dec : EqDecision OrgError.
Proof. solve_decision. Defined.
#[export] Instance OrgMember_eq_dec : EqDecision OrgMemberRow.
Proof. solve_decision. Defined.
#[export] Instance OrgInvite_eq_dec : EqDecision OrgInviteRow.
Proof. solve_decision. Defined.

Abbreviation OTx := (Tx orgs OrgError).
Abbreviation UTx := (Tx orgs AuthError).

(** ** Reading rows *)

Definition org_row (org : OrgId) (s : orgs) : option OrgRow :=
  List.find (λ r, bool_decide (og_id r = org)) (organizations s).
Definition member_row (org : OrgId) (user : UserId) (s : orgs) : option OrgMemberRow :=
  List.find (λ r, bool_decide (om_org_id r = org) && bool_decide (om_user_id r = user)) (org_members s).
Definition user_row (user : UserId) (s : orgs) : option UserRow :=
  List.find (λ r, bool_decide (us_id r = user)) (users s).
Definition is_owner_of (org : OrgId) (r : OrgMemberRow) : bool :=
  bool_decide (om_org_id r = org) && bool_decide (om_role r = Owner).
Definition owners (org : OrgId) (s : orgs) : nat :=
  length (filter (λ r, is_owner_of org r = true) (org_members s)).

(** [Option<String>.map(T::try_from).transpose()] *)
Definition transpose_opt {E A B} (f : A → res E B) (o : option A) : res E (option B) :=
  match o with None => Ok None | Some a => b <-? f a ; Ok (Some b) end.

Record OrgDetails := mkOrgDetails {
  od_id : OrgId; od_name : str; od_slug : OrgSlug; od_default_language : Language;
  od_default_rule : option OrganizationRule; od_created_at : Z; od_member_count : Z;
  od_avatar_url : option AvatarUrl; od_onboarded : bool }.

Definition fetch_org_details_priv `{UrlParser} (org : OrgId) (s : orgs) : res OrgError OrgDetails :=
  row <-? ok_or (org_row org s) OrgNotFound ;
  slug <-? res_map_err OrgParse (OrgSlug_try_from (og_slug row)) ;
  rule <-? res_map_err OrgParse (transpose_opt OrganizationRule_try_from (og_default_rule row)) ;
  avatar <-? res_map_err OrgParse (transpose_opt AvatarUrl_try_from (og_avatar_url row)) ;
  Ok (mkOrgDetails (og_id row) (og_name row) slug (og_default_language row) rule (og_created_at row)
        (Z.of_nat (length (filter (λ m, om_org_id m = org) (org_members s)))) avatar
        (bool_decide (is_Some (og_onboarded_at row)))).

Definition read_org `{UrlParser} (org : OrgId) (s : orgs) : res OrgError OrgDetails :=
  fetch_org_details_priv org s.

(** ** The organisation row *)

(** The CHECKs of [organizations]. *)
Definition org_checks (r : OrgRow) : bool :=
  (1 <=? str_len (og_name r)) && (str_len (og_name r) <=? 200)
  && is_ok (OrgSlug_try_from (og_slug r))
  && match og_avatar_url r with None => true | Some a => str_len a <=? 2048 end
  && match og_default_rule r with
     | None => true
     | Some b => (str_len b <=? 16384) && existsb (λ c, negb (c =? 0x20)%N) b
     end.

(** [UPDATE organizations SET f WHERE id = org]: the number of rows. *)
Definition update_orgs `{Citext} {E} (db : DbError → E) (org : OrgId) (f : OrgRow → OrgRow) : Tx orgs E nat := λ s,
  match org_row org s with
  | None => Ok (0, s)
  | Some r =>
      if negb (org_checks (f r)) then Err (db (OtherDb (lit "check constraint")))
      else if existsb (λ r', negb (bool_decide (og_id r' = org)) && ci_eq (og_slug r') (og_slug (f r)))
                (organizations s)
      then Err (db (UniqueViolation "organizations_slug_key"))
      else Ok (1, set_organizations (update_where (λ r, og_id r = org) f (organizations s)) s)
  end.

Record OrgUpdate := mkOrgUpdate {
  up_name : option OrgName; up_slug : option OrgSlug; up_mark_onboarded : bool }.

Definition patch_row (patch : OrgUpdate) (now : Z) (r : OrgRow) : OrgRow :=
  mkOrgRow (og_id r)
    (match up_name patch with Some n => OrgName_as_str n | None => og_name r end)
    (match up_slug patch with Some n => OrgSlug_as_str n | None => og_slug r end)
    (og_default_language r) (og_default_rule r) (og_avatar_url r)
    (if up_mark_onboarded patch
     then Some (match og_onboarded_at r with Some t => t | None => now end)
     else og_onboarded_at r)
    (og_created_at r) now.

Definition slug_taken (e : OrgError) : OrgError :=
  match e with OrgDb (UniqueViolation _) => SlugTaken | e => e end.

Definition update_org_tx `{Citext, UrlParser} (org : OrgId) (patch : OrgUpdate) (now : Z) : OTx OrgDetails :=
  if negb (bool_decide (is_Some (up_name patch))) && negb (bool_decide (is_Some (up_slug patch)))
     && negb (up_mark_onboarded patch)
  then λ s, d <-? read_org org s ; Ok (d, s)
  else
    (λ s, res_map_err slug_taken (update_orgs OrgDb org (patch_row patch now) s)) ;;$
    λ s, d <-? fetch_org_details_priv org s ; Ok (d, s).

Definition set_org_avatar_tx `{Citext} (org : OrgId) (avatar : option AvatarUrl) (now : Z) : OTx unit :=
  rows <-$ update_orgs OrgDb org (λ r,
    mkOrgRow (og_id r) (og_name r) (og_slug r) (og_default_language r) (og_default_rule r)
      (AvatarUrl_as_str <$> avatar) (og_onboarded_at r) (og_created_at r) now) ;
  if rows =? 0 then terr OrgNotFound else tret tt.

(** The row and what the foreign keys cascade to in these tables. *)
Definition delete_org_tx (org : OrgId) : OTx unit := λ s,
  let rows := length (filter (λ r, og_id r = org) (organizations s)) in
  let s' := mkOrgs (users s) (user_identities s)
              (filter (λ r, og_id r ≠ org) (organizations s))
              (filter (λ r, om_org_id r ≠ org) (org_members s))
              (filter (λ r, iv_org_id r ≠ org) (org_invites s)) (oauth_login_states s) in
  if 1 <? rows then Panic "organizations.id is unique; delete touched >1 row"
  else if rows =? 0 then Err OrgNotFound
  else Ok (tt, s').

(** ** Members *)

Definition last_owner_guard (org : OrgId) (user : UserId) (new_role : option OrgRole) (s : orgs)
    : res OrgError unit :=
  match om_role <$> member_row org user s with
  | None => Err OrgNotFound
  | Some current =>
      if negb (bool_decide (current = Owner)) then Ok tt
      else if bool_decide (new_role = Some Owner) then Ok tt
      else if owners org s <=? 1 then Err LastOwnerProtected
      else Ok tt
  end.

Definition is_member_of (org : OrgId) (user : UserId) (r : OrgMemberRow) : Prop :=
  om_org_id r = org ∧ om_user_id r = user.
#[export] Instance is_member_of_dec org user r : Decision (is_member_of org user r).
Proof. unfold is_member_of. apply _. Defined.

Definition with_role (role : OrgRole) (r : OrgMemberRow) : OrgMemberRow :=
  mkOrgMember (om_org_id r) (om_user_id r) role (om_created_at r).

(** The UPDATE and the DELETE that follow the guard, with their row counts. *)
Definition change_role_write (org : OrgId) (user : UserId) (role : OrgRole) : OTx unit := λ s,
  if length (filter (is_member_of org user) (org_members s)) =? 0 then Err OrgNotFound
  else Ok (tt, set_members (update_where (is_member_of org user) (with_role role) (org_members s)) s).
Definition remove_member_write (org : OrgId) (user : UserId) : OTx unit := λ s,
  if length (filter (is_member_of org user) (org_members s)) =? 0 then Err OrgNotFound
  else Ok (tt, set_members (filter (λ r, ¬ is_member_of org user r) (org_members s)) s).

Definition change_role_tx (org : OrgId) (user : UserId) (role : OrgRole) : OTx unit :=
  (λ s, last_owner_guard org user (Some role) s ;;? Ok (tt, s)) ;;$ change_role_write org user role.
Definition remove_member_tx (org : OrgId) (user : UserId) : OTx unit :=
  (λ s, last_owner_guard org user None s ;;? Ok (tt, s)) ;;$ remove_member_write org user.

Definition org_exists (org : OrgId) (s : orgs) : bool := bool_decide (is_Some (org_row org s)).
Definition user_exists (user : UserId) (s : orgs) : bool := bool_decide (is_Some (user_row user s)).

(** [INSERT INTO org_members ... ON CONFLICT (org_id, user_id) DO NOTHING]; the
    no-op DO UPDATE of accept_invite leaves the same rows. *)
Definition insert_member {E} (db : DbError → E) (org : OrgId) (user : UserId) (role : OrgRole) (now : Z)
    : Tx orgs E unit := λ s,
  match member_row org user s with
  | Some _ => Ok (tt, s)
  | None =>
      if negb (org_exists org s) || negb (user_exists user s) then Err (db (OtherDb (lit "foreign key")))
      else Ok (tt, set_members (org_members s ++ [mkOrgMember org user role now]) s)
  end.

(** ** Invitations *)

Definition MAX_INVITE_BATCH : nat := 25.
(** Seven days, in microseconds like every time of the tables. *)
Definition INVITE_TTL : Z := 7 * 24 * 3600 * 1000000.

Definition hash_token `{Sha256} (token : InviteToken) : str := sha256 (InviteToken_as_str token).

(** [encoded]: the URL-safe base64 of 32 random bytes. *)
Definition mint_token {E} (encoded : str) : res E InviteToken :=
  match InviteToken_try_from encoded with
  | Ok t => Ok t
  | _ => Panic "invariant: 32-byte random encodes to URL_SAFE_NO_PAD within InviteToken bounds"
  end.

Record IssuedInvite := mkIssued {
  ii_invite_id : InviteId; ii_email : Email; ii_role : OrgRole; ii_token : InviteToken; ii_expires_at : Z }.

Definition pending_at `{Citext} (org : OrgId) (email : str) (r : OrgInviteRow) : bool :=
  bool_decide (iv_org_id r = org) && ci_eq (iv_email r) email && bool_decide (iv_consumed_at r = None).

(** The unique index on the token hash, for a row of id [id]. *)
Definition hash_in_use (id : InviteId) (hash : str) (s : orgs) : bool :=
  existsb (λ r, negb (bool_decide (iv_id r = id)) && bool_decide (iv_token_hash r = hash)) (org_invites s).

(** [INSERT ... ON CONFLICT (org_id, email) WHERE consumed_at IS NULL DO UPDATE
    ... RETURNING id] *)
Definition upsert_invite `{Citext} (new : OrgInviteRow) : OTx InviteId := λ s,
  match List.find (pending_at (iv_org_id new) (iv_email new)) (org_invites s) with
  | Some old =>
      if hash_in_use (iv_id old) (iv_token_hash new) s
      then Err (OrgDb (UniqueViolation "org_invites_token_hash_idx"))
      else if negb (user_exists (iv_invited_by new) s) then Err (OrgDb (OtherDb (lit "foreign key")))
      else Ok (iv_id old, set_invites (update_where (λ r, iv_id r = iv_id old)
             (λ r, mkInvite (iv_id r) (iv_org_id r) (iv_email r) (iv_role new) (iv_token_hash new)
                     (iv_invited_by new) (iv_created_at new) (iv_expires_at new) (iv_consumed_at r))
             (org_invites s)) s)
  | None =>
      if negb ((3 <=? str_len (iv_email new)) && (str_len (iv_email new) <=? 320)
               && (length (iv_token_hash new) =? 32))
      then Err (OrgDb (OtherDb (lit "check constraint")))
      else if bool_decide (iv_id new ∈ iv_id <$> org_invites s)
      then Err (OrgDb (UniqueViolation "org_invites_pkey"))
      else if hash_in_use (iv_id new) (iv_token_hash new) s
      then Err (OrgDb (UniqueViolation "org_invites_token_hash_idx"))
      else if negb (org_exists (iv_org_id new) s) || negb (user_exists (iv_invited_by new) s)
      then Err (OrgDb (OtherDb (lit "foreign key")))
      else Ok (iv_id new, set_invites (org_invites s ++ [new]) s)
  end.

(** What the two random sources give for the [n]-th invitation of a batch. *)
Record InviteEntropy := mkInviteEntropy { ie_id : nat → InviteId; ie_encoded : nat → str }.

Fixpoint issue_invites `{Citext, Sha256} (rnd : InviteEntropy) (org : OrgId) (emails : list Email)
    (role : OrgRole) (invited_by : UserId) (now expires_at : Z) (n : nat) : OTx (list IssuedInvite) :=
  match emails with
  | [] => tret []
  | email :: emails' =>
      token <-$ tlift (mint_token (ie_encoded rnd n)) ;
      id <-$ upsert_invite (mkInvite (ie_id rnd n) org (Email_as_str email) role (hash_token token)
                              invited_by now expires_at None) ;
      rest <-$ issue_invites rnd org emails' role invited_by now expires_at (S n) ;
      tret (mkIssued id email role token expires_at :: rest)
  end.

Definition create_invites_tx `{Citext, Sha256} (rnd : InviteEntropy) (org : OrgId) (emails : list Email)
    (role : OrgRole) (invited_by : UserId) (now ttl : Z) : OTx (list IssuedInvite) :=
  if MAX_INVITE_BATCH <? length emails then terr (InviteBatchTooLarge MAX_INVITE_BATCH (length emails))
  else issue_invites rnd org emails role invited_by now (now + ttl)%Z 0.

Definition is_invite (id : InviteId) (r : OrgInviteRow) : bool := bool_decide (iv_id r = id).
Definition invite_row (id : InviteId) (s : orgs) : option OrgInviteRow :=
  List.find (is_invite id) (org_invites s).

(** Commits before it decodes the row it returns. *)
Definition resend_invite `{Sha256} (encoded : str) (org : OrgId) (id : InviteId) (now ttl : Z) (s : orgs)
    : res OrgError IssuedInvite * orgs :=
  match mint_token encoded with
  | Ok token =>
      match invite_row id s with
      | Some r =>
          if negb (bool_decide (iv_org_id r = org)) || negb (bool_decide (iv_consumed_at r = None))
          then (Err OrgNotFound, s)
          else if hash_in_use id (hash_token token) s
          then (Err (OrgDb (UniqueViolation "org_invites_token_hash_idx")), s)
          else
            (email <-? res_map_err OrgParse (Email_try_from (iv_email r)) ;
             Ok (mkIssued id email (iv_role r) token (now + ttl)%Z),
             set_invites (update_where (λ r, iv_id r = id)
               (λ r, mkInvite (iv_id r) (iv_org_id r) (iv_email r) (iv_role r) (hash_token token)
                       (iv_invited_by r) now (now + ttl)%Z (iv_consumed_at r)) (org_invites s)) s)
      | None => (Err OrgNotFound, s)
      end
  | Err e => (Err e, s)
  | Panic m => (Panic m, s)
  end.

Definition revoke_invite_tx (org : OrgId) (id : InviteId) : OTx unit := λ s,
  let hit r := bool_decide (iv_id r = id) && bool_decide (iv_org_id r = org) in
  if negb (existsb hit (org_invites s)) then Err OrgNotFound
  else Ok (tt, set_invites (filter (λ r, hit r = false) (org_invites s)) s).

(** [UPDATE org_invites SET consumed_at = now WHERE id AND consumed_at IS NULL
    RETURNING id] *)
Definition claim_invite (id : InviteId) (now : Z) : OTx (option InviteId) := λ s,
  match invite_row id s with
  | Some r =>
      if bool_decide (iv_consumed_at r = None)
      then Ok (Some id, set_invites (update_where (λ r, iv_id r = id)
             (λ r, mkInvite (iv_id r) (iv_org_id r) (iv_email r) (iv_role r) (iv_token_hash r)
                     (iv_invited_by r) (iv_created_at r) (iv_expires_at r) (Some now))
             (org_invites s)) s)
      else Ok (None, s)
  | None => Ok (None, s)
  end.

(** The pending invitations of an address, oldest first, and the loop over them. *)
Definition join_lookup `{Citext} (email : Email) (now : Z) (s : orgs) : list OrgInviteRow :=
  sort_by iv_created_at
    (filter (λ r, ci_eq (iv_email r) (Email_as_str email) && bool_decide (iv_consumed_at r = None)
                  && (now <? iv_expires_at r)%Z = true) (org_invites s)).

Fixpoint join_claims (user : UserId) (rows : list OrgInviteRow) (now : Z) (active : option OrgId)
    : OTx (option OrgId) :=
  match rows with
  | [] => tret active
  | row :: rows' =>
      claimed <-$ claim_invite (iv_id row) now ;
      match claimed with
      | None => join_claims user rows' now active
      | Some _ =>
          insert_member OrgDb (iv_org_id row) user (iv_role row) now ;;$
          join_claims user rows' now (match active with None => Some (iv_org_id row) | a => a end)
      end
  end.

Definition join_pending_invites_tx `{Citext} (user : UserId) (email : Email) (now : Z) : OTx (option OrgId) := λ s,
  join_claims user (join_lookup email now s) now None s.

Record AcceptedInvite := mkAccepted { ac_org_id : OrgId; ac_role : OrgRole }.

Definition accept_lookup `{Sha256} (token : InviteToken) (now : Z) (s : orgs) : res OrgError OrgInviteRow :=
  match List.find (λ r, bool_decide (iv_token_hash r = hash_token token)) (org_invites s) with
  | None => Err OrgNotFound
  | Some row =>
      if bool_decide (is_Some (iv_consumed_at row)) then Err InviteAlreadyConsumed
      else if (iv_expires_at row <=? now)%Z then Err InviteExpired
      else Ok row
  end.

Definition accept_claim (user : UserId) (row : OrgInviteRow) (now : Z) : OTx AcceptedInvite :=
  claimed <-$ claim_invite (iv_id row) now ;
  match claimed with
  | None => terr InviteAlreadyConsumed
  | Some _ =>
      insert_member OrgDb (iv_org_id row) user (iv_role row) now ;;$
      λ s, match member_row (iv_org_id row) user s with
           | Some m => Ok (mkAccepted (iv_org_id row) (om_role m), s)
           | None => Err (OrgDb (OtherDb (lit "no row returned")))
           end
  end.

Definition accept_invite_tx `{Sha256} (user : UserId) (token : InviteToken) (now : Z) : OTx AcceptedInvite := λ s,
  row <-? accept_lookup token now s ; accept_claim user row now s.

(** ** Users and sign-in *)

Record OidcProfile := mkProfile {
  op_issuer : str; op_subject : OidcSubject; op_email : Email; op_email_verified : bool;
  op_display_name : option str; op_avatar_url : option AvatarUrl; op_locale : option LocaleHint }.
Record User := mkUser {
  u_id : UserId; u_email : Email; u_display_name : option str; u_avatar_url : option AvatarUrl }.
Record UpsertedUser := mkUpserted { uu_user : User; uu_is_new_user : bool }.
Record NewOrg := mkNewOrg {
  no_id : OrgId; no_slug : str; no_name : str; no_default_language : Language }.
Record OrgMembership := mkMembership {
  ms_org_id : OrgId; ms_org_name : str; ms_org_slug : OrgSlug; ms_role : OrgRole;
  ms_default_language : Language; ms_default_rule : option OrganizationRule;
  ms_avatar_url : option AvatarUrl; ms_onboarded : bool }.

Definition identity_user (issuer subject : str) (s : orgs) : option UserId :=
  ui_user_id <$> List.find (λ r, bool_decide (ui_oidc_issuer r = issuer)
                                 && bool_decide (ui_oidc_subject r = subject)) (user_identities s).

(** The CHECKs of [users], and its unique e-mail. *)
Definition user_checks (r : UserRow) : bool :=
  (3 <=? str_len (us_email r)) && (str_len (us_email r) <=? 320)
  && match us_display_name r with None => true | Some n => str_len n <=? 200 end
  && match us_avatar_url r with None => true | Some a => str_len a <=? 2048 end.
Definition email_in_use `{Citext} (id : UserId) (email : str) (s : orgs) : bool :=
  existsb (λ r, negb (bool_decide (us_id r = id)) && ci_eq (us_email r) email) (users s).

Definition profile_row (id : UserId) (p : OidcProfile) (created now : Z) : UserRow :=
  mkUserRow id (Email_as_str (op_email p)) (op_display_name p) (AvatarUrl_as_str <$> op_avatar_url p)
    created now.

Definition write_user `{Citext} (id : UserId) (p : OidcProfile) (now : Z) : UTx unit := λ s,
  let row := profile_row id p now now in
  if negb (user_checks row) then Err (AuthDb (OtherDb (lit "check constraint")))
  else if email_in_use id (us_email row) s then Err (AuthDb (UniqueViolation "users_email_key"))
  else match user_row id s with
       | Some _ => Ok (tt, set_users (update_where (λ r, us_id r = id)
                          (λ r, profile_row id p (us_created_at r) now) (users s)) s)
       | None => Ok (tt, set_users (users s ++ [row]) s)
       end.

Definition insert_identity (id : UserId) (p : OidcProfile) (now : Z) : UTx unit := λ s,
  Ok (tt, set_identities (user_identities s ++
       [mkIdentityRow id (op_issuer p) (OidcSubject_as_str (op_subject p)) (Email_as_str (op_email p)) now]) s).

Definition decode_user `{UrlParser} (r : UserRow) : res AuthError User :=
  email <-? res_map_err AuthParse (Email_try_from (us_email r)) ;
  avatar <-? res_map_err AuthParse (transpose_opt AvatarUrl_try_from (us_avatar_url r)) ;
  Ok (mkUser (us_id r) email (us_display_name r) avatar).

(** [candidate]: the fresh id.  An identity whose user is gone updates nothing and
    finds no row to read back. *)
Definition upsert_write `{Citext} (candidate : UserId) (p : OidcProfile) (now : Z) : UTx (UserRow * bool) :=
  existing <-$ tget (identity_user (op_issuer p) (OidcSubject_as_str (op_subject p))) ;
  id_new <-$ match existing with
             | Some uid =>
                 (λ s, if user_exists uid s then write_user uid p now s else Ok (tt, s)) ;;$ tret (uid, false)
             | None => write_user candidate p now ;;$ insert_identity candidate p now ;;$ tret (candidate, true)
             end ;
  row <-$ tget (user_row id_new.1) ;
  match row with
  | Some r => tret (r, id_new.2)
  | None => terr (AuthDb (OtherDb (lit "row not found")))
  end.

Definition upsert_from_oidc `{Citext, UrlParser} (candidate : UserId) (p : OidcProfile) (now : Z) (s : orgs)
    : res AuthError UpsertedUser * orgs :=
  match trun (upsert_write candidate p now) s with
  | (Ok (r, is_new), s') => (u <-? decode_user r ; Ok (mkUpserted u is_new), s')
  | (Err e, s') => (Err e, s')
  | (Panic m, s') => (Panic m, s')
  end.

(** ** Creating an organisation *)

Definition insert_org_and_owner `{Citext} (id : OrgId) (user : UserId) (slug name : str)
    (language : Language) (now : Z) : UTx unit :=
  (λ s, let row := mkOrgRow id name slug language None None None now now in
        if negb (org_checks row) then Err (AuthDb (OtherDb (lit "check constraint")))
        else if org_exists id s then Err (AuthDb (UniqueViolation "organizations_pkey"))
        else if existsb (λ r, ci_eq (og_slug r) slug) (organizations s)
        then Err (AuthDb (UniqueViolation "organizations_slug_key"))
        else Ok (tt, set_organizations (organizations s ++ [row]) s)) ;;$
  (λ s, if bool_decide (is_Some (member_row id user s))
        then Err (AuthDb (UniqueViolation "org_members_pkey")) else Ok (tt, s)) ;;$
  insert_member AuthDb id user Owner now.

Definition owned (user : UserId) (s : orgs) : Z :=
  Z.of_nat (length (filter (λ r, om_user_id r = user ∧ om_role r = Owner) (org_members s))).

Definition MAX_ORGS_PER_USER : Z := 1.
Definition MAX_SLUG_RETRIES : nat := 5.

(** Under the advisory lock of the user, so with no other creation between the
    count and the insert. *)
Definition try_insert_org_tx `{Citext} (id : OrgId) (user : UserId) (slug name : str) (language : Language)
    (cap : option Z) (now : Z) : UTx NewOrg :=
  match cap with
  | Some cap =>
      tlift (rassert (0 <? cap)%Z "org cap must be positive") ;;$
      count <-$ tget (owned user) ;
      if (cap <=? count)%Z then terr (OrgLimitReached cap) else tret tt
  | None => tret tt
  end ;;$
  insert_org_and_owner id user slug name language now ;;$
  tret (mkNewOrg id slug name language).

(** Under the bootstrap lock. *)
Definition bootstrap_initial_org_as_owner_tx `{Citext, Lowercase} (id : OrgId) (user : UserId)
    (suggested_slug name : str) (language : Language) (now : Z) : UTx (option NewOrg) :=
  count <-$ tget (λ s, length (organizations s)) ;
  if 0 <? count then tret None
  else
    slug <-$ tlift (res_map_err AuthParse (OrgSlug_try_from (sanitize_slug suggested_slug))) ;
    insert_org_and_owner id user (OrgSlug_as_str slug) name language now ;;$
    tret (Some (mkNewOrg id (OrgSlug_as_str slug) name language)).

(** ** Reads and single-column writes *)

Definition membership (user : UserId) (org : OrgId) (s : orgs) : option OrgRole :=
  om_role <$> member_row org user s.

Definition decode_membership `{UrlParser} (p : OrgMemberRow * OrgRow) : res AuthError OrgMembership :=
  let r := p.2 in
  rule <-? res_map_err AuthParse (transpose_opt OrganizationRule_try_from (og_default_rule r)) ;
  slug <-? res_map_err AuthParse (OrgSlug_try_from (og_slug r)) ;
  avatar <-? res_map_err AuthParse (transpose_opt AvatarUrl_try_from (og_avatar_url r)) ;
  Ok (mkMembership (og_id r) (og_name r) slug (om_role p.1) (og_default_language r) rule avatar
        (bool_decide (is_Some (og_onboarded_at r)))).

(** [.collect::<Result<Vec<_>, _>>()] *)
Fixpoint collect_res {E A B} (f : A → res E B) (l : list A) : res E (list B) :=
  match l with
  | [] => Ok []
  | x :: l' => y <-? f x ; ys <-? collect_res f l' ; Ok (y :: ys)
  end.

Definition user_org_rows (user : UserId) (s : orgs) : list (OrgMemberRow * OrgRow) :=
  sort_by (λ p, og_created_at p.2)
    (omap (λ m, if bool_decide (om_user_id m = user) then pair m <$> org_row (om_org_id m) s else None)
       (org_members s)).

Definition list_user_orgs `{UrlParser} (user : UserId) (s : orgs) : res AuthError (list OrgMembership) :=
  collect_res decode_membership (user_org_rows user s).

Definition read_user `{UrlParser} (user : UserId) (s : orgs) : res AuthError (option User) :=
  match user_row user s with None => Ok None | Some r => u <-? decode_user r ; Ok (Some u) end.

Definition read_org_language (org : OrgId) (s : orgs) : res AuthError Language :=
  ok_or (og_default_language <$> org_row org s) (AuthInternal "org not found for default_language read").
Definition set_org_language_tx `{Citext} (org : OrgId) (language : Language) (now : Z) : UTx Language :=
  rows <-$ update_orgs AuthDb org (λ r,
    mkOrgRow (og_id r) (og_name r) (og_slug r) language (og_default_rule r) (og_avatar_url r)
      (og_onboarded_at r) (og_created_at r) now) ;
  if rows =? 0 then terr (AuthInternal "org not found for default_language write") else tret language.

Definition read_org_rule (org : OrgId) (s : orgs) : res AuthError (option OrganizationRule) :=
  row <-? ok_or (org_row org s) (AuthInternal "org not found for default_rule read") ;
  res_map_err AuthParse (transpose_opt OrganizationRule_try_from (og_default_rule row)).
(** Commits before it decodes the value it returns. *)
Definition set_org_rule `{Citext} (org : OrgId) (rule : option OrganizationRule) (now : Z) (s : orgs)
    : res AuthError (option OrganizationRule) * orgs :=
  match trun (update_orgs AuthDb org (λ r,
    mkOrgRow (og_id r) (og_name r) (og_slug r) (og_default_language r) (OrganizationRule_as_str <$> rule)
      (og_avatar_url r) (og_onboarded_at r) (og_created_at r) now)) s with
  | (Ok rows, s') =>
      (if rows =? 0 then Err (AuthInternal "org not found for default_rule write")
       else res_map_err AuthParse
              (transpose_opt (OrganizationRule_try_from ∘ OrganizationRule_as_str) rule), s')
  | (Err e, s') => (Err e, s')
  | (Panic m, s') => (Panic m, s')
  end.

(** Commits before it looks at the number of rows. *)
Definition set_user_avatar (user : UserId) (avatar : option AvatarUrl) (now : Z) (s : orgs)
    : res AuthError unit * orgs :=
  (if user_exists user s then Ok tt else Err Unauthenticated,
   set_users (update_where (λ r, us_id r = user)
     (λ r, mkUserRow (us_id r) (us_email r) (us_display_name r) (AvatarUrl_as_str <$> avatar)
             (us_created_at r) now) (users s)) s).

(** ** Login states *)

Definition login_state_checks (r : OAuthStateRow) : bool :=
  (32 <=? str_len (os_state r)) && (str_len (os_state r) <=? 128)
  && (32 <=? str_len (os_pkce_verifier r)) && (str_len (os_pkce_verifier r) <=? 128)
  && (1 <=? str_len (os_nonce r)) && (str_len (os_nonce r) <=? 128)
  && match os_redirect_to r with None => true | Some p => str_len p <=? 2048 end
  && match os_detected_locale r with None => true | Some l => str_len l <=? 32 end.

Definition insert_oauth_state_tx (row : OAuthStateRow) : UTx unit := λ s,
  if negb (login_state_checks row) then Err (AuthDb (OtherDb (lit "check constraint")))
  else if bool_decide (os_state row ∈ os_state <$> oauth_login_states s)
  then Err (AuthDb (UniqueViolation "oauth_login_states_pkey"))
  else Ok (tt, set_login_states (oauth_login_states s ++ [row]) s).

Record ConsumedOAuthState := mkConsumed {
  co_pkce_verifier : PkceVerifier; co_nonce : OidcNonce; co_redirect_to : option str;
  co_detected_locale : option LocaleHint }.

Definition decode_login_state (r : OAuthStateRow) : res AuthError ConsumedOAuthState :=
  locale <-? res_map_err AuthParse (transpose_opt LocaleHint_try_from (os_detected_locale r)) ;
  pkce <-? res_map_err AuthParse (PkceVerifier_try_from (os_pkce_verifier r)) ;
  nonce <-? res_map_err AuthParse (OidcNonce_try_from (os_nonce r)) ;
  Ok (mkConsumed pkce nonce (os_redirect_to r) locale).

(** Both DELETEs commit, then the row is decoded. *)
Definition consume_oauth_state (state : OAuthState) (now : Z) (s : orgs)
    : res AuthError ConsumedOAuthState * orgs :=
  let hit r := bool_decide (os_state r = OAuthState_as_str state) && (now <? os_expires_at r)%Z in
  let row := List.find hit (oauth_login_states s) in
  let rest := filter (λ r, hit r = false) (oauth_login_states s) in
  (r <-? ok_or row OAuthStateInvalid ; decode_login_state r,
   set_login_states (filter (λ r, (now < os_expires_at r)%Z) rest) s).

(** ** The operations that write *)

Inductive OrgOp :=
| UpdateOrg (org : OrgId) (patch : OrgUpdate) (now : Z)
| SetOrgAvatar (org : OrgId) (avatar : option AvatarUrl) (now : Z)
| SetOrgLanguage (org : OrgId) (language : Language) (now : Z)
| SetOrgRule (org : OrgId) (rule : option OrganizationRule) (now : Z)
| DeleteOrg (org : OrgId)
| ChangeRole (org : OrgId) (user : UserId) (role : OrgRole)
| RemoveMember (org : OrgId) (user : UserId)
| CreateInvites (rnd : InviteEntropy) (org : OrgId) (emails : list Email) (role : OrgRole)
    (invited_by : UserId) (now ttl : Z)
| ResendInvite (encoded : str) (org : OrgId) (id : InviteId) (now ttl : Z)
| RevokeInvite (org : OrgId) (id : InviteId)
| JoinPendingInvites (user : UserId) (email : Email) (now : Z)
| AcceptInvite (user : UserId) (token : InviteToken) (now : Z)
| UpsertFromOidc (candidate : UserId) (p : OidcProfile) (now : Z)
| TryInsertOrg (id : OrgId) (user : UserId) (slug name : str) (language : Language) (cap : option Z) (now : Z)
| BootstrapOrg (id : OrgId) (user : UserId) (suggested_slug name : str) (language : Language) (now : Z)
| LinkMember (org : OrgId) (user : UserId) (now : Z)
| SetUserAvatar (user : UserId) (avatar : option AvatarUrl) (now : Z)
| InsertOAuthState (row : OAuthStateRow)
| ConsumeOAuthState (state : OAuthState) (now : Z).

Definition run_op `{Citext, Sha256, Lowercase, UrlParser} (op : OrgOp) (s : orgs) : orgs :=
  match op with
  | UpdateOrg org patch now => (trun (update_org_tx org patch now) s).2
  | SetOrgAvatar org avatar now => (trun (set_org_avatar_tx org avatar now) s).2
  | SetOrgLanguage org language now => (trun (set_org_language_tx org language now) s).2
  | SetOrgRule org rule now => (set_org_rule org rule now s).2
  | DeleteOrg org => (trun (delete_org_tx org) s).2
  | ChangeRole org user role => (trun (change_role_tx org user role) s).2
  | RemoveMember org user => (trun (remove_member_tx org user) s).2
  | CreateInvites rnd org emails role by_ now ttl => (trun (create_invites_tx rnd org emails role by_ now ttl) s).2
  | ResendInvite encoded org id now ttl => (resend_invite encoded org id now ttl s).2
  | RevokeInvite org id => (trun (revoke_invite_tx org id) s).2
  | JoinPendingInvites user email now => (trun (join_pending_invites_tx user email now) s).2
  | AcceptInvite user token now => (trun (accept_invite_tx user token now) s).2
  | UpsertFromOidc candidate p now => (upsert_from_oidc candidate p now s).2
  | TryInsertOrg id user slug name language cap now =>
      (trun (try_insert_org_tx id user slug name language cap now) s).2
  | BootstrapOrg id user slug name language now =>
      (trun (bootstrap_initial_org_as_owner_tx id user slug name language now) s).2
  | LinkMember org user now => (trun (insert_member OrgDb org user Member now) s).2
  | SetUserAvatar user avatar now => (set_user_avatar user avatar now s).2
  | InsertOAuthState row => (trun (insert_oauth_state_tx row) s).2
  | ConsumeOAuthState state now => (consume_oauth_state state now s).2
  end.

Definition empty_orgs : orgs := mkOrgs [] [] [] [] [] [].

(** ** Interleaving

    Between the reads of a transaction and its first write others may commit.  The
    write locks its row until the commit, so what follows it takes effect at once. *)

Inductive OpenTx :=
| OpenChange (org : OrgId) (user : UserId) (role : OrgRole)
| OpenRemove (org : OrgId) (user : UserId)
| OpenAccept (user : UserId) (row : OrgInviteRow) (now : Z)
| OpenJoin (user : UserId) (rows : list OrgInviteRow) (now : Z).

(** The reads let the transaction go on to its writes. *)
Inductive opens `{Citext, Sha256} (s : orgs) : OpenTx → Prop :=
| opens_change org user role : last_owner_guard org user (Some role) s = Ok tt → opens s (OpenChange org user role)
| opens_remove org user : last_owner_guard org user None s = Ok tt → opens s (OpenRemove org user)
| opens_accept user token row now : accept_lookup token now s = Ok row → opens s (OpenAccept user row now)
| opens_join user email now : opens s (OpenJoin user (join_lookup email now s) now).

Definition commit_open (t : OpenTx) (s : orgs) : orgs :=
  match t with
  | OpenChange org user role => (trun (change_role_write org user role) s).2
  | OpenRemove org user => (trun (remove_member_write org user) s).2
  | OpenAccept user row now => (trun (accept_claim user row now) s).2
  | OpenJoin user rows now => (trun (join_claims user rows now None) s).2
  end.
Definition open_user (t : OpenTx) : UserId :=
  match t with OpenChange _ u _ | OpenRemove _ u | OpenAccept u _ _ | OpenJoin u _ _ => u end.

Definition open_rows (t : OpenTx) : list OrgInviteRow :=
  match t with OpenAccept _ row _ => [row] | OpenJoin _ rows _ => rows | _ => [] end.

(** The operations whose reads and writes are one statement, or run under a lock. *)
Definition one_step (op : OrgOp) : bool :=
  match op with
  | ChangeRole _ _ _ | RemoveMember _ _ | JoinPendingInvites _ _ _ | AcceptInvite _ _ _ => false
  | _ => true
  end.
Definition new_invites (op : OrgOp) : list InviteId :=
  match op with
  | CreateInvites rnd _ emails _ _ _ _ => ie_id rnd <$> seq 0 (length emails)
  | _ => []
  end.

Definition consumed_ids (s : orgs) : list InviteId :=
  iv_id <$> filter (λ r, iv_consumed_at r ≠ None) (org_invites s).
(** The invitations consumed by a commit. *)
Definition newly_consumed (s s' : orgs) : list InviteId :=
  filter (λ i, i ∉ consumed_ids s) (consumed_ids s').

(** The tables, the transactions past their reads, who was admitted on which
    invitation, and the ids given so far (the [uuid] crate repeats none). *)
Record oworld := mkOworld {
  ow_tables : orgs; ow_open : list OpenTx; ow_admitted : list (InviteId * UserId); ow_issued : list InviteId }.

Inductive ostep `{Citext, Sha256, Lowercase, UrlParser} : oworld → oworld → Prop :=
| ostep_open t s ts adm ids : opens s t → ostep (mkOworld s ts adm ids) (mkOworld s (ts ++ [t]) adm ids)
| ostep_commit t s ts1 ts2 adm ids :
    ostep (mkOworld s (ts1 ++ t :: ts2) adm ids)
      (mkOworld (commit_open t s) (ts1 ++ ts2)
         (adm ++ ((λ i, (i, open_user t)) <$> newly_consumed s (commit_open t s))) ids)
| ostep_op op s ts adm ids :
    one_step op = true → (∀ i, i ∈ new_invites op → i ∉ ids) →
    ostep (mkOworld s ts adm ids) (mkOworld (run_op op s) ts adm (ids ++ new_invites op)).

Definition oworld_init : oworld := mkOworld empty_orgs [] [] [].
