(* ===== verification/OrgLaws.v ===== *)
(** * Laws of the organisations

    The invariant of the tables, kept by every transaction however transactions
    interleave; the owner every organisation keeps when they do not; the single use
    of an invitation; the outcomes of accepting one. *)

From Stdlib Require Import ZArith Lia Ascii String.
From stdpp Require Import base list strings sets relations.
From S2P Require Import Prelude Program Types Network Tools Identity Orgs.

(** ** The invariant, table by table *)

Definition member_key (r : OrgMemberRow) : OrgId * UserId := (om_org_id r, om_user_id r).
Definition pending_rows (t : list OrgInviteRow) : list OrgInviteRow :=
  filter (λ r, iv_consumed_at r = None) t.
Definition pending_key `{Citext} (r : OrgInviteRow) : OrgId * str := (iv_org_id r, ci_fold (iv_email r)).

Definition wf_organizations `{Citext} (t : list OrgRow) : Prop :=
  NoDup (og_id <$> t) ∧ NoDup (ci_fold ∘ og_slug <$> t) ∧ Forall (λ r, org_checks r = true) t.
Definition wf_users `{Citext} (t : list UserRow) : Prop :=
  NoDup (us_id <$> t) ∧ NoDup (ci_fold ∘ us_email <$> t).
Definition wf_members (os : list OrgId) (us : list UserId) (t : list OrgMemberRow) : Prop :=
  NoDup (member_key <$> t) ∧ Forall (λ r, om_org_id r ∈ os ∧ om_user_id r ∈ us) t.
Definition wf_invites `{Citext} (os : list OrgId) (t : list OrgInviteRow) : Prop :=
  NoDup (iv_id <$> t) ∧ NoDup (iv_token_hash <$> t) ∧ NoDup (pending_key <$> pending_rows t)
  ∧ Forall (λ r, iv_org_id r ∈ os) t.

Record orgs_wf `{Citext} (s : orgs) : Prop := mkOrgsWf {
  wf_org : wf_organizations (organizations s);
  wf_usr : wf_users (users s);
  wf_mem : wf_members (og_id <$> organizations s) (us_id <$> users s) (org_members s);
  wf_inv : wf_invites (og_id <$> organizations s) (org_invites s);
  wf_log : NoDup (os_state <$> oauth_login_states s) }.

(** Every organisation has an owner. *)
Definition all_owned (s : orgs) : Prop :=
  ∀ org, org ∈ og_id <$> organizations s → ∃ m, m ∈ org_members s ∧ om_org_id m = org ∧ om_role m = Owner.

(** ** Reading rows *)

Lemma org_row_Some org s r : org_row org s = Some r → r ∈ organizations s ∧ og_id r = org.
Proof. intros [? ?]%find_Some_iff. by bools. Qed.
Lemma org_exists_spec org s : org_exists org s = true ↔ org ∈ og_id <$> organizations s.
Proof.
  unfold org_exists. rewrite bool_decide_eq_true, list_elem_of_fmap. split.
  - intros [r [Hr <-]%org_row_Some]. eauto.
  - intros (r & -> & Hr). destruct (org_row (og_id r) s) as [r'|] eqn:E; [eauto|].
    unfold org_row in E. rewrite find_None_iff in E. specialize (E r Hr). by bools.
Qed.
Lemma user_exists_spec user s : user_exists user s = true ↔ user ∈ us_id <$> users s.
Proof.
  unfold user_exists. rewrite bool_decide_eq_true, list_elem_of_fmap. split.
  - intros [r [Hr Hu]%find_Some_iff]. bools. eauto.
  - intros (r & -> & Hr). destruct (user_row (us_id r) s) as [r'|] eqn:E; [eauto|].
    unfold user_row in E. rewrite find_None_iff in E. specialize (E r Hr). by bools.
Qed.
Lemma member_row_Some org user s r :
  member_row org user s = Some r → r ∈ org_members s ∧ om_org_id r = org ∧ om_user_id r = user.
Proof. intros [? ?]%find_Some_iff. by bools. Qed.
Lemma member_row_None org user s :
  member_row org user s = None ↔ (org, user) ∉ member_key <$> org_members s.
Proof.
  unfold member_row. rewrite find_None_iff, list_elem_of_fmap. split.
  - intros H (r & [= -> ->] & Hr). specialize (H r Hr). by rewrite !bool_decide_true in H.
  - intros H r Hr. destruct (bool_decide (om_org_id r = org) && bool_decide (om_user_id r = user)) eqn:E; [|done].
    bools. destruct H. exists r. split; [|done]. unfold member_key. congruence.
Qed.
Lemma member_row_in org user s r :
  NoDup (member_key <$> org_members s) → r ∈ org_members s → om_org_id r = org → om_user_id r = user →
  member_row org user s = Some r.
Proof.
  intros Hnd Hr Ho Hu. destruct (member_row org user s) as [r'|] eqn:E.
  - apply member_row_Some in E as (Hr' & ? & ?). f_equal.
    apply (NoDup_fmap_eq member_key (org_members s)); [done..|]. unfold member_key. congruence.
  - apply member_row_None in E. destruct E. apply list_elem_of_fmap. exists r. unfold member_key. split; congruence.
Qed.
Lemma invite_row_Some id s r : invite_row id s = Some r → r ∈ org_invites s ∧ iv_id r = id.
Proof. intros [? Hi]%find_Some_iff. unfold is_invite in Hi. by bools. Qed.

Section invariant.
Context `{Citext, Sha256}.

Lemma ci_eq_true a b : ci_eq a b = true ↔ ci_fold a = ci_fold b.
Proof. unfold ci_eq. by rewrite bool_decide_eq_true. Qed.

Lemma wf_organizations_update org f t :
  wf_organizations t → (∀ r, og_id (f r) = og_id r) →
  (∀ r, r ∈ t → og_id r = org → org_checks (f r) = true) →
  (∀ r r', r ∈ t → r' ∈ t → og_id r = org → og_id r' ≠ org → ci_fold (og_slug r') ≠ ci_fold (og_slug (f r))) →
  wf_organizations (update_where (λ r, og_id r = org) f t).
Proof.
  intros (Hid & Hsl & Hck) Hf Hc Hs. split_and!.
  - rewrite update_where_fmap by auto. done.
  - apply NoDup_fmap_update_where; [done| |].
    + intros x y Hx Hy Px Py. f_equal. apply (NoDup_fmap_eq og_id t); congruence.
    + cbn. intros x y ? ? ? ?. apply not_eq_sym. eauto.
  - by apply Forall_update_where.
Qed.

Lemma update_orgs_ids {E} (db : DbError → E) org f s n s' :
  (∀ r, og_id (f r) = og_id r) → update_orgs db org f s = Ok (n, s') →
  og_id <$> organizations s' = og_id <$> organizations s ∧ org_members s' = org_members s
  ∧ s' = set_organizations (organizations s') s.
Proof.
  intros Hf. unfold update_orgs. destruct (org_row org s); [|intros [= <- <-]; by destruct s].
  repeat case_match; try done. intros [= <- <-]. cbn. rewrite update_where_fmap by auto. done.
Qed.

Lemma update_orgs_wf {E} (db : DbError → E) org f s n s' :
  (∀ r, og_id (f r) = og_id r) → orgs_wf s → update_orgs db org f s = Ok (n, s') → orgs_wf s'.
Proof.
  intros Hf Hs. unfold update_orgs. destruct (org_row org s) as [r|] eqn:Er; [|by intros [= <- <-]].
  destruct (negb _) eqn:Ec; [done|]. destruct (existsb _ _) eqn:Ex; [done|].
  apply org_row_Some in Er as [Hr Ho]. apply negb_false_iff in Ec. rewrite existsb_false in Ex.
  intros [= <- <-]. destruct Hs as [Hog Hu Hm Hi Hl].
  assert (og_id <$> update_where (λ r, og_id r = org) f (organizations s) = og_id <$> organizations s)
    as Hids by (apply update_where_fmap; auto).
  constructor; cbn; rewrite ?Hids; try done. apply wf_organizations_update; [done..| |].
  - intros r' Hr' Ho'. assert (r' = r) as ->; [|done]. destruct Hog as (Hid & _).
    apply (NoDup_fmap_eq og_id (organizations s)); congruence.
  - intros r1 r2 Hr1 Hr2 Ho1 Ho2 He. assert (r1 = r) as ->.
    { destruct Hog as (Hid & _). apply (NoDup_fmap_eq og_id (organizations s)); congruence. }
    specialize (Ex r2 Hr2). rewrite bool_decide_false in Ex by done. cbn in Ex.
    apply ci_eq_true in He. congruence.
Qed.

(** *** Members *)

Lemma wf_set_members s t :
  orgs_wf s → wf_members (og_id <$> organizations s) (us_id <$> users s) t → orgs_wf (set_members t s).
Proof. intros [] ?. by constructor. Qed.

Lemma change_role_write_wf org user role s u s' :
  orgs_wf s → change_role_write org user role s = Ok (u, s') → orgs_wf s'.
Proof.
  intros Hs. unfold change_role_write. case_match; [done|]. intros [= <- <-].
  destruct (wf_mem _ Hs) as [Hk Hf]. apply wf_set_members; [done|]. split.
  - rewrite update_where_fmap; [done|]. by intros r _ _.
  - apply Forall_update_where; [done|]. intros r Hr _. rewrite Forall_forall in Hf. exact (Hf r Hr).
Qed.

Lemma remove_member_write_wf org user s u s' :
  orgs_wf s → remove_member_write org user s = Ok (u, s') → orgs_wf s'.
Proof.
  intros Hs. unfold remove_member_write. case_match; [done|]. intros [= <- <-].
  destruct (wf_mem _ Hs) as [Hk Hf]. apply wf_set_members; [done|]. split.
  - by apply NoDup_fmap_filter.
  - by apply Forall_filter.
Qed.

(** An insertion adds the row, or finds one of the same key. *)
Lemma insert_member_Ok {E} (db : DbError → E) org user role now s u s' :
  insert_member db org user role now s = Ok (u, s') →
  (s' = s ∧ is_Some (member_row org user s)) ∨
  (s' = set_members (org_members s ++ [mkOrgMember org user role now]) s ∧ member_row org user s = None
   ∧ org ∈ og_id <$> organizations s ∧ user ∈ us_id <$> users s).
Proof.
  unfold insert_member. destruct (member_row org user s) as [r|] eqn:Em; [intros [= <- <-]; left; eauto|].
  destruct (negb _ || negb _) eqn:Eb; [done|]. intros [= <- <-]. right. apply orb_false_iff in Eb as [H1 H2].
  apply negb_false_iff in H1, H2. rewrite org_exists_spec in H1. rewrite user_exists_spec in H2. done.
Qed.

Lemma insert_member_wf {E} (db : DbError → E) org user role now s u s' :
  orgs_wf s → insert_member db org user role now s = Ok (u, s') → orgs_wf s'.
Proof.
  intros Hs [[-> _]|(-> & Hn & Ho & Hu)]%insert_member_Ok; [done|].
  destruct (wf_mem _ Hs) as [Hk Hf]. apply wf_set_members; [done|]. split.
  - rewrite fmap_app. apply NoDup_snoc; [done|]. by apply member_row_None in Hn.
  - by apply Forall_snoc.
Qed.

Lemma delete_org_wf org s u s' : orgs_wf s → delete_org_tx org s = Ok (u, s') → orgs_wf s'.
Proof.
  intros Hs. unfold delete_org_tx. repeat case_match; try done. intros [= <- <-].
  destruct Hs as [(Hg1 & Hg2 & Hg3) Hu [Hm1 Hm2] (Hi1 & Hi2 & Hi3 & Hi4) Hl].
  assert (∀ o, o ∈ og_id <$> organizations s → o ≠ org →
    o ∈ og_id <$> filter (λ r, og_id r ≠ org) (organizations s)) as Hin.
  { intros o (r & -> & Hr)%list_elem_of_fmap Ho. apply list_elem_of_fmap. exists r. split; [done|].
    by apply list_elem_of_filter. }
  constructor; cbn; [|done| | |done].
  - split_and!; [by apply NoDup_fmap_filter..|by apply Forall_filter].
  - split; [by apply NoDup_fmap_filter|]. rewrite Forall_forall in Hm2 |- *.
    intros r [Hr1 Hr2]%list_elem_of_filter. destruct (Hm2 r Hr2). eauto.
  - split_and!; [by apply NoDup_fmap_filter..| |].
    + unfold pending_rows. rewrite list_filter_filter.
      rewrite (filter_ext_in _ (λ r, iv_org_id r ≠ org ∧ iv_consumed_at r = None)) by (intros; tauto).
      rewrite <-list_filter_filter. by apply NoDup_fmap_filter.
    + rewrite Forall_forall in Hi4 |- *. intros r [Hr1 Hr2]%list_elem_of_filter. eauto.
Qed.

(** *** Invitations *)

Lemma wf_set_invites s t :
  orgs_wf s → wf_invites (og_id <$> organizations s) t → orgs_wf (set_invites t s).
Proof. intros [] ?. by constructor. Qed.

Lemma hash_in_use_false id hash s r :
  hash_in_use id hash s = false → r ∈ org_invites s → iv_id r ≠ id → iv_token_hash r ≠ hash.
Proof.
  unfold hash_in_use. rewrite existsb_false. intros Hx Hr Hid Hh. specialize (Hx r Hr).
  rewrite bool_decide_false, bool_decide_true in Hx by done. done.
Qed.

(** A row rewritten under its id, its organisation, address and state of consumption,
    with a hash no other row has. *)
Lemma wf_invites_rewrite os t id f :
  wf_invites os t → (∀ r, iv_id (f r) = iv_id r ∧ iv_org_id (f r) = iv_org_id r ∧ iv_email (f r) = iv_email r
    ∧ iv_consumed_at (f r) = iv_consumed_at r) →
  (∀ r r', r ∈ t → r' ∈ t → iv_id r = id → iv_id r' ≠ id → iv_token_hash r' ≠ iv_token_hash (f r)) →
  wf_invites os (update_where (λ r, iv_id r = id) f t).
Proof.
  intros (Hi & Hh & Hp & Ho) Hf Hn. split_and!.
  - rewrite update_where_fmap; [done|]. intros r _ _. apply Hf.
  - apply NoDup_fmap_update_where; [done| |].
    + intros x y Hx Hy Px Py. f_equal. apply (NoDup_fmap_eq iv_id t); congruence.
    + intros x y ? ? ? ?. apply not_eq_sym. eauto.
  - assert (pending_key <$> pending_rows (update_where (λ r, iv_id r = id) f t) = pending_key <$> pending_rows t)
      as ->; [|done]. unfold pending_rows, update_where. clear -Hf. induction t as [|r t IH]; [done|].
    rewrite fmap_cons, !filter_cons. destruct (Hf r) as (? & Ho & He & Hc).
    repeat case_decide; try congruence; rewrite ?fmap_cons, IH; try done.
    unfold pending_key at 1 3. by rewrite Ho, He.
  - apply Forall_update_where; [done|]. intros r Hr _. destruct (Hf r) as (? & -> & _).
    rewrite Forall_forall in Ho. by apply Ho.
Qed.

Lemma find_pending_None org email t :
  List.find (pending_at org email) t = None → (org, ci_fold email) ∉ pending_key <$> pending_rows t.
Proof.
  rewrite find_None_iff. intros Hf (r & Hk & [Hc Hr]%list_elem_of_filter)%list_elem_of_fmap.
  specialize (Hf r Hr). unfold pending_key in Hk. injection Hk as -> He. unfold pending_at, ci_eq in Hf.
  by rewrite !bool_decide_true in Hf by done.
Qed.

Lemma upsert_invite_wf new s id s' :
  iv_consumed_at new = None → orgs_wf s → upsert_invite new s = Ok (id, s') → orgs_wf s'.
Proof.
  intros Hc Hs. unfold upsert_invite. destruct (List.find _ _) as [old|] eqn:Ef.
  - destruct (hash_in_use _ _ _) eqn:Eh; [done|]. case_match; [done|]. intros [= <- <-].
    apply wf_set_invites; [done|]. apply wf_invites_rewrite; [apply Hs|by repeat split|].
    cbn. intros r r' Hr Hr' Hid Hid'. by eapply hash_in_use_false.
  - apply find_pending_None in Ef. case_match; [done|]. destruct (bool_decide _) eqn:Ei; [done|].
    destruct (hash_in_use _ _ _) eqn:Eh; [done|]. destruct (negb _ || negb _) eqn:Eo; [done|].
    intros [= <- <-]. apply wf_set_invites; [done|]. apply bool_decide_eq_false_1 in Ei.
    apply orb_false_iff in Eo as [Eo%negb_false_iff _]. rewrite org_exists_spec in Eo. destruct (wf_inv _ Hs) as (Hi & Hh & Hp & Ho). split_and!.
    + rewrite fmap_app. by apply NoDup_snoc.
    + rewrite fmap_app. apply NoDup_snoc; [done|]. cbn. intros (r & He & Hr)%list_elem_of_fmap.
      destruct (decide (iv_id r = iv_id new)) as [Hid|Hid].
      * destruct Ei. apply list_elem_of_fmap. eauto.
      * by eapply hash_in_use_false.
    + unfold pending_rows. rewrite filter_app, filter_cons_True by done. rewrite fmap_app. by apply NoDup_snoc.
    + by apply Forall_snoc.
Qed.

Lemma issue_invites_wf rnd org emails role by_ now exp n s l s' :
  orgs_wf s → issue_invites rnd org emails role by_ now exp n s = Ok (l, s') → orgs_wf s'.
Proof.
  revert n s l s'. induction emails as [|e es IH]; intros n s l s' Hs Hi; cbn in Hi; tx_inv; [done|].
  eapply IH; [|eassumption]. eapply upsert_invite_wf; [|exact Hs|eassumption]. done.
Qed.

Lemma resend_invite_wf encoded org id now ttl s : orgs_wf s → orgs_wf (resend_invite encoded org id now ttl s).2.
Proof.
  intros Hs. unfold resend_invite. destruct (mint_token encoded) as [tok| |]; [|done..].
  destruct (invite_row id s) as [r|] eqn:Er; [|done]. case_match; [done|].
  destruct (hash_in_use _ _ _) eqn:Eh; [done|]. cbn. apply wf_set_invites; [done|].
  apply wf_invites_rewrite; [apply Hs|by repeat split|]. cbn. intros r1 r2 ? ? ? ?. by eapply hash_in_use_false.
Qed.

Lemma revoke_invite_wf org id s u s' : orgs_wf s → revoke_invite_tx org id s = Ok (u, s') → orgs_wf s'.
Proof.
  intros Hs. unfold revoke_invite_tx. case_match; [done|]. intros [= <- <-].
  apply wf_set_invites; [done|]. destruct (wf_inv _ Hs) as (Hi & Hh & Hp & Ho).
  split_and!; [by apply NoDup_fmap_filter..| |by apply Forall_filter].
  unfold pending_rows. rewrite list_filter_filter.
  set (hit r := bool_decide (iv_id r = id) && bool_decide (iv_org_id r = org)).
  rewrite (filter_ext_in _ (λ r, hit r = false ∧ iv_consumed_at r = None)) by (intros; tauto).
  rewrite <-list_filter_filter. by apply NoDup_fmap_filter.
Qed.

(** What a claim does: nothing, or the one pending row becomes consumed. *)
Lemma claim_invite_Ok id now s o s' :
  claim_invite id now s = Ok (o, s') →
  (o = None ∧ s' = s ∧ ∀ r, invite_row id s = Some r → iv_consumed_at r ≠ None) ∨
  (o = Some id ∧ ∃ r, invite_row id s = Some r ∧ iv_consumed_at r = None ∧
     s' = set_invites (update_where (λ r, iv_id r = id)
             (λ r, mkInvite (iv_id r) (iv_org_id r) (iv_email r) (iv_role r) (iv_token_hash r)
                     (iv_invited_by r) (iv_created_at r) (iv_expires_at r) (Some now))
             (org_invites s)) s).
Proof.
  unfold claim_invite. destruct (invite_row id s) as [r|] eqn:Er.
  - case_bool_decide; intros [= <- <-]; [right; eauto 6|left]. split_and!; [done..|]. by intros r' [= <-].
  - intros [= <- <-]. left. done.
Qed.

Lemma claim_invite_wf id now s o s' : orgs_wf s → claim_invite id now s = Ok (o, s') → orgs_wf s'.
Proof.
  intros Hs [(-> & -> & _)|(-> & r & Er & Hc & ->)]%claim_invite_Ok; [done|].
  apply wf_set_invites; [done|]. destruct (wf_inv _ Hs) as (Hi & Hh & Hp & Ho). split_and!.
  - by rewrite update_where_fmap.
  - by rewrite update_where_fmap.
  - unfold pending_rows. rewrite filter_update_where_sub by done.
    rewrite (filter_ext_in _ (λ r, iv_id r ≠ id ∧ iv_consumed_at r = None)) by (intros; tauto).
    rewrite <-list_filter_filter. by apply NoDup_fmap_filter.
  - apply Forall_update_where; [done|]. intros r' Hr' _. rewrite Forall_forall in Ho. exact (Ho r' Hr').
Qed.

Lemma join_claims_wf user rows now active s o s' :
  orgs_wf s → join_claims user rows now active s = Ok (o, s') → orgs_wf s'.
Proof.
  revert active s. induction rows as [|r rows IH]; intros active s Hs Hj; cbn in Hj; [by tx_inv|].
  apply tbind_Ok in Hj as (c & s1 & Hc & Hj). apply claim_invite_wf in Hc; [|done].
  destruct c; [|by eapply IH]. apply tbind_Ok in Hj as (? & s2 & Hm & Hj).
  eapply IH; [|exact Hj]. by eapply insert_member_wf.
Qed.

Lemma accept_claim_wf user row now s a s' :
  orgs_wf s → accept_claim user row now s = Ok (a, s') → orgs_wf s'.
Proof.
  intros Hs Ha. unfold accept_claim in Ha. apply tbind_Ok in Ha as (c & s1 & Hc & Ha).
  apply claim_invite_wf in Hc; [|done]. destruct c; [|done]. apply tbind_Ok in Ha as (? & s2 & Hm & Ha).
  case_match; [|done]. injection Ha as <- <-. by eapply insert_member_wf.
Qed.

(** *** Users, organisations and logins *)

Lemma email_in_use_false id email s r :
  email_in_use id email s = false → r ∈ users s → us_id r ≠ id → ci_fold (us_email r) ≠ ci_fold email.
Proof.
  unfold email_in_use. rewrite existsb_false. intros Hx Hr Hid Hf. specialize (Hx r Hr).
  rewrite bool_decide_false in Hx by done. apply ci_eq_true in Hf. by rewrite Hf in Hx.
Qed.

Lemma write_user_wf id p now s u s' : orgs_wf s → write_user id p now s = Ok (u, s') → orgs_wf s'.
Proof.
  intros Hs. unfold write_user. case_match; [done|]. destruct (email_in_use _ _ _) eqn:Ee; [done|].
  pose proof (wf_usr _ Hs) as [Hi He]. destruct (user_row id s) as [r|] eqn:Er; intros [= <- <-].
  - assert (us_id <$> update_where (λ r, us_id r = id) (λ r, profile_row id p (us_created_at r) now) (users s)
            = us_id <$> users s) as Hids by (by apply update_where_fmap).
    destruct Hs as [Hg _ Hm Hv Hl]. constructor; cbn; rewrite ?Hids; try done. split; rewrite ?Hids; [done|].
    apply NoDup_fmap_update_where; [done| |].
    + intros x y Hx Hy Px Py. f_equal. apply (NoDup_fmap_eq us_id (users s)); congruence.
    + cbn. intros x y Hx Hy Px Py. apply not_eq_sym. by eapply email_in_use_false.
  - assert (id ∉ us_id <$> users s) as Hn.
    { intros Hin%user_exists_spec. unfold user_exists in Hin. by rewrite Er, bool_decide_false in Hin by (by intros []). }
    destruct Hs as [Hg _ [Hm1 Hm2] Hv Hl]. constructor; cbn; try done.
    + split; rewrite fmap_app; apply NoDup_snoc; [done..|]. cbn.
      intros (r & Hf & Hr)%list_elem_of_fmap. eapply email_in_use_false; [exact Ee|exact Hr| |exact (eq_sym Hf)].
      intros <-. apply Hn, list_elem_of_fmap. eauto.
    + split; [done|]. rewrite fmap_app. eapply Forall_impl; [exact Hm2|]. cbn. set_solver.
Qed.

Lemma upsert_write_wf candidate p now s r s' :
  orgs_wf s → upsert_write candidate p now s = Ok (r, s') → orgs_wf s'.
Proof.
  assert (∀ a, orgs_wf a → ∀ t, orgs_wf (set_identities t a)) as Hid by (by intros a [] t; constructor).
  intros Hs Hu. unfold upsert_write in Hu.
  apply tbind_Ok in Hu as (ex & s0 & [= <- <-] & Hu).
  apply tbind_Ok in Hu as (idn & s1 & Hw & Hu). apply tbind_Ok in Hu as (o & s2 & [= <- <-] & Hu).
  assert (s' = s1) as -> by (by destruct (user_row _ _); [injection Hu|]).
  destruct (identity_user _ _ _).
  - apply tbind_Ok in Hw as ([] & s3 & Hw & [= <- <-]).
    cbn beta in Hw. destruct (user_exists _ _); [by eapply write_user_wf|by injection Hw as <-].
  - apply tbind_Ok in Hw as ([] & s3 & Hw & Hr). apply tbind_Ok in Hr as ([] & s4 & [= <-] & [= <- <-]).
    apply Hid. by eapply write_user_wf.
Qed.

Lemma insert_org_and_owner_Ok id user slug name language now s u s' :
  insert_org_and_owner id user slug name language now s = Ok (u, s') →
  let row := mkOrgRow id name slug language None None None now now in
  org_checks row = true ∧ id ∉ og_id <$> organizations s ∧ user ∈ us_id <$> users s
  ∧ (∀ r, r ∈ organizations s → ci_fold (og_slug r) ≠ ci_fold slug)
  ∧ member_row id user s = None
  ∧ s' = set_members (org_members s ++ [mkOrgMember id user Owner now])
           (set_organizations (organizations s ++ [row]) s).
Proof.
  intros Hi row. unfold insert_org_and_owner in Hi. apply tbind_Ok in Hi as ([] & s1 & Ho & Hi).
  cbn beta zeta in Ho. fold row in Ho. destruct (negb (org_checks row)) eqn:Ec; [done|].
  destruct (org_exists id s) eqn:Ee; [done|]. destruct (existsb _ _) eqn:Es; [done|]. injection Ho as <-.
  apply tbind_Ok in Hi as ([] & s2 & Hm & Hi). cbn beta in Hm.
  destruct (bool_decide _) eqn:Em; [done|]. injection Hm as <-.
  apply bool_decide_eq_false_1, eq_None_not_Some in Em.
  apply insert_member_Ok in Hi as [[_ Hs]|(-> & Hn & Ho & Hu)]; [rewrite Em in Hs; by destruct Hs|].
  apply negb_false_iff in Ec. rewrite existsb_false in Es. split_and!; try done.
  - intros Hin%org_exists_spec. congruence.
  - intros r Hr Hf%ci_eq_true. by rewrite Es in Hf.
Qed.

Lemma insert_org_and_owner_wf id user slug name language now s u s' :
  orgs_wf s → insert_org_and_owner id user slug name language now s = Ok (u, s') → orgs_wf s'.
Proof.
  intros Hs (Hc & Hid & Hu & Hsl & Hn & ->)%insert_org_and_owner_Ok.
  destruct Hs as [(Hg1 & Hg2 & Hg3) Hus [Hm1 Hm2] (Hi1 & Hi2 & Hi3 & Hi4) Hl].
  constructor; cbn; rewrite ?fmap_app; [|done| | |done].
  - split_and!; rewrite ?fmap_app; [by apply NoDup_snoc| |by apply Forall_snoc].
    apply NoDup_snoc; [done|]. cbn. intros (r & He & Hr)%list_elem_of_fmap. by apply (Hsl r).
  - split.
    + rewrite fmap_app. apply NoDup_snoc; [done|]. by apply member_row_None in Hn.
    + apply Forall_snoc; [|cbn; set_solver]. eapply Forall_impl; [exact Hm2|]. cbn. set_solver.
  - split_and!; [done..|]. eapply Forall_impl; [exact Hi4|]. cbn. set_solver.
Qed.

Lemma set_user_avatar_wf user avatar now s : orgs_wf s → orgs_wf (set_user_avatar user avatar now s).2.
Proof.
  intros [Hg [Hu1 Hu2] Hm Hi Hl]. unfold set_user_avatar. cbn.
  constructor; cbn; rewrite ?update_where_fmap by done; try done.
  split; by rewrite update_where_fmap by done.
Qed.

Lemma insert_oauth_state_wf row s u s' : orgs_wf s → insert_oauth_state_tx row s = Ok (u, s') → orgs_wf s'.
Proof.
  intros [Hg Hu Hm Hi Hl]. unfold insert_oauth_state_tx. case_match; [done|].
  destruct (bool_decide _) eqn:Eb; [done|]. intros [= <- <-]. apply bool_decide_eq_false_1 in Eb.
  constructor; cbn; try done. rewrite fmap_app. by apply NoDup_snoc.
Qed.

Lemma consume_oauth_state_wf state now s : orgs_wf s → orgs_wf (consume_oauth_state state now s).2.
Proof.
  intros [Hg Hu Hm Hi Hl]. unfold consume_oauth_state. cbn. constructor; cbn; try done.
  by do 2 apply NoDup_fmap_filter.
Qed.
End invariant.

(** ** An owner stays *)

Section owners.
Context `{Citext, Sha256, Lowercase, UrlParser}.

Lemma all_owned_more s s' :
  all_owned s → (∀ o, o ∈ og_id <$> organizations s' → o ∈ og_id <$> organizations s) →
  (∀ m, m ∈ org_members s → om_role m = Owner → om_org_id m ∈ og_id <$> organizations s' → m ∈ org_members s') →
  all_owned s'.
Proof.
  intros Hs Ho Hm org Hin. destruct (Hs org (Ho org Hin)) as (m & Hm1 & Hm2 & Hm3).
  exists m. split_and!; [|done..]. apply Hm; [done..|congruence].
Qed.

Lemma second_owner org user s :
  NoDup (member_key <$> org_members s) → 1 < owners org s →
  ∃ m, m ∈ org_members s ∧ om_org_id m = org ∧ om_role m = Owner ∧ om_user_id m ≠ user.
Proof.
  intros Hnd Hl. unfold owners in Hl.
  assert (∀ m, m ∈ filter (λ r, is_owner_of org r = true) (org_members s) →
    m ∈ org_members s ∧ om_org_id m = org ∧ om_role m = Owner) as Hm.
  { intros m [Ho Hm]%list_elem_of_filter. unfold is_owner_of in Ho. by bools. }
  apply (NoDup_fmap_filter _ (λ r, is_owner_of org r = true)) in Hnd.
  destruct (filter _ _) as [|x [|y l]]; cbn in Hl; [lia..|].
  destruct (Hm x) as (Hx1 & Hx2 & Hx3); [by left|]. destruct (Hm y) as (Hy1 & Hy2 & Hy3); [right; by left|].
  destruct (decide (om_user_id x = user)) as [Hu|Hu]; [|by exists x].
  exists y. split_and!; try done. intros Hu'. rewrite !fmap_cons, NoDup_cons in Hnd.
  destruct Hnd as [Hnd _]. apply Hnd. rewrite elem_of_cons. left. unfold member_key. congruence.
Qed.

Lemma guard_leaves_owner org user new_role s :
  orgs_wf s → all_owned s → new_role ≠ Some Owner → last_owner_guard org user new_role s = Ok tt →
  ∃ m, m ∈ org_members s ∧ om_org_id m = org ∧ om_role m = Owner ∧ om_user_id m ≠ user.
Proof.
  intros Hwf Ho Hn. destruct (wf_mem _ Hwf) as [Hk Hf]. unfold last_owner_guard.
  destruct (member_row org user s) as [r|] eqn:Er; [|done]. cbn.
  apply member_row_Some in Er as (Hr & Hro & Hru). case_bool_decide as Hcur; cbn.
  - rewrite bool_decide_false by done. destruct (Nat.leb_spec (owners org s) 1); [done|]. intros _.
    by apply second_owner.
  - intros _. destruct (Ho org) as (m & Hm & Hmo & Hmr).
    { rewrite Forall_forall in Hf. rewrite <-Hro. by apply Hf. }
    exists m. split_and!; try done. intros Hu. apply Hcur.
    assert (r = m) as ->; [|done]. apply (NoDup_fmap_eq member_key (org_members s)); [done..|].
    unfold member_key. congruence.
Qed.

Lemma change_role_keeps_owned org user role s u s' :
  orgs_wf s → all_owned s → change_role_tx org user role s = Ok (u, s') → all_owned s'.
Proof.
  intros Hwf Ho Hc. unfold change_role_tx in Hc. apply tbind_Ok in Hc as ([] & s1 & Hg & Hc).
  cbn beta in Hg. destruct (last_owner_guard org user (Some role) s) as [[]| |] eqn:Eg; [|done..].
  injection Hg as <-. unfold change_role_write in Hc. case_match; [done|]. injection Hc as _ <-.
  intros o Hin. cbn in Hin |- *.
  assert (∀ m, m ∈ org_members s → om_role m = Owner → (role = Owner ∨ ¬ is_member_of org user m) →
    ∃ m', m' ∈ update_where (is_member_of org user) (with_role role) (org_members s)
      ∧ om_org_id m' = om_org_id m ∧ om_role m' = Owner) as Hup.
  { intros m Hm Hr Hd. exists (if decide (is_member_of org user m) then with_role role m else m).
    split; [apply elem_of_update_where; eauto|]. case_decide; cbn; [|done]. by destruct Hd as [->|]. }
  destruct (Ho o Hin) as (m & Hm & Hmo & Hmr). destruct (decide (role = Owner)) as [Hr|Hr].
  - destruct (Hup m) as (m' & ? & ? & ?); [eauto..|]. exists m'. split_and!; congruence.
  - destruct (decide (o = org)) as [->|Hne].
    + destruct (guard_leaves_owner org user (Some role) s) as (m2 & Hm2 & Ho2 & Hr2 & Hu2); [done..| |done|].
      { congruence. }
      destruct (Hup m2) as (m' & ? & ? & ?); [done..|right; by intros []|]. exists m'. split_and!; congruence.
    + destruct (Hup m) as (m' & ? & ? & ?); [done..|right; intros []; congruence|]. exists m'. split_and!; congruence.
Qed.

Lemma remove_member_keeps_owned org user s u s' :
  orgs_wf s → all_owned s → remove_member_tx org user s = Ok (u, s') → all_owned s'.
Proof.
  intros Hwf Ho Hc. unfold remove_member_tx in Hc. apply tbind_Ok in Hc as ([] & s1 & Hg & Hc).
  cbn beta in Hg. destruct (last_owner_guard org user None s) as [[]| |] eqn:Eg; [|done..].
  injection Hg as <-. unfold remove_member_write in Hc. case_match; [done|]. injection Hc as _ <-.
  intros o Hin. cbn in Hin |- *. setoid_rewrite list_elem_of_filter. destruct (decide (o = org)) as [->|Hne].
  - destruct (guard_leaves_owner org user None s) as (m2 & Hm2 & Ho2 & Hr2 & Hu2); [done..|].
    exists m2. split_and!; try done. by intros [].
  - destruct (Ho o Hin) as (m & Hm & Hmo & Hmr). exists m. split_and!; try done. intros []. congruence.
Qed.

Lemma insert_member_mono {E} (db : DbError → E) org user role now s u s' :
  insert_member db org user role now s = Ok (u, s') →
  organizations s' = organizations s ∧ org_invites s' = org_invites s
  ∧ ∀ m, m ∈ org_members s → m ∈ org_members s'.
Proof. intros [[-> _]|(-> & _)]%insert_member_Ok; [done|]. cbn. split_and!; [done..|]. set_solver. Qed.

Lemma claim_invite_frame id now s o s' :
  claim_invite id now s = Ok (o, s') → organizations s' = organizations s ∧ org_members s' = org_members s.
Proof. by intros [(_ & -> & _)|(_ & r & _ & _ & ->)]%claim_invite_Ok. Qed.

Lemma join_claims_mono user rows now active s o s' :
  join_claims user rows now active s = Ok (o, s') →
  organizations s' = organizations s ∧ ∀ m, m ∈ org_members s → m ∈ org_members s'.
Proof.
  revert active s. induction rows as [|r rows IH]; intros active s Hj; cbn in Hj; [by injection Hj as _ <-|].
  apply tbind_Ok in Hj as (c & s1 & [Hc1 Hc2]%claim_invite_frame & Hj).
  destruct c; [|apply IH in Hj; by rewrite Hc1, Hc2 in Hj].
  apply tbind_Ok in Hj as (? & s2 & (Hm1 & _ & Hm2)%insert_member_mono & Hj).
  apply IH in Hj as [Hj1 Hj2]. rewrite Hj1, Hm1, Hc1. split; [done|]. intros m Hm. apply Hj2, Hm2. by rewrite Hc2.
Qed.

Lemma accept_claim_mono user row now s a s' :
  accept_claim user row now s = Ok (a, s') →
  organizations s' = organizations s ∧ ∀ m, m ∈ org_members s → m ∈ org_members s'.
Proof.
  unfold accept_claim. intros Ha. apply tbind_Ok in Ha as (c & s1 & [Hc1 Hc2]%claim_invite_frame & Ha).
  destruct c; [|done]. apply tbind_Ok in Ha as (? & s2 & (Hm1 & _ & Hm2)%insert_member_mono & Ha).
  case_match; [|done]. injection Ha as _ <-. rewrite Hm1, Hc1. split; [done|]. intros m Hm. apply Hm2. by rewrite Hc2.
Qed.

Lemma upsert_invite_frame new s id s' :
  upsert_invite new s = Ok (id, s') → organizations s' = organizations s ∧ org_members s' = org_members s.
Proof. unfold upsert_invite. repeat case_match; try done; by intros [= <- <-]. Qed.
Lemma issue_invites_frame rnd org emails role by_ now exp n s l s' :
  issue_invites rnd org emails role by_ now exp n s = Ok (l, s') →
  organizations s' = organizations s ∧ org_members s' = org_members s.
Proof.
  revert n s l s'. induction emails as [|e es IH]; intros n s l s' Hi; cbn in Hi; [by injection Hi as _ <-|].
  apply tbind_Ok in Hi as (tok & s1 & Ht & Hi). unfold tlift in Ht. destruct (mint_token _); [|done..].
  injection Ht as <- <-. apply tbind_Ok in Hi as (id & s2 & [H1' H2']%upsert_invite_frame & Hi).
  apply tbind_Ok in Hi as (r & s3 & [H3' H4']%IH & [= _ <-]). split; congruence.
Qed.
End owners.

Section operations.
Context `{Citext, Sha256, Lowercase, UrlParser}.

Lemma update_org_Ok org patch now s d s' :
  update_org_tx org patch now s = Ok (d, s') →
  s' = s ∨ ∃ n, update_orgs OrgDb org (patch_row patch now) s = Ok (n, s').
Proof.
  unfold update_org_tx. case_match.
  - intros Hr. apply res_bind_Ok in Hr as (d' & _ & [= _ <-]). by left.
  - intros Hr. apply tbind_Ok in Hr as (n & s1 & Hu & Hr). apply res_bind_Ok in Hr as (d' & _ & [= _ <-]).
    right. exists n. destruct (update_orgs OrgDb org (patch_row patch now) s) as [[]| |]; [|done..].
    by injection Hu as <- <-.
Qed.

Lemma try_insert_org_Ok id user slug name language cap now s o s' :
  try_insert_org_tx id user slug name language cap now s = Ok (o, s') →
  insert_org_and_owner id user slug name language now s = Ok (tt, s') ∧ o = mkNewOrg id slug name language
  ∧ ∀ c, cap = Some c → (owned user s < c)%Z.
Proof.
  intros Ht. unfold try_insert_org_tx in Ht. apply tbind_Ok in Ht as ([] & s1 & Hg & Ht).
  apply tbind_Ok in Ht as ([] & s2 & Hi & [= <- <-]).
  assert (s1 = s ∧ ∀ c, cap = Some c → (owned user s < c)%Z) as [-> Hc]; [|done].
  destruct cap as [c|]; [|by injection Hg as <-].
  apply tbind_Ok in Hg as ([] & s3 & Hr & Hg). unfold tlift, rassert in Hr. case_match; [|done].
  injection Hr as <-. apply tbind_Ok in Hg as (n & s3 & [= <- <-] & Hg).
  destruct (Z.leb_spec c (owned user s)); [done|]. injection Hg as <-. split; [done|]. by intros ? [= <-].
Qed.

Lemma bootstrap_Ok id user seed name language now s o s' :
  bootstrap_initial_org_as_owner_tx id user seed name language now s = Ok (o, s') →
  (o = None ∧ s' = s ∧ organizations s ≠ []) ∨
  (∃ slug, OrgSlug_try_from (sanitize_slug seed) = Ok slug ∧ organizations s = []
     ∧ o = Some (mkNewOrg id (OrgSlug_as_str slug) name language)
     ∧ insert_org_and_owner id user (OrgSlug_as_str slug) name language now s = Ok (tt, s')).
Proof.
  intros Hb. unfold bootstrap_initial_org_as_owner_tx in Hb. apply tbind_Ok in Hb as (n & s1 & [= <- <-] & Hb).
  destruct (Nat.ltb_spec 0 (length (organizations s))) as [Hl|Hl].
  - injection Hb as <- <-. left. split_and!; [done..|]. by destruct (organizations s); [cbn in Hl; lia|].
  - apply tbind_Ok in Hb as (slug & s1 & Hs & Hb). unfold tlift in Hs.
    destruct (OrgSlug_try_from _) as [sl| |] eqn:Es; [|done..]. injection Hs as <- <-.
    apply tbind_Ok in Hb as ([] & s2 & Hi & [= <- <-]). right. exists sl. split_and!; [done| |done..].
    destruct (organizations s); [done|cbn in Hl; lia].
Qed.

Lemma run_op_wf op s : orgs_wf s → orgs_wf (run_op op s).
Proof.
  intros Hs. destruct op; cbn; try (apply trun_keeps; [done|intros a s' Hr]).
  - apply update_org_Ok in Hr as [->|[n Hr]]; [done|]. by eapply update_orgs_wf; [|exact Hs|exact Hr].
  - unfold set_org_avatar_tx in Hr. apply tbind_Ok in Hr as (n & s1 & Hu & Hr).
    apply (update_orgs_wf OrgDb) in Hu; [|done..]. by case_match; [|injection Hr as _ <-].
  - unfold set_org_language_tx in Hr. apply tbind_Ok in Hr as (n & s1 & Hu & Hr).
    apply (update_orgs_wf AuthDb) in Hu; [|done..]. by case_match; [|injection Hr as _ <-].
  - unfold set_org_rule. unfold trun. destruct (update_orgs _ _ _ _) as [[n s1]| |] eqn:Hu; [|done..]. cbn.
    by eapply update_orgs_wf; [|exact Hs|exact Hu].
  - by eapply delete_org_wf.
  - unfold change_role_tx in Hr. apply tbind_Ok in Hr as ([] & s1 & Hg & Hr).
    apply res_bind_Ok in Hg as ([] & _ & [= <-]). by eapply change_role_write_wf.
  - unfold remove_member_tx in Hr. apply tbind_Ok in Hr as ([] & s1 & Hg & Hr).
    apply res_bind_Ok in Hg as ([] & _ & [= <-]). by eapply remove_member_write_wf.
  - unfold create_invites_tx in Hr. case_match; [done|]. by eapply issue_invites_wf.
  - by apply resend_invite_wf.
  - by eapply revoke_invite_wf.
  - by eapply join_claims_wf.
  - apply res_bind_Ok in Hr as (row & _ & Hr). by eapply accept_claim_wf.
  - unfold upsert_from_oidc. unfold trun. destruct (upsert_write _ _ _ _) as [[[r n] s1]| |] eqn:Hu; [|done..].
    cbn. by eapply upsert_write_wf.
  - apply try_insert_org_Ok in Hr as (Hr & _). by eapply insert_org_and_owner_wf.
  - apply bootstrap_Ok in Hr as [(_ & -> & _)|(sl & _ & _ & _ & Hr)]; [done|]. by eapply insert_org_and_owner_wf.
  - by eapply insert_member_wf.
  - by apply set_user_avatar_wf.
  - by eapply insert_oauth_state_wf.
  - by apply consume_oauth_state_wf.
Qed.

Lemma all_owned_same s s' :
  all_owned s → og_id <$> organizations s' = og_id <$> organizations s →
  (∀ m, m ∈ org_members s → m ∈ org_members s') → all_owned s'.
Proof. intros Hs Ho Hm. apply (all_owned_more s); [done| |]; rewrite Ho; auto. Qed.

Lemma insert_org_owned id user slug name language now s s' :
  all_owned s → insert_org_and_owner id user slug name language now s = Ok (tt, s') → all_owned s'.
Proof.
  intros Ho (_ & _ & _ & _ & _ & ->)%insert_org_and_owner_Ok org. cbn. rewrite fmap_app, elem_of_app.
  intros [Hin|Hin%list_elem_of_singleton].
  - destruct (Ho org Hin) as (m & ? & ? & ?). exists m. set_solver.
  - exists (mkOrgMember id user Owner now). cbn in *. set_solver.
Qed.

Lemma upsert_frame candidate p now s r s' :
  upsert_write candidate p now s = Ok (r, s') → organizations s' = organizations s ∧ org_members s' = org_members s.
Proof.
  assert (∀ id s u s', write_user id p now s = Ok (u, s') →
    organizations s' = organizations s ∧ org_members s' = org_members s) as Hw.
  { intros id t u t'. unfold write_user. repeat case_match; try done; by intros [= <- <-]. }
  intros Hu. unfold upsert_write in Hu. apply tbind_Ok in Hu as (ex & s0 & [= <- <-] & Hu).
  apply tbind_Ok in Hu as (idn & s1 & Hi & Hu). apply tbind_Ok in Hu as (o & s2 & [= <- <-] & Hu).
  assert (s' = s1) as -> by (destruct (user_row _ _); [by injection Hu|done]).
  destruct (identity_user _ _ _).
  - apply tbind_Ok in Hi as ([] & s3 & Hi & [= <- <-]). cbn beta in Hi.
    destruct (user_exists _ _); [by eapply Hw|by injection Hi as <-].
  - apply tbind_Ok in Hi as ([] & s3 & Hi & Hr). apply tbind_Ok in Hr as ([] & s4 & [= <-] & [= <- <-]).
    cbn. by eapply Hw.
Qed.

Lemma run_op_owned op s : orgs_wf s → all_owned s → all_owned (run_op op s).
Proof.
  intros Hwf Hs. destruct op; cbn; try (apply trun_keeps; [done|intros a s' Hr]).
  - apply update_org_Ok in Hr as [->|[n Hr]]; [done|]. apply (update_orgs_ids OrgDb) in Hr as (Hi & Hm & _); [|done].
    apply (all_owned_same s); [done..|]. by rewrite Hm.
  - unfold set_org_avatar_tx in Hr. apply tbind_Ok in Hr as (n & s1 & Hu & Hr).
    apply (update_orgs_ids OrgDb) in Hu as (Hi & Hm & _); [|done].
    assert (s' = s1) as -> by (case_match; [done|by injection Hr]). apply (all_owned_same s); [done..|]. by rewrite Hm.
  - unfold set_org_language_tx in Hr. apply tbind_Ok in Hr as (n & s1 & Hu & Hr).
    apply (update_orgs_ids AuthDb) in Hu as (Hi & Hm & _); [|done].
    assert (s' = s1) as -> by (case_match; [done|by injection Hr]). apply (all_owned_same s); [done..|]. by rewrite Hm.
  - unfold set_org_rule, trun. destruct (update_orgs _ _ _ _) as [[n s1]| |] eqn:Hu; [|done..]. cbn.
    apply (update_orgs_ids AuthDb) in Hu as (Hi & Hm & _); [|done]. apply (all_owned_same s); [done..|]. by rewrite Hm.
  - unfold delete_org_tx in Hr. repeat case_match; try done. injection Hr as _ <-.
    apply (all_owned_more s); [done| |]; cbn.
    + intros o (r & -> & [_ Hr]%list_elem_of_filter)%list_elem_of_fmap. apply list_elem_of_fmap. eauto.
    + intros m Hm _ (r & Ho & [Hr _]%list_elem_of_filter)%list_elem_of_fmap. apply list_elem_of_filter.
      split; [congruence|done].
  - by eapply change_role_keeps_owned.
  - by eapply remove_member_keeps_owned.
  - unfold create_invites_tx in Hr. case_match; [done|]. apply issue_invites_frame in Hr as [H4 H5].
    apply (all_owned_same s); [done|congruence|]. by rewrite H5.
  - unfold resend_invite. repeat case_match; done.
  - unfold revoke_invite_tx in Hr. case_match; [done|]. by injection Hr as _ <-.
  - apply join_claims_mono in Hr as [Ho Hm]. apply (all_owned_same s); [done|congruence|done].
  - apply res_bind_Ok in Hr as (row & _ & [Ho Hm]%accept_claim_mono). apply (all_owned_same s); [done|congruence|done].
  - unfold upsert_from_oidc, trun. destruct (upsert_write _ _ _ _) as [[[r n] s1]| |] eqn:Hu; [|done..].
    apply upsert_frame in Hu as [Ho Hm]. cbn. apply (all_owned_same s); [done|congruence|]. by rewrite Hm.
  - apply try_insert_org_Ok in Hr as (Hr & _). by eapply insert_org_owned.
  - apply bootstrap_Ok in Hr as [(_ & -> & _)|(sl & _ & _ & _ & Hr)]; [done|]. by eapply insert_org_owned.
  - apply insert_member_mono in Hr as (Ho & _ & Hm). apply (all_owned_same s); [done|congruence|done].
  - done.
  - unfold insert_oauth_state_tx in Hr. repeat case_match; try done. by injection Hr as _ <-.
  - done.
Qed.

Lemma delete_org_no_panic org s m : orgs_wf s → delete_org_tx org s ≠ Panic m.
Proof.
  intros Hs. unfold delete_org_tx. destruct (Nat.ltb_spec 1 (length (filter (λ r, og_id r = org) (organizations s))))
    as [Hl|_]; [|by case_match]. exfalso. destruct (wf_org _ Hs) as (Hnd & _).
  apply (NoDup_fmap_filter _ (λ r, og_id r = org)) in Hnd.
  pose proof (λ r, proj1 (list_elem_of_filter (λ r, og_id r = org) (organizations s) r)) as Hin.
  destruct (filter _ _) as [|x [|y l]]; cbn in Hl; [lia..|].
  rewrite !fmap_cons, NoDup_cons in Hnd. destruct Hnd as [Hnd _]. apply Hnd.
  destruct (Hin x) as [Hx _]; [by left|]. destruct (Hin y) as [Hy _]; [right; by left|].
  rewrite elem_of_cons. left. congruence.
Qed.

(** C32: However many operations run one after the other from empty tables: every key of
    the tables is unique (one membership per person and organisation, one pending
    invitation per address, one row per token), every row points at its organisation,
    every organisation has an owner, and the assertion of the deletion never trips. *)
Theorem orgs_keep_owner (ops : list OrgOp) :
  let s := foldl (λ s op, run_op op s) empty_orgs ops in
  orgs_wf s ∧ all_owned s ∧ ∀ org m, delete_org_tx org s ≠ Panic m.
Proof.
  assert (∀ s, orgs_wf s ∧ all_owned s → let s' := foldl (λ s op, run_op op s) s ops in
    orgs_wf s' ∧ all_owned s') as Hops.
  { induction ops as [|op ops IH]; intros s [Hw Ho]; [done|]. cbn. apply IH.
    split; [by apply run_op_wf|by apply run_op_owned]. }
  destruct (Hops empty_orgs) as [Hw Ho].
  - split; [|by intros o ?%elem_of_nil]. constructor; cbn; repeat split; try constructor.
  - split_and!; [done..|]. intros org m. by apply delete_org_no_panic.
Qed.
End operations.

(** ** One admission per invitation *)

Section interleaving.
Context `{Citext, Sha256, Lowercase, UrlParser}.

(** Claims keep every invitation, and what is consumed stays so. *)
Definition claims_keep (s s' : orgs) : Prop :=
  iv_id <$> org_invites s' = iv_id <$> org_invites s ∧
  ∀ r', r' ∈ org_invites s' → ∃ r, r ∈ org_invites s ∧ iv_id r = iv_id r' ∧
    (iv_consumed_at r ≠ None → iv_consumed_at r' ≠ None).

#[local] Instance claims_keep_pre : PreOrder claims_keep.
Proof.
  split.
  - intros s. split; [done|]. eauto.
  - intros s1 s2 s3 [Hi1 Hc1] [Hi2 Hc2]. split; [congruence|]. intros r3 Hr3.
    destruct (Hc2 r3 Hr3) as (r2 & Hr2 & Hi & Hc). destruct (Hc1 r2 Hr2) as (r1 & Hr1 & Hi' & Hc').
    exists r1. split_and!; [done|congruence|tauto].
Qed.

Lemma claims_keep_same s s' : org_invites s' = org_invites s → claims_keep s s'.
Proof. intros Hi. split; rewrite Hi; eauto. Qed.

Lemma claim_invite_keeps id now s o s' : claim_invite id now s = Ok (o, s') → claims_keep s s'.
Proof.
  intros [(_ & -> & _)|(_ & r & _ & _ & ->)]%claim_invite_Ok; [reflexivity|]. split; cbn.
  - by rewrite update_where_fmap.
  - intros r' (r0 & Hr0 & ->)%elem_of_update_where. exists r0. split; [done|]. by case_decide.
Qed.

Lemma join_claims_keeps user rows now active s o s' :
  join_claims user rows now active s = Ok (o, s') → claims_keep s s'.
Proof.
  revert active s. induction rows as [|r rows IH]; intros active s Hj; cbn in Hj; [by injection Hj as _ <-|].
  apply tbind_Ok in Hj as (c & s1 & Hc%claim_invite_keeps & Hj). etrans; [exact Hc|].
  destruct c; [|by eapply IH].
  apply tbind_Ok in Hj as (? & s2 & (_ & Hm & _)%insert_member_mono & Hj). etrans; [|by eapply IH].
  by apply claims_keep_same.
Qed.

Lemma accept_claim_keeps user row now s a s' : accept_claim user row now s = Ok (a, s') → claims_keep s s'.
Proof.
  unfold accept_claim. intros Ha. apply tbind_Ok in Ha as (c & s1 & Hc%claim_invite_keeps & Ha).
  destruct c; [|done]. apply tbind_Ok in Ha as (? & s2 & (_ & Hm & _)%insert_member_mono & Ha).
  case_match; [|done]. injection Ha as _ <-. etrans; [exact Hc|]. by apply claims_keep_same.
Qed.

Lemma commit_open_keeps t s : claims_keep s (commit_open t s).
Proof.
  destruct t; cbn; apply trun_keeps; try reflexivity; intros a s' Hr.
  - unfold change_role_write in Hr. case_match; [done|]. injection Hr as _ <-. by apply claims_keep_same.
  - unfold remove_member_write in Hr. case_match; [done|]. injection Hr as _ <-. by apply claims_keep_same.
  - by eapply accept_claim_keeps.
  - by eapply join_claims_keeps.
Qed.

Lemma commit_wf t s : orgs_wf s → orgs_wf (commit_open t s).
Proof.
  intros Hs. destruct t; cbn; apply trun_keeps; try done; intros a s' Hr.
  - by eapply change_role_write_wf.
  - by eapply remove_member_write_wf.
  - by eapply accept_claim_wf.
  - by eapply join_claims_wf.
Qed.

(** An operation in one step rewrites or drops invitations without touching their
    consumption, and adds only those of its own ids. *)
Definition invites_from (ids : list InviteId) (s s' : orgs) : Prop :=
  ∀ r', r' ∈ org_invites s' →
    (∃ r, r ∈ org_invites s ∧ iv_id r = iv_id r' ∧ iv_consumed_at r = iv_consumed_at r') ∨
    (iv_id r' ∈ ids ∧ iv_consumed_at r' = None).

Lemma invites_from_same ids s s' : org_invites s' = org_invites s → invites_from ids s s'.
Proof. intros Hi r'. rewrite Hi. eauto. Qed.
Lemma invites_from_mono ids ids' s s' : (∀ i, i ∈ ids → i ∈ ids') → invites_from ids s s' → invites_from ids' s s'.
Proof. intros Hi Hf r' Hr'. destruct (Hf r' Hr') as [|[? ?]]; eauto. Qed.
Lemma invites_from_trans ids s1 s2 s3 : invites_from ids s1 s2 → invites_from ids s2 s3 → invites_from ids s1 s3.
Proof.
  intros H12 H23 r3 Hr3. destruct (H23 r3 Hr3) as [(r2 & Hr2 & Hi & Hc)|]; [|by right].
  destruct (H12 r2 Hr2) as [(r1 & Hr1 & Hi' & Hc')|[Hi' Hc']]; [left|right; split; congruence].
  exists r1. split_and!; congruence.
Qed.
Lemma invites_from_update ids s id f :
  (∀ r, iv_id (f r) = iv_id r ∧ iv_consumed_at (f r) = iv_consumed_at r) →
  invites_from ids s (set_invites (update_where (λ r, iv_id r = id) f (org_invites s)) s).
Proof.
  intros Hf r' (r & Hr & ->)%elem_of_update_where. left. exists r. destruct (Hf r). by case_decide.
Qed.

Lemma upsert_invite_from new s id s' :
  iv_consumed_at new = None → upsert_invite new s = Ok (id, s') → invites_from [iv_id new] s s'.
Proof.
  intros Hn. unfold upsert_invite. destruct (List.find _ _).
  - repeat case_match; try done. intros [= _ <-]. by apply invites_from_update.
  - repeat case_match; try done. intros [= _ <-] r'. cbn. rewrite elem_of_app, list_elem_of_singleton.
    intros [Hr| ->]; [eauto|]. right. split; [by left|done].
Qed.

Lemma issue_invites_from rnd org emails role by_ now exp n s l s' :
  issue_invites rnd org emails role by_ now exp n s = Ok (l, s') →
  invites_from (ie_id rnd <$> seq n (length emails)) s s'.
Proof.
  revert n s l s'. induction emails as [|e es IH]; intros n s l s' Hi; cbn in Hi.
  - injection Hi as _ <-. by apply invites_from_same.
  - apply tbind_Ok in Hi as (tok & s1 & Ht & Hi). unfold tlift in Ht. destruct (mint_token _); [|done..].
    injection Ht as <- <-. apply tbind_Ok in Hi as (id & s2 & Hu & Hi). apply upsert_invite_from in Hu; [|done].
    apply tbind_Ok in Hi as (r & s3 & Hr%IH & [= _ <-]). cbn.
    eapply invites_from_trans; [eapply invites_from_mono; [|exact Hu]|eapply invites_from_mono; [|exact Hr]]; set_solver.
Qed.

Lemma run_op_from op s : one_step op = true → invites_from (new_invites op) s (run_op op s).
Proof.
  intros Hop. destruct op; try done; cbn; try (apply trun_keeps; [by apply invites_from_same|intros a s' Hr]).
  - apply update_org_Ok in Hr as [->|[n Hr]]; [by apply invites_from_same|].
    apply (update_orgs_ids OrgDb) in Hr as (_ & _ & ->); [|done]. by apply invites_from_same.
  - unfold set_org_avatar_tx in Hr. apply tbind_Ok in Hr as (n & s1 & Hu & Hr).
    apply (update_orgs_ids OrgDb) in Hu as (_ & _ & Hu); [|done].
    assert (s' = s1) as -> by (case_match; [done|by injection Hr]). rewrite Hu. by apply invites_from_same.
  - unfold set_org_language_tx in Hr. apply tbind_Ok in Hr as (n & s1 & Hu & Hr).
    apply (update_orgs_ids AuthDb) in Hu as (_ & _ & Hu); [|done].
    assert (s' = s1) as -> by (case_match; [done|by injection Hr]). rewrite Hu. by apply invites_from_same.
  - unfold set_org_rule, trun. destruct (update_orgs _ _ _ _) as [[n s1]| |] eqn:Hu; [|by apply invites_from_same..].
    cbn. apply (update_orgs_ids AuthDb) in Hu as (_ & _ & ->); [|done]. by apply invites_from_same.
  - unfold delete_org_tx in Hr. repeat case_match; try done. injection Hr as _ <-.
    intros r' [_ Hr']%list_elem_of_filter. eauto.
  - unfold create_invites_tx in Hr. case_match; [done|]. by eapply issue_invites_from.
  - unfold resend_invite. repeat case_match; try (by apply invites_from_same). cbn. by apply invites_from_update.
  - unfold revoke_invite_tx in Hr. case_match; [done|]. injection Hr as _ <-.
    intros r' [_ Hr']%list_elem_of_filter. eauto.
  - unfold upsert_from_oidc, trun. destruct (upsert_write _ _ _ _) as [[[r n] s1]| |] eqn:Hu; [|by apply invites_from_same..].
    cbn. apply invites_from_same. clear -Hu. unfold upsert_write in Hu.
    apply tbind_Ok in Hu as (ex & s0 & [= <- <-] & Hu). apply tbind_Ok in Hu as (idn & s2 & Hi & Hu).
    apply tbind_Ok in Hu as (o & s3 & [= <- <-] & Hu).
    assert (s1 = s2) as -> by (destruct (user_row _ _); [by injection Hu|done]).
    assert (∀ id t u t', write_user id p now t = Ok (u, t') → org_invites t' = org_invites t) as Hw.
    { intros id t u t'. unfold write_user. repeat case_match; try done; by intros [= <- <-]. }
    destruct (identity_user _ _ _).
    + apply tbind_Ok in Hi as ([] & s3 & Hi & [= <- <-]). cbn beta in Hi.
      destruct (user_exists _ _); [by eapply Hw|by injection Hi as <-].
    + apply tbind_Ok in Hi as ([] & s3 & Hi & Hr). apply tbind_Ok in Hr as ([] & s4 & [= <-] & [= <- <-]).
      cbn. by eapply Hw.
  - apply try_insert_org_Ok in Hr as (Hr & _). apply insert_org_and_owner_Ok in Hr as (_ & _ & _ & _ & _ & ->).
    by apply invites_from_same.
  - apply bootstrap_Ok in Hr as [(_ & -> & _)|(sl & _ & _ & _ & Hr)]; [by apply invites_from_same|].
    apply insert_org_and_owner_Ok in Hr as (_ & _ & _ & _ & _ & ->). by apply invites_from_same.
  - apply insert_member_mono in Hr as (_ & Hr & _). by apply invites_from_same.
  - by apply invites_from_same.
  - unfold insert_oauth_state_tx in Hr. repeat case_match; try done. injection Hr as _ <-. by apply invites_from_same.
  - by apply invites_from_same.
Qed.

Lemma elem_of_consumed i s : i ∈ consumed_ids s ↔ ∃ r, r ∈ org_invites s ∧ iv_id r = i ∧ iv_consumed_at r ≠ None.
Proof. unfold consumed_ids. rewrite list_elem_of_fmap. setoid_rewrite list_elem_of_filter. naive_solver. Qed.

Lemma claims_keep_consumed s s' i : orgs_wf s → claims_keep s s' → i ∈ consumed_ids s → i ∈ consumed_ids s'.
Proof.
  intros Hs [Hi Hk]. rewrite !elem_of_consumed. intros (r & Hr & <- & Hc).
  assert (iv_id r ∈ iv_id <$> org_invites s') as (r' & Hid & Hr')%list_elem_of_fmap.
  { rewrite Hi. apply list_elem_of_fmap. eauto. }
  exists r'. split_and!; [done..|]. destruct (Hk r' Hr') as (r0 & Hr0 & Hid0 & Hc0). apply Hc0.
  destruct (wf_inv _ Hs) as (Hnd & _). by rewrite (NoDup_fmap_eq iv_id _ r0 r Hnd Hr0 Hr) by congruence.
Qed.

(** *** Who becomes a member *)

Definition new_member (s s' : orgs) (m : OrgMemberRow) : Prop :=
  m ∈ org_members s' ∧ member_key m ∉ member_key <$> org_members s.

Lemma insert_member_new {E} (db : DbError → E) org user role now s u s' m :
  insert_member db org user role now s = Ok (u, s') → new_member s s' m → m = mkOrgMember org user role now.
Proof.
  intros [[-> _]|(-> & _)]%insert_member_Ok [Hm Hn].
  - destruct Hn. apply list_elem_of_fmap. eauto.
  - cbn in Hm. apply elem_of_app in Hm as [Hm|Hm%list_elem_of_singleton]; [|done].
    destruct Hn. apply list_elem_of_fmap. eauto.
Qed.

Lemma join_claims_new user rows now active s o s' m :
  orgs_wf s → join_claims user rows now active s = Ok (o, s') → new_member s s' m →
  om_user_id m = user ∧ ∃ row, row ∈ rows ∧ iv_org_id row = om_org_id m ∧ iv_role row = om_role m
    ∧ iv_id row ∈ newly_consumed s s'.
Proof.
  revert active s. induction rows as [|r rows IH]; intros active s Hs Hj Hm; cbn in Hj.
  { injection Hj as _ <-. destruct Hm as [Hm Hn]. destruct Hn. apply list_elem_of_fmap. eauto. }
  apply tbind_Ok in Hj as (c & s1 & Hc & Hj). pose proof (claim_invite_wf _ _ _ _ _ Hs Hc) as Hs1.
  apply claim_invite_Ok in Hc as [(-> & -> & _)|(-> & row & Hrow & Hpend & Hs1eq)].
  { destruct (IH active s) as (Hu & row & Hr & ?); [done..|]. split; [done|]. exists row. split; [by right|done]. }
  apply tbind_Ok in Hj as (u & s2 & Hi & Hj). pose proof (insert_member_wf _ _ _ _ _ _ _ _ Hs1 Hi) as Hs2.
  assert (org_members s1 = org_members s) as Hmem by (by rewrite Hs1eq).
  pose proof (join_claims_keeps _ _ _ _ _ _ _ Hj) as Hk.
  pose proof (insert_member_mono _ _ _ _ _ _ _ _ Hi) as (_ & Hinv & _).
  assert (∀ i, i ∈ consumed_ids s1 → i ∈ consumed_ids s2) as Hc12.
  { intros i. unfold consumed_ids. by rewrite Hinv. }
  assert (∀ i, i ∈ consumed_ids s → i ∈ consumed_ids s1) as Hc01.
  { intros i Hi1. eapply claims_keep_consumed; [exact Hs| |exact Hi1]. rewrite Hs1eq. split; cbn.
    - by rewrite update_where_fmap.
    - intros r' (r0 & Hr0 & ->)%elem_of_update_where. exists r0. split; [done|]. by case_decide. }
  destruct (decide (member_key m ∈ member_key <$> org_members s2)) as [Hin|Hin].
  - assert (m ∈ org_members s2) as Hm2.
    { apply list_elem_of_fmap in Hin as (m' & Hkey & Hm'). destruct Hm as [Hm _].
      destruct (wf_mem s') as [Hnd _]; [by eapply join_claims_wf|].
      apply join_claims_mono in Hj as [_ Hj]. by rewrite (NoDup_fmap_eq member_key _ m m' Hnd Hm (Hj m' Hm') Hkey). }
    apply (insert_member_new _ _ _ _ _ _ _ _ m) in Hi as ->; [|split; [done|rewrite Hmem; apply Hm]].
    cbn. split; [done|]. exists r. split_and!; [by left|done..|].
    apply invite_row_Some in Hrow as [Hrow Hid]. apply list_elem_of_filter. split.
    + rewrite elem_of_consumed. intros (r0 & Hr0 & Hid0 & Hc0). destruct (wf_inv _ Hs) as (Hnd & _).
      by rewrite (NoDup_fmap_eq iv_id _ r0 row Hnd Hr0 Hrow) in Hc0 by congruence.
    + eapply claims_keep_consumed; [exact Hs2|exact Hk|]. apply Hc12, elem_of_consumed. rewrite Hs1eq. cbn.
      eexists. split; [apply elem_of_update_where; exists row; split; [exact Hrow|reflexivity]|].
      by rewrite decide_True by done.
  - destruct (IH _ s2 Hs2 Hj) as (Hu & row' & Hr & ? & ? & Hnew); [split; [apply Hm|done]|]. split; [done|].
    exists row'. split_and!; [by right|done..|]. apply list_elem_of_filter in Hnew as [Hn1 Hn2].
    apply list_elem_of_filter. split; [|done]. intros Hx. apply Hn1. auto.
Qed.

Lemma accept_claim_join user row now s a s' :
  accept_claim user row now s = Ok (a, s') → ∃ o, join_claims user [row] now None s = Ok (o, s').
Proof.
  unfold accept_claim. intros Ha. apply tbind_Ok in Ha as (c & s1 & Hc & Ha). destruct c; [|done].
  apply tbind_Ok in Ha as (u & s2 & Hi & Ha). assert (s' = s2) as -> by (case_match; [by injection Ha|done]).
  eexists. cbn [join_claims]. apply tbind_Ok. eexists _, s1. split; [exact Hc|].
  apply tbind_Ok. eexists _, s2. split; [exact Hi|reflexivity].
Qed.

Lemma not_new s s' m : (∀ m, m ∈ org_members s' → member_key m ∈ member_key <$> org_members s) → ¬ new_member s s' m.
Proof. intros Hs [Hm Hn]. by apply Hn, Hs. Qed.
Lemma same_not_new s s' m : org_members s' = org_members s → ¬ new_member s s' m.
Proof. intros Hs. apply not_new. rewrite Hs. intros m' Hm'. apply list_elem_of_fmap. eauto. Qed.

Lemma trun_new {E A} (f : Tx orgs E A) s m (Q : Prop) :
  (∀ a s', f s = Ok (a, s') → new_member s s' m → Q) → new_member s (trun f s).2 m → Q.
Proof.
  intros Hf. unfold trun. destruct (f s) as [[a s']| |] eqn:Er; cbn; [by eapply Hf|by intros ?%same_not_new..].
Qed.

Lemma commit_new t s m :
  orgs_wf s → new_member s (commit_open t s) m →
  om_user_id m = open_user t ∧ ∃ row, row ∈ open_rows t ∧ iv_org_id row = om_org_id m ∧ iv_role row = om_role m
    ∧ iv_id row ∈ newly_consumed s (commit_open t s).
Proof.
  intros Hs. destruct t as [org user role|org user|user row now|user rows now]; cbn [commit_open open_user open_rows].
  - intros Hn. exfalso. revert Hn. unfold trun, change_role_write. destruct (_ =? 0); cbn; [by intros ?%same_not_new|].
    apply not_new. cbn. intros m' (m0 & Hm0 & ->)%elem_of_update_where.
    apply list_elem_of_fmap. exists m0. split; [by case_decide|done].
  - intros Hn. exfalso. revert Hn. unfold trun, remove_member_write. destruct (_ =? 0); cbn; [by intros ?%same_not_new|].
    apply not_new. cbn. intros m' [_ Hm']%list_elem_of_filter. apply list_elem_of_fmap. eauto.
  - unfold trun. destruct (accept_claim user row now s) as [[a s']| |] eqn:Ea; cbn.
    + apply accept_claim_join in Ea as [o Ho]. by eapply join_claims_new.
    + by intros ?%same_not_new.
    + by intros ?%same_not_new.
  - unfold trun. destruct (join_claims user rows now None s) as [[a s']| |] eqn:Ea; cbn.
    + by eapply join_claims_new.
    + by intros ?%same_not_new.
    + by intros ?%same_not_new.
Qed.

Lemma insert_org_new id user slug name language now s s' m :
  insert_org_and_owner id user slug name language now s = Ok (tt, s') → new_member s s' m →
  om_role m = Owner ∧ om_org_id m ∉ og_id <$> organizations s.
Proof.
  intros (_ & Hid & _ & _ & _ & ->)%insert_org_and_owner_Ok [Hm Hn]. cbn in Hm.
  apply elem_of_app in Hm as [Hm|Hm%list_elem_of_singleton]; [destruct Hn; apply list_elem_of_fmap; eauto|].
  by rewrite Hm.
Qed.

Lemma op_new op s m :
  one_step op = true → new_member s (run_op op s) m →
  om_role m = Member ∨ (om_role m = Owner ∧ om_org_id m ∉ og_id <$> organizations s).
Proof.
  intros Hop. destruct op; try done; cbn [run_op].
  1-3,5-6,8,10-12,14: apply trun_new; intros a s' Hr.
  - apply update_org_Ok in Hr as [->|[n Hr]]; [by intros ?%same_not_new|].
    apply (update_orgs_ids OrgDb) in Hr as (_ & Hm & _); [|done]. by intros ?%same_not_new.
  - unfold set_org_avatar_tx in Hr. apply tbind_Ok in Hr as (n & s1 & Hu & Hr).
    apply (update_orgs_ids OrgDb) in Hu as (_ & Hm & _); [|done].
    assert (s' = s1) as -> by (case_match; [done|by injection Hr]). by intros ?%same_not_new.
  - unfold set_org_language_tx in Hr. apply tbind_Ok in Hr as (n & s1 & Hu & Hr).
    apply (update_orgs_ids AuthDb) in Hu as (_ & Hm & _); [|done].
    assert (s' = s1) as -> by (case_match; [done|by injection Hr]). by intros ?%same_not_new.
  - unfold delete_org_tx in Hr. repeat case_match; try done. injection Hr as _ <-.
    intros Hn. exfalso. revert Hn. apply not_new. cbn. intros m' [_ Hm']%list_elem_of_filter. apply list_elem_of_fmap. eauto.
  - unfold create_invites_tx in Hr. case_match; [done|]. apply issue_invites_frame in Hr as [_ Hm]. by intros ?%same_not_new.
  - unfold revoke_invite_tx in Hr. case_match; [done|]. injection Hr as _ <-. by intros ?%same_not_new.
  - apply try_insert_org_Ok in Hr as (Hr & _). right. by eapply insert_org_new.
  - apply bootstrap_Ok in Hr as [(_ & -> & _)|(sl & _ & _ & _ & Hr)]; [by intros ?%same_not_new|].
    right. by eapply insert_org_new.
  - intros Hn. left. by rewrite (insert_member_new _ _ _ _ _ _ _ _ m Hr Hn).
  - unfold insert_oauth_state_tx in Hr. repeat case_match; try done. injection Hr as _ <-. by intros ?%same_not_new.
  - unfold set_org_rule, trun. destruct (update_orgs _ _ _ _) as [[n s1]| |] eqn:Hu; cbn; [|by intros ?%same_not_new..].
    apply (update_orgs_ids AuthDb) in Hu as (_ & Hm & _); [|done]. by intros ?%same_not_new.
  - unfold resend_invite. repeat case_match; by intros ?%same_not_new.
  - unfold upsert_from_oidc, trun. destruct (upsert_write _ _ _ _) as [[[r n] s1]| |] eqn:Hu; cbn; [|by intros ?%same_not_new..].
    apply upsert_frame in Hu as [_ Hm]. by intros ?%same_not_new.
  - by intros ?%same_not_new.
  - by intros ?%same_not_new.
Qed.

(** *** The worlds that can be reached *)

Record world_ok (w : oworld) : Prop := mkWorldOk {
  wo_wf : orgs_wf (ow_tables w);
  wo_once : NoDup (ow_admitted w).*1;
  wo_issued : ∀ r, r ∈ org_invites (ow_tables w) → iv_id r ∈ ow_issued w;
  wo_admitted : ∀ i, i ∈ (ow_admitted w).*1 → i ∈ ow_issued w;
  wo_consumed : ∀ i, i ∈ (ow_admitted w).*1 → ∀ r, r ∈ org_invites (ow_tables w) → iv_id r = i →
    iv_consumed_at r ≠ None }.

Lemma newly_NoDup s s' : orgs_wf s' → NoDup (newly_consumed s s').
Proof.
  intros Hs. unfold newly_consumed. apply NoDup_filter. unfold consumed_ids.
  apply NoDup_fmap_filter. by destruct (wf_inv _ Hs).
Qed.

Lemma world_ok_step w w' : world_ok w → ostep w w' → world_ok w'.
Proof.
  intros [Hwf Ho Hi Ha Hc] Hstep. destruct Hstep as [t s ts adm ids|t s ts1 ts2 adm ids|op s ts adm ids Hop Hnew]; cbn in *.
  - by constructor.
  - pose proof (commit_open_keeps t s) as [Hids Hk]. pose proof (commit_wf t s Hwf) as Hwf'.
    assert (((λ i, (i, open_user t)) <$> newly_consumed s (commit_open t s)).*1 = newly_consumed s (commit_open t s)) as Hfst.
    { rewrite <-list_fmap_compose. apply list_fmap_id. }
    assert (∀ r, r ∈ org_invites (commit_open t s) → iv_id r ∈ iv_id <$> org_invites s) as Hsub.
    { intros r Hr. rewrite <-Hids. apply list_elem_of_fmap. eauto. }
    assert (∀ i, i ∈ newly_consumed s (commit_open t s) → i ∈ iv_id <$> org_invites s) as Hns.
    { intros i [_ (r & Hr & <- & _)%elem_of_consumed]%list_elem_of_filter. by apply Hsub. }
    constructor; cbn; rewrite ?fmap_app, ?Hfst.
    + done.
    + apply NoDup_app. split_and!; [done| |by apply newly_NoDup]. intros i Hin Hi2.
      pose proof (Hns i Hi2) as (r & -> & Hr)%list_elem_of_fmap. apply list_elem_of_filter in Hi2 as [Hi2 _].
      apply Hi2, elem_of_consumed. exists r. split_and!; [done..|]. by eapply Hc.
    + intros r Hr. pose proof (Hsub r Hr) as (r0 & -> & Hr0)%list_elem_of_fmap. by apply Hi.
    + intros i [Hin|Hin]%elem_of_app; [by apply Ha|]. apply Hns in Hin as (r & -> & Hr)%list_elem_of_fmap. by apply Hi.
    + intros i [Hin|Hin]%elem_of_app r Hr Hid.
      * destruct (Hk r Hr) as (r0 & Hr0 & Hid0 & Hc0). apply Hc0. eapply Hc; [exact Hin|done|congruence].
      * apply list_elem_of_filter in Hin as [_ (r1 & Hr1 & Hid1 & Hc1)%elem_of_consumed].
        destruct (wf_inv _ Hwf') as (Hnd & _). by rewrite (NoDup_fmap_eq iv_id _ r r1 Hnd Hr Hr1) by congruence.
  - pose proof (run_op_from op s Hop) as Hf. constructor; cbn; [by apply run_op_wf|done|..].
    + intros r Hr. apply elem_of_app. destruct (Hf r Hr) as [(r0 & Hr0 & <- & _)|[? _]]; eauto.
    + intros i Hin. apply elem_of_app. eauto.
    + intros i Hin r Hr Hid. destruct (Hf r Hr) as [(r0 & Hr0 & Hid0 & <-)|[Hnw _]].
      * eapply Hc; [exact Hin|done|congruence].
      * destruct (Hnew (iv_id r)); [done|]. rewrite Hid. by apply Ha.
Qed.

Lemma world_ok_reach w : rtc ostep oworld_init w → world_ok w.
Proof.
  intros Hr. assert (world_ok oworld_init) as H0'.
  { constructor; cbn; try (by intros ? ?%elem_of_nil); try constructor; cbn; repeat split; try constructor. }
  revert H0'. induction Hr as [|w1 w2 w3 Hs _ IH]; [done|]. intros H1'. by apply IH, (world_ok_step w1).
Qed.

(** C34: However logins, acceptances and the operations on members interleave between
    their reads and their writes: the tables keep their keys, an invitation admits at
    most one person and is consumed for good, and nobody becomes a member except as a
    plain member linked from a chat platform, as the owner of the organisation being
    created, or with the role of an invitation to that organisation which his own
    transaction read and which this very commit consumes. *)
Theorem invites_admit_once (w w' : oworld) :
  rtc ostep oworld_init w →
  orgs_wf (ow_tables w) ∧ NoDup (ow_admitted w).*1
  ∧ (∀ i user r, (i, user) ∈ ow_admitted w → r ∈ org_invites (ow_tables w) → iv_id r = i → iv_consumed_at r ≠ None)
  ∧ (ostep w w' → ∀ m, new_member (ow_tables w) (ow_tables w') m →
       om_role m = Member ∨ (om_role m = Owner ∧ om_org_id m ∉ og_id <$> organizations (ow_tables w)) ∨
       ∃ t row, t ∈ ow_open w ∧ row ∈ open_rows t ∧ open_user t = om_user_id m
         ∧ iv_org_id row = om_org_id m ∧ iv_role row = om_role m
         ∧ iv_id row ∉ (ow_admitted w).*1 ∧ (iv_id row, om_user_id m) ∈ ow_admitted w').
Proof.
  intros Hr%world_ok_reach. split_and!; [apply Hr|apply Hr| |].
  - intros i user r Hin. apply (wo_consumed w Hr). apply list_elem_of_fmap. by exists (i, user).
  - intros Hstep m Hm. pose proof (world_ok_step w w' Hr Hstep) as Hr'.
    destruct Hstep as [t s ts adm ids|t s ts1 ts2 adm ids|op s ts adm ids Hop Hnew]; cbn in Hm.
    + by apply same_not_new in Hm.
    + right. right. destruct (commit_new t s m) as (Hu & row & Hrow & Ho & Hrole & Hin); [apply Hr|done|].
      exists t, row. cbn. split_and!; try done.
      * set_solver.
      * intros Ha. pose proof (wo_once _ Hr') as Hnd. cbn in Hnd. rewrite fmap_app in Hnd.
        apply NoDup_app in Hnd as (_ & Hd & _). apply (Hd _ Ha), list_elem_of_fmap.
        exists (iv_id row, open_user t). split; [done|]. apply list_elem_of_fmap. eauto.
      * apply elem_of_app. right. apply list_elem_of_fmap. exists (iv_id row). by rewrite Hu.
    + destruct (op_new op s m Hop Hm); tauto.
Qed.
End interleaving.

(** ** Accepting an invitation *)

Section accept.
Context `{Citext, Sha256}.

Lemma invite_row_in r s : orgs_wf s → r ∈ org_invites s → invite_row (iv_id r) s = Some r.
Proof.
  intros Hs Hr. destruct (wf_inv _ Hs) as (Hnd & _). destruct (invite_row (iv_id r) s) as [r'|] eqn:E.
  - apply invite_row_Some in E as [Hr' Hid]. by rewrite (NoDup_fmap_eq iv_id _ r' r Hnd Hr' Hr Hid).
  - unfold invite_row in E. rewrite find_None_iff in E. specialize (E r Hr). unfold is_invite in E.
    by rewrite bool_decide_true in E.
Qed.

Lemma find_hash_in hash r s :
  orgs_wf s → r ∈ org_invites s → iv_token_hash r = hash →
  List.find (λ r, bool_decide (iv_token_hash r = hash)) (org_invites s) = Some r.
Proof.
  intros Hs Hr Hh. destruct (wf_inv _ Hs) as (_ & Hnd & _). destruct (List.find _ _) as [r'|] eqn:E.
  - apply find_Some_iff in E as [Hr' Hb]. bools.
    by rewrite (NoDup_fmap_eq iv_token_hash _ r' r Hnd Hr' Hr) by congruence.
  - rewrite find_None_iff in E. specialize (E r Hr). by rewrite bool_decide_true in E.
Qed.

Definition consumed_row (now : Z) (r : OrgInviteRow) : OrgInviteRow :=
  mkInvite (iv_id r) (iv_org_id r) (iv_email r) (iv_role r) (iv_token_hash r) (iv_invited_by r)
    (iv_created_at r) (iv_expires_at r) (Some now).

(** Every outcome of accepting a token.  An unknown, used or expired token is refused
    with its own error and changes nothing.  Otherwise the person is in the
    organisation, with the role already held there or else the invitation's, which is
    the role reported; the invitation is consumed, no other row changes, and the same
    token is refused to everybody from then on. *)
Theorem accept_invite_outcome (user : UserId) (token : InviteToken) (now : Z) (s : orgs) :
  orgs_wf s → user ∈ us_id <$> users s →
  let out := trun (accept_invite_tx user token now) s in
  match List.find (λ r, bool_decide (iv_token_hash r = hash_token token)) (org_invites s) with
  | None => out = (Err OrgNotFound, s)
  | Some r =>
      if decide (iv_consumed_at r ≠ None) then out = (Err InviteAlreadyConsumed, s)
      else if decide (iv_expires_at r ≤ now)%Z then out = (Err InviteExpired, s)
      else
        let org := iv_org_id r in
        let role := default (iv_role r) (membership user org s) in
        out.1 = Ok (mkAccepted org role) ∧ membership user org out.2 = Some role
        ∧ (∀ o u, (o, u) ≠ (org, user) → member_row o u out.2 = member_row o u s)
        ∧ org_invites out.2 = update_where (λ r', iv_id r' = iv_id r) (consumed_row now) (org_invites s)
        ∧ organizations out.2 = organizations s ∧ users out.2 = users s
        ∧ ∀ user' now', trun (accept_invite_tx user' token now') out.2 = (Err InviteAlreadyConsumed, out.2)
  end.
Proof.
  intros Hs Hu out. unfold out, accept_invite_tx, accept_lookup, trun. clear out.
  destruct (List.find _ _) as [r|] eqn:Ef; [|done]. apply find_Some_iff in Ef as [Hr Hh]. bools.
  destruct (decide (iv_consumed_at r ≠ None)) as [Hc|Hc].
  { rewrite bool_decide_true; [done|]. destruct (iv_consumed_at r); [by eexists|done]. }
  destruct (iv_consumed_at r) as [t|] eqn:Hcr; [by destruct Hc|]. rewrite bool_decide_false by (by intros []).
  destruct (decide (iv_expires_at r ≤ now)%Z) as [He|He].
  { by rewrite (proj2 (Z.leb_le _ _) He). }
  rewrite (proj2 (Z.leb_gt _ _)) by lia. cbn [res_bind].
  unfold accept_claim, claim_invite, tbind. rewrite (invite_row_in r s Hs Hr), bool_decide_true by done. cbn [res_bind fst snd].
  set (s1 := set_invites _ s).
  assert (org_exists (iv_org_id r) s1 = true) as Hoe.
  { apply org_exists_spec. destruct (wf_inv _ Hs) as (_ & _ & _ & Hf). rewrite Forall_forall in Hf. by apply Hf. }
  assert (user_exists user s1 = true) as Hue by (by apply user_exists_spec).
  assert (∀ s2 user' now', org_invites s2 = org_invites s1 →
    trun (accept_invite_tx user' token now') s2 = (Err InviteAlreadyConsumed, s2)) as Hagain.
  { intros s2 user' now' Hinv. unfold trun, accept_invite_tx, accept_lookup. rewrite Hinv.
    assert (orgs_wf s1) as Hs1.
    { eapply (claim_invite_wf (iv_id r) now s); [done|]. unfold claim_invite.
      by rewrite (invite_row_in r s Hs Hr), bool_decide_true. }
    rewrite (find_hash_in _ (consumed_row now r) s1); [|done| |done].
    - done.
    - cbn. apply elem_of_update_where. exists r. by rewrite decide_True by done. }
  unfold membership, insert_member. change (member_row (iv_org_id r) user s1) with (member_row (iv_org_id r) user s).
  destruct (member_row (iv_org_id r) user s) as [m|] eqn:Em; cbn [res_bind fst snd].
  - change (member_row (iv_org_id r) user s1) with (member_row (iv_org_id r) user s). rewrite Em. cbn [fst snd].
    change (member_row (iv_org_id r) user s1) with (member_row (iv_org_id r) user s). rewrite Em.
    split_and!; try done. intros user' now'. by apply Hagain.
  - rewrite Hoe, Hue. cbn [negb orb res_bind fst snd]. set (m := mkOrgMember _ _ _ _).
    set (s2 := set_members _ s1).
    assert (∀ o u, member_row o u s2 = match member_row o u s with Some x => Some x
      | None => if bool_decide (iv_org_id r = o) && bool_decide (user = u) then Some m else None end) as Hrow.
    { intros o u. unfold member_row. cbn. clear. induction (org_members s) as [|x l IH]; cbn; [done|].
      destruct (bool_decide (om_org_id x = o) && bool_decide (om_user_id x = u)); [done|exact IH]. }
    assert (member_row (iv_org_id r) user s2 = Some m) as Hme by (by rewrite Hrow, Em, !bool_decide_true).
    rewrite Hme. cbn [fst snd]. rewrite Hme. split_and!; try done.
    + intros o u Hne. rewrite Hrow. destruct (member_row o u s); [done|].
      destruct (bool_decide (iv_org_id r = o) && bool_decide (user = u)) eqn:Eb; [|done]. bools. congruence.
    + intros user' now'. by apply Hagain.
Qed.
End accept.

(** ** A concrete office *)

Module OrgDemo.
#[local] Instance fold_case : Citext := to_ascii_lowercase.
#[local] Instance digest : Sha256 := λ s, take 32 (s ++ repeat 0%N 32).
#[local] Instance lower : Lowercase := to_ascii_lowercase.
#[local] Instance no_urls : UrlParser := {| url_parse _ := inl []; host_parse _ := inl [] |}.

Definition profile (sub mail : string) : OidcProfile :=
  mkProfile (lit "https://idp.test") (mkOidcSubject (lit sub)) (mkEmail (lit mail)) true None None None.
Definition tok (k : N) : InviteToken := mkInviteToken (repeat (0x61 + k)%N 43).
Definition rnd (id k : N) : InviteEntropy :=
  mkInviteEntropy (λ n, (id + N.of_nat n)%N) (λ n, InviteToken_as_str (tok (k + N.of_nat n))).
Definition setup : list OrgOp :=
  [UpsertFromOidc 1 (profile "s1" "ann@acme.test") 0; UpsertFromOidc 2 (profile "s2" "bob@acme.test") 0;
   UpsertFromOidc 3 (profile "s3" "eve@else.test") 0; TryInsertOrg 10 1 (lit "acme") (lit "Acme") En None 1].
Definition tables0 : orgs := foldl (λ s op, run_op op s) empty_orgs setup.
Definition invite_bob : OrgOp := CreateInvites (rnd 100 0) 10 [mkEmail (lit "bob@acme.test")] Owner 1 2 INVITE_TTL.
Definition tables1 : orgs := run_op invite_bob tables0.
Definition row_bob : OrgInviteRow :=
  mkInvite 100 10 (lit "bob@acme.test") Owner (hash_token (tok 0)) 1 2 (2 + INVITE_TTL)%Z None.
Definition world1 : oworld := mkOworld tables1 [OpenAccept 2 row_bob 5] [] [100%N].
Definition tables2 : orgs := commit_open (OpenAccept 2 row_bob 5) tables1.
Definition world2 : oworld := mkOworld tables2 [] [(100%N, 2%N)] [100%N].

Lemma ops_reach ops s :
  forallb (λ op, one_step op && is_empty (new_invites op)) ops = true →
  rtc ostep (mkOworld s [] [] []) (mkOworld (foldl (λ s op, run_op op s) s ops) [] [] []).
Proof.
  revert s. induction ops as [|op ops IH]; intros s Ho; [done|]. cbn in Ho. bools.
  eapply rtc_l; [apply ostep_op; [done|]; by intros i _ ?%elem_of_nil|].
  destruct (new_invites op); [|done]. by apply IH.
Qed.

Lemma world1_reachable : rtc ostep oworld_init world1.
Proof.
  etrans; [apply (ops_reach setup empty_orgs); reflexivity|].
  eapply rtc_l; [apply (ostep_op invite_bob); [done|]; by intros i _ ?%elem_of_nil|].
  eapply rtc_l; [|apply rtc_refl].
  apply (ostep_open (OpenAccept 2 row_bob 5) tables1 [] [] [100%N]), (opens_accept _ _ (tok 0)). by vm_compute.
Qed.

Lemma world2_step : ostep world1 world2.
Proof. exact (ostep_commit (OpenAccept 2 row_bob 5) tables1 [] [] [] [100%N]). Qed.

(** Two owners who leave, or are demoted, at the same time each see the other: the
    guard counts without a lock, and the organisation ends without an owner. *)
Lemma concurrent_demotions_leave_no_owner : ∃ w : oworld, rtc ostep oworld_init w ∧ ¬ all_owned (ow_tables w).
Proof.
  assert (∀ a b : oworld, a = b → rtc ostep a b) as Hrefl by (intros a b ->; apply rtc_refl).
  exists (mkOworld (commit_open (OpenRemove 10 2) (commit_open (OpenRemove 10 1) tables2)) [] [(100%N, 2%N)] [100%N]).
  split.
  - etrans; [exact world1_reachable|]. eapply rtc_l; [exact world2_step|].
    eapply rtc_l; [apply (ostep_open (OpenRemove 10 1) tables2), opens_remove; by vm_compute|].
    eapply rtc_l; [apply (ostep_open (OpenRemove 10 2) tables2), opens_remove; by vm_compute|].
    eapply rtc_l; [apply (ostep_commit (OpenRemove 10 1) tables2 [] [OpenRemove 10 2])|].
    eapply rtc_l; [apply (ostep_commit (OpenRemove 10 2) _ [] [])|]. apply Hrefl. by vm_compute.
  - intros Ho. destruct (Ho 10%N) as (m & Hm & _).
    + replace (og_id <$> _) with [10%N] by (by vm_compute). by left.
    + replace (org_members _) with (@nil OrgMemberRow) in Hm by (by vm_compute). by apply elem_of_nil in Hm.
Qed.

(** At its instant of expiry an invitation is listed as pending and refused as expired. *)
Lemma invite_boundary :
  let t := (2 + INVITE_TTL)%Z in
  accept_lookup (tok 0) t tables1 = Err InviteExpired ∧ (iv_expires_at row_bob <? t)%Z = false.
Proof. by vm_compute. Qed.
End OrgDemo.

Lemma invites_admit_once_witness :
  rtc (@ostep OrgDemo.fold_case OrgDemo.digest OrgDemo.lower OrgDemo.no_urls) oworld_init OrgDemo.world2 ∧
  NoDup (ow_admitted OrgDemo.world2).*1 ∧ membership 2 10 (ow_tables OrgDemo.world2) = Some Owner.
Proof.
  assert (rtc (@ostep OrgDemo.fold_case OrgDemo.digest OrgDemo.lower OrgDemo.no_urls) oworld_init OrgDemo.world2) as Hr.
  { eapply rtc_r; [exact OrgDemo.world1_reachable|exact OrgDemo.world2_step]. }
  split; [exact Hr|]. split; [|vm_compute; reflexivity].
  exact (proj1 (proj2 (@invites_admit_once OrgDemo.fold_case OrgDemo.digest OrgDemo.lower OrgDemo.no_urls
    OrgDemo.world2 OrgDemo.world2 Hr))).
Defined.

Lemma accept_invite_outcome_witness :
  (trun (@accept_invite_tx OrgDemo.digest 2 (OrgDemo.tok 0) 5) OrgDemo.tables1).1 = Ok (mkAccepted 10 Owner).
Proof.
  assert (@orgs_wf OrgDemo.fold_case OrgDemo.tables1) as Hwf.
  { exact (wo_wf _ (@world_ok_reach OrgDemo.fold_case OrgDemo.digest OrgDemo.lower OrgDemo.no_urls _ OrgDemo.world1_reachable)). }
  assert (2%N ∈ us_id <$> users OrgDemo.tables1) as Hu by (vm_compute; set_solver).
  exact (proj1 (@accept_invite_outcome OrgDemo.fold_case OrgDemo.digest 2 (OrgDemo.tok 0) 5 _ Hwf Hu)).
Defined.
