(* ===== verification/OrgRoutes.v ===== *)
(** * Requests on organisations, and signing in

    [http/routes/org.rs], [http/routes/me.rs], [http/routes/auth.rs] and the claims
    of [auth/oidc.rs]: each handler is a program of store calls between which others
    may act and any of which may fail.  Signing a session, the exchange with the
    identity provider, the seeding of the first agent, the signup grant and random
    values are the environment's; mails, cookies' attributes and the caches are not
    modelled. *)

From Stdlib Require Import ZArith Lia Ascii String.
From stdpp Require Import base list strings sets.
From S2P Require Import Prelude Program Types Network Tools Identity Orgs.

(** The errors these handlers give. *)
Inductive HttpError :=
| HBadRequest (msg : str)
| HNotFound
| HForbidden (reason : string)
| HParse (e : ParseError)
| HAuth (e : AuthError)
| HOrg (e : OrgError)
| HAgent (msg : str)
| HBilling (msg : str)
| HInternal.

Record Principal := mkPrincipal { pr_user_id : UserId; pr_active_org_id : OrgId; pr_role : OrgRole }.

(** The store calls of a handler, with what matters of their results. *)
Inductive OrgCall :=
| CMembership (user : UserId) (org : OrgId) (r : option OrgRole)
| CRead (what : string)
| CWrite (op : OrgOp) (ok : bool).

Abbreviation OrgProg := (Prog orgs OrgCall HttpError).

Record Session := mkSession { ss_user : UserId; ss_org : option OrgId; ss_token : str }.
(** [JwtSigner::mint] *)
Class JwtSigner := jwt_mint : UserId → option OrgId → res AuthError str.

(** What the requests get from outside: the clock, fresh ids and tokens, suffixes,
    and the results of the calls to the agents and to billing. *)
Record OrgEnv := mkOrgEnv {
  oe_net : Net orgs;
  oe_now : Z;
  oe_rnd : InviteEntropy;
  oe_org_id : nat → OrgId;
  oe_user_id : UserId;
  oe_suffix : nat → str;
  oe_seed : OrgId → res str unit;
  oe_grant : OrgId → res str unit }.

Definition db_org (m : str) : OrgError := OrgDb (OtherDb m).
Definition db_auth (m : str) : AuthError := AuthDb (OtherDb m).

Section routes.
Context `{Citext, Sha256, Lowercase, UrlParser, JwtSigner} (env : OrgEnv).

Definition org_call {A} (op : OrgOp) (f : orgs → res OrgError A * orgs) : OrgProg A :=
  pmap_err HOrg (pcall (oe_net env) (λ r, CWrite op (is_ok r)) db_org (λ _, f)).
Definition auth_call {A} (op : OrgOp) (f : orgs → res AuthError A * orgs) : Prog orgs OrgCall AuthError A :=
  pcall (oe_net env) (λ r, CWrite op (is_ok r)) db_auth (λ _, f).
Definition read_call {A} (what : string) (f : orgs → res AuthError A) : Prog orgs OrgCall AuthError A :=
  pcall (oe_net env) (λ _, CRead what) db_auth (λ _ s, (f s, s)).
Definition membership_call (user : UserId) (org : OrgId) : OrgProg (option OrgRole) :=
  pmap_err HAuth (pcall (oe_net env)
    (λ r, CMembership user org (match r with Ok o => o | _ => None end)) db_auth
    (λ _ s, (Ok (membership user org s), s))).
Definition read_org_call (org : OrgId) : OrgProg OrgDetails :=
  pmap_err HOrg (pcall (oe_net env) (λ _, CRead "read_org") db_org (λ _ s, (read_org org s, s))).

(** [live_role] *)
Definition live_role (p : Principal) : OrgProg OrgRole :=
  r <-% membership_call (pr_user_id p) (pr_active_org_id p) ;
  plift (ok_or r (HAuth (NotMember (pr_active_org_id p)))).

Definition require_admin (role : OrgRole) : res HttpError unit :=
  match role with Owner | Admin => Ok tt | Member => Err (HForbidden "owner or admin role required") end.

(** [remint_session] *)
Definition remint_session (user : UserId) (org : option OrgId) : res HttpError Session :=
  token <-? res_map_err HAuth (jwt_mint user org) ; Ok (mkSession user org token).

Definition list_user_orgs_call (user : UserId) : OrgProg (list OrgMembership) :=
  pmap_err HAuth (read_call "list_user_orgs" (list_user_orgs user)).

(** ** Settings *)

Definition update_org (p : Principal) (name slug : option str) (onboarded : bool) : OrgProg OrgDetails :=
  role <-% live_role p ;
  plift (require_admin role) ;;%
  name <-% plift (res_map_err HParse (transpose_opt OrgName_try_from name)) ;
  slug <-% plift (res_map_err HParse (transpose_opt OrgSlug_try_from slug)) ;
  let patch := mkOrgUpdate name slug onboarded in
  org_call (UpdateOrg (pr_active_org_id p) patch (oe_now env))
    (trun (update_org_tx (pr_active_org_id p) patch (oe_now env))).

Definition delete_org (p : Principal) : OrgProg Session :=
  role <-% live_role p ;
  if negb (bool_decide (role = Owner)) then perr (HForbidden "owner role required to delete workspace")
  else
    org_call (DeleteOrg (pr_active_org_id p)) (trun (delete_org_tx (pr_active_org_id p))) ;;%
    remaining <-% list_user_orgs_call (pr_user_id p) ;
    plift (remint_session (pr_user_id p) (ms_org_id <$> head remaining)).

Definition set_org_language (p : Principal) (language : Language) : OrgProg Language :=
  role <-% live_role p ;
  plift (require_admin role) ;;%
  pmap_err HAuth (auth_call (SetOrgLanguage (pr_active_org_id p) language (oe_now env))
    (trun (set_org_language_tx (pr_active_org_id p) language (oe_now env)))).

Definition set_org_rule_route (p : Principal) (rule : option str) : OrgProg (option OrganizationRule) :=
  role <-% live_role p ;
  plift (require_admin role) ;;%
  parsed <-% plift (res_map_err HParse (transpose_opt OrganizationRule_try_from
               (match rule with Some s => if is_empty (trim s) then None else Some s | None => None end))) ;
  pmap_err HAuth (auth_call (SetOrgRule (pr_active_org_id p) parsed (oe_now env))
    (set_org_rule (pr_active_org_id p) parsed (oe_now env))).

(** ** Members *)

Definition change_role (p : Principal) (target : UserId) (new_role : OrgRole) : OrgProg unit :=
  role <-% live_role p ;
  plift (require_admin role) ;;%
  t <-% membership_call target (pr_active_org_id p) ;
  target_role <-% plift (ok_or t HNotFound) ;
  if (bool_decide (new_role = Owner) || bool_decide (target_role = Owner)) && negb (bool_decide (role = Owner))
  then perr (HForbidden "owner role required to grant or revoke owner")
  else org_call (ChangeRole (pr_active_org_id p) target new_role)
         (trun (change_role_tx (pr_active_org_id p) target new_role)).

Definition remove_call (org : OrgId) (user : UserId) : OrgProg unit :=
  org_call (RemoveMember org user) (trun (remove_member_tx org user)).

Definition remove_member (p : Principal) (target : UserId) : OrgProg unit :=
  role <-% live_role p ;
  (if bool_decide (target = pr_user_id p) then pret tt
   else
     plift (require_admin role) ;;%
     t <-% membership_call target (pr_active_org_id p) ;
     target_role <-% plift (ok_or t HNotFound) ;
     if bool_decide (target_role = Owner) && negb (bool_decide (role = Owner))
     then perr (HForbidden "owner role required to remove owner") else pret tt) ;;%
  remove_call (pr_active_org_id p) target.

Definition leave_org (p : Principal) : OrgProg unit := remove_call (pr_active_org_id p) (pr_user_id p).

(** ** Invitations *)

Definition invite_members (p : Principal) (emails : list str) (invite_role : OrgRole) : OrgProg (list IssuedInvite) :=
  role <-% live_role p ;
  plift (require_admin role) ;;%
  if bool_decide (invite_role = Owner) && negb (bool_decide (role = Owner))
  then perr (HForbidden "owner role required to invite owners")
  else if MAX_INVITE_BATCH <? length emails
  then perr (HOrg (InviteBatchTooLarge MAX_INVITE_BATCH (length emails)))
  else
    parsed <-% plift (res_map_err HParse (collect_res Email_try_from emails)) ;
    issued <-% org_call (CreateInvites (oe_rnd env) (pr_active_org_id p) parsed invite_role (pr_user_id p) (oe_now env) INVITE_TTL)
                 (trun (create_invites_tx (oe_rnd env) (pr_active_org_id p) parsed invite_role (pr_user_id p) (oe_now env) INVITE_TTL)) ;
    read_org_call (pr_active_org_id p) ;;%
    pret issued.

Definition resend_invite_route (p : Principal) (id : InviteId) : OrgProg IssuedInvite :=
  role <-% live_role p ;
  plift (require_admin role) ;;%
  issued <-% org_call (ResendInvite (ie_encoded (oe_rnd env) 0) (pr_active_org_id p) id (oe_now env) INVITE_TTL)
               (resend_invite (ie_encoded (oe_rnd env) 0) (pr_active_org_id p) id (oe_now env) INVITE_TTL) ;
  read_org_call (pr_active_org_id p) ;;%
  pret issued.

Definition revoke_invite (p : Principal) (id : InviteId) : OrgProg unit :=
  role <-% live_role p ;
  plift (require_admin role) ;;%
  org_call (RevokeInvite (pr_active_org_id p) id) (trun (revoke_invite_tx (pr_active_org_id p) id)).

Definition accept_invite (p : Principal) (token : str) : OrgProg (AcceptedInvite * Session) :=
  token <-% plift (res_map_err HParse (InviteToken_try_from token)) ;
  accepted <-% org_call (AcceptInvite (pr_user_id p) token (oe_now env))
                 (trun (accept_invite_tx (pr_user_id p) token (oe_now env))) ;
  session <-% plift (remint_session (pr_user_id p) (Some (ac_org_id accepted))) ;
  pret (accepted, session).

Definition switch_org (p : Principal) (org : OrgId) : OrgProg (OrgRole * Session) :=
  r <-% membership_call (pr_user_id p) org ;
  role <-% plift (ok_or r (HAuth (NotMember org))) ;
  session <-% plift (remint_session (pr_user_id p) (Some org)) ;
  pret (role, session).

(** ** Creating a workspace *)

(** One attempt is one transaction; [left] attempts remain after this one. *)
Fixpoint create_loop (left : nat) (user : UserId) (base name : str) (language : Language) (cap : option Z)
    : Prog orgs OrgCall AuthError NewOrg :=
  let attempt := MAX_SLUG_RETRIES - left in
  let candidate := if attempt =? 0 then base else base ++ lit "-" ++ oe_suffix env attempt in
  match OrgSlug_try_from candidate with
  | Ok slug =>
      r <-% pcatch (auth_call
              (TryInsertOrg (oe_org_id env attempt) user (OrgSlug_as_str slug) name language cap (oe_now env))
              (trun (try_insert_org_tx (oe_org_id env attempt) user (OrgSlug_as_str slug) name language cap (oe_now env)))) ;
      match r with
      | inr new_org => pret new_org
      | inl (AuthDb (UniqueViolation _)) =>
          match left with
          | 0 => perr (AuthInternal "could not mint unique org slug")
          | S left' => create_loop left' user base name language cap
          end
      | inl e => perr e
      end
  | Err e =>
      match left with
      | 0 => perr (AuthParse e)
      | S left' => create_loop left' user base name language cap
      end
  | Panic m => plift (Panic m)
  end.

Definition create_personal_org (user : UserId) (suggested_slug name : str) (language : Language) (cap : option Z)
    : Prog orgs OrgCall AuthError NewOrg :=
  create_loop MAX_SLUG_RETRIES user (sanitize_slug suggested_slug) name language cap.

Definition create_org (cloud : bool) (user : UserId) (raw_name : str) : OrgProg Session :=
  if negb cloud then perr (HForbidden "workspace creation is not available on this deployment")
  else
    name <-% plift (res_map_err HParse (OrgName_try_from raw_name)) ;
    new_org <-% pmap_err HAuth (create_personal_org user (OrgName_as_str name) (OrgName_as_str name)
                                  Language_DEFAULT (Some MAX_ORGS_PER_USER)) ;
    plift (res_map_err HAgent (oe_seed env (no_id new_org))) ;;%
    plift (res_map_err HBilling (oe_grant env (no_id new_org))) ;;%
    plift (remint_session user (Some (no_id new_org))).

(** ** Signing in *)

Record AuthConfig := mkAuthConfig { cfg_cloud : bool; cfg_bootstrap_admin : bool }.

Definition join_call (user : User) : OrgProg (option OrgId) :=
  org_call (JoinPendingInvites (u_id user) (u_email user) (oe_now env))
    (trun (join_pending_invites_tx (u_id user) (u_email user) (oe_now env))).

Definition resolve_active_org (cfg : AuthConfig) (user : User) (profile_locale detected_locale : option LocaleHint)
    : OrgProg (option OrgId) :=
  orgs <-% list_user_orgs_call (u_id user) ;
  match head orgs with
  | Some first => pret (Some (ms_org_id first))
  | None =>
      let display := default (Email_as_str (u_email user)) (u_display_name user) in
      let slug_seed := split_first at_sign (Email_as_str (u_email user)) in
      let language := from_locale_hint (LocaleHint_as_str <$> profile_locale) (LocaleHint_as_str <$> detected_locale) in
      if cfg_bootstrap_admin cfg then
        boot <-% pmap_err HAuth (auth_call
                   (BootstrapOrg (oe_org_id env 0) (u_id user) slug_seed display language (oe_now env))
                   (trun (bootstrap_initial_org_as_owner_tx (oe_org_id env 0) (u_id user) slug_seed display language (oe_now env)))) ;
        match boot with
        | Some new_org => plift (res_map_err HAgent (oe_seed env (no_id new_org))) ;;% pret (Some (no_id new_org))
        | None =>
            joined <-% join_call user ;
            match joined with
            | Some org => pret (Some org)
            | None => perr (HForbidden "no organization — ask your workspace admin for an invite")
            end
        end
      else
        joined <-% join_call user ;
        match joined with
        | Some org => pret (Some org)
        | None =>
            orgs <-% list_user_orgs_call (u_id user) ;
            match head orgs with
            | Some first => pret (Some (ms_org_id first))
            | None =>
                if cfg_cloud cfg then pret None
                else
                  new_org <-% pmap_err HAuth (create_personal_org (u_id user) slug_seed display language None) ;
                  plift (res_map_err HAgent (oe_seed env (no_id new_org))) ;;%
                  pret (Some (no_id new_org))
            end
        end
  end.

(** The claims of a verified id_token, and the profile read in them. *)
Record IdTokenClaims := mkClaims {
  cl_email_verified : option bool; cl_email : option str; cl_subject : str;
  cl_name : option str; cl_picture : option str; cl_locale : option str }.

Definition MAX_DISPLAY_NAME_BYTES : nat := 200.

Definition profile_from_claims (issuer : str) (c : IdTokenClaims) : res AuthError OidcProfile :=
  if negb (default false (cl_email_verified c)) then Err EmailUnverified
  else
    email_raw <-? ok_or (cl_email c) (OAuthProvider (lit "id_token missing email")) ;
    email <-? res_map_err AuthParse (Email_try_from email_raw) ;
    subject <-? res_map_err AuthParse (OidcSubject_try_from (cl_subject c)) ;
    Ok (mkProfile issuer subject email true
          (match cl_name c with Some n => if str_len n <=? MAX_DISPLAY_NAME_BYTES then Some n else None | None => None end)
          (p ← cl_picture c; res_ok (AvatarUrl_try_from p))
          (l ← cl_locale c; res_ok (LocaleHint_try_from l))).

(** [OAUTH_STATE_TTL], ten minutes. *)
Definition OAUTH_STATE_TTL : Z := 600 * 1000000.

Record AuthStart := mkAuthStart { as_authorize_url : str; as_state : OAuthState; as_pkce : PkceVerifier; as_nonce : OidcNonce }.

Definition login (start : res AuthError AuthStart) (accept_language return_to : option str) : OrgProg str :=
  st <-% plift (res_map_err HAuth start) ;
  let row := mkOAuthStateRow (OAuthState_as_str (as_state st)) (PkceVerifier_as_str (as_pkce st))
               (OidcNonce_as_str (as_nonce st)) (r ← return_to; sanitize_return_to r)
               (LocaleHint_as_str <$> (a ← accept_language; extract_primary_locale a))
               (oe_now env) (oe_now env + OAUTH_STATE_TTL)%Z in
  pmap_err HAuth (auth_call (InsertOAuthState row) (trun (insert_oauth_state_tx row))) ;;%
  pret (as_authorize_url st).

(** [exchange]: what the provider's token endpoint and the checks of its id_token
    make of the code, the verifier and the nonce. *)
Definition callback (cfg : AuthConfig) (issuer : str)
    (exchange : str → PkceVerifier → OidcNonce → res AuthError IdTokenClaims)
    (code state : str) (error : option str) : OrgProg (Session * str) :=
  match error with
  | Some err => perr (HBadRequest (lit "oauth: " ++ err))
  | None =>
      token <-% plift (res_map_err HParse (OAuthState_try_from state)) ;
      consumed <-% pmap_err HAuth (auth_call (ConsumeOAuthState token (oe_now env))
                     (consume_oauth_state token (oe_now env))) ;
      profile <-% plift (res_map_err HAuth
                    (c <-? exchange code (co_pkce_verifier consumed) (co_nonce consumed) ; profile_from_claims issuer c)) ;
      upserted <-% pmap_err HAuth (auth_call (UpsertFromOidc (oe_user_id env) profile (oe_now env))
                     (upsert_from_oidc (oe_user_id env) profile (oe_now env))) ;
      active_org <-% resolve_active_org cfg (uu_user upserted) (op_locale profile) (co_detected_locale consumed) ;
      session <-% plift (remint_session (u_id (uu_user upserted)) active_org) ;
      pret (session, default (lit "/") (co_redirect_to consumed))
  end.
End routes.
