(* ===== verification/OrgRouteLaws.v ===== *)
(** * Laws of the requests on organisations and of signing in

    Only owners make and unmake owners; a login lands in an organisation of the
    person; slugs; and the traces that break what the comments promise. *)

From Stdlib Require Import ZArith Lia Ascii String.
From stdpp Require Import base list strings sets relations.
From S2P Require Import Prelude Program Types Network Tools Identity Orgs OrgLaws OrgRoutes.

(** ** Who is an owner *)

Definition owns (user : UserId) (org : OrgId) (s : orgs) : Prop := membership user org s = Some Owner.
Definition same_owners (s s' : orgs) : Prop := ∀ org user, owns user org s' ↔ owns user org s.

#[export] Instance same_owners_equiv : Equivalence same_owners.
Proof.
  split; [by intros s org user|intros s s' Hs org user; by rewrite (Hs org user)|].
  intros s1 s2 s3 H12 H23 org user. by rewrite (H23 org user), (H12 org user).
Qed.

Lemma same_owners_members s s' : org_members s' = org_members s → same_owners s s'.
Proof. intros Hm org user. unfold owns, membership, member_row. by rewrite Hm. Qed.

Lemma find_fmap_key {A} (f : A → bool) (g : A → A) l :
  (∀ x, f (g x) = f x) → List.find f (g <$> l) = g <$> List.find f l.
Proof.
  intros Hf. induction l as [|x l IH]; [done|]. rewrite fmap_cons. cbn. rewrite Hf, IH. by destruct (f x).
Qed.

Lemma membership_change org user role s u s' org' user' :
  change_role_write org user role s = Ok (u, s') →
  membership user' org' s' =
    if decide (org' = org ∧ user' = user) then (λ _, role) <$> membership user' org' s
    else membership user' org' s.
Proof.
  unfold change_role_write. case_match; [done|]. intros [= <- <-]. unfold membership, member_row. cbn.
  unfold update_where. rewrite find_fmap_key by (intros x; by case_decide).
  destruct (List.find _ _) as [m|] eqn:Em; [|by case_decide].
  apply find_Some_iff in Em as [_ Hb]. bools. subst. cbn.
  destruct (decide (is_member_of org user m)) as [Hd|Hn]; cbn.
  - by rewrite decide_True by exact Hd.
  - by rewrite decide_False by exact Hn.
Qed.

Lemma find_filter_other {A} (f : A → bool) (P : A → Prop) `{∀ x, Decision (P x)} l :
  (∀ x, f x = true → P x) → List.find f (filter P l) = List.find f l.
Proof.
  intros Hf. induction l as [|x l IH]; [done|]. rewrite filter_cons. cbn.
  destruct (f x) eqn:Ex; [rewrite decide_True by auto; cbn; by rewrite Ex|]. case_decide; cbn; by rewrite ?Ex.
Qed.

Lemma membership_remove org user s u s' org' user' :
  remove_member_write org user s = Ok (u, s') →
  membership user' org' s' = if decide (org' = org ∧ user' = user) then None else membership user' org' s.
Proof.
  unfold remove_member_write. case_match; [done|]. intros [= <- <-]. unfold membership, member_row. cbn.
  destruct (decide (org' = org ∧ user' = user)) as [[-> ->]|Hn].
  - destruct (List.find _ _) as [m|] eqn:Em; [|done]. apply find_Some_iff in Em as [[Hm _]%list_elem_of_filter Hb].
    bools. by destruct Hm.
  - rewrite find_filter_other; [done|]. intros x Hx. bools. intros [<- <-]. by apply Hn.
Qed.

(** Removing somebody who is not an owner, or giving somebody who is not an owner a
    role that is not owner's. *)
Lemma remove_same_owners org user s : ¬ owns user org s → same_owners s (trun (remove_member_tx org user) s).2.
Proof.
  intros Hn. apply (trun_keeps (same_owners s)); [reflexivity|]. intros u s' Hr.
  unfold remove_member_tx in Hr. apply tbind_Ok in Hr as ([] & s1 & Hg & Hr).
  apply res_bind_Ok in Hg as ([] & _ & [= <-]). intros o x. unfold owns.
  rewrite (membership_remove _ _ _ _ _ o x Hr). case_decide as Hd; [|done]. destruct Hd as [-> ->]. by split.
Qed.

Lemma change_same_owners org user role s :
  role ≠ Owner → ¬ owns user org s → same_owners s (trun (change_role_tx org user role) s).2.
Proof.
  intros Hrole Hn. apply (trun_keeps (same_owners s)); [reflexivity|]. intros u s' Hr.
  unfold change_role_tx in Hr. apply tbind_Ok in Hr as ([] & s1 & Hg & Hr).
  apply res_bind_Ok in Hg as ([] & _ & [= <-]). intros o x. unfold owns.
  rewrite (membership_change _ _ _ _ _ _ o x Hr). case_decide as Hd; [|done]. destruct Hd as [-> ->].
  destruct (membership user org s) as [r|] eqn:Em; cbn; [|done]. split; [by intros [= ->]|].
  intros [= ->]. by destruct Hn.
Qed.

(** ** The requests *)

Inductive OrgRequest :=
| RqUpdate (name slug : option str) (onboarded : bool)
| RqDelete
| RqLanguage (language : Language)
| RqRule (rule : option str)
| RqChangeRole (target : UserId) (role : OrgRole)
| RqRemove (target : UserId)
| RqLeave
| RqInvite (emails : list str) (role : OrgRole)
| RqResend (id : InviteId)
| RqRevoke (id : InviteId)
| RqSwitch (org : OrgId).

Section requests.
Context `{Citext, Sha256, Lowercase, UrlParser, JwtSigner} (env : OrgEnv).

Definition drop_result {A} (m : OrgProg A) : OrgProg unit := m ;;% pret tt.

(** The router of an authenticated person. *)
Definition serve (p : Principal) (rq : OrgRequest) : OrgProg unit :=
  match rq with
  | RqUpdate name slug onboarded => drop_result (update_org env p name slug onboarded)
  | RqDelete => drop_result (delete_org env p)
  | RqLanguage language => drop_result (set_org_language env p language)
  | RqRule rule => drop_result (set_org_rule_route env p rule)
  | RqChangeRole target role => change_role env p target role
  | RqRemove target => remove_member env p target
  | RqLeave => leave_org env p
  | RqInvite emails role => drop_result (invite_members env p emails role)
  | RqResend id => drop_result (resend_invite_route env p id)
  | RqRevoke id => revoke_invite env p id
  | RqSwitch org => drop_result (switch_org env p org)
  end.

Context `{!Alone (oe_net env)} (s0 : orgs).

(** Every result, with the owners of [s0]. *)
Definition owners_kept {A} : res HttpError A → orgs → Prop := λ _ w, same_owners s0 w.
Definition at_s0 (w : orgs) : Prop := w = s0.

Lemma keep_org_call {A} op (f : orgs → res OrgError A * orgs) (P : orgs → Prop) :
  (∀ w, P w → same_owners s0 w ∧ same_owners w (f w).2) → ensures P (org_call env op f) owners_kept.
Proof.
  intros Hf. apply ensures_map_err, ensures_call; [done|]. intros _ w Hw. destruct (Hf w Hw) as [H1' H2'].
  unfold owners_kept. split; [by rewrite H1'|]. intros msg. split; [done|by rewrite H1'].
Qed.
Lemma keep_auth_call {A} op (f : orgs → res AuthError A * orgs) (P : orgs → Prop) :
  (∀ w, P w → same_owners s0 w ∧ same_owners w (f w).2) → ensures P (pmap_err HAuth (auth_call env op f)) owners_kept.
Proof.
  intros Hf. apply ensures_map_err, ensures_call; [done|]. intros _ w Hw. destruct (Hf w Hw) as [H1' H2'].
  unfold owners_kept. split; [by rewrite H1'|]. intros msg. split; [done|by rewrite H1'].
Qed.

(** A read of a role: the tables stay, and what it returns is there. *)
Lemma membership_call_spec user org (P : orgs → Prop) :
  ensures P (membership_call env user org)
    (λ r w, P w ∧ match r with Ok o => membership user org w = o | _ => True end).
Proof.
  apply ensures_map_err, ensures_call; [done|]. intros _ w Hw. split; [done|]. by intros msg.
Qed.

Lemma keep_pret {A} (a : A) (P : orgs → Prop) : (∀ w, P w → same_owners s0 w) → ensures (V := OrgCall) P (pret a) owners_kept.
Proof. intros HP. apply ensures_ret, HP. Qed.
Lemma keep_plift {A} (r : res HttpError A) (P : orgs → Prop) :
  (∀ w, P w → same_owners s0 w) → ensures (V := OrgCall) P (plift r) owners_kept.
Proof. intros HP. apply ensures_lift, HP. Qed.

(** After a step that keeps the owners, any step that keeps them. *)
Lemma keep_bind {A B} (m : OrgProg A) (k : A → OrgProg B) (P : orgs → Prop) :
  ensures P m owners_kept → (∀ a, ensures (same_owners s0) (k a) owners_kept) → ensures P (pbind m k) owners_kept.
Proof.
  intros Hm Hk. eapply ensures_bind; [|exact Hk]. eapply ensures_mono; [exact Hm|done|]. by intros [].
Qed.
Lemma keep_lift {A B} (r : res HttpError A) (k : A → OrgProg B) (P : orgs → Prop) :
  (∀ w, P w → same_owners s0 w) → (∀ a, r = Ok a → ensures P (k a) owners_kept) →
  ensures P (pbind (plift r) k) owners_kept.
Proof. intros HP Hk. by apply ensures_bind_lift; [exact Hk|intros e w _; apply HP..]. Qed.

Lemma at_s0_kept w : at_s0 w → same_owners s0 w.
Proof. by intros ->. Qed.
#[local] Hint Resolve at_s0_kept : core.

Lemma keep_live_role {B} (p : Principal) (k : OrgRole → OrgProg B) :
  ¬ owns (pr_user_id p) (pr_active_org_id p) s0 →
  (∀ role, role ≠ Owner → ensures at_s0 (k role) owners_kept) →
  ensures at_s0 (pbind (live_role env p) k) owners_kept.
Proof.
  intros Hn Hk. unfold live_role. apply (ensures_bind _ _ _ (λ role w, at_s0 w ∧ role ≠ Owner)).
  - apply (ensures_bind _ _ _ (λ o w, at_s0 w ∧ membership (pr_user_id p) (pr_active_org_id p) s0 = o)).
    + eapply ensures_mono; [apply (membership_call_spec _ _ at_s0)|done|].
      intros [o|e|m] w [-> Ho]; [by split|by apply at_s0_kept..].
    + intros o. apply ensures_lift. intros w [-> Ho]. destruct o as [role|]; cbn; [|by apply at_s0_kept].
      split; [done|]. intros ->. by apply Hn.
  - intros role s [Hs Hr]. by apply Hk.
Qed.

Lemma keep_target {B} user org (k : option OrgRole → OrgProg B) :
  (∀ o, membership user org s0 = o → ensures at_s0 (k o) owners_kept) →
  ensures at_s0 (pbind (membership_call env user org) k) owners_kept.
Proof.
  intros Hk. apply (ensures_bind _ _ _ (λ o w, at_s0 w ∧ membership user org s0 = o)).
  - eapply ensures_mono; [apply (membership_call_spec _ _ at_s0)|done|].
    intros [o|e|m] w [-> Ho]; [by split|by apply at_s0_kept..].
  - intros o s [Hs Ho]. by apply Hk.
Qed.

Lemma keep_read_org org : ensures (same_owners s0) (read_org_call env org) owners_kept.
Proof. apply ensures_map_err, ensures_call; [done|]. intros _ w Hw. split; [done|]. by intros msg. Qed.
Lemma keep_list_orgs user : ensures (same_owners s0) (list_user_orgs_call env user) owners_kept.
Proof. apply ensures_map_err, ensures_call; [done|]. intros _ w Hw. split; [done|]. by intros msg. Qed.

(** *** Operations that leave the memberships *)

Lemma settings_same op w :
  match op with
  | UpdateOrg _ _ _ | SetOrgLanguage _ _ _ | SetOrgRule _ _ _ | CreateInvites _ _ _ _ _ _ _
  | ResendInvite _ _ _ _ _ | RevokeInvite _ _ => True
  | _ => False
  end → same_owners w (run_op op w).
Proof.
  intros Hop. apply same_owners_members. destruct op; try done; cbn; try (apply (trun_keeps (λ s', org_members s' = org_members w)); [done|intros a s' Hr]).
  - apply update_org_Ok in Hr as [->|[n Hr]]; [done|]. by apply (update_orgs_ids OrgDb) in Hr as (_ & Hm & _).
  - unfold set_org_language_tx in Hr. apply tbind_Ok in Hr as (n & s1 & Hu & Hr).
    apply (update_orgs_ids AuthDb) in Hu as (_ & Hm & _); [|done].
    by assert (s' = s1) as -> by (case_match; [done|by injection Hr]).
  - unfold set_org_rule, trun. destruct (update_orgs _ _ _ _) as [[n s1]| |] eqn:Hu; [|done..].
    by apply (update_orgs_ids AuthDb) in Hu as (_ & Hm & _).
  - unfold create_invites_tx in Hr. case_match; [done|]. by apply issue_invites_frame in Hr as [_ Hm].
  - unfold resend_invite. by repeat case_match.
  - unfold revoke_invite_tx in Hr. case_match; [done|]. by injection Hr as _ <-.
Qed.

Lemma keep_settings {A} op (f : orgs → res OrgError A * orgs) :
  (∀ w, (f w).2 = run_op op w) → (∀ w, same_owners w (run_op op w)) →
  ensures at_s0 (org_call env op f) owners_kept.
Proof. intros Hf Hs. apply keep_org_call. intros w Hw. rewrite Hf. auto. Qed.
Lemma keep_auth_settings {A} op (f : orgs → res AuthError A * orgs) :
  (∀ w, (f w).2 = run_op op w) → (∀ w, same_owners w (run_op op w)) →
  ensures at_s0 (pmap_err HAuth (auth_call env op f)) owners_kept.
Proof. intros Hf Hs. apply keep_auth_call. intros w Hw. rewrite Hf. auto. Qed.

Lemma keep_drop {A} (m : OrgProg A) : ensures at_s0 m owners_kept → ensures at_s0 (drop_result m) owners_kept.
Proof. intros Hm. apply keep_bind; [done|]. intros _. by apply keep_pret. Qed.

Lemma serve_keeps p rq :
  ¬ owns (pr_user_id p) (pr_active_org_id p) s0 → ensures at_s0 (serve p rq) owners_kept.
Proof.
  intros Hn. destruct rq; cbn [serve]; try apply keep_drop.
  - apply keep_live_role; [done|]. intros role _. apply keep_lift; [auto|]. intros _ _.
    apply keep_lift; [auto|]. intros n _. apply keep_lift; [auto|]. intros sl _.
    by apply keep_settings; [|intros w; apply settings_same].
  - apply keep_live_role; [done|]. intros role Hr. rewrite bool_decide_false by done. by apply ensures_err, at_s0_kept.
  - apply keep_live_role; [done|]. intros role _. apply keep_lift; [auto|]. intros _ _.
    by apply keep_auth_settings; [|intros w; apply settings_same].
  - apply keep_live_role; [done|]. intros role _. apply keep_lift; [auto|]. intros _ _.
    apply keep_lift; [auto|]. intros r _. by apply keep_auth_settings; [|intros w; apply settings_same].
  - apply keep_live_role; [done|]. intros r Hr. apply keep_lift; [auto|]. intros _ _.
    apply keep_target. intros o Ho. apply keep_lift; [auto|]. intros tr Htr.
    rewrite (bool_decide_false (r = Owner)) by done.
    destruct (bool_decide (role = Owner)) eqn:E1; [by apply ensures_err, at_s0_kept|].
    destruct (bool_decide (tr = Owner)) eqn:E2; [by apply ensures_err, at_s0_kept|]. bools.
    apply keep_org_call. intros w ->. split; [done|]. apply change_same_owners; [done|].
    unfold owns. rewrite Ho. destruct o; [|done]. injection Htr as ->. congruence.
  - apply keep_live_role; [done|]. intros r Hr.
    apply (ensures_bind _ _ _ (λ _ w, at_s0 w ∧ ¬ owns target (pr_active_org_id p) s0)).
    + destruct (bool_decide (target = pr_user_id p)) eqn:Et.
      { bools. subst. by apply ensures_ret. }
      apply ensures_bind_lift; [|by intros e w _ ->|by intros e w _ ->]. intros _ _.
      apply (ensures_bind _ _ _ (λ o w, at_s0 w ∧ membership target (pr_active_org_id p) s0 = o)).
      { eapply ensures_mono; [apply (membership_call_spec _ _ at_s0)|done|].
        intros [o|e|m] w [-> Ho]; [by split|by apply at_s0_kept..]. }
      intros o. apply ensures_bind_lift; [|by intros e w _ [-> _]|by intros e w _ [-> _]]. intros tr Htr.
      rewrite (bool_decide_false (r = Owner)) by done. destruct (bool_decide (tr = Owner)) eqn:E2; cbn.
      * apply ensures_err. by intros w [-> _].
      * bools. apply ensures_ret. intros w [-> Ho]. split; [done|]. unfold owns. rewrite Ho.
        destruct o; [|done]. injection Htr as ->. congruence.
    + intros _. apply keep_org_call. intros w [-> Ht]. split; [done|]. by apply remove_same_owners.
  - apply keep_org_call. intros w ->. split; [done|]. by apply remove_same_owners.
  - apply keep_live_role; [done|]. intros r _. apply keep_lift; [auto|]. intros _ _.
    destruct (_ && _); [by apply ensures_err, at_s0_kept|]. destruct (_ <? _); [by apply ensures_err, at_s0_kept|].
    apply keep_lift; [auto|]. intros es _. apply keep_bind.
    + by apply keep_settings; [|intros w; apply settings_same].
    + intros l. apply keep_bind; [apply keep_read_org|]. intros _. by apply keep_pret.
  - apply keep_live_role; [done|]. intros r _. apply keep_lift; [auto|]. intros _ _. apply keep_bind.
    + apply (keep_settings (ResendInvite _ _ _ _ _)); [done|]. intros w. by apply (settings_same (ResendInvite _ _ _ _ _)).
    + intros l. apply keep_bind; [apply keep_read_org|]. intros _. by apply keep_pret.
  - apply keep_live_role; [done|]. intros r _. apply keep_lift; [auto|]. intros _ _.
    by apply keep_settings; [|intros w; apply settings_same].
  - apply keep_target. intros o _. apply keep_lift; [auto|]. intros r _. apply keep_lift; [auto|]. intros ss _.
    apply keep_pret, at_s0_kept.
Qed.
End requests.

(** C33: While nobody else writes, no request on organisations ([OrgRequest]: the
    settings, deleting, roles, removing, leaving, inviting, sending again and revoking
    an invitation, switching) of somebody who is not an owner of the active organisation
    makes or unmakes an owner of any organisation, whatever the request and whatever
    calls fail. Accepting an invitation, creating an organisation and signing in are not
    among these requests: an admin who sends an owner's invitation again gets its token,
    and accepting it makes an owner ([resend_escalates]). *)
Theorem non_owners_keep_owners `{Citext, Sha256, Lowercase, UrlParser, JwtSigner} (env : OrgEnv) (p : Principal)
    (rq : OrgRequest) (st : run_state orgs OrgCall) :
  Alone (oe_net env) → ¬ owns (pr_user_id p) (pr_active_org_id p) (run_tables st) →
  ∀ org user, owns user org (run_tables (serve env p rq st).2) ↔ owns user org (run_tables st).
Proof. intros Ha Hn. by apply (serve_keeps env (run_tables st) p rq Hn st). Qed.

(** ** Signing in *)

Section sign_in.
Context `{Citext, Sha256, Lowercase, UrlParser, JwtSigner} (env : OrgEnv) `{!Alone (oe_net env)}.

Definition is_member (user : UserId) (org : OrgId) (s : orgs) : Prop := is_Some (membership user org s).

Lemma membership_in user org s m :
  m ∈ org_members s → om_user_id m = user → om_org_id m = org → is_member user org s.
Proof.
  intros Hm Hu Ho. unfold is_member, membership. destruct (member_row org user s) eqn:E; [by eexists|].
  apply member_row_None in E. destruct E. apply list_elem_of_fmap. exists m. unfold member_key. by rewrite Ho, Hu.
Qed.
Lemma is_member_mono user org s s' :
  (∀ m, m ∈ org_members s → m ∈ org_members s') → is_member user org s → is_member user org s'.
Proof.
  intros Hm [r Hr]. unfold membership in Hr. destruct (member_row org user s) as [m|] eqn:E; [|done].
  apply member_row_Some in E as (Hin & ? & ?). by eapply membership_in; [apply Hm|..].
Qed.

Lemma insert_member_is_member {E} (db : DbError → E) org user role now s u s' :
  insert_member db org user role now s = Ok (u, s') → is_member user org s'.
Proof.
  intros [[-> [m Hm]]|(-> & _)]%insert_member_Ok.
  - apply member_row_Some in Hm as (Hin & ? & ?). by eapply membership_in.
  - by apply (membership_in _ _ _ (mkOrgMember org user role now)); [cbn; set_solver|..].
Qed.

Lemma join_claims_member user rows now active s o s' org :
  join_claims user rows now active s = Ok (o, s') → o = Some org → active = Some org ∨ is_member user org s'.
Proof.
  revert active s. induction rows as [|r rows IH]; intros active s Hj Ho; cbn in Hj.
  { injection Hj as <- <-. by left. }
  apply tbind_Ok in Hj as (c & s1 & Hc & Hj). destruct c; [|by eapply IH].
  apply tbind_Ok in Hj as (u & s2 & Hi & Hj). pose proof (insert_member_is_member _ _ _ _ _ _ _ _ Hi) as Hm.
  destruct (IH _ _ Hj Ho) as [Ha|Ha]; [|by right]. destruct active as [a|]; [by left|]. injection Ha as <-. right.
  eapply is_member_mono; [|exact Hm]. by apply join_claims_mono in Hj as [_ Hj].
Qed.

Lemma collect_res_elem {E A B} (f : A → res E B) l ys y :
  collect_res f l = Ok ys → y ∈ ys → ∃ x, x ∈ l ∧ f x = Ok y.
Proof.
  revert ys. induction l as [|x l IH]; intros ys; cbn.
  - intros [= <-] ?%elem_of_nil. done.
  - intros (y0 & Hy0 & Hr)%res_bind_Ok. apply res_bind_Ok in Hr as (ys0 & Hys & [= <-]).
    intros [->|Hy]%elem_of_cons; [exists x; split; [by left|done]|].
    destruct (IH ys0 Hys Hy) as (x0 & ? & ?). exists x0. split; [by right|done].
Qed.

Lemma list_user_orgs_member user s ms m :
  list_user_orgs user s = Ok ms → m ∈ ms → is_member user (ms_org_id m) s.
Proof.
  intros Hl Hm. destruct (collect_res_elem _ _ _ _ Hl Hm) as ([r o] & Hin & Hd).
  apply elem_of_sort_by, list_elem_of_omap in Hin as (r0 & Hr0 & Hp). case_bool_decide; [|done].
  destruct (org_row (om_org_id r0) s) as [o'|] eqn:Eo; [|done]. injection Hp as -> ->.
  apply org_row_Some in Eo as [_ Hid].
  unfold decode_membership in Hd. res_inv. cbn in *. by eapply membership_in.
Qed.

Lemma list_user_orgs_nil user s : list_user_orgs user s = Ok [] → user_org_rows user s = [].
Proof.
  unfold list_user_orgs. destruct (user_org_rows user s); [done|]. cbn. intros Hr. by res_inv.
Qed.

(** *** What the steps leave alone *)

Definition logins (l : list OAuthStateRow) (s : orgs) : Prop := oauth_login_states s = l.

Lemma insert_org_logins id user slug name language now s u s' :
  insert_org_and_owner id user slug name language now s = Ok (u, s') → oauth_login_states s' = oauth_login_states s.
Proof. by intros (_ & _ & _ & _ & _ & ->)%insert_org_and_owner_Ok. Qed.
Lemma join_claims_logins user rows now active s o s' :
  join_claims user rows now active s = Ok (o, s') → oauth_login_states s' = oauth_login_states s.
Proof.
  revert active s. induction rows as [|r rows IH]; intros active s Hj; cbn in Hj; [by injection Hj as _ <-|].
  apply tbind_Ok in Hj as (c & s1 & Hc & Hj).
  assert (oauth_login_states s1 = oauth_login_states s) as Hs1.
  { by apply claim_invite_Ok in Hc as [(_ & -> & _)|(_ & x & _ & _ & ->)]. }
  destruct c; [|by rewrite (IH _ _ Hj)].
  apply tbind_Ok in Hj as (u & s2 & Hi & Hj). rewrite (IH _ _ Hj), <-Hs1.
  by apply insert_member_Ok in Hi as [[-> _]|(-> & _)].
Qed.
Lemma upsert_logins candidate p now s r s' :
  upsert_write candidate p now s = Ok (r, s') → oauth_login_states s' = oauth_login_states s.
Proof.
  intros Hu. unfold upsert_write in Hu.
  apply tbind_Ok in Hu as (ex & s0 & [= <- <-] & Hu). apply tbind_Ok in Hu as (idn & s2 & Hi & Hu).
  apply tbind_Ok in Hu as (o & s3 & [= <- <-] & Hu).
  assert (s' = s2) as -> by (destruct (user_row _ _); [by injection Hu|done]).
  assert (∀ id t u t', write_user id p now t = Ok (u, t') → oauth_login_states t' = oauth_login_states t) as Hw.
  { intros id t u t'. unfold write_user. repeat case_match; try done; by intros [= <- <-]. }
  destruct (identity_user _ _ _).
  - apply tbind_Ok in Hi as ([] & s3 & Hi & [= <- <-]). cbn beta in Hi.
    destruct (user_exists _ _); [by eapply Hw|by injection Hi as <-].
  - apply tbind_Ok in Hi as ([] & s3 & Hi & Hr). apply tbind_Ok in Hr as ([] & s4 & [= <-] & [= <- <-]).
    cbn. by eapply Hw.
Qed.

(** A transaction of a store, as a call: [Q] when it commits, [P] kept when it does not. *)
Lemma tx_call {A} op (m : UTx A) (P : orgs → Prop) (Q : A → orgs → Prop) :
  (∀ w a w', P w → m w = Ok (a, w') → P w' ∧ Q a w') →
  ensures P (auth_call env op (trun m)) (λ r w, P w ∧ match r with Ok a => Q a w | _ => True end).
Proof.
  intros Hm. apply ensures_call; [done|]. intros _ w Hw. unfold trun.
  destruct (m w) as [[a w']| |] eqn:Em; cbn; [destruct (Hm w a w' Hw Em)| |]; by repeat split.
Qed.
Lemma otx_call {A} op (m : OTx A) (P : orgs → Prop) (Q : A → orgs → Prop) :
  (∀ w a w', P w → m w = Ok (a, w') → P w' ∧ Q a w') →
  ensures P (org_call env op (trun m)) (λ r w, P w ∧ match r with Ok a => Q a w | Err (HForbidden _) => False | _ => True end).
Proof.
  intros Hm. apply ensures_map_err, ensures_call; [done|]. intros _ w Hw. unfold trun.
  destruct (m w) as [[a w']| |] eqn:Em; cbn; [destruct (Hm w a w' Hw Em)| |]; by repeat split.
Qed.

Lemma list_call_spec user (P : orgs → Prop) :
  ensures P (list_user_orgs_call env user)
    (λ r w, P w ∧ match r with Ok ms => list_user_orgs user w = Ok ms | Err (HForbidden _) => False | _ => True end).
Proof.
  apply ensures_map_err, ensures_call; [done|]. intros _ w Hw. cbn. split; [|by intros msg].
  split; [done|]. by destruct (list_user_orgs user w).
Qed.

Lemma insert_org_member id user slug name language now s s' :
  insert_org_and_owner id user slug name language now s = Ok (tt, s') → is_member user id s'.
Proof.
  intros (_ & _ & _ & _ & _ & ->)%insert_org_and_owner_Ok.
  by apply (membership_in _ _ _ (mkOrgMember id user Owner now)); [cbn; set_solver|..].
Qed.

Lemma create_loop_spec left user base name language cap l :
  ensures (logins l) (create_loop env left user base name language cap)
    (λ r w, logins l w ∧ match r with Ok no => is_member user (no_id no) w | _ => True end).
Proof.
  induction left as [|left IH]; cbn [create_loop];
    (destruct (OrgSlug_try_from _) as [slug|e|m]; [|try exact IH; by apply ensures_err|by apply ensures_lift]).
  all: apply (ensures_bind _ _ _ (λ r w, logins l w ∧ match r with inr no => is_member user (no_id no) w | _ => True end));
    [apply ensures_catch; eapply ensures_mono;
      [apply (tx_call _ _ (logins l) (λ no w, is_member user (no_id no) w))|done|by intros [] w]|].
  1,3: intros w a w' Hw (Hi & -> & _)%try_insert_org_Ok; split;
    [unfold logins; by rewrite (insert_org_logins _ _ _ _ _ _ _ _ _ Hi)|by eapply insert_org_member].
  - intros [e|no]; [|by apply ensures_ret].
    case_match; try case_match; apply ensures_err; by intros w [].
  - intros [e|no]; [|by apply ensures_ret].
    destruct e as [| | | | | | | | |[]| |]; try (apply ensures_err; by intros w []).
    eapply ensures_mono; [exact IH|by intros w []|done].
Qed.

Definition landed (cfg : AuthConfig) (user : UserId) (r : res HttpError (option OrgId)) (w : orgs) : Prop :=
  match r with
  | Ok (Some org) => is_member user org w
  | Ok None => cfg_cloud cfg = true ∧ cfg_bootstrap_admin cfg = false ∧ user_org_rows user w = []
  | Err (HForbidden _) => cfg_bootstrap_admin cfg = true ∧ organizations w ≠ []
  | _ => True
  end.

Lemma join_call_spec user (P : orgs → Prop) :
  (∀ w o w', P w → join_claims (u_id user) (join_lookup (u_email user) (oe_now env) w) (oe_now env) None w = Ok (o, w') → P w') →
  ensures P (join_call env user)
    (λ r w, P w ∧ match r with Ok (Some org) => is_member (u_id user) org w
                  | Err (HForbidden _) => False | _ => True end).
Proof.
  intros HP. eapply ensures_mono; [apply (otx_call _ _ P (λ o w, ∀ org, o = Some org → is_member (u_id user) org w))|done|].
  - intros w a w' Hw Hj. split; [by eapply HP|]. intros org Ho.
    by destruct (join_claims_member _ _ _ _ _ _ _ _ Hj Ho).
  - intros r w [Hw Hr]. split; [done|]. destruct r as [[org|]|e|]; [by apply Hr|done..].
Qed.

Lemma bootstrap_call_spec user seed name language l :
  ensures (logins l) (pmap_err HAuth (auth_call env
      (BootstrapOrg (oe_org_id env 0) user seed name language (oe_now env))
      (trun (bootstrap_initial_org_as_owner_tx (oe_org_id env 0) user seed name language (oe_now env)))))
    (λ r w, logins l w ∧ match r with Ok (Some no) => is_member user (no_id no) w | Ok None => organizations w ≠ []
                         | Err (HForbidden _) => False | _ => True end).
Proof.
  apply ensures_map_err. eapply ensures_mono;
    [apply (tx_call _ _ (logins l) (λ o w, match o with Some no => is_member user (no_id no) w | None => organizations w ≠ [] end))|done|].
  - intros w a w' Hw [(-> & -> & Hn)|(sl & _ & _ & -> & Hi)]%bootstrap_Ok; [done|].
    split; [unfold logins; by rewrite (insert_org_logins _ _ _ _ _ _ _ _ _ Hi)|by eapply insert_org_member].
  - intros [[no|]|e|] w [Hw Hr]; by split.
Qed.

Lemma resolve_spec cfg user pl dl l :
  ensures (logins l) (resolve_active_org env cfg user pl dl)
    (λ r w, logins l w ∧ landed cfg (u_id user) r w).
Proof.
  assert (∀ (k : list OrgMembership → OrgProg (option OrgId)) (P : orgs → Prop),
    (∀ w, P w → logins l w) →
    (∀ m ms, ensures (λ w, P w ∧ is_member (u_id user) (ms_org_id m) w) (k (m :: ms)) (λ r w, logins l w ∧ landed cfg (u_id user) r w)) →
    ensures (λ w, P w ∧ user_org_rows (u_id user) w = []) (k []) (λ r w, logins l w ∧ landed cfg (u_id user) r w) →
    ensures P (pbind (list_user_orgs_call env (u_id user)) k) (λ r w, logins l w ∧ landed cfg (u_id user) r w)) as Hlist.
  { intros k P HP Hc Hn. apply (ensures_bind _ _ _ (λ ms w, P w ∧ list_user_orgs (u_id user) w = Ok ms)).
    - eapply ensures_mono; [apply (list_call_spec _ P)|done|].
      intros [ms|e|m] w [Hw Hr]; [done|split; [by apply HP|by destruct e]|split; [by apply HP|done]].
    - intros [|m ms]; (eapply ensures_mono; [apply Hn || apply Hc| |done]); intros w [Hw Hl]; (split; [done|]).
      + by apply list_user_orgs_nil.
      + eapply list_user_orgs_member; [exact Hl|by left]. }
  assert (∀ (org : OrgId) (P : orgs → Prop), (∀ w, P w → logins l w ∧ is_member (u_id user) org w) →
    ensures (V := OrgCall) P (pret (Some org)) (λ r w, logins l w ∧ landed cfg (u_id user) r w)) as Hret.
  { intros org P HP. by apply ensures_ret. }
  assert (∀ (org : OrgId) (P : orgs → Prop), (∀ w, P w → logins l w ∧ is_member (u_id user) org w) →
    ensures (V := OrgCall) P (plift (res_map_err HAgent (oe_seed env org)) ;;% pret (Some org))
      (λ r w, logins l w ∧ landed cfg (u_id user) r w)) as Hseed.
  { intros org P HP. apply ensures_bind_lift; [intros _ _; by apply Hret|..].
    - intros e w He Hw. split; [by apply HP|]. by destruct (oe_seed env org); [|injection He as <-|].
    - intros e w He Hw. split; [by apply HP|done]. }
  assert (∀ (o : orgs → Prop) w x w', logins l w → o w →
    join_claims (u_id user) (join_lookup (u_email user) (oe_now env) w) (oe_now env) None w = Ok (x, w') →
    logins l w') as Hjl.
  { intros o w x w' Hw _ Hj. unfold logins. by rewrite (join_claims_logins _ _ _ _ _ _ _ Hj). }
  unfold resolve_active_org. apply Hlist; cbn [head]; [done|..].
  { intros m ms. by apply Hret. }
  destruct (cfg_bootstrap_admin cfg) eqn:Eb.
  - apply (ensures_bind _ _ _ (λ o w, logins l w ∧ match o with Some no => is_member (u_id user) (no_id no) w | None => organizations w ≠ [] end)).
    { eapply ensures_mono; [apply bootstrap_call_spec|by intros w []|].
      intros [[no|]|e|m] w [Hw Hr]; [done..|by split; [|destruct e]|by split]. }
    intros [no|]; [by apply Hseed|].
    apply (ensures_bind _ _ _ (λ o w, logins l w ∧ organizations w ≠ [] ∧ ∀ org, o = Some org → is_member (u_id user) org w)).
    { eapply ensures_mono; [apply (join_call_spec user (λ w, logins l w ∧ organizations w ≠ []))|done|].
      - intros w x w' [Hw Ho] Hj. split; [by eapply (Hjl (λ _, True))|]. by apply join_claims_mono in Hj as [-> _].
      - intros [[org|]|e|m] w [[Hw Ho] Hr]; [by split_and!; [| |intros ? [= <-]]|by split_and!|by split; [|destruct e]|by split]. }
    intros [org|]; [apply Hret|apply ensures_err]; intros w (Hw & Ho & Hr); split; try done. by apply Hr.
  - apply (ensures_bind _ _ _ (λ o w, logins l w ∧ ∀ org, o = Some org → is_member (u_id user) org w)).
    { eapply ensures_mono; [apply (join_call_spec user (logins l))|by intros w []|].
      - intros w x w' Hw Hj. by eapply (Hjl (λ _, True)).
      - intros [[org|]|e|m] w [Hw Hr]; [by split; [|intros ? [= <-]]|by split|by split; [|destruct e]|by split]. }
    intros [org|]; [apply Hret; intros w [Hw Hr]; split; [done|by apply Hr]|].
    apply Hlist; cbn [head]; [by intros w []|..].
    { intros m ms. apply Hret. by intros w [[Hw _] Hm]. }
    destruct (cfg_cloud cfg) eqn:Ec.
    { apply ensures_ret. intros w [[Hw _] Hn]. by split. }
    apply (ensures_bind _ _ _ (λ no w, logins l w ∧ is_member (u_id user) (no_id no) w)).
    + apply ensures_map_err. eapply ensures_mono; [apply create_loop_spec|by intros w [[]]|].
      intros [no|e|m] w [Hw Hr]; by split.
    + intros no. by apply Hseed.
Qed.

Lemma consume_Ok token now s co :
  (consume_oauth_state token now s).1 = Ok co →
  ∃ row, row ∈ oauth_login_states s ∧ os_state row = OAuthState_as_str token ∧ (now < os_expires_at row)%Z
    ∧ PkceVerifier_try_from (os_pkce_verifier row) = Ok (co_pkce_verifier co)
    ∧ OidcNonce_try_from (os_nonce row) = Ok (co_nonce co) ∧ co_redirect_to co = os_redirect_to row.
Proof.
  unfold consume_oauth_state. cbn [fst]. destruct (List.find _ _) as [row|] eqn:Er; [|done]. cbn.
  apply find_Some_iff in Er as [Hin Hb]. bools. unfold decode_login_state.
  intros (lo & Hlo & Hr)%res_bind_Ok. apply res_bind_Ok in Hr as (pk & Hpk & Hr).
  apply res_bind_Ok in Hr as (no & Hno & [= <-]). exists row. cbn.
  destruct (PkceVerifier_try_from (os_pkce_verifier row)); [|done..]. destruct (OidcNonce_try_from (os_nonce row)); [|done..].
  injection Hpk as ->. injection Hno as ->. done.
Qed.

Lemma consume_gone token now s r :
  r ∈ oauth_login_states (consume_oauth_state token now s).2 → os_state r ≠ OAuthState_as_str token.
Proof.
  unfold consume_oauth_state. cbn. intros [Hn [Hh Hr]%list_elem_of_filter]%list_elem_of_filter Hs.
  rewrite bool_decide_true in Hh by done. apply Z.ltb_lt in Hn. by rewrite Hn in Hh.
Qed.

Lemma profile_verified issuer c p : profile_from_claims issuer c = Ok p → cl_email_verified c = Some true.
Proof. unfold profile_from_claims. destruct (cl_email_verified c) as [[]|]; cbn; done. Qed.

(** What a finished login says of the state it was made with and of the tables [s] it
    started from. *)
Definition login_from (exchange : str → PkceVerifier → OidcNonce → res AuthError IdTokenClaims)
    (code state dest : str) (s : orgs) : Prop :=
  ∃ row pkce nonce claims,
    row ∈ oauth_login_states s ∧ os_state row = state ∧ (oe_now env < os_expires_at row)%Z
    ∧ PkceVerifier_try_from (os_pkce_verifier row) = Ok pkce ∧ OidcNonce_try_from (os_nonce row) = Ok nonce
    ∧ exchange code pkce nonce = Ok claims ∧ cl_email_verified claims = Some true
    ∧ dest = default (lit "/") (os_redirect_to row).

Lemma upsert_call_spec p l :
  ensures (logins l) (pmap_err HAuth (auth_call env (UpsertFromOidc (oe_user_id env) p (oe_now env))
      (upsert_from_oidc (oe_user_id env) p (oe_now env))))
    (λ r w, logins l w ∧ match r with Err (HForbidden _) => False | _ => True end).
Proof.
  apply ensures_map_err, ensures_call; [done|]. intros _ w Hw. unfold upsert_from_oidc, trun.
  destruct (upsert_write _ _ _ w) as [[[r n] w']| |] eqn:Eu; cbn; [|by repeat split..].
  assert (logins l w') as Hw' by (unfold logins; by rewrite (upsert_logins _ _ _ _ _ _ Eu)).
  split; [split; [done|]|by repeat split]. by destruct (decode_user r).
Qed.

Lemma state_of_token state token : OAuthState_try_from state = Ok token → OAuthState_as_str token = state.
Proof. unfold OAuthState_try_from. repeat case_match; try done. by intros [= <-]. Qed.
End sign_in.

(** While nobody else writes: a login that succeeds used a pending, unexpired state
    with its own verifier and nonce, was vouched for by claims whose e-mail is
    verified, goes back to the path stored with that state, and leaves no state of
    that name, so that the state works once; its session is for an organisation the
    person is then a member of, or for none, which only happens on the cloud to
    somebody without any.  A login is forbidden only on an installation that is
    invite-only and has an organisation. *)
Theorem sign_in_lands `{Citext, Sha256, Lowercase, UrlParser, JwtSigner} (env : OrgEnv) (cfg : AuthConfig) issuer exchange
    (code state : str) (error : option str) (st : run_state orgs OrgCall) :
  Alone (oe_net env) →
  let out := callback env cfg issuer exchange code state error st in
  match out.1 with
  | Ok (session, dest) =>
      login_from env exchange code state dest (run_tables st)
      ∧ (∀ r, r ∈ oauth_login_states (run_tables out.2) → os_state r ≠ state)
      ∧ match ss_org session with
        | Some org => is_member (ss_user session) org (run_tables out.2)
        | None => cfg_cloud cfg = true ∧ cfg_bootstrap_admin cfg = false
                  ∧ user_org_rows (ss_user session) (run_tables out.2) = []
        end
  | Err (HForbidden _) => cfg_bootstrap_admin cfg = true ∧ organizations (run_tables out.2) ≠ []
  | _ => True
  end.
Proof.
  intros Ha out. unfold out. clear out.
  apply (λ Hm : ensures (λ w, w = run_tables st) (callback env cfg issuer exchange code state error)
    (λ r w, match r with
            | Ok (session, dest) =>
                login_from env exchange code state dest (run_tables st)
                ∧ (∀ r, r ∈ oauth_login_states w → os_state r ≠ state)
                ∧ landed cfg (ss_user session) (Ok (ss_org session)) w
            | Err (HForbidden _) => cfg_bootstrap_admin cfg = true ∧ organizations w ≠ []
            | _ => True end), Hm st eq_refl).
  destruct error as [err|]; [by apply ensures_err|]. cbn [callback].
  apply ensures_bind_lift; [intros token Htok|intros [] w He Hw; by destruct (OAuthState_try_from state)|done].
  destruct (OAuthState_try_from state) as [tok| |] eqn:Es; [|done..]. injection Htok as ->.
  apply state_of_token in Es as <-. set (s := run_tables st). set (l := oauth_login_states (consume_oauth_state token (oe_now env) s).2).
  apply (ensures_bind _ _ _ (λ co w, logins l w ∧ (consume_oauth_state token (oe_now env) s).1 = Ok co)).
  { apply ensures_map_err, ensures_call; [done|]. intros _ w ->. split; [|by intros msg].
    fold s. by destruct ((consume_oauth_state token (oe_now env) s).1) eqn:E; [split| |]. }
  intros co. apply ensures_pure. intros Hco.
  pose proof (consume_Ok token (oe_now env) s co Hco) as (row & Hrow & Hst & Hexp & Hpk & Hno & Hre).
  apply ensures_bind_lift; [intros p Hp|intros e w He _; destruct e; try done; exfalso; revert He|done].
  - destruct (exchange code _ _) as [c|e|m] eqn:Ex; [|done..]. cbn in Hp.
    destruct (profile_from_claims issuer c) as [p'| |] eqn:Ec; [|done..]. injection Hp as ->.
    apply profile_verified in Ec.
    apply (ensures_bind _ _ _ (λ _ w, logins l w)).
    { eapply ensures_mono; [by apply upsert_call_spec|done|]. by intros [a|[]|m] w []. }
    intros uu. apply (ensures_bind _ _ _ (λ o w, logins l w ∧ landed cfg (u_id (uu_user uu)) (Ok o) w)).
    { eapply ensures_mono; [by apply resolve_spec|done|]. by intros [a|[]|m] w []. }
    intros o. unfold remint_session. apply ensures_bind_lift; [intros ss Hss|intros e w He _|done].
    2: { destruct (jwt_mint _ _); [done|by injection He as <-|done]. }
    destruct (jwt_mint _ _) as [t|e|m]; [|done..]. injection Hss as <-. cbn [ss_org ss_user].
    apply ensures_ret. intros w [Hw Hland]. split_and!; [|intros r Hr|exact Hland].
    + exists row, (co_pkce_verifier co), (co_nonce co), c. by rewrite Hre.
    + rewrite Hw in Hr. by apply consume_gone in Hr.
  - destruct (exchange code _ _) as [c|e|m]; cbn; [by destruct (profile_from_claims issuer c)|done..].
Qed.

(** ** Slugs *)

(** Characters of a slug, the last of which can start one: a slug read backwards. *)
Definition rev_slug (out : str) : Prop :=
  Forall (λ c, slug_char c = true) out ∧ (out = [] ∨ ∃ o c, out = o ++ [c] ∧ slug_head c = true).

Lemma slug_head_not_dash c : slug_head c = true → (c =? dash)%N = false.
Proof.
  unfold slug_head, is_ascii_lowercase, is_ascii_digit, dash. intros Hc. apply N.eqb_neq. intros ->. done.
Qed.

Lemma slug_loop_rev chars out last_dash : rev_slug out → rev_slug (slug_loop chars out last_dash).
Proof.
  revert out last_dash. induction chars as [|c chars IH]; intros out ld Ho; [done|]. cbn.
  assert (∀ x, slug_char x = true → (out = [] → slug_head x = true) → rev_slug (x :: out)) as Hcons.
  { intros x Hx Hh. destruct Ho as [Hf [->|(o & y & -> & Hy)]].
    - split; [by constructor|]. right. exists [], x. by split; [|apply Hh].
    - split; [by constructor|]. right. by exists (x :: o), y. }
  destruct (slug_head c) eqn:Ec.
  - apply IH, Hcons; [|done]. unfold slug_char. by rewrite Ec.
  - destruct (negb ld && negb (is_empty out)) eqn:Eb; [|by apply IH]. apply IH, Hcons; [done|].
    intros ->. by rewrite andb_false_r in Eb.
Qed.

Lemma pop_dashes_rev out : rev_slug out → rev_slug (pop_dashes out) ∧ (out ≠ [] → pop_dashes out ≠ []) ∧ length (pop_dashes out) ≤ length out.
Proof.
  intros [Hf Hd]. induction out as [|x out IH]; [done|]. cbn. inversion Hf as [|? ? Hx Hf']; subst.
  destruct (x =? dash)%N eqn:Ex; [|split_and!; [by split|done|done]].
  destruct Hd as [|(o & c & Ho & Hc)]; [done|]. destruct o as [|y o]; injection Ho as <- Ho.
  - apply slug_head_not_dash in Hc. congruence.
  - destruct IH as (? & Hn & ?); [done|right; eauto|]. subst. split_and!; [done| |cbn; lia]. intros _. apply Hn. by destruct o.
Qed.

Lemma slug_char_len l : Forall (λ c, slug_char c = true) l → str_len l = length l.
Proof.
  unfold str_len. induction 1 as [|c l Hc _ IH]; [done|]. csimpl. rewrite IH.
  assert (len_utf8 c = 1) as ->; [|done]. unfold len_utf8. unfold slug_char, slug_head, is_ascii_lowercase, is_ascii_digit in Hc.
  destruct (N.ltb_spec c 0x80) as [|Hle]; [done|]. exfalso.
  rewrite !orb_true_iff, !andb_true_iff, !N.leb_le, N.eqb_eq in Hc. lia.
Qed.

(** What a slug is, for the constructor. *)
Lemma slug_valid raw :
  0 < length raw ≤ ORG_SLUG_MAX_BYTES → rev_slug (reverse raw) → OrgSlug_try_from raw = Ok (mkOrgSlug raw).
Proof.
  intros [Hl1 Hl2] [Hf Hd]. apply Forall_reverse in Hf as Hf'. rewrite reverse_involutive in Hf'.
  unfold OrgSlug_try_from. rewrite slug_char_len by done. destruct raw as [|c raw]; [cbn in Hl1; lia|]. cbn [is_empty].
  rewrite (proj2 (Nat.ltb_ge _ _)) by done. destruct Hd as [Hd|(o & y & Hd & Hy)].
  - apply (f_equal length) in Hd. rewrite length_reverse in Hd. done.
  - rewrite reverse_cons in Hd. apply app_inj_tail in Hd as [_ <-]. rewrite Hy. cbn [negb].
    inversion Hf' as [|? ? ? Hr]; subst. by rewrite (proj2 (forallb_Forall _ _) Hr).
Qed.

Lemma take_rev_slug n raw : 0 < n → rev_slug (reverse raw) → rev_slug (reverse (take n raw)).
Proof.
  intros Hn [Hf Hd]. split.
  - apply Forall_reverse, Forall_take. apply Forall_reverse in Hf. by rewrite reverse_involutive in Hf.
  - destruct Hd as [Hd|(o & c & Hd & Hc)].
    + left. apply (f_equal reverse) in Hd. rewrite reverse_involutive in Hd. rewrite Hd. by destruct n.
    + right. apply (f_equal reverse) in Hd. rewrite reverse_involutive, reverse_app in Hd. cbn in Hd. subst raw.
      destruct n as [|n]; [lia|]. cbn [take app]. rewrite reverse_cons. eauto.
Qed.

(** Whatever the name, the slug made from it is one the constructor and the column
    accept, of at most fifty characters, and so is the slug with a suffix. *)
Lemma sanitize_slug_valid `{Lowercase} (raw : str) :
  OrgSlug_try_from (sanitize_slug raw) = Ok (mkOrgSlug (sanitize_slug raw)) ∧
  ∀ suffix, Forall (λ c, slug_head c = true) suffix → length suffix = 4 →
    OrgSlug_try_from (sanitize_slug raw ++ lit "-" ++ suffix) = Ok (mkOrgSlug (sanitize_slug raw ++ lit "-" ++ suffix)).
Proof.
  assert (0 < length (sanitize_slug raw) ≤ 50 ∧ rev_slug (reverse (sanitize_slug raw))) as [Hl Hr].
  { unfold sanitize_slug.
    assert (rev_slug (slug_loop (to_lowercase raw) [] false)) as H1 by (apply slug_loop_rev; split; [constructor|by left]).
    apply pop_dashes_rev in H1 as (H1 & _ & _). set (out := pop_dashes _) in *.
    set (o2 := if is_empty (reverse out) then lit "org" else reverse out).
    assert (0 < length o2 ∧ rev_slug (reverse o2)) as [Hn H2].
    { unfold o2. destruct (is_empty (reverse out)) eqn:Ee; bools.
      - cbn. split; [lia|]. split; [by repeat constructor|]. right. by exists [0x67%N; 0x72%N], 0x6f%N.
      - rewrite reverse_involutive. split; [|done]. destruct (reverse out); [done|cbn; lia]. }
    destruct (50 <? str_len o2) eqn:E50; bools.
    - apply (take_rev_slug 50) in H2 as H3; [|lia]. apply pop_dashes_rev in H3 as (H3 & Hne & Hle).
      rewrite length_reverse, reverse_involutive. split; [|done]. split.
      + apply Nat.neq_0_lt_0. intros Hz%nil_length_inv. apply Hne; [|done]. intros He.
        apply (f_equal length) in He. rewrite length_reverse, length_take in He. cbn [length] in He. lia.
      + rewrite length_reverse, length_take in Hle. lia.
    - split; [|done]. split; [done|]. rewrite slug_char_len in E50; [done|].
      destruct H2 as [H2 _]. apply Forall_reverse in H2. by rewrite reverse_involutive in H2. }
  split; [apply slug_valid; [unfold ORG_SLUG_MAX_BYTES; lia|done]|].
  intros suffix Hs Hs4. apply slug_valid.
  - rewrite !length_app, Hs4. cbn. unfold ORG_SLUG_MAX_BYTES. lia.
  - destruct Hr as [Hf Hd]. rewrite !reverse_app. split.
    + rewrite !Forall_app. split_and!; [|by repeat constructor|done].
      apply Forall_reverse. eapply Forall_impl; [exact Hs|]. intros c Hc. unfold slug_char. by rewrite Hc.
    + right. destruct Hd as [Hd|(o & c & -> & Hc)].
      * apply (f_equal length) in Hd. rewrite length_reverse in Hd. cbn in Hd. lia.
      * exists (reverse suffix ++ reverse (lit "-") ++ o), c. by rewrite <-!app_assoc.
Qed.

(** ** Traces of a concrete office *)

Module RouteDemo.
Import OrgDemo.
#[local] Existing Instances fold_case digest lower no_urls.
#[local] Instance sign : JwtSigner := λ u o, Ok (lit "jwt").

Definition env (now : Z) (r : InviteEntropy) (ids : N) : OrgEnv :=
  mkOrgEnv calm now r (λ n, (ids + N.of_nat n)%N) 9 (λ _, lit "0000") (λ _, Ok tt) (λ _, Ok tt).
Definition run {A} (m : OrgProg A) (s : orgs) : res HttpError A * orgs :=
  let out := m (mkRun s []) in (out.1, run_tables out.2).
Definition ann : Principal := mkPrincipal 1 10 Owner.
Definition bob : Principal := mkPrincipal 2 10 Admin.
Definition eve : Principal := mkPrincipal 3 20 Owner.

(** Ann makes Bob an admin, and invites a second owner. *)
Definition staffed : orgs :=
  foldl (λ s op, run_op op s) tables0
    [CreateInvites (rnd 100 0) 10 [mkEmail (lit "bob@acme.test")] Admin 1 2 INVITE_TTL;
     AcceptInvite 2 (tok 0) 3;
     CreateInvites (rnd 101 1) 10 [mkEmail (lit "cfo@acme.test")] Owner 1 4 INVITE_TTL].

(** An admin may not grant the owner's role nor invite an owner.  Sending an owner's
    invitation again asks only for an admin, and answers with its fresh token, which
    makes any account the admin holds an owner. *)
Lemma resend_escalates :
  (run (change_role (env 5 (rnd 200 7) 20) bob 3 Owner) staffed).1 ≠ Ok tt ∧
  (run (invite_members (env 5 (rnd 200 7) 20) bob [lit "eve@else.test"] Owner) staffed).1
    = Err (HForbidden "owner role required to invite owners") ∧
  let sent := run (resend_invite_route (env 5 (rnd 200 7) 20) bob 101) staffed in
  (ii_token <$> res_ok sent.1) = Some (tok 7) ∧
  let taken := run (accept_invite (env 6 (rnd 0 0) 20) eve (InviteToken_as_str (tok 7))) sent.2 in
  membership 3 10 staffed = None ∧ membership 3 10 taken.2 = Some Owner.
Proof. vm_compute. split_and!; done. Qed.

(** A workspace whose first agent cannot be seeded exists and counts: the retry is
    refused, with a grant never made. *)
Lemma create_org_retry_refused :
  let failing := mkOrgEnv calm 5 (rnd 0 0) (λ n, (30 + N.of_nat n)%N) 9 (λ _, lit "0000")
                   (λ _, Err (lit "agents")) (λ _, Ok tt) in
  let first := run (create_org failing true 2 (lit "Beta")) tables0 in
  first.1 = Err (HAgent (lit "agents")) ∧
  (run (create_org (env 6 (rnd 0 0) 40) true 2 (lit "Beta")) first.2).1 = Err (HAuth (OrgLimitReached 1)) ∧
  owned 2 first.2 = 1%Z.
Proof. vm_compute. split_and!; done. Qed.

(** An owner who deletes the workspace may create one again: the cap does not bound
    how many signup grants one person collects. *)
Lemma delete_frees_the_slot :
  let s1 := (run (create_org (env 5 (rnd 0 0) 30) true 2 (lit "Beta")) tables0).2 in
  let s2 := (run (delete_org (env 6 (rnd 0 0) 30) (mkPrincipal 2 30 Owner)) s1).2 in
  ss_org <$> res_ok (run (create_org (env 7 (rnd 0 0) 40) true 2 (lit "Beta")) s2).1 = Some (Some 40%N).
Proof. by vm_compute. Qed.

(** A path of a slash and a backslash is kept, though browsers read it as the start of
    another host. *)
Lemma return_path_with_backslash :
  sanitize_return_to (lit "/\evil.test") = Some (lit "/\evil.test") ∧ sanitize_return_to (lit "//evil.test") = None.
Proof. by vm_compute. Qed.

(** On a self-hosted installation the first workspace is named after the display name,
    else the address: an empty name, or an address of over two hundred bytes, cannot
    sign in. *)
Lemma unnameable_sign_in :
  let long := lit "a@" ++ repeat 0x61%N 199 in
  let user1 := mkUser 2 (mkEmail (lit "bob@acme.test")) (Some []) None in
  let user2 := mkUser 2 (mkEmail long) None None in
  let cfg := mkAuthConfig false false in
  is_ok (Email_try_from long) = true ∧
  (run (resolve_active_org (env 5 (rnd 0 0) 30) cfg user1 None None) tables0).1
    = Err (HAuth (AuthDb (OtherDb (lit "check constraint")))) ∧
  (run (resolve_active_org (env 5 (rnd 0 0) 30) cfg user2 None None) tables0).1
    = Err (HAuth (AuthDb (OtherDb (lit "check constraint")))).
Proof. vm_compute. split_and!; done. Qed.

Definition login_row : OAuthStateRow :=
  mkOAuthStateRow (repeat 0x73%N 32) (repeat 0x70%N 43) (lit "nonce") (Some (lit "/agents")) None 0 100.
Definition claims : IdTokenClaims :=
  mkClaims (Some true) (Some (lit "cfo@acme.test")) (lit "s4") None None None.
Definition waiting : orgs := run_op (InsertOAuthState login_row) staffed.
Definition cfo_login : OrgProg (Session * str) :=
  callback (env 50 (rnd 0 0) 30) (mkAuthConfig true false) (lit "https://idp.test") (λ _ _ _, Ok claims)
    (lit "code") (repeat 0x73%N 32) None.

(** The invited owner signs in: a new user, who lands in the organisation. *)
Lemma cfo_lands :
  (run cfo_login waiting).1 = Ok (mkSession 9 (Some 10%N) (lit "jwt"), lit "/agents")
  ∧ membership 9 10 (run cfo_login waiting).2 = Some Owner
  ∧ (run cfo_login (run cfo_login waiting).2).1 = Err (HAuth OAuthStateInvalid).
Proof. vm_compute. split_and!; done. Qed.
End RouteDemo.

Lemma non_owners_keep_owners_witness :
  ¬ owns 2 10 RouteDemo.staffed ∧
  let st := mkRun RouteDemo.staffed [] in
  let env := RouteDemo.env 5 (OrgDemo.rnd 200 7) 20 in
  let rq := RqChangeRole 1 Member in
  owns 1 10 (run_tables (@serve OrgDemo.fold_case OrgDemo.digest OrgDemo.no_urls RouteDemo.sign env RouteDemo.bob rq st).2)
    ↔ owns 1 10 RouteDemo.staffed.
Proof.
  assert (¬ owns 2 10 RouteDemo.staffed) as Hn by (intros Ho; vm_compute in Ho; discriminate Ho).
  split; [exact Hn|]. intros st env rq.
  exact (@non_owners_keep_owners OrgDemo.fold_case OrgDemo.digest OrgDemo.lower OrgDemo.no_urls RouteDemo.sign
           env RouteDemo.bob rq st calm_alone Hn 10%N 1%N).
Defined.

Lemma sign_in_lands_witness :
  @is_member 9 10 (RouteDemo.run RouteDemo.cfo_login RouteDemo.waiting).2.
Proof.
  pose proof (@sign_in_lands OrgDemo.fold_case OrgDemo.digest OrgDemo.lower OrgDemo.no_urls RouteDemo.sign
    (RouteDemo.env 50 (OrgDemo.rnd 0 0) 30) (mkAuthConfig true false) (lit "https://idp.test") (λ _ _ _, Ok RouteDemo.claims)
    (lit "code") (repeat 0x73%N 32) None (mkRun RouteDemo.waiting []) calm_alone) as Hs.
  vm_compute in Hs. vm_compute. exact (proj2 (proj2 Hs)).
Defined.
