(* ===== verification/MemberSearch.v ===== *)
(** * Listing and searching the members of an organisation

    [list_members] of [orgs/pg_store.rs] and of [http/routes/org.rs]: the union of
    members and pending invitations, its filters, pages and counters.  LIKE is
    modelled as the database documents it; the escape clause is the one the statement
    sends. *)

From Stdlib Require Import ZArith Lia Ascii String.
From stdpp Require Import base list strings sets.
From S2P Require Import Prelude Program Types Network Tools Identity Orgs OrgLaws.

(** ** LIKE *)

Definition percent : N := 0x25.
Definition underscore : N := 0x5f.
Definition backslash : N := 0x5c.

Inductive LikeTok := AnyRun | AnyChar | Exactly (c : N).

(** A pattern, read with an escape character or with none ([ESCAPE '']); an escape at
    the end is an error of the statement. *)
Fixpoint parse_like (escape : option N) (p : str) : option (list LikeTok) :=
  match p with
  | [] => Some []
  | c :: p' =>
      if bool_decide (escape = Some c) then
        match p' with [] => None | d :: p'' => cons (Exactly d) <$> parse_like escape p'' end
      else cons (if (c =? percent)%N then AnyRun else if (c =? underscore)%N then AnyChar else Exactly c)
             <$> parse_like escape p'
  end.

Fixpoint like_match (toks : list LikeTok) (s : str) : bool :=
  match toks with
  | [] => is_empty s
  | Exactly c :: t => match s with x :: s' => (x =? c)%N && like_match t s' | [] => false end
  | AnyChar :: t => match s with _ :: s' => like_match t s' | [] => false end
  | AnyRun :: t =>
      (fix run s := like_match t s || match s with [] => false | _ :: s' => run s' end) s
  end.

(** How the database folds the case of one character for ILIKE. *)
Class CharFold := char_fold : N → N.
Class CharFoldLaws `{CharFold} : Prop :=
  char_fold_special : ∀ c k, k ∈ [percent; underscore; backslash] → char_fold c = k ↔ c = k.

Definition ilike `{CharFold} (escape : option N) (s pattern : str) : option bool :=
  toks ← parse_like escape (char_fold <$> pattern); Some (like_match toks (char_fold <$> s)).

(** ** The pattern of a search *)

(** [str::replace] of one character *)
Definition replace_char (c : N) (by_ : str) (s : str) : str :=
  mjoin ((λ x, if (x =? c)%N then by_ else [x]) <$> s).

Definition query_pattern (q : str) : str :=
  let escaped := replace_char underscore [backslash; underscore]
                   (replace_char percent [backslash; percent]
                     (replace_char backslash [backslash; backslash] q)) in
  [percent] ++ escaped ++ [percent].

(** The clause of the statement: in the source text it is written [ESCAPE '\'] within
    an ordinary string literal, where [\'] is a quote; the database receives
    [ESCAPE '']. *)
Definition SEARCH_ESCAPE : option N := None.
(** The clause the comment above it describes. *)
Definition DESCRIBED_ESCAPE : option N := Some backslash.

(** ** The listing *)

Inductive MemberStatus := StActive | StInvited | StExpired.
#[export] Instance MemberStatus_eq_dec : EqDecision MemberStatus.
Proof. solve_decision. Defined.
Definition MemberStatus_as_str (s : MemberStatus) : string :=
  match s with StActive => "active" | StInvited => "invited" | StExpired => "expired" end.
#[export] Instance MemberStatus_StrEnum : StrEnum MemberStatus.
Proof. refine {| ALL := [StActive; StInvited; StExpired]; as_str := MemberStatus_as_str |}; abstract str_enum. Defined.

Record MemberFilter := mkFilter {
  mf_query : option str; mf_status : option MemberStatus; mf_role : option OrgRole; mf_page : Z; mf_per_page : Z }.

Inductive UnifiedKind := UMember (user : UserId) (display_name avatar_url : option str) | UInvite (id : InviteId) (expires_at : Z).
Record UnifiedRow := mkUnified {
  un_kind : UnifiedKind; un_email : str; un_role : OrgRole; un_joined_at : Z; un_status : MemberStatus }.

Definition unified_member (s : orgs) (m : OrgMemberRow) : option UnifiedRow :=
  u ← user_row (om_user_id m) s;
  Some (mkUnified (UMember (om_user_id m) (us_display_name u) (us_avatar_url u)) (us_email u) (om_role m)
          (om_created_at m) StActive).
Definition invite_status (now : Z) (r : OrgInviteRow) : MemberStatus :=
  if (iv_expires_at r <? now)%Z then StExpired else StInvited.
Definition unified_invite (now : Z) (r : OrgInviteRow) : UnifiedRow :=
  mkUnified (UInvite (iv_id r) (iv_expires_at r)) (iv_email r) (iv_role r) (iv_created_at r) (invite_status now r).

Definition org_pending (org : OrgId) (s : orgs) : list OrgInviteRow :=
  filter (λ r, iv_org_id r = org ∧ iv_consumed_at r = None) (org_invites s).
Definition unified (org : OrgId) (now : Z) (s : orgs) : list UnifiedRow :=
  omap (unified_member s) (filter (λ m, om_org_id m = org) (org_members s))
  ++ (unified_invite now <$> org_pending org s).

(** The WHERE clause; [None]: the pattern is malformed. *)
Definition row_matches `{CharFold} (escape : option N) (f : MemberFilter) (r : UnifiedRow) : option bool :=
  found ← match mf_query f with
          | None => Some true
          | Some q => ilike escape (un_email r) (query_pattern q)
          end;
  Some (found
        && match mf_role f with None => true | Some x => bool_decide (un_role r = x) end
        && match mf_status f with None => true | Some x => bool_decide (un_status r = x) end).

Definition matching `{CharFold} (escape : option N) (f : MemberFilter) (rows : list UnifiedRow) : list UnifiedRow :=
  sort_by (λ r, - un_joined_at r)%Z (filter (λ r, row_matches escape f r = Some true) rows).

Inductive MemberRow :=
| MRMember (user : UserId) (email : Email) (display_name : option str) (avatar : option AvatarUrl)
    (role : OrgRole) (joined_at : Z)
| MRInvite (id : InviteId) (email : Email) (role : OrgRole) (status : MemberStatus) (invited_at expires_at : Z).

Definition decode_unified `{UrlParser} (r : UnifiedRow) : res OrgError MemberRow :=
  email <-? res_map_err OrgParse (Email_try_from (un_email r)) ;
  match un_kind r with
  | UMember user name avatar =>
      avatar <-? res_map_err OrgParse (transpose_opt AvatarUrl_try_from avatar) ;
      Ok (MRMember user email name avatar (un_role r) (un_joined_at r))
  | UInvite id expires =>
      Ok (MRInvite id email (un_role r)
            (if bool_decide (un_status r = StExpired) then StExpired else StInvited) (un_joined_at r) expires)
  end.

Record MemberPage := mkPage {
  mp_rows : list MemberRow; mp_total : nat; mp_active : nat; mp_invited : nat; mp_expired : nat }.

Definition MAX_MEMBERS_PER_PAGE : Z := 50.
Definition clamp_per_page (n : Z) : Z := Z.max 1 (Z.min MAX_MEMBERS_PER_PAGE n).

(** [LIMIT per_page OFFSET (page - 1) * per_page], and the window's COUNT, which the
    code reads in the first row it got. *)
Definition list_members `{CharFold, UrlParser} (escape : option N) (org : OrgId) (f : MemberFilter) (now : Z)
    (s : orgs) : res OrgError MemberPage :=
  let per_page := Z.to_nat (clamp_per_page (mf_per_page f)) in
  let page := Z.to_nat (Z.max 1 (mf_page f)) in
  let all := matching escape f (unified org now s) in
  let rows := take per_page (drop ((page - 1) * per_page) all) in
  let total := match rows with [] => 0 | _ :: _ => length all end in
  out <-? collect_res decode_unified rows ;
  Ok (mkPage out total
        (length (filter (λ m, om_org_id m = org) (org_members s)))
        (length (filter (λ r, invite_status now r = StInvited) (org_pending org s)))
        (length (filter (λ r, invite_status now r = StExpired) (org_pending org s)))).

(** ** The request *)

Definition parse_member_status (s : str) : option MemberStatus := parse s.

Definition request_filter (q status role : option str) (page per_page : option Z) : MemberFilter :=
  mkFilter (q ← q; if is_empty (trim q) then None else Some (trim q)) (s ← status; parse_member_status s)
    (r ← role; parse r) (Z.max 1 (default 1 page)%Z) (clamp_per_page (default 20 per_page)%Z).

(** ** What a search finds *)

Lemma mjoin_cons {A} (x : list A) l : mjoin (x :: l) = x ++ mjoin l.
Proof. done. Qed.

Section search.
Context `{CharFoldLaws}.

Lemma fold_percent : char_fold percent = percent.
Proof. apply char_fold_special; [rewrite !elem_of_cons; tauto|done]. Qed.
Lemma fold_underscore : char_fold underscore = underscore.
Proof. apply char_fold_special; [rewrite !elem_of_cons; tauto|done]. Qed.
Lemma fold_backslash : char_fold backslash = backslash.
Proof. apply char_fold_special; [rewrite !elem_of_cons; tauto|done]. Qed.

Definition special (c : N) : bool := (c =? percent)%N || (c =? underscore)%N || (c =? backslash)%N.

Lemma fold_not_special c : special c = false → special (char_fold c) = false.
Proof.
  unfold special. rewrite !orb_false_iff, !N.eqb_neq. intros [[Hp Hu] Hb].
  split_and!; intros Hf; (rewrite char_fold_special in Hf; [congruence|]); rewrite !elem_of_cons; tauto.
Qed.

(** The escaped text of one character. *)
Definition escaped_char (c : N) : str := if special c then [backslash; c] else [c].

Lemma escaped_query q :
  replace_char underscore [backslash; underscore]
    (replace_char percent [backslash; percent] (replace_char backslash [backslash; backslash] q))
  = mjoin (escaped_char <$> q).
Proof.
  unfold replace_char. induction q as [|c q IH]; [done|]. rewrite !fmap_cons, !mjoin_cons.
  repeat first [rewrite fmap_app|rewrite join_app]. rewrite IH. f_equal. unfold escaped_char, special.
  destruct (N.eqb_spec c backslash) as [->|Hb]; [done|].
  destruct (N.eqb_spec c percent) as [->|Hp]; [done|].
  destruct (N.eqb_spec c underscore) as [->|Hu]; [done|]. cbn.
  rewrite (proj2 (N.eqb_neq c percent) Hp). cbn. by rewrite (proj2 (N.eqb_neq c underscore) Hu).
Qed.

(** What the pattern of a text reads as, with the described escape and with none. *)
Definition toks_described (q : str) : list LikeTok := Exactly ∘ char_fold <$> q.
Definition toks_sent (q : str) : list LikeTok :=
  mjoin ((λ c, if (c =? percent)%N then [Exactly backslash; AnyRun]
               else if (c =? underscore)%N then [Exactly backslash; AnyChar]
               else if (c =? backslash)%N then [Exactly backslash; Exactly backslash]
               else [Exactly (char_fold c)]) <$> q).

Lemma parse_described q tail toks :
  parse_like DESCRIBED_ESCAPE tail = Some toks →
  parse_like DESCRIBED_ESCAPE ((char_fold <$> mjoin (escaped_char <$> q)) ++ tail) = Some (toks_described q ++ toks).
Proof.
  intros Ht. induction q as [|c q IH]; [done|]. rewrite fmap_cons, mjoin_cons.
  rewrite fmap_app, <-app_assoc. unfold escaped_char at 1. destruct (special c) eqn:Es.
  - cbn [fmap list_fmap app]. rewrite fold_backslash. cbn [parse_like]. rewrite bool_decide_true by done. by rewrite IH.
  - cbn [fmap list_fmap app]. apply fold_not_special in Es. unfold special in Es.
    apply orb_false_iff in Es as [[Ep Eu]%orb_false_iff Eb%N.eqb_neq].
    cbn [parse_like]. rewrite bool_decide_false by (intros [= He]; congruence). by rewrite IH, Ep, Eu.
Qed.

Lemma parse_sent q tail toks :
  parse_like SEARCH_ESCAPE tail = Some toks →
  parse_like SEARCH_ESCAPE ((char_fold <$> mjoin (escaped_char <$> q)) ++ tail) = Some (toks_sent q ++ toks).
Proof.
  intros Ht. unfold toks_sent. induction q as [|c q IH]; [done|]. rewrite !fmap_cons, !mjoin_cons.
  rewrite fmap_app, <-!app_assoc. unfold escaped_char at 1. destruct (special c) eqn:Es.
  - unfold special in Es. destruct (N.eqb_spec c percent) as [->|]; [cbn; rewrite fold_percent, fold_backslash, IH; done|].
    destruct (N.eqb_spec c underscore) as [->|]; [cbn; rewrite fold_underscore, fold_backslash, IH; done|].
    destruct (N.eqb_spec c backslash) as [->|]; [cbn; rewrite !fold_backslash, IH; done|done].
  - pose proof Es as Es'. apply fold_not_special in Es'. unfold special in Es, Es'.
    apply orb_false_iff in Es as [[-> ->]%orb_false_iff ->]. apply orb_false_iff in Es' as [[Ep Eu]%orb_false_iff _].
    cbn [fmap list_fmap app parse_like]. rewrite bool_decide_false by done. by rewrite IH, Ep, Eu.
Qed.

(** Matching a run of exact characters is being a prefix; between two runs, being
    inside. *)
Lemma like_exact q toks s :
  like_match ((Exactly <$> q) ++ toks) s = true ↔ ∃ t, s = q ++ t ∧ like_match toks t = true.
Proof.
  revert s. induction q as [|c q IH]; intros s; [cbn; naive_solver|].
  rewrite fmap_cons. destruct s as [|x s]; cbn; [split; [done|by intros (t & ? & _)]|].
  rewrite andb_true_iff, N.eqb_eq, IH. naive_solver.
Qed.
Lemma like_any toks s : like_match (AnyRun :: toks) s = true ↔ ∃ a b, s = a ++ b ∧ like_match toks b = true.
Proof.
  induction s as [|x s IH].
  - cbn. rewrite orb_false_r. split; [intros Hm; by exists [], []|].
    intros (a & b & Hab & Hm). symmetry in Hab. apply app_nil in Hab as [-> ->]. done.
  - change (like_match (AnyRun :: toks) (x :: s)) with (like_match toks (x :: s) || like_match (AnyRun :: toks) s).
    rewrite orb_true_iff, IH. split.
    + intros [Hm|(a & b & -> & Hm)]; [by exists [], (x :: s)|by exists (x :: a), b].
    + intros ([|y a] & b & Hab & Hm); cbn in Hab; [subst; by left|]. injection Hab as -> ->. right. eauto.
Qed.
Lemma like_any_true s : like_match [AnyRun] s = true.
Proof. apply like_any. exists s, []. by rewrite app_nil_r. Qed.

Lemma contains_str_spec q s : contains_str q s = true ↔ ∃ a b, s = a ++ q ++ b.
Proof.
  induction s as [|x s IH]; cbn [contains_str]; rewrite orb_true_iff, starts_with_spec.
  - split; [intros [[t Ht]|]; [by exists [], t|done]|]. intros (a & b & Hab). left. exists b.
    symmetry in Hab. apply app_nil in Hab as [-> ->]. done.
  - rewrite IH. split.
    + intros [[t ->]|(a & b & ->)]; [by exists [], t|by exists (x :: a), b].
    + intros ([|y a] & b & Hab); cbn in Hab; [left; eauto|]. injection Hab as -> ->. right. eauto.
Qed.

Lemma like_contains q s : like_match (AnyRun :: (Exactly <$> q) ++ [AnyRun]) s = contains_str q s.
Proof.
  apply eq_true_iff_eq. rewrite like_any, contains_str_spec. split.
  - intros (a & b & -> & (t & -> & _)%like_exact). eauto.
  - intros (a & b & ->). exists a, (q ++ b). split; [done|]. apply like_exact. exists b. by rewrite like_any_true.
Qed.

(** An exact character of the pattern is in every text it matches. *)
Lemma like_needs c toks s : Exactly c ∈ toks → like_match toks s = true → c ∈ s.
Proof.
  revert s. induction toks as [|t toks IH]; intros s Hin Hm; [by apply elem_of_nil in Hin|].
  apply elem_of_cons in Hin as [<-|Hin].
  - destruct s as [|x s]; [done|]. cbn in Hm. bools. apply N.eqb_eq in H1 as ->. by left.
  - destruct t as [| |d].
    + apply like_any in Hm as (a & b & -> & Hm). apply elem_of_app. right. by apply IH.
    + destruct s as [|x s]; [done|]. right. by apply IH.
    + destruct s as [|x s]; [done|]. cbn in Hm. apply andb_true_iff in Hm as [_ Hm]. right. by apply IH.
Qed.

Definition finds (q email : str) : bool := contains_str (char_fold <$> q) (char_fold <$> email).
Definition other_filters (f : MemberFilter) (r : UnifiedRow) : bool :=
  match mf_role f with None => true | Some x => bool_decide (un_role r = x) end
  && match mf_status f with None => true | Some x => bool_decide (un_status r = x) end.

Lemma ilike_described q email : ilike DESCRIBED_ESCAPE email (query_pattern q) = Some (finds q email).
Proof.
  unfold ilike, query_pattern. cbv zeta. rewrite escaped_query, !fmap_app. cbn [fmap list_fmap]. rewrite fold_percent.
  change ([percent] ++ ?x) with (percent :: x).
  assert (parse_like DESCRIBED_ESCAPE [percent] = Some [AnyRun]) as Ht by done.
  apply (parse_described q) in Ht. cbn [parse_like]. rewrite bool_decide_false by done.
  rewrite Ht. cbn [fmap option_fmap option_map mbind option_bind]. unfold finds. f_equal.
  unfold toks_described. rewrite list_fmap_compose. by rewrite (like_contains (char_fold <$> q)).
Qed.

Lemma ilike_sent q email :
  ilike SEARCH_ESCAPE email (query_pattern q)
  = Some (like_match (AnyRun :: toks_sent q ++ [AnyRun]) (char_fold <$> email)).
Proof.
  unfold ilike, query_pattern. cbv zeta. rewrite escaped_query, !fmap_app. cbn [fmap list_fmap]. rewrite fold_percent.
  change ([percent] ++ ?x) with (percent :: x).
  assert (parse_like SEARCH_ESCAPE [percent] = Some [AnyRun]) as Ht by done.
  apply (parse_sent q) in Ht. cbn [parse_like]. rewrite bool_decide_false by done. by rewrite Ht.
Qed.

Lemma toks_sent_plain q : Forall (λ c, special c = false) q → toks_sent q = Exactly ∘ char_fold <$> q.
Proof.
  unfold toks_sent. induction 1 as [|c q Hc _ IH]; [done|]. rewrite !fmap_cons, mjoin_cons, IH.
  unfold special in Hc. by apply orb_false_iff in Hc as [[-> ->]%orb_false_iff ->].
Qed.
Lemma toks_sent_special q : Exists (λ c, special c = true) q → Exactly backslash ∈ toks_sent q.
Proof.
  unfold toks_sent. induction 1 as [c q Hc|c q _ IH]; rewrite fmap_cons, mjoin_cons, elem_of_app; [left|by right].
  unfold special in Hc. destruct (c =? percent)%N; [by left|]. destruct (c =? underscore)%N; [by left|].
  cbn in Hc. rewrite Hc. by left.
Qed.

(** Searching the members for a text [q].  A text without percent sign, underscore or
    backslash finds exactly the rows whose address contains it, whatever the case.
    Any other text finds only rows whose address has a backslash, so that an address
    with an underscore is not found by itself.  With the escape clause the comment
    describes, every text would find exactly the addresses that contain it. *)
Theorem member_search (f : MemberFilter) (q : str) (r : UnifiedRow) :
  mf_query f = Some q →
  (Forall (λ c, special c = false) q →
     row_matches SEARCH_ESCAPE f r = Some (finds q (un_email r) && other_filters f r)) ∧
  (Exists (λ c, special c = true) q → row_matches SEARCH_ESCAPE f r = Some true → backslash ∈ un_email r) ∧
  row_matches DESCRIBED_ESCAPE f r = Some (finds q (un_email r) && other_filters f r).
Proof.
  intros Hq. unfold row_matches. rewrite Hq, ilike_described, ilike_sent. cbn [mbind option_bind].
  unfold other_filters. rewrite andb_assoc. split_and!; [| |done].
  - intros Hp. unfold finds. rewrite (toks_sent_plain q Hp), list_fmap_compose, like_contains. done.
  - intros Hs Hm. apply (inj Some) in Hm. rewrite !andb_true_iff in Hm. destruct Hm as [[Hm _] _].
    apply (like_needs backslash) in Hm.
    + apply list_elem_of_fmap in Hm as (c & Hc & Hin). symmetry in Hc.
      rewrite char_fold_special in Hc by (rewrite !elem_of_cons; tauto). by subst.
    + right. apply elem_of_app. left. by apply toks_sent_special.
Qed.
End search.

(** ** Pages *)

Lemma collect_res_take_drop {E A B} (f : A → res E B) l ys n k :
  collect_res f l = Ok ys → collect_res f (take n (drop k l)) = Ok (take n (drop k ys)).
Proof.
  revert ys n k. induction l as [|x l IH]; intros ys n k; cbn.
  - intros [= <-]. by rewrite !drop_nil, !take_nil.
  - intros (y & Hy & Hr)%res_bind_Ok. apply res_bind_Ok in Hr as (ys' & Hys & [= <-]).
    destruct k as [|k]; cbn; [|by apply IH]. destruct n as [|n]; [done|]. cbn. rewrite Hy. cbn.
    specialize (IH ys' n 0 Hys). rewrite !drop_0 in IH. by rewrite IH.
Qed.

Lemma collect_res_length {E A B} (f : A → res E B) l ys : collect_res f l = Ok ys → length ys = length l.
Proof.
  revert ys. induction l as [|x l IH]; intros ys; cbn; [by intros [= <-]|].
  intros (y & Hy & Hr)%res_bind_Ok. apply res_bind_Ok in Hr as (ys' & Hys & [= <-]). cbn. by rewrite (IH ys').
Qed.

Definition with_page (k : nat) (f : MemberFilter) : MemberFilter :=
  mkFilter (mf_query f) (mf_status f) (mf_role f) (Z.of_nat k) (mf_per_page f).

(** The pages of a listing, one after the other, are the rows that match, the newest
    first, each once; every page with a row reports their number, and a page beyond
    the end reports none. *)
Lemma member_pages `{CharFold, UrlParser} (escape : option N) org (f : MemberFilter) now s rows (n : nat) :
  let per := Z.to_nat (clamp_per_page (mf_per_page f)) in
  let all := matching escape f (unified org now s) in
  collect_res decode_unified all = Ok rows → length all ≤ n * per →
  ∃ pages, Forall2 (λ k p, list_members escape org (with_page k f) now s = Ok p) (seq 1 n) pages
    ∧ mjoin (mp_rows <$> pages) = rows
    ∧ Forall (λ p, mp_total p = if is_empty (mp_rows p) then 0 else length all) pages.
Proof.
  intros per all Hrows Hn.
  assert (∀ k, 1 ≤ k → ∃ p, list_members escape org (with_page k f) now s = Ok p
    ∧ mp_rows p = take per (drop ((k - 1) * per) rows)
    ∧ mp_total p = if is_empty (mp_rows p) then 0 else length all) as Hpage.
  { intros k Hk. unfold list_members. cbn [mf_per_page mf_page with_page]. fold per.
    change (matching escape (with_page k f) (unified org now s)) with all.
    replace (Z.to_nat (Z.max 1 (Z.of_nat k))) with k by lia.
    rewrite (collect_res_take_drop _ _ _ per ((k - 1) * per) Hrows). cbn [res_bind].
    eexists. split; [reflexivity|]. cbn [mp_rows mp_total]. split; [done|].
    apply collect_res_length in Hrows as Hlen.
    assert (length (take per (drop ((k - 1) * per) all)) = length (take per (drop ((k - 1) * per) rows))) as Hl
      by (rewrite !length_take, !length_drop; lia).
    by destruct (take per (drop _ all)), (take per (drop _ rows)). }
  assert (∀ m j, 1 ≤ j → ∃ pages, Forall2 (λ k p, list_members escape org (with_page k f) now s = Ok p) (seq j m) pages
    ∧ mjoin (mp_rows <$> pages) = take (m * per) (drop ((j - 1) * per) rows)
    ∧ Forall (λ p, mp_total p = if is_empty (mp_rows p) then 0 else length all) pages) as Hpages.
  { induction m as [|m IH]; intros j Hj; [by exists []|].
    destruct (Hpage j Hj) as (p & Hp & Hpr & Hpt). destruct (IH (S j)) as (ps & Hps & Hj' & Ht); [lia|].
    exists (p :: ps). split_and!; [by constructor| |by constructor].
    rewrite fmap_cons, mjoin_cons, Hj', Hpr. replace (S j - 1) with j by lia.
    replace (j * per) with ((j - 1) * per + per) by (destruct j as [|j]; [lia|cbn [Nat.sub]; rewrite Nat.sub_0_r; lia]). rewrite <-drop_drop.
    by rewrite take_take_drop. }
  destruct (Hpages n 1) as (ps & Hps & Hj & Ht); [lia|]. exists ps. split_and!; [done| |done].
  rewrite Hj, drop_0. apply take_ge. rewrite (collect_res_length _ _ _ Hrows). lia.
Qed.

(** ** A concrete search *)

Module SearchDemo.
#[local] Instance fold_char : CharFold := to_ascii_lowercase_char.
#[local] Instance fold_laws : CharFoldLaws.
Proof.
  intros c k Hk. unfold char_fold, fold_char, to_ascii_lowercase_char. rewrite !elem_of_cons in Hk.
  destruct ((0x41 <=? c)%N && (c <=? 0x5a)%N) eqn:E; [|done]. apply andb_true_iff in E as [H1%N.leb_le H2%N.leb_le].
  unfold percent, underscore, backslash in Hk. rewrite elem_of_nil in Hk. split; intros; subst; lia.
Qed.

Definition filter_for (q : string) : MemberFilter := mkFilter (Some (lit q)) None None 1 20.
Definition row : UnifiedRow :=
  mkUnified (UInvite 1 100) (lit "John_Doe@acme.test") Member 5 StInvited.

(** The address contains the text, and is not found; without the underscore it is. *)
Lemma underscore_not_found :
  row_matches SEARCH_ESCAPE (filter_for "john_doe") row = Some false ∧
  row_matches DESCRIBED_ESCAPE (filter_for "john_doe") row = Some true ∧
  row_matches SEARCH_ESCAPE (filter_for "DOE@") row = Some true.
Proof. by vm_compute. Qed.
End SearchDemo.

Lemma member_search_witness :
  @row_matches SearchDemo.fold_char SEARCH_ESCAPE (SearchDemo.filter_for "doe") SearchDemo.row = Some true.
Proof.
  refine (proj1 (@member_search SearchDemo.fold_char SearchDemo.fold_laws (SearchDemo.filter_for "doe") (lit "doe")
    SearchDemo.row eq_refl) _).
  vm_compute. repeat constructor.
Defined.
