(* ===== verification/Memory.v ===== *)
(** * The memory of an agent

    [memory/types.rs], [memory/store.rs] and [memory/pg_store.rs]: the journal of
    mutations, the table materialised from it, validations and contradictions.  An
    operation is a transaction on the four tables; [sees] is what row security shows
    the acting user (everything, in a privileged transaction).  Embeddings, their
    distance, fresh ids and the tables behind the foreign keys are the
    environment's.  A row is kept as its columns; where the code decodes it, the
    checks of the decoding are made. *)

From Stdlib Require Import ZArith QArith Lia Ascii String.
From stdpp Require Import base list strings sets sorting.
From S2P Require Import Prelude Program Types.
Open Scope nat_scope.

Abbreviation MemoryId := N (only parsing).
Abbreviation MemoryEventId := N (only parsing).
Abbreviation ValidationEventId := N (only parsing).

(** ** Limits *)

Definition MEMORY_CONTENT_MAX_BYTES : nat := 4096.
Definition CONTRADICTION_REASON_MAX_BYTES : nat := 1024.
Definition VALIDATION_EVIDENCE_MAX_BYTES : nat := 1024.
Definition MAX_MEMORIES_PER_AGENT : nat := 1024.
Definition MAX_EVENTS_PER_PAGE : nat := 1024.
Definition MAX_SIMILAR_PAIRS_PER_AGENT : nat := 256.
Definition MAX_PARTICIPANTS_INLINE : nat := 32.
Definition RECALL_MAX_RESULTS : Z := 8.
Definition RECALL_DEFAULT_RESULTS : Z := 4.

(** ** Labels and validated values *)

Inductive MemoryKind := KIdentity | KOther | KCollaborator | KProcedure | KOpen.
Inductive MemoryState := Core | Validated | Held | Tentative.
Inductive MutationSourceKind := KTurn | KOperator | KLibrarian.
Inductive MutationKind := KWrite | KUpdate | KForget.

#[export] Instance MemoryKind_eq_dec : EqDecision MemoryKind.
Proof. solve_decision. Defined.
#[export] Instance MemoryState_eq_dec : EqDecision MemoryState.
Proof. solve_decision. Defined.
#[export] Instance MutationSourceKind_eq_dec : EqDecision MutationSourceKind.
Proof. solve_decision. Defined.
#[export] Instance MutationKind_eq_dec : EqDecision MutationKind.
Proof. solve_decision. Defined.

Definition MemoryKind_as_str (k : MemoryKind) : string :=
  match k with
  | KIdentity => "self" | KOther => "other" | KCollaborator => "collaborator"
  | KProcedure => "procedure" | KOpen => "open"
  end.
Definition MemoryState_as_str (s : MemoryState) : string :=
  match s with Core => "core" | Validated => "validated" | Held => "held" | Tentative => "tentative" end.
Definition MutationSourceKind_as_str (k : MutationSourceKind) : string :=
  match k with KTurn => "turn" | KOperator => "operator" | KLibrarian => "librarian" end.
Definition MutationKind_as_str (k : MutationKind) : string :=
  match k with KWrite => "write" | KUpdate => "update" | KForget => "forget" end.

#[export] Instance MemoryKind_StrEnum : StrEnum MemoryKind.
Proof.
  refine {| ALL := [KIdentity; KOther; KCollaborator; KProcedure; KOpen]; as_str := MemoryKind_as_str |};
    abstract str_enum.
Defined.
#[export] Instance MemoryState_StrEnum : StrEnum MemoryState.
Proof. refine {| ALL := [Core; Validated; Held; Tentative]; as_str := MemoryState_as_str |}; abstract str_enum. Defined.
#[export] Instance MutationSourceKind_StrEnum : StrEnum MutationSourceKind.
Proof.
  refine {| ALL := [KTurn; KOperator; KLibrarian]; as_str := MutationSourceKind_as_str |}; abstract str_enum.
Defined.
#[export] Instance MutationKind_StrEnum : StrEnum MutationKind.
Proof. refine {| ALL := [KWrite; KUpdate; KForget]; as_str := MutationKind_as_str |}; abstract str_enum. Defined.

Definition display_label (k : MemoryKind) : string :=
  match k with
  | KIdentity => "Self" | KOther => "Other" | KCollaborator => "Collaborator"
  | KProcedure => "Procedure" | KOpen => "Open"
  end.
Definition priority (s : MemoryState) : nat :=
  match s with Core => 4 | Validated => 3 | Held => 2 | Tentative => 1 end.

Record MemoryContent := mkMemoryContent { MemoryContent_as_str : str }.
#[export] Instance MemoryContent_eq_dec : EqDecision MemoryContent.
Proof. solve_decision. Defined.
Definition MemoryContent_try_from (raw : str) : res ParseError MemoryContent :=
  if is_empty (trim raw) then Err (Empty "memory_content")
  else if MEMORY_CONTENT_MAX_BYTES <? str_len raw
  then Err (TooLong "memory_content" MEMORY_CONTENT_MAX_BYTES (str_len raw))
  else Ok (mkMemoryContent raw).

Record ResolutionReason := mkResolutionReason { ResolutionReason_as_str : str }.
Definition ResolutionReason_try_from (value : str) : res ParseError ResolutionReason :=
  let len := str_len value in
  if len =? 0 then Err (Empty "resolution_reason")
  else if CONTRADICTION_REASON_MAX_BYTES <? len
  then Err (TooLong "resolution_reason" CONTRADICTION_REASON_MAX_BYTES len)
  else Ok (mkResolutionReason value).

Record MemoryEvidence := mkMemoryEvidence { MemoryEvidence_as_str : str }.
Definition MemoryEvidence_try_from (value : str) : res ParseError MemoryEvidence :=
  let len := str_len value in
  if len =? 0 then Err (Empty "memory_evidence")
  else if VALIDATION_EVIDENCE_MAX_BYTES <? len
  then Err (TooLong "memory_evidence" VALIDATION_EVIDENCE_MAX_BYTES len)
  else Ok (mkMemoryEvidence value).

Record RecallLimit := mkRecallLimit { RecallLimit_get : Z }.
Definition RecallLimit_DEFAULT : RecallLimit := mkRecallLimit RECALL_DEFAULT_RESULTS.
Definition RecallLimit_try_from (n : Z) : res ParseError RecallLimit :=
  if (n =? 0)%Z || (RECALL_MAX_RESULTS <? n)%Z
  then Err (OutOfRange "recall_limit" "1..=RECALL_MAX_RESULTS") else Ok (mkRecallLimit n).

(** ** Mutations *)

Inductive MutationSource := SrcTurn (request : PromptRequestId) | SrcOperator | SrcLibrarian.
#[export] Instance MutationSource_eq_dec : EqDecision MutationSource.
Proof. solve_decision. Defined.

Definition source_kind (s : MutationSource) : MutationSourceKind :=
  match s with SrcTurn _ => KTurn | SrcOperator => KOperator | SrcLibrarian => KLibrarian end.
Definition turn_id (s : MutationSource) : option PromptRequestId :=
  match s with SrcTurn id => Some id | _ => None end.
Definition bypasses_pin (s : MutationSource) : bool :=
  match s with SrcOperator => true | _ => false end.

Inductive MemoryMutation :=
| MutWrite (agent : AgentId) (kind : MemoryKind) (content : MemoryContent) (state : MemoryState)
    (pinned : bool) (subject : option ColleagueId) (source : MutationSource)
| MutUpdate (agent : AgentId) (target : MemoryId) (content : MemoryContent) (state : MemoryState)
    (source : MutationSource)
| MutForget (agent : AgentId) (target : MemoryId) (source : MutationSource).

Inductive MemoryStoreError :=
| MemNotFound (id : MemoryId)
| MemEventNotFound (id : MemoryEventId)
| ContradictionNotFound (id : ContradictionEventId)
| WrongAgent (id : MemoryId) (agent : AgentId)
| PinnedImmutable (id : MemoryId)
| SubjectRequiredForCollaborator
| SubjectNotInOrg (subject : ColleagueId)
| MemParse (e : ParseError)
| MemDb (msg : string)
| MemBackend (msg : str)
| MemProvider (msg : str).

Definition ensure_subject_consistency (m : MemoryMutation) : res MemoryStoreError unit :=
  match m with
  | MutWrite _ kind _ _ _ subject _ =>
      if bool_decide (kind = KCollaborator) && negb (bool_decide (is_Some subject))
      then Err SubjectRequiredForCollaborator
      else rassert (bool_decide (kind = KCollaborator) || negb (bool_decide (is_Some subject)))
             "invariant: only collaborator memories carry a subject colleague"
  | _ => Ok tt
  end.

Inductive MemoryEventPayload :=
| PWrite (content : MemoryContent) (kind : MemoryKind) (state : MemoryState) (pinned : bool)
    (subject : option ColleagueId)
| PUpdate (before after : MemoryContent) (kind : MemoryKind) (state : MemoryState) (pinned : bool)
| PForget (before : MemoryContent).

Definition payload_kind (p : MemoryEventPayload) : MutationKind :=
  match p with PWrite _ _ _ _ _ => KWrite | PUpdate _ _ _ _ _ => KUpdate | PForget _ => KForget end.

(** ** Tables *)

(** The components of an embedding, as the bits of their floats. *)
Abbreviation Vector := (list Z) (only parsing).

Record MemoryRow := mkMemory {
  mm_id : MemoryId; mm_agent_id : AgentId; mm_org_id : OrgId; mm_kind : MemoryKind; mm_content : str;
  mm_state : MemoryState; mm_pinned : bool; mm_subject : option ColleagueId;
  mm_source_turn_id : option PromptRequestId; mm_created_at : Z; mm_last_validated_at : Z;
  mm_last_accessed_at : Z; mm_access_count : Z; mm_embedding : option Vector }.

Record EventRow := mkEvent {
  ev_id : MemoryEventId; ev_agent_id : AgentId; ev_org_id : OrgId; ev_mutation : MutationKind;
  ev_target : MemoryId; ev_content_before : option str; ev_content_after : option str;
  ev_source_kind : MutationSourceKind; ev_source_turn_id : option PromptRequestId; ev_created_at : Z;
  ev_kind : option MemoryKind; ev_state : option MemoryState; ev_pinned : option bool;
  ev_subject : option ColleagueId }.

Record ValidationRow := mkValidation {
  vl_id : ValidationEventId; vl_agent_id : AgentId; vl_org_id : OrgId; vl_memory_id : MemoryId;
  vl_source : string; vl_detail : option str; vl_created_at : Z }.

Record ContradictionEventRow := mkContradiction {
  cn_id : ContradictionEventId; cn_agent_id : AgentId; cn_org_id : OrgId; cn_memory_a : MemoryId;
  cn_memory_b : MemoryId; cn_reason : str; cn_created_at : Z; cn_resolved_at : option Z;
  cn_resolution_event_id : option MemoryEventId; cn_resolution_reason : option str }.

Record memory := mkMemoryTables {
  agent_memories : list MemoryRow;
  memory_events : list EventRow;
  validation_events : list ValidationRow;
  contradiction_events : list ContradictionEventRow }.

Definition set_memories t s := mkMemoryTables t (memory_events s) (validation_events s) (contradiction_events s).
Definition set_events t s := mkMemoryTables (agent_memories s) t (validation_events s) (contradiction_events s).
Definition set_validations t s := mkMemoryTables (agent_memories s) (memory_events s) t (contradiction_events s).
Definition set_contradictions t s := mkMemoryTables (agent_memories s) (memory_events s) (validation_events s) t.
Definition empty_memory : memory := mkMemoryTables [] [] [] [].

Abbreviation MTx := (Tx memory MemoryStoreError).

(** The clock, and the tables the foreign keys point to. *)
Record MemEnv := mkMemEnv {
  me_now : Z;
  me_agent_org : AgentId → option OrgId;
  me_colleague_org : ColleagueId → option OrgId;
  me_request_exists : PromptRequestId → bool }.

Abbreviation Scope := (OrgId → bool).
Definition privileged : Scope := λ _, true.

Definition memory_row (id : MemoryId) (s : memory) : option MemoryRow :=
  List.find (λ r, bool_decide (mm_id r = id)) (agent_memories s).

(** [decode_memory_row] *)
Definition decode_memory_row (r : MemoryRow) : res MemoryStoreError MemoryRow :=
  rassert (0 <=? mm_access_count r)%Z "invariant: access_count must be non-negative" ;;?
  res_map_err MemParse (MemoryContent_try_from (mm_content r)) ;;?
  Ok r.
Definition row_content (r : MemoryRow) : MemoryContent := mkMemoryContent (mm_content r).

(** ** The journal *)

Record MemoryEvent := mkMemoryEvent {
  me_id : MemoryEventId; me_agent_id : AgentId; me_org_id : OrgId; me_target_memory_id : MemoryId;
  me_source : MutationSource; me_created_at : Z; me_payload : MemoryEventPayload }.

(** The columns a payload is bound to. *)
Definition event_row (id : MemoryEventId) (agent : AgentId) (org : OrgId) (target : MemoryId)
    (source : MutationSource) (now : Z) (p : MemoryEventPayload) : EventRow :=
  let row before after kind state pinned subject :=
    mkEvent id agent org (payload_kind p) target before after (source_kind source) (turn_id source) now
      kind state pinned subject in
  match p with
  | PWrite content kind state pinned subject =>
      row None (Some (MemoryContent_as_str content)) (Some kind) (Some state) (Some pinned) subject
  | PUpdate before after kind state pinned =>
      row (Some (MemoryContent_as_str before)) (Some (MemoryContent_as_str after)) (Some kind) (Some state)
        (Some pinned) None
  | PForget before => row (Some (MemoryContent_as_str before)) None None None None None
  end.

Definition opt_known {A} (known : A → bool) (o : option A) : bool :=
  match o with Some a => known a | None => true end.

(** [INSERT INTO memory_events], with the organisation of the agent, the constraints
    and the foreign keys. *)
Definition insert_event (env : MemEnv) (sees : Scope) (id : MemoryEventId) (agent : AgentId)
    (target : MemoryId) (source : MutationSource) (now : Z) (p : MemoryEventPayload) : MTx unit := λ s,
  match me_agent_org env agent with
  | None => Err (MemDb "org_id is null")
  | Some org =>
      let row := event_row id agent org target source now p in
      if negb (sees org) then Err (MemDb "row security")
      else if bool_decide (is_Some (ev_subject row)) && negb (bool_decide (ev_kind row = Some KCollaborator))
      then Err (MemDb "memory_events_subject_only_collaborator")
      else if bool_decide (id ∈ ev_id <$> memory_events s) then Err (MemDb "memory_events_pkey")
      else if negb (opt_known (me_request_exists env) (turn_id source))
              || negb (opt_known (λ c, bool_decide (is_Some (me_colleague_org env c))) (ev_subject row))
      then Err (MemDb "foreign key")
      else Ok (tt, set_events (memory_events s ++ [row]) s)
  end.

Definition decode_memory_event (row : EventRow) : res MemoryStoreError MemoryEvent :=
  source <-? match ev_source_kind row with
             | KTurn =>
                 match ev_source_turn_id row with
                 | Some id => Ok (SrcTurn id)
                 | None => Panic "invariant: source_kind = 'turn' must carry source_turn_id"
                 end
             | KOperator => Ok SrcOperator
             | KLibrarian => Ok SrcLibrarian
             end ;
  let content o := (raw <-? expect o "invariant: memory_events_content_shape" ;
                    res_map_err MemParse (MemoryContent_try_from raw)) in
  let carried {A} (o : option A) := expect o "invariant: memory_events_payload_shape" in
  payload <-? match ev_mutation row with
              | KWrite =>
                  c <-? content (ev_content_after row) ;
                  k <-? carried (ev_kind row) ; st <-? carried (ev_state row) ; p <-? carried (ev_pinned row) ;
                  Ok (PWrite c k st p (ev_subject row))
              | KUpdate =>
                  b <-? content (ev_content_before row) ; a <-? content (ev_content_after row) ;
                  k <-? carried (ev_kind row) ; st <-? carried (ev_state row) ; p <-? carried (ev_pinned row) ;
                  Ok (PUpdate b a k st p)
              | KForget => b <-? content (ev_content_before row) ; Ok (PForget b)
              end ;
  Ok (mkMemoryEvent (ev_id row) (ev_agent_id row) (ev_org_id row) (ev_target row) source (ev_created_at row) payload).

(** ** The materialised table *)

Definition EMBEDDING_DIMENSIONS : nat := 1536.
Definition embedding_fits (e : option Vector) : bool :=
  match e with Some v => length v =? EMBEDDING_DIMENSIONS | None => true end.

Definition memory_checks (r : MemoryRow) : bool :=
  (1 <=? str_len (mm_content r)) && (str_len (mm_content r) <=? 4096) && (0 <=? mm_access_count r)%Z
  && (negb (bool_decide (is_Some (mm_subject r))) || bool_decide (mm_kind r = KCollaborator))
  && embedding_fits (mm_embedding r).

Definition insert_memory (env : MemEnv) (sees : Scope) (row : OrgId → MemoryRow) (agent : AgentId)
    : MTx unit := λ s,
  match me_agent_org env agent with
  | None => Err (MemDb "org_id is null")
  | Some org =>
      let r := row org in
      if negb (sees org) then Err (MemDb "row security")
      else if negb (memory_checks r) then Err (MemDb "check constraint")
      else if bool_decide (is_Some (memory_row (mm_id r) s)) then Err (MemDb "agent_memories_pkey")
      else if negb (opt_known (me_request_exists env) (mm_source_turn_id r))
              || negb (opt_known (λ c, bool_decide (is_Some (me_colleague_org env c))) (mm_subject r))
      then Err (MemDb "foreign key")
      else Ok (tt, set_memories (agent_memories s ++ [r]) s)
  end.

(** [UPDATE agent_memories SET f WHERE id]. *)
Definition update_memory (f : MemoryRow → MemoryRow) (id : MemoryId) : MTx unit := λ s,
  if negb (forallb (λ r, negb (bool_decide (mm_id r = id)) || memory_checks (f r)) (agent_memories s))
  then Err (MemDb "check constraint")
  else Ok (tt, set_memories (update_where (λ r, mm_id r = id) f (agent_memories s)) s).

(** [DELETE FROM agent_memories]; the validations of the row go with it. *)
Definition drop_memories (P : MemoryRow → Prop) `{∀ r, Decision (P r)} (s : memory) : memory :=
  let gone := mm_id <$> filter P (agent_memories s) in
  mkMemoryTables (filter (λ r, ¬ P r) (agent_memories s)) (memory_events s)
    (filter (λ v, vl_memory_id v ∉ gone) (validation_events s)) (contradiction_events s).
Definition delete_memory (id : MemoryId) : MTx unit := tmod (drop_memories (λ r, mm_id r = id)).

(** [lock_existing] *)
Definition lock_existing (sees : Scope) (agent : AgentId) (target : MemoryId) (source : MutationSource)
    : MTx MemoryRow := λ s,
  match memory_row target s with
  | Some r =>
      if negb (sees (mm_org_id r)) then Err (MemNotFound target)
      else
        parsed <-? decode_memory_row r ;
        if negb (bool_decide (mm_agent_id parsed = agent)) then Err (WrongAgent target agent)
        else if mm_pinned parsed && negb (bypasses_pin source) then Err (PinnedImmutable target)
        else Ok (parsed, s)
  | None => Err (MemNotFound target)
  end.

Definition with_content (content : str) (state : MemoryState) (embedding : option Vector) (r : MemoryRow) : MemoryRow :=
  mkMemory (mm_id r) (mm_agent_id r) (mm_org_id r) (mm_kind r) content state (mm_pinned r) (mm_subject r)
    (mm_source_turn_id r) (mm_created_at r) (mm_last_validated_at r) (mm_last_accessed_at r)
    (mm_access_count r) embedding.
Definition with_state (state : MemoryState) (r : MemoryRow) : MemoryRow :=
  with_content (mm_content r) state (mm_embedding r) r.
Definition with_pinned (pinned : bool) (r : MemoryRow) : MemoryRow :=
  mkMemory (mm_id r) (mm_agent_id r) (mm_org_id r) (mm_kind r) (mm_content r) (mm_state r) pinned (mm_subject r)
    (mm_source_turn_id r) (mm_created_at r) (mm_last_validated_at r) (mm_last_accessed_at r)
    (mm_access_count r) (mm_embedding r).
Definition with_validated_at (t : Z) (r : MemoryRow) : MemoryRow :=
  mkMemory (mm_id r) (mm_agent_id r) (mm_org_id r) (mm_kind r) (mm_content r) (mm_state r) (mm_pinned r)
    (mm_subject r) (mm_source_turn_id r) (mm_created_at r) t (mm_last_accessed_at r) (mm_access_count r)
    (mm_embedding r).
Definition with_access (t : Z) (r : MemoryRow) : MemoryRow :=
  mkMemory (mm_id r) (mm_agent_id r) (mm_org_id r) (mm_kind r) (mm_content r) (mm_state r) (mm_pinned r)
    (mm_subject r) (mm_source_turn_id r) (mm_created_at r) (mm_last_validated_at r) t (mm_access_count r + 1)
    (mm_embedding r).
Definition with_embedding (e : option Vector) (r : MemoryRow) : MemoryRow :=
  with_content (mm_content r) (mm_state r) e r.

(** A row as written: every clock at [now], never read. *)
Definition fresh_row (id : MemoryId) (agent : AgentId) (kind : MemoryKind) (content : str) (state : MemoryState)
    (pinned : bool) (subject : option ColleagueId) (turn : option PromptRequestId) (now : Z)
    (embedding : option Vector) (org : OrgId) : MemoryRow :=
  mkMemory id agent org kind content state pinned subject turn now now now 0 embedding.

(** [RETURNING], decoded. *)
Definition returning (id : MemoryId) : MTx MemoryRow := λ s,
  r <-? ok_or (memory_row id s) (MemDb "no row returned") ; p <-? decode_memory_row r ; Ok (p, s).

(** ** Applying a mutation *)

Record MutationOutcome := mkOutcome {
  mo_event_id : MemoryEventId; mo_memory_id : MemoryId; mo_row : option MemoryRow }.

Definition same_org (env : MemEnv) (subject : ColleagueId) (agent : AgentId) : bool :=
  match me_colleague_org env subject, me_agent_org env agent with
  | Some a, Some b => bool_decide (a = b)
  | _, _ => false
  end.

Definition apply_write (env : MemEnv) (sees : Scope) (memory_id : MemoryId) (event_id : MemoryEventId)
    (agent : AgentId) (kind : MemoryKind) (content : MemoryContent) (state : MemoryState) (pinned : bool)
    (subject : option ColleagueId) (source : MutationSource) (embedding : Vector) (now : Z)
    : MTx MutationOutcome :=
  match subject with
  | Some c => if negb (same_org env c agent) then terr (SubjectNotInOrg c) else tret tt
  | None => tret tt
  end ;;$
  insert_event env sees event_id agent memory_id source now (PWrite content kind state pinned subject) ;;$
  insert_memory env sees
    (fresh_row memory_id agent kind (MemoryContent_as_str content) state pinned subject (turn_id source) now
       (Some embedding)) agent ;;$
  row <-$ returning memory_id ;
  tret (mkOutcome event_id memory_id (Some row)).

Definition apply_update (env : MemEnv) (sees : Scope) (event_id : MemoryEventId) (agent : AgentId)
    (target : MemoryId) (content : MemoryContent) (state : MemoryState) (source : MutationSource)
    (embedding : Vector) (now : Z) : MTx MutationOutcome :=
  prior <-$ lock_existing sees agent target source ;
  insert_event env sees event_id agent target source now
    (PUpdate (row_content prior) content (mm_kind prior) state (mm_pinned prior)) ;;$
  update_memory (with_content (MemoryContent_as_str content) state (Some embedding)) target ;;$
  row <-$ returning target ;
  tret (mkOutcome event_id target (Some row)).

Definition apply_forget (env : MemEnv) (sees : Scope) (event_id : MemoryEventId) (agent : AgentId)
    (target : MemoryId) (source : MutationSource) (now : Z) : MTx MutationOutcome :=
  prior <-$ lock_existing sees agent target source ;
  insert_event env sees event_id agent target source now (PForget (row_content prior)) ;;$
  delete_memory target ;;$
  tret (mkOutcome event_id target None).

(** The embedding provider: a vector, or the error of the call. *)
Class Embedder := embed : str → res str Vector.

Definition embed_for_mutation `{Embedder} (m : MemoryMutation) : res MemoryStoreError (option Vector) :=
  match m with
  | MutWrite _ _ content _ _ _ _ | MutUpdate _ _ content _ _ =>
      v <-? res_map_err MemProvider (embed (MemoryContent_as_str content)) ; Ok (Some v)
  | MutForget _ _ _ => Ok None
  end.

Definition apply_in_tx (env : MemEnv) (sees : Scope) (memory_id : MemoryId) (event_id : MemoryEventId)
    (m : MemoryMutation) (embedding : option Vector) : MTx MutationOutcome :=
  match m with
  | MutWrite agent kind content state pinned subject source =>
      e <-$ tlift (expect embedding "invariant: Write produced an embedding above") ;
      apply_write env sees memory_id event_id agent kind content state pinned subject source e (me_now env)
  | MutUpdate agent target content state source =>
      e <-$ tlift (expect embedding "invariant: Update produced an embedding above") ;
      apply_update env sees event_id agent target content state source e (me_now env)
  | MutForget agent target source => apply_forget env sees event_id agent target source (me_now env)
  end.

(** [apply] and [apply_for_user]: the checks and the embedding come before the
    transaction. *)
Definition apply `{Embedder} (env : MemEnv) (sees : Scope) (memory_id : MemoryId) (event_id : MemoryEventId)
    (m : MemoryMutation) (s : memory) : res MemoryStoreError MutationOutcome * memory :=
  match (ensure_subject_consistency m ;;? embed_for_mutation m) with
  | Ok e => trun (apply_in_tx env sees memory_id event_id m e) s
  | Err e => (Err e, s)
  | Panic p => (Panic p, s)
  end.

(** ** Validation *)

Inductive ValidationSource := ExternalConfirmation | OperatorEndorsement.
Definition ValidationSource_as_str (v : ValidationSource) : string :=
  match v with
  | ExternalConfirmation => "external_confirmation" | OperatorEndorsement => "operator_endorsement"
  end.
Inductive ValidationOrigin := OriginAgent (request : PromptRequestId) | OriginOperator.
Definition origin_source (o : ValidationOrigin) : ValidationSource :=
  match o with OriginAgent _ => ExternalConfirmation | OriginOperator => OperatorEndorsement end.
Definition mutation_source (o : ValidationOrigin) : MutationSource :=
  match o with OriginAgent id => SrcTurn id | OriginOperator => SrcOperator end.

Definition promoted (s : MemoryState) : MemoryState :=
  match s with Tentative => Held | Held => Validated | Validated | Core => s end.

Definition insert_validation (env : MemEnv) (sees : Scope) (id : ValidationEventId) (agent : AgentId)
    (memory_id : MemoryId) (source : ValidationSource) (detail : option str) (now : Z) : MTx unit := λ s,
  match me_agent_org env agent with
  | None => Err (MemDb "org_id is null")
  | Some org =>
      if negb (sees org) then Err (MemDb "row security")
      else if negb (opt_known (λ d, (1 <=? str_len d) && (str_len d <=? 1024)) detail)
      then Err (MemDb "check constraint")
      else if bool_decide (id ∈ vl_id <$> validation_events s) then Err (MemDb "validation_events_pkey")
      else if negb (bool_decide (is_Some (memory_row memory_id s))) then Err (MemDb "foreign key")
      else Ok (tt, set_validations (validation_events s
             ++ [mkValidation id agent org memory_id (ValidationSource_as_str source) detail now]) s)
  end.

Definition record_validation_tx (env : MemEnv) (sees : Scope) (vid : ValidationEventId) (eid : MemoryEventId)
    (agent : AgentId) (id : MemoryId) (origin : ValidationOrigin) (detail : option str) : MTx MemoryRow :=
  let now := me_now env in
  prior <-$ lock_existing sees agent id (mutation_source origin) ;
  insert_validation env sees vid agent id (origin_source origin) detail now ;;$
  let new_state := promoted (mm_state prior) in
  insert_event env sees eid agent id (mutation_source origin) now
    (PUpdate (row_content prior) (row_content prior) (mm_kind prior) new_state (mm_pinned prior)) ;;$
  update_memory (with_validated_at now ∘ with_state new_state) id ;;$
  returning id.

(** ** Sweeps *)

(** The body of a loop over rows, with a fresh event id for each. *)
Fixpoint for_rows (body : MemoryEventId → MemoryRow → MTx unit) (eids : nat → MemoryEventId)
    (rows : list MemoryRow) (n : nat) : MTx nat :=
  match rows with
  | [] => tret n
  | r :: rows' =>
      parsed <-$ tlift (decode_memory_row r) ;
      body (eids n) parsed ;;$
      for_rows body eids rows' (S n)
  end.

Definition hold (env : MemEnv) (eid : MemoryEventId) (r : MemoryRow) : MTx unit :=
  insert_event env privileged eid (mm_agent_id r) (mm_id r) SrcLibrarian (me_now env)
    (PUpdate (row_content r) (row_content r) (mm_kind r) Held (mm_pinned r)) ;;$
  update_memory (with_state Held) (mm_id r).

Definition decayable (agent : AgentId) (cutoff : Z) (r : MemoryRow) : bool :=
  bool_decide (mm_agent_id r = agent) && bool_decide (mm_state r = Validated) && negb (mm_pinned r)
  && (mm_last_validated_at r <? cutoff)%Z.
Definition decay_validated_tx (env : MemEnv) (eids : nat → MemoryEventId) (agent : AgentId) (cutoff : Z)
    : MTx nat := λ s,
  for_rows (hold env) eids (filter (λ r, decayable agent cutoff r = true) (agent_memories s)) 0 s.

Definition disputed (id : MemoryId) (s : memory) : bool :=
  existsb (λ c, bool_decide (cn_resolved_at c = None)
                && (bool_decide (cn_memory_a c = id) || bool_decide (cn_memory_b c = id)))
    (contradiction_events s).
Definition mature_ready (agent : AgentId) (cutoff : Z) (s : memory) (r : MemoryRow) : bool :=
  bool_decide (mm_agent_id r = agent) && bool_decide (mm_state r = Tentative) && negb (mm_pinned r)
  && (mm_created_at r <? cutoff)%Z && negb (disputed (mm_id r) s).
Definition mature_tentative_tx (env : MemEnv) (eids : nat → MemoryEventId) (agent : AgentId) (cutoff : Z)
    : MTx nat := λ s,
  for_rows (hold env) eids (filter (λ r, mature_ready agent cutoff s r = true) (agent_memories s)) 0 s.

(** [ORDER BY] state, then least recently, then least often read. *)
Definition evict_before (a b : MemoryRow) : Prop :=
  priority (mm_state a) < priority (mm_state b)
  ∨ priority (mm_state a) = priority (mm_state b)
    ∧ ((mm_last_accessed_at a < mm_last_accessed_at b)%Z
       ∨ mm_last_accessed_at a = mm_last_accessed_at b ∧ (mm_access_count a ≤ mm_access_count b)%Z).
#[export] Instance evict_before_dec : RelDecision evict_before.
Proof. intros a b. unfold evict_before. apply _. Defined.

Definition agent_rows (agent : AgentId) (s : memory) : list MemoryRow :=
  filter (λ r, mm_agent_id r = agent) (agent_memories s).
Definition evictable (agent : AgentId) (s : memory) : list MemoryRow :=
  merge_sort evict_before (filter (λ r, mm_pinned r = false) (agent_rows agent s)).

Definition evict_one_row (env : MemEnv) (agent : AgentId) (eid : MemoryEventId) (r : MemoryRow) : MTx unit :=
  insert_event env privileged eid agent (mm_id r) SrcLibrarian (me_now env) (PForget (row_content r)) ;;$
  delete_memory (mm_id r).

Definition evict_overflow_tx (env : MemEnv) (eids : nat → MemoryEventId) (agent : AgentId) (quota : nat)
    : MTx (list MemoryId) := λ s,
  let total := length (agent_rows agent s) in
  if total <=? quota then Ok ([], s)
  else
    let rows := take (total - quota) (evictable agent s) in
    (for_rows (evict_one_row env agent) eids rows 0 ;;$ tret (mm_id <$> rows)) s.

(** ** Operator operations *)

Definition load_event (agent : AgentId) (event : MemoryEventId) (s : memory) : res MemoryStoreError MemoryEvent :=
  match List.find (λ e, bool_decide (ev_id e = event) && bool_decide (ev_agent_id e = agent)) (memory_events s) with
  | Some row => decode_memory_event row
  | None => Err (MemEventNotFound event)
  end.

Definition event_order (a b : EventRow) : Prop :=
  (ev_created_at a < ev_created_at b)%Z
  ∨ ev_created_at a = ev_created_at b ∧ (ev_id a ≤ ev_id b)%N.
#[export] Instance event_order_dec : RelDecision event_order.
Proof. intros a b. unfold event_order. apply _. Defined.

(** [ORDER BY created_at ASC, id ASC] *)
Definition ordered_events (l : list EventRow) : list EventRow := merge_sort event_order l.

Record RestoredAttrs := mkRestored {
  ra_kind : MemoryKind; ra_state : MemoryState; ra_pinned : bool; ra_subject : option ColleagueId }.

Definition restore_attrs_for (agent : AgentId) (target : MemoryId) (s : memory) : res MemoryStoreError RestoredAttrs :=
  let of_memory (P : EventRow → bool) :=
    last (ordered_events (filter (λ e, (bool_decide (ev_agent_id e = agent) && bool_decide (ev_target e = target)
                                        && P e) = true) (memory_events s))) in
  row <-? ok_or (of_memory (λ e, negb (bool_decide (ev_mutation e = KForget)))) (MemNotFound target) ;
  kind <-? ok_or (ev_kind row) (MemNotFound target) ;
  state <-? ok_or (ev_state row) (MemNotFound target) ;
  pinned <-? ok_or (ev_pinned row) (MemNotFound target) ;
  Ok (mkRestored kind state pinned
        (w ← of_memory (λ e, bool_decide (ev_mutation e = KWrite)); ev_subject w)).

Definition revert_write (env : MemEnv) (agent : AgentId) (target : MemoryId) (inverse : MemoryEventId)
    : MTx unit :=
  prior <-$ lock_existing privileged agent target SrcOperator ;
  insert_event env privileged inverse agent target SrcOperator (me_now env) (PForget (row_content prior)) ;;$
  delete_memory target.

Definition revert_update (env : MemEnv) (agent : AgentId) (target : MemoryId) (inverse : MemoryEventId)
    (before : MemoryContent) (kind : MemoryKind) (state : MemoryState) (pinned : bool) : MTx unit :=
  prior <-$ lock_existing privileged agent target SrcOperator ;
  insert_event env privileged inverse agent target SrcOperator (me_now env)
    (PUpdate (row_content prior) before kind state pinned) ;;$
  update_memory (λ r, with_pinned pinned (with_content (MemoryContent_as_str before) state (mm_embedding r) r)) target.

(** [ON CONFLICT (id) DO NOTHING] *)
Definition insert_memory_if_absent (env : MemEnv) (row : OrgId → MemoryRow) (id : MemoryId) (agent : AgentId)
    : MTx unit := λ s,
  if bool_decide (is_Some (memory_row id s)) && bool_decide (is_Some (me_agent_org env agent))
  then Ok (tt, s) else insert_memory env privileged row agent s.

Definition revert_forget (env : MemEnv) (agent : AgentId) (target : MemoryId) (inverse : MemoryEventId)
    (before : MemoryContent) : MTx unit := λ s,
  attrs <-? restore_attrs_for agent target s ;
  (insert_event env privileged inverse agent target SrcOperator (me_now env)
     (PWrite before (ra_kind attrs) (ra_state attrs) (ra_pinned attrs) (ra_subject attrs)) ;;$
   insert_memory_if_absent env
     (fresh_row target agent (ra_kind attrs) (MemoryContent_as_str before) (ra_state attrs) (ra_pinned attrs)
        (ra_subject attrs) None (me_now env) None) target agent) s.

Definition revert_event (env : MemEnv) (agent : AgentId) (event inverse : MemoryEventId)
    : MTx (option MemoryRow) := λ s,
  evt <-? load_event agent event s ;
  let target := me_target_memory_id evt in
  (match me_payload evt with
   | PWrite _ _ _ _ _ => revert_write env agent target inverse
   | PUpdate before _ kind state pinned => revert_update env agent target inverse before kind state pinned
   | PForget before => revert_forget env agent target inverse before
   end ;;$
   tget (memory_row target)) s.

Definition set_pinned_tx (env : MemEnv) (eid : MemoryEventId) (agent : AgentId) (id : MemoryId) (pinned : bool)
    : MTx unit :=
  prior <-$ lock_existing privileged agent id SrcOperator ;
  insert_event env privileged eid agent id SrcOperator (me_now env)
    (PUpdate (row_content prior) (row_content prior) (mm_kind prior) (mm_state prior) pinned) ;;$
  update_memory (with_pinned pinned) id.

(** Commits, then decodes the row. *)
Definition set_pinned (env : MemEnv) (eid : MemoryEventId) (agent : AgentId) (id : MemoryId) (pinned : bool)
    (s : memory) : res MemoryStoreError MemoryRow * memory :=
  match trun (set_pinned_tx env eid agent id pinned) s with
  | (Ok _, s') => (r <-? ok_or (memory_row id s') (MemDb "no row returned") ; decode_memory_row r, s')
  | (Err e, s') => (Err e, s')
  | (Panic p, s') => (Panic p, s')
  end.

Definition record_access_tx (env : MemEnv) (sees : Scope) (ids : list MemoryId) : MTx unit := λ s,
  if is_empty ids then Ok (tt, s)
  else
    rassert (length ids <=? MAX_MEMORIES_PER_AGENT) "invariant: record_access batch ≤ MAX_MEMORIES_PER_AGENT" ;;?
    Ok (tt, set_memories (update_where (λ r, mm_id r ∈ ids ∧ sees (mm_org_id r) = true)
                            (with_access (me_now env)) (agent_memories s)) s).

(** ** Rebuilding *)

Definition apply_replay (env : MemEnv) (agent : AgentId) (e : MemoryEvent) : MTx unit :=
  match me_payload e with
  | PWrite content kind state pinned subject =>
      insert_memory env privileged
        (fresh_row (me_target_memory_id e) agent kind (MemoryContent_as_str content) state pinned subject
           (turn_id (me_source e)) (me_created_at e) None) agent
  | PUpdate _ after _ state pinned =>
      update_memory (λ r, with_pinned pinned (with_content (MemoryContent_as_str after) state (mm_embedding r) r))
        (me_target_memory_id e)
  | PForget _ => delete_memory (me_target_memory_id e)
  end.

Fixpoint replay (env : MemEnv) (agent : AgentId) (rows : list EventRow) : MTx unit :=
  match rows with
  | [] => tret tt
  | row :: rows' =>
      e <-$ tlift (decode_memory_event row) ;
      apply_replay env agent e ;;$
      replay env agent rows'
  end.

Fixpoint restore_embeddings (snapshot : list (MemoryId * Vector)) : MTx unit :=
  match snapshot with
  | [] => tret tt
  | (id, e) :: snapshot' => update_memory (with_embedding (Some e)) id ;;$ restore_embeddings snapshot'
  end.

Definition embedding_snapshot (agent : AgentId) (s : memory) : list (MemoryId * Vector) :=
  omap (λ r, pair (mm_id r) <$> mm_embedding r) (agent_rows agent s).
Definition agent_events (agent : AgentId) (s : memory) : list EventRow :=
  filter (λ e, ev_agent_id e = agent) (memory_events s).

Definition rebuild_tx (env : MemEnv) (agent : AgentId) : MTx unit := λ s,
  (tmod (drop_memories (λ r, mm_agent_id r = agent)) ;;$
   replay env agent (ordered_events (agent_events agent s)) ;;$
   restore_embeddings (embedding_snapshot agent s)) s.
Definition rebuild_materialized (env : MemEnv) (agent : AgentId) (s : memory) : res MemoryStoreError unit * memory :=
  trun (rebuild_tx env agent) s.

(** [revert_event] as called: commits, then decodes the row that is left. *)
Definition decoded_after {A} (r : res MemoryStoreError A * memory) (row : A → option MemoryRow)
    : res MemoryStoreError (option MemoryRow) * memory :=
  match r with
  | (Ok a, s') =>
      (match row a with Some m => (p <-? decode_memory_row m ; Ok (Some p)) | None => Ok None end, s')
  | (Err e, s') => (Err e, s')
  | (Panic p, s') => (Panic p, s')
  end.
Definition run_revert_event (env : MemEnv) (agent : AgentId) (event inverse : MemoryEventId) (s : memory)
    : res MemoryStoreError (option MemoryRow) * memory :=
  decoded_after (trun (revert_event env agent event inverse) s) id.

(** ** Reads *)

(** [r.map(decode)] over the rows of a query. *)
Fixpoint collect {E A B} (f : A → res E B) (l : list A) : res E (list B) :=
  match l with
  | [] => Ok []
  | a :: l' => b <-? f a ; bs <-? collect f l' ; Ok (b :: bs)
  end.

(** [ORDER BY created_at ASC, id ASC] *)
Definition older (a b : MemoryRow) : Prop :=
  (mm_created_at a < mm_created_at b)%Z ∨ mm_created_at a = mm_created_at b ∧ (mm_id a ≤ mm_id b)%N.
#[export] Instance older_dec : RelDecision older.
Proof. intros a b. unfold older. apply _. Defined.

(** One row past the cap is asked for, and its presence asserted away. *)
Definition within_cap (rows : list MemoryRow) : res MemoryStoreError (list MemoryRow) :=
  let rows := take (S MAX_MEMORIES_PER_AGENT) rows in
  rassert (length rows <=? MAX_MEMORIES_PER_AGENT) "invariant: per-agent memory cap overshot" ;;?
  collect decode_memory_row rows.

Definition list_memories (agent : AgentId) (s : memory) : res MemoryStoreError (list MemoryRow) :=
  within_cap (merge_sort older (agent_rows agent s)).

Definition collaborator_memories_for_subjects (agent : AgentId) (subjects : list ColleagueId) (s : memory)
    : res MemoryStoreError (list MemoryRow) :=
  if is_empty subjects then Ok []
  else
    rassert (length subjects <=? MAX_PARTICIPANTS_INLINE) "invariant: subject set exceeds the participant cap" ;;?
    within_cap (merge_sort (flip older)
      (filter (λ r, mm_kind r = KCollaborator ∧ existsb (λ c, bool_decide (mm_subject r = Some c)) subjects = true)
         (agent_rows agent s))).

Definition get (id : MemoryId) (s : memory) : res MemoryStoreError (option MemoryRow) :=
  match memory_row id s with Some r => (p <-? decode_memory_row r ; Ok (Some p)) | None => Ok None end.

Definition list_events (agent : AgentId) (s : memory) : res MemoryStoreError (list MemoryEvent) :=
  collect decode_memory_event (take MAX_EVENTS_PER_PAGE (ordered_events (agent_events agent s))).

(** ** Similarity *)

(** The distance operator of the vector extension: [distance] orders, [similarity] is
    [1 - distance]; [None] is not a number, which sorts above every number. *)
Class VectorOps := {
  distance : Vector → Vector → option Q;
  similarity : Vector → Vector → option Q;
  f64_to_f32 : option Q → option Q }.

Definition num_le (a b : option Q) : Prop :=
  match a, b with Some x, Some y => (x <= y)%Q | _, None => True | None, Some _ => False end.
#[export] Instance num_le_dec : RelDecision num_le.
Proof.
  intros [x|] [y|]; cbn; [|apply _..].
  destruct (Qle_bool x y) eqn:E; [left; by apply Qle_bool_iff|right; intros H; apply Qle_bool_iff in H; congruence].
Defined.

Definition f64_to_f32_clamped `{VectorOps} (v : option Q) : res MemoryStoreError (option Q) :=
  rassert (match v with Some x => Qle_bool (-2) x && Qle_bool x 2 | None => true end)
    "invariant: cosine similarity in [-1, 1]" ;;?
  Ok (f64_to_f32 v).

Record SearchFilter := mkSearchFilter { sf_kinds : option (list MemoryKind); sf_min_state : option MemoryState }.
Record ScoredMemoryRow := mkScored { sc_row : MemoryRow; sc_similarity : option Q }.
Record PairCandidate := mkPair { pc_a : MemoryRow; pc_b : MemoryRow; pc_similarity : option Q }.

(** An empty list of kinds is no filter. *)
Definition passes (f : SearchFilter) (r : MemoryRow) : bool :=
  match sf_kinds f with Some (k :: ks) => bool_decide (mm_kind r ∈ k :: ks) | _ => true end
  && match sf_min_state f with Some m => priority m <=? priority (mm_state r) | None => true end.

Definition embedded (l : list MemoryRow) : list (MemoryRow * Vector) :=
  omap (λ r, pair r <$> mm_embedding r) l.

Definition nearer `{VectorOps} (q : Vector) (a b : MemoryRow * Vector) : Prop :=
  num_le (distance a.2 q) (distance b.2 q).
#[export] Instance nearer_dec `{VectorOps} q : RelDecision (nearer q).
Proof. intros a b. unfold nearer. apply _. Defined.

Definition search_by_embedding `{VectorOps} (agent : AgentId) (embedding : Vector) (k : nat) (f : SearchFilter)
    (s : memory) : res MemoryStoreError (list ScoredMemoryRow) :=
  if is_empty embedding || (k =? 0) then Ok []
  else
    let rows := merge_sort (nearer embedding) (embedded (filter (λ r, passes f r = true) (agent_rows agent s))) in
    collect (λ p, row <-? decode_memory_row p.1 ;
                  sim <-? f64_to_f32_clamped (similarity p.2 embedding) ;
                  Ok (mkScored row sim))
      (take (k `min` MAX_MEMORIES_PER_AGENT) rows).

Definition alike `{VectorOps} (p : (MemoryRow * Vector) * (MemoryRow * Vector)) : option Q := similarity p.1.2 p.2.2.
Definition more_alike `{VectorOps} (p q : (MemoryRow * Vector) * (MemoryRow * Vector)) : Prop :=
  num_le (alike q) (alike p).
#[export] Instance more_alike_dec `{VectorOps} : RelDecision more_alike.
Proof. intros a b. unfold more_alike. apply _. Defined.

(** [base a JOIN base b ON a.id < b.id] *)
Definition joined (l : list (MemoryRow * Vector)) : list ((MemoryRow * Vector) * (MemoryRow * Vector)) :=
  a ← l; (pair a) <$> filter (λ b, (mm_id a.1 < mm_id b.1)%N) l.

Definition similar_pairs `{VectorOps} (agent : AgentId) (threshold : Q) (max_pairs : nat) (s : memory)
    : res MemoryStoreError (list PairCandidate) :=
  let rows := merge_sort more_alike
                (filter (λ p, num_le (Some threshold) (alike p)) (joined (embedded (agent_rows agent s)))) in
  collect (λ p, a <-? decode_memory_row p.1.1 ; b <-? decode_memory_row p.2.1 ;
                sim <-? f64_to_f32_clamped (alike p) ;
                Ok (mkPair a b sim))
    (take (max_pairs `min` MAX_SIMILAR_PAIRS_PER_AGENT) rows).

(** ** Contradictions *)

Definition canonical_memories (a b : MemoryId) : MemoryId * MemoryId := if (a <? b)%N then (a, b) else (b, a).

(** [ORDER BY created_at ASC] *)
Definition flagged_before (a b : ContradictionEventRow) : Prop := (cn_created_at a ≤ cn_created_at b)%Z.
#[export] Instance flagged_before_dec : RelDecision flagged_before.
Proof. intros a b. unfold flagged_before. apply _. Defined.

Definition pending (agent : AgentId) (c : ContradictionEventRow) : bool :=
  bool_decide (cn_agent_id c = agent) && bool_decide (cn_resolved_at c = None).

Definition insert_contradiction (env : MemEnv) (id : ContradictionEventId) (agent : AgentId) (lo hi : MemoryId)
    (reason : str) : MTx unit := λ s,
  match me_agent_org env agent with
  | None => Err (MemDb "org_id is null")
  | Some org =>
      if bool_decide (lo = hi) then Err (MemDb "contradiction_events_distinct")
      else if negb ((1 <=? str_len reason) && (str_len reason <=? 1024)) then Err (MemDb "check constraint")
      else if bool_decide (id ∈ cn_id <$> contradiction_events s) then Err (MemDb "contradiction_events_pkey")
      else Ok (tt, set_contradictions (contradiction_events s
                     ++ [mkContradiction id agent org lo hi reason (me_now env) None None None]) s)
  end.

Definition record_contradiction_tx (env : MemEnv) (id : ContradictionEventId) (agent : AgentId)
    (a b : MemoryId) (reason : str) : MTx ContradictionEventId := λ s,
  let '(lo, hi) := canonical_memories a b in
  match head (merge_sort (flip flagged_before)
    (filter (λ c, pending agent c = true ∧ cn_memory_a c = lo ∧ cn_memory_b c = hi)
                (contradiction_events s))) with
  | Some c => Ok (cn_id c, s)
  | None => (insert_contradiction env id agent lo hi reason ;;$ tret id) s
  end.

Definition unresolved_contradictions (agent : AgentId) (s : memory) : list ContradictionEventRow :=
  take MAX_SIMILAR_PAIRS_PER_AGENT
    (merge_sort flagged_before (filter (λ c, pending agent c = true) (contradiction_events s))).

Definition read_contradiction (id : ContradictionEventId) (s : memory) : option ContradictionEventRow :=
  List.find (λ c, bool_decide (cn_id c = id)) (contradiction_events s).

Inductive ResolutionOutcome := ByMutation (event : MemoryEventId) | NoAction (reason : ResolutionReason).

Definition outcome_event (o : ResolutionOutcome) : option MemoryEventId :=
  match o with ByMutation e => Some e | NoAction _ => None end.
Definition outcome_reason (o : ResolutionOutcome) : option str :=
  match o with ByMutation _ => None | NoAction r => Some (ResolutionReason_as_str r) end.

Definition closed (now : Z) (o : ResolutionOutcome) (c : ContradictionEventRow) : ContradictionEventRow :=
  mkContradiction (cn_id c) (cn_agent_id c) (cn_org_id c) (cn_memory_a c) (cn_memory_b c) (cn_reason c)
    (cn_created_at c) (Some now) (outcome_event o) (outcome_reason o).

(** Closing what is closed already changes nothing and succeeds. *)
Definition resolve_contradiction_tx (env : MemEnv) (sees : Scope) (id : ContradictionEventId)
    (o : ResolutionOutcome) : MTx unit := λ s,
  let visible c := cn_id c = id ∧ sees (cn_org_id c) = true in
  let hit c := visible c ∧ cn_resolved_at c = None in
  match filter hit (contradiction_events s) with
  | [] => if is_empty (filter visible (contradiction_events s)) then Err (ContradictionNotFound id) else Ok (tt, s)
  | _ =>
      if negb (opt_known (λ e, bool_decide (e ∈ ev_id <$> memory_events s)) (outcome_event o))
      then Err (MemDb "foreign key")
      else if negb (opt_known (λ r, (1 <=? str_len r) && (str_len r <=? 1024)) (outcome_reason o))
      then Err (MemDb "check constraint")
      else Ok (tt, set_contradictions (update_where hit (closed (me_now env) o) (contradiction_events s)) s)
  end.

(** ** Handles *)

Record MemoryHandle := mkMemoryHandle { MemoryHandle_get : Z }.
Definition MemoryHandle_MAX : Z := 9999.
Definition MemoryHandle_try_from (n : Z) : res ParseError MemoryHandle :=
  if (n =? 0)%Z || (MemoryHandle_MAX <? n)%Z then Err (OutOfRange "memory_handle" "1..=9999")
  else Ok (mkMemoryHandle n).

(** [str::parse::<u32>]: an optional plus sign, then digits. *)
Fixpoint digits_value (acc : Z) (s : str) : option Z :=
  match s with
  | [] => Some acc
  | c :: s' =>
      if ((0x30 <=? c) && (c <=? 0x39))%N
      then (let acc := (10 * acc + Z.of_N (c - 0x30))%Z in if (acc <=? U32_MAX)%Z then digits_value acc s' else None)
      else None
  end.
Definition parse_u32 (s : str) : option Z :=
  let digits := match s with 0x2B%N :: s' => s' | _ => s end in
  if is_empty digits then None else digits_value 0 digits.

Definition MemoryHandle_parse (raw : str) : res ParseError MemoryHandle :=
  if negb (starts_with (lit "M-") raw) then Err (Malformed "memory_handle" "expected `M-<n>` form")
  else
    n <-? ok_or (parse_u32 (drop 2 raw)) (Malformed "memory_handle" "non-numeric handle suffix") ;
    MemoryHandle_try_from n.
Definition MemoryHandle_display (h : MemoryHandle) : str := lit "M-" ++ show_Z (MemoryHandle_get h).
