(* ===== verification/MemoryLaws.v ===== *)
(** * The journal of memories explains the table

    [journalled]: the events of a memory, replayed in the order they were logged, give
    its row.  Each operation keeps this, because it logs the event that does to the
    row what the operation does; an event is read back as it was logged. *)

From Stdlib Require Import ZArith Lia String.
From stdpp Require Import base list strings sets sorting.
From S2P Require Import Prelude Program Types Memory.
Open Scope nat_scope.

(** ** Rows by id *)

Abbreviation row_of id l := (List.find (λ r, bool_decide (mm_id r = id)) l).
Abbreviation ids s := (mm_id <$> agent_memories s).

Lemma row_of_Some id l r : row_of id l = Some r → r ∈ l ∧ mm_id r = id.
Proof. intros [? ?%bool_decide_eq_true]%find_Some_iff. done. Qed.

Lemma row_of_None id l : row_of id l = None ↔ id ∉ mm_id <$> l.
Proof.
  rewrite find_None_iff. split.
  - intros Hl (r & -> & Hr)%list_elem_of_fmap. apply Hl in Hr. by rewrite bool_decide_true in Hr.
  - intros Hid r Hr. apply bool_decide_eq_false. intros <-. apply Hid. by apply list_elem_of_fmap_2.
Qed.

Lemma row_of_elem l r : NoDup (mm_id <$> l) → r ∈ l → row_of (mm_id r) l = Some r.
Proof.
  intros Hnd Hr. destruct (row_of (mm_id r) l) as [r'|] eqn:E.
  - apply row_of_Some in E as [Hr' Heq]. f_equal. by apply (NoDup_fmap_eq mm_id l).
  - apply row_of_None in E. destruct E. by apply list_elem_of_fmap_2.
Qed.

Lemma row_of_snoc id l r :
  row_of id (l ++ [r]) = match row_of id l with Some x => Some x | None => if decide (mm_id r = id) then Some r else None end.
Proof.
  induction l as [|x l IH]; cbn.
  - case_bool_decide; by case_decide.
  - by case_bool_decide.
Qed.

Lemma row_of_update (P : MemoryRow → Prop) `{∀ r, Decision (P r)} f id l :
  (∀ r, mm_id (f r) = mm_id r) →
  row_of id (update_where P f l) = (λ r, if decide (P r) then f r else r) <$> row_of id l.
Proof.
  intros Hf. unfold update_where. induction l as [|x l IH]; [done|]. cbn.
  replace (mm_id (if decide (P x) then f x else x)) with (mm_id x) by (case_decide; by rewrite ?Hf).
  case_bool_decide; [done|apply IH].
Qed.

Lemma row_of_filter (P : MemoryRow → Prop) `{∀ r, Decision (P r)} id l :
  NoDup (mm_id <$> l) →
  row_of id (filter P l) = r ← row_of id l; if decide (P r) then Some r else None.
Proof.
  induction l as [|x l IH]; [done|]. rewrite fmap_cons, filter_cons. intros [Hx Hnd]%NoDup_cons. cbn.
  case_bool_decide as Hid; case_decide as HP; cbn.
  - rewrite bool_decide_true by done. cbn. by rewrite decide_True.
  - rewrite decide_False by done. apply row_of_None.
    intros (y & Hy & [_ Hin]%list_elem_of_filter)%list_elem_of_fmap. destruct Hx.
    rewrite Hid, Hy. by apply list_elem_of_fmap_2.
  - rewrite bool_decide_false by done. auto.
  - auto.
Qed.

Lemma ids_update (P : MemoryRow → Prop) `{∀ r, Decision (P r)} f l :
  (∀ r, mm_id (f r) = mm_id r) → mm_id <$> update_where P f l = mm_id <$> l.
Proof. intros Hf. by apply update_where_fmap. Qed.

(** ** Events *)

Definition valid_content (c : MemoryContent) : Prop :=
  MemoryContent_try_from (MemoryContent_as_str c) = Ok c.
Definition valid_payload (p : MemoryEventPayload) : Prop :=
  match p with
  | PWrite c _ _ _ _ | PForget c => valid_content c
  | PUpdate b a _ _ _ => valid_content b ∧ valid_content a
  end.

Lemma MemoryContent_try_from_Ok raw c : MemoryContent_try_from raw = Ok c → c = mkMemoryContent raw ∧ valid_content c.
Proof.
  intros H. assert (c = mkMemoryContent raw) as ->; [|done].
  unfold MemoryContent_try_from in H. repeat case_match; by simplify_eq.
Qed.

Lemma MemoryContent_try_from_empty raw c : MemoryContent_try_from raw = Ok c → raw ≠ [].
Proof. by intros H ->. Qed.

Lemma str_len_pos (s : str) : s ≠ [] → 1 ≤ str_len s.
Proof.
  destruct s as [|c s]; [done|]. intros _. unfold str_len. cbn.
  pose proof (len_utf8_bounds c). lia.
Qed.

Lemma valid_content_bounds c : valid_content c → 1 ≤ str_len (MemoryContent_as_str c) ≤ 4096.
Proof.
  intros Hc. split; [by apply str_len_pos, (MemoryContent_try_from_empty _ c)|].
  unfold valid_content, MemoryContent_try_from in Hc. repeat case_match; try done.
  bools. unfold MEMORY_CONTENT_MAX_BYTES in *. lia.
Qed.

Lemma decode_memory_row_Ok r r' : decode_memory_row r = Ok r' ↔ r' = r ∧ valid_content (row_content r) ∧ (0 ≤ mm_access_count r)%Z.
Proof.
  unfold decode_memory_row, row_content, rassert. destruct (_ <=? _)%Z eqn:Ea; cbn; [|split; [done|intros (_ & _ & ?); lia]].
  destruct (MemoryContent_try_from (mm_content r)) as [c| |] eqn:E; cbn.
  - apply MemoryContent_try_from_Ok in E as [-> E]. split; [intros [=]; split_and!; [done|done|lia]|].
    by intros (-> & _).
  - split; [done|]. intros (_ & Hv & _). unfold valid_content in Hv. cbn in Hv. congruence.
  - split; [done|]. intros (_ & Hv & _). unfold valid_content in Hv. cbn in Hv. congruence.
Qed.

(** What the journal stores is what was logged. *)
Lemma decode_event_row id agent org target source now p :
  valid_payload p →
  decode_memory_event (event_row id agent org target source now p)
  = Ok (mkMemoryEvent id agent org target source now p).
Proof.
  intros Hp. unfold decode_memory_event, event_row. unfold valid_payload, valid_content in Hp.
  destruct source, p; cbn -[MemoryContent_try_from] in *;
    repeat match type of Hp with _ ∧ _ => destruct Hp as [-> ->] | _ => rewrite Hp end; done.
Qed.

Lemma insert_event_Ok env sees id agent target source now p s s' :
  insert_event env sees id agent target source now p s = Ok (tt, s') →
  ∃ org row, me_agent_org env agent = Some org ∧ sees org = true ∧
    row = event_row id agent org target source now p ∧
    (is_Some (ev_subject row) → ev_kind row = Some KCollaborator) ∧
    (id ∉ ev_id <$> memory_events s) ∧
    opt_known (me_request_exists env) (turn_id source) = true ∧
    opt_known (λ c, bool_decide (is_Some (me_colleague_org env c))) (ev_subject row) = true ∧
    s' = set_events (memory_events s ++ [row]) s.
Proof.
  unfold insert_event. destruct (me_agent_org env agent) as [org|]; [|done]. cbn zeta.
  destruct (sees org) eqn:Esees; [|done]. destruct (_ && _) eqn:E1; [done|].
  destruct (bool_decide (id ∈ _)) eqn:Hid; [done|]. destruct (negb (opt_known (me_request_exists _) _) || _) eqn:E2; [done|].
  intros [= <-]. exists org, (event_row id agent org target source now p). bools. split_and!; try done.
  intros Hs. destruct (decide (ev_kind (event_row id agent org target source now p) = Some KCollaborator)) as [|Hn]; [done|].
  apply andb_false_iff in E1 as [E1|E1]; bools; tauto.
Qed.

(** ** The replay of one memory *)

(** A row as the journal knows it: no reads, no validations, no embedding. *)
Definition erased (r : MemoryRow) : MemoryRow :=
  mkMemory (mm_id r) (mm_agent_id r) (mm_org_id r) (mm_kind r) (mm_content r) (mm_state r) (mm_pinned r)
    (mm_subject r) (mm_source_turn_id r) (mm_created_at r) (mm_created_at r) (mm_created_at r) 0 None.
(** The same, with its embedding. *)
Definition rested (r : MemoryRow) : MemoryRow := with_embedding (mm_embedding r) (erased r).

Definition refs_known (env : MemEnv) (r : MemoryRow) : bool :=
  opt_known (me_request_exists env) (mm_source_turn_id r)
  && opt_known (λ c, bool_decide (is_Some (me_colleague_org env c))) (mm_subject r).

(** What one event does to its row; [None] is a failed statement. *)
Definition replay_row (env : MemEnv) (o : option MemoryRow) (e : EventRow) : option (option MemoryRow) :=
  match decode_memory_event e, me_agent_org env (ev_agent_id e) with
  | Ok ev, Some org =>
      match me_payload ev, o with
      | PWrite content kind state pinned subject, None =>
          let r := fresh_row (ev_target e) (ev_agent_id e) kind (MemoryContent_as_str content) state pinned subject
                     (turn_id (me_source ev)) (ev_created_at e) None org in
          if memory_checks r && refs_known env r then Some (Some r) else None
      | PWrite _ _ _ _ _, Some _ => None
      | PUpdate _ after _ state pinned, Some r =>
          let r' := with_pinned pinned (with_content (MemoryContent_as_str after) state (mm_embedding r) r) in
          if memory_checks r' then Some (Some r') else None
      | PUpdate _ _ _ _ _, None => Some None
      | PForget _, _ => Some None
      end
  | _, _ => None
  end.

Fixpoint replay_rows (env : MemEnv) (o : option MemoryRow) (l : list EventRow) : option (option MemoryRow) :=
  match l with
  | [] => Some o
  | e :: l' => o' ← replay_row env o e; replay_rows env o' l'
  end.

Lemma replay_rows_snoc env o l e :
  replay_rows env o (l ++ [e]) = o' ← replay_rows env o l; replay_row env o' e.
Proof.
  revert o. induction l as [|x l IH]; intros o; cbn; [by destruct (replay_row env o e)|].
  destruct (replay_row env o x); cbn; auto.
Qed.

(** The events of a memory, in the order they were logged. *)
Definition history (id : MemoryId) (s : memory) : list EventRow :=
  filter (λ e, ev_target e = id) (memory_events s).

Definition event_lt (a b : EventRow) : Prop := (ev_created_at a < ev_created_at b)%Z.

(** The journal explains the table. *)
Record journalled (env : MemEnv) (s : memory) : Prop := {
  j_ids : NoDup (ids s);
  j_checks : Forall (λ r, memory_checks r = true) (agent_memories s);
  j_replay : ∀ id, replay_rows env None (history id s) = Some (erased <$> memory_row id s);
  j_order : ∀ id, StronglySorted event_lt (history id s);
  j_owner : ∀ e e', e ∈ memory_events s → e' ∈ memory_events s → ev_target e = ev_target e' →
            ev_agent_id e = ev_agent_id e' }.

Lemma history_snoc id s e t :
  history id (set_memories t (set_events (memory_events s ++ [e]) s))
  = history id s ++ (if decide (ev_target e = id) then [e] else []).
Proof. unfold history. cbn. rewrite filter_app, filter_cons. by case_decide. Qed.

Lemma StronglySorted_snoc {A} (R : A → A → Prop) l x :
  StronglySorted R l → Forall (λ y, R y x) l → StronglySorted R (l ++ [x]).
Proof.
  induction 1 as [|y l Hl IH Hy]; intros Hx; cbn; [by repeat constructor|].
  apply Forall_cons in Hx as [Hyx Hx]. constructor; [by apply IH|by apply Forall_snoc].
Qed.

(** The row of a memory with a history belongs to the agent of the history. *)
Lemma replay_owner env o l o' a :
  replay_rows env o l = Some o' → Forall (λ e, ev_agent_id e = a) l →
  (∀ r, o = Some r → mm_agent_id r = a) → ∀ r, o' = Some r → mm_agent_id r = a.
Proof.
  revert o. induction l as [|e l IH]; intros o; cbn; [by intros [= <-]|].
  intros (o1 & He & Hl)%bind_Some [Ha Hall]%Forall_cons Ho. apply (IH o1 Hl Hall). clear IH Hl.
  intros r ->. unfold replay_row in He. destruct (decode_memory_event e) as [ev| |]; [|done..].
  destruct (me_agent_org env (ev_agent_id e)); [|done].
  destruct (me_payload ev), o; repeat case_match; simplify_eq; cbn; eauto.
Qed.

Lemma replay_row_event env o eid agent org id source now p :
  valid_payload p → me_agent_org env agent = Some org →
  replay_row env o (event_row eid agent org id source now p)
  = match p, o with
    | PWrite content kind state pinned subject, None =>
        let r := fresh_row id agent kind (MemoryContent_as_str content) state pinned subject (turn_id source) now
                   None org in
        if memory_checks r && refs_known env r then Some (Some r) else None
    | PWrite _ _ _ _ _, Some _ => None
    | PUpdate _ after _ state pinned, Some r =>
        let r' := with_pinned pinned (with_content (MemoryContent_as_str after) state (mm_embedding r) r) in
        if memory_checks r' then Some (Some r') else None
    | PUpdate _ _ _ _ _, None => Some None
    | PForget _, _ => Some None
    end.
Proof.
  intros Hp Horg. unfold replay_row. rewrite decode_event_row by done.
  replace (ev_agent_id (event_row eid agent org id source now p)) with agent by (by destruct p).
  rewrite Horg. by destruct p.
Qed.

Lemma insert_memory_Ok env sees row agent s s' :
  insert_memory env sees row agent s = Ok (tt, s') →
  ∃ org, me_agent_org env agent = Some org ∧ memory_checks (row org) = true ∧ memory_row (mm_id (row org)) s = None ∧
    s' = set_memories (agent_memories s ++ [row org]) s.
Proof.
  unfold insert_memory. destruct (me_agent_org env agent) as [org|]; [|done]. cbn zeta.
  destruct (negb (sees org)); [done|]. destruct (memory_checks (row org)) eqn:Hchk; [|done].
  destruct (bool_decide (is_Some _)) eqn:Habs; [done|]. destruct (negb _ || _) eqn:Hfk; [done|].
  intros [= <-]. exists org. split_and!; try done. bools. by apply eq_None_not_Some.
Qed.

(** ** One logged change *)

Section log.
Context (env : MemEnv).
Implicit Types (s : memory) (r : MemoryRow).

Definition past (id : MemoryId) (s : memory) : Prop :=
  ∀ e, e ∈ history id s → (ev_created_at e < me_now env)%Z.
Definition owned (id : MemoryId) (agent : AgentId) (s : memory) : Prop :=
  ∀ e, e ∈ history id s → ev_agent_id e = agent.

Lemma row_owned s id r : journalled env s → memory_row id s = Some r → owned id (mm_agent_id r) s.
Proof.
  intros [_ _ Hrep _ Hown] Hr e He. specialize (Hrep id). rewrite Hr in Hrep. cbn in Hrep.
  pose proof (replay_owner env None (history id s) _ (ev_agent_id e) Hrep) as H.
  specialize (H ltac:(apply Forall_forall; intros e' He'; apply list_elem_of_filter in He as [? He], He' as [? He'];
    apply Hown; congruence) ltac:(done)).
  symmetry. apply (H (erased r)). done.
Qed.

Lemma log_keeps sees eid agent id source p s s1 s2 :
  journalled env s → past id s → owned id agent s →
  insert_event env sees eid agent id source (me_now env) p s = Ok (tt, s1) →
  memory_events s2 = memory_events s1 →
  NoDup (ids s2) → Forall (λ r, memory_checks r = true) (agent_memories s2) →
  (∀ id', id' ≠ id → memory_row id' s2 = memory_row id' s) →
  (∀ org, me_agent_org env agent = Some org →
     replay_row env (erased <$> memory_row id s) (event_row eid agent org id source (me_now env) p)
     = Some (erased <$> memory_row id s2)) →
  journalled env s2.
Proof.
  intros [Hids Hch Hrep Hord Hown] Hpast Howned Hins Hev Hids2 Hch2 Hoth Hstep.
  apply insert_event_Ok in Hins as (org & row & Horg & _ & -> & _ & _ & _ & _ & ->).
  set (row := event_row eid agent org id source (me_now env) p) in *.
  assert (ev_target row = id ∧ ev_agent_id row = agent ∧ ev_created_at row = me_now env) as (Et & Ea & Ec)
    by (unfold row, event_row; by destruct p).
  assert (Hh : ∀ id', history id' s2 = history id' s ++ (if decide (ev_target row = id') then [row] else [])).
  { intros id'. rewrite <-(history_snoc id' s row (agent_memories s)). unfold history. by rewrite Hev. }
  split; [done|done| | |].
  - intros id'. rewrite Hh, Et. case_decide as E; [subst id'|rewrite app_nil_r, Hrep; by rewrite Hoth by done].
    rewrite replay_rows_snoc, Hrep. cbn. by apply Hstep.
  - intros id'. rewrite Hh, Et. case_decide as E; [subst id'|by rewrite app_nil_r].
    apply StronglySorted_snoc; [done|]. apply Forall_forall. intros e He.
    unfold event_lt. rewrite Ec. by apply Hpast.
  - assert (Hnew : ∀ e, e ∈ memory_events s → ev_target e = id → ev_agent_id e = agent).
    { intros e He Hid. apply Howned. by apply list_elem_of_filter. }
    intros e e'. rewrite Hev. cbn. rewrite !elem_of_app, !list_elem_of_singleton.
    intros [He| ->] [He'| ->] Heq; [by apply Hown|..|done].
    + rewrite Ea. apply Hnew; congruence.
    + rewrite Ea. symmetry. apply Hnew; congruence.
Qed.

Lemma checks_erased r : memory_checks r = true → memory_checks (erased r) = true.
Proof. unfold memory_checks. cbn. rewrite !andb_true_iff. tauto. Qed.

Lemma log_write sees sees' eid agent id source s s1 s2 c kind st pin subj emb :
  journalled env s → past id s → owned id agent s → memory_row id s = None → valid_content c →
  insert_event env sees eid agent id source (me_now env) (PWrite c kind st pin subj) s = Ok (tt, s1) →
  insert_memory env sees' (fresh_row id agent kind (MemoryContent_as_str c) st pin subj (turn_id source) (me_now env) emb)
    agent s1 = Ok (tt, s2) →
  journalled env s2.
Proof.
  intros Hj Hpast Hown Hnone Hc Hins Hmem. pose proof Hins as Hins0.
  apply insert_event_Ok in Hins0 as (org & row & Horg & _ & Hrow & _ & _ & Hturn & Hsub & Hs1).
  assert (Hsub' : opt_known (λ c, bool_decide (is_Some (me_colleague_org env c))) subj = true) by (by subst row).
  assert (Hm1 : agent_memories s1 = agent_memories s) by (by subst s1).
  clear Hsub Hs1 Hrow row. apply insert_memory_Ok in Hmem as (org' & Horg' & Hchk & Habs & ->).
  rewrite Horg in Horg'. injection Horg' as <-. set (r := fresh_row _ _ _ _ _ _ _ _ _ _ _) in *.
  unfold memory_row in Habs. rewrite Hm1 in Habs.
  apply (log_keeps sees eid agent id source (PWrite c kind st pin subj) s s1); try done.
  - cbn. rewrite Hm1, fmap_app. apply NoDup_snoc; [apply Hj|]. cbn. by apply row_of_None.
  - cbn. rewrite Hm1. apply Forall_snoc; [apply Hj|done].
  - intros id' Hid. unfold memory_row. cbn. rewrite Hm1, row_of_snoc. cbn.
    destruct (row_of id' _); [done|]. by rewrite decide_False by congruence.
  - intros org' Horg'. simplify_eq. rewrite replay_row_event, Hnone by done.
    unfold memory_row in *. cbn -[memory_checks fresh_row]. rewrite Hm1, row_of_snoc, Hnone. cbn -[memory_checks].
    rewrite decide_True by done. unfold refs_known. cbn -[memory_checks]. rewrite Hturn, Hsub'.
    pose proof (checks_erased _ Hchk) as He. unfold erased in He. cbn -[memory_checks] in He.
    unfold fresh_row. by rewrite He.
Qed.

(** What a rewrite of the row keeps of it. *)
Definition keeps_id (f : MemoryRow → MemoryRow) : Prop := ∀ r, mm_id (f r) = mm_id r.

Lemma update_memory_Ok f id s s' :
  update_memory f id s = Ok (tt, s') →
  (∀ r, r ∈ agent_memories s → mm_id r = id → memory_checks (f r) = true) ∧
  s' = set_memories (update_where (λ r, mm_id r = id) f (agent_memories s)) s.
Proof.
  unfold update_memory. destruct (negb _) eqn:E; [done|]. intros [= <-]. split; [|done].
  intros r Hr Hid. apply negb_false_iff in E. rewrite forallb_Forall, Forall_forall in E.
  specialize (E r Hr). by rewrite bool_decide_true in E.
Qed.

Lemma memory_row_update f id id' s :
  keeps_id f →
  row_of id' (update_where (λ r, mm_id r = id) f (agent_memories s))
  = if decide (id' = id) then f <$> memory_row id' s else memory_row id' s.
Proof.
  intros Hf. rewrite row_of_update by done. unfold memory_row. destruct (row_of id' _) as [r|] eqn:E; cbn.
  - apply row_of_Some in E as [_ <-]. repeat case_decide; done || congruence.
  - by case_decide.
Qed.

Lemma memory_row_updated f id id' s s' :
  update_memory f id s = Ok (tt, s') → keeps_id f →
  memory_row id' s' = if decide (id' = id) then f <$> memory_row id' s else memory_row id' s.
Proof. intros [_ ->]%update_memory_Ok Hf. by apply memory_row_update. Qed.

Lemma memory_row_inserted sees eid agent id source now p s s' id' :
  insert_event env sees eid agent id source now p s = Ok (tt, s') → memory_row id' s' = memory_row id' s.
Proof. by intros (_ & ? & _ & _ & _ & _ & _ & _ & _ & ->)%insert_event_Ok. Qed.

Lemma update_checks f id s :
  Forall (λ r, memory_checks r = true) (agent_memories s) →
  (∀ r, r ∈ agent_memories s → mm_id r = id → memory_checks (f r) = true) →
  Forall (λ r, memory_checks r = true) (update_where (λ r, mm_id r = id) f (agent_memories s)).
Proof. intros. by apply Forall_update_where. Qed.

Lemma log_update sees eid agent id source s s1 s2 r b a kind st pin f :
  journalled env s → past id s → memory_row id s = Some r → mm_agent_id r = agent →
  valid_content b → valid_content a → keeps_id f →
  erased (f r) = with_pinned pin (with_content (MemoryContent_as_str a) st None (erased r)) →
  insert_event env sees eid agent id source (me_now env) (PUpdate b a kind st pin) s = Ok (tt, s1) →
  update_memory f id s1 = Ok (tt, s2) →
  journalled env s2.
Proof.
  intros Hj Hpast Hr Hag Hb Ha Hf Her Hins Hupd.
  pose proof Hins as Hs1. apply insert_event_Ok in Hs1 as (_ & ? & _ & _ & _ & _ & _ & _ & _ & Hs1).
  assert (Hm1 : agent_memories s1 = agent_memories s) by (by rewrite Hs1). clear Hs1.
  apply update_memory_Ok in Hupd as [Hchk ->]. rewrite Hm1 in Hchk. rewrite Hm1.
  apply (log_keeps sees eid agent id source (PUpdate b a kind st pin) s s1); try done; cbn.
  - intros e He. rewrite <-Hag. by apply (row_owned s id r).
  - rewrite ids_update by done. apply Hj.
  - apply update_checks; [apply Hj|done].
  - intros id' Hid. unfold memory_row at 1. cbn. rewrite memory_row_update by done. by rewrite decide_False.
  - intros org Horg. rewrite (replay_row_event env _ eid agent org id source (me_now env) (PUpdate b a kind st pin)) by done.
    assert (Hrow : row_of id (update_where (λ r, mm_id r = id) f (agent_memories s)) = Some (f r))
      by (by rewrite memory_row_update, decide_True, Hr).
    rewrite Hr. unfold memory_row. cbn -[memory_checks]. rewrite Hrow. cbn -[memory_checks].
    rewrite Her. apply row_of_Some in Hr as [Hr Hid]. specialize (Hchk r Hr Hid). apply checks_erased in Hchk.
    rewrite Her in Hchk. by rewrite Hchk.
Qed.

Lemma log_forget sees eid agent id source s s1 r b :
  journalled env s → past id s → memory_row id s = Some r → mm_agent_id r = agent → valid_content b →
  insert_event env sees eid agent id source (me_now env) (PForget b) s = Ok (tt, s1) →
  journalled env (drop_memories (λ r, mm_id r = id) s1).
Proof.
  intros Hj Hpast Hr Hag Hb Hins.
  pose proof Hins as Hs1. apply insert_event_Ok in Hs1 as (_ & ? & _ & _ & _ & _ & _ & _ & _ & Hs1).
  assert (Hm1 : agent_memories s1 = agent_memories s) by (by rewrite Hs1). clear Hs1.
  apply (log_keeps sees eid agent id source (PForget b) s s1); try done; cbn; rewrite ?Hm1.
  - intros e He. rewrite <-Hag. by apply (row_owned s id r).
  - apply NoDup_fmap_filter, Hj.
  - apply Forall_filter, Hj.
  - intros id' Hid. unfold memory_row. cbn. rewrite ?Hm1, row_of_filter by apply Hj.
    destruct (row_of id' _) as [r'|] eqn:E; cbn; [|done]. apply row_of_Some in E as [_ E].
    by rewrite decide_True by congruence.
  - intros org Horg. rewrite (replay_row_event env _ eid agent org id source (me_now env) (PForget b)) by done.
    unfold memory_row. cbn. rewrite ?Hm1, row_of_filter by apply Hj.
    destruct (row_of id _) as [r'|] eqn:E; cbn; [|done]. apply row_of_Some in E as [_ E].
    by rewrite decide_False by tauto.
Qed.

(** Reads and validations leave no trace in what the journal knows. *)
Lemma quiet_keeps s s' (P : MemoryRow → Prop) `{∀ r, Decision (P r)} f :
  journalled env s → keeps_id f → (∀ r, erased (f r) = erased r) →
  (∀ r, r ∈ agent_memories s → P r → memory_checks (f r) = true) →
  memory_events s' = memory_events s → agent_memories s' = update_where P f (agent_memories s) →
  journalled env s'.
Proof.
  intros [Hids Hch Hrep Hord Hown] Hf Her Hchk Hev Hm.
  assert (Hh : ∀ id, history id s' = history id s) by (intros; unfold history; by rewrite Hev).
  split; rewrite ?Hev, ?Hm; try done.
  - by rewrite ids_update.
  - by apply Forall_update_where.
  - intros id. rewrite Hh, Hrep. unfold memory_row. rewrite Hm, row_of_update by done.
    destruct (row_of id _); cbn; [|done]. case_decide; by rewrite ?Her.
  - intros id. by rewrite Hh.
Qed.

Lemma same_keeps s s' :
  journalled env s → memory_events s' = memory_events s → agent_memories s' = agent_memories s → journalled env s'.
Proof.
  intros Hj Hev Hm. apply (quiet_keeps s s' (λ _, False) id); try done.
  rewrite Hm. symmetry. apply update_where_id. tauto.
Qed.
End log.

(** ** Every operation logs what it does *)

Lemma lock_existing_Ok sees agent target source s r s' :
  lock_existing sees agent target source s = Ok (r, s') →
  s' = s ∧ memory_row target s = Some r ∧ sees (mm_org_id r) = true ∧ mm_agent_id r = agent ∧
  (mm_pinned r = true → bypasses_pin source = true) ∧ valid_content (row_content r).
Proof.
  unfold lock_existing. destruct (memory_row target s) as [x|] eqn:Ex; [|done].
  destruct (sees _) eqn:Esees; cbn; [|done]. intros H. apply res_bind_Ok in H as (x' & Hx & H).
  apply decode_memory_row_Ok in Hx as (-> & Hv & _). case_bool_decide; cbn in H; [|done].
  destruct (mm_pinned x) eqn:Ep, (bypasses_pin source) eqn:Eb; cbn in H; simplify_eq; split_and!; congruence || done.
Qed.

Lemma returning_Ok id s r s' :
  returning id s = Ok (r, s') → s' = s ∧ memory_row id s = Some r ∧ valid_content (row_content r).
Proof.
  unfold returning. destruct (memory_row id s) as [x|]; cbn; [|done]. intros H.
  apply res_bind_Ok in H as (x' & Hx & [= <- <-]). apply decode_memory_row_Ok in Hx as (-> & Hv & _). done.
Qed.

Definition at_time (env : MemEnv) (t : Z) : MemEnv :=
  mkMemEnv t (me_agent_org env) (me_colleague_org env) (me_request_exists env).
Lemma replay_rows_at env t o l : replay_rows (at_time env t) o l = replay_rows env o l.
Proof.
  revert o. induction l as [|e l IH]; intros o; [done|]. cbn.
  change (replay_row (at_time env t) o e) with (replay_row env o e). by destruct (replay_row env o e); cbn.
Qed.
Lemma journalled_at env t s : journalled (at_time env t) s ↔ journalled env s.
Proof.
  split; intros [H1 H2 H3 H4 H5]; split; try done; intros id; specialize (H3 id); by rewrite ?replay_rows_at in *.
Qed.

Definition ticks (t : Z) (s : memory) : Prop := ∀ e, e ∈ memory_events s → (ev_created_at e < t)%Z.

Section operations.
Context (env : MemEnv).
Implicit Types (s : memory) (r : MemoryRow).

Lemma ticks_past id s : ticks (me_now env) s → past env id s.
Proof. intros Ht e [_ He]%list_elem_of_filter. by apply Ht. Qed.

Lemma write_keeps sees mid eid agent kind c st pin subj source emb s o s' :
  journalled env s → ticks (me_now env) s → history mid s = [] →
  apply_write env sees mid eid agent kind c st pin subj source emb (me_now env) s = Ok (o, s') → journalled env s'.
Proof.
  intros Hj Ht Hh H. unfold apply_write in H. apply tbind_Ok in H as ([] & s0 & Hs0 & H).
  assert (s0 = s) as -> by (destruct subj; [case_match|]; unfold tret, terr in *; by simplify_eq).
  apply tbind_Ok in H as ([] & s1 & Hins & H). apply tbind_Ok in H as ([] & s2 & Hmem & H).
  apply tbind_Ok in H as (r & s3 & Hret & H). unfold tret in H. injection H as _ <-.
  apply returning_Ok in Hret as (-> & Hr & Hv).
  assert (Hnone : memory_row mid s = None).
  { pose proof (j_replay _ _ Hj mid) as Hrep. rewrite Hh in Hrep. cbn in Hrep. by destruct (memory_row mid s). }
  assert (Hc : valid_content c).
  { assert (row_content r = c) as <-; [|done].
    apply insert_event_Ok in Hins as (_ & ? & _ & _ & _ & _ & _ & _ & _ & ->).
    apply insert_memory_Ok in Hmem as (org & _ & _ & _ & ->). unfold memory_row in *. cbn in Hr.
    rewrite row_of_snoc, Hnone in Hr. cbn in Hr. rewrite decide_True in Hr by done.
    injection Hr as <-. by destruct c. }
  apply (log_write env sees sees eid agent mid source s s1 s2 c kind st pin subj (Some emb)); try done.
  - by apply ticks_past.
  - intros e. rewrite Hh. set_solver.
Qed.

Lemma update_keeps sees eid agent target c st source emb s o s' :
  journalled env s → ticks (me_now env) s →
  apply_update env sees eid agent target c st source emb (me_now env) s = Ok (o, s') → journalled env s'.
Proof.
  intros Hj Ht H. unfold apply_update in H. apply tbind_Ok in H as (prior & s0 & Hl & H).
  apply lock_existing_Ok in Hl as (-> & Hr & _ & Hag & _ & Hb).
  apply tbind_Ok in H as ([] & s1 & Hins & H). apply tbind_Ok in H as ([] & s2 & Hupd & H).
  apply tbind_Ok in H as (r & s3 & Hret & H). unfold tret in H. injection H as _ <-.
  apply returning_Ok in Hret as (-> & Hrow & Hv).
  assert (Hc : valid_content c).
  { assert (row_content r = c) as <-; [|done].
    rewrite (memory_row_updated _ _ _ _ _ Hupd), decide_True in Hrow by done.
    rewrite (memory_row_inserted _ _ _ _ _ _ _ _ _ _ target Hins), Hr in Hrow. injection Hrow as <-. by destruct c. }
  apply (log_update env sees eid agent target source s s1 s2 prior (row_content prior) c (mm_kind prior) st
           (mm_pinned prior) (with_content (MemoryContent_as_str c) st (Some emb))); try done.
  by apply ticks_past.
Qed.

Lemma forget_keeps sees eid agent target source s o s' :
  journalled env s → ticks (me_now env) s →
  apply_forget env sees eid agent target source (me_now env) s = Ok (o, s') → journalled env s'.
Proof.
  intros Hj Ht H. unfold apply_forget in H. apply tbind_Ok in H as (prior & s0 & Hl & H).
  apply lock_existing_Ok in Hl as (-> & Hr & _ & Hag & _ & Hb).
  apply tbind_Ok in H as ([] & s1 & Hins & H). apply tbind_Ok in H as ([] & s2 & Hdel & H).
  unfold tret in H. injection H as _ <-. unfold delete_memory, tmod in Hdel. injection Hdel as <-.
  apply (log_forget env sees eid agent target source s s1 prior (row_content prior)); try done.
  by apply ticks_past.
Qed.
Lemma validation_keeps sees vid eid agent id origin detail s r s' :
  journalled env s → ticks (me_now env) s →
  record_validation_tx env sees vid eid agent id origin detail s = Ok (r, s') → journalled env s'.
Proof.
  intros Hj Ht H. unfold record_validation_tx in H. cbn zeta in H. apply tbind_Ok in H as (prior & s0 & Hl & H).
  apply lock_existing_Ok in Hl as (-> & Hr & _ & Hag & _ & Hb).
  apply tbind_Ok in H as ([] & s1 & Hval & H).
  assert (Hsame : memory_events s1 = memory_events s ∧ agent_memories s1 = agent_memories s).
  { unfold insert_validation in Hval. destruct (me_agent_org env agent); [|done].
    repeat (match type of Hval with (if ?b then _ else _) = _ => destruct b; [done|] end).
    by injection Hval as <-. }
  destruct Hsame as [Hev Hm].
  apply tbind_Ok in H as ([] & s2 & Hins & H). apply tbind_Ok in H as ([] & s3 & Hupd & H).
  apply returning_Ok in H as (-> & _ & _).
  refine (log_update env sees eid agent id _ s1 s2 s3 prior _ _ _ _ _ _ _ _ _ Hag Hb Hb _ _ Hins Hupd); try done.
  - by apply (same_keeps env s).
  - intros e He. apply Ht. unfold history in He. rewrite Hev in He. by apply list_elem_of_filter in He as [_ ?].
  - unfold memory_row. by rewrite Hm.
Qed.

Lemma set_pinned_keeps eid agent id pinned s s' :
  journalled env s → ticks (me_now env) s →
  set_pinned_tx env eid agent id pinned s = Ok (tt, s') → journalled env s'.
Proof.
  intros Hj Ht H. unfold set_pinned_tx in H. apply tbind_Ok in H as (prior & s0 & Hl & H).
  apply lock_existing_Ok in Hl as (-> & Hr & _ & Hag & _ & Hb).
  apply tbind_Ok in H as ([] & s1 & Hins & Hupd).
  refine (log_update env privileged eid agent id _ s s1 s' prior _ _ _ _ _ _ _ _ _ Hag Hb Hb _ _ Hins Hupd); try done.
  by apply ticks_past.
Qed.

Lemma decode_event_Ok row e :
  decode_memory_event row = Ok e → valid_payload (me_payload e) ∧ me_target_memory_id e = ev_target row.
Proof.
  unfold decode_memory_event. intros H. apply res_bind_Ok in H as (src & _ & H). cbn zeta in H.
  assert (Hc : ∀ o msg c, (raw <-? expect o msg ; res_map_err MemParse (MemoryContent_try_from raw)) = Ok c →
               valid_content c).
  { intros o msg c Hc. apply res_bind_Ok in Hc as (raw & _ & Hc).
    destruct (MemoryContent_try_from raw) as [c'| |] eqn:E; cbn in Hc; simplify_eq.
    by apply MemoryContent_try_from_Ok in E as [_ ?]. }
  apply res_bind_Ok in H as (p & Hp & [= <-]). split; [|done]. cbn.
  destruct (ev_mutation row).
  - apply res_bind_Ok in Hp as (c & Hcc & Hp). apply Hc in Hcc.
    repeat (apply res_bind_Ok in Hp as (? & _ & Hp)). by injection Hp as <-.
  - apply res_bind_Ok in Hp as (b & Hbb & Hp). apply res_bind_Ok in Hp as (a & Haa & Hp).
    apply Hc in Hbb, Haa. repeat (apply res_bind_Ok in Hp as (? & _ & Hp)). by injection Hp as <-.
  - apply res_bind_Ok in Hp as (b & Hbb & Hp). apply Hc in Hbb. by injection Hp as <-.
Qed.

Lemma load_event_Ok agent event s evt :
  load_event agent event s = Ok evt →
  valid_payload (me_payload evt) ∧
  ∃ row, row ∈ memory_events s ∧ ev_agent_id row = agent ∧ ev_id row = event ∧
    ev_target row = me_target_memory_id evt ∧ decode_memory_event row = Ok evt.
Proof.
  unfold load_event. destruct (List.find _ _) as [row|] eqn:E; [|done]. intros Hd.
  apply find_Some_iff in E as [Hrow E]. bools. apply decode_event_Ok in Hd as Hd'. destruct Hd' as [Hv Ht].
  split; [done|]. by exists row.
Qed.

Lemma revert_keeps agent event inverse s o s' :
  journalled env s → ticks (me_now env) s →
  (∀ evt before, load_event agent event s = Ok evt → me_payload evt = PForget before →
     memory_row (me_target_memory_id evt) s = None) →
  revert_event env agent event inverse s = Ok (o, s') → journalled env s'.
Proof.
  intros Hj Ht Hdead H. unfold revert_event in H. apply res_bind_Ok in H as (evt & Hload & H).
  apply tbind_Ok in H as ([] & s1 & H & Hget). unfold tget in Hget. injection Hget as _ <-.
  specialize (Hdead evt). pose proof Hload as Hl. apply load_event_Ok in Hl as (Hv & row & Hrow & Hag & _ & Htg & _).
  destruct (me_payload evt) as [c k st p sub|b a k st p|b] eqn:Ep.
  - unfold revert_write in H. apply tbind_Ok in H as (prior & s0 & Hl & H).
    apply lock_existing_Ok in Hl as (-> & Hr & _ & Ha & _ & Hb). apply tbind_Ok in H as ([] & s2 & Hins & H).
    unfold delete_memory, tmod in H. injection H as <-.
    apply (log_forget env privileged inverse agent (me_target_memory_id evt) SrcOperator s s2 prior (row_content prior)); try done.
    by apply ticks_past.
  - unfold revert_update in H. apply tbind_Ok in H as (prior & s0 & Hl & H).
    apply lock_existing_Ok in Hl as (-> & Hr & _ & Ha & _ & Hb). apply tbind_Ok in H as ([] & s2 & Hins & Hupd).
    destruct Hv as [Hvb Hva].
    refine (log_update env privileged inverse agent (me_target_memory_id evt) SrcOperator s s2 s1 prior
              _ _ _ _ _ _ _ _ _ Ha Hb Hvb _ _ Hins Hupd); try done.
    by apply ticks_past.
  - specialize (Hdead b Hload eq_refl). unfold revert_forget in H.
    apply res_bind_Ok in H as (attrs & _ & H). apply tbind_Ok in H as ([] & s2 & Hins & H).
    unfold insert_memory_if_absent in H.
    rewrite (memory_row_inserted _ _ _ _ _ _ _ _ _ _ (me_target_memory_id evt) Hins), Hdead in H. cbn in H.
    refine (log_write env privileged privileged inverse agent (me_target_memory_id evt) SrcOperator s s2 s1 b _ _ _ _
              None Hj _ _ Hdead Hv Hins H).
    + by apply ticks_past.
    + intros e [Ee He]%list_elem_of_filter. rewrite <-Hag. apply (j_owner _ _ Hj); [done..|congruence].
Qed.
End operations.

(** ** Sweeps *)

Section sweeps.
Context (env : MemEnv).
Implicit Types (s : memory) (r : MemoryRow).

(** The body of a sweep logs its own row, and leaves the others. *)
Definition logs_one (body : MemoryEventId → MemoryRow → MTx unit) (P : MemoryRow → Prop) : Prop :=
  ∀ eid r s s', journalled env s → memory_row (mm_id r) s = Some r → past env (mm_id r) s →
    valid_content (row_content r) → P r → body eid r s = Ok (tt, s') →
    journalled env s' ∧ (∀ id, id ≠ mm_id r → memory_row id s' = memory_row id s ∧ history id s' = history id s).

Lemma for_rows_keeps body P eids rows n s k s' :
  logs_one body P → journalled env s → NoDup (mm_id <$> rows) → Forall P rows →
  Forall (λ r, memory_row (mm_id r) s = Some r ∧ past env (mm_id r) s) rows →
  for_rows body eids rows n s = Ok (k, s') → journalled env s'.
Proof.
  intros Hbody. revert n s. induction rows as [|r rows IH]; intros n s Hj Hnd HP Hrows H; cbn in H.
  { unfold tret in H. by injection H as _ <-. }
  apply NoDup_cons in Hnd as [Hr Hnd]. apply Forall_cons in HP as [HPr HP].
  apply Forall_cons in Hrows as [[Hrow Hpast] Hrows].
  apply tbind_Ok in H as (r' & s1 & Hd & H). unfold tlift in Hd. apply res_bind_Ok in Hd as (? & Hd & [= <- <-]).
  apply decode_memory_row_Ok in Hd as (-> & Hv & _). apply tbind_Ok in H as ([] & s2 & Hb & H).
  destruct (Hbody _ _ _ _ Hj Hrow Hpast Hv HPr Hb) as [Hj' Hother].
  apply (IH (S n) s2); try done. rewrite Forall_forall in *. intros x Hx.
  destruct (Hother (mm_id x)) as [Hrx Hhx].
  { intros Heq. apply Hr. rewrite <-Heq. by apply list_elem_of_fmap_2. }
  rewrite Hrx. unfold past. rewrite Hhx. by apply Hrows.
Qed.

Lemma inserted_history sees eid agent id source now p s s' id' :
  insert_event env sees eid agent id source now p s = Ok (tt, s') → id' ≠ id → history id' s' = history id' s.
Proof.
  intros (org & row & _ & _ & Hrow & _ & _ & _ & _ & ->)%insert_event_Ok Hid.
  assert (ev_target row = id) by (subst row; by destruct p).
  transitivity (history id' (set_memories (agent_memories s) (set_events (memory_events s ++ [row]) s))); [done|].
  rewrite history_snoc. rewrite decide_False by congruence. apply app_nil_r.
Qed.

Lemma hold_logs : logs_one (hold env) (λ _, True).
Proof.
  intros eid r s s' Hj Hr Hpast Hv _ H. unfold hold in H. apply tbind_Ok in H as ([] & s1 & Hins & Hupd).
  split.
  - refine (log_update env privileged eid (mm_agent_id r) (mm_id r) SrcLibrarian s s1 s' r _ _ _ _ _ _
             Hj Hpast Hr eq_refl Hv Hv _ _ Hins Hupd); done.
  - intros id Hid. rewrite (memory_row_updated _ _ _ _ _ Hupd), decide_False by done.
    rewrite (memory_row_inserted _ _ _ _ _ _ _ _ _ _ id Hins). split; [done|].
    apply update_memory_Ok in Hupd as [_ ->]. by rewrite <-(inserted_history _ _ _ _ _ _ _ _ _ _ Hins Hid).
Qed.

Lemma evict_logs agent : logs_one (evict_one_row env agent) (λ r, mm_agent_id r = agent).
Proof.
  intros eid r s s' Hj Hr Hpast Hv Hag H. unfold evict_one_row in H. apply tbind_Ok in H as ([] & s1 & Hins & Hdel).
  unfold delete_memory, tmod in Hdel. injection Hdel as <-. split.
  - by apply (log_forget env privileged eid agent (mm_id r) SrcLibrarian s s1 r (row_content r)).
  - intros id Hid. rewrite <-(inserted_history _ _ _ _ _ _ _ _ _ _ Hins Hid). split; [|done].
    rewrite <-(memory_row_inserted _ _ _ _ _ _ _ _ _ _ id Hins). unfold memory_row. cbn.
    apply insert_event_Ok in Hins as (_ & ? & _ & _ & _ & _ & _ & _ & _ & ->). cbn.
    rewrite row_of_filter by apply Hj. destruct (row_of id _) as [y|] eqn:E; cbn; [|done].
    apply row_of_Some in E as [_ E]. by rewrite decide_True by congruence.
Qed.

Lemma rows_ready s rows :
  journalled env s → ticks (me_now env) s → (∀ r, r ∈ rows → r ∈ agent_memories s) →
  Forall (λ r, memory_row (mm_id r) s = Some r ∧ past env (mm_id r) s) rows.
Proof.
  intros Hj Ht Hin. apply Forall_forall. intros r Hr. split; [|by apply ticks_past].
  apply row_of_elem; [apply Hj|by apply Hin].
Qed.

Lemma filtered_keeps P `{∀ r, Decision (P r)} eids s n s' :
  journalled env s → ticks (me_now env) s →
  for_rows (hold env) eids (filter P (agent_memories s)) 0 s = Ok (n, s') → journalled env s'.
Proof.
  intros Hj Ht H'. refine (for_rows_keeps (hold env) _ eids _ 0 s n s' hold_logs Hj _ _ _ H').
  - apply NoDup_fmap_filter, Hj.
  - by apply Forall_true.
  - apply rows_ready; [done..|]. by intros r [_ ?]%list_elem_of_filter.
Qed.

Lemma evictable_sub agent s r : r ∈ evictable agent s → r ∈ agent_memories s ∧ mm_agent_id r = agent ∧ mm_pinned r = false.
Proof.
  unfold evictable, agent_rows. rewrite merge_sort_Permutation, !list_elem_of_filter. tauto.
Qed.

Lemma NoDup_evictable agent s : NoDup (ids s) → NoDup (mm_id <$> evictable agent s).
Proof.
  intros Hnd. unfold evictable, agent_rows. rewrite merge_sort_Permutation. by do 2 apply NoDup_fmap_filter.
Qed.

Lemma evict_keeps eids agent quota s gone s' :
  journalled env s → ticks (me_now env) s →
  evict_overflow_tx env eids agent quota s = Ok (gone, s') → journalled env s'.
Proof.
  intros Hj Ht H. unfold evict_overflow_tx in H. destruct (_ <=? _); [by injection H as _ <-|].
  apply tbind_Ok in H as (k & s1 & H & Hret). unfold tret in Hret. injection Hret as _ <-.
  set (m := length _ - quota) in *.
  assert (Hsub : ∀ r, r ∈ take m (evictable agent s) → r ∈ evictable agent s).
  { intros r Hr. by apply elem_of_take in Hr as (? & Hr & _); apply list_elem_of_lookup_2 in Hr. }
  refine (for_rows_keeps _ _ eids _ 0 s k s1 (evict_logs agent) Hj _ _ _ H).
  - rewrite <-firstn_map. apply (sublist_NoDup _ (mm_id <$> evictable agent s)); [by apply NoDup_evictable, Hj|].
    apply sublist_take.
  - apply Forall_forall. intros r Hr. by apply (evictable_sub agent s), Hsub.
  - apply rows_ready; [done..|]. intros r Hr. by apply (evictable_sub agent s), Hsub.
Qed.
End sweeps.
