(* ===== verification/MemoryReplay.v ===== *)
(** * The replay of the journal rebuilds the table

    [rebuild_materialized] deletes an agent's rows and replays its events in the order
    of their time and id.  After every history of the store's calls it succeeds and
    gives back every row, up to the clocks that the journal does not carry. *)

From Stdlib Require Import ZArith Lia String.
From stdpp Require Import base list strings sets sorting relations.
From S2P Require Import Prelude Program Types Memory MemoryLaws.
Open Scope nat_scope.

(** ** One statement of the replay *)

(** What a replay keeps of the tables besides the rows it writes. *)
Definition replays (s s' : memory) : Prop :=
  NoDup (ids s') ∧ Forall (λ r, memory_checks r = true) (agent_memories s') ∧
  memory_events s' = memory_events s ∧ contradiction_events s' = contradiction_events s.

#[export] Instance event_order_trans : Transitive event_order.
Proof. intros a b c. unfold event_order. lia. Qed.
#[export] Instance event_order_total : Total event_order.
Proof. intros a b. unfold event_order. lia. Qed.

Lemma update_memory_succeeds f id s :
  NoDup (ids s) → (∀ r, memory_row id s = Some r → memory_checks (f r) = true) →
  update_memory f id s = Ok (tt, set_memories (update_where (λ r, mm_id r = id) f (agent_memories s)) s).
Proof.
  intros Hnd Hf. unfold update_memory.
  replace (forallb _ _) with true; [done|]. symmetry. apply forallb_Forall, Forall_forall. intros r Hr.
  case_bool_decide as Hid; [|done]. cbn. apply Hf. subst id. by apply row_of_elem.
Qed.

Section replay.
Context (env : MemEnv) (agent : AgentId).
Implicit Types (s : memory) (e : EventRow).

Lemma update_replays f id s :
  keeps_id f → NoDup (ids s) → Forall (λ r, memory_checks r = true) (agent_memories s) →
  (∀ r, memory_row id s = Some r → memory_checks (f r) = true) →
  ∃ s', update_memory f id s = Ok (tt, s') ∧ replays s s' ∧ memory_row id s' = f <$> memory_row id s ∧
    ∀ id', id' ≠ id → memory_row id' s' = memory_row id' s.
Proof.
  intros Hf Hnd Hc Hchk. pose proof (update_memory_succeeds f id s Hnd Hchk) as Hupd. eexists. split; [done|].
  split_and!.
  - split_and!; cbn; [by rewrite ids_update| |done..].
    apply update_checks; [done|]. intros r Hr <-. apply Hchk. by apply row_of_elem.
  - rewrite (memory_row_updated _ _ _ _ _ Hupd) by done. by rewrite decide_True.
  - intros id' Hid. rewrite (memory_row_updated _ _ _ _ _ Hupd) by done. by rewrite decide_False.
Qed.

(** A statement of the replay does to its row what [replay_row] says. *)
Lemma apply_replay_ok e ev s o :
  NoDup (ids s) → Forall (λ r, memory_checks r = true) (agent_memories s) →
  ev_agent_id e = agent → decode_memory_event e = Ok ev → replay_row env (memory_row (ev_target e) s) e = Some o →
  ∃ s', apply_replay env agent ev s = Ok (tt, s') ∧ replays s s' ∧ memory_row (ev_target e) s' = o ∧
    ∀ id, id ≠ ev_target e → memory_row id s' = memory_row id s.
Proof.
  intros Hnd Hc Hag Hd Ho. pose proof Hd as Hd'. apply decode_event_Ok in Hd' as [_ Ht].
  assert (Hat : me_created_at ev = ev_created_at e).
  { unfold decode_memory_event in Hd. apply res_bind_Ok in Hd as (? & _ & Hd). cbn zeta in Hd.
    by apply res_bind_Ok in Hd as (? & _ & [= <-]). }
  unfold replay_row in Ho. rewrite Hd, Hag in Ho. unfold apply_replay. rewrite Ht, Hat.
  destruct (me_agent_org env agent) as [org|] eqn:Horg; [|done].
  destruct (me_payload ev) as [c k st p sub|b a k st p|b].
  - destruct (memory_row (ev_target e) s) eqn:Hrow; [done|]. cbn zeta in Ho.
    set (r := fresh_row _ _ _ _ _ _ _ _ _ _ _) in *.
    destruct (memory_checks r && refs_known env r) eqn:Hk; [|done]. injection Ho as <-.
    apply andb_true_iff in Hk as [Hk [Hk1 Hk2]%andb_true_iff].
    exists (set_memories (agent_memories s ++ [r]) s). unfold insert_memory. rewrite Horg. cbn zeta. fold r.
    change (mm_id r) with (ev_target e). rewrite Hrow, Hk, Hk1, Hk2. split_and!; [done|split_and!|..]; cbn.
    + rewrite fmap_app. apply NoDup_snoc; [done|]. cbn. by apply row_of_None.
    + by apply Forall_snoc.
    + done.
    + done.
    + unfold memory_row in *. cbn. rewrite row_of_snoc, Hrow. cbn. by rewrite decide_True.
    + intros id Hid. unfold memory_row. cbn. rewrite row_of_snoc. cbn.
      destruct (row_of id _); [done|]. by rewrite decide_False by congruence.
  - destruct (update_replays (λ r, with_pinned p (with_content (MemoryContent_as_str a) st (mm_embedding r) r))
                (ev_target e) s) as (s' & Hs' & Hrep & Hrow & Hoth); [done|done|done| |].
    + intros r Hr. rewrite Hr in Ho. cbn zeta in Ho. destruct (memory_checks _) eqn:Hk; [done|done].
    + exists s'. split_and!; [done|done| |done]. rewrite Hrow. destruct (memory_row (ev_target e) s); cbn in *.
      * by destruct (memory_checks _); simplify_eq.
      * by simplify_eq.
  - injection Ho as <-. exists (drop_memories (λ r, mm_id r = ev_target e) s). split; [done|].
    split_and!; [split_and!|..]; cbn; [by apply NoDup_fmap_filter|by apply Forall_filter|done|done|..].
    + unfold memory_row. cbn. rewrite row_of_filter by done. destruct (row_of _ _) as [r|] eqn:E; cbn; [|done].
      apply row_of_Some in E as [_ E]. by rewrite decide_False by tauto.
    + intros id Hid. unfold memory_row. cbn. rewrite row_of_filter by done.
      destruct (row_of _ _) as [r|] eqn:E; cbn; [|done]. apply row_of_Some in E as [_ E].
      by rewrite decide_True by congruence.
Qed.

Lemma replays_trans s1 s2 s3 : replays s1 s2 → replays s2 s3 → replays s1 s3.
Proof. intros (_ & _ & E1 & E2) (? & ? & E3 & E4). split_and!; congruence || done. Qed.

(** A replay does to every row what its own events say. *)
Lemma replay_ok l s :
  NoDup (ids s) → Forall (λ r, memory_checks r = true) (agent_memories s) → Forall (λ e, ev_agent_id e = agent) l →
  (∀ id, is_Some (replay_rows env (memory_row id s) (filter (λ e, ev_target e = id) l))) →
  ∃ s', replay env agent l s = Ok (tt, s') ∧ replays s s' ∧
    ∀ id, replay_rows env (memory_row id s) (filter (λ e, ev_target e = id) l) = Some (memory_row id s').
Proof.
  revert s. induction l as [|e l IH]; intros s Hnd Hc Hag Hok; cbn [replay].
  { exists s. by split_and!. }
  apply Forall_cons in Hag as [He Hag].
  destruct (Hok (ev_target e)) as [o Ho]. rewrite filter_cons, decide_True in Ho by done. cbn in Ho.
  apply bind_Some in Ho as (o1 & Ho1 & Ho).
  destruct (decode_memory_event e) as [ev| |] eqn:Hd; [|by unfold replay_row in Ho1; rewrite Hd in Ho1..].
  destruct (apply_replay_ok e ev s o1) as (s1 & Hs1 & Hrep & Hrow & Hoth); [done..|].
  destruct (IH s1) as (s' & Hs' & Hrep' & Hall); [apply Hrep|apply Hrep|done| |].
  - intros id. destruct (decide (id = ev_target e)) as [->|Hid]; [by rewrite Hrow|].
    rewrite Hoth by done. specialize (Hok id). by rewrite filter_cons, decide_False in Hok by congruence.
  - exists s'. split_and!.
    + unfold tbind, tlift. cbn. rewrite Hs1. cbn. done.
    + by apply (replays_trans s s1).
    + intros id. rewrite <-Hall, filter_cons. case_decide as E.
      * subst id. cbn. rewrite Ho1. cbn. by rewrite Hrow.
      * by rewrite Hoth by congruence.
Qed.

(** ** The order of the replay *)

Lemma event_lt_unique l x y :
  StronglySorted event_lt l → x ∈ l → y ∈ l → ev_created_at x = ev_created_at y → x = y.
Proof.
  induction 1 as [|z l Hl IH Hz]; [by intros ?%elem_of_nil|]. rewrite Forall_forall in Hz. unfold event_lt in Hz.
  rewrite !elem_of_cons. intros [->|Hx] [->|Hy] Heq; [done|..|by apply IH].
  - specialize (Hz y Hy). lia.
  - specialize (Hz x Hx). lia.
Qed.

Lemma StronglySorted_filter' {A} (R : A → A → Prop) (P : A → Prop) `{∀ x, Decision (P x)} l :
  StronglySorted R l → StronglySorted R (filter P l).
Proof.
  induction 1 as [|x l Hl IH Hx]; [constructor|]. rewrite filter_cons. case_decide; [|done].
  constructor; [done|]. by apply Forall_filter.
Qed.

Lemma StronglySorted_mono {A} (R R' : A → A → Prop) l :
  (∀ x y, R x y → R' x y) → StronglySorted R l → StronglySorted R' l.
Proof. intros HR. induction 1 as [|x l Hl IH Hx]; constructor; [done|]. eapply Forall_impl; [done|]. eauto. Qed.

(** The events of a memory are replayed in the order they were logged. *)
Lemma ordered_history s id :
  StronglySorted event_lt (history id s) → (∀ e, e ∈ history id s → ev_agent_id e = agent) →
  filter (λ e, ev_target e = id) (ordered_events (agent_events agent s)) = history id s.
Proof.
  intros Hs Hag. set (l := filter _ (ordered_events _)).
  assert (Hp : l ≡ₚ history id s).
  { unfold l, ordered_events. rewrite merge_sort_Permutation. unfold agent_events, history.
    rewrite list_filter_filter. erewrite filter_ext_in; [done|]. intros e He. split; [tauto|].
    intros Ht. split; [done|]. apply Hag. by apply list_elem_of_filter. }
  apply (StronglySorted_unique_strong event_order); [| | |done].
  - intros x y Hx Hy Hxy Hyx. rewrite Hp in Hx. apply (event_lt_unique (history id s)); try done.
    unfold event_order in *. lia.
  - apply StronglySorted_filter', StronglySorted_merge_sort; apply _.
  - apply (StronglySorted_mono event_lt); [|done]. unfold event_lt, event_order. lia.
Qed.
End replay.

(** ** Embeddings, put back by id *)

Lemma restore_ok snapshot s :
  NoDup (ids s) → Forall (λ r, memory_checks r = true) (agent_memories s) →
  NoDup snapshot.*1 → Forall (λ p, embedding_fits (Some p.2) = true) snapshot →
  ∃ s', restore_embeddings snapshot s = Ok (tt, s') ∧ replays s s' ∧
    (∀ id e, (id, e) ∈ snapshot → memory_row id s' = with_embedding (Some e) <$> memory_row id s) ∧
    (∀ id, id ∉ snapshot.*1 → memory_row id s' = memory_row id s).
Proof.
  revert s. induction snapshot as [|[id e] snap IH]; intros s Hnd Hc Hs Hf; cbn [restore_embeddings].
  { exists s. split_and!; try done. by intros id e ?%elem_of_nil. }
  cbn in Hs. apply NoDup_cons in Hs as [Hid Hs]. apply Forall_cons in Hf as [He Hf].
  destruct (update_replays (with_embedding (Some e)) id s) as (s1 & Hs1 & Hrep & Hrow & Hoth); [done..| |].
  { intros r [Hr _]%row_of_Some. rewrite Forall_forall in Hc. specialize (Hc r Hr).
    unfold memory_checks in *. cbn -[embedding_fits str_len] in *. rewrite !andb_true_iff in *.
    destruct Hc as [[[[? ?] ?] ?] ?]. by split_and!. }
  destruct (IH s1) as (s' & Hs' & Hrep' & Hin & Hout); [apply Hrep|apply Hrep|done|done|].
  exists s'. split_and!.
  - unfold tbind. rewrite Hs1. cbn. done.
  - by apply (replays_trans s s1).
  - intros id' e' [[= -> ->]|Hin']%elem_of_cons.
    + rewrite Hout by done. done.
    + rewrite (Hin id' e' Hin'). rewrite Hoth; [done|]. intros ->. apply Hid. by apply (list_elem_of_fmap_2 fst _ (id, e')).
  - intros id' Hid'. cbn in Hid'. rewrite not_elem_of_cons in Hid'. rewrite Hout by tauto. apply Hoth. tauto.
Qed.

Section rebuild.
Context (env : MemEnv) (agent : AgentId).
Implicit Types (s : memory).

Lemma snapshot_elem s id e :
  NoDup (ids s) →
  (id, e) ∈ embedding_snapshot agent s ↔
  ∃ r, memory_row id s = Some r ∧ mm_agent_id r = agent ∧ mm_embedding r = Some e.
Proof.
  intros Hnd. unfold embedding_snapshot, agent_rows. rewrite list_elem_of_omap. split.
  - intros (r & [Ha Hr]%list_elem_of_filter & Hp). destruct (mm_embedding r) as [v|] eqn:Ev; cbn in Hp; [|done].
    injection Hp as <- <-. exists r. split_and!; try done. by apply row_of_elem.
  - intros (r & Hr & Ha & He). apply row_of_Some in Hr as [Hr <-]. exists r. rewrite He. split; [|done].
    by apply list_elem_of_filter.
Qed.

Lemma snapshot_ids s : NoDup (ids s) → NoDup (embedding_snapshot agent s).*1.
Proof.
  intros Hnd. apply (sublist_NoDup _ (mm_id <$> agent_rows agent s)); [by apply NoDup_fmap_filter|].
  unfold embedding_snapshot. induction (agent_rows agent s) as [|r l IH]; [done|]. cbn.
  destruct (mm_embedding r); cbn; [by apply sublist_skip|by apply sublist_cons].
Qed.

(** The rows a rebuild starts from: the agent's are gone. *)
Lemma dropped_row s id :
  NoDup (ids s) →
  memory_row id (drop_memories (λ r, mm_agent_id r = agent) s)
  = r ← memory_row id s; if decide (mm_agent_id r = agent) then None else Some r.
Proof.
  intros Hnd. unfold memory_row. cbn. rewrite row_of_filter by done.
  destruct (row_of id _) as [r|]; cbn; [|done]. repeat case_decide; tauto.
Qed.

(** What the agent's events say of a memory, from the rows a rebuild starts from. *)
Lemma replayed_row s id :
  journalled env s →
  replay_rows env (memory_row id (drop_memories (λ r, mm_agent_id r = agent) s))
    (filter (λ e, ev_target e = id) (ordered_events (agent_events agent s)))
  = Some (r ← memory_row id s; Some (if decide (mm_agent_id r = agent) then erased r else r)).
Proof.
  intros Hj. rewrite dropped_row by apply Hj.
  assert (Hall : ∀ a, owned id a s → a ≠ agent →
    filter (λ e, ev_target e = id) (ordered_events (agent_events agent s)) = []).
  { intros a Ha Hne. apply filter_none, Forall_forall. intros e He Ht.
    unfold ordered_events in He. rewrite merge_sort_Permutation in He. apply list_elem_of_filter in He as [Hag He].
    apply Hne. rewrite <-Hag. symmetry. apply Ha. by apply list_elem_of_filter. }
  pose proof (j_replay _ _ Hj id) as Hrep. destruct (memory_row id s) as [r|] eqn:Hr; cbn.
  - pose proof (row_owned env s id r Hj Hr) as Hown. case_decide as Ha.
    + rewrite ordered_history; [by rewrite Hrep|apply Hj|by rewrite <-Ha].
    + by rewrite (Hall (mm_agent_id r)).
  - destruct (history id s) as [|e l] eqn:Eh.
    + rewrite ordered_history; [by rewrite Eh|apply Hj|]. rewrite Eh. by intros e ?%elem_of_nil.
    + assert (Hown : owned id (ev_agent_id e) s).
      { assert (He : e ∈ history id s) by (rewrite Eh; set_solver). intros e' He'.
        apply list_elem_of_filter in He as [? He], He' as [? He']. apply (j_owner _ _ Hj); congruence. }
      destruct (decide (ev_agent_id e = agent)) as [Ha|Ha].
      * rewrite ordered_history; [by rewrite Eh, Hrep|apply Hj|by rewrite <-Ha].
      * by rewrite (Hall (ev_agent_id e)).
Qed.

Lemma rebuild_ok s :
  journalled env s →
  ∃ s', rebuild_tx env agent s = Ok (tt, s') ∧ replays s s' ∧
    ∀ id, memory_row id s'
          = (λ r, if decide (mm_agent_id r = agent) then rested r else r) <$> memory_row id s.
Proof.
  intros Hj. pose proof (j_ids _ _ Hj) as Hnd. pose proof (j_checks _ _ Hj) as Hc.
  unfold rebuild_tx. unfold tbind at 1, tmod. cbn [res_bind fst snd].
  set (s0 := drop_memories _ s).
  destruct (replay_ok env agent (ordered_events (agent_events agent s)) s0) as (s1 & Hs1 & Hrep & Hall).
  { by apply NoDup_fmap_filter. }
  { by apply Forall_filter. }
  { apply Forall_forall. intros e He. unfold ordered_events in He. rewrite merge_sort_Permutation in He.
    by apply list_elem_of_filter in He as [? _]. }
  { intros id. unfold s0. by rewrite replayed_row. }
  destruct (restore_ok (embedding_snapshot agent s) s1) as (s2 & Hs2 & Hrep2 & Hin & Hout).
  { apply Hrep. }
  { apply Hrep. }
  { by apply snapshot_ids. }
  { apply Forall_forall. intros [id e] (r & Hr & _ & He)%snapshot_elem; [|done]. cbn.
    apply row_of_Some in Hr as [Hr _]. rewrite Forall_forall in Hc. specialize (Hc r Hr).
    unfold memory_checks in Hc. rewrite He in Hc. rewrite !andb_true_iff in Hc. apply Hc. }
  exists s2. split; [unfold tbind; rewrite Hs1; cbn; by rewrite Hs2|]. split.
  { apply (replays_trans s s0); [|by apply (replays_trans s0 s1)].
    split_and!; [by apply NoDup_fmap_filter|by apply Forall_filter|done..]. }
  intros id. specialize (Hall id). unfold s0 in Hall. rewrite replayed_row in Hall by done.
  destruct (memory_row id s) as [r|] eqn:Hr; cbn in Hall |- *; injection Hall as Hall.
  - case_decide as Ha.
    + destruct (mm_embedding r) as [e|] eqn:Ee.
      * rewrite (Hin id e), <-Hall; [cbn; unfold rested; by rewrite Ee|].
        apply snapshot_elem; [done|]. by exists r.
      * rewrite Hout, <-Hall; [unfold rested; by rewrite Ee|].
        intros ([id' e] & -> & Hs)%list_elem_of_fmap. apply snapshot_elem in Hs as (r' & Hr' & _ & He); [|done].
        cbn in *. congruence.
    + rewrite Hout; [done|]. intros ([id' e] & -> & Hs)%list_elem_of_fmap.
      apply snapshot_elem in Hs as (r' & Hr' & Ha' & _); [|done]. cbn in *. congruence.
  - rewrite Hout; [done|]. intros ([id' e] & -> & Hs)%list_elem_of_fmap.
    apply snapshot_elem in Hs as (r' & Hr' & _); [|done]. cbn in *. congruence.
Qed.

Lemma erased_rested r : erased (rested r) = erased r.
Proof. done. Qed.

Lemma rebuild_keeps s s' : journalled env s → rebuild_tx env agent s = Ok (tt, s') → journalled env s'.
Proof.
  intros Hj Hs. destruct (rebuild_ok s Hj) as (s1 & Hs1 & (Hnd & Hc & Hev & _) & Hrow).
  assert (s1 = s') as -> by congruence.
  assert (Hh : ∀ id, history id s' = history id s) by (intros; unfold history; by rewrite Hev).
  split; rewrite ?Hev; try done; [|intros id; rewrite Hh; by apply Hj|by apply Hj].
  intros id. rewrite Hh, Hrow. rewrite (j_replay _ _ Hj). destruct (memory_row id s); cbn; [|done].
  by case_decide.
Qed.
End rebuild.

(** ** Histories of the store *)

Section histories.
Context (env : MemEnv) `{Embedder}.
Implicit Types (s : memory).

(** One call, at its own time: [t] is later than what the journal holds, the id of a
    write is new, and the revert of a forget finds the memory gone. *)
Inductive call : memory → memory → Prop :=
| call_apply t sees mid eid m s :
    ticks t s → (match m with MutWrite _ _ _ _ _ _ _ => history mid s = [] | _ => True end) →
    call s (apply (at_time env t) sees mid eid m s).2
| call_validate t sees vid eid agent id origin detail s :
    ticks t s → call s (trun (record_validation_tx (at_time env t) sees vid eid agent id origin detail) s).2
| call_decay t eids agent cutoff s :
    ticks t s → call s (trun (decay_validated_tx (at_time env t) eids agent cutoff) s).2
| call_mature t eids agent cutoff s :
    ticks t s → call s (trun (mature_tentative_tx (at_time env t) eids agent cutoff) s).2
| call_evict t eids agent quota s :
    ticks t s → call s (trun (evict_overflow_tx (at_time env t) eids agent quota) s).2
| call_pin t eid agent id pinned s :
    ticks t s → call s (set_pinned (at_time env t) eid agent id pinned s).2
| call_revert t agent event inverse s :
    ticks t s →
    (∀ evt before, load_event agent event s = Ok evt → me_payload evt = PForget before →
       memory_row (me_target_memory_id evt) s = None) →
    call s (run_revert_event (at_time env t) agent event inverse s).2
| call_rebuild agent s : call s (rebuild_materialized env agent s).2
| call_access t sees l s : call s (trun (record_access_tx (at_time env t) sees l) s).2
| call_flag t id agent a b reason s : call s (trun (record_contradiction_tx (at_time env t) id agent a b reason) s).2
| call_resolve t sees id o s : call s (trun (resolve_contradiction_tx (at_time env t) sees id o) s).2.

Lemma access_keeps t sees l s s' :
  journalled env s → record_access_tx (at_time env t) sees l s = Ok (tt, s') → journalled env s'.
Proof.
  intros Hj H1. unfold record_access_tx in H1. destruct (is_empty l); [by injection H1 as <-|].
  apply res_bind_Ok in H1 as (? & _ & [= <-]).
  refine (quiet_keeps env s _ (λ r, mm_id r ∈ l ∧ sees (mm_org_id r) = true) (with_access t) Hj _ _ _ _ _); try done.
  intros r Hr _. pose proof (j_checks _ _ Hj) as Hc. rewrite Forall_forall in Hc. specialize (Hc r Hr).
  unfold memory_checks in *. cbn -[str_len]. rewrite !andb_true_iff in *.
  destruct Hc as [[[[? ?] ?%Z.leb_le] ?] ?]. split_and!; try done. apply Z.leb_le. lia.
Qed.

Lemma apply_keeps t sees mid eid m s :
  journalled env s → ticks t s → (match m with MutWrite _ _ _ _ _ _ _ => history mid s = [] | _ => True end) →
  journalled env (apply (at_time env t) sees mid eid m s).2.
Proof.
  intros Hj Ht Hm. unfold apply. destruct (_ ;;? _) as [e| |]; [|done..].
  apply trun_keeps; [done|]. intros o s' Hs. apply (journalled_at env t). apply (journalled_at env t) in Hj.
  unfold apply_in_tx in Hs.
  assert (Ht' : ticks (me_now (at_time env t)) s) by done.
  destruct m as [agent kind c st pin subj src|agent target c st src|agent target src];
    [apply tbind_Ok in Hs as (v & s1 & He & Hs); unfold tlift in He;
     apply res_bind_Ok in He as (? & _ & [= <- <-])..|].
  - exact (write_keeps _ _ _ _ _ _ _ _ _ _ _ _ _ _ _ Hj Ht' Hm Hs).
  - exact (update_keeps _ _ _ _ _ _ _ _ _ _ _ _ Hj Ht' Hs).
  - exact (forget_keeps _ _ _ _ _ _ _ _ _ Hj Ht' Hs).
Qed.

Lemma call_keeps s s' : call s s' → journalled env s → journalled env s'.
Proof.
  intros Hc Hj. destruct Hc; [by apply apply_keeps|..];
    lazymatch goal with
    | |- context [at_time env ?t] =>
        lazymatch goal with
        | |- context [record_access_tx] => idtac
        | _ => apply (journalled_at env t); apply (journalled_at env t) in Hj
        end
    | _ => idtac
    end.
  - apply trun_keeps; [done|]. intros r s' Hs. by eapply (validation_keeps (at_time env t)).
  - apply trun_keeps; [done|]. intros n s' Hs. by eapply (filtered_keeps (at_time env t)).
  - apply trun_keeps; [done|]. intros n s' Hs. by eapply (filtered_keeps (at_time env t)).
  - apply trun_keeps; [done|]. intros n s' Hs. by eapply (evict_keeps (at_time env t)).
  - unfold set_pinned.
    pose proof (trun_keeps (journalled (at_time env t)) (set_pinned_tx (at_time env t) eid agent id pinned) s Hj) as Hk.
    destruct (trun _ s) as [[| |] s']; apply Hk; intros [] s1 Hs; by eapply (set_pinned_keeps (at_time env t)).
  - unfold run_revert_event, decoded_after.
    pose proof (trun_keeps (journalled (at_time env t)) (revert_event (at_time env t) agent event inverse) s Hj) as Hk.
    destruct (trun _ s) as [[| |] s']; apply Hk; intros o s1 Hs; by eapply (revert_keeps (at_time env t)).
  - unfold rebuild_materialized. apply trun_keeps; [done|]. intros [] s' Hs. by eapply (rebuild_keeps env).
  - apply trun_keeps; [done|]. intros [] s' Hs. by eapply access_keeps.
  - apply trun_keeps; [done|]. intros i s' Hs. apply (same_keeps _ s); [done|..];
      unfold record_contradiction_tx in Hs; destruct (canonical_memories a b);
      (destruct (head _); [by injection Hs as _ <-|]);
      apply tbind_Ok in Hs as ([] & s1 & Hs & Hret); injection Hret as _ <-;
      unfold insert_contradiction in Hs; (destruct (me_agent_org _ _); [|done]);
      repeat (match type of Hs with (if ?b then _ else _) = _ => destruct b; [done|] end); by injection Hs as <-.
  - apply trun_keeps; [done|]. intros [] s' Hs. apply (same_keeps _ s); [done|..];
      unfold resolve_contradiction_tx in Hs; (destruct (filter _ _);
      [destruct (is_empty _); [done|by injection Hs as <-]|]);
      repeat (match type of Hs with (if ?b then _ else _) = _ => destruct b; [done|] end); by injection Hs as <-.
Qed.

Lemma empty_journalled : journalled env empty_memory.
Proof. split; cbn; try constructor; set_solver. Qed.

Lemma calls_keep s : rtc call empty_memory s → journalled env s.
Proof.
  intros Hs. pose proof empty_journalled as Hj. induction Hs as [|x y z Hxy _ IH]; [done|].
  by apply IH, (call_keeps x).
Qed.
End histories.

(** C8: After every history of the store's calls from an empty store in which the clock
    of each call that writes the journal is later than every time in it, the id of a new
    memory has no history, and a forget is reverted only while its memory is gone:
    [rebuild_materialized] succeeds and puts back every row of the agent, with its
    embedding, its clocks reset to the time it was written; the rows of other agents and
    the journal are left alone. The last condition is needed: after a second revert of
    one forget the replay fails ([second_revert_breaks_rebuild]). *)
Theorem rebuild_restores_rows (env : MemEnv) `{Embedder} (agent : AgentId) (s : memory)
    (Hs : rtc (call env) empty_memory s) :
  ∃ s', rebuild_materialized env agent s = (Ok tt, s') ∧
    memory_events s' = memory_events s ∧ contradiction_events s' = contradiction_events s ∧
    ∀ id, memory_row id s'
          = (λ r, if decide (mm_agent_id r = agent) then rested r else r) <$> memory_row id s.
Proof.
  destruct (rebuild_ok env agent s (calls_keep env s Hs)) as (s' & Hs' & (_ & _ & Hev & Hcn) & Hrow).
  exists s'. split_and!; try done. unfold rebuild_materialized, trun. by rewrite Hs'.
Qed.

(** ** A run *)

Module MemoryDemo.

#[export] Instance flat : Embedder := λ _, Ok (repeat 0%Z EMBEDDING_DIMENSIONS).

Definition world : MemEnv :=
  mkMemEnv 0 (λ a, if (a <? 10)%N then Some 1%N else None) (λ c, if (c =? 20)%N then Some 1%N else None)
    (λ _, true).
Definition content (s : string) : MemoryContent := mkMemoryContent (lit s).

Definition write (t : Z) (mid eid : N) (pinned : bool) (s : memory) : memory :=
  (apply (at_time world t) privileged mid eid
     (MutWrite 2%N KCollaborator (content "prefers short answers") Tentative pinned (Some 20%N) (SrcTurn 5%N)) s).2.
Definition forget (t : Z) (mid eid : N) (s : memory) : memory :=
  (apply (at_time world t) privileged 0%N eid (MutForget 2%N mid SrcOperator) s).2.
Definition validate (t : Z) (mid vid eid : N) (s : memory) : memory :=
  (trun (record_validation_tx (at_time world t) privileged vid eid 2%N mid (OriginAgent 5%N) None) s).2.
Definition revert (t : Z) (event inverse : N) (s : memory) : memory :=
  (run_revert_event (at_time world t) 2%N event inverse s).2.

(** A memory written, validated and pinned; another forgotten, then restored. *)
Definition written : memory := write 2 101 201 false (write 1 100 200 false empty_memory).
Definition validated : memory := validate 3 100 300 202 written.
Definition pinned_ : memory := (set_pinned (at_time world 4) 203%N 2%N 100%N true validated).2.
Definition forgotten : memory := forget 5 101 204 pinned_.
Definition restored : memory := revert 6 204 205 forgotten.

Lemma ticks_dec t s : forallb (λ e, (ev_created_at e <? t)%Z) (memory_events s) = true → ticks t s.
Proof. intros Hf%forallb_Forall e He. rewrite Forall_forall in Hf. apply Z.ltb_lt. by apply Hf. Qed.

Lemma restored_reachable : rtc (call world) empty_memory restored.
Proof.
  apply (rtc_l _ _ (write 1 100 200 false empty_memory)).
  { apply (call_apply world 1); [by apply ticks_dec|done]. }
  apply (rtc_l _ _ written).
  { apply (call_apply world 2); [by apply ticks_dec; vm_compute|by vm_compute]. }
  apply (rtc_l _ _ validated).
  { apply (call_validate world 3). by apply ticks_dec; vm_compute. }
  apply (rtc_l _ _ pinned_).
  { apply (call_pin world 4). by apply ticks_dec; vm_compute. }
  apply (rtc_l _ _ forgotten).
  { apply (call_apply world 5 privileged 0%N 204%N (MutForget 2%N 101%N SrcOperator) pinned_);
      [by apply ticks_dec; vm_compute|done]. }
  apply rtc_once, (call_revert world 6); [by apply ticks_dec; vm_compute|].
  assert (Hl : res_ok (load_event 2%N 204%N forgotten)
               = Some (mkMemoryEvent 204 2 1 101 SrcOperator 5 (PForget (content "prefers short answers"))))
    by by vm_compute.
  intros evt before Hevt _. change (load_event 2%N 204%N forgotten = Ok evt) in Hevt. rewrite Hevt in Hl.
  injection Hl as ->. by vm_compute.
Qed.

(** The clocks of a validated memory do not survive a rebuild. *)
Example validation_lost :
  (mm_last_validated_at <$> memory_row 100%N restored,
   mm_last_validated_at <$> memory_row 100%N (rebuild_materialized world 2%N restored).2,
   (λ r, (mm_state r, mm_pinned r)) <$> memory_row 100%N (rebuild_materialized world 2%N restored).2)
  = (Some 3%Z, Some 1%Z, Some (Held, true)).
Proof. by vm_compute. Qed.

(** A forget reverted twice leaves a journal that no longer replays. *)
Example second_revert_breaks_rebuild :
  (rebuild_materialized world 2%N restored).1 = Ok tt ∧
  (rebuild_materialized world 2%N (revert 7 204 206 restored)).1 = Err (MemDb "agent_memories_pkey").
Proof. by split; vm_compute. Qed.

End MemoryDemo.

Lemma rebuild_restores_rows_witness :
  (∃ s', rebuild_materialized MemoryDemo.world 2%N MemoryDemo.restored = (Ok tt, s') ∧
    memory_events s' = memory_events MemoryDemo.restored ∧
    contradiction_events s' = contradiction_events MemoryDemo.restored ∧
    ∀ id, memory_row id s'
          = (λ r, if decide (mm_agent_id r = 2%N) then rested r else r) <$> memory_row id MemoryDemo.restored) ∧
  mm_id <$> agent_memories MemoryDemo.restored = [100%N; 101%N].
Proof.
  split; [exact (rebuild_restores_rows MemoryDemo.world 2%N _ MemoryDemo.restored_reachable)|by vm_compute].
Defined.
