(* ===== verification/MemorySafety.v ===== *)
(** * What may change a memory

    Calls that are not an operator's: the agent's own mutations and validations, and
    the sweeps.  They leave alone every pinned row, every row of another agent and
    every row outside the organisations the caller sees.  Then the eviction: which
    rows it takes, and how many it leaves. *)

From Stdlib Require Import ZArith Lia String.
From stdpp Require Import base list strings sets sorting relations.
From S2P Require Import Prelude Program Types Memory MemoryLaws.
Open Scope nat_scope.

(** ** Calls that are not an operator's *)

Definition mutation_agent (m : MemoryMutation) : AgentId :=
  match m with MutWrite a _ _ _ _ _ _ | MutUpdate a _ _ _ _ | MutForget a _ _ => a end.
Definition mutation_source_of (m : MemoryMutation) : MutationSource :=
  match m with MutWrite _ _ _ _ _ _ src | MutUpdate _ _ _ _ src | MutForget _ _ src => src end.

Lemma inserted_ids env sees eid ag id source now p s s' :
  insert_event env sees eid ag id source now p s = Ok (tt, s') → agent_memories s' = agent_memories s.
Proof. by intros (_ & ? & _ & _ & _ & _ & _ & _ & _ & ->)%insert_event_Ok. Qed.

Lemma not_bypass source : source ≠ SrcOperator → bypasses_pin source = false.
Proof. by destruct source. Qed.

Section calls.
Context `{Embedder} (sees : Scope) (agent : AgentId).
Implicit Types (s : memory) (r : MemoryRow).

(** The calls of one agent and of the librarian on its behalf. *)
Inductive agent_call : memory → memory → Prop :=
| ac_apply env mid eid m s :
    mutation_agent m = agent → mutation_source_of m ≠ SrcOperator →
    agent_call s (apply env sees mid eid m s).2
| ac_validate env vid eid id request detail s :
    agent_call s (trun (record_validation_tx env sees vid eid agent id (OriginAgent request) detail) s).2
| ac_decay env eids cutoff s : agent_call s (trun (decay_validated_tx env eids agent cutoff) s).2
| ac_mature env eids cutoff s : agent_call s (trun (mature_tentative_tx env eids agent cutoff) s).2
| ac_evict env eids quota s : agent_call s (trun (evict_overflow_tx env eids agent quota) s).2.

(** A row the calls may not touch. *)
Definition shielded r : Prop := mm_pinned r = true ∨ mm_agent_id r ≠ agent.

Definition keeps_row (id : MemoryId) s s' : Prop :=
  NoDup (ids s') ∧ memory_row id s' = memory_row id s.

Lemma locked_other id target source r prior s s' :
  source ≠ SrcOperator → memory_row id s = Some r → shielded r →
  lock_existing sees agent target source s = Ok (prior, s') → id ≠ target.
Proof.
  intros Hsrc Hr Hsh Hl ->. apply lock_existing_Ok in Hl as (_ & Hp & _ & Ha & Hpin & _).
  assert (prior = r) as -> by congruence. destruct Hsh as [Hsh|Hsh]; [|done].
  specialize (Hpin Hsh). rewrite not_bypass in Hpin; done.
Qed.

Lemma update_leaves f id target s s' :
  keeps_id f → NoDup (ids s) → id ≠ target → update_memory f target s = Ok (tt, s') → keeps_row id s s'.
Proof.
  intros Hf Hnd Hid Hu. split.
  - apply update_memory_Ok in Hu as [_ ->]. cbn. by rewrite ids_update.
  - rewrite (memory_row_updated _ _ _ _ _ Hu) by done. by rewrite decide_False.
Qed.

Lemma drop_leaves id target s :
  NoDup (ids s) → id ≠ target → keeps_row id s (drop_memories (λ r, mm_id r = target) s).
Proof.
  intros Hnd Hid. split; [by apply NoDup_fmap_filter|]. unfold memory_row. cbn. rewrite row_of_filter by done.
  destruct (row_of id _) as [r|] eqn:E; cbn; [|done]. apply row_of_Some in E as [_ E].
  by rewrite decide_True by congruence.
Qed.

Lemma keeps_row_of id s s1 s' :
  agent_memories s1 = agent_memories s → keeps_row id s1 s' → keeps_row id s s'.
Proof. intros Hm [? Hr]. split; [done|]. rewrite Hr. unfold memory_row. by rewrite Hm. Qed.

Lemma apply_leaves env mid eid m s id r :
  mutation_agent m = agent → mutation_source_of m ≠ SrcOperator →
  NoDup (ids s) → memory_row id s = Some r → shielded r → keeps_row id s (apply env sees mid eid m s).2.
Proof.
  intros Hag Hsrc Hnd Hr Hsh. unfold apply. destruct (_ ;;? _) as [e| |]; [|by split..].
  apply (trun_keeps (keeps_row id s)); [by split|]. intros o s' Hs. unfold apply_in_tx in Hs.
  destruct m as [ag kind c st pin subj src|ag target c st src|ag target src]; cbn in Hag, Hsrc; subst ag.
  - apply tbind_Ok in Hs as (v & s0 & He & Hs). unfold tlift in He. apply res_bind_Ok in He as (? & _ & [= <- <-]).
    unfold apply_write in Hs. apply tbind_Ok in Hs as ([] & s0 & Hs0 & Hs).
    assert (s0 = s) as -> by (destruct subj; [case_match|]; unfold tret, terr in *; by simplify_eq).
    apply tbind_Ok in Hs as ([] & s1 & Hins & Hs). apply tbind_Ok in Hs as ([] & s2 & Hmem & Hs).
    apply tbind_Ok in Hs as (row & s3 & Hret & Hs). unfold tret in Hs. injection Hs as _ <-.
    apply returning_Ok in Hret as (-> & _ & _). apply inserted_ids in Hins.
    apply insert_memory_Ok in Hmem as (org & _ & _ & Habs & ->). cbn in Habs.
    unfold memory_row in Habs. rewrite Hins in Habs. split; cbn; rewrite Hins.
    + rewrite fmap_app. apply NoDup_snoc; [done|]. by apply row_of_None.
    + unfold memory_row. cbn. rewrite row_of_snoc. unfold memory_row in Hr. by rewrite Hr.
  - apply tbind_Ok in Hs as (v & s0 & He & Hs). unfold tlift in He. apply res_bind_Ok in He as (? & _ & [= <- <-]).
    unfold apply_update in Hs. apply tbind_Ok in Hs as (prior & s0 & Hl & Hs).
    pose proof (locked_other id target src r prior s s0 Hsrc Hr Hsh Hl) as Hid.
    apply lock_existing_Ok in Hl as (-> & _).
    apply tbind_Ok in Hs as ([] & s1 & Hins & Hs). apply tbind_Ok in Hs as ([] & s2 & Hupd & Hs).
    apply tbind_Ok in Hs as (row & s3 & Hret & Hs). unfold tret in Hs. injection Hs as _ <-.
    apply returning_Ok in Hret as (-> & _ & _). apply inserted_ids in Hins.
    apply (keeps_row_of id s s1); [done|]. refine (update_leaves _ id target s1 s2 _ _ Hid Hupd); [done|by rewrite Hins].
  - unfold apply_forget in Hs. apply tbind_Ok in Hs as (prior & s0 & Hl & Hs).
    pose proof (locked_other id target src r prior s s0 Hsrc Hr Hsh Hl) as Hid.
    apply lock_existing_Ok in Hl as (-> & _).
    apply tbind_Ok in Hs as ([] & s1 & Hins & Hs). apply tbind_Ok in Hs as ([] & s2 & Hdel & Hs).
    unfold tret in Hs. injection Hs as _ <-. unfold delete_memory, tmod in Hdel. injection Hdel as <-.
    apply inserted_ids in Hins. apply (keeps_row_of id s s1); [done|]. apply drop_leaves; [by rewrite Hins|done].
Qed.
End calls.

Section safety.
Context `{Embedder} (sees : Scope) (agent : AgentId).
Implicit Types (s : memory) (r : MemoryRow).

Lemma validate_leaves env vid eid tid request detail s id r :
  NoDup (ids s) → memory_row id s = Some r → shielded agent r →
  keeps_row id s (trun (record_validation_tx env sees vid eid agent tid (OriginAgent request) detail) s).2.
Proof.
  intros Hnd Hr Hsh. apply (trun_keeps (keeps_row id s)); [by split|]. intros o s' Hs.
  unfold record_validation_tx in Hs. cbn zeta in Hs. apply tbind_Ok in Hs as (prior & s0 & Hl & Hs).
  assert (Hsrc : mutation_source (OriginAgent request) ≠ SrcOperator) by done.
  pose proof (locked_other sees agent id tid _ r prior s s0 Hsrc Hr Hsh Hl) as Hid.
  apply lock_existing_Ok in Hl as (-> & _). apply tbind_Ok in Hs as ([] & s1 & Hval & Hs).
  assert (Hm : agent_memories s1 = agent_memories s).
  { unfold insert_validation in Hval. destruct (me_agent_org env agent); [|done].
    repeat (match type of Hval with (if ?b then _ else _) = _ => destruct b; [done|] end). by injection Hval as <-. }
  apply tbind_Ok in Hs as ([] & s2 & Hins & Hs). apply tbind_Ok in Hs as ([] & s3 & Hupd & Hs).
  apply returning_Ok in Hs as (-> & _ & _). apply inserted_ids in Hins. rewrite Hm in Hins.
  apply (keeps_row_of id s s2); [done|]. refine (update_leaves _ id tid s2 s3 _ _ Hid Hupd); [done|by rewrite Hins].
Qed.

(** A sweep leaves the rows it does not visit. *)
Lemma for_rows_leaves body eids rows n s id k s' :
  (∀ eid r s s', NoDup (ids s) → id ≠ mm_id r → body eid r s = Ok (tt, s') → keeps_row id s s') →
  NoDup (ids s) → id ∉ mm_id <$> rows → for_rows body eids rows n s = Ok (k, s') → keeps_row id s s'.
Proof.
  intros Hbody. revert n s. induction rows as [|r rows IH]; intros n s Hnd Hid Hs; cbn in Hs.
  { unfold tret in Hs. injection Hs as _ <-. by split. }
  cbn in Hid. rewrite not_elem_of_cons in Hid. destruct Hid as [Hid Hrows].
  apply tbind_Ok in Hs as (r' & s1 & Hd & Hs). unfold tlift in Hd. apply res_bind_Ok in Hd as (? & Hd & [= <- <-]).
  apply decode_memory_row_Ok in Hd as (-> & _ & _). apply tbind_Ok in Hs as ([] & s2 & Hb & Hs).
  destruct (Hbody _ _ _ _ Hnd Hid Hb) as [Hnd2 Hrow]. destruct (IH _ _ Hnd2 Hrows Hs) as [? Hrow']. split; [done|].
  by rewrite Hrow'.
Qed.

Lemma hold_leaves env id eid r s s' :
  NoDup (ids s) → id ≠ mm_id r → hold env eid r s = Ok (tt, s') → keeps_row id s s'.
Proof.
  intros Hnd Hid Hs. unfold hold in Hs. apply tbind_Ok in Hs as ([] & s1 & Hins & Hupd). apply inserted_ids in Hins.
  apply (keeps_row_of id s s1); [done|]. refine (update_leaves _ id (mm_id r) s1 s' _ _ Hid Hupd); [done|by rewrite Hins].
Qed.

Lemma evict_leaves env id eid r s s' :
  NoDup (ids s) → id ≠ mm_id r → evict_one_row env agent eid r s = Ok (tt, s') → keeps_row id s s'.
Proof.
  intros Hnd Hid Hs. unfold evict_one_row in Hs. apply tbind_Ok in Hs as ([] & s1 & Hins & Hdel).
  apply inserted_ids in Hins. unfold delete_memory, tmod in Hdel. injection Hdel as <-.
  apply (keeps_row_of id s s1); [done|]. apply drop_leaves; [by rewrite Hins|done].
Qed.

(** A row that is swept is one of the agent's, unpinned. *)
Lemma not_swept s id r (rows : list MemoryRow) :
  NoDup (ids s) → memory_row id s = Some r → shielded agent r →
  (∀ x, x ∈ rows → x ∈ agent_memories s ∧ mm_agent_id x = agent ∧ mm_pinned x = false) → id ∉ mm_id <$> rows.
Proof.
  intros Hnd Hr Hsh Hrows (x & -> & Hx)%list_elem_of_fmap. destruct (Hrows x Hx) as (Hin & Ha & Hp).
  assert (x = r) as ->.
  { apply row_of_Some in Hr as [Hr Heq]. by apply (NoDup_fmap_eq mm_id (agent_memories s)). }
  destruct Hsh; congruence.
Qed.

Lemma agent_call_leaves s s' id r :
  agent_call sees agent s s' → NoDup (ids s) → memory_row id s = Some r → shielded agent r → keeps_row id s s'.
Proof.
  intros Hc Hnd Hr Hsh. destruct Hc as [env mid eid m s Ha Hsrc|env vid eid tid request detail s|env eids cutoff s
    |env eids cutoff s|env eids quota s].
  - by apply (apply_leaves sees agent env mid eid m s id r).
  - by apply (validate_leaves _ _ _ _ _ _ _ id r).
  - apply (trun_keeps (keeps_row id s)); [by split|]. intros k s' Hs.
    refine (for_rows_leaves _ _ _ _ s id k s' (hold_leaves env id) Hnd _ Hs).
    apply (not_swept s id r); [done..|]. intros x [Hx Hin]%list_elem_of_filter. unfold decayable in Hx. by bools.
  - apply (trun_keeps (keeps_row id s)); [by split|]. intros k s' Hs.
    refine (for_rows_leaves _ _ _ _ s id k s' (hold_leaves env id) Hnd _ Hs).
    apply (not_swept s id r); [done..|]. intros x [Hx Hin]%list_elem_of_filter. unfold mature_ready in Hx. by bools.
  - apply (trun_keeps (keeps_row id s)); [by split|]. intros k s' Hs. unfold evict_overflow_tx in Hs.
    destruct (_ <=? _); [injection Hs as _ <-; by split|].
    apply tbind_Ok in Hs as (n & s1 & Hs & Hret). unfold tret in Hret. injection Hret as _ <-.
    refine (for_rows_leaves _ _ _ _ s id n s1 (evict_leaves env id) Hnd _ Hs).
    apply (not_swept s id r); [done..|]. intros x Hx. apply (evictable_sub agent s).
    apply elem_of_take in Hx as (i & Hx & _). by apply list_elem_of_lookup_2 in Hx.
Qed.
End safety.

(** However many calls an agent and the librarian make on its behalf, a pinned row
    and a row of another agent stay exactly as they were; only an operator's call can
    change them. *)
Theorem calls_respect_pins_and_owners `{Embedder} (sees : Scope) (agent : AgentId) (s s' : memory)
    (Hnd : NoDup (ids s)) (Hs : rtc (agent_call sees agent) s s') (id : MemoryId) (r : MemoryRow)
    (Hr : memory_row id s = Some r) (Hsh : mm_pinned r = true ∨ mm_agent_id r ≠ agent) :
  memory_row id s' = Some r.
Proof.
  induction Hs as [|x y z Hxy _ IH]; [done|].
  destruct (agent_call_leaves sees agent x y id r Hxy Hnd Hr Hsh) as [Hnd' Hr']. apply IH; [done|by rewrite Hr'].
Qed.

(** ** Eviction *)

Section evict.
Context (env : MemEnv) (agent : AgentId) (org : OrgId) (eids : nat → MemoryEventId).
Hypothesis (Horg : me_agent_org env agent = Some org).
Hypothesis (Hinj : ∀ i j, eids i = eids j → i = j).
Implicit Types (s : memory) (r : MemoryRow).

Definition logged (e : EventRow) : MemoryId * MutationKind := (ev_target e, ev_mutation e).

Lemma evict_one_ok r s n :
  eids n ∉ ev_id <$> memory_events s →
  ∃ e, ev_id e = eids n ∧ logged e = (mm_id r, KForget) ∧
    evict_one_row env agent (eids n) r s
    = Ok (tt, drop_memories (λ x, mm_id x = mm_id r) (set_events (memory_events s ++ [e]) s)).
Proof.
  intros Hid.
  exists (event_row (eids n) agent org (mm_id r) SrcLibrarian (me_now env) (PForget (row_content r))).
  split; [done|]. split; [done|].
  unfold evict_one_row, tbind, insert_event. rewrite Horg. cbn -[drop_memories].
  rewrite (bool_decide_false (eids n ∈ _)) by done. cbn -[drop_memories]. done.
Qed.

Lemma evict_rows_ok rows n s :
  Forall (λ r, is_ok (decode_memory_row r) = true) rows → (∀ k, n ≤ k → eids k ∉ ev_id <$> memory_events s) →
  ∃ k s', for_rows (evict_one_row env agent) eids rows n s = Ok (k, s') ∧
    agent_memories s' = filter (λ r, mm_id r ∉ mm_id <$> rows) (agent_memories s) ∧
    logged <$> memory_events s' = (logged <$> memory_events s) ++ ((λ r, (mm_id r, KForget)) <$> rows).
Proof.
  revert n s. induction rows as [|r rows IH]; intros n s Hok Hfresh; cbn [for_rows].
  { exists n, s. split_and!; [done| |by rewrite app_nil_r]. symmetry. apply filter_all, Forall_forall.
    intros x _. apply not_elem_of_nil. }
  apply Forall_cons in Hok as [Hr Hok]. destruct (evict_one_ok r s n) as (e & He & Hlog & Hrun); [by apply Hfresh|].
  destruct (IH (S n) (drop_memories (λ x, mm_id x = mm_id r) (set_events (memory_events s ++ [e]) s)))
    as (k & s' & Hs' & Hm & Hev); [done| |].
  { intros k Hk. cbn. rewrite fmap_app, elem_of_app. intros [Hin|Hin].
    - apply (Hfresh k); [lia|done].
    - cbn in Hin. apply list_elem_of_singleton in Hin. rewrite He in Hin. apply Hinj in Hin. lia. }
  exists k, s'. split_and!.
  - unfold tbind, tlift. destruct (decode_memory_row r) as [r'| |] eqn:Ed; [|done..].
    apply decode_memory_row_Ok in Ed as (-> & _ & _). cbn -[drop_memories evict_one_row].
    rewrite Hrun. cbn -[drop_memories]. done.
  - rewrite Hm. cbn. rewrite list_filter_filter. apply list_filter_iff. intros x. rewrite not_elem_of_cons. tauto.
  - rewrite Hev. cbn. rewrite fmap_app. cbn. by rewrite Hlog, <-app_assoc.
Qed.
End evict.

#[export] Instance evict_before_trans : Transitive evict_before.
Proof. intros a b c. unfold evict_before. lia. Qed.
#[export] Instance evict_before_total : Total evict_before.
Proof. intros a b. unfold evict_before. lia. Qed.

Lemma length_filter_both {A} (P : A → Prop) `{∀ x, Decision (P x)} (l : list A) :
  length (filter P l) + length (filter (λ x, ¬ P x) l) = length l.
Proof. induction l as [|x l IH]; [done|]. rewrite !filter_cons. repeat case_decide; cbn; tauto || lia. Qed.

Section evicted.
Context (agent : AgentId) (quota : nat) (s : memory).
Hypothesis (Hnd : NoDup (ids s)).

Let total := length (agent_rows agent s).
Let taken := take (total - quota) (evictable agent s).
Definition pinned_count : nat := length (filter (λ r, mm_pinned r = true) (agent_rows agent s)).

Lemma length_evictable : length (evictable agent s) = total - pinned_count.
Proof.
  unfold evictable, total, pinned_count. rewrite (Permutation_length (merge_sort_Permutation _ _)).
  pose proof (length_filter_both (λ r, mm_pinned r = true) (agent_rows agent s)) as Hl.
  rewrite (list_filter_iff (λ r, ¬ mm_pinned r = true) (λ r, mm_pinned r = false)) in Hl
    by (intros x; apply not_true_iff_false).
  lia.
Qed.

Lemma taken_evictable r : r ∈ taken → r ∈ evictable agent s.
Proof. intros (i & Hr & _)%elem_of_take. by apply list_elem_of_lookup_2 in Hr. Qed.

Lemma taken_id r : r ∈ agent_memories s → mm_id r ∈ mm_id <$> taken → r ∈ taken.
Proof.
  intros Hr (x & Heq & Hx)%list_elem_of_fmap.
  assert (x = r) as <-; [|done]. apply (NoDup_fmap_eq mm_id (agent_memories s)); [done| |done|done].
  by apply (evictable_sub agent s), taken_evictable.
Qed.

(** What is left of the agent's rows. *)
Lemma left_count :
  length (filter (λ r, mm_agent_id r = agent) (filter (λ r, mm_id r ∉ mm_id <$> taken) (agent_memories s)))
  = total `min` (quota `max` pinned_count).
Proof.
  rewrite list_filter_filter.
  assert (Hl : length (filter (λ r, mm_agent_id r = agent ∧ mm_id r ∉ mm_id <$> taken) (agent_memories s))
               + length taken = total).
  { unfold total. rewrite <-(length_filter_both (λ r, mm_id r ∉ mm_id <$> taken) (agent_rows agent s)).
    unfold agent_rows. rewrite !list_filter_filter. f_equal.
    - f_equal. apply list_filter_iff. tauto.
    - rewrite <-(length_fmap mm_id). symmetry. rewrite <-(length_fmap mm_id). symmetry.
      apply Permutation_length, NoDup_Permutation.
      + unfold taken. rewrite <-firstn_map. apply (sublist_NoDup _ (mm_id <$> evictable agent s));
          [by apply NoDup_evictable|apply sublist_take].
      + by apply NoDup_fmap_filter.
      + intros id. split.
        * intros (r & -> & Hr)%list_elem_of_fmap. apply list_elem_of_fmap_2, list_elem_of_filter.
          pose proof (evictable_sub agent s r (taken_evictable r Hr)) as (Hin & Ha & _).
          split; [|done]. split; [|done]. intros Hn. apply Hn. by apply list_elem_of_fmap_2.
        * intros (r & -> & [[Hn _] _]%list_elem_of_filter)%list_elem_of_fmap. by apply dec_stable. }
  assert (Ht : length taken = (total - quota) `min` (total - pinned_count))
    by (unfold taken; by rewrite length_take, length_evictable).
  assert (pinned_count ≤ total) by (unfold pinned_count, total; apply length_filter).
  lia.
Qed.

(** What is left unpinned is to be evicted after what was taken. *)
Lemma taken_first r r' :
  r ∈ taken → r' ∈ evictable agent s → mm_id r' ∉ mm_id <$> taken → evict_before r r'.
Proof.
  intros Hr Hr' Hn.
  assert (Hs : StronglySorted evict_before (evictable agent s)) by (apply StronglySorted_merge_sort; apply _).
  rewrite <-(take_drop (total - quota) (evictable agent s)) in Hs, Hr'. fold taken in Hs, Hr'.
  apply elem_of_app in Hr' as [Hr'|Hr']; [destruct Hn; by apply list_elem_of_fmap_2|].
  by apply (StronglySorted_app_1_elem_of _ _ _ _ _ Hs).
Qed.
End evicted.

(** An eviction takes from an agent's unpinned rows just as many as exceed the
    quota, the lowest first in state, then in use; it leaves the lesser of what there
    was and the quota, or the pinned rows where they are more, and logs a forget for
    each row it took. *)
Theorem evict_overflow_exact (env : MemEnv) (eids : nat → MemoryEventId) (agent : AgentId) (org : OrgId)
    (quota : nat) (s : memory)
    (Horg : me_agent_org env agent = Some org) (Hinj : ∀ i j, eids i = eids j → i = j)
    (Hfresh : ∀ n, eids n ∉ ev_id <$> memory_events s) (Hnd : NoDup (ids s))
    (Hok : ∀ r, r ∈ agent_memories s → is_ok (decode_memory_row r) = true) :
  ∃ gone s', trun (evict_overflow_tx env eids agent quota) s = (Ok gone, s') ∧
    agent_memories s' = filter (λ r, mm_id r ∉ gone) (agent_memories s) ∧
    length (agent_rows agent s') = length (agent_rows agent s) `min` (quota `max` pinned_count agent s) ∧
    (∀ id, id ∈ gone → ∃ r, memory_row id s = Some r ∧ mm_agent_id r = agent ∧ mm_pinned r = false ∧
       ∀ r', r' ∈ agent_rows agent s' → mm_pinned r' = false → evict_before r r') ∧
    logged <$> memory_events s' = (logged <$> memory_events s) ++ ((λ id, (id, KForget)) <$> gone).
Proof.
  set (taken := take (length (agent_rows agent s) - quota) (evictable agent s)).
  assert (Hrun : ∃ s', trun (evict_overflow_tx env eids agent quota) s = (Ok (mm_id <$> taken), s') ∧
    agent_memories s' = filter (λ r, mm_id r ∉ mm_id <$> taken) (agent_memories s) ∧
    logged <$> memory_events s' = (logged <$> memory_events s) ++ ((λ r, (mm_id r, KForget)) <$> taken)).
  { unfold trun, evict_overflow_tx. destruct (length _ <=? quota) eqn:Eq.
    - bools. exists s. unfold taken. replace (length (agent_rows agent s) - quota) with 0 by lia. cbn.
      split_and!; [done| |by rewrite app_nil_r]. symmetry. apply filter_all, Forall_forall.
      intros x _. apply not_elem_of_nil.
    - destruct (evict_rows_ok env agent org eids Horg Hinj taken 0 s) as (k & s' & Hs' & Hm & Hev); [|done|].
      { apply Forall_forall. intros r Hr. apply Hok. by apply (evictable_sub agent s), (taken_evictable agent quota). }
      exists s'. unfold tbind. fold taken. rewrite Hs'. cbn. done. }
  destruct Hrun as (s' & Hs' & Hm & Hev). exists (mm_id <$> taken), s'. split_and!; [done|done| | |].
  - unfold agent_rows at 1. rewrite Hm. by apply left_count.
  - intros id (r & -> & Hr)%list_elem_of_fmap.
    pose proof (evictable_sub agent s r (taken_evictable agent quota s r Hr)) as (Hin & Ha & Hp).
    exists r. split_and!; [by apply row_of_elem|done|done|]. intros r' [Ha' Hr']%list_elem_of_filter Hp'.
    rewrite Hm in Hr'. apply list_elem_of_filter in Hr' as [Hn Hr'].
    apply (taken_first agent quota s r r' Hr); [|done]. unfold evictable, agent_rows.
    rewrite merge_sort_Permutation, !list_elem_of_filter. done.
  - rewrite Hev. f_equal. rewrite <-list_fmap_compose. done.
Qed.

(** ** A small world *)

Module SafetyDemo.

#[export] Instance flat : Embedder := λ _, Ok (repeat 0%Z EMBEDDING_DIMENSIONS).

Definition world : MemEnv := mkMemEnv 9 (λ _, Some 1%N) (λ _, Some 1%N) (λ _, true).
Definition row (id : N) (pinned : bool) (at_ : Z) : MemoryRow :=
  mkMemory id 2 1 KIdentity (lit "note") Held pinned None None at_ at_ at_ 0 None.
Definition memories : memory := mkMemoryTables [row 10 false 3; row 11 true 2; row 12 false 1] [] [] [].
Definition forgotten : memory := (apply world privileged 0%N 50%N (MutForget 2%N 10%N (SrcTurn 5%N)) memories).2.
Definition eids (n : nat) : N := (700 + N.of_nat n)%N.
Definition evicted : memory := (trun (evict_overflow_tx world eids 2%N 1) forgotten).2.

Lemma distinct : NoDup (ids memories).
Proof. repeat first [apply NoDup_nil_2|apply NoDup_cons_2; [set_solver|]]. Qed.

(** The quota of one memory is met by the pinned one alone. *)
Example quota_of_one : ids evicted = [11%N].
Proof. by vm_compute. Qed.

Lemma two_calls : rtc (agent_call privileged 2%N) memories evicted.
Proof.
  apply (rtc_l _ _ forgotten); [by apply ac_apply|]. apply rtc_once. by apply ac_evict.
Qed.

End SafetyDemo.

Lemma calls_respect_pins_and_owners_witness :
  memory_row 11%N SafetyDemo.evicted = Some (SafetyDemo.row 11 true 2).
Proof.
  apply (calls_respect_pins_and_owners privileged 2%N SafetyDemo.memories SafetyDemo.evicted
    SafetyDemo.distinct SafetyDemo.two_calls 11%N (SafetyDemo.row 11 true 2)); [done|by left].
Defined.

Lemma evict_overflow_exact_witness :
  ∃ gone s', trun (evict_overflow_tx SafetyDemo.world SafetyDemo.eids 2%N 2) SafetyDemo.memories = (Ok gone, s') ∧
    length (agent_rows 2%N s') = 2 ∧ logged <$> memory_events s' = ((λ id, (id, KForget)) <$> gone).
Proof.
  destruct (evict_overflow_exact SafetyDemo.world SafetyDemo.eids 2%N 1%N 2 SafetyDemo.memories)
    as (gone & s' & Hrun & _ & Hlen & _ & Hlog); [done| | |exact SafetyDemo.distinct| |].
  - intros i j Hij. unfold SafetyDemo.eids in Hij. lia.
  - intros n Hn. by apply elem_of_nil in Hn.
  - intros r Hr. cbn in Hr. rewrite !elem_of_cons in Hr. destruct Hr as [->|[->|[->|Hr]]]; [done..|].
    by apply elem_of_nil in Hr.
  - by exists gone, s'.
Defined.
