(* ===== verification/Composer.v ===== *)
(** * The memory section of the prompt

    [memory/composer.rs] and [memory/loader.rs]: which memories the prompt shows, the
    handles it gives them, and the ids the tools find behind the handles.
    Then what is shown, and within which bounds. *)

From Stdlib Require Import ZArith Lia Ascii String.
From stdpp Require Import base gmap list fin_maps strings sets sorting.
From S2P Require Import Prelude Program Types Colleagues Compaction Memory.

Open Scope nat_scope.

Definition STABLE_LAYER_MAX_BYTES : nat := 4096.
Definition CONTEXTUAL_LAYER_MAX_BYTES : nat := 4096.
Definition RENDER_LINE_OVERHEAD_BYTES : nat := 32.

Abbreviation SubjectNames := (gmap ColleagueId ColleagueName).

Definition MEMORY_TAG_OPEN : str := lit "<memory>" ++ nl.
Definition MEMORY_TAG_CLOSE : str := nl ++ lit "</memory>".
Definition KIND_ORDER : list MemoryKind := [KIdentity; KOther; KCollaborator; KProcedure; KOpen].

Record MemorySection := mkSection { ms_text : str; ms_handles : gmap Z MemoryId }.
Definition MemorySection_empty : MemorySection := mkSection [] ∅.
Definition section_resolve_handle (h : MemoryHandle) (s : MemorySection) : option MemoryId :=
  ms_handles s !! MemoryHandle_get h.

(** ** The layers *)

(** A stable sort by a comparison ([sort_by]). *)
Fixpoint insert_le {A} (le : A → A → bool) (x : A) (l : list A) : list A :=
  match l with
  | [] => [x]
  | y :: l' => if le x y then x :: l else y :: insert_le le x l'
  end.
Definition sort_le {A} (le : A → A → bool) (l : list A) : list A := foldr (insert_le le) [] l.

(** Higher states first, then newer. *)
Definition shown_before (a b : MemoryRow) : bool :=
  (priority (mm_state b) <? priority (mm_state a))
  || (priority (mm_state b) =? priority (mm_state a)) && (mm_created_at b <=? mm_created_at a)%Z.

Fixpoint trim_to_budget (rows : list MemoryRow) (budget total : nat) : list MemoryRow :=
  match rows with
  | [] => []
  | row :: rows' =>
      let line := str_len (mm_content row) + RENDER_LINE_OVERHEAD_BYTES in
      if budget <? total + line then [] else row :: trim_to_budget rows' budget (total + line)
  end.

Definition stable_candidate (r : MemoryRow) : bool := mm_pinned r || bool_decide (mm_kind r = KIdentity).
Definition select_stable_layer (rows : list MemoryRow) : list MemoryRow :=
  trim_to_budget (sort_le shown_before (filter (λ r, stable_candidate r = true) rows)) STABLE_LAYER_MAX_BYTES 0.

(** ** Handles *)

Definition take_handle {E} (cap overflow : string) (next : Z) : res E (MemoryHandle * Z) :=
  match MemoryHandle_try_from next with
  | Ok h => next' <-? expect (if in_u32 (next + 1) then Some (next + 1)%Z else None) overflow ; Ok (h, next')
  | _ => Panic cap
  end.

Fixpoint bind_reserved_handles {E} (reserved : list MemoryId) (handles : gmap Z MemoryId) (next : Z)
    : res E (gmap Z MemoryId * Z) :=
  match reserved with
  | [] => Ok (handles, next)
  | id :: reserved' =>
      p <-? take_handle "invariant: reserved handle count under cap" "invariant: handle counter cannot overflow" next ;
      bind_reserved_handles reserved' (<[MemoryHandle_get p.1 := id]> handles) p.2
  end.

(** The loop of [render]; the buckets by kind are read off the entries. *)
Fixpoint number_rows {E} (reserved : list MemoryId) (rows : list MemoryRow) (handles : gmap Z MemoryId) (next : Z)
    : res E (gmap Z MemoryId * list (MemoryHandle * MemoryRow)) :=
  match rows with
  | [] => Ok (handles, [])
  | row :: rows' =>
      if bool_decide (mm_id row ∈ reserved) then number_rows reserved rows' handles next
      else
        p <-? take_handle "invariant: handle count under cap (per-agent quota enforces it)"
                "invariant: handle counter cannot overflow under per-agent quota" next ;
        q <-? number_rows reserved rows' (<[MemoryHandle_get p.1 := mm_id row]> handles) p.2 ;
        Ok (q.1, (p.1, row) :: q.2)
  end.

(** ** Rendering *)

Definition about (subjects : SubjectNames) (row : MemoryRow) : str :=
  if bool_decide (mm_kind row = KCollaborator)
  then match mm_subject row ≫= λ c, subjects !! c with
       | Some name => lit "(about " ++ ColleagueName_as_str name ++ lit ") "
       | None => []
       end
  else [].

Definition render_entry (subjects : SubjectNames) (e : MemoryHandle * MemoryRow) : str :=
  lit "- [" ++ MemoryHandle_display e.1 ++ lit ", " ++ lit (MemoryState_as_str (mm_state e.2)) ++ lit "] "
  ++ about subjects e.2 ++ mm_content e.2 ++ nl.

Definition MEMORY_INTRO : str :=
  lit "Facts you previously remembered. Each entry has an `M-NN` handle " ++ [0x2014%N]
  ++ lit " pass it to `memory_update`, `memory_forget`, or `memory_validate` to revise the entry. Use `recall` to search for memories not listed below."
  ++ nl.

Definition render_kind (subjects : SubjectNames) (entries : list (MemoryHandle * MemoryRow)) (k : MemoryKind) : str :=
  let bucket := filter (λ e, mm_kind e.2 = k) entries in
  if is_empty bucket then []
  else nl ++ lit "### " ++ lit (display_label k) ++ nl ++ mjoin (render_entry subjects <$> bucket).

Definition render_text (subjects : SubjectNames) (entries : list (MemoryHandle * MemoryRow)) : str :=
  MEMORY_TAG_OPEN ++ lit "## Memory" ++ nl ++ MEMORY_INTRO
  ++ mjoin (render_kind subjects entries <$> KIND_ORDER) ++ MEMORY_TAG_CLOSE.

Definition render {E} (stable contextual : list MemoryRow) (reserved : list MemoryId) (subjects : SubjectNames)
    : res E MemorySection :=
  p <-? bind_reserved_handles reserved ∅ 1 ;
  q <-? number_rows reserved (stable ++ contextual) p.1 p.2 ;
  Ok (mkSection (if is_empty q.2 then [] else render_text subjects q.2) q.1).

Definition compose_memory_section {E} (rows contextual : list MemoryRow) (reserved : list MemoryId)
    (subjects : SubjectNames) : res E MemorySection :=
  let stable := select_stable_layer rows in
  let trimmed := trim_to_budget (filter (λ r, mm_id r ∉ mm_id <$> stable) contextual) CONTEXTUAL_LAYER_MAX_BYTES 0 in
  render stable trimmed reserved subjects.

(** ** Loading *)

Inductive MemoryError :=
| MemoryBackend (msg : str)
| MemoryAgent (msg : str)
| MemoryColleague (e : ColleagueError)
| MemoryLanguage (msg : str)
| MemoryRule (msg : str).

(** The text of the store's error. *)
Class MemoryErrorText := store_error_text : MemoryStoreError → str.

Record ColleagueRef := mkColleagueRef {
  cr_id : ColleagueId; cr_kind : ColleagueKind; cr_display_name : ColleagueName }.

Definition hydrate_subjects (roster : OrgId → res ColleagueError (list ColleagueRef)) (rows : list MemoryRow)
    : res MemoryError SubjectNames :=
  let about_rows := filter (λ r, is_Some (mm_subject r)) rows in
  match last about_rows with
  | None => Ok ∅
  | Some r =>
      let needed := omap mm_subject about_rows in
      refs <-? res_map_err MemoryColleague (roster (mm_org_id r)) ;
      Ok (foldl (λ out c, if bool_decide (cr_id c ∈ needed) then <[cr_id c := cr_display_name c]> out else out) ∅ refs)
  end.

Definition resolve_reserved_pair (contradiction : option ContradictionEventId) (s : memory) : list MemoryId :=
  match contradiction with
  | None => []
  | Some id => match read_contradiction id s with Some c => [cn_memory_a c; cn_memory_b c] | None => [] end
  end.

(** [load_stable]: [contradiction] is the one a resolution turn is about. *)
Definition load_stable `{MemoryErrorText} (roster : OrgId → res ColleagueError (list ColleagueRef))
    (agent : AgentId) (contradiction : option ContradictionEventId) (s : memory) : res MemoryError MemorySection :=
  rows <-? res_map_err (MemoryBackend ∘ store_error_text) (list_memories agent s) ;
  let reserved := resolve_reserved_pair contradiction s in
  subjects <-? hydrate_subjects roster rows ;
  compose_memory_section rows [] reserved subjects.

Definition loader_resolve_handle `{MemoryErrorText} (roster : OrgId → res ColleagueError (list ColleagueRef))
    (agent : AgentId) (contradiction : option ContradictionEventId) (h : MemoryHandle) (s : memory)
    : res MemoryError (option MemoryId) :=
  section <-? load_stable roster agent contradiction s ;
  Ok (section_resolve_handle h section).

(** * The handles of the memory section mean what the prompt shows

    A section that is composed lists, under numbered handles, the reserved ids and the
    rows it renders; the layers keep to their budgets and their order. *)

(** ** The layers *)

Section sort.
Context {A : Type} (le : A → A → bool).

Lemma insert_le_perm x l : insert_le le x l ≡ₚ x :: l.
Proof. induction l as [|y l IH]; cbn; [done|]. case_match; [done|]. rewrite IH. apply perm_swap. Qed.
Lemma sort_le_perm l : sort_le le l ≡ₚ l.
Proof. induction l as [|x l IH]; cbn; [done|]. by rewrite insert_le_perm, IH. Qed.

Lemma insert_le_sorted x l :
  (∀ a b, le a b = true ∨ le b a = true) → (∀ a b c, le a b = true → le b c = true → le a c = true) →
  StronglySorted (λ a b, le a b = true) l → StronglySorted (λ a b, le a b = true) (insert_le le x l).
Proof.
  intros Htot Htr. induction 1 as [|y l Hl IH Hy]; cbn; [by repeat constructor|].
  destruct (le x y) eqn:E.
  - constructor; [by constructor|]. constructor; [done|]. eapply Forall_impl; [done|]. intros z Hz. by eapply Htr.
  - constructor; [done|]. rewrite (insert_le_perm x l). constructor; [|done]. by destruct (Htot x y); congruence.
Qed.
Lemma sort_le_sorted l :
  (∀ a b, le a b = true ∨ le b a = true) → (∀ a b c, le a b = true → le b c = true → le a c = true) →
  StronglySorted (λ a b, le a b = true) (sort_le le l).
Proof. intros. induction l as [|x l IH]; cbn; [constructor|]. by apply insert_le_sorted. Qed.
End sort.

Lemma shown_before_total a b : shown_before a b = true ∨ shown_before b a = true.
Proof.
  unfold shown_before. rewrite !orb_true_iff, !andb_true_iff, !Nat.ltb_lt, !Nat.eqb_eq, !Z.leb_le. lia.
Qed.
Lemma shown_before_trans a b c : shown_before a b = true → shown_before b c = true → shown_before a c = true.
Proof.
  unfold shown_before. rewrite !orb_true_iff, !andb_true_iff, !Nat.ltb_lt, !Nat.eqb_eq, !Z.leb_le. lia.
Qed.

(** The bytes a layer is charged. *)
Definition layer_bytes (rows : list MemoryRow) : nat :=
  sum_list ((λ r, str_len (mm_content r) + RENDER_LINE_OVERHEAD_BYTES) <$> rows).

Lemma trim_prefix rows budget total : trim_to_budget rows budget total `prefix_of` rows.
Proof.
  revert total. induction rows as [|r rows IH]; intros total; [done|]. cbn [trim_to_budget].
  destruct (_ <? _); [apply prefix_nil|]. by apply prefix_cons.
Qed.

Lemma trim_bytes rows budget total :
  total ≤ budget → total + layer_bytes (trim_to_budget rows budget total) ≤ budget.
Proof.
  revert total. induction rows as [|r rows IH]; intros total Ht; cbn [trim_to_budget]; [cbn; lia|].
  destruct (_ <? _) eqn:E; [cbn; lia|]. bools. specialize (IH _ E). unfold layer_bytes in *. cbn. lia.
Qed.

(** A trimmed layer stops only where the next row does not fit. *)
Lemma trim_maximal rows budget total r rest :
  rows = trim_to_budget rows budget total ++ r :: rest →
  budget < total + layer_bytes (trim_to_budget rows budget total ++ [r]).
Proof.
  revert total. induction rows as [|x rows IH]; intros total; [by destruct (trim_to_budget _ _ _)|].
  cbn [trim_to_budget]. destruct (_ <? _) eqn:E.
  - cbn. intros [= -> _]. bools. unfold layer_bytes. cbn. lia.
  - cbn. intros [= Hr]. specialize (IH _ Hr). unfold layer_bytes in *. cbn. lia.
Qed.

Lemma stable_layer_ok rows :
  (∀ r, r ∈ select_stable_layer rows → r ∈ rows ∧ (mm_pinned r = true ∨ mm_kind r = KIdentity)) ∧
  StronglySorted (λ a b, shown_before a b = true) (select_stable_layer rows) ∧
  layer_bytes (select_stable_layer rows) ≤ STABLE_LAYER_MAX_BYTES.
Proof.
  unfold select_stable_layer. set (l := sort_le _ _).
  destruct (trim_prefix l STABLE_LAYER_MAX_BYTES 0) as [rest Hrest]. split_and!.
  - intros r Hr. assert (Hl : r ∈ l) by (rewrite Hrest; set_solver). unfold l in Hl.
    rewrite sort_le_perm in Hl. apply list_elem_of_filter in Hl as [Hc Hin]. split; [done|].
    unfold stable_candidate in Hc. apply orb_true_iff in Hc as [?|?]; [by left|right; by bools].
  - assert (Hs : StronglySorted (λ a b, shown_before a b = true) l)
      by (apply sort_le_sorted; [apply shown_before_total|apply shown_before_trans]).
    rewrite Hrest in Hs. by apply StronglySorted_app_1_l in Hs.
  - pose proof (trim_bytes l STABLE_LAYER_MAX_BYTES 0) as Hb. lia.
Qed.

(** ** Handles *)

(** [n] handles given out, to the ids [l] in order. *)
Definition bound_to (handles : gmap Z MemoryId) (l : list MemoryId) : Prop :=
  ∀ z, handles !! z = if (1 <=? z)%Z then l !! (Z.to_nat z - 1) else None.

Lemma bound_to_snoc handles l id :
  bound_to handles l → bound_to (<[Z.of_nat (S (length l)) := id]> handles) (l ++ [id]).
Proof.
  intros Hb z. destruct (decide (z = Z.of_nat (S (length l)))) as [->|Hz].
  - rewrite lookup_insert_eq. replace (1 <=? _)%Z with true by (symmetry; apply Z.leb_le; lia).
    rewrite Nat2Z.id. replace (S (length l) - 1) with (length l) by lia.
    rewrite lookup_app_r by lia. by rewrite Nat.sub_diag.
  - rewrite lookup_insert_ne by done. rewrite (Hb z). destruct (1 <=? z)%Z eqn:E; [|done]. bools.
    destruct (decide (Z.to_nat z - 1 < length l)) as [Hlt|Hge]; [by rewrite lookup_app_l by lia|].
    rewrite !lookup_ge_None_2; [done| |]; rewrite ?length_app; cbn; lia.
Qed.

Lemma take_handle_ok {E} cap ovf n :
  (Z.of_nat n < MemoryHandle_MAX)%Z → take_handle (E := E) cap ovf (Z.of_nat (S n)) = Ok (mkMemoryHandle (Z.of_nat (S n)), Z.of_nat (S (S n))).
Proof.
  unfold MemoryHandle_MAX. intros Hn. unfold take_handle, MemoryHandle_try_from, MemoryHandle_MAX.
  replace (Z.of_nat (S n) =? 0)%Z with false by (symmetry; apply Z.eqb_neq; lia).
  replace (9999 <? Z.of_nat (S n))%Z with false by (symmetry; apply Z.ltb_ge; lia). cbn [orb].
  unfold in_u32, U32_MAX. replace (0 <=? Z.of_nat (S n) + 1)%Z with true by (symmetry; apply Z.leb_le; lia).
  replace (Z.of_nat (S n) + 1 <=? 4294967295)%Z with true by (symmetry; apply Z.leb_le; lia).
  cbn [andb expect res_bind]. do 2 f_equal. lia.
Qed.

Lemma bind_reserved_ok {E} reserved handles l :
  bound_to handles l → (Z.of_nat (length l + length reserved) ≤ MemoryHandle_MAX)%Z →
  ∃ handles', bind_reserved_handles (E := E) reserved handles (Z.of_nat (S (length l)))
              = Ok (handles', Z.of_nat (S (length (l ++ reserved)))) ∧ bound_to handles' (l ++ reserved).
Proof.
  revert handles l. induction reserved as [|id reserved IH]; intros handles l Hb Hlen; cbn [bind_reserved_handles length] in *.
  { exists handles. by rewrite app_nil_r. }
  rewrite take_handle_ok by lia. cbn [res_bind fst snd MemoryHandle_get].
  destruct (IH (<[Z.of_nat (S (length l)) := id]> handles) (l ++ [id])) as (h' & Hh & Hb').
  { by apply bound_to_snoc. }
  { rewrite length_app. cbn. lia. }
  rewrite length_app in Hh. cbn in Hh. rewrite Nat.add_1_r in Hh. rewrite <-app_assoc in Hh, Hb'. by exists h'.
Qed.

Lemma number_rows_ok {E} reserved rows handles l :
  bound_to handles l → (Z.of_nat (length l + length rows) ≤ MemoryHandle_MAX)%Z →
  ∃ handles' entries, number_rows (E := E) reserved rows handles (Z.of_nat (S (length l))) = Ok (handles', entries) ∧
    entries.*2 = filter (λ r, mm_id r ∉ reserved) rows ∧
    entries.*1 = (λ i, mkMemoryHandle (Z.of_nat (S i))) <$> seq (length l) (length entries) ∧
    bound_to handles' (l ++ (mm_id <$> entries.*2)).
Proof.
  revert handles l. induction rows as [|r rows IH]; intros handles l Hb Hlen; cbn [number_rows length] in *.
  { exists handles, []. cbn. by rewrite app_nil_r. }
  case_bool_decide as Hr.
  - destruct (IH handles l Hb) as (h' & es & -> & Hrows & Hh & Hb'); [lia|]. exists h', es.
    rewrite filter_cons, decide_False by tauto. done.
  - rewrite take_handle_ok by lia. cbn [res_bind fst snd MemoryHandle_get].
    destruct (IH (<[Z.of_nat (S (length l)) := mm_id r]> handles) (l ++ [mm_id r])) as (h' & es & Hes & Hrows & Hh & Hb').
    { by apply bound_to_snoc. }
    { rewrite length_app. cbn. lia. }
    rewrite length_app in Hes, Hh. cbn in Hes, Hh. rewrite Nat.add_1_r in Hes, Hh. rewrite Hes. cbn [res_bind fst snd].
    exists h', ((mkMemoryHandle (Z.of_nat (S (length l))), r) :: es).
    rewrite filter_cons, decide_True by done. split; [done|]. split; [cbn; by rewrite Hrows|].
    split; [cbn; by rewrite Hh|]. cbn. by rewrite <-app_assoc in Hb'.
Qed.

(** A section gives the reserved ids the first handles and the rows it shows the
    next ones, in order; a handle resolves to the id it stands for and to nothing else.
    It shows each row whose id is not reserved of the stable layer, which is pinned or
    about the agent itself, sorted and within its budget, then of the ranked layer. *)
Theorem section_handles {E} (rows contextual : list MemoryRow) (reserved : list MemoryId) (subjects : SubjectNames)
    (Hlen : (Z.of_nat (length reserved + length rows + length contextual) ≤ MemoryHandle_MAX)%Z) :
  ∃ section entries, compose_memory_section (E := E) rows contextual reserved subjects = Ok section ∧
    ms_text section = (if is_empty entries then [] else render_text subjects entries) ∧
    (∀ h, section_resolve_handle h section
          = if (1 <=? MemoryHandle_get h)%Z
            then (reserved ++ (mm_id <$> entries.*2)) !! (Z.to_nat (MemoryHandle_get h) - 1) else None) ∧
    entries.*1 = (λ i, mkMemoryHandle (Z.of_nat (S i))) <$> seq (length reserved) (length entries) ∧
    let stable := select_stable_layer rows in
    entries.*2 = filter (λ r, mm_id r ∉ reserved)
      (stable ++ trim_to_budget (filter (λ r, mm_id r ∉ mm_id <$> stable) contextual) CONTEXTUAL_LAYER_MAX_BYTES 0) ∧
    (∀ r, r ∈ stable → r ∈ rows ∧ (mm_pinned r = true ∨ mm_kind r = KIdentity)) ∧
    StronglySorted (λ a b, shown_before a b = true) stable ∧
    layer_bytes stable ≤ STABLE_LAYER_MAX_BYTES.
Proof.
  unfold compose_memory_section. cbn zeta. set (stable := select_stable_layer rows).
  set (trimmed := trim_to_budget _ CONTEXTUAL_LAYER_MAX_BYTES 0). unfold render.
  destruct (bind_reserved_ok (E := E) reserved ∅ []) as (h1 & Hh1 & Hb1).
  { intros z. rewrite lookup_empty. by destruct (1 <=? z)%Z. }
  { cbn [length]. lia. }
  cbn [length app] in Hh1, Hb1. rewrite (Hh1 : bind_reserved_handles reserved ∅ 1 = _). cbn [res_bind fst snd].
  assert (Hs : length stable + length trimmed ≤ length rows + length contextual).
  { apply Nat.add_le_mono.
    - unfold stable, select_stable_layer. etrans; [apply prefix_length, trim_prefix|].
      rewrite sort_le_perm. apply length_filter.
    - unfold trimmed. etrans; [apply prefix_length, trim_prefix|]. apply length_filter. }
  destruct (number_rows_ok (E := E) reserved (stable ++ trimmed) h1 reserved Hb1) as (h2 & es & Hes & Hrows & Hh & Hb2).
  { rewrite length_app. lia. }
  rewrite Hes. cbn [res_bind fst snd]. eexists _, es. split; [done|]. split; [done|].
  split; [intros h; apply Hb2|]. split; [done|]. split; [done|]. apply stable_layer_ok.
Qed.

(** Handles printed are read back. *)
Lemma handle_round_trip_checked :
  forallb (λ n, match MemoryHandle_parse (MemoryHandle_display (mkMemoryHandle (Z.of_nat (S n)))) with
                | Ok h => (MemoryHandle_get h =? Z.of_nat (S n))%Z
                | _ => false
                end) (seq 0 (Z.to_nat MemoryHandle_MAX)) = true.
Proof. by vm_compute. Qed.

(** Every handle is parsed from its printed form. *)
Theorem handle_round_trip (n : Z) (h : MemoryHandle) (Hh : MemoryHandle_try_from n = Ok h) (Hn : (0 ≤ n)%Z) :
  MemoryHandle_parse (MemoryHandle_display h) = Ok h.
Proof.
  unfold MemoryHandle_try_from in Hh. destruct (_ || _) eqn:E; [done|]. injection Hh as <-. bools.
  pose proof handle_round_trip_checked as Hc. rewrite forallb_Forall, Forall_forall in Hc.
  specialize (Hc (Z.to_nat n - 1)). cbv beta in Hc.
  replace (Z.of_nat (S (Z.to_nat n - 1))) with n in Hc by lia.
  destruct (MemoryHandle_parse _) as [[m]| |]; cbn in Hc.
  - f_equal. f_equal. apply Z.eqb_eq, Hc, elem_of_seq. lia.
  - discriminate Hc. apply elem_of_seq. lia.
  - discriminate Hc. apply elem_of_seq. lia.
Qed.

Lemma handle_round_trip_witness : MemoryHandle_parse (lit "M-12") = Ok (mkMemoryHandle 12).
Proof. exact (handle_round_trip 12 (mkMemoryHandle 12) eq_refl ltac:(lia)). Defined.

Module ComposerDemo.

Definition row (id : N) (kind : MemoryKind) (pinned : bool) (state : MemoryState) (at_ : Z) : MemoryRow :=
  mkMemory id 2 1 kind (lit "terse replies") state pinned None None at_ at_ at_ 0 None.
Definition rows : list MemoryRow :=
  [row 10 KIdentity false Held 1; row 11 KOther false Core 2; row 12 KOther true Validated 3; row 13 KIdentity false Held 4].

(** Not in the prompt form, and accepted. *)
Example handle_forms :
  (λ s, res_ok (MemoryHandle_parse (lit s))) <$> ["M-12"; "M-+12"; "M-0012"; "12"; "M-"; "M-0"; "M-10000"]%string
  = [Some (mkMemoryHandle 12); Some (mkMemoryHandle 12); Some (mkMemoryHandle 12); None; None; None; None].
Proof. by vm_compute. Qed.

End ComposerDemo.

Lemma section_handles_witness :
  ∃ section, compose_memory_section (E := Empty_set) ComposerDemo.rows [] [99%N] ∅ = Ok section ∧
    section_resolve_handle (mkMemoryHandle 2) section = Some 12%N.
Proof.
  destruct (section_handles (E := Empty_set) ComposerDemo.rows [] [99%N] ∅ ltac:(by vm_compute))
    as (section & es & Hc & _ & Hh & _ & Hrows & _).
  exists section. split; [done|]. rewrite Hh, Hrows. by vm_compute.
Defined.
