(* ===== verification/Profiles.v ===== *)
(** * The roster and the profile board

    [colleagues/render.rs], [colleagues/cache.rs], [colleagues/profile/]: the roster
    of an organisation and the blocks rendered from it, the board of profiles with
    its embeddings, and the two tools on it ([tools/system/profile_write.rs],
    [search_colleague.rs]).  A write of the board embeds between two transactions, so
    it is a program ([Prog]).
    Then what the board keeps. *)

From Stdlib Require Import ZArith QArith Lia Ascii String.
From stdpp Require Import base gmap list fin_maps strings sets sorting.
From S2P Require Import Prelude Program Types Queue Threads Colleagues Compaction Tools Agent Approvals Office Cache Memory Composer.

Open Scope nat_scope.

Definition COLLEAGUE_ROSTER_FETCH_MAX : nat := 1024.
Definition MAX_ROSTER_INLINE : nat := 256.
Definition COLLEAGUE_ROSTER_CACHE_CAP : nat := 256.
Definition MAX_ROLE : nat := 200.
Definition MAX_EXPERTISE : nat := 2048.
Definition MAX_PREFERENCES : nat := 2048.
Definition MAX_PROFILE_TEXT : nat := 5120.
Definition MAX_PROFILE_FETCH : nat := 256.
Definition PROFILE_SNIPPET_LEN : nat := 160.
Definition MAX_NOTES_PER_PARTICIPANT : nat := 3.
Definition SEARCH_COLLEAGUE_K : Z := 8.
Definition DEFAULT_SEARCH_COLLEAGUE_K : Z := 4.

(** ** The roster *)

(** The database's [lower] and the order of its collation. *)
Class Collation := { pg_lower : str → str; collate_le : str → str → bool }.

Definition list_for_org `{Collation} (org : OrgId) (d : directory) : res ColleagueError (list ColleagueRef) :=
  let before a b := match display_name d a, display_name d b with
                    | Some x, Some y => collate_le (pg_lower x) (pg_lower y)
                    | _, None => true
                    | None, Some _ => false
                    end in
  let rows := take COLLEAGUE_ROSTER_FETCH_MAX
                (sort_le before (filter (λ r, cw_org_id r = org) (dir_colleagues d))) in
  collect (λ r, raw <-? ok_or (display_name d r) (ColleagueDb (lit "unexpected null")) ;
                name <-? res_map_err ColleagueParse (ColleagueName_try_from raw) ;
                Ok (mkColleagueRef (cw_id r) (cw_kind r) name)) rows.

Definition ROSTER_TAG_OPEN : str := lit "<colleagues>" ++ nl.
Definition ROSTER_TAG_CLOSE : str := nl ++ lit "</colleagues>".
Definition SPEAKING_WITH_TAG_OPEN : str := lit "<speaking-with>" ++ nl.
Definition SPEAKING_WITH_TAG_CLOSE : str := nl ++ lit "</speaking-with>".
Definition dash : str := lit " " ++ [0x2014%N] ++ lit " ".

Definition render_speaking_with `{UuidPrinter} (c : ColleagueRef) : str :=
  SPEAKING_WITH_TAG_OPEN ++ lit "You are talking with " ++ ColleagueName_as_str (cr_display_name c) ++ dash
  ++ lit (ColleagueKind_as_str (cr_kind c)) ++ lit ", id " ++ uuid_to_string (cr_id c)
  ++ lit ". When you record something you learn about them, pass this id as `memory_write`'s `subject`; for a fact about a different colleague, use that colleague's id from the <colleagues> roster instead."
  ++ SPEAKING_WITH_TAG_CLOSE.

(** Lines joined as the loops over [enumerate] do. *)
Fixpoint joined_by (sep : str) (l : list str) : str :=
  match l with
  | [] => []
  | [x] => x
  | x :: l' => x ++ sep ++ joined_by sep l'
  end.

Definition ROSTER_INTRO : str :=
  lit "Your colleagues. Address one with `send_message` (by id), record what you learn about one with `memory_write` (pass its id as `subject`), or look one up with `search_colleague`:" ++ nl.

Definition roster_line `{UuidPrinter} (overrides : gmap ColleagueId ColleagueName) (c : ColleagueRef) : str :=
  lit "- " ++ ColleagueName_as_str (default (cr_display_name c) (overrides !! cr_id c)) ++ dash
  ++ lit (ColleagueKind_as_str (cr_kind c)) ++ lit ", id " ++ uuid_to_string (cr_id c).

Definition render_roster_block `{UuidPrinter} (roster : list ColleagueRef) (viewer : ColleagueId)
    (overrides : gmap ColleagueId ColleagueName) : str :=
  let peers := filter (λ c, cr_id c ≠ viewer) roster in
  if is_empty peers then []
  else if MAX_ROSTER_INLINE <? length peers
  then ROSTER_TAG_OPEN ++ show_Z (Z.of_nat (length peers))
       ++ lit " colleagues available; use `search_colleague` to find one." ++ ROSTER_TAG_CLOSE
  else ROSTER_TAG_OPEN ++ ROSTER_INTRO ++ joined_by nl (roster_line overrides <$> peers) ++ ROSTER_TAG_CLOSE.

(** ** Profiles *)

Definition bounded_str (field : string) (cap : nat) (raw : str) : res ParseError str :=
  if is_empty (trim raw) then Err (Empty field)
  else if cap <? str_len raw then Err (TooLong field cap (str_len raw))
  else Ok raw.

Record Role := mkRole { Role_as_str : str }.
Record Expertise := mkExpertise { Expertise_as_str : str }.
Record Preferences := mkPreferences { Preferences_as_str : str }.
Record ProfileText := mkProfileText { ProfileText_as_str : str }.
Definition Role_try_from (raw : str) : res ParseError Role :=
  r <-? bounded_str "role" MAX_ROLE raw ; Ok (mkRole r).
Definition Expertise_try_from (raw : str) : res ParseError Expertise :=
  r <-? bounded_str "expertise" MAX_EXPERTISE raw ; Ok (mkExpertise r).
Definition Preferences_try_from (raw : str) : res ParseError Preferences :=
  r <-? bounded_str "preferences" MAX_PREFERENCES raw ; Ok (mkPreferences r).
Definition ProfileText_try_from (raw : str) : res ParseError ProfileText :=
  r <-? bounded_str "profile_text" MAX_PROFILE_TEXT raw ; Ok (mkProfileText r).

Record ColleagueProfile := mkColleagueProfile {
  cp_colleague_id : ColleagueId; cp_role : option Role; cp_expertise : option Expertise;
  cp_preferences : option Preferences; cp_updated_by : option ColleagueId }.

Definition opt_list {A} (o : option A) : list A := match o with Some a => [a] | None => [] end.

Definition compose_profile_text (p : ColleagueProfile) : res ParseError ProfileText :=
  ProfileText_try_from (joined_by nl
    (opt_list ((λ r, lit "Role: " ++ Role_as_str r) <$> cp_role p)
     ++ opt_list ((λ e, lit "Expertise: " ++ Expertise_as_str e) <$> cp_expertise p)
     ++ opt_list ((λ e, lit "Prefers: " ++ Preferences_as_str e) <$> cp_preferences p))).

(** ** Snippets and the participants block *)

Definition cap_to_snippet (text : str) : str := truncate_to_char_boundary text PROFILE_SNIPPET_LEN.
Record ParticipantSnippet := mkSnippet { ParticipantSnippet_as_str : str }.
Definition ParticipantSnippet_new (text : str) : ParticipantSnippet := mkSnippet (cap_to_snippet text).
Record ParticipantNote := mkNote { ParticipantNote_as_str : str }.
Definition ParticipantNote_new (text : str) : ParticipantNote := mkNote (cap_to_snippet text).
Record ParticipantNotes := mkNotes { pn_notes : list ParticipantNote }.
Definition from_ordered (notes : list str) : ParticipantNotes :=
  mkNotes (ParticipantNote_new <$> take MAX_NOTES_PER_PARTICIPANT notes).

Definition profile_snippet (p : ColleagueProfile) : option ParticipantSnippet :=
  let parts := opt_list (Role_as_str <$> cp_role p) ++ opt_list (Expertise_as_str <$> cp_expertise p)
               ++ opt_list (Preferences_as_str <$> cp_preferences p) in
  if is_empty parts then None else Some (ParticipantSnippet_new (joined_by (lit "; ") parts)).

Record ParticipantLine := mkLine {
  pl_name : ColleagueName; pl_kind : ColleagueKind; pl_snippet : option ParticipantSnippet;
  pl_notes : ParticipantNotes; pl_raised_thread : bool }.

Definition PARTICIPANTS_TAG_OPEN : str := lit "<participants>" ++ nl.
Definition PARTICIPANTS_TAG_CLOSE : str := nl ++ lit "</participants>".

Definition render_note (n : ParticipantNote) : str :=
  nl ++ lit "  " ++ [0x2022%N] ++ lit " (you noted) " ++ ParticipantNote_as_str n.
Definition render_participant (l : ParticipantLine) : str :=
  nl ++ lit "- " ++ ColleagueName_as_str (pl_name l) ++ lit " (" ++ lit (ColleagueKind_as_str (pl_kind l)) ++ lit ")"
  ++ match pl_snippet l with Some s => dash ++ ParticipantSnippet_as_str s | None => [] end
  ++ (if pl_raised_thread l then dash ++ lit "raised this thread" else [])
  ++ mjoin (render_note <$> pn_notes (pl_notes l)).

Definition render_participants_block (lines : list ParticipantLine) : str :=
  if is_empty lines then []
  else
    PARTICIPANTS_TAG_OPEN
    ++ match List.find pl_raised_thread lines with
       | Some l => lit "People in this conversation. This thread was raised by "
                   ++ ColleagueName_as_str (pl_name l) ++ lit "."
       | None => lit "People in this conversation."
       end
    ++ mjoin (render_participant <$> take MAX_PARTICIPANTS_INLINE lines) ++ PARTICIPANTS_TAG_CLOSE.

(** ** The board *)

Inductive ProfileError :=
| ProfileNotFound (c : ColleagueId)
| ProfileSubjectNotInOrg (subject : ColleagueId)
| ProfileParse (e : ParseError)
| ProfileEmbed (msg : str)
| ProfileDb (msg : str).

Record ProfileRow := mkProfileRow {
  pr_colleague_id : ColleagueId; pr_org_id : OrgId; pr_role : option str; pr_expertise : option str;
  pr_preferences : option str; pr_profile_text : str; pr_embedding : option Vector;
  pr_updated_by : option ColleagueId; pr_created_at : Z; pr_updated_at : Z }.

(** An agent's card: its name, description and the embedding of the description. *)
Record AgentCard := mkAgentCard {
  ac_agent_id : AgentId; ac_name : str; ac_description : str; ac_embedding : option Vector }.

Record board := mkBoard { bd_profiles : list ProfileRow; bd_directory : directory; bd_agents : list AgentCard }.
Definition set_profiles (l : list ProfileRow) (b : board) : board := mkBoard l (bd_directory b) (bd_agents b).

Definition profile_row (c : ColleagueId) (b : board) : option ProfileRow :=
  List.find (λ r, bool_decide (pr_colleague_id r = c)) (bd_profiles b).

(** The calls of [upsert], and their results. *)
Inductive board_call := BRead (ok : bool) | BWrite (ok : bool).
Abbreviation BProg := (Prog board board_call ProfileError).

Definition in_org (c : ColleagueId) (org : OrgId) (b : board) : bool :=
  existsb (λ r, bool_decide (cw_id r = c) && bool_decide (cw_org_id r = org)) (dir_colleagues (bd_directory b)).

(** [PRE_UPSERT_SQL] *)
Definition pre_upsert (org : OrgId) (subject : ColleagueId) (b : board) : bool * option str * option bool :=
  (in_org subject org b, pr_profile_text <$> profile_row subject b,
   (λ r, bool_decide (is_Some (pr_embedding r))) <$> profile_row subject b).

Definition option_or {A} (a b : option A) : option A := match a with Some x => Some x | None => b end.

(** [UPSERT_SQL]: no embedding given keeps the one stored. *)
Definition upsert_row (org : OrgId) (p : ColleagueProfile) (text : str) (embedding : option Vector) (now : Z)
    (b : board) : res ProfileError unit * board :=
  let subject := cp_colleague_id p in
  let role := Role_as_str <$> cp_role p in
  let expertise := Expertise_as_str <$> cp_expertise p in
  let preferences := Preferences_as_str <$> cp_preferences p in
  let row created stored := mkProfileRow subject org role expertise preferences text
                              (option_or embedding stored) (cp_updated_by p) created now in
  let fits cap o := opt_known (λ s, (1 <=? str_len s) && (str_len s <=? cap)) o in
  if negb (fits MAX_ROLE role && fits MAX_EXPERTISE expertise && fits MAX_PREFERENCES preferences
           && fits MAX_PROFILE_TEXT (Some text) && embedding_fits embedding)
  then (Err (ProfileDb (lit "check constraint")), b)
  else if negb (existsb (λ r, bool_decide (cw_id r = subject)) (dir_colleagues (bd_directory b)))
  then (Err (ProfileDb (lit "foreign key")), b)
  else match profile_row subject b with
       | Some old => (Ok tt, set_profiles (update_where (λ r, pr_colleague_id r = subject)
                                             (λ r, row (pr_created_at r) (pr_embedding r)) (bd_profiles b)) b)
       | None => (Ok tt, set_profiles (bd_profiles b ++ [row now None]) b)
       end.

Definition upsert `{Embedder} (net : Net board) (org : OrgId) (p : ColleagueProfile) (now : Z) : BProg unit :=
  let subject := cp_colleague_id p in
  profile_text <-% plift (res_map_err ProfileParse (compose_profile_text p)) ;
  let text := ProfileText_as_str profile_text in
  pre <-% pcall net (λ r, BRead (is_ok r)) ProfileDb (λ _ b, (Ok (pre_upsert org subject b), b)) ;
  let '(in_org, existing_text, has_emb) := pre in
  (if negb in_org then perr (ProfileSubjectNotInOrg subject) else pret tt) ;;%
  let reuse := bool_decide (has_emb = Some true) && bool_decide (existing_text = Some text) in
  embedding <-% (if (reuse : bool) then pret None
                 else v <-% plift (res_map_err ProfileEmbed (embed text)) ; pret (Some v)) ;
  pcall net (λ r, BWrite (is_ok r)) ProfileDb (λ _ b, upsert_row org p text embedding now b).

Definition decode_profile (r : ProfileRow) : res ProfileError ColleagueProfile :=
  let field {A} (f : str → res ParseError A) (o : option str) : res ProfileError (option A) :=
    match o with Some s => (a <-? res_map_err ProfileParse (f s) ; Ok (Some a)) | None => Ok None end in
  role <-? field Role_try_from (pr_role r) ;
  expertise <-? field Expertise_try_from (pr_expertise r) ;
  preferences <-? field Preferences_try_from (pr_preferences r) ;
  Ok (mkColleagueProfile (pr_colleague_id r) role expertise preferences (pr_updated_by r)).

Definition get_many (ids : list ColleagueId) (b : board) : res ProfileError (gmap ColleagueId ColleagueProfile) :=
  if is_empty ids then Ok ∅
  else
    let capped := take MAX_PROFILE_FETCH ids in
    rows <-? collect (λ r, p <-? decode_profile r ; Ok (pr_colleague_id r, p))
               (filter (λ r, pr_colleague_id r ∈ capped) (bd_profiles b)) ;
    Ok (list_to_map rows).

(** ** Searching *)

Record ColleagueMatch := mkMatch {
  cm_colleague_id : ColleagueId; cm_kind : ColleagueKind; cm_name : ColleagueName; cm_snippet : str }.

(** A row of the union: kind, name, snippet and distance. *)
Record MatchRow := mkMatchRow { mr_id : ColleagueId; mr_kind : ColleagueKind; mr_name : option str; mr_snippet : str; mr_distance : option Q }.

Definition org_of (viewer : ColleagueId) (b : board) : option OrgId :=
  cw_org_id <$> List.find (λ r, bool_decide (cw_id r = viewer)) (dir_colleagues (bd_directory b)).

Definition agent_matches `{VectorOps} (q : Vector) (viewer : ColleagueId) (b : board) : list MatchRow :=
  a ← bd_agents b;
  match ac_embedding a with
  | None => []
  | Some e =>
      (λ c, mkMatchRow (cw_id c) CKAgent (Some (ac_name a)) (take PROFILE_SNIPPET_LEN (ac_description a)) (distance e q))
      <$> filter (λ c, cw_agent_id c = Some (ac_agent_id a) ∧ cw_id c ≠ viewer ∧ Some (cw_org_id c) = org_of viewer b)
            (dir_colleagues (bd_directory b))
  end.

Definition human_name (b : board) (c : ColleagueRow) : option str :=
  match cw_user_id c ≫= λ u, dir_users (bd_directory b) !! u with
  | Some u => option_or (us_display_name u) (before_at <$> us_email u)
  | None => None
  end.

Definition human_matches `{VectorOps} (q : Vector) (viewer : ColleagueId) (b : board) : list MatchRow :=
  p ← bd_profiles b;
  match pr_embedding p with
  | None => []
  | Some e =>
      if bool_decide (pr_colleague_id p = viewer) || negb (bool_decide (Some (pr_org_id p) = org_of viewer b)) then []
      else (λ c, mkMatchRow (pr_colleague_id p) CKHuman (human_name b c) (take PROFILE_SNIPPET_LEN (pr_profile_text p)) (distance e q))
           <$> filter (λ c, cw_id c = pr_colleague_id p) (dir_colleagues (bd_directory b))
  end.

Definition closer (a b : MatchRow) : Prop := num_le (mr_distance a) (mr_distance b).
#[export] Instance closer_dec : RelDecision closer.
Proof. intros a b. unfold closer. apply _. Defined.

Definition search_colleagues `{VectorOps} (embedding : Vector) (viewer : ColleagueId) (k : nat) (b : board)
    : res ProfileError (list ColleagueMatch) :=
  if is_empty embedding || (k =? 0) then Ok []
  else
    collect (λ m, raw <-? ok_or (mr_name m) (ProfileDb (lit "unexpected null")) ;
                  name <-? res_map_err ProfileParse (ColleagueName_try_from raw) ;
                  Ok (mkMatch (mr_id m) (mr_kind m) name (mr_snippet m)))
      (take k (merge_sort closer (agent_matches embedding viewer b ++ human_matches embedding viewer b))).

(** ** The tools *)

Record ProfileWriteInput := mkProfileWriteInput {
  pw_subject : ColleagueId; pw_role : option str; pw_expertise : option str; pw_preferences : option str }.

Definition opt_try {E A B} (f : A → res E B) (o : option A) : res E (option B) :=
  match o with Some a => (b <-? f a ; Ok (Some b)) | None => Ok None end.

Definition profile_input (i : ProfileWriteInput) (viewer : Participant) : res ToolError ColleagueProfile :=
  if negb (bool_decide (is_Some (participant_agent viewer)))
  then Err (InvalidInput (lit "profile_write must be called by an agent"))
  else
    let invalid {A} (r : res ParseError A) := res_map_err (InvalidInput ∘ ParseError_to_string) r in
    role <-? invalid (opt_try Role_try_from (pw_role i)) ;
    expertise <-? invalid (opt_try Expertise_try_from (pw_expertise i)) ;
    preferences <-? invalid (opt_try Preferences_try_from (pw_preferences i)) ;
    if negb (bool_decide (is_Some role)) && negb (bool_decide (is_Some expertise))
       && negb (bool_decide (is_Some preferences))
    then Err (InvalidInput (lit "profile_write needs at least one of role, expertise, or preferences"))
    else Ok (mkColleagueProfile (pw_subject i) role expertise preferences (participant_colleague viewer)).

(** The text of a board error. *)
Class ProfileErrorText := profile_error_text : ProfileError → str.

Definition profile_err_to_tool `{ProfileErrorText} (e : ProfileError) : ToolError :=
  match e with
  | ProfileSubjectNotInOrg _ | ProfileParse _ => InvalidInput (profile_error_text e)
  | ProfileNotFound _ | ProfileEmbed _ | ProfileDb _ => ToolBackend (profile_error_text e)
  end.

Definition run_profile_write `{Embedder, ProfileErrorText} (net : Net board) (org : OrgId) (viewer : Participant)
    (i : ProfileWriteInput) (now : Z) : Prog board board_call ToolError ColleagueId :=
  profile <-% plift (profile_input i viewer) ;
  r <-% pcatch (upsert net org profile now) ;
  match r with inl e => perr (profile_err_to_tool e) | inr _ => pret (pw_subject i) end.

Record SearchColleagueLimit := mkSearchColleagueLimit { SearchColleagueLimit_get : Z }.
Definition SearchColleagueLimit_DEFAULT : SearchColleagueLimit := mkSearchColleagueLimit DEFAULT_SEARCH_COLLEAGUE_K.
Definition SearchColleagueLimit_try_from (n : Z) : res ParseError SearchColleagueLimit :=
  if (n =? 0)%Z || (SEARCH_COLLEAGUE_K <? n)%Z
  then Err (OutOfRange "search_colleague_limit" "1..=SEARCH_COLLEAGUE_K") else Ok (mkSearchColleagueLimit n).

Definition run_search_colleague `{Embedder, VectorOps, ProfileErrorText} (viewer : Participant) (query : str)
    (limit : SearchColleagueLimit) (b : board) : res ToolError (list ColleagueMatch) :=
  c <-? ok_or (participant_colleague viewer) (ToolBackend (lit "search_colleague invoked with non-colleague viewer")) ;
  e <-? res_map_err (λ m, ToolBackend (lit "embedding query failed: " ++ m)) (embed query) ;
  res_map_err (λ e, ToolBackend (lit "search_colleague store: " ++ profile_error_text e))
    (search_colleagues e c (Z.to_nat (SearchColleagueLimit_get limit)) b).

(** * The profile board keeps its vectors current

    A profile that has a field always fits the column its text is stored in; a write
    that runs alone leaves every stored vector the embedding of its text; another
    write that slips between its two transactions need not. *)

(** ** The text of a profile *)

Lemma trim_start_last (s : str) c : is_whitespace c = false → trim_start (s ++ [c]) ≠ [].
Proof.
  intros Hc. induction s as [|x s IH]; cbn; [by rewrite Hc|]. destruct (is_whitespace x); [done|]. done.
Qed.

Lemma trim_first (c : N) (s : str) : is_whitespace c = false → trim (c :: s) ≠ [].
Proof.
  intros Hc. unfold trim. cbn [trim_start]. rewrite Hc. unfold trim_end. rewrite reverse_cons.
  intros H. apply (f_equal reverse) in H. rewrite reverse_involutive in H. by apply (trim_start_last (reverse s) c).
Qed.

Lemma joined_by_len sep l :
  str_len (joined_by sep l) ≤ sum_list (str_len <$> l) + length l * str_len sep.
Proof.
  induction l as [|x l IH]; [cbn; lia|]. destruct l as [|y l']; [cbn -[str_len]; lia|].
  change (joined_by sep (x :: y :: l')) with (x ++ sep ++ joined_by sep (y :: l')).
  rewrite !str_len_app, (fmap_cons str_len x). set (l := y :: l') in *. cbn [length Nat.mul].
  change (sum_list (str_len x :: (str_len <$> l))) with (str_len x + sum_list (str_len <$> l)). lia.
Qed.

(** A profile built from validated fields. *)
Record valid_profile (p : ColleagueProfile) : Prop := {
  vp_role : ∀ r, cp_role p = Some r → Role_try_from (Role_as_str r) = Ok r;
  vp_expertise : ∀ e, cp_expertise p = Some e → Expertise_try_from (Expertise_as_str e) = Ok e;
  vp_preferences : ∀ e, cp_preferences p = Some e → Preferences_try_from (Preferences_as_str e) = Ok e }.

Lemma bounded_str_Ok field cap raw r : bounded_str field cap raw = Ok r → r = raw ∧ raw ≠ [] ∧ str_len raw ≤ cap.
Proof.
  unfold bounded_str. destruct (is_empty (trim raw)) eqn:Et; [done|]. destruct (cap <? str_len raw) eqn:E; [done|].
  intros [= <-]. bools. split_and!; [done| |done]. by intros ->.
Qed.

Lemma Role_len r : Role_try_from (Role_as_str r) = Ok r → 1 ≤ str_len (Role_as_str r) ≤ MAX_ROLE.
Proof.
  intros H. apply res_bind_Ok in H as (x & Hx & _). apply bounded_str_Ok in Hx as (_ & Hne & Hl).
  split; [|done]. destruct (Role_as_str r) as [|c s]; [done|]. unfold str_len. cbn. pose proof (len_utf8_bounds c). lia.
Qed.
Lemma Expertise_len r : Expertise_try_from (Expertise_as_str r) = Ok r → 1 ≤ str_len (Expertise_as_str r) ≤ MAX_EXPERTISE.
Proof.
  intros H. apply res_bind_Ok in H as (x & Hx & _). apply bounded_str_Ok in Hx as (_ & Hne & Hl).
  split; [|done]. destruct (Expertise_as_str r) as [|c s]; [done|]. unfold str_len. cbn. pose proof (len_utf8_bounds c). lia.
Qed.
Lemma Preferences_len r : Preferences_try_from (Preferences_as_str r) = Ok r → 1 ≤ str_len (Preferences_as_str r) ≤ MAX_PREFERENCES.
Proof.
  intros H. apply res_bind_Ok in H as (x & Hx & _). apply bounded_str_Ok in Hx as (_ & Hne & Hl).
  split; [|done]. destruct (Preferences_as_str r) as [|c s]; [done|]. unfold str_len. cbn. pose proof (len_utf8_bounds c). lia.
Qed.

Lemma joined_by_head sep x l : ∃ t, joined_by sep (x :: l) = x ++ t.
Proof. destruct l as [|y l]; [exists []; by rewrite app_nil_r|]. by eexists. Qed.

Lemma opt_list_len (o : option str) n :
  (∀ s, o = Some s → str_len s ≤ n) → sum_list (str_len <$> opt_list o) ≤ n ∧ length (opt_list o) ≤ 1.
Proof. intros Hn. destruct o as [s|]; cbn -[str_len]; [specialize (Hn s eq_refl); lia|lia]. Qed.

Lemma labelled_len {A} (label : string) (f : A → str) (o : option A) n s :
  (∀ a, o = Some a → str_len (f a) ≤ n) → (λ a, lit label ++ f a) <$> o = Some s →
  str_len s ≤ str_len (lit label) + n.
Proof. destruct o as [a|]; [|done]. intros Hn [= <-]. specialize (Hn a eq_refl). rewrite str_len_app. lia. Qed.

Lemma sum_list_app (l k : list nat) : sum_list (l ++ k) = sum_list l + sum_list k.
Proof. induction l as [|x l IH]; cbn; [done|]. unfold sum_list in *. lia. Qed.

(** The text of a profile of validated fields is refused only when there is no
    field at all; it never exceeds its column. *)
Theorem profile_text_fits (p : ColleagueProfile) (Hp : valid_profile p) :
  if bool_decide (cp_role p = None ∧ cp_expertise p = None ∧ cp_preferences p = None)
  then compose_profile_text p = Err (Empty "profile_text")
  else ∃ text, compose_profile_text p = Ok text ∧ ProfileText_as_str text ≠ [] ∧
         str_len (ProfileText_as_str text) ≤ MAX_PROFILE_TEXT.
Proof.
  unfold compose_profile_text. set (parts := _ ++ _ ++ _). case_bool_decide as Hnone.
  { destruct Hnone as (E1 & E2 & E3). unfold parts. by rewrite E1, E2, E3. }
  set (text := joined_by nl parts).
  assert (Hlen : str_len text ≤ MAX_PROFILE_TEXT).
  { assert (4400 ≤ MAX_PROFILE_TEXT) by (apply Nat.leb_le; by vm_compute). etrans; [|done].
    destruct Hp as [H1 H2 H3].
    destruct (opt_list_len ((λ r, lit "Role: " ++ Role_as_str r) <$> cp_role p) (6 + MAX_ROLE)) as [L1 N1].
    { intros s Hs. apply (labelled_len "Role: " Role_as_str (cp_role p) MAX_ROLE s); [|done].
      intros r Hr. by apply Role_len, H1. }
    destruct (opt_list_len ((λ r, lit "Expertise: " ++ Expertise_as_str r) <$> cp_expertise p) (11 + MAX_EXPERTISE)) as [L2 N2].
    { intros s Hs. apply (labelled_len "Expertise: " Expertise_as_str (cp_expertise p) MAX_EXPERTISE s); [|done].
      intros r Hr. by apply Expertise_len, H2. }
    destruct (opt_list_len ((λ r, lit "Prefers: " ++ Preferences_as_str r) <$> cp_preferences p) (9 + MAX_PREFERENCES)) as [L3 N3].
    { intros s Hs. apply (labelled_len "Prefers: " Preferences_as_str (cp_preferences p) MAX_PREFERENCES s); [|done].
      intros r Hr. by apply Preferences_len, H3. }
    unfold text. etrans; [apply joined_by_len|]. change (str_len nl) with 1. unfold parts.
    rewrite !fmap_app, !sum_list_app, !length_app. unfold MAX_ROLE, MAX_EXPERTISE, MAX_PREFERENCES in *. lia. }
  assert (Hne : ∃ c s, text = c :: s ∧ is_whitespace c = false).
  { unfold text, parts. destruct (cp_role p) as [r|]; [|destruct (cp_expertise p) as [e|]; [|destruct (cp_preferences p) as [q|]]];
      [..|naive_solver]; cbn [fmap option_fmap option_map opt_list app];
      match goal with |- context [joined_by nl (?x :: ?l)] => destruct (joined_by_head nl x l) as [t ->] end;
      eexists _, _; split; (reflexivity || done). }
  destruct Hne as (c & s & Ht & Hc).
  exists (mkProfileText text). split; [|cbn; split; [congruence|done]].
  unfold ProfileText_try_from, bounded_str.
  destruct (is_empty (trim text)) eqn:E; [bools; rewrite Ht in E; by apply trim_first in E|].
  destruct (MAX_PROFILE_TEXT <? str_len text) eqn:E2; [bools; lia|done].
Qed.

(** ** Vectors *)

(** Every stored vector is the embedding of the text beside it. *)
Definition vectors_current `{Embedder} (b : board) : Prop :=
  NoDup (pr_colleague_id <$> bd_profiles b) ∧
  ∀ r v, r ∈ bd_profiles b → pr_embedding r = Some v → embed (pr_profile_text r) = Ok v.

(** The board after a write of [text] for [c]. *)
Definition written `{Embedder} (c : ColleagueId) (text : str) (b : board) : Prop :=
  ∃ r v, profile_row c b = Some r ∧ pr_profile_text r = text ∧ pr_embedding r = Some v ∧ embed text = Ok v.

Section vectors.
Context `{Embedder}.
Implicit Types (b : board).

Lemma profile_row_Some c b r : profile_row c b = Some r → r ∈ bd_profiles b ∧ pr_colleague_id r = c.
Proof. intros [? ?%bool_decide_eq_true]%find_Some_iff. done. Qed.

Lemma profile_row_update c f b r :
  profile_row c b = Some r → (∀ x, pr_colleague_id (f x) = c) →
  profile_row c (set_profiles (update_where (λ x, pr_colleague_id x = c) f (bd_profiles b)) b) = Some (f r).
Proof.
  unfold profile_row. cbn. intros Hr Hf. induction (bd_profiles b) as [|x l IH]; [done|]. cbn in *.
  case_bool_decide as Hx.
  - injection Hr as <-. rewrite decide_True by done. by rewrite Hf, bool_decide_true.
  - rewrite decide_False by done. rewrite bool_decide_false by done. by apply IH.
Qed.

Lemma profile_row_snoc c b r :
  profile_row c b = None → pr_colleague_id r = c → profile_row c (set_profiles (bd_profiles b ++ [r]) b) = Some r.
Proof.
  unfold profile_row. cbn. intros Hn Hr. induction (bd_profiles b) as [|x l IH]; cbn in *.
  - by rewrite bool_decide_true.
  - case_bool_decide; [done|by apply IH].
Qed.

(** What the write needs of its arguments: a new vector is that of the text; without
    one, the text is the stored one. *)
Definition fits_row b (c : ColleagueId) (text : str) (e : option Vector) : Prop :=
  match e with
  | Some v => embed text = Ok v
  | None => ∃ r v, profile_row c b = Some r ∧ pr_profile_text r = text ∧ pr_embedding r = Some v
  end.

Lemma upsert_row_keeps org p text e now b :
  vectors_current b → fits_row b (cp_colleague_id p) text e →
  vectors_current (upsert_row org p text e now b).2 ∧
  ((upsert_row org p text e now b).1 = Ok tt → written (cp_colleague_id p) text (upsert_row org p text e now b).2).
Proof.
  intros [Hnd Hcur] Hfit. unfold upsert_row. cbv zeta. set (c := cp_colleague_id p) in *.
  destruct (negb (_ && _)); [by split|]. destruct (negb (existsb _ _)); [by split|].
  destruct (profile_row c b) as [old|] eqn:Hold; cbn [fst snd].
  - match goal with |- context [update_where _ ?g _] => set (f := g) end.
    assert (Hvec : ∀ r, r ∈ bd_profiles b → pr_colleague_id r = c →
      pr_profile_text (f r) = text ∧ ∃ v, pr_embedding (f r) = Some v ∧ embed text = Ok v).
    { intros r Hr Hc. split; [done|]. unfold f. cbn. destruct e as [v|]; cbn in *; [by exists v|].
      destruct Hfit as (r' & v & Hr' & Ht & Hv). rewrite Hold in Hr'. injection Hr' as <-.
      apply profile_row_Some in Hold as [Hin Hid].
      assert (old = r) as <- by (apply (NoDup_fmap_eq pr_colleague_id (bd_profiles b)); congruence || done).
      exists v. split; [done|]. rewrite <-Ht. by apply Hcur. }
    split.
    + split; cbn.
      * rewrite update_where_fmap; [done|]. intros r _ Hr. unfold f. cbn. by rewrite Hr.
      * intros r v (x & Hx & ->)%elem_of_update_where Hv. case_decide as Hc; [|by apply Hcur].
        destruct (Hvec x Hx Hc) as (Ht & v' & Hv' & He). rewrite Ht. congruence.
    + intros _. pose proof Hold as Hin. apply profile_row_Some in Hin as [Hin Hid].
      destruct (Hvec old Hin Hid) as (Ht & v & Hv & He). exists (f old), v.
      split; [refine (profile_row_update c f b old Hold _); intros x; reflexivity|]. split; [done|]. split; done.
  - destruct e as [v|]; [|destruct Hfit as (r & v & Hr' & _); congruence]. cbn in Hfit.
    assert (Hnew : c ∉ pr_colleague_id <$> bd_profiles b).
    { intros (r & -> & Hr)%list_elem_of_fmap. unfold profile_row in Hold.
      assert (Hf : bool_decide (pr_colleague_id r = pr_colleague_id r) = false) by (apply (proj1 (find_None_iff _ _) Hold r Hr)).
      by rewrite bool_decide_true in Hf. }
    split.
    + split; cbn.
      * rewrite fmap_app. by apply NoDup_snoc.
      * intros r v' [Hr|Hr]%elem_of_app Hv; [by apply Hcur|].
        apply list_elem_of_singleton in Hr as ->. cbn in *. congruence.
    + intros _. match goal with |- context [bd_profiles b ++ [?r]] => exists r, v end.
      split; [by apply profile_row_snoc|]. done.
Qed.

(** While nobody else writes the board, a write leaves every vector the embedding
    of the text beside it, whichever of its calls fail; one that succeeds leaves the
    profile's own text with its vector, so the person can be found by it. *)
Theorem upsert_keeps_vectors (net : Net board) `{!Alone net} (org : OrgId) (p : ColleagueProfile) (now : Z)
    (s : run_state board board_call) (Hs : vectors_current (run_tables s)) :
  vectors_current (run_tables (upsert net org p now s).2) ∧
  ((upsert net org p now s).1 = Ok tt →
   ∃ text, compose_profile_text p = Ok text ∧
     written (cp_colleague_id p) (ProfileText_as_str text) (run_tables (upsert net org p now s).2)).
Proof.
  assert (Hens : ensures vectors_current (upsert net org p now) (λ r w, vectors_current w ∧
    (r = Ok tt → ∃ text, compose_profile_text p = Ok text ∧ written (cp_colleague_id p) (ProfileText_as_str text) w)));
    [|by apply Hens].
  unfold upsert. apply ensures_bind_lift; [|intros e w _ Hw; by split..].
  intros text Ht. assert (Hc : compose_profile_text p = Ok text) by (by destruct (compose_profile_text p); simplify_eq/=).
  apply (ensures_bind _ _ _ (λ pre w, vectors_current w ∧ pre = pre_upsert org (cp_colleague_id p) w)).
  { apply ensures_call; [done|]. intros n w Hw. cbn. done. }
  intros [[ok existing] has]. apply (ensures_bind _ _ _ (λ _ w, vectors_current w ∧
    (ok, existing, has) = pre_upsert org (cp_colleague_id p) w)).
  { destruct ok; cbn; [by apply ensures_ret|by apply ensures_err; intros w [Hw _]]. }
  intros _. apply (ensures_bind _ _ _ (λ e w, vectors_current w ∧ fits_row w (cp_colleague_id p) (ProfileText_as_str text) e)).
  { destruct (bool_decide (has = Some true) && bool_decide (existing = Some (ProfileText_as_str text))) eqn:Er.
    - apply ensures_ret. intros w [Hw Hpre]. split; [done|]. unfold fits_row. bools. unfold pre_upsert in Hpre.
      destruct (profile_row (cp_colleague_id p) w) as [r|]; cbn in Hpre; [|by simplify_eq].
      destruct (pr_embedding r) as [v|] eqn:Ev; [|by simplify_eq]. exists r, v. split_and!; [done|congruence|done].
    - apply ensures_bind_lift; [|intros e w _ [Hw _]; by split..].
      intros v Hv. apply ensures_ret. intros w [Hw _]. split; [done|]. cbn.
      by destruct (embed (ProfileText_as_str text)); simplify_eq/=. }
  intros e. apply ensures_call; [done|]. intros n w [Hw Hfit].
  destruct (upsert_row_keeps org p (ProfileText_as_str text) e now w Hw Hfit) as [Hk Hr]. split; [|done].
  split; [done|]. intros Hok. exists text. split; [done|]. by apply Hr.
Qed.
End vectors.

(** ** A run, and a race *)

Module BoardDemo.

(** Embeddings of three different texts. *)
#[export] Instance by_length : Embedder := λ s, Ok (Z.of_nat (length s) :: repeat 0%Z 1535).

Definition person : ColleagueRow := mkColleagueRow 7 1 CKHuman (Some 3%N) None.
Definition empty_board : board := mkBoard [] (mkDirectory [person] ∅ ∅ [] []) [].
Definition as_manager : ColleagueProfile := mkColleagueProfile 7 (Some (mkRole (lit "Product Manager"))) None None (Some 9%N).
Definition as_engineer : ColleagueProfile := mkColleagueProfile 7 (Some (mkRole (lit "Rust engineer"))) None None (Some 8%N).

Definition after (net : Net board) (p : ColleagueProfile) (b : board) : board :=
  run_tables (upsert net 1%N p 0 (mkRun b [])).2.
Definition written_once : board := after calm as_manager empty_board.

(** Between the read and the write of the second writer, another changes the text: the
    second keeps the vector it believes current. *)
Definition intruder : Net board :=
  mkNet (λ n b, if (n =? 1)%nat then after calm as_engineer b else b) (λ _, None).

Example stale_vector :
  (λ r, (str_len (pr_profile_text r), pr_embedding r ≫= head)) <$> bd_profiles (after intruder as_manager written_once)
  = [(21%nat, Some 19%Z)].
Proof. by vm_compute. Qed.

Example current_vector :
  (λ r, (str_len (pr_profile_text r), pr_embedding r ≫= head)) <$> bd_profiles (after calm as_manager written_once)
  = [(21%nat, Some 21%Z)].
Proof. by vm_compute. Qed.

End BoardDemo.

Lemma upsert_keeps_vectors_witness :
  vectors_current (H := BoardDemo.by_length) BoardDemo.written_once ∧ length (bd_profiles BoardDemo.written_once) = 1%nat.
Proof.
  split; [|by vm_compute].
  apply (upsert_keeps_vectors (H := BoardDemo.by_length) calm 1%N BoardDemo.as_manager 0 (mkRun BoardDemo.empty_board [])).
  split; [constructor|intros r v Hr; by apply elem_of_nil in Hr].
Defined.

Lemma profile_text_fits_witness :
  valid_profile BoardDemo.as_manager ∧
  ∃ text, compose_profile_text BoardDemo.as_manager = Ok text ∧ ProfileText_as_str text = lit "Role: Product Manager".
Proof.
  assert (Hv : valid_profile BoardDemo.as_manager)
    by (split; intros x; cbn; intros Hx; simplify_eq; by vm_compute).
  split; [done|]. pose proof (profile_text_fits BoardDemo.as_manager Hv) as Hp.
  rewrite bool_decide_false in Hp by (by intros (? & _)). destruct Hp as (text & Ht & _).
  exists text. split; [done|]. vm_compute in Ht. by injection Ht as <-.
Defined.
