(* ===== verification/AgentPrompt.v ===== *)
(** * The system prompt of an agent

    [memory/agent.rs], [prompts/mod.rs], the channel names ([channels/types.rs]) and
    the reads of the thread store behind the blocks: what a turn's prompt is made of,
    which of its parts a failing read leaves out, and which fail the turn.
    Then the prompt survives its enrichments. *)

From Stdlib Require Import ZArith Lia Ascii String.
From stdpp Require Import base gmap list fin_maps strings sets sorting.
From S2P Require Import Prelude Program Types Queue Threads Colleagues Compaction Tools Agent Approvals Office Identity Memory Composer Profiles.

Open Scope nat_scope.

(** ** Channel names *)

Definition CHANNEL_NAME_MAX_LEN : nat := 63.
Definition MAX_CHANNELS_FOR_COLLEAGUE : nat := 100.

Record ChannelName := mkChannelName { ChannelName_as_str : str }.
Definition ChannelName_try_from (raw : str) : res ParseError ChannelName :=
  let normalized := to_ascii_lowercase (trim raw) in
  match normalized with
  | [] => Err (Empty "channel_name")
  | first :: chars =>
      if CHANNEL_NAME_MAX_LEN <? str_len normalized
      then Err (TooLong "channel_name" CHANNEL_NAME_MAX_LEN (str_len normalized))
      else if negb (is_ascii_lowercase first) && negb (is_ascii_digit first)
      then Err (Malformed "channel_name" "must start with [a-z0-9]")
      else if negb (forallb (λ ch, is_ascii_lowercase ch || is_ascii_digit ch || (ch =? 0x2d)%N) chars)
      then Err (Malformed "channel_name" "only [a-z0-9-] after the first char")
      else Ok (mkChannelName normalized)
  end.

Record ChannelRef := mkChannelRef { ch_id : ChannelId; ch_name : ChannelName }.
Record ChannelRow := mkChannelRow { cl_id : ChannelId; cl_org_id : OrgId; cl_name : str; cl_archived_at : option Z }.

(** [channels_for_colleague]; the detail of a corrupt name is not kept. *)
Definition channels_for_colleague `{Collation} (channels : list ChannelRow) (d : directory) (org : OrgId)
    (c : ColleagueId) : res ThreadError (list ChannelRef) :=
  let rows := sort_le (λ a b, collate_le (cl_name a) (cl_name b))
                (filter (λ r, cl_org_id r = org ∧ cl_archived_at r = None ∧ colleague_in_channel d (cl_id r) c = true) channels) in
  collect (λ r, match ChannelName_try_from (cl_name r) with
                | Ok name => Ok (mkChannelRef (cl_id r) name)
                | Err _ => Err (ThreadBackend "invalid channel name")
                | Panic p => Panic p
                end) (take MAX_CHANNELS_FOR_COLLEAGUE rows).

(** ** Who is in a thread *)

Record ThreadParticipants := mkThreadParticipants { tp_creator : option ColleagueId; tp_senders : list ColleagueId }.

(** The first of each, in order ([GROUP BY sender ORDER BY MIN(seq)] of a feed in
    order of its sequence). *)
Fixpoint firsts (seen : list ColleagueId) (l : list ColleagueId) : list ColleagueId :=
  match l with
  | [] => []
  | c :: l' => if bool_decide (c ∈ seen) then firsts seen l' else c :: firsts (c :: seen) l'
  end.

Definition thread_participants (thread : ThreadId) (s : store) : ThreadParticipants :=
  let feed := sort_le (λ a b, fr_seq a <=? fr_seq b)%Z
                (filter (λ r, fr_thread_id r = thread ∧ fr_kind r = KPosted) (thread_messages s)) in
  mkThreadParticipants (th_created_by <$> threads s !! thread)
    (take MAX_PARTICIPANTS_INLINE (firsts [] (omap fr_sender feed))).

Definition channel_of (thread : ThreadId) (s : store) : res ThreadError (option ChannelId) :=
  match threads s !! thread with Some t => Ok (th_channel_id t) | None => Err (ThreadNotFound thread) end.

(** ** Prompts *)

Record CorePrompts := mkCores { pc_normal : str; pc_reflection : str; pc_resolution : str }.
Definition for_kind (c : CorePrompts) (k : RequestKind) : str :=
  match k with Normal => pc_normal c | Reflection => pc_reflection c | Resolution => pc_resolution c end.

Record PromptSet := mkPromptSet {
  ps_language_directive : str; ps_default_agent_role : str; ps_default_agent_description : str }.
Record Prompts := mkPrompts { pm_cores : CorePrompts; pm_en : PromptSet; pm_vi : PromptSet }.

(** [Prompts::load], of the values the files hold. *)
Definition Prompts_load (core scheduling_supplement reflection resolution : str) (en vi : PromptSet) : Prompts :=
  mkPrompts (mkCores (core ++ nl ++ nl ++ scheduling_supplement) reflection resolution) en vi.
Definition prompt_set (p : Prompts) (l : Language) : PromptSet :=
  match l with En => pm_en p | Vi => pm_vi p end.

(** ** Blocks *)

Definition CORE_TAG_OPEN : str := lit "<core>" ++ nl.
Definition CORE_TAG_CLOSE : str := nl ++ lit "</core>" ++ nl.
Definition ORG_RULE_TAG_OPEN : str := lit "<organization-rule>" ++ nl.
Definition ORG_RULE_TAG_CLOSE : str := nl ++ lit "</organization-rule>".
Definition ROLE_TAG_OPEN : str := lit "<role>" ++ nl.
Definition ROLE_TAG_CLOSE : str := nl ++ lit "</role>".
Definition DATE_TAG_OPEN : str := lit "<date>" ++ nl.
Definition DATE_TAG_CLOSE : str := nl ++ lit "</date>".
Definition LANGUAGE_TAG_OPEN : str := lit "<language>" ++ nl.
Definition LANGUAGE_TAG_CLOSE : str := nl ++ lit "</language>".
Definition CHANNELS_TAG_OPEN : str := lit "<channels>" ++ nl.
Definition CHANNELS_TAG_CLOSE : str := nl ++ lit "</channels>".
Definition GATED_TAG_OPEN : str := lit "<approval-gated-tools>" ++ nl.
Definition GATED_TAG_CLOSE : str := nl ++ lit "</approval-gated-tools>".

Definition CHANNELS_INTRO : str :=
  lit "Channels you belong to. Start a new thread in one with `send_message` (`to`: {" ++ [0x22%N]
  ++ lit "channel" ++ [0x22%N] ++ lit ": " ++ [0x22%N] ++ lit "<id>" ++ [0x22%N] ++ lit "}):" ++ nl.

Definition render_channels_block `{UuidPrinter} (channels : list ChannelRef) : str :=
  if is_empty channels then []
  else
    CHANNELS_TAG_OPEN
    ++ (if MAX_ROSTER_INLINE <? length channels
        then show_Z (Z.of_nat (length channels)) ++ lit " channels available; address one with `send_message` `to`."
        else CHANNELS_INTRO
             ++ joined_by nl ((λ c, lit "- " ++ ChannelName_as_str (ch_name c) ++ dash ++ lit "channel, id "
                                    ++ uuid_to_string (ch_id c)) <$> channels))
    ++ CHANNELS_TAG_CLOSE.

Definition render_gated_tools_block (tools : list ToolName) : str :=
  if is_empty tools then []
  else GATED_TAG_OPEN
       ++ lit "These actions require human approval. Before calling one, call `ask_approval` (with `gated_tool` set to its name) and wait for the decision "
       ++ [0x2014%N] ++ lit " it will be refused until approved:" ++ nl
       ++ joined_by nl ((λ t, lit "- " ++ ToolName_as_str t) <$> tools) ++ GATED_TAG_CLOSE.

Definition newline_sep (s : str) : str := if is_empty s then [] else nl.

(** ** What a prompt is read from *)

(** The reads behind a prompt: the cached stores, as functions that may fail. *)
Record PromptReads := mkReads {
  rd_role : AgentId → res str str;
  rd_section : AgentId → option ContradictionEventId → res MemoryError MemorySection;
  rd_colleague : ColleagueId → res ColleagueError ResolvedColleague;
  rd_roster : OrgId → res ColleagueError (list ColleagueRef);
  rd_channels : OrgId → ColleagueId → res ThreadError (list ChannelRef);
  rd_gated : option (OrgId → AgentId → res ApprovalError (list ToolName));
  rd_language : AgentId → res str Language;
  rd_rule : AgentId → res str (option OrganizationRule);
  rd_profiles : list ColleagueId → res ProfileError (gmap ColleagueId ColleagueProfile);
  rd_notes : AgentId → list ColleagueId → res MemoryStoreError (list MemoryRow) }.

(** [unwrap_or_else]: an error is logged and replaced. *)
Definition or_default {E E' A} (r : res E A) (a : A) : res E' A :=
  match r with Ok x => Ok x | Err _ => Ok a | Panic p => Panic p end.

(** ** Participants *)

Fixpoint take_senders (senders ordered seen : list ColleagueId) : list ColleagueId :=
  match senders with
  | [] => ordered
  | s :: senders' =>
      if MAX_PARTICIPANTS_INLINE <=? length ordered then ordered
      else if bool_decide (s ∈ seen) then take_senders senders' ordered seen
      else take_senders senders' (ordered ++ [s]) (s :: seen)
  end.

Definition ordered_participants (p : ThreadParticipants) (viewer : ColleagueId) : list ColleagueId :=
  match tp_creator p with
  | Some c => if bool_decide (c = viewer) then take_senders (tp_senders p) [] [viewer]
              else take_senders (tp_senders p) [c] [c; viewer]
  | None => take_senders (tp_senders p) [] [viewer]
  end.

Definition notes_from_rows (rows : list MemoryRow) : ParticipantNotes :=
  from_ordered (mm_content <$> sort_le shown_before rows).

Definition collaborator_notes {E} (reads : PromptReads) (agent : AgentId) (ordered : list ColleagueId)
    : res E (ColleagueId → option ParticipantNotes) :=
  rows <-? or_default (rd_notes reads agent ordered) [] ;
  rassert (forallb (λ r, bool_decide (is_Some (mm_subject r))) rows)
    "invariant: collaborator_memories_for_subjects returns subject-scoped rows" ;;?
  Ok (λ c, let mine := filter (λ r, mm_subject r = Some c) rows in
           if is_empty mine then None else Some (notes_from_rows mine)).

Definition by_id (roster : list ColleagueRef) (c : ColleagueId) : option ColleagueRef :=
  last (filter (λ r, cr_id r = c) roster).

Definition participant_line (participants : ThreadParticipants) (overrides : gmap ColleagueId ColleagueName)
    (profiles : gmap ColleagueId ColleagueProfile) (notes : ColleagueId → option ParticipantNotes)
    (id : ColleagueId) (c : ColleagueRef) : ParticipantLine :=
  mkLine (default (cr_display_name c) (overrides !! id)) (cr_kind c)
    (if bool_decide (cr_kind c = CKHuman) then profiles !! id ≫= profile_snippet else None)
    (default (mkNotes []) (notes id)) (bool_decide (tp_creator participants = Some id)).

Definition try_participants_block (reads : PromptReads) (agent : AgentId) (viewer : ColleagueId)
    (participants : ThreadParticipants) (overrides : gmap ColleagueId ColleagueName) : res ColleagueError str :=
  let ordered := ordered_participants participants viewer in
  if is_empty ordered then Ok []
  else
    colleague <-? rd_colleague reads viewer ;
    roster <-? rd_roster reads (rcol_org_id colleague) ;
    let humans := filter (λ id, (λ c, cr_kind c) <$> by_id roster id = Some CKHuman) ordered in
    profiles <-? or_default (rd_profiles reads humans) ∅ ;
    notes <-? collaborator_notes reads agent ordered ;
    Ok (render_participants_block
          (omap (λ id, participant_line participants overrides profiles notes id <$> by_id roster id) ordered)).

Definition participants_block (reads : PromptReads) (participants : ThreadParticipants) (viewer : Participant)
    (overrides : gmap ColleagueId ColleagueName) : res Empty_set str :=
  match participant_colleague viewer, participant_agent viewer with
  | Some c, Some a => or_default (try_participants_block reads a c participants overrides) []
  | _, _ => Ok []
  end.

(** ** The prompt *)

(** [date]: the day, as the clock and its format give it. *)
Definition assemble_prompt (prompts : Prompts) (date : str) (kind : RequestKind) (role : str)
    (org_rule : option str) (roster channels gated speaking_with directive memory : str) : str :=
  let core := for_kind (pm_cores prompts) kind in
  let '(rule_open, rule_body, rule_close) :=
    match org_rule with Some r => (ORG_RULE_TAG_OPEN, r, ORG_RULE_TAG_CLOSE) | None => ([], [], []) end in
  CORE_TAG_OPEN ++ core ++ CORE_TAG_CLOSE
  ++ rule_open ++ rule_body ++ rule_close ++ newline_sep rule_open
  ++ roster ++ newline_sep roster ++ channels ++ newline_sep channels ++ gated ++ newline_sep gated
  ++ ROLE_TAG_OPEN ++ role ++ ROLE_TAG_CLOSE
  ++ nl ++ DATE_TAG_OPEN ++ date ++ DATE_TAG_CLOSE
  ++ nl ++ LANGUAGE_TAG_OPEN ++ directive ++ LANGUAGE_TAG_CLOSE
  ++ newline_sep speaking_with ++ speaking_with ++ newline_sep memory ++ memory.

Definition gated_tools_block {E} (reads : PromptReads) (org : OrgId) (agent : AgentId) : res E str :=
  match rd_gated reads with
  | None => Ok []
  | Some read => tools <-? or_default (read org agent) [] ; Ok (render_gated_tools_block tools)
  end.

(** The blocks of the viewer's organisation: each left out when its read fails. *)
Definition org_blocks `{UuidPrinter} {E} (reads : PromptReads) (agent : AgentId) (viewer : ColleagueId)
    (overrides : gmap ColleagueId ColleagueName) : res E (str * str * str) :=
  match rd_colleague reads viewer with
  | Ok colleague =>
      let org := rcol_org_id colleague in
      roster <-? or_default (refs <-? rd_roster reads org ; Ok (render_roster_block refs viewer overrides)) [] ;
      channels <-? or_default (refs <-? rd_channels reads org viewer ; Ok (render_channels_block refs)) [] ;
      gated <-? gated_tools_block reads org agent ;
      Ok (roster, channels, gated)
  | Err _ => Ok ([], [], [])
  | Panic p => Panic p
  end.

Definition contradiction_of (p : RequestKindPayload) : option ContradictionEventId :=
  match p with PResolution id => Some id | _ => None end.

Definition system_prompt_for_thread `{UuidPrinter} (prompts : Prompts) (reads : PromptReads) (date : str)
    (viewer : Participant) (overrides : gmap ColleagueId ColleagueName) (payload : RequestKindPayload)
    : res MemoryError str :=
  agent <-? ok_or (participant_agent viewer)
             (MemoryBackend (lit "system_prompt_for_thread called with non-agent viewer; agent worker only")) ;
  colleague <-? ok_or (participant_colleague viewer)
             (MemoryBackend (lit "system_prompt_for_thread viewer has no colleague_id; agent worker only")) ;
  role <-? res_map_err MemoryAgent (rd_role reads agent) ;
  section <-? rd_section reads agent (contradiction_of payload) ;
  blocks <-? org_blocks reads agent colleague overrides ;
  let '(roster, channels, gated) := blocks in
  language <-? res_map_err MemoryLanguage (rd_language reads agent) ;
  rule <-? res_map_err MemoryRule (rd_rule reads agent) ;
  Ok (assemble_prompt prompts date (RequestKindPayload_kind payload) role (OrganizationRule_as_str <$> rule)
        roster channels gated [] (ps_language_directive (prompt_set prompts language)) (ms_text section)).

(** [agent_persona] *)
Definition agent_persona (reads : PromptReads) (agent : AgentId) : res Empty_set (option str) :=
  or_default (r <-? rd_role reads agent ; Ok (Some r)) None.

(** [display_overrides] *)
Definition display_overrides (names_of : ThreadId → gmap ColleagueId ColleagueName) (thread : option ThreadId)
    : gmap ColleagueId ColleagueName :=
  match thread with Some t => names_of t | None => ∅ end.

(** * The prompt survives its enrichments

    What the blocks of a prompt list is bounded, and a turn's prompt is composed
    whenever the four reads it rests on succeed, whatever the enriching reads do. *)

(** ** Participants *)

Lemma take_senders_ok senders ordered seen :
  NoDup ordered → (∀ c, c ∈ ordered → c ∈ seen) → length ordered ≤ MAX_PARTICIPANTS_INLINE →
  let out := take_senders senders ordered seen in
  NoDup out ∧ length out ≤ MAX_PARTICIPANTS_INLINE ∧ ordered `prefix_of` out ∧
  (∀ c, c ∈ out → c ∈ ordered ∨ c ∈ senders ∧ c ∉ seen) ∧
  (length out < MAX_PARTICIPANTS_INLINE → ∀ c, c ∈ senders → c ∉ seen → c ∈ out).
Proof.
  revert ordered seen. induction senders as [|s senders IH]; intros ordered seen Hnd Hseen Hlen; cbn [take_senders].
  { split_and!; [done|done|done|by left|]. by intros _ c ?%elem_of_nil. }
  destruct (_ <=? _) eqn:E; bools.
  { split_and!; [done|done|done|by left|]. lia. }
  case_bool_decide as Hs.
  - destruct (IH ordered seen Hnd Hseen Hlen) as (H1 & H2 & H3 & H4 & H5). split_and!; [done|done|done| |].
    + intros c [Hc|[Hc Hn]]%H4; [by left|right; set_solver].
    + intros Hl c [->|Hc]%elem_of_cons Hn; [done|by apply H5].
  - destruct (IH (ordered ++ [s]) (s :: seen)) as (H1 & H2 & H3 & H4 & H5).
    { apply NoDup_snoc; [done|]. intros Hc. by apply Hs, Hseen. }
    { intros c. rewrite elem_of_app, list_elem_of_singleton, elem_of_cons. intros [Hc| ->]; [right; by apply Hseen|by left]. }
    { rewrite length_app. cbn. lia. }
    split_and!; [done|done| | |].
    + etrans; [|done]. by exists [s].
    + intros c [Hc|[Hc Hn]]%H4.
      * apply elem_of_app in Hc as [Hc|Hc]; [by left|]. apply list_elem_of_singleton in Hc as ->. right. split; [by left|done].
      * right. rewrite not_elem_of_cons in Hn. split; [by right|tauto].
    + intros Hl c Hc Hn. destruct (decide (c = s)) as [->|Hne].
      * destruct H3 as [rest Hrest]. rewrite Hrest. set_solver.
      * apply elem_of_cons in Hc as [->|Hc]; [done|]. apply H5; [done|done|]. rewrite not_elem_of_cons. done.
Qed.

(** The participants shown are distinct, at most the inline cap, without the
    viewer, the thread's creator first; below the cap nobody who spoke is missing.  So
    the read of the notes about them is within the bound it asserts. *)
Theorem participants_listed (p : ThreadParticipants) (viewer : ColleagueId) :
  let out := ordered_participants p viewer in
  NoDup out ∧ length out ≤ MAX_PARTICIPANTS_INLINE ∧ viewer ∉ out ∧
  (∀ c, tp_creator p = Some c → c ≠ viewer → head out = Some c) ∧
  (∀ c, c ∈ out → tp_creator p = Some c ∨ c ∈ tp_senders p) ∧
  (length out < MAX_PARTICIPANTS_INLINE → ∀ c, c ∈ tp_senders p → c ≠ viewer → c ∈ out).
Proof.
  cbn zeta. unfold ordered_participants. destruct (tp_creator p) as [c|] eqn:Ec.
  - case_bool_decide as Hc.
    + destruct (take_senders_ok (tp_senders p) [] [viewer]) as (H1 & H2 & H3 & H4 & H5); [constructor|set_solver|unfold MAX_PARTICIPANTS_INLINE; cbn; lia|].
      split_and!; [done|done|set_solver|naive_solver|set_solver|]. intros Hl x Hx Hn. apply H5; set_solver.
    + destruct (take_senders_ok (tp_senders p) [c] [c; viewer]) as (H1 & H2 & [rest Hrest] & H4 & H5);
        [apply NoDup_singleton|set_solver|unfold MAX_PARTICIPANTS_INLINE; cbn; lia|].
      split_and!; [done|done|set_solver|intros x [= <-] _; by rewrite Hrest|set_solver|].
      intros Hl x Hx Hn. destruct (decide (x = c)) as [->|Hxc]; [rewrite Hrest; set_solver|]. apply H5; set_solver.
  - destruct (take_senders_ok (tp_senders p) [] [viewer]) as (H1 & H2 & H3 & H4 & H5); [constructor|set_solver|unfold MAX_PARTICIPANTS_INLINE; cbn; lia|].
    split_and!; [done|done|set_solver|done|set_solver|]. intros Hl x Hx Hn. apply H5; set_solver.
Qed.

(** ** The prompt *)

(** A read that may fail but does not panic. *)
Definition calm_read {E A} (r : res E A) : Prop := ∀ p, r ≠ Panic p.

Lemma or_default_calm {E E' A} (r : res E A) (a : A) : calm_read r → ∃ x, or_default (E' := E') r a = Ok x.
Proof. intros Hr. destruct r as [x|e|p]; cbn; eauto. by destruct (Hr p). Qed.

Lemma calm_bind {E A B} (r : res E A) (k : A → B) : calm_read r → calm_read (a <-? r ; Ok (k a)).
Proof. intros Hr p. destruct r; cbn; [done|done|]. intros [= <-]. by destruct (Hr msg). Qed.

Lemma org_blocks_calm `{UuidPrinter} {E} reads agent viewer overrides :
  calm_read (rd_colleague reads viewer) → (∀ o, calm_read (rd_roster reads o)) →
  (∀ o c, calm_read (rd_channels reads o c)) → (∀ f o a, rd_gated reads = Some f → calm_read (f o a)) →
  ∃ blocks, org_blocks (E := E) reads agent viewer overrides = Ok blocks.
Proof.
  intros Hc Hr Hch Hg. unfold org_blocks. destruct (rd_colleague reads viewer) as [c|e|p]; [|eauto|by destruct (Hc p)].
  cbn zeta. set (org := rcol_org_id c).
  destruct (or_default_calm (E' := E) _ [] (calm_bind _ (λ refs, render_roster_block refs viewer overrides) (Hr org))) as [b1 E1].
  destruct (or_default_calm (E' := E) _ [] (calm_bind _ render_channels_block (Hch org viewer))) as [b2 E2].
  rewrite E1. cbn [res_bind]. rewrite E2. cbn [res_bind]. unfold gated_tools_block.
  destruct (rd_gated reads) as [f|]; [|cbn; eauto].
  destruct (or_default_calm (E' := E) (f org agent) [] (Hg f org agent eq_refl)) as [ts Ets].
  rewrite Ets. cbn. eauto.
Qed.

Lemma res_map_err_ok {E F A} (f : E → F) (r : res E A) : is_ok (res_map_err f r) = is_ok r.
Proof. by destruct r. Qed.

(** As long as no read panics, the prompt of an agent's turn is composed exactly
    when its role, its memory section, its language and its organisation's rule are
    read; the roster, the channels, the gated tools and even the lookup of the viewer
    may fail and only leave their blocks out. *)
Theorem prompt_needs_four_reads `{UuidPrinter} (prompts : Prompts) (reads : PromptReads) (date : str)
    (c : ColleagueId) (agent : AgentId) (overrides : gmap ColleagueId ColleagueName) (payload : RequestKindPayload)
    (Hcol : calm_read (rd_colleague reads c)) (Hros : ∀ o, calm_read (rd_roster reads o))
    (Hch : ∀ o x, calm_read (rd_channels reads o x)) (Hg : ∀ f o a, rd_gated reads = Some f → calm_read (f o a)) :
  is_ok (system_prompt_for_thread prompts reads date (AgentP c agent) overrides payload)
  = is_ok (rd_role reads agent) && is_ok (rd_section reads agent (contradiction_of payload))
    && is_ok (rd_language reads agent) && is_ok (rd_rule reads agent).
Proof.
  unfold system_prompt_for_thread. cbn [participant_agent participant_colleague ok_or res_bind].
  destruct (rd_role reads agent) as [role|e|p]; cbn [res_map_err res_bind is_ok andb]; [|done..].
  destruct (rd_section reads agent (contradiction_of payload)) as [section|e|p]; cbn [res_bind is_ok andb]; [|done..].
  destruct (org_blocks_calm (E := MemoryError) reads agent c overrides Hcol Hros Hch Hg) as [[[b1 b2] b3] Eb].
  rewrite Eb. cbn [res_bind].
  destruct (rd_language reads agent); cbn [res_map_err res_bind is_ok andb]; [|done..].
  by destruct (rd_rule reads agent).
Qed.

Module PromptDemo.

#[export] Instance ids : UuidPrinter := λ n, show_Z (Z.of_N n).

Definition reads (ok : bool) : PromptReads :=
  mkReads (λ _, Ok (lit "be brief")) (λ _ _, Ok MemorySection_empty) (λ c, Err (ColleagueNotFound c))
    (λ _, Err (ColleagueDb [])) (λ _ _, Err (ThreadDb "")) None (λ _, if ok then Ok En else Err (lit "down"))
    (λ _, Ok None) (λ _, Err (ProfileDb [])) (λ _ _, Err (MemDb "")).
Definition set_of : PromptSet := mkPromptSet (lit "Answer in English.") [] [].
Definition prompts : Prompts := Prompts_load (lit "core") (lit "schedules") [] [] set_of set_of.

End PromptDemo.

Lemma prompt_needs_four_reads_witness :
  is_ok (system_prompt_for_thread (H := PromptDemo.ids) PromptDemo.prompts (PromptDemo.reads true) (lit "2026-01-01")
           (AgentP 7 2) ∅ PNormal) = true ∧
  is_ok (system_prompt_for_thread (H := PromptDemo.ids) PromptDemo.prompts (PromptDemo.reads false) (lit "2026-01-01")
           (AgentP 7 2) ∅ PNormal) = false.
Proof.
  split; rewrite prompt_needs_four_reads; try (by vm_compute); cbn; unfold calm_read; by intros.
Defined.
