(* ===== verification/Librarian.v ===== *)
(** * The librarian

    [memory/librarian.rs]: the sweep that merges duplicates, ages and evicts memories
    and flags contradictions, and the scheduler that sweeps the agents and puts one
    resolution turn on the queue for each open contradiction.  A sweep is a sequence of
    transactions, any of which may fail, with others at work between them.  The task
    that ticks ([ScheduledTask]) and the log lines are not modelled. *)

From Stdlib Require Import ZArith QArith Lia Ascii String.
From stdpp Require Import base gmap list strings sets.
From S2P Require Import Prelude Program Types Queue Threads Colleagues Scheduling Agent Office Memory.
Open Scope nat_scope.

(** The [f32] values of 0.95 and 0.85. *)
Definition DEDUP_SIMILARITY_THRESHOLD : Q := 15938355 # 16777216.
Definition CONTRADICTION_SIMILARITY_THRESHOLD : Q := 14260634 # 16777216.
Definition VALIDATION_DECAY : Z := 60 * 60 * 24 * 30 * 1000000.
Definition MATURATION_WINDOW : Z := 60 * 60 * 24 * 7 * 1000000.
Definition LIBRARIAN_BATCH_LIMIT : nat := 32.

(** ** What the text of two memories says *)

Definition NEGATIONS : list str :=
  lit <$> ["not "; "n't "; "never "; " no "; " avoid "; " forbid "; "do not"; "don't"; "shouldn't"; "won't"].
Definition has_negation (text : str) : bool :=
  let lower := to_ascii_lowercase text in existsb (λ t, contains_str t lower) NEGATIONS.
Definition contradicts (a b : str) : bool := xorb (has_negation a) (has_negation b).

(** ** The loser of a merge *)

(** [a] wins: a higher state, then the older, then the smaller id. *)
Definition a_wins (a b : MemoryRow) : bool :=
  match priority (mm_state a) ?= priority (mm_state b) with
  | Gt => true
  | Lt => false
  | Eq => match (mm_created_at a ?= mm_created_at b)%Z with
          | Lt => true
          | Gt => false
          | Eq => (mm_id a <? mm_id b)%N
          end
  end.
Definition pick_dedup_loser (p : PairCandidate) : MemoryRow := if a_wins (pc_a p) (pc_b p) then pc_b p else pc_a p.

(** ** A similarity with three decimals, as [{:.3}] prints an [f32] *)

Definition thousandths (q : Q) : Z :=
  let n := (1000 * Qnum q)%Z in let d := Zpos (Qden q) in
  let k := (n / d)%Z in let r := (2 * (n mod d))%Z in
  if (r <? d)%Z then k else if (d <? r)%Z then (k + 1)%Z else if Z.even k then k else (k + 1)%Z.
Definition three_digits (n : Z) : str :=
  let s := show_Z n in repeat 0x30%N (3 - length s) ++ s.
Definition fixed3 (v : option Q) : str :=
  match v with
  | None => lit "NaN"
  | Some q =>
      let k := Z.abs (thousandths q) in
      (if (Qnum q <? 0)%Z then lit "-" else []) ++ show_Z (k / 1000) ++ lit "." ++ three_digits (k mod 1000)
  end.

Definition flag_reason (similarity : option Q) : str :=
  lit "high embedding similarity (" ++ fixed3 similarity ++ lit ") with opposing textual cues".

(** [pair.similarity >= DEDUP_SIMILARITY_THRESHOLD] on [f32]: false on not a number. *)
Definition f32_ge (v : option Q) (t : Q) : bool := match v with Some x => Qle_bool t x | None => false end.

(** ** The world of the schedulers *)

(** The columns of [agents] and of [org_members] the schedulers read. *)
Record AgentRef := mkAgentRef { ag_id : AgentId; ag_org : OrgId; ag_created_at : Z }.
Record MemberRef := mkMemberRef { mr_org : OrgId; mr_user : UserId; mr_created_at : Z }.

Record mind := mkMind {
  mi_memory : memory; mi_store : store; mi_queue : db; mi_dir : directory; mi_bg : bglog;
  mi_agents : list AgentRef; mi_members : list MemberRef }.
Definition mi_set_memory (m : memory) (w : mind) : mind :=
  mkMind m (mi_store w) (mi_queue w) (mi_dir w) (mi_bg w) (mi_agents w) (mi_members w).
Definition mi_set_queue (d : db) (w : mind) : mind :=
  mkMind (mi_memory w) (mi_store w) d (mi_dir w) (mi_bg w) (mi_agents w) (mi_members w).
Definition mi_set_bg (b : bglog) (w : mind) : mind :=
  mkMind (mi_memory w) (mi_store w) (mi_queue w) (mi_dir w) b (mi_agents w) (mi_members w).

(** The queue's statements read the directory, the members and the background turns. *)
Definition mind_queue_view (w : mind) : db :=
  let d := mi_queue w in
  mkDb (prompt_requests d) (claim_leases d) (claim_seq d) (prompt_request_dags d)
    ((λ r, mkColleague (cw_id r) (cw_org_id r) (cw_agent_id r)) <$> dir_colleagues (mi_dir w))
    ((λ r, (mr_user r, mr_org r)) <$> mi_members w)
    (list_to_map ((λ r, (st_id r, st_org r)) <$> agent_thread_states (mi_store w)))
    (list_to_map ((λ t, (bt_id t, bt_org_id t)) <$> Agent.background_turns (mi_bg w))).
Definition mind_sees (w : mind) (user : UserId) (org : OrgId) : bool :=
  bool_decide ((user, org) ∈ (λ r, (mr_user r, mr_org r)) <$> mi_members w).

Inductive cog_call :=
| GRead
| GForget (id : MemoryId) (r : res MemoryStoreError MutationOutcome)
| GMature | GDecay | GEvict
| GFlag (a b : MemoryId) (r : res MemoryStoreError ContradictionEventId)
| GCreateTurn (id : BackgroundTurnId)
| GSeed (id : BackgroundTurnId) (content : str)
| GEnqueue (key : IdempotencyKey) (r : option PromptRequestId)
| GCandidates | GSlice.

(** What the deployment supplies to the [n]-th call: the clock, fresh ids, and whether
    the foreign keys into tables that are not modelled hold. *)
Record CogEnv := mkCogEnv {
  ge_mem : nat → MemEnv;
  ge_fresh : nat → N;
  ge_events : nat → nat → MemoryEventId;
  ge_fk : nat → PromptRequest → bool;
  ge_now : nat → Z;
  ge_traceparent : option str }.

Abbreviation CProg := (Prog mind cog_call MemoryStoreError).

Section librarian.
Context `{Embedder, VectorOps, UuidPrinter, Rfc3339} (net : Net mind) (ge : CogEnv).

Definition cog_step {A} (ev : res MemoryStoreError A → cog_call)
    (f : nat → mind → res MemoryStoreError A * mind) : CProg A := pcall net ev (λ m, MemBackend m) f.
Definition cog_memory {A} (ev : res MemoryStoreError A → cog_call)
    (f : nat → memory → res MemoryStoreError A * memory) : CProg A :=
  cog_step ev (λ n w, let '(r, m) := f n (mi_memory w) in (r, mi_set_memory m w)).
Definition cog_read {A} (f : mind → res MemoryStoreError A) : CProg A := cog_step (λ _, GRead) (λ _ w, (f w, w)).

(** ** The sweep *)

Record LibrarianSweepReport := mkReport {
  rp_deduped : nat; rp_matured : nat; rp_demoted : nat; rp_evicted : nat; rp_contradictions_flagged : nat }.

Definition forget_one (agent : AgentId) (id : MemoryId) : CProg MutationOutcome :=
  cog_memory (GForget id) (λ n s, apply (ge_mem ge n) privileged 0%N (ge_fresh ge n) (MutForget agent id SrcLibrarian) s).

Fixpoint dedup_loop (agent : AgentId) (pairs : list PairCandidate) (forgotten : list MemoryId) (deduped : nat)
    : CProg (list MemoryId * nat) :=
  match pairs with
  | [] => pret (forgotten, deduped)
  | p :: pairs' =>
      if bool_decide (mm_id (pc_a p) ∈ forgotten) || bool_decide (mm_id (pc_b p) ∈ forgotten)
      then dedup_loop agent pairs' forgotten deduped
      else
        let loser := pick_dedup_loser p in
        if mm_pinned loser then dedup_loop agent pairs' forgotten deduped
        else
          forget_one agent (mm_id loser) ;;%
          dedup_loop agent pairs' (forgotten ++ [mm_id loser]) (S deduped)
  end.

Definition record_flag (agent : AgentId) (p : PairCandidate) : CProg ContradictionEventId :=
  cog_memory (GFlag (mm_id (pc_a p)) (mm_id (pc_b p)))
    (λ n s, trun (record_contradiction_tx (ge_mem ge n) (ge_fresh ge n) agent (mm_id (pc_a p)) (mm_id (pc_b p))
                    (flag_reason (pc_similarity p))) s).

Definition flaggable (forgotten : list MemoryId) (p : PairCandidate) : bool :=
  negb (bool_decide (mm_id (pc_a p) ∈ forgotten) || bool_decide (mm_id (pc_b p) ∈ forgotten))
  && negb (f32_ge (pc_similarity p) DEDUP_SIMILARITY_THRESHOLD)
  && contradicts (mm_content (pc_a p)) (mm_content (pc_b p)).

Fixpoint flag_loop (agent : AgentId) (pairs : list PairCandidate) (forgotten : list MemoryId) (flagged : nat)
    : CProg nat :=
  match pairs with
  | [] => pret flagged
  | p :: pairs' =>
      if flaggable forgotten p
      then record_flag agent p ;;% flag_loop agent pairs' forgotten (S flagged)
      else flag_loop agent pairs' forgotten flagged
  end.

(** The first step: merge the duplicates. *)
Definition dedup (agent : AgentId) : CProg (list MemoryId * nat) :=
  pairs <-% cog_read (similar_pairs agent DEDUP_SIMILARITY_THRESHOLD MAX_SIMILAR_PAIRS_PER_AGENT ∘ mi_memory) ;
  dedup_loop agent pairs [] 0.

Definition run_librarian_sweep (agent : AgentId) (now : Z) : CProg LibrarianSweepReport :=
  p <-% dedup agent ;
  matured <-% cog_memory (λ _, GMature)
    (λ n s, trun (mature_tentative_tx (ge_mem ge n) (ge_events ge n) agent (now - MATURATION_WINDOW)%Z) s) ;
  demoted <-% cog_memory (λ _, GDecay)
    (λ n s, trun (decay_validated_tx (ge_mem ge n) (ge_events ge n) agent (now - VALIDATION_DECAY)%Z) s) ;
  evicted <-% cog_memory (λ _, GEvict)
    (λ n s, trun (evict_overflow_tx (ge_mem ge n) (ge_events ge n) agent MAX_MEMORIES_PER_AGENT) s) ;
  pairs <-% cog_read (similar_pairs agent CONTRADICTION_SIMILARITY_THRESHOLD MAX_SIMILAR_PAIRS_PER_AGENT ∘ mi_memory) ;
  flagged <-% flag_loop agent pairs p.1 0 ;
  pret (mkReport p.2 matured demoted (length evicted) flagged).

(** ** The resolution turn's prompt *)

(** [truncate_from_start]: the longest suffix of at most [max] bytes. *)
Fixpoint truncate_from_start (s : str) (max : nat) : str :=
  match s with
  | [] => []
  | _ :: s' => if str_len s <=? max then s else truncate_from_start s' max
  end.

(** The end of both prompt builders: the body is cut at its head when too long. *)
Definition fit_prompt {E} (header notice body : str) : res E Prompt :=
  let out := if str_len header + str_len body <=? PROMPT_MAX_BYTES then header ++ body
             else header ++ notice
                    ++ truncate_from_start body (PROMPT_MAX_BYTES - (str_len header + str_len notice)) in
  expect (res_ok (Prompt_try_from out)) "invariant: body trimmed to Prompt cap".

Definition nl : str := [0xa%N].

Definition render_pair_entry (label : str) (id : MemoryId) (row : option MemoryRow) : str :=
  label ++ lit ":" ++ nl ++ lit "  Id: " ++ uuid_to_string id ++ nl
  ++ match row with
     | None => lit "  [no longer exists " ++ [0x2014%N] ++ lit " likely forgotten before resolution]" ++ nl
     | Some r =>
         lit "  Content: " ++ mm_content r ++ nl
         ++ lit "  Kind: " ++ lit (as_str (mm_kind r)) ++ lit "   State: " ++ lit (as_str (mm_state r))
         ++ lit "   Pinned: " ++ lit (if mm_pinned r then "true" else "false") ++ nl
         ++ lit "  Created: " ++ to_rfc3339 (mm_created_at r) ++ nl
         ++ lit "  Last validated: " ++ to_rfc3339 (mm_last_validated_at r) ++ nl
         ++ lit "  Access count: " ++ show_Z (mm_access_count r) ++ nl
         ++ match mm_source_turn_id r with
            | Some turn => lit "  Source turn: " ++ uuid_to_string turn ++ nl
            | None => lit "  Source turn: (operator note or librarian merge)" ++ nl
            end
     end.

Definition RESOLUTION_HEADER : str :=
  lit "Two of your memories were flagged as contradicting. Decide what to do." ++ nl ++ nl.
Definition RESOLUTION_NOTICE : str := lit "[earlier content trimmed to fit prompt cap]" ++ nl.

Definition build_resolution_prompt {E} (ev : ContradictionEventRow) (a b : option MemoryRow) : res E Prompt :=
  fit_prompt RESOLUTION_HEADER RESOLUTION_NOTICE
    (lit "Reason flagged: " ++ cn_reason ev ++ nl ++ nl
     ++ render_pair_entry (lit "Memory A (M-1)") (cn_memory_a ev) a ++ nl
     ++ render_pair_entry (lit "Memory B (M-2)") (cn_memory_b ev) b).

(** ** The queue *)

(** [colleagues::resolve_agent_colleague]: a privileged read. *)
Definition agent_colleague (org : OrgId) (agent : AgentId) (d : directory) : res ColleagueError ColleagueId :=
  ok_or (cw_id <$> List.find (λ r, bool_decide (cw_org_id r = org) && bool_decide (cw_agent_id r = Some agent))
                     (dir_colleagues d))
    (SatelliteUnmapped CKAgent).

Definition background_error (what : string) (e : BackgroundError) : MemoryStoreError :=
  MemBackend (lit what ++ match e with BgNotFound t => uuid_to_string t | BgDb m => lit m end).

(** Open a background turn, seed it with the prompt, put its trigger on the queue:
    the steps of both schedulers, whose errors differ. *)
Definition create_turn {E} (wrap : str → E) (err : BackgroundError → E) (caller : Caller) (agent : AgentId)
    : Prog mind cog_call E BackgroundTurnId := λ s,
  pcall net (λ _, GCreateTurn (ge_fresh ge (length (run_trace s)))) wrap
    (λ n w, let '(r, b) := background_create_turn (mind_sees w (user_id caller)) caller agent (ge_fresh ge n) (mi_bg w) in
            (res_map_err err r, mi_set_bg b w)) s.
Definition seed_turn {E} (wrap : str → E) (err : BackgroundError → E) (caller : Caller) (turn : BackgroundTurnId)
    (content : Prompt) : Prog mind cog_call E Z :=
  pcall net (λ _, GSeed turn (Prompt_as_str content)) wrap
    (λ _ w, let '(r, b) := background_append (mind_sees w (user_id caller)) turn None
                             (User [UText (Prompt_as_str content)]) None (mi_bg w) in
            (res_map_err err r, mi_set_bg b w)).
Definition enqueue_background {E} (wrap : str → E) (err : PromptError → E) (trig : NewTrigger)
    : Prog mind cog_call E PromptRequestId :=
  pcall net (λ r, GEnqueue (nt_idempotency_key trig) (res_ok r)) wrap
    (λ n w, let '(r, d) := enqueue_trigger_impl (ge_fk ge n) (ge_fresh ge n) (ge_now ge n) (ge_traceparent ge) trig
                             (mind_queue_view w) in
            (res_map_err err r, mi_set_queue d w)).

Definition enqueue_one_resolution (agent : AgentId) (colleague : ColleagueId) (org : OrgId) (owner : UserId)
    (ev : ContradictionEventRow) (content : Prompt) (key : IdempotencyKey) : CProg unit :=
  let caller := mkCaller owner org in
  turn <-% create_turn MemBackend (background_error "create background turn: ") caller agent ;
  seed_turn MemBackend (background_error "seed background turn: ") caller turn content ;;%
  enqueue_background MemBackend (λ e, MemBackend (lit "enqueue trigger: " ++ PromptError_to_string e))
    (mkNewTrigger org owner None None (Some turn) colleague agent None None key
       (PResolution (cn_id ev))) ;;%
  pret tt.

Definition resolution_key (id : ContradictionEventId) : res MemoryStoreError IdempotencyKey :=
  expect (res_ok (IdempotencyKey_try_from (lit "resolve-" ++ uuid_to_string id)))
    "invariant: contradiction key fits cap".

Fixpoint enqueue_each (agent : AgentId) (org : OrgId) (owner : UserId) (evs : list ContradictionEventRow) : CProg unit :=
  match evs with
  | [] => pret tt
  | ev :: evs' =>
      key <-% plift (resolution_key (cn_id ev)) ;
      colleague <-% cog_read (λ w, res_map_err (λ e, MemBackend (lit "resolve agent colleague: "
                                      ++ ColleagueError_to_string e)) (agent_colleague org agent (mi_dir w))) ;
      a <-% cog_read (λ w, get (cn_memory_a ev) (mi_memory w)) ;
      b <-% cog_read (λ w, get (cn_memory_b ev) (mi_memory w)) ;
      content <-% plift (build_resolution_prompt ev a b) ;
      ptry (enqueue_one_resolution agent colleague org owner ev content key) ;;%
      enqueue_each agent org owner evs'
  end.

Definition enqueue_resolutions (agent : AgentId) (org : OrgId) (owner : UserId) : CProg unit :=
  evs <-% cog_read (λ w, Ok (unresolved_contradictions agent (mi_memory w))) ;
  enqueue_each agent org owner evs.

(** ** The tick *)

(** The oldest member of the organisation stands for it. *)
Definition representative (org : OrgId) (members : list MemberRef) : option UserId :=
  mr_user <$> min_by mr_created_at (filter (λ m, mr_org m = org) members).
Definition list_agents (w : mind) : list (AgentId * OrgId * UserId) :=
  take LIBRARIAN_BATCH_LIMIT
    (omap (λ a, (λ u, (ag_id a, ag_org a, u)) <$> representative (ag_org a) (mi_members w))
       (sort_by ag_created_at (mi_agents w))).

Fixpoint sweep_agents (now : Z) (l : list (AgentId * OrgId * UserId)) : CProg unit :=
  match l with
  | [] => pret tt
  | (agent, org, owner) :: l' =>
      r <-% pcatch (run_librarian_sweep agent now) ;
      match r with
      | inl _ => pret tt
      | inr _ => ptry (E := MemoryStoreError) (enqueue_resolutions agent org owner)
      end ;;%
      sweep_agents now l'
  end.

Definition librarian_tick (now : Z) : CProg unit :=
  agents <-% cog_read (λ w, Ok (list_agents w)) ;
  sweep_agents now (take LIBRARIAN_BATCH_LIMIT agents).
End librarian.
