(* ===== verification/Reflection.v ===== *)
(** * Reflection

    [memory/reflection_scheduler.rs]: which pairs of an agent and a thread are due for a
    reflection, the slice of the thread the reflection reads, its prompt, and the
    background turn and trigger that start it.
    Then that the slices cover the posts. *)

From Stdlib Require Import ZArith QArith Lia Ascii String.
From stdpp Require Import base gmap list strings sets sorting relations.
From S2P Require Import Prelude Program Types Queue Threads Colleagues Scheduling Agent Office Memory MemoryLaws Librarian.

Open Scope nat_scope.

Definition REFLECTION_IDLE_TIMEOUT : Z := 30 * 60 * 1000000.
Definition REFLECTION_SCHEDULER_BATCH_LIMIT : nat := 32.

(** ** The transcript *)

Definition map_user_block (b : UserContent) : AssistantContent :=
  match b with
  | UText t => AText t
  | UToolResult r => AText (lit "[tool-result " ++ ToolCallId_as_str (tr_call_id r) ++ lit ": "
                              ++ lit (if tr_is_error r then "err" else "ok") ++ lit "]")
  | UImage a => AText (lit "[image: " ++ FileName_as_str (att_filename a) ++ lit "]")
  | UFile a => AText (lit "[file: " ++ FileName_as_str (att_filename a) ++ lit "]")
  end.

Section transcript.
Context `{JsonPrinter}.

Definition map_assistant_block (b : AssistantContent) : UserContent :=
  match b with
  | AText t | AReasoning t => UText t
  | AToolCall c => UText (lit "[tool-call " ++ ToolName_as_str (tc_name c) ++ lit "(" ++ json_to_string (tc_input c)
                            ++ lit ")]")
  end.
Definition map_for_viewer (stored : ChatMessage) (is_self : bool) : ChatMessage :=
  match is_self, stored with
  | true, User blocks => Assistant (map_user_block <$> blocks)
  | false, Assistant blocks => User (map_assistant_block <$> blocks)
  | _, msg => msg
  end.

Definition render_user_block (b : UserContent) : str :=
  match b with
  | UText t => t
  | UToolResult r => lit "[tool-result " ++ ToolCallId_as_str (tr_call_id r)
                       ++ lit (if tr_is_error r then ": err]" else ": ok]")
  | UImage a => lit "[image: " ++ FileName_as_str (att_filename a) ++ lit "]"
  | UFile a => lit "[file: " ++ FileName_as_str (att_filename a) ++ lit "]"
  end.
Definition render_assistant_block (b : AssistantContent) : str :=
  match b with
  | AText t | AReasoning t => t
  | AToolCall c => lit "[tool-call " ++ ToolName_as_str (tc_name c) ++ lit "(" ++ json_to_string (tc_input c) ++ lit ")]"
  end.
Definition render_chat_message (m : ChatMessage) : str :=
  match m with
  | User blocks => lit "User: " ++ concat (render_user_block <$> blocks) ++ nl
  | Assistant blocks => lit "Assistant: " ++ concat (render_assistant_block <$> blocks) ++ nl
  end.

Definition REFLECTION_HEADER : str :=
  lit "Reflect on the conversation below. Identify what should be remembered, updated, or forgotten."
  ++ nl ++ nl ++ lit "## Conversation" ++ nl.
Definition REFLECTION_NOTICE : str := lit "[earlier turns truncated to fit prompt cap]" ++ nl.
Definition REFLECTION_FALLBACK : str :=
  lit "Reflect on this session. No new turns are available since the last checkpoint; review existing memory instead.".

Definition build_reflection_prompt {E} (slice : list ChatMessage) : res E Prompt :=
  let transcript := concat (render_chat_message <$> slice) in
  if is_empty (trim transcript)
  then expect (res_ok (Prompt_try_from REFLECTION_FALLBACK)) "invariant: fallback fits Prompt cap"
  else fit_prompt REFLECTION_HEADER REFLECTION_NOTICE transcript.
End transcript.

(** ** The candidates *)

Record ReflectionCandidate := mkCandidate {
  rc_agent_id : AgentId; rc_thread_id : ThreadId; rc_last_message_id : ThreadMessageId; rc_latest_at : Z;
  rc_previous_cursor : option ThreadMessageId; rc_org_id : OrgId; rc_created_by : UserId }.

Definition posted_in (thread : ThreadId) (s : store) : list FeedRow :=
  filter (λ m, fr_thread_id m = thread ∧ fr_kind m = KPosted) (thread_messages s).

(** [MAX(m.seq)] and [MAX(m.created_at)] of the posted messages of a thread. *)
Definition max_of (key : FeedRow → Z) (l : list FeedRow) : option Z :=
  match l with [] => None | m :: l' => Some (foldr (λ x acc, Z.max (key x) acc) (key m) l') end.
Definition latest_per_thread (thread : ThreadId) (s : store) : option (Z * Z) :=
  seq ← max_of fr_seq (posted_in thread s); at_ ← max_of fr_created_at (posted_in thread s); Some (seq, at_).

(** A reflection of the thread is pending or under way. *)
Definition reflecting (thread : ThreadId) (d : db) : bool :=
  existsb (λ r, match pr_kind_payload r with PReflection t _ => bool_decide (t = thread) | _ => false end
                && bool_decide (pr_status r = Pending ∨ pr_status r = Processing)) (prompt_requests d).

Definition candidate_of (cutoff : Z) (w : mind) (st : StateRow) : option ReflectionCandidate :=
  let thread := st_thread st in
  '(seq, at_) ← latest_per_thread thread (mi_store w);
  lm ← List.find (λ m, bool_decide (fr_thread_id m = thread) && bool_decide (fr_seq m = seq)) (thread_messages (mi_store w));
  t ← threads (mi_store w) !! thread;
  cc ← List.find (λ c, bool_decide (cw_id c = th_created_by t)) (dir_colleagues (mi_dir w));
  user ← cw_user_id cc;
  let rc := reflection_checkpoints (mi_store w) !! (st_agent st, thread) in
  if (at_ <=? cutoff)%Z
     && match rc with None => true | Some c => (cp_created_at c <? at_)%Z end
     && negb (reflecting thread (mi_queue w))
  then Some (mkCandidate (st_agent st) thread (fr_id lm) at_ (cp_last_message_id <$> rc) (th_org_id t) user)
  else None.

Definition find_candidates (cutoff : Z) (w : mind) : list ReflectionCandidate :=
  take REFLECTION_SCHEDULER_BATCH_LIMIT
    (sort_by rc_latest_at (omap (candidate_of cutoff w) (agent_thread_states (mi_store w)))).

(** ** The slice *)

(** [COALESCE((SELECT seq FROM thread_messages WHERE id = ..), -1)] *)
Definition seq_of (id : option ThreadMessageId) (s : store) : Z :=
  default (-1)%Z (id ≫= λ id, fr_seq <$> List.find (λ m, bool_decide (fr_id m = id)) (thread_messages s)).
Definition slice_rows (thread : ThreadId) (previous : option ThreadMessageId) (up_to : ThreadMessageId) (s : store)
    : list FeedRow :=
  sort_by fr_seq (filter (λ m, (seq_of previous s < fr_seq m ∧ fr_seq m ≤ seq_of (Some up_to) s)%Z) (posted_in thread s)).
Definition sender_agent (m : FeedRow) (d : directory) : option AgentId :=
  c ← fr_sender m; r ← List.find (λ r, bool_decide (cw_id r = c)) (dir_colleagues d); cw_agent_id r.
Definition fetch_slice `{JsonPrinter} (thread : ThreadId) (agent : AgentId) (previous : option ThreadMessageId)
    (up_to : ThreadMessageId) (w : mind) : list ChatMessage :=
  (λ m, map_for_viewer (fr_body m) (bool_decide (sender_agent m (mi_dir w) = Some agent)))
    <$> slice_rows thread previous up_to (mi_store w).

(** ** The turn *)

Inductive EnqueueError := EqDb (msg : str) | EqQueue (e : PromptError) | EqBackground (e : BackgroundError).
Abbreviation RProg := (Prog mind cog_call EnqueueError).

Section scheduler.
Context `{UuidPrinter, JsonPrinter} (net : Net mind) (ge : CogEnv).

Definition reflect_read {A} (ev : cog_call) (f : mind → res EnqueueError A) : RProg A :=
  pcall net (λ _, ev) EqDb (λ _ w, (f w, w)).

Definition reflection_key (c : ReflectionCandidate) : res EnqueueError IdempotencyKey :=
  expect (res_ok (IdempotencyKey_try_from (lit "reflect-" ++ uuid_to_string (rc_agent_id c) ++ lit "-"
            ++ uuid_to_string (rc_thread_id c) ++ lit "-" ++ uuid_to_string (rc_last_message_id c))))
    "invariant: reflection idempotency key fits the cap".

Definition enqueue_reflection (c : ReflectionCandidate) : RProg unit :=
  colleague <-% reflect_read GRead (λ w, res_map_err
    (λ e, EqQueue (Queue.Backend (ascii (lit "resolve agent colleague: " ++ ColleagueError_to_string e))))
    (agent_colleague (rc_org_id c) (rc_agent_id c) (mi_dir w))) ;
  key <-% plift (reflection_key c) ;
  slice <-% reflect_read GSlice (λ w, Ok (fetch_slice (rc_thread_id c) (rc_agent_id c) (rc_previous_cursor c)
                                            (rc_last_message_id c) w)) ;
  prompt <-% plift (build_reflection_prompt slice) ;
  let caller := mkCaller (rc_created_by c) (rc_org_id c) in
  turn <-% create_turn net ge EqDb EqBackground caller (rc_agent_id c) ;
  seed_turn net EqDb EqBackground caller turn prompt ;;%
  enqueue_background net ge EqDb EqQueue
    (mkNewTrigger (rc_org_id c) (rc_created_by c) None None (Some turn) colleague (rc_agent_id c) None None key
       (PReflection (rc_thread_id c) (rc_last_message_id c))) ;;%
  pret tt.

Fixpoint enqueue_all (cs : list ReflectionCandidate) : RProg unit :=
  match cs with
  | [] => pret tt
  | c :: cs' => ptry (E := EnqueueError) (enqueue_reflection c) ;;% enqueue_all cs'
  end.

Definition reflection_tick (now : Z) : RProg unit :=
  candidates <-% reflect_read GCandidates (λ w, Ok (find_candidates (now - REFLECTION_IDLE_TIMEOUT)%Z w)) ;
  plift (rassert (length candidates <=? REFLECTION_SCHEDULER_BATCH_LIMIT)
           "invariant: find_candidates respects batch_limit") ;;%
  enqueue_all candidates.
End scheduler.

(** * The prompts of cognition and the slices of a thread

    Both builders always give a prompt, which keeps the end of its body; consecutive
    slices of a thread cut it without gap and without overlap. *)

Open Scope nat_scope.

(** ** Cutting at the head *)

Lemma truncate_from_start_suffix s max :
  ∃ cut, s = cut ++ truncate_from_start s max ∧ str_len (truncate_from_start s max) ≤ max.
Proof.
  induction s as [|c s IH]; cbn [truncate_from_start]; [exists []; split; [done|cbn; lia]|].
  destruct (str_len (c :: s) <=? max) eqn:E; bools; [by exists []|].
  destruct IH as (cut & Hs & Hl). exists (c :: cut). split; [by rewrite Hs at 1|done].
Qed.

(** Nothing more would have fit. *)
Lemma truncate_from_start_longest s max cut kept :
  s = cut ++ kept → str_len kept ≤ max → str_len kept ≤ str_len (truncate_from_start s max).
Proof.
  revert s. induction cut as [|c cut IH]; intros s -> Hk.
  - cbn [app]. destruct kept; [cbn; lia|]. cbn [truncate_from_start]. rewrite (proj2 (Nat.leb_le _ _)) by done. lia.
  - cbn [app truncate_from_start]. destruct (_ <=? max) eqn:E; [|by apply IH].
    rewrite (app_comm_cons cut), str_len_app. lia.
Qed.

Lemma trim_start_keeps s c : is_whitespace c = false → trim_start (s ++ [c]) ≠ [].
Proof. intros Hc. induction s as [|x s IH]; cbn; [by rewrite Hc|]. by destruct (is_whitespace x). Qed.
Lemma trim_cons_black c s : is_whitespace c = false → trim (c :: s) ≠ [].
Proof.
  intros Hc. unfold trim. cbn [trim_start]. rewrite Hc. unfold trim_end. rewrite reverse_cons.
  intros Hr. apply (trim_start_keeps (reverse s) c Hc). by rewrite <-(reverse_involutive (trim_start _)), Hr.
Qed.

(** What a builder gives for a body: all of it, or the notice and the longest end that fits. *)
Definition fits (header notice body : str) (p : Prompt) : Prop :=
  Prompt_as_str p = header ++ body ∧ str_len (Prompt_as_str p) ≤ PROMPT_MAX_BYTES ∨
  PROMPT_MAX_BYTES < str_len (header ++ body) ∧ ∃ cut kept, body = cut ++ kept ∧
    Prompt_as_str p = header ++ notice ++ kept ∧ str_len (Prompt_as_str p) ≤ PROMPT_MAX_BYTES ∧
    ∀ cut' kept', body = cut' ++ kept' → str_len (header ++ notice ++ kept') ≤ PROMPT_MAX_BYTES →
      str_len kept' ≤ str_len kept.

Lemma fit_prompt_fits {E} c h notice body :
  is_whitespace c = false → str_len (c :: h) + str_len notice ≤ PROMPT_MAX_BYTES →
  ∃ p, fit_prompt (E := E) (c :: h) notice body = Ok p ∧ fits (c :: h) notice body p.
Proof.
  intros Hc Hcap. unfold fit_prompt, fits, Prompt_try_from.
  assert (Htrim : ∀ x, is_empty (trim ((c :: h) ++ x)) = false).
  { intros x. pose proof (trim_cons_black c (h ++ x) Hc) as Ht. cbn [app]. by destruct (trim (c :: h ++ x)). }
  set (header := c :: h) in *. clearbody header. revert Hcap. generalize PROMPT_MAX_BYTES. intros cap Hcap.
  rewrite <-str_len_app. destruct (_ <=? cap) eqn:E'; bools.
  - rewrite Htrim, (proj2 (Nat.ltb_ge _ _)) by done. cbn. eexists. split; [done|]. by left.
  - destruct (truncate_from_start_suffix body (cap - (str_len header + str_len notice))) as (cut & Hb & Hl).
    set (kept := truncate_from_start _ _) in *. rewrite Htrim.
    assert (Hlen : str_len (header ++ notice ++ kept) ≤ cap) by (rewrite !str_len_app; lia).
    rewrite (proj2 (Nat.ltb_ge _ _)) by done. cbn. eexists. split; [done|]. right. split; [done|].
    exists cut, kept. split_and!; [done..|]. intros cut' kept' Hb' Hl'. rewrite !str_len_app in Hl'.
    apply (truncate_from_start_longest body _ cut'); [done|lia].
Qed.

(** Both builders of cognition always give a prompt, within its bound: it carries its
    header and its whole body, or the notice and the longest end of the body that fits;
    a reflection on nothing gets the fallback. *)
Theorem cognition_prompts_fit `{UuidPrinter, Rfc3339, JsonPrinter} {E} :
  (∀ ev a b, ∃ p body, build_resolution_prompt (E := E) ev a b = Ok p ∧
     (lit "Reason flagged: " ++ cn_reason ev) `prefix_of` body ∧ fits RESOLUTION_HEADER RESOLUTION_NOTICE body p) ∧
  (∀ slice, ∃ p, build_reflection_prompt (E := E) slice = Ok p ∧
     (trim (concat (render_chat_message <$> slice)) = [] ∧ Prompt_as_str p = REFLECTION_FALLBACK ∨
      fits REFLECTION_HEADER REFLECTION_NOTICE (concat (render_chat_message <$> slice)) p)).
Proof.
  split.
  - intros ev a b. unfold build_resolution_prompt. edestruct (fit_prompt_fits (E := E)) as (p & Hp & Hf); cycle 2.
    + exists p. eexists. split; [exact Hp|]. split; [|exact Hf]. eexists. rewrite <-(assoc_L (++)).
      reflexivity.
    + done.
    + apply Nat.leb_le. by vm_compute.
  - intros slice. unfold build_reflection_prompt. destruct (trim _) as [|x t] eqn:Et; cbn [is_empty].
    + assert (Hp : is_ok (Prompt_try_from REFLECTION_FALLBACK) = true) by by vm_compute.
      destruct (Prompt_try_from REFLECTION_FALLBACK) as [p| |] eqn:Ef; [|done..]. cbn. exists p. split; [done|]. left.
      split; [done|]. apply Prompt_try_from_Ok in Ef as [-> _]. done.
    + edestruct (fit_prompt_fits (E := E)) as (p & Hp & Hf); cycle 2.
      * exists p. split; [exact Hp|]. right. exact Hf.
      * done.
      * apply Nat.leb_le. by vm_compute.
Qed.

(** ** Slices *)

Section slices.
Context (thread : ThreadId).
Implicit Types (s : store) (m : FeedRow).














(** ** Candidates *)



(** ** Histories *)


(** A reflection under way: the candidate it was started for and the rows it was shown. *)
Abbreviation inflight := (option (ReflectionCandidate * list FeedRow)).











End slices.


(** ** A small world *)

Module MindDemo.

#[export] Instance uuid : UuidPrinter := λ n, show_Z (Z.of_N n).
#[export] Instance rfc : Rfc3339 := show_Z.
#[export] Instance json : JsonPrinter := λ _, lit "{}".
#[export] Instance flat : Embedder := λ _, Ok (repeat 0%Z EMBEDDING_DIMENSIONS).
(** The zero vector has no angle to anything. *)
#[export] Instance no_angle : VectorOps := {| distance _ _ := None; similarity _ _ := None; f64_to_f32 q := q |}.

Definition post (id thread : N) (seq at_ : Z) : FeedRow :=
  mkFeedRow id thread seq KPosted (Some 1%N) None None (User [UText (lit "hello")]) None 1 at_ None.
Definition thread_row : ThreadRow := mkThreadRow 1 None None 1 None 0 0.
Definition participation (thread : N) : StateRow := mkStateRow (100 + thread) thread 2 1 0.
Definition people : directory := mkDirectory [mkColleagueRow 1 1 CKHuman (Some 3%N) None; mkColleagueRow 7 1 CKAgent None (Some 2%N)] ∅ ∅ [] [].
Definition no_queue : db := mkDb [] ∅ ∅ ∅ [] [] ∅ ∅.

(** [n] threads whose latest post was reflected on, by an agent whose first reflection on
    them was older than that post; and one thread nobody has reflected on. *)
Definition old_threads (n : nat) : list N := N.of_nat <$> seq 0 n.
Definition feed (n : nat) : store :=
  mkStore (list_to_map ((λ t, (t, thread_row)) <$> (999%N :: old_threads n))) ∅
    (((λ t, post (1000 + t) t 1 20) <$> old_threads n) ++ [post 5000 999 1 30]) ∅ ∅
    (list_to_map ((λ t, ((2%N, t), mkCheckpoint (1000 + t) 10)) <$> old_threads n))
    (participation <$> (999%N :: old_threads n)) [] (λ _, None).
Definition mind_of (s : store) (m : memory) : mind :=
  mkMind m s no_queue people (mkBglog [] []) [mkAgentRef 2 1 0] [mkMemberRef 1 3 0].

(** The checkpoint keeps the time of its creation, so the threads stay candidates after
    every reflection; thirty-two of them fill each batch, oldest first, and the thread
    that was never reflected on is not reached. *)
Example reflected_threads_starve_others :
  let cs := find_candidates 100 (mind_of (feed 32) empty_memory) in
  (length cs, bool_decide (999%N ∈ rc_thread_id <$> cs), forallb (λ c, bool_decide (rc_previous_cursor c = Some (rc_last_message_id c))) cs)
  = (32, false, true).
Proof. by vm_compute. Qed.
Example one_thread_fewer :
  bool_decide (999%N ∈ rc_thread_id <$> find_candidates 100 (mind_of (feed 31) empty_memory)) = true.
Proof. by vm_compute. Qed.

Definition ge : CogEnv :=
  mkCogEnv (λ _, mkMemEnv 50 (λ _, Some 1%N) (λ _, Some 1%N) (λ _, true)) (λ n, (9000 + N.of_nat n)%N)
    (λ n k, (20000 + 100 * N.of_nat n + N.of_nat k)%N) (λ _ _, true) (λ _, 50%Z) None.

(** Each tick opens and seeds another background turn for the thread; the queue, which
    knows the key, keeps its one request. *)
Definition tick (n : nat) (w : mind) : mind :=
  run_tables (reflection_tick calm ge 3000000000 (mkRun w (repeat GRead n))).2.
Definition finish (w : mind) : mind :=
  mi_set_queue (mkDb ((λ r, mkPromptRequest (pr_id r) (pr_org_id r) (pr_idempotency_key r) Done 1 1 false None
      (pr_sender_colleague_id r) (pr_receiver_colleague_id r) (pr_root_request_id r) None (pr_kind r) (pr_kind_payload r)
      None None (pr_background_turn_id r) None (pr_acting_user_id r) 50 50) <$> prompt_requests (mi_queue w)) ∅ ∅ ∅ [] [] ∅ ∅) w.
Definition ticked : mind := tick 0 (mind_of (feed 1) empty_memory).
Definition again : mind := tick 100 (finish ticked).
Example orphaned_turns :
  let n w := (length (prompt_requests (mi_queue w)), length (Agent.background_turns (mi_bg w))) in
  (n ticked, n again) = ((2, 2), (2, 4)).
Proof. by vm_compute. Qed.

Definition note (id : N) (pinned : bool) (content : string) (at_ : Z) : MemoryRow :=
  mkMemory id 2 1 KIdentity (lit content) Held pinned None None at_ at_ at_ 0 (Some (repeat 0%Z EMBEDDING_DIMENSIONS)).
Definition notes : memory := mkMemoryTables [note 10 false "likes tea" 3; note 11 true "works at night" 2] [] [] [].
Definition start : run_state mind cog_call := mkRun (mind_of (feed 0) notes) [].

(** Two memories without an angle count as more alike than any two with one: the
    younger is forgotten, whatever they say. *)
Example zero_vectors_merge :
  (mm_id <$> agent_memories (mi_memory (run_tables (dedup calm ge 2%N start).2))) = [11%N].
Proof. by vm_compute. Qed.

End MindDemo.

(** The scheduler above starts a reflection on the thread nobody had reflected on; it
    fails, the scheduler (with the request gone from the queue) starts another, and
    that one succeeds. *)
Module CoverDemo.

End CoverDemo.

