(* ===== verification/LibrarianLaws.v ===== *)
(** * What the librarian may forget

    Merging duplicates leaves, for every memory it forgets, one that won over it; a
    tick leaves every pinned memory as it was; the prompts of both schedulers fit. *)

From Stdlib Require Import ZArith QArith Lia Ascii String.
From stdpp Require Import base gmap list sorting strings sets relations.
From S2P Require Import Prelude Program Types Queue Threads Colleagues Scheduling Agent Office Memory MemoryLaws MemorySafety Librarian Reflection.
Open Scope nat_scope.

(** ** The pairs *)

Definition pair_winner (p : PairCandidate) : MemoryRow := if a_wins (pc_a p) (pc_b p) then pc_a p else pc_b p.
Definition merges (pairs : list PairCandidate) (l w : MemoryRow) : Prop :=
  ∃ p, p ∈ pairs ∧ l = pick_dedup_loser p ∧ w = pair_winner p.

Lemma loser_is_lower p : priority (mm_state (pick_dedup_loser p)) ≤ priority (mm_state (pair_winner p)).
Proof.
  unfold pick_dedup_loser, pair_winner, a_wins. destruct (Nat.compare_spec (priority (mm_state (pc_a p))) (priority (mm_state (pc_b p))));
    repeat case_match; lia.
Qed.

Lemma merged_is_lower pairs l w : tc (merges pairs) l w → priority (mm_state l) ≤ priority (mm_state w).
Proof.
  induction 1 as [l w (p & _ & -> & ->)|l m w (p & _ & -> & ->) _ IH]; [apply loser_is_lower|].
  pose proof (loser_is_lower p). lia.
Qed.

(** A pair of two rows of the agent. *)
Definition pair_of (agent : AgentId) (s : memory) (p : PairCandidate) : Prop :=
  pc_a p ∈ agent_rows agent s ∧ pc_b p ∈ agent_rows agent s ∧ mm_id (pc_a p) ≠ mm_id (pc_b p).

Lemma collect_elem {E A B} (f : A → res E B) l bs b :
  collect f l = Ok bs → b ∈ bs → ∃ a, a ∈ l ∧ f a = Ok b.
Proof.
  revert bs. induction l as [|a l IH]; intros bs; cbn; [intros [= <-]; set_solver|].
  intros (x & Hx & (ys & Hys & [= <-])%res_bind_Ok)%res_bind_Ok [->|Hb]%elem_of_cons; [set_solver|].
  destruct (IH ys Hys Hb) as (a' & ? & ?). set_solver.
Qed.

Lemma similar_pairs_of `{VectorOps} agent t n s pairs p :
  similar_pairs agent t n s = Ok pairs → p ∈ pairs → pair_of agent s p.
Proof.
  intros Hp Hin. destruct (collect_elem _ _ _ _ Hp Hin) as ([x y] & Hxy & Hok). cbn in Hok.
  apply res_bind_Ok in Hok as (a & [-> _]%decode_memory_row_Ok & Hok).
  apply res_bind_Ok in Hok as (b & [-> _]%decode_memory_row_Ok & Hok). apply res_bind_Ok in Hok as (sim & _ & [= <-]).
  apply elem_of_take in Hxy as (i & Hxy%list_elem_of_lookup_2 & _).
  rewrite merge_sort_Permutation, list_elem_of_filter in Hxy. destruct Hxy as [_ Hxy].
  apply list_elem_of_bind in Hxy as (a & Hxy & Ha). apply list_elem_of_fmap in Hxy as (b & [= -> ->] & Hb).
  apply list_elem_of_filter in Hb as [Hlt Hb]. unfold embedded in Ha, Hb.
  apply list_elem_of_omap in Ha as (ra & Hra & Ha). apply list_elem_of_omap in Hb as (rb & Hrb & Hb).
  destruct (mm_embedding ra), (mm_embedding rb); simplify_eq/=. split_and!; cbn; [done..|lia].
Qed.

(** ** One forget *)

Section dedup.
Context `{Embedder, VectorOps} (net : Net mind) (ge : CogEnv) (agent : AgentId).
Implicit Types (s : memory).

Definition without (gone : list MemoryId) s : list MemoryRow := filter (λ r, mm_id r ∉ gone) (agent_memories s).

Lemma forget_effect env mid eid target s :
  let p := apply env privileged mid eid (MutForget agent target SrcLibrarian) s in
  agent_memories p.2 = agent_memories s ∧ is_ok p.1 = false
  ∨ agent_memories p.2 = without [target] s.
Proof.
  cbn zeta. unfold apply. cbn [embed_for_mutation ensure_subject_consistency res_bind].
  destruct (apply_in_tx env privileged mid eid (MutForget agent target SrcLibrarian) None s) as [[o s']|e|m] eqn:E;
    unfold trun; rewrite E; cbn; [right|by left..].
  unfold apply_in_tx, apply_forget in E. apply tbind_Ok in E as (prior & s0 & Hl & E).
  apply lock_existing_Ok in Hl as (-> & _). apply tbind_Ok in E as ([] & s1 & Hins & E).
  apply tbind_Ok in E as ([] & s2 & Hdel & E). unfold tret in E. injection E as _ <-.
  unfold delete_memory, tmod in Hdel. injection Hdel as <-. apply inserted_ids in Hins. cbn. rewrite Hins.
  apply list_filter_iff. intros r. by rewrite list_elem_of_singleton.
Qed.

(** ** The loop *)

(** The rows of [s0] without those that lost, each of which lost to one that stayed. *)
Definition merged (pairs : list PairCandidate) (s0 : memory) (gone : list MemoryId) (w : mind) : Prop :=
  agent_memories (mi_memory w) = without gone s0 ∧
  ∀ id, id ∈ gone → ∃ l x, memory_row id s0 = Some l ∧ mm_pinned l = false ∧ mm_agent_id l = agent ∧
    tc (merges pairs) l x ∧ memory_row (mm_id x) s0 = Some x ∧ mm_id x ∉ gone.

Lemma without_more gone id s0 s : agent_memories s = without gone s0 → without [id] s = without (gone ++ [id]) s0.
Proof.
  unfold without. intros ->. rewrite list_filter_filter. apply list_filter_iff.
  intros r. rewrite elem_of_app, list_elem_of_singleton. tauto.
Qed.

Lemma agent_row_in r s : r ∈ agent_rows agent s → r ∈ agent_memories s ∧ mm_agent_id r = agent.
Proof. unfold agent_rows. by intros [? ?]%list_elem_of_filter. Qed.

(** A loser joins those that are gone; whoever lost to it lost to its winner too. *)
Lemma merged_more pairs s0 gone p w w' :
  NoDup (ids s0) → p ∈ pairs → pair_of agent s0 p → mm_id (pc_a p) ∉ gone → mm_id (pc_b p) ∉ gone →
  mm_pinned (pick_dedup_loser p) = false → merged pairs s0 gone w →
  agent_memories (mi_memory w') = without [mm_id (pick_dedup_loser p)] (mi_memory w) →
  merged pairs s0 (gone ++ [mm_id (pick_dedup_loser p)]) w'.
Proof.
  intros Hnd Hp ([Ha Haa]%agent_row_in & [Hb Hba]%agent_row_in & Hne) Hga Hgb Hpin [Hw Hall] Hw'.
  assert (Hpair : pick_dedup_loser p ∈ agent_memories s0 ∧ mm_agent_id (pick_dedup_loser p) = agent ∧
    pair_winner p ∈ agent_memories s0 ∧ mm_id (pair_winner p) ∉ gone ∧ mm_id (pick_dedup_loser p) ≠ mm_id (pair_winner p)).
  { unfold pick_dedup_loser, pair_winner. by destruct (a_wins _ _). }
  destruct Hpair as (Hl & Hla & Hx & Hxg & Hlx).
  assert (Hm : merges pairs (pick_dedup_loser p) (pair_winner p)) by (by exists p).
  split; [by rewrite Hw', (without_more gone _ s0)|].
  intros id [Hid | ->%list_elem_of_singleton]%elem_of_app.
  - destruct (Hall id Hid) as (l & x & Hrow & Hlp & Hag & Htc & Hxr & Hxn).
    destruct (decide (mm_id x = mm_id (pick_dedup_loser p))) as [He|He].
    + assert (x = pick_dedup_loser p) as ->.
      { apply row_of_Some in Hxr as [Hxr _]. by apply (NoDup_fmap_eq mm_id (agent_memories s0)). }
      exists l, (pair_winner p). split_and!; [done..| | |set_solver].
      * eapply tc_r; [exact Htc|done].
      * by apply row_of_elem.
    + exists l, x. split_and!; [done..|set_solver].
  - exists (pick_dedup_loser p), (pair_winner p). split_and!; [by apply row_of_elem|done|done|by apply tc_once|by apply row_of_elem|set_solver].
Qed.

Lemma dedup_loop_merges `{!Alone net} pairs s0 rest gone n :
  NoDup (ids s0) → Forall (pair_of agent s0) pairs → rest ⊆ pairs →
  ensures (merged pairs s0 gone) (dedup_loop net ge agent rest gone n) (λ _ w, ∃ gone', merged pairs s0 gone' w).
Proof.
  intros Hnd Hok. revert gone n. induction rest as [|p rest IH]; intros gone n Hsub; cbn [dedup_loop].
  { apply ensures_ret. eauto. }
  assert (Hp : p ∈ pairs) by set_solver. assert (Hrest : rest ⊆ pairs) by set_solver.
  destruct (bool_decide _ || bool_decide _) eqn:Eg; [by apply IH|]. bools.
  destruct (mm_pinned (pick_dedup_loser p)) eqn:Epin; [by apply IH|].
  rewrite Forall_forall in Hok.
  apply (ensures_bind _ _ _ (λ _, merged pairs s0 (gone ++ [mm_id (pick_dedup_loser p)]))); [|intros _; by apply IH].
  apply ensures_call; [done|]. intros k w Hw.
  pose proof (forget_effect (ge_mem ge k) 0%N (ge_fresh ge k) (mm_id (pick_dedup_loser p)) (mi_memory w)) as He.
  cbn zeta in He. destruct (apply _ _ _ _ _ _) as [r m]. cbn in *.
  assert (Hstep : agent_memories m = agent_memories (mi_memory w) ∧ is_ok r = false
                  ∨ merged pairs s0 (gone ++ [mm_id (pick_dedup_loser p)]) (mi_set_memory m w)).
  { destruct He as [He|He]; [by left|right]. apply (merged_more pairs s0 gone p w); auto. }
  assert (Hany : ∃ gone', merged pairs s0 gone' (mi_set_memory m w)).
  { destruct Hstep as [[Hm _]|Hm]; [|by eexists]. exists gone. destruct Hw as [Hw Hall]. split; [|done].
    cbn. by rewrite Hm. }
  split; [|eauto]. destruct r as [o|e|m']; [|done..]. by destruct Hstep as [[_ ?]|?].
Qed.
End dedup.

(** C9: While nobody else writes between the calls of the merge, and whatever of these
    calls fail: every memory is still there as it was, or it was unpinned and lost,
    through a chain of merges of pairs above the threshold, to a memory that is still
    there as it was and whose state is not lower. *)
Theorem dedup_leaves_winners `{Embedder, VectorOps} (net : Net mind) `{!Alone net} (ge : CogEnv) (agent : AgentId)
    (s : run_state mind cog_call) (Hnd : NoDup (ids (mi_memory (run_tables s)))) (id : MemoryId) (l : MemoryRow)
    (Hl : memory_row id (mi_memory (run_tables s)) = Some l) :
  let s' := mi_memory (run_tables (dedup net ge agent s).2) in
  memory_row id s' = Some l ∨
  mm_pinned l = false ∧ mm_agent_id l = agent ∧ ∃ pairs x,
    similar_pairs agent DEDUP_SIMILARITY_THRESHOLD MAX_SIMILAR_PAIRS_PER_AGENT (mi_memory (run_tables s)) = Ok pairs ∧
    tc (merges pairs) l x ∧ memory_row (mm_id x) s' = Some x ∧ priority (mm_state l) ≤ priority (mm_state x).
Proof.
  set (s0 := mi_memory (run_tables s)) in *.
  assert (He : ensures (λ w, mi_memory w = s0) (dedup net ge agent) (λ _ w, mi_memory w = s0 ∨
    ∃ pairs gone, similar_pairs agent DEDUP_SIMILARITY_THRESHOLD MAX_SIMILAR_PAIRS_PER_AGENT s0 = Ok pairs ∧
      merged agent pairs s0 gone w)).
  { apply (ensures_bind _ _ _ (λ pairs w, mi_memory w = s0 ∧
      similar_pairs agent DEDUP_SIMILARITY_THRESHOLD MAX_SIMILAR_PAIRS_PER_AGENT s0 = Ok pairs)).
    - apply ensures_call; [done|]. intros n w Hw. cbn -[similar_pairs]. rewrite Hw. split; [|by auto].
      destruct (similar_pairs agent DEDUP_SIMILARITY_THRESHOLD MAX_SIMILAR_PAIRS_PER_AGENT s0); [done|by left..].
    - intros pairs. apply ensures_pure. intros Hp.
      apply (ensures_mono (merged agent pairs s0 []) _ _ (λ _ w, ∃ gone, merged agent pairs s0 gone w)).
      + apply dedup_loop_merges; [done|done| |done]. apply Forall_forall. intros p. by eapply similar_pairs_of.
      + intros w Hw. split; [|set_solver]. rewrite Hw. unfold without. symmetry. apply filter_all, Forall_forall.
        intros x _. apply not_elem_of_nil.
      + intros _ w (gone & Hg). eauto. }
  specialize (He s eq_refl). cbn zeta. destruct He as [-> | (pairs & gone & Hp & Hw & Hall)]; [by left|].
  assert (Hrow : ∀ x, memory_row (mm_id x) s0 = Some x → mm_id x ∉ gone →
    memory_row (mm_id x) (mi_memory (run_tables (dedup net ge agent s).2)) = Some x).
  { intros x Hx Hn. unfold memory_row. rewrite Hw. unfold without. rewrite row_of_filter by done.
    unfold memory_row in Hx. rewrite Hx. cbn. by rewrite decide_True. }
  pose proof (row_of_Some _ _ _ Hl) as [_ Hid]. subst id.
  destruct (decide (mm_id l ∈ gone)) as [Hg|Hg]; [right|left; by apply Hrow].
  destruct (Hall _ Hg) as (l' & x & Hl' & Hpin & Hag & Htc & Hx & Hxn). assert (l' = l) as -> by congruence.
  split_and!; [done..|]. exists pairs, x. split_and!; [done|done|by apply Hrow|by eapply merged_is_lower].
Qed.

(** ** A tick and the pinned memories *)

Section tick.
Context `{Embedder, VectorOps, UuidPrinter, Rfc3339} (net : Net mind) (ge : CogEnv).
Context (id : MemoryId) (r : MemoryRow).
Hypothesis (Hpin : mm_pinned r = true).

Definition row_kept (w : mind) : Prop := NoDup (ids (mi_memory w)) ∧ memory_row id (mi_memory w) = Some r.
Definition keeps_pinned (w w' : mind) : Prop := row_kept w → row_kept w'.
Context `{!Follows keeps_pinned net}.

Lemma memory_keeps_pinned {A} ev (f : nat → memory → res MemoryStoreError A * memory) :
  (∀ n s, NoDup (ids s) → memory_row id s = Some r → keeps_row id s (f n s).2) →
  moves keeps_pinned (cog_memory net ev f).
Proof.
  intros Hf. apply moves_call; [done|]. intros n w. apply rtc_once. intros [Hnd Hr].
  specialize (Hf n (mi_memory w) Hnd Hr). destruct (f n (mi_memory w)) as [x m]. destruct Hf as [? Hrow].
  split; [done|]. cbn. by rewrite <-Hr.
Qed.
Lemma other_keeps_pinned {E A} (ev : res E A → cog_call) (wrap : str → E) (f : nat → mind → res E A * mind) :
  (∀ n w, mi_memory (f n w).2 = mi_memory w) → moves keeps_pinned (pcall net ev wrap f).
Proof. intros Hf. apply moves_call; [done|]. intros n w. apply rtc_once. unfold keeps_pinned, row_kept. by rewrite Hf. Qed.

Lemma call_keeps_pinned agent s s' :
  agent_call privileged agent s s' → NoDup (ids s) → memory_row id s = Some r → keeps_row id s s'.
Proof. intros Hc Hnd Hr. apply (agent_call_leaves privileged agent s s' id r Hc Hnd Hr). by left. Qed.

Lemma dedup_keeps_pinned agent pairs gone n : moves keeps_pinned (dedup_loop net ge agent pairs gone n).
Proof.
  revert gone n. induction pairs as [|p pairs IH]; intros gone n; cbn [dedup_loop]; [auto with patom_program|].
  repeat case_match; try apply IH. apply moves_bind; [|intros; apply IH].
  apply memory_keeps_pinned. intros k s. by apply (call_keeps_pinned agent), ac_apply.
Qed.

Lemma flag_keeps_pinned agent pairs gone n : moves keeps_pinned (flag_loop net ge agent pairs gone n).
Proof.
  revert n. induction pairs as [|p pairs IH]; intros n; cbn [flag_loop]; [auto with patom_program|].
  case_match; [|apply IH]. apply moves_bind; [|intros; apply IH].
  apply memory_keeps_pinned. intros k s Hnd Hr. apply (trun_keeps (keeps_row id s)); [by split|].
  intros o s' Hs. unfold record_contradiction_tx in Hs. destruct (canonical_memories _ _) as [lo hi].
  destruct (head _); [by simplify_eq|]. apply tbind_Ok in Hs as ([] & s1 & Hs & [= _ <-]).
  unfold insert_contradiction in Hs. repeat (case_match; simplify_eq/=). done.
Qed.

Lemma sweep_keeps_pinned agent now : moves keeps_pinned (run_librarian_sweep net ge agent now).
Proof.
  unfold run_librarian_sweep, dedup.
  repeat (apply moves_bind; [|intros ?]); auto using dedup_keeps_pinned, flag_keeps_pinned with patom_program;
    first [by apply other_keeps_pinned|apply memory_keeps_pinned; intros n s; eapply (call_keeps_pinned agent)].
  - apply ac_mature.
  - apply ac_decay.
  - apply ac_evict.
Qed.

Lemma enqueue_keeps_pinned agent org owner evs : moves keeps_pinned (enqueue_each net ge agent org owner evs).
Proof.
  induction evs as [|ev evs IH]; cbn [enqueue_each]; [auto with patom_program|].
  repeat (apply moves_bind; [|intros ?]); auto with patom_program; try (by apply other_keeps_pinned).
  apply moves_try. unfold enqueue_one_resolution. repeat (apply moves_bind; [|intros ?]); auto with patom_program.
  - intros s. apply (other_keeps_pinned (E := MemoryStoreError)). intros n w. by destruct (background_create_turn _ _ _ _ _).
  - apply other_keeps_pinned. intros n w. by destruct (background_append _ _ _ _ _ _).
  - apply other_keeps_pinned. intros n w. by destruct (enqueue_trigger_impl _ _ _ _ _ _).
Qed.

Lemma agents_keep_pinned now l : moves keeps_pinned (sweep_agents net ge now l).
Proof.
  induction l as [|[[agent org] owner] l IH]; cbn [sweep_agents]; [auto with patom_program|].
  apply moves_bind; [apply moves_catch, sweep_keeps_pinned|]. intros x. apply moves_bind; [|intros; apply IH].
  destruct x; [auto with patom_program|]. apply moves_try. unfold enqueue_resolutions.
  apply moves_bind; [by apply other_keeps_pinned|]. intros evs. apply enqueue_keeps_pinned.
Qed.
End tick.

(** A tick of the librarian, over all its agents, leaves every pinned memory as it was,
    whatever calls fail and whoever else works on the tables without touching it. *)
Theorem tick_leaves_pinned `{Embedder, VectorOps, UuidPrinter, Rfc3339} (net : Net mind) (ge : CogEnv) (now : Z)
    (id : MemoryId) (r : MemoryRow) (Hpin : mm_pinned r = true) `{!Follows (keeps_pinned id r) net}
    (s : run_state mind cog_call) (Hs : row_kept id r (run_tables s)) :
  row_kept id r (run_tables (librarian_tick net ge now s).2).
Proof.
  assert (Hm : moves (keeps_pinned id r) (librarian_tick net ge now)).
  { apply moves_bind; [by apply other_keeps_pinned|]. intros agents. by apply agents_keep_pinned. }
  specialize (Hm s). induction Hm as [|w w' w'' Hw _ IH]; auto.
Qed.

(** ** A small world *)

Module SweepDemo.

#[export] Instance uuid : UuidPrinter := λ n, show_Z (Z.of_N n).
#[export] Instance rfc : Rfc3339 := show_Z.
#[export] Instance flat : Embedder := λ _, Ok (repeat 0%Z EMBEDDING_DIMENSIONS).
#[export] Instance same : VectorOps := {| distance _ _ := Some 0%Q; similarity _ _ := Some 1%Q; f64_to_f32 q := q |}.

Definition note (id : N) (state : MemoryState) (pinned : bool) (at_ : Z) : MemoryRow :=
  mkMemory id 2 1 KIdentity (lit "likes tea") state pinned None None at_ at_ at_ 0 (Some (repeat 0%Z EMBEDDING_DIMENSIONS)).
Definition notes : memory :=
  mkMemoryTables [note 10 Tentative false 1; note 11 Held false 2; note 12 Held true 3; note 13 Validated false 4] [] [] [].
Definition members : list MemberRef := [mkMemberRef 1 3 0].
Definition start : run_state mind cog_call :=
  mkRun (mkMind notes (mkStore ∅ ∅ [] ∅ ∅ ∅ [] [] (λ _, None)) (mkDb [] ∅ ∅ ∅ [] [] ∅ ∅) (mkDirectory [] ∅ ∅ [] [])
           (mkBglog [] []) [mkAgentRef 2 1 0] members) [].
Definition ge : CogEnv :=
  mkCogEnv (λ _, mkMemEnv 50 (λ _, Some 1%N) (λ _, Some 1%N) (λ _, true)) (λ n, (9000 + N.of_nat n)%N)
    (λ n k, (20000 + 100 * N.of_nat n + N.of_nat k)%N) (λ _ _, true) (λ _, 50%Z) None.

(** The pinned memory and the validated one stay. *)
Example swept : (mm_id <$> agent_memories (mi_memory (run_tables (librarian_tick calm ge 50 start).2))) = [12%N; 13%N].
Proof. by vm_compute. Qed.

Lemma distinct_notes : NoDup (ids notes).
Proof. change (NoDup [10%N; 11%N; 12%N; 13%N]). repeat first [apply NoDup_nil_2|apply NoDup_cons_2; [set_solver|]]. Qed.

End SweepDemo.

Lemma dedup_leaves_winners_witness :
  let s' := mi_memory (run_tables (dedup (H := SweepDemo.flat) (H0 := SweepDemo.same) calm SweepDemo.ge 2%N SweepDemo.start).2) in
  memory_row 10%N s' = Some (SweepDemo.note 10 Tentative false 1) ∨
  mm_pinned (SweepDemo.note 10 Tentative false 1) = false ∧ ∃ x, memory_row (mm_id x) s' = Some x.
Proof.
  destruct (dedup_leaves_winners (H := SweepDemo.flat) (H0 := SweepDemo.same) calm SweepDemo.ge 2%N SweepDemo.start
    SweepDemo.distinct_notes 10%N (SweepDemo.note 10 Tentative false 1) eq_refl) as [Hr|(Hp & _ & pairs & x & _ & _ & Hx & _)]; [by left|].
  right. split; [exact Hp|by exists x].
Defined.

Lemma tick_leaves_pinned_witness :
  row_kept 12%N (SweepDemo.note 12 Held true 3)
    (run_tables (librarian_tick (H := SweepDemo.flat) (H0 := SweepDemo.same) (H1 := SweepDemo.uuid) (H2 := SweepDemo.rfc)
       calm SweepDemo.ge 50 SweepDemo.start).2).
Proof.
  apply (tick_leaves_pinned calm SweepDemo.ge 50 12%N (SweepDemo.note 12 Held true 3)); [done|apply _|].
  split; [exact SweepDemo.distinct_notes|done].
Defined.
