(* ===== verification/MemoryTools.v ===== *)
(** * The memory tools

    [tools/system/memory]: [memory_write], [memory_update], [memory_forget],
    [memory_validate] and [recall].  Each is a program on the tables and the counters
    of calls per turn: it counts, reads the section to find the id behind a handle,
    and makes its change in a transaction of the acting user.  Decoding the JSON
    arguments is serde's.
    Then what the tools leave alone. *)

From Stdlib Require Import ZArith QArith Lia Ascii String.
From stdpp Require Import base gmap list fin_maps strings sets relations.
From S2P Require Import Prelude Program Types Queue Threads Colleagues Compaction Tools Agent Approvals Office Memory MemoryLaws MemorySafety Composer Profiles.

Open Scope nat_scope.

Definition MAX_MEMORY_MUTATIONS_PER_TURN : nat := 8.
Definition MAX_RECALL_CALLS_PER_TURN : nat := 6.

(** ** Calls per turn *)

(** The counter of [memory/mod.rs]. *)
Record CallCounter := mkCallCounter { cc_inner : gmap PromptRequestId nat; cc_cap : nat; cc_max_entries : nat }.
Definition counter_of (cap : nat) : CallCounter := mkCallCounter ∅ cap 1024.

(** The whole map is cleared when a new request finds it full. *)
Definition count_call (request : PromptRequestId) (c : CallCounter) : (nat + nat) * CallCounter :=
  let map := if (cc_max_entries c <=? size (cc_inner c)) && negb (bool_decide (is_Some (cc_inner c !! request)))
             then ∅ else cc_inner c in
  let entry := default 0 (map !! request) in
  if cc_cap c <=? entry
  then (inl (cc_cap c), mkCallCounter (<[request := entry]> map) (cc_cap c) (cc_max_entries c))
  else (inr (S entry), mkCallCounter (<[request := S entry]> map) (cc_cap c) (cc_max_entries c)).

(** ** The world of a tool call *)

Record mem_world := mkMemWorld { mw_memory : memory; mw_mutations : CallCounter; mw_recalls : CallCounter }.
Definition set_memory (m : memory) (w : mem_world) : mem_world := mkMemWorld m (mw_mutations w) (mw_recalls w).

Inductive mem_call := CCount | CRead | CApply | CValidate | CResolve | CSearch | CAccess.
Abbreviation MProg := (Prog mem_world mem_call ToolError).

(** What a call needs of its turn and of the deployment: the clock, the fresh ids,
    what the acting user sees, the roster. *)
Record MemToolEnv := mkMemToolEnv {
  mt_env : nat → MemEnv; mt_memory_id : MemoryId; mt_event_id : MemoryEventId; mt_validation_id : ValidationEventId;
  mt_sees : Scope; mt_roster : OrgId → res ColleagueError (list ColleagueRef) }.

(** The text of a memory error. *)
Class MemoryTurnErrorText := memory_error_text : MemoryError → str.

Section tools.
Context `{Embedder, VectorOps, MemoryErrorText, MemoryTurnErrorText} (net : Net mem_world) (te : MemToolEnv)
  (ctx : ToolCallContext).

Definition store_to_tool_err (e : MemoryStoreError) : ToolError :=
  match e with
  | MemNotFound _ | MemEventNotFound _ | ContradictionNotFound _ | WrongAgent _ _ | PinnedImmutable _
  | SubjectRequiredForCollaborator | SubjectNotInOrg _ | MemParse _ => InvalidInput (store_error_text e)
  | MemDb _ | MemProvider _ | MemBackend _ => ToolBackend (store_error_text e)
  end.
Definition parse_to_tool_err (e : ParseError) : ToolError := InvalidInput (ParseError_to_string e).

(** A call of the store: its result, its effect; [err] is what its errors become. *)
Definition mem_step_as {A} (err : MemoryStoreError → ToolError) (ev : mem_call)
    (f : nat → memory → res MemoryStoreError A * memory) : MProg A :=
  pcall net (λ _, ev) (λ m, ToolBackend m) (λ n w,
    let '(r, m) := f n (mw_memory w) in (res_map_err err r, set_memory m w)).
Definition mem_step {A} := mem_step_as (A := A) store_to_tool_err.
Definition mem_read {A} := mem_step_as (A := A) (ToolBackend ∘ memory_error_text ∘ MemoryBackend ∘ store_error_text).

Definition expect_agent : MProg AgentId :=
  plift (ok_or (participant_agent (tcx_viewer ctx)) (ToolBackend (lit "memory tool invoked with non-agent viewer"))).

Definition cap_exceeded (cap : nat) : ToolError :=
  InvalidInput (lit "memory mutation cap exceeded for this turn (max " ++ show_Z (Z.of_nat cap) ++ lit " mutations)").
Definition recall_exceeded : ToolError :=
  InvalidInput (lit "recall call cap exceeded for this turn (max "
                ++ show_Z (Z.of_nat MAX_RECALL_CALLS_PER_TURN) ++ lit " calls)").

(** The counters are in memory: the call cannot fail. *)
Definition local_step {A} (f : mem_world → res ToolError A * mem_world) : MProg A := λ s,
  let '(r, w) := f (run_tables s) in (r, mkRun w (run_trace s ++ [CCount])).

Definition check_mutation_cap : MProg unit := local_step (λ w,
  let '(r, c) := count_call (tcx_request_id ctx) (mw_mutations w) in
  (match r with inl cap => Err (cap_exceeded cap) | inr _ => Ok tt end,
   mkMemWorld (mw_memory w) c (mw_recalls w))).
Definition check_recall_cap : MProg unit := local_step (λ w,
  let '(r, c) := count_call (tcx_request_id ctx) (mw_recalls w) in
  (match r with inl _ => Err recall_exceeded | inr _ => Ok tt end,
   mkMemWorld (mw_memory w) (mw_mutations w) c)).

Definition turn_contradiction : option ContradictionEventId :=
  match tcx_kind_payload ctx with PResolution id => Some id | _ => None end.

(** [resolve_handle]: the section is composed anew, with its own reads. *)
Definition tool_section (agent : AgentId) : MProg MemorySection :=
  rows <-% mem_read CRead (λ _ s, (list_memories agent s, s)) ;
  reserved <-% match turn_contradiction with
               | Some id => mem_read CRead (λ _ s, (Ok (resolve_reserved_pair (Some id) s), s))
               | None => pret []
               end ;
  subjects <-% plift (res_map_err (ToolBackend ∘ memory_error_text) (hydrate_subjects (mt_roster te) rows)) ;
  plift (compose_memory_section rows [] reserved subjects).

Definition resolve_handle (agent : AgentId) (h : MemoryHandle) : MProg MemoryId :=
  section <-% tool_section agent ;
  plift (ok_or (section_resolve_handle h section)
           (InvalidInput (lit "unknown memory handle " ++ MemoryHandle_display h
              ++ lit "; check the `## Memory` section in your system prompt for valid handles"))).

Definition apply_for_user (m : MemoryMutation) : MProg MutationOutcome :=
  mem_step CApply (λ n s, apply (mt_env te n) (mt_sees te) (mt_memory_id te) (mt_event_id te) m s).

Definition maybe_close_resolution (event : MemoryEventId) : MProg unit :=
  match turn_contradiction with
  | Some id => mem_step CResolve (λ n s,
      trun (resolve_contradiction_tx (mt_env te n) (mt_sees te) id (ByMutation event)) s)
  | None => pret tt
  end.

Record WriteOutput := mkWriteOutput { wo_memory_id : MemoryId; wo_kind : MemoryKind }.

Definition memory_write (kind : MemoryKind) (content : str) (subject : option ColleagueId) : MProg WriteOutput :=
  agent <-% expect_agent ;
  check_mutation_cap ;;%
  content <-% plift (res_map_err parse_to_tool_err (MemoryContent_try_from content)) ;
  outcome <-% apply_for_user (MutWrite agent kind content Tentative false subject (SrcTurn (tcx_request_id ctx))) ;
  pret (mkWriteOutput (mo_memory_id outcome) kind).

Record HandleOutput := mkHandleOutput { ho_memory_id : MemoryId; ho_handle : str; ho_status : string }.

Definition memory_update (handle content : str) : MProg HandleOutput :=
  agent <-% expect_agent ;
  check_mutation_cap ;;%
  h <-% plift (res_map_err parse_to_tool_err (MemoryHandle_parse handle)) ;
  id <-% resolve_handle agent h ;
  content <-% plift (res_map_err parse_to_tool_err (MemoryContent_try_from content)) ;
  outcome <-% apply_for_user (MutUpdate agent id content Tentative (SrcTurn (tcx_request_id ctx))) ;
  maybe_close_resolution (mo_event_id outcome) ;;%
  pret (mkHandleOutput (mo_memory_id outcome) (MemoryHandle_display h) (MemoryState_as_str Tentative)).

Definition memory_forget (handle : str) : MProg HandleOutput :=
  agent <-% expect_agent ;
  check_mutation_cap ;;%
  h <-% plift (res_map_err parse_to_tool_err (MemoryHandle_parse handle)) ;
  id <-% resolve_handle agent h ;
  outcome <-% apply_for_user (MutForget agent id (SrcTurn (tcx_request_id ctx))) ;
  maybe_close_resolution (mo_event_id outcome) ;;%
  pret (mkHandleOutput (mo_memory_id outcome) (MemoryHandle_display h) "forgotten").

Definition memory_validate (handle evidence : str) : MProg HandleOutput :=
  agent <-% expect_agent ;
  check_mutation_cap ;;%
  h <-% plift (res_map_err parse_to_tool_err (MemoryHandle_parse handle)) ;
  id <-% resolve_handle agent h ;
  evidence <-% plift (res_map_err parse_to_tool_err (MemoryEvidence_try_from evidence)) ;
  row <-% mem_step CValidate (λ n s,
    trun (record_validation_tx (mt_env te n) (mt_sees te) (mt_validation_id te) (mt_event_id te) agent id
            (OriginAgent (tcx_request_id ctx)) (Some (MemoryEvidence_as_str evidence))) s) ;
  pret (mkHandleOutput (mm_id row) (MemoryHandle_display h) (MemoryState_as_str (mm_state row))).

Record RecallItem := mkRecallItem {
  ri_memory_id : MemoryId; ri_kind : MemoryKind; ri_state : MemoryState; ri_content : str; ri_similarity : option Q }.

Definition recall (query : str) (kind : option MemoryKind) (limit : RecallLimit) : MProg (list RecallItem) :=
  agent <-% expect_agent ;
  check_recall_cap ;;%
  e <-% plift (res_map_err (λ m, ToolBackend (lit "embedding query failed: " ++ m)) (embed query)) ;
  results <-% mem_step CSearch (λ _ s,
    (search_by_embedding agent e (Z.to_nat (RecallLimit_get limit)) (mkSearchFilter ((λ k, [k]) <$> kind) None) s, s)) ;
  ptry (mem_step CAccess (λ n s,
    trun (record_access_tx (mt_env te n) (mt_sees te) ((λ r, mm_id (sc_row r)) <$> results)) s)) ;;%
  pret ((λ r, mkRecallItem (mm_id (sc_row r)) (mm_kind (sc_row r)) (mm_state (sc_row r)) (mm_content (sc_row r))
                (sc_similarity r)) <$> results).
End tools.

(** * No memory tool touches what the agent may not

    Whatever the model asks of the five memory tools, whatever calls fail and whatever
    others do that leave the row alone, a pinned memory and a memory of another agent
    are left as they were. *)

(** ** A row that stays *)

Section tools.
Context `{Embedder, VectorOps, MemoryErrorText, MemoryTurnErrorText} (te : MemToolEnv) (ctx : ToolCallContext).
Context (c : ColleagueId) (agent : AgentId) (id : MemoryId) (r : MemoryRow).
Hypothesis (Hctx : tcx_viewer ctx = AgentP c agent).
Hypothesis (Hsh : shielded agent r).

(** The content, state, pin and owner of the row; reads may move its clock. *)
Definition unchanged (x : MemoryRow) : Prop := erased x = erased r.
Definition row_stays (w : mem_world) : Prop :=
  NoDup (ids (mw_memory w)) ∧ ∃ x, memory_row id (mw_memory w) = Some x ∧ unchanged x.
Definition may (w w' : mem_world) : Prop := row_stays w → row_stays w'.

Lemma unchanged_shielded x : unchanged x → shielded agent x.
Proof.
  unfold unchanged, shielded. intros Hx. pose proof (f_equal mm_pinned Hx) as Hp.
  pose proof (f_equal mm_agent_id Hx) as Ha. cbn in Hp, Ha. rewrite Hp, Ha. done.
Qed.

Context (net : Net mem_world) `{!Follows may net}.

Lemma step_stays {A} err ev (f : nat → memory → res MemoryStoreError A * memory) :
  (∀ n s x, NoDup (ids s) → memory_row id s = Some x → unchanged x →
     NoDup (ids (f n s).2) ∧ ∃ x', memory_row id (f n s).2 = Some x' ∧ unchanged x') →
  moves may (mem_step_as net err ev f).
Proof.
  intros Hf. apply moves_call; [done|]. intros n w. apply rtc_once. intros (Hnd & x & Hx & Hu).
  specialize (Hf n (mw_memory w) x Hnd Hx Hu). destruct (f n (mw_memory w)) as [y m]. done.
Qed.

Lemma read_stays {A} err ev (f : memory → res MemoryStoreError A) :
  moves may (mem_step_as net err ev (λ _ s, (f s, s))).
Proof. apply step_stays. eauto. Qed.

Lemma kept_stays s s' x :
  memory_row id s = Some x → unchanged x → keeps_row id s s' →
  NoDup (ids s') ∧ ∃ x', memory_row id s' = Some x' ∧ unchanged x'.
Proof. intros Hx Hu [Hnd Hr]. split; [done|]. exists x. by rewrite Hr. Qed.

Lemma count_stays {A} (f : mem_world → res ToolError A * mem_world) :
  (∀ w, mw_memory (f w).2 = mw_memory w) → moves may (local_step f).
Proof.
  intros Hf s. unfold local_step. specialize (Hf (run_tables s)). destruct (f (run_tables s)) as [y w]. cbn in *.
  apply rtc_once. unfold may, row_stays. by rewrite Hf.
Qed.

Lemma mutation_cap_stays : moves may (check_mutation_cap ctx).
Proof. apply count_stays. intros w. by destruct (count_call _ _). Qed.
Lemma recall_cap_stays : moves may (check_recall_cap ctx).
Proof. apply count_stays. intros w. by destruct (count_call _ _). Qed.

Lemma apply_stays m :
  mutation_agent m = agent → mutation_source_of m ≠ SrcOperator → moves may (apply_for_user net te m).
Proof.
  intros Ha Hs. apply step_stays. intros n s x Hnd Hx Hu. apply (kept_stays s _ x); [done..|].
  by apply (apply_leaves (mt_sees te) agent _ _ _ m s id x), unchanged_shielded.
Qed.

Lemma same_rows s s' x :
  NoDup (ids s) → memory_row id s = Some x → unchanged x → agent_memories s' = agent_memories s →
  NoDup (ids s') ∧ ∃ x', memory_row id s' = Some x' ∧ unchanged x'.
Proof. intros Hnd Hx Hu Hm. unfold memory_row. rewrite Hm. eauto. Qed.

Lemma resolve_stays event : moves may (maybe_close_resolution net te ctx event).
Proof.
  unfold maybe_close_resolution. destruct (turn_contradiction ctx) as [cid|]; [|apply moves_ret].
  apply step_stays. intros n s x Hnd Hx Hu. apply (same_rows s _ x); [done..|].
  apply (trun_keeps (λ s', agent_memories s' = agent_memories s)); [done|]. intros [] s' Hs.
  unfold resolve_contradiction_tx in Hs. destruct (filter _ _); [destruct (is_empty _); [done|by injection Hs as <-]|].
  repeat (match type of Hs with (if ?b then _ else _) = _ => destruct b; [done|] end). by injection Hs as <-.
Qed.

Lemma section_stays : moves may (tool_section net te ctx agent).
Proof.
  apply moves_bind; [apply read_stays|]. intros rows.
  apply moves_bind; [destruct (turn_contradiction ctx); [apply read_stays|apply moves_ret]|]. intros reserved.
  apply moves_bind; [apply moves_lift|]. intros subjects. apply moves_lift.
Qed.

Lemma handle_stays h : moves may (resolve_handle net te ctx agent h).
Proof. apply moves_bind; [apply section_stays|]. intros s. apply moves_lift. Qed.

Lemma agent_stays {A} (k : AgentId → Prog mem_world mem_call ToolError A) :
  moves may (k agent) → moves may (pbind (expect_agent ctx) k).
Proof. intros Hk s. unfold expect_agent. rewrite Hctx. cbn. apply Hk. Qed.

Lemma access_stays l : moves (E := ToolError) may (ptry (mem_step net CAccess (λ n s,
    trun (record_access_tx (mt_env te n) (mt_sees te) l) s)) : Prog mem_world mem_call ToolError unit).
Proof.
  apply moves_try, step_stays. intros n s x Hnd Hx Hu.
  assert (Hs : ∀ s', record_access_tx (mt_env te n) (mt_sees te) l s = Ok (tt, s') →
    NoDup (ids s') ∧ ∃ x', memory_row id s' = Some x' ∧ unchanged x').
  { intros s' Hs. unfold record_access_tx in Hs. destruct (is_empty l); [injection Hs as <-; eauto|].
    apply res_bind_Ok in Hs as (? & _ & [= <-]). split; cbn; [by rewrite ids_update|].
    unfold memory_row in *. cbn. rewrite row_of_update by done. rewrite Hx. cbn. eexists. split; [done|].
    by case_decide. }
  unfold trun. destruct (record_access_tx _ _ _ _) as [[[] s']| |]; cbn; eauto.
Qed.

Lemma write_stays kind content subject : moves may (memory_write net te ctx kind content subject).
Proof.
  apply agent_stays. apply moves_bind; [apply mutation_cap_stays|]. intros _. apply moves_bind; [apply moves_lift|].
  intros ct. apply moves_bind; [by apply apply_stays|]. intros o. apply moves_ret.
Qed.

Lemma update_stays handle content : moves may (memory_update net te ctx handle content).
Proof.
  apply agent_stays. apply moves_bind; [apply mutation_cap_stays|]. intros _. apply moves_bind; [apply moves_lift|].
  intros h. apply moves_bind; [apply handle_stays|]. intros mid. apply moves_bind; [apply moves_lift|]. intros ct.
  apply moves_bind; [by apply apply_stays|]. intros o. apply moves_bind; [apply resolve_stays|]. intros _. apply moves_ret.
Qed.

Lemma forget_stays handle : moves may (memory_forget net te ctx handle).
Proof.
  apply agent_stays. apply moves_bind; [apply mutation_cap_stays|]. intros _. apply moves_bind; [apply moves_lift|].
  intros h. apply moves_bind; [apply handle_stays|]. intros mid.
  apply moves_bind; [by apply apply_stays|]. intros o. apply moves_bind; [apply resolve_stays|]. intros _. apply moves_ret.
Qed.

Lemma validate_stays handle evidence : moves may (memory_validate net te ctx handle evidence).
Proof.
  apply agent_stays. apply moves_bind; [apply mutation_cap_stays|]. intros _. apply moves_bind; [apply moves_lift|].
  intros h. apply moves_bind; [apply handle_stays|]. intros mid. apply moves_bind; [apply moves_lift|]. intros ev.
  apply moves_bind; [|intros o; apply moves_ret]. apply step_stays. intros n s x Hnd Hx Hu.
  apply (kept_stays s _ x); [done..|]. by apply (validate_leaves _ _ _ _ _ _ _ _ s id x), unchanged_shielded.
Qed.

Lemma recall_stays query kind limit : moves may (recall net te ctx query kind limit).
Proof.
  apply agent_stays. apply moves_bind; [apply recall_cap_stays|]. intros _. apply moves_bind; [apply moves_lift|].
  intros e. apply moves_bind; [apply read_stays|]. intros results. apply moves_bind; [apply access_stays|].
  intros _. apply moves_ret.
Qed.
End tools.

(** What the model may ask. *)
Inductive memory_request :=
| AskWrite (kind : MemoryKind) (content : str) (subject : option ColleagueId)
| AskUpdate (handle content : str)
| AskForget (handle : str)
| AskValidate (handle evidence : str)
| AskRecall (query : str) (kind : option MemoryKind) (limit : RecallLimit).

Definition run_request `{Embedder, VectorOps, MemoryErrorText, MemoryTurnErrorText} (net : Net mem_world)
    (te : MemToolEnv) (ctx : ToolCallContext) (q : memory_request) : Prog mem_world mem_call ToolError unit :=
  match q with
  | AskWrite k c s => memory_write net te ctx k c s ;;% pret tt
  | AskUpdate h c => memory_update net te ctx h c ;;% pret tt
  | AskForget h => memory_forget net te ctx h ;;% pret tt
  | AskValidate h e => memory_validate net te ctx h e ;;% pret tt
  | AskRecall q k l => recall net te ctx q k l ;;% pret tt
  end.

(** Whatever an agent's turn asks of the memory tools, and whichever calls fail, a
    pinned memory and a memory of another agent keep their content, state, pin and
    owner, as long as what others do between the calls leaves them too. *)
Theorem tools_leave_protected_rows `{Embedder, VectorOps, MemoryErrorText, MemoryTurnErrorText}
    (net : Net mem_world) (te : MemToolEnv) (ctx : ToolCallContext) (c : ColleagueId) (agent : AgentId)
    (id : MemoryId) (r : MemoryRow) (q : memory_request) (s : run_state mem_world mem_call)
    (Hctx : tcx_viewer ctx = AgentP c agent) (Hsh : mm_pinned r = true ∨ mm_agent_id r ≠ agent)
    (Hnet : ∀ n w, row_stays id r w → row_stays id r (net_others net n w))
    (Hs : row_stays id r (run_tables s)) :
  row_stays id r (run_tables (run_request net te ctx q s).2).
Proof.
  assert (Hf : Follows (may id r) net) by (intros n w; apply rtc_once; intros Hw; by apply Hnet).
  assert (Hm : moves (may id r) (run_request net te ctx q)).
  { destruct q; cbn [run_request]; (apply moves_bind; [|intros _; apply moves_ret]).
    - by eapply write_stays.
    - by eapply update_stays.
    - by eapply forget_stays.
    - by eapply validate_stays.
    - by eapply recall_stays. }
  specialize (Hm s). revert Hs Hm. generalize (run_tables s), (run_tables (run_request net te ctx q s).2).
  intros w w' Hw Hm. induction Hm as [|x y z Hxy _ IH]; [done|]. by apply IH, Hxy.
Qed.

(** ** Runs *)

Module ToolDemo.

#[export] Instance flat : Embedder := λ _, Ok (repeat 0%Z EMBEDDING_DIMENSIONS).
#[export] Instance ops : VectorOps := {| distance _ _ := Some 0%Q; similarity _ _ := Some 1%Q; f64_to_f32 q := q |}.
#[export] Instance texts : MemoryErrorText := λ _, lit "memory".
#[export] Instance turn_texts : MemoryTurnErrorText := λ _, lit "memory".

Definition world : MemEnv := mkMemEnv 9 (λ _, Some 1%N) (λ _, Some 1%N) (λ _, true).
Definition te : MemToolEnv := mkMemToolEnv (λ _, world) 500 600 700 privileged (λ _, Ok []).
Definition ctx : ToolCallContext :=
  mkToolCallContext 4 None None (AgentP 7 2) 5 5 PNormal (mkCaller 3 1).

Definition identity (id : N) (pinned : bool) (content : string) (at_ : Z) : MemoryRow :=
  mkMemory id 2 1 KIdentity (lit content) Held pinned None None at_ at_ at_ 0 None.
Definition memories : memory :=
  mkMemoryTables [identity 10 false "one" 3; identity 11 true "two" 2; identity 12 false "three" 1] [] [] [].
Definition start (counter : CallCounter) : run_state mem_world mem_call :=
  mkRun (mkMemWorld memories counter (counter_of MAX_RECALL_CALLS_PER_TURN)) [].
Definition fresh : run_state mem_world mem_call := start (counter_of MAX_MEMORY_MUTATIONS_PER_TURN).

(** The id a handle stands for, in the tables. *)
Definition stands_for (h : Z) (s : run_state mem_world mem_call) : option MemoryId :=
  match load_stable (λ _, Ok []) 2%N None (mw_memory (run_tables s)) with
  | Ok section => section_resolve_handle (mkMemoryHandle h) section
  | _ => None
  end.

(** After the first memory of the prompt is forgotten, the handles of the others have
    moved up: the handle the prompt printed for the second now names the third. *)
Example handles_shift :
  let s := (memory_forget calm te ctx (lit "M-1") fresh).2 in
  (stands_for 2 fresh, stands_for 2 s, (memory_forget calm te ctx (lit "M-1") fresh).1)
  = (Some 11%N, Some 12%N, Ok (mkHandleOutput 10 (lit "M-1") "forgotten")).
Proof. by vm_compute. Qed.

(** A subject on a memory that is not about a collaborator stops the task. *)
Example subject_elsewhere_panics :
  (memory_write calm te ctx KOther (lit "likes tea") (Some 20%N) fresh).1
  = Panic "invariant: only collaborator memories carry a subject colleague".
Proof. by vm_compute. Qed.

(** A pinned memory is refused. *)
Example pinned_refused :
  (memory_update calm te ctx (lit "M-2") (lit "other") fresh).1 = Err (InvalidInput (lit "memory")).
Proof. by vm_compute. Qed.

End ToolDemo.

Lemma tools_leave_protected_rows_witness :
  row_stays 11%N (ToolDemo.identity 11 true "two" 2)
    (run_tables (run_request (H := ToolDemo.flat) (H0 := ToolDemo.ops) (H1 := ToolDemo.texts) (H2 := ToolDemo.turn_texts)
       calm ToolDemo.te ToolDemo.ctx (AskForget (lit "M-1")) ToolDemo.fresh).2).
Proof.
  apply (tools_leave_protected_rows calm ToolDemo.te ToolDemo.ctx 7%N 2%N 11%N (ToolDemo.identity 11 true "two" 2));
    [done|by left|done|].
  split; [change (NoDup [10%N; 11%N; 12%N]); repeat first [apply NoDup_nil_2|apply NoDup_cons_2; [set_solver|]]|by exists (ToolDemo.identity 11 true "two" 2)].
Defined.
