(* ===== verification/Todos.v ===== *)
(** * The todo list of an agent

    [tools/system/todos]: the validated list, the per-turn counter, the table of one
    row per participation, the todo_write tool and the block shown to the model.
    Decoding the JSON arguments is serde's.
    Then what every stored list satisfies. *)

From Stdlib Require Import ZArith Lia Ascii String.
From stdpp Require Import base gmap list fin_maps strings sets.
From S2P Require Import Prelude Program Types Queue Threads Colleagues Catalog Compaction Billing Tools Agent Approvals Office OfficeLaws.

Definition MAX_TODOS_PER_LIST : nat := 50.
Definition MAX_TODO_CONTENT_BYTES : nat := 512.
Definition MAX_TODO_ID_BYTES : nat := 32.
Definition MAX_TODO_WRITES_PER_TURN : nat := 20.

Record TodoId := mkTodoId { TodoId_as_str : str }.
Record TodoContent := mkTodoContent { TodoContent_as_str : str }.
Inductive TodoStatus := TodoPending | TodoInProgress | TodoCompleted.
#[export] Instance TodoId_eq_dec : EqDecision TodoId.
Proof. solve_decision. Defined.
#[export] Instance TodoStatus_eq_dec : EqDecision TodoStatus.
Proof. solve_decision. Defined.

Definition TodoStatus_as_str (s : TodoStatus) : string :=
  match s with TodoPending => "pending" | TodoInProgress => "in_progress" | TodoCompleted => "completed" end.

Definition todo_id_char (c : N) : bool := is_ascii_alphanumeric c || (c =? 0x2d)%N || (c =? 0x5f)%N.

Definition TodoId_try_from (raw : str) : res ParseError TodoId :=
  if is_empty raw then Err (Empty "todo.id")
  else if MAX_TODO_ID_BYTES <? str_len raw then Err (TooLong "todo.id" MAX_TODO_ID_BYTES (str_len raw))
  else if negb (forallb todo_id_char raw) then Err (Malformed "todo.id" "only [a-zA-Z0-9_-] permitted")
  else Ok (mkTodoId raw).

Definition TodoContent_try_from (raw : str) : res ParseError TodoContent :=
  if is_empty raw then Err (Empty "todo.content")
  else if MAX_TODO_CONTENT_BYTES <? str_len raw
  then Err (TooLong "todo.content" MAX_TODO_CONTENT_BYTES (str_len raw))
  else Ok (mkTodoContent raw).

Record TodoItem := mkTodoItem { ti_id : TodoId; ti_content : TodoContent; ti_status : TodoStatus }.

(** [TodoList], a validated [Vec<TodoItem>] *)
Record TodoList := mkTodoList { tl_items : list TodoItem }.

(** The loop: the ids seen, and how many are in progress. *)
Fixpoint scan_items (items : list TodoItem) (seen : list TodoId) (in_progress : nat) : res ParseError nat :=
  match items with
  | [] => Ok in_progress
  | item :: items' =>
      if bool_decide (ti_id item ∈ seen) then Err (Malformed "todo.items" "duplicate id")
      else scan_items items' (ti_id item :: seen)
             (if bool_decide (ti_status item = TodoInProgress) then S in_progress else in_progress)
  end.

Definition TodoList_try_from (items : list TodoItem) : res ParseError TodoList :=
  if MAX_TODOS_PER_LIST <? length items
  then Err (TooLong "todo.items" MAX_TODOS_PER_LIST (length items))
  else
    in_progress <-? scan_items items [] 0 ;
    if 1 <? in_progress then Err (Malformed "todo.items" "at most one item may be in_progress")
    else Ok (mkTodoList items).

Definition TodoList_empty : TodoList := mkTodoList [].

(** ** The counter *)

Record PerTurnCallCounter := mkCounter {
  ct_inner : gmap PromptRequestId nat;
  ct_cap_per_turn : nat;
  ct_bookkeeping_max_entries : nat }.

Definition counter_with_cap (cap : nat) : PerTurnCallCounter := mkCounter ∅ cap 1024.

(** [first]: the key the map iterates first. *)
Definition try_increment (first : gmap PromptRequestId nat → option PromptRequestId) (request : PromptRequestId)
    (c : PerTurnCallCounter) : (nat + nat) * PerTurnCallCounter :=
  let map := ct_inner c in
  let map := if (ct_bookkeeping_max_entries c <=? size map) && negb (bool_decide (is_Some (map !! request)))
             then match first map with Some victim => delete victim map | None => map end
             else map in
  let entry := default 0 (map !! request) in
  let with_inner m := mkCounter m (ct_cap_per_turn c) (ct_bookkeeping_max_entries c) in
  if ct_cap_per_turn c <=? entry
  then (inl (ct_cap_per_turn c), with_inner (<[request := entry]> map))
  else (inr (S entry), with_inner (<[request := S entry]> map)).

(** ** The table *)

Record TodoRow := mkTodoRow {
  td_org_id : OrgId;
  td_items : list TodoItem;
  td_item_count : Z;
  td_updated_at : Z;
  td_updated_in_request_id : PromptRequestId }.
Abbreviation todo_rows := (gmap AgentThreadId TodoRow).

Inductive TodoStoreError := TodoInvariant (e : ParseError) | TodoDb (msg : str).

Definition I16_MAX : Z := 32767.

(** [sees]: the organisations the user's row policies show; [parents]: the
    organisation of each participation, which the trigger compares. *)
Definition replace (sees : OrgId → bool) (parents : gmap AgentThreadId OrgId) (now : Z)
    (state : AgentThreadId) (org : OrgId) (request : PromptRequestId) (list : TodoList) (rows : todo_rows)
    : res TodoStoreError TodoList * todo_rows :=
  let item_count := Z.of_nat (length (tl_items list)) in
  if (I16_MAX <? item_count)%Z then (Panic "list ≤ MAX_TODOS_PER_LIST", rows)
  else if negb (sees org) then (Err (TodoDb (lit "row security")), rows)
  else if negb (bool_decide (parents !! state = Some org)) then (Err (TodoDb (lit "parent org")), rows)
  else if negb ((0 <=? item_count)%Z && (item_count <=? 50)%Z)
  then (Err (TodoDb (lit "session_todos_items_well_formed")), rows)
  else (Ok list, <[state := mkTodoRow org (tl_items list) item_count now request]> rows).

Definition get (state : AgentThreadId) (rows : todo_rows) : res TodoStoreError TodoList :=
  match rows !! state with
  | None => Ok TodoList_empty
  | Some row => res_map_err TodoInvariant (TodoList_try_from (td_items row))
  end.

(** ** The tool *)

Definition store_to_tool_err (e : TodoStoreError) : ToolError :=
  match e with
  | TodoInvariant p => InvalidInput (ParseError_to_string p)
  | TodoDb d => ToolBackend d
  end.

Record TodoOutput := mkTodoOutput { to_items : TodoList; to_count : nat; to_note : str }.

Definition NOTE_UNAVAILABLE : str := lit "Todo list is unavailable on this turn (background cognition).".
Definition NOTE_SAVED : str :=
  lit "Todo list saved. It will be re-shown to you at the top of every future turn in this session.".

(** What a call does not control; a fault is an error of the store, after its
    statement took effect or not. *)
Record TodoEnv := mkTodoEnv {
  te_first : gmap PromptRequestId nat → option PromptRequestId;
  te_sees : UserId → OrgId → bool;
  te_parents : gmap AgentThreadId OrgId;
  te_now : Z;
  te_fault : option (str * bool) }.

Record todo_state := mkTodoState { ts_counter : PerTurnCallCounter; ts_rows : todo_rows }.

Definition check_cap (first : gmap PromptRequestId nat → option PromptRequestId) (request : PromptRequestId)
    (c : PerTurnCallCounter) : res ToolError unit * PerTurnCallCounter :=
  match try_increment first request c with
  | (inr _, c') => (Ok tt, c')
  | (inl cap, c') =>
      (Err (InvalidInput (lit "todo_write cap exceeded for this turn (max " ++ show_Z (Z.of_nat cap)
                          ++ lit " writes)")), c')
  end.

(** [execute], on its decoded arguments. *)
Definition todo_write (env : TodoEnv) (items : list TodoItem) (state_id : option AgentThreadId)
    (ctx : ToolCallContext) (s : todo_state) : res ToolError TodoOutput * todo_state :=
  match state_id with
  | None => (Ok (mkTodoOutput TodoList_empty 0 NOTE_UNAVAILABLE), s)
  | Some state =>
      let '(capped, c) := check_cap (te_first env) (tcx_request_id ctx) (ts_counter s) in
      match capped with
      | Err e => (Err e, mkTodoState c (ts_rows s))
      | Panic p => (Panic p, mkTodoState c (ts_rows s))
      | Ok _ =>
          match TodoList_try_from items with
          | Err e => (Err (InvalidInput (ParseError_to_string e)), mkTodoState c (ts_rows s))
          | Panic p => (Panic p, mkTodoState c (ts_rows s))
          | Ok list =>
              let caller := tcx_caller ctx in
              let '(r, rows) := replace (te_sees env (user_id caller)) (te_parents env) (te_now env) state
                                  (org_id caller) (tcx_request_id ctx) list (ts_rows s) in
              let '(r, rows) := match te_fault env with
                                | Some (msg, committed) =>
                                    (match r with Panic p => Panic p | _ => Err (TodoDb msg) end,
                                     if (committed : bool) then rows else ts_rows s)
                                | None => (r, rows)
                                end in
              (match r with
               | Ok stored => Ok (mkTodoOutput stored (length (tl_items list)) NOTE_SAVED)
               | Err e => Err (store_to_tool_err e)
               | Panic p => Panic p
               end, mkTodoState c rows)
          end
      end
  end.

(** ** The block of the prompt *)

Definition escape_char (c : N) : str :=
  if (c =? 0x26)%N then lit "&amp;"
  else if (c =? 0x3c)%N then lit "&lt;"
  else if (c =? 0x3e)%N then lit "&gt;"
  else if (c =? 0xa)%N || (c =? 0xd)%N then lit " "
  else [c].
Definition escape_envelope_text (raw : str) : str := mjoin (escape_char <$> raw).

Definition todo_line (item : TodoItem) : str :=
  lit "- [" ++ lit (TodoStatus_as_str (ti_status item)) ++ lit "] (" ++ TodoId_as_str (ti_id item) ++ lit ") "
  ++ escape_envelope_text (TodoContent_as_str (ti_content item)).

Definition NEWLINE : N := 0xa.

Definition render_section (list : TodoList) : str :=
  match tl_items list with
  | [] => []
  | items => lit "<todos>" ++ [NEWLINE] ++ mjoin ((λ i, todo_line i ++ [NEWLINE]) <$> items) ++ lit "</todos>"
  end.

(** ** What a valid list is *)

Definition todo_item_ok (i : TodoItem) : Prop :=
  TodoId_try_from (TodoId_as_str (ti_id i)) = Ok (ti_id i)
  ∧ TodoContent_try_from (TodoContent_as_str (ti_content i)) = Ok (ti_content i).

Record todo_list_ok (items : list TodoItem) : Prop := {
  tl_bounded : length items ≤ MAX_TODOS_PER_LIST;
  tl_unique : NoDup (ti_id <$> items);
  tl_focused : length (filter (λ i, ti_status i = TodoInProgress) items) ≤ 1 }.

Lemma scan_items_Ok items seen n m :
  scan_items items seen n = Ok m ↔
  m = n + length (filter (λ i, ti_status i = TodoInProgress) items)
  ∧ NoDup (ti_id <$> items) ∧ (∀ i, i ∈ items → ti_id i ∉ seen).
Proof.
  revert seen n. induction items as [|i items IH]; intros seen n; cbn [scan_items].
  { split; [intros [= <-]; split_and!; [cbn; lia|constructor|set_solver]|]. intros (-> & _). f_equal. cbn. lia. }
  case_bool_decide as Hin.
  { split; [done|]. intros (_ & _ & Hs). by destruct (Hs i (list_elem_of_here i items)). }
  rewrite IH, fmap_cons, NoDup_cons, filter_cons.
  assert ((∀ j, j ∈ items → ti_id j ∉ ti_id i :: seen) ↔
          ti_id i ∉ ti_id <$> items ∧ ∀ j, j ∈ items → ti_id j ∉ seen) as ->.
  { split.
    - intros Hj. split; [|set_solver]. intros (j & He & Hj')%list_elem_of_fmap. apply (Hj j Hj'). rewrite He. set_solver.
    - intros [Hni Hs] j Hj [He|Hjs]%elem_of_cons; [|by eapply Hs]. apply Hni. rewrite <-He. by apply list_elem_of_fmap_2. }
  assert ((∀ j, j ∈ i :: items → ti_id j ∉ seen) ↔ ti_id i ∉ seen ∧ ∀ j, j ∈ items → ti_id j ∉ seen) as ->.
  { split; [intros Hj; split; [apply Hj; set_solver|intros j ?; apply Hj; set_solver]|].
    intros [Hi Hs] j [->|Hj]%elem_of_cons; [done|by apply Hs]. }
  destruct (decide (ti_status i = TodoInProgress)) as [He|He].
  - rewrite bool_decide_true, length_cons, <-Nat.add_succ_comm by done. tauto.
  - rewrite bool_decide_false by done. tauto.
Qed.

(** The constructor accepts exactly the valid lists, as they are. *)
Lemma TodoList_try_from_Ok items l :
  TodoList_try_from items = Ok l ↔ l = mkTodoList items ∧ todo_list_ok items.
Proof.
  unfold TodoList_try_from. destruct (_ <? length items) eqn:El.
  { apply Nat.ltb_lt in El. split; [done|]. intros (_ & []). lia. }
  apply Nat.ltb_ge in El. rewrite res_bind_Ok. split.
  - intros (n & (-> & Hnd & _)%scan_items_Ok & Hn). case_match eqn:E1; [done|]. apply Nat.ltb_ge in E1.
    injection Hn as <-. split; [done|]. by split.
  - intros (-> & [_ Hnd Hf]). exists (length (filter (λ i, ti_status i = TodoInProgress) items)). split.
    + apply scan_items_Ok. split; [done|]. split; [done|]. set_solver.
    + assert ((1 <? _) = false) as -> by (apply Nat.ltb_ge; exact Hf). done.
Qed.

(** * What the todo list keeps

    Whatever calls are made, every stored list is one the constructor accepts; a
    call that succeeds is read back; the block shown to the model has one frame. *)

(** ** Histories of calls *)

Record todo_call := mkTodoCall {
  tk_env : TodoEnv;
  tk_items : list TodoItem;
  tk_state : option AgentThreadId;
  tk_ctx : ToolCallContext }.

Definition answer (c : todo_call) (s : todo_state) : res ToolError TodoOutput * todo_state :=
  todo_write (tk_env c) (tk_items c) (tk_state c) (tk_ctx c) s.
Definition request_of (c : todo_call) : PromptRequestId := tcx_request_id (tk_ctx c).

Fixpoint after_calls (calls : list todo_call) (s : todo_state) : todo_state :=
  match calls with [] => s | c :: calls' => after_calls calls' (answer c s).2 end.

(** The calls of one request that were not refused. *)
Definition written (request : PromptRequestId) (c : todo_call) (s : todo_state) : bool :=
  is_ok (answer c s).1 && bool_decide (request_of c = request) && bool_decide (is_Some (tk_state c)).
Fixpoint writes (request : PromptRequestId) (calls : list todo_call) (s : todo_state) : nat :=
  match calls with
  | [] => 0
  | c :: calls' => (if written request c s then 1 else 0) + writes request calls' (answer c s).2
  end.

Definition todo_initial : todo_state := mkTodoState (counter_with_cap MAX_TODO_WRITES_PER_TURN) ∅.

(** What serde lets through. *)
Definition decoded (c : todo_call) : Prop := Forall todo_item_ok (tk_items c).

Definition row_ok (row : TodoRow) : Prop :=
  todo_list_ok (td_items row) ∧ Forall todo_item_ok (td_items row)
  ∧ td_item_count row = Z.of_nat (length (td_items row)).
Definition rows_ok (rows : todo_rows) : Prop := ∀ st row, rows !! st = Some row → row_ok row.

Lemma replace_cases sees parents now st org req items rows :
  todo_list_ok items →
  let out := replace sees parents now st org req (mkTodoList items) rows in
  (out = (Ok (mkTodoList items), <[st := mkTodoRow org items (Z.of_nat (length items)) now req]> rows)
   ∧ sees org = true ∧ parents !! st = Some org)
  ∨ ∃ e, out = (Err (TodoDb e), rows).
Proof.
  intros [Hl _ _]. unfold MAX_TODOS_PER_LIST in Hl. cbv zeta. unfold replace, I16_MAX. cbn [tl_items].
  assert ((32767 <? Z.of_nat (length items))%Z = false) as -> by lia.
  destruct (sees org); cbn [negb]; [|right; by eexists].
  destruct (bool_decide (parents !! st = Some org)) eqn:Ep; cbn [negb]; [|right; by eexists].
  assert ((0 <=? Z.of_nat (length items))%Z && (Z.of_nat (length items) <=? 50)%Z = true) as -> by lia.
  left. bools. done.
Qed.

Lemma get_row st rows row : rows !! st = Some row → todo_list_ok (td_items row) → get st rows = Ok (mkTodoList (td_items row)).
Proof.
  intros Hr Hok. unfold get. rewrite Hr. assert (TodoList_try_from (td_items row) = Ok (mkTodoList (td_items row))) as ->; [|done].
  by apply TodoList_try_from_Ok.
Qed.

(** One call: what is stored stays valid, and what is answered was stored. *)
Lemma answer_ok c s :
  decoded c → rows_ok (ts_rows s) →
  rows_ok (ts_rows (answer c s).2) ∧ no_panic (answer c s).1
  ∧ (∀ st, te_fault (tk_env c) = None → tk_state c = Some st → is_ok (answer c s).1 = false →
       ts_rows (answer c s).2 = ts_rows s)
  ∧ (∀ out st, (answer c s).1 = Ok out → tk_state c = Some st →
       to_items out = mkTodoList (tk_items c) ∧ get st (ts_rows (answer c s).2) = Ok (to_items out)
       ∧ ∀ other, other ≠ st → ts_rows (answer c s).2 !! other = ts_rows s !! other).
Proof.
  intros Hd Hs. unfold answer, todo_write. destruct (tk_state c) as [st|]; [|by split_and!].
  unfold check_cap. destruct (try_increment _ _ _) as [[cap|n] ct]; cbn [fst snd]; [by split_and!|].
  destruct (TodoList_try_from (tk_items c)) as [l|e|p] eqn:El; cbn [fst snd].
  - apply TodoList_try_from_Ok in El as [-> Hl].
    set (row := mkTodoRow (org_id (tcx_caller (tk_ctx c))) (tk_items c) (Z.of_nat (length (tk_items c)))
                  (te_now (tk_env c)) (tcx_request_id (tk_ctx c))).
    assert (rows_ok (<[st := row]> (ts_rows s))) as Hins.
    { intros st' row' [[<- <-]|[_ Hr]]%lookup_insert_Some; [|by eapply Hs]. by split_and!. }
    destruct (replace_cases (te_sees (tk_env c) (user_id (tcx_caller (tk_ctx c)))) (te_parents (tk_env c)) (te_now (tk_env c)) st
      (org_id (tcx_caller (tk_ctx c))) (tcx_request_id (tk_ctx c)) (tk_items c) (ts_rows s) Hl) as [[Hr _]|[e Hr]];
      cbv zeta in Hr; fold row in Hr; rewrite Hr.
    + destruct (te_fault (tk_env c)) as [[msg []]|]; cbn; split_and!; try done.
      intros out st' [= <-] [= <-]. split; [done|]. split; [|intros other Hne; by rewrite lookup_insert_ne].
      by rewrite (get_row st _ row) by (by rewrite ?lookup_insert_eq).
    + destruct (te_fault (tk_env c)) as [[msg []]|]; cbn; by split_and!.
  - by split_and!.
  - unfold TodoList_try_from in El. case_match; [done|].
    destruct (scan_items (tk_items c) [] 0) as [n'|e|p'] eqn:Esc; cbn in El; [by case_match|done|].
    assert (∀ items seen k, scan_items items seen k ≠ Panic p') as Hno; [|by apply Hno in Esc].
    clear. induction items as [|i items IH]; intros seen k; cbn; [done|]. by case_match.
Qed.

Lemma after_ok calls s : Forall decoded calls → rows_ok (ts_rows s) → rows_ok (ts_rows (after_calls calls s)).
Proof.
  intros Hd. revert s. induction Hd as [|c calls Hc _ IH]; intros s Hs; [done|]. cbn. apply IH. by apply answer_ok.
Qed.

(** ** The counter *)

Section counter.
Context (requests : gset PromptRequestId).

Record counting (c : PerTurnCallCounter) : Prop := {
  cn_dom : dom (ct_inner c) ⊆ requests;
  cn_cap : ∀ r n, ct_inner c !! r = Some n → n ≤ ct_cap_per_turn c;
  cn_room : size requests ≤ ct_bookkeeping_max_entries c }.

Definition used (r : PromptRequestId) (c : PerTurnCallCounter) : nat := default 0 (ct_inner c !! r).

Lemma try_increment_counting first r c :
  counting c → r ∈ requests →
  counting (try_increment first r c).2 ∧ ct_cap_per_turn (try_increment first r c).2 = ct_cap_per_turn c
  ∧ (∀ r', r' ≠ r → used r' (try_increment first r c).2 = used r' c)
  ∧ match (try_increment first r c).1 with
    | inl _ => used r (try_increment first r c).2 = used r c
    | inr _ => used r (try_increment first r c).2 = S (used r c) ∧ S (used r c) ≤ ct_cap_per_turn c
    end.
Proof.
  intros [Hd Hc Hr] Hin. unfold try_increment.
  assert ((ct_bookkeeping_max_entries c <=? size (ct_inner c)) && negb (bool_decide (is_Some (ct_inner c !! r))) = false) as ->.
  { apply andb_false_iff. destruct (ct_inner c !! r) eqn:E; [by right|left]. apply Nat.leb_gt.
    apply not_elem_of_dom in E. rewrite <-size_dom.
    assert (size ({[r]} ∪ dom (ct_inner c)) ≤ size requests) as Hs by (apply subseteq_size; set_solver).
    rewrite size_union, size_singleton in Hs by set_solver. lia. }
  destruct (_ <=? _) eqn:El; cbn [fst snd]; [apply Nat.leb_le in El|apply Nat.leb_gt in El].
  - unfold used. cbn [ct_inner ct_cap_per_turn]. split_and!; try done.
    + split; cbn; [rewrite dom_insert; set_solver| |done].
      intros r' n [[<- <-]|[_ Hn]]%lookup_insert_Some; [|by eapply Hc].
      destruct (ct_inner c !! r) eqn:E; cbn; [by eapply Hc|lia].
    + intros r' Hne. by rewrite lookup_insert_ne.
    + by rewrite lookup_insert_eq.
  - unfold used. cbn [ct_inner ct_cap_per_turn]. split_and!; try done.
    + split; cbn; [rewrite dom_insert; set_solver| |done].
      intros r' n [[<- <-]|[_ Hn]]%lookup_insert_Some; [lia|by eapply Hc].
    + intros r' Hne. by rewrite lookup_insert_ne.
    + by rewrite lookup_insert_eq.
Qed.

Lemma answer_counter c s :
  (ts_counter (answer c s).2 = match tk_state c with
     | Some _ => (try_increment (te_first (tk_env c)) (request_of c) (ts_counter s)).2 | None => ts_counter s end)
  ∧ (∀ request, written request c s = true →
     request_of c = request ∧ is_Some (tk_state c)
     ∧ ∃ n, (try_increment (te_first (tk_env c)) (request_of c) (ts_counter s)).1 = inr n).
Proof.
  unfold written, answer, todo_write, request_of. destruct (tk_state c) as [st|].
  - unfold check_cap. destruct (try_increment _ _ _) as [[cap|n] ct]; cbn.
    + split; [done|]. by intros request.
    + split; [|intros request H; bools; by eauto].
      destruct (TodoList_try_from _); cbn; [|done..]. destruct (replace _ _ _ _ _ _ _ _) as [r rows].
      by destruct (te_fault _) as [[? []]|].
  - split; [done|]. intros request H. cbn in H. by rewrite andb_false_r in H.
Qed.

Lemma writes_bounded request calls s :
  counting (ts_counter s) → Forall (λ c, request_of c ∈ requests) calls →
  writes request calls s + used request (ts_counter s) ≤ Nat.max (used request (ts_counter s)) (ct_cap_per_turn (ts_counter s)).
Proof.
  intros Hc Hr. revert s Hc. induction Hr as [|c calls Hin _ IH]; intros s Hc; cbn [writes]; [lia|].
  destruct (answer_counter c s) as [Hct Hw]. destruct (tk_state c) as [st|] eqn:Est.
  - destruct (try_increment_counting (te_first (tk_env c)) (request_of c) (ts_counter s) Hc Hin) as (Hc' & Hcap & Hoth & Hown).
    rewrite <-Hct in Hc', Hcap, Hoth, Hown. specialize (IH _ Hc'). rewrite Hcap in IH.
    destruct (written request c s) eqn:Ew.
    + destruct (Hw request Ew) as (<- & _ & n & Hn). rewrite Hn in Hown. lia.
    + destruct (decide (request = request_of c)) as [->|Hne]; [|rewrite Hoth in IH by done; lia].
      destruct (try_increment _ _ _).1; [lia|destruct Hown; lia].
  - assert (written request c s = false) as Hwf.
    { destruct (written request c s) eqn:Ew; [|done]. destruct (Hw request Ew) as (_ & [x Hx] & _). discriminate Hx. }
    rewrite Hwf. rewrite <-Hct in Hc. specialize (IH _ Hc). rewrite Hct in IH. lia.
Qed.
End counter.

(** C29: Whatever calls are made, by whom and whatever fails: every stored list is one
    the constructor accepts, so reading it never fails; no call panics; a call that is
    answered with success has replaced the list of its own participation, and no other,
    by the list it was given, and an error of its own leaves it alone; and, provided
    that the counter of the process has seen at most 1024 different requests, the
    entries it holds, a turn writes at most MAX_TODO_WRITES_PER_TURN times. Past that,
    an evicted turn is counted from zero again. *)
Theorem todo_calls_keep_lists calls :
  Forall decoded calls →
  let s := after_calls calls todo_initial in
  (∀ st row, ts_rows s !! st = Some row → row_ok row ∧ get st (ts_rows s) = Ok (mkTodoList (td_items row)))
  ∧ (∀ c, decoded c →
       no_panic (answer c s).1
       ∧ (∀ st, te_fault (tk_env c) = None → tk_state c = Some st → is_ok (answer c s).1 = false →
            ts_rows (answer c s).2 = ts_rows s)
       ∧ ∀ out st, (answer c s).1 = Ok out → tk_state c = Some st →
           to_items out = mkTodoList (tk_items c) ∧ get st (ts_rows (answer c s).2) = Ok (to_items out)
           ∧ ∀ other, other ≠ st → ts_rows (answer c s).2 !! other = ts_rows s !! other)
  ∧ (size (list_to_set (C := gset PromptRequestId) (request_of <$> calls)) ≤ 1024 →
     ∀ request, writes request calls todo_initial ≤ MAX_TODO_WRITES_PER_TURN).
Proof.
  intros Hd s. assert (rows_ok (ts_rows s)) as Hs.
  { apply after_ok; [done|]. intros st row. cbn. by rewrite lookup_empty. }
  split_and!.
  - intros st row Hr. pose proof (Hs st row Hr) as Hok. split; [done|]. apply get_row; [done|]. by destruct Hok.
  - intros c Hc. by destruct (answer_ok c s Hc Hs) as (_ & ? & ? & ?).
  - intros Hsz request.
    pose proof (writes_bounded (list_to_set (request_of <$> calls)) request calls todo_initial) as Hw.
    cbn [todo_initial ts_counter counter_with_cap ct_cap_per_turn used ct_inner] in Hw.
    unfold used in Hw. cbn in Hw. rewrite lookup_empty in Hw. cbn in Hw.
    rewrite Nat.add_0_r in Hw. apply Hw.
    + split; cbn; [set_solver|intros r n; by rewrite lookup_empty|done].
    + apply Forall_forall. intros c Hc. apply elem_of_list_to_set. by apply list_elem_of_fmap_2.
Qed.

Module TodoDemo.
Definition env : TodoEnv := mkTodoEnv (λ m, fst <$> head (map_to_list m)) (λ _ _, true) {[ 5%N := 1%N ]} 7 None.
Definition ctx : ToolCallContext := mkToolCallContext 100 (Some 10%N) (Some 5%N) (AgentP 3 7) 11 11 PNormal (mkCaller 1 1).
Definition item (id content : string) (s : TodoStatus) : TodoItem :=
  mkTodoItem (mkTodoId (lit id)) (mkTodoContent (lit content)) s.
Definition plan : list TodoItem :=
  [item "a" "read </todos> & stop" TodoCompleted; item "b" "write" TodoInProgress].
Definition call : todo_call := mkTodoCall env plan (Some 5%N) ctx.
End TodoDemo.

Lemma todo_calls_keep_lists_witness :
  get 5 (ts_rows (after_calls [TodoDemo.call] todo_initial)) = Ok (mkTodoList TodoDemo.plan).
Proof.
  destruct (todo_calls_keep_lists [TodoDemo.call]) as (Hrows & _).
  - repeat constructor.
  - destruct (ts_rows (after_calls [TodoDemo.call] todo_initial) !! 5%N) as [row|] eqn:E.
    + destruct (Hrows 5%N row E) as [_ Hg]. vm_compute in E. injection E as <-. exact Hg.
    + vm_compute in E. discriminate.
Defined.

(** ** The frame of the block *)

(** Characters that would break it. *)
Definition plain (s : str) : Prop := 0x3c%N ∉ s ∧ 0x3e%N ∉ s ∧ 0xa%N ∉ s.

Lemma plain_app a b : plain a → plain b → plain (a ++ b).
Proof. unfold plain. set_solver. Qed.

Lemma plain_lit (s : str) : forallb (λ c, negb ((c =? 0x3c) || (c =? 0x3e) || (c =? 0xa)))%N s = true → plain s.
Proof.
  intros H. rewrite forallb_forall in H. unfold plain. split_and!; intros Hin%list_elem_of_In; by apply H in Hin.
Qed.

Lemma plain_escaped s : plain (escape_envelope_text s).
Proof.
  unfold escape_envelope_text. induction s as [|c s IH]; [by apply plain_lit|]. cbn. apply plain_app; [|exact IH].
  unfold escape_char. repeat case_match; try by apply plain_lit.
  rewrite !N.eqb_neq in *. unfold plain. rewrite !list_elem_of_singleton.
  apply orb_false_iff in H2 as [H2 _]. rewrite N.eqb_neq in H2. split_and!; congruence.
Qed.

Lemma plain_id i : todo_item_ok i → plain (TodoId_as_str (ti_id i)).
Proof.
  intros [Hid _]. unfold TodoId_try_from in Hid. destruct (is_empty _); [done|]. destruct (_ <? _); [done|].
  destruct (forallb todo_id_char (TodoId_as_str (ti_id i))) eqn:Ea; [|done].
  rewrite forallb_forall in Ea. unfold plain. split_and!; intros Hin%list_elem_of_In; by apply Ea in Hin.
Qed.

Lemma plain_line i : todo_item_ok i → plain (todo_line i).
Proof.
  intros Hi. unfold todo_line. repeat apply plain_app; try (by apply plain_lit).
  - destruct (ti_status i); by apply plain_lit.
  - by apply plain_id.
  - apply plain_escaped.
Qed.

(** The first [<] of a text cuts it in one way. *)
Lemma first_angle (m pre w post : str) :
  0x3c%N ∉ m → m ++ 0x3c%N :: w = pre ++ 0x3c%N :: post →
  (pre = m ∧ w = post) ∨ ∃ pre', pre = m ++ 0x3c%N :: pre' ∧ w = pre' ++ 0x3c%N :: post.
Proof.
  revert pre. induction m as [|c m IH]; intros [|d pre] Hm He; cbn in He.
  - injection He as ->. by left.
  - injection He as <- ->. right. by exists pre.
  - injection He as -> _. set_solver.
  - injection He as <- He. destruct (IH pre) as [[-> ->]|(pre' & -> & ->)]; [set_solver|done|by left|right].
    by exists pre'.
Qed.

Definition newlines (s : str) : nat := length (filter (λ c, c = NEWLINE) s).

Lemma newlines_app a b : newlines (a ++ b) = newlines a + newlines b.
Proof. unfold newlines. by rewrite filter_app, length_app. Qed.
Lemma newlines_plain s : plain s → newlines s = 0.
Proof.
  intros (_ & _ & Hn). unfold newlines. rewrite filter_none; [done|]. apply Forall_forall. intros c Hc ->. by apply Hn.
Qed.

Lemma body_lines items :
  Forall todo_item_ok items →
  let body := mjoin ((λ i, todo_line i ++ [NEWLINE]) <$> items) in
  0x3c%N ∉ body ∧ newlines body = length items.
Proof.
  cbv zeta. induction 1 as [|i items Hi _ [IHa IHn]]; [cbn; split; [set_solver|done]|].
  set (rest := mjoin ((λ i, todo_line i ++ [NEWLINE]) <$> items)) in *.
  assert (mjoin ((λ i, todo_line i ++ [NEWLINE]) <$> i :: items) = todo_line i ++ [NEWLINE] ++ rest) as ->
    by (unfold rest; cbn; by rewrite <-app_assoc).
  pose proof (plain_line i Hi) as Hp. split.
  - destruct Hp as (Ha & _). unfold NEWLINE. set_solver.
  - rewrite !newlines_app, (newlines_plain _ Hp), IHn. done.
Qed.

(** The block of a non-empty list opens with its tag, has one line per item, and
    holds its closing tag only at its end: no content of an item, whatever text the
    model or a user wrote, closes it or adds a line. *)
Theorem todos_block_framed l :
  Forall todo_item_ok (tl_items l) → tl_items l ≠ [] →
  (∃ body, render_section l = lit "<todos>" ++ [NEWLINE] ++ body ++ lit "</todos>")
  ∧ newlines (render_section l) = S (length (tl_items l))
  ∧ ∀ pre post, render_section l = pre ++ lit "</todos>" ++ post → post = [].
Proof.
  intros Hok Hne. destruct (body_lines _ Hok) as [Ha Hn]. set (body := mjoin _) in *.
  assert (render_section l = lit "<todos>" ++ [NEWLINE] ++ body ++ lit "</todos>") as ->.
  { unfold render_section, body. by destruct (tl_items l). }
  split_and!.
  - by exists body.
  - rewrite !newlines_app, Hn. change (newlines (lit "<todos>")) with 0. change (newlines [NEWLINE]) with 1.
    change (newlines (lit "</todos>")) with 0. lia.
  - intros pre post He. change (lit "<todos>") with (0x3c%N :: lit "todos>") in He.
    change (lit "</todos>") with (0x3c%N :: lit "/todos>") in He. cbn [app] in He.
    destruct (first_angle [] pre (lit "todos>" ++ NEWLINE :: body ++ 0x3c%N :: lit "/todos>") (lit "/todos>" ++ post))
      as [[-> Hw]|(pre' & -> & Hw)]; [set_solver|exact He|done|].
    destruct (first_angle (lit "todos>" ++ NEWLINE :: body) pre' (lit "/todos>") (lit "/todos>" ++ post))
      as [[_ Hp]|(pre'' & _ & Hp)].
    + intros Hin. apply elem_of_app in Hin as [Hin|[Hin|Hin]%elem_of_cons]; [by vm_compute in Hin; set_solver|done|by apply Ha].
    + by rewrite <-app_assoc.
    + symmetry. by apply (app_inv_head (lit "/todos>") [] post).
    + assert (0x3c%N ∈ lit "/todos>") as Hin by (rewrite Hp; set_solver). exfalso. vm_compute in Hin. set_solver.
Qed.

Lemma todos_block_framed_witness :
  ∀ pre post, render_section (mkTodoList TodoDemo.plan) = pre ++ lit "</todos>" ++ post → post = [].
Proof. apply (todos_block_framed (mkTodoList TodoDemo.plan)); [repeat constructor|discriminate]. Defined.
