(* ===== verification/Decimal.v ===== *)
(** * Decimal numbers

    What the code uses of the standard library to read integers back:
    [str::parse::<i64>] and [str::parse::<u64>], and that they invert [Display]. *)

From Stdlib Require Import ZArith Lia Ascii String.
From stdpp Require Import base list strings pretty.
From S2P Require Import Prelude.

Definition is_digit (c : N) : bool := (0x30 <=? c)%N && (c <=? 0x39)%N.

(** The value of a run of digits read after [acc]; [None] on any other character. *)
Fixpoint read_digits (acc : N) (s : str) : option N :=
  match s with
  | [] => Some acc
  | c :: s' => if is_digit c then read_digits (10 * acc + (c - 0x30)) s' else None
  end.

(** [from_str_radix(s, 10)]: an optional sign, at least one digit, in range. *)
Definition parse_signed (sign : Z) (lo hi : Z) (digits : str) : option Z :=
  if is_empty digits then None
  else n ← read_digits 0 digits;
       let z := (sign * Z.of_N n)%Z in
       if (lo <=? z)%Z && (z <=? hi)%Z then Some z else None.
Definition parse_i64 (s : str) : option Z :=
  match s with
  | 0x2b%N :: s' => parse_signed 1 I64_MIN I64_MAX s'
  | 0x2d%N :: s' => parse_signed (-1) I64_MIN I64_MAX s'
  | _ => parse_signed 1 I64_MIN I64_MAX s
  end.
Definition parse_u64 (s : str) : option Z :=
  match s with
  | 0x2b%N :: s' => parse_signed 1 0 U64_MAX s'
  | _ => parse_signed 1 0 U64_MAX s
  end.

(** ** [Display] and back *)

Lemma lit_cons c s : lit (String c s) = N_of_ascii c :: lit s.
Proof. done. Qed.

Lemma pretty_char_digit (x : N) : (x < 10)%N → N_of_ascii (pretty_N_char x) = (0x30 + x)%N.
Proof.
  intros Hx. assert (Hc : x ∈ ([0; 1; 2; 3; 4; 5; 6; 7; 8; 9])%N) by (rewrite !elem_of_cons; lia).
  repeat (apply elem_of_cons in Hc as [->|Hc]; [done|]). by apply elem_of_nil in Hc.
Qed.

Lemma digit_of (x : N) : (x < 10)%N → is_digit (0x30 + x) = true.
Proof. intros Hx. unfold is_digit. apply andb_true_iff. split; apply N.leb_le; lia. Qed.

(** The digits of [x], written before [s]. *)
Lemma read_pretty x : ∀ s acc, (0 < x)%N → ∃ ds, lit (pretty_N_go x s) = ds ++ lit s ∧ ds ≠ [] ∧
  Forall (λ c, is_digit c = true) ds ∧
  ∀ t, read_digits acc (ds ++ t) = read_digits (acc * 10 ^ N.of_nat (length ds) + x) t.
Proof.
  induction x as [x IH] using (well_founded_induction N.lt_wf_0). intros s acc Hx.
  rewrite pretty_N_go_step by done. set (d := (x `mod` 10)%N). set (q := (x `div` 10)%N).
  assert (Hd : (d < 10)%N) by (apply N.mod_lt; lia).
  assert (Hxq : x = (10 * q + d)%N) by (apply N.div_mod; lia).
  destruct (decide (q = 0)%N) as [Hq|Hq].
  - exists [(0x30 + d)%N]. rewrite Hq, pretty_N_go_0, lit_cons, pretty_char_digit by done.
    split_and!; [done|done|by repeat constructor; apply digit_of|]. intros t. cbn [app read_digits length].
    rewrite digit_of by done. f_equal. lia.
  - destruct (IH q ltac:(apply N.div_lt; lia) (String (pretty_N_char d) s) acc ltac:(lia)) as (ds & Hs & Hn & Hf & Hr).
    exists (ds ++ [(0x30 + d)%N]). rewrite Hs, lit_cons, pretty_char_digit by done.
    split_and!; [by rewrite <-(assoc_L (++))|by destruct ds| |].
    + apply Forall_app. split; [done|]. by repeat constructor; apply digit_of.
    + intros t. rewrite <-(assoc_L (++)), Hr, length_app. cbn [app read_digits].
      rewrite digit_of by done. f_equal. replace (N.of_nat (length ds + length [(0x30 + d)%N])) with (N.succ (N.of_nat (length ds))) by (cbn; lia).
      rewrite N.pow_succ_r'. lia.
Qed.

(** A nonempty run of digits, the decimal form of [n]. *)
Definition digits_of (n : N) (ds : str) : Prop :=
  ds ≠ [] ∧ Forall (λ c, is_digit c = true) ds ∧ read_digits 0 ds = Some n.

Lemma show_N_digits (n : N) : digits_of n (lit (pretty n)).
Proof.
  destruct (decide (n = 0)%N) as [->|Hn]; [split_and!; [done|by repeat constructor|done]|].
  destruct (read_pretty n "" 0%N ltac:(lia)) as (ds & Hs & Hne & Hf & Hr).
  assert (Hp : lit (pretty n) = ds).
  { unfold pretty, pretty_N. rewrite decide_False by done. rewrite Hs. apply app_nil_r. }
  rewrite Hp. split_and!; [done|done|]. specialize (Hr []). rewrite app_nil_r in Hr. rewrite Hr. cbn. f_equal; lia.
Qed.

Lemma show_Z_nonneg (z : Z) : (0 ≤ z)%Z → show_Z z = lit (pretty (Z.to_N z)).
Proof. intros Hz. destruct z; [done|done|lia]. Qed.
Lemma show_Z_neg (z : Z) : (z < 0)%Z → show_Z z = 0x2d%N :: lit (pretty (Z.to_N (- z))).
Proof. intros Hz. destruct z; [lia|lia|done]. Qed.

Lemma digits_first n ds c s' : digits_of n ds → ds = c :: s' → c ≠ 0x2b%N ∧ c ≠ 0x2d%N.
Proof.
  intros (_ & Hf & _) ->. apply Forall_cons in Hf as [Hc _]. unfold is_digit in Hc.
  apply andb_true_iff in Hc as [Hc _%N.leb_le]. apply N.leb_le in Hc. lia.
Qed.

Lemma parse_signed_digits sign lo hi n ds : digits_of n ds → (lo ≤ sign * Z.of_N n ≤ hi)%Z →
  parse_signed sign lo hi ds = Some (sign * Z.of_N n)%Z.
Proof.
  intros (Hne & _ & Hr) Hb. unfold parse_signed. rewrite (proj2 (is_empty_false ds)) by done. rewrite Hr. cbn.
  rewrite (proj2 (Z.leb_le _ _)), (proj2 (Z.leb_le _ _)) by lia. done.
Qed.

Lemma parse_i64_show (z : Z) : in_i64 z = true → parse_i64 (show_Z z) = Some z.
Proof.
  unfold in_i64. intros [Hlo%Z.leb_le Hhi%Z.leb_le]%andb_true_iff. destruct (Z.le_gt_cases 0 z) as [Hz|Hz].
  - rewrite show_Z_nonneg by done. pose proof (show_N_digits (Z.to_N z)) as Hd.
    assert (Hp : parse_signed 1 I64_MIN I64_MAX (lit (pretty (Z.to_N z))) = Some z).
    { rewrite (parse_signed_digits _ _ _ _ _ Hd) by lia. f_equal. lia. }
    unfold parse_i64. destruct (lit (pretty (Z.to_N z))) as [|c s'] eqn:E; [done|].
    pose proof (digits_first _ _ _ _ Hd eq_refl) as [H1 H2]. repeat case_match; try done; naive_solver.
  - rewrite show_Z_neg by done. cbn [parse_i64]. rewrite (parse_signed_digits _ _ _ _ _ (show_N_digits _)) by lia.
    f_equal. lia.
Qed.

Lemma parse_u64_show (z : Z) : (0 ≤ z ≤ U64_MAX)%Z → parse_u64 (show_Z z) = Some z.
Proof.
  intros Hz. rewrite show_Z_nonneg by lia. pose proof (show_N_digits (Z.to_N z)) as Hd.
  assert (Hp : parse_signed 1 0 U64_MAX (lit (pretty (Z.to_N z))) = Some z).
  { rewrite (parse_signed_digits _ _ _ _ _ Hd) by lia. f_equal. lia. }
  unfold parse_u64. destruct (lit (pretty (Z.to_N z))) as [|c s'] eqn:E; [done|].
  pose proof (digits_first _ _ _ _ Hd eq_refl) as [H1 H2]. repeat case_match; try done; naive_solver.
Qed.

(** What is shown holds digits and at most one sign, hence no separator. *)
Lemma show_Z_chars (z : Z) : Forall (λ c, is_digit c = true ∨ c = 0x2d%N) (show_Z z).
Proof.
  assert (Hd : ∀ n, Forall (λ c, is_digit c = true ∨ c = 0x2d%N) (lit (pretty (A := N) n))).
  { intros n. destruct (show_N_digits n) as (_ & Hf & _). eapply Forall_impl; [exact Hf|]. by left. }
  destruct (Z.le_gt_cases 0 z); [rewrite show_Z_nonneg by done; apply Hd|].
  rewrite show_Z_neg by done. constructor; [by right|apply Hd].
Qed.
