(* ===== verification/LarkFrames.v ===== *)
(** * Lark long-connection frames

    The frame of the transport ([lark/pbbp2.rs]), the reassembler of fragmented
    messages ([lark/codec.rs]) and the handling of a data frame
    ([lark/ws_manager.rs]: [handle_data_frame], [dispatch_event]). The wire encoding
    is generated by prost and is not modelled; a frame is its fields.
    Then that the reassembler is bounded and exact. *)

From Stdlib Require Import ZArith Lia String.
From stdpp Require Import base list strings sets.
From S2P Require Import Prelude Types Decimal.

(** ** Frames *)

Definition METHOD_CONTROL : Z := 0.
Definition METHOD_DATA : Z := 1.
Definition HEADER_TYPE : str := lit "type".
Definition HEADER_MESSAGE_ID : str := lit "message_id".
Definition HEADER_SUM : str := lit "sum".
Definition HEADER_SEQ : str := lit "seq".
Definition HEADER_BIZ_RT : str := lit "biz_rt".
Definition TYPE_EVENT : str := lit "event".
Definition TYPE_PING : str := lit "ping".
Definition ACK_OK : Z := 200.

Abbreviation bytes := (list N).

Record Header := mkHeader { hd_key : str; hd_value : str }.

Record Frame := mkFrame {
  f_seq_id : Z; f_log_id : Z; f_service : Z; f_method : Z;
  f_headers : list Header;
  f_payload_encoding : str; f_payload_type : str;
  f_payload : bytes;
  f_log_id_new : str }.

Definition Frame_default : Frame := mkFrame 0 0 0 0 [] [] [] [] [].

Inductive Pbbp2Error :=
| ReassemblyOverflow (cap : Z)
| BadFragment (sum seq : Z)
| MissingHeader (key : str).

(** The first value under the key. *)
Definition header (key : str) (f : Frame) : option str :=
  hd_value <$> List.find (λ h, bool_decide (hd_key h = key)) (f_headers f).
Definition header_int (key : str) (f : Frame) : option Z := v ← header key f; parse_i64 v.
Definition msg_type (f : Frame) : option str := header HEADER_TYPE f.
Definition message_id (f : Frame) : option str := header HEADER_MESSAGE_ID f.

Definition ping (service : Z) : Frame :=
  mkFrame 0 0 service METHOD_CONTROL [mkHeader HEADER_TYPE TYPE_PING] [] [] [] [].

Definition quote (s : str) : str := 0x22%N :: s ++ [0x22%N].
Definition into_ack (code biz_rt_ms : Z) (f : Frame) : Frame :=
  mkFrame (f_seq_id f) (f_log_id f) (f_service f) (f_method f)
    (f_headers f ++ [mkHeader HEADER_BIZ_RT (show_Z biz_rt_ms)])
    [] [] (lit "{" ++ quote (lit "code") ++ lit ":" ++ show_Z code ++ lit "}") (f_log_id_new f).

(** ** The reassembler *)

Definition LARK_FRAME_REASSEMBLY_MAX : nat := 64.
Definition LARK_FRAME_MAX_FRAGMENTS : Z := 256.

Record Partial := mkPartial {
  pa_message_id : str;
  pa_sum : nat;
  pa_fragments : list (option bytes);
  pa_filled : nat }.

Abbreviation Reassembler := (list Partial).

(** The slices received, in order. *)
Definition received (p : Partial) : list bytes := omap (λ o, o) (pa_fragments p).

(** The position of a message, starting it (and dropping the oldest when full) if new. *)
Definition locate (id : str) (sum : nat) (r : Reassembler) : nat * Reassembler :=
  match list_find (λ p, pa_message_id p = id) r with
  | Some (i, _) => (i, r)
  | None =>
      let kept := if LARK_FRAME_REASSEMBLY_MAX <=? length r then drop 1 r else r in
      (length kept, kept ++ [mkPartial id sum (replicate sum None) 0])
  end.

(** Record a slice; a second one for its place is ignored. *)
Definition fill (seq : nat) (payload : bytes) (p : Partial) : option Partial :=
  slot ← pa_fragments p !! seq;
  Some match slot with
       | None => mkPartial (pa_message_id p) (pa_sum p) (<[seq := Some payload]> (pa_fragments p)) (S (pa_filled p))
       | Some _ => p
       end.

Definition accept (f : Frame) (r : Reassembler) : res Pbbp2Error (option bytes) * Reassembler :=
  let sum_i64 := default 1%Z (header_int HEADER_SUM f) in
  let seq_i64 := default 0%Z (header_int HEADER_SEQ f) in
  if (sum_i64 <=? 1)%Z then (Ok (Some (f_payload f)), r)
  else if (LARK_FRAME_MAX_FRAGMENTS <? sum_i64)%Z || (seq_i64 <? 0)%Z || (sum_i64 <=? seq_i64)%Z
  then (Err (BadFragment sum_i64 seq_i64), r)
  else
    let sum := Z.to_nat sum_i64 in
    let seq := Z.to_nat seq_i64 in
    match message_id f with
    | None => (Err (MissingHeader HEADER_MESSAGE_ID), r)
    | Some mid =>
        let '(idx, r) := locate mid sum r in
        match r !! idx with
        | None => (Panic "index out of bounds", r)
        | Some p =>
            if negb (pa_sum p =? sum) then (Err (BadFragment sum_i64 seq_i64), delete idx r)
            else
              match fill seq (f_payload f) p with
              | None => (Panic "index out of bounds", r)
              | Some p' =>
                  let r := <[idx := p']> r in
                  if pa_filled p' <? pa_sum p' then (Ok None, r)
                  else (Ok (Some (concat (received p'))), delete idx r)
              end
        end
    end.

(** Frames in a row: what each gave, and the state after them. *)
Fixpoint feed_frames (fs : list Frame) (r : Reassembler) : list (res Pbbp2Error (option bytes)) * Reassembler :=
  match fs with
  | [] => ([], r)
  | f :: fs' => let '(o, r) := accept f r in let '(os, r) := feed_frames fs' r in (o :: os, r)
  end.

(** ** A data frame of a connection *)

Section connection.
(** [event::parse_event], of the JSON of an event; it is not modelled. *)
Context {Event : Type} (parse_event : bytes → option Event).

Inductive lark_act :=
| Ack (f : Frame) (sent : bool)
| Dispatch (ev : Event) (queued : bool).

(** Room for one more event in the bridge's bounded queue: [try_send]. *)
Definition dispatch_event (payload : bytes) (room : bool) : list lark_act :=
  match parse_event payload with Some ev => [Dispatch ev room] | None => [] end.

Definition handle_data_frame (f : Frame) (sent room : bool) (r : Reassembler)
    : res Pbbp2Error (list lark_act) * Reassembler :=
  let '(o, r) := accept f r in
  (match o with
   | Ok None => Ok []
   | Ok (Some payload) =>
       Ok (Ack (into_ack ACK_OK 0 f) sent
           :: (if bool_decide (msg_type f = Some TYPE_EVENT) then dispatch_event payload room else []))
   | Err e => Err e
   | Panic m => Panic m
   end, r).

(** The receive loop of [connect_once]: other frames are skipped, errors are logged. *)
Definition receive_frame (f : Frame) (sent room : bool) (r : Reassembler) : res Pbbp2Error (list lark_act) * Reassembler :=
  if (f_method f =? METHOD_DATA)%Z then handle_data_frame f sent room r else (Ok [], r).
End connection.

(** * The reassembler is bounded and exact

    Whatever frames arrive, the reassembler keeps its bounds and never panics; the
    fragments of a message, in any order, repeated, and mixed with frames of other
    messages, give exactly the message, once, with the last missing one. *)

Definition mids (r : Reassembler) : list str := pa_message_id <$> r.
Lemma mids_app r1 r2 : mids (r1 ++ r2) = mids r1 ++ mids r2.
Proof. apply fmap_app. Qed.

Record partial_ok (p : Partial) : Prop := {
  po_sum : 2 ≤ pa_sum p ≤ 256;
  po_length : length (pa_fragments p) = pa_sum p;
  po_filled : pa_filled p = length (received p);
  po_open : pa_filled p < pa_sum p }.

Record reassembler_ok (r : Reassembler) : Prop := {
  ro_bound : length r ≤ LARK_FRAME_REASSEMBLY_MAX;
  ro_ids : NoDup (mids r);
  ro_partials : Forall partial_ok r }.

(** ** Slices *)

Lemma received_length (l : list (option bytes)) : length (omap (λ o, o) l) ≤ length l.
Proof. induction l as [|[b|] l IH]; cbn; lia. Qed.

Lemma received_full (l : list (option bytes)) :
  length (omap (λ o, o) l) = length l → l = Some <$> omap (λ o, o) l.
Proof.
  induction l as [|[b|] l IH]; cbn; [done|intros [= H]; by rewrite <-IH|].
  intros H. pose proof (received_length l). lia.
Qed.

Lemma received_insert (l : list (option bytes)) k b :
  l !! k = Some None → length (omap (λ o, o) (<[k := Some b]> l)) = S (length (omap (λ o, o) l)).
Proof.
  revert k. induction l as [|o l IH]; intros [|k]; [done..| |]; csimpl; [by intros [= ->]|].
  intros Hk. destruct o; csimpl; by rewrite (IH k Hk).
Qed.

Lemma fill_spec k b p : length (pa_fragments p) = pa_sum p → pa_filled p = length (received p) → k < pa_sum p →
  ∃ p', fill k b p = Some p' ∧ pa_message_id p' = pa_message_id p ∧ pa_sum p' = pa_sum p ∧
    length (pa_fragments p') = pa_sum p ∧ pa_filled p' = length (received p') ∧
    ∀ j, pa_fragments p' !! j = (if decide (j = k) then o ← pa_fragments p !! k; Some (Some (default b o)) else pa_fragments p !! j).
Proof.
  intros Hlen Hfill Hk. destruct (lookup_lt_is_Some_2 (pa_fragments p) k ltac:(lia)) as [slot Hs].
  unfold fill. rewrite Hs. cbn. destruct slot as [c|].
  - exists p. split_and!; try done. intros j. destruct (decide (j = k)) as [->|]; [by rewrite Hs|done].
  - eexists. split; [done|]. cbn. split_and!; [done..|by rewrite length_insert|by rewrite Hfill; symmetry; apply received_insert|].
    intros j. destruct (decide (j = k)) as [->|Hj]; [by rewrite list_lookup_insert_eq by lia|by rewrite list_lookup_insert_ne].
Qed.

(** ** Finding the place of a message *)

Lemma fresh_ok mid sum : 2 ≤ sum ≤ 256 → partial_ok (mkPartial mid sum (replicate sum None) 0).
Proof.
  intros Hs. assert (Hr : ∀ n, omap (λ o, o) (replicate n (@None bytes)) = []) by (induction n; [done|exact IHn]).
  constructor; cbn; [done|by rewrite length_replicate|by unfold received; cbn; rewrite Hr|lia].
Qed.

Lemma locate_spec mid sum r : reassembler_ok r → 2 ≤ sum ≤ 256 →
  ∃ i r' p, locate mid sum r = (i, r') ∧ r' !! i = Some p ∧ pa_message_id p = mid ∧ reassembler_ok r' ∧
    (r' = r ∨ mid ∉ mids r ∧ p = mkPartial mid sum (replicate sum None) 0 ∧
              (r' = r ++ [p] ∨ length r = 64 ∧ r' = drop 1 r ++ [p])).
Proof.
  intros [Hb Hn Hp] Hs. unfold locate. destruct (list_find _ r) as [[i p]|] eqn:Hf.
  - apply list_find_Some in Hf as (Hi & Hm & _). exists i, r, p. split_and!; [done|done|done|done|by left].
  - assert (Hnew : mid ∉ mids r).
    { intros (q & -> & Hq)%list_elem_of_fmap. apply list_find_None in Hf. by eapply Forall_forall in Hf. }
    set (kept := if LARK_FRAME_REASSEMBLY_MAX <=? length r then drop 1 r else r). set (p := mkPartial _ _ _ _).
    assert (Hk : length kept < 64 ∧ (kept = r ∨ length r = 64 ∧ kept = drop 1 r)).
    { subst kept. unfold LARK_FRAME_REASSEMBLY_MAX in *. destruct (Nat.leb_spec 64 (length r)) as [Hl|Hl].
      - rewrite length_drop. split; [lia|right]. split; [lia|done].
      - split; [done|by left]. }
    clearbody kept. assert (Hsub : kept `suffix_of` r).
    { destruct Hk as [_ [->|[_ ->]]]; [by exists []|]. exists (take 1 r). by rewrite take_drop. }
    destruct Hsub as [pre Hpre]. exists (length kept), (kept ++ [p]), p. split_and!; [done| |done| |].
    + by rewrite lookup_app_r, Nat.sub_diag by lia.
    + constructor.
      * rewrite length_app. unfold LARK_FRAME_REASSEMBLY_MAX. cbn. lia.
      * rewrite mids_app, NoDup_app. rewrite Hpre, mids_app, NoDup_app in Hn. split_and!; [by apply Hn| |by apply NoDup_singleton].
        intros x Hx ->%list_elem_of_singleton. apply Hnew. rewrite Hpre, mids_app. set_solver.
      * apply Forall_app. split; [|by apply Forall_singleton, fresh_ok]. rewrite Hpre, Forall_app in Hp. apply Hp.
    + right. split; [done|]. split; [done|]. destruct Hk as [_ [->|[? ->]]]; [by left|by right].
Qed.

Lemma insert_middle {A} (before after : list A) x y : <[length before := y]> (before ++ x :: after) = before ++ y :: after.
Proof. rewrite <-(Nat.add_0_r (length before)). by rewrite insert_app_r. Qed.

(** ** One frame *)

Definition frame_sum (f : Frame) : Z := default 1%Z (header_int HEADER_SUM f).
Definition frame_seq (f : Frame) : Z := default 0%Z (header_int HEADER_SEQ f).

Inductive frame_accepts (f : Frame) (r : Reassembler) : res Pbbp2Error (option bytes) → Reassembler → Prop :=
| accepts_whole : (frame_sum f ≤ 1)%Z → frame_accepts f r (Ok (Some (f_payload f))) r
| accepts_bad e : (1 < frame_sum f)%Z →
    message_id f = None ∨ ¬ (frame_sum f ≤ 256 ∧ 0 ≤ frame_seq f < frame_sum f)%Z → frame_accepts f r (Err e) r
| accepts_clash sum seq mid before p after e :
    message_id f = Some mid → frame_sum f = Z.of_nat sum → frame_seq f = Z.of_nat seq → 2 ≤ sum ≤ 256 → seq < sum →
    r = before ++ p :: after → pa_message_id p = mid → pa_sum p ≠ sum →
    frame_accepts f r (Err e) (before ++ after)
| accepts_slice sum seq mid r1 before p after p' :
    message_id f = Some mid → frame_sum f = Z.of_nat sum → frame_seq f = Z.of_nat seq → 2 ≤ sum ≤ 256 → seq < sum →
    r1 = before ++ p :: after → pa_message_id p = mid → pa_sum p = sum → reassembler_ok r1 →
    r1 = r ∨ mid ∉ mids r ∧ p = mkPartial mid sum (replicate sum None) 0 ∧
             (r1 = r ++ [p] ∨ length r = 64 ∧ r1 = drop 1 r ++ [p]) →
    fill seq (f_payload f) p = Some p' → pa_message_id p' = mid → pa_sum p' = sum → length (pa_fragments p') = sum →
    pa_filled p' = length (received p') →
    frame_accepts f r (if pa_filled p' <? sum then Ok None else Ok (Some (concat (received p'))))
      (if pa_filled p' <? sum then before ++ p' :: after else before ++ after).

Lemma accept_spec f r : reassembler_ok r → frame_accepts f r (accept f r).1 (accept f r).2.
Proof.
  intros Hr. unfold accept. fold (frame_sum f) (frame_seq f).
  destruct (Z.leb_spec (frame_sum f) 1); [by constructor|].
  destruct (_ || _ || _) eqn:Hbad; cbn [fst snd].
  { apply accepts_bad; [done|right]. unfold LARK_FRAME_MAX_FRAGMENTS in Hbad.
    rewrite !orb_true_iff, Z.ltb_lt, Z.ltb_lt, Z.leb_le in Hbad. lia. }
  unfold LARK_FRAME_MAX_FRAGMENTS in Hbad. rewrite !orb_false_iff, Z.ltb_ge, Z.ltb_ge, Z.leb_gt in Hbad.
  destruct (message_id f) as [mid|] eqn:Hmid; [|by apply accepts_bad; auto].
  set (sum := Z.to_nat (frame_sum f)). set (seq := Z.to_nat (frame_seq f)).
  destruct (locate_spec mid sum r Hr ltac:(lia)) as (i & r1 & p & -> & Hi & Hp & Hok & Hnew). rewrite Hi.
  apply list_elem_of_split_length in Hi as (before & after & -> & ->).
  assert (Hpo : partial_ok p) by (by destruct Hok as [_ _ [_ [? _]%Forall_cons]%Forall_app]). destruct Hpo.
  rewrite delete_middle. destruct (Nat.eqb_spec (pa_sum p) sum) as [Hs|Hs]; cbn [negb fst snd].
  - destruct (fill_spec seq (f_payload f) p) as (p' & Hfill & Hm & Hs' & Hl & Hc & _); [done|done|lia|].
    rewrite Hfill, insert_middle, delete_middle, Hs', Hs.
    assert (Hspec := accepts_slice f r sum seq mid (before ++ p :: after) before p after p').
    revert Hspec. destruct (pa_filled p' <? sum); cbn [fst snd]; intros Hspec; apply Hspec; first [done|lia|congruence].
  - destruct Hnew as [<-|(_ & -> & _)]; [|by cbn in Hs]. apply (accepts_clash f _ sum seq mid before p after); first [done|lia].
Qed.

(** ** The bounds *)

Lemma ok_middle before p after p' :
  reassembler_ok (before ++ p :: after) → pa_message_id p' = pa_message_id p → partial_ok p' →
  reassembler_ok (before ++ p' :: after).
Proof.
  intros [Hb Hn Hf] Hm Hp. constructor.
  - by rewrite length_app in *.
  - rewrite mids_app in *. cbn in *. by rewrite Hm.
  - rewrite Forall_app, Forall_cons in *. naive_solver.
Qed.
Lemma ok_remove before p after : reassembler_ok (before ++ p :: after) → reassembler_ok (before ++ after).
Proof.
  intros [Hb Hn Hf]. constructor.
  - rewrite length_app in *. cbn in Hb. lia.
  - rewrite mids_app in *. apply NoDup_app in Hn as (? & Hd & [_ ?]%NoDup_cons). apply NoDup_app.
    split_and!; [done| |done]. intros x Hx Hx'. apply (Hd x Hx). by right.
  - rewrite Forall_app, Forall_cons in *. naive_solver.
Qed.

Lemma accepts_ok f r o r' : reassembler_ok r → frame_accepts f r o r' → reassembler_ok r' ∧ ∀ m, o ≠ Panic m.
Proof.
  intros Hr [|?|????????????->|sum seq mid r1 before p after p' ?????->?? Hok _ _ Hm Hs Hl Hc]; try done.
  - split; [by eapply ok_remove|done].
  - pose proof (received_length (pa_fragments p')) as Hle. destruct (Nat.ltb_spec (pa_filled p') sum).
    + split; [|done]. apply (ok_middle _ p); [done|congruence|]. constructor; [lia|lia|done|lia].
    + split; [by eapply ok_remove|done].
Qed.

Lemma feed_ok fs : ∀ r, reassembler_ok r → reassembler_ok (feed_frames fs r).2 ∧ ∀ o m, o ∈ (feed_frames fs r).1 → o ≠ Panic m.
Proof.
  induction fs as [|f fs IH]; intros r Hr; cbn.
  - split; [done|]. intros o m Ho. by apply elem_of_nil in Ho.
  - pose proof (accepts_ok f r _ _ Hr (accept_spec f r Hr)) as [Hr' Hp].
    destruct (accept f r) as [o r']. destruct (IH r' Hr') as [Hr'' Hps]. destruct (feed_frames fs r') as [os r'']. cbn in *.
    split; [done|]. intros o' m [->|Ho]%elem_of_cons; auto.
Qed.

(** ** One message among others *)

(** The message's partial, and the messages started after it. *)
Definition holds (p : Partial) (ids : list str) (r : Reassembler) : Prop :=
  ∃ before after, r = before ++ p :: after ∧ mids after ⊆ ids.

Lemma holds_other p ids before q after : holds p ids (before ++ q :: after) → pa_message_id q ≠ pa_message_id p →
  holds p ids (before ++ after) ∧ ∀ q', pa_message_id q' = pa_message_id q → holds p ids (before ++ q' :: after).
Proof.
  intros (b & a & Heq & Hsub) Hne. apply app_eq_inv in Heq as [(m & -> & Ha)|(m & -> & Ha)].
  - destruct m as [|x m]; injection Ha as ? ?; subst; [done|]. split; [|intros q' Hq'].
    + exists b, (m ++ after). rewrite <-(assoc_L (++)). split; [done|]. rewrite mids_app in *. set_solver.
    + exists b, (m ++ q' :: after). rewrite <-(assoc_L (++)). split; [done|]. rewrite mids_app in *. cbn in *. by rewrite Hq'.
  - destruct m as [|x m]; injection Ha as ? ?; subst; [done|]. split; [|intros q' Hq'].
    + exists (before ++ m), a. by rewrite <-(assoc_L (++)).
    + exists (before ++ q' :: m), a. by rewrite <-(assoc_L (++)).
Qed.

Lemma holds_mono p ids ids' r : ids ⊆ ids' → holds p ids r → holds p ids' r.
Proof. intros Hs (b & a & -> & Ha). exists b, a. set_solver. Qed.

Lemma holds_append p ids r q : holds p ids r → pa_message_id q ∈ ids → holds p ids (r ++ [q]).
Proof.
  intros (b & a & -> & Ha) Hq. exists b, (a ++ [q]). rewrite <-(assoc_L (++)). split; [done|].
  rewrite mids_app. cbn. set_solver.
Qed.

(** No list of distinct identifiers among [ids] is longer than the buffer. *)
Definition light (ids : list str) : Prop := ∀ l, NoDup l → l ⊆ ids → length l ≤ LARK_FRAME_REASSEMBLY_MAX.

(** While few messages are about, the oldest one dropped for [mid] is another. *)
Lemma holds_drop p ids r mid : holds p ids r → reassembler_ok r → length r = 64 → mid ∉ mids r →
  light ids → pa_message_id p ∈ ids → mid ∈ ids → holds p ids (drop 1 r).
Proof.
  intros (b & a & -> & Ha) [_ Hn _] Hlen Hmid Hl Hp Hin. destruct b as [|x b]; [|by exists b, a].
  exfalso. specialize (Hl (mid :: mids (p :: a))). cbn in Hl, Hlen, Hn, Hmid. unfold mids in *.
  rewrite length_fmap in Hl. enough (S (S (length a)) ≤ LARK_FRAME_REASSEMBLY_MAX) by (unfold LARK_FRAME_REASSEMBLY_MAX in *; lia).
  apply Hl; [by constructor|]. intros y [->|[->|Hy]%elem_of_cons]%elem_of_cons; auto.
Qed.

Lemma received_all (l : list bytes) : omap (λ o, o) (Some <$> l) = l.
Proof. induction l as [|b l IH]; [done|]. csimpl. by rewrite IH. Qed.

Lemma unique_id r p q : reassembler_ok r → p ∈ r → q ∈ r → pa_message_id p = pa_message_id q → p = q.
Proof.
  intros [_ Hn _] [i Hi]%list_elem_of_lookup [j Hj]%list_elem_of_lookup Hpq.
  assert (i = j) as ->; [|congruence]. eapply (NoDup_lookup (mids r)); [done| |];
    unfold mids; rewrite list_lookup_fmap; [by rewrite Hi|by rewrite Hj, Hpq].
Qed.

Lemma holds_self p ids before after : reassembler_ok (before ++ p :: after) → holds p ids (before ++ p :: after) → mids after ⊆ ids.
Proof.
  intros [_ Hn _] (b & a & Heq & Ha). rewrite mids_app in Hn. apply NoDup_app in Hn as (_ & Hd & [Hnot _]%NoDup_cons).
  apply app_eq_inv in Heq as [(m & -> & Hm)|(m & -> & Hm)]; destruct m as [|x m]; cbn in Hm; simplify_eq; [done| |done|].
  - exfalso. eapply (Hd (pa_message_id x)); [|by left]. rewrite mids_app. set_solver.
  - exfalso. apply Hnot. rewrite mids_app. set_solver.
Qed.

Section message.
Context (mid : str) (bodies : list bytes) (Hn : 2 ≤ length bodies ≤ 256).

(** A frame that carries the [k]-th slice of the message. *)
Definition fragment (k : nat) (f : Frame) : Prop :=
  message_id f = Some mid ∧ frame_sum f = Z.of_nat (length bodies) ∧ frame_seq f = Z.of_nat k ∧
  bodies !! k = Some (f_payload f).
Definition foreign (f : Frame) : Prop := message_id f ≠ Some mid ∨ (frame_sum f ≤ 1)%Z.

(** The slots of the message once the slices [ks] came. *)
Definition slots (ks : list nat) (p : Partial) : Prop :=
  pa_message_id p = mid ∧ pa_sum p = length bodies ∧ pa_filled p = length (received p) ∧
  length (pa_fragments p) = length bodies ∧
  ∀ k, k < length bodies → pa_fragments p !! k = Some (if decide (k ∈ ks) then bodies !! k else None).

Definition tracks (ks : list nat) (ids : list str) (r : Reassembler) : Prop :=
  match ks with [] => mid ∉ mids r | _ :: _ => mid ∈ ids ∧ ∃ p, slots ks p ∧ holds p ids r end.

Lemma foreign_step ks ids r f o r' : reassembler_ok r → tracks ks ids r → foreign f →
  light (ids ++ option_list (message_id f)) → frame_accepts f r o r' → tracks ks (ids ++ option_list (message_id f)) r'.
Proof.
  set (ids' := ids ++ _). intros Hr Ht Hf Hl Ha.
  assert (Hsub : ids ⊆ ids') by set_solver.
  assert (Hr' : tracks ks ids' r).
  { destruct ks as [|k ks]; [done|]. destruct Ht as (? & p & ? & ?). split; [set_solver|]. exists p. split; [done|]. by eapply holds_mono. }
  clear Ht. assert (Hne : ∀ x, message_id f = Some x → (1 < frame_sum f)%Z → x ≠ mid ∧ x ∈ ids').
  { intros x Hx Hs. split; [|unfold ids'; rewrite Hx; set_solver]. destruct Hf as [Hf|Hf]; [congruence|lia]. }
  destruct Ha as [| |sum seq x before q after e Hx Hs _ ? _ -> Hq _|sum seq x r1 before q after q' Hx Hs _ ? _ -> Hq ? Hok Hr1 _ Hm].
  - done.
  - done.
  - destruct (Hne x Hx) as [Hxm Hxi]; [lia|]. subst x. destruct ks as [|k ks].
    + cbn in *. rewrite mids_app in *. cbn in Hr'. set_solver.
    + destruct Hr' as (? & p & Hp & Hh). split; [done|]. exists p. split; [done|].
      destruct Hp as (Hpm & _). by apply (holds_other p ids' before q after Hh); rewrite Hpm.
  - destruct (Hne x Hx) as [Hxm Hxi]; [lia|]. subst x.
    assert (Hr1' : tracks ks ids' (before ++ q :: after)).
    { destruct Hr1 as [->|(Hnew & _ & Heq)]; [done|]. destruct ks as [|k ks].
      - cbn in *. destruct Heq as [->|[_ ->]]; rewrite mids_app; cbn; [set_solver|].
        intros [Hin|Hin]%elem_of_app; [|set_solver]. apply Hr'. rewrite <-(take_drop 1 r), mids_app. set_solver.
      - destruct Hr' as (Hmi & p & Hp & Hh). split; [done|]. exists p. split; [done|]. destruct Hp as (Hpm & _).
        destruct Heq as [->|[Hlen ->]]; apply holds_append; try done. apply (holds_drop p ids' r (pa_message_id q)); auto; congruence. }
    clear Hr' Hr1. destruct ks as [|k ks].
    + cbn in *. rewrite mids_app in Hr1'. cbn in Hr1'. case_match; rewrite mids_app; cbn; rewrite ?Hm; set_solver.
    + destruct Hr1' as (? & p & Hp & Hh). split; [done|]. exists p. split; [done|]. destruct Hp as (Hpm & _).
      destruct (holds_other p ids' before q after Hh) as [Hd Hi]; [by rewrite Hpm|]. case_match; [by apply Hi|done].
Qed.

Lemma slots_fresh : slots [] (mkPartial mid (length bodies) (replicate (length bodies) None) 0).
Proof.
  destruct (fresh_ok mid (length bodies) Hn). split_and!; try done. intros k Hk. cbn. by rewrite lookup_replicate_2.
Qed.

Lemma slots_fill ks k b p p' : slots ks p → bodies !! k = Some b → fill k b p = Some p' → slots (k :: ks) p'.
Proof.
  intros (Hm & Hs & Hc & Hl & Hp) Hb Hf. pose proof (lookup_lt_Some _ _ _ Hb) as Hk.
  destruct (fill_spec k b p) as (p1 & Hf1 & Hm1 & Hs1 & Hl1 & Hc1 & Hp1); [lia|done|lia|].
  assert (p1 = p') as -> by congruence. split_and!; [congruence|lia|done|lia|]. intros j Hj. rewrite Hp1.
  destruct (decide (j = k)) as [->|Hne].
  - rewrite Hp by done. cbn. rewrite (decide_True (P := k ∈ k :: ks)) by (by left). destruct (decide (k ∈ ks)); by rewrite Hb.
  - rewrite Hp by done. f_equal. destruct (decide (j ∈ ks)), (decide (j ∈ k :: ks)); set_solver.
Qed.

Lemma slots_complete ks p : slots ks p → (∀ j, j < length bodies → j ∈ ks) → received p = bodies.
Proof.
  intros (_ & _ & _ & Hl & Hp) Hall. enough (pa_fragments p = Some <$> bodies) as E.
  { unfold received. rewrite E. apply received_all. }
  apply (list_eq_same_length _ _ (length bodies)); [by rewrite length_fmap|done|]. intros i x y Hi Hx Hy.
  rewrite Hp, decide_True in Hx by auto. rewrite list_lookup_fmap in Hy. destruct (bodies !! i); naive_solver.
Qed.

Lemma slots_open ks p : slots ks p →
  pa_filled p < length bodies ∧ (∃ j, j < length bodies ∧ j ∉ ks) ∨
  length bodies ≤ pa_filled p ∧ (∀ j, j < length bodies → j ∈ ks) ∧ received p = bodies.
Proof.
  intros Hp. pose proof Hp as (_ & _ & Hc & Hl & Hs). destruct (decide (Exists (λ j, j ∉ ks) (seq 0 (length bodies)))) as [(j & Hj & Hk)%Exists_exists|Hno].
  - apply elem_of_seq in Hj. left. split; [|by exists j; split; [lia|]]. pose proof (received_length (pa_fragments p)) as Hle.
    destruct (decide (length (received p) = length (pa_fragments p))) as [E|E]; [|unfold received in *; lia].
    apply received_full in E. specialize (Hs j ltac:(lia)). rewrite decide_False in Hs by done.
    rewrite E, list_lookup_fmap in Hs. by destruct (omap _ _ !! j).
  - right. assert (Hall : ∀ j, j < length bodies → j ∈ ks).
    { intros j Hj. destruct (decide (j ∈ ks)) as [|Hk]; [done|]. destruct Hno. apply Exists_exists. exists j. split; [|done]. apply elem_of_seq. lia. }
    pose proof (slots_complete ks p Hp Hall) as Hr. split_and!; [|done|done]. rewrite Hc, Hr. done.
Qed.

Lemma fragment_step ks ids r k f o r' : reassembler_ok r → tracks ks ids r → fragment k f → frame_accepts f r o r' →
  (∃ j, j < length bodies ∧ j ∉ k :: ks) ∧ o = Ok None ∧ tracks (k :: ks) (ids ++ option_list (message_id f)) r' ∨
  (∀ j, j < length bodies → j ∈ k :: ks) ∧ o = Ok (Some (concat bodies)) ∧ mid ∉ mids r'.
Proof.
  intros Hr Ht (Hx & Hs & Hq & Hb) Ha. pose proof (lookup_lt_Some _ _ _ Hb) as Hk.
  assert (Hold : ∀ p, p ∈ r → pa_message_id p = mid → slots ks p ∧ holds p ids r).
  { intros p Hp Hm. destruct ks as [|k0 ks].
    - exfalso. apply Ht. apply list_elem_of_fmap. by exists p.
    - destruct Ht as (_ & p0 & Hp0 & Hh). assert (p = p0) as ->; [|done]. destruct Hh as (b & a & -> & _).
      apply (unique_id (b ++ p0 :: a)); [done|done|set_solver|]. destruct Hp0 as (? & _). congruence. }
  destruct Ha as [Hw|e Hw [Hbad|Hbad]|sum sq x before p after e Hx' Hs' _ ? _ -> Hp Hne
    |sum sq x r1 before p after p' Hx' Hs' Hq' ? _ -> Hp Hps Hok Hr1 Hf _ _ _ _]; [lia|congruence|lia| |].
  - exfalso. destruct (Hold p) as [(_ & Hsum & _) _]; [set_solver|congruence|]. apply Hne. lia.
  - assert (sum = length bodies) as -> by lia. assert (sq = k) as -> by lia. assert (x = mid) as -> by congruence.
    assert (Hp1 : slots ks p ∧ mids after ⊆ ids).
    { destruct Hr1 as [E|(Hnew & Hfresh & E)].
      - destruct (Hold p) as [? Hh]; [rewrite <-E; set_solver|done|]. split; [done|]. rewrite <-E in Hh. by eapply holds_self.
      - assert (ks = []) as ->. { destruct ks as [|k0 ks]; [done|]. destruct Ht as (_ & p0 & (Hm0 & _) & (b & a & -> & _)).
          destruct Hnew. rewrite mids_app. cbn. set_solver. }
        split; [rewrite Hfresh; apply slots_fresh|]. apply (holds_self p ids before after Hok).
        destruct E as [->|[_ ->]]; eexists _, []; (split; [done|set_solver]). }
    destruct Hp1 as [Hp1 Hafter]. pose proof (slots_fill ks k _ p p' Hp1 Hb Hf) as Hp'.
    destruct (slots_open (k :: ks) p' Hp') as [[Hlt Hopen]|(Hge & Hall & Hrec)].
    + left. rewrite (proj2 (Nat.ltb_lt _ _)) by done. split_and!; [done..|]. rewrite Hx. cbn. split; [set_solver|].
      exists p'. split; [done|]. exists before, after. split; [done|]. set_solver.
    + right. rewrite (proj2 (Nat.ltb_ge _ _)), Hrec by done. split_and!; [done..|].
      destruct Hok as [_ Hnd _]. rewrite mids_app in Hnd. apply NoDup_app in Hnd as (_ & Hd & [Hnot _]%NoDup_cons).
      rewrite mids_app, elem_of_app. intros [Hin|Hin]; [|by apply Hnot; rewrite Hp]. apply (Hd mid Hin). cbn. rewrite Hp. by left.
Qed.

Definition arrived (k : nat) (fs : list Frame) : Prop := Exists (fragment k) fs.
Definition of_message (f : Frame) : Prop := ∃ k, fragment k f.

Lemma fragment_not_foreign k f : fragment k f → ¬ foreign f.
Proof. intros (Hm & Hs & _) [Hf|Hf]; [done|lia]. Qed.

Lemma light_sub ids ids' : ids ⊆ ids' → light ids' → light ids.
Proof. intros Hs Hl l Hnd Hsub. apply Hl; [done|set_solver]. Qed.

Lemma feed_tracks fs : ∀ ks ids r, reassembler_ok r → tracks ks ids r → Forall (λ f, foreign f ∨ of_message f) fs →
  light (ids ++ omap message_id fs) → (∃ j, j < length bodies ∧ j ∉ ks ∧ ¬ arrived j fs) →
  ∃ ks', (∀ j, j ∈ ks' ↔ j ∈ ks ∨ arrived j fs) ∧ tracks ks' (ids ++ omap message_id fs) (feed_frames fs r).2 ∧
    ∀ i g, fs !! i = Some g → of_message g → (feed_frames fs r).1 !! i = Some (Ok None).
Proof.
  induction fs as [|f fs IH]; intros ks ids r Hr Ht Hfs Hl (j & Hj & Hjk & Hja).
  - exists ks. rewrite app_nil_r. split; [|done]. intros j'. split; [by left|]. intros [|Ha]; [done|by apply Exists_nil in Ha].
  - apply Forall_cons in Hfs as [Hf Hfs]. unfold arrived in Hja. rewrite Exists_cons in Hja. cbn [feed_frames].
    pose proof (accept_spec f r Hr) as Ha. pose proof (accepts_ok f r _ _ Hr Ha) as [Hr' _].
    destruct (accept f r) as [o r']. cbn in Ha, Hr'.
    assert (Hids : ids ++ omap message_id (f :: fs) = (ids ++ option_list (message_id f)) ++ omap message_id fs).
    { rewrite <-(assoc_L (++)). csimpl. by destruct (message_id f). }
    rewrite Hids in Hl. rewrite Hids. set (ids1 := ids ++ _) in *.
    assert (Hstep : ∃ ks1, (∀ i, i ∈ ks1 ↔ i ∈ ks ∨ fragment i f) ∧ tracks ks1 ids1 r' ∧
      (of_message f → o = Ok None)).
    { destruct Hf as [Hf|[k Hf]].
      - exists ks. split_and!.
        + intros i. split; [by left|]. intros [|Hi]; [done|]. by destruct (fragment_not_foreign i f).
        + apply (foreign_step ks ids r f o r'); try done. eapply light_sub; [|done]. set_solver.
        + intros [i Hi]. by destruct (fragment_not_foreign i f).
      - assert (Hk : ∀ i, fragment i f ↔ i = k).
        { intros i. split; [|by intros ->]. intros (_ & _ & Hi & _). destruct Hf as (_ & _ & Hk & _). lia. }
        exists (k :: ks). split; [intros i; rewrite elem_of_cons, Hk; naive_solver|].
        destruct (fragment_step ks ids r k f o r') as [(_ & ? & ?)|(Hall & _)]; try done.
        exfalso. specialize (Hall j Hj). apply elem_of_cons in Hall as [->|]; [apply Hja; by left|done]. }
    destruct Hstep as (ks1 & Hks1 & Ht1 & Ho).
    destruct (IH ks1 ids1 r' Hr' Ht1 Hfs Hl) as (ks' & Hks' & Ht' & Hos).
    { exists j. split_and!; [done| |naive_solver]. rewrite Hks1. naive_solver. }
    destruct (feed_frames fs r') as [os r'']. cbn [fst snd] in *. exists ks'. split_and!; [|done|].
    + intros i. rewrite Hks', Hks1. unfold arrived. rewrite Exists_cons. tauto.
    + intros [|i] g Hg Hm; [|by eapply Hos]. injection Hg as ->. cbn. by rewrite Ho.
Qed.
End message.

(** C25: Whatever frames came before on a connection, let a message of two to 256
    fragments be sent whose identifier is not among those being assembled, and let at
    most sixty-four identifiers, its own included, occur from its first fragment to its
    last. Then its fragments, in any order, repeated and mixed with other frames, give
    nothing until the last missing one and then exactly the message; the buffers stay
    within their bounds and no frame panics. With more identifiers than that an
    incomplete message is evicted and lost ([sixty_four_others]). *)
Theorem message_reassembled (before fs : list Frame) (f : Frame) (mid : str) (bodies : list bytes)
    (Hn : 2 ≤ length bodies ≤ 256) (Hnew : mid ∉ mids (feed_frames before []).2)
    (Hfs : Forall (λ g, foreign mid g ∨ of_message mid bodies g) fs) (Hf : of_message mid bodies f)
    (Hopen : ∃ j, j < length bodies ∧ ¬ arrived mid bodies j fs)
    (Hall : ∀ j, j < length bodies → arrived mid bodies j (fs ++ [f]))
    (Hlight : light (omap message_id fs)) :
  let '(os, r) := feed_frames fs (feed_frames before []).2 in
  let '(o, r') := accept f r in
  (∀ i g, fs !! i = Some g → of_message mid bodies g → os !! i = Some (Ok None)) ∧
  o = Ok (Some (concat bodies)) ∧ mid ∉ mids r' ∧
  length r' ≤ LARK_FRAME_REASSEMBLY_MAX ∧ Forall (λ p, pa_filled p < pa_sum p ≤ 256) r' ∧
  ∀ m, Panic m ∉ (feed_frames before []).1 ++ os ++ [o].
Proof.
  assert (H0 : reassembler_ok []) by (constructor; [cbn; lia|constructor|constructor]).
  destruct (feed_ok before [] H0) as [H1 Hp1]. destruct (feed_frames before []) as [os1 r1]. cbn [fst snd] in *.
  destruct (feed_ok fs r1 H1) as [H2 Hp2].
  destruct (feed_tracks mid bodies Hn fs [] [] r1) as (ks & Hks & Ht & Hos); [done|done|done|done| |].
  { destruct Hopen as (j & ? & ?). exists j. split_and!; [done|set_solver|done]. }
  destruct (feed_frames fs r1) as [os r]. cbn [fst snd] in *. destruct Hf as [k Hf].
  pose proof (accept_spec f r H2) as Ha. pose proof (accepts_ok f r _ _ H2 Ha) as [H3 Hp3].
  destruct (accept f r) as [o r']. cbn [fst snd] in *.
  destruct (fragment_step mid bodies Hn ks _ r k f o r' H2 Ht Hf Ha) as [((j & Hj & Hjk) & _)|(_ & -> & Hmid)].
  - exfalso. rewrite elem_of_cons, Hks in Hjk. specialize (Hall j Hj). unfold arrived in *.
    rewrite Exists_app, Exists_cons, Exists_nil in Hall. destruct Hall as [?|[Hj'|[]]]; [naive_solver|].
    apply Hjk. left. destruct Hf as (_ & _ & Hk & _), Hj' as (_ & _ & Hk' & _). lia.
  - split_and!; [done|done|done|apply H3| |].
    + eapply Forall_impl; [apply H3|]. intros p [[_ ?] _ _ ?]. lia.
    + intros m. rewrite !elem_of_app, list_elem_of_singleton. intros [Hm|[Hm|Hm]]; [by eapply Hp1|by eapply Hp2|done].
Qed.

(** ** A small connection *)

Module FrameDemo.

Definition frag (mid : str) (sum seq : Z) (body : bytes) : Frame :=
  mkFrame 0 0 0 METHOD_DATA
    [mkHeader HEADER_TYPE TYPE_EVENT; mkHeader HEADER_MESSAGE_ID mid;
     mkHeader HEADER_SUM (show_Z sum); mkHeader HEADER_SEQ (show_Z seq)] [] [] body [].
Definition others (n : nat) : list Frame := (λ i, frag (show_Z (Z.of_nat i)) 2 0 [0%N]) <$> seq 0 n.

(** Two messages interleave, one slice comes twice. *)
Example interleaved :
  (feed_frames [frag (lit "a") 2 1 [7%N]; frag (lit "b") 2 0 [8%N]; frag (lit "a") 2 1 [7%N]; frag (lit "a") 2 0 [6%N]; frag (lit "b") 2 1 [9%N]] []).1
  = [Ok None; Ok None; Ok None; Ok (Some [6%N; 7%N]); Ok (Some [8%N; 9%N])].
Proof. by vm_compute. Qed.

(** With sixty-four other messages begun in between the message is lost; sixty-three
    leave it whole. *)
Example sixty_four_others :
  let last n := last (feed_frames (frag (lit "a") 2 0 [6%N] :: others n ++ [frag (lit "a") 2 1 [7%N]]) []).1 in
  (last 63, last 64) = (Some (Ok (Some [6%N; 7%N])), Some (Ok None)).
Proof. by vm_compute. Qed.

(** A slice sent again after its message was complete opens it anew. *)
Example late_duplicate_lingers :
  length (feed_frames [frag (lit "a") 2 0 [6%N]; frag (lit "a") 2 1 [7%N]; frag (lit "a") 2 1 [7%N]] []).2 = 1.
Proof. by vm_compute. Qed.

(** The acknowledgement goes out before the event is queued: with the queue full the
    event is acknowledged and dropped. *)
Example acknowledged_then_dropped (ack := into_ack ACK_OK 0 (frag (lit "a") 1 0 [6%N])) :
  (receive_frame Some (frag (lit "a") 1 0 [6%N]) true false []).1 = Ok [Ack ack true; Dispatch [6%N] false].
Proof. by vm_compute. Qed.

End FrameDemo.

Lemma message_reassembled_witness :
  let fs := [FrameDemo.frag (lit "a") 2 1 [7%N]; FrameDemo.frag (lit "b") 2 0 [8%N]; FrameDemo.frag (lit "a") 2 1 [7%N]] in
  let f := FrameDemo.frag (lit "a") 2 0 [6%N] in
  let '(os, r) := feed_frames fs (feed_frames [] []).2 in
  let '(o, r') := accept f r in
  (∀ i g, fs !! i = Some g → of_message (lit "a") [[6%N]; [7%N]] g → os !! i = Some (Ok None)) ∧
  o = Ok (Some (concat [[6%N]; [7%N]])) ∧ lit "a" ∉ mids r' ∧
  length r' ≤ LARK_FRAME_REASSEMBLY_MAX ∧ Forall (λ p, pa_filled p < pa_sum p ≤ 256) r' ∧
  ∀ m, Panic m ∉ (feed_frames [] []).1 ++ os ++ [o].
Proof.
  assert (H0 : fragment (lit "a") [[6%N]; [7%N]] 0 (FrameDemo.frag (lit "a") 2 0 [6%N])) by (split_and!; by vm_compute).
  assert (H1 : fragment (lit "a") [[6%N]; [7%N]] 1 (FrameDemo.frag (lit "a") 2 1 [7%N])) by (split_and!; by vm_compute).
  apply (message_reassembled [] [FrameDemo.frag (lit "a") 2 1 [7%N]; FrameDemo.frag (lit "b") 2 0 [8%N]; FrameDemo.frag (lit "a") 2 1 [7%N]]
           (FrameDemo.frag (lit "a") 2 0 [6%N]) (lit "a") [[6%N]; [7%N]]).
  - cbn. lia.
  - apply not_elem_of_nil.
  - repeat first [apply Forall_nil_2|apply Forall_cons_2]; [right; by exists 1|left; left; by vm_compute|right; by exists 1].
  - by exists 0.
  - exists 0. split; [cbn; lia|]. unfold arrived. rewrite !Exists_cons, Exists_nil.
    intros [(_ & _ & H & _)|[(H & _)|[(_ & _ & H & _)|[]]]]; by vm_compute in H.
  - intros [|[|j]] Hj; [| |cbn in Hj; lia]; unfold arrived; rewrite Exists_app.
    + right. by apply Exists_cons; left.
    + left. by apply Exists_cons; left.
  - intros l Hnd Hl. apply (NoDup_submseteq _ _ Hnd) in Hl. apply submseteq_length in Hl.
    etrans; [exact Hl|]. by apply Nat.leb_le; vm_compute.
Defined.
