(* ===== verification/Gateway.v ===== *)
(** * The Discord gateway connection and its manager

    The codec of the envelope ([discord/codec.rs]), the commands ([discord/handshake.rs]),
    one connection's state machine ([discord/connection.rs]) and the reconnect driver and
    supervisor ([discord/ws_manager.rs]), with the supervisor of the Lark connections
    ([lark/ws_manager.rs]). serde_json is a parameter: the text of a command, the fields
    of an envelope and of a payload. The clock, the socket and the queue of the bridge
    are the inputs of a run. *)

From Stdlib Require Import ZArith Lia String.
From stdpp Require Import base sets gmap list strings.
From S2P Require Import Prelude Types.

(** ** The codec *)

Inductive Opcode :=
| OpDispatch | OpHeartbeat | OpIdentify | OpResume | OpReconnect | OpRequestGuildMembers
| OpInvalidSession | OpHello | OpHeartbeatAck | OpOther (raw : Z).
#[export] Instance Opcode_eq_dec : EqDecision Opcode. Proof. solve_decision. Defined.

Definition Opcode_from_u8 (raw : Z) : Opcode :=
  match raw with
  | 0 => OpDispatch | 1 => OpHeartbeat | 2 => OpIdentify | 6 => OpResume | 7 => OpReconnect
  | 8 => OpRequestGuildMembers | 9 => OpInvalidSession | 10 => OpHello | 11 => OpHeartbeatAck
  | other => OpOther other
  end%Z.
Definition Opcode_as_u8 (o : Opcode) : Z :=
  match o with
  | OpDispatch => 0 | OpHeartbeat => 1 | OpIdentify => 2 | OpResume => 6 | OpReconnect => 7
  | OpRequestGuildMembers => 8 | OpInvalidSession => 9 | OpHello => 10 | OpHeartbeatAck => 11
  | OpOther other => other
  end%Z.

Inductive Command :=
| Identify (token : str) (intents : Z) (shard : option (Z * Z))
| Resume (token session_id : str) (seq : Z)
| Heartbeat (last_seq : option Z).

(** The fields of an [RawEnvelope]: [op], [d], [s], [t]. *)
Record RawEnvelope (V : Type) := mkEnvelope { en_op : Z; en_d : option V; en_s : option Z; en_t : option str }.
Arguments mkEnvelope {V}. Arguments en_op {V}. Arguments en_d {V}. Arguments en_s {V}. Arguments en_t {V}.

(** What serde_json reads and writes: a value, the envelope of a text, the typed payloads
    ([None] where it reports an error) and the text of a command. *)
Class GatewayJson := {
  Value : Type;
  from_slice : str → option (RawEnvelope Value);
  raw_hello : Value → option Z;
  raw_ready : Value → option (str * str * str);
  as_bool : Value → option bool;
  command_text : Command → str }.

Inductive DiscordError :=
| DGateway (what : string) | DJson | DParse (e : ParseError) | DTransport.

Definition DISCORD_CONTROL_PAYLOAD_MAX_BYTES : nat := 4096.
Definition DISCORD_SESSION_FIELD_MAX_LEN : nat := 512.

Section codec.
Context `{GatewayJson}.

Record GatewayRecv := mkRecv { gr_op : Opcode; gr_seq : option Z; gr_event_type : option str; gr_data : option Value }.

Definition decode (text : str) : res DiscordError GatewayRecv :=
  match from_slice text with
  | Some env => Ok (mkRecv (Opcode_from_u8 (en_op env)) (en_s env) (en_t env) (en_d env))
  | None => Err DJson
  end.

Definition encode_command (c : Command) : res DiscordError str :=
  let text := command_text c in
  if str_len text <=? DISCORD_CONTROL_PAYLOAD_MAX_BYTES then Ok text
  else Panic "control payload exceeds the Gateway cap".

Definition parse_data {T} (raw : Value → option T) (recv : GatewayRecv) : res DiscordError T :=
  match gr_data recv with
  | None => Err (DGateway "op carried no data")
  | Some v => ok_or (raw v) DJson
  end.

(** The heartbeat interval in milliseconds. *)
Definition parse_hello (recv : GatewayRecv) : res DiscordError Z :=
  match parse_data raw_hello recv with
  | Ok interval => if (interval =? 0)%Z then Err (DGateway "hello heartbeat_interval was 0") else Ok interval
  | Err e => Err e
  | Panic m => Panic m
  end.

Definition bounded_session_field (raw : str) (field : string) : res DiscordError str :=
  if is_empty raw then Err (DParse (Empty field))
  else if DISCORD_SESSION_FIELD_MAX_LEN <? str_len raw
  then Err (DParse (TooLong field DISCORD_SESSION_FIELD_MAX_LEN (str_len raw)))
  else Ok raw.

Record Ready := mkReady { rd_session_id : str; rd_resume_gateway_url : str; rd_bot_user_id : str }.

Definition parse_ready (recv : GatewayRecv) : res DiscordError Ready :=
  res_bind (parse_data raw_ready recv) (λ '(sid, url, user),
  res_bind (bounded_session_field sid "discord_session_id") (λ sid,
  res_bind (bounded_session_field url "discord_resume_gateway_url") (λ url,
  Ok (mkReady sid url user)))).

Definition parse_invalid_session_resumable (recv : GatewayRecv) : bool :=
  default false (v ← gr_data recv; as_bool v).
End codec.

(** ** Closing *)

Inductive FatalClose := AuthFailed | InvalidShard | ShardingRequired | InvalidApiVersion | InvalidIntents | DisallowedIntents.
Inductive CloseAction := Normal | CloseReconnect | CloseFatal (fc : FatalClose).

Definition classify_close (code : option Z) : CloseAction :=
  match code with
  | Some 1000 | Some 1001 => Normal
  | Some 4004 => CloseFatal AuthFailed
  | Some 4010 => CloseFatal InvalidShard
  | Some 4011 => CloseFatal ShardingRequired
  | Some 4012 => CloseFatal InvalidApiVersion
  | Some 4013 => CloseFatal InvalidIntents
  | Some 4014 => CloseFatal DisallowedIntents
  | _ => CloseReconnect
  end%Z.

(** ** One connection *)

Record SessionState := mkSession {
  ss_session_id : str; ss_resume_gateway_url : str; ss_last_seq : Z; ss_bot_user_id : str }.
Definition with_last_seq (seq : Z) (s : SessionState) : SessionState :=
  mkSession (ss_session_id s) (ss_resume_gateway_url s) seq (ss_bot_user_id s).

Inductive Directive := Stop | DResume | FreshReconnect | Fatal (fc : FatalClose).
Record RunResult := mkRunResult { rr_directive : Directive; rr_session : option SessionState }.
Record ConnConfig := mkConnConfig {
  cc_application_id : str; cc_token : str; cc_intents : Z; cc_shard : option (Z * Z) }.
Record ConnState := mkConnState { cs_session : option SessionState; cs_acked : bool }.

Inductive FrameAction := Continue | BeatNow | End (d : Directive).

Inductive WsEvent := WsText (text : str) | WsClose (code : option Z).

(** What the sink and the channel of the bridge are told, and what comes from the
    gateway that bears on the session. *)
Inductive gw_act `{GatewayJson} :=
| Send (c : Command) (sent : bool)
| CloseSocket
| Dispatched (seq : option Z)
| GotReady (session : SessionState)
| Forward (application_id bot_user_id event_type : str) (data : Value) (queued : bool).

(** One turn of the [select!]: cancelled, the beat is due, an event or the end of the
    stream came; whether a send then gets through and the bridge has room. *)
Inductive gw_input := ICancel | ITick (sent : bool) | IEvent (ev : option WsEvent) (sent room : bool).

Section connection.
Context `{GatewayJson}.

Definition resume_or_fresh (st : ConnState) : Directive :=
  match cs_session st with Some _ => DResume | None => FreshReconnect end.

Definition close_directive (code : option Z) (st : ConnState) : Directive :=
  match classify_close code with
  | Normal => Stop
  | CloseFatal fc => Fatal fc
  | CloseReconnect => match cs_session st with Some _ => DResume | None => FreshReconnect end
  end.

Definition forward_dispatch (event_type : str) (recv : GatewayRecv) (cfg : ConnConfig) (s : SessionState) (room : bool)
    : list gw_act :=
  match gr_data recv with
  | None => []
  | Some data => [Forward (cc_application_id cfg) (ss_bot_user_id s) event_type data room]
  end.

Definition handle_dispatch (recv : GatewayRecv) (cfg : ConnConfig) (room : bool) (st : ConnState)
    : FrameAction * list gw_act * ConnState :=
  let st := mkConnState (match gr_seq recv, cs_session st with
                         | Some seq, Some s => Some (with_last_seq seq s)
                         | _, so => so
                         end) (cs_acked st) in
  let '(acts, st) :=
    match gr_event_type recv with
    | None => ([], st)
    | Some t =>
        if bool_decide (t = lit "READY") then
          match parse_ready recv with
          | Ok r =>
              let s := mkSession (rd_session_id r) (rd_resume_gateway_url r) (default 0%Z (gr_seq recv)) (rd_bot_user_id r) in
              ([GotReady s], mkConnState (Some s) (cs_acked st))
          | _ => ([], st)
          end
        else if bool_decide (t = lit "RESUMED") then ([], st)
        else (match cs_session st with Some s => forward_dispatch t recv cfg s room | None => [] end, st)
    end in
  (Continue, Dispatched (gr_seq recv) :: acts, st).

Definition handle_event (ev : WsEvent) (cfg : ConnConfig) (room : bool) (st : ConnState)
    : FrameAction * list gw_act * ConnState :=
  match ev with
  | WsClose code => (End (close_directive code st), [], st)
  | WsText text =>
      match decode text with
      | Ok recv =>
          match gr_op recv with
          | OpHeartbeatAck => (Continue, [], mkConnState (cs_session st) true)
          | OpHeartbeat => (BeatNow, [], st)
          | OpReconnect => (End (resume_or_fresh st), [], st)
          | OpInvalidSession =>
              let resumable := parse_invalid_session_resumable recv && bool_decide (is_Some (cs_session st)) in
              (End (if resumable then DResume else FreshReconnect), [], st)
          | OpDispatch => handle_dispatch recv cfg room st
          | _ => (Continue, [], st)
          end
      | _ => (Continue, [], st)
      end
  end.

(** [sink.send_text(..).await?]: what was sent, or the error. *)
Definition send_text (c : Command) (sent : bool) : res DiscordError unit * list gw_act :=
  match encode_command c with
  | Ok _ => (if sent then Ok tt else Err DTransport, [Send c sent])
  | Err e => (Err e, [])
  | Panic m => (Panic m, [])
  end.

Definition send_beat (sent : bool) (st : ConnState) : res DiscordError ConnState * list gw_act :=
  let '(r, acts) := send_text (Heartbeat (ss_last_seq <$> cs_session st)) sent in
  (res_bind r (λ _, Ok (mkConnState (cs_session st) false)), acts).

(** A scheduled beat: the end of the run, or the state after it. *)
Definition beat (sent : bool) (st : ConnState) : res DiscordError (RunResult + ConnState) * list gw_act :=
  if negb (cs_acked st) then (Ok (inl (mkRunResult (resume_or_fresh st) (cs_session st))), [CloseSocket])
  else let '(r, acts) := send_beat sent st in (res_bind r (λ st, Ok (inr st)), acts).

Definition gateway_step (cfg : ConnConfig) (i : gw_input) (st : ConnState)
    : res DiscordError (RunResult + ConnState) * list gw_act :=
  match i with
  | ICancel => (Ok (inl (mkRunResult Stop (cs_session st))), [])
  | ITick sent => beat sent st
  | IEvent None _ _ => (Ok (inl (mkRunResult (resume_or_fresh st) (cs_session st))), [])
  | IEvent (Some ev) sent room =>
      let '(a, acts, st) := handle_event ev cfg room st in
      match a with
      | Continue => (Ok (inr st), acts)
      | BeatNow => let '(r, acts') := send_beat sent st in (res_bind r (λ st, Ok (inr st)), acts ++ acts')
      | End d => (Ok (inl (mkRunResult d (cs_session st))), acts)
      end
  end.

(** The loop over what comes; [None] when it is still running at the end of the inputs. *)
Fixpoint gateway_loop (cfg : ConnConfig) (ins : list gw_input) (st : ConnState)
    : option (res DiscordError RunResult) * list gw_act :=
  match ins with
  | [] => (None, [])
  | i :: ins' =>
      let '(r, acts) := gateway_step cfg i st in
      match r with
      | Ok (inl result) => (Some (Ok result), acts)
      | Ok (inr st') => let '(r', acts') := gateway_loop cfg ins' st' in (r', acts ++ acts')
      | Err e => (Some (Err e), acts)
      | Panic m => (Some (Panic m), acts)
      end
  end.

(** The opening: cancelled, timed out, or events until the hello. *)
Inductive hello_input := HCancel | HTimeout | HEvent (ev : option WsEvent).

Fixpoint read_hello (his : list hello_input) : option (res DiscordError Z) :=
  match his with
  | [] => None
  | HCancel :: _ => Some (Err (DGateway "cancelled before HELLO"))
  | HTimeout :: _ => Some (Err (DGateway "HELLO timed out"))
  | HEvent None :: _ => Some (Err (DGateway "stream ended before HELLO"))
  | HEvent (Some (WsClose _)) :: _ => Some (Err (DGateway "closed during handshake"))
  | HEvent (Some (WsText text)) :: his' =>
      match decode text with
      | Ok recv => if bool_decide (gr_op recv = OpHello) then Some (parse_hello recv) else read_hello his'
      | Err e => Some (Err e)
      | Panic m => Some (Panic m)
      end
  end.

Definition opening (cfg : ConnConfig) (prior : option SessionState) : Command :=
  match prior with
  | Some s => Resume (cc_token cfg) (ss_session_id s) (ss_last_seq s)
  | None => Identify (cc_token cfg) (cc_intents cfg) (cc_shard cfg)
  end.

Definition run_connection (cfg : ConnConfig) (prior : option SessionState) (his : list hello_input) (opened : bool)
    (ins : list gw_input) : option (res DiscordError RunResult) * list gw_act :=
  match read_hello his with
  | None => (None, [])
  | Some (Err e) => (Some (Err e), [])
  | Some (Panic m) => (Some (Panic m), [])
  | Some (Ok _) =>
      let '(r, acts) := send_text (opening cfg prior) opened in
      match r with
      | Ok _ => let '(r', acts') := gateway_loop cfg ins (mkConnState prior true) in (r', acts ++ acts')
      | Err e => (Some (Err e), acts)
      | Panic m => (Some (Panic m), acts)
      end
  end.
End connection.

(** ** The reconnect driver *)

Definition DISCORD_RECONNECT_MAX : Z := 64.
(** In milliseconds. *)
Definition DISCORD_RECONNECT_BASE : Z := 1000.
Definition DISCORD_RECONNECT_CAP : Z := 60 * 1000.

Definition backoff_wait (reconnects : Z) : Z :=
  Z.min (DISCORD_RECONNECT_BASE * Z.shiftl 1 (Z.min reconnects 6)) DISCORD_RECONNECT_CAP.

(** One cycle: a token, the gateway's address, the socket, then the connection. *)
Record dial_attempt := mkAttempt {
  at_cancelled : bool;
  at_dialed : res DiscordError str;
  at_hello : list hello_input;
  at_opened : bool;
  at_inputs : list gw_input }.

Inductive bot_end := Cancelled | Exhausted | Stopped | Failed (fc : FatalClose) | Panicked (msg : string) | Running.

Section driver.
Context `{GatewayJson} (cfg : str → ConnConfig).

Definition connect_and_run (a : dial_attempt) (prior : option SessionState)
    : option (res DiscordError RunResult) * list gw_act :=
  match at_dialed a with
  | Ok token => run_connection (cfg token) prior (at_hello a) (at_opened a) (at_inputs a)
  | Err e => (Some (Err e), [])
  | Panic m => (Some (Panic m), [])
  end.

(** The loop of [supervise_bot]: how the task ended, the waits between the cycles and
    what was sent. *)
Fixpoint supervise_bot (ats : list dial_attempt) (session : option SessionState) (reconnects : Z)
    : bot_end * list Z * list gw_act :=
  match ats with
  | [] => (Running, [], [])
  | a :: ats' =>
      if at_cancelled a then (Cancelled, [], [])
      else if (DISCORD_RECONNECT_MAX <? reconnects)%Z then (Exhausted, [], [])
      else
        let '(r, acts) := connect_and_run a session in
        let again session' reconnects' waits :=
          let '(e, ws, acts') := supervise_bot ats' session' reconnects' in (e, waits ++ ws, acts ++ acts') in
        match r with
        | None => (Running, [], acts)
        | Some (Ok result) =>
            match rr_directive result with
            | Stop => (Stopped, [], acts)
            | DResume => again (rr_session result) 0%Z []
            | FreshReconnect =>
                let n := u32_saturating_add reconnects 1 in again None n [backoff_wait n]
            | Fatal fc => (Failed fc, [], acts)
            end
        | Some (Err _) => let n := u32_saturating_add reconnects 1 in again None n [backoff_wait n]
        | Some (Panic m) => (Panicked m, [], acts)
        end
  end.
End driver.

(** ** The supervisors

    Both managers keep the applications they spawned, an abort handle for each and the
    set of their tasks. A task ends by itself or is aborted; the select loop takes the
    requests and the ended tasks in any order. *)

Inductive task_status := TRunning | TDone | TAborted.
#[export] Instance task_status_eq_dec : EqDecision task_status. Proof. solve_decision. Defined.

Record pool := mkPool {
  po_set : gmap nat (str * task_status);
  po_spawned : gset str;
  po_handles : gmap str nat;
  po_next : nat }.
Definition empty_pool : pool := mkPool ∅ ∅ ∅ 0.

Definition spawn_connection (app : str) (p : pool) : pool :=
  if bool_decide (app ∈ po_spawned p) then p
  else mkPool (<[po_next p := (app, TRunning)]> (po_set p)) ({[app]} ∪ po_spawned p)
         (<[app := po_next p]> (po_handles p)) (S (po_next p)).

(** Aborting a task that is over does nothing. *)
Definition abort (t : nat) (set : gmap nat (str * task_status)) : gmap nat (str * task_status) :=
  match set !! t with Some (app, TRunning) => <[t := (app, TAborted)]> set | _ => set end.

Definition disconnect (app : str) (p : pool) : pool :=
  let p := mkPool (po_set p) (po_spawned p ∖ {[app]}) (po_handles p) (po_next p) in
  match po_handles p !! app with
  | Some t => mkPool (abort t (po_set p)) (po_spawned p) (delete app (po_handles p)) (po_next p)
  | None => p
  end.

Definition forget_bot (app : str) (p : pool) : pool :=
  mkPool (po_set p) (po_spawned p ∖ {[app]}) (delete app (po_handles p)) (po_next p).

(** A task returns: what is left to do is to join it. *)
Definition task_ends (t : nat) (p : pool) : pool :=
  match po_set p !! t with
  | Some (app, TRunning) => mkPool (<[t := (app, TDone)]> (po_set p)) (po_spawned p) (po_handles p) (po_next p)
  | _ => p
  end.

(** [set.join_next()] yields a task that is over: Discord's supervisor forgets one that
    returned, Lark's ignores it. *)
Definition reap (discord : bool) (t : nat) (p : pool) : pool :=
  match po_set p !! t with
  | Some (app, TDone) =>
      let p := mkPool (delete t (po_set p)) (po_spawned p) (po_handles p) (po_next p) in
      if discord then forget_bot app p else p
  | Some (_, TAborted) => mkPool (delete t (po_set p)) (po_spawned p) (po_handles p) (po_next p)
  | _ => p
  end.

Inductive pool_op := PConnect (app : str) | PDisconnect (app : str) | PEnds (t : nat) | PReap (t : nat).

(** The [select!] of [supervisor]. *)
Definition pool_step (discord : bool) (o : pool_op) (p : pool) : pool :=
  match o with
  | PConnect app => spawn_connection app p
  | PDisconnect app => disconnect app p
  | PEnds t => task_ends t p
  | PReap t => reap discord t p
  end.

(** The startup sweep, then the requests. *)
Definition supervisor (discord : bool) (targets : list str) (ops : list pool_op) : pool :=
  fold_left (λ p o, pool_step discord o p) (((PConnect) <$> targets) ++ ops) empty_pool.

(** Lark's driver: a cycle is a [connect_once] that returned, with an error or after
    hours of service, and whether shutdown was asked for before and after it. *)
Definition LARK_RECONNECT_MAX : nat := 64.
Fixpoint lark_cycles (left : nat) (cycles : list (bool * bool)) : bot_end * nat :=
  match left, cycles with
  | O, _ => (Exhausted, 0)
  | S _, [] => (Running, 0)
  | S left', (before, after) :: cycles' =>
      if before then (Cancelled, 0)
      else if after then (Cancelled, 1)
      else let '(e, n) := lark_cycles left' cycles' in (e, S n)
  end.
Definition lark_run_connection (cycles : list (bool * bool)) : bot_end * nat :=
  lark_cycles (S LARK_RECONNECT_MAX) cycles.
