(* ===== verification/GatewayLaws.v ===== *)
(** * The gateway session and its supervisor

    The session the code keeps is the one the server knows; a driver without a session
    to resume gives up within its budget; how many tasks a supervisor runs for a bot. *)

From Stdlib Require Import ZArith Lia String.
From stdpp Require Import base sets gmap fin_maps list strings.
From S2P Require Import Prelude Types Gateway.

(** ** The session *)

Section session.
Context `{GatewayJson}.

(** The session as the gateway sees it: an [IDENTIFY] starts without one, [READY] gives
    its identifier, and every numbered dispatch moves it on. *)
Definition seen_by_server (s : option (str * Z)) (a : gw_act) : option (str * Z) :=
  match a with
  | Send (Identify _ _ _) _ => None
  | Dispatched (Some n) => (λ x, (x.1, n)) <$> s
  | GotReady r => Some (ss_session_id r, ss_last_seq r)
  | _ => s
  end.
Definition server_session (acts : list gw_act) : option (str * Z) := fold_left seen_by_server acts None.

Definition key (s : SessionState) : str * Z := (ss_session_id s, ss_last_seq s).

(** A command fits the session it is sent in. *)
Definition fits (s : option (str * Z)) (c : Command) : Prop :=
  match c with
  | Identify _ _ _ => True
  | Resume _ sid n => s = Some (sid, n)
  | Heartbeat n => n = snd <$> s
  end.

(** Every command of a run that starts in [s] fits, and the run ends in [s']. *)
Inductive sends_fit : option (str * Z) → list gw_act → option (str * Z) → Prop :=
| fit_nil s : sends_fit s [] s
| fit_cons s a acts s' :
    (∀ c ok, a = Send c ok → fits s c) → sends_fit (seen_by_server s a) acts s' → sends_fit s (a :: acts) s'.

Lemma fit_app s acts s1 acts' s' : sends_fit s acts s1 → sends_fit s1 acts' s' → sends_fit s (acts ++ acts') s'.
Proof. induction 1; [done|]. intros. cbn. constructor; auto. Qed.
Lemma fit_one s a : (∀ c ok, a = Send c ok → fits s c) → sends_fit s [a] (seen_by_server s a).
Proof. intros Ha. constructor; [done|constructor]. Qed.
Lemma fit_quiet s a : (∀ c ok, a ≠ Send c ok) → sends_fit s [a] (seen_by_server s a).
Proof. intros Ha. apply fit_one. intros c ok Hc. by destruct (Ha c ok). Qed.

Lemma dispatch_fits recv cfg room st a acts st' :
  handle_dispatch recv cfg room st = (a, acts, st') →
  a = Continue ∧ sends_fit (key <$> cs_session st) acts (key <$> cs_session st').
Proof.
  unfold handle_dispatch. set (st1 := mkConnState _ _).
  assert (H1 : sends_fit (key <$> cs_session st) [Dispatched (gr_seq recv)] (key <$> cs_session st1)).
  { assert (Hs : key <$> cs_session st1 = seen_by_server (key <$> cs_session st) (Dispatched (gr_seq recv))).
    { subst st1. cbn. by destruct (gr_seq recv), (cs_session st) as [[]|]. }
    rewrite Hs. by apply fit_quiet. }
  clearbody st1. assert (Happ : ∀ acts', sends_fit (key <$> cs_session st1) acts' (key <$> cs_session st') →
    sends_fit (key <$> cs_session st) (Dispatched (gr_seq recv) :: acts') (key <$> cs_session st')).
  { intros acts'. apply (fit_app _ [_]), H1. }
  destruct (gr_event_type recv) as [t|]; [|intros [= <- <- <-]; split; [done|]; apply Happ; constructor].
  destruct (bool_decide _).
  - destruct (parse_ready recv) as [r|e|m]; intros [= <- <- <-]; (split; [done|]); apply Happ; try constructor; [done|constructor].
  - destruct (bool_decide _); intros [= <- <- <-]; (split; [done|]); apply Happ; [constructor|].
    destruct (cs_session st1) as [s|] eqn:E; [|constructor]. unfold forward_dispatch.
    destruct (gr_data recv); [|constructor]. by apply fit_quiet.
Qed.

Lemma event_fits ev cfg room st a acts st' :
  handle_event ev cfg room st = (a, acts, st') → sends_fit (key <$> cs_session st) acts (key <$> cs_session st').
Proof.
  destruct ev as [text|code]; cbn; [|intros [= <- <- <-]; constructor].
  destruct (decode text) as [recv|e|m]; [|intros [= <- <- <-]; constructor..].
  destruct (gr_op recv); try (intros [= <- <- <-]; constructor). intros Hd. by eapply dispatch_fits.
Qed.

Lemma send_fits c sent s : fits s c → (∀ t i h, c ≠ Identify t i h) → sends_fit s (send_text c sent).2 s.
Proof.
  intros Hc Hi. unfold send_text. destruct (encode_command c); [|constructor..]. cbn.
  assert (Hs : seen_by_server s (Send c sent) = s) by (destruct c; [by destruct (Hi token intents shard)|done..]).
  rewrite <-Hs at 2. apply fit_one. by intros ? ? [= <- <-].
Qed.

Lemma beat_fits sent st : sends_fit (key <$> cs_session st) (send_beat sent st).2 (key <$> cs_session st) ∧
  ∀ st', (send_beat sent st).1 = Ok st' → cs_session st' = cs_session st.
Proof.
  unfold send_beat. pose proof (send_fits (Heartbeat (ss_last_seq <$> cs_session st)) sent (key <$> cs_session st)) as Hs.
  destruct (send_text _ sent) as [r acts]. cbn in *. split; [|by destruct r; intros ? [= <-]].
  apply Hs; [|done]. by destruct (cs_session st) as [[]|].
Qed.

Lemma step_fits cfg i st r acts : gateway_step cfg i st = (r, acts) →
  ∃ s', sends_fit (key <$> cs_session st) acts s' ∧
    match r with
    | Ok (inl result) => s' = key <$> rr_session result ∧ (rr_directive result = DResume → is_Some (rr_session result))
    | Ok (inr st') => s' = key <$> cs_session st'
    | _ => True
    end.
Proof.
  destruct i as [|sent|[ev|] sent room]; cbn.
  - intros [= <- <-]. eexists. split; [constructor|done].
  - unfold beat. destruct (cs_acked st); cbn.
    + pose proof (beat_fits sent st) as [Hb Hst]. destruct (send_beat sent st) as [r' acts']. intros [= <- <-].
      eexists. split; [exact Hb|]. destruct r' as [st'| |]; cbn; [|done..]. by rewrite (Hst st').
    + intros [= <- <-]. eexists. split; [by apply fit_quiet|]. cbn. split; [done|].
      unfold resume_or_fresh. by destruct (cs_session st).
  - destruct (handle_event ev cfg room st) as [[a acts1] st1] eqn:E. pose proof (event_fits ev cfg room st a acts1 st1 E) as He.
    destruct a as [| |d].
    + intros [= <- <-]. by eexists.
    + pose proof (beat_fits sent st1) as [Hb Hst]. destruct (send_beat sent st1) as [r' acts']. intros [= <- <-].
      eexists. split; [by eapply fit_app|]. destruct r' as [st'| |]; cbn; [|done..]. by rewrite (Hst st').
    + intros [= <- <-]. eexists. split; [exact He|]. split; [done|]. cbn. intros ->. revert E. clear.
      destruct ev as [text|code]; cbn.
      * destruct (decode text) as [recv| |]; [|done..]. destruct (gr_op recv) eqn:Eo; try done.
        -- intros Hd. by apply dispatch_fits in Hd as [? _].
        -- intros [= Hr <- <-]. unfold resume_or_fresh in Hr. by destruct (cs_session st).
        -- intros [= Hr <- <-]. destruct (_ && _) eqn:Eb; [|done]. apply andb_true_iff in Eb as [_ Hb].
           by apply bool_decide_eq_true in Hb.
      * intros [= Hr <- <-]. unfold close_directive in Hr. destruct (classify_close code); [done| |done].
        by destruct (cs_session st).
  - intros [= <- <-]. eexists. split; [constructor|]. split; [done|]. unfold resume_or_fresh. by destruct (cs_session st).
Qed.

Definition result_fits (r : option (res DiscordError RunResult)) (s : option (str * Z)) : Prop :=
  match r with
  | Some (Ok result) => s = key <$> rr_session result ∧ (rr_directive result = DResume → is_Some (rr_session result))
  | _ => True
  end.

Lemma loop_fits cfg ins : ∀ st, ∃ s',
  sends_fit (key <$> cs_session st) (gateway_loop cfg ins st).2 s' ∧ result_fits (gateway_loop cfg ins st).1 s'.
Proof.
  induction ins as [|i ins IH]; intros st; cbn [gateway_loop]; [eexists; split; [constructor|done]|].
  destruct (gateway_step cfg i st) as [r acts] eqn:E. destruct (step_fits cfg i st r acts E) as (s1 & Hf & Hr).
  destruct r as [[result|st']|e|m]; cbn; [by eexists| |by eexists..]. subst s1. destruct (IH st') as (s' & Hf' & Hr').
  destruct (gateway_loop cfg ins st') as [r' acts']. exists s'. split; [by eapply fit_app|done].
Qed.

(** The session a cycle may resume is the server's. *)
Definition agrees (session : option SessionState) (s : option (str * Z)) : Prop :=
  ∀ x, session = Some x → s = Some (key x).

Lemma opening_fits cfg prior opened s : agrees prior s → ∃ s1,
  sends_fit s (send_text (opening cfg prior) opened).2 s1 ∧
  ((send_text (opening cfg prior) opened).1 = Ok tt → s1 = key <$> prior).
Proof.
  intros Hp. unfold send_text. destruct (encode_command _); [|by exists s; split; [constructor|]..]. cbn.
  eexists. split.
  - apply fit_one. intros c ok [= <- <-]. destruct prior as [x|]; [|done]. by apply Hp.
  - intros _. destruct prior as [x|]; [|done]. by apply Hp.
Qed.

Lemma connection_fits cfg prior his opened ins s : agrees prior s → ∃ s',
  sends_fit s (run_connection cfg prior his opened ins).2 s' ∧ result_fits (run_connection cfg prior his opened ins).1 s'.
Proof.
  intros Hp. unfold run_connection. destruct (read_hello his) as [[hb|e|m]|]; cbn; [|by exists s; split; [constructor|]..].
  destruct (opening_fits cfg prior opened s Hp) as (s1 & Ho & Hs1). destruct (send_text _ _) as [r acts].
  destruct r as [[]|e|m]; cbn in *; [|by exists s1..]. rewrite Hs1 in Ho by done.
  destruct (loop_fits cfg ins (mkConnState prior true)) as (s' & Hf & Hr).
  destruct (gateway_loop _ _ _) as [r' acts']. exists s'. split; [by eapply fit_app|done].
Qed.

Lemma driver_fits (cfg : str → ConnConfig) ats : ∀ session n s, agrees session s →
  ∃ s', sends_fit s (supervise_bot cfg ats session n).2 s'.
Proof.
  induction ats as [|a ats IH]; intros session n s Hs; cbn [supervise_bot]; [by eexists; constructor|].
  destruct (at_cancelled a); [by eexists; constructor|]. destruct (_ <? n)%Z; [by eexists; constructor|].
  assert (Hc : ∃ s1, sends_fit s (connect_and_run cfg a session).2 s1 ∧ result_fits (connect_and_run cfg a session).1 s1).
  { unfold connect_and_run. destruct (at_dialed a); [by apply connection_fits|by exists s; split; [constructor|]..]. }
  destruct Hc as (s1 & Hf & Hr). destruct (connect_and_run cfg a session) as [r acts]. cbn [fst snd] in *.
  assert (Hagain : ∀ session' n' ws, agrees session' s1 → ∃ s',
    sends_fit s (let '(e, ws', acts') := supervise_bot cfg ats session' n' in (e, ws ++ ws', acts ++ acts')).2 s').
  { intros session' n' ws Ha. destruct (IH session' n' s1 Ha) as [s' Hs']. exists s'.
    destruct (supervise_bot cfg ats session' n') as [[? ?] ?]. by eapply fit_app. }
  destruct r as [[result|e|m]|]; [|by apply Hagain|by eexists..].
  destruct (rr_directive result) eqn:Ed; [by eexists|apply Hagain|by apply Hagain|by eexists].
  intros x Hx. destruct Hr as [-> _]. by rewrite Hx.
Qed.

Lemma sends_fit_at s acts s' : sends_fit s acts s' → ∀ before c ok after,
  acts = before ++ Send c ok :: after → fits (fold_left seen_by_server before s) c.
Proof.
  induction 1 as [|s a acts s' Ha _ IH]; intros [|b before] c ok after; cbn; try done.
  - intros [= -> ->]. by eapply Ha.
  - intros [= -> ->]. by eapply IH.
Qed.

(** C26: Whatever the gateway, the socket and the clock do over any number of
    connections, each command fits the session as the server sees it: a resume carries the
    identifier of the last [READY] and the number of the last dispatch since, and is sent
    only while that session is the current one; a beat carries that number. *)
Theorem session_follows_server (cfg : str → ConnConfig) (ats : list dial_attempt) (before after : list gw_act) (c : Command)
    (ok : bool) (Hsent : (supervise_bot cfg ats None 0).2 = before ++ Send c ok :: after) :
  match c with
  | Resume _ sid n => server_session before = Some (sid, n)
  | Heartbeat n => n = snd <$> server_session before
  | Identify _ _ _ => True
  end.
Proof.
  destruct (driver_fits cfg ats None 0 None ltac:(done)) as [s' Hf]. exact (sends_fit_at _ _ _ Hf _ _ _ _ Hsent).
Qed.

(** ** The budget *)

(** A cycle that comes to its end without a session to resume. *)
Definition sessionless (cfg : str → ConnConfig) (a : dial_attempt) : Prop := ∀ prior,
  (connect_and_run cfg a prior).1 ≠ None ∧
  ∀ result, (connect_and_run cfg a prior).1 = Some (Ok result) → rr_directive result ≠ DResume.

Lemma backoff_bounds n : (1 ≤ n)%Z → (2000 ≤ backoff_wait n ≤ 60000)%Z.
Proof.
  intros Hn. unfold backoff_wait, DISCORD_RECONNECT_BASE, DISCORD_RECONNECT_CAP.
  assert (Hm : (1 ≤ Z.min n 6 ≤ 6)%Z) by lia. rewrite Z.shiftl_mul_pow2 by lia.
  assert ((2 ^ 1 ≤ 2 ^ Z.min n 6)%Z) by (apply Z.pow_le_mono_r; lia). lia.
Qed.

Lemma sessionless_ends cfg ats : Forall (sessionless cfg) ats → ∀ session n, (0 ≤ n ≤ DISCORD_RECONNECT_MAX + 1)%Z →
  (DISCORD_RECONNECT_MAX + 1 < Z.of_nat (length ats) + n)%Z → (supervise_bot cfg ats session n).1.1 ≠ Running.
Proof.
  induction 1 as [|a ats Ha _ IH]; intros session n Hn Hlen; cbn [supervise_bot length] in *; [lia|].
  destruct (at_cancelled a); [done|]. destruct (Z.ltb_spec DISCORD_RECONNECT_MAX n) as [|Hle]; [done|].
  destruct (Ha session) as [Hret Hres]. destruct (connect_and_run cfg a session) as [r acts]. cbn in Hret, Hres.
  assert (Hinc : u32_saturating_add n 1 = (n + 1)%Z) by (unfold u32_saturating_add, U32_MAX, DISCORD_RECONNECT_MAX in *; lia).
  assert (Hagain : ∀ session' ws, (let '(e, ws', acts') := supervise_bot cfg ats session' (u32_saturating_add n 1) in (e, ws ++ ws', acts ++ acts')).1.1 ≠ Running).
  { intros session' ws. rewrite Hinc. specialize (IH session' (n + 1)%Z ltac:(lia) ltac:(lia)).
    by destruct (supervise_bot _ _ _ _) as [[? ?] ?]. }
  destruct r as [[result|e|m]|]; [|by apply Hagain|done|done].
  specialize (Hres result eq_refl). destruct (rr_directive result); [done|done|by apply Hagain|done].
Qed.

(** A step of the driver, once the cycle's outcome is known. *)
Lemma driver_step cfg a ats session n (P : bot_end * list Z * list gw_act → Prop) :
  (0 ≤ n ≤ DISCORD_RECONNECT_MAX + 1)%Z →
  (∀ e acts, e ≠ Running ∨ (connect_and_run cfg a session).1 = None → P (e, [], acts)) →
  (∀ session' n' ws acts e ws' acts', (0 ≤ n' ≤ DISCORD_RECONNECT_MAX + 1)%Z → Forall (λ w, 2000 ≤ w ≤ DISCORD_RECONNECT_CAP)%Z ws →
     supervise_bot cfg ats session' n' = (e, ws', acts') → P (e, ws ++ ws', acts ++ acts')) →
  P (supervise_bot cfg (a :: ats) session n).
Proof.
  intros Hn Hend Hagain. cbn [supervise_bot]. destruct (at_cancelled a); [apply Hend; by left|].
  destruct (Z.ltb_spec DISCORD_RECONNECT_MAX n) as [|Hle]; [apply Hend; by left|].
  destruct (connect_and_run cfg a session) as [r acts].
  assert (Hinc : u32_saturating_add n 1 = (n + 1)%Z) by (unfold u32_saturating_add, U32_MAX, DISCORD_RECONNECT_MAX in *; lia).
  assert (Hgo : ∀ session' n' ws, (0 ≤ n' ≤ DISCORD_RECONNECT_MAX + 1)%Z → Forall (λ w, 2000 ≤ w ≤ DISCORD_RECONNECT_CAP)%Z ws →
    P (let '(e, ws', acts') := supervise_bot cfg ats session' n' in (e, ws ++ ws', acts ++ acts'))).
  { intros session' n' ws Hn' Hws. destruct (supervise_bot cfg ats session' n') as [[e ws'] acts'] eqn:E. by eapply Hagain. }
  rewrite Hinc. assert (Hw : Forall (λ w, 2000 ≤ w ≤ DISCORD_RECONNECT_CAP)%Z [backoff_wait (n + 1)]).
  { apply Forall_singleton. pose proof (backoff_bounds (n + 1) ltac:(lia)). unfold DISCORD_RECONNECT_CAP. lia. }
  destruct r as [[result|e|m]|]; [|apply Hgo; [lia|done]|apply Hend; by left|apply Hend; by right].
  destruct (rr_directive result); [apply Hend; by left|apply Hgo; [unfold DISCORD_RECONNECT_MAX; lia|constructor]|apply Hgo; [lia|done]|apply Hend; by left].
Qed.

Lemma waits_bounded cfg ats : ∀ session n, (0 ≤ n ≤ DISCORD_RECONNECT_MAX + 1)%Z →
  Forall (λ w, 2000 ≤ w ≤ DISCORD_RECONNECT_CAP)%Z (supervise_bot cfg ats session n).1.2.
Proof.
  induction ats as [|a ats IH]; intros session n Hn; [constructor|]. apply driver_step; [done|constructor|].
  intros session' n' ws acts e ws' acts' Hn' Hws E. apply Forall_app. split; [done|]. specialize (IH session' n' Hn'). by rewrite E in IH.
Qed.

(** Whatever came before, the driver of a bot has ended, or ends, within sixty-six
    cycles in a row that leave nothing to resume, and every wait between cycles is
    between two seconds and a minute. *)
Theorem driver_gives_up (cfg : str → ConnConfig) (ats tail : list dial_attempt)
    (Hats : Forall (λ a, ∀ prior, (connect_and_run cfg a prior).1 ≠ None) ats)
    (Htail : Forall (sessionless cfg) tail) (Hlen : 66 ≤ length tail) :
  let '(e, waits, _) := supervise_bot cfg (ats ++ tail) None 0 in
  e ≠ Running ∧ Forall (λ w, 2000 ≤ w ≤ DISCORD_RECONNECT_CAP)%Z waits.
Proof.
  assert (He : ∀ session n, (0 ≤ n ≤ DISCORD_RECONNECT_MAX + 1)%Z → (supervise_bot cfg (ats ++ tail) session n).1.1 ≠ Running).
  { induction Hats as [|a ats Ha _ IH]; intros session n Hn.
    - cbn [app]. apply sessionless_ends; [done|done|]. unfold DISCORD_RECONNECT_MAX. lia.
    - cbn [app]. apply driver_step; [done| |].
      + intros e acts [He|He]; [done|]. by destruct (Ha session).
      + intros session' n' ws acts e ws' acts' Hn' _ E. specialize (IH session' n' Hn'). by rewrite E in IH. }
  pose proof (waits_bounded cfg (ats ++ tail) None 0) as Hw. specialize (He None 0%Z).
  destruct (supervise_bot _ _ _ _) as [[e ws] acts]. split; [apply He|apply Hw]; unfold DISCORD_RECONNECT_MAX; lia.
Qed.
End session.

(** ** The supervisors *)

(** The tasks of an application that run. *)
Definition runs (t : nat) (app : str) (p : pool) : Prop := po_set p !! t = Some (app, TRunning).

Record pool_ok (p : pool) : Prop := {
  pk_handles : ∀ t app, runs t app p → po_handles p !! app = Some t;
  pk_spawned : ∀ app t, po_handles p !! app = Some t → app ∈ po_spawned p;
  pk_next : ∀ t x, po_set p !! t = Some x → t < po_next p }.

(** A running task stays of its application when the entry of another changes. *)
Lemma runs_insert t app t' app' status set spawned handles next :
  status ≠ TRunning → runs t app (mkPool (<[t' := (app', status)]> set) spawned handles next) → t ≠ t' ∧ set !! t = Some (app, TRunning).
Proof. unfold runs. cbn. intros Hs. rewrite lookup_insert_Some. naive_solver. Qed.

Lemma connect_ok app p : pool_ok p → pool_ok (spawn_connection app p).
Proof.
  intros [Hh Hs Hn]. unfold spawn_connection. case_bool_decide as Hin; [by constructor|]. constructor; cbn.
  - intros t app'. unfold runs. cbn. rewrite lookup_insert_Some. intros [[<- [= <-]]|[_ Hr]]; [apply lookup_insert_eq|].
    rewrite lookup_insert_ne; [by apply Hh|]. intros <-. apply Hin. eapply Hs. by apply Hh.
  - intros app' t. rewrite lookup_insert_Some. intros [[<- _]|[_ Ht]]; [set_solver|]. apply Hs in Ht. set_solver.
  - intros t x. rewrite lookup_insert_Some. intros [[<- _]|[_ Ht]]; [lia|]. apply Hn in Ht. lia.
Qed.

Lemma abort_runs t t' app set : abort t set !! t' = Some (app, TRunning) → t' ≠ t ∧ set !! t' = Some (app, TRunning).
Proof.
  unfold abort. destruct (set !! t) as [[a []]|] eqn:E; rewrite ?lookup_insert_Some; naive_solver.
Qed.
Lemma abort_dom t t' set : is_Some (abort t set !! t') → is_Some (set !! t').
Proof.
  unfold abort. destruct (set !! t) as [[a []]|] eqn:E; try done. intros [x Hx].
  apply lookup_insert_Some in Hx as [[<- _]|[_ ?]]; eauto.
Qed.

Lemma disconnect_ok app p : pool_ok p → pool_ok (disconnect app p) ∧ ∀ t, ¬ runs t app (disconnect app p).
Proof.
  intros [Hh Hs Hn]. unfold disconnect. cbn. destruct (po_handles p !! app) as [t|] eqn:E.
  - assert (Hne : ∀ t' app', abort t (po_set p) !! t' = Some (app', TRunning) → app' ≠ app ∧ po_set p !! t' = Some (app', TRunning)).
    { intros t' app' Hr. apply abort_runs in Hr as [Ht Hr]. split; [|done]. intros ->. apply Ht.
      specialize (Hh t' app Hr). congruence. }
    split; [constructor; cbn|].
    + intros t' app' Hr. apply Hne in Hr as [? Hr]. rewrite lookup_delete_ne by done. by apply Hh.
    + intros app' t' Ht. apply lookup_delete_Some in Ht as [? Ht]. apply Hs in Ht. set_solver.
    + intros t' x Hx. destruct (abort_dom t t' (po_set p)) as [y Hy]; [by eexists|]. by eapply Hn.
    + intros t' Hr. by apply Hne in Hr as [? _].
  - split; [constructor; cbn; [done| |done]|].
    + intros app' t' Ht. assert (app' ≠ app) by congruence. apply Hs in Ht. set_solver.
    + intros t Hr. specialize (Hh t app Hr). congruence.
Qed.

Lemma ends_ok t p : pool_ok p → pool_ok (task_ends t p).
Proof.
  intros [Hh Hs Hn]. unfold task_ends. destruct (po_set p !! t) as [[app []]|] eqn:E; try by constructor. constructor; cbn; [|done|].
  - intros t' app' Hr. apply runs_insert in Hr as [_ Hr]; [|done]. by apply Hh.
  - intros t' x. rewrite lookup_insert_Some. intros [[<- _]|[_ Hx]]; by eapply Hn.
Qed.

(** A joined task that nobody runs under the same application any more. *)
Lemma reap_ok discord t p : pool_ok p → (discord = true → ∀ app t', po_set p !! t = Some (app, TDone) → ¬ runs t' app p) →
  pool_ok (reap discord t p).
Proof.
  intros [Hh Hs Hn] Hgone. unfold reap. destruct (po_set p !! t) as [[app [| |]]|] eqn:E; [by constructor| | |by constructor].
  - assert (Hd : pool_ok (mkPool (delete t (po_set p)) (po_spawned p) (po_handles p) (po_next p))).
    { constructor; cbn; [|done|]; intros t' x; unfold runs; cbn; rewrite lookup_delete_Some; intros [_ Hx]; eauto. }
    destruct discord; [|done]. specialize (Hgone eq_refl app). destruct Hd as [Hh' Hs' Hn']. constructor; cbn in *; [| |done].
    + intros t' app' Hr. rewrite lookup_delete_ne; [by apply Hh'|]. intros <-. eapply Hgone; [done|].
      unfold runs in Hr. cbn in Hr. by apply lookup_delete_Some in Hr as [_ Hr].
    + intros app' t' Ht. apply lookup_delete_Some in Ht as [? Ht]. apply Hs in Ht. set_solver.
  - constructor; cbn; [|done|]; intros t' x; unfold runs; cbn; rewrite lookup_delete_Some; intros [_ Hx]; eauto.
Qed.

(** Every task that returns is joined before anything else is taken. *)
Inductive promptly : list pool_op → Prop :=
| promptly_nil : promptly []
| promptly_request o ops : (∀ t, o ≠ PEnds t) → promptly ops → promptly (o :: ops)
| promptly_joined t ops : promptly ops → promptly (PEnds t :: PReap t :: ops).

Definition all_joined (p : pool) : Prop := ∀ t app, po_set p !! t ≠ Some (app, TDone).

Definition one_each (p : pool) : Prop :=
  (∀ t t' app, runs t app p → runs t' app p → t = t') ∧ ∀ app t, ¬ runs t app (disconnect app p).

Lemma ok_one_each p : pool_ok p → one_each p.
Proof.
  intros Hp. split; [|intros app; by apply disconnect_ok]. intros t t' app Ht Ht'.
  apply (pk_handles p Hp) in Ht, Ht'. congruence.
Qed.

Lemma lark_steps_ok ops : ∀ p, pool_ok p → pool_ok (fold_left (λ p o, pool_step false o p) ops p).
Proof.
  induction ops as [|[app|app|t|t] ops IH]; intros p Hp; cbn; [done|..]; apply IH;
    [by apply connect_ok|by apply disconnect_ok|by apply ends_ok|by apply reap_ok].
Qed.

Lemma joined_request o p : all_joined p → (∀ t, o ≠ PEnds t) → all_joined (pool_step true o p).
Proof.
  intros Hj Ho t app. destruct o as [a|a|u|u]; cbn; [| |by destruct (Ho u)|].
  - unfold spawn_connection. case_bool_decide; [apply Hj|]. cbn. intros [[_ [=]]|[_ Hd]]%lookup_insert_Some. by apply (Hj t app).
  - unfold disconnect. cbn. destruct (po_handles p !! a) as [u|]; cbn; [|apply Hj]. unfold abort.
    destruct (po_set p !! u) as [[b []]|]; try apply Hj.
    intros [[_ [=]]|[_ Hd]]%lookup_insert_Some. by apply (Hj t app).
  - intros Hd. apply (Hj t app). revert Hd. unfold reap. destruct (po_set p !! u) as [[b []]|]; cbn; rewrite ?lookup_delete_Some; tauto.
Qed.

Lemma discord_steps_ok ops : promptly ops → ∀ p, pool_ok p → all_joined p →
  pool_ok (fold_left (λ p o, pool_step true o p) ops p).
Proof.
  induction 1 as [|o ops Ho _ IH|t ops _ IH]; intros p Hp Hj; cbn [fold_left]; [done|..].
  - apply IH; [|by apply joined_request]. destruct o as [a|a|u|u]; cbn;
      [by apply connect_ok|by apply disconnect_ok|by destruct (Ho u)|].
    apply reap_ok; [done|]. intros _ app t' Hd. by destruct (Hj u app).
  - assert (Hdone : ∀ u app, po_set (task_ends t p) !! u = Some (app, TDone) → u = t ∧ po_set p !! t = Some (app, TRunning)).
    { intros u app. unfold task_ends. destruct (po_set p !! t) as [[b []]|] eqn:E; cbn; try (intros Hd; by destruct (Hj u app)).
      rewrite lookup_insert_Some. intros [[<- [= <-]]|[_ Hd]]; [done|by destruct (Hj u app)]. }
    apply IH; cbn.
    + apply reap_ok; [by apply ends_ok|]. intros _ app t' Hd Hr. apply Hdone in Hd as [_ Hd].
      pose proof (pk_handles p Hp t app Hd) as Ht. unfold task_ends in Hr. rewrite Hd in Hr.
      apply runs_insert in Hr as [Hne Hr]; [|done]. apply (pk_handles p Hp) in Hr. congruence.
    + set (q := task_ends t p) in *. intros u app Hd. assert (Hq : po_set q !! u = Some (app, TDone)).
      { revert Hd. unfold reap. destruct (po_set q !! t) as [[b []]|]; cbn; rewrite ?lookup_delete_Some; tauto. }
      pose proof (Hdone u app Hq) as [-> _]. unfold reap in Hd. rewrite Hq in Hd. cbn in Hd. by rewrite lookup_delete_eq in Hd.
Qed.

(** C27: Whatever requests come and tasks end, in any order, the Lark supervisor never
    runs two connections of a bot and after a disconnect runs none; the Discord one
    likewise, as long as each task that returns is joined before the next request. *)
Theorem one_connection_per_bot (targets : list str) (ops : list pool_op) :
  one_each (supervisor false targets ops) ∧ (promptly ops → one_each (supervisor true targets ops)).
Proof.
  assert (H0 : pool_ok empty_pool) by (constructor; cbn; unfold runs; cbn; intros ??; rewrite ?lookup_empty; done).
  unfold supervisor. split; [by apply ok_one_each, lark_steps_ok|]. intros Hp. apply ok_one_each, discord_steps_ok; [|done|].
  - induction targets as [|a l IH]; [done|]. cbn. by apply promptly_request.
  - intros t app. cbn. by rewrite lookup_empty.
Qed.

(** ** A small gateway *)

Module GatewayDemo.

(** A text is an opcode, a kind of event and a number. *)
#[export] Instance json : GatewayJson := {|
  Value := unit;
  from_slice := λ text, match text with
    | [op; kind; n] => Some (mkEnvelope (Z.of_N op) (Some tt) (if (n =? 0)%N then None else Some (Z.of_N n))
        (if (kind =? 1)%N then Some (lit "READY") else if (kind =? 2)%N then Some (lit "MESSAGE_CREATE") else None))
    | _ => None end;
  raw_hello := λ _, Some 45000%Z;
  raw_ready := λ _, Some (lit "session", lit "wss://resume", lit "7");
  as_bool := λ _, Some true;
  command_text := λ _, [] |}.

Definition cfg (token : str) : ConnConfig := mkConnConfig (lit "1") token 0 None.
Definition got (op kind n : N) : gw_input := IEvent (Some (WsText [op; kind; n])) true true.
Definition hello : list hello_input := [HEvent (Some (WsText [10; 0; 0]%N))].
Definition served : dial_attempt := mkAttempt false (Ok (lit "t")) hello true [got 0 1 1; got 0 2 5; ITick true; IEvent None true true].
Definition dropped : dial_attempt := mkAttempt false (Ok (lit "t")) hello true [IEvent None true true].
Definition unreachable : dial_attempt := mkAttempt false (Err DTransport) [] false [].
Definition sent (acts : list gw_act) : list Command := omap (λ a, match a with Send c _ => Some c | _ => None end) acts.

(** A drop resumes at the number of the last dispatch. *)
Example resumes :
  sent (supervise_bot cfg [served; dropped] None 0).2
  = [Identify (lit "t") 0 None; Heartbeat (Some 5%Z); Resume (lit "t") (lit "session") 5].
Proof. by vm_compute. Qed.

(** A connection that drops each time it resumed is dialled again at once, and for ever. *)
Example resumes_without_wait :
  (supervise_bot cfg (served :: replicate 1000 dropped) None 0).1 = (Running, []).
Proof. by vm_compute. Qed.

(** One failed dial between loses the session: the next cycle identifies anew. *)
Example failed_dial_loses_session :
  sent (supervise_bot cfg [served; unreachable; dropped] None 0).2
  = [Identify (lit "t") 0 None; Heartbeat (Some 5%Z); Identify (lit "t") 0 None].
Proof. by vm_compute. Qed.

(** A beat the gateway asked for, just before one is due, makes the connection look dead. *)
Example requested_beat_looks_dead :
  (gateway_loop (cfg []) [got 0 1 1; ITick true; got 11 0 0; got 1 0 0; ITick true] (mkConnState None true)).1
  = Some (Ok (mkRunResult DResume (Some (mkSession (lit "session") (lit "wss://resume") 1 (lit "7"))))).
Proof. by vm_compute. Qed.

(** A task that returned is joined after its bot was disconnected and connected again:
    the new task is forgotten, a third one starts beside it, and a disconnect leaves one. *)
Example late_join_forgets_new_task :
  let p := supervisor true [lit "a"] [PEnds 0; PDisconnect (lit "a"); PConnect (lit "a"); PReap 0; PConnect (lit "a")] in
  (po_set p !! 1, po_set p !! 2, po_set (disconnect (lit "a") p) !! 1)
  = (Some (lit "a", TRunning), Some (lit "a", TRunning), Some (lit "a", TRunning)).
Proof. by vm_compute. Qed.

(** The Lark supervisor never forgets a task that gave up: a new request starts nothing. *)
Example exhausted_bot_stays_down :
  let p := supervisor false [lit "a"] [PEnds 0; PReap 0; PConnect (lit "a")] in
  (map_to_list (po_set p), po_next p) = ([], 1).
Proof. by vm_compute. Qed.

(** Sixty-five connections that each ended after years of service use up the budget. *)
Example healthy_reconnects_exhaust :
  lark_run_connection (replicate 66 (false, false)) = (Exhausted, 65).
Proof. by vm_compute. Qed.

End GatewayDemo.

#[local] Existing Instance GatewayDemo.json.

Lemma session_follows_server_witness :
  let acts := (supervise_bot GatewayDemo.cfg [GatewayDemo.served; GatewayDemo.dropped] None 0).2 in
  acts = take 6 acts ++ [Send (Resume (lit "t") (lit "session") 5) true] ∧
  server_session (take 6 acts) = Some (lit "session", 5%Z).
Proof.
  split; [by vm_compute|].
  apply (session_follows_server GatewayDemo.cfg [GatewayDemo.served; GatewayDemo.dropped]
    (take 6 (supervise_bot GatewayDemo.cfg [GatewayDemo.served; GatewayDemo.dropped] None 0).2) []
    (Resume (lit "t") (lit "session") 5) true).
  by vm_compute.
Defined.

Lemma driver_gives_up_witness :
  let '(e, waits, _) := supervise_bot GatewayDemo.cfg ([GatewayDemo.served] ++ replicate 66 GatewayDemo.unreachable) None 0 in
  e ≠ Running ∧ Forall (λ w, 2000 ≤ w ≤ DISCORD_RECONNECT_CAP)%Z waits.
Proof.
  apply (driver_gives_up GatewayDemo.cfg [GatewayDemo.served] (replicate 66 GatewayDemo.unreachable)).
  - apply Forall_singleton. by intros [].
  - apply Forall_replicate. intros prior. split; [done|]. intros result [=].
  - by rewrite length_replicate.
Defined.

Lemma one_connection_per_bot_witness :
  one_each (supervisor false [lit "a"] [PConnect (lit "a")]) ∧
  one_each (supervisor true [lit "a"] [PEnds 0; PReap 0; PConnect (lit "a")]).
Proof.
  destruct (one_connection_per_bot [lit "a"] [PConnect (lit "a")]) as [Hl _]. split; [exact Hl|].
  destruct (one_connection_per_bot [lit "a"] [PEnds 0; PReap 0; PConnect (lit "a")]) as [_ Hd].
  apply Hd, promptly_joined, promptly_request; [done|constructor].
Defined.
