(* ===== verification/Signed.v ===== *)
(** * Signed links and webhooks of the chat platforms

    The link and state tokens ([slack/connect_link.rs], [slack/link_token.rs],
    [slack/oauth.rs], [lark/connect_link.rs], [discord/connect_link.rs]) with the
    identifiers they carry, and the signatures of inbound webhooks ([slack/verify.rs],
    [slack/events.rs], [lark/card_verify.rs]). The digests, base64 and the reading of a
    UUID are parameters; a key is a list of bytes. *)

From Stdlib Require Import ZArith Lia String.
From stdpp Require Import base list strings.
From S2P Require Import Prelude Types Tools Decimal Identity.

(** ** Bytes *)

(** [str::as_bytes]. *)
Definition encode_char (c : N) : list N :=
  (if c <? 0x80 then [c]
   else if c <? 0x800 then [0xC0 + c / 64; 0x80 + c mod 64]
   else if c <? 0x10000 then [0xE0 + c / 4096; 0x80 + (c / 64) mod 64; 0x80 + c mod 64]
   else [0xF0 + c / 262144; 0x80 + (c / 4096) mod 64; 0x80 + (c / 64) mod 64; 0x80 + c mod 64])%N.
Definition as_bytes (s : str) : list N := mjoin (encode_char <$> s).

(** A Unicode scalar value. *)
Definition is_scalar (c : N) : bool := ((c <? 0xD800) || ((0xE000 <=? c) && (c <? 0x110000)))%N.

(** The characters the lead bytes announce, without checking them. *)
Fixpoint read_chars (bs : list N) : str :=
  match bs with
  | [] => []
  | b :: bs =>
      if (b <? 0x80)%N then b :: read_chars bs
      else match bs with
      | [] => []
      | c :: bs =>
          if (b <? 0xE0)%N then ((b - 0xC0) * 64 + (c - 0x80))%N :: read_chars bs
          else match bs with
          | [] => []
          | d :: bs =>
              if (b <? 0xF0)%N then ((b - 0xE0) * 4096 + (c - 0x80) * 64 + (d - 0x80))%N :: read_chars bs
              else match bs with
              | [] => []
              | e :: bs => ((b - 0xF0) * 262144 + (c - 0x80) * 4096 + (d - 0x80) * 64 + (e - 0x80))%N :: read_chars bs
              end
          end
      end
  end.

(** [String::from_utf8]: the text whose encoding these bytes are. *)
Definition from_utf8 (bs : list N) : option str :=
  let s := read_chars bs in
  if forallb is_scalar s && bool_decide (as_bytes s = bs) then Some s else None.

Class Macs := { hmac_sha256 : list N → list N → list N; sha256_of : list N → list N }.
Class Base64 := { b64_encode : list N → str; b64_decode : str → option (list N) }.
Class UuidParser := uuid_parse_str : str → option N.

(** ** Identifiers *)

Definition SLACK_ID_MAX_LEN : nat := 32.
Definition SLACK_TS_MAX_LEN : nat := 32.
Definition SLACK_SIGNATURE_LEN : nat := 67.
Definition LARK_ID_MAX_LEN : nat := 128.
Definition DISCORD_SNOWFLAKE_MAX_LEN : nat := 20.
Definition MCP_CATALOG_ID_MAX_LEN : nat := 40.

Definition id_char (c : N) : bool := is_ascii_alphanumeric c || (c =? 0x2d)%N || (c =? 0x5f)%N.

(** [parse_slack_id] and [parse_lark_id] differ in the cap. *)
Definition parse_id (max : nat) (raw : str) (field : string) : res ParseError str :=
  if is_empty raw then Err (Empty field)
  else if max <? str_len raw then Err (TooLong field max (str_len raw))
  else if negb (forallb id_char raw) then Err (Malformed field "non-alphanumeric character")
  else Ok raw.
Definition parse_slack_id : str → string → res ParseError str := parse_id SLACK_ID_MAX_LEN.
Definition parse_lark_id : str → string → res ParseError str := parse_id LARK_ID_MAX_LEN.

Definition dot (c : N) : bool := (c =? 0x2e)%N.
Definition parse_slack_ts (raw : str) (field : string) : res ParseError str :=
  if is_empty raw then Err (Empty field)
  else if SLACK_TS_MAX_LEN <? str_len raw then Err (TooLong field SLACK_TS_MAX_LEN (str_len raw))
  else match split_on dot raw with
  | [lhs; rhs] =>
      if is_empty lhs || is_empty rhs then Err (Malformed field "empty section around '.'")
      else if negb (forallb is_digit lhs) || negb (forallb is_digit rhs) then Err (Malformed field "non-digit character")
      else Ok raw
  | [] | [_] => Err (Malformed field "missing fractional part")
  | _ => Err (Malformed field "more than one '.'")
  end.

Definition parse_snowflake (raw : str) (field : string) : res ParseError str :=
  if is_empty raw then Err (Empty field)
  else if DISCORD_SNOWFLAKE_MAX_LEN <? str_len raw then Err (TooLong field DISCORD_SNOWFLAKE_MAX_LEN (str_len raw))
  else if negb (forallb is_digit raw) then Err (Malformed field "snowflake must be ASCII digits")
  else if negb (bool_decide (is_Some (parse_u64 raw))) then Err (Malformed field "snowflake must fit in u64")
  else Ok raw.

Definition catalog_char (c : N) : bool := is_ascii_lowercase c || is_ascii_digit c || (c =? 0x5f)%N || (c =? 0x2d)%N.
Definition McpCatalogId_try_from (raw : str) : res ParseError str :=
  match raw with
  | [] => Err (Empty "mcp_catalog_id")
  | first :: rest =>
      if MCP_CATALOG_ID_MAX_LEN <? str_len raw then Err (TooLong "mcp_catalog_id" MCP_CATALOG_ID_MAX_LEN (str_len raw))
      else if negb (is_ascii_lowercase first) then Err (Malformed "mcp_catalog_id" "must start with a-z")
      else if negb (forallb catalog_char rest) then Err (Malformed "mcp_catalog_id" "allowed: a-z 0-9 _ -")
      else Ok raw
  end.

(** ** Tokens *)

Definition colon : N := 0x3a.
Definition full_stop : N := 0x2e.

(** [token.rsplit_once(sep)]. *)
Fixpoint rsplit_once (sep : N) (s : str) : option (str * str) :=
  match s with
  | [] => None
  | c :: s' =>
      match rsplit_once sep s' with
      | Some (a, b) => Some (c :: a, b)
      | None => if (c =? sep)%N then Some ([], s') else None
      end
  end.

(** The pieces with the separator between them. *)
Fixpoint join_with (sep : N) (ps : list str) : str :=
  match ps with [] => [] | [p] => p | p :: ps' => p ++ sep :: join_with sep ps' end.

Section tokens.
Context `{Macs, Base64, UuidPrinter, UuidParser}.

(** The end of the five signers. *)
Definition sign_payload (sep : N) (key : list N) (payload : str) : str :=
  payload ++ sep :: encode_32 (hmac_sha256 key (as_bytes payload)).

(** The start of the five verifiers: the payload, if the tail is its code. *)
Definition signed_payload (sep : N) (key : list N) (token : str) : option str :=
  '(payload, sig_hex) ← rsplit_once sep token;
  if negb (str_len sig_hex =? 64) then None
  else expected ← decode_32 sig_hex;
       if bool_decide (hmac_sha256 key (as_bytes payload) = expected) then Some payload else None.

Definition fields (sep : N) (payload : str) : list str := split_on (λ c, (c =? sep)%N) payload.

(** [exp_raw.parse().ok()?], and the refusal once it is past. *)
Definition unexpired (exp_raw : str) (now_secs : Z) : option Z :=
  exp ← parse_i64 exp_raw; if (exp <? now_secs)%Z then None else Some exp.

(** *** Slack: connecting a server *)

Record SlackConnectClaims := mkSlackConnect {
  sc_catalog_id : str; sc_team_id : str; sc_channel_id : str; sc_thread_ts : str; sc_slack_user_id : str;
  sc_thread_id : N; sc_agent_id : N }.

Definition slack_connect_fields (c : SlackConnectClaims) (exp : Z) : list str :=
  [sc_catalog_id c; sc_team_id c; sc_channel_id c; sc_thread_ts c; sc_slack_user_id c;
   uuid_to_string (sc_thread_id c); uuid_to_string (sc_agent_id c); show_Z exp].
Definition slack_sign_connect (key : list N) (c : SlackConnectClaims) (exp : Z) : str :=
  sign_payload colon key (join_with colon (slack_connect_fields c exp)).
Definition slack_verify_connect (key : list N) (token : str) (now : Z) : option SlackConnectClaims :=
  payload ← signed_payload colon key token;
  match fields colon payload with
  | [catalog; team; channel; thread; user; thread_uuid; agent; exp] =>
      catalog ← res_ok (McpCatalogId_try_from catalog);
      team ← res_ok (parse_slack_id team "slack_team_id");
      channel ← res_ok (parse_slack_id channel "slack_channel_id");
      thread ← res_ok (parse_slack_ts thread "slack_thread_ts");
      user ← res_ok (parse_slack_id user "slack_user_id");
      thread_id ← uuid_parse_str thread_uuid;
      agent_id ← uuid_parse_str agent;
      _ ← unexpired exp now;
      Some (mkSlackConnect catalog team channel thread user thread_id agent_id)
  | _ => None
  end.

(** *** Slack: linking an account *)

Record SlackLinkClaims := mkSlackLink { sl_team_id : str; sl_slack_user_id : str; sl_response_url : str }.

Definition slack_link_fields (c : SlackLinkClaims) (exp : Z) : list str :=
  [sl_team_id c; sl_slack_user_id c; b64_encode (as_bytes (sl_response_url c)); show_Z exp].
Definition sign_link (key : list N) (c : SlackLinkClaims) (exp : Z) : str :=
  sign_payload colon key (join_with colon (slack_link_fields c exp)).
Definition decode_response_url (raw : str) : option str := bs ← b64_decode raw; from_utf8 bs.
Definition verify_link (key : list N) (token : str) (now : Z) : option SlackLinkClaims :=
  payload ← signed_payload colon key token;
  match fields colon payload with
  | [team; user; rurl; exp] =>
      team ← res_ok (parse_slack_id team "slack_team_id");
      user ← res_ok (parse_slack_id user "slack_user_id");
      url ← decode_response_url rurl;
      _ ← unexpired exp now;
      Some (mkSlackLink team user url)
  | _ => None
  end.

(** *** Slack: the state of an install *)

Record StateClaims := mkStateClaims { sv_org_id : N; sv_user_id : N }.

Definition state_fields (c : StateClaims) (exp : Z) : list str :=
  [uuid_to_string (sv_org_id c); uuid_to_string (sv_user_id c); show_Z exp].
Definition sign_state (key : list N) (c : StateClaims) (exp : Z) : str :=
  sign_payload full_stop key (join_with full_stop (state_fields c exp)).
Definition verify_state (key : list N) (token : str) (now : Z) : option StateClaims :=
  payload ← signed_payload full_stop key token;
  match fields full_stop payload with
  | [org; user; exp] =>
      org ← uuid_parse_str org;
      user ← uuid_parse_str user;
      _ ← unexpired exp now;
      Some (mkStateClaims org user)
  | _ => None
  end.

(** *** Lark and Discord: connecting a server *)

Definition CONNECT_TOKEN_MAX_BYTES : nat := 1024.

(** Both carry the same fields; the container is Lark's chat, Discord's channel. *)
Record ChatConnectClaims := mkChatConnect {
  ch_catalog_id : str; ch_org_id : N; ch_user_id : N; ch_app_id : str; ch_container_id : str;
  ch_reply_to : option str; ch_thread_id : N; ch_agent_id : N }.

Definition chat_connect_fields (c : ChatConnectClaims) (exp : Z) : list str :=
  [ch_catalog_id c; uuid_to_string (ch_org_id c); uuid_to_string (ch_user_id c); ch_app_id c; ch_container_id c;
   default [] (ch_reply_to c); uuid_to_string (ch_thread_id c); uuid_to_string (ch_agent_id c); show_Z exp].
Definition chat_sign_connect (key : list N) (c : ChatConnectClaims) (exp : Z) : str :=
  sign_payload colon key (join_with colon (chat_connect_fields c exp)).

(** With the platform's parser of identifiers. *)
Definition chat_verify_connect (parse : str → string → res ParseError str) (key : list N) (token : str) (now : Z)
    : option ChatConnectClaims :=
  if CONNECT_TOKEN_MAX_BYTES <? str_len token then None
  else
    payload ← signed_payload colon key token;
    match fields colon payload with
    | [catalog; org; user; app; container; reply; thread; agent; exp] =>
        catalog ← res_ok (McpCatalogId_try_from catalog);
        org ← uuid_parse_str org;
        user ← uuid_parse_str user;
        app ← res_ok (parse app "app_id");
        container ← res_ok (parse container "container_id");
        reply ← (if is_empty reply then Some None else Some <$> res_ok (parse reply "message_id"));
        thread_id ← uuid_parse_str thread;
        agent_id ← uuid_parse_str agent;
        _ ← unexpired exp now;
        Some (mkChatConnect catalog org user app container reply thread_id agent_id)
    | _ => None
    end.
Definition lark_verify_connect : list N → str → Z → option ChatConnectClaims := chat_verify_connect parse_lark_id.
Definition discord_verify_connect : list N → str → Z → option ChatConnectClaims := chat_verify_connect parse_snowflake.
End tokens.

(** ** Inbound webhooks *)

Definition SLACK_TIMESTAMP_MAX_SKEW_SECS : Z := 5 * 60.

Definition is_ascii_hexdigit (c : N) : bool := bool_decide (is_Some (nibble c)).

Definition SlackSignature_try_from (raw : str) : res ParseError str :=
  if negb (str_len raw =? SLACK_SIGNATURE_LEN) then Err (Malformed "slack_signature" "expected length 67 (v0= + 64 hex)")
  else if negb (bool_decide (take 3 raw = lit "v0=")) then Err (Malformed "slack_signature" "missing v0= prefix")
  else if negb (forallb is_ascii_hexdigit (drop 3 raw)) then Err (Malformed "slack_signature" "non-hex digits after v0=")
  else Ok raw.

Definition SlackEventTimestamp_MAX : Z := 7258118400.
Definition from_epoch_secs (secs : Z) : option Z :=
  if (0 <? secs)%Z && (secs <? SlackEventTimestamp_MAX)%Z then Some secs else None.
Definition SlackEventTimestamp_try_from (raw : str) : res ParseError Z :=
  match parse_i64 raw with
  | None => Err (Malformed "slack_event_timestamp" "expected base-10 i64")
  | Some secs => ok_or (from_epoch_secs secs) (OutOfRange "slack_event_timestamp" "must be (0, year-2200)")
  end.

Inductive VerifyError := StaleTimestamp (max_secs : Z) | Mismatch | MalformedSignature (what : string).

Inductive StatusCode := BAD_REQUEST | UNAUTHORIZED.

Section webhooks.
Context `{Macs}.

(** What Slack signs. *)
Definition slack_base (timestamp : Z) (raw_body : list N) : list N :=
  as_bytes (lit "v0:") ++ as_bytes (show_Z timestamp) ++ as_bytes (lit ":") ++ raw_body.

Definition slack_verify (secret : list N) (timestamp : Z) (signature : str) (raw_body : list N) (now : Z)
    : res VerifyError unit :=
  if (SLACK_TIMESTAMP_MAX_SKEW_SECS <? Z.abs (now - timestamp))%Z then Err (StaleTimestamp SLACK_TIMESTAMP_MAX_SKEW_SECS)
  else
    let computed := hmac_sha256 secret (slack_base timestamp raw_body) in
    match decode_32 (drop 3 signature) with
    | None => Err (MalformedSignature "non-hex tail")
    | Some expected => if bool_decide (computed = expected) then Ok tt else Err Mismatch
    end.

(** The two headers, when present and readable. *)
Definition check_signature (secret : list N) (ts_header sig_header : option str) (body : list N) (now : Z)
    : res StatusCode unit :=
  res_bind (ok_or ts_header BAD_REQUEST) (λ ts_header,
  res_bind (ok_or sig_header BAD_REQUEST) (λ sig_header,
  res_bind (res_map_err (λ _, BAD_REQUEST) (SlackEventTimestamp_try_from ts_header)) (λ timestamp,
  res_bind (res_map_err (λ _, BAD_REQUEST) (SlackSignature_try_from sig_header)) (λ signature,
  res_map_err (λ _, UNAUTHORIZED) (slack_verify secret timestamp signature body now))))).

(** [constant_time_str_eq]: lengths first, then the bytes. *)
Definition constant_time_str_eq (a b : list N) : bool := (length a =? length b) && bool_decide (a = b).

Definition verify_signature (encrypt_key timestamp nonce : str) (raw_body : list N) (provided : str) : bool :=
  let digest := sha256_of (as_bytes timestamp ++ as_bytes nonce ++ as_bytes encrypt_key ++ raw_body) in
  constant_time_str_eq (as_bytes (encode_32 digest)) (as_bytes (to_ascii_lowercase provided)).
Definition verify_token (verification_token presented : str) : bool :=
  constant_time_str_eq (as_bytes verification_token) (as_bytes presented).

Definition verify_request (encrypt_key verification_token : str) (ts nonce sig : option str) (body : list N)
    (presented : option str) : bool :=
  match ts, nonce, sig with
  | Some ts, Some nonce, Some sig =>
      verify_signature encrypt_key ts nonce body sig
      && match presented with Some token => verify_token verification_token token | None => false end
  | _, _, _ => false
  end.
End webhooks.
