(* ===== verification/SignedLaws.v ===== *)
(** * What a signed token says

    Every token that is made is read back until it expires; under one key a token that is
    accepted was issued, for that purpose and with those claims, unless a code was
    forged; Lark and Discord accept each other's. *)

From Stdlib Require Import ZArith Lia String.
From stdpp Require Import base sets list strings.
From S2P Require Import Prelude Types Tools Decimal Identity ApprovalFlowLaws Signed.

(** ** Laws of the parameters *)

Definition byte (b : N) : Prop := (b < 256)%N.
Class MacLaws `{Macs} : Prop := {
  hmac_length : ∀ k m, length (hmac_sha256 k m) = 32;
  hmac_bytes : ∀ k m, Forall byte (hmac_sha256 k m) }.
Class Base64Laws `{Base64} : Prop := {
  b64_round : ∀ bs, Forall byte bs → b64_decode (b64_encode bs) = Some bs;
  b64_chars : ∀ bs, Forall byte bs → Forall (λ c, url_safe_byte c = true) (b64_encode bs) }.
Definition uuid_char (c : N) : bool := is_digit c || is_ascii_lowercase c || (c =? 0x2d)%N.
Class UuidTextLaws `{UuidPrinter, UuidParser} : Prop := {
  uuid_round : ∀ id, (id < 2 ^ 128)%N → uuid_parse_str (uuid_to_string id) = Some id;
  uuid_chars : ∀ id, Forall (λ c, uuid_char c = true) (uuid_to_string id);
  uuid_length : ∀ id, (id < 2 ^ 128)%N → length (uuid_to_string id) ≤ 36 }.

(** ** Pieces *)

Definition free (sep : N) (s : str) : Prop := sep ∉ s.

Lemma free_forall (P : N → bool) sep s : P sep = false → Forall (λ c, P c = true) s → free sep s.
Proof. intros Hs Hf Hin. rewrite Forall_forall in Hf. specialize (Hf sep Hin). congruence. Qed.

Lemma split_free (sep : N) s : free sep s → split_on (λ c, (c =? sep)%N) s = [s].
Proof.
  induction s as [|c s IH]; intros Hf; [done|]. cbn. destruct (N.eqb_spec c sep) as [->|Hne]; [destruct Hf; by left|].
  rewrite IH; [done|]. intros Hin. apply Hf. by right.
Qed.
Lemma split_sep (sep : N) s t : free sep s → split_on (λ c, (c =? sep)%N) (s ++ sep :: t) = s :: split_on (λ c, (c =? sep)%N) t.
Proof.
  induction s as [|c s IH]; intros Hf; cbn; [by rewrite N.eqb_refl|].
  destruct (N.eqb_spec c sep) as [->|Hne]; [destruct Hf; by left|]. rewrite IH; [done|]. intros Hin. apply Hf. by right.
Qed.
Lemma fields_join sep p ps : Forall (free sep) (p :: ps) → fields sep (join_with sep (p :: ps)) = p :: ps.
Proof.
  revert p. induction ps as [|q ps IH]; intros p [Hp Hps]%Forall_cons; [by apply split_free|].
  unfold fields in *. change (join_with sep (p :: q :: ps)) with (p ++ sep :: join_with sep (q :: ps)). rewrite split_sep by done. by rewrite IH.
Qed.

(** As many pieces as separators, and one. *)
Definition count (sep : N) (s : str) : nat := length (filter (λ c, c = sep) s).
Lemma count_app_sep sep s t : count sep (s ++ t) = count sep s + count sep t.
Proof. unfold count. by rewrite filter_app, length_app. Qed.
Lemma count_free sep s : free sep s → count sep s = 0.
Proof.
  intros Hf. unfold count. induction s as [|c s IH]; [done|]. unfold free in Hf. rewrite not_elem_of_cons in Hf. destruct Hf as [Hne Hf].
  rewrite filter_cons_False by congruence. by apply IH.
Qed.
Lemma split_count sep s : length (split_on (λ c, (c =? sep)%N) s) = S (count sep s).
Proof.
  unfold count. induction s as [|c s IH]; [done|]. cbn [split_on]. destruct (N.eqb_spec c sep) as [->|Hne].
  - rewrite filter_cons_True by done. cbn. by rewrite IH.
  - rewrite filter_cons_False by done. by destruct (split_on _ s).
Qed.

Lemma rsplit_sep sep s t : free sep t → rsplit_once sep (s ++ sep :: t) = Some (s, t).
Proof.
  intros Hf. assert (Hn : rsplit_once sep t = None).
  { induction t as [|c t IH]; [done|]. cbn. unfold free in Hf. rewrite not_elem_of_cons in Hf. destruct Hf as [Hne Hf].
    rewrite IH by done. destruct (N.eqb_spec c sep); congruence. }
  induction s as [|c s IH]; cbn; [by rewrite Hn, N.eqb_refl|by rewrite IH].
Qed.
Lemma rsplit_some sep s a b : rsplit_once sep s = Some (a, b) → s = a ++ sep :: b.
Proof.
  revert a b. induction s as [|c s IH]; intros a b; cbn; [done|]. destruct (rsplit_once sep s) as [[a' b']|].
  - intros [= <- <-]. cbn. by rewrite (IH a' b').
  - destruct (N.eqb_spec c sep) as [->|]; [by intros [= <- <-]|done].
Qed.

(** ** The code *)

Lemma encode_chars bs : Forall byte bs → Forall (λ c, is_digit c = true ∨ is_ascii_lowercase c = true) (encode_32 bs).
Proof.
  assert (Hd : ∀ d, (d < 16)%N → is_digit (hex_digit d) = true ∨ is_ascii_lowercase (hex_digit d) = true).
  { intros d Hd. assert (∃ k, d = N.of_nat k ∧ k < 16) as (k & -> & Hk) by (exists (N.to_nat d); lia).
    do 16 (destruct k as [|k]; [by vm_compute; auto|]). lia. }
  induction 1 as [|b bs Hb _ IH]; [constructor|]. destruct (byte_halves b Hb) as [[Hh Hl] _].
  change (encode_32 (b :: bs)) with (hex_digit (N.shiftr b 4) :: hex_digit (N.land b 15) :: encode_32 bs). auto.
Qed.
Lemma encode_length bs : length (encode_32 bs) = 2 * length bs.
Proof. induction bs as [|b bs IH]; [done|]. change (encode_32 (b :: bs)) with (hex_digit (N.shiftr b 4) :: hex_digit (N.land b 15) :: encode_32 bs). cbn. lia. Qed.

Lemma str_len_ascii s : Forall (λ c, (c < 128)%N) s → str_len s = length s.
Proof.
  unfold str_len. induction 1 as [|c s Hc _ IH]; [done|]. cbn in *. rewrite IH. unfold len_utf8.
  destruct (N.ltb_spec c 128); [done|lia].
Qed.

Lemma digit_bounds c : is_digit c = true ↔ (48 ≤ c ≤ 57)%N.
Proof. unfold is_digit. rewrite andb_true_iff, !N.leb_le. done. Qed.
Lemma lowercase_bounds c : is_ascii_lowercase c = true ↔ (97 ≤ c ≤ 122)%N.
Proof. unfold is_ascii_lowercase. rewrite andb_true_iff, !N.leb_le. done. Qed.

Section code.
Context `{Macs, !MacLaws}.

Lemma code_text key payload (sig := encode_32 (hmac_sha256 key (as_bytes payload))) :
  free colon sig ∧ free full_stop sig ∧ str_len sig = 64 ∧ decode_32 sig = Some (hmac_sha256 key (as_bytes payload)).
Proof.
  pose proof (encode_chars _ (hmac_bytes key (as_bytes payload))) as Hc. fold sig in Hc. rewrite Forall_forall in Hc.
  assert (Hlen : str_len sig = 64).
  { rewrite str_len_ascii; [unfold sig; by rewrite encode_length, hmac_length|]. apply Forall_forall. intros c Hin.
    destruct (Hc c Hin) as [Hd|Hd]; [apply digit_bounds in Hd|apply lowercase_bounds in Hd]; lia. }
  split_and!; [intros Hin; by destruct (Hc _ Hin)..|done|]. unfold decode_32. rewrite Hlen.
  by apply decode_encode_loop, hmac_bytes.
Qed.

Lemma signed_payload_sign sep key payload : sep = colon ∨ sep = full_stop →
  signed_payload sep key (sign_payload sep key payload) = Some payload.
Proof.
  intros Hsep. destruct (code_text key payload) as (Hc & Hf & Hl & Hd). unfold signed_payload, sign_payload.
  rewrite rsplit_sep by (by destruct Hsep as [->| ->]). cbn. rewrite Hl, Hd. cbn. by rewrite bool_decide_eq_true_2.
Qed.

Lemma signed_payload_some sep key token payload : signed_payload sep key token = Some payload →
  ∃ sig, token = payload ++ sep :: sig ∧ decode_32 sig = Some (hmac_sha256 key (as_bytes payload)).
Proof.
  unfold signed_payload. destruct (rsplit_once sep token) as [[p sig]|] eqn:E; [|done]. cbn.
  destruct (negb _); [done|]. destruct (decode_32 sig) as [bs|] eqn:Ed; [|done]. cbn. case_bool_decide as Hb; [|done].
  intros [= <-]. exists sig. split; [by apply rsplit_some|]. by rewrite Ed, Hb.
Qed.
End code.

(** ** UTF-8 *)

Lemma scalar_bound c : is_scalar c = true → (c < 0x110000)%N.
Proof. unfold is_scalar. rewrite orb_true_iff, andb_true_iff, !N.ltb_lt. lia. Qed.

(** The digits of a character in base sixty-four. *)
Lemma base64_digits c : ∃ q1 q2 q3 r1 r2 r3 : N,
  (c / 64 = q1 ∧ c mod 64 = r1 ∧ c / 4096 = q2 ∧ (c / 64) mod 64 = r2 ∧ c / 262144 = q3 ∧ (c / 4096) mod 64 = r3 ∧
   c = 64 * q1 + r1 ∧ q1 = 64 * q2 + r2 ∧ q2 = 64 * q3 + r3 ∧ r1 < 64 ∧ r2 < 64 ∧ r3 < 64)%N.
Proof.
  exists (c / 64)%N, (c / 4096)%N, (c / 262144)%N, (c mod 64)%N, ((c / 64) mod 64)%N, ((c / 4096) mod 64)%N.
  assert (H2 : (c / 64 / 64 = c / 4096)%N) by (by rewrite N.Div0.div_div).
  assert (H3 : (c / 4096 / 64 = c / 262144)%N) by (by rewrite N.Div0.div_div).
  split_and!; try done; try (by apply N.mod_lt).
  - by apply N.div_mod.
  - rewrite <-H2. by apply N.div_mod.
  - rewrite <-H3. by apply N.div_mod.
Qed.

Ltac decide_ltb :=
  repeat match goal with
  | |- context [(?a <? ?b)%N] => first [rewrite (proj2 (N.ltb_lt a b)) by lia | rewrite (proj2 (N.ltb_ge a b)) by lia]
  end.

Lemma read_encode c t : (c < 0x110000)%N → read_chars (encode_char c ++ t) = c :: read_chars t ∧ Forall byte (encode_char c).
Proof.
  intros Hc. unfold encode_char, byte.
  destruct (base64_digits c) as (q1 & q2 & q3 & r1 & r2 & r3 & -> & -> & -> & -> & -> & -> & H1 & H2 & H3 & ? & ? & ?).
  destruct (N.ltb_spec c 0x80); [|destruct (N.ltb_spec c 0x800); [|destruct (N.ltb_spec c 0x10000)]];
    (split; [cbn [app read_chars]; decide_ltb; f_equal; lia|repeat constructor; lia]).
Qed.

Lemma utf8_round s : forallb is_scalar s = true → from_utf8 (as_bytes s) = Some s ∧ Forall byte (as_bytes s).
Proof.
  intros Hs. assert (Hr : read_chars (as_bytes s) = s ∧ Forall byte (as_bytes s)).
  { induction s as [|c s IH]; [done|]. cbn in Hs. apply andb_true_iff in Hs as [Hc Hs]. destruct (IH Hs) as [Hr Hb].
    change (as_bytes (c :: s)) with (encode_char c ++ as_bytes s).
    destruct (read_encode c (as_bytes s) (scalar_bound c Hc)) as [-> Hcb]. split; [by rewrite Hr|by apply Forall_app]. }
  destruct Hr as [Hr Hb]. split; [|done]. unfold from_utf8. by rewrite Hr, Hs, bool_decide_eq_true_2.
Qed.

(** ** Identifiers *)

Lemma alphanumeric_bounds c : is_ascii_alphanumeric c = true → (48 ≤ c ≤ 57 ∨ 65 ≤ c ≤ 90 ∨ 97 ≤ c ≤ 122)%N.
Proof. unfold is_ascii_alphanumeric. rewrite !orb_true_iff, !andb_true_iff, !N.leb_le. lia. Qed.

(** What the parsers accept: a bounded text without separators, read back as it is. *)
Definition plain (max : nat) (s : str) : Prop := length s ≤ max ∧ free colon s ∧ Forall (λ c, (c < 128)%N) s.

Lemma plain_chars (P : N → bool) max s : P colon = false → (∀ c, P c = true → (c < 128)%N) →
  str_len s ≤ max → Forall (λ c, P c = true) s → plain max s.
Proof.
  intros Hc Hb Hl Hf. assert (Ha : Forall (λ c, (c < 128)%N) s) by (eapply Forall_impl; eauto).
  rewrite str_len_ascii in Hl by done. split_and!; [done|by eapply free_forall|done].
Qed.

Lemma parse_id_ok max raw field s : parse_id max raw field = Ok s →
  s = raw ∧ s ≠ [] ∧ Forall (λ c, id_char c = true) s ∧ plain max s ∧ free full_stop s.
Proof.
  unfold parse_id. destruct (is_empty raw) eqn:He; [done|]. apply is_empty_false in He.
  destruct (Nat.ltb_spec max (str_len raw)); [done|]. destruct (forallb id_char raw) eqn:Hf; [|done]. intros [= <-].
  assert (Ha : Forall (λ c, id_char c = true) raw) by (by apply Forall_forall; intros c Hin; rewrite forallb_forall in Hf; apply Hf, list_elem_of_In).
  split_and!; [done|done|done| |by eapply (free_forall id_char)].
  apply (plain_chars id_char); [done| |done|done]. unfold id_char. intros c. rewrite !orb_true_iff, !N.eqb_eq.
  intros [[Hc%alphanumeric_bounds| ->]| ->]; lia.
Qed.

Lemma snowflake_ok raw field s : parse_snowflake raw field = Ok s →
  s = raw ∧ s ≠ [] ∧ Forall (λ c, is_digit c = true) s ∧ plain 20 s.
Proof.
  unfold parse_snowflake. destruct (is_empty raw) eqn:He; [done|]. apply is_empty_false in He.
  destruct (Nat.ltb_spec DISCORD_SNOWFLAKE_MAX_LEN (str_len raw)); [done|]. destruct (forallb is_digit raw) eqn:Hf; [|done].
  cbn. destruct (negb _); [done|]. intros [= <-].
  assert (Ha : Forall (λ c, is_digit c = true) raw) by (by apply Forall_forall; intros c Hin; rewrite forallb_forall in Hf; apply Hf, list_elem_of_In).
  split_and!; [done|done|done|]. apply (plain_chars is_digit); [done| |done|done]. intros c Hc%digit_bounds. lia.
Qed.

Lemma catalog_ok raw s : McpCatalogId_try_from raw = Ok s → s = raw ∧ plain MCP_CATALOG_ID_MAX_LEN s ∧ free full_stop s.
Proof.
  unfold McpCatalogId_try_from. destruct raw as [|c raw]; [done|]. destruct (Nat.ltb_spec MCP_CATALOG_ID_MAX_LEN (str_len (c :: raw))); [done|].
  destruct (is_ascii_lowercase c) eqn:Hc; [|done]. cbn [negb]. destruct (forallb catalog_char raw) eqn:Hf; [|done]. intros [= <-].
  assert (Ha : Forall (λ c, catalog_char c = true) (c :: raw)).
  { constructor; [unfold catalog_char; by rewrite Hc|]. apply Forall_forall. intros d Hin. rewrite forallb_forall in Hf. by apply Hf, list_elem_of_In. }
  split_and!; [done| |by eapply (free_forall catalog_char)]. apply (plain_chars catalog_char); [done| |done|done].
  intros d. unfold catalog_char. rewrite !orb_true_iff, !N.eqb_eq. intros [[[Hd%lowercase_bounds|Hd]| ->]| ->]; try lia.
  unfold is_ascii_digit in Hd. apply andb_true_iff in Hd as [_ Hd%N.leb_le]. lia.
Qed.

Lemma split_elem (sep : N → bool) s c : c ∈ s → sep c = true ∨ ∃ p, p ∈ split_on sep s ∧ c ∈ p.
Proof.
  induction s as [|d s IH]; [by intros ?%elem_of_nil|]. cbn. destruct (sep d) eqn:Hd.
  - intros [->|Hc]%elem_of_cons; [by left|]. destruct (IH Hc) as [?|(p & Hp & Hcp)]; [by left|right]. exists p. split; [by right|done].
  - destruct (split_on sep s) as [|p ps] eqn:E; [by destruct s as [|? ?]; cbn in E; repeat case_match|].
    intros [->|Hc]%elem_of_cons; [right; eexists; split; [left|left]|].
    destruct (IH Hc) as [?|(q & [->|Hq]%elem_of_cons & Hcq)]; [by left|right; eexists; split; [left|by right]|].
    right. exists q. split; [by right|done].
Qed.

Lemma slack_ts_ok raw field s : parse_slack_ts raw field = Ok s → s = raw ∧ free colon s ∧ count full_stop s = 1.
Proof.
  unfold parse_slack_ts. destruct (is_empty raw); [done|]. destruct (_ <? _); [done|].
  pose proof (split_count full_stop raw) as Hcount. change (λ c, (c =? full_stop)%N) with dot in Hcount.
  pose proof (split_elem dot raw colon) as Hel. destruct (split_on dot raw) as [|lhs [|rhs [|? ?]]] eqn:E; try done.
  destruct (_ || _); [done|]. destruct (forallb is_digit lhs) eqn:Hl; [|done]. destruct (forallb is_digit rhs) eqn:Hr; [|done].
  intros [= <-]. split_and!; [done| |by injection Hcount]. intros Hin. destruct (Hel Hin) as [Hc|(p & Hp & Hcp)]; [done|].
  rewrite forallb_forall in Hl, Hr. apply list_elem_of_In in Hcp.
  rewrite !elem_of_cons in Hp. destruct Hp as [->|[->|Hp]]; [by specialize (Hl _ Hcp)|by specialize (Hr _ Hcp)|by apply elem_of_nil in Hp].
Qed.

(** ** Round trips *)

Lemma count_join c sep p ps :
  count c (join_with sep (p :: ps)) = count c p + sum_list_with (λ q, count c [sep] + count c q) ps.
Proof.
  revert p. induction ps as [|q ps IH]; intros p; [cbn [join_with sum_list_with]; lia|].
  change (join_with sep (p :: q :: ps)) with (p ++ [sep] ++ join_with sep (q :: ps)). rewrite !count_app_sep, IH.
  cbn [sum_list_with]. lia.
Qed.

Lemma show_Z_plain z : free colon (show_Z z) ∧ free full_stop (show_Z z) ∧ Forall (λ c, (c < 128)%N) (show_Z z).
Proof.
  pose proof (show_Z_chars z) as Hc. rewrite Forall_forall in Hc.
  split_and!; [intros Hin; by destruct (Hc _ Hin)..|]. apply Forall_forall. intros c Hin.
  destruct (Hc c Hin) as [Hd%digit_bounds| ->]; lia.
Qed.
Lemma show_i64_length z : in_i64 z = true → length (show_Z z) ≤ 65.
Proof.
  unfold in_i64, I64_MIN, I64_MAX. intros [Hlo%Z.leb_le Hhi%Z.leb_le]%andb_true_iff.
  assert (Hp : (2 ^ 64 = 18446744073709551616)%Z) by done.
  destruct (Z.le_gt_cases 0 z).
  { etrans; [apply show_Z_length|]; lia. }
  rewrite show_Z_neg by done. cbn [length]. pose proof (show_Z_length (- z) ltac:(lia)) as Hl.
  rewrite show_Z_nonneg in Hl by lia. lia.
Qed.

Lemma unexpired_show exp now : in_i64 exp = true → unexpired (show_Z exp) now = if (exp <? now)%Z then None else Some exp.
Proof. intros He. unfold unexpired. by rewrite parse_i64_show. Qed.

Section round_trip.
Context `{Macs, !MacLaws, Base64, !Base64Laws, UuidPrinter, UuidParser, !UuidTextLaws}.

Lemma uuid_free id : free colon (uuid_to_string id) ∧ free full_stop (uuid_to_string id).
Proof. split; apply (free_forall uuid_char); try done; apply uuid_chars. Qed.
Lemma b64_free bs : Forall byte bs → free colon (b64_encode bs) ∧ free full_stop (b64_encode bs).
Proof. intros Hb. split; apply (free_forall url_safe_byte); try done; by apply b64_chars. Qed.

Definition id_ok (id : N) : Prop := (id < 2 ^ 128)%N.

(** Claims made of parsed values. *)
Definition slack_connect_ok (c : SlackConnectClaims) : Prop :=
  McpCatalogId_try_from (sc_catalog_id c) = Ok (sc_catalog_id c) ∧
  parse_slack_id (sc_team_id c) "slack_team_id" = Ok (sc_team_id c) ∧
  parse_slack_id (sc_channel_id c) "slack_channel_id" = Ok (sc_channel_id c) ∧
  parse_slack_ts (sc_thread_ts c) "slack_thread_ts" = Ok (sc_thread_ts c) ∧
  parse_slack_id (sc_slack_user_id c) "slack_user_id" = Ok (sc_slack_user_id c) ∧
  id_ok (sc_thread_id c) ∧ id_ok (sc_agent_id c).
Definition slack_link_ok (c : SlackLinkClaims) : Prop :=
  parse_slack_id (sl_team_id c) "slack_team_id" = Ok (sl_team_id c) ∧
  parse_slack_id (sl_slack_user_id c) "slack_user_id" = Ok (sl_slack_user_id c) ∧
  forallb is_scalar (sl_response_url c) = true.
Definition state_ok (c : StateClaims) : Prop := id_ok (sv_org_id c) ∧ id_ok (sv_user_id c).
Definition chat_connect_ok (parse : str → string → res ParseError str) (c : ChatConnectClaims) : Prop :=
  McpCatalogId_try_from (ch_catalog_id c) = Ok (ch_catalog_id c) ∧
  parse (ch_app_id c) "app_id" = Ok (ch_app_id c) ∧
  parse (ch_container_id c) "container_id" = Ok (ch_container_id c) ∧
  (∀ r, ch_reply_to c = Some r → parse r "message_id" = Ok r) ∧
  id_ok (ch_org_id c) ∧ id_ok (ch_user_id c) ∧ id_ok (ch_thread_id c) ∧ id_ok (ch_agent_id c).

Definition while_valid {A} (exp now : Z) (c : A) : option A := if (exp <? now)%Z then None else Some c.

Lemma slack_connect_free c exp : slack_connect_ok c → Forall (free colon) (slack_connect_fields c exp).
Proof.
  intros ((_ & (_ & ? & _) & _)%catalog_ok & (_ & _ & _ & (_ & ? & _) & _)%parse_id_ok & (_ & _ & _ & (_ & ? & _) & _)%parse_id_ok
    & (_ & ? & _)%slack_ts_ok & (_ & _ & _ & (_ & ? & _) & _)%parse_id_ok & _ & _).
  unfold slack_connect_fields. repeat (apply Forall_cons; split; [first [done|apply uuid_free|apply show_Z_plain]|]). constructor.
Qed.
Lemma slack_link_free c exp : slack_link_ok c → Forall (free colon) (slack_link_fields c exp).
Proof.
  intros ((_ & _ & _ & (_ & ? & _) & _)%parse_id_ok & (_ & _ & _ & (_ & ? & _) & _)%parse_id_ok & [_ Hb]%utf8_round).
  unfold slack_link_fields. repeat (apply Forall_cons; split; [first [done|by apply b64_free|apply show_Z_plain]|]). constructor.
Qed.
Lemma state_free c exp : Forall (free full_stop) (state_fields c exp).
Proof. unfold state_fields. repeat (apply Forall_cons; split; [first [apply uuid_free|apply show_Z_plain]|]). constructor. Qed.

(** Reading the payload of a kind gives its claims, whatever the token it came in. *)
Lemma read_slack_connect key token now c exp : slack_connect_ok c → in_i64 exp = true →
  signed_payload colon key token = Some (join_with colon (slack_connect_fields c exp)) →
  slack_verify_connect key token now = while_valid exp now c.
Proof.
  intros Hc He Hp. unfold slack_verify_connect. rewrite Hp. cbn [mbind option_bind].
  pose proof (slack_connect_free c exp Hc) as Hf. unfold slack_connect_fields in *. rewrite fields_join by done.
  destruct Hc as (-> & -> & -> & -> & -> & Ht & Ha). cbn [res_ok mbind option_bind].
  rewrite !uuid_round by done. cbn [mbind option_bind]. rewrite unexpired_show by done. unfold while_valid.
  by destruct (exp <? now)%Z, c.
Qed.
Lemma read_slack_link key token now c exp : slack_link_ok c → in_i64 exp = true →
  signed_payload colon key token = Some (join_with colon (slack_link_fields c exp)) →
  verify_link key token now = while_valid exp now c.
Proof.
  intros Hc He Hp. unfold verify_link. rewrite Hp. cbn [mbind option_bind].
  pose proof (slack_link_free c exp Hc) as Hf. unfold slack_link_fields in *. rewrite fields_join by done.
  destruct Hc as (-> & -> & Hu). cbn [res_ok mbind option_bind]. destruct (utf8_round _ Hu) as [Hr Hb].
  unfold decode_response_url. rewrite b64_round by done. cbn [mbind option_bind]. rewrite Hr. cbn [mbind option_bind].
  rewrite unexpired_show by done. unfold while_valid. by destruct (exp <? now)%Z, c.
Qed.
Lemma read_state key token now c exp : state_ok c → in_i64 exp = true →
  signed_payload full_stop key token = Some (join_with full_stop (state_fields c exp)) →
  verify_state key token now = while_valid exp now c.
Proof.
  intros [Ho Hu] He Hp. unfold verify_state. rewrite Hp. cbn [mbind option_bind].
  pose proof (state_free c exp) as Hf. unfold state_fields in *. rewrite fields_join by done.
  rewrite !uuid_round by done. cbn [mbind option_bind]. rewrite unexpired_show by done. unfold while_valid.
  by destruct (exp <? now)%Z, c.
Qed.

(** *** Lark and Discord *)

Definition parses_plain (parse : str → string → res ParseError str) : Prop :=
  ∀ raw field s, parse raw field = Ok s → s = raw ∧ s ≠ [] ∧ plain LARK_ID_MAX_LEN s.
Lemma lark_plain : parses_plain parse_lark_id.
Proof. by intros raw field s (? & ? & _ & ? & _)%parse_id_ok. Qed.
Lemma discord_plain : parses_plain parse_snowflake.
Proof.
  intros raw field s (? & ? & _ & Hl & ? & ?)%snowflake_ok. split_and!; try done. split_and!; try done. unfold LARK_ID_MAX_LEN. lia.
Qed.

Definition field_ok (max : nat) (s : str) : Prop := plain max s.
Lemma uuid_plain id : id_ok id → plain 36 (uuid_to_string id).
Proof.
  intros Hid. split_and!; [by apply uuid_length|apply uuid_free|]. eapply Forall_impl; [apply uuid_chars|]. intros c.
  unfold uuid_char. rewrite !orb_true_iff, N.eqb_eq. intros [[Hc%digit_bounds|Hc%lowercase_bounds]| ->]; lia.
Qed.

Lemma chat_fields_plain parse c exp : parses_plain parse → chat_connect_ok parse c → in_i64 exp = true →
  Forall2 plain [40; 36; 36; 128; 128; 128; 36; 36; 65] (chat_connect_fields c exp).
Proof.
  intros Hp ((_ & Hc & _)%catalog_ok & (_ & _ & Happ)%Hp & (_ & _ & Hcon)%Hp & Hrep & ? & ? & ? & ?) He.
  assert (Hr : plain LARK_ID_MAX_LEN (default [] (ch_reply_to c))).
  { destruct (ch_reply_to c) as [r|]; [exact (proj2 (proj2 (Hp _ _ _ (Hrep r eq_refl))))|].
    split; [apply Nat.le_0_l|]. split; [apply not_elem_of_nil|constructor]. }
  assert (Hs : plain 65 (show_Z exp)).
  { split; [by apply show_i64_length|]. split; apply show_Z_plain. }
  repeat (apply Forall2_cons; split; [first [assumption|by apply uuid_plain]|]). constructor.
Qed.

Lemma plain_join ps : ∀ bounds, Forall2 plain bounds ps →
  length (join_with colon ps) ≤ sum_list_with S bounds ∧ Forall (λ c, (c < 128)%N) (join_with colon ps) ∧ Forall (free colon) ps.
Proof.
  induction ps as [|p ps IH]; intros [|b bounds] Hf; [by repeat constructor|by inversion Hf|by inversion Hf|].
  apply Forall2_cons in Hf as [(Hl & Hc & Ha) Hf]. destruct (IH bounds Hf) as (IHl & IHa & IHf).
  assert (Hj : length (join_with colon (p :: ps)) ≤ length p + S (length (join_with colon ps)) ∧ Forall (λ c, (c < 128)%N) (join_with colon (p :: ps))).
  { destruct ps as [|q ps]; [split; [cbn; lia|done]|].
    change (join_with colon (p :: q :: ps)) with (p ++ colon :: join_with colon (q :: ps)). rewrite length_app. split; [cbn [length]; lia|].
    apply Forall_app. split; [done|]. by constructor. }
  cbn [sum_list_with]. split_and!; [lia|apply Hj|by constructor].
Qed.

Lemma chat_token_fits parse key c exp : parses_plain parse → chat_connect_ok parse c → in_i64 exp = true →
  str_len (chat_sign_connect key c exp) ≤ CONNECT_TOKEN_MAX_BYTES ∧ Forall (free colon) (chat_connect_fields c exp).
Proof.
  intros Hp Hc He. destruct (plain_join _ _ (chat_fields_plain parse c exp Hp Hc He)) as (Hl & Ha & Hf). split; [|done].
  destruct (code_text key (join_with colon (chat_connect_fields c exp))) as (_ & _ & Hs & _).
  unfold chat_sign_connect, sign_payload. rewrite str_len_app. change (str_len (colon :: ?x)) with (1 + str_len x).
  rewrite Hs, str_len_ascii by done. cbn [sum_list_with] in Hl. unfold CONNECT_TOKEN_MAX_BYTES.
  etrans; [apply Nat.add_le_mono_r, Hl|]. by apply Nat.leb_le.
Qed.

Lemma read_chat parse key token now c exp : parses_plain parse → chat_connect_ok parse c → in_i64 exp = true →
  str_len token ≤ CONNECT_TOKEN_MAX_BYTES →
  signed_payload colon key token = Some (join_with colon (chat_connect_fields c exp)) →
  chat_verify_connect parse key token now = while_valid exp now c.
Proof.
  intros Hparse Hc He Hlen Hp. unfold chat_verify_connect. rewrite (proj2 (Nat.ltb_ge _ _) Hlen), Hp. cbn [mbind option_bind].
  destruct (chat_token_fits parse key c exp Hparse Hc He) as [_ Hf]. unfold chat_connect_fields in *. rewrite fields_join by done.
  destruct Hc as (-> & -> & -> & Hr & Ho & Hu & Ht & Ha). cbn [res_ok mbind option_bind].
  rewrite !uuid_round by done. cbn [mbind option_bind]. rewrite unexpired_show by done. unfold while_valid.
  assert (Hrep : (if is_empty (default [] (ch_reply_to c)) then Some None
    else Some <$> res_ok (parse (default [] (ch_reply_to c)) "message_id")) = Some (ch_reply_to c)).
  { destruct (ch_reply_to c) as [r|]; [|done]. specialize (Hr r eq_refl). cbn. destruct (Hparse _ _ _ Hr) as (_ & Hne & _).
    rewrite (proj2 (is_empty_false r) Hne). by rewrite Hr. }
  rewrite Hrep. cbn [mbind option_bind]. by destruct (exp <? now)%Z, c.
Qed.

Lemma digits_are_lark raw field field' s : parse_snowflake raw field = Ok s → parse_lark_id s field' = Ok s.
Proof.
  intros (-> & Hne & Hd & (Hl & _ & Ha))%snowflake_ok. unfold parse_lark_id, parse_id.
  rewrite (proj2 (is_empty_false raw) Hne), str_len_ascii by done. rewrite (proj2 (Nat.ltb_ge _ _)) by (unfold LARK_ID_MAX_LEN; lia).
  assert (Hf : forallb id_char raw = true).
  { apply forallb_forall. intros c Hin%list_elem_of_In. rewrite Forall_forall in Hd. specialize (Hd c Hin).
    unfold id_char, is_ascii_alphanumeric. apply digit_bounds in Hd. rewrite !orb_true_iff, !andb_true_iff, !N.leb_le. lia. }
  by rewrite Hf.
Qed.

(** ** What was issued *)

Inductive issue :=
| IConnect (c : SlackConnectClaims) (exp : Z)
| ILink (c : SlackLinkClaims) (exp : Z)
| IState (c : StateClaims) (exp : Z).
Definition issue_payload (i : issue) : str :=
  match i with
  | IConnect c exp => join_with colon (slack_connect_fields c exp)
  | ILink c exp => join_with colon (slack_link_fields c exp)
  | IState c exp => join_with full_stop (state_fields c exp)
  end.
Definition issue_token (key : list N) (i : issue) : str :=
  match i with
  | IConnect c exp => slack_sign_connect key c exp
  | ILink c exp => sign_link key c exp
  | IState c exp => sign_state key c exp
  end.
Definition issue_ok (i : issue) : Prop :=
  match i with
  | IConnect c exp => slack_connect_ok c ∧ in_i64 exp = true
  | ILink c exp => slack_link_ok c ∧ in_i64 exp = true
  | IState c exp => state_ok c ∧ in_i64 exp = true
  end.

(** The kinds differ in their numbers of separators. *)
Lemma count_fields sep ps p : Forall (free sep) (p :: ps) → count sep (join_with sep (p :: ps)) = length ps.
Proof. intros Hf. pose proof (split_count sep (join_with sep (p :: ps))) as Hc. fold (fields sep (join_with sep (p :: ps))) in Hc. rewrite fields_join in Hc by done. by injection Hc. Qed.

Lemma colons_of i : issue_ok i →
  count colon (issue_payload i) = match i with IConnect _ _ => 7 | ILink _ _ => 3 | IState _ _ => 0 end.
Proof.
  destruct i as [c exp|c exp|c exp]; intros [Hc He]; cbn [issue_payload].
  - apply count_fields. by apply slack_connect_free.
  - apply count_fields. by apply slack_link_free.
  - unfold state_fields. rewrite count_join. cbn [sum_list_with].
    rewrite !count_free by first [apply uuid_free|apply show_Z_plain|intros ?%list_elem_of_singleton; done]. done.
Qed.
Lemma stops_of i : issue_ok i →
  count full_stop (issue_payload i) = match i with IConnect _ _ => 1 | ILink _ _ => 0 | IState _ _ => 2 end.
Proof.
  destruct i as [c exp|c exp|c exp]; intros [Hc He]; cbn [issue_payload].
  - destruct Hc as ((_ & _ & ?)%catalog_ok & (_ & _ & _ & _ & ?)%parse_id_ok & (_ & _ & _ & _ & ?)%parse_id_ok
      & (_ & _ & Hts)%slack_ts_ok & (_ & _ & _ & _ & ?)%parse_id_ok & _ & _).
    unfold slack_connect_fields. rewrite count_join. cbn [sum_list_with]. rewrite Hts.
    rewrite !count_free by first [done|apply uuid_free|apply show_Z_plain|intros ?%list_elem_of_singleton; done]. done.
  - destruct Hc as ((_ & _ & _ & _ & ?)%parse_id_ok & (_ & _ & _ & _ & ?)%parse_id_ok & [_ Hb]%utf8_round).
    unfold slack_link_fields. rewrite count_join. cbn [sum_list_with].
    rewrite !count_free by first [done|by apply b64_free|apply show_Z_plain|intros ?%list_elem_of_singleton; done]. done.
  - apply count_fields, state_free.
Qed.

(** A verifier that accepts has read as many fields as its kind has. *)
Lemma connect_shape key token now c : slack_verify_connect key token now = Some c →
  ∃ payload, signed_payload colon key token = Some payload ∧ count colon payload = 7.
Proof.
  unfold slack_verify_connect. destruct (signed_payload colon key token) as [payload|]; [|done]. cbn. intros Hv.
  exists payload. split; [done|]. pose proof (split_count colon payload) as Hc. fold (fields colon payload) in Hc.
  destruct (fields colon payload) as [|? [|? [|? [|? [|? [|? [|? [|? [|? ?]]]]]]]]]; try done. cbn in Hc. lia.
Qed.
Lemma link_shape key token now c : verify_link key token now = Some c →
  ∃ payload, signed_payload colon key token = Some payload ∧ count colon payload = 3.
Proof.
  unfold verify_link. destruct (signed_payload colon key token) as [payload|]; [|done]. cbn. intros Hv.
  exists payload. split; [done|]. pose proof (split_count colon payload) as Hc. fold (fields colon payload) in Hc.
  destruct (fields colon payload) as [|? [|? [|? [|? [|? ?]]]]]; try done. cbn in Hc. lia.
Qed.
Lemma state_shape key token now c : verify_state key token now = Some c →
  ∃ payload, signed_payload full_stop key token = Some payload ∧ count full_stop payload = 2.
Proof.
  unfold verify_state. destruct (signed_payload full_stop key token) as [payload|]; [|done]. cbn. intros Hv.
  exists payload. split; [done|]. pose proof (split_count full_stop payload) as Hc. fold (fields full_stop payload) in Hc.
  destruct (fields full_stop payload) as [|? [|? [|? [|? ?]]]]; try done. cbn in Hc. lia.
Qed.

(** The codes a token can carry are those of issued payloads. *)
Definition unforged (key : list N) (issued : list issue) (token : str) : Prop :=
  ∀ sep payload sig, token = payload ++ sep :: sig →
    decode_32 sig = Some (hmac_sha256 key (as_bytes payload)) → payload ∈ issue_payload <$> issued.

(** C28: Under the one key of the Slack app a token that is accepted was issued, unless
    its code was forged: for the purpose it is presented for, with the claims it is read
    as, and it has not expired. *)
Theorem slack_tokens_issued (key : list N) (issued : list issue) (token : str) (now : Z)
    (Hok : Forall issue_ok issued) (Hforge : unforged key issued token) :
  (∀ c, slack_verify_connect key token now = Some c → ∃ exp, IConnect c exp ∈ issued ∧ (now ≤ exp)%Z) ∧
  (∀ c, verify_link key token now = Some c → ∃ exp, ILink c exp ∈ issued ∧ (now ≤ exp)%Z) ∧
  (∀ c, verify_state key token now = Some c → ∃ exp, IState c exp ∈ issued ∧ (now ≤ exp)%Z).
Proof.
  assert (Hread : ∀ sep payload, signed_payload sep key token = Some payload →
    ∃ i, i ∈ issued ∧ issue_ok i ∧ payload = issue_payload i).
  { intros sep payload (sig & Ht & Hd)%signed_payload_some. apply (Hforge sep payload sig) in Ht; [|done].
    apply list_elem_of_fmap in Ht as (i & -> & Hi). exists i. rewrite Forall_forall in Hok. auto. }
  split_and!; intros c Hv.
  - destruct (connect_shape _ _ _ _ Hv) as (payload & Hp & Hn). destruct (Hread _ _ Hp) as (i & Hi & Hio & ->).
    rewrite colons_of in Hn by done. destruct i as [c' exp| |]; try done. destruct Hio as [Hc He].
    rewrite (read_slack_connect key token now c' exp) in Hv by done. unfold while_valid in Hv.
    destruct (Z.ltb_spec exp now); [done|]. injection Hv as ->. by exists exp.
  - destruct (link_shape _ _ _ _ Hv) as (payload & Hp & Hn). destruct (Hread _ _ Hp) as (i & Hi & Hio & ->).
    rewrite colons_of in Hn by done. destruct i as [|c' exp|]; try done. destruct Hio as [Hc He].
    rewrite (read_slack_link key token now c' exp) in Hv by done. unfold while_valid in Hv.
    destruct (Z.ltb_spec exp now); [done|]. injection Hv as ->. by exists exp.
  - destruct (state_shape _ _ _ _ Hv) as (payload & Hp & Hn). destruct (Hread _ _ Hp) as (i & Hi & Hio & ->).
    rewrite stops_of in Hn by done. destruct i as [| |c' exp]; try done. destruct Hio as [Hc He].
    rewrite (read_state key token now c' exp) in Hv by done. unfold while_valid in Hv.
    destruct (Z.ltb_spec exp now); [done|]. injection Hv as ->. by exists exp.
Qed.

(** Every token that is made of parsed values is read back as its claims, up to the
    second it expires and not after; those of Lark and Discord fit the cap their
    verifiers set. *)
Theorem signed_round_trip (key : list N) (exp now : Z) (Hexp : in_i64 exp = true) :
  (∀ c, slack_connect_ok c → slack_verify_connect key (slack_sign_connect key c exp) now = while_valid exp now c) ∧
  (∀ c, slack_link_ok c → verify_link key (sign_link key c exp) now = while_valid exp now c) ∧
  (∀ c, state_ok c → verify_state key (sign_state key c exp) now = while_valid exp now c) ∧
  (∀ c, chat_connect_ok parse_lark_id c → lark_verify_connect key (chat_sign_connect key c exp) now = while_valid exp now c) ∧
  (∀ c, chat_connect_ok parse_snowflake c → discord_verify_connect key (chat_sign_connect key c exp) now = while_valid exp now c).
Proof.
  split_and!; intros c Hc.
  - apply read_slack_connect; [done|done|]. apply signed_payload_sign. by left.
  - apply read_slack_link; [done|done|]. apply signed_payload_sign. by left.
  - apply read_state; [done|done|]. apply signed_payload_sign. by right.
  - apply read_chat; [apply lark_plain|done|done|by eapply chat_token_fits; [apply lark_plain|..]|]. apply signed_payload_sign. by left.
  - apply read_chat; [apply discord_plain|done|done|by eapply chat_token_fits; [apply discord_plain|..]|]. apply signed_payload_sign. by left.
Qed.

(** A token made for Discord is accepted by Lark's endpoint: one key, one shape. *)
Lemma discord_token_opens_lark (key : list N) (c : ChatConnectClaims) (exp now : Z) :
  in_i64 exp = true → chat_connect_ok parse_snowflake c →
  lark_verify_connect key (chat_sign_connect key c exp) now = while_valid exp now c.
Proof.
  intros He (Hc & Ha & Hcon & Hr & Hids). assert (Hl : chat_connect_ok parse_lark_id c).
  { split_and!; [done|by eapply digits_are_lark|by eapply digits_are_lark|intros r Hrep; eapply digits_are_lark, Hr, Hrep|apply Hids..]. }
  apply read_chat; [apply lark_plain|done|done|by eapply chat_token_fits; [apply lark_plain|..]|]. apply signed_payload_sign. by left.
Qed.
End round_trip.

(** ** A small deployment *)

Module SignedDemo.

Fixpoint to_bytes (k : nat) (n : N) : list N :=
  match k with O => [] | S k => to_bytes k (n / 256) ++ [(n mod 256)%N] end.
Definition of_bytes (bs : list N) : N := foldl (λ acc b, acc * 256 + b)%N 0%N bs.

#[export] Instance macs : Macs := {| hmac_sha256 := λ _ _, replicate 32 0%N; sha256_of := λ _, replicate 32 0%N |}.
#[export] Instance base64 : Base64 := {| b64_encode := encode_32; b64_decode := decode_loop |}.
#[export] Instance uuid : UuidPrinter := λ id, encode_32 (to_bytes 16 id).
#[export] Instance parser : UuidParser := λ s, of_bytes <$> decode_loop s.

Lemma to_bytes_byte k : ∀ n, Forall byte (to_bytes k n) ∧ length (to_bytes k n) = k.
Proof.
  induction k as [|k IH]; intros n; [by split; [constructor|]|]. cbn. destruct (IH (n / 256)%N) as [Hb Hl].
  split; [|rewrite length_app, Hl; cbn; lia]. apply Forall_app. split; [done|]. apply Forall_singleton. by apply N.mod_lt.
Qed.
Lemma bytes_round k : ∀ n, (n < 256 ^ N.of_nat k)%N → of_bytes (to_bytes k n) = n.
Proof.
  induction k as [|k IH]; intros n Hn; [cbn in *; lia|]. cbn [to_bytes]. unfold of_bytes in *.
  rewrite foldl_app. cbn [foldl]. rewrite IH.
  - rewrite N.mul_comm. symmetry. by apply N.div_mod.
  - apply N.Div0.div_lt_upper_bound. rewrite <-N.pow_succ_r', <-Nat2N.inj_succ. done.
Qed.

#[export] Instance mac_laws : MacLaws.
Proof. split; intros; cbn; [done|]. repeat constructor. Qed.
Lemma encode_text (P : N → bool) bs : (∀ c, is_digit c = true ∨ is_ascii_lowercase c = true → P c = true) →
  Forall byte bs → Forall (λ c, P c = true) (encode_32 bs).
Proof. intros HP Hb. eapply Forall_impl; [by apply encode_chars|exact HP]. Qed.
#[export] Instance base64_laws : Base64Laws.
Proof.
  split; intros bs Hb; [by apply decode_encode_loop|]. apply encode_text; [|done]. intros c. unfold url_safe_byte, is_ascii_alphanumeric.
  rewrite digit_bounds, lowercase_bounds, !orb_true_iff, !andb_true_iff, !N.leb_le. lia.
Qed.
#[export] Instance uuid_text_laws : UuidTextLaws.
Proof.
  split; intros id.
  - intros Hid. unfold uuid_parse_str, uuid_to_string, parser, uuid. rewrite decode_encode_loop by apply to_bytes_byte.
    cbn [fmap option_fmap option_map]. by rewrite bytes_round.
  - apply encode_text; [|apply to_bytes_byte]. intros c [Hc|Hc]; unfold uuid_char; rewrite Hc; [done|by rewrite orb_true_r].
  - intros _. unfold uuid_to_string, uuid. rewrite encode_length. destruct (to_bytes_byte 16 id) as [_ ->]. cbn. lia.
Qed.

Definition key : list N := [1]%N.
Definition connect : SlackConnectClaims :=
  mkSlackConnect (lit "notion") (lit "T0ABCDE") (lit "C1XYZ12") (lit "1700000000.000100") (lit "U0USER1") 7 8.
Definition link : SlackLinkClaims := mkSlackLink (lit "T0ABCDE") (lit "U0USER1") (lit "https://hooks.slack.com/x").
Definition chat : ChatConnectClaims :=
  mkChatConnect (lit "notion") 1 2 (lit "111222333") (lit "777888999") (Some (lit "333444")) 3 4.

(** The second of its expiry is the last one. *)
Example expires_after :
  (slack_verify_connect key (slack_sign_connect key connect 100) 100, slack_verify_connect key (slack_sign_connect key connect 100) 101)
  = (Some connect, None).
Proof. by vm_compute. Qed.

(** A token of one kind is refused as another. *)
Example other_kind_refused :
  (verify_link key (slack_sign_connect key connect 100) 1, verify_state key (sign_link key link 100) 1) = (None, None).
Proof. by vm_compute. Qed.

Example discord_token_at_lark : lark_verify_connect key (chat_sign_connect key chat 100) 1 = Some chat.
Proof. by vm_compute. Qed.

(** A webhook five minutes off is accepted, one second more is not. *)
Example webhook_window (sig := lit "v0=" ++ encode_32 (replicate 32 0%N)) :
  (check_signature key (Some (lit "1700000000")) (Some sig) [] 1700000300,
   check_signature key (Some (lit "1700000000")) (Some sig) [] 1700000301) = (Ok tt, Err UNAUTHORIZED).
Proof. by vm_compute. Qed.

End SignedDemo.

#[local] Existing Instances SignedDemo.macs SignedDemo.base64 SignedDemo.uuid SignedDemo.parser
  SignedDemo.mac_laws SignedDemo.base64_laws SignedDemo.uuid_text_laws.

(** A code of sixty-four characters leaves one way to split a token. *)
Lemma unforged_token `{Base64, UuidPrinter, Macs} key issued token : forallb (λ c, c <? 128)%N token = true →
  take (length token - 65) token ∈ issue_payload <$> issued → unforged key issued token.
Proof.
  intros Ha Hin sep payload sig -> Hd. assert (Hs : length sig = 64).
  { unfold decode_32 in Hd. destruct (Nat.eqb_spec (str_len sig) 64) as [Hl|]; [|done].
    rewrite <-str_len_ascii; [done|]. apply Forall_forall. intros c Hc. rewrite forallb_forall in Ha.
    apply N.ltb_lt, Ha, list_elem_of_In, elem_of_app. right. by right. }
  rewrite length_app in Hin. cbn [length] in Hin. rewrite Hs in Hin.
  replace (length payload + 65 - 65) with (length payload) in Hin by lia. by rewrite take_app_length in Hin.
Qed.

Lemma slack_tokens_issued_witness :
  let token := slack_sign_connect SignedDemo.key SignedDemo.connect 100 in
  slack_verify_connect SignedDemo.key token 50 = Some SignedDemo.connect ∧
  ∃ exp, IConnect SignedDemo.connect exp ∈ [IConnect SignedDemo.connect 100; ILink SignedDemo.link 100] ∧ (50 ≤ exp)%Z.
Proof.
  split; [by vm_compute|].
  refine (proj1 (slack_tokens_issued SignedDemo.key [IConnect SignedDemo.connect 100; ILink SignedDemo.link 100]
    (slack_sign_connect SignedDemo.key SignedDemo.connect 100) 50 _ _) SignedDemo.connect _); [| |by vm_compute].
  - repeat apply Forall_cons_2; [..|apply Forall_nil_2]; split_and!; by vm_compute.
  - apply unforged_token; [by vm_compute|]. apply list_elem_of_fmap. exists (IConnect SignedDemo.connect 100).
    split; [by vm_compute|by left].
Defined.

Lemma signed_round_trip_witness :
  lark_verify_connect SignedDemo.key (chat_sign_connect SignedDemo.key SignedDemo.chat 100) 100 = Some SignedDemo.chat.
Proof.
  destruct (signed_round_trip SignedDemo.key 100 100 eq_refl) as (_ & _ & _ & Hl & _).
  apply Hl. split_and!; try (by vm_compute). intros r [= <-]. by vm_compute.
Defined.
