(* ===== verification/Access.v ===== *)
(** * Who gets through to the private routes

    [auth/jwt.rs], [http/membership_cache.rs], [http/auth_layer.rs] and [http/csrf.rs]:
    the session token, the role cached for a short while, the two authentication
    middlewares and the two layers against forged requests, in the order in which
    [http/routes/mod.rs] stacks them.  Signing and opening a token, the text of a header
    and the origin of a URL are third-party code ([JwtCodec], [HeaderText],
    [UrlOrigins]).  The attributes of the cookies and the responses are not modelled. *)

From Stdlib Require Import ZArith Lia Ascii String.
From stdpp Require Import base gmap list strings sets relations.
From S2P Require Import Prelude Program Types Identity Orgs OrgRoutes Signed.

(** ** Session tokens *)

Definition EXP_LEEWAY_SECS : Z := 5.
Definition JWT_SECRET_MIN_BYTES : nat := 32.
(** [JWT_TTL], seven days, in seconds. *)
Definition JWT_TTL : Z := 24 * 7 * 3600.

Record JwtClaims := mkClaims { jc_sub : UserId; jc_org : option OrgId; jc_iat : Z; jc_exp : Z }.

(** [jsonwebtoken]'s [encode] and [decode] with HS256 and a key; the expiry is left
    to the caller. *)
Class JwtCodec := {
  jwt_encode : list N → JwtClaims → res str str;
  jwt_decode : list N → str → res str JwtClaims }.
(** What is encoded is decoded, with the same key. *)
Class JwtCodecLaws `{JwtCodec} : Prop :=
  jwt_round : ∀ k c t, jwt_encode k c = Ok t → jwt_decode k t = Ok c.

Record Signer := mkSigner { sg_key : list N; sg_ttl : Z }.

Definition signer_new (secret : str) : res AuthError Signer :=
  let bytes := as_bytes secret in
  if length bytes <? JWT_SECRET_MIN_BYTES then Err (AuthInternal "jwt secret too short (need >= 32 bytes)")
  else Ok (mkSigner bytes JWT_TTL).

(** [i64] addition as the release profile compiles it. *)
Definition i64_wrap (z : Z) : Z := (z - I64_MIN) mod 2 ^ 64 + I64_MIN.

(** The wall clock, in nanoseconds from 1970. *)
Definition now_epoch {E} (wall : Z) : res E Z :=
  rassert (0 <=? wall)%Z "invariant: system clock not before 1970" ;;?
  let secs := (wall / 1000000000)%Z in
  rassert (in_i64 secs) "invariant: seconds-since-epoch fits in i64" ;;? Ok secs.

Definition ttl_secs {E} (s : Signer) : res E Z :=
  rassert (in_i64 (sg_ttl s)) "invariant: JWT_TTL fits in i64 (config-controlled, weeks at most)" ;;?
  Ok (sg_ttl s).

Section tokens.
Context `{JwtCodec}.

Definition mint (s : Signer) (wall : Z) (user : UserId) (org : option OrgId) : res AuthError str :=
  now <-? now_epoch wall ;
  ttl <-? ttl_secs s ;
  res_map_err Jwt (jwt_encode (sg_key s) (mkClaims user org now (i64_saturating_add now ttl))).

Definition jwt_verify (s : Signer) (wall : Z) (token : str) : res AuthError JwtClaims :=
  claims <-? res_map_err Jwt (jwt_decode (sg_key s) token) ;
  now <-? now_epoch wall ;
  if (i64_wrap (jc_exp claims + EXP_LEEWAY_SECS) <? now)%Z then Err (Jwt (lit "token expired"))
  else Ok claims.

(** The signing that [OrgRoutes] takes as given. *)
Definition signer_mints (s : Signer) (wall : Z) : JwtSigner := mint s wall.
End tokens.

(** ** The membership cache *)

(** Nanoseconds of the monotonic clock. *)
Definition MEMBERSHIP_TTL : Z := 30 * 1000000000.
Definition MEMBERSHIP_CAP : nat := 4096.

Record CacheEntry := mkCacheEntry { ce_role : OrgRole; ce_expires_at : Z }.
Record MembershipCache := mkMemberCache {
  mc_inner : gmap (UserId * OrgId) CacheEntry; mc_cap : nat; mc_ttl : Z }.

Definition with_params (cap : nat) (ttl : Z) : res AuthError MembershipCache :=
  rassert (0 <? cap) "invariant: membership cache cap must be positive" ;;?
  Ok (mkMemberCache ∅ cap ttl).
Definition membership_cache_new : res AuthError MembershipCache := with_params MEMBERSHIP_CAP MEMBERSHIP_TTL.

Definition cache_lookup (now : Z) (user : UserId) (org : OrgId) (c : MembershipCache) : option OrgRole :=
  e ← mc_inner c !! (user, org);
  if (now <? ce_expires_at e)%Z then Some (ce_role e) else None.

Definition cache_insert (now : Z) (user : UserId) (org : OrgId) (role : OrgRole) (c : MembershipCache)
    : MembershipCache :=
  let map := if mc_cap c <=? size (mc_inner c) then ∅ else mc_inner c in
  mkMemberCache (<[(user, org) := mkCacheEntry role (now + mc_ttl c)%Z]> map) (mc_cap c) (mc_ttl c).

(** ** Requests *)

Inductive Method := GET | HEAD | OPTIONS | OtherMethod (name : str).

(** [HeaderValue::to_str] *)
Class HeaderText := header_to_str : list N → option str.

(** What the layers read of a request: two cookies and three headers, by their bytes. *)
Record Request := mkRequest {
  rq_method : Method;
  rq_session : option str;
  rq_csrf_cookie : option str;
  rq_csrf_header : option (list N);
  rq_origin : option (list N);
  rq_referer : option (list N) }.

Definition is_safe_method (m : Method) : bool :=
  match m with GET | HEAD | OPTIONS => true | OtherMethod _ => false end.

(** [Url::parse], then [origin]: none for a text that is no URL. *)
Inductive Origin := Opaque | Tuple (serialization : str).
Class UrlOrigins := url_origin : str → option Origin.

(** ** Cross-site request forgery *)

Definition CSRF_TOKEN_MAX_LEN : nat := 64.
Definition ORIGIN_HEADER_MAX_LEN : nat := 2048.

Inductive CsrfError := Missing | TokenMismatch | UntrustedOrigin.

Fixpoint differ (diff : N) (a b : list N) : N :=
  match a, b with
  | x :: a', y :: b' => differ (N.lor diff (N.lxor x y)) a' b'
  | _, _ => diff
  end.
Definition constant_time_eq (a b : list N) : bool :=
  if negb (length a =? length b) then false else (differ 0 a b =? 0)%N.

Section csrf.
Context `{HeaderText, UrlOrigins}.

Definition require_csrf (rq : Request) : res CsrfError unit :=
  if is_safe_method (rq_method rq) then Ok tt
  else
    cookie_value <-? ok_or (rq_csrf_cookie rq) Missing ;
    header_value <-? ok_or (rq_csrf_header rq ≫= header_to_str) Missing ;
    let cookie_bytes := as_bytes cookie_value in
    let header_bytes := as_bytes header_value in
    if is_empty cookie_bytes || is_empty header_bytes
       || (CSRF_TOKEN_MAX_LEN <? length cookie_bytes) || (CSRF_TOKEN_MAX_LEN <? length header_bytes)
    then Err TokenMismatch
    else if negb (constant_time_eq cookie_bytes header_bytes) then Err TokenMismatch
    else Ok tt.

Definition header_origin (value : str) : option str :=
  match url_origin value with Some (Tuple s) => Some s | _ => None end.

Definition is_trusted_origin (own_redirect_base : str) (spa_origin : option str) (cors_origins : list str)
    (candidate : str) : bool :=
  if bool_decide (header_origin own_redirect_base = Some candidate) then true
  else if bool_decide (spa_origin = Some candidate) then true
  else existsb (λ o, bool_decide (o = candidate)) cors_origins.

(** What [AppState] says of the deployment. *)
Record Site := mkSite { si_oauth_redirect_base : str; si_web_base_url : option str; si_cors_allowed_origins : list str }.

Definition require_trusted_origin (site : Site) (rq : Request) : res CsrfError unit :=
  if is_safe_method (rq_method rq) then Ok tt
  else
    let header := match rq_origin rq with Some o => Some o | None => rq_referer rq end in
    let trusted :=
      match header ≫= header_to_str with
      | None => true
      | Some raw =>
          if ORIGIN_HEADER_MAX_LEN <? str_len raw then true
          else match header_origin raw with
               | Some candidate =>
                   is_trusted_origin (si_oauth_redirect_base site) (si_web_base_url site)
                     (si_cors_allowed_origins site) candidate
               | None => false
               end
      end in
    if trusted then Ok tt else Err UntrustedOrigin.
End csrf.

(** ** The middlewares

    The cache and the tables are shared by all requests: between two calls others act
    ([Net]).  [ac_past] keeps what the clock and the tables were; no code reads it. *)

Record access := mkAccess { ac_now : Z; ac_tables : orgs; ac_cache : MembershipCache; ac_past : list (Z * orgs) }.

Inductive acall :=
| ALookup (user : UserId) (org : OrgId) (r : option OrgRole)
| AMembership (user : UserId) (org : OrgId) (r : res AuthError (option OrgRole))
| AInsert (user : UserId) (org : OrgId) (role : OrgRole).

Inductive AccessError := XAuth (e : AuthError) | XCsrf (e : CsrfError).

Record UserSession := mkUserSession { us_user_id : UserId; us_active_org : option OrgId }.

Abbreviation AccessProg := (Prog access acall AccessError).

Record AccessEnv := mkAccessEnv { ae_net : Net access; ae_signer : Signer; ae_wall : Z; ae_site : Site }.

Section layers.
Context `{JwtCodec, HeaderText, UrlOrigins} (env : AccessEnv).

Definition verify_cookie (rq : Request) : res AuthError JwtClaims :=
  token <-? ok_or (rq_session rq) Unauthenticated ;
  res_map_err (λ _, Unauthenticated) (jwt_verify (ae_signer env) (ae_wall env) token).

Definition lookup_call (user : UserId) (org : OrgId) : AccessProg (option OrgRole) :=
  plocal (ae_net env) (ALookup user org)
    (λ w, (cache_lookup (ac_now w) user org (ac_cache w), w)).
Definition membership_read (user : UserId) (org : OrgId) : AccessProg (option OrgRole) :=
  pmap_err XAuth (pcall (ae_net env) (AMembership user org) db_auth
    (λ _ w, (Ok (membership user org (ac_tables w)), w))).
Definition insert_call (user : UserId) (org : OrgId) (role : OrgRole) : AccessProg unit :=
  plocal (ae_net env) (λ _, AInsert user org role)
    (λ w, (tt, mkAccess (ac_now w) (ac_tables w) (cache_insert (ac_now w) user org role (ac_cache w)) (ac_past w))).

Definition resolve_role (user : UserId) (org : OrgId) : AccessProg OrgRole :=
  cached <-% lookup_call user org ;
  match cached with
  | Some role => pret role
  | None =>
      fresh <-% membership_read user org ;
      fresh <-% plift (ok_or fresh (XAuth (NotMember org))) ;
      insert_call user org fresh ;;%
      pret fresh
  end.

Definition require_principal (rq : Request) : AccessProg Principal :=
  claims <-% plift (res_map_err XAuth (verify_cookie rq)) ;
  org <-% plift (ok_or (jc_org claims) (XAuth Unauthenticated)) ;
  role <-% resolve_role (jc_sub claims) org ;
  pret (mkPrincipal (jc_sub claims) org role).

Definition require_user (rq : Request) : AccessProg UserSession :=
  claims <-% plift (res_map_err XAuth (verify_cookie rq)) ;
  pret (mkUserSession (jc_sub claims) (jc_org claims)).

(** The private routes and the onboarding routes: authentication outermost, then the
    two layers against forgery, then the handler, which gets the identity. *)
Definition guard (rq : Request) : res AccessError unit :=
  res_map_err XCsrf (require_csrf rq ;;? require_trusted_origin (ae_site env) rq).
Definition private_request (rq : Request) : AccessProg Principal :=
  p <-% require_principal rq ; plift (guard rq) ;;% pret p.
Definition onboarding_request (rq : Request) : AccessProg UserSession :=
  u <-% require_user rq ; plift (guard rq) ;;% pret u.
End layers.

(** ** Laws of the layers *)

Lemma differ_zero d a b : length a = length b → differ d a b = 0%N ↔ d = 0%N ∧ a = b.
Proof.
  revert d b. induction a as [|x a IH]; intros d [|y b] Hl; try done; cbn; [tauto|].
  rewrite IH by (cbn in Hl; lia). rewrite N.lor_eq_0_iff, N.lxor_eq_0_iff. naive_solver.
Qed.
Lemma constant_time_eq_spec a b : constant_time_eq a b = bool_decide (a = b).
Proof.
  unfold constant_time_eq. destruct (Nat.eqb_spec (length a) (length b)) as [Hl|Hl]; cbn.
  - apply Bool.eq_iff_eq_true. rewrite N.eqb_eq, bool_decide_eq_true, differ_zero by done. tauto.
  - symmetry. apply bool_decide_eq_false. by intros ->.
Qed.

Lemma cache_insert_size now user org role c : 0 < mc_cap c → size (mc_inner c) ≤ mc_cap c →
  size (mc_inner (cache_insert now user org role c)) ≤ mc_cap c.
Proof.
  intros Hc Hs. unfold cache_insert. cbn. case_match eqn:E; bools.
  - rewrite map_size_insert, lookup_empty, map_size_empty. done.
  - rewrite map_size_insert. destruct (_ !! _); cbn; lia.
Qed.

(** Looking up what was just inserted; nothing else appears. *)
Lemma cache_insert_lookup now user org role c k e :
  mc_inner (cache_insert now user org role c) !! k = Some e →
  (k = (user, org) ∧ e = mkCacheEntry role (now + mc_ttl c)%Z) ∨ mc_inner c !! k = Some e.
Proof.
  unfold cache_insert. cbn. intros [[<- <-]|[_ Hl]]%lookup_insert_Some; [by left|right].
  case_match; [by rewrite lookup_empty in Hl|done].
Qed.

Section forgery.
Context `{HeaderText, UrlOrigins}.

(** What the two layers accept, said without their order of tests. *)
Definition csrf_ok (rq : Request) : Prop :=
  ∃ token header bytes, rq_csrf_cookie rq = Some token ∧ rq_csrf_header rq = Some bytes
    ∧ header_to_str bytes = Some header ∧ as_bytes token = as_bytes header
    ∧ 0 < length (as_bytes token) ≤ CSRF_TOKEN_MAX_LEN.

Lemma require_csrf_spec rq :
  require_csrf rq = Ok tt ↔ is_safe_method (rq_method rq) = true ∨ csrf_ok rq.
Proof.
  unfold require_csrf, csrf_ok. destruct (is_safe_method _) eqn:Es; [tauto|].
  destruct (rq_csrf_cookie rq) as [token|]; cbn [ok_or res_bind mbind option_bind]; [|split; [done|naive_solver]].
  destruct (rq_csrf_header rq) as [bytes|]; cbn [ok_or res_bind mbind option_bind]; [|split; [done|naive_solver]].
  destruct (header_to_str bytes) as [header|] eqn:Eh; cbn [ok_or res_bind mbind option_bind]; [|split; [done|naive_solver]].
  rewrite constant_time_eq_spec. split.
  - destruct (_ || _) eqn:Eb; [done|]. case_bool_decide; [|done]. intros _. right. bools.
    exists token, header, bytes. split_and!; try done. destruct (as_bytes token); [done|]. cbn. lia.
  - intros [?|(t & h & b & [= <-] & [= <-] & Hh & He & Hl1 & Hl2)]; [done|]. rewrite Eh in Hh. injection Hh as [= <-].
    rewrite <- He, bool_decide_true by done. cbn [negb].
    destruct (_ || _) eqn:Eb; [|done]. rewrite !orb_true_iff, !Nat.ltb_lt, !is_empty_true in Eb.
    exfalso. destruct (as_bytes token) eqn:?; [cbn in Hl1; lia|]. destruct Eb as [[[|]|]|]; [done..|lia|lia].
Qed.

(** The origin a request names, when it names one the check reads. *)
Definition named_origin (rq : Request) : option str :=
  raw ← (match rq_origin rq with Some o => Some o | None => rq_referer rq end) ≫= header_to_str;
  if ORIGIN_HEADER_MAX_LEN <? str_len raw then None else Some raw.
Definition trusted (site : Site) (candidate : str) : Prop :=
  header_origin (si_oauth_redirect_base site) = Some candidate ∨ si_web_base_url site = Some candidate
  ∨ candidate ∈ si_cors_allowed_origins site.

Lemma is_trusted_origin_spec own spa cors c :
  is_trusted_origin own spa cors c = true ↔ header_origin own = Some c ∨ spa = Some c ∨ c ∈ cors.
Proof.
  unfold is_trusted_origin. case_bool_decide; [tauto|]. case_bool_decide; [tauto|].
  rewrite existsb_exists. setoid_rewrite bool_decide_eq_true. setoid_rewrite <- list_elem_of_In. naive_solver.
Qed.

Lemma require_trusted_origin_spec site rq :
  require_trusted_origin site rq = Ok tt ↔
  is_safe_method (rq_method rq) = true ∨
  (∀ raw, named_origin rq = Some raw → ∃ c, header_origin raw = Some c ∧ trusted site c).
Proof.
  unfold require_trusted_origin, named_origin, trusted. destruct (is_safe_method _); [tauto|].
  destruct (_ ≫= header_to_str) as [raw|]; cbn [mbind option_bind]; [|naive_solver].
  destruct (ORIGIN_HEADER_MAX_LEN <? str_len raw); [split; [by right|done]|]. destruct (header_origin raw) as [c|] eqn:Ho; [|split; [done|intros [?|Hr]; [done|destruct (Hr raw eq_refl) as (? & Hc & _); congruence]]].
  setoid_rewrite <- is_trusted_origin_spec. split.
  - case_match; [|done]. intros _. right. intros ? [= <-]. eauto.
  - intros [?|Hr]; [done|]. destruct (Hr raw eq_refl) as (c' & Hc & Ht). rewrite Ho in Hc. injection Hc as [= <-]. by rewrite Ht.
Qed.
End forgery.

(** ** What others do meanwhile

    The clock advances, anybody changes the tables, and other requests insert roles
    that the tables held when they read them; the time that passes between their read,
    their clock and their insertion is not bounded. *)

(** The tables held [role] for [user] in [org] at time [t]. *)
Definition held (w : access) (t : Z) (user : UserId) (org : OrgId) (role : OrgRole) : Prop :=
  ∃ s, (t, s) ∈ (ac_now w, ac_tables w) :: ac_past w ∧ membership user org s = Some role.

Inductive astep : access → access → Prop :=
| SClock w now : (ac_now w ≤ now)%Z →
    astep w (mkAccess now (ac_tables w) (ac_cache w) ((ac_now w, ac_tables w) :: ac_past w))
| STables w s :
    astep w (mkAccess (ac_now w) s (ac_cache w) ((ac_now w, ac_tables w) :: ac_past w))
| SInsert w tr ti user org role : held w tr user org role → (tr ≤ ti ≤ ac_now w)%Z →
    astep w (mkAccess (ac_now w) (ac_tables w) (cache_insert ti user org role (ac_cache w)) (ac_past w)).

(** Every entry was read from the tables and inserted afterwards. *)
Record access_ok (w : access) : Prop := {
  ao_cap : 0 < mc_cap (ac_cache w);
  ao_size : size (mc_inner (ac_cache w)) ≤ mc_cap (ac_cache w);
  ao_ttl : mc_ttl (ac_cache w) = MEMBERSHIP_TTL;
  ao_past : Forall (λ p, (p.1 ≤ ac_now w)%Z) (ac_past w);
  ao_entries : ∀ user org e, mc_inner (ac_cache w) !! (user, org) = Some e →
    ∃ tr ti, held w tr user org (ce_role e) ∧ (tr ≤ ti ≤ ac_now w)%Z ∧ ce_expires_at e = (ti + MEMBERSHIP_TTL)%Z }.

Lemma held_step w w' t user org role : astep w w' → held w t user org role → held w' t user org role.
Proof.
  intros [] (s0 & Hs & Hm); exists s0; (split; [|done]); cbn in *; [by right|by right|done].
Qed.
Lemma held_steps w w' t user org role : rtc astep w w' → held w t user org role → held w' t user org role.
Proof. induction 1; eauto using held_step. Qed.
Lemma astep_now w w' : astep w w' → (ac_now w ≤ ac_now w')%Z.
Proof. intros []; cbn; lia. Qed.
Lemma steps_now w w' : rtc astep w w' → (ac_now w ≤ ac_now w')%Z.
Proof. induction 1 as [|??? ?%astep_now]; lia. Qed.

Lemma access_step w w' : access_ok w → astep w w' → access_ok w'.
Proof.
  intros [Hc Hs Ht Hp He] Hst.
  assert (Hkeep : ∀ u o e, mc_inner (ac_cache w) !! (u, o) = Some e →
    ∃ tr ti, held w' tr u o (ce_role e) ∧ (tr ≤ ti ≤ ac_now w')%Z ∧ ce_expires_at e = (ti + MEMBERSHIP_TTL)%Z).
  { intros u o e Hl. destruct (He _ _ _ Hl) as (tr & ti & H1 & H2 & H3). exists tr, ti.
    pose proof (astep_now _ _ Hst). split_and!; [by eapply held_step|lia..|done]. }
  destruct Hst as [w now Hn|w s|w tr ti u o r Hr Hti]; split; cbn in *; try done.
  - constructor; [done|]. eapply Forall_impl; [exact Hp|]. cbn. intros ??. lia.
  - constructor; [cbn; lia|done].
  - by apply cache_insert_size.
  - intros u' o' e [[[= -> ->] ->]|Hl]%cache_insert_lookup; [|by apply Hkeep].
    cbn. exists tr, ti. rewrite Ht. done.
Qed.
Lemma access_steps w w' : access_ok w → rtc astep w w' → access_ok w'.
Proof. intros Hw. induction 1; eauto using access_step. Qed.

(** ** What a request that gets through has shown *)

(** Names the state after the others' next turn from [w]. *)
Ltac others_move w w' H :=
  match goal with |- context [net_others ?net ?n w] =>
    pose proof (follows (R := astep) (net := net) n w) as H; revert H;
    generalize (net_others net n w); intros w' H
  end; cbn zeta.

Section admitted.
Context `{JwtCodec, HeaderText, UrlOrigins} (env : AccessEnv) `{!Follows astep (ae_net env)}.

(** The role was in the tables at [tr], put in the cache (or used) at [ti], less than
    the lifetime before the lookup at [t], which is within the request. *)
Definition recent_role (w w' : access) (user : UserId) (org : OrgId) (role : OrgRole) : Prop :=
  ∃ tr ti t, held w' tr user org role ∧ (tr ≤ ti ≤ t)%Z ∧ (t < ti + MEMBERSHIP_TTL)%Z
    ∧ (ac_now w ≤ t ≤ ac_now w')%Z.

Lemma lookup_recent w user org role : access_ok w →
  cache_lookup (ac_now w) user org (ac_cache w) = Some role → recent_role w w user org role.
Proof.
  intros [_ _ _ _ He] (e & Hl & Hr)%bind_Some. destruct (Z.ltb_spec (ac_now w) (ce_expires_at e)); [|done].
  injection Hr as [= <-]. destruct (He _ _ _ Hl) as (tr & ti & Hh & Ht & Hx). exists tr, ti, (ac_now w).
  split_and!; try done; lia.
Qed.
Lemma recent_mono w0 w w' w1 user org role : rtc astep w0 w → rtc astep w' w1 →
  recent_role w w' user org role → recent_role w0 w1 user org role.
Proof.
  intros Ho1%steps_now Ho2 (tr & ti & t & Hh & ? & ? & ?). exists tr, ti, t.
  pose proof (steps_now _ _ Ho2). split_and!; try done; [by eapply held_steps|lia..].
Qed.

Lemma resolve_role_recent user org s : access_ok (run_tables s) →
  let '(r, s') := resolve_role env user org s in
  rtc astep (run_tables s) (run_tables s')
  ∧ match r with
    | Ok role => recent_role (run_tables s) (run_tables s') user org role
    | Err _ => True
    | Panic _ => False
    end.
Proof.
  intros Hok. unfold resolve_role, lookup_call. rewrite bind_plocal. cbn [fst snd].
  others_move (run_tables s) w1 Ho1. pose proof (access_steps _ _ Hok Ho1) as Hok1.
  destruct (cache_lookup _ _ _ _) as [role|] eqn:El.
  { cbn. split; [done|]. eapply recent_mono; [done|apply rtc_refl|]. by apply lookup_recent. }
  unfold membership_read, pmap_err, pbind at 1, pcall. cbn [run_tables run_trace].
  others_move w1 w2 Ho2. assert (Ho12 : rtc astep (run_tables s) w2) by (etrans; eassumption).
  destruct (net_fault _ _) as [[msg [|]]|]; cbn [run_tables run_trace fst snd]; [done..|].
  destruct (membership user org (ac_tables w2)) as [role|] eqn:Em; cbn [ok_or]; [|done].
  unfold plift, pbind at 1, insert_call. rewrite bind_plocal. cbn [fst snd run_tables run_trace pret].
  others_move w2 w3 Ho3.
  assert (Hh : held w3 (ac_now w2) user org role).
  { eapply held_steps; [done|]. exists (ac_tables w2). split; [left|done]. }
  pose proof (steps_now _ _ Ho3) as Hn. pose proof (steps_now _ _ Ho12) as Hn'.
  assert (Hi : astep w3 (mkAccess (ac_now w3) (ac_tables w3) (cache_insert (ac_now w3) user org role (ac_cache w3)) (ac_past w3))).
  { apply (SInsert w3 (ac_now w2)); [done|lia]. }
  split; [etrans; [exact Ho12|]; eapply rtc_r; eauto|].
  exists (ac_now w2), (ac_now w2), (ac_now w2). cbn [ac_now]. unfold MEMBERSHIP_TTL.
  split_and!; [by eapply held_step|lia..].
Qed.

Lemma verify_cookie_ok rq claims : verify_cookie env rq = Ok claims →
  ∃ token, rq_session rq = Some token ∧ jwt_decode (sg_key (ae_signer env)) token = Ok claims
    ∧ (ae_wall env / 1000000000 ≤ i64_wrap (jc_exp claims + EXP_LEEWAY_SECS))%Z.
Proof.
  unfold verify_cookie, jwt_verify, now_epoch. destruct (rq_session rq) as [token|]; [|done]. cbn [ok_or res_bind].
  destruct (jwt_decode _ token) as [c|e|m] eqn:Ed; [|done..]. cbn [res_map_err res_bind].
  destruct (rassert (0 <=? _)%Z _) as [[]|e|m]; [|done..]. cbn [res_bind]. destruct (rassert (in_i64 _) _) as [[]|e|m]; [|done..]. cbn [res_bind].
  destruct (Z.ltb_spec (i64_wrap (jc_exp c + EXP_LEEWAY_SECS)) (ae_wall env / 1000000000)); [done|].
  intros [= <-]. by exists token.
Qed.

End admitted.

(** C35: Whatever other requests do to the cache and the tables meanwhile, a request to a
    private route reaches its handler only with a session token that the signer's key
    opens and that has not expired (but for the leeway); the role it carries is one the
    membership table held for that person and organisation when it was read, and that
    was put in the cache less than thirty seconds before it was used (the time between
    the read and the insertion is not bounded: [role_outlives_its_read]); and, if its
    method changes state, with the token of its cookie repeated in its header, and no
    origin that can be read and that the deployment does not trust (an origin over 2048
    bytes, or that is not text, is not looked at: [unreadable_origins_pass]). *)
Theorem private_request_checked `{JwtCodec, HeaderText, UrlOrigins} (env : AccessEnv)
    `{!Follows astep (ae_net env)} (rq : Request) (s : run_state access acall) (p : Principal) :
  access_ok (run_tables s) →
  (private_request env rq s).1 = Ok p →
  let w := run_tables s in
  let w' := run_tables (private_request env rq s).2 in
  (∃ token claims, rq_session rq = Some token ∧ jwt_decode (sg_key (ae_signer env)) token = Ok claims
     ∧ jc_sub claims = pr_user_id p ∧ jc_org claims = Some (pr_active_org_id p)
     ∧ (ae_wall env / 1000000000 ≤ i64_wrap (jc_exp claims + EXP_LEEWAY_SECS))%Z)
  ∧ recent_role w w' (pr_user_id p) (pr_active_org_id p) (pr_role p)
  ∧ access_ok w'
  ∧ (is_safe_method (rq_method rq) = true
     ∨ csrf_ok rq ∧ ∀ raw, named_origin rq = Some raw →
         ∃ c, header_origin raw = Some c ∧ trusted (ae_site env) c).
Proof.
  intros Hok. unfold private_request, require_principal, plift, pbind.
  destruct (verify_cookie env rq) as [claims|e|m] eqn:Ev; [|done..]. cbn [res_map_err].
  destruct (jc_org claims) as [org|] eqn:Eo; [|done]. cbn [ok_or].
  pose proof (resolve_role_recent env (jc_sub claims) org s Hok) as Hrole.
  destruct (resolve_role env (jc_sub claims) org s) as [[role|e|m] s']; [|done..]. cbn [fst snd] in *. destruct Hrole as [Hr Hrole].
  unfold pret, guard. destruct (require_csrf rq) as [[]|e|m] eqn:Ec; [|done..].
  destruct (require_trusted_origin (ae_site env) rq) as [[]|e|m] eqn:Et; [|done..]. cbn.
  intros [= <-]. cbn. split_and!; [|done|by eapply access_steps|].
  - destruct (verify_cookie_ok _ _ _ Ev) as (token & ? & ? & ?). by exists token, claims.
  - apply require_csrf_spec in Ec. apply require_trusted_origin_spec in Et. tauto.
Qed.

(** An org-less session reaches the onboarding routes only. *)
Lemma org_less_session `{JwtCodec, HeaderText, UrlOrigins} (env : AccessEnv) rq s claims :
  verify_cookie env rq = Ok claims → jc_org claims = None →
  (private_request env rq s).1 = Err (XAuth Unauthenticated)
  ∧ (guard env rq = Ok tt → (onboarding_request env rq s).1 = Ok (mkUserSession (jc_sub claims) None)).
Proof.
  intros Hv Ho. unfold private_request, require_principal, onboarding_request, require_user, plift, pbind.
  rewrite Hv. cbn. rewrite Ho. split; [done|]. by intros ->.
Qed.

(** A minted token opens until its lifetime and the leeway are over. *)
Lemma minted_opens `{JwtCodec, !JwtCodecLaws} sg wall user org t wall' :
  mint sg wall user org = Ok t → (0 ≤ wall')%Z → (0 ≤ sg_ttl sg)%Z →
  (wall / 1000000000 + sg_ttl sg + EXP_LEEWAY_SECS ≤ I64_MAX)%Z → (wall' / 1000000000 ≤ I64_MAX)%Z →
  let iat := (wall / 1000000000)%Z in let exp := (iat + sg_ttl sg)%Z in
  jwt_verify sg wall' t =
    if (exp + EXP_LEEWAY_SECS <? wall' / 1000000000)%Z then Err (Jwt (lit "token expired"))
    else Ok (mkClaims user org iat exp).
Proof.
  unfold mint, jwt_verify, now_epoch, ttl_secs, rassert. intros Hm Hw0 Httl Hb Hb'.
  destruct (0 <=? wall)%Z eqn:E0; [|discriminate]. cbn [res_bind] in Hm.
  destruct (in_i64 (wall / _)) eqn:E1; [|discriminate]. cbn [res_bind] in Hm.
  destruct (in_i64 (sg_ttl sg)) eqn:E2; [|discriminate]. cbn [res_bind] in Hm.
  destruct (jwt_encode _ _) as [t'|e|m] eqn:Ee; [|done..]. cbn [res_map_err] in Hm. injection Hm as [= <-].
  rewrite (jwt_round _ _ _ Ee). cbn [res_map_err res_bind].
  apply Z.leb_le in E0. pose proof (Z.div_pos wall 1000000000 E0 ltac:(lia)). pose proof (Z.div_pos wall' 1000000000 Hw0 ltac:(lia)).
  rewrite (proj2 (Z.leb_le 0 wall') Hw0). cbn [res_bind].
  assert (in_i64 (wall' / 1000000000) = true) as -> by (unfold in_i64, I64_MIN, I64_MAX in *; lia). cbn [res_bind jc_exp].
  assert (i64_saturating_add (wall / 1000000000) (sg_ttl sg) = wall / 1000000000 + sg_ttl sg)%Z as ->
    by (unfold i64_saturating_add, i64_clamp, I64_MIN, I64_MAX, EXP_LEEWAY_SECS in *; lia).
  assert (i64_wrap (wall / 1000000000 + sg_ttl sg + EXP_LEEWAY_SECS)
          = wall / 1000000000 + sg_ttl sg + EXP_LEEWAY_SECS)%Z as ->; [|done].
  unfold i64_wrap, I64_MIN, I64_MAX, EXP_LEEWAY_SECS in *. rewrite Z.mod_small; lia.
Qed.

(** ** On concrete requests *)

Module AccessDemo.
(** A text per token: [bob] is person 2 in organisation 10, expiring at second 1000. *)
Definition bob_claims : JwtClaims := mkClaims 2 (Some 10%N) 0 1000.
#[local] Instance codec : JwtCodec := {|
  jwt_encode _ _ := Ok (lit "bob");
  jwt_decode _ t := if bool_decide (t = lit "bob") then Ok bob_claims else Err (lit "InvalidSignature") |}.
#[local] Instance text : HeaderText := λ bs, if forallb (λ b, (32 <=? b)%N && (b <? 127)%N) bs then Some bs else None.
#[local] Instance origins : UrlOrigins := λ s,
  if bool_decide (s = lit "null") then Some Opaque
  else if starts_with (lit "https://app.test") s then Some (Tuple (lit "https://app.test"))
  else if starts_with (lit "https://evil.test") s then Some (Tuple (lit "https://evil.test"))
  else None.

Definition tables (role : option OrgRole) : orgs :=
  mkOrgs [] [] [] (match role with Some r => [mkOrgMember 10 2 r 0] | None => [] end) [] [].
Definition sec (n : Z) : Z := n * 1000000000.
Definition start (now : Z) (role : option OrgRole) (c : MembershipCache) : run_state access acall :=
  mkRun (mkAccess now (tables role) c []) [].
Definition empty_cache : MembershipCache := mkMemberCache ∅ MEMBERSHIP_CAP MEMBERSHIP_TTL.
Definition site : Site := mkSite (lit "https://app.test/mcp-oauth/callback") None [].
Definition env (net : Net access) : AccessEnv := mkAccessEnv net (mkSigner [] JWT_TTL) (sec 500) site.
Definition post (origin : option (list N)) : Request :=
  mkRequest (OtherMethod (lit "POST")) (Some (lit "bob")) (Some (lit "tok")) (Some (lit "tok")) origin None.
Definition asks (net : Net access) (rq : Request) (s : run_state access acall) : option OrgRole * MembershipCache :=
  let out := private_request (env net) rq s in (pr_role <$> res_ok out.1, ac_cache (run_tables out.2)).

(** The clock and the membership change while the role travels from the tables to the
    cache. *)
Definition slow (n : nat) (w : access) : access :=
  if n =? 2
  then mkAccess (Z.max (ac_now w) (sec 100)) (tables None) (ac_cache w)
         ((ac_now w, tables None) :: (ac_now w, ac_tables w) :: ac_past w)
  else w.
#[local] Instance slow_follows : Follows astep (mkNet slow (λ _, None)).
Proof.
  intros n w. cbn. unfold slow. destruct (n =? 2); [|apply rtc_refl].
  eapply rtc_l; [apply (STables w (tables None))|]. eapply rtc_l; [|apply rtc_refl].
  apply (SClock (mkAccess _ _ _ _)). cbn. lia.
Qed.

(** A member is let in; one who was removed is let in for thirty seconds more, and one
    who was promoted keeps the old role, whatever session they come with. *)
Example removed_member_stays :
  let c := (asks calm (post None) (start (sec 1) (Some Owner) empty_cache)).2 in
  (asks calm (post None) (start (sec 30) None c)).1 = Some Owner
  ∧ (asks calm (post None) (start (sec 30) (Some Admin) c)).1 = Some Owner
  ∧ (asks calm (post None) (start (sec 31) None c)).1 = None.
Proof. vm_compute. done. Qed.

(** Thirty seconds from the insertion, not from the read: a role read at second 0 and
    inserted at second 100 is served at second 129. *)
Example role_outlives_its_read :
  let c := (asks (mkNet slow (λ _, None)) (post None) (start 0 (Some Owner) empty_cache)).2 in
  (asks calm (post None) (start (sec 129) None c)).1 = Some Owner.
Proof. vm_compute. done. Qed.

(** An origin of another site is refused, but not one that is too long to be read, nor
    one with bytes that are not text. *)
Definition asks_from (o : list N) : option OrgRole :=
  (asks calm (post (Some o)) (start 0 (Some Owner) empty_cache)).1.
Example unreadable_origins_pass :
  asks_from (lit "https://evil.test") = None ∧ asks_from (lit "null") = None
  ∧ asks_from (lit "https://app.test") = Some Owner
  ∧ asks_from (lit "https://evil.test/" ++ repeat 97%N 2048) = Some Owner
  ∧ asks_from (lit "https://evil.test/" ++ [200%N]) = Some Owner.
Proof. vm_compute. done. Qed.

Lemma private_request_checked_witness :
  access_ok (run_tables (start 0 (Some Owner) empty_cache))
  ∧ let out := private_request (env (mkNet slow (λ _, None))) (post (Some (lit "https://app.test")))
                 (start 0 (Some Owner) empty_cache) in
    out.1 = Ok (mkPrincipal 2 10 Owner)
    ∧ recent_role (run_tables (start 0 (Some Owner) empty_cache)) (run_tables out.2) 2 10 Owner.
Proof.
  assert (Hok : access_ok (run_tables (start 0 (Some Owner) empty_cache))).
  { split; cbn; [unfold MEMBERSHIP_CAP; lia|apply Nat.le_0_l|done|constructor|]. intros u o e. by rewrite lookup_empty. }
  split; [exact Hok|]. cbn zeta.
  assert (Hr : (private_request (env (mkNet slow (λ _, None))) (post (Some (lit "https://app.test")))
                 (start 0 (Some Owner) empty_cache)).1 = Ok (mkPrincipal 2 10 Owner)) by (vm_compute; reflexivity).
  split; [exact Hr|].
  exact (proj1 (proj2 (private_request_checked _ _ _ _ Hok Hr))).
Defined.
End AccessDemo.
