(* ===== verification/ChatText.v ===== *)
(** * The texts exchanged with the chat platforms

    [discord/mention.rs], [lark/mention.rs], [slack/mention.rs], the cutting of long
    messages ([discord/poster.rs], [lark/poster.rs], [slack/stream_pump.rs],
    [mcp/wire_connect.rs]) and the titles of Discord threads ([discord/bridge.rs]).
    Which characters are letters or digits is the standard library's Unicode table, a
    parameter ([CharClass]). *)

From Stdlib Require Import ZArith Lia Ascii String.
From stdpp Require Import base list strings.
From S2P Require Import Prelude Types Responses.

(** [char::is_alphanumeric] *)
Class CharClass := is_alphanumeric : N → bool.

(** ** What the standard library does to texts *)

(** [str::replace]: the matches from the left, without overlap; an empty pattern
    matches between all characters. *)
Fixpoint replace_go (p r : str) (skip : nat) (s : str) : str :=
  match s with
  | [] => []
  | c :: s' =>
      match skip with
      | S k => replace_go p r k s'
      | O => if starts_with p s then r ++ replace_go p r (length p - 1) s' else c :: replace_go p r 0 s'
      end
  end.
Definition str_replace (p r s : str) : str :=
  match p with [] => r ++ mjoin ((λ c, c :: r) <$> s) | _ => replace_go p r 0 s end.

(** [split_whitespace] *)
Fixpoint words (cur s : str) : list str :=
  match s with
  | [] => if is_empty cur then [] else [cur]
  | c :: s' =>
      if is_whitespace c then (if is_empty cur then words [] s' else cur :: words [] s')
      else words (cur ++ [c]) s'
  end.
Definition split_whitespace (s : str) : list str := words [] s.
(** [join(" ")] *)
Fixpoint unwords (ws : list str) : str :=
  match ws with [] => [] | [w] => w | w :: ws' => w ++ 0x20%N :: unwords ws' end.

(** [rfind] of a character: its last position. *)
Fixpoint rfind_char (c : N) (s : str) : option nat :=
  match s with
  | [] => None
  | x :: s' => match rfind_char c s' with
               | Some k => Some (S k)
               | None => if (x =? c)%N then Some 0 else None
               end
  end.
(** [trim_start_matches] of a character. *)
Fixpoint trim_start_char (c : N) (s : str) : str :=
  match s with x :: s' => if (x =? c)%N then trim_start_char c s' else s | [] => [] end.

(** ** Cutting *)

Definition ellipsis : N := 0x2026.
Definition truncate_with_ellipsis (s : str) (max_chars : nat) : str :=
  if max_chars =? 0 then [] else if chars_count s <=? max_chars then s else take (max_chars - 1) s ++ [ellipsis].
Definition clip_chars (text : str) (max_chars : nat) : str := take max_chars text.

Definition newline : N := 0xa.
Definition DISCORD_MESSAGE_MAX : nat := 2000.

(** One turn of the loop: where the window is cut. *)
Definition chunk_split (max : nat) (rest : str) : nat :=
  match rfind_char newline (take max rest) with
  | Some p => if 0 <? p then p else max
  | None => max
  end.
Fixpoint chunks_from (fuel max : nat) (rest : str) : list str :=
  match fuel with
  | O => []
  | S fuel =>
      if max <? chars_count rest
      then let split := chunk_split max rest in
           take split rest :: chunks_from fuel max (trim_start_char newline (drop split rest))
      else if is_empty rest then [] else [rest]
  end.
(** Every turn takes a character at least. *)
Definition chunk_content {E} (content : str) (max : nat) : res E (list str) :=
  rassert (0 <? max) "chunk size must be positive" ;;?
  Ok (if is_empty content then [[]] else chunks_from (S (length content)) max content).

(** ** The connect message *)

Definition dash : N := 0x2014.
Definition plug : N := 0x1F50C.
Definition render_connect_message (display_name reason : str) (auth_kind : McpAuthKind) (url : option str)
    (reason_max_chars : nat) : str :=
  let reason := truncate_with_ellipsis reason reason_max_chars in
  let lead := plug :: lit " " ++ display_name ++ lit " " ++ dash :: lit " " ++ reason in
  let tail := match auth_kind, url with
              | OAuth2, Some u => lit "Open Patom to connect: " ++ u
              | _, _ => lit "Finish wiring " ++ display_name ++ lit " in the Patom web UI."
              end in
  lead ++ newline :: tail.

(** ** Mentions *)

Definition at_sign : N := 0x40.

Section mentions.
Context `{CharClass}.

Definition is_name_char (c : N) : bool := is_alphanumeric c || (c =? 0x2d)%N || (c =? 0x5f)%N.
Definition boundary_after (s : str) : bool := match s with [] => true | c :: _ => negb (is_name_char c) end.

(** The test of the handles: the name, then a boundary. *)
Definition names_at (name after : str) : bool := starts_with name after && boundary_after (drop (length name) after).

Section rewrite.
Context {T : Type} (name_of render : T → str) (sorted : list T).

(** The loop over the characters of a reply; [skip] counts those of a name just
    replaced. *)
Fixpoint rewrite_mentions (skip : nat) (prev_is_boundary : bool) (rest : str) : str * list T :=
  match rest with
  | [] => ([], [])
  | ch :: after =>
      match skip with
      | S k => rewrite_mentions k prev_is_boundary after
      | O =>
          let plain := let '(out, hs) := rewrite_mentions 0 (is_whitespace ch) after in (ch :: out, hs) in
          if (ch =? at_sign)%N && prev_is_boundary
          then match List.find (λ h, names_at (name_of h) after) sorted with
               | Some h =>
                   let '(out, hs) := rewrite_mentions (length (name_of h)) false after in
                   (render h ++ out, h :: hs)
               | None => plain
               end
          else plain
      end
  end.
End rewrite.

(** Longest name first, by bytes; handles without a name are left out. *)
Definition longest_first {A} (handles : list (str * A)) : list (str * A) :=
  sort_by (λ h, - Z.of_nat (str_len h.1))%Z (List.filter (λ h, negb (is_empty h.1)) handles).

Fixpoint already_named (needle : str) (skip : nat) (prev_is_boundary : bool) (text : str) : bool :=
  match text with
  | [] => false
  | c :: text' =>
      match skip with
      | S k => already_named needle k (is_whitespace c) text'
      | O =>
          if starts_with needle text
          then (prev_is_boundary && boundary_after (drop (length needle) text))
               || already_named needle (length needle - 1) (is_whitespace c) text'
          else already_named needle 0 (is_whitespace c) text'
      end
  end.
Definition already_names (text name : str) : bool := already_named (at_sign :: name) 0 true text.

(** *** Discord *)

Definition DiscordUserId : Type := str.

Definition discord_render_mention (id : DiscordUserId) : str := lit "<@" ++ id ++ lit ">".

Definition discord_render_inbound (content : str) (mentions : list (DiscordUserId * str)) : str :=
  if is_empty mentions || negb (contains_str (lit "<@") content) then content
  else foldl (λ out m,
         let readable := at_sign :: m.2 in
         let out := str_replace (lit "<@" ++ m.1 ++ lit ">") readable out in
         str_replace (lit "<@!" ++ m.1 ++ lit ">") readable out) content mentions.

(** The ids pinged, each once, in the order of their first mention. *)
Definition ping_list (hs : list (str * DiscordUserId)) : list DiscordUserId :=
  foldl (λ pinged h, if existsb (λ i, bool_decide (i = h.2)) pinged then pinged else pinged ++ [h.2]) [] hs.

Definition discord_render_outbound (content : str) (handles : list (str * DiscordUserId)) : str * list DiscordUserId :=
  if is_empty handles then (content, [])
  else let '(out, hs) := rewrite_mentions fst (λ h, discord_render_mention h.2) (longest_first handles) 0 true content in
       (out, ping_list hs).

Definition DISCORD_THREAD_NAME_MAX : nat := 100.

(** [strip_leading_mentions] *)
Fixpoint skip_mentions (toks : list str) : list str :=
  match toks with
  | tok :: toks' => if starts_with [at_sign] tok || starts_with (lit "<@") tok then skip_mentions toks' else toks
  | [] => []
  end.
Definition strip_leading_mentions (s : str) : str := unwords (skip_mentions (split_whitespace s)).

Definition thread_name {E} (content : str) (mentions : list (DiscordUserId * str)) : res E str :=
  let rendered := discord_render_inbound content mentions in
  let truncated := take DISCORD_THREAD_NAME_MAX (strip_leading_mentions rendered) in
  let name := if is_empty truncated then lit "conversation" else truncated in
  rassert (negb (is_empty name)) "invariant: thread name is non-empty" ;;?
  rassert (chars_count name <=? DISCORD_THREAD_NAME_MAX) "invariant: thread name within the Discord cap" ;;?
  Ok name.

(** *** Lark *)

Record AtToken := mkAt { at_key : str; at_open_id : option str; at_name : str }.

Definition lark_mentions_bot (tokens : list AtToken) (bot_open_id : str) : bool :=
  existsb (λ t, bool_decide (at_open_id t = Some bot_open_id)) tokens.

Definition collapse_whitespace (s : str) : str := unwords (split_whitespace s).

Definition strip_bot_mentions (text : str) (tokens : list AtToken) (bot_open_id : str) : str :=
  collapse_whitespace (foldl (λ out t,
    if bool_decide (at_open_id t = Some bot_open_id) then str_replace (at_key t) [] out else out) text tokens).

Definition lark_render_inbound (text : str) (tokens : list AtToken) (bot_open_id : str) : str :=
  collapse_whitespace (foldl (λ out t,
    let replacement := if bool_decide (at_open_id t = Some bot_open_id) || is_empty (at_name t) then []
                       else at_sign :: at_name t in
    str_replace (at_key t) replacement out) text tokens).

Definition quote : N := 0x22.
Definition render_at (open_id name : str) : str :=
  lit "<at user_id=" ++ quote :: open_id ++ quote :: lit ">" ++ name ++ lit "</at>".

Definition render_ats (content : str) (handles : list (str * str)) : str :=
  if is_empty handles then content
  else (rewrite_mentions fst (λ h, render_at h.2 h.1) (longest_first handles) 0 true content).1.

(** *** Slack *)

Record MentionParse := mkMention { mp_agent_name : option str; mp_stripped : str }.

(** [splitn(2, char::is_whitespace)] *)
Fixpoint first_token (s : str) : str * str :=
  match s with
  | [] => ([], [])
  | c :: s' => if is_whitespace c then ([], s') else let '(a, b) := first_token s' in (c :: a, b)
  end.

Definition slack_parse (text bot : str) : MentionParse :=
  let bot_mention := lit "<@" ++ bot ++ lit ">" in
  let after_bot := match find_str bot_mention text with
                   | Some idx => drop (idx + length bot_mention) text
                   | None => text
                   end in
  let trimmed := trim after_bot in
  if is_empty trimmed then mkMention None []
  else
    let '(first, rest) := first_token trimmed in
    let rest := trim rest in
    match first with
    | c :: candidate =>
        if negb (c =? at_sign)%N then mkMention None trimmed
        else if is_empty candidate then mkMention None rest
        else if negb (forallb is_name_char candidate) then mkMention None trimmed
        else mkMention (Some candidate) rest
    | [] => mkMention None trimmed
    end.
End mentions.
