(* ===== verification/ChatTextLaws.v ===== *)
(** * What the texts of the chat platforms keep

    A reply is rewritten along the one reading of it that takes the longest name at
    each mention; what Discord is asked to ping is what was rewritten; reading the
    rewritten text back gives the reply.  Cutting a message loses nothing but newlines
    between its parts. *)

From Stdlib Require Import ZArith Lia Ascii String Sorted.
From stdpp Require Import base list strings sets sorting.
From S2P Require Import Prelude Types Responses ChatText.

(** ** Readings of a reply *)

Inductive piece (T : Type) := Plain (c : N) | Named (h : T).
Arguments Plain {T} _.
Arguments Named {T} _.

Section readings.
Context `{CharClass} {T : Type} (name_of render : T → str).

Definition source (p : piece T) : str := match p with Plain c => [c] | Named h => at_sign :: name_of h end.
Definition rendered (p : piece T) : str := match p with Plain c => [c] | Named h => render h end.
Definition named (ps : list (piece T)) : list T := omap (λ p, match p with Plain _ => None | Named h => Some h end) ps.

(** [parsed handles b s ps]: [ps] reads [s], which starts at a boundary if [b] says so:
    a mention is an [@] at a boundary with the longest name that fits, everything else
    is plain. *)
Inductive parsed (handles : list T) : bool → str → list (piece T) → Prop :=
| parsed_nil b : parsed handles b [] []
| parsed_named h after ps :
    h ∈ handles → boundary_after after = true →
    (∀ h', h' ∈ handles → names_at (name_of h') (name_of h ++ after) = true →
       str_len (name_of h') ≤ str_len (name_of h)) →
    parsed handles false after ps →
    parsed handles true (at_sign :: name_of h ++ after) (Named h :: ps)
| parsed_plain b c after ps :
    (b = true → c = at_sign → ∀ h, h ∈ handles → names_at (name_of h) after = false) →
    parsed handles (is_whitespace c) after ps →
    parsed handles b (c :: after) (Plain c :: ps).

Lemma parsed_source handles b s ps : parsed handles b s ps → s = mjoin (source <$> ps).
Proof. induction 1; cbn; [done|f_equal; by f_equal|by f_equal]. Qed.

Lemma names_at_app name s : names_at name s = true ↔ ∃ after, s = name ++ after ∧ boundary_after after = true.
Proof.
  unfold names_at. rewrite andb_true_iff, starts_with_spec. split.
  - intros [[t ->] Hb]. rewrite drop_app_length in Hb. eauto.
  - intros (t & -> & Hb). rewrite drop_app_length. eauto.
Qed.

Lemma rewrite_skip hs n b rest :
  rewrite_mentions name_of render hs (length n) b (n ++ rest) = rewrite_mentions name_of render hs 0 b rest.
Proof. induction n as [|c n IH]; [done|exact IH]. Qed.

(** The first that fits, in a list sorted by length, is a longest one that fits. *)
Lemma find_longest (f : T → bool) (hs : list T) h :
  StronglySorted (λ x y, (- Z.of_nat (str_len (name_of x)) ≤ - Z.of_nat (str_len (name_of y)))%Z) hs →
  List.find f hs = Some h → ∀ h', h' ∈ hs → f h' = true → str_len (name_of h') ≤ str_len (name_of h).
Proof.
  induction 1 as [|x hs Hs IH Hx]; [done|]. cbn. destruct (f x) eqn:Ef.
  - intros [= <-] h' [->|Hin]%elem_of_cons _; [done|].
    rewrite Forall_forall in Hx. specialize (Hx _ Hin). lia.
  - intros Hf h' [->|Hin]%elem_of_cons Hh'; [congruence|]. by apply IH.
Qed.

Lemma rewrite_reads (hs : list T) b s :
  StronglySorted (λ x y, (- Z.of_nat (str_len (name_of x)) ≤ - Z.of_nat (str_len (name_of y)))%Z) hs →
  ∃ ps, parsed hs b s ps ∧ rewrite_mentions name_of render hs 0 b s = (mjoin (rendered <$> ps), named ps).
Proof.
  intros Hs. remember (length s) as n eqn:En. revert s b En.
  induction (lt_wf n) as [n _ IH]; intros s b ->. destruct s as [|c s]; [exists []; by split; [constructor|]|].
  assert (Hplain : ((c =? at_sign)%N && b = true → List.find (λ h, names_at (name_of h) s) hs = None) →
    ∃ ps, parsed hs b (c :: s) ps ∧
      (let '(out, l) := rewrite_mentions name_of render hs 0 (is_whitespace c) s in (c :: out, l))
      = (mjoin (rendered <$> ps), named ps)).
  { intros Hnone. destruct (IH (length s) ltac:(cbn; lia) s (is_whitespace c) eq_refl) as (ps & Hp & ->).
    exists (Plain c :: ps). split; [|done]. constructor; [|done].
    intros -> -> h Hin. specialize (Hnone eq_refl). rewrite find_None_iff in Hnone. by apply Hnone. }
  cbn [rewrite_mentions]. destruct ((c =? at_sign)%N && b) eqn:Eb; [|by apply Hplain].
  destruct (List.find _ hs) as [h|] eqn:Ef; [|by apply Hplain].
  pose proof (find_longest _ _ _ Hs Ef) as Hl. apply find_Some_iff in Ef as [Hin Hn].
  apply names_at_app in Hn as (after & -> & Hba). apply andb_true_iff in Eb as [->%N.eqb_eq ->].
  rewrite rewrite_skip. destruct (IH (length after)) with (s := after) (b := false) as (ps & Hp & ->);
    [cbn; rewrite length_app; lia|done|].
  exists (Named h :: ps). split; [|done]. by constructor.
Qed.
End readings.

Lemma longest_first_sorted {A} (handles : list (str * A)) :
  StronglySorted (λ x y, (- Z.of_nat (str_len x.1) ≤ - Z.of_nat (str_len y.1))%Z) (longest_first handles).
Proof. apply (sort_by_sorted (λ h : str * A, (- Z.of_nat (str_len h.1))%Z)). Qed.
Lemma elem_of_longest_first {A} (handles : list (str * A)) h :
  h ∈ longest_first handles ↔ h ∈ handles ∧ h.1 ≠ [].
Proof.
  unfold longest_first. rewrite elem_of_sort_by, list_elem_of_In, filter_In, <- list_elem_of_In.
  by rewrite negb_true_iff, is_empty_false.
Qed.

Lemma ping_list_spec (hs : list (str * DiscordUserId)) :
  NoDup (ping_list hs) ∧ ∀ id, id ∈ ping_list hs ↔ id ∈ hs.*2.
Proof.
  unfold ping_list.
  assert (∀ l : list DiscordUserId, NoDup l →
    let r := foldl (λ pinged h, if existsb (λ i, bool_decide (i = h.2)) pinged then pinged else pinged ++ [h.2]) l hs in
    NoDup r ∧ ∀ id, id ∈ r ↔ id ∈ l ∨ id ∈ hs.*2) as Hg.
  { induction hs as [|h hs IH]; intros l Hl; cbn [foldl fmap list_fmap]; [set_solver|].
    destruct (existsb _ l) eqn:Ee.
    - apply existsb_exists in Ee as (i & Hi%list_elem_of_In & ->%bool_decide_eq_true_1).
      destruct (IH l Hl) as [Hn He]. split; [done|]. intros id. rewrite He. set_solver.
    - assert (Hni : h.2 ∉ l).
      { intros Hin. assert (existsb (λ i, bool_decide (i = h.2)) l = true); [|congruence].
        apply existsb_exists. exists h.2. rewrite <- list_elem_of_In, bool_decide_eq_true. done. }
      destruct (IH (l ++ [h.2])) as [Hn He]; [apply NoDup_app; split_and!; [done|set_solver|apply NoDup_singleton]|].
      split; [done|]. intros id. rewrite He. set_solver. }
  destruct (Hg [] (NoDup_nil_2)) as [Hn He]. split; [done|]. intros id. rewrite He. set_solver.
Qed.

Lemma parsed_ext `{CharClass} {T} (name_of : T → str) (hs hs' : list T) b s ps :
  (∀ h, h ∈ hs ↔ h ∈ hs') → parsed name_of hs b s ps → parsed name_of hs' b s ps.
Proof.
  intros Hext. induction 1; [constructor|..].
  - constructor; [by apply Hext|done| |done]. intros h' ?%Hext. auto.
  - constructor; [|done]. intros ?? h' ?%Hext. auto.
Qed.
Lemma rewrite_nobody `{CharClass} {T} (name_of render : T → str) b s :
  rewrite_mentions name_of render [] 0 b s = (s, []).
Proof. revert b. induction s as [|c s IH]; intros b; [done|]. cbn. rewrite IH. by destruct (_ && _). Qed.

(** C36: a reply to Discord is rewritten along a reading of it in which every mention is
    an [@] at a word boundary followed by the longest name of a handle that fits and by
    another boundary, and everything else is left as it was; the ids it asks Discord to
    ping are those of the mentions, each once. *)
Theorem outbound_pings_mentions `{CharClass} (content : str) (handles : list (str * DiscordUserId)) :
  let '(out, pinged) := discord_render_outbound content handles in
  ∃ ps, parsed fst (List.filter (λ h, negb (is_empty h.1)) handles) true content ps
    ∧ out = mjoin (rendered (λ h, discord_render_mention h.2) <$> ps)
    ∧ NoDup pinged ∧ ∀ id, id ∈ pinged ↔ id ∈ (named ps).*2.
Proof.
  pose proof (rewrite_reads fst (λ h, discord_render_mention h.2) (longest_first handles) true content (longest_first_sorted _))
    as (ps & Hp & Hr).
  apply (parsed_ext _ _ (List.filter (λ h, negb (is_empty h.1)) handles)) in Hp;
    [|intros h; unfold longest_first; by rewrite elem_of_sort_by].
  pose proof (ping_list_spec (named ps)) as [Hnd Hel].
  unfold discord_render_outbound. destruct (is_empty handles) eqn:Ee.
  - apply is_empty_true in Ee as ->. cbn in Hr. rewrite rewrite_nobody in Hr. injection Hr as Hr Hn.
    exists ps. rewrite <- Hn. split_and!; [done|done|constructor|set_solver].
  - rewrite Hr. by exists ps.
Qed.

(** ** Reading a rewritten reply back *)

Definition less_than : N := 0x3c.
Definition digits (id : str) : Prop := id ≠ [] ∧ Forall (λ c, (0x30 ≤ c ≤ 0x39)%N) id.
Definition free_of (c : N) (s : str) : Prop := Forall (λ x, x ≠ c) s.

Lemma replace_skip p r n s : replace_go p r (length n) (n ++ s) = replace_go p r 0 s.
Proof. induction n as [|c n IH]; [done|exact IH]. Qed.
(** Before the first character of the pattern nothing is replaced. *)
Lemma replace_free c p r a s : free_of c a → replace_go (c :: p) r 0 (a ++ s) = a ++ replace_go (c :: p) r 0 s.
Proof.
  induction 1 as [|x a Hx _ IH]; [done|]. cbn [app replace_go].
  destruct (starts_with (c :: p) (x :: a ++ s)) eqn:E; [|by rewrite IH].
  apply starts_with_spec in E as (t & [= <- _]). done.
Qed.
Lemma replace_here c p r s : replace_go (c :: p) r 0 ((c :: p) ++ s) = r ++ replace_go (c :: p) r 0 s.
Proof.
  change ((c :: p) ++ s) with (c :: p ++ s). cbn [replace_go].
  rewrite (proj2 (starts_with_spec (c :: p) (c :: p ++ s))) by (by exists s).
  replace (length (c :: p) - 1) with (length p) by (cbn; lia). by rewrite replace_skip.
Qed.
Lemma replace_elsewhere c p r q s : starts_with (c :: p) ((c :: q) ++ s) = false → free_of c q →
  replace_go (c :: p) r 0 ((c :: q) ++ s) = (c :: q) ++ replace_go (c :: p) r 0 s.
Proof.
  intros Hs Hq. change ((c :: q) ++ s) with (c :: q ++ s) in *. cbn [replace_go]. rewrite Hs.
  rewrite (replace_free c p r q s Hq). done.
Qed.

Lemma digits_prefix a b (s t : str) : digits a → digits b → a ++ 0x3e%N :: s = b ++ 0x3e%N :: t → a = b.
Proof.
  intros [_ Ha] [_ Hb] He. revert b Hb He.
  induction Ha as [|x a Hx _ IH]; intros [|y b] Hb He; [done|..]; cbn in He; injection He as Hc He.
  - apply Forall_cons_1 in Hb as [Hy _]. lia.
  - lia.
  - apply Forall_cons_1 in Hb as [_ Hb]. rewrite Hc. f_equal. by apply IH.
Qed.

Section round_trip.
Context `{CharClass}.

Lemma pieces_cons {A} (f : A → str) p ps : mjoin (f <$> p :: ps) = f p ++ mjoin (f <$> ps).
Proof. done. Qed.

(** The markers of the ids already read back are names again. *)
Definition partly_read (done_ : list DiscordUserId) (p : piece (str * DiscordUserId)) : str :=
  match p with
  | Plain c => [c]
  | Named h => if bool_decide (h.2 ∈ done_) then at_sign :: h.1 else discord_render_mention h.2
  end.
#[local] Arguments partly_read _ !_ /.
Definition readable_handle (h : str * DiscordUserId) : Prop := digits h.2 ∧ free_of less_than h.1.
Definition readable_piece (p : piece (str * DiscordUserId)) : Prop :=
  match p with Plain c => c ≠ less_than | Named h => readable_handle h end.

Lemma marker_cons id : discord_render_mention id = less_than :: (at_sign :: id ++ [0x3e%N]).
Proof. done. Qed.
Lemma marker_tail_free id : digits id → free_of less_than (at_sign :: id ++ [0x3e%N]).
Proof.
  intros [_ Hd]. constructor; [done|]. apply Forall_app. split; [|by constructor].
  eapply Forall_impl; [exact Hd|]. unfold less_than. cbn. lia.
Qed.

(** A marker is replaced in the pieces that carry its id, the other form nowhere. *)
Lemma replace_marker id name done_ ps : digits id → free_of less_than name → Forall readable_piece ps →
  (∀ h, Named h ∈ ps → h.2 = id → h.1 = name) →
  replace_go (discord_render_mention id) (at_sign :: name) 0 (mjoin (partly_read done_ <$> ps))
  = mjoin (partly_read (id :: done_) <$> ps).
Proof.
  intros Hid Hn Hps Hname. rewrite marker_cons. induction Hps as [|p ps Hp Hps IH]; [done|].
  rewrite !pieces_cons. specialize (IH ltac:(intros h Hh; apply Hname; by right)).
  destruct p as [c|h]; cbn [partly_read].
  - rewrite (replace_free less_than _ _ [c]); [by rewrite IH|by constructor].
  - destruct Hp as [Hd Hf]. case_bool_decide as H1; [rewrite bool_decide_true by set_solver|].
    + rewrite replace_free; [by rewrite IH|]. constructor; done.
    + rewrite marker_cons. destruct (decide (h.2 = id)) as [He|He].
      * rewrite bool_decide_true by set_solver. rewrite He, replace_here, IH. do 2 f_equal. symmetry. by apply Hname; [left|].
      * rewrite bool_decide_false by set_solver. rewrite replace_elsewhere; [by rewrite IH| |by apply marker_tail_free].
        destruct (starts_with _ _) eqn:E; [|done]. apply starts_with_spec in E as (t & E). exfalso. apply He.
        cbn in E. injection E as E. rewrite <- !app_assoc in E. by apply (digits_prefix _ _ _ _ Hd Hid E).
Qed.
Lemma replace_nickname id r done_ ps : Forall readable_piece ps →
  replace_go (lit "<@!" ++ id ++ lit ">") r 0 (mjoin (partly_read done_ <$> ps)) = mjoin (partly_read done_ <$> ps).
Proof.
  intros Hps. change (lit "<@!" ++ id ++ lit ">") with (less_than :: (at_sign :: 0x21%N :: id ++ lit ">")).
  induction Hps as [|p ps Hp Hps IH]; [done|]. rewrite pieces_cons. destruct p as [c|h]; cbn [partly_read].
  - rewrite (replace_free less_than _ _ [c]); [by rewrite IH|by constructor].
  - destruct Hp as [Hd Hf]. case_bool_decide.
    + rewrite replace_free; [by rewrite IH|]. constructor; done.
    + rewrite marker_cons, replace_elsewhere; [by rewrite IH| |by apply marker_tail_free].
      destruct (starts_with _ _) eqn:E; [|done]. apply starts_with_spec in E as (t & E). exfalso.
      destruct Hd as [Hne Hall]. destruct (h.2) as [|x l] eqn:E2; [done|]. cbn in E. injection E as E _.
      apply Forall_cons_1 in Hall as [Hx _]. lia.
Qed.

Lemma replaces_read ms done_ ps : Forall readable_piece ps →
  Forall (λ m, digits m.1 ∧ free_of less_than m.2 ∧ ∀ h, Named h ∈ ps → h.2 = m.1 → h.1 = m.2) ms →
  foldl (λ out m, str_replace (lit "<@!" ++ m.1 ++ lit ">") (at_sign :: m.2)
                    (str_replace (lit "<@" ++ m.1 ++ lit ">") (at_sign :: m.2) out))
    (mjoin (partly_read done_ <$> ps)) ms
  = mjoin (partly_read (reverse ms.*1 ++ done_) <$> ps).
Proof.
  intros Hps Hms. revert done_. induction Hms as [|m ms (Hd & Hf & Hn) _ IH]; intros done_; [done|].
  cbn [foldl fmap list_fmap]. rewrite reverse_cons, <- app_assoc. cbn [app]. rewrite <- IH. f_equal.
  change (str_replace (lit "<@" ++ m.1 ++ lit ">")) with (λ r, replace_go (discord_render_mention m.1) r 0).
  change (str_replace (lit "<@!" ++ m.1 ++ lit ">")) with (λ r, replace_go (lit "<@!" ++ m.1 ++ lit ">") r 0).
  cbn beta. by rewrite replace_marker, replace_nickname.
Qed.

Lemma replace_absent q t r s : contains_str q s = false → replace_go (q ++ t) r 0 s = s.
Proof.
  induction s as [|c s IH]; [done|]. cbn [contains_str]. intros [Hq Hs]%orb_false_iff. cbn [replace_go].
  destruct (starts_with (q ++ t) (c :: s)) eqn:E; [|by rewrite IH].
  apply starts_with_spec in E as (u & E). rewrite (proj2 (starts_with_spec q _)) in Hq; [done|].
  exists (t ++ u). by rewrite E, <- app_assoc.
Qed.

(** Leaving the text alone when it has no marker, or no name is given, is only a
    shortcut. *)
Lemma render_inbound_replaces content ms : discord_render_inbound content ms =
  foldl (λ out m, str_replace (lit "<@!" ++ m.1 ++ lit ">") (at_sign :: m.2)
                    (str_replace (lit "<@" ++ m.1 ++ lit ">") (at_sign :: m.2) out)) content ms.
Proof.
  unfold discord_render_inbound. destruct (is_empty ms) eqn:Em; [by apply is_empty_true in Em as ->|].
  destruct (contains_str _ content) eqn:Ec; [done|]. cbn [negb orb]. clear Em. symmetry.
  induction ms as [|m ms IH]; [done|]. cbn [foldl]. rewrite <- IH at 2. f_equal.
  change (lit "<@!" ++ m.1 ++ lit ">") with (lit "<@" ++ (0x21%N :: m.1 ++ lit ">")).
  change (str_replace (lit "<@" ++ ?x)) with (λ r, replace_go (lit "<@" ++ x) r 0). cbn beta.
  by rewrite !replace_absent by (by rewrite ?replace_absent).
Qed.
End round_trip.

(** C37: a reply to Discord that has no [<] in it is read back, from the rewritten text and
    the names of the pinged people, as it was written: the agent sees in the channel the
    names it wrote. *)
Theorem outbound_then_inbound `{CharClass} (content : str) (handles : list (str * DiscordUserId))
    (mentions : list (DiscordUserId * str)) :
  free_of less_than content → Forall readable_handle handles → NoDup handles.*2 →
  Forall (λ m, (m.2, m.1) ∈ handles) mentions →
  (∀ id, id ∈ (discord_render_outbound content handles).2 → id ∈ mentions.*1) →
  discord_render_inbound (discord_render_outbound content handles).1 mentions = content.
Proof.
  intros Hc Hh Hnd Hms Hall. pose proof (outbound_pings_mentions content handles) as Hout.
  destruct (discord_render_outbound content handles) as [out pinged]. destruct Hout as (ps & Hp & -> & _ & Hpi). cbn [fst snd] in *.
  assert (Hin : ∀ h, Named h ∈ ps → h ∈ handles).
  { clear -Hp. induction Hp as [b|h after ps Hi _ _ _ IH|b c after ps _ _ IH]; intros h' Hn;
      [by apply elem_of_nil in Hn|apply elem_of_cons in Hn as [[= ->]|Hn]..]; [|by apply IH..].
    apply list_elem_of_In, filter_In in Hi as [Hi _]. by apply list_elem_of_In. }
  pose proof (parsed_source _ _ _ _ _ Hp) as Hs.
  assert (Hr : Forall readable_piece ps).
  { apply Forall_forall. intros [c|h] Hx; cbn.
    - unfold free_of in Hc. rewrite Forall_forall in Hc. apply Hc. rewrite Hs. apply list_elem_of_join.
      exists [c]. split; [by left|]. apply list_elem_of_fmap. by exists (Plain c).
    - rewrite Forall_forall in Hh. auto. }
  assert (Hname : ∀ h h', h ∈ handles → h' ∈ handles → h.2 = h'.2 → h = h') by (intros; by eapply NoDup_fmap_eq).
  rewrite render_inbound_replaces.
  change (mjoin (rendered (λ h, discord_render_mention h.2) <$> ps)) with (mjoin (partly_read [] <$> ps)).
  rewrite replaces_read; [|done|].
  - rewrite Hs. f_equal. apply list_fmap_ext. intros i [c|h] Hx%list_elem_of_lookup_2; [done|]. cbn.
    rewrite bool_decide_true; [done|]. rewrite elem_of_app, elem_of_reverse. left. apply Hall, Hpi.
    apply list_elem_of_fmap. exists h. split; [done|]. apply list_elem_of_omap. by exists (Named h).
  - eapply Forall_impl; [exact Hms|]. intros [id name] Hm. cbn in *.
    rewrite Forall_forall in Hh. destruct (Hh _ Hm) as [Hd Hf]. split_and!; [done..|].
    intros h Hx He. by rewrite (Hname h (name, id)) by auto.
Qed.

(** ** Long messages *)

(** [glued max cs s]: the parts [cs] give [s], with only newlines between two of them;
    a part that another follows directly is full. *)
Inductive glued (max : nat) : list str → str → Prop :=
| glued_nil : glued max [] []
| glued_cons c n s cs : (n = 0 → s ≠ [] → length c = max) → glued max cs s →
    glued max (c :: cs) (c ++ replicate n newline ++ s).

Lemma trim_start_char_spec c s : ∃ n, s = replicate n c ++ trim_start_char c s.
Proof.
  induction s as [|x s [n IH]]; [by exists 0|]. cbn. destruct (N.eqb_spec x c) as [->|]; [|by exists 0].
  exists (S n). cbn. by f_equal.
Qed.
Lemma trim_start_char_length c s : length (trim_start_char c s) ≤ length s.
Proof. destruct (trim_start_char_spec c s) as [n Hs]. rewrite Hs at 2. rewrite length_app. lia. Qed.

Lemma rfind_char_Some c s p : rfind_char c s = Some p → s !! p = Some c.
Proof.
  revert p. induction s as [|x s IH]; intros p; [done|]. cbn. destruct (rfind_char c s) as [k|].
  - intros [= <-]. by apply IH.
  - destruct (N.eqb_spec x c) as [->|]; [|done]. by intros [= <-].
Qed.

Lemma chunk_split_spec max rest : 0 < max < length rest → let k := chunk_split max rest in
  0 < k ≤ max ∧ (k < max → rest !! k = Some newline).
Proof.
  intros Hm. unfold chunk_split. destruct (rfind_char _ _) as [p|] eqn:E; [|split; lia].
  apply rfind_char_Some in E. pose proof (lookup_lt_Some _ _ _ E) as Hp. rewrite length_take in Hp.
  destruct (Nat.ltb_spec 0 p); split; try lia. intros _. by rewrite lookup_take_Some in E; destruct E.
Qed.

Lemma chunks_from_glued fuel max rest : 0 < max → length rest < fuel →
  glued max (chunks_from fuel max rest) rest ∧ Forall (λ c, 0 < length c ≤ max) (chunks_from fuel max rest).
Proof.
  intros Hm. revert rest. induction fuel as [|fuel IH]; intros rest Hf; [lia|]. cbn [chunks_from]. unfold chars_count.
  destruct (Nat.ltb_spec max (length rest)) as [Hl|Hl].
  - destruct (chunk_split_spec max rest ltac:(lia)) as [Hk Hn]. set (k := chunk_split max rest) in *.
    destruct (trim_start_char_spec newline (drop k rest)) as [n Ht].
    pose proof (trim_start_char_length newline (drop k rest)) as Htl. rewrite length_drop in Htl.
    destruct (IH (trim_start_char newline (drop k rest)) ltac:(lia)) as [Hg Ha]. split.
    + rewrite <- (take_drop k rest) at 3. rewrite Ht at 2. constructor; [|done].
      intros -> Hne. rewrite length_take. destruct (decide (k < max)) as [Hlt|]; [|lia].
      specialize (Hn Hlt). rewrite <- (Nat.add_0_r k), <- lookup_drop in Hn.
      destruct (drop k rest) as [|x l]; [done|]. cbn in Hn. injection Hn as ->. cbn in Ht.
      exfalso. pose proof (trim_start_char_length newline l) as Hx. apply (f_equal length) in Ht. cbn in Ht. lia.
    + constructor; [rewrite length_take; lia|done].
  - destruct (is_empty rest) eqn:Ee; bools; [subst; by repeat constructor|]. split.
    + pose proof (glued_cons max rest 0 [] [] ltac:(done) (glued_nil max)) as Hg. by rewrite app_nil_r in Hg.
    + repeat constructor; [|done]. destruct rest; [done|cbn; lia].
Qed.

(** a message for Discord is cut into parts of 1 to 2000 characters, which are the
    message in order with only newlines left out between two of them; a part shorter
    than the limit ends where a line does. *)
Theorem message_cut_at_lines (content : str) :
  content ≠ [] →
  ∃ parts, chunk_content (E := Empty_set) content DISCORD_MESSAGE_MAX = Ok parts
    ∧ glued DISCORD_MESSAGE_MAX parts content
    ∧ Forall (λ c, 0 < length c ≤ DISCORD_MESSAGE_MAX) parts
    ∧ length parts ≤ length content.
Proof.
  intros Hne. unfold chunk_content. cbn [rassert res_bind]. rewrite (proj2 (is_empty_false content) Hne).
  eexists. split; [done|].
  destruct (chunks_from_glued (S (length content)) DISCORD_MESSAGE_MAX content) as [Hg Ha]; [unfold DISCORD_MESSAGE_MAX; lia|lia|].
  split_and!; [done..|]. clear -Hg Ha. induction Hg as [|c n s cs Hn _ IH]; [done|].
  apply Forall_cons_1 in Ha as [Hc Ha]. specialize (IH Ha). rewrite !length_app. cbn. lia.
Qed.

(** A title is always found, and fits. *)
Lemma thread_name_fits {E} content mentions :
  ∃ name, thread_name (E := E) content mentions = Ok name ∧ 1 ≤ length name ≤ DISCORD_THREAD_NAME_MAX.
Proof.
  unfold thread_name. set (t := take DISCORD_THREAD_NAME_MAX _).
  assert (Ht : length t ≤ DISCORD_THREAD_NAME_MAX) by (unfold t; rewrite length_take; lia).
  destruct (is_empty t) eqn:E0; [eexists; split; [reflexivity|cbn; unfold DISCORD_THREAD_NAME_MAX; lia]|].
  rewrite E0. cbn [negb rassert res_bind]. unfold chars_count. rewrite (proj2 (Nat.leb_le _ _) Ht). cbn.
  exists t. split; [done|]. apply is_empty_false in E0. destruct t; [done|cbn in *; lia].
Qed.

Lemma truncate_fits s max : length (truncate_with_ellipsis s max) ≤ max.
Proof.
  unfold truncate_with_ellipsis, chars_count. destruct (Nat.eqb_spec max 0); [cbn; lia|].
  destruct (Nat.leb_spec (length s) max); [done|]. rewrite length_app, length_take. cbn. lia.
Qed.

(** An agent named in a Slack message is named by name characters. *)
Lemma slack_parse_name `{CharClass} text bot name :
  mp_agent_name (slack_parse text bot) = Some name → name ≠ [] ∧ Forall (λ c, is_name_char c = true) name.
Proof.
  unfold slack_parse. destruct (find_str _ _) as [idx|]; (destruct (is_empty (trim _)); [done|];
    destruct (first_token _) as [[|c cand] rest]; [done|]; destruct (negb (c =? at_sign)%N); [done|];
    destruct (is_empty cand) eqn:Ee; [done|]; destruct (forallb is_name_char cand) eqn:Ef; [|done];
    cbn; intros [= <-]; split; [by apply is_empty_false|by apply forallb_Forall]).
Qed.

(** ** On concrete texts *)

Module TextDemo.
#[local] Instance ascii : CharClass := is_ascii_alphanumeric.

Definition handles : list (str * DiscordUserId) := [(lit "Tom", lit "100"); (lit "Tom Tran", lit "200")].
Example longest_name_wins :
  discord_render_outbound (lit "hi @Tom Tran and @Tom, also a@b.com and @Unknown") handles
  = (lit "hi <@200> and <@100>, also a@b.com and @Unknown", [lit "200"; lit "100"]).
Proof. vm_compute. done. Qed.
Example only_at_boundaries :
  discord_render_outbound (lit "email me@Tom and @Tomas") handles = (lit "email me@Tom and @Tomas", []).
Proof. vm_compute. done. Qed.
Example read_back : discord_render_inbound (lit "hi <@111> and <@!222>, ship it <@&999>")
    [(lit "111", lit "Alice"); (lit "222", lit "Bob")] = lit "hi @Alice and @Bob, ship it <@&999>".
Proof. vm_compute. done. Qed.

(** A display name that looks like a marker is read as another person. *)
Example name_like_a_marker :
  discord_render_inbound (lit "<@111> approves") [(lit "111", lit "<@222>"); (lit "222", lit "Boss")]
  = lit "@@Boss approves".
Proof. vm_compute. done. Qed.

(** A mention at the limit is cut in two, although its id is listed for a ping. *)
Example mention_cut_in_two :
  let '(out, pinged) := discord_render_outbound (repeat 0x61%N 1995 ++ lit " @Tom Tran said so") handles in
  pinged = [lit "200"]
  ∧ (res_ok (chunk_content (E := Empty_set) out DISCORD_MESSAGE_MAX))
    = Some [repeat 0x61%N 1995 ++ lit " <@20"; lit "0> said so"].
Proof. vm_compute. done. Qed.

(** Lark: an empty placeholder matches everywhere. *)
Example empty_placeholder :
  lark_render_inbound (lit "ab") [mkAt [] (Some (lit "ou_1")) (lit "X")] (lit "ou_bot") = lit "@Xa@Xb@X".
Proof. vm_compute. done. Qed.
Example lark_reads :
  lark_render_inbound (lit "@_user_1 ask @_user_2  now")
    [mkAt (lit "@_user_1") (Some (lit "ou_bot")) (lit "Bot"); mkAt (lit "@_user_2") None (lit "Ann")] (lit "ou_bot")
  = lit "ask @Ann now".
Proof. vm_compute. done. Qed.
(** The tenth placeholder starts like the first. *)
Example tenth_mention_garbled :
  lark_render_inbound (lit "@_user_1 and @_user_10")
    [mkAt (lit "@_user_1") None (lit "Ann"); mkAt (lit "@_user_10") None (lit "Bo")] (lit "ou_bot")
  = lit "@Ann and @Ann0".
Proof. vm_compute. done. Qed.
Example slack_reads :
  slack_parse (lit "hey <@U0BOT>  @Researcher please summarise") (lit "U0BOT")
  = mkMention (Some (lit "Researcher")) (lit "please summarise")
  ∧ slack_parse (lit "<@U0BOT> how are you") (lit "U0BOT") = mkMention None (lit "how are you").
Proof. vm_compute. done. Qed.

Lemma outbound_then_inbound_witness :
  discord_render_inbound (discord_render_outbound (lit "hi @Tom Tran") handles).1 [(lit "200", lit "Tom Tran")]
  = lit "hi @Tom Tran".
Proof.
  apply outbound_then_inbound.
  - repeat (constructor; [done|]). constructor.
  - assert (Hd : ∀ c, (c = 0x30 ∨ c = 0x31 ∨ c = 0x32)%N → (0x30 ≤ c ≤ 0x39)%N) by (intros; lia).
    repeat constructor; cbn; try done; try lia.
  - cbn. repeat constructor; set_solver.
  - repeat (constructor; [cbn; set_solver|]). constructor.
  - vm_compute. intros id Hid. exact Hid.
Defined.

Lemma message_cut_at_lines_witness :
  lit "hello" ≠ [] ∧ ∃ parts, chunk_content (E := Empty_set) (lit "hello") DISCORD_MESSAGE_MAX = Ok parts
    ∧ Forall (λ c, 0 < length c ≤ DISCORD_MESSAGE_MAX) parts.
Proof.
  split; [done|]. destruct (message_cut_at_lines (lit "hello") ltac:(done)) as (parts & H1 & _ & H2 & _). by exists parts.
Defined.
End TextDemo.
