(* ===== verification/ChatPost.v ===== *)
(** * Posting to the chat platforms

    [discord/poster.rs], [lark/poster.rs] and [slack/poster.rs]: a message is sent with
    retries, by Discord in several parts.  A request and its answer, and every wait, are
    events of the trace; the budget of invalid requests ([RateLimits]) is shared with
    everybody who posts.  The token bucket counts in floating point and is not
    modelled, nor is the reading of the float [retry_after]; JSON is serde's: an answer
    carries what was read of its body. *)

From Stdlib Require Import ZArith Lia Ascii String.
From stdpp Require Import base list strings.
From S2P Require Import Prelude Program Types Decimal Signed RateLimits ChatText.

(** The errors of a post, with the constructors the three platforms share. *)
Inductive PostError :=
| RateLimited (retry_after_secs : Z)
| PostTimeout
| PostFailed (status : Z) (body : str)
| PostHttp (msg : str)
| PostDecode (msg : str)
| PostParse (e : ParseError)
| PostInternal (msg : string).

(** What is read of an answer: its status, the header and the field that say when to
    come back, the text of its body, and the body decoded, or the error of reading it. *)
Record HttpAnswer (A : Type) := mkAnswer {
  an_status : Z; an_retry_header : option str; an_retry_field : Z; an_text : str; an_json : PostError + A }.
Arguments mkAnswer {A} _ _ _ _ _.
Arguments an_status {A} _.
Arguments an_retry_header {A} _.
Arguments an_retry_field {A} _.
Arguments an_text {A} _.
Arguments an_json {A} _.

(** [?] on what was read. *)
Definition from_sum {E A} (r : E + A) : res E A := match r with inl e => Err e | inr a => Ok a end.

Definition is_success {A} (a : HttpAnswer A) : bool := (200 <=? an_status a)%Z && (an_status a <? 300)%Z.
Definition is_server_error {A} (a : HttpAnswer A) : bool := (500 <=? an_status a)%Z && (an_status a <? 600)%Z.
Definition is_invalid {A} (a : HttpAnswer A) : bool :=
  (an_status a =? 401)%Z || (an_status a =? 403)%Z || (an_status a =? 429)%Z.

Definition RETRY_AFTER_CAP_SECS : Z := 30.
Definition POST_MAX_RETRIES : nat := 3.

(** [parse_retry_after_secs], with its default and its cap. *)
Definition parse_retry_after_secs (h : option str) : option Z :=
  s ← h; n ← parse_u64 s; if (n <=? U32_MAX)%Z then Some n else None.
Definition header_retry_after {A} (a : HttpAnswer A) : Z :=
  Z.min (default 1%Z (parse_retry_after_secs (an_retry_header a))) RETRY_AFTER_CAP_SECS.
(** [read_retry_after]: whole seconds, one at least. *)
Definition field_retry_after {A} (a : HttpAnswer A) : Z :=
  Z.min (Z.max (an_retry_field a) 1) RETRY_AFTER_CAP_SECS.

(** Milliseconds. *)
Definition backoff (attempt : nat) : Z := Z.min (Z.shiftl 250 (Z.of_nat (attempt `min` 3))) 2000.

(** ** Sending with retries *)

Inductive pevent (R A : Type) :=
| EvBudget (exhausted : bool)
| EvToken (r : res PostError str)
| EvSent (request : R) (r : res PostError (HttpAnswer A))
| EvSleep (millis : Z).
Arguments EvBudget {R A} _.
Arguments EvToken {R A} _.
Arguments EvSent {R A} _ _.
Arguments EvSleep {R A} _.

(** The clock and the budget of the process. *)
Record egress := mkEgress { eg_now : Z; eg_budget : InvalidBudget }.

(** The others, and the servers: the answer to the [n]-th event, if it comes in time. *)
Record PostEnv (R A : Type) := mkPostEnv {
  po_net : Net egress;
  po_server : nat → R → option (HttpAnswer A);
  po_token : nat → PostError + str }.
Arguments mkPostEnv {R A} _ _ _.
Arguments po_net {R A} _.
Arguments po_server {R A} _ _ _.
Arguments po_token {R A} _ _.

Section sending.
Context {R A : Type} (env : PostEnv R A).

Abbreviation PostProg := (Prog egress (pevent R A) PostError).

Definition sleep (millis : Z) : PostProg unit := plocal (po_net env) (λ _, EvSleep millis) (λ w, (tt, w)).

(** The request, under its timeout; [counted]: the answers that count as invalid are
    recorded in the budget. *)
Definition send_timed (counted : bool) (rq : R) : PostProg (HttpAnswer A) :=
  pcall (po_net env) (EvSent rq) PostHttp (λ n w,
    match po_server env n rq with
    | None => (Err PostTimeout, w)
    | Some a =>
        (Ok a, if counted && is_invalid a then mkEgress (eg_now w) (record_invalid (eg_now w) (eg_budget w)).2 else w)
    end).

(** The loop of [post_one] and [send_with_retry].  [again]: a success that says to come
    back, which Slack has; [finish] reads the answer. *)
Fixpoint send_with_retry {B} (counted : bool) (retry_after : HttpAnswer A → Z) (again : A → bool)
    (finish : A → res PostError B) (rq : R) (fuel attempt : nat) : PostProg B :=
  match fuel with
  | O => plift (Panic "out of fuel")
  | S fuel =>
      plift (rassert (attempt <=? POST_MAX_RETRIES) "retry counter overran cap") ;;%
      resp <-% send_timed counted rq ;
      if (an_status resp =? 429)%Z then
        if POST_MAX_RETRIES <=? attempt then perr (RateLimited (retry_after resp))
        else
          sleep (retry_after resp * 1000) ;;%
          send_with_retry counted retry_after again finish rq fuel (S attempt)
      else if is_server_error resp then
        if POST_MAX_RETRIES <=? attempt then perr (PostFailed (an_status resp) (an_text resp))
        else
          sleep (backoff (S attempt)) ;;%
          send_with_retry counted retry_after again finish rq fuel (S attempt)
      else if negb (is_success resp) then perr (PostFailed (an_status resp) (an_text resp))
      else
        parsed <-% plift (from_sum (an_json resp)) ;
        if again parsed then
          if POST_MAX_RETRIES <=? attempt then perr (RateLimited 1)
          else
            sleep (backoff (S attempt)) ;;%
            send_with_retry counted retry_after again finish rq fuel (S attempt)
        else plift (finish parsed)
  end.
(** At most one try and its retries. *)
Definition RETRY_FUEL : nat := S POST_MAX_RETRIES.

Definition budget_exhausted : PostProg bool :=
  plocal (po_net env) EvBudget (λ w, (invalid_budget_exhausted (eg_now w) (eg_budget w), w)).
Definition bot_token : PostProg str := pcall (po_net env) EvToken PostHttp (λ n w, (from_sum (po_token env n), w)).

(** One request without retries. *)
Definition send_once {B} (finish : A → res PostError B) (rq : R) : PostProg B :=
  resp <-% send_timed true rq ;
  if negb (is_success resp) then perr (PostFailed (an_status resp) (an_text resp))
  else parsed <-% plift (from_sum (an_json resp)) ; plift (finish parsed).
End sending.

(** ** Discord *)

Inductive ButtonStyle := Success | Danger.
Definition ButtonStyle_wire (s : ButtonStyle) : Z := match s with Success => 3 | Danger => 4 end.

Definition DISCORD_BUTTON_LABEL_MAX : nat := 80.
Definition DISCORD_CUSTOM_ID_MAX : nat := 100.
Definition DISCORD_ACTION_ROW_MAX : nat := 5.
Definition DISCORD_MESSAGE_ACTION_ROWS_MAX : nat := 5.

Record Button := mkButton { bt_style : ButtonStyle; bt_label : str; bt_custom_id : str }.
Definition Button_new {E} (style : ButtonStyle) (label custom_id : str) : res E Button :=
  rassert (1 <=? chars_count label) "button label must be non-empty" ;;?
  rassert (chars_count label <=? DISCORD_BUTTON_LABEL_MAX) "button label exceeds Discord's 80-char cap" ;;?
  rassert (1 <=? chars_count custom_id) "button custom_id must be non-empty" ;;?
  rassert (chars_count custom_id <=? DISCORD_CUSTOM_ID_MAX) "button custom_id exceeds Discord's 100-char cap" ;;?
  Ok (mkButton style label custom_id).
Record ActionRow := mkRow { ar_buttons : list Button }.
Definition ActionRow_new {E} (buttons : list Button) : res E ActionRow :=
  rassert (negb (is_empty buttons)) "action row must carry a button" ;;?
  rassert (length buttons <=? DISCORD_ACTION_ROW_MAX) "action row exceeds Discord's five-button cap" ;;?
  Ok (mkRow buttons).

(** [AllowedMentions]: [parse] is always empty on the wire. *)
Record AllowedMentions := mkAllowed { am_users : list DiscordUserId }.

Record DiscordPost := mkDiscordPost {
  dp_application_id : str; dp_container_id : str; dp_reply_to : option str; dp_content : str;
  dp_allowed_mentions : AllowedMentions; dp_components : list ActionRow }.

(** The requests, with what their URL and their body say. *)
Inductive DiscordRequest :=
| DrMessage (container content : str) (parse : list str) (users : list DiscordUserId)
    (reference : option (str * bool)) (components : list ActionRow)
| DrCreateDm (recipient : DiscordUserId)
| DrInteraction (patch : bool) (url : str) (content : option str) (components : list ActionRow) (number : Z).

(** [WirePostResponse]: the id of what was created. *)
Abbreviation DiscordProg := (Prog egress (pevent DiscordRequest str) PostError).

Section discord.
Context (env : PostEnv DiscordRequest str).

Definition message_body (rq : DiscordPost) (chunk : str) (reply_to : option str) (components : list ActionRow)
    : DiscordRequest :=
  DrMessage (dp_container_id rq) chunk [] (am_users (dp_allowed_mentions rq)) ((λ m, (m, false)) <$> reply_to) components.

Definition created_id (field : string) (raw : str) : res PostError str :=
  res_map_err PostParse (parse_snowflake raw field).

Definition post_one (rq : DiscordPost) (chunk : str) (reply_to : option str) (components : list ActionRow)
    : DiscordProg str :=
  send_with_retry env true field_retry_after (λ _, false) (created_id "discord_message_id")
    (message_body rq chunk reply_to components) RETRY_FUEL 0.

(** Only the first part is a reply and carries the buttons. *)
Fixpoint post_chunks (rq : DiscordPost) (i : nat) (chunks : list str) : DiscordProg (list str) :=
  match chunks with
  | [] => pret []
  | chunk :: chunks =>
      let reference := if i =? 0 then dp_reply_to rq else None in
      let components := if i =? 0 then dp_components rq else [] in
      id <-% post_one rq chunk reference components ;
      ids <-% post_chunks rq (S i) chunks ;
      pret (id :: ids)
  end.

Definition discord_post (rq : DiscordPost) : DiscordProg (list str) :=
  plift (rassert (length (dp_components rq) <=? DISCORD_MESSAGE_ACTION_ROWS_MAX)
           "message action rows exceed Discord's cap") ;;%
  if is_empty (dp_content rq) then pret []
  else
    banned <-% budget_exhausted env ;
    if (banned : bool) then perr (RateLimited RETRY_AFTER_CAP_SECS)
    else
      bot_token env ;;%
      chunks <-% plift (chunk_content (dp_content rq) DISCORD_MESSAGE_MAX) ;
      post_chunks rq 0 chunks.

Definition create_dm (recipient : DiscordUserId) : DiscordProg str :=
  banned <-% budget_exhausted env ;
  if (banned : bool) then perr (RateLimited RETRY_AFTER_CAP_SECS)
  else bot_token env ;;% send_once env (created_id "discord_container_id") (DrCreateDm recipient).

(** No token: the URL authorizes the call. *)
Definition interaction_call (rq : DiscordRequest) : DiscordProg unit :=
  banned <-% budget_exhausted env ;
  if (banned : bool) then perr (RateLimited RETRY_AFTER_CAP_SECS)
  else
    resp <-% send_timed env true rq ;
    if negb (is_success resp) then perr (PostFailed (an_status resp) (an_text resp)) else pret tt.

Definition DISCORD_CALLBACK_DEFERRED_UPDATE : Z := 6.
Definition DISCORD_FLAG_EPHEMERAL : Z := 64.

Definition ack_interaction (interaction_id interaction_token : str) : DiscordProg unit :=
  interaction_call (DrInteraction false (lit "/interactions/" ++ interaction_id ++ lit "/" ++ interaction_token
                                         ++ lit "/callback") None [] DISCORD_CALLBACK_DEFERRED_UPDATE).
Definition edit_interaction_message (application_id interaction_token content : str) (components : list ActionRow)
    : DiscordProg unit :=
  plift (rassert (chars_count content <=? DISCORD_MESSAGE_MAX) "interaction edit content exceeds Discord's message cap") ;;%
  plift (rassert (length components <=? DISCORD_MESSAGE_ACTION_ROWS_MAX) "interaction edit action rows exceed Discord's cap") ;;%
  interaction_call (DrInteraction true (lit "/webhooks/" ++ application_id ++ lit "/" ++ interaction_token
                                        ++ lit "/messages/@original") (Some content) components 0).
Definition followup_ephemeral (application_id interaction_token content : str) : DiscordProg unit :=
  plift (rassert (chars_count content <=? DISCORD_MESSAGE_MAX) "ephemeral followup content exceeds Discord's message cap") ;;%
  interaction_call (DrInteraction false (lit "/webhooks/" ++ application_id ++ lit "/" ++ interaction_token)
                      (Some content) [] DISCORD_FLAG_EPHEMERAL).
End discord.

(** ** Lark *)

Definition LARK_MAX_POST_CHARS : nat := Z.to_nat 25000.

Inductive LarkRequest :=
| LrReply (parent : str) (text : str)
| LrCreate (chat : str) (text : str)
| LrDirect (open_id : str) (text : str)
| LrCard (chat : str) (card : str).
(** The code, the message and the id of the body. *)
Record LarkBody := mkLarkBody { lb_code : Z; lb_msg : str; lb_message_id : option str }.

Definition parse_post_response (b : LarkBody) : res PostError str :=
  if negb (lb_code b =? 0)%Z then
    Err (PostFailed 200 (if is_empty (lb_msg b) then lit "im/v1/messages code " ++ show_Z (lb_code b) else lb_msg b))
  else
    match lb_message_id b with
    | Some id =>
        if is_empty id then Err (PostInternal "im/v1/messages ok without message_id")
        else res_map_err PostParse (parse_lark_id id "lark_message_id")
    | None => Err (PostInternal "im/v1/messages ok without message_id")
    end.

Section lark.
Context (env : PostEnv LarkRequest LarkBody).
Definition lark_send (rq : LarkRequest) : Prog egress (pevent LarkRequest LarkBody) PostError str :=
  send_with_retry env false header_retry_after (λ _, false) parse_post_response rq RETRY_FUEL 0.
Definition lark_post (chat : str) (reply_to : option str) (text : str) :=
  let clipped := clip_chars text LARK_MAX_POST_CHARS in
  lark_send (match reply_to with Some parent => LrReply parent clipped | None => LrCreate chat clipped end).
Definition lark_post_dm (open_id text : str) := lark_send (LrDirect open_id (clip_chars text LARK_MAX_POST_CHARS)).
Definition lark_post_card (chat card : str) := lark_send (LrCard chat card).
End lark.

(** ** Slack *)

(** The text, or the fallback text of blocks. *)
Inductive PostBody (Blocks : Type) := BodyText (text : str) | BodyBlocks (fallback_text : str) (blocks : Blocks).
Arguments BodyText {Blocks} _.
Arguments BodyBlocks {Blocks} _ _.
Record SlackPost (Blocks : Type) := mkSlackPost {
  sp_channel : str; sp_thread_ts : option str; sp_body : PostBody Blocks; sp_username : str;
  sp_icon_url : option str; sp_ephemeral_to : option str }.
Arguments mkSlackPost {Blocks} _ _ _ _ _ _.
Arguments sp_channel {Blocks} _.
Arguments sp_thread_ts {Blocks} _.
Arguments sp_body {Blocks} _.
Arguments sp_username {Blocks} _.
Arguments sp_icon_url {Blocks} _.
Arguments sp_ephemeral_to {Blocks} _.

(** The URL, and the fields of the body that vary. *)
Record SlackRequest (Blocks : Type) := mkSlackRequest {
  sr_ephemeral : bool; sr_channel : str; sr_thread_ts : option str; sr_user : option str; sr_text : str;
  sr_blocks : option Blocks; sr_username : str; sr_icon_url : option str }.
Arguments mkSlackRequest {Blocks} _ _ _ _ _ _ _ _.
Record SlackBody := mkSlackBody { sb_ok : bool; sb_ts : option str; sb_message_ts : option str; sb_error : option str }.

Definition slack_ratelimited (b : SlackBody) : bool :=
  negb (sb_ok b) && bool_decide (sb_error b = Some (lit "ratelimited")).
Definition slack_finish (b : SlackBody) : res PostError str :=
  if negb (sb_ok b) then Err (PostFailed 200 (default (lit "unknown") (sb_error b)))
  else match (match sb_ts b with Some t => Some t | None => sb_message_ts b end) with
       | Some ts => res_map_err PostParse (parse_slack_ts ts "slack_ts")
       | None => Err (PostInternal "chat.post* 200 without ts/message_ts")
       end.

Definition slack_request {Blocks} (p : SlackPost Blocks) : SlackRequest Blocks :=
  let '(text, blocks) := match sp_body p with
                         | BodyText s => (s, None)
                         | BodyBlocks fallback_text blocks => (fallback_text, Some blocks)
                         end in
  mkSlackRequest (bool_decide (is_Some (sp_ephemeral_to p))) (sp_channel p) (sp_thread_ts p) (sp_ephemeral_to p) text
    blocks (sp_username p) (sp_icon_url p).
Definition slack_post {Blocks} (env : PostEnv (SlackRequest Blocks) SlackBody) (p : SlackPost Blocks)
    : Prog egress (pevent (SlackRequest Blocks) SlackBody) PostError str :=
  send_with_retry env false header_retry_after slack_ratelimited slack_finish (slack_request p) RETRY_FUEL 0.
