(* ===== verification/ChatPostLaws.v ===== *)
(** * What posting promises

    Every request is tried at most four times, and only while the server says to come
    back; a message for Discord goes out part by part, the first one as the reply with
    the buttons, and a failing part ends it. *)

From Stdlib Require Import ZArith Lia Ascii String.
From stdpp Require Import base list strings.
From S2P Require Import Prelude Program Types Decimal Signed RateLimits ChatText ChatTextLaws ChatPost.

Section tries.
Context {R A B : Type} (env : PostEnv R A) (counted : bool) (retry_after : HttpAnswer A → Z)
  (again : A → bool) (finish : A → res PostError B) (rq : R).

(** The server says to come back. *)
Definition comes_back (a : HttpAnswer A) : bool :=
  (an_status a =? 429)%Z || is_server_error a
  || is_success a && match an_json a with inr j => again j | inl _ => false end.
(** What any other answer amounts to. *)
Definition verdict (a : HttpAnswer A) : res PostError B :=
  if is_success a then j <-? from_sum (an_json a) ; finish j
  else Err (PostFailed (an_status a) (an_text a)).

(** [tried k evs r]: with at most [k] tries, [evs] ends in [r]. *)
Inductive tried : nat → list (pevent R A) → res PostError B → Prop :=
| tried_failed k e : tried (S k) [EvSent rq (Err e)] (Err e)
| tried_answered k a : comes_back a = false → tried (S k) [EvSent rq (Ok a)] (verdict a)
| tried_gave_up a e : comes_back a = true → tried 1 [EvSent rq (Ok a)] (Err e)
| tried_again k a ms evs r : comes_back a = true → tried k evs r →
    tried (S k) (EvSent rq (Ok a) :: EvSleep ms :: evs) r.

Lemma tried_bound k evs r : tried k evs r → length evs < 2 * k.
Proof. induction 1; cbn [length]; lia. Qed.

Lemma traced_send : traced (send_timed env counted rq) (λ r vs, vs = [EvSent rq r] ∧ no_panic r).
Proof.
  apply (traced_call_of no_panic); [|done|done]. intros n w. by destruct (po_server env n rq).
Qed.
Lemma traced_sleep ms : traced (E := PostError) (sleep env ms) (λ r vs, r = Ok tt ∧ vs = [EvSleep ms]).
Proof. apply traced_local. by intros []. Qed.

Lemma not_429 (a : HttpAnswer A) : is_success a = true → (an_status a =? 429)%Z = false ∧ is_server_error a = false.
Proof. unfold is_success, is_server_error. intros. bools. split; lia. Qed.

Lemma traced_retry fuel attempt : attempt + fuel = RETRY_FUEL → 0 < fuel →
  (∀ j, no_panic (finish j)) →
  traced (send_with_retry env counted retry_after again finish rq fuel attempt) (λ r vs, tried fuel vs r ∧ no_panic r).
Proof.
  intros Hf H0 Hfin. revert attempt Hf H0. induction fuel as [|fuel IH]; intros attempt Hf H0; [lia|].
  unfold RETRY_FUEL in Hf. cbn [send_with_retry]. unfold rassert. rewrite (proj2 (Nat.leb_le _ _)) by lia.
  apply traced_bind_lift; [|done|done]. intros _ _.
  eapply traced_bind; [apply traced_send|..|intros p vs [-> Hp]; done].
  2: { intros e vs [-> _]. split; [constructor|done]. }
  intros a vs [-> _].
  assert (Hretry : ∀ ms, comes_back a = true → POST_MAX_RETRIES <=? attempt = false →
    traced (sleep env ms ;;% send_with_retry env counted retry_after again finish rq fuel (S attempt))%patom
      (λ r vs', tried (S fuel) ([EvSent rq (Ok a)] ++ vs') r ∧ no_panic r)).
  { intros ms Hc Hl. bools. eapply traced_bind; [apply traced_sleep|..].
    - intros [] vs' [_ ->]. eapply traced_mono; [apply IH; unfold RETRY_FUEL; lia|]. cbn. intros r vs' [Ht Hp].
      split; [by apply tried_again|done].
    - by intros e vs' [? _].
    - by intros p vs' [? _]. }
  assert (Hgive : ∀ e, comes_back a = true → POST_MAX_RETRIES <=? attempt = true →
    traced (W := egress) (perr e) (λ r vs', tried (S fuel) ([EvSent rq (Ok a)] ++ vs') r ∧ no_panic r)).
  { intros e Hc Hl. bools. apply traced_err. replace fuel with 0 by lia. split; [by constructor|done]. }
  destruct (an_status a =? 429)%Z eqn:E4.
  { assert (comes_back a = true) by (unfold comes_back; by rewrite E4). destruct (POST_MAX_RETRIES <=? attempt) eqn:El; auto. }
  destruct (is_server_error a) eqn:E5.
  { assert (comes_back a = true) by (unfold comes_back; by rewrite E5, orb_true_r).
    destruct (POST_MAX_RETRIES <=? attempt) eqn:El; auto. }
  destruct (is_success a) eqn:Es; cbn [negb].
  2: { apply traced_err. split; [|done]. change (tried (S fuel) [EvSent rq (Ok a)] (Err (PostFailed (an_status a) (an_text a)))).
       replace (Err (PostFailed _ _)) with (verdict a) by (unfold verdict; by rewrite Es).
       constructor. unfold comes_back. by rewrite E4, E5, Es. }
  apply traced_bind_lift; [..|by destruct (an_json a)].
  - intros j Hj. destruct (an_json a) as [|j'] eqn:Ej; [done|]. injection Hj as ->. destruct (again j) eqn:Ea.
    + assert (comes_back a = true) by (unfold comes_back; by rewrite E4, E5, Es, Ej, Ea).
      destruct (POST_MAX_RETRIES <=? attempt) eqn:El; auto.
    + apply traced_lift. split; [|apply Hfin]. rewrite app_nil_r.
      replace (finish j) with (verdict a) by (unfold verdict; by rewrite Es, Ej).
      constructor. unfold comes_back. by rewrite E4, E5, Es, Ej.
  - intros e He. destruct (an_json a) as [e'|] eqn:Ej; [|done]. injection He as ->. split; [|done].
    replace (Err e) with (verdict a) by (unfold verdict; by rewrite Es, Ej).
    constructor. unfold comes_back. by rewrite E4, E5, Es, Ej.
Qed.
End tries.

Lemma parse_snowflake_no_panic raw field : no_panic (parse_snowflake raw field).
Proof. unfold parse_snowflake. repeat case_match; done. Qed.
Lemma created_id_no_panic field raw : no_panic (created_id field raw).
Proof. unfold created_id. pose proof (parse_snowflake_no_panic raw field). by destruct (parse_snowflake raw field). Qed.

(** ** A message for Discord *)

Section discord.
Context (env : PostEnv DiscordRequest str) (rq : DiscordPost).

(** The request for the [i]-th part: it pings the listed people and lets Discord read
    no other mention out of the text; the first part is the reply, has the buttons, and
    survives the loss of the message it replies to. *)
Definition part_request (i : nat) (part : str) : DiscordRequest :=
  DrMessage (dp_container_id rq) part [] (am_users (dp_allowed_mentions rq))
    (if i =? 0 then (λ m, (m, false)) <$> dp_reply_to rq else None)
    (if i =? 0 then dp_components rq else []).
Definition part_tried (i : nat) (part : str) : list (pevent DiscordRequest str) → res PostError str → Prop :=
  tried (λ _, false) (created_id "discord_message_id") (part_request i part) 4.

Inductive delivered : nat → list str → list (pevent DiscordRequest str) → res PostError (list str) → Prop :=
| delivered_all i : delivered i [] [] (Ok [])
| delivered_part i part parts evs id evs' r :
    part_tried i part evs (Ok id) → delivered (S i) parts evs' r →
    delivered i (part :: parts) (evs ++ evs') (ids <-? r ; Ok (id :: ids))
| delivered_stopped i part parts evs e : part_tried i part evs (Err e) → delivered i (part :: parts) evs (Err e).

Lemma delivered_no_panic i parts evs r : delivered i parts evs r → no_panic r.
Proof. induction 1 as [|????????? IH|]; [done| |done]. by destruct r. Qed.

Lemma traced_chunks i parts : traced (post_chunks env rq i parts) (λ r vs, delivered i parts vs r).
Proof.
  revert i. induction parts as [|part parts IH]; intros i; cbn [post_chunks]; [apply traced_ret; constructor|].
  eapply (traced_bind _ _ (λ r vs, part_tried i part vs r ∧ no_panic r)).
  - unfold post_one. replace (message_body rq part _ _) with (part_request i part)
      by (unfold part_request, message_body; by destruct i).
    apply traced_retry; [done|unfold RETRY_FUEL; lia|intros; apply created_id_no_panic].
  - intros id vs [Ht _]. eapply traced_bind; [apply IH|..].
    + intros ids vs' Hd. apply traced_ret. rewrite app_nil_r. exact (delivered_part _ _ _ _ _ _ (Ok ids) Ht Hd).
    + intros e vs' Hd. exact (delivered_part _ _ _ _ _ _ (Err e) Ht Hd).
    + intros p vs' Hd. by apply delivered_no_panic in Hd.
  - intros e vs [Ht _]. by constructor.
  - by intros p vs [_ Hp].
Qed.
End discord.

(** C38: posting to Discord never panics; unless the shared budget is exhausted or there is
    no token, it sends the parts of the message in order, each tried until it is
    accepted, at most four times and only again after an answer that says to come back;
    it stops at the first part that fails, and answers with one id per part otherwise. *)
Theorem post_follows_protocol (env : PostEnv DiscordRequest str) (rq : DiscordPost) :
  dp_content rq ≠ [] → length (dp_components rq) ≤ DISCORD_MESSAGE_ACTION_ROWS_MAX →
  traced (discord_post env rq) (λ r vs,
    (vs = [EvBudget true] ∧ r = Err (RateLimited RETRY_AFTER_CAP_SECS))
    ∨ (∃ e, vs = [EvBudget false; EvToken (Err e)] ∧ r = Err e)
    ∨ (∃ token parts evs, vs = EvBudget false :: EvToken (Ok token) :: evs
         ∧ glued DISCORD_MESSAGE_MAX parts (dp_content rq)
         ∧ Forall (λ c, 0 < length c ≤ DISCORD_MESSAGE_MAX) parts
         ∧ delivered rq 0 parts evs r ∧ no_panic r)).
Proof.
  intros Hc Hl. unfold discord_post, rassert. rewrite (proj2 (Nat.leb_le _ _) Hl).
  apply traced_bind_lift; [|done|done]. intros _ _. rewrite (proj2 (is_empty_false _) Hc).
  eapply (traced_bind _ _ (λ r vs, ∃ b, r = Ok b ∧ vs = [EvBudget b])); [apply traced_local; by eexists| |by intros ?? (? & ? & _)..].
  intros banned vs (b & [= <-] & ->). destruct banned; [apply traced_err; by left|].
  eapply (traced_bind _ _ (λ r vs, vs = [EvToken r] ∧ no_panic r)).
  - apply (traced_call_of no_panic); [|done|done]. intros n w. by destruct (po_token env n).
  - intros token vs [-> _]. destruct (chunks_from_glued (S (length (dp_content rq))) DISCORD_MESSAGE_MAX (dp_content rq))
      as [Hg Hp]; [unfold DISCORD_MESSAGE_MAX; lia|lia|].
    unfold chunk_content. cbn [rassert res_bind]. rewrite (proj2 (is_empty_false _) Hc).
    apply traced_bind_lift; [|done|done]. intros parts [= <-].
    eapply traced_mono; [apply traced_chunks|]. cbn. intros r vs Hd. do 2 right.
    do 3 eexists. split_and!; [reflexivity|done..|by eapply delivered_no_panic].
  - intros e vs [-> _]. right. left. by exists e.
  - by intros p vs [_ Hp].
Qed.

(** Lark and Slack: one message, tried as often. *)
Lemma lark_tried env rq :
  traced (lark_send env rq) (λ r vs, tried (λ _, false) parse_post_response rq 4 vs r ∧ no_panic r).
Proof.
  apply traced_retry; [done|unfold RETRY_FUEL; lia|]. intros b. unfold parse_post_response.
  repeat case_match; try done. unfold parse_lark_id, parse_id. repeat case_match; done.
Qed.
Lemma slack_tried {Blocks} (env : PostEnv (SlackRequest Blocks) SlackBody) p :
  traced (slack_post env p) (λ r vs, tried slack_ratelimited slack_finish (slack_request p) 4 vs r ∧ no_panic r).
Proof.
  apply traced_retry; [done|unfold RETRY_FUEL; lia|]. intros b. unfold slack_finish.
  repeat case_match; try done; unfold parse_slack_ts; repeat case_match; done.
Qed.

(** ** On concrete servers *)

Module PostDemo.
Definition ok_answer : HttpAnswer str := mkAnswer 200 None 0 [] (inr (lit "123456789012345678")).
Definition refuse (status : Z) : HttpAnswer str := mkAnswer status None 2 (lit "no") (inr []).
(** The [n]-th event answered by the [n]-th status. *)
Definition server (statuses : list Z) (n : nat) (_ : DiscordRequest) : option (HttpAnswer str) :=
  Some (match statuses !! n with Some 200%Z | None => ok_answer | Some s => refuse s end).
Definition env (statuses : list Z) : PostEnv DiscordRequest str :=
  mkPostEnv calm (server statuses) (λ _, inr (lit "token")).
Definition start : run_state egress (pevent DiscordRequest str) := mkRun (mkEgress 0 (invalid_budget_new 0)) [].
Definition message (content : str) : DiscordPost :=
  mkDiscordPost (lit "1") (lit "2") (Some (lit "3")) content (mkAllowed []) [].
Definition waits (vs : list (pevent DiscordRequest str)) : list Z :=
  omap (λ v, match v with EvSleep ms => Some ms | _ => None end) vs.

(** The waits double from half a second: the quarter is never used. *)
Example first_wait_is_half_a_second :
  let out := discord_post (env [0; 0; 500; 0; 500; 0; 500; 0; 200]%Z) (message (lit "hi")) start in
  out.1 = Ok [lit "123456789012345678"] ∧ waits (run_trace out.2) = [500; 1000; 2000]%Z ∧ backoff 0 = 250%Z.
Proof. vm_compute. done. Qed.

(** A part that fails leaves the parts before it in the channel, and their ids are
    lost. *)
Example posted_parts_are_forgotten :
  let out := discord_post (env [0; 0; 200; 403]%Z) (message (repeat 0x61%N 3000)) start in
  out.1 = Err (PostFailed 403 (lit "no"))
  ∧ omap (λ v, match v with EvSent (DrMessage _ c _ _ _ _) (Ok a) => Some (length c, an_status a) | _ => None end)
      (run_trace out.2) = [(2000, 200%Z); (1000, 403%Z)].
Proof. vm_compute. done. Qed.

(** The budget is asked once: a message of many parts goes on being refused after it is
    exhausted. *)
Example budget_asked_once :
  let s := mkRun (mkEgress 0 (mkInvalidBudget 0 9999)) [] in
  let out := discord_post (env [0; 0; 429; 0; 429; 0; 429; 0; 429]%Z) (message (lit "hi")) s in
  ib_count (eg_budget (run_tables out.2)) = 10003%Z
  ∧ (interaction_call (env []) (DrInteraction false [] None [] 6) (mkRun (run_tables out.2) [])).1
    = Err (RateLimited 30).
Proof. vm_compute. done. Qed.

Lemma post_follows_protocol_witness :
  dp_content (message (lit "hi")) ≠ []
  ∧ ∃ vs, run_trace (discord_post (env [0; 0; 429]%Z) (message (lit "hi")) start).2 = vs
      ∧ ∃ token parts evs, vs = EvBudget false :: EvToken (Ok token) :: evs
          ∧ delivered (message (lit "hi")) 0 parts evs (Ok [lit "123456789012345678"]).
Proof.
  assert (Hc : dp_content (message (lit "hi")) ≠ []) by done.
  split; [exact Hc|]. eexists. split; [reflexivity|].
  destruct (post_follows_protocol (env [0; 0; 429]%Z) (message (lit "hi")) Hc (Nat.le_0_l 5) start)
    as (vs & Hv & Hr).
  assert (Ho : (discord_post (env [0; 0; 429]%Z) (message (lit "hi")) start).1 = Ok [lit "123456789012345678"])
    by (vm_compute; reflexivity).
  rewrite Ho in Hr. rewrite Hv. destruct Hr as [[_ Hr]|[(e & _ & Hr)|(token & parts & evs & -> & _ & _ & Hd & _)]];
    [discriminate Hr|discriminate Hr|].
  exists token, parts, evs. split; [reflexivity|exact Hd].
Defined.
End PostDemo.
