(* ===== verification/ChatPump.v ===== *)
(** * The pumps that carry replies to the chat platforms

    [discord/stream_pump.rs], [lark/stream_pump.rs] and [slack/stream_pump.rs]: what one
    pump posts for the events of its thread, and the supervisor that keeps one pump per
    thread.  Posting is best effort: an error is logged.  What the stores answer at the
    [n]-th event is the environment's; the iteration order of the map of pumps is a
    parameter. *)

From Stdlib Require Import ZArith Lia Ascii String.
From stdpp Require Import base gmap list strings.
From S2P Require Import Prelude Types Responses Signed ChatText.

(** What the thread's stream yields. *)
Inductive PumpEvent := StreamItem (chunk : ResponseChunk) (from_agent : AgentId) | StreamStalled | StreamBackend.

Definition warning : str := [0x26A0%N; 0xFE0F%N].

(** The text of a chunk that people see, and whom it is addressed to; Discord and Lark. *)
Definition render_payload (chunk : ResponseChunk) : option (str * option ColleagueId) :=
  match chunk with
  | RDone final_text => if is_empty final_text then None else Some (final_text, None)
  | RAgentMessage _ _ content to => if is_empty content then None else Some (content, to)
  | RError reason _ => Some (warning ++ lit " Error: " ++ reason, None)
  | _ => None
  end.

Definition is_wire (chunk : ResponseChunk) : bool :=
  match chunk with RWireMcpRequest _ _ _ _ _ _ => true | _ => false end.

(** The buffers hold eight; the oldest makes room. *)
Definition MAX_DEFERRED_WIRE_LINKS : nat := 8.
Definition push_deferred {A} (x : A) (deferred : list A) : list A :=
  (if MAX_DEFERRED_WIRE_LINKS <=? length deferred then tail deferred else deferred) ++ [x].

(** What ends the loop of a pump, and what it reads. *)
Inductive PumpInput := PumpCancelled | PumpIdle | PumpNext (event : option PumpEvent).

(** ** Discord and Lark *)

Record DeferredLink := mkDeferred { dl_message : str; dl_from_agent : AgentId }.

Section pump.
(** A post as the platform takes it; posting the text of a chunk, and a connect message,
    for an agent at the [n]-th event; the connect message of a chunk. *)
Context {Post : Type} (post_text : nat → AgentId → str → option ColleagueId → list Post)
  (post_link : nat → AgentId → str → list Post) (build_connect_message : nat → ResponseChunk → option str).

Definition flush_deferred (n : nat) (deferred : list DeferredLink) : list Post :=
  mjoin ((λ p, post_link n (dl_from_agent p) (dl_message p)) <$> deferred).

Definition handle_stream_event (n : nat) (deferred : list DeferredLink) (event : PumpEvent)
    : list Post * list DeferredLink :=
  match event with
  | StreamBackend | StreamStalled => ([], deferred)
  | StreamItem chunk from_agent =>
      if is_wire chunk then
        match build_connect_message n chunk with
        | Some message => ([], push_deferred (mkDeferred message from_agent) deferred)
        | None => ([], deferred)
        end
      else
        let '(posts, posted) := match render_payload chunk with
                                | Some (text, to) => (post_text n from_agent text to, true)
                                | None => ([], false)
                                end in
        if posted || chunk_is_terminal chunk then (posts ++ flush_deferred n deferred, []) else (posts, deferred)
  end.

(** The loop; the flag says that the pump ended. *)
Fixpoint run_pump (n : nat) (deferred : list DeferredLink) (inputs : list PumpInput) : list Post * bool :=
  match inputs with
  | [] => ([], false)
  | PumpCancelled :: _ => ([], true)
  | (PumpIdle | PumpNext None) :: _ => (flush_deferred n deferred, true)
  | PumpNext (Some event) :: inputs =>
      let '(posts, deferred) := handle_stream_event n deferred event in
      let '(rest, ended) := run_pump (S n) deferred inputs in
      (posts ++ rest, ended)
  end.
End pump.

(** [trim_end_matches('/')] *)
Definition trim_end_char (c : N) (s : str) : str := reverse (trim_start_char c (reverse s)).
Definition slash : N := 0x2f.

Section directories.
Context `{CharClass, Macs, UuidPrinter}.

(** The stores a pump asks, at the [n]-th event; an error is logged and done without. *)
Record Directory := mkDirectory {
  dr_app_for_agent : nat → AgentId → res str (option str);
  dr_taggable_handles : nat → res str (list (str * str));
  dr_tag_for : nat → ColleagueId → res str (option (str * str));
  dr_agent_name_for : nat → ColleagueId → res str (option str);
  dr_token : nat → str → bool;
  dr_now_unix_secs : nat → Z;
  dr_connect_secret : list N;
  dr_connect_url_base : str }.
Context (dir : Directory).

Definition resolve_agent_bot (fallback : str) (n : nat) (agent : AgentId) : str :=
  match dr_app_for_agent dir n agent with Ok (Some a) => a | _ => fallback end.

Definition prepend_agent_marker (n : nat) (receiver : ColleagueId) (inline : str) : str :=
  match dr_agent_name_for dir n receiver with
  | Ok (Some name) => if already_names inline name then inline else at_sign :: name ++ lit " " ++ inline
  | _ => inline
  end.

Definition CONNECT_LINK_TTL_SECS : Z := 60 * 10.
(** Only OAuth2 gets a link. *)
Definition connect_message_of (url : str → AgentId → option str) (max_chars : nat) (chunk : ResponseChunk) : option str :=
  match chunk with
  | RWireMcpRequest from catalog_id display_name reason auth_kind _ =>
      let url := match auth_kind with OAuth2 => url catalog_id from | StaticHeaders | NoAuth => None end in
      Some (render_connect_message display_name reason auth_kind url max_chars)
  | _ => None
  end.

(** *** Discord *)

Record DiscordAttach := mkDAttach {
  da_thread_id : ThreadId; da_org_id : OrgId; da_user_id : option UserId; da_application_id : str;
  da_container_id : str; da_reply_to : option str }.
Record DPost := mkDPost { dq_bot : str; dq_container : str; dq_reply_to : option str; dq_content : str; dq_users : list str }.

Definition DISCORD_CONNECTION_REASON_MAX_CHARS : nat := 1400.

Section discord.
Context (req : DiscordAttach).

Definition discord_post_reply (bot : str) (content : str) (pinged : list str) : list DPost :=
  if is_empty content then [] else [mkDPost bot (da_container_id req) (da_reply_to req) content pinged].

Definition discord_render_inline (n : nat) (text : str) : str * list str :=
  if negb (existsb (λ c, (c =? at_sign)%N) text) then (text, [])
  else match dr_taggable_handles dir n with
       | Ok handles => discord_render_outbound text handles
       | _ => (text, [])
       end.

Definition discord_render_reply (n : nat) (text : str) (to : option ColleagueId) : str * list str :=
  let '(inline, pinged) := discord_render_inline n text in
  match to with
  | None => (inline, pinged)
  | Some receiver =>
      match dr_tag_for dir n receiver with
      | Ok (Some (_, snowflake)) =>
          if contains_str (discord_render_mention snowflake) inline then (inline, pinged)
          else (discord_render_mention snowflake ++ lit " " ++ inline, pinged ++ [snowflake])
      | Ok None => (prepend_agent_marker n receiver inline, pinged)
      | _ => (inline, pinged)
      end
  end.

Definition discord_connect_url (n : nat) (catalog_id : str) (agent_id : AgentId) : option str :=
  user_id ← da_user_id req;
  let exp := i64_saturating_add (dr_now_unix_secs dir n) CONNECT_LINK_TTL_SECS in
  let claims := mkChatConnect catalog_id (da_org_id req) user_id (da_application_id req) (da_container_id req)
                  (da_reply_to req) (da_thread_id req) agent_id in
  Some (trim_end_char slash (dr_connect_url_base dir) ++ lit "/discord/mcp/connect?token="
        ++ chat_sign_connect (dr_connect_secret dir) claims exp).

Definition discord_post_text (n : nat) (agent : AgentId) (text : str) (to : option ColleagueId) : list DPost :=
  let bot := resolve_agent_bot (da_application_id req) n agent in
  let '(content, pinged) := discord_render_reply n text to in
  discord_post_reply bot content pinged.
Definition discord_post_link (n : nat) (agent : AgentId) (message : str) : list DPost :=
  discord_post_reply (resolve_agent_bot (da_application_id req) n agent) message [].

Definition discord_pump : list PumpInput → list DPost * bool :=
  run_pump discord_post_text discord_post_link
    (λ n, connect_message_of (discord_connect_url n) DISCORD_CONNECTION_REASON_MAX_CHARS) 0 [].
End discord.

(** *** Lark *)

Inductive LarkRecipient := LarkChat (chat_id : str) (reply_to : option str) | LarkDm (open_id : str).
Record LarkAttach := mkLAttach {
  la_thread_id : ThreadId; la_org_id : OrgId; la_user_id : option UserId; la_app_id : str; la_recipient : LarkRecipient }.
Record LPost := mkLPost { lq_bot : str; lq_recipient : LarkRecipient; lq_text : str }.

Definition LARK_PUMP_POST_CHARS : nat := Z.to_nat 25000.
Definition LARK_CONNECTION_REASON_MAX_CHARS : nat := 2000.

Section lark.
Context (req : LarkAttach).

Definition lark_post_reply (n : nat) (bot : str) (text : str) : list LPost :=
  if dr_token dir n bot then [mkLPost bot (la_recipient req) text] else [].

Definition lark_render_inline (n : nat) (text : str) : str :=
  if negb (existsb (λ c, (c =? at_sign)%N) text) then text
  else match dr_taggable_handles dir n with Ok handles => render_ats text handles | _ => text end.

Definition lark_render_reply (n : nat) (text : str) (to : option ColleagueId) : str :=
  let inline := lark_render_inline n text in
  match to with
  | None => inline
  | Some receiver =>
      match dr_tag_for dir n receiver with
      | Ok (Some (name, open_id)) =>
          if contains_str open_id inline then inline else render_at open_id name ++ lit " " ++ inline
      | Ok None => prepend_agent_marker n receiver inline
      | _ => inline
      end
  end.

Definition lark_connect_url (n : nat) (catalog_id : str) (agent_id : AgentId) : option str :=
  user_id ← la_user_id req;
  match la_recipient req with
  | LarkChat chat_id reply_to =>
      let exp := i64_saturating_add (dr_now_unix_secs dir n) CONNECT_LINK_TTL_SECS in
      let claims := mkChatConnect catalog_id (la_org_id req) user_id (la_app_id req) chat_id reply_to
                      (la_thread_id req) agent_id in
      Some (trim_end_char slash (dr_connect_url_base dir) ++ lit "/lark/mcp/connect?token="
            ++ chat_sign_connect (dr_connect_secret dir) claims exp)
  | LarkDm _ => None
  end.

Definition lark_post_text (n : nat) (agent : AgentId) (text : str) (to : option ColleagueId) : list LPost :=
  lark_post_reply n (resolve_agent_bot (la_app_id req) n agent)
    (truncate_with_ellipsis (lark_render_reply n text to) LARK_PUMP_POST_CHARS).
Definition lark_post_link (n : nat) (agent : AgentId) (message : str) : list LPost :=
  lark_post_reply n (resolve_agent_bot (la_app_id req) n agent) (truncate_with_ellipsis message LARK_PUMP_POST_CHARS).

Definition lark_pump : list PumpInput → list LPost * bool :=
  run_pump lark_post_text lark_post_link
    (λ n, connect_message_of (lark_connect_url n) LARK_CONNECTION_REASON_MAX_CHARS) 0 [].
End lark.
End directories.

(** ** Slack *)

(** The identity an agent posts under. *)
Record AgentIdentity := mkIdentity { ai_username : str; ai_icon_url : option str }.

Definition SLACK_MAX_POST_CHARS : nat := Z.to_nat 35000.

Section slack.
(** Block Kit values, the card of a connection request, the signed URL, and the agents
    as they are read at the [n]-th event. *)
Context {Blocks : Type} (card : str → str → McpAuthKind → option str → Blocks)
  (connect_url : nat → str → AgentId → str) (read_agent : nat → AgentId → res str AgentIdentity).

Inductive SlackOut := SlackText (s : str) | SlackBlocks (fallback_text : str) (blocks : Blocks).
Record SPost := mkSPost { sq_body : SlackOut; sq_username : str; sq_icon_url : option str }.

Definition payload_for_post (chunk : ResponseChunk) (url : option str) : option SlackOut :=
  match chunk with
  | RDone final_text => if is_empty final_text then None else Some (SlackText final_text)
  | RAgentMessage _ _ content _ => if is_empty content then None else Some (SlackText content)
  | RError reason _ => Some (SlackText (lit ":warning: Error: " ++ reason))
  | RWireMcpRequest _ _ display_name reason auth_kind _ =>
      Some (SlackBlocks (lit "Patom agent requested " ++ display_name ++ lit " connection")
              (card reason display_name auth_kind url))
  | _ => None
  end.

Definition resolve_agent_identity (n : nat) (from : AgentId) : AgentIdentity :=
  match read_agent n from with Ok a => a | _ => mkIdentity (lit "agent") None end.

Definition clip_body (b : SlackOut) : SlackOut :=
  match b with
  | SlackText s => SlackText (truncate_with_ellipsis s SLACK_MAX_POST_CHARS)
  | SlackBlocks f blocks => SlackBlocks (truncate_with_ellipsis f SLACK_MAX_POST_CHARS) blocks
  end.

Definition slack_stream_event (n : nat) (deferred : list SPost) (event : PumpEvent) : list SPost * list SPost :=
  match event with
  | StreamBackend | StreamStalled => ([], deferred)
  | StreamItem chunk from_agent =>
      let url := match chunk with
                 | RWireMcpRequest _ catalog_id _ _ OAuth2 _ => Some (connect_url n catalog_id from_agent)
                 | _ => None
                 end in
      match payload_for_post chunk url with
      | None => ([], deferred)
      | Some body =>
          let identity := resolve_agent_identity n from_agent in
          let post := mkSPost (clip_body body) (ai_username identity) (ai_icon_url identity) in
          if is_wire chunk then ([], push_deferred post deferred) else (post :: deferred, [])
      end
  end.

(** A pump whose workspace is not found ends at once. *)
Fixpoint slack_loop (n : nat) (deferred : list SPost) (inputs : list PumpInput) : list SPost * bool :=
  match inputs with
  | [] => ([], false)
  | (PumpCancelled | PumpIdle | PumpNext None) :: _ => ([], true)
  | PumpNext (Some event) :: inputs =>
      let '(posts, deferred) := slack_stream_event n deferred event in
      let '(rest, ended) := slack_loop (S n) deferred inputs in
      (posts ++ rest, ended)
  end.
Definition slack_pump (workspace : res str unit) (inputs : list PumpInput) : list SPost * bool :=
  match workspace with Ok _ => slack_loop 0 [] inputs | _ => ([], true) end.
End slack.

(** ** The supervisor *)

Definition MAX_STREAM_PUMPS : nat := 256.

(** A pump runs, leaves its loop to take itself out of the map, and is finished. *)
Inductive PumpPhase := Running | Leaving | Finished.
#[export] Instance PumpPhase_eq_dec : EqDecision PumpPhase.
Proof. solve_decision. Defined.

Section supervisor.
Context {Req : Type} (thread_of : Req → ThreadId).
(** The map from threads to tasks, and the tasks by number. *)
Record pumps := mkPumps { pp_live : gmap ThreadId nat; pp_tasks : list (Req * PumpPhase) }.
Context (order : gmap ThreadId nat → list (ThreadId * nat)).

Definition phase_of (p : pumps) (task : nat) : option PumpPhase := snd <$> pp_tasks p !! task.
Definition is_finished (p : pumps) (task : nat) : bool := bool_decide (phase_of p task = Some Finished).
Definition set_phase (task : nat) (ph : PumpPhase) (p : pumps) : pumps :=
  mkPumps (pp_live p) (alter (λ t, (t.1, ph)) task (pp_tasks p)).

(** [abort] stops a task where it awaits; one that is leaving only takes a lock. *)
Definition abort_pump (task : nat) (p : pumps) : pumps :=
  if bool_decide (phase_of p task = Some Running) then set_phase task Finished p else p.

Definition spawn_pump (req : Req) (p : pumps) : pumps :=
  let thread_id := thread_of req in
  if bool_decide (is_Some (pp_live p !! thread_id)) then p
  else
    let p :=
      if MAX_STREAM_PUMPS <=? size (pp_live p) then
        match List.find (λ kt, is_finished p kt.2) (order (pp_live p)) with
        | Some (k, _) => mkPumps (delete k (pp_live p)) (pp_tasks p)
        | None =>
            match order (pp_live p) with
            | (k, task) :: _ => abort_pump task (mkPumps (delete k (pp_live p)) (pp_tasks p))
            | [] => p
            end
        end
      else p in
    mkPumps (<[thread_id := length (pp_tasks p)]> (pp_live p)) (pp_tasks p ++ [(req, Running)]).

(** What may happen: a request to attach; a pump leaves its loop; a pump that left
    removes its thread from the map. *)
Inductive pumps_op := OpAttach (req : Req) | OpLeave (task : nat) | OpRemove (task : nat).
Definition pumps_step (p : pumps) (op : pumps_op) : pumps :=
  match op with
  | OpAttach req => spawn_pump req p
  | OpLeave task => if bool_decide (phase_of p task = Some Running) then set_phase task Leaving p else p
  | OpRemove task =>
      match pp_tasks p !! task with
      | Some (req, Leaving) => set_phase task Finished (mkPumps (delete (thread_of req) (pp_live p)) (pp_tasks p))
      | _ => p
      end
  end.
Definition no_pumps : pumps := mkPumps ∅ [].
Definition run_pumps (ops : list pumps_op) : pumps := foldl pumps_step no_pumps ops.
End supervisor.
