(* ===== verification/ChatPumpLaws.v ===== *)
(** * What the pumps promise

    A pump posts what people should see in the order of the stream; the connect messages
    of a turn follow the first text of the turn, the last eight of them.  The supervisor
    keeps at most [MAX_STREAM_PUMPS] threads, each with a task of its own. *)

From Stdlib Require Import ZArith Lia Ascii String.
From stdpp Require Import base gmap list strings.
From S2P Require Import Prelude Types Responses Signed ChatText ChatPump.

(** ** One pump *)

Section pump.
Context {Post : Type} (post_text : nat → AgentId → str → option ColleagueId → list Post)
  (post_link : nat → AgentId → str → list Post) (connect : nat → ResponseChunk → option str).

(** The connect message an event carries, and whether it lets the deferred ones out. *)
Definition link_of (n : nat) (ev : PumpEvent) : list DeferredLink :=
  match ev with
  | StreamItem chunk agent =>
      if is_wire chunk then match connect n chunk with Some m => [mkDeferred m agent] | None => [] end else []
  | _ => []
  end.
Definition releases (ev : PumpEvent) : bool :=
  match ev with
  | StreamItem chunk _ =>
      negb (is_wire chunk) && (chunk_is_terminal chunk || match render_payload chunk with Some _ => true | None => false end)
  | _ => false
  end.
Definition text_of (n : nat) (ev : PumpEvent) : list Post :=
  match ev with
  | StreamItem chunk agent =>
      if is_wire chunk then []
      else match render_payload chunk with Some (text, to) => post_text n agent text to | None => [] end
  | _ => []
  end.
Fixpoint links_of (n : nat) (evs : list PumpEvent) : list DeferredLink :=
  match evs with [] => [] | ev :: evs => link_of n ev ++ links_of (S n) evs end.

(** The newest that fit. *)
Definition newest (links : list DeferredLink) : list DeferredLink :=
  drop (length links - MAX_DEFERRED_WIRE_LINKS) links.
Definition post_links (n : nat) (links : list DeferredLink) : list Post :=
  mjoin ((λ p, post_link n (dl_from_agent p) (dl_message p)) <$> newest links).

(** What a pump posts, turn by turn, and whether it ended. *)
Inductive turns : nat → list PumpInput → list Post → bool → Prop :=
| turn_released n quiet ev rest posts ended :
    Forall (λ e, releases e = false) quiet → releases ev = true →
    turns (n + S (length quiet)) rest posts ended →
    turns n ((PumpNext ∘ Some <$> quiet) ++ PumpNext (Some ev) :: rest)
      (text_of (n + length quiet) ev ++ post_links (n + length quiet) (links_of n quiet) ++ posts) ended
| turn_ended n quiet stop rest :
    Forall (λ e, releases e = false) quiet → stop = PumpIdle ∨ stop = PumpNext None →
    turns n ((PumpNext ∘ Some <$> quiet) ++ stop :: rest)
      (post_links (n + length quiet) (links_of n quiet)) true
| turn_cancelled n quiet rest :
    Forall (λ e, releases e = false) quiet →
    turns n ((PumpNext ∘ Some <$> quiet) ++ PumpCancelled :: rest) [] true
| turn_open n quiet :
    Forall (λ e, releases e = false) quiet → turns n (PumpNext ∘ Some <$> quiet) [] false.

Lemma newest_push links x : push_deferred x (newest links) = newest (links ++ [x]).
Proof.
  unfold push_deferred, newest, MAX_DEFERRED_WIRE_LINKS. rewrite length_app, length_drop. cbn [length].
  destruct (8 <=? length links - (length links - 8)) eqn:Hl; bools.
  - rewrite drop_app_le by lia. f_equal. replace (length links + 1 - 8) with (length links - 8 + 1) by lia.
    rewrite <- drop_drop. by destruct (drop _ links).
  - replace (length links + 1 - 8) with 0 by lia. by replace (length links - 8) with 0 by lia.
Qed.

Lemma handle_quiet n links ev : releases ev = false →
  handle_stream_event post_text post_link connect n (newest links) ev = ([], newest (links ++ link_of n ev)).
Proof.
  destruct ev as [chunk agent| |]; cbn [releases handle_stream_event link_of]; [|by rewrite app_nil_r..].
  destruct (is_wire chunk); cbn [negb andb].
  - intros _. destruct (connect n chunk); [by rewrite newest_push|by rewrite app_nil_r].
  - intros Hr. rewrite app_nil_r. apply orb_false_iff in Hr as [-> Hr].
    by destruct (render_payload chunk) as [[]|].
Qed.
Lemma handle_release n links ev : releases ev = true →
  handle_stream_event post_text post_link connect n (newest links) ev = (text_of n ev ++ post_links n links, []).
Proof.
  destruct ev as [chunk agent| |]; cbn [releases handle_stream_event text_of]; [|done..].
  destruct (is_wire chunk); [done|]. cbn [negb andb]. intros Hr. rewrite orb_comm in Hr.
  by destruct (render_payload chunk) as [[]|]; cbn [orb] in *; [|rewrite Hr].
Qed.

(** The invariant of the loop: it holds the newest messages of the turn so far. *)
Lemma run_turns inputs : ∀ n0 quiet,
  Forall (λ e, releases e = false) quiet →
  turns n0 ((PumpNext ∘ Some <$> quiet) ++ inputs)
    (run_pump post_text post_link connect (n0 + length quiet) (newest (links_of n0 quiet)) inputs).1
    (run_pump post_text post_link connect (n0 + length quiet) (newest (links_of n0 quiet)) inputs).2.
Proof.
  assert (Hsnoc : ∀ ev quiet n0, links_of n0 (quiet ++ [ev]) = links_of n0 quiet ++ link_of (n0 + length quiet) ev).
  { intros ev quiet. induction quiet as [|e quiet IH]; intros n0; cbn [links_of app length].
    - by rewrite app_nil_r, Nat.add_0_r.
    - rewrite IH, app_assoc. do 2 f_equal. lia. }
  induction inputs as [|i inputs IH]; intros n0 quiet Hq; cbn [run_pump fst snd].
  { rewrite app_nil_r. by constructor. }
  destruct i as [| |[ev|]]; cbn [fst snd].
  - by constructor.
  - apply turn_ended; auto.
  - destruct (releases ev) eqn:Hr.
    + rewrite handle_release by done. destruct (run_pump _ _ _ _ _ inputs) as [posts ended] eqn:Er. cbn [fst snd].
      rewrite <- app_assoc. apply turn_released; [done..|].
      specialize (IH (n0 + S (length quiet)) [] ltac:(constructor)). cbn [length links_of fmap list_fmap app] in IH.
      rewrite Nat.add_0_r in IH. replace (S (n0 + length quiet)) with (n0 + S (length quiet)) in Er by lia.
      change (newest []) with (@nil DeferredLink) in IH. by rewrite Er in IH.
    + rewrite handle_quiet by done. rewrite <- Hsnoc.
      specialize (IH n0 (quiet ++ [ev])). rewrite length_app, fmap_app, <- app_assoc in IH. cbn [length fmap list_fmap app] in IH.
      replace (S (n0 + length quiet)) with (n0 + (length quiet + 1)) by lia.
      destruct (run_pump _ _ _ _ _ inputs) as [posts ended]. cbn [fst snd app].
      apply IH. apply Forall_app. by repeat constructor.
  - apply turn_ended; auto.
Qed.
End pump.

(** What holds of every post. *)
Lemma run_pump_posts {Post} text link connect (P : Post → Prop) :
  (∀ n a t to, Forall P (text n a t to)) → (∀ n a m, Forall P (link n a m)) →
  ∀ inputs n d, Forall P (run_pump text link connect n d inputs).1.
Proof.
  intros Ht Hl.
  assert (Hf : ∀ n d, Forall P (flush_deferred link n d)).
  { intros n d. unfold flush_deferred. induction d; [constructor|]. by apply Forall_app. }
  assert (Hh : ∀ n d ev, Forall P (handle_stream_event text link connect n d ev).1).
  { intros n d [chunk agent| |]; [|constructor..]. cbn [handle_stream_event].
    destruct (is_wire chunk); [by destruct (connect n chunk); constructor|].
    destruct (render_payload chunk) as [[t to]|]; [cbn [orb]; by apply Forall_app|].
    destruct (chunk_is_terminal chunk); [by apply Forall_app|constructor]. }
  induction inputs as [|i inputs IH]; intros n d; [constructor|].
  cbn [run_pump]. destruct i as [| |[ev|]]; cbn [fst]; [constructor|apply Hf| |apply Hf].
  specialize (Hh n d ev). destruct (handle_stream_event _ _ _ n d ev) as [posts d'].
  specialize (IH (S n) d'). destruct (run_pump _ _ _ _ d' inputs). by apply Forall_app.
Qed.
Lemma discord_reply_place req bot content pinged :
  Forall (λ p, dq_content p ≠ [] ∧ dq_container p = da_container_id req ∧ dq_reply_to p = da_reply_to req)
    (discord_post_reply req bot content pinged).
Proof. unfold discord_post_reply. destruct (is_empty content) eqn:He; constructor; [|constructor]. by apply is_empty_false in He. Qed.

(** C39: Whatever a thread's stream yields, the Discord and the Lark pump post turn by
    turn: the text of an event that shows one, then the connect messages that came since
    the last text, the newest eight of them in their order; what is pending when the
    stream ends or stays idle goes out then, and of these two pumps only a cancelled one
    drops it (the Slack pump drops it also when the stream ends or stays idle,
    [idle_drops_cards]). Of Discord's posts also: each has a text, and all go to the
    place that was attached, as replies to its message. *)
Theorem pump_turns `{CharClass, Macs, UuidPrinter} (dir : Directory) (dreq : DiscordAttach) (lreq : LarkAttach) (inputs : list PumpInput) :
  turns (discord_post_text dir dreq) (discord_post_link dir dreq)
    (λ n, connect_message_of (discord_connect_url dir dreq n) DISCORD_CONNECTION_REASON_MAX_CHARS)
    0 inputs (discord_pump dir dreq inputs).1 (discord_pump dir dreq inputs).2
  ∧ turns (lark_post_text dir lreq) (lark_post_link dir lreq)
    (λ n, connect_message_of (lark_connect_url dir lreq n) LARK_CONNECTION_REASON_MAX_CHARS)
    0 inputs (lark_pump dir lreq inputs).1 (lark_pump dir lreq inputs).2
  ∧ Forall (λ p, dq_content p ≠ [] ∧ dq_container p = da_container_id dreq ∧ dq_reply_to p = da_reply_to dreq)
      (discord_pump dir dreq inputs).1.
Proof.
  split_and!; [exact (run_turns _ _ _ inputs 0 [] ltac:(constructor))..|].
  apply run_pump_posts; intros; unfold discord_post_text, discord_post_link.
  - destruct (discord_render_reply _ _ _ _). apply discord_reply_place.
  - apply discord_reply_place.
Qed.

(** ** The supervisor *)

Section supervisor.
Context {Req : Type} (thread_of : Req → ThreadId) (order : gmap ThreadId nat → list (ThreadId * nat)).

(** The map is bounded, and every thread of it has a task that serves it. *)
Definition pumps_ok (p : pumps (Req := Req)) : Prop :=
  size (pp_live p) ≤ MAX_STREAM_PUMPS
  ∧ ∀ k task, pp_live p !! k = Some task → ∃ req ph, pp_tasks p !! task = Some (req, ph) ∧ thread_of req = k.

Lemma set_phase_live task ph (p : pumps (Req := Req)) : pp_live (set_phase task ph p) = pp_live p.
Proof. done. Qed.
Lemma set_phase_ok task ph p : pumps_ok p → pumps_ok (set_phase task ph p).
Proof.
  intros [Hs Ht]. split; [done|]. intros k t Hk. destruct (Ht k t Hk) as (req & ph' & Hl & Hr).
  cbn [set_phase pp_tasks]. destruct (decide (t = task)) as [->|Hne].
  - exists req, ph. by rewrite list_lookup_alter_eq, Hl.
  - exists req, ph'. by rewrite list_lookup_alter_ne by done.
Qed.
Lemma abort_pump_ok task p : pumps_ok p → pumps_ok (abort_pump task p).
Proof. unfold abort_pump. case_bool_decide; auto using set_phase_ok. Qed.
Lemma delete_ok k p : pumps_ok p → pumps_ok (mkPumps (delete k (pp_live p)) (pp_tasks p)).
Proof.
  intros [Hs Ht]. split; cbn [pp_live pp_tasks].
  - rewrite map_size_delete. destruct (pp_live p !! k); cbn; lia.
  - intros k' t Hk. apply lookup_delete_Some in Hk as [_ Hk]. eauto.
Qed.

Context (Horder : ∀ m, order m ≡ₚ map_to_list m).

(** A full map makes room for one. *)
Lemma evict_room (p : pumps (Req := Req)) : pumps_ok p → 0 < size (pp_live p) →
  ∃ k q, (pumps_ok q ∧ size (pp_live q) < size (pp_live p) ∧ length (pp_tasks q) = length (pp_tasks p)
    ∧ pp_live q = delete k (pp_live p))
    ∧ ∀ req, bool_decide (is_Some (pp_live p !! thread_of req)) = false → MAX_STREAM_PUMPS ≤ size (pp_live p) →
       spawn_pump thread_of order req p
       = mkPumps (<[thread_of req := length (pp_tasks q)]> (pp_live q)) (pp_tasks q ++ [(req, Running)]).
Proof.
  intros Hok Hs.
  assert (Hin : ∀ k t, In (k, t) (order (pp_live p)) → pp_live p !! k = Some t).
  { intros k t Hk. apply list_elem_of_In in Hk. rewrite Horder in Hk. by apply elem_of_map_to_list. }
  assert (Hdel : ∀ k t, In (k, t) (order (pp_live p)) → size (delete k (pp_live p)) < size (pp_live p)).
  { intros k t Hk. rewrite map_size_delete, (Hin k t Hk). cbn. lia. }
  destruct (List.find (λ kt, is_finished p kt.2) (order (pp_live p))) as [[k t]|] eqn:Ef.
  - exists k, (mkPumps (delete k (pp_live p)) (pp_tasks p)). split.
    + apply find_some in Ef as [Hk _]. split_and!; [by apply delete_ok|by eapply Hdel|done..].
    + intros req Hr Hm. unfold spawn_pump. rewrite Hr, (proj2 (Nat.leb_le _ _) Hm), Ef. done.
  - destruct (order (pp_live p)) as [|[k t] rest] eqn:Eo.
    { assert (Hl : length (order (pp_live p)) = 0) by (by rewrite Eo). rewrite Horder, length_map_to_list in Hl. lia. }
    exists k, (abort_pump t (mkPumps (delete k (pp_live p)) (pp_tasks p))). split.
    + assert (Hl : pp_live (abort_pump t (mkPumps (delete k (pp_live p)) (pp_tasks p))) = delete k (pp_live p))
        by (unfold abort_pump; by case_bool_decide).
      rewrite Hl. split_and!; [by apply abort_pump_ok, delete_ok|eapply Hdel; left; reflexivity| |done].
      unfold abort_pump. case_bool_decide; [|done]. by cbn; rewrite length_alter.
    + intros req Hr Hm. unfold spawn_pump. rewrite Hr, (proj2 (Nat.leb_le _ _) Hm), Eo, Ef. done.
Qed.

Lemma add_ok req (q : pumps (Req := Req)) : pumps_ok q → size (pp_live q) < MAX_STREAM_PUMPS →
  pumps_ok (mkPumps (<[thread_of req := length (pp_tasks q)]> (pp_live q)) (pp_tasks q ++ [(req, Running)])).
Proof.
  intros [Hs Ht] Hm. split; cbn [pp_live pp_tasks].
  - rewrite map_size_insert. destruct (pp_live q !! _); cbn; lia.
  - intros k t Hk. apply lookup_insert_Some in Hk as [[<- <-]|[_ Hk]].
    + exists req, Running. by rewrite lookup_app_r, Nat.sub_diag by lia.
    + destruct (Ht k t Hk) as (r & ph & Hl & Hr). exists r, ph. by rewrite (lookup_app_l_Some _ _ _ _ Hl).
Qed.

Lemma spawn_pump_ok req (p : pumps (Req := Req)) : pumps_ok p →
  pumps_ok (spawn_pump thread_of order req p) ∧ is_Some (pp_live (spawn_pump thread_of order req p) !! thread_of req).
Proof.
  intros Hok. destruct (bool_decide (is_Some (pp_live p !! thread_of req))) eqn:Hr.
  { unfold spawn_pump. rewrite Hr. apply bool_decide_eq_true in Hr. done. }
  destruct (decide (MAX_STREAM_PUMPS ≤ size (pp_live p))) as [Hm|Hm].
  - destruct (evict_room p Hok) as (k & q & (Hq & Hlt & _) & Heq); [unfold MAX_STREAM_PUMPS in Hm; lia|].
    rewrite (Heq req Hr Hm). destruct Hok as [Hs _]. split; [apply add_ok; [done|lia]|]. cbn. by rewrite lookup_insert_eq.
  - unfold spawn_pump. rewrite Hr, (proj2 (Nat.leb_gt _ _)) by lia. split; [apply add_ok; [done|lia]|].
    cbn. by rewrite lookup_insert_eq.
Qed.

Lemma pumps_step_ok p op : pumps_ok p → pumps_ok (pumps_step thread_of order p op).
Proof.
  intros Hok. destruct op as [req|task|task]; cbn [pumps_step].
  - by apply spawn_pump_ok.
  - case_bool_decide; auto using set_phase_ok.
  - destruct (pp_tasks p !! task) as [[req []]|]; auto using set_phase_ok, delete_ok.
Qed.

Lemma run_pumps_ok ops : pumps_ok (run_pumps thread_of order ops).
Proof.
  unfold run_pumps. assert (Hno : pumps_ok (no_pumps (Req := Req))).
  { split; [cbn; rewrite map_size_empty; lia|]. intros k t Hk. cbn in Hk. by rewrite lookup_empty in Hk. }
  revert Hno. generalize (no_pumps (Req := Req)). induction ops as [|op ops IH]; intros p Hp; [done|].
  by apply IH, pumps_step_ok.
Qed.

(** whatever requests and ends of pumps come in whatever order, the supervisor's map
    stays within [MAX_STREAM_PUMPS] threads and each of them has a task attached for that
    thread; and a request leaves its thread in the map, at the price of at most one other
    thread. *)
Theorem pump_map_bounded (ops : list pumps_op) (req : Req) :
  let p := run_pumps thread_of order ops in
  let q := spawn_pump thread_of order req p in
  pumps_ok p ∧ pumps_ok q ∧ is_Some (pp_live q !! thread_of req)
  ∧ ∃ victim, ∀ k, k ≠ victim → k ≠ thread_of req → pp_live q !! k = pp_live p !! k.
Proof.
  cbv zeta. pose proof (run_pumps_ok ops) as Hok.
  split; [done|]. destruct (spawn_pump_ok req _ Hok) as [Hq Hr]. split; [done|]. split; [done|].
  revert Hok. generalize (run_pumps thread_of order ops). intros p Hok. clear Hq Hr.
  destruct (bool_decide (is_Some (pp_live p !! thread_of req))) eqn:Hr.
  { exists (thread_of req). intros k _ _. unfold spawn_pump. by rewrite Hr. }
  destruct (decide (MAX_STREAM_PUMPS ≤ size (pp_live p))) as [Hm|Hm].
  - destruct (evict_room p Hok) as (k & q & (_ & _ & _ & Hd) & Heq); [unfold MAX_STREAM_PUMPS in Hm; lia|].
    exists k. intros k' Hk Hk'. rewrite (Heq req Hr Hm). cbn. by rewrite lookup_insert_ne, Hd, lookup_delete_ne by done.
  - exists (thread_of req). intros k' _ Hk'. unfold spawn_pump.
    rewrite Hr, (proj2 (Nat.leb_gt _ _)) by lia. cbn. by rewrite lookup_insert_ne by done.
Qed.
End supervisor.

(** ** On concrete threads *)

Module PumpDemo.
#[local] Instance ascii : CharClass := is_ascii_alphanumeric.
#[local] Instance macs : Macs := {| hmac_sha256 := λ _ _, replicate 32 0%N; sha256_of := λ _, replicate 32 0%N |}.
#[local] Instance uuid : UuidPrinter := λ _, lit "id".

(** No store answers. *)
Definition silent : Directory :=
  mkDirectory (λ _ _, Err []) (λ _, Err []) (λ _ _, Err []) (λ _ _, Err []) (λ _ _, true) (λ _, 0%Z) [] (lit "https://p/").
Definition place : DiscordAttach := mkDAttach 7%N 1%N None (lit "10") (lit "20") (Some (lit "30")).
Definition asked (i : nat) : PumpInput :=
  PumpNext (Some (StreamItem (RWireMcpRequest 1%N (lit "c") (show_Z (Z.of_nat i)) (lit "why") StaticHeaders None) 1%N)).
Definition done_event (s : string) : PumpInput := PumpNext (Some (StreamItem (RDone (lit s)) 1%N)).

(** Nine requests in a turn: the first one is dropped. *)
Example nine_requests :
  let out := discord_pump silent place ((asked <$> seq 0 9) ++ [done_event "ready"]) in
  length out.1 = 9
  ∧ dq_content <$> out.1 !! 0 = Some (lit "ready")
  ∧ existsb (λ p, contains_str (lit "wiring 0 in") (dq_content p)) out.1 = false
  ∧ existsb (λ p, contains_str (lit "wiring 1 in") (dq_content p)) out.1 = true.
Proof. vm_compute. done. Qed.

(** Discord's pump posts what is pending when a thread stays idle or a turn ends without
    a text, Slack's drops it. *)
Definition slack_run : list PumpInput → list (SPost (Blocks := unit)) * bool :=
  slack_pump (λ _ _ _ _, tt) (λ _ _ _, []) (λ _ _, Err []) (Ok tt).
Example idle_drops_cards :
  length (discord_pump silent place [asked 0; PumpIdle]).1 = 1
  ∧ (slack_run [asked 0; PumpIdle]).1 = []
  ∧ length (discord_pump silent place [asked 0; done_event ""; PumpCancelled]).1 = 1
  ∧ (slack_run [asked 0; done_event ""; PumpIdle]).1 = []
  ∧ length (slack_run [asked 0; done_event "ready"]).1 = 2.
Proof. vm_compute. done. Qed.

(** The supervisor, for requests that say the thread and the message replied to. *)
Definition req : Type := ThreadId * nat.
Definition sup : list (pumps_op (Req := req)) → pumps := run_pumps fst map_to_list.

(** A thread that has a pump keeps its first request. *)
Example first_request_kept :
  pp_tasks (sup [OpAttach (7%N, 1); OpAttach (7%N, 2)]) = [((7%N, 1), Running)].
Proof. vm_compute. done. Qed.

(** A request that comes while the pump leaves is lost: the thread has no pump. *)
Example attach_while_leaving_lost :
  let p := sup [OpAttach (7%N, 1); OpLeave 0; OpAttach (7%N, 2); OpRemove 0] in
  map_to_list (pp_live p) = [] ∧ pp_tasks p = [((7%N, 1), Finished)].
Proof. vm_compute. done. Qed.

(** A leaving pump that is evicted takes its successor's entry away: the thread ends with
    two pumps, which post everything twice. *)
Definition crowd : list pumps_op := (λ i, OpAttach (N.of_nat i, 0)) <$> seq 0 256.
Definition first_out : ThreadId := default 0%N (fst <$> head (map_to_list (pp_live (sup crowd)))).
Example two_pumps_for_a_thread :
  let p := sup (crowd ++ [OpLeave (N.to_nat first_out); OpAttach (1000%N, 0); OpAttach (first_out, 1);
                          OpRemove (N.to_nat first_out); OpAttach (first_out, 2)]) in
  filter (λ t, t.1.1 = first_out ∧ t.2 = Running) (pp_tasks p) = [((first_out, 1), Running); ((first_out, 2), Running)].
Proof. vm_compute. done. Qed.

(** The map of pumps has no age: the one that makes room here is not the oldest. *)
Example evicted_is_not_oldest : first_out ≠ 0%N.
Proof. vm_compute. done. Qed.

Lemma pump_map_bounded_witness :
  size (pp_live (run_pumps fst map_to_list [OpAttach (7%N, 1)])) ≤ MAX_STREAM_PUMPS
  ∧ is_Some (pp_live (spawn_pump fst map_to_list (8%N, 1) (run_pumps fst map_to_list [OpAttach (7%N, 1)])) !! 8%N).
Proof.
  destruct (pump_map_bounded (Req := req) fst map_to_list (λ m, reflexivity (map_to_list m)) [OpAttach (7%N, 1)] (8%N, 1))
    as ([Hs _] & _ & Hr & _).
  split; [exact Hs|exact Hr].
Defined.
End PumpDemo.
