(* ===== verification/DiscordBridge.v ===== *)
(** * From Discord into the office

    [discord/bridge.rs] with its stores [directory.rs], [channel_map.rs],
    [thread_map.rs], [roster.rs] and the event of [event.rs]: a message in a guild or a
    direct message becomes a row of a thread, and a mention wakes the agent behind the
    bot; a click on a card decides an approval.  Discord's answers (threads opened,
    history read, files fetched and stored) and the decider of [ApprovalFlow] are the
    environment's. *)

From Stdlib Require Import ZArith Lia Ascii String.
From stdpp Require Import base gmap list strings sets relations.
From S2P Require Import Prelude Program Types Signed ChatText ChatPost ChatPump Queue Threads Colleagues Approvals AgentPrompt Identity Office.

(** ** Events *)

Record Author := mkAuthor { au_id : DiscordUserId; au_username : str; au_global_name : option str; au_bot : bool }.
Definition Author_display_name (a : Author) (nick : option str) : option str :=
  match nick with
  | Some n => Some n
  | None =>
      match au_global_name a with
      | Some n => Some n
      | None => if is_empty (au_username a) then None else Some (au_username a)
      end
  end.

Record DiscordAttachment := mkDiscordAttachment {
  da_filename : str; da_content_type : option str; da_size : Z; da_url : str }.
Definition DiscordAttachment_try_from (raw : DiscordAttachment) : res ParseError DiscordAttachment :=
  if is_empty (da_filename raw) then Err (Empty "discord.attachment.filename")
  else if is_empty (da_url raw) then Err (Empty "discord.attachment.url")
  else Ok raw.

Record InboundMessage := mkInbound {
  im_message_id : str; im_channel_id : str; im_guild_id : option str; im_author : Author;
  im_member_nick : option str; im_content : str; im_mentions : list Author;
  im_attachments : list DiscordAttachment; im_webhook_id : option str }.
(** [From<RawMessage>]: an attachment without a name or an address is dropped. *)
Definition InboundMessage_from (raw : InboundMessage) : InboundMessage :=
  mkInbound (im_message_id raw) (im_channel_id raw) (im_guild_id raw) (im_author raw) (im_member_nick raw)
    (im_content raw) (im_mentions raw) (omap (λ a, res_ok (DiscordAttachment_try_from a)) (im_attachments raw))
    (im_webhook_id raw).

Definition mentions_bot (m : InboundMessage) (bot : DiscordUserId) : bool :=
  existsb (λ a, bool_decide (au_id a = bot)) (im_mentions m)
  || contains_str (lit "<@" ++ bot ++ lit ">") (im_content m)
  || contains_str (lit "<@!" ++ bot ++ lit ">") (im_content m).
Definition mention_names (m : InboundMessage) : list (DiscordUserId * str) :=
  omap (λ a, (λ n, (au_id a, n)) <$> Author_display_name a None) (im_mentions m).

Record InboundInteraction := mkInteraction {
  ii_id : str; ii_application_id : str; ii_token : str; ii_type : Z; ii_user : option Author;
  ii_nick : option str; ii_custom_id : option str }.
Definition DISCORD_INTERACTION_TYPE_COMPONENT : Z := 3.

Inductive DiscordEvent :=
| DeMessage (m : InboundMessage)
| DeGuildCreate (members : list (Author * option str))
| DeMemberUpsert (user : Author) (nick : option str)
| DeInteraction (i : InboundInteraction)
| DeOther.

(** ** Tables *)

Record DiscordApp := mkDiscordApp { ap_org : OrgId; ap_application_id : str; ap_agent : AgentId }.
Record HandleRow := mkHandle {
  hd_org : OrgId; hd_snowflake : DiscordUserId; hd_display_name : option str; hd_colleague : ColleagueId }.
Record DiscordChannelRow := mkDiscordChannelRow { cr_id : ChannelId; cr_org : OrgId; cr_name : str; cr_archived : bool }.
Record BindingRow := mkBinding {
  bn_parent : option str; bn_is_thread : bool; bn_thread : ThreadId; bn_backfill_complete : bool }.
(** The keys: organisation, guild and channel; organisation, bot, guild and container. *)
Definition ChannelKey : Type := OrgId * (str * str).
Definition ThreadKey : Type := OrgId * (str * (str * str)).

Record bridge := mkBridge {
  br_office : office;
  br_apps : list DiscordApp;
  br_handles : list HandleRow;
  br_channel_rows : list DiscordChannelRow;
  br_channels : gmap ChannelKey ChannelId;
  br_threads : gmap ThreadKey BindingRow }.

Definition with_office (o : office) (b : bridge) : bridge :=
  mkBridge o (br_apps b) (br_handles b) (br_channel_rows b) (br_channels b) (br_threads b).
Definition with_dir (d : directory) (o : office) : office :=
  mkOffice (of_store o) (of_queue o) d (of_log o) (of_hub o) (of_approvals o).
Definition with_handles (h : list HandleRow) (b : bridge) : bridge :=
  mkBridge (br_office b) (br_apps b) h (br_channel_rows b) (br_channels b) (br_threads b).
Definition with_channels (rows : list DiscordChannelRow) (m : gmap ChannelKey ChannelId) (b : bridge) : bridge :=
  mkBridge (br_office b) (br_apps b) (br_handles b) rows m (br_threads b).
Definition with_threads (t : gmap ThreadKey BindingRow) (b : bridge) : bridge :=
  mkBridge (br_office b) (br_apps b) (br_handles b) (br_channel_rows b) (br_channels b) t.
Definition br_dir (b : bridge) : directory := of_dir (br_office b).
Definition set_dir (d : directory) (b : bridge) : bridge := with_office (with_dir d (br_office b)) b.

Inductive BridgeError :=
| BrUnknownApp (app : str)
| BrParse (e : ParseError)
| BrPost (e : PostError)
| BrThread (what : string) (e : ThreadError)
| BrColleague (e : ColleagueError)
| BrQueue (e : PromptError)
| BrApproval (e : ApprovalError)
| BrDb (msg : str).

Definition BTx : Type → Type := Tx bridge BridgeError.

(** ** The directory of people *)

Definition DISCORD_DISPLAY_NAME_MAX : nat := 256.
Record ShadowColleague := mkShadow { sc_colleague : ColleagueId; sc_user : UserId }.

(** CHECKs of [users] and [discord_user_handles]. *)
Definition user_name_ok (n : option str) : bool := match n with Some s => str_len s <=? 200 | None => true end.
Definition handle_name_ok (n : option str) : bool :=
  match n with Some s => (1 <=? str_len s) && (str_len s <=? 256) | None => true end.

Definition shadow_email (snowflake : DiscordUserId) : str := lit "discord-" ++ snowflake ++ lit "@shadow.invalid".
Definition set_user_name (u : UserId) (n : str) (d : directory) : directory :=
  mkDirectory (dir_colleagues d) (dir_agent_names d)
    (alter (λ r, if us_display_name r then r else mkUserRow (Some n) (us_email r)) u (dir_users d))
    (channel_members d) (channel_agent_members d).
Definition is_handle (org : OrgId) (snowflake : DiscordUserId) (h : HandleRow) : bool :=
  bool_decide (hd_org h = org) && bool_decide (hd_snowflake h = snowflake).
Definition colleague_row (d : directory) (c : ColleagueId) : option ColleagueRow :=
  List.find (λ r, bool_decide (cw_id r = c)) (dir_colleagues d).
Definition rename_handle (org : OrgId) (snowflake : DiscordUserId) (n : option str) (hs : list HandleRow)
    : list HandleRow :=
  (λ h, if is_handle org snowflake h then mkHandle (hd_org h) (hd_snowflake h) n (hd_colleague h) else h) <$> hs.

(** A known person: both names are refreshed. *)
Definition refresh_handle (org : OrgId) (snowflake : DiscordUserId) (user : UserId) (n : str) : BTx unit :=
  tguard (handle_name_ok (Some n)) (BrDb (lit "discord_user_handles_display_name_check")) ;;$
  tmod (λ b, with_handles (rename_handle org snowflake (Some n) (br_handles b)) b) ;;$
  unnamed <-$ tget (λ b, match dir_users (br_dir b) !! user with
                         | Some r => bool_decide (us_display_name r = None)
                         | None => false
                         end) ;
  tguard (negb unnamed || user_name_ok (Some n)) (BrDb (lit "users_display_name_check")) ;;$
  tmod (λ b, set_dir (set_user_name user n (br_dir b)) b).

Definition human_row (org : OrgId) (user : UserId) (colleague : ColleagueId) : ColleagueRow :=
  mkColleagueRow colleague org CKHuman (Some user) None.
Definition minted (org : OrgId) (snowflake : DiscordUserId) (n : option str) (user : UserId) (colleague : ColleagueId)
    (d : directory) : directory :=
  mkDirectory (dir_colleagues d ++ [human_row org user colleague]) (dir_agent_names d)
    (<[user := mkUserRow n (Some (shadow_email snowflake))]> (dir_users d)) (channel_members d) (channel_agent_members d).
(** The rows of users, memberships (with the colleague its trigger mints) and handles. *)
Definition add_shadow (org : OrgId) (snowflake : DiscordUserId) (n : option str) (user : UserId) (colleague : ColleagueId)
    (b : bridge) : bridge :=
  let d := minted org snowflake n user colleague (br_dir b) in
  let s := of_store (br_office b) in
  let s := mkStore (threads s) (thread_seq s) (thread_messages s) (thread_compactions s) (tool_artifacts s)
             (reflection_checkpoints s) (agent_thread_states s) (org_members s ++ [(user, org)])
             (λ c, if bool_decide (c = colleague) then display_name d (human_row org user colleague) else names s c) in
  let h := if existsb (is_handle org snowflake) (br_handles b) then rename_handle org snowflake n (br_handles b)
           else br_handles b ++ [mkHandle org snowflake n colleague] in
  with_handles h (with_office (with_store s (with_dir d (br_office b))) b).

(** A new one: the address of the user is unique over all organisations. *)
Definition email_taken `{Citext} (user : UserId) (email : str) (b : bridge) : bool :=
  existsb (λ kv, bool_decide (kv.1 = user) || match us_email kv.2 with Some e => ci_eq e email | None => false end)
    (map_to_list (dir_users (br_dir b))).
Definition insert_shadow `{Citext} (org : OrgId) (snowflake : DiscordUserId) (n : option str) (user : UserId)
    (colleague : ColleagueId) : BTx ShadowColleague :=
  taken <-$ tget (email_taken user (shadow_email snowflake)) ;
  tguard (negb taken) (BrDb (lit "users_email_key")) ;;$
  tguard (user_name_ok n) (BrDb (lit "users_display_name_check")) ;;$
  clash <-$ tget (λ b, existsb (λ r, bool_decide (cw_id r = colleague)) (dir_colleagues (br_dir b))) ;
  tguard (negb clash) (BrDb (lit "colleagues_pkey")) ;;$
  tguard (handle_name_ok n) (BrDb (lit "discord_user_handles_display_name_check")) ;;$
  tmod (add_shadow org snowflake n user colleague) ;;$
  tret (mkShadow colleague user).

(** The advisory lock makes the transaction one step. *)
Definition resolve_or_mint_tx `{Citext} (org : OrgId) (snowflake : DiscordUserId) (name : option str)
    (user : UserId) (colleague : ColleagueId) : BTx ShadowColleague :=
  let display := take DISCORD_DISPLAY_NAME_MAX <$> name in
  existing <-$ tget (λ b, h ← List.find (is_handle org snowflake) (br_handles b); colleague_row (br_dir b) (hd_colleague h)) ;
  match existing with
  | Some row =>
      shadow <-$ tlift (ok_or (cw_user_id row) (BrDb (lit "unexpected null"))) ;
      match display with Some n => refresh_handle org snowflake shadow n | None => tret tt end ;;$
      tret (mkShadow (cw_id row) shadow)
  | None => insert_shadow org snowflake display user colleague
  end.

(** ** Channels and threads *)

Definition channel_name_for (channel : str) : res BridgeError ChannelName :=
  res_map_err BrParse (ChannelName_try_from (lit "discord-" ++ channel)).

Definition create_channel_and_mapping (key : ChannelKey) (name : ChannelName) (id : ChannelId) : BTx ChannelId :=
  let live r := bool_decide (cr_org r = key.1) && bool_decide (cr_name r = ChannelName_as_str name) && negb (cr_archived r) in
  existing <-$ tget (λ b, List.find live (br_channel_rows b)) ;
  cid <-$ match existing with
          | Some r => tret (cr_id r)
          | None =>
              clash <-$ tget (λ b, existsb (λ r, bool_decide (cr_id r = id)) (br_channel_rows b)) ;
              tguard (negb clash) (BrDb (lit "channels_pkey")) ;;$
              tmod (λ b, with_channels (br_channel_rows b ++ [mkDiscordChannelRow id key.1 (ChannelName_as_str name) false])
                           (br_channels b) b) ;;$
              tret id
          end ;
  mirrored <-$ tget (λ b, existsb (λ kv, bool_decide (kv.2 = cid)) (map_to_list (br_channels b))) ;
  tguard (negb mirrored) (BrDb (lit "discord_channels_channel_idx")) ;;$
  tmod (λ b, with_channels (br_channel_rows b) (<[key := cid]> (br_channels b)) b) ;;$
  tret cid.

Definition add_member (channel : ChannelId) (user : UserId) (org : OrgId) (d : directory) : directory :=
  mkDirectory (dir_colleagues d) (dir_agent_names d) (dir_users d)
    (if existsb (λ m, bool_decide (m.1 = (channel, user))) (channel_members d) then channel_members d
     else channel_members d ++ [(channel, user, org)])
    (channel_agent_members d).
Definition add_agent_member (channel : ChannelId) (c : ColleagueId) (d : directory) : directory :=
  mkDirectory (dir_colleagues d) (dir_agent_names d) (dir_users d) (channel_members d)
    (if bool_decide ((channel, c) ∈ channel_agent_members d) then channel_agent_members d
     else channel_agent_members d ++ [(channel, c)]).

Definition ensure_channel_tx (key : ChannelKey) (user : UserId) (id : ChannelId) : BTx ChannelId :=
  name <-$ tlift (channel_name_for key.2.2) ;
  existing <-$ tget (λ b, br_channels b !! key) ;
  cid <-$ match existing with Some c => tret c | None => create_channel_and_mapping key name id end ;
  tmod (λ b, set_dir (add_member cid user key.1 (br_dir b)) b) ;;$
  tret cid.

Definition bind_tx (fk_ok : bool) (key : ThreadKey) (row : BindingRow) : BTx unit :=
  existing <-$ tget (λ b, br_threads b !! key) ;
  match existing with
  | Some _ => tret tt
  | None =>
      bound <-$ tget (λ b, existsb (λ kv, bool_decide (bn_thread kv.2 = bn_thread row)) (map_to_list (br_threads b))) ;
      tguard (negb bound) (BrDb (lit "discord_threads_patom_thread_id_key")) ;;$
      tguard fk_ok (BrDb (lit "foreign key")) ;;$
      tmod (λ b, with_threads (<[key := row]> (br_threads b)) b)
  end.
Definition mark_backfilled_tx (key : ThreadKey) : BTx unit :=
  tmod (λ b, with_threads (alter (λ r, mkBinding (bn_parent r) (bn_is_thread r) (bn_thread r) true) key (br_threads b)) b).

(** ** The calls *)

Inductive bcall :=
| BReadApp (app : str) (r : res BridgeError DiscordApp)
| BMint (org : OrgId) (snowflake : DiscordUserId) (name : option str) (r : res BridgeError ShadowColleague)
| BLookup (key : ThreadKey) (r : res BridgeError (option BindingRow))
| BOpenThread (app channel message name : str) (r : res BridgeError str)
| BEnsureChannel (key : ChannelKey) (user : UserId) (r : res BridgeError ChannelId)
| BResolveAgent (org : OrgId) (agent : AgentId) (r : res BridgeError ColleagueId)
| BJoinChannel (channel : ChannelId) (colleague : ColleagueId) (r : res BridgeError unit)
| BCreateThread (caller : Caller) (channel : ChannelId) (creator : ColleagueId) (r : res BridgeError ThreadId)
| BBind (key : ThreadKey) (row : BindingRow) (r : res BridgeError unit)
| BMarkBackfilled (key : ThreadKey) (r : res BridgeError unit)
| BFetchBefore (app channel before : str) (r : res BridgeError (list InboundMessage))
| BIngest (a : DiscordAttachment) (r : res BridgeError (option UserContent))
| BAppend (caller : Caller) (thread : ThreadId) (m : NewMessage) (r : res BridgeError ThreadMessageId)
| BParticipation (caller : Caller) (thread : ThreadId) (agent : AgentId) (r : res BridgeError AgentThreadId)
| BEnqueue (trig : NewTrigger) (r : res BridgeError PromptRequestId)
| BAttach (req : DiscordAttach)
| BAck (id token : str) (r : res BridgeError unit)
| BDecide (org : OrgId) (id : ApprovalId) (d : Verdict) (clicker : ColleagueId) (r : res BridgeError (ApprovalError + DecideOutcome))
| BEdit (app token text : str) (r : res BridgeError unit)
| BFollowup (app token text : str) (r : res BridgeError unit).

(** What others do, clocks, fresh ids, keys into tables outside the model, Discord, and
    the decider. *)
Record BridgeEnv := mkBridgeEnv {
  be_net : Net bridge;
  be_now : nat → Z;
  be_fresh : nat → N;
  be_fresh_colleague : nat → N;
  be_fk : nat → bool;
  be_fk_request : nat → PromptRequest → bool;
  be_traceparent : option str;
  be_assets : bool;
  be_open_thread : nat → str → str → str → str → BridgeError + str;
  be_history : nat → str → str → str → nat → BridgeError + list InboundMessage;
  be_ingest : nat → DiscordAttachment → BridgeError + option UserContent;
  be_interaction : nat → BridgeError + unit;
  be_decide : nat → OrgId → ApprovalId → Verdict → ColleagueId → office → (ApprovalError + DecideOutcome) * office }.

Definition DISCORD_INBOUND_CONTENT_MAX : nat := Z.to_nat 16384.
Definition MAX_ATTACHMENTS_PER_MESSAGE : nat := 8.
Definition DISCORD_BACKFILL_PAGE_SIZE : nat := 100.
Definition DISCORD_BACKFILL_MAX_MESSAGES : nat := 1000.
Definition DISCORD_BACKFILL_MAX_PAGES : nat := 16.
Definition DISCORD_ROSTER_MAX_MEMBERS : nat := 5000.

Abbreviation BP := (Prog bridge bcall BridgeError).

Section calls.
Context `{Citext} (env : BridgeEnv).

Definition bridge_call {A} (ev : res BridgeError A → bcall) (f : nat → bridge → res BridgeError A * bridge) : BP A :=
  pcall (be_net env) ev BrDb f.
Definition store_call {A} (what : string) (ev : res BridgeError A → bcall) (f : nat → store → res ThreadError A * store)
    : BP A :=
  bridge_call ev (λ n b, let '(r, s) := f n (of_store (br_office b)) in
                         (res_map_err (BrThread what) r, with_office (with_store s (br_office b)) b)).
Definition remote_call {A} (ev : res BridgeError A → bcall) (f : nat → BridgeError + A) : BP A :=
  bridge_call ev (λ n b, (from_sum (f n), b)).

Definition read_by_app_id (app : str) : BP DiscordApp :=
  bridge_call (BReadApp app) (λ _ b,
    (ok_or (List.find (λ a, bool_decide (ap_application_id a = app)) (br_apps b)) (BrUnknownApp app), b)).
Definition resolve_or_mint (org : OrgId) (snowflake : DiscordUserId) (name : option str) : BP ShadowColleague :=
  bridge_call (BMint org snowflake name)
    (λ n, trun (resolve_or_mint_tx org snowflake name (be_fresh env n) (be_fresh_colleague env n))).
Definition lookup_by_container (key : ThreadKey) : BP (option BindingRow) :=
  bridge_call (BLookup key) (λ _ b, (Ok (br_threads b !! key), b)).
Definition open_from_message (app channel message name : str) : BP str :=
  remote_call (BOpenThread app channel message name) (λ n, be_open_thread env n app channel message name).
Definition ensure_channel (key : ChannelKey) (user : UserId) : BP ChannelId :=
  bridge_call (BEnsureChannel key user) (λ n, trun (ensure_channel_tx key user (be_fresh env n))).
Definition resolve_agent_colleague (app : DiscordApp) : BP ColleagueId :=
  bridge_call (BResolveAgent (ap_org app) (ap_agent app))
    (λ _ b, (res_map_err BrColleague (resolve_agent_row (br_dir b) (ap_org app) (ap_agent app)), b)).
Definition add_agent_to_channel (channel : ChannelId) (colleague : ColleagueId) : BP unit :=
  bridge_call (BJoinChannel channel colleague) (λ n b,
    if be_fk env n then (Ok tt, set_dir (add_agent_member channel colleague (br_dir b)) b)
    else (Err (BrThread "add agent channel member" (ThreadDb "foreign key")), b)).
Definition create_channel_thread (caller : Caller) (channel : ChannelId) (creator : ColleagueId) : BP ThreadId :=
  store_call "create thread" (BCreateThread caller channel creator)
    (λ n, create_thread (be_fk env n) caller (Some channel) None creator None (be_fresh env n) (be_now env n)).
Definition bind (key : ThreadKey) (row : BindingRow) : BP unit :=
  bridge_call (BBind key row) (λ n, trun (bind_tx (be_fk env n) key row)).
Definition mark_backfilled (key : ThreadKey) : BP unit :=
  bridge_call (BMarkBackfilled key) (λ _, trun (mark_backfilled_tx key)).
Definition fetch_before (app channel before : str) : BP (list InboundMessage) :=
  remote_call (BFetchBefore app channel before) (λ n, be_history env n app channel before DISCORD_BACKFILL_PAGE_SIZE).
Definition ingest_discord_attachment (a : DiscordAttachment) : BP (option UserContent) :=
  remote_call (BIngest a) (λ n, be_ingest env n a).
Definition append_row (caller : Caller) (thread : ThreadId) (m : NewMessage) : BP ThreadMessageId :=
  store_call "append" (BAppend caller thread m)
    (λ n, Threads.append (be_fk env n) caller thread m (be_fresh env n) (be_now env n)).
Definition participation (caller : Caller) (thread : ThreadId) (agent : AgentId) : BP AgentThreadId :=
  store_call "resolve participation" (BParticipation caller thread agent)
    (λ n, resolve_participation caller thread agent (be_fresh env n) (be_now env n)).
Definition enqueue (trig : NewTrigger) : BP PromptRequestId :=
  bridge_call (BEnqueue trig) (λ n b,
    let '(r, d) := enqueue_trigger_impl (be_fk_request env n) (be_fresh env n) (be_now env n) (be_traceparent env) trig
                     (queue_view (br_office b)) in
    (res_map_err BrQueue r, with_office (with_queue d (br_office b)) b)).
Definition attach (req : DiscordAttach) : BP unit := plocal (be_net env) (λ _, BAttach req) (λ b, (tt, b)).

(** ** Who and where *)

Definition shown (a : Author) (nick : option str) : option str := take DISCORD_DISPLAY_NAME_MAX <$> Author_display_name a nick.

Definition mint_member (org : OrgId) (user : Author) (nick : option str) : BP unit :=
  if au_bot user then pret tt else resolve_or_mint org (au_id user) (shown user nick) ;;% pret tt.
Fixpoint mint_members (org : OrgId) (members : list (Author * option str)) : BP unit :=
  match members with
  | [] => pret tt
  | m :: members => mint_member org m.1 m.2 ;;% mint_members org members
  end.
Definition sync_guild (org : OrgId) (members : list (Author * option str)) : BP unit :=
  mint_members org (take DISCORD_ROSTER_MAX_MEMBERS members).

Record Conversation := mkConversation {
  cv_container : str; cv_parent : option str; cv_is_thread : bool; cv_reply_to : option str }.

Definition is_permanent_open_failure (e : BridgeError) : bool :=
  match e with BrPost (PostFailed status _) => (400 <=? status)%Z && (status <? 500)%Z | _ => false end.

Definition thread_key (app : DiscordApp) (guild container : str) : ThreadKey :=
  (ap_org app, (ap_application_id app, (guild, container))).

Definition resolve_conversation (app : DiscordApp) (guild : str) (m : InboundMessage) (is_trigger : bool) : BP Conversation :=
  known <-% lookup_by_container (thread_key app guild (im_channel_id m)) ;
  let in_owned_thread := match known with Some b => bn_is_thread b | None => false end in
  let reply_to := if is_trigger && negb in_owned_thread then Some (im_message_id m) else None in
  let stay already_thread := pret (mkConversation (im_channel_id m) None already_thread reply_to) in
  if bool_decide (is_Some (im_guild_id m)) && is_trigger && negb in_owned_thread then
    name <-% plift (thread_name (im_content m) (mention_names m)) ;
    opened <-% pcatch (open_from_message (ap_application_id app) (im_channel_id m) (im_message_id m) name) ;
    match opened with
    | inr thread => pret (mkConversation thread (Some (im_channel_id m)) true None)
    | inl e => stay (in_owned_thread || is_permanent_open_failure e)
    end
  else stay in_owned_thread.

(** ** Mirroring *)

Definition message_idempotency_key (app : DiscordApp) (guild message_id : str) : res BridgeError IdempotencyKey :=
  res_map_err BrParse (IdempotencyKey_try_from
    (lit "discord:" ++ ap_application_id app ++ lit ":" ++ guild ++ lit ":" ++ message_id)).

(** An attachment that cannot be had is left out. *)
Fixpoint append_attachments (atts : list DiscordAttachment) : BP (list UserContent) :=
  match atts with
  | [] => pret []
  | a :: atts =>
      got <-% pcatch (ingest_discord_attachment a) ;
      rest <-% append_attachments atts ;
      pret (match got with inr (Some block) => block :: rest | _ => rest end)
  end.

Definition build_user_message (m : InboundMessage) (body_text : str) : BP (list UserContent) :=
  blocks <-% (if is_empty (im_attachments m) || negb (be_assets env) then pret []
              else append_attachments (take MAX_ATTACHMENTS_PER_MESSAGE (im_attachments m))) ;
  let content := (if is_empty body_text then [] else [UText body_text]) ++ blocks in
  pret (if is_empty content then [UText []] else content).

Definition append_mirrored (app : DiscordApp) (caller : Caller) (thread : ThreadId) (sender : ColleagueId)
    (receiver : option ColleagueId) (guild : str) (m : InboundMessage) : BP ThreadMessageId :=
  let body_text := take DISCORD_INBOUND_CONTENT_MAX (discord_render_inbound (im_content m) (mention_names m)) in
  body <-% build_user_message m body_text ;
  idem <-% plift (message_idempotency_key app guild (im_message_id m)) ;
  append_row caller thread (mkNewMessage KPosted (Some sender) None receiver (User body) None (Some idem)).

(** *** Backfill *)

Definition is_human (m : InboundMessage) : bool := negb (au_bot (im_author m) || bool_decide (is_Some (im_webhook_id m))).

Definition mirror_backfilled (app : DiscordApp) (guild : str) (thread : ThreadId) (m : InboundMessage) : BP bool :=
  if negb (is_human m) then pret false
  else
    shadow <-% resolve_or_mint (ap_org app) (au_id (im_author m)) (shown (im_author m) (im_member_nick m)) ;
    ensure_channel (ap_org app, (guild, im_channel_id m)) (sc_user shadow) ;;%
    append_mirrored app (mkCaller (sc_user shadow) (ap_org app)) thread (sc_colleague shadow) None guild m ;;%
    pret true.
Fixpoint mirror_all (app : DiscordApp) (guild : str) (thread : ThreadId) (ms : list InboundMessage) : BP unit :=
  match ms with
  | [] => pret tt
  | m :: ms => mirror_backfilled app guild thread m ;;% mirror_all app guild thread ms
  end.

(** Pages come newest first. *)
Fixpoint collect_pages (pages : nat) (app : DiscordApp) (channel cursor : str) (collected : list InboundMessage)
    : BP (list InboundMessage) :=
  match pages with
  | O => pret collected
  | S pages =>
      if DISCORD_BACKFILL_MAX_MESSAGES <=? length collected then pret collected
      else
        page <-% fetch_before (ap_application_id app) channel cursor ;
        let cursor := match last page with Some oldest => im_message_id oldest | None => cursor end in
        let collected := collected ++ page in
        if length page <? DISCORD_BACKFILL_PAGE_SIZE then pret collected
        else collect_pages pages app channel cursor collected
  end.
Definition backfill_channel (app : DiscordApp) (guild channel : str) (thread : ThreadId) (before : str) : BP unit :=
  collected <-% collect_pages DISCORD_BACKFILL_MAX_PAGES app channel before [] ;
  mirror_all app guild thread (reverse (take DISCORD_BACKFILL_MAX_MESSAGES collected)).
Definition maybe_backfill (app : DiscordApp) (guild channel : str) (thread : ThreadId) (before : str) : BP unit :=
  done <-% pcatch (backfill_channel app guild channel thread before) ;
  match done with
  | inr _ => ptry (mark_backfilled (thread_key app guild channel))
  | inl _ => pret tt
  end.

(** *** The message itself *)

Definition resolve_thread (caller : Caller) (app : DiscordApp) (guild : str) (conv : Conversation) (channel : ChannelId)
    (creator : ColleagueId) : BP (ThreadId * bool) :=
  let key := thread_key app guild (cv_container conv) in
  known <-% lookup_by_container key ;
  match known with
  | Some mapping => pret (bn_thread mapping, negb (bn_backfill_complete mapping))
  | None =>
      thread <-% create_channel_thread caller channel creator ;
      bind key (mkBinding (cv_parent conv) (cv_is_thread conv) thread false) ;;%
      let opened := bool_decide (is_Some (cv_parent conv)) in
      (if opened then mark_backfilled key else pret tt) ;;%
      pret (thread, negb opened)
  end.

Definition mirror_into_thread (app : DiscordApp) (caller : Caller) (guild : str) (m : InboundMessage) (conv : Conversation)
    (sender : ColleagueId) (receiver : option ColleagueId) : BP (ThreadId * ThreadMessageId) :=
  channel <-% ensure_channel (ap_org app, (guild, cv_container conv)) (user_id caller) ;
  agent <-% resolve_agent_colleague app ;
  add_agent_to_channel channel agent ;;%
  resolved <-% resolve_thread caller app guild conv channel sender ;
  let '(thread, needs_backfill) := resolved in
  (if needs_backfill && bool_decide (cv_container conv = im_channel_id m)
   then maybe_backfill app guild (cv_container conv) thread (im_message_id m) else pret tt) ;;%
  row <-% append_mirrored app caller thread sender receiver guild m ;
  pret (thread, row).

Definition enqueue_and_attach (caller : Caller) (app : DiscordApp) (guild : str) (m : InboundMessage) (thread : ThreadId)
    (conv : Conversation) (sender : ColleagueId) (trigger : ThreadMessageId) : BP unit :=
  state <-% participation caller thread (ap_agent app) ;
  idem <-% plift (message_idempotency_key app guild (im_message_id m)) ;
  enqueue (mkNewTrigger (ap_org app) (user_id caller) (Some thread) (Some state) None sender (ap_agent app) None
             (Some trigger) idem PNormal) ;;%
  attach (mkDAttach thread (ap_org app) (Some (user_id caller)) (ap_application_id app) (cv_container conv) (cv_reply_to conv)).

Definition is_trigger (bot : DiscordUserId) (m : InboundMessage) : bool :=
  bool_decide (im_guild_id m = None) || mentions_bot m bot.
Definition guild_of (m : InboundMessage) : str := default (im_channel_id m) (im_guild_id m).

Definition handle_message (app : DiscordApp) (bot : DiscordUserId) (m : InboundMessage) : BP unit :=
  if bool_decide (au_id (im_author m) = bot) then pret tt
  else if negb (is_human m) then pret tt
  else
    guild <-% plift (match im_guild_id m with
                     | Some g => Ok g
                     | None => res_map_err BrParse (parse_snowflake (im_channel_id m) "discord_guild_id")
                     end) ;
    shadow <-% resolve_or_mint (ap_org app) (au_id (im_author m)) (shown (im_author m) (im_member_nick m)) ;
    let caller := mkCaller (sc_user shadow) (ap_org app) in
    let trigger := is_trigger bot m in
    conv <-% resolve_conversation app guild m trigger ;
    receiver <-% (if trigger then c <-% resolve_agent_colleague app ; pret (Some c) else pret None) ;
    mirrored <-% mirror_into_thread app caller guild m conv (sc_colleague shadow) receiver ;
    if trigger then enqueue_and_attach caller app guild m mirrored.1 conv (sc_colleague shadow) mirrored.2
    else pret tt.

(** ** Clicks on approval cards *)

Section clicks.
Context `{UuidParser}.

Definition parse_approval_custom_id (custom_id : str) : option (ApprovalId * Verdict) :=
  if starts_with (lit "apv:") custom_id then
    '(id_str, tag) ← rsplit_once 0x3a (drop 4 custom_id);
    id ← uuid_parse_str id_str;
    decision ← verdict_from_tag tag;
    Some (id, decision)
  else None.

Definition resolved_card_text (d : Verdict) (clicker_name : str) : str :=
  match d with
  | VApproved => 0x2705%N :: lit " Approved by " ++ clicker_name ++ lit "."
  | VDenied => 0x1F6AB%N :: lit " Denied by " ++ clicker_name ++ lit "."
  end.

Definition decide_click (org : OrgId) (id : ApprovalId) (d : Verdict) (clicker : ColleagueId) : BP (ApprovalError + DecideOutcome) :=
  bridge_call (BDecide org id d clicker)
    (λ n b, let '(r, o) := be_decide env n org id d clicker (br_office b) in (Ok r, with_office o b)).

Definition render_decision (i : InboundInteraction) (d : Verdict) (clicker_name : str) (outcome : ApprovalError + DecideOutcome)
    : BP unit :=
  let followup text := ptry (remote_call (BFollowup (ii_application_id i) (ii_token i) text) (be_interaction env)) in
  match outcome with
  | inr _ =>
      let resolved := resolved_card_text d clicker_name in
      ptry (remote_call (BEdit (ii_application_id i) (ii_token i) resolved) (be_interaction env))
  | inl Unauthorized => followup (lit "You're not authorized to decide this approval.")
  | inl (ApprovalNotFound | NotPending | ApprovalExpired) => followup (lit "This approval is no longer open.")
  | inl e => perr (BrApproval e)
  end.

Definition handle_interaction (app : DiscordApp) (i : InboundInteraction) : BP unit :=
  if negb (ii_type i =? DISCORD_INTERACTION_TYPE_COMPONENT)%Z then pret tt
  else match ii_custom_id i ≫= parse_approval_custom_id with
  | None => pret tt
  | Some (approval_id, decision) =>
      ptry (remote_call (BAck (ii_id i) (ii_token i)) (be_interaction env)) ;;%
      match ii_user i with
      | None => pret tt
      | Some user =>
          let display := shown user (ii_nick i) in
          shadow <-% resolve_or_mint (ap_org app) (au_id user) display ;
          outcome <-% decide_click (ap_org app) approval_id decision (sc_colleague shadow) ;
          render_decision i decision (default (au_id user) display) outcome
      end
  end.

(** ** One dispatch *)

Definition process_event (app_id : str) (bot : DiscordUserId) (event : DiscordEvent) : BP unit :=
  match event with
  | DeOther => pret tt
  | _ =>
      app <-% read_by_app_id app_id ;
      match event with
      | DeMessage m => handle_message app bot m
      | DeGuildCreate members => sync_guild (ap_org app) members
      | DeMemberUpsert user nick => mint_member (ap_org app) user nick
      | DeInteraction i => handle_interaction app i
      | DeOther => pret tt
      end
  end.
End clicks.
End calls.
