(* ===== verification/DiscordBridgeLaws.v ===== *)
(** * What the Discord bridge promises

    A message becomes one addressed row, and at most one trigger for the agent behind the
    bot; everything else it does (people, channels, history) is quiet.  The directory of
    people and the office stay well formed under any faults and interleaving. *)

From Stdlib Require Import ZArith Lia Ascii String.
From stdpp Require Import base gmap list strings sets relations.
From S2P Require Import Prelude Program Types Queue QueueSafety Threads ThreadLaws Colleagues Approvals Office OfficeLaws SendLaws Identity AgentPrompt Decimal Signed ChatText ChatTextLaws ChatPost ChatPostLaws ChatPump DiscordBridge.

(** ** Quiet programs *)

Section quiet.
Context (app : DiscordApp) (bot : DiscordUserId) (m : InboundMessage).

(** What may happen before the message is in the feed: nobody is woken and no pump
    attached; rows of the history address nobody; a thread is opened on this message
    only, for a mention in a guild, under a name Discord takes. *)
Definition quiet (v : bcall) : Prop :=
  match v with
  | BEnqueue _ _ | BAttach _ | BDecide _ _ _ _ _ => False
  | BAppend _ _ row _ => nm_receiver row = None
  | BOpenThread a c msg name _ =>
      a = ap_application_id app ∧ c = im_channel_id m ∧ msg = im_message_id m ∧ im_guild_id m ≠ None
      ∧ mentions_bot m bot = true ∧ 0 < length name ≤ DISCORD_THREAD_NAME_MAX
  | _ => True
  end.
Lemma quietly_call {A} env (ev : res BridgeError A → bcall) f :
  (∀ r, quiet (ev r)) → (∀ n b, no_panic (f n b).1) → calls_only quiet (bridge_call env ev f).
Proof. apply calls_call. Qed.
End quiet.
Lemma traced_bcall {A} env (ev : res BridgeError A → bcall) f :
  (∀ n b, no_panic (f n b).1) → traced (bridge_call env ev f) (λ r vs, vs = [ev r] ∧ no_panic r).
Proof. intros Hf. by apply (traced_call_of no_panic). Qed.
Lemma traced_catch_bcall {A E'} env (ev : res BridgeError A → bcall) f :
  (∀ n b, no_panic (f n b).1) → traced (E := E') (pcatch (bridge_call env ev f))
    (λ r vs, ∃ x, r = Ok x ∧ vs = [ev (match x with inl e => Err e | inr a => Ok a end)]).
Proof.
  intros Hf. apply traced_catch. eapply traced_mono; [by apply traced_bcall|]. cbn. intros [a|e|p] vs [-> Hr]; [| |done].
  - by exists (inr a).
  - by exists (inl e).
Qed.
Create HintDb patom_bridge.
#[export] Hint Resolve calls_ret calls_err calls_bind calls_try calls_catch : patom_bridge.

(** ** No call panics *)

Lemma from_sum_no_panic {E A} (r : E + A) : no_panic (from_sum r).
Proof. by destruct r. Qed.
#[export] Hint Resolve trun_no_panic tlift_no_panic tguard_no_panic ok_or_no_panic from_sum_no_panic map_err_no_panic : patom_bridge.

(** Goes through a transaction. *)
Ltac tx_calm :=
  repeat first
    [ apply tlift_no_panic, ok_or_no_panic
    | apply tguard_no_panic
    | apply tbind_no_panic; [|intros ? ?]
    | done
    | case_match ].

Lemma resolve_or_mint_calm `{Citext} org sf name u c b : no_panic (resolve_or_mint_tx org sf name u c b).
Proof. unfold resolve_or_mint_tx, refresh_handle, insert_shadow. tx_calm. Qed.
Lemma ChannelName_no_panic raw : no_panic (ChannelName_try_from raw).
Proof. unfold ChannelName_try_from. repeat case_match; done. Qed.
Lemma ensure_channel_calm key u id b : no_panic (ensure_channel_tx key u id b).
Proof.
  unfold ensure_channel_tx, create_channel_and_mapping. apply tbind_no_panic.
  - apply tlift_no_panic, map_err_no_panic, ChannelName_no_panic.
  - intros ? ?. tx_calm.
Qed.
Lemma bind_calm fk key row b : no_panic (bind_tx fk key row b).
Proof. unfold bind_tx. tx_calm. Qed.
Lemma append_calm fk caller thread row id now s : no_panic (Threads.append fk caller thread row id now s).1.
Proof. unfold Threads.append, append_insert. repeat case_match; simplify_eq/=; done. Qed.
Lemma participation_calm caller thread agent id now s : no_panic (resolve_participation caller thread agent id now s).1.
Proof. unfold resolve_participation. repeat case_match; done. Qed.
Lemma create_thread_calm fk caller channel by_ id now s :
  no_panic (create_thread fk caller (Some channel) None by_ None id now s).1.
Proof. unfold create_thread. repeat case_match; done. Qed.
Lemma resolve_agent_calm d org agent : no_panic (resolve_agent_row d org agent).
Proof. unfold resolve_agent_row. by case_match. Qed.
Lemma bridge_key_no_panic app guild id : no_panic (message_idempotency_key app guild id).
Proof. unfold message_idempotency_key, IdempotencyKey_try_from. repeat case_match; done. Qed.
#[export] Hint Resolve resolve_or_mint_calm ensure_channel_calm bind_calm resolve_agent_calm bridge_key_no_panic : patom_bridge.

(** ** The quiet parts *)

Section bridge.
Context `{Citext} (env : BridgeEnv) (app : DiscordApp) (bot : DiscordUserId) (m : InboundMessage).
Abbreviation Quietly := (calls_only (quiet app bot m)).

Lemma quietly_store {A} what (ev : res BridgeError A → bcall) f :
  (∀ r, quiet app bot m (ev r)) → (∀ n s, no_panic (f n s).1) → Quietly (store_call env what ev f).
Proof.
  intros Hq Hf. apply quietly_call; [done|]. intros n b. specialize (Hf n (of_store (br_office b))).
  destruct (f n _) as [r s]. by apply map_err_no_panic.
Qed.
Lemma quietly_remote {A} (ev : res BridgeError A → bcall) f :
  (∀ r, quiet app bot m (ev r)) → Quietly (remote_call env ev f).
Proof. intros Hq. apply quietly_call; [done|]. intros n b. apply from_sum_no_panic. Qed.

Lemma quietly_mint org sf name : Quietly (resolve_or_mint env org sf name).
Proof. apply quietly_call; auto with patom_bridge. done. Qed.
Lemma quietly_lookup key : Quietly (lookup_by_container env key).
Proof. by apply quietly_call. Qed.
Lemma quietly_ensure key user : Quietly (ensure_channel env key user).
Proof. apply quietly_call; auto with patom_bridge. done. Qed.
Lemma quietly_agent a : Quietly (resolve_agent_colleague env a).
Proof. apply quietly_call; [done|]. intros n b. apply map_err_no_panic, resolve_agent_calm. Qed.
Lemma quietly_join channel c : Quietly (add_agent_to_channel env channel c).
Proof. apply quietly_call; [done|]. intros n b. by destruct (be_fk env n). Qed.
Lemma quietly_mark key : Quietly (mark_backfilled env key).
Proof. by apply quietly_call. Qed.
Lemma quietly_bind_row key row : Quietly (bind env key row).
Proof. apply quietly_call; [done|]. intros n b. apply trun_no_panic, bind_calm. Qed.
Lemma quietly_create caller channel creator : Quietly (create_channel_thread env caller channel creator).
Proof. apply quietly_store; [done|]. intros n s. apply create_thread_calm. Qed.
Lemma quietly_fetch a c cur : Quietly (fetch_before env a c cur).
Proof. by apply quietly_remote. Qed.
Lemma quietly_append caller thread row : nm_receiver row = None → Quietly (append_row env caller thread row).
Proof. intros Hr. apply quietly_store; [done|]. intros n s. apply append_calm. Qed.
#[local] Hint Resolve quietly_mint quietly_lookup quietly_ensure quietly_agent quietly_join quietly_mark quietly_bind_row
  quietly_create quietly_fetch quietly_append : patom_bridge.

Lemma quietly_attachments atts : Quietly (append_attachments env atts).
Proof.
  induction atts as [|a atts IH]; cbn [append_attachments]; [auto with patom_bridge|].
  apply calls_bind; [by apply calls_catch, quietly_remote|]. auto with patom_bridge.
Qed.
Lemma quietly_body x text : Quietly (build_user_message env x text).
Proof. unfold build_user_message. apply calls_bind; [|auto with patom_bridge]. case_match; [auto with patom_bridge|apply quietly_attachments]. Qed.
Lemma quietly_mirror caller thread sender guild x : Quietly (append_mirrored env app caller thread sender None guild x).
Proof.
  unfold append_mirrored. apply calls_bind; [apply quietly_body|]. intros body.
  apply calls_bind; [apply calls_lift, bridge_key_no_panic|]. intros key. by apply quietly_append.
Qed.
Lemma quietly_mirror_all guild thread ms : Quietly (mirror_all env app guild thread ms).
Proof.
  induction ms as [|x ms IH]; cbn [mirror_all]; [auto with patom_bridge|]. apply calls_bind; [|auto].
  unfold mirror_backfilled. case_match; [auto with patom_bridge|]. apply calls_bind; [auto with patom_bridge|].
  intros shadow. apply calls_bind; [auto with patom_bridge|]. intros _.
  apply calls_bind; [apply quietly_mirror|auto with patom_bridge].
Qed.
Lemma quietly_pages pages channel cursor collected : Quietly (collect_pages env pages app channel cursor collected).
Proof.
  revert cursor collected. induction pages as [|pages IH]; intros cursor collected; cbn [collect_pages]; [auto with patom_bridge|].
  case_match; [auto with patom_bridge|]. apply calls_bind; [auto with patom_bridge|]. intros page.
  case_match; [auto with patom_bridge|apply IH].
Qed.
Lemma quietly_backfill guild channel thread before : Quietly (maybe_backfill env app guild channel thread before).
Proof.
  unfold maybe_backfill. apply calls_bind.
  - apply calls_catch. unfold backfill_channel. apply calls_bind; [apply quietly_pages|]. intros. apply quietly_mirror_all.
  - intros [e|[]]; auto with patom_bridge.
Qed.

(** ** The message *)

(** Where the conversation is: in a thread opened on the message, or where it was. *)
Definition found (conv : Conversation) (vs : list bcall) : Prop :=
  (∃ name, BOpenThread (ap_application_id app) (im_channel_id m) (im_message_id m) name (Ok (cv_container conv)) ∈ vs
     ∧ cv_parent conv = Some (im_channel_id m) ∧ cv_is_thread conv = true ∧ cv_reply_to conv = None)
  ∨ (cv_container conv = im_channel_id m ∧ cv_parent conv = None
     ∧ (cv_reply_to conv = None ∨ cv_reply_to conv = Some (im_message_id m))).
(** The thread is the one bound to the container, or a new one that was bound to it. *)
Definition served (key : ThreadKey) (thread : ThreadId) (vs : list bcall) : Prop :=
  ∃ row, bn_thread row = thread ∧ (BLookup key (Ok (Some row)) ∈ vs ∨ BBind key row (Ok tt) ∈ vs).
Definition posted_row (sender : ColleagueId) (receiver : option ColleagueId) (body : list UserContent) (key : IdempotencyKey)
    : NewMessage := mkNewMessage KPosted (Some sender) None receiver (User body) None (Some key).

(** What follows the row of a trigger. *)
Definition woken (caller : Caller) (thread : ThreadId) (conv : Conversation) (sender : ColleagueId) (key : IdempotencyKey)
    (row : ThreadMessageId) (post : list bcall) (r : res BridgeError unit) : Prop :=
  let asked st := BParticipation caller thread (ap_agent app) st in
  let trig st := mkNewTrigger (ap_org app) (user_id caller) (Some thread) (Some st) None sender (ap_agent app) None
                   (Some row) key PNormal in
  (∃ e, post = [asked (Err e)] ∧ r = Err e)
  ∨ (∃ st e, post = [asked (Ok st); BEnqueue (trig st) (Err e)] ∧ r = Err e)
  ∨ (∃ st id, post = [asked (Ok st); BEnqueue (trig st) (Ok id);
                      BAttach (mkDAttach thread (ap_org app) (Some (user_id caller)) (ap_application_id app)
                                 (cv_container conv) (cv_reply_to conv))] ∧ r = Ok tt).

Definition bridged (guild : str) (r : res BridgeError unit) (vs : list bcall) : Prop :=
  (Forall (quiet app bot m) vs ∧ ∃ e, r = Err e)
  ∨ ∃ pre name shadow conv receiver body key thread row post,
      let caller := mkCaller (sc_user shadow) (ap_org app) in
      vs = pre ++ BAppend caller thread (posted_row (sc_colleague shadow) receiver body key) row :: post
      ∧ Forall (quiet app bot m) pre
      ∧ BMint (ap_org app) (au_id (im_author m)) name (Ok shadow) ∈ pre
      ∧ found conv pre ∧ served (thread_key app guild (cv_container conv)) thread pre
      ∧ message_idempotency_key app guild (im_message_id m) = Ok key
      ∧ (if is_trigger bot m then ∃ c, receiver = Some c ∧ BResolveAgent (ap_org app) (ap_agent app) (Ok c) ∈ pre
         else receiver = None)
      ∧ match row with
        | Ok row => if is_trigger bot m then woken caller thread conv (sc_colleague shadow) key row post r
                    else post = [] ∧ r = Ok tt
        | Err e => post = [] ∧ r = Err e
        | Panic _ => False
        end.

Lemma traced_conversation guild :
  traced (resolve_conversation env app guild m (is_trigger bot m)) (λ r vs,
    Forall (quiet app bot m) vs ∧ no_panic r ∧ ∀ conv, r = Ok conv → found conv vs).
Proof.
  unfold resolve_conversation. eapply traced_bind; [apply quietly_lookup| |by intros ?? []|by intros ?? []].
  intros known vs [Hq _]. set (own := match known with Some b => bn_is_thread b | None => false end).
  assert (Hstay : ∀ vs' al rt, Forall (quiet app bot m) vs' → rt = None ∨ rt = Some (im_message_id m) →
    traced (W := bridge) (pret (mkConversation (im_channel_id m) None al rt)) (λ (r : res BridgeError Conversation) vs0,
      Forall (quiet app bot m) (vs ++ vs' ++ vs0) ∧ no_panic r ∧ ∀ conv, r = Ok conv → found conv (vs ++ vs' ++ vs0))).
  { intros vs' al rt Hvs' Hrt. apply traced_ret. rewrite app_nil_r. split_and!; [by apply Forall_app|done|].
    intros conv [= <-]. right. by split_and!. }
  assert (Hrt : (if is_trigger bot m && negb own then Some (im_message_id m) else None) = None
    ∨ (if is_trigger bot m && negb own then Some (im_message_id m) else None) = Some (im_message_id m)) by (case_match; auto).
  match goal with |- traced (if ?c then _ else _) _ => destruct c eqn:Ec end; [|by apply (Hstay [])].
  apply andb_true_iff in Ec as [[Hg Ht]%andb_true_iff _]. apply bool_decide_eq_true in Hg.
  assert (Hm : im_guild_id m ≠ None ∧ mentions_bot m bot = true).
  { unfold is_trigger in Ht. destruct (im_guild_id m); [|by destruct Hg]. by rewrite bool_decide_false in Ht by done. }
  destruct (thread_name_fits (E := BridgeError) (im_content m) (mention_names m)) as (name & Hn & Hl).
  rewrite Hn. apply traced_bind_lift; [|done|done]. intros ? [= <-].
  assert (Hopen : ∀ r, Forall (quiet app bot m) [BOpenThread (ap_application_id app) (im_channel_id m) (im_message_id m) name r]).
  { intros r. constructor; [|done]. cbn. split_and!; try done; apply Hm || lia. }
  eapply traced_bind; [apply traced_catch_bcall; intros; apply from_sum_no_panic|..|by intros p vs' (? & ? & _)].
  2: by intros e vs' (? & ? & _).
  intros x vs' (? & [= <-] & ->). destruct x as [e|t]; [by apply Hstay|].
  apply traced_ret. rewrite app_nil_r. split_and!; [by apply Forall_app|done|].
  intros conv [= <-]. left. exists name. split_and!; try done. apply elem_of_app. right. by left.
Qed.

Lemma traced_thread caller guild conv channel creator :
  traced (resolve_thread env caller app guild conv channel creator) (λ r vs,
    Forall (quiet app bot m) vs ∧ no_panic r
    ∧ ∀ t nb, r = Ok (t, nb) → served (thread_key app guild (cv_container conv)) t vs).
Proof.
  unfold resolve_thread. eapply traced_bind; [by apply traced_bcall| |by intros e vs [-> _]; split_and!; [repeat constructor|..]|by intros p vs [_ ?]].
  intros [row|] vs [-> _].
  { apply traced_ret. split_and!; [by repeat constructor|done|]. intros t nb [= <- _]. exists row. split; [done|]. left. by constructor. }
  eapply traced_bind; [apply quietly_create| |by intros e vs [Hq _]; split_and!; [constructor|..]|by intros p vs [_ ?]].
  intros t vs [Hq _]. set (key := thread_key app guild (cv_container conv)).
  set (row := mkBinding (cv_parent conv) (cv_is_thread conv) t false).
  eapply traced_bind; [apply traced_bcall; intros; apply trun_no_panic, bind_calm| |..|by intros p vs' [_ ?]].
  2: { intros e vs' [-> _]. split_and!; [|done|done]. constructor; [done|]. apply Forall_app. by repeat constructor. }
  intros [] vs' [-> _]. eapply traced_bind.
  - instantiate (1 := λ r vs, Forall (quiet app bot m) vs ∧ no_panic r). case_match; [apply quietly_mark|apply calls_ret].
  - intros [] vs' [Hq' _]. apply traced_ret. rewrite app_nil_r. split_and!; [|done|].
    + constructor; [done|]. apply Forall_app. split; [done|]. by constructor.
    + intros t' nb [= <- _]. exists row. split; [done|]. right. right. apply elem_of_app. right. by left.
  - intros e vs' [Hq' _]. split_and!; [|done|done]. constructor; [done|]. apply Forall_app. split; [done|]. by constructor.
  - by intros p vs' [_ ?].
Qed.

(** The row, whoever it is addressed to. *)
Lemma traced_mirrored caller thread sender receiver guild :
  traced (append_mirrored env app caller thread sender receiver guild m) (λ r vs,
    (Forall (quiet app bot m) vs ∧ ∃ e, r = Err e)
    ∨ ∃ pre body key, vs = pre ++ [BAppend caller thread (posted_row sender receiver body key) r]
        ∧ Forall (quiet app bot m) pre ∧ message_idempotency_key app guild (im_message_id m) = Ok key ∧ no_panic r).
Proof.
  unfold append_mirrored. eapply traced_bind; [apply quietly_body| |by intros e vs [Hq _]; left; eauto|by intros p vs [_ ?]].
  intros body vs [Hq _]. apply traced_bind_lift.
  - intros key Hk. eapply traced_mono; [apply traced_bcall|].
    + intros n b. cbv beta. pose proof (append_calm (be_fk env n) caller thread (posted_row sender receiver body key)
        (be_fresh env n) (be_now env n) (of_store (br_office b))) as Hc. unfold posted_row in Hc.
      destruct (Threads.append _ _ _ _ _ _ _) as [r s]. by apply map_err_no_panic.
    + cbn. intros r vs' [-> Hr]. right. exists vs, body, key. by split_and!.
  - intros e He. left. rewrite app_nil_r. eauto.
  - intros p Hp. pose proof (bridge_key_no_panic app guild (im_message_id m)) as Hk. by rewrite Hp in Hk.
Qed.

Lemma served_app key thread xs vs : served key thread vs → served key thread (xs ++ vs).
Proof. intros (row & Hr & Hv). exists row. split; [done|]. rewrite !elem_of_app. tauto. Qed.
Lemma served_app_l key thread vs ys : served key thread vs → served key thread (vs ++ ys).
Proof. intros (row & Hr & Hv). exists row. split; [done|]. rewrite !elem_of_app. tauto. Qed.

(** The outcome of mirroring; it can be preceded by quiet calls. *)
Definition mirrored caller guild conv sender receiver (r : res BridgeError (ThreadId * ThreadMessageId)) (vs : list bcall) : Prop :=
  (Forall (quiet app bot m) vs ∧ ∃ e, r = Err e)
  ∨ ∃ pre body key thread row,
      vs = pre ++ [BAppend caller thread (posted_row sender receiver body key) row]
      ∧ Forall (quiet app bot m) pre ∧ served (thread_key app guild (cv_container conv)) thread pre
      ∧ message_idempotency_key app guild (im_message_id m) = Ok key ∧ no_panic row
      ∧ r = (x <-? row ; Ok (thread, x)).
Lemma mirrored_after caller guild conv sender receiver r xs vs :
  Forall (quiet app bot m) xs → mirrored caller guild conv sender receiver r vs →
  mirrored caller guild conv sender receiver r (xs ++ vs).
Proof.
  intros Hx [[Hq He]|(pre & body & key & thread & row & -> & Hq & Hs & Hk & Hr & Ht)].
  - left. split; [by apply Forall_app|done].
  - right. exists (xs ++ pre), body, key, thread, row. rewrite <- app_assoc.
    split_and!; [done|by apply Forall_app|by apply served_app|done..].
Qed.
Lemma mirrored_bind {A} caller guild conv sender receiver (p : BP A) k :
  calls_only (quiet app bot m) p → (∀ a, traced (k a) (mirrored caller guild conv sender receiver)) →
  traced (pbind p k) (mirrored caller guild conv sender receiver).
Proof.
  intros Hp Hk. eapply traced_bind; [exact Hp| |by intros e vs [Hq _]; left; eauto|by intros q vs [_ ?]].
  intros a vs [Hq _]. eapply traced_mono; [apply Hk|]. intros r vs'. by apply mirrored_after.
Qed.

Lemma traced_into_thread caller guild conv sender receiver :
  traced (mirror_into_thread env app caller guild m conv sender receiver) (mirrored caller guild conv sender receiver).
Proof.
  unfold mirror_into_thread. apply mirrored_bind; [apply quietly_ensure|]. intros channel.
  apply mirrored_bind; [apply quietly_agent|]. intros agent. apply mirrored_bind; [apply quietly_join|]. intros _.
  eapply traced_bind; [apply traced_thread| |by intros e vs (Hq & _); left; eauto|by intros p vs (_ & ? & _)].
  intros [thread nb] vs (Hq & _ & Hs). specialize (Hs thread nb eq_refl).
  eapply traced_bind.
  - instantiate (1 := λ r vs, Forall (quiet app bot m) vs ∧ no_panic r).
    case_match; [apply quietly_backfill|apply calls_ret].
  - intros [] vs' [Hq' _]. eapply traced_bind; [apply traced_mirrored|..].
    + intros row vs'' [[_ [e [=]]]|(pre & body & key & -> & Hpre & Hk & Hr)]. apply traced_ret. rewrite app_nil_r.
      right. exists (vs ++ vs' ++ pre), body, key, thread, (Ok row). rewrite <- !app_assoc.
      split_and!; [done|by rewrite !Forall_app|by apply served_app_l|done..].
    + intros e vs'' [[Hq'' _]|(pre & body & key & -> & Hpre & Hk & Hr)].
      { left. rewrite !Forall_app. eauto. }
      right. exists (vs ++ vs' ++ pre), body, key, thread, (Err e). rewrite <- !app_assoc.
      split_and!; [done|by rewrite !Forall_app|by apply served_app_l|done..].
    + by intros p vs'' [[_ [e [=]]]|(pre & body & key & -> & Hpre & Hk & ?)].
  - intros e vs' [Hq' _]. left. rewrite Forall_app. eauto.
  - by intros p vs' [_ ?].
Qed.

Lemma traced_wake caller guild thread conv sender key row :
  message_idempotency_key app guild (im_message_id m) = Ok key →
  traced (enqueue_and_attach env caller app guild m thread conv sender row) (λ r vs, woken caller thread conv sender key row vs r).
Proof.
  intros Hk. unfold enqueue_and_attach. rewrite Hk. eapply traced_bind; [apply traced_bcall| |by intros e vs [-> _]; left; eauto|by intros p vs [_ ?]].
  { intros n b. cbv beta. pose proof (participation_calm caller thread (ap_agent app) (be_fresh env n) (be_now env n) (of_store (br_office b))).
    destruct (resolve_participation _ _ _ _ _ _). by apply map_err_no_panic. }
  intros st vs [-> _]. apply traced_bind_lift; [|done|done]. intros ? [= <-].
  eapply traced_bind; [apply traced_bcall| |by intros e vs [-> _]; right; left; eauto|by intros p vs [_ ?]].
  { intros n b. cbv beta. match goal with |- context [enqueue_trigger_impl ?a ?b ?c ?d ?e ?f] => pose proof (enqueue_no_panic a b c d e f) end.
    destruct (enqueue_trigger_impl _ _ _ _ _ _). by apply map_err_no_panic. }
  intros id vs [-> _]. apply traced_local. intros []. right. right. eauto.
Qed.

Lemma found_app conv xs vs : found conv vs → found conv (xs ++ vs).
Proof. intros [(name & Hv & Hr)|Hr]; [left|by right]. exists name. by rewrite elem_of_app; auto. Qed.
Lemma found_app_l conv vs ys : found conv vs → found conv (vs ++ ys).
Proof. intros [(name & Hv & Hr)|Hr]; [left|by right]. exists name. by rewrite elem_of_app; auto. Qed.

Lemma traced_receiver :
  traced (if is_trigger bot m then c <-% resolve_agent_colleague env app ; pret (Some c) else pret None)%patom
    (λ r vs, Forall (quiet app bot m) vs ∧ no_panic r ∧ ∀ receiver, r = Ok receiver →
       if is_trigger bot m then ∃ c, receiver = Some c ∧ BResolveAgent (ap_org app) (ap_agent app) (Ok c) ∈ vs
       else receiver = None).
Proof.
  destruct (is_trigger bot m).
  - eapply traced_bind; [apply traced_bcall; intros; apply map_err_no_panic, resolve_agent_calm| |..|by intros p vs [_ ?]].
    + intros c vs [-> _]. apply traced_ret. split_and!; [by repeat constructor|done|]. intros receiver [= <-]. exists c. split; [done|by left].
    + intros e vs [-> _]. by split_and!; [repeat constructor|..].
  - apply traced_ret. split_and!; [done..|]. by intros receiver [= <-].
Qed.

(** From the person on. *)
Lemma traced_message guild :
  traced (
    shadow <-% resolve_or_mint env (ap_org app) (au_id (im_author m)) (shown (im_author m) (im_member_nick m)) ;
    conv <-% resolve_conversation env app guild m (is_trigger bot m) ;
    receiver <-% (if is_trigger bot m then c <-% resolve_agent_colleague env app ; pret (Some c) else pret None) ;
    mirrored <-% mirror_into_thread env app (mkCaller (sc_user shadow) (ap_org app)) guild m conv (sc_colleague shadow) receiver ;
    if is_trigger bot m
    then enqueue_and_attach env (mkCaller (sc_user shadow) (ap_org app)) app guild m mirrored.1 conv (sc_colleague shadow) mirrored.2
    else pret tt)%patom (bridged guild).
Proof.
  eapply traced_bind; [apply traced_bcall; intros; apply trun_no_panic, resolve_or_mint_calm| |
    by intros e vs [-> _]; left; split; [repeat constructor|eauto]|by intros p vs [_ ?]].
  intros shadow vs1 [-> _]. set (v1 := BMint _ _ _ _).
  eapply traced_bind; [apply traced_conversation| |by intros e vs (Hq & _); left; split; [constructor|eauto]|by intros p vs (_ & ? & _)].
  intros conv vs2 (Hq2 & _ & Hf). specialize (Hf conv eq_refl).
  eapply traced_bind; [apply traced_receiver| |by intros e vs (Hq & _); left; split; [constructor; [done|by apply Forall_app]|eauto]|by intros p vs (_ & ? & _)].
  intros receiver vs3 (Hq3 & _ & Hrec). specialize (Hrec receiver eq_refl).
  assert (Hq : ∀ pre, Forall (quiet app bot m) pre → Forall (quiet app bot m) (v1 :: vs2 ++ vs3 ++ pre)).
  { intros pre Hpre. constructor; [done|]. by rewrite !Forall_app. }
  assert (Hpre : ∀ pre thread body key row post r,
    Forall (quiet app bot m) pre → served (thread_key app guild (cv_container conv)) thread pre →
    message_idempotency_key app guild (im_message_id m) = Ok key →
    match row with
    | Ok row => if is_trigger bot m then woken (mkCaller (sc_user shadow) (ap_org app)) thread conv (sc_colleague shadow) key row post r
                else post = [] ∧ r = Ok tt
    | Err e => post = [] ∧ r = Err e
    | Panic _ => False
    end →
    bridged guild r (v1 :: vs2 ++ vs3 ++ pre ++ BAppend (mkCaller (sc_user shadow) (ap_org app)) thread
                                                   (posted_row (sc_colleague shadow) receiver body key) row :: post)).
  { intros pre thread body key row post r Hpre Hs Hk Hw. right.
    exists (v1 :: vs2 ++ vs3 ++ pre), (shown (im_author m) (im_member_nick m)), shadow, conv, receiver, body, key, thread, row, post.
    split_and!; [by rewrite !app_comm_cons, <- !app_assoc|by apply Hq|by left|..|done| |done].
    - apply (found_app _ [v1]), (found_app_l _ vs2). done.
    - rewrite app_comm_cons, app_assoc. by apply served_app.
    - destruct (is_trigger bot m); [|done]. destruct Hrec as (c & -> & Hc). exists c. split; [done|].
      right. rewrite !elem_of_app. auto. }
  eapply traced_bind; [apply traced_into_thread|..].
  - intros [thread row] vs4 [[_ [e [=]]]|(pre & body & key & thread' & row' & -> & Hq4 & Hs & Hk & Hn & Hr)].
    destruct row' as [row'|e|p]; [|done..]. injection Hr as -> ->. cbn [fst snd].
    destruct (is_trigger bot m) eqn:Ht.
    + eapply traced_mono; [by apply traced_wake|]. intros r post Hw. rewrite <- app_assoc. apply Hpre; try done. 
    + apply traced_ret. rewrite <- app_assoc. by apply Hpre.
  - intros e vs4 [[Hq4 _]|(pre & body & key & thread' & row' & -> & Hq4 & Hs & Hk & Hn & Hr)].
    { left. split; [by apply Hq|eauto]. }
    destruct row' as [row'|e'|p]; [done| |done]. injection Hr as <-. by apply Hpre.
  - intros p vs4 [[_ [e [=]]]|(pre & body & key & thread' & row' & -> & Hq4 & Hs & Hk & Hn & Hr)]. by destruct row'.
Qed.
End bridge.

(** C40: A message of the bot itself, of another bot or of a webhook is left alone. For
    any other, whatever the stores and Discord answer and whoever interleaves: either
    only quiet calls are made, which wake nobody, and an error is reported; or, after
    quiet calls, its row is appended by one call, under its key, as the person it came
    from, to the thread found or bound for the place of the conversation, and addressed
    to the agent exactly if it mentions the bot or came privately; only after that call,
    and only for such a message, is the queue asked, once and for the row the call
    answered, to wake the agent, and a pump attached to that thread and place. The
    append answers the row kept under the key already when there is one, also when a
    redelivery finds it in another thread ([redelivery_closes_the_channel]); the quiet
    calls before it may bring rows of the history, addressed to nobody. *)
Theorem message_bridged `{Citext} (env : BridgeEnv) (app : DiscordApp) (bot : DiscordUserId) (m : InboundMessage) :
  traced (handle_message env app bot m) (λ r vs,
    if bool_decide (au_id (im_author m) = bot) || negb (is_human m) then vs = [] ∧ r = Ok tt
    else bridged app bot m (guild_of m) r vs).
Proof.
  unfold handle_message. case_bool_decide; [by apply traced_ret|]. destruct (is_human m); cbn [orb negb]; [|by apply traced_ret].
  apply traced_bind_lift.
  - intros guild Hg. replace guild with (guild_of m); [apply traced_message|].
    unfold guild_of. destruct (im_guild_id m) as [g|]; [by injection Hg as ->|]. cbn.
    destruct (parse_snowflake (im_channel_id m) _) as [g| |] eqn:Ep; [|done..]. injection Hg as <-.
    unfold parse_snowflake in Ep. repeat case_match; by simplify_eq.
  - intros e _. left. eauto.
  - intros p Hp. exfalso. destruct (im_guild_id m); [done|].
    pose proof (map_err_no_panic BrParse _ (parse_snowflake_no_panic (im_channel_id m) "discord_guild_id")) as Hn. by rewrite Hp in Hn.
Qed.

(** ** What stays well formed *)

(** A handle names a human colleague of its organisation, whose user has the address
    made of the snowflake. *)
Definition shadow_of (d : directory) (h : HandleRow) : Prop :=
  ∃ u row, colleague_row d (hd_colleague h) = Some row ∧ cw_org_id row = hd_org h ∧ cw_kind row = CKHuman
    ∧ cw_user_id row = Some u ∧ us_email <$> dir_users d !! u = Some (Some (shadow_email (hd_snowflake h))).
Record people_ok (b : bridge) : Prop := {
  pk_once : NoDup (hd_snowflake <$> br_handles b);
  pk_shadows : Forall (shadow_of (br_dir b)) (br_handles b) }.
Definition bound_once (b : bridge) : Prop :=
  ∀ k1 k2 r1 r2, br_threads b !! k1 = Some r1 → br_threads b !! k2 = Some r2 → bn_thread r1 = bn_thread r2 → k1 = k2.
Record bridge_ok (timing : LeaseTiming) (cap : nat) (b : bridge) : Prop := {
  bo_office : office_ok timing cap (br_office b);
  bo_people : people_ok b;
  bo_bound : bound_once b }.

Lemma rename_snowflakes org sf n hs : hd_snowflake <$> rename_handle org sf n hs = hd_snowflake <$> hs.
Proof. unfold rename_handle. rewrite <- list_fmap_compose. apply list_fmap_ext. intros _ h _. cbn. by case_match. Qed.
Lemma rename_shadows d org sf n hs : Forall (shadow_of d) hs → Forall (shadow_of d) (rename_handle org sf n hs).
Proof. intros Hf. apply Forall_fmap. eapply Forall_impl; [exact Hf|]. intros h Hh. cbn. by case_match. Qed.

Lemma colleague_row_app d rows c row : List.find (λ r, bool_decide (cw_id r = c)) (dir_colleagues d) = Some row →
  List.find (λ r, bool_decide (cw_id r = c)) (dir_colleagues d ++ rows) = Some row.
Proof. induction (dir_colleagues d) as [|x l IH]; cbn; [done|]. case_match; auto. Qed.

(** Only who is in the tables of people matters to a handle. *)
Lemma shadow_of_mono d d' h :
  (∀ c row, colleague_row d c = Some row → colleague_row d' c = Some row) →
  (∀ u r, dir_users d !! u = Some r → us_email <$> dir_users d' !! u = Some (us_email r)) →
  shadow_of d h → shadow_of d' h.
Proof.
  intros Hc Hu (u & row & Hr & Ho & Hk & Hw & He). exists u, row. split_and!; auto.
  destruct (dir_users d !! u) as [r|] eqn:Er; [|done]. cbn in He. injection He as He. rewrite (Hu u r Er). by rewrite He.
Qed.

Lemma set_user_name_email u n d v r :
  dir_users d !! v = Some r → us_email <$> dir_users (set_user_name u n d) !! v = Some (us_email r).
Proof.
  intros Hr. cbn [set_user_name dir_users]. destruct (decide (u = v)) as [->|Hne].
  - rewrite lookup_alter_eq, Hr. cbn. by case_match.
  - by rewrite lookup_alter_ne, Hr by done.
Qed.

Section keeps.
Context `{Citext} (timing : LeaseTiming) (cap : nat).
Abbreviation I := (bridge_ok timing cap).

(** A change of the directory that keeps the people. *)
Lemma set_dir_ok d b : I b →
  (∀ c row, colleague_row (br_dir b) c = Some row → colleague_row d c = Some row) →
  (∀ u r, dir_users (br_dir b) !! u = Some r → us_email <$> dir_users d !! u = Some (us_email r)) → I (set_dir d b).
Proof.
  intros [Ho [Hn Hs] Hb] Hc Hu. split; [by destruct Ho; split| |exact Hb]. split; [exact Hn|].
  eapply Forall_impl; [exact Hs|]. intros h. by apply shadow_of_mono.
Qed.
Lemma same_people_ok d b : I b → dir_colleagues d = dir_colleagues (br_dir b) → dir_users d = dir_users (br_dir b) →
  I (set_dir d b).
Proof.
  intros Hb Hc Hu. apply set_dir_ok; [done|unfold colleague_row; by rewrite Hc|]. intros u r Hr. by rewrite Hu, Hr.
Qed.
Lemma rename_ok org sf n b : I b → I (with_handles (rename_handle org sf n (br_handles b)) b).
Proof. intros [Ho [Hn Hs] Hb]. split; [exact Ho| |exact Hb]. split; cbn; [by rewrite rename_snowflakes|by apply rename_shadows]. Qed.

Lemma refresh_ok org sf user n b a b' : I b → refresh_handle org sf user n b = Ok (a, b') → I b'.
Proof.
  intros Hb Hr. unfold refresh_handle in Hr. tx_inv. apply set_dir_ok; [by apply rename_ok|done|].
  intros u r. apply set_user_name_email.
Qed.

Lemma with_store_ok s b : I b → feed_ok s → I (with_office (with_store s (br_office b)) b).
Proof. intros [Ho [] Hb] Hs. split; [by destruct Ho; split|by split|exact Hb]. Qed.

(** Nobody else has the address. *)
Lemma email_free user email b u r : email_taken user email b = false → dir_users (br_dir b) !! u = Some r →
  u ≠ user ∧ us_email r ≠ Some email.
Proof.
  intros Ht Hu. unfold email_taken in Ht.
  destruct (decide (u = user ∨ us_email r = Some email)) as [Hx|Hx]; [|tauto].
  exfalso. rewrite <- not_true_iff_false in Ht. apply Ht, existsb_exists. exists (u, r). split.
  - by apply list_elem_of_In, elem_of_map_to_list.
  - cbn. destruct Hx as [-> | ->]; [by rewrite bool_decide_true|]. unfold ci_eq. by rewrite (bool_decide_true (ci_fold email = _)), orb_true_r.
Qed.

Lemma add_shadow_ok org sf n user colleague b :
  I b → email_taken user (shadow_email sf) b = false →
  existsb (λ r, bool_decide (cw_id r = colleague)) (dir_colleagues (br_dir b)) = false →
  I (add_shadow org sf n user colleague b).
Proof.
  intros [Ho [Hn Hs] Hb] Ht Hc.
  assert (Hnew : sf ∉ (hd_snowflake <$> br_handles b)).
  { intros (h & -> & Hh)%list_elem_of_fmap. rewrite Forall_forall in Hs. destruct (Hs h Hh) as (u & row & _ & _ & _ & _ & He).
    destruct (dir_users (br_dir b) !! u) as [r|] eqn:Er; [|done]. injection He as He. by destruct (email_free _ _ _ _ _ Ht Er). }
  assert (He : existsb (is_handle org sf) (br_handles b) = false).
  { apply not_true_iff_false. intros (h & Hh & Hi)%existsb_exists. apply andb_true_iff in Hi as [_ Hi%bool_decide_eq_true].
    apply Hnew. rewrite <- Hi. apply list_elem_of_fmap. exists h. split; [done|]. by apply list_elem_of_In. }
  assert (Hfind : colleague_row (minted org sf n user colleague (br_dir b)) colleague = Some (human_row org user colleague)).
  { unfold colleague_row, minted, human_row. cbn. revert Hc. induction (dir_colleagues (br_dir b)) as [|x l IH]; cbn.
    - intros _. by rewrite bool_decide_true.
    - intros [-> Hl]%orb_false_iff. auto. }
  unfold add_shadow. rewrite He. split; [by destruct Ho; split; [destruct oo_feed|..]| |exact Hb]. split; cbn.
  - rewrite fmap_app, NoDup_app. split_and!; [done| |apply NoDup_singleton]. by intros x Hx ->%list_elem_of_singleton.
  - apply Forall_app. split.
    + eapply Forall_impl; [exact Hs|]. intros h. apply shadow_of_mono.
      * intros c row. apply colleague_row_app.
      * intros u r Hu. cbn. destruct (email_free _ _ _ _ _ Ht Hu) as [Hne _]. by rewrite lookup_insert_ne, Hu by done.
    + constructor; [|done]. exists user, (human_row org user colleague). split_and!; [exact Hfind|done..|].
      cbn. by rewrite lookup_insert_eq.
Qed.

Lemma mint_ok org sf name user colleague b a b' :
  I b → resolve_or_mint_tx org sf name user colleague b = Ok (a, b') → I b'.
Proof.
  intros Hb Hr. unfold resolve_or_mint_tx in Hr. apply tbind_Ok in Hr as (ex & b0 & Hg & Hr).
  unfold tget in Hg. injection Hg as Hex <-. destruct ex as [row|].
  - tx_inv. destruct name as [nm|]; cbn [fmap option_fmap option_map] in *; tx_inv; [by eapply refresh_ok|done].
  - unfold insert_shadow in Hr. tx_inv. repeat match goal with Hx : negb _ = true |- _ => apply negb_true_iff in Hx end.
    by apply add_shadow_ok.
Qed.

(** A person who has a handle in one organisation is refused in every other. *)
Lemma known_elsewhere_refused org sf name user colleague b h :
  people_ok b → h ∈ br_handles b → hd_snowflake h = sf → hd_org h ≠ org →
  resolve_or_mint_tx org sf name user colleague b = Err (BrDb (lit "users_email_key")).
Proof.
  intros [Hn Hs] Hh Hf Hne. rewrite Forall_forall in Hs. destruct (Hs h Hh) as (u & row & _ & _ & _ & _ & He).
  destruct (dir_users (br_dir b) !! u) as [r|] eqn:Er; [|done]. injection He as He.
  assert (Hnone : List.find (is_handle org sf) (br_handles b) = None).
  { destruct (List.find _ _) as [h'|] eqn:Ef; [|done]. exfalso. apply find_some in Ef as [Hi Hp]. apply list_elem_of_In in Hi.
    apply andb_true_iff in Hp as [Ho%bool_decide_eq_true Hp%bool_decide_eq_true].
    apply list_elem_of_lookup in Hh as [i Hi1]. apply list_elem_of_lookup in Hi as [j Hj].
    assert (i = j) as ->.
    { eapply (NoDup_lookup _ _ _ sf Hn); rewrite list_lookup_fmap; [rewrite Hi1|rewrite Hj]; cbn; congruence. }
    congruence. }
  unfold resolve_or_mint_tx, tbind, tget. cbn [res_bind fst snd]. rewrite Hnone. cbn [mbind option_bind].
  unfold insert_shadow, tbind, tget. cbn [res_bind fst snd].
  replace (email_taken user (shadow_email sf) b) with true; [done|]. symmetry. apply not_false_iff_true. intros Ht.
  destruct (email_free _ _ _ _ _ Ht Er) as [_ Hx]. by rewrite He, Hf in Hx.
Qed.

Lemma ensure_ok key user id b a b' : I b → ensure_channel_tx key user id b = Ok (a, b') → I b'.
Proof.
  intros Hb Hr. unfold ensure_channel_tx in Hr. apply tbind_Ok in Hr as (name & b0 & Hn & Hr). tx_inv.
  assert (Hrows : ∀ rows cs x, I x → I (with_channels rows cs x)) by (intros rows cs x [Ho [] Hx]; split; [exact Ho|by split|exact Hx]).
  destruct (br_channels _ !! key) as [c|]; tx_inv; [by apply same_people_ok|].
  unfold create_channel_and_mapping in *. tx_inv. destruct (List.find _ _); tx_inv; (apply same_people_ok; [|done..]);
    repeat apply Hrows; done.
Qed.

Lemma bind_ok fk key row b a b' : I b → bind_tx fk key row b = Ok (a, b') → I b'.
Proof.
  intros Hi Hr. unfold bind_tx in Hr. apply tbind_Ok in Hr as (ex & b0 & [= <- <-] & Hr).
  destruct (br_threads b !! key) as [r0|]; tx_inv; [exact Hi|]. destruct Hi as [Ho [] Hb].
  match type of Hb with bound_once ?x => rename x into bb end.
  match goal with Hx : negb _ = true |- _ => apply negb_true_iff in Hx; rename Hx into Hfree end.
  split; [exact Ho|by split|].
  assert (Hnew : ∀ k r, br_threads bb !! k = Some r → bn_thread r ≠ bn_thread row).
  { intros k r Hk He. rewrite <- not_true_iff_false in Hfree. apply Hfree, existsb_exists. exists (k, r). split.
    - by apply list_elem_of_In, elem_of_map_to_list.
    - cbn. by rewrite bool_decide_true. }
  intros k1 k2 r1 r2. cbn. intros [[<- <-]|[_ H1]]%lookup_insert_Some [[<- <-]|[_ H2]]%lookup_insert_Some He; [done| | |by eapply Hb].
  - by destruct (Hnew _ _ H2).
  - by destruct (Hnew _ _ H1).
Qed.

Lemma mark_ok key b a b' : I b → mark_backfilled_tx key b = Ok (a, b') → I b'.
Proof.
  intros [Ho [] Hb] Hr. unfold mark_backfilled_tx in Hr. tx_inv. split; [exact Ho|by split|].
  intros k1 k2 r1 r2 H1 H2 He. cbn in H1, H2.
  apply lookup_alter_Some in H1. apply lookup_alter_Some in H2.
  destruct H1 as [(-> & x1 & H1 & ->)|[_ H1]], H2 as [(-> & x2 & H2 & ->)|[_ H2]]; [done|by eapply Hb..].
Qed.

Section programs.
Context (env : BridgeEnv) `{!Respects I (be_net env)}.
(** The decider keeps the office, as [ApprovalFlowLaws] proves of it, and the people. *)
Context (Hdecide : ∀ n org id d clicker o, office_ok timing cap o →
  office_ok timing cap (be_decide env n org id d clicker o).2 ∧ of_dir (be_decide env n org id d clicker o).2 = of_dir o).

Lemma safe_tx {A} (ev : res BridgeError A → bcall) (t : nat → BTx A) :
  (∀ n b, no_panic (t n b)) → (∀ n b a b', I b → t n b = Ok (a, b') → I b') →
  safe I (bridge_call env ev (λ n, trun (t n))) (λ _, True).
Proof.
  intros Hn Hk. apply safe_call; [done|]. intros n b Hb. specialize (Hn n b). unfold trun.
  destruct (t n b) as [[a b']|e|p] eqn:E; [|done..]. split; [by eapply Hk|done].
Qed.
Lemma safe_store {A} what (ev : res BridgeError A → bcall) f :
  (∀ n s, feed_ok s → feed_ok (f n s).2 ∧ no_panic (f n s).1) → safe I (store_call env what ev f) (λ _, True).
Proof.
  intros Hf. apply safe_call; [done|]. intros n b Hb. specialize (Hf n (of_store (br_office b)) (oo_feed _ _ _ (bo_office _ _ _ Hb))).
  destruct (f n _) as [r s]. destruct Hf as [Hs Hr]. split; [by apply with_store_ok|by destruct r].
Qed.
Lemma safe_look {A} (ev : res BridgeError A → bcall) (f : nat → bridge → res BridgeError A) :
  (∀ n b, no_panic (f n b)) → safe I (bridge_call env ev (λ n b, (f n b, b))) (λ _, True).
Proof. intros Hf. apply safe_call; [done|]. intros n b Hb. specialize (Hf n b). split; [done|by destruct (f n b)]. Qed.
Lemma safe_remote {A} (ev : res BridgeError A → bcall) f : safe I (remote_call env ev f) (λ _, True).
Proof. apply safe_look. intros n b. apply from_sum_no_panic. Qed.

Lemma safe_mint org sf name : safe I (resolve_or_mint env org sf name) (λ _, True).
Proof. apply safe_tx; [intros; apply resolve_or_mint_calm|intros ????; apply mint_ok]. Qed.
Lemma safe_ensure key user : safe I (ensure_channel env key user) (λ _, True).
Proof. apply safe_tx; [intros; apply ensure_channel_calm|intros ????; apply ensure_ok]. Qed.
Lemma safe_bind_row key row : safe I (bind env key row) (λ _, True).
Proof. apply safe_tx; [intros; apply bind_calm|intros ????; apply bind_ok]. Qed.
Lemma safe_mark key : safe I (mark_backfilled env key) (λ _, True).
Proof. apply safe_tx; [done|intros ????; apply mark_ok]. Qed.
Lemma safe_agent_join channel c : safe I (add_agent_to_channel env channel c) (λ _, True).
Proof. apply safe_call; [done|]. intros n b Hb. destruct (be_fk env n); [|done]. split; [|done]. by apply same_people_ok. Qed.
Lemma safe_create caller channel creator : safe I (create_channel_thread env caller channel creator) (λ _, True).
Proof. apply safe_store. intros n s Hs. by apply create_thread_ok. Qed.
Lemma safe_append_row caller thread row : safe I (append_row env caller thread row) (λ _, True).
Proof. apply safe_store. intros n s Hs. by apply append_ok. Qed.
Lemma safe_part caller thread agent : safe I (DiscordBridge.participation env caller thread agent) (λ _, True).
Proof. apply safe_store. intros n s Hs. by apply participation_ok. Qed.
Lemma safe_wake trig : safe I (DiscordBridge.enqueue env trig) (λ _, True).
Proof.
  apply safe_call; [done|]. intros n b [Ho Hp Hb].
  pose proof (queue_ok_view _ _ (oo_queue _ _ _ Ho)) as Hq.
  match goal with |- context [enqueue_trigger_impl ?a ?b ?c ?d ?e ?f] =>
    pose proof (enqueue_no_panic a b c d e f) as Hn;
    assert (queue_ok timing (enqueue_trigger_impl a b c d e f).2) as Hq'
      by (eapply queue_ok_step; [exact Hq|]; intros rds cs; apply step_enqueue);
    destruct (enqueue_trigger_impl a b c d e f) as [r q] end. cbn in *.
  split; [split; [by destruct Ho; split|by destruct Hp; split|exact Hb]|by destruct r].
Qed.
Lemma safe_pump_attach req : safe I (attach env req) (λ _, True).
Proof.
  intros s Hs. unfold attach, plocal. cbn. split; [by apply respects|done].
Qed.
Lemma safe_decide org id d clicker : safe I (decide_click env org id d clicker) (λ _, True).
Proof.
  apply safe_call; [done|]. intros n b [Ho Hp Hb]. pose proof (Hdecide n org id d clicker _ Ho) as Hd.
  destruct (be_decide env n org id d clicker (br_office b)) as [r o]. destruct Hd as [Hd He]. cbn in Hd, He. cbn [fst snd].
  split; [|done]. split; [exact Hd| |exact Hb]. destruct Hp as [H1 H2]. split; [exact H1|]. unfold br_dir. cbn. by rewrite He.
Qed.
Lemma safe_agent app : safe I (resolve_agent_colleague env app) (λ _, True).
Proof. apply safe_look. intros n b. apply map_err_no_panic, resolve_agent_calm. Qed.
Lemma safe_app app : safe I (read_by_app_id env app) (λ _, True).
Proof. apply safe_look. intros n b. apply ok_or_no_panic. Qed.
Lemma safe_plift {A} (r : res BridgeError A) : no_panic r → safe (V := bcall) I (plift r) (λ _, True).
Proof. intros Hr. apply safe_lift. by destruct r. Qed.
Lemma safe_lookup key : safe I (lookup_by_container env key) (λ _, True).
Proof. by apply safe_look. Qed.
#[local] Hint Resolve safe_mint safe_ensure safe_bind_row safe_mark safe_agent_join safe_create safe_append_row safe_part safe_wake
  safe_pump_attach safe_decide safe_agent safe_app safe_remote safe_plift safe_lookup bridge_key_no_panic : patom_program.
(** Goes through a program of such calls. *)
Ltac safely := repeat first
  [ apply safe_ret; exact Logic.I | apply safe_err | solve [auto 2 with patom_program]
  | apply safe_seq; [|intros ?]
  | eapply safe_try | eapply safe_mono; [eapply safe_catch|intros ??; exact Logic.I] | case_match ].

Lemma safe_mint_members org ms : safe I (mint_members env org ms) (λ _, True).
Proof. induction ms as [|x ms IH]; cbn [mint_members]; unfold mint_member; safely. Qed.
Lemma safe_attachments atts : safe I (append_attachments env atts) (λ _, True).
Proof. induction atts as [|x atts IH]; cbn [append_attachments]; unfold ingest_discord_attachment; safely. Qed.
#[local] Hint Resolve safe_mint_members safe_attachments : patom_program.
Lemma safe_mirrored app caller thread sender receiver guild m :
  safe I (append_mirrored env app caller thread sender receiver guild m) (λ _, True).
Proof. unfold append_mirrored, build_user_message. safely. Qed.
#[local] Hint Resolve safe_mirrored : patom_program.
Lemma safe_mirror_all app guild thread ms : safe I (mirror_all env app guild thread ms) (λ _, True).
Proof. induction ms as [|x ms IH]; cbn [mirror_all]; unfold mirror_backfilled; safely. Qed.
Lemma safe_pages pages app channel cursor collected : safe I (collect_pages env pages app channel cursor collected) (λ _, True).
Proof.
  revert cursor collected. induction pages as [|pages IH]; intros cursor collected; cbn [collect_pages]; unfold fetch_before; safely.
Qed.
#[local] Hint Resolve safe_mirror_all safe_pages : patom_program.
Lemma safe_backfill app guild channel thread before : safe I (maybe_backfill env app guild channel thread before) (λ _, True).
Proof. unfold maybe_backfill, backfill_channel. safely. Qed.
#[local] Hint Resolve safe_backfill : patom_program.
Lemma safe_conversation app guild m t : safe I (resolve_conversation env app guild m t) (λ _, True).
Proof.
  unfold resolve_conversation, open_from_message. apply safe_seq; [auto with patom_program|]. intros known.
  case_match; [|safely]. destruct (thread_name_fits (E := BridgeError) (im_content m) (mention_names m)) as (name & -> & _). safely.
Qed.
#[local] Hint Resolve safe_conversation : patom_program.
Lemma safe_message app bot m : safe I (handle_message env app bot m) (λ _, True).
Proof.
  unfold handle_message, mirror_into_thread, resolve_thread, enqueue_and_attach. safely.
  apply safe_plift, map_err_no_panic, parse_snowflake_no_panic.
Qed.
End programs.
End keeps.

(** whatever is dispatched (messages, members, guilds, clicks), whatever fails and
    whoever interleaves, the office stays well formed and the bridge never panics; every
    known person has one handle over all organisations, a human colleague of its
    organisation with the address made of the snowflake; and a thread is bound to one
    place only. *)
Theorem bridge_keeps `{Citext, UuidParser} (env : BridgeEnv) (timing : LeaseTiming) (cap : nat) (app_id : str)
    (bot : DiscordUserId) (event : DiscordEvent) :
  Respects (bridge_ok timing cap) (be_net env) →
  (∀ n org id d clicker o, office_ok timing cap o →
     office_ok timing cap (be_decide env n org id d clicker o).2 ∧ of_dir (be_decide env n org id d clicker o).2 = of_dir o) →
  safe (bridge_ok timing cap) (process_event env app_id bot event) (λ _, True).
Proof.
  intros Hnet Hdecide. unfold process_event.
  assert (Hmint : ∀ org u nick, safe (bridge_ok timing cap) (mint_member env org u nick) (λ _, True)).
  { intros org u nick. unfold mint_member. case_match; [by apply safe_ret|].
    apply safe_seq; [by apply safe_mint|intros; by apply safe_ret]. }
  destruct event as [m|members|u nick|i|]; [..|by apply safe_ret]; (apply safe_seq; [by apply safe_app|intros app]).
  - by apply safe_message.
  - by apply safe_mint_members.
  - apply Hmint.
  - unfold handle_interaction. case_match; [by apply safe_ret|]. case_match; [|by apply safe_ret].
    destruct p as [id d]. apply safe_seq; [eapply safe_try; by apply safe_remote|]. intros _.
    case_match; [|by apply safe_ret]. apply safe_seq; [by apply safe_mint|]. intros shadow.
    apply safe_seq; [by apply safe_decide|]. intros [e|o]; cbn [render_decision].
    + destruct e; try apply safe_err; eapply safe_try; by apply safe_remote.
    + eapply safe_try; by apply safe_remote.
Qed.

(** ** On concrete tables *)

Module BridgeDemo.
#[local] Instance fold : Citext := λ s, s.
#[local] Instance parser : UuidParser := λ s, Z.to_N <$> parse_u64 s.

Definition app : DiscordApp := mkDiscordApp 1 (lit "800") 7.
Definition bot : DiscordUserId := lit "900".
Definition start : bridge := mkBridge SendDemo.here [app; mkDiscordApp 2 (lit "801") 9] [] [] ∅ ∅.
Definition ann : Author := mkAuthor (lit "100") (lit "ann") None false.
Definition mention (id : string) : InboundMessage :=
  mkInbound (lit id) (lit "300") (Some (lit "200")) ann None (lit "<@900> please check") [] [] None.
Definition denied : ApprovalRecord :=
  mkApprovalRecord 40 1 10 7 3 11 (mkActionSummary (lit "deploy")) (mkToolName (lit "deploy")) AKColleague (Some 3%N)
    ApDenied PWeb (None, None, None) None (Some 3%N) (Some 5%Z) 90 1.
(** Ids are fresh from [base] on; the opening of threads answers [opened]; the card was
    denied long ago. *)
Definition env (base : N) (opened : PostError + str) : BridgeEnv :=
  mkBridgeEnv calm (λ n, Z.of_nat n + 100)%Z (λ n, N.of_nat n + base)%N (λ n, N.of_nat n + 10 * base)%N (λ _, true)
    (λ _ _, true) None false (λ _ _ _ _ _, match opened with inr t => inr t | inl e => inl (BrPost e) end)
    (λ _ _ _ _ _, inr []) (λ _ _, inr None) (λ _, inr tt) (λ _ _ _ _ _ o, (inr (AlreadyDecided denied), o)).

Definition feed_event (base : N) (opened : PostError + str) (app_id : string) (event : DiscordEvent) (b : bridge) :=
  process_event (env base opened) (lit app_id) bot event (mkRun b []).
Definition deliver (base : N) (opened : PostError + str) (m : InboundMessage) (b : bridge) : bridge :=
  run_tables (feed_event base opened "800" (DeMessage m) b).2.
(** Where each container leads, and whether it is taken for a thread. *)
Definition bindings (b : bridge) : list (str * (ThreadId * bool)) :=
  (λ kv, (kv.1.2.2.2, (bn_thread kv.2, bn_is_thread kv.2))) <$> map_to_list (br_threads b).
Definition opens {A} (r : A * run_state bridge bcall) : list str :=
  omap (λ v, match v with BOpenThread _ _ m _ _ => Some m | _ => None end) (run_trace r.2).
Definition rows (b : bridge) := (λ r, (fr_id r, fr_thread_id r)) <$> thread_messages (of_store (br_office b)).
Definition wakes (b : bridge) := (λ r, (pr_id r, pr_trigger_message_id r)) <$> prompt_requests (of_queue (br_office b)).

Definition once := deliver 500 (inr (lit "400")) (mention "1000") start.
Definition already_open : PostError + str := inl (PostFailed 400 (lit "A thread has already been created for this message")).
Definition twice := deliver 600 already_open (mention "1000") once.
Definition later := feed_event 700 (inr (lit "401")) "800" (DeMessage (mention "1001")) twice.
Definition nick256 : str := repeat 0x1F600%N 256.
Definition renamed : InboundMessage :=
  mkInbound (lit "1002") (lit "300") (Some (lit "200")) (mkAuthor (lit "102") (lit "joy") (Some nick256) false) None
    (lit "hello") [] [] None.
Definition press : DiscordEvent :=
  DeInteraction (mkInteraction (lit "5") (lit "800") (lit "tok") 3 (Some ann) None (Some (lit "apv:40:a"))).
Definition edits {A} (r : A * run_state bridge bcall) : list str :=
  omap (λ v, match v with BEdit _ _ text _ => Some text | _ => None end) (run_trace r.2).

(** A mention opens a thread; delivered again, its thread "exists already", which is read
    as "no threads here": the channel is bound to a second thread of the office, and no
    later mention in it opens one. *)
Lemma redelivery_closes_the_channel :
  bindings once = [(lit "400", (509%N, true))]
  ∧ bindings twice = [(lit "400", (509%N, true)); (lit "300", (609%N, true))]
  ∧ rows twice = rows once ∧ wakes twice = wakes once
  ∧ later.1 = Ok tt ∧ opens later = [].
Proof. vm_compute. repeat split. Qed.

(** So does one rate-limited opening. *)
Lemma rate_limit_closes_the_channel :
  bindings (deliver 500 (inl (PostFailed 429 [])) (mention "1000") start) = [(lit "300", (509%N, true))].
Proof. vm_compute. reflexivity. Qed.

(** A person known in one organisation writes in another. *)
Lemma refused_next_door :
  (feed_event 600 already_open "801" (DeMessage (mention "1003")) once).1 = Err (BrDb (lit "users_email_key")).
Proof. vm_compute. reflexivity. Qed.

(** A name of 256 characters passes the cap and fails the check of the table. *)
Lemma long_name_refused :
  (feed_event 500 already_open "800" (DeMessage renamed) start).1 = Err (BrDb (lit "users_display_name_check")).
Proof. vm_compute. reflexivity. Qed.

(** A card denied long ago shows what anybody clicks next. *)
Lemma denied_shows_approved :
  edits (feed_event 500 already_open "800" press start) = [0x2705%N :: lit " Approved by ann."]
  ∧ ar_status denied = ApDenied.
Proof. vm_compute. repeat split. Qed.

Lemma start_ok : bridge_ok Demo.timing 2 start.
Proof. split; [exact SendDemo.here_ok|split; constructor|done]. Qed.
End BridgeDemo.

Lemma bridge_keeps_witness : bridge_ok Demo.timing 2 BridgeDemo.once.
Proof.
  eapply (bridge_keeps (H := BridgeDemo.fold) (H0 := BridgeDemo.parser) (BridgeDemo.env 500 (inr (lit "400"))) Demo.timing 2).
  - apply _.
  - intros n org id d clicker o Ho. by split.
  - exact BridgeDemo.start_ok.
Defined.
