(* ===== verification/McpStore.v ===== *)
(** * Remote tool servers: what is stored

    [mcp/types.rs], [mcp/limits.rs], [mcp/error.rs], [mcp/catalog.rs],
    [mcp/pg_store.rs], [mcp/pg_credentials.rs] and the table of pending authorizations of
    [mcp/oauth/state_adapter.rs]: the catalogue of integrations, the servers an
    organisation wired, their credentials and the flows under way.  A payload is sealed
    with the key of its organisation and opened with the same, so the tables hold it as
    it is; that opening it may fail is a fault of the call.
    Then what the transactions keep. *)

From Stdlib Require Import ZArith Lia Ascii String.
From stdpp Require Import base gmap list strings sets sorting relations.
From S2P Require Import Prelude Program Types Compaction Tools Responses Office Network Identity Signed.

(** ** Limits *)

Abbreviation McpServerId := N (only parsing).
Definition MAX_MCP_SERVERS : nat := 32.
Definition MAX_TOOLS_PER_SERVER : nat := 64.
Definition MCP_TOOL_REMOTE_NAME_MAX_LEN : nat := 64.
Definition MCP_CATALOG_DISPLAY_NAME_MAX_LEN : nat := 100.
Definition MCP_CATALOG_DESCRIPTION_MAX_LEN : nat := 1024.
Definition MCP_DESCRIPTION_MAX_LEN : nat := 512.
Definition MCP_OAUTH_CLIENT_ID_MAX_LEN : nat := 512.
Definition MCP_OAUTH_CLIENT_SECRET_MAX_LEN : nat := 1024.
Definition MCP_URL_MAX_LEN : nat := 2048.
Definition MCP_MAX_HEADERS : nat := 16.
Definition MCP_HEADER_NAME_MAX_LEN : nat := 64.
Definition MCP_HEADER_VALUE_MAX_LEN : nat := 4096.
Definition MCP_CATALOG_AUTHORIZE_EXTRA_PARAMS_MAX : nat := 8.
Definition MCP_CATALOG_AUTHORIZE_EXTRA_PARAM_BYTES_MAX : nat := 100.
Definition MAX_ALLOWED_MCP_CATALOGS_PER_AGENT : nat := 32.
Definition MAX_ALLOWED_MCP_TOOLS_PER_CATALOG_PER_AGENT : nat := 64.

(** ** Validated texts *)

Definition bounded (field : string) (max : nat) (raw : str) : res ParseError str :=
  if is_empty raw then Err (Empty field)
  else if max <? str_len raw then Err (TooLong field max (str_len raw))
  else Ok raw.

Definition OAuthClientId_try_from : str → res ParseError str := bounded "mcp_catalog.oauth_client_id" MCP_OAUTH_CLIENT_ID_MAX_LEN.
Definition OAuthClientSecret_try_from : str → res ParseError str :=
  bounded "mcp_catalog.oauth_client_secret" MCP_OAUTH_CLIENT_SECRET_MAX_LEN.
Definition McpCatalogDisplayName_try_from : str → res ParseError str :=
  bounded "mcp_catalog.display_name" MCP_CATALOG_DISPLAY_NAME_MAX_LEN.
Definition McpCatalogDescription_try_from : str → res ParseError str :=
  bounded "mcp_catalog.description" MCP_CATALOG_DESCRIPTION_MAX_LEN.
Definition McpToolRemoteName_try_from : str → res ParseError str :=
  bounded "mcp_tool_remote_name" MCP_TOOL_REMOTE_NAME_MAX_LEN.
Definition McpDescription_try_from (raw : str) : res ParseError str :=
  if MCP_DESCRIPTION_MAX_LEN <? str_len raw
  then Err (TooLong "mcp_description" MCP_DESCRIPTION_MAX_LEN (str_len raw)) else Ok raw.

(** The url crate's normal form of a text it accepts. *)
Class UrlText := url_text : str → str.
Definition McpHttpUrl_try_from `{UrlParser, UrlText} (raw : str) : res ParseError str :=
  if is_empty raw then Err (Empty "mcp_transport.url")
  else if MCP_URL_MAX_LEN <? str_len raw then Err (TooLong "mcp_transport.url" MCP_URL_MAX_LEN (str_len raw))
  else
    match url_parse raw with
    | inl _ => Err (Malformed "mcp_transport.url" "not a valid URL")
    | inr url =>
        if negb (bool_decide (url_scheme url = lit "http") || bool_decide (url_scheme url = lit "https"))
        then Err (Malformed "mcp_transport.url" "scheme must be http or https")
        else if bool_decide (url_host url = None) then Err (Malformed "mcp_transport.url" "host missing")
        else Ok (url_text raw)
    end.

Definition is_header_token (c : N) : bool :=
  is_ascii_alphanumeric c || bool_decide (c ∈ lit "!#$%&'*+-.^_`|~").
Definition McpHeaderName_try_from (raw : str) : res ParseError str :=
  if is_empty raw then Err (Empty "mcp_transport.header_name")
  else if MCP_HEADER_NAME_MAX_LEN <? str_len raw
  then Err (TooLong "mcp_transport.header_name" MCP_HEADER_NAME_MAX_LEN (str_len raw))
  else if negb (forallb is_header_token raw)
  then Err (Malformed "mcp_transport.header_name" "rfc7230 token characters only")
  else Ok (to_ascii_lowercase raw).

Definition is_ascii_graphic (c : N) : bool := ((0x21 <=? c) && (c <=? 0x7e))%N.
Definition McpHeaderValue_try_from (raw : str) : res ParseError str :=
  if is_empty raw then Err (Empty "mcp_transport.header_value")
  else if MCP_HEADER_VALUE_MAX_LEN <? str_len raw
  then Err (TooLong "mcp_transport.header_value" MCP_HEADER_VALUE_MAX_LEN (str_len raw))
  else if negb (forallb (λ c, (c =? 0x20)%N || (c =? 0x9)%N || is_ascii_graphic c) raw)
  then Err (Malformed "mcp_transport.header_value" "must be ascii-printable, no control chars")
  else Ok raw.

(** The order of a vector is kept. *)
Fixpoint check_extras (items : list (str * str)) : res ParseError unit :=
  match items with
  | [] => Ok tt
  | (key, value) :: items =>
      let max := MCP_CATALOG_AUTHORIZE_EXTRA_PARAM_BYTES_MAX in
      if is_empty key then Err (Empty "mcp_catalog.authorize_extra_params.key")
      else if max <? str_len key then Err (TooLong "mcp_catalog.authorize_extra_params.key" max (str_len key))
      else if max <? str_len value then Err (TooLong "mcp_catalog.authorize_extra_params.value" max (str_len value))
      else check_extras items
  end.
Definition OAuthAuthorizeExtras_try_from (raw : list (str * str)) : res ParseError (list (str * str)) :=
  if MCP_CATALOG_AUTHORIZE_EXTRA_PARAMS_MAX <? length raw
  then Err (TooLong "mcp_catalog.authorize_extra_params" MCP_CATALOG_AUTHORIZE_EXTRA_PARAMS_MAX (length raw))
  else check_extras raw ;;? Ok raw.
(** [decode_authorize_extra_params], past the JSON. *)
Definition decode_authorize_extra_params (raw : option (list (str * str))) : res ParseError (option (list (str * str))) :=
  match raw with
  | None | Some [] => Ok None
  | Some items => extras <-? OAuthAuthorizeExtras_try_from items ; Ok (Some extras)
  end.

(** *** What an agent may use ([agents/types.rs])

    The entries of a BTreeMap, in the order of their keys. *)

Inductive ToolScope := ScopeNone | ScopeAll | ScopeSome (set : gset str).
Abbreviation AllowedMcpTools := (list (str * option (gset str))).

Fixpoint scope_names (names : list str) (set : gset str) : res ParseError (gset str) :=
  match names with
  | [] => Ok set
  | raw :: names =>
      name <-? McpToolRemoteName_try_from raw ;
      if bool_decide (name ∈ set) then Err (Malformed "allowed_mcp_tools" "duplicate tool name in catalog list")
      else scope_names names ({[name]} ∪ set)
  end.
Fixpoint allowed_entries (raw : list (str * option (list str))) : res ParseError AllowedMcpTools :=
  match raw with
  | [] => Ok []
  | (raw_id, names) :: raw =>
      catalog <-? McpCatalogId_try_from raw_id ;
      scope <-? match names with
                | None => Ok None
                | Some names =>
                    if MAX_ALLOWED_MCP_TOOLS_PER_CATALOG_PER_AGENT <? length names
                    then Err (OutOfRange "allowed_mcp_tools" "too many tools for one catalog")
                    else set <-? scope_names names ∅ ; Ok (Some set)
                end ;
      rest <-? allowed_entries raw ;
      Ok ((catalog, scope) :: rest)
  end.
Definition AllowedMcpTools_try_from (raw : list (str * option (list str))) : res ParseError AllowedMcpTools :=
  if MAX_ALLOWED_MCP_CATALOGS_PER_AGENT <? length raw then Err (OutOfRange "allowed_mcp_tools" "too many catalogs")
  else allowed_entries raw.
Definition allowed_iter (allowed : AllowedMcpTools) : list (str * ToolScope) :=
  (λ kv, (kv.1, match kv.2 with None => ScopeAll | Some set => ScopeSome set end)) <$> allowed.
Definition tools_for_catalog (allowed : AllowedMcpTools) (catalog : str) : ToolScope :=
  match List.find (λ kv, bool_decide (kv.1 = catalog)) allowed with
  | None => ScopeNone
  | Some (_, None) => ScopeAll
  | Some (_, Some set) => ScopeSome set
  end.

(** ** Rows *)

Inductive McpTransport := Http (url : str).
#[export] Instance McpTransport_eq_dec : EqDecision McpTransport.
Proof. solve_decision. Defined.

Inductive ConnectionStatus := CsOk | CsAuthPending | CsReconnectRequired | CsError.
#[export] Instance ConnectionStatus_eq_dec : EqDecision ConnectionStatus.
Proof. solve_decision. Defined.
Definition ConnectionStatus_as_str (s : ConnectionStatus) : string :=
  match s with
  | CsOk => "ok" | CsAuthPending => "auth_pending" | CsReconnectRequired => "reconnect_required" | CsError => "error"
  end.
#[export] Instance ConnectionStatus_StrEnum : StrEnum ConnectionStatus.
Proof. refine {| ALL := [CsOk; CsAuthPending; CsReconnectRequired; CsError]; as_str := ConnectionStatus_as_str |}; abstract str_enum. Defined.

Inductive ClientSource := SrcPlatform | SrcDcr | SrcUserSupplied | SrcNone.
#[export] Instance ClientSource_eq_dec : EqDecision ClientSource.
Proof. solve_decision. Defined.
Definition ClientSource_as_str (s : ClientSource) : string :=
  match s with SrcPlatform => "platform" | SrcDcr => "dcr" | SrcUserSupplied => "user_supplied" | SrcNone => "none" end.
#[export] Instance ClientSource_StrEnum : StrEnum ClientSource.
Proof. refine {| ALL := [SrcPlatform; SrcDcr; SrcUserSupplied; SrcNone]; as_str := ClientSource_as_str |}; abstract str_enum. Defined.

Record DiscoveredTool := mkDiscovered { dt_remote_name : str; dt_prefixed_name : str; dt_description : option str }.
Record McpServerRecord := mkServer {
  srv_id : McpServerId; srv_org_id : OrgId; srv_catalog_id : str; srv_enabled : bool; srv_config : McpTransport;
  srv_description : option str; srv_last_seen_at : option Z; srv_last_error : option str;
  srv_discovered_tools : option (list DiscoveredTool); srv_created_by_user_id : UserId;
  srv_connection_status : ConnectionStatus; srv_created_at : Z; srv_updated_at : Z }.

Record UserOAuthClient := mkUserClient { uc_client_id : str; uc_client_secret : option str }.
Record McpCatalogEntry := mkEntry {
  ct_id : str; ct_org_id : option OrgId; ct_display_name : str; ct_description : str; ct_icon_url : option str;
  ct_default_transport : McpTransport; ct_auth_kind : McpAuthKind; ct_default_scope : option str;
  ct_authorize_extra_params : option (list (str * str)); ct_client_source : ClientSource;
  ct_platform_client_alias : option str }.
(** The client is read by [oauth_client] only. *)
Record CatalogRow := mkCatalogRow { cg_entry : McpCatalogEntry; cg_oauth_client : option UserOAuthClient }.

(** rmcp's [StoredCredentials]: a client, and the token once there is one. *)
Record StoredCredentials := mkStored { sc_client_id : str; sc_token_response : option str }.
Inductive CredentialPayload := PayStaticHeaders (headers : list (str * str)) | PayOauth2 (stored : StoredCredentials).
Record CredentialRow := mkCredentialRow { cd_server_id : McpServerId; cd_org_id : OrgId; cd_payload : CredentialPayload }.

Record ResumeCtx := mkResumeCtx { rc_thread_id : ThreadId; rc_agent_id : AgentId }.
Record SlackPingCtx := mkSlackPing { sp_team_id : str; sp_channel_id : str; sp_thread_ts : str }.
Record LarkPingCtx := mkLarkPing { lp_app_id : str; lp_chat_id : str; lp_reply_to : option str }.
Record DiscordPingCtx := mkDiscordPing { dp_application_id : str; dp_container_id : str; dp_reply_to : option str }.
Record PatomPendingCtx := mkPendingCtx {
  pc_server_id : McpServerId; pc_user_id : UserId; pc_org_id : OrgId; pc_redirect_to : option str;
  pc_resume_ctx : option ResumeCtx; pc_slack_ctx : option SlackPingCtx; pc_lark_ctx : option LarkPingCtx;
  pc_discord_ctx : option DiscordPingCtx; pc_expires_at : Z }.
Record PendingRow := mkPendingRow { pd_state : str; pd_pkce_verifier : str; pd_ctx : PatomPendingCtx }.

Record mcp := mkMcp {
  mc_catalog : list CatalogRow;
  mc_servers : list McpServerRecord;
  mc_credentials : list CredentialRow;
  mc_pending : list PendingRow;
  mc_members : list (UserId * OrgId) }.
Definition with_catalog (l : list CatalogRow) (t : mcp) : mcp :=
  mkMcp l (mc_servers t) (mc_credentials t) (mc_pending t) (mc_members t).
Definition with_servers (l : list McpServerRecord) (t : mcp) : mcp :=
  mkMcp (mc_catalog t) l (mc_credentials t) (mc_pending t) (mc_members t).
Definition with_credentials (l : list CredentialRow) (t : mcp) : mcp :=
  mkMcp (mc_catalog t) (mc_servers t) l (mc_pending t) (mc_members t).
Definition with_pending (l : list PendingRow) (t : mcp) : mcp :=
  mkMcp (mc_catalog t) (mc_servers t) (mc_credentials t) l (mc_members t).

Inductive McpError :=
| McpNotFound (id : McpServerId)
| McpCatalogIdTaken (id : str)
| McpCatalogIdUnknown (id : str)
| McpCatalogIdShadowsGlobal (id : str)
| McpServerCapExceeded (max : nat)
| McpParse (e : ParseError)
| McpInvalidConfig (msg : str)
| McpConnect (msg : str)
| McpListTools (msg : str)
| McpCall (msg : str)
| McpCallTimeout
| McpBackend (msg : str)
| McpDb (msg : str).

Definition McpError_display `{UuidPrinter} (e : McpError) : str :=
  match e with
  | McpNotFound id => lit "mcp server " ++ uuid_to_string id ++ lit " not found"
  | McpCatalogIdTaken id => lit "mcp server with catalog id `" ++ id ++ lit "` already wired in this org"
  | McpCatalogIdUnknown id => lit "mcp catalog id `" ++ id ++ lit "` does not resolve to a known catalog entry"
  | McpCatalogIdShadowsGlobal id => lit "mcp catalog id `" ++ id ++ lit "` collides with a built-in; pick a different id"
  | McpServerCapExceeded max => lit "server cap reached (max " ++ show_Z (Z.of_nat max) ++ lit ")"
  | McpParse e => lit "parse: " ++ ParseError_to_string e
  | McpInvalidConfig msg => lit "config rejected: " ++ msg
  | McpConnect msg => lit "connect to mcp server failed: " ++ msg
  | McpListTools msg => lit "list_tools on mcp server failed: " ++ msg
  | McpCall msg => lit "mcp tool call failed: " ++ msg
  | McpCallTimeout => lit "mcp tool call timed out"
  | McpBackend msg => lit "mcp store backend error: " ++ msg
  | McpDb msg => lit "mcp store db error: " ++ msg
  end.

Definition MTx : Type → Type := Tx mcp McpError.

(** ** Servers ([mcp/pg_store.rs]) *)

Record McpServerCreate := mkServerCreate {
  vc_org_id : OrgId; vc_created_by_user_id : UserId; vc_catalog_id : str; vc_config : McpTransport;
  vc_description : option str; vc_enabled : bool; vc_connection_status : ConnectionStatus }.
Record McpServerUpdate := mkServerUpdate {
  vu_config : option McpTransport; vu_description : option (option str); vu_enabled : option bool }.
Record McpHealthUpdate := mkHealth {
  hu_last_seen_at : option Z; hu_last_error : option str; hu_discovered_tools : option (list DiscoveredTool) }.

Definition is_server (id : McpServerId) (org : OrgId) (s : McpServerRecord) : Prop := srv_id s = id ∧ srv_org_id s = org.
#[export] Instance is_server_dec id org s : Decision (is_server id org s).
Proof. unfold is_server. apply _. Defined.
Definition servers_of (org : OrgId) (t : mcp) : list McpServerRecord := filter (λ s, srv_org_id s = org) (mc_servers t).
Definition find_server (id : McpServerId) (org : OrgId) (t : mcp) : option McpServerRecord :=
  List.find (λ s, bool_decide (is_server id org s)) (mc_servers t).

(** The trigger on [catalog_id]. *)
Definition entry_for (org : OrgId) (id : str) (r : CatalogRow) : bool :=
  bool_decide (ct_id (cg_entry r) = id)
  && match ct_org_id (cg_entry r) with None => true | Some o => bool_decide (o = org) end.
Definition catalog_resolves (org : OrgId) (id : str) (t : mcp) : bool := existsb (entry_for org id) (mc_catalog t).

Definition new_server (payload : McpServerCreate) (id : McpServerId) (now : Z) : McpServerRecord :=
  mkServer id (vc_org_id payload) (vc_catalog_id payload) (vc_enabled payload) (vc_config payload) (vc_description payload)
    None None None (vc_created_by_user_id payload) (vc_connection_status payload) now now.
(** The advisory lock makes the count and the insertion one step; [fk_ok]: the
    organisation and the person exist. *)
Definition server_create_tx (cap : nat) (fk_ok : bool) (payload : McpServerCreate) (id : McpServerId) (now : Z)
    : MTx McpServerRecord :=
  let org := vc_org_id payload in
  let catalog := vc_catalog_id payload in
  count <-$ tget (λ t, length (servers_of org t)) ;
  tguard (count <? cap) (McpServerCapExceeded cap) ;;$
  resolves <-$ tget (catalog_resolves org catalog) ;
  tguard resolves (McpCatalogIdUnknown catalog) ;;$
  taken <-$ tget (λ t, existsb (λ s, bool_decide (srv_id s = id)
                                     || bool_decide (srv_org_id s = org) && bool_decide (srv_catalog_id s = catalog))
                         (mc_servers t)) ;
  tguard (negb taken) (McpCatalogIdTaken catalog) ;;$
  tguard fk_ok (McpCatalogIdUnknown catalog) ;;$
  tmod (λ t, with_servers (mc_servers t ++ [new_server payload id now]) t) ;;$
  tret (new_server payload id now).

Definition by_catalog (s t : McpServerRecord) : Prop := str_leb (srv_catalog_id s) (srv_catalog_id t) = true.
#[export] Instance by_catalog_dec s t : Decision (by_catalog s t).
Proof. unfold by_catalog. apply _. Defined.
(** [ORDER BY catalog_id]: rows of one catalog id come in any order; here as inserted. *)
Definition list_enabled (t : mcp) : list McpServerRecord :=
  merge_sort by_catalog (filter (λ s, srv_enabled s = true ∧ srv_connection_status s ≠ CsAuthPending) (mc_servers t)).
Definition list_for_org (org : OrgId) (t : mcp) : list McpServerRecord := merge_sort by_catalog (servers_of org t).
Definition server_read (id : McpServerId) (org : OrgId) (t : mcp) : res McpError McpServerRecord :=
  ok_or (find_server id org t) (McpNotFound id).

Definition updated (payload : McpServerUpdate) (now : Z) (s : McpServerRecord) : McpServerRecord :=
  mkServer (srv_id s) (srv_org_id s) (srv_catalog_id s) (default (srv_enabled s) (vu_enabled payload))
    (default (srv_config s) (vu_config payload)) (default (srv_description s) (vu_description payload))
    (srv_last_seen_at s) (srv_last_error s) (srv_discovered_tools s) (srv_created_by_user_id s) (srv_connection_status s)
    (srv_created_at s) now.
Definition server_update_tx (id : McpServerId) (org : OrgId) (payload : McpServerUpdate) (now : Z) : MTx McpServerRecord :=
  existing <-$ tget (find_server id org) ;
  current <-$ tlift (ok_or existing (McpNotFound id)) ;
  tmod (λ t, with_servers (update_where (is_server id org) (updated payload now) (mc_servers t)) t) ;;$
  tret (updated payload now current).

(** The rows that refer to it go with it. *)
Definition drop_server (id : McpServerId) (org : OrgId) (t : mcp) : mcp :=
  mkMcp (mc_catalog t) (filter (λ s, ¬ is_server id org s) (mc_servers t))
    (filter (λ c, cd_server_id c ≠ id) (mc_credentials t)) (filter (λ p, pc_server_id (pd_ctx p) ≠ id) (mc_pending t))
    (mc_members t).
Definition server_delete_tx (id : McpServerId) (org : OrgId) : MTx unit :=
  existing <-$ tget (find_server id org) ;
  tlift (ok_or existing (McpNotFound id)) ;;$
  tmod (drop_server id org).

Definition LAST_ERROR_MAX : nat := 1024.
Definition with_health (health : McpHealthUpdate) (now : Z) (s : McpServerRecord) : McpServerRecord :=
  mkServer (srv_id s) (srv_org_id s) (srv_catalog_id s) (srv_enabled s) (srv_config s) (srv_description s)
    (hu_last_seen_at health) (hu_last_error health)
    (match hu_discovered_tools health with Some d => Some d | None => srv_discovered_tools s end)
    (srv_created_by_user_id s) (srv_connection_status s) (srv_created_at s) now.
Definition update_health_tx (id : McpServerId) (org : OrgId) (health : McpHealthUpdate) (now : Z) : MTx unit :=
  existing <-$ tget (find_server id org) ;
  tlift (ok_or existing (McpNotFound id)) ;;$
  tguard (match hu_last_error health with Some e => str_len e <=? LAST_ERROR_MAX | None => true end)
    (McpDb (lit "mcp_servers_last_error_check")) ;;$
  tmod (λ t, with_servers (update_where (is_server id org) (with_health health now) (mc_servers t)) t).

Definition connected (now : Z) (s : McpServerRecord) : McpServerRecord :=
  mkServer (srv_id s) (srv_org_id s) (srv_catalog_id s) (srv_enabled s) (srv_config s) (srv_description s)
    (srv_last_seen_at s) None (srv_discovered_tools s) (srv_created_by_user_id s) CsOk (srv_created_at s) now.
(** Of the callback; a row that is gone is no error. *)
Definition mark_connected_tx (id : McpServerId) (org : OrgId) (now : Z) : MTx unit :=
  tmod (λ t, with_servers (update_where (is_server id org) (connected now) (mc_servers t)) t).

(** [visible_to], under row-level security. *)
Definition visible_to (user : UserId) (org : OrgId) (id : McpServerId) (t : mcp) : bool :=
  existsb (λ s, bool_decide (is_server id org s)) (mc_servers t) && bool_decide ((user, org) ∈ mc_members t).

(** ** Catalogue ([mcp/catalog.rs]) *)

Definition own_entry (org : OrgId) (id : str) (r : CatalogRow) : bool :=
  bool_decide (ct_id (cg_entry r) = id) && bool_decide (ct_org_id (cg_entry r) = Some org).
Definition global_entry (id : str) (r : CatalogRow) : bool :=
  bool_decide (ct_id (cg_entry r) = id) && bool_decide (ct_org_id (cg_entry r) = None).
(** The organisation's own row before the built-in one. *)
Definition resolve_row (org : OrgId) (id : str) (t : mcp) : option CatalogRow :=
  match List.find (own_entry org id) (mc_catalog t) with
  | Some r => Some r
  | None => List.find (global_entry id) (mc_catalog t)
  end.
Definition get_for_org (org : OrgId) (id : str) (t : mcp) : option McpCatalogEntry := cg_entry <$> resolve_row org id t.
Definition oauth_client (org : OrgId) (id : str) (t : mcp) : option UserOAuthClient := resolve_row org id t ≫= cg_oauth_client.

Definition platform_env_middle (catalog_id : str) : str := (λ c, if (c =? 0x2d)%N then 0x5f%N else c) <$> catalog_id.

Record CatalogUpsert := mkUpsert {
  up_org_id : OrgId; up_id : str; up_display_name : str; up_description : str; up_default_transport : McpTransport;
  up_auth_kind : McpAuthKind; up_client_source : ClientSource; up_oauth_client : option UserOAuthClient }.
Definition upsert_row (p : CatalogUpsert) : CatalogRow :=
  mkCatalogRow (mkEntry (up_id p) (Some (up_org_id p)) (up_display_name p) (up_description p) None (up_default_transport p)
                  (up_auth_kind p) None None (up_client_source p) None) (up_oauth_client p).
(** Insert if absent, then read back. *)
Definition ensure_org_scoped_tx (fk_ok : bool) (p : CatalogUpsert) : MTx McpAuthKind :=
  global <-$ tget (λ t, existsb (global_entry (up_id p)) (mc_catalog t)) ;
  tguard (negb global) (McpCatalogIdShadowsGlobal (up_id p)) ;;$
  existing <-$ tget (λ t, List.find (own_entry (up_org_id p) (up_id p)) (mc_catalog t)) ;
  match existing with
  | Some r => tret (ct_auth_kind (cg_entry r))
  | None =>
      tguard fk_ok (McpDb (lit "mcp_catalog_org_id_fkey")) ;;$
      tmod (λ t, with_catalog (mc_catalog t ++ [upsert_row p]) t) ;;$
      tret (up_auth_kind p)
  end.

Definition with_icon (url : str) (r : CatalogRow) : CatalogRow :=
  let e := cg_entry r in
  mkCatalogRow (mkEntry (ct_id e) (ct_org_id e) (ct_display_name e) (ct_description e) (Some url) (ct_default_transport e)
                  (ct_auth_kind e) (ct_default_scope e) (ct_authorize_extra_params e) (ct_client_source e)
                  (ct_platform_client_alias e)) (cg_oauth_client r).
Definition set_icon_url_tx (org : OrgId) (id url : str) : MTx unit :=
  existing <-$ tget (λ t, existsb (own_entry org id) (mc_catalog t)) ;
  tguard existing (McpCatalogIdUnknown id) ;;$
  tmod (λ t, with_catalog (update_where (λ r, own_entry org id r = true) (with_icon url) (mc_catalog t)) t).

(** ** Credentials ([mcp/pg_credentials.rs]) *)

Definition credential_of (id : McpServerId) (org : OrgId) (c : CredentialRow) : bool :=
  bool_decide (cd_server_id c = id) && bool_decide (cd_org_id c = org).
(** The trigger asks for the parent row in the same organisation. *)
Definition credential_upsert_tx (id : McpServerId) (org : OrgId) (payload : CredentialPayload) : MTx unit :=
  parent <-$ tget (find_server id org) ;
  tlift (ok_or parent (McpDb (lit "mcp_server_credentials: parent server"))) ;;$
  existing <-$ tget (λ t, existsb (λ c, bool_decide (cd_server_id c = id)) (mc_credentials t)) ;
  if (existing : bool) then
    own <-$ tget (λ t, existsb (credential_of id org) (mc_credentials t)) ;
    tguard own (McpBackend (lit "credential upsert: org_id mismatch on existing row")) ;;$
    tmod (λ t, with_credentials (update_where (λ c, credential_of id org c = true)
                                   (λ c, mkCredentialRow (cd_server_id c) (cd_org_id c) payload) (mc_credentials t)) t)
  else tmod (λ t, with_credentials (mc_credentials t ++ [mkCredentialRow id org payload]) t).
Definition credential_delete_tx (id : McpServerId) (org : OrgId) : MTx unit :=
  tmod (λ t, with_credentials (filter (λ c, credential_of id org c = false) (mc_credentials t)) t).
Definition credential_read (id : McpServerId) (org : OrgId) (t : mcp) : option CredentialPayload :=
  cd_payload <$> List.find (credential_of id org) (mc_credentials t).

(** ** Authorizations under way ([mcp/oauth/state_adapter.rs]) *)

Definition octets (lo hi : nat) (s : str) : bool := (lo <=? str_len s) && (str_len s <=? hi).
Definition is_pending (state : str) (p : PendingRow) : bool := bool_decide (pd_state p = state).
(** [fk_ok]: the person and the organisation exist; the server's row is looked up here. *)
Definition pending_save_tx (fk_ok : bool) (state verifier : str) (ctx : PatomPendingCtx) : MTx unit :=
  tguard (octets 16 128 state && octets 32 128 verifier
          && match pc_redirect_to ctx with Some r => str_len r <=? 2048 | None => true end)
    (McpDb (lit "mcp_oauth_pending check")) ;;$
  taken <-$ tget (λ t, existsb (is_pending state) (mc_pending t)) ;
  tguard (negb taken) (McpDb (lit "mcp_oauth_pending_pkey")) ;;$
  server <-$ tget (λ t, existsb (λ s, bool_decide (srv_id s = pc_server_id ctx)) (mc_servers t)) ;
  tguard (server && fk_ok) (McpDb (lit "foreign key")) ;;$
  tmod (λ t, with_pending (mc_pending t ++ [mkPendingRow state verifier ctx]) t).
Definition read_pending_ctx (state : str) (now : Z) (t : mcp) : option PatomPendingCtx :=
  pd_ctx <$> List.find (λ p, is_pending state p && (now <? pc_expires_at (pd_ctx p))%Z) (mc_pending t).
Definition pending_load (state : str) (t : mcp) : option str := pd_pkce_verifier <$> List.find (is_pending state) (mc_pending t).
Definition pending_delete_tx (state : str) : MTx unit :=
  tmod (λ t, with_pending (filter (λ p, is_pending state p = false) (mc_pending t)) t).

(** * What the tables of the servers keep

    Every transaction of [McpStore] leaves: one row per server, one server per entry of
    an organisation, no more than the cap of them, credentials and flows only of a row
    that is there, in its organisation, and rows that stay with the organisation and
    entry they were created for. *)

Definition server_key (s : McpServerRecord) : McpServerId * (OrgId * str) := (srv_id s, (srv_org_id s, srv_catalog_id s)).
Definition server_keys (t : mcp) : list (McpServerId * (OrgId * str)) := server_key <$> mc_servers t.

(** [own]: the organisation and entry each server id is used for. *)
Record mcp_ok (own : McpServerId → option (OrgId * str)) (t : mcp) : Prop := mkMcpOk {
  ok_ids : NoDup (server_keys t).*1;
  ok_wired : NoDup (server_keys t).*2;
  ok_cap : ∀ org, length (filter (λ k, k.2.1 = org) (server_keys t)) ≤ MAX_MCP_SERVERS;
  ok_own : ∀ k, k ∈ server_keys t → own k.1 = Some k.2;
  ok_resolves : ∀ k, k ∈ server_keys t → catalog_resolves k.2.1 k.2.2 t = true;
  ok_credential_keys : NoDup (cd_server_id <$> mc_credentials t);
  ok_credential_own : ∀ c, c ∈ mc_credentials t → ∃ cat, (cd_server_id c, (cd_org_id c, cat)) ∈ server_keys t;
  ok_pending_keys : NoDup (pd_state <$> mc_pending t);
  ok_pending_own : ∀ p, p ∈ mc_pending t → pc_server_id (pd_ctx p) ∈ (server_keys t).*1 }.

Lemma mcp_empty_ok own catalog members : mcp_ok own (mkMcp catalog [] [] [] members).
Proof. split; cbn; try apply NoDup_nil_2; try set_solver. intros. cbn. lia. Qed.

Lemma filter_fmap_length {A B} (f : A → B) (P : B → Prop) `{∀ x, Decision (P x)} (l : list A) :
  length (filter P (f <$> l)) = length (filter (λ x, P (f x)) l).
Proof. induction l as [|x l IH]; [done|]. rewrite fmap_cons, !filter_cons. repeat case_decide; cbn; lia. Qed.
Lemma filter_sublist {A} (P : A → Prop) `{∀ x, Decision (P x)} (l1 l2 : list A) :
  l1 `sublist_of` l2 → filter P l1 `sublist_of` filter P l2.
Proof. induction 1; [done|..]; rewrite ?filter_cons; repeat case_decide; by try constructor. Qed.
Lemma servers_of_length org t : length (servers_of org t) = length (filter (λ k, k.2.1 = org) (server_keys t)).
Proof. unfold servers_of, server_keys. by rewrite filter_fmap_length. Qed.

Lemma find_server_key id org t s : find_server id org t = Some s → server_key s ∈ server_keys t ∧ srv_id s = id ∧ srv_org_id s = org.
Proof.
  intros [Hs [H1 H2]%bool_decide_eq_true]%find_Some_iff. split; [|done]. apply list_elem_of_fmap. by exists s.
Qed.

Section keeps.
Context (own : McpServerId → option (OrgId * str)).

Definition keeps {A} (m : MTx A) : Prop := ∀ t a t', mcp_ok own t → m t = Ok (a, t') → mcp_ok own t'.

Ltac open_tx H :=
  tx_inv; match goal with Hk : mcp_ok own ?u |- _ => rename u into t; pose proof Hk as []; rename Hk into Hok end.

(** Rows rewritten in place keep their keys. *)
Lemma same_keys_ok t servers : mcp_ok own t → server_key <$> servers = server_keys t → mcp_ok own (with_servers servers t).
Proof. intros [] He. by split; unfold server_keys, catalog_resolves; cbn; rewrite ?He. Qed.
Lemma rewrite_keys P `{∀ x, Decision (P x)} f t :
  (∀ s, server_key (f s) = server_key s) → server_key <$> update_where P f (mc_servers t) = server_keys t.
Proof. intros Hf. apply update_where_fmap. eauto. Qed.
Hint Resolve same_keys_ok rewrite_keys : core.

Lemma server_update_keeps id org payload now : keeps (server_update_tx id org payload now).
Proof. intros t a t' Ht H. unfold server_update_tx in H. tx_inv. eauto. Qed.
Lemma health_keeps id org health now : keeps (update_health_tx id org health now).
Proof. intros t a t' Ht H. unfold update_health_tx in H. tx_inv. eauto. Qed.
Lemma mark_keeps id org now : keeps (mark_connected_tx id org now).
Proof. intros t a t' Ht H. unfold mark_connected_tx in H. tx_inv. eauto. Qed.

Lemma create_keeps fk payload id now :
  own id = Some (vc_org_id payload, vc_catalog_id payload) → keeps (server_create_tx MAX_MCP_SERVERS fk payload id now).
Proof.
  intros Ho t0 a t' Ht H. unfold server_create_tx in H. open_tx H.
  match goal with Hc : (_ <? _) = true |- _ => apply Nat.ltb_lt in Hc; rewrite servers_of_length in Hc end.
  match goal with Hf : negb (existsb _ _) = true |- _ => apply negb_true_iff in Hf; rewrite existsb_false in Hf; rename Hf into Hfree end.
  assert (∀ k, k ∈ server_keys t → k.1 ≠ id ∧ k.2 ≠ (vc_org_id payload, vc_catalog_id payload)) as Hk.
  { intros k (s & -> & Hs)%list_elem_of_fmap. specialize (Hfree s Hs). cbn.
    apply orb_false_iff in Hfree as [H1%bool_decide_eq_false H2]. split; [done|]. intros [= E1 E2].
    by rewrite E1, E2, !bool_decide_true in H2. }
  assert (server_keys (with_servers (mc_servers t ++ [new_server payload id now]) t)
          = server_keys t ++ [(id, (vc_org_id payload, vc_catalog_id payload))]) as Ek.
  { unfold server_keys. cbn. by rewrite fmap_app. }
  split; rewrite ?Ek, ?fmap_app; try done.
  - apply NoDup_snoc; [done|]. intros (k & E & Hin)%list_elem_of_fmap. by destruct (Hk k Hin).
  - apply NoDup_snoc; [done|]. intros (k & E & Hin)%list_elem_of_fmap. by destruct (Hk k Hin).
  - intros org. rewrite filter_app, length_app, filter_cons, filter_nil. specialize (ok_cap0 org). cbn. case_decide as E; cbn; [|lia].
    subst org. lia.
  - intros k [Hin| ->%list_elem_of_singleton]%elem_of_app; eauto.
  - intros k [Hin| ->%list_elem_of_singleton]%elem_of_app; [by apply ok_resolves0|]. done.
  - intros c (cat & Hc)%ok_credential_own0. exists cat. apply elem_of_app. by left.
  - intros p Hp%ok_pending_own0. apply elem_of_app. by left.
Qed.

Lemma filter_keys (P : McpServerRecord → Prop) `{∀ s, Decision (P s)} t :
  server_key <$> filter P (mc_servers t) `sublist_of` server_keys t.
Proof. apply fmap_sublist, sublist_filter. Qed.

Lemma delete_keeps id org : keeps (server_delete_tx id org).
Proof.
  intros t0 a t' Ht H. unfold server_delete_tx in H. open_tx H.
  match goal with E : ok_or _ _ = Ok ?s |- _ => unfold ok_or in E; destruct (find_server id org t) as [row|] eqn:Ef; [|done] end.
  apply find_server_key in Ef as (Hkey & Hid & Horg).
  pose proof (filter_keys (λ s, ¬ is_server id org s) t) as Hsub.
  assert (∀ k, k ∈ server_keys t → k.1 ≠ id → k ∈ server_key <$> filter (λ s, ¬ is_server id org s) (mc_servers t)) as Hstay.
  { intros k (s & -> & Hs)%list_elem_of_fmap Hne. apply list_elem_of_fmap_2, list_elem_of_filter. split; [|done]. by intros [E _]. }
  split; unfold server_keys, drop_server; cbn.
  - apply (sublist_NoDup _ _ ok_ids0), fmap_sublist, Hsub.
  - apply (sublist_NoDup _ _ ok_wired0), fmap_sublist, Hsub.
  - intros o. specialize (ok_cap0 o). etrans; [|done]. apply sublist_length, filter_sublist, Hsub.
  - intros k Hk. apply ok_own0. by eapply elem_of_sublist.
  - intros k Hk. apply ok_resolves0. by eapply elem_of_sublist.
  - by apply NoDup_fmap_filter.
  - intros c [Hne Hc]%list_elem_of_filter. destruct (ok_credential_own0 c Hc) as (cat & Hin). exists cat. by apply Hstay.
  - by apply NoDup_fmap_filter.
  - intros p [Hne (k & Ek & Hk)%ok_pending_own0%list_elem_of_fmap]%list_elem_of_filter.
    apply list_elem_of_fmap. exists k. split; [done|]. apply Hstay; [done|]. by rewrite <-Ek.
Qed.

Lemma with_credentials_ok t l :
  mcp_ok own t → NoDup (cd_server_id <$> l) → (∀ c, c ∈ l → ∃ cat, (cd_server_id c, (cd_org_id c, cat)) ∈ server_keys t) →
  mcp_ok own (with_credentials l t).
Proof. by intros [] ? ?; split. Qed.
Lemma with_pending_ok t l :
  mcp_ok own t → NoDup (pd_state <$> l) → (∀ p, p ∈ l → pc_server_id (pd_ctx p) ∈ (server_keys t).*1) →
  mcp_ok own (with_pending l t).
Proof. by intros [] ? ?; split. Qed.

Lemma credential_upsert_keeps id org payload : keeps (credential_upsert_tx id org payload).
Proof.
  intros t0 a t' Ht H. unfold credential_upsert_tx in H. open_tx H.
  all: match goal with E : ok_or _ _ = Ok ?s |- _ => unfold ok_or in E; destruct (find_server id org t) as [row|] eqn:Ef; [|done] end.
  all: apply find_server_key in Ef as (Hkey & Hid & Horg); apply with_credentials_ok; [done|..].
  - by rewrite update_where_fmap.
  - intros c (c0 & Hc & ->)%elem_of_update_where. destruct (ok_credential_own0 c0 Hc) as (cat & ?). exists cat. by case_decide.
  - rewrite fmap_app. apply NoDup_snoc; [done|]. intros (c & E & Hc)%list_elem_of_fmap.
    match goal with Hx : existsb _ _ = false |- _ => rewrite existsb_false in Hx; specialize (Hx c Hc) end.
    cbn in E. by rewrite bool_decide_true in *.
  - intros c [Hc| ->%list_elem_of_singleton]%elem_of_app; [by apply ok_credential_own0|].
    exists (srv_catalog_id row). cbn. by rewrite <-Hid, <-Horg.
Qed.
Lemma credential_delete_keeps id org : keeps (credential_delete_tx id org).
Proof.
  intros t0 a t' Ht H. unfold credential_delete_tx in H. open_tx H. apply with_credentials_ok; [done|..].
  - by apply NoDup_fmap_filter.
  - intros c [_ Hc]%list_elem_of_filter. by apply ok_credential_own0.
Qed.

Lemma pending_save_keeps fk state verifier ctx : keeps (pending_save_tx fk state verifier ctx).
Proof.
  intros t0 a t' Ht H. unfold pending_save_tx in H. open_tx H. apply with_pending_ok; [done|..].
  - rewrite fmap_app. apply NoDup_snoc; [done|]. intros (p & E & Hp)%list_elem_of_fmap.
    match goal with Hx : negb (existsb _ _) = true |- _ => apply negb_true_iff in Hx; rewrite existsb_false in Hx; specialize (Hx p Hp) end.
    unfold is_pending in *. cbn in E. by rewrite bool_decide_true in *.
  - intros p [Hp| ->%list_elem_of_singleton]%elem_of_app; [by apply ok_pending_own0|]. cbn.
    match goal with Hx : existsb _ _ && _ = true |- _ => apply andb_true_iff in Hx as [Hx _]; apply existsb_exists in Hx as (s & Hs & E%bool_decide_eq_true) end.
    apply list_elem_of_fmap. exists (server_key s). split; [done|]. by apply list_elem_of_fmap_2, list_elem_of_In.
Qed.
Lemma pending_delete_keeps state : keeps (pending_delete_tx state).
Proof.
  intros t0 a t' Ht H. unfold pending_delete_tx in H. open_tx H. apply with_pending_ok; [done|..].
  - by apply NoDup_fmap_filter.
  - intros p [_ Hp]%list_elem_of_filter. by apply ok_pending_own0.
Qed.

Lemma with_catalog_ok t l :
  mcp_ok own t → (∀ org id, catalog_resolves org id t = true → existsb (entry_for org id) l = true) → mcp_ok own (with_catalog l t).
Proof. intros [] Hl. split; try done. intros k Hk. by apply Hl, ok_resolves0. Qed.
Lemma ensure_keeps fk p : keeps (ensure_org_scoped_tx fk p).
Proof.
  intros t0 a t' Ht H. unfold ensure_org_scoped_tx in H. open_tx H.
  match type of H with match ?x with _ => _ end _ = _ => destruct x end; tx_inv; [done|].
  apply with_catalog_ok; [done|]. intros o i Hr. rewrite existsb_app. by apply orb_true_iff; left.
Qed.
Lemma set_icon_keeps org id url : keeps (set_icon_url_tx org id url).
Proof.
  intros t0 a t' Ht H. unfold set_icon_url_tx in H. open_tx H. apply with_catalog_ok; [done|].
  intros o i Hr. unfold catalog_resolves in Hr. apply existsb_exists in Hr as (r & Hr & He). apply existsb_exists.
  exists (if decide (own_entry org id r = true) then with_icon url r else r). split.
  - apply list_elem_of_In, elem_of_update_where. exists r. split; [by apply list_elem_of_In|done].
  - by case_decide.
Qed.
End keeps.
