(* ===== verification/McpRegistry.v ===== *)
(** * Remote tools an agent may call

    [mcp/client.rs], [mcp/tool.rs], [mcp/registry.rs] and [mcp/scoped.rs], without the
    refresh: a connection to a server, the tools it offers under names of this system,
    the state that a refresh builds, and the part of it an agent sees.  The server's
    answers are the environment's ([McpWire]).
    Then what the state keeps. *)

From Stdlib Require Import ZArith Lia Ascii String.
From stdpp Require Import base gmap list strings sets sorting.
From S2P Require Import Prelude Program Types Compaction Tools McpStore.

(** ** Connections *)

(** What a connection sends along: nothing, fixed headers, or the token that rmcp keeps
    for a server of an organisation. *)
Inductive ClientAuth := Bare | CustomHeaders (headers : gmap str str) | Managed (server : McpServerId) (org : OrgId).
Record McpClient := mkClient { cl_service : N; cl_url : str; cl_auth : ClientAuth }.

Record RemoteTool := mkRemote { rt_name : str; rt_description : option str; rt_input_schema : list (str * Value) }.
Record ToolsPage := mkPage { pg_tools : list RemoteTool; pg_next_cursor : option str }.

Inductive ResourceContents :=
| TextResourceContents (uri text : str)
| BlobResourceContents (uri blob : str) (mime_type : option str).
Inductive RawContent :=
| RcText (text : str)
| RcImage (data mime_type : str)
| RcAudio (data mime_type : str)
| RcResource (r : ResourceContents)
| RcResourceLink (uri : str).
Record CallToolResult := mkCallResult { cr_content : list RawContent; cr_is_error : option bool }.

(** The [http] crate's checks of a header, with the text of a refusal. *)
Class HeaderNames := { header_name_error : str → option str; header_value_error : str → option str }.

(** What comes back at a moment: the outcome of the handshake, the pages of the list and
    the result of a call, as far as they come before the deadline. *)
Class McpWire := {
  wire_initialize : nat → str → ClientAuth → option (str + N);
  wire_pages : nat → McpClient → list (str + ToolsPage);
  wire_call : nat → McpClient → str → option (list (str * Value)) → option (str + CallToolResult) }.

Section client.
Context `{HeaderNames, McpWire}.

Fixpoint insert_headers (headers : list (str * str)) (out : gmap str str) : res McpError (gmap str str) :=
  match headers with
  | [] => Ok out
  | (name, value) :: headers =>
      match header_name_error name, header_value_error value with
      | Some e, _ => Err (McpInvalidConfig (lit "header name `" ++ name ++ lit "`: " ++ e))
      | None, Some e => Err (McpInvalidConfig (lit "header value rejected: " ++ e))
      | None, None => insert_headers headers (<[name := value]> out)
      end
  end.
Definition build_request_headers (credentials : option CredentialPayload) : res McpError (gmap str str) :=
  match credentials with
  | None => Ok ∅
  | Some (PayStaticHeaders headers) => insert_headers headers ∅
  | Some (PayOauth2 _) =>
      Err (McpInvalidConfig (lit "oauth2 credentials reached build_request_headers; use connect_with_adapter"))
  end.

Definition initialized (url : str) (auth : ClientAuth) (answer : option (str + N)) : res McpError McpClient :=
  match answer with
  | None => Err (McpConnect (lit "initialize timed out"))
  | Some (inl e) => Err (McpConnect e)
  | Some (inr service) => Ok (mkClient service url auth)
  end.
Definition connect (n : nat) (transport : McpTransport) (credentials : option CredentialPayload) : res McpError McpClient :=
  match credentials with
  | Some (PayOauth2 _) =>
      Err (McpInvalidConfig (lit "oauth2 credentials require connect_with_adapter for refresh handling"))
  | _ =>
      let 'Http url := transport in
      custom_headers <-? build_request_headers credentials ;
      initialized url (CustomHeaders custom_headers) (wire_initialize n url (CustomHeaders custom_headers))
  end.
(** The adapter is rmcp's client around a manager bound to the server and the organisation. *)
Definition connect_with_adapter (n : nat) (transport : McpTransport) (server : McpServerId) (org : OrgId)
    : res McpError McpClient :=
  let 'Http url := transport in
  initialized url (Managed server org) (wire_initialize n url (Managed server org)).

(** The loop over the pages; when no more come, the deadline passes. *)
Fixpoint page_loop (pages : list (str + ToolsPage)) (tools : list RemoteTool) : res McpError (list RemoteTool) :=
  match pages with
  | [] => Err (McpListTools (lit "timed out"))
  | inl e :: _ => Err (McpListTools e)
  | inr page :: pages =>
      let tools := tools ++ pg_tools page in
      match pg_next_cursor page with
      | None => Ok tools
      | Some _ => page_loop pages tools
      end
  end.
Definition list_tools (n : nat) (client : McpClient) : res McpError (list RemoteTool) := page_loop (wire_pages n client) [].

Definition call_arguments (input : Value) : option (list (str * Value)) :=
  match input with
  | Null => None
  | Object map => Some map
  | other => Some [(lit "input", other)]
  end.
Definition call_tool (n : nat) (client : McpClient) (name : str) (input : Value) : res McpError CallToolResult :=
  match wire_call n client name (call_arguments input) with
  | None => Err McpCallTimeout
  | Some (inl e) => Err (McpCall e)
  | Some (inr r) => Ok r
  end.
End client.

(** ** A tool of a server ([mcp/tool.rs]) *)

Record McpTool := mkMcpTool {
  mt_name : ToolName; mt_remote_name : str; mt_description : str; mt_schema : Value; mt_client : McpClient }.
(** The defaults of the trait for the rest. *)
Definition as_tool (t : McpTool) : Tool :=
  mkTool (mt_name t) (mt_description t) (mt_schema t) modes_ALL false (λ _, Paginate).

Definition MCP_RESULT_RENDER_CAP : nat := Z.to_nat (128 * 1024).
Definition ends_with_newline (out : str) : bool := match last out with Some c => (c =? 0xa)%N | None => false end.
Definition show_bytes (s : str) : str := show_Z (Z.of_nat (str_len s)) ++ lit "B".
Definition render_resource (r : ResourceContents) : str :=
  match r with
  | TextResourceContents uri text => lit "[resource " ++ uri ++ lit "]" ++ nl ++ text
  | BlobResourceContents uri blob mime_type =>
      lit "[resource " ++ uri ++ lit ": " ++ default (lit "application/octet-stream") mime_type ++ lit ", "
      ++ show_bytes blob ++ lit " blocked]"
  end.
Definition render_block (b : RawContent) : str :=
  match b with
  | RcText text => text
  | RcImage data mime_type => lit "[image content blocked: " ++ mime_type ++ lit ", " ++ show_bytes data ++ lit "]"
  | RcAudio data mime_type => lit "[audio content blocked: " ++ mime_type ++ lit ", " ++ show_bytes data ++ lit "]"
  | RcResource r => render_resource r
  | RcResourceLink uri => lit "[resource link: " ++ uri ++ lit "]"
  end.
Fixpoint render_blocks (content : list RawContent) (out : str) : str :=
  match content with
  | [] => out
  | block :: content =>
      let out := if negb (is_empty out) && negb (ends_with_newline out) then out ++ nl else out in
      let out := out ++ render_block block in
      if MCP_RESULT_RENDER_CAP <=? str_len out
      then truncate_to_char_boundary out MCP_RESULT_RENDER_CAP ++ nl ++ lit "[truncated]"
      else render_blocks content out
  end.
Definition is_error_result (r : CallToolResult) : bool := bool_decide (cr_is_error r = Some true).
Definition render_result (r : CallToolResult) : str :=
  let out := render_blocks (cr_content r) (if is_error_result r then lit "[mcp tool returned isError=true]" ++ nl else []) in
  if is_empty out then lit "[mcp tool returned no content]" else out.

(** [ToolError::Upstream] with status 0. *)
Inductive UpstreamError := Upstream (status : Z) (body : str).
Definition mcp_execute `{UuidPrinter, McpWire} (n : nat) (t : McpTool) (input : Value) : res UpstreamError str :=
  match call_tool n (mt_client t) (mt_remote_name t) input with
  | Ok result =>
      let rendered := render_result result in
      if is_error_result result then Err (Upstream 0 rendered) else Ok rendered
  | Err McpCallTimeout => Err (Upstream 0 (lit "mcp tool `" ++ mt_remote_name t ++ lit "` timed out"))
  | Err e => Err (Upstream 0 (lit "mcp call error: " ++ McpError_display e))
  | Panic p => Panic p
  end.

(** ** The state a refresh builds ([mcp/registry.rs]) *)

Record ToolOrigin := mkOrigin { or_server : McpServerId; or_remote_name : str }.
Record ConnectedServer := mkConnected { cs_config : McpTransport; cs_client : McpClient }.
Record McpState := mkState {
  st_by_name : gmap str McpTool;
  st_tool_origins : gmap str ToolOrigin;
  st_specs : list ToolSpec;
  st_servers : gmap McpServerId ConnectedServer;
  st_org_catalog_servers : gmap OrgId (gmap str McpServerId) }.
Definition McpState_default : McpState := mkState ∅ ∅ [] ∅ ∅.

Definition prefixed_name (catalog_id remote : str) : res ParseError ToolName :=
  ToolName_try_from (lit "mcp_" ++ catalog_id ++ lit "_" ++ remote).

(** The builder has the same five parts. *)
Definition note_server (org : OrgId) (catalog : str) (id : McpServerId) (b : McpState) : McpState :=
  mkState (st_by_name b) (st_tool_origins b) (st_specs b) (st_servers b)
    (<[org := <[catalog := id]> (default ∅ (st_org_catalog_servers b !! org))]> (st_org_catalog_servers b)).
Definition note_connected (id : McpServerId) (c : ConnectedServer) (b : McpState) : McpState :=
  mkState (st_by_name b) (st_tool_origins b) (st_specs b) (<[id := c]> (st_servers b)) (st_org_catalog_servers b).
Definition add_tool (t : McpTool) (o : ToolOrigin) (b : McpState) : McpState :=
  let key := ToolName_as_str (mt_name t) in
  mkState (<[key := t]> (st_by_name b)) (<[key := o]> (st_tool_origins b))
    (st_specs b ++ [mkToolSpec (mt_name t) (mt_description t) (mt_schema t)]) (st_servers b) (st_org_catalog_servers b).

Definition remote_tool (client : McpClient) (name : ToolName) (remote : RemoteTool) : McpTool :=
  mkMcpTool name (rt_name remote) (default (lit "(no description provided)") (rt_description remote))
    (Object (rt_input_schema remote)) client.
Fixpoint ingest_loop (server_id : McpServerId) (catalog_id : str) (client : McpClient) (remotes : list RemoteTool)
    (b : McpState) (discovered : list DiscoveredTool) : list DiscoveredTool * McpState :=
  match remotes with
  | [] => (discovered, b)
  | remote :: remotes =>
      let skip := ingest_loop server_id catalog_id client remotes b discovered in
      match prefixed_name catalog_id (rt_name remote) with
      | Ok name =>
          match st_by_name b !! ToolName_as_str name with
          | Some _ => skip
          | None =>
              match McpToolRemoteName_try_from (rt_name remote) with
              | Ok remote_name =>
                  ingest_loop server_id catalog_id client remotes
                    (add_tool (remote_tool client name remote) (mkOrigin server_id remote_name) b)
                    (discovered ++ [mkDiscovered (rt_name remote) (ToolName_as_str name) (rt_description remote)])
              | _ => skip
              end
          end
      | _ => skip
      end
  end.
Definition ingest_tools (server_id : McpServerId) (catalog_id : str) (client : McpClient) (remotes : list RemoteTool)
    (b : McpState) : list DiscoveredTool * McpState :=
  ingest_loop server_id catalog_id client (take MAX_TOOLS_PER_SERVER remotes) b [].

Definition finish (b : McpState) : McpState :=
  mkState (st_by_name b) (st_tool_origins b) (merge_sort spec_le (st_specs b)) (st_servers b) (st_org_catalog_servers b).

(** *** Reading it *)

Definition mcp_get (st : McpState) (name : str) : option McpTool := st_by_name st !! name.
Definition mcp_lookup (st : McpState) (name : str) : option (McpTool * ToolOrigin) :=
  origin ← st_tool_origins st !! name ;
  tool ← st_by_name st !! name ;
  Some (tool, origin).
Definition catalog_to_server_for_org (st : McpState) (org : OrgId) : gmap str McpServerId :=
  default ∅ (st_org_catalog_servers st !! org).
(** The unscoped view of the registry. *)
Definition as_dynamic_source (st : McpState) : DynamicToolSource :=
  mkDynamicToolSource (λ _, st_specs st) (λ name, as_tool <$> mcp_get st name) (λ _ name, as_tool <$> mcp_get st name)
    (λ name, or_server <$> st_tool_origins st !! name).

(** ** What an agent sees ([mcp/scoped.rs]) *)

Abbreviation ByServer := (gmap McpServerId (option (gset str))).
Fixpoint scope_loop (allowed : list (str * ToolScope)) (catalog_to_server : gmap str McpServerId) (by_server : ByServer)
    : ByServer :=
  match allowed with
  | [] => by_server
  | (catalog, scope) :: allowed =>
      scope_loop allowed catalog_to_server
        (match catalog_to_server !! catalog, scope with
         | None, _ | _, ScopeNone => by_server
         | Some server, ScopeAll => <[server := None]> by_server
         | Some server, ScopeSome set => <[server := Some set]> by_server
         end)
  end.
Definition ScopedMcpSource_new (allowed : AllowedMcpTools) (catalog_to_server : gmap str McpServerId) : ByServer :=
  scope_loop (allowed_iter allowed) catalog_to_server ∅.

Definition permits (by_server : ByServer) (server : McpServerId) (remote : str) : bool :=
  match by_server !! server with
  | None => false
  | Some None => true
  | Some (Some set) => bool_decide (remote ∈ set)
  end.
Definition scope_is_empty (by_server : ByServer) : bool := bool_decide (by_server = ∅).

Definition spec_permitted (st : McpState) (by_server : ByServer) (spec : ToolSpec) : bool :=
  match st_tool_origins st !! spec_key spec with
  | Some origin => permits by_server (or_server origin) (or_remote_name origin)
  | None => false
  end.
Definition scoped_specs (st : McpState) (by_server : ByServer) : list ToolSpec :=
  if scope_is_empty by_server then [] else filter (λ spec, spec_permitted st by_server spec = true) (st_specs st).
Definition scoped_lookup (st : McpState) (by_server : ByServer) (name : str) : option (McpTool * ToolOrigin) :=
  if scope_is_empty by_server then None
  else
    found ← mcp_lookup st name ;
    if permits by_server (or_server found.2) (or_remote_name found.2) then Some found else None.
(** [st]: the registry's state at the moment of the call. *)
Definition ScopedMcpSource (st : McpState) (by_server : ByServer) : DynamicToolSource :=
  mkDynamicToolSource (λ _, scoped_specs st by_server) (λ name, as_tool ∘ fst <$> scoped_lookup st by_server name)
    (λ _ name, as_tool ∘ fst <$> scoped_lookup st by_server name)
    (λ name, or_server ∘ snd <$> scoped_lookup st by_server name).

(** * The tools of the registry

    The state a refresh builds is the first-come table of the tools offered, and an
    agent sees of it the tools that its list allows, of servers of its organisation. *)

(** ** Reference: who comes first *)

(** What a server's answer offers: the tools whose names fit, under their full names. *)
Definition offer (server : McpServerId) (catalog : str) (client : McpClient) (remote : RemoteTool)
    : option (str * (McpTool * ToolOrigin)) :=
  name ← res_ok (prefixed_name catalog (rt_name remote)) ;
  remote_name ← res_ok (McpToolRemoteName_try_from (rt_name remote)) ;
  Some (ToolName_as_str name, (remote_tool client name remote, mkOrigin server remote_name)).
Definition offers (server : McpServerId) (catalog : str) (client : McpClient) (remotes : list RemoteTool)
    : list (str * (McpTool * ToolOrigin)) := omap (offer server catalog client) (take MAX_TOOLS_PER_SERVER remotes).

Definition mcp_spec (t : McpTool) : ToolSpec := mkToolSpec (mt_name t) (mt_description t) (mt_schema t).

(** [st] holds the tools of [m]. *)
Record holds (m : gmap str (McpTool * ToolOrigin)) (st : McpState) : Prop := mkHolds {
  hd_by_name : st_by_name st = fst <$> m;
  hd_origins : st_tool_origins st = snd <$> m;
  hd_specs : st_specs st ≡ₚ (λ kv, mcp_spec kv.2.1) <$> map_to_list m }.

Lemma holds_default : holds ∅ McpState_default.
Proof. split; cbn; [symmetry; apply fmap_empty..|]. rewrite map_to_list_empty. constructor. Qed.

Lemma holds_add m st t o :
  holds m st → m !! ToolName_as_str (mt_name t) = None → holds (<[ToolName_as_str (mt_name t) := (t, o)]> m) (add_tool t o st).
Proof.
  intros [H1 H2 H3] Hnone. split; cbn; rewrite ?fmap_insert, ?H1, ?H2; try done.
  rewrite map_to_list_insert by done. rewrite fmap_cons, H3. symmetry. apply Permutation_cons_append.
Qed.

Lemma union_insert_old {A} (m m' : gmap str A) k v : is_Some (m !! k) → m ∪ <[k := v]> m' = m ∪ m'.
Proof.
  intros [x Hx]. apply map_eq. intros k'. rewrite !lookup_union. destruct (decide (k = k')) as [<-|].
  - by rewrite Hx, lookup_insert_eq, !union_Some_l.
  - by rewrite lookup_insert_ne.
Qed.

Lemma holds_skip m st k v l : holds m st → is_Some (st_by_name st !! k) → m ∪ list_to_map ((k, v) :: l) = m ∪ list_to_map l.
Proof.
  intros [H1 _ _] Hk. cbn. apply union_insert_old. rewrite H1, lookup_fmap in Hk. destruct (m !! k); [done|by destruct Hk].
Qed.

Lemma omap_cons {A B} (f : A → option B) x l :
  omap f (x :: l) = match f x with Some y => y :: omap f l | None => omap f l end.
Proof. done. Qed.
Lemma offer_eq server catalog client remote :
  offer server catalog client remote =
  match prefixed_name catalog (rt_name remote), McpToolRemoteName_try_from (rt_name remote) with
  | Ok name, Ok remote_name => Some (ToolName_as_str name, (remote_tool client name remote, mkOrigin server remote_name))
  | _, _ => None
  end.
Proof. unfold offer. by destruct (prefixed_name _ _), (McpToolRemoteName_try_from _). Qed.

Lemma ingest_loop_holds server catalog client remotes m b d :
  holds m b →
  holds (m ∪ list_to_map (omap (offer server catalog client) remotes)) (ingest_loop server catalog client remotes b d).2.
Proof.
  revert m b d. induction remotes as [|remote remotes IH]; intros m b d Hb; cbn [ingest_loop].
  { replace (list_to_map _) with (∅ : gmap str (McpTool * ToolOrigin)) by done. by rewrite map_union_empty. }
  rewrite omap_cons, offer_eq. destruct (prefixed_name catalog (rt_name remote)) as [name|e|p]; [|by apply IH..].
  destruct (McpToolRemoteName_try_from (rt_name remote)) as [rn|e|p].
  2,3: destruct (st_by_name b !! ToolName_as_str name); by apply IH.
  destruct (st_by_name b !! ToolName_as_str name) as [t|] eqn:Et.
  - rewrite (holds_skip m b) by (done || by rewrite Et). by apply IH.
  - assert (m !! ToolName_as_str name = None) as Hnone.
    { destruct Hb as [H1 _ _]. rewrite H1, lookup_fmap in Et. by destruct (m !! _). }
    rewrite list_to_map_cons, <-insert_union_r, insert_union_l by done. apply IH.
    by apply (holds_add m b (remote_tool client name remote)).
Qed.

Lemma ingest_holds server catalog client remotes m b :
  holds m b →
  holds (m ∪ list_to_map (offers server catalog client remotes)) (ingest_tools server catalog client remotes b).2.
Proof. apply ingest_loop_holds. Qed.

Lemma ingest_loop_rest server catalog client remotes b d :
  st_servers (ingest_loop server catalog client remotes b d).2 = st_servers b
  ∧ st_org_catalog_servers (ingest_loop server catalog client remotes b d).2 = st_org_catalog_servers b.
Proof.
  revert b d. induction remotes as [|remote remotes IH]; intros b d; [done|]. cbn [ingest_loop].
  repeat case_match; try apply IH. by edestruct IH as [-> ->].
Qed.

(** ** Whose tools they are *)

Section owned.
Context (own : McpServerId → option (OrgId * str)).

(** A token that a connection to [id] sends is [id]'s, of its organisation. *)
Definition client_for (id : McpServerId) (cl : McpClient) : Prop :=
  match cl_auth cl with Managed s o => s = id ∧ ∃ cat, own id = Some (o, cat) | _ => True end.

(** A tool under its server's organisation and entry. *)
Definition tool_of (org : OrgId) (catalog name : str) (tool : McpTool) (origin : ToolOrigin) : Prop :=
  own (or_server origin) = Some (org, catalog)
  ∧ ToolName_try_from (lit "mcp_" ++ catalog ++ lit "_" ++ or_remote_name origin) = Ok (mt_name tool)
  ∧ name = ToolName_as_str (mt_name tool)
  ∧ mt_remote_name tool = or_remote_name origin
  ∧ client_for (or_server origin) (mt_client tool).

Record state_ok (st : McpState) : Prop := mkStateOk {
  so_tools : ∀ name tool origin, st_by_name st !! name = Some tool → st_tool_origins st !! name = Some origin →
    ∃ org catalog, tool_of org catalog name tool origin;
  so_catalog : ∀ org catalog id, catalog_to_server_for_org st org !! catalog = Some id → own id = Some (org, catalog);
  so_servers : ∀ id c, st_servers st !! id = Some c → client_for id (cs_client c) }.

Lemma default_state_ok : state_ok McpState_default.
Proof.
  split; cbn.
  - intros name tool origin H. by rewrite lookup_empty in H.
  - intros org catalog id. unfold catalog_to_server_for_org. cbn. by rewrite lookup_empty.
  - intros id c H. by rewrite lookup_empty in H.
Qed.

Lemma remote_name_same raw name : McpToolRemoteName_try_from raw = Ok name → name = raw.
Proof. unfold McpToolRemoteName_try_from, bounded. repeat case_match; congruence. Qed.

Lemma ingest_loop_ok server org catalog client remotes b d :
  own server = Some (org, catalog) → client_for server client → state_ok b →
  state_ok (ingest_loop server catalog client remotes b d).2.
Proof.
  intros Ho Hc. revert b d. induction remotes as [|remote remotes IH]; intros b d Hb; [done|]. cbn [ingest_loop].
  destruct (prefixed_name catalog (rt_name remote)) as [name|e|p] eqn:En; [|by apply IH..].
  destruct (st_by_name b !! ToolName_as_str name) as [t|] eqn:Et; [by apply IH|].
  destruct (McpToolRemoteName_try_from (rt_name remote)) as [rn|e|p] eqn:Er; [|by apply IH..].
  apply IH. destruct Hb as [H1 H2 H3]. split; [|done..]. intros k tool origin. cbn.
  destruct (decide (k = ToolName_as_str name)) as [->|Hne].
  - rewrite !lookup_insert_eq. intros [= <-] [= <-]. exists org, catalog. apply remote_name_same in Er. subst rn. split_and!; done.
  - rewrite !lookup_insert_ne by done. apply H1.
Qed.
Lemma ingest_ok server org catalog client remotes b :
  own server = Some (org, catalog) → client_for server client → state_ok b →
  state_ok (ingest_tools server catalog client remotes b).2.
Proof. apply ingest_loop_ok. Qed.

Lemma note_server_ok org catalog id b : own id = Some (org, catalog) → state_ok b → state_ok (note_server org catalog id b).
Proof.
  intros Ho [H1 H2 H3]. split; [done| |done]. intros o c i. unfold catalog_to_server_for_org. cbn.
  destruct (decide (o = org)) as [->|]; [|rewrite lookup_insert_ne by done; apply H2].
  rewrite lookup_insert_eq. cbn. destruct (decide (c = catalog)) as [->|]; [rewrite lookup_insert_eq; congruence|].
  rewrite lookup_insert_ne by done. apply H2.
Qed.
Lemma note_connected_ok id c b : client_for id (cs_client c) → state_ok b → state_ok (note_connected id c b).
Proof.
  intros Hc [H1 H2 H3]. split; [done..|]. intros i c'. cbn. destruct (decide (i = id)) as [->|].
  - rewrite lookup_insert_eq. by intros [= <-].
  - rewrite lookup_insert_ne by done. apply H3.
Qed.
Lemma finish_ok b : state_ok b → state_ok (finish b).
Proof. by intros []. Qed.

(** ** What an agent sees *)

Lemma scope_loop_inv allowed catalogs by_server server sc :
  scope_loop allowed catalogs by_server !! server = Some sc →
  by_server !! server = Some sc
  ∨ ∃ catalog scope, (catalog, scope) ∈ allowed ∧ catalogs !! catalog = Some server
      ∧ match scope with ScopeNone => False | ScopeAll => sc = None | ScopeSome set => sc = Some set end.
Proof.
  revert by_server. induction allowed as [|[catalog scope] allowed IH]; intros by_server; cbn [scope_loop]; [by left|].
  intros [H|(c & s & Hin & ?)]%IH; [|right; exists c, s; set_solver].
  destruct (catalogs !! catalog) as [i|] eqn:Ei; [|by left]. destruct scope as [| |set]; [by left|..].
  all: destruct (decide (i = server)) as [->|]; [|rewrite lookup_insert_ne in H by done; by left].
  all: rewrite lookup_insert_eq in H; injection H as <-; right; do 2 eexists; split_and!; [left|done|done].
Qed.

(** The scope of a catalogue entry allows a tool. *)
Definition scope_allows (scope : ToolScope) (remote : str) : Prop :=
  match scope with ScopeNone => False | ScopeAll => True | ScopeSome set => remote ∈ set end.

Lemma tools_for_catalog_elem (allowed : AllowedMcpTools) catalog scope :
  NoDup allowed.*1 → (catalog, scope) ∈ allowed_iter allowed → tools_for_catalog allowed catalog = scope.
Proof.
  intros Hnd ((c & v) & E & Hin)%list_elem_of_fmap. cbn in E. injection E as -> ->. unfold tools_for_catalog.
  destruct (List.find _ allowed) as [[c' v']|] eqn:Ef.
  - apply find_Some_iff in Ef as [Hin' Hc%bool_decide_eq_true]. cbn in Hc. subst c'.
    assert ((c, v') = (c, v)) as [= ->]; [|by destruct v]. by apply (NoDup_fmap_eq fst allowed).
  - rewrite find_None_iff in Ef. specialize (Ef _ Hin). cbn in Ef. by rewrite bool_decide_true in Ef.
Qed.

Lemma scoped_lookup_inv st by_server name tool origin :
  scoped_lookup st by_server name = Some (tool, origin) →
  st_by_name st !! name = Some tool ∧ st_tool_origins st !! name = Some origin
  ∧ permits by_server (or_server origin) (or_remote_name origin) = true.
Proof.
  unfold scoped_lookup, mcp_lookup. destruct (scope_is_empty by_server); [done|]. intros Hl. simplify_option_eq. by case_match; simplify_eq.
Qed.

Lemma scoped_tool_of st0 st org allowed name tool origin :
  state_ok st0 → state_ok st → NoDup allowed.*1 →
  scoped_lookup st (ScopedMcpSource_new allowed (catalog_to_server_for_org st0 org)) name = Some (tool, origin) →
  ∃ catalog, tool_of org catalog name tool origin
    ∧ scope_allows (tools_for_catalog allowed catalog) (or_remote_name origin).
Proof.
  intros H0 H1 Hnd (Ht & Ho & Hp)%scoped_lookup_inv. unfold permits in Hp.
  destruct (ScopedMcpSource_new _ _ !! or_server origin) as [sc|] eqn:Es; [|done].
  apply scope_loop_inv in Es as [Es|(catalog & scope & Hin & Hc & Hs)]; [by rewrite lookup_empty in Es|].
  apply (so_catalog st0 H0) in Hc. destruct (so_tools st H1 _ _ _ Ht Ho) as (org' & catalog' & Htool).
  pose proof Htool as (Hown & _). rewrite Hc in Hown. injection Hown as <- <-. exists catalog. split; [done|].
  rewrite (tools_for_catalog_elem _ _ _ Hnd Hin). destruct scope as [| |set]; [done|done|]. subst sc.
  by apply bool_decide_eq_true in Hp.
Qed.
End owned.

(** ** How long a result is *)

Lemma truncate_len s n : str_len (truncate_to_char_boundary s n) ≤ n.
Proof.
  revert n. induction s as [|c s IH]; intros n; cbn; [unfold str_len; cbn; lia|].
  destruct (len_utf8 c <=? n) eqn:E; [|unfold str_len; cbn; lia]. apply Nat.leb_le in E.
  specialize (IH (n - len_utf8 c)). unfold str_len in *. cbn. lia.
Qed.

Lemma render_blocks_len content out :
  str_len out < MCP_RESULT_RENDER_CAP → str_len (render_blocks content out) ≤ MCP_RESULT_RENDER_CAP + 12.
Proof.
  revert out. induction content as [|block content IH]; intros out Hout; cbn [render_blocks]; [lia|].
  cbv zeta. match goal with |- context [truncate_to_char_boundary ?o _] => set (out' := o) end. destruct (MCP_RESULT_RENDER_CAP <=? str_len out') eqn:E.
  - rewrite !str_len_app. pose proof (truncate_len out' MCP_RESULT_RENDER_CAP).
    replace (str_len (lit "[truncated]")) with 11 by done. replace (str_len nl) with 1 by done. lia.
  - apply Nat.leb_gt in E. by apply IH.
Qed.

(** Of a tool's result no more reaches the agent than the cap and the mark of the cut. *)
Lemma render_result_len r : str_len (render_result r) ≤ MCP_RESULT_RENDER_CAP + 12.
Proof.
  unfold render_result. cbv zeta.
  assert (str_len (render_blocks (cr_content r)
    (if is_error_result r then lit "[mcp tool returned isError=true]" ++ nl else [])) ≤ MCP_RESULT_RENDER_CAP + 12) as Hl.
  { apply render_blocks_len, Nat.ltb_lt. by destruct (is_error_result r). }
  destruct (is_empty _); [|done]. apply Nat.leb_le. reflexivity.
Qed.
