(* ===== verification/McpOauth.v ===== *)
(** * Authorizing a server

    [mcp/oauth/session.rs] with its adapters [credential_adapter.rs] and
    [state_adapter.rs]: how a flow starts, how a callback ends it, and the manager a
    connection refreshes its token with.  What rmcp does is a [Script]: between its own
    requests it may use the two stores that the manager was given, in any order, and it
    may miss the deadline; nothing else of it is assumed.
    Then which rows a flow touches. *)

From Stdlib Require Import ZArith Lia Ascii String.
From stdpp Require Import base gmap list strings sets relations.
From S2P Require Import Prelude Program Types Tools Responses Office McpStore McpRegistry.

(** ** The world the handlers share *)

Record mcp_world := mkWorld { wd_tables : mcp; wd_state : McpState }.
Definition with_tables (t : mcp) (w : mcp_world) : mcp_world := mkWorld t (wd_state w).

(** What a handler posts to a chat after a flow. *)
Inductive PingTarget := PingSlack (c : SlackPingCtx) | PingLark (c : LarkPingCtx) | PingDiscord (c : DiscordPingCtx).
Record SubmitPromptParams := mkSubmit {
  sm_user_id : UserId; sm_org_id : OrgId; sm_thread_id : ThreadId; sm_agent_id : AgentId; sm_content : Prompt;
  sm_idempotency_key : IdempotencyKey }.

Inductive McpCall :=
| CRows (r : res McpError (list McpServerRecord))
| CServer (id : McpServerId) (org : OrgId) (r : res McpError McpServerRecord)
| CServersOf (org : OrgId) (r : res McpError (list McpServerRecord))
| CCreate (payload : McpServerCreate) (r : res McpError McpServerRecord)
| CUpdate (id : McpServerId) (org : OrgId) (payload : McpServerUpdate) (r : res McpError McpServerRecord)
| CDelete (id : McpServerId) (org : OrgId) (r : res McpError unit)
| CHealth (id : McpServerId) (org : OrgId) (health : McpHealthUpdate) (r : res McpError unit)
| CMarkConnected (id : McpServerId) (org : OrgId) (r : res McpError unit)
| CVisible (user : UserId) (org : OrgId) (id : McpServerId) (r : res McpError bool)
| CEntry (org : OrgId) (catalog : str) (r : res McpError (option McpCatalogEntry))
| CUserClient (org : OrgId) (catalog : str) (r : res McpError (option UserOAuthClient))
| CEnsureEntry (p : CatalogUpsert) (r : res McpError McpAuthKind)
| CReadCredential (id : McpServerId) (org : OrgId) (r : res McpError (option CredentialPayload))
| CWriteCredential (id : McpServerId) (org : OrgId) (payload : CredentialPayload) (r : res McpError unit)
| CDeleteCredential (id : McpServerId) (org : OrgId) (r : res McpError unit)
| CSavePending (csrf : str) (ctx : PatomPendingCtx) (r : res McpError unit)
| CReadPending (csrf : str) (r : res McpError (option PatomPendingCtx))
| CLoadPending (csrf : str) (r : res McpError (option str))
| CDeletePending (csrf : str) (r : res McpError unit)
| CInitialize (url : str) (r : res McpError McpClient)
| CListTools (row : option McpServerRecord) (client : McpClient) (r : res McpError (list RemoteTool))
| CTakeServers (prior : gmap McpServerId ConnectedServer)
| CSwap (st : McpState)
| CRequestRefresh
| CSubmit (p : SubmitPromptParams)
| CPing (target : PingTarget) (display_name : str).

(** The clock in seconds, new ids, and whether the rows of other tables that a write
    refers to exist, at each moment. *)
Record McpEnv := mkMcpEnv {
  me_net : Net mcp_world; me_now : nat → Z; me_fresh : nat → McpServerId; me_fk : nat → bool }.
Abbreviation MP := (Prog mcp_world McpCall).

Section calls.
Context (env : McpEnv).

Definition mcp_call {A} (ev : res McpError A → McpCall) (tx : nat → MTx A) : MP McpError A :=
  pcall (me_net env) ev McpDb (λ n w, let '(r, t) := trun (tx n) (wd_tables w) in (r, with_tables t w)).
Definition mcp_read {A} (ev : res McpError A → McpCall) (f : nat → mcp → res McpError A) : MP McpError A :=
  pcall (me_net env) ev McpDb (λ n w, (f n (wd_tables w), w)).
(** The injected clock. *)
Definition mcp_now {E} : MP E Z := λ s, (Ok (me_now env (length (run_trace s))), s).

Definition read_server (id : McpServerId) (org : OrgId) : MP McpError McpServerRecord :=
  mcp_read (CServer id org) (λ _, server_read id org).
Definition read_entry (org : OrgId) (catalog : str) : MP McpError (option McpCatalogEntry) :=
  mcp_read (CEntry org catalog) (λ _ t, Ok (get_for_org org catalog t)).
Definition read_user_client (org : OrgId) (catalog : str) : MP McpError (option UserOAuthClient) :=
  mcp_read (CUserClient org catalog) (λ _ t, Ok (oauth_client org catalog t)).
Definition read_credential (id : McpServerId) (org : OrgId) : MP McpError (option CredentialPayload) :=
  mcp_read (CReadCredential id org) (λ _ t, Ok (credential_read id org t)).
Definition write_credential (id : McpServerId) (org : OrgId) (payload : CredentialPayload) : MP McpError unit :=
  mcp_call (CWriteCredential id org payload) (λ _, credential_upsert_tx id org payload).
Definition delete_credential (id : McpServerId) (org : OrgId) : MP McpError unit :=
  mcp_call (CDeleteCredential id org) (λ _, credential_delete_tx id org).
Definition read_pending (csrf : str) : MP McpError (option PatomPendingCtx) :=
  mcp_read (CReadPending csrf) (λ n t, Ok (read_pending_ctx csrf (me_now env n) t)).
Definition delete_pending (csrf : str) : MP McpError unit :=
  mcp_call (CDeletePending csrf) (λ _, pending_delete_tx csrf).
End calls.

(** ** rmcp *)

Inductive RmcpError :=
| RegistrationFailed (msg : str)
| TokenExchangeFailed (msg : str)
| TokenRefreshFailed (msg : str)
| MetadataError (msg : str)
| NoAuthorizationSupport
| InternalError (msg : str)
| RmcpOther (msg : str).

Record OAuthClientConfig := mkClientConfig {
  oc_client_id : str; oc_redirect_uri : str; oc_client_secret : option str; oc_scopes : list str }.
(** What this code sets on an [AuthorizationManager]; [mg_states]: the state store, and
    the context it writes with. *)
Record Manager := mkManager {
  mg_base_url : str; mg_credentials : option (McpServerId * OrgId); mg_states : option (option PatomPendingCtx);
  mg_metadata : option str; mg_client : option OAuthClientConfig }.
Definition set_credential_store (id : McpServerId) (org : OrgId) (m : Manager) : Manager :=
  mkManager (mg_base_url m) (Some (id, org)) (mg_states m) (mg_metadata m) (mg_client m).
Definition set_state_store (ctx : option PatomPendingCtx) (m : Manager) : Manager :=
  mkManager (mg_base_url m) (mg_credentials m) (Some ctx) (mg_metadata m) (mg_client m).
Definition set_metadata (metadata : str) (m : Manager) : Manager :=
  mkManager (mg_base_url m) (mg_credentials m) (mg_states m) (Some metadata) (mg_client m).
Definition set_client (c : OAuthClientConfig) (m : Manager) : Manager :=
  mkManager (mg_base_url m) (mg_credentials m) (mg_states m) (mg_metadata m) (Some c).

Inductive Script (A : Type) :=
| Done (r : RmcpError + A)
| Stall
| SaveState (csrf pkce_verifier : str) (k : RmcpError + unit → Script A)
| LoadState (csrf : str) (k : RmcpError + option str → Script A)
| DeleteState (csrf : str) (k : RmcpError + unit → Script A)
| LoadCredentials (k : RmcpError + option StoredCredentials → Script A)
| SaveCredentials (c : StoredCredentials) (k : RmcpError + unit → Script A)
| ClearCredentials (k : RmcpError + unit → Script A).
Arguments Done {A} _.
Arguments Stall {A}.
Arguments SaveState {A} _ _ _.
Arguments LoadState {A} _ _.
Arguments DeleteState {A} _ _.
Arguments LoadCredentials {A} _.
Arguments SaveCredentials {A} _ _.
Arguments ClearCredentials {A} _.

(** An [OAuthState::Session]: what [get_credentials] gives, and the URL to open. *)
Record DcrSession := mkDcrSession { ds_client_id : RmcpError + str; ds_url : str }.

Class Rmcp := {
  rmcp_display : RmcpError → str;
  rmcp_new : nat → str → Script unit;
  rmcp_with_client : Manager → option RmcpError;
  rmcp_discover : nat → Manager → Script str;
  rmcp_configure : Manager → OAuthClientConfig → option RmcpError;
  rmcp_authorization_url : nat → Manager → list str → Script str;
  rmcp_start_authorization : nat → Manager → list str → str → Script (option DcrSession);
  rmcp_handle_callback : nat → Manager → str → str → str → Script unit;
  (** [Url::parse], then [append_pair] of each. *)
  url_append_pairs : str → list (str * str) → option str }.

Inductive OAuthError :=
| OaRmcp (e : RmcpError)
| OaDb (msg : str)
| OaMcp (e : McpError)
| Misconfigured (msg : str)
| OaTimeout (op : string).
Definition OAuthError_display `{Rmcp, UuidPrinter} (e : OAuthError) : str :=
  match e with
  | OaRmcp e => lit "rmcp auth: " ++ rmcp_display e
  | OaDb msg => lit "db: " ++ msg
  | OaMcp e => lit "mcp store: " ++ McpError_display e
  | Misconfigured msg => lit "misconfigured: " ++ msg
  | OaTimeout op => lit "timeout: " ++ lit op
  end.
(** Calls on the table of pending flows fail in the database only. *)
Definition pending_error (e : McpError) : OAuthError := match e with McpDb msg => OaDb msg | e => OaMcp e end.

Record PlatformOAuthClient := mkPlatformClient { pl_client_id : str; pl_client_secret : str }.

Section session.
Context `{Rmcp, UuidPrinter} (env : McpEnv) (platform_clients : gmap str PlatformOAuthClient).

(** ** The adapters *)

(** [PatomCredentialStore] *)
Definition credential_load (id : McpServerId) (org : OrgId) : MP RmcpError (option StoredCredentials) :=
  record <-% pmap_err (λ e, InternalError (lit "credential read: " ++ McpError_display e)) (read_credential env id org) ;
  match record with
  | None => pret None
  | Some (PayOauth2 stored) => pret (Some stored)
  | Some (PayStaticHeaders _) =>
      perr (InternalError (lit "server " ++ uuid_to_string id ++ lit "/" ++ uuid_to_string org
                           ++ lit " has static_headers credentials, not oauth2"))
  end.
Definition credential_save (id : McpServerId) (org : OrgId) (c : StoredCredentials) : MP RmcpError unit :=
  pmap_err (λ e, InternalError (lit "credential upsert: " ++ McpError_display e)) (write_credential env id org (PayOauth2 c)).
Definition credential_clear (id : McpServerId) (org : OrgId) : MP RmcpError unit :=
  pmap_err (λ e, InternalError (lit "credential delete: " ++ McpError_display e)) (delete_credential env id org).

(** [PatomStateStore] *)
Definition pending_err (prefix : string) (e : McpError) : RmcpError :=
  InternalError (lit prefix ++ lit ": " ++ OAuthError_display (pending_error e)).
Definition state_save (write_ctx : option PatomPendingCtx) (csrf verifier : str) : MP RmcpError unit :=
  match write_ctx with
  | None => perr (InternalError (lit "PatomStateStore::save called without write context"))
  | Some ctx =>
      pmap_err (pending_err "pending insert")
        (mcp_call env (CSavePending csrf ctx) (λ n, pending_save_tx (me_fk env n) csrf verifier ctx))
  end.
Definition state_load (csrf : str) : MP RmcpError (option str) :=
  pmap_err (pending_err "pending load") (mcp_read env (CLoadPending csrf) (λ _ t, Ok (pending_load csrf t))).
Definition state_delete (csrf : str) : MP RmcpError unit := pmap_err (pending_err "pending delete") (delete_pending env csrf).

(** Without a store of ours rmcp keeps its own, in memory, which the script hides. *)
Definition no_store {A} : MP RmcpError A := perr (InternalError (lit "no store set")).
Fixpoint run_script {A} (m : Manager) (op : string) (s : Script A) : MP OAuthError A :=
  match s with
  | Done (inl e) => perr (OaRmcp e)
  | Done (inr a) => pret a
  | Stall => perr (OaTimeout op)
  | SaveState csrf verifier k =>
      r <-% pcatch (match mg_states m with Some ctx => state_save ctx csrf verifier | None => no_store end) ;
      run_script m op (k r)
  | LoadState csrf k =>
      r <-% pcatch (match mg_states m with Some _ => state_load csrf | None => no_store end) ; run_script m op (k r)
  | DeleteState csrf k =>
      r <-% pcatch (match mg_states m with Some _ => state_delete csrf | None => no_store end) ; run_script m op (k r)
  | LoadCredentials k =>
      r <-% pcatch (match mg_credentials m with Some (id, org) => credential_load id org | None => no_store end) ;
      run_script m op (k r)
  | SaveCredentials c k =>
      r <-% pcatch (match mg_credentials m with Some (id, org) => credential_save id org c | None => no_store end) ;
      run_script m op (k r)
  | ClearCredentials k =>
      r <-% pcatch (match mg_credentials m with Some (id, org) => credential_clear id org | None => no_store end) ;
      run_script m op (k r)
  end.
(** [bounded]: the script that rmcp follows at this moment. *)
Definition bounded_run {A} (m : Manager) (op : string) (s : nat → Script A) : MP OAuthError A := λ st,
  run_script m op (s (length (run_trace st))) st.
Definition checked (e : option RmcpError) : MP OAuthError unit := match e with Some e => perr (OaRmcp e) | None => pret tt end.

Definition new_manager (op : string) (base_url : str) : MP OAuthError Manager :=
  let m := mkManager base_url None None None None in
  bounded_run m op (λ n, rmcp_new n base_url) ;;%
  checked (rmcp_with_client m) ;;%
  pret m.
Definition discovered (op : string) (m : Manager) : MP OAuthError Manager :=
  metadata <-% bounded_run m op (λ n, rmcp_discover n m) ;
  pret (set_metadata metadata m).
Definition configure_client (m : Manager) (c : OAuthClientConfig) : MP OAuthError Manager :=
  checked (rmcp_configure m c) ;;% pret (set_client c m).

(** ** The client of a catalogue entry *)

Definition platform_client (e : McpCatalogEntry) : option PlatformOAuthClient :=
  platform_clients !! platform_env_middle (default (ct_id e) (ct_platform_client_alias e)).
Definition platform_missing (what : string) (e : McpCatalogEntry) : OAuthError :=
  Misconfigured (lit "platform OAuth client for " ++ lit what ++ lit "`" ++ ct_id e ++ lit "` not configured (alias `"
                 ++ default (ct_id e) (ct_platform_client_alias e) ++ lit "`)").
Definition user_supplied_client_config (c : UserOAuthClient) (redirect_uri : str) (scopes : option (list str))
    : OAuthClientConfig :=
  mkClientConfig (uc_client_id c) redirect_uri (uc_client_secret c) (default [] scopes).
Definition platform_client_config (c : PlatformOAuthClient) (redirect_uri : str) (scopes : list str) : OAuthClientConfig :=
  mkClientConfig (pl_client_id c) redirect_uri (Some (pl_client_secret c)) scopes.

Definition configure_oauth_client (m : Manager) (e : McpCatalogEntry) (redirect_uri : str)
    (user_oauth_client : option UserOAuthClient) (id : McpServerId) (org : OrgId) : MP OAuthError Manager :=
  match ct_client_source e with
  | SrcNone => perr (Misconfigured (lit "catalog `" ++ ct_id e ++ lit "` has client_source=none; callback not applicable"))
  | SrcUserSupplied =>
      client <-% plift (ok_or user_oauth_client
        (Misconfigured (lit "callback for user_supplied catalog `" ++ ct_id e ++ lit "` has no OAuth client"))) ;
      configure_client m (user_supplied_client_config client redirect_uri None)
  | SrcPlatform =>
      env_creds <-% plift (ok_or (platform_client e) (platform_missing "" e)) ;
      configure_client m (platform_client_config env_creds redirect_uri [])
  | SrcDcr =>
      stored <-% pmap_err OaRmcp (credential_load id org) ;
      stored <-% plift (ok_or stored (Misconfigured (lit "callback for DCR server " ++ uuid_to_string id ++ lit "/"
        ++ uuid_to_string org ++ lit " has no persisted client_id; start_authorization must run first"))) ;
      configure_client m (mkClientConfig (sc_client_id stored) redirect_uri None [])
  end.

(** ** To connect *)

Definition build_manager_for_request (e : McpCatalogEntry) (base_url : str) (user_oauth_client : option UserOAuthClient)
    (id : McpServerId) (org : OrgId) : MP OAuthError Manager :=
  m <-% new_manager "AuthorizationManager::new[connect]" base_url ;
  stored <-% pmap_err OaRmcp (credential_load id org) ;
  let m := set_credential_store id org m in
  if bool_decide (is_Some (stored ≫= sc_token_response)) then
    m <-% discovered "discover_metadata[connect]" m ;
    configure_oauth_client m e base_url user_oauth_client id org
  else pret m.

(** ** To start *)

Record StartCtx := mkStartCtx {
  sx_catalog : McpCatalogEntry; sx_server_url : str; sx_scopes : list str; sx_authorize_extras : list (str * str);
  sx_redirect_uri : str; sx_user_oauth_client : option UserOAuthClient; sx_write_ctx : PatomPendingCtx;
  sx_server_id : McpServerId; sx_org_id : OrgId }.

Definition start_manager (op : string) (ctx : StartCtx) : MP OAuthError Manager :=
  m <-% new_manager op (sx_server_url ctx) ;
  pret (set_state_store (Some (sx_write_ctx ctx)) (set_credential_store (sx_server_id ctx) (sx_org_id ctx) m)).
Definition start_with_client (new_op discover_op url_op : string) (ctx : StartCtx) (c : OAuthClientConfig) : MP OAuthError str :=
  m <-% start_manager new_op ctx ;
  m <-% discovered discover_op m ;
  m <-% configure_client m c ;
  bounded_run m url_op (λ n, rmcp_authorization_url n m (sx_scopes ctx)).

Definition start_platform (ctx : StartCtx) : MP OAuthError str :=
  env_creds <-% plift (ok_or (platform_client (sx_catalog ctx)) (platform_missing "catalog " (sx_catalog ctx))) ;
  start_with_client "AuthorizationManager::new[start_platform]" "discover_metadata[start_platform]"
    "get_authorization_url[platform]" ctx (platform_client_config env_creds (sx_redirect_uri ctx) (sx_scopes ctx)).
Definition start_user_supplied (client : UserOAuthClient) (ctx : StartCtx) : MP OAuthError str :=
  start_with_client "AuthorizationManager::new[start_user_supplied]" "discover_metadata[start_user_supplied]"
    "get_authorization_url[user_supplied]" ctx
    (user_supplied_client_config client (sx_redirect_uri ctx) (Some (sx_scopes ctx))).
Definition start_dcr (ctx : StartCtx) : MP OAuthError str :=
  m <-% start_manager "AuthorizationManager::new[start_dcr]" ctx ;
  state <-% bounded_run m "state.start_authorization[dcr]"
              (λ n, rmcp_start_authorization n m (sx_scopes ctx) (sx_redirect_uri ctx)) ;
  session <-% plift (ok_or state
    (Misconfigured (lit "DCR start_authorization returned unexpected OAuthState variant"))) ;
  client_id <-% plift (match ds_client_id session with inl e => Err (OaRmcp e) | inr id => Ok id end) ;
  pmap_err OaRmcp (credential_save (sx_server_id ctx) (sx_org_id ctx) (mkStored client_id None)) ;;%
  pret (ds_url session).

Definition append_extra_params (url : str) (extras : list (str * str)) : str :=
  if is_empty extras then url else default url (url_append_pairs url extras).
Definition start_authorization (ctx : StartCtx) : MP OAuthError str :=
  let id := ct_id (sx_catalog ctx) in
  url <-% match ct_client_source (sx_catalog ctx) with
          | SrcNone => perr (Misconfigured (lit "catalog `" ++ id ++ lit "` has client_source=none; OAuth flow not applicable"))
          | SrcUserSupplied =>
              client <-% plift (ok_or (sx_user_oauth_client ctx) (Misconfigured
                (lit "catalog `" ++ id ++ lit "` is user_supplied but no OAuth client was provided"))) ;
              start_user_supplied client ctx
          | SrcPlatform => start_platform ctx
          | SrcDcr => start_dcr ctx
          end ;
  pret (append_extra_params url (sx_authorize_extras ctx)).

(** ** To end *)

Definition handle_callback (e : McpCatalogEntry) (server_url code state redirect_uri : str)
    (user_oauth_client : option UserOAuthClient) (id : McpServerId) (org : OrgId) : MP OAuthError unit :=
  m <-% new_manager "AuthorizationManager::new[callback]" server_url ;
  let m := set_state_store None (set_credential_store id org m) in
  m <-% discovered "discover_metadata[callback]" m ;
  m <-% configure_oauth_client m e redirect_uri user_oauth_client id org ;
  bounded_run m "session.handle_callback" (λ n, rmcp_handle_callback n m redirect_uri code state).
End session.

(** * What an authorization touches

    Whatever rmcp does with the stores it is given, a flow reads and writes the
    credentials of its own server and saves its own context, and the tables stay well
    formed. *)

(** ** Transactions do not panic *)

Definition tx_fine {A} (m : MTx A) : Prop := ∀ t, no_panic (m t).
Lemma trun_fine {A} (m : MTx A) t : tx_fine m → no_panic (trun m t).1.
Proof. intros Hm. specialize (Hm t). unfold trun. by destruct (m t) as [[]| |]. Qed.
Lemma fine_bind {A B} (m : MTx A) (k : A → MTx B) : tx_fine m → (∀ a, tx_fine (k a)) → tx_fine (tbind m k).
Proof. intros Hm Hk t. unfold tbind. specialize (Hm t). destruct (m t) as [[a t']| |]; cbn; [apply Hk|done..]. Qed.
Lemma fine_get {A} (f : mcp → A) : tx_fine (tget f).
Proof. by intros t. Qed.
Lemma fine_mod f : tx_fine (tmod f).
Proof. by intros t. Qed.
Lemma fine_tx_ret {A} (a : A) : tx_fine (tret a).
Proof. by intros t. Qed.
Lemma fine_guard b e : tx_fine (tguard b e).
Proof. intros t. by destruct b. Qed.
Lemma fine_ok_or {A} (o : option A) e : tx_fine (tlift (ok_or o e)).
Proof. intros t. by destruct o. Qed.
Create HintDb mcp_tx.
#[export] Hint Resolve fine_get fine_mod fine_tx_ret fine_guard fine_ok_or : mcp_tx.
Ltac tx_fine_tac :=
  repeat first
    [ solve [auto 1 with mcp_tx nocore] | apply fine_bind; [|intros ?]
    | match goal with |- tx_fine (if ?b then _ else _) => destruct b end
    | match goal with |- tx_fine (match ?x with _ => _ end) => destruct x end ].

Lemma create_fine cap fk p id now : tx_fine (server_create_tx cap fk p id now).
Proof. unfold server_create_tx. tx_fine_tac. Qed.
Lemma update_fine id org p now : tx_fine (server_update_tx id org p now).
Proof. unfold server_update_tx. tx_fine_tac. Qed.
Lemma delete_fine id org : tx_fine (server_delete_tx id org).
Proof. unfold server_delete_tx. tx_fine_tac. Qed.
Lemma health_fine id org h now : tx_fine (update_health_tx id org h now).
Proof. unfold update_health_tx. tx_fine_tac. Qed.
Lemma mark_fine id org now : tx_fine (mark_connected_tx id org now).
Proof. unfold mark_connected_tx. tx_fine_tac. Qed.
Lemma upsert_fine id org p : tx_fine (credential_upsert_tx id org p).
Proof. unfold credential_upsert_tx. tx_fine_tac. Qed.
Lemma clear_fine id org : tx_fine (credential_delete_tx id org).
Proof. unfold credential_delete_tx. tx_fine_tac. Qed.
Lemma save_fine fk st v ctx : tx_fine (pending_save_tx fk st v ctx).
Proof. unfold pending_save_tx. tx_fine_tac. Qed.
Lemma forget_fine st : tx_fine (pending_delete_tx st).
Proof. unfold pending_delete_tx. tx_fine_tac. Qed.
Lemma ensure_fine fk p : tx_fine (ensure_org_scoped_tx fk p).
Proof. unfold ensure_org_scoped_tx. tx_fine_tac. Qed.
#[export] Hint Resolve create_fine update_fine delete_fine health_fine mark_fine upsert_fine clear_fine save_fine forget_fine
  ensure_fine : mcp_tx.

Section calls.
Context (env : McpEnv) (C : McpCall → Prop).

Lemma only_mcp_call {A} ev (tx : nat → MTx A) :
  (∀ r, C (ev r)) → (∀ n, tx_fine (tx n)) → calls_only C (mcp_call env ev tx).
Proof.
  intros Hev Htx. apply calls_call; [done|]. intros n w. pose proof (trun_fine (tx n) (wd_tables w) (Htx n)).
  by destruct (trun _ _).
Qed.
Lemma only_mcp_read {A} ev (f : nat → mcp → res McpError A) :
  (∀ r, C (ev r)) → (∀ n t, no_panic (f n t)) → calls_only C (mcp_read env ev f).
Proof. intros Hev Hf. apply calls_call; [done|]. intros n w. apply Hf. Qed.
Lemma only_now {E} : calls_only (E := E) C (mcp_now env).
Proof. intros s. exists []. by rewrite app_nil_r. Qed.
End calls.
#[export] Hint Resolve only_now : patom_calls.

(** ** The calls of a flow *)

(** Those of the server [id] of [org]; a saved context is [ctx], if any may be saved. *)
Definition flow_call (id : McpServerId) (org : OrgId) (ctx : option PatomPendingCtx) (v : McpCall) : Prop :=
  match v with
  | CReadCredential i o _ | CWriteCredential i o _ _ | CDeleteCredential i o _ => i = id ∧ o = org
  | CSavePending _ c _ => ctx = Some c
  | CLoadPending _ _ | CDeletePending _ _ => True
  | _ => False
  end.
Definition credentials_bound (id : McpServerId) (org : OrgId) (m : Manager) : Prop :=
  match mg_credentials m with Some b => b = (id, org) | None => True end.
Definition states_bound (ctx : option PatomPendingCtx) (m : Manager) : Prop :=
  match mg_states m with Some c => c = ctx | None => True end.

Section flow.
Context `{Rmcp, UuidPrinter} (env : McpEnv) (platform_clients : gmap str PlatformOAuthClient).
Context (id : McpServerId) (org : OrgId).
Section with_ctx.
Context (ctx : option PatomPendingCtx).
Abbreviation flows := (calls_only (flow_call id org ctx)).

Lemma flows_load : flows (credential_load env id org).
Proof. unfold credential_load, read_credential. calls_tac. by apply only_mcp_read. Qed.
Lemma flows_save c : flows (credential_save env id org c).
Proof. unfold credential_save, write_credential. calls_tac. apply only_mcp_call; [done|auto with mcp_tx]. Qed.
Lemma flows_clear : flows (credential_clear env id org).
Proof. unfold credential_clear, delete_credential. calls_tac. apply only_mcp_call; [done|auto with mcp_tx]. Qed.
Lemma flows_state_save csrf v : flows (state_save env ctx csrf v).
Proof. unfold state_save. calls_tac. apply only_mcp_call; [done|auto with mcp_tx]. Qed.
Lemma flows_state_load csrf : flows (state_load env csrf).
Proof. unfold state_load. calls_tac. by apply only_mcp_read. Qed.
Lemma flows_state_delete csrf : flows (state_delete env csrf).
Proof. unfold state_delete, delete_pending. calls_tac. apply only_mcp_call; [done|auto with mcp_tx]. Qed.
Hint Resolve flows_load flows_save flows_clear flows_state_save flows_state_load flows_state_delete : patom_calls.

Lemma flows_script {A} m op (s : Script A) :
  credentials_bound id org m → states_bound ctx m → flows (run_script env m op s).
Proof.
  unfold credentials_bound, states_bound. intros Hc Hs.
  induction s as [[]| |csrf v k IH|csrf k IH|csrf k IH|k IH|c k IH|k IH]; cbn [run_script];
    [auto with patom_calls..| | | | | |];
    (apply calls_bind; [apply calls_catch|intros r; apply IH]).
  1-3: destruct (mg_states m); [subst|]; unfold no_store; auto with patom_calls.
  all: destruct (mg_credentials m) as [b|]; [subst b|]; unfold no_store; auto with patom_calls.
Qed.
Lemma flows_bounded {A} m op (s : nat → Script A) :
  credentials_bound id org m → states_bound ctx m → flows (bounded_run env m op s).
Proof. intros Hc Hs st. by apply flows_script. Qed.

(** What the setters leave of the two stores. *)
Definition stores_of (m : Manager) : option (McpServerId * OrgId) * option (option PatomPendingCtx) := (mg_credentials m, mg_states m).
Definition bound (m : Manager) : Prop := credentials_bound id org m ∧ states_bound ctx m.
Abbreviation flows_to := (calls_to (flow_call id org ctx)).

Lemma new_manager_to op url : flows_to (new_manager env op url) (λ m, mg_credentials m = None ∧ mg_states m = None).
Proof.
  unfold new_manager. eapply calls_to_bind; [apply calls_only_to; by apply flows_bounded|]. intros _ _.
  eapply calls_to_bind; [apply calls_only_to; unfold checked; calls_tac|]. intros _ _. by apply calls_to_ret.
Qed.
Lemma discovered_to op m : bound m → flows_to (discovered env op m) (λ m', stores_of m' = stores_of m).
Proof.
  intros [? ?]. unfold discovered. eapply calls_to_bind; [apply calls_only_to; by apply flows_bounded|]. intros md _. by apply calls_to_ret.
Qed.
Lemma configure_to m c : flows_to (configure_client m c) (λ m', stores_of m' = stores_of m).
Proof. unfold configure_client. eapply calls_to_bind; [apply calls_only_to; unfold checked; calls_tac|]. intros _ _. by apply calls_to_ret. Qed.
Lemma bound_same m m' : stores_of m' = stores_of m → bound m → bound m'.
Proof. unfold stores_of, bound, credentials_bound, states_bound. by intros [= -> ->]. Qed.
Hint Resolve flows_load flows_save : patom_calls.

Lemma configure_oauth_to m e uri uc :
  flows_to (configure_oauth_client env platform_clients m e uri uc id org) (λ m', stores_of m' = stores_of m).
Proof.
  unfold configure_oauth_client. destruct (ct_client_source e).
  - eapply calls_to_bind; [apply calls_only_to; calls_tac|]. intros c _. apply configure_to.
  - eapply calls_to_bind; [apply calls_only_to; calls_tac|]. intros c _. eapply calls_to_bind; [apply calls_only_to; calls_tac|]. intros d _. apply configure_to.
  - eapply calls_to_bind; [apply calls_only_to; calls_tac|]. intros c _. apply configure_to.
  - intros s. exists []. by rewrite app_nil_r.
Qed.

Lemma flows_build e url uc : flows (build_manager_for_request env platform_clients e url uc id org).
Proof.
  unfold build_manager_for_request. eapply calls_bind_to; [apply new_manager_to|]. intros m [E1 E2].
  apply calls_bind; [calls_tac|]. intros stored. case_bool_decide; [|calls_tac].
  eapply calls_bind_to; [apply discovered_to; split; unfold credentials_bound, states_bound; cbn; by rewrite ?E2|].
  intros m' _. eapply traced_mono; [apply configure_oauth_to|]. intros [] vs [? ?]; by split.
Qed.
End with_ctx.

Lemma flows_callback e url code state uri uc :
  calls_only (flow_call id org None) (handle_callback env platform_clients e url code state uri uc id org).
Proof.
  unfold handle_callback. eapply calls_bind_to; [apply new_manager_to|]. intros m [E1 E2].
  assert (bound None (set_state_store None (set_credential_store id org m))) as Hb by done.
  eapply calls_bind_to; [by apply discovered_to|]. intros m1 H1. cbn in H1.
  eapply calls_bind_to; [by apply configure_oauth_to|]. intros m2 H2. cbn in H2.
  destruct (bound_same None _ m2 (eq_trans H2 H1) Hb). by apply flows_bounded.
Qed.
End flow.

Section start.
Context `{Rmcp, UuidPrinter} (env : McpEnv) (platform_clients : gmap str PlatformOAuthClient) (ctx : StartCtx).
Abbreviation starts := (calls_only (flow_call (sx_server_id ctx) (sx_org_id ctx) (Some (sx_write_ctx ctx)))).
Abbreviation starts_to := (calls_to (flow_call (sx_server_id ctx) (sx_org_id ctx) (Some (sx_write_ctx ctx)))).
Abbreviation ours := (bound (sx_server_id ctx) (sx_org_id ctx) (Some (sx_write_ctx ctx))).

Lemma start_manager_to op : starts_to (start_manager env op ctx) ours.
Proof. unfold start_manager. eapply calls_to_bind; [apply new_manager_to|]. intros m _. by apply calls_to_ret. Qed.
Lemma flows_with_client o1 o2 o3 c : starts (start_with_client env o1 o2 o3 ctx c).
Proof.
  unfold start_with_client. eapply calls_bind_to; [apply start_manager_to|]. intros m Hm.
  eapply calls_bind_to; [by apply discovered_to|]. intros m1 H1. cbn in H1.
  eapply calls_bind_to; [by apply configure_to|]. intros m2 H2. cbn in H2.
  destruct (bound_same _ _ _ _ m2 (eq_trans H2 H1) Hm). by apply flows_bounded.
Qed.
Lemma flows_dcr : starts (start_dcr env ctx).
Proof.
  unfold start_dcr. eapply calls_bind_to; [apply start_manager_to|]. intros m [? ?].
  apply calls_bind; [by apply flows_bounded|]. intros session. apply calls_bind; [calls_tac|]. intros s.
  apply calls_bind; [apply calls_lift; by destruct (ds_client_id s)|]. intros c.
  apply calls_bind; [apply calls_map_err, flows_save|]. intros _. calls_tac.
Qed.
Lemma flows_start : starts (start_authorization env platform_clients ctx).
Proof.
  unfold start_authorization. apply calls_bind; [|intros url; calls_tac]. destruct (ct_client_source _).
  - unfold start_platform. apply calls_bind; [calls_tac|]. intros c. apply flows_with_client.
  - apply flows_dcr.
  - apply calls_bind; [calls_tac|]. intros c. apply flows_with_client.
  - calls_tac.
Qed.
End start.
