(* ===== verification/McpRefresh.v ===== *)
(** * The refresh of the registry

    The rest of [mcp/registry.rs], and [mcp/refresher.rs]: one task reads the enabled
    servers, connects to each or keeps its connection, asks for its tools and puts the
    new state in place of the old; the handlers ask for it through a channel of one
    place.
    Then that the tables and the registry stay well formed, and what a refresh installs. *)

From Stdlib Require Import ZArith Lia Ascii String.
From stdpp Require Import base gmap list strings sets sorting relations.
From S2P Require Import Prelude Program Types Compaction Tools Responses Office McpStore McpRegistry McpOauth.

Section refresh.
Context `{Rmcp, UuidPrinter, HeaderNames, McpWire} (env : McpEnv) (platform_clients : gmap str PlatformOAuthClient).

Definition report (id : McpServerId) (org : OrgId) (last_error : str) : MP McpError unit :=
  ptry (E := McpError) (mcp_call env (CHealth id org (mkHealth None (Some last_error) None))
    (λ n, update_health_tx id org (mkHealth None (Some last_error) None) (me_now env n))).

(** The inner option: [Err(())], after the report. *)
Definition load_credentials (id : McpServerId) (org : OrgId) : MP McpError (option (option CredentialPayload)) :=
  record <-% pcatch (E := McpError) (read_credential env id org) ;
  match record with
  | inr credentials => pret (Some credentials)
  | inl e => report id org (lit "credentials: " ++ McpError_display e) ;;% pret None
  end.

Definition connect_oauth (id : McpServerId) (org : OrgId) (catalog_id : str) (transport : McpTransport)
    : MP McpError McpClient :=
  let 'Http url := transport in
  entry <-% read_entry env org catalog_id ;
  entry <-% plift (ok_or entry (McpInvalidConfig (lit "oauth server " ++ uuid_to_string id ++ lit " has no catalog row for `"
                                                  ++ catalog_id ++ lit "`"))) ;
  user_oauth_client <-% (if bool_decide (ct_client_source entry = SrcUserSupplied)
                         then read_user_client env org catalog_id else pret None) ;
  pmap_err (λ e, McpConnect (lit "oauth manager init: " ++ OAuthError_display e))
    (build_manager_for_request env platform_clients entry url user_oauth_client id org) ;;%
  pcall (me_net env) (CInitialize url) McpConnect
    (λ n w, (connect_with_adapter n transport id org, w)).

Definition connect_bare (transport : McpTransport) (credentials : option CredentialPayload) : MP McpError McpClient :=
  let 'Http url := transport in
  pcall (me_net env) (CInitialize url) McpConnect (λ n w, (connect n transport credentials, w)).

Abbreviation Prior := (gmap McpServerId ConnectedServer).
Definition connect_or_reuse (id : McpServerId) (org : OrgId) (catalog_id : str) (config : McpTransport)
    (credentials : option CredentialPayload) (prior : Prior) : MP McpError (option McpClient * Prior) :=
  let fresh :=
    connected <-% pcatch (E := McpError)
      match credentials with
      | Some (PayOauth2 _) => connect_oauth id org catalog_id config
      | _ => connect_bare config credentials
      end ;
    match connected with
    | inr client => pret (Some client, delete id prior)
    | inl e => report id org (lit "connect: " ++ McpError_display e) ;;% pret (None, delete id prior)
    end in
  match prior !! id, credentials with
  | Some prev, None => if bool_decide (cs_config prev = config) then pret (Some (cs_client prev), delete id prior) else fresh
  | _, _ => fresh
  end.

Definition refresh_one (row : McpServerRecord) (prior : Prior) (builder : McpState) : MP McpError (Prior * McpState) :=
  let id := srv_id row in
  let org := srv_org_id row in
  let builder := note_server org (srv_catalog_id row) id builder in
  credentials <-% load_credentials id org ;
  match credentials with
  | None => pret (prior, builder)
  | Some credentials =>
      found <-% connect_or_reuse id org (srv_catalog_id row) (srv_config row) credentials prior ;
      match found with
      | (None, prior) => pret (prior, builder)
      | (Some client, prior) =>
          listed <-% pcatch (E := McpError) (pcall (me_net env) (CListTools (Some row) client) McpListTools (λ n w, (list_tools n client, w))) ;
          match listed with
          | inl e => report id org (lit "list_tools: " ++ McpError_display e) ;;% pret (prior, builder)
          | inr remote_tools =>
              now <-% mcp_now env ;
              let '(discovered, builder) := ingest_tools id (srv_catalog_id row) client remote_tools builder in
              let health := mkHealth (Some now) None (Some discovered) in
              ptry (E := McpError) (mcp_call env (CHealth id org health)
                (λ n, update_health_tx id org health (me_now env n))) ;;%
              pret (prior, note_connected id (mkConnected (srv_config row) client) builder)
          end
      end
  end.

Fixpoint refresh_loop (rows : list McpServerRecord) (prior : Prior) (builder : McpState) : MP McpError McpState :=
  match rows with
  | [] => pret builder
  | row :: rows => p <-% refresh_one row prior builder ; refresh_loop rows p.1 p.2
  end.

Definition without_servers (st : McpState) : McpState :=
  mkState (st_by_name st) (st_tool_origins st) (st_specs st) ∅ (st_org_catalog_servers st).
Definition take_servers : MP McpError Prior :=
  plocal (me_net env) CTakeServers (λ w, (st_servers (wd_state w), mkWorld (wd_tables w) (without_servers (wd_state w)))).
Definition swap_state (st : McpState) : MP McpError unit :=
  plocal (me_net env) (λ _, CSwap st) (λ w, (tt, mkWorld (wd_tables w) st)).

Definition refresh : MP McpError unit :=
  rows <-% mcp_read env CRows (λ _ t, Ok (list_enabled t)) ;
  prior <-% take_servers ;
  builder <-% refresh_loop (take MAX_MCP_SERVERS rows) prior McpState_default ;
  swap_state (finish builder).
End refresh.

(** ** The coordinator ([mcp/refresher.rs])

    [rf_queued]: a signal waits in the channel; [rf_stale]: somebody has asked since the
    last refresh began. *)

Record Refresher := mkRefresher { rf_queued : bool; rf_running : bool; rf_stale : bool }.
Definition Refresher_spawn : Refresher := mkRefresher false false false.

Inductive refresher_step : Refresher → Refresher → Prop :=
| RfRequest r :                     (* [try_send]: sent, or the channel is full *)
    refresher_step r (mkRefresher true (rf_running r) true)
| RfReceive r :                     (* [recv], and the drain, before the refresh *)
    rf_queued r = true → rf_running r = false →
    refresher_step r (mkRefresher false true false)
| RfReturn r :                      (* [refresh] returned, with or without an error *)
    rf_running r = true →
    refresher_step r (mkRefresher (rf_queued r) false (rf_stale r)).

(** * The tables and the registry stay well formed

    Every program over the servers, faults and others in between, keeps [mcp_ok] of the
    tables and [state_ok] of the registry, and does not panic. *)

Definition world_ok (own : McpServerId → option (OrgId * str)) (w : mcp_world) : Prop :=
  mcp_ok own (wd_tables w) ∧ state_ok own (wd_state w).

Section keeps.
Context (own : McpServerId → option (OrgId * str)) (env : McpEnv) `{!Respects (world_ok own) (me_net env)}.
Abbreviation fine m := (safe (world_ok own) m (λ _, True)).

Lemma fine_call {A} ev (tx : nat → MTx A) :
  (∀ n, keeps own (tx n)) → (∀ n, tx_fine (tx n)) → fine (mcp_call env ev tx).
Proof.
  intros Hk Hf. apply safe_call; [done|]. intros n w [Ht Hs].
  pose proof (trun_fine (tx n) (wd_tables w) (Hf n)) as Hp.
  pose proof (trun_keeps (mcp_ok own) (tx n) (wd_tables w) Ht (λ a t', Hk n _ a t' Ht)) as Hok.
  destruct (trun _ _) as [r t]. cbn in *. split; [done|]. by destruct r.
Qed.
(** A read that gives what is true of well-formed tables. *)
Lemma safe_mcp_read {A} ev (f : nat → mcp → res McpError A) (P : A → Prop) :
  (∀ n t, mcp_ok own t → match f n t with Ok a => P a | Err _ => True | Panic _ => False end) →
  safe (world_ok own) (mcp_read env ev f) P.
Proof. intros Hf. apply safe_call; [done|]. intros n w Hw. split; [done|]. apply Hf, Hw. Qed.
Lemma fine_read {A} ev (f : nat → mcp → res McpError A) : (∀ n t, no_panic (f n t)) → fine (mcp_read env ev f).
Proof. intros Hf. apply safe_mcp_read. intros n t _. specialize (Hf n t). by destruct (f n t). Qed.
Lemma fine_now {E} : fine (mcp_now (E := E) env).
Proof. by intros s. Qed.
Lemma fine_ok_or_lift {V E A} (o : option A) (e : E) : safe (V := V) (world_ok own) (plift (ok_or o e)) (λ _, True).
Proof. apply safe_lift. by destruct o. Qed.
Lemma fine_ret {V E A} (a : A) : safe (V := V) (E := E) (world_ok own) (pret a) (λ _, True).
Proof. by apply safe_ret. Qed.
Lemma fine_catch {V E F A} (m : Prog mcp_world V E A) : fine m → safe (E := F) (world_ok own) (pcatch m) (λ _, True).
Proof. intros Hm. eapply safe_mono; [by apply safe_catch|done]. Qed.
Lemma fine_try {V E F A} (m : Prog mcp_world V E A) : fine m → safe (E := F) (world_ok own) (ptry m) (λ _, True).
Proof. apply safe_try. Qed.
Lemma fine_any {V E A} (m : Prog mcp_world V E A) P : safe (world_ok own) m P → fine m.
Proof. intros Hm. by eapply safe_mono. Qed.
End keeps.

Create HintDb mcp_fine.
#[export] Hint Resolve fine_ret safe_err safe_map_err fine_try fine_catch fine_now fine_ok_or_lift : mcp_fine.
#[export] Hint Resolve server_update_keeps health_keeps mark_keeps create_keeps delete_keeps credential_upsert_keeps
  credential_delete_keeps pending_save_keeps pending_delete_keeps ensure_keeps : mcp_fine.

(** Splits a program into its calls. *)
Ltac fine_tac :=
  repeat first
    [ solve [auto 3 with mcp_fine nocore]
    | apply fine_call; [done|auto 2 with mcp_fine nocore|auto 2 with mcp_tx nocore]
    | apply safe_seq; [|intros ?]
    | apply safe_map_err | apply fine_try | apply fine_catch
    | match goal with |- safe _ (if ?b then _ else _) _ => destruct b end
    | match goal with |- safe _ (match ?x with _ => _ end) _ => destruct x end ].

Section oauth.
Context (own : McpServerId → option (OrgId * str)).
Context `{Rmcp, UuidPrinter} (env : McpEnv) (platform_clients : gmap str PlatformOAuthClient).
Context `{!Respects (world_ok own) (me_net env)}.
Abbreviation fine m := (safe (world_ok own) m (λ _, True)).

Lemma fine_read_server id org : fine (read_server env id org).
Proof. apply fine_read; [done|]. intros n t. unfold server_read. by destruct (find_server id org t). Qed.
Lemma fine_read_entry org c : fine (read_entry env org c).
Proof. by apply fine_read. Qed.
Lemma fine_read_user_client org c : fine (read_user_client env org c).
Proof. by apply fine_read. Qed.
Lemma fine_read_credential id org : fine (read_credential env id org).
Proof. by apply fine_read. Qed.
Lemma fine_write_credential id org p : fine (write_credential env id org p).
Proof. unfold write_credential. fine_tac. Qed.
Lemma fine_delete_credential id org : fine (delete_credential env id org).
Proof. unfold delete_credential. fine_tac. Qed.
Lemma fine_read_pending csrf : fine (read_pending env csrf).
Proof. by apply fine_read. Qed.
Lemma fine_delete_pending csrf : fine (delete_pending env csrf).
Proof. unfold delete_pending. fine_tac. Qed.
Hint Resolve fine_read_server fine_read_entry fine_read_user_client fine_read_credential fine_write_credential
  fine_delete_credential fine_read_pending fine_delete_pending : mcp_fine.

Lemma fine_load id org : fine (credential_load env id org).
Proof. unfold credential_load. fine_tac. Qed.
Lemma fine_save id org c : fine (credential_save env id org c).
Proof. unfold credential_save. fine_tac. Qed.
Lemma fine_clear id org : fine (credential_clear env id org).
Proof. unfold credential_clear. fine_tac. Qed.
Lemma fine_state_save ctx csrf v : fine (state_save env ctx csrf v).
Proof. unfold state_save. fine_tac. Qed.
Lemma fine_state_load csrf : fine (state_load env csrf).
Proof. unfold state_load. apply safe_map_err. by apply fine_read. Qed.
Lemma fine_state_delete csrf : fine (state_delete env csrf).
Proof. unfold state_delete. fine_tac. Qed.
Hint Resolve fine_load fine_save fine_clear fine_state_save fine_state_load fine_state_delete : mcp_fine.

Lemma fine_script {A} m op (s : Script A) : fine (run_script env m op s).
Proof.
  induction s as [[]| |csrf v k IH|csrf k IH|csrf k IH|k IH|c k IH|k IH]; cbn [run_script];
    [auto with mcp_fine..| | | | | |];
    (apply safe_seq; [apply fine_catch|intros r; apply IH]); unfold no_store; fine_tac.
Qed.
Lemma fine_bounded {A} m op (s : nat → Script A) : fine (bounded_run env m op s).
Proof. intros st. apply fine_script. Qed.
Hint Resolve fine_bounded : mcp_fine.
Lemma fine_checked e : fine (checked e).
Proof. unfold checked. fine_tac. Qed.
Hint Resolve fine_checked : mcp_fine.
Lemma fine_new_manager op url : fine (new_manager env op url).
Proof. unfold new_manager. fine_tac. Qed.
Lemma fine_discovered op m : fine (discovered env op m).
Proof. unfold discovered. fine_tac. Qed.
Lemma fine_configure m c : fine (configure_client m c).
Proof. unfold configure_client. fine_tac. Qed.
Hint Resolve fine_new_manager fine_discovered fine_configure : mcp_fine.
Lemma fine_configure_oauth m e uri uc id org : fine (configure_oauth_client env platform_clients m e uri uc id org).
Proof. unfold configure_oauth_client. fine_tac. Qed.
Hint Resolve fine_configure_oauth : mcp_fine.
Lemma fine_build e url uc id org : fine (build_manager_for_request env platform_clients e url uc id org).
Proof. unfold build_manager_for_request. fine_tac. Qed.
Lemma fine_with_client o1 o2 o3 ctx c : fine (start_with_client env o1 o2 o3 ctx c).
Proof. unfold start_with_client, start_manager. fine_tac. Qed.
Hint Resolve fine_with_client : mcp_fine.
Lemma fine_dcr ctx : fine (start_dcr env ctx).
Proof.
  unfold start_dcr, start_manager. fine_tac. apply safe_lift. by destruct (ds_client_id _).
Qed.
Hint Resolve fine_dcr : mcp_fine.
Lemma fine_start ctx : fine (start_authorization env platform_clients ctx).
Proof. unfold start_authorization, start_platform, start_user_supplied. fine_tac. Qed.
Lemma fine_callback e url code state uri uc id org :
  fine (handle_callback env platform_clients e url code state uri uc id org).
Proof. unfold handle_callback. fine_tac. Qed.
End oauth.
#[export] Hint Resolve fine_read_server fine_read_entry fine_read_user_client fine_read_credential fine_write_credential
  fine_delete_credential fine_read_pending fine_delete_pending fine_build fine_start fine_callback : mcp_fine.

(** * What a refresh leaves

    A refresh always ends with a new state in place, whatever single servers do; that
    state is the first-come table of the tools the servers listed, in the order of the
    rows, and every tool of it belongs to the organisation its server was wired for. *)

(** ** Keeping the registry well formed *)

Section keeps.
Context (own : McpServerId → option (OrgId * str)).
Context `{Rmcp, UuidPrinter, HeaderNames, McpWire} (env : McpEnv) (platform_clients : gmap str PlatformOAuthClient).
Context `{!Respects (world_ok own) (me_net env)}.
Abbreviation I := (world_ok own).
Abbreviation fine m := (safe I m (λ _, True)).

Lemma safe_local {E A} (ev : A → McpCall) f (P : A → Prop) :
  (∀ w, I w → I (f w).2 ∧ P (f w).1) → safe (E := E) I (plocal (me_net env) ev f) P.
Proof.
  intros Hf s Hs. unfold plocal. pose proof (respects (length (run_trace s)) _ Hs) as Ho.
  specialize (Hf _ Ho). by destruct (f _).
Qed.
Lemma safe_catch_of {E F A} (m : MP E A) P :
  safe I m P → safe (E := F) I (pcatch m) (λ x, match x with inr a => P a | inl _ => True end).
Proof. apply safe_catch. Qed.

Definition row_own (r : McpServerRecord) : Prop := own (srv_id r) = Some (srv_org_id r, srv_catalog_id r).
Definition prior_ok (prior : gmap McpServerId ConnectedServer) : Prop :=
  ∀ id c, prior !! id = Some c → client_for own id (cs_client c).

Lemma fine_report id org e : fine (report env id org e).
Proof. unfold report. fine_tac. Qed.
Hint Resolve fine_report : mcp_fine.
Lemma fine_load_credentials id org : fine (load_credentials env id org).
Proof. unfold load_credentials. fine_tac. Qed.

Lemma initialized_auth url auth answer client : initialized url auth answer = Ok client → cl_auth client = auth.
Proof. unfold initialized. destruct answer as [[]|]; [done| |done]. by intros [= <-]. Qed.
Lemma insert_headers_fine headers out : no_panic (insert_headers headers out).
Proof. revert out. induction headers as [|[n v] headers IH]; intros out; [done|]. cbn [insert_headers]. destruct (header_name_error n), (header_value_error v); done. Qed.
Lemma connect_result n transport credentials :
  match connect n transport credentials with
  | Ok client => ∃ headers, cl_auth client = CustomHeaders headers | Err _ => True | Panic _ => False end.
Proof.
  assert (match (let 'Http url := transport in
                 h <-? build_request_headers credentials ;
                 initialized url (CustomHeaders h) (wire_initialize n url (CustomHeaders h))) with
          | Ok client => ∃ headers, cl_auth client = CustomHeaders headers | Err _ => True | Panic _ => False end) as Hc.
  { destruct transport as [url]. destruct (build_request_headers credentials) as [h|e|p] eqn:E; cbn; [|done|].
    - unfold initialized. destruct (wire_initialize _ _ _) as [[]|]; [done| |done]. by exists h.
    - assert (no_panic (build_request_headers credentials)) as Hp; [|by rewrite E in Hp].
      unfold build_request_headers. destruct credentials as [[]|]; [apply insert_headers_fine|done..]. }
  unfold connect. by destruct credentials as [[]|].
Qed.
Lemma safe_connect_bare id transport credentials : safe I (connect_bare env transport credentials) (client_for own id).
Proof.
  unfold connect_bare. destruct transport as [url]. apply safe_call; [done|]. intros n w Hw. split; [done|]. cbn.
  pose proof (connect_result n (Http url) credentials) as Hc. destruct (connect _ _ _) as [client| |]; [|done..].
  destruct Hc as [h Hh]. unfold client_for. by rewrite Hh.
Qed.
Lemma safe_connect_oauth id org catalog transport :
  own id = Some (org, catalog) → safe I (connect_oauth env platform_clients id org catalog transport) (client_for own id).
Proof.
  intros Ho. unfold connect_oauth. destruct transport as [url]. do 4 (apply safe_seq; [fine_tac|intros ?]).
  apply safe_call; [done|]. intros n w Hw. split; [done|]. cbn.
  destruct (initialized _ _ _) as [client| |p] eqn:E; [|done|unfold initialized in E; by repeat case_match].
  apply initialized_auth in E. unfold client_for. rewrite E. eauto.
Qed.

Lemma page_loop_no_panic pages tools : no_panic (page_loop pages tools).
Proof.
  revert tools. induction pages as [|[e|page] pages IH]; intros tools; [done..|]. cbn [page_loop].
  destruct (pg_next_cursor page); [apply IH|done].
Qed.
Lemma list_tools_no_panic n client : no_panic (list_tools n client).
Proof. apply page_loop_no_panic. Qed.

Lemma prior_delete id prior : prior_ok prior → prior_ok (delete id prior).
Proof. intros Hp i c [_ Hc]%lookup_delete_Some. eauto. Qed.
Lemma safe_connect_or_reuse id org catalog config credentials prior :
  own id = Some (org, catalog) → prior_ok prior →
  safe I (connect_or_reuse env platform_clients id org catalog config credentials prior)
    (λ p, prior_ok p.2 ∧ match p.1 with Some cl => client_for own id cl | None => True end).
Proof.
  intros Ho Hp. unfold connect_or_reuse. cbv zeta. pose proof (prior_delete id prior Hp) as Hd.
  match goal with |- safe _ (match _ with Some _ => match _ with Some _ => ?f | None => _ end | None => _ end) ?P =>
    assert (safe I f P) as Hfresh end.
  { eapply safe_bind.
    - apply safe_catch_of. instantiate (1 := client_for own id).
      destruct credentials as [[]|]; [apply safe_connect_bare|by apply safe_connect_oauth|apply safe_connect_bare].
    - intros [e|client] Hc; [|by apply safe_ret]. apply safe_seq; [apply fine_report|]. intros _. by apply safe_ret. }
  destruct (prior !! id) as [prev|] eqn:Eprev; [|done]. destruct credentials as [c|]; [done|].
  case_bool_decide; [|done]. apply safe_ret. split; [done|]. by apply Hp.
Qed.

Lemma safe_refresh_one row prior builder :
  row_own row → prior_ok prior → state_ok own builder →
  safe I (refresh_one env platform_clients row prior builder) (λ p, prior_ok p.1 ∧ state_ok own p.2).
Proof.
  intros Hrow Hp Hb. unfold refresh_one. cbv zeta.
  pose proof (note_server_ok own _ _ _ _ Hrow Hb) as Hb'.
  apply safe_seq; [apply fine_load_credentials|]. intros [credentials|]; [|by apply safe_ret].
  eapply safe_bind; [by apply (safe_connect_or_reuse _ _ (srv_catalog_id row))|]. intros [[client|] prior'] [Hp' Hc]; [|by apply safe_ret].
  cbn in Hp', Hc. apply safe_seq.
  { apply fine_catch, safe_call; [done|]. intros n w Hw. split; [done|]. cbn.
    pose proof (list_tools_no_panic n client) as Hl. by destruct (list_tools n client). }
  intros [e|tools]; [apply safe_seq; [apply fine_report|]; intros _; by apply safe_ret|].
  apply safe_seq; [apply fine_now|]. intros now.
  pose proof (ingest_ok own (srv_id row) _ _ client tools _ Hrow Hc Hb') as Hi.
  destruct (ingest_tools _ _ _ _ _) as [discovered b']. cbn in Hi.
  apply safe_seq; [fine_tac|]. intros _. apply safe_ret. split; [done|]. by apply note_connected_ok.
Qed.

Lemma safe_refresh_loop rows prior builder :
  Forall row_own rows → prior_ok prior → state_ok own builder →
  safe I (refresh_loop env platform_clients rows prior builder) (state_ok own).
Proof.
  intros Hrows. revert prior builder. induction Hrows as [|row rows Hrow Hrows IH]; intros prior builder Hp Hb; cbn [refresh_loop].
  { by apply safe_ret. }
  eapply safe_bind; [by apply safe_refresh_one|]. intros [prior' b'] [? ?]. by apply IH.
Qed.

Lemma list_enabled_own t : mcp_ok own t → Forall row_own (list_enabled t).
Proof.
  intros Ht. apply Forall_forall. intros r Hr. unfold list_enabled in Hr. rewrite merge_sort_Permutation in Hr.
  apply list_elem_of_filter in Hr as [_ Hr]. apply (ok_own own t Ht (server_key r)). by apply list_elem_of_fmap_2.
Qed.

(** A refresh, faults and others in between, leaves well-formed tables and a state
    whose tools are their servers' own. *)
Lemma safe_refresh : fine (refresh env platform_clients).
Proof.
  unfold refresh. eapply safe_bind.
  { apply (safe_mcp_read own env). intros n t Ht. cbn. apply list_enabled_own, Ht. }
  intros rows Hrows. eapply safe_bind.
  { apply (safe_local _ _ prior_ok). intros w [Ht [H4 H5 H6]]. split; [|done]. split; [done|]. split; [done..|].
    intros id c Hc. cbn in Hc. by rewrite lookup_empty in Hc. }
  intros prior Hp. eapply safe_bind.
  { apply safe_refresh_loop; [by apply Forall_take|done|apply default_state_ok]. }
  intros builder Hb. apply safe_local. intros w [Ht _]. split; [|done]. split; [done|]. by apply finish_ok.
Qed.
End keeps.

(** ** What it builds *)

(** The tools listed in a trace, in order, as their servers' rows offer them. *)
Definition listing (v : McpCall) : list (str * (McpTool * ToolOrigin)) :=
  match v with
  | CListTools (Some row) client (Ok remotes) => offers (srv_id row) (srv_catalog_id row) client remotes
  | _ => []
  end.
Definition listed (vs : list McpCall) : list (str * (McpTool * ToolOrigin)) := vs ≫= listing.

Definition quiet (v : McpCall) : Prop := match v with CListTools (Some _) _ _ => False | _ => True end.
Lemma quiet_listed vs : Forall quiet vs → listed vs = [].
Proof. induction 1 as [|v vs Hv _ IH]; [done|]. unfold listed. rewrite bind_cons. fold (listed vs). rewrite IH. destruct v; try done. by destruct row. Qed.
Lemma listed_app vs vs' : listed (vs ++ vs') = listed vs ++ listed vs'.
Proof. apply bind_app. Qed.

(** Two listings one after the other. *)
Lemma list_to_map_union (l l' : list (str * (McpTool * ToolOrigin))) :
  (list_to_map l : gmap str _) ∪ list_to_map l' = list_to_map (l ++ l').
Proof. by rewrite list_to_map_app. Qed.

(** The servers of the rows, the later row of one entry over the earlier. *)
Definition noted (rows : list McpServerRecord) (b : McpState) : McpState :=
  foldl (λ b row, note_server (srv_org_id row) (srv_catalog_id row) (srv_id row) b) b rows.
Definition wired_as (rows : list McpServerRecord) (org : OrgId) (catalog : str) : option McpServerId :=
  srv_id <$> last (filter (λ r, srv_org_id r = org ∧ srv_catalog_id r = catalog) rows).

Lemma noted_congr rows b b' :
  st_org_catalog_servers b = st_org_catalog_servers b' →
  st_org_catalog_servers (noted rows b) = st_org_catalog_servers (noted rows b').
Proof.
  unfold noted. revert b b'. induction rows as [|r rows IH]; intros b b' Hb; [done|]. cbn [foldl]. apply IH.
  unfold note_server. cbn. by rewrite Hb.
Qed.
Lemma noted_lookup rows org catalog b :
  catalog_to_server_for_org (noted rows b) org !! catalog =
  match wired_as rows org catalog with Some id => Some id | None => catalog_to_server_for_org b org !! catalog end.
Proof.
  revert b. induction rows as [|row rows IH] using rev_ind; intros b; [done|].
  unfold noted, wired_as. rewrite foldl_app. cbn [foldl]. fold (noted rows b). rewrite filter_app, filter_cons, filter_nil.
  unfold note_server, catalog_to_server_for_org. cbn [st_org_catalog_servers].
  specialize (IH b). unfold wired_as, catalog_to_server_for_org in IH.
  case_decide as Hd.
  - destruct Hd as [<- <-]. rewrite last_snoc. cbn. by rewrite lookup_insert_eq; cbn; rewrite lookup_insert_eq.
  - rewrite app_nil_r. destruct (decide (org = srv_org_id row)) as [->|Ho].
    + rewrite lookup_insert_eq. cbn. rewrite lookup_insert_ne by tauto. apply IH.
    + rewrite lookup_insert_ne by done. apply IH.
Qed.

Section builds.
Context `{Rmcp, UuidPrinter, HeaderNames, McpWire} (env : McpEnv) (platform_clients : gmap str PlatformOAuthClient).

Lemma quiet_flow id org ctx v : flow_call id org ctx v → quiet v.
Proof. by destruct v. Qed.
Lemma only_mono {W V E A} (C D : V → Prop) (m : Prog W V E A) : (∀ v, C v → D v) → calls_only C m → calls_only D m.
Proof. intros HCD Hm. eapply traced_mono; [exact Hm|]. intros r vs [Hvs ?]. split; [|done]. by eapply Forall_impl. Qed.

(** Lists nothing and never fails. *)
Definition silently {E A} (m : MP E A) : Prop := traced m (λ r vs, Forall quiet vs ∧ ∃ a, r = Ok a).
Lemma silently_ret {E A} (a : A) : silently (E := E) (pret a).
Proof. apply traced_ret. eauto. Qed.
Lemma silently_bind {E A B} (m : MP E A) (k : A → MP E B) : silently m → (∀ a, silently (k a)) → silently (pbind m k).
Proof.
  intros Hm Hk. apply (traced_bind _ _ _ _ Hm).
  - intros a vs [Hvs _]. eapply traced_mono; [apply Hk|]. cbn. intros r vs' [? ?]. by split; [apply Forall_app|].
  - by intros e vs [_ [a ?]].
  - by intros p vs [_ [a ?]].
Qed.
Lemma silently_catch {E F A} (m : MP E A) : calls_only quiet m → silently (E := F) (pcatch m).
Proof. intros Hm. apply traced_catch. eapply traced_mono; [exact Hm|]. intros [] vs [? ?]; eauto. done. Qed.
Lemma silently_try {E F A} (m : MP E A) : calls_only quiet m → silently (E := F) (ptry m).
Proof. intros Hm. apply traced_try. eapply traced_mono; [exact Hm|]. intros [] vs [? ?]; eauto. done. Qed.

Lemma silently_report id org e : silently (report env id org e).
Proof. unfold report. apply silently_try, only_mcp_call; [done|auto with mcp_tx]. Qed.
Lemma silently_load_credentials id org : silently (load_credentials env id org).
Proof.
  unfold load_credentials, read_credential. apply silently_bind; [by apply silently_catch, only_mcp_read|].
  intros [e|c]; [|apply silently_ret]. apply silently_bind; [apply silently_report|intros _; apply silently_ret].
Qed.
Lemma quiet_connect_bare t c : calls_only quiet (connect_bare env t c).
Proof.
  unfold connect_bare. destruct t as [url]. apply calls_call; [done|]. intros n w. cbn.
  pose proof (connect_result n (Http url) c) as Hc. by destruct (connect _ _ _).
Qed.
Lemma quiet_connect_oauth id org catalog t : calls_only quiet (connect_oauth env platform_clients id org catalog t).
Proof.
  unfold connect_oauth. destruct t as [url]. apply calls_bind; [by apply only_mcp_read|]. intros entry.
  apply calls_bind; [calls_tac|]. intros e.
  apply calls_bind; [case_bool_decide; [by apply only_mcp_read|calls_tac]|]. intros uc.
  apply calls_bind; [|intros _; apply calls_call; [done|]].
  - apply calls_map_err. eapply only_mono; [|apply (flows_build _ _ _ _ None)]. apply quiet_flow.
  - intros n w. cbn. unfold initialized. by repeat case_match.
Qed.
Lemma silently_connect_or_reuse id org catalog config credentials prior :
  silently (connect_or_reuse env platform_clients id org catalog config credentials prior).
Proof.
  unfold connect_or_reuse. cbv zeta.
  match goal with |- silently (match _ with Some _ => match _ with Some _ => ?f | None => _ end | None => _ end) =>
    assert (silently f) as Hfresh end.
  { apply silently_bind; [apply silently_catch; destruct credentials as [[]|];
      [apply quiet_connect_bare|apply quiet_connect_oauth|apply quiet_connect_bare]|].
    intros [e|client]; [|apply silently_ret]. apply silently_bind; [apply silently_report|intros _; apply silently_ret]. }
  destruct (prior !! id), credentials; try done. by case_bool_decide; [apply silently_ret|].
Qed.

(** What a part of the refresh does to the builder [b]: it ends, and [b'] is [b] with
    the tools listed meanwhile; [f] says what became of the rest. *)
Definition builds {A} (m : MP McpError A) (state : A → McpState) (b : McpState) (f : McpState → McpState) : Prop :=
  traced m (λ r vs, ∃ a, r = Ok a
    ∧ (∀ tools, holds tools b → holds (tools ∪ list_to_map (listed vs)) (state a))
    ∧ st_org_catalog_servers (state a) = st_org_catalog_servers (f b)).

Lemma after_quietly {A B} (m : MP McpError A) (k : A → MP McpError B) state b f :
  silently m → (∀ a, builds (k a) state b f) → builds (pbind m k) state b f.
Proof.
  intros Hm Hk. apply (traced_bind _ _ _ _ Hm).
  - intros a vs [Hvs%quiet_listed _]. eapply traced_mono; [apply Hk|]. cbn. intros r vs' (a' & -> & H3 & H4).
    exists a'. split_and!; [done| |done]. intros tools Ht. rewrite listed_app, Hvs. by apply H3.
  - by intros e vs [_ [a ?]].
  - by intros p vs [_ [a ?]].
Qed.
Lemma builds_ret {A} (a : A) state b f :
  (∀ tools, holds tools b → holds tools (state a)) → st_org_catalog_servers (state a) = st_org_catalog_servers (f b) →
  builds (pret a) state b f.
Proof.
  intros Hh Ho. apply traced_ret. exists a. split_and!; [done| |done]. intros tools Ht%Hh.
  replace (list_to_map (listed [])) with (∅ : gmap str (McpTool * ToolOrigin)) by done. by rewrite map_union_empty.
Qed.

Lemma builds_refresh_one row prior b :
  builds (refresh_one env platform_clients row prior b) snd b (note_server (srv_org_id row) (srv_catalog_id row) (srv_id row)).
Proof.
  unfold refresh_one. cbv zeta. set (b1 := note_server _ _ _ b).
  assert (∀ tools, holds tools b → holds tools b1) as Hb1 by (intros tools []; by split).
  apply after_quietly; [apply silently_load_credentials|]. intros [credentials|]; [|by apply builds_ret].
  apply after_quietly; [apply silently_connect_or_reuse|]. intros [[client|] prior']; [|by apply builds_ret].
  unfold builds. eapply traced_bind; [apply traced_catch, (traced_call_of no_panic)| | |].
  - intros n w. apply list_tools_no_panic.
  - done.
  - intros r Hr. instantiate (1 := λ r vs, ∃ l, r = Ok match l with inl e => inl e | inr t => inr t end ∧
      vs = [CListTools (Some row) client match l with inl e => Err e | inr t => Ok t end]).
    destruct r as [t|e|p]; [by exists (inr t)|by exists (inl e)|done].
  - intros found vs ([e|remotes] & [= ->] & ->).
    + eapply traced_mono.
      { apply (after_quietly _ _ snd b (note_server (srv_org_id row) (srv_catalog_id row) (srv_id row)));
          [apply silently_report|intros _; by apply builds_ret]. }
      cbn. intros r vs (a & -> & H3 & H4). by exists a.
    + set (b2 := (ingest_tools (srv_id row) (srv_catalog_id row) client remotes b1).2).
      eapply traced_mono.
      { apply (after_quietly _ _ snd b2 id); [intros s; exists []; rewrite app_nil_r; by eauto|]. intros now. unfold b2.
        destruct (ingest_tools _ _ _ _ _) as [discovered b3]. cbn [snd].
        apply after_quietly; [apply silently_try, only_mcp_call; [done|auto with mcp_tx]|]. intros _.
        apply builds_ret; [|done]. intros tools []. by split. }
      cbn. intros r vs (a & -> & H3 & H4). exists a. split_and!; [done| |].
      * intros tools Ht%Hb1%(ingest_holds (srv_id row) (srv_catalog_id row) client remotes). apply H3 in Ht.
        rewrite list_to_map_app, (assoc_L (∪)). exact Ht.
      * rewrite H4. apply ingest_loop_rest.
  - by intros e vs ([] & [=] & _).
  - by intros p vs ([] & [=] & _).
Qed.

Lemma builds_refresh_loop rows prior b : builds (refresh_loop env platform_clients rows prior b) id b (noted rows).
Proof.
  revert prior b. induction rows as [|row rows IH]; intros prior b; cbn [refresh_loop]; [by apply builds_ret|].
  eapply traced_bind; [apply builds_refresh_one|..].
  - intros a vs ([prior' b'] & [= ->] & H3 & H4). cbn in H3, H4. eapply traced_mono; [apply IH|].
    cbn. intros r vs' (b2 & -> & H5 & H6). exists b2. split_and!; [done| |].
    + intros tools Ht%H3%H5. by rewrite listed_app, list_to_map_app, (assoc_L (∪)).
    + rewrite H6. by apply noted_congr.
  - by intros e vs (? & ? & _).
  - by intros p vs (? & ? & _).
Qed.

Lemma spec_le_total s t : spec_le s t ∨ spec_le t s.
Proof.
  unfold spec_le. generalize (spec_key s) (spec_key t). clear. intros x. induction x as [|a x IH]; intros [|b y]; cbn; [by left..|by right|].
  destruct (N.lt_trichotomy a b) as [Hl|[->|Hl]].
  - left. by apply N.ltb_lt in Hl as ->.
  - destruct (IH y) as [-> | ->]; rewrite N.eqb_refl; [left|right]; by destruct (b <? b)%N.
  - right. by apply N.ltb_lt in Hl as ->.
Qed.

(** The tools of [mid]'s listings, the first of a name standing. *)
Definition first_come (mid : list McpCall) : gmap str (McpTool * ToolOrigin) := list_to_map (listed mid).
Record built_of (rows : list McpServerRecord) (mid : list McpCall) (st : McpState) : Prop := mkBuilt {
  bo_by_name : st_by_name st = fst <$> first_come mid;
  bo_origins : st_tool_origins st = snd <$> first_come mid;
  bo_specs : st_specs st ≡ₚ (λ kv, mcp_spec kv.2.1) <$> map_to_list (first_come mid);
  bo_sorted : Sorted spec_le (st_specs st);
  bo_wired : ∀ org catalog,
    catalog_to_server_for_org st org !! catalog = wired_as (take MAX_MCP_SERVERS rows) org catalog }.

(** C20: whatever the servers answer and whichever calls fail, a refresh that could read the rows puts a new state in
    place: the tools that the connected servers listed, at most 64 of each, the first of a name standing, their specs in
    order of names, and each entry of an organisation resolved to the server of its last row among the first 32. *)
Theorem refresh_first_come :
  traced (refresh env platform_clients) (λ r vs,
    match r with
    | Ok _ => ∃ rows prior mid st,
        vs = CRows (Ok rows) :: CTakeServers prior :: mid ++ [CSwap st] ∧ built_of rows mid st
    | Err e => vs = [CRows (Err e)]
    | Panic _ => False
    end).
Proof.
  unfold refresh. eapply traced_bind; [apply (traced_call_of no_panic) with (Q := λ r vs, no_panic r ∧ vs = [CRows r]); by auto|..].
  - intros rows vs [_ ->]. eapply traced_bind; [apply traced_local with (Q := λ r vs, ∃ p, r = Ok p ∧ vs = [CTakeServers p]); by eauto|..].
    + intros p0 vs (prior & _ & ->). eapply traced_bind; [apply builds_refresh_loop|..].
      * intros b mid (b' & [= ->] & H3 & H4). apply traced_local. intros _. exists rows, prior, mid, (finish b').
        split; [done|]. specialize (H3 ∅ holds_default). rewrite (left_id_L ∅ (∪)) in H3. destruct H3 as [H3 H5 H6].
        split; cbn; [done|done| | |].
        -- by rewrite merge_sort_Permutation.
        -- apply Sorted_merge_sort. intros s t. apply spec_le_total.
        -- intros org catalog. transitivity (catalog_to_server_for_org (noted (take MAX_MCP_SERVERS rows) McpState_default) org !! catalog).
           { unfold catalog_to_server_for_org. cbn. unfold id in H4. by rewrite H4. }
           rewrite noted_lookup. destruct (wired_as _ _ _); [done|]. unfold catalog_to_server_for_org. cbn. by rewrite lookup_empty.
      * by intros e vs (? & ? & _).
      * by intros p vs (? & ? & _).
    + by intros e vs (? & ? & _).
    + by intros p vs (? & ? & _).
  - by intros e vs [_ ->].
  - by intros p vs [? _].
Qed.
End builds.

(** ** The coordinator *)

(** While somebody has asked since the last refresh began, a signal waits for the next; so after every request a refresh
    begins, unless the process ends. *)
Lemma refresher_waits r : rtc refresher_step Refresher_spawn r → rf_queued r = rf_stale r.
Proof.
  revert r. apply (rtc_ind_r (R := refresher_step) (λ r, rf_queued r = rf_stale r) Refresher_spawn); [done|].
  intros x y _ Hs Hx. destruct Hs; cbn; congruence.
Qed.
