(* ===== verification/McpRoutes.v ===== *)
(** * The handlers of the servers

    [http/routes/mcp.rs]: a server wired, changed, given credentials, tried or taken
    away, and the flow that authorizes it, from the web page or from a chat, through the
    callback and what follows it.  The responses are left to the results; of the
    listings only the paging of the calls is here. *)

From Stdlib Require Import ZArith Lia Ascii String.
From stdpp Require Import base gmap list strings sets relations.
From S2P Require Import Prelude Program Types Tools Identity Signed ChatText Responses Office McpStore McpRegistry McpOauth McpRefresh.

Inductive McpHttpError :=
| MhParse (e : ParseError)
| MhMcp (e : McpError)
| MhAuth (e : McpError)
| MhBadRequest (msg : str)
| MhNotFound
| MhTooManyRequests
| MhInternal.
Abbreviation HP := (Prog mcp_world McpCall McpHttpError).

(** [transpose] *)
Definition some_res {E A} (r : res E A) : res E (option A) := x <-? r ; Ok (Some x).

(** ** Requests *)

Record OAuthClientInput := mkClientInput { ic_client_id : option str; ic_client_secret : option str }.
Inductive CustomOAuth := CoDcr | CoUserSupplied (c : UserOAuthClient).
(** A blank text is an absent one. *)
Definition given (s : option str) : option str := x ← s; if is_empty (trim x) then None else Some x.
Definition into_choice (i : OAuthClientInput) : res McpHttpError CustomOAuth :=
  match given (ic_client_id i), given (ic_client_secret i) with
  | Some id, secret =>
      client_id <-? res_map_err MhParse (OAuthClientId_try_from id) ;
      client_secret <-? match secret with
                        | None => Ok None
                        | Some s => some_res (res_map_err MhParse (OAuthClientSecret_try_from s))
                        end ;
      Ok (CoUserSupplied (mkUserClient client_id client_secret))
  | None, Some _ => Err (MhMcp (McpInvalidConfig
      (lit "client_secret requires a client_id " ++ [0x2014%N] ++ lit " leave both blank for dynamic registration")))
  | None, None => Ok CoDcr
  end.

(** Headers whose names and values are already read. *)
Abbreviation CredentialInput := (list (str * str)).
Definition check_caps (headers : CredentialInput) : res McpHttpError unit :=
  if MCP_MAX_HEADERS <? length headers
  then Err (MhBadRequest (lit "credentials: too many headers (max " ++ show_Z (Z.of_nat MCP_MAX_HEADERS) ++ lit ")"))
  else Ok tt.

Record CreateMcpServerRequest := mkCreateRequest {
  cm_catalog_id : str; cm_config : option McpTransport; cm_description : option str; cm_enabled : option bool;
  cm_credentials : option CredentialInput; cm_display_name : option str; cm_oauth_client : option OAuthClientInput }.
Record UpdateMcpServerRequest := mkUpdateRequest {
  um_config : option McpTransport; um_description : option (option str); um_enabled : option bool }.
Record OAuthStartRequest := mkStartRequest {
  so_redirect_to : option str; so_scope : option str; so_thread_id : option ThreadId; so_agent_id : option AgentId }.
Record OAuthCallbackQuery := mkCallbackQuery { oq_code : option str; oq_state : option str; oq_error : option str }.

Definition opt_parse {A} (parse : str → res ParseError A) (raw : option str) : res McpHttpError (option A) :=
  match raw with None => Ok None | Some s => some_res (res_map_err MhParse (parse s)) end.
Definition parse_resume_ctx (thread : option ThreadId) (agent : option AgentId) : res McpHttpError (option ResumeCtx) :=
  match thread, agent with
  | Some t, Some a => Ok (Some (mkResumeCtx t a))
  | None, None => Ok None
  | _, _ => Err (MhBadRequest (lit "thread_id and agent_id must both be present or both absent"))
  end.
Definition effective_oauth_scope (request catalog_default : option str) : option str :=
  match given request with Some s => Some (trim s) | None => catalog_default end.

(** ** Redirects *)

Definition append_query (base kv : str) : str :=
  base ++ (if bool_decide (0x3f%N ∈ base) then lit "&" else lit "?") ++ kv.
Definition sanitized_base (web_base redirect_to : option str) : str :=
  let path := default (lit "/") (redirect_to ≫= sanitize_return_to) in
  match web_base with Some origin => origin ++ path | None => path end.
Definition reason_char (c : N) : bool := is_ascii_alphanumeric c || (c =? 0x5f)%N || (c =? 0x2d)%N.
Definition sanitize_reason (raw : str) : str :=
  let out := (λ c, if reason_char c then to_ascii_lowercase_char c else 0x5f%N) <$> take 64 raw in
  if is_empty out then lit "unknown" else out.
Definition hex_upper (n : N) : N := (if n <? 10 then 0x30 + n else 0x41 + (n - 10))%N.
Definition encode_query_byte (b : N) : str :=
  if is_ascii_alphanumeric b || bool_decide (b ∈ lit "-_.~") then [b]
  else [0x25%N; hex_upper (b / 16); hex_upper (b mod 16)].
Definition encode_query_value (raw : str) : str := mjoin (encode_query_byte <$> as_bytes raw).
Definition ok_redirect (web_base redirect_to : option str) : str :=
  append_query (sanitized_base web_base redirect_to) (lit "status=ok").
Definition failed_redirect (web_base redirect_to : option str) (reason : str) : str :=
  append_query (sanitized_base web_base redirect_to)
    (lit "status=failed&reason=" ++ encode_query_value (sanitize_reason reason)).
Definition vendor_error_to_reason (raw : str) : str :=
  if bool_decide (raw = lit "access_denied") then lit "access_denied"
  else if bool_decide (raw = lit "invalid_scope") then lit "invalid_scope"
  else if bool_decide (raw = lit "server_error") then lit "vendor_server_error"
  else if bool_decide (raw = lit "temporarily_unavailable") then lit "vendor_unavailable"
  else lit "vendor_error".

(** [redact_error]: at most 512 bytes, on a boundary, then U+2026. *)
Definition redact_error `{UuidPrinter} (e : McpError) : str :=
  let s := McpError_display e in
  if 512 <? str_len s then truncate_to_char_boundary s 512 ++ [0x2026%N] else s.

(** ** The handlers *)

(** What the chat platforms answer at a moment: whether a platform is on, whether its
    token is at hand, and who a Slack user is. *)
Record ChatSurfaces := mkSurfaces {
  su_slack : bool; su_lark : bool; su_discord : bool;
  su_workspace : nat → str → option (UserId * OrgId);
  su_linked : nat → str → str → option (option (UserId * OrgId));
  su_lark_token : nat → str → bool }.

(** The callback's address, and the origin put before a path. *)
Record OAuthConfig := mkOAuthConfig { og_redirect_base : str; og_web_base_url : option str }.
Definition OAUTH_CALLBACK_PATH : str := lit "/mcp-oauth/callback".
(** Ten minutes, in seconds. *)
Definition OAUTH_PENDING_TTL : Z := 600.

Section routes.
Context `{Rmcp, UuidPrinter, HeaderNames, McpWire} (env : McpEnv) (platform_clients : gmap str PlatformOAuthClient).
Context (surfaces : ChatSurfaces) (cfg : OAuthConfig).

Definition request_refresh {E} : MP E unit := plocal (me_net env) (λ _ : unit, CRequestRefresh) (λ w, (tt, w)).
Definition list_servers (org : OrgId) : MP McpError (list McpServerRecord) :=
  mcp_read env (CServersOf org) (λ _ t, Ok (list_for_org org t)).
Definition create_server (payload : McpServerCreate) : MP McpError McpServerRecord :=
  mcp_call env (CCreate payload)
    (λ n, server_create_tx MAX_MCP_SERVERS (me_fk env n) payload (me_fresh env n) (me_now env n)).
Definition require_visible (user : UserId) (org : OrgId) (id : McpServerId) : HP unit :=
  visible <-% pmap_err MhAuth (mcp_read env (CVisible user org id) (λ _ t, Ok (visible_to user org id t))) ;
  if (visible : bool) then pret tt else perr MhNotFound.

(** *** Wiring *)

Definition register_custom_catalog_entry (org : OrgId) (catalog_id : str) (display_name : option str)
    (config : McpTransport) (credentials : option CredentialInput) (oauth : option CustomOAuth) : HP McpAuthKind :=
  display_name <-% plift (res_map_err MhParse (McpCatalogDisplayName_try_from (default catalog_id display_name))) ;
  let '(auth_kind, client_source, client) :=
    match oauth with
    | Some (CoUserSupplied client) => (OAuth2, SrcUserSupplied, Some client)
    | Some CoDcr => (OAuth2, SrcDcr, None)
    | None => if bool_decide (is_Some credentials) then (StaticHeaders, SrcDcr, None) else (NoAuth, SrcDcr, None)
    end in
  let entry := mkUpsert org catalog_id display_name (lit "Custom MCP server.") config auth_kind client_source client in
  pmap_err MhMcp (mcp_call env (CEnsureEntry entry) (λ n, ensure_org_scoped_tx (me_fk env n) entry)).
Definition resolve_catalog_for_create (org : OrgId) (catalog_id : str) (config : option McpTransport)
    (display_name : option str) (credentials : option CredentialInput) (oauth : option CustomOAuth)
    : HP (McpTransport * McpAuthKind) :=
  match config with
  | Some c =>
      auth_kind <-% register_custom_catalog_entry org catalog_id display_name c credentials oauth ;
      pret (c, auth_kind)
  | None =>
      entry <-% pmap_err MhMcp (read_entry env org catalog_id) ;
      entry <-% plift (ok_or entry (MhMcp (McpCatalogIdUnknown catalog_id))) ;
      pret (ct_default_transport entry, ct_auth_kind entry)
  end.
Definition initial_connection_status (k : McpAuthKind) : ConnectionStatus :=
  match k with OAuth2 => CsAuthPending | _ => CsOk end.
Definition refused (b : bool) (msg : string) : HP unit :=
  if b then perr (MhMcp (McpInvalidConfig (lit msg))) else pret tt.
Definition is_oauth2 (k : McpAuthKind) : bool := match k with OAuth2 => true | _ => false end.

Definition create_mcp_server (user : UserId) (org : OrgId) (rq : CreateMcpServerRequest) : HP McpServerRecord :=
  catalog_id <-% plift (res_map_err MhParse (McpCatalogId_try_from (cm_catalog_id rq))) ;
  description <-% plift (opt_parse McpDescription_try_from (cm_description rq)) ;
  plift (match cm_credentials rq with Some c => check_caps c | None => Ok tt end) ;;%
  oauth <-% plift (match cm_oauth_client rq with Some i => some_res (into_choice i) | None => Ok None end) ;
  let credentials := cm_credentials rq in
  refused (bool_decide (is_Some oauth) && bool_decide (is_Some credentials))
    "choose one auth method: OAuth or inline credentials, not both" ;;%
  refused (bool_decide (is_Some oauth) && bool_decide (cm_config rq = None)) "OAuth is only valid for a custom server URL" ;;%
  resolved <-% resolve_catalog_for_create org catalog_id (cm_config rq) (cm_display_name rq) credentials oauth ;
  refused (is_oauth2 resolved.2 && bool_decide (is_Some credentials))
    "this catalog entry uses OAuth: connect via /oauth/start instead of supplying inline credentials" ;;%
  record <-% pmap_err MhMcp (create_server (mkServerCreate org user catalog_id resolved.1 description
                                              (default true (cm_enabled rq)) (initial_connection_status resolved.2))) ;
  match credentials with
  | Some headers => pmap_err MhMcp (write_credential env (srv_id record) org (PayStaticHeaders headers))
  | None => pret tt
  end ;;%
  request_refresh ;;%
  pret record.

(** Of the chats: the row that is there, or a new one. *)
Definition install_from_catalog (org : OrgId) (user : UserId) (catalog_id : str) : HP McpServerRecord :=
  existing <-% pmap_err MhMcp (list_servers org) ;
  match List.find (λ r, bool_decide (srv_catalog_id r = catalog_id)) existing with
  | Some row => pret row
  | None =>
      entry <-% pmap_err MhMcp (read_entry env org catalog_id) ;
      entry <-% plift (ok_or entry (MhMcp (McpCatalogIdUnknown catalog_id))) ;
      pmap_err MhMcp (create_server (mkServerCreate org user catalog_id (ct_default_transport entry) None true CsAuthPending))
  end.

(** *** Changing *)

Definition update_mcp_server (user : UserId) (org : OrgId) (id : McpServerId) (rq : UpdateMcpServerRequest)
    : HP (McpServerRecord * option CredentialPayload) :=
  description <-% plift (match um_description rq with
                         | None => Ok None
                         | Some inner => some_res (opt_parse McpDescription_try_from inner)
                         end) ;
  require_visible user org id ;;%
  let payload := mkServerUpdate (um_config rq) description (um_enabled rq) in
  row <-% pmap_err MhMcp (mcp_call env (CUpdate id org payload) (λ n, server_update_tx id org payload (me_now env n))) ;
  credentials <-% pmap_err MhMcp (read_credential env (srv_id row) org) ;
  request_refresh ;;%
  pret (row, credentials).
Definition delete_mcp_server (user : UserId) (org : OrgId) (id : McpServerId) : HP unit :=
  require_visible user org id ;;%
  pmap_err MhMcp (mcp_call env (CDelete id org) (λ _, server_delete_tx id org)) ;;%
  request_refresh.
Definition put_mcp_credentials (user : UserId) (org : OrgId) (id : McpServerId) (headers : CredentialInput) : HP unit :=
  plift (check_caps headers) ;;%
  require_visible user org id ;;%
  pmap_err MhMcp (write_credential env id org (PayStaticHeaders headers)) ;;%
  request_refresh.
Definition delete_mcp_credentials (user : UserId) (org : OrgId) (id : McpServerId) : HP unit :=
  require_visible user org id ;;%
  pmap_err MhMcp (delete_credential env id org) ;;%
  request_refresh.
(** The same calls. *)
Definition disconnect_oauth : UserId → OrgId → McpServerId → HP unit := delete_mcp_credentials.

(** *** Trying a configuration *)

Definition test_tool (t : RemoteTool) : DiscoveredTool :=
  mkDiscovered (rt_name t) (lit "mcp_test_" ++ rt_name t) (rt_description t).
(** [admitted]: the rate limiter's answer; the left of the result is the text of a failure. *)
Definition test_connect_mcp_server (admitted : bool) (config : McpTransport) (credentials : option CredentialInput)
    : HP (str + list DiscoveredTool) :=
  if negb admitted then perr MhTooManyRequests
  else
    client <-% pcatch (E := McpError) (connect_bare env config (PayStaticHeaders <$> credentials)) ;
    match client with
    | inl e => pret (inl (redact_error e))
    | inr client =>
        listed <-% pcatch (E := McpError) (pcall (me_net env) (CListTools None client) McpListTools (λ n w, (list_tools n client, w))) ;
        match listed with
        | inl e => pret (inl (redact_error e))
        | inr tools => pret (inr (test_tool <$> tools))
        end
    end.

(** *** Starting a flow *)

Definition catalog_entry_for_server (org : OrgId) (id : McpServerId) : MP McpError (option McpCatalogEntry) :=
  server <-% read_server env id org ;
  read_entry env org (srv_catalog_id server).
Definition redirect_uri : str := og_redirect_base cfg ++ OAUTH_CALLBACK_PATH.
Definition server_url (s : McpServerRecord) : str := let 'Http url := srv_config s in url.

Definition map_oauth_err (e : OAuthError) : McpHttpError :=
  match e with
  | OaRmcp (RegistrationFailed _ | TokenExchangeFailed _ | TokenRefreshFailed _ | MetadataError _ | NoAuthorizationSupport)
  | Misconfigured _ | OaTimeout _ => MhBadRequest (OAuthError_display e)
  | OaRmcp _ | OaDb _ => MhInternal
  | OaMcp e => MhMcp e
  end.

Definition start_oauth (user : UserId) (org : OrgId) (id : McpServerId) (body : OAuthStartRequest) : HP str :=
  entry <-% pmap_err MhMcp (catalog_entry_for_server org id) ;
  entry <-% plift (ok_or entry (MhBadRequest
    (lit "server's catalog entry no longer exists " ++ [0x2014%N] ++ lit " re-wire the server"))) ;
  server <-% pmap_err (λ _, MhNotFound) (read_server env id org) ;
  let scope := effective_oauth_scope (so_scope body) (ct_default_scope entry) in
  resume_ctx <-% plift (parse_resume_ctx (so_thread_id body) (so_agent_id body)) ;
  now <-% mcp_now env ;
  let ctx := mkPendingCtx id user org (so_redirect_to body) resume_ctx None None None (now + OAUTH_PENDING_TTL)%Z in
  user_oauth_client <-% (if bool_decide (ct_client_source entry = SrcUserSupplied)
                         then pmap_err MhMcp (read_user_client env org (ct_id entry)) else pret None) ;
  pmap_err map_oauth_err (start_authorization env platform_clients
    (mkStartCtx entry (server_url server) (from_option split_whitespace [] scope)
       (default [] (ct_authorize_extra_params entry)) redirect_uri user_oauth_client ctx id org)).

(** *** The callback *)

(** The redirect path, and the reason. *)
Record CallbackFail := mkCallbackFail { cf_redirect_to : option str; cf_reason : str }.
Abbreviation CP := (Prog mcp_world McpCall CallbackFail).
Definition fails {E} (redirect_to : option str) (reason : string) (_ : E) : CallbackFail := mkCallbackFail redirect_to (lit reason).

Definition consume_pending_for_redirect {E} (raw_state : option str) : MP E (option str) :=
  match raw_state with
  | None => pret None
  | Some raw =>
      ctx <-% pcatch (E := McpError) (read_pending env raw) ;
      match ctx with
      | inr (Some ctx) => ptry (E := McpError) (delete_pending env raw) ;;% pret (pc_redirect_to ctx)
      | _ => pret None
      end
  end.

Definition mark_connected (id : McpServerId) (org : OrgId) : MP McpError unit :=
  mcp_call env (CMarkConnected id org) (λ n, mark_connected_tx id org (me_now env n)).

Definition resolve_display_name {E} (ctx : PatomPendingCtx) : MP E str :=
  server <-% pcatch (E := McpError) (read_server env (pc_server_id ctx) (pc_org_id ctx)) ;
  match server with
  | inl _ => pret (lit "the connector")
  | inr server =>
      entry <-% pcatch (E := McpError) (read_entry env (pc_org_id ctx) (srv_catalog_id server)) ;
      match entry with
      | inr (Some entry) => pret (ct_display_name entry)
      | _ => pret (lit "the connector")
      end
  end.

Definition render_resume_prompt (display_name : str) : str := lit "I've connected " ++ display_name ++ lit ". Please continue.".
Definition resume_key_for (state : str) : str := lit "mcp-resume:" ++ state.
(** The submission itself, its error included, is [http/routes/prompts.rs]'s. *)
Definition do_auto_continue {E} (ctx : PatomPendingCtx) (state display_name : str) : MP E unit :=
  match pc_resume_ctx ctx, Prompt_try_from (render_resume_prompt display_name), IdempotencyKey_try_from (resume_key_for state) with
  | Some resume, Ok content, Ok key =>
      plocal (me_net env)
        (λ _ : unit, CSubmit (mkSubmit (pc_user_id ctx) (pc_org_id ctx) (rc_thread_id resume) (rc_agent_id resume) content key))
        (λ w, (tt, w))
  | _, _, _ => pret tt
  end.
Definition ping {E} (target : PingTarget) (display_name : str) : MP E unit :=
  plocal (me_net env) (λ _ : unit, CPing target display_name) (λ w, (tt, w)).
Definition asking {E} (answer : nat → bool) (m : MP E unit) : MP E unit := λ s,
  if answer (length (run_trace s)) then m s else pret tt s.

Definition do_slack_ping {E} (ctx : PatomPendingCtx) (display_name : str) : MP E unit :=
  match pc_slack_ctx ctx with
  | Some c =>
      match parse_slack_id (sp_team_id c) "slack_team_id", parse_slack_id (sp_channel_id c) "slack_channel_id",
            parse_slack_ts (sp_thread_ts c) "slack_thread_ts" with
      | Ok team, Ok channel, Ok ts =>
          if su_slack surfaces
          then asking (λ n, bool_decide (is_Some (su_workspace surfaces n team)))
                 (ping (PingSlack (mkSlackPing team channel ts)) display_name)
          else pret tt
      | _, _, _ => pret tt
      end
  | None => pret tt
  end.
Definition do_lark_ping {E} (ctx : PatomPendingCtx) (display_name : str) : MP E unit :=
  match pc_lark_ctx ctx with
  | Some c =>
      match parse_lark_id (lp_app_id c) "lark_app_id", parse_lark_id (lp_chat_id c) "lark_chat_id" with
      | Ok app, Ok chat =>
          let reply := r ← lp_reply_to c; res_ok (parse_lark_id r "lark_message_id") in
          if su_lark surfaces
          then asking (λ n, su_lark_token surfaces n app) (ping (PingLark (mkLarkPing app chat reply)) display_name)
          else pret tt
      | _, _ => pret tt
      end
  | None => pret tt
  end.
Definition do_discord_ping {E} (ctx : PatomPendingCtx) (display_name : str) : MP E unit :=
  match pc_discord_ctx ctx with
  | Some c =>
      match parse_snowflake (dp_application_id c) "discord_application_id", parse_snowflake (dp_container_id c) "discord_container_id" with
      | Ok app, Ok container =>
          let reply := r ← dp_reply_to c; res_ok (parse_snowflake r "discord_message_id") in
          if su_discord surfaces then ping (PingDiscord (mkDiscordPing app container reply)) display_name else pret tt
      | _, _ => pret tt
      end
  | None => pret tt
  end.
(** The four run side by side; none reads what another writes. *)
Definition after_success {E} (ctx : PatomPendingCtx) (state : str) : MP E unit :=
  display_name <-% resolve_display_name ctx ;
  do_auto_continue ctx state display_name ;;%
  do_slack_ping ctx display_name ;;%
  do_lark_ping ctx display_name ;;%
  do_discord_ping ctx display_name.

Definition callback_flow (q : OAuthCallbackQuery) : CP (option str) :=
  match oq_error q, oq_state q, oq_code q with
  | Some err, _, _ =>
      redirect_to <-% consume_pending_for_redirect (oq_state q) ;
      perr (mkCallbackFail redirect_to (vendor_error_to_reason err))
  | None, None, _ => perr (mkCallbackFail None (lit "state_missing"))
  | None, Some state, None =>
      redirect_to <-% consume_pending_for_redirect (Some state) ;
      perr (mkCallbackFail redirect_to (lit "code_missing"))
  | None, Some state, Some code =>
      pending <-% pmap_err (fails None "internal_error") (read_pending env state) ;
      ctx <-% plift (ok_or pending (mkCallbackFail None (lit "unknown_or_expired_state"))) ;
      let id := pc_server_id ctx in
      let org := pc_org_id ctx in
      let back := pc_redirect_to ctx in
      entry <-% pmap_err (fails back "internal_error") (catalog_entry_for_server org id) ;
      entry <-% plift (ok_or entry (mkCallbackFail back (lit "catalog_entry_missing"))) ;
      server <-% pmap_err (fails back "internal_error") (read_server env id org) ;
      user_oauth_client <-% (if bool_decide (ct_client_source entry = SrcUserSupplied)
                             then pmap_err (fails back "internal_error") (read_user_client env org (ct_id entry)) else pret None) ;
      pmap_err (fails back "token_exchange_failed")
        (handle_callback env platform_clients entry (server_url server) code state redirect_uri user_oauth_client id org) ;;%
      pmap_err (fails back "internal_error") (mark_connected id org) ;;%
      request_refresh ;;%
      after_success ctx state ;;%
      pret back
  end.
(** The address the browser is sent to. *)
Definition handle_oauth_callback (q : OAuthCallbackQuery) : MP McpError str :=
  outcome <-% pcatch (callback_flow q) ;
  pret (match outcome with
        | inr redirect_to => ok_redirect (og_web_base_url cfg) redirect_to
        | inl f => failed_redirect (og_web_base_url cfg) (cf_redirect_to f) (cf_reason f)
        end).

(** *** From a chat *)

Abbreviation TP := (Prog mcp_world McpCall string).
Definition says {E} (reason : string) (_ : E) : string := reason.

Definition connect_start_oauth (ctx : PatomPendingCtx) : TP str :=
  let id := pc_server_id ctx in
  let org := pc_org_id ctx in
  entry <-% pmap_err (says "Internal error resolving the connector's catalog entry.") (catalog_entry_for_server org id) ;
  entry <-% plift (ok_or entry "Connector's catalog entry no longer exists."%string) ;
  server <-% pmap_err (says "Couldn't load the connector's server row.") (read_server env id org) ;
  pmap_err (says "Couldn't start the OAuth flow.") (start_authorization env platform_clients
    (mkStartCtx entry (server_url server) (from_option split_whitespace [] (ct_default_scope entry))
       (default [] (ct_authorize_extra_params entry)) redirect_uri None ctx id org)).

Definition BAD_LINK : string := "This Connect link is expired or invalid. Ask the agent to send the request again.".
Definition INSTALL_FAILED : string := "Couldn't install this connector. The catalog entry may be missing.".

Section links.
Context `{Macs, Base64, UuidParser} (secret : list N) (now_secs : Z).

Definition resolve_slack_connect_identity (c : SlackConnectClaims) : TP (UserId * OrgId) := λ s,
  let n := length (run_trace s) in
  match su_workspace surfaces n (sc_team_id c) with
  | None => perr "Couldn't find the Slack workspace for this connection request."%string s
  | Some installed_by =>
      match su_linked surfaces n (sc_team_id c) (sc_slack_user_id c) with
      | None => perr "Internal error resolving Slack identity."%string s
      | Some linked => pret (default installed_by linked) s
      end
  end.
Definition handle_slack_connect_inner (token : option str) : TP str :=
  if negb (su_slack surfaces) then perr "Slack integration is not enabled on this Patom deployment."%string
  else
    token <-% plift (ok_or token "Missing token."%string) ;
    claims <-% plift (ok_or (slack_verify_connect secret token now_secs) BAD_LINK) ;
    who <-% resolve_slack_connect_identity claims ;
    server <-% pmap_err (says INSTALL_FAILED) (install_from_catalog who.2 who.1 (sc_catalog_id claims)) ;
    now <-% mcp_now env ;
    connect_start_oauth (mkPendingCtx (srv_id server) who.1 who.2 None
      (Some (mkResumeCtx (sc_thread_id claims) (sc_agent_id claims)))
      (Some (mkSlackPing (sc_team_id claims) (sc_channel_id claims) (sc_thread_ts claims))) None None
      (now + OAUTH_PENDING_TTL)%Z).

Definition chat_connect_inner (off : string) (on : bool) (verify : list N → str → Z → option ChatConnectClaims)
    (with_ctx : ChatConnectClaims → option LarkPingCtx * option DiscordPingCtx) (token : option str) : TP str :=
  if negb on then perr off
  else
    token <-% plift (ok_or token "Missing token."%string) ;
    claims <-% plift (ok_or (verify secret token now_secs) BAD_LINK) ;
    server <-% pmap_err (says INSTALL_FAILED) (install_from_catalog (ch_org_id claims) (ch_user_id claims) (ch_catalog_id claims)) ;
    now <-% mcp_now env ;
    connect_start_oauth (mkPendingCtx (srv_id server) (ch_user_id claims) (ch_org_id claims) None
      (Some (mkResumeCtx (ch_thread_id claims) (ch_agent_id claims)))
      None (with_ctx claims).1 (with_ctx claims).2 (now + OAUTH_PENDING_TTL)%Z).
Definition handle_lark_connect_inner : option str → TP str :=
  chat_connect_inner "Lark integration is not enabled on this Patom deployment." (su_lark surfaces) lark_verify_connect
    (λ c, (Some (mkLarkPing (ch_app_id c) (ch_container_id c) (ch_reply_to c)), None)).
Definition handle_discord_connect_inner : option str → TP str :=
  chat_connect_inner "Discord integration is not enabled on this Patom deployment." (su_discord surfaces)
    discord_verify_connect
    (λ c, (None, Some (mkDiscordPing (ch_app_id c) (ch_container_id c) (ch_reply_to c)))).
End links.

(** *** The routers *)

Inductive McpRequest :=
| RqCreate (user : UserId) (org : OrgId) (rq : CreateMcpServerRequest)
| RqUpdate (user : UserId) (org : OrgId) (id : McpServerId) (rq : UpdateMcpServerRequest)
| RqDelete (user : UserId) (org : OrgId) (id : McpServerId)
| RqPutCredentials (user : UserId) (org : OrgId) (id : McpServerId) (headers : CredentialInput)
| RqDeleteCredentials (user : UserId) (org : OrgId) (id : McpServerId)
| RqDisconnect (user : UserId) (org : OrgId) (id : McpServerId)
| RqTestConnect (admitted : bool) (config : McpTransport) (credentials : option CredentialInput)
| RqStart (user : UserId) (org : OrgId) (id : McpServerId) (body : OAuthStartRequest)
| RqCallback (q : OAuthCallbackQuery)
| RqSlackConnect (token : option str)
| RqLarkConnect (token : option str)
| RqDiscordConnect (token : option str).

(** A handler, its result aside. *)
Definition answered {E A} (m : MP E A) : MP unit unit := pmap_err (λ _, tt) (m ;;% pret tt).

Context `{Macs, Base64, UuidParser} (slack_secret lark_secret discord_secret : list N) (now_secs : Z).
Definition serve (rq : McpRequest) : MP unit unit :=
  match rq with
  | RqCreate user org rq => answered (create_mcp_server user org rq)
  | RqUpdate user org id rq => answered (update_mcp_server user org id rq)
  | RqDelete user org id => answered (delete_mcp_server user org id)
  | RqPutCredentials user org id headers => answered (put_mcp_credentials user org id headers)
  | RqDeleteCredentials user org id => answered (delete_mcp_credentials user org id)
  | RqDisconnect user org id => answered (disconnect_oauth user org id)
  | RqTestConnect admitted config credentials => answered (test_connect_mcp_server admitted config credentials)
  | RqStart user org id body => answered (start_oauth user org id body)
  | RqCallback q => answered (handle_oauth_callback q)
  | RqSlackConnect token => answered (handle_slack_connect_inner slack_secret now_secs token)
  | RqLarkConnect token => answered (handle_lark_connect_inner lark_secret now_secs token)
  | RqDiscordConnect token => answered (handle_discord_connect_inner discord_secret now_secs token)
  end.
End routes.

(** *** Paging the calls of a server

    [rows]: the instants of the calls recorded for it, newest first. *)

Definition DEFAULT_TOOL_CALLS_PAGE : nat := 50.
Definition MAX_TOOL_CALLS_PAGE : nat := 100.
Definition tool_calls_limit (limit : option nat) : nat :=
  Nat.min MAX_TOOL_CALLS_PAGE (Nat.max 1 (default DEFAULT_TOOL_CALLS_PAGE limit)).
Definition tool_calls_page (limit : option nat) (before : option Z) (rows : list Z) : list Z * option Z :=
  let limit := tool_calls_limit limit in
  let items := take (S limit) (filter (λ t, match before with None => true | Some b => (t <? b)%Z end = true) rows) in
  if limit <? length items then let items := take limit items in (items, last items) else (items, None).
