(* ===== verification/McpRouteLaws.v ===== *)
(** * What the handlers keep, and what the callback may do

    Every request keeps the tables and the registry well formed; so the tools an agent
    sees are those its list allows, of servers wired in its organisation; and a callback
    touches only the server that its state was issued for. *)

From Stdlib Require Import ZArith Lia Ascii String.
From stdpp Require Import base gmap list strings sets sorting relations.
From S2P Require Import Prelude Program Types Compaction Tools Responses Office Identity Signed ChatText McpStore McpRegistry McpOauth McpRefresh McpRoutes.

(** ** Parsers and guards do not panic *)

Lemma bounded_no_panic f max raw : no_panic (bounded f max raw).
Proof. unfold bounded. by repeat case_match. Qed.
Lemma some_res_no_panic {E A} (r : res E A) : no_panic r → no_panic (some_res r).
Proof. by destruct r. Qed.
Lemma catalog_id_no_panic raw : no_panic (McpCatalogId_try_from raw).
Proof. unfold McpCatalogId_try_from. by repeat case_match. Qed.
Lemma catalog_id_same raw id : McpCatalogId_try_from raw = Ok id → id = raw.
Proof. unfold McpCatalogId_try_from. repeat case_match; congruence. Qed.
Lemma description_no_panic raw : no_panic (McpDescription_try_from raw).
Proof. unfold McpDescription_try_from. by case_match. Qed.
Lemma opt_parse_no_panic {A} (f : str → res ParseError A) raw : (∀ s, no_panic (f s)) → no_panic (opt_parse f raw).
Proof. intros Hf. destruct raw as [s|]; [|done]. by apply some_res_no_panic, map_err_no_panic. Qed.
Lemma check_caps_no_panic hs : no_panic (check_caps hs).
Proof. unfold check_caps. by case_match. Qed.
Lemma into_choice_no_panic i : no_panic (into_choice i).
Proof.
  unfold into_choice. destruct (given _) as [id|]; [|by destruct (given _)].
  pose proof (bounded_no_panic "mcp_catalog.oauth_client_id" MCP_OAUTH_CLIENT_ID_MAX_LEN id). unfold OAuthClientId_try_from.
  destruct (bounded _ _ id); cbn; try done. destruct (given _) as [sec|]; [|done].
  pose proof (bounded_no_panic "mcp_catalog.oauth_client_secret" MCP_OAUTH_CLIENT_SECRET_MAX_LEN sec).
  unfold OAuthClientSecret_try_from. by destruct (bounded _ _ sec).
Qed.
Lemma resume_ctx_no_panic t a : no_panic (parse_resume_ctx t a).
Proof. by destruct t, a. Qed.

(** ** Every request keeps the world well formed *)

Section keeps.
Context (own : McpServerId → option (OrgId * str)).
Context `{Rmcp, UuidPrinter, HeaderNames, McpWire} (env : McpEnv) (platform_clients : gmap str PlatformOAuthClient).
Context (surfaces : ChatSurfaces) (cfg : OAuthConfig).
Context `{!Respects (world_ok own) (me_net env)}.
Abbreviation fine m := (safe (world_ok own) m (λ _, True)).

Lemma fine_lift {E A} (r : res E A) : no_panic r → safe (V := McpCall) (world_ok own) (plift r) (λ _, True).
Proof. intros Hr. apply safe_lift. by destruct r. Qed.
Lemma fine_refresh_request {E} : fine (request_refresh (E := E) env).
Proof. by apply safe_local. Qed.
Lemma fine_visible user org id : fine (require_visible env user org id).
Proof. unfold require_visible. apply safe_seq; [apply safe_map_err; by apply fine_read|]. intros []; fine_tac. Qed.
Hint Resolve fine_refresh_request fine_visible : mcp_fine.

Lemma fine_create_server payload :
  (∀ n, own (me_fresh env n) = Some (vc_org_id payload, vc_catalog_id payload)) → fine (create_server env payload).
Proof. intros Ho. unfold create_server. apply fine_call; [done|intros n; by apply create_keeps|auto with mcp_tx]. Qed.

Lemma fine_register org c dn config creds oauth : fine (register_custom_catalog_entry env org c dn config creds oauth).
Proof.
  unfold register_custom_catalog_entry. apply safe_seq; [apply fine_lift, map_err_no_panic, bounded_no_panic|]. intros dn'.
  destruct (match oauth with Some _ => _ | None => _ end) as [[k src] cl]. fine_tac.
Qed.
Hint Resolve fine_register : mcp_fine.

Lemma fine_create user org rq :
  (∀ n, own (me_fresh env n) = Some (org, cm_catalog_id rq)) → fine (create_mcp_server env user org rq).
Proof.
  intros Ho. unfold create_mcp_server.
  eapply safe_bind; [apply (safe_lift _ _ (λ c, c = cm_catalog_id rq))|].
  { pose proof (catalog_id_no_panic (cm_catalog_id rq)). destruct (McpCatalogId_try_from _) eqn:E; cbn; try done.
    by apply catalog_id_same in E. }
  intros c ->. apply safe_seq; [by apply fine_lift, opt_parse_no_panic, description_no_panic|]. intros d.
  apply safe_seq; [apply fine_lift; destruct (cm_credentials rq); [apply check_caps_no_panic|done]|]. intros _.
  apply safe_seq; [apply fine_lift; destruct (cm_oauth_client rq); [apply some_res_no_panic, into_choice_no_panic|done]|].
  intros oauth. cbv zeta. unfold refused. apply safe_seq; [fine_tac|]. intros _. apply safe_seq; [fine_tac|]. intros _.
  apply safe_seq; [unfold resolve_catalog_for_create; fine_tac|]. intros resolved. apply safe_seq; [fine_tac|]. intros _.
  apply safe_seq; [by apply safe_map_err, fine_create_server|]. intros record. fine_tac.
Qed.

Lemma fine_install org user c : (∀ n, own (me_fresh env n) = Some (org, c)) → fine (install_from_catalog env org user c).
Proof.
  intros Ho. unfold install_from_catalog. apply safe_seq; [apply safe_map_err; by apply fine_read|]. intros existing.
  destruct (List.find _ _); [fine_tac|]. apply safe_seq; [fine_tac|]. intros e. apply safe_seq; [fine_tac|]. intros e'.
  by apply safe_map_err, fine_create_server.
Qed.

Lemma fine_update user org id rq : fine (update_mcp_server env user org id rq).
Proof.
  unfold update_mcp_server. apply safe_seq; [apply fine_lift|intros d; fine_tac].
  destruct (um_description rq); [|done]. by apply some_res_no_panic, opt_parse_no_panic, description_no_panic.
Qed.
Lemma fine_delete user org id : fine (delete_mcp_server env user org id).
Proof. unfold delete_mcp_server. fine_tac. Qed.
Lemma fine_put user org id hs : fine (put_mcp_credentials env user org id hs).
Proof. unfold put_mcp_credentials. apply safe_seq; [apply fine_lift, check_caps_no_panic|]. intros _. fine_tac. Qed.
Lemma fine_delete_creds user org id : fine (delete_mcp_credentials env user org id).
Proof. unfold delete_mcp_credentials. fine_tac. Qed.
Lemma fine_connect_bare t c : fine (connect_bare env t c).
Proof. eapply safe_mono; [apply (safe_connect_bare own env 0%N)|done]. Qed.
Lemma fine_list_tools row client :
  fine (pcall (me_net env) (CListTools row client) McpListTools (λ n w, (list_tools n client, w))).
Proof.
  apply safe_call; [done|]. intros n w Hw. split; [done|]. cbn. pose proof (list_tools_no_panic n client).
  by destruct (list_tools n client).
Qed.
Hint Resolve fine_connect_bare fine_list_tools : mcp_fine.
Lemma fine_test admitted config creds : fine (test_connect_mcp_server env admitted config creds).
Proof. unfold test_connect_mcp_server. fine_tac. Qed.
Lemma fine_entry_for org id : fine (catalog_entry_for_server env org id).
Proof. unfold catalog_entry_for_server. fine_tac. Qed.
Hint Resolve fine_entry_for : mcp_fine.
Lemma fine_start_oauth user org id body : fine (start_oauth env platform_clients cfg user org id body).
Proof.
  unfold start_oauth. do 3 (apply safe_seq; [fine_tac|intros ?]). cbv zeta.
  apply safe_seq; [apply fine_lift, resume_ctx_no_panic|]. intros resume. fine_tac.
Qed.
Lemma fine_connect_start ctx : fine (connect_start_oauth env platform_clients cfg ctx).
Proof. unfold connect_start_oauth. fine_tac. Qed.
Lemma fine_consume {E} st : fine (consume_pending_for_redirect (E := E) env st).
Proof. unfold consume_pending_for_redirect. fine_tac. Qed.
Hint Resolve fine_consume fine_connect_start : mcp_fine.
Lemma fine_ping {E} t n : fine (ping (E := E) env t n).
Proof. by apply safe_local. Qed.
Lemma fine_asking {E} a (m : MP E unit) : fine m → fine (asking a m).
Proof. intros Hm s Hs. unfold asking. destruct (a _); [by apply Hm|done]. Qed.
Ltac fine_cases := repeat case_match; try apply fine_ret; try apply fine_asking; try apply fine_ping; by apply safe_local.
Lemma fine_continue {E} ctx st n : fine (do_auto_continue (E := E) env ctx st n).
Proof. unfold do_auto_continue. fine_cases. Qed.
Lemma fine_slack {E} ctx n : fine (do_slack_ping (E := E) env surfaces ctx n).
Proof. unfold do_slack_ping. fine_cases. Qed.
Lemma fine_lark {E} ctx n : fine (do_lark_ping (E := E) env surfaces ctx n).
Proof. unfold do_lark_ping. fine_cases. Qed.
Lemma fine_discord {E} ctx n : fine (do_discord_ping (E := E) env surfaces ctx n).
Proof. unfold do_discord_ping. fine_cases. Qed.
Hint Resolve fine_continue fine_slack fine_lark fine_discord : mcp_fine.
Lemma fine_flow q : fine (callback_flow env platform_clients surfaces cfg q).
Proof.
  unfold callback_flow, mark_connected. destruct (oq_error q) as [e|], (oq_state q) as [st|], (oq_code q) as [code|]; fine_tac.
Qed.
Lemma fine_handle_callback q : fine (handle_oauth_callback env platform_clients surfaces cfg q).
Proof. unfold handle_oauth_callback. apply safe_seq; [apply fine_catch, fine_flow|]. intros o. fine_tac. Qed.
End keeps.

Section serve.
Context (own : McpServerId → option (OrgId * str)).
Context `{Rmcp, UuidPrinter, HeaderNames, McpWire, Macs, Base64, UuidParser} (platform_clients : gmap str PlatformOAuthClient).
Context (surfaces : ChatSurfaces) (cfg : OAuthConfig) (slack_secret lark_secret discord_secret : list N).
Abbreviation serve env now := (serve env platform_clients surfaces cfg slack_secret lark_secret discord_secret now).

(** The ids drawn for [org] and [catalog] are theirs. *)
Definition drawn_for (env : McpEnv) (org : OrgId) (catalog : str) : Prop := ∀ n, own (me_fresh env n) = Some (org, catalog).
(** What a request may wire. *)
Definition wires (env : McpEnv) (now : Z) (rq : McpRequest) : Prop :=
  match rq with
  | RqCreate _ org r => drawn_for env org (cm_catalog_id r)
  | RqSlackConnect (Some token) => ∀ c who, slack_verify_connect slack_secret token now = Some c →
      (∃ n, su_workspace surfaces n (sc_team_id c) = Some who
            ∨ su_linked surfaces n (sc_team_id c) (sc_slack_user_id c) = Some (Some who)) →
      drawn_for env who.2 (sc_catalog_id c)
  | RqLarkConnect (Some token) => ∀ c, lark_verify_connect lark_secret token now = Some c →
      drawn_for env (ch_org_id c) (ch_catalog_id c)
  | RqDiscordConnect (Some token) => ∀ c, discord_verify_connect discord_secret token now = Some c →
      drawn_for env (ch_org_id c) (ch_catalog_id c)
  | _ => True
  end.

Lemma fine_answered {E A} (m : MP E A) :
  safe (world_ok own) m (λ _, True) → safe (world_ok own) (answered m) (λ _, True).
Proof. intros Hm. unfold answered. apply safe_map_err, safe_seq; [done|]. intros _. by apply safe_ret. Qed.

Section one.
Context (env : McpEnv) `{!Respects (world_ok own) (me_net env)} (now : Z).
Abbreviation fine m := (safe (world_ok own) m (λ _, True)).

Lemma fine_chat_connect off on verify secret with_ctx token :
  (∀ t c, token = Some t → verify secret t now = Some c → drawn_for env (ch_org_id c) (ch_catalog_id c)) →
  fine (chat_connect_inner env platform_clients cfg secret now off on verify with_ctx token).
Proof.
  intros Hw. unfold chat_connect_inner. destruct (negb on); [apply safe_err|].
  eapply safe_bind; [apply (safe_lift _ _ (λ t, token = Some t)); by destruct token|]. intros t ->.
  eapply safe_bind; [apply (safe_lift _ _ (λ c, verify secret t now = Some c)); by destruct (verify secret t now)|].
  intros c Hc. apply safe_seq; [apply safe_map_err, fine_install; [done|by apply (Hw t c)]|]. intros server.
  apply safe_seq; [apply fine_now|]. intros n. by apply fine_connect_start.
Qed.

Lemma fine_slack_connect token :
  wires env now (RqSlackConnect token) →
  fine (handle_slack_connect_inner env platform_clients surfaces cfg slack_secret now token).
Proof.
  intros Hw. unfold handle_slack_connect_inner. destruct (negb _); [apply safe_err|].
  eapply safe_bind; [apply (safe_lift _ _ (λ t, token = Some t)); by destruct token|]. intros t ->.
  eapply safe_bind;
    [apply (safe_lift _ _ (λ c, slack_verify_connect slack_secret t now = Some c)); by destruct (slack_verify_connect _ _ _)|].
  intros c Hc. eapply safe_bind with (P := λ who, drawn_for env who.2 (sc_catalog_id c)).
  - intros s Hs. unfold resolve_slack_connect_identity. set (n := length _).
    destruct (su_workspace surfaces n (sc_team_id c)) as [inst|] eqn:E1; [|done].
    destruct (su_linked surfaces n (sc_team_id c) (sc_slack_user_id c)) as [linked|] eqn:E2; [|done].
    split; [done|]. cbn. apply (Hw c); [done|]. exists n. destruct linked as [w|]; cbn; eauto.
  - intros who Hwho. apply safe_seq; [by apply safe_map_err, fine_install|]. intros server.
    apply safe_seq; [apply fine_now|]. intros m. by apply fine_connect_start.
Qed.

Lemma fine_serve rq : wires env now rq → fine (serve env now rq).
Proof.
  intros Hw. destruct rq; cbn; apply fine_answered.
  - by apply fine_create.
  - by apply fine_update.
  - by apply fine_delete.
  - by apply fine_put.
  - by apply fine_delete_creds.
  - by apply fine_delete_creds.
  - by apply fine_test.
  - by apply fine_start_oauth.
  - by apply fine_handle_callback.
  - by apply fine_slack_connect.
  - apply fine_chat_connect. intros t c -> Hc. by apply Hw.
  - apply fine_chat_connect. intros t c -> Hc. by apply Hw.
Qed.
End one.

(** The worlds that come up: a start with tables in order and an empty registry, then
    requests and refreshes, between whose calls others may do what keeps the order. *)
Inductive mcp_reach : mcp_world → Prop :=
| MrStart t : mcp_ok own t → mcp_reach (mkWorld t McpState_default)
| MrServe env now rq w :
    mcp_reach w → Respects (world_ok own) (me_net env) → wires env now rq →
    mcp_reach (run_tables (serve env now rq (mkRun w [])).2)
| MrRefresh env w :
    mcp_reach w → Respects (world_ok own) (me_net env) →
    mcp_reach (run_tables (refresh env platform_clients (mkRun w [])).2).

Lemma reach_ok w : mcp_reach w → world_ok own w.
Proof.
  induction 1 as [t Ht|env now rq w _ IH Hn Hw|env w _ IH Hn].
  - split; [done|]. apply default_state_ok.
  - by apply (fine_serve env now rq Hw (mkRun w [])).
  - by apply (safe_refresh own env platform_clients (mkRun w [])).
Qed.

(** C21: in every world the requests and refreshes lead to, each server has one row and each entry of an organisation one
    server; an organisation has at most 32 servers, each of an entry that it can see; credentials and flows belong to a
    row that is there, credentials in its organisation; and nothing of this is ever undone by a fault in between. *)
Theorem mcp_reach_ok w : mcp_reach w → mcp_ok own (wd_tables w).
Proof. intros Hw. apply (reach_ok w Hw). Qed.

(** C18: an agent of an organisation reaches, under any name, only a tool whose server was wired in that organisation, for
    an entry its list names, with a remote name the list allows, under the name made of that entry and that remote name,
    over a connection that sends no other server's token; and this holds although the session's map of servers is older
    than the registry it is used with. *)
Theorem agent_tools_scoped w0 w org allowed name tool origin :
  mcp_reach w0 → mcp_reach w → NoDup allowed.*1 →
  scoped_lookup (wd_state w) (ScopedMcpSource_new allowed (catalog_to_server_for_org (wd_state w0) org)) name
  = Some (tool, origin) →
  ∃ catalog, tool_of own org catalog name tool origin
    ∧ scope_allows (tools_for_catalog allowed catalog) (or_remote_name origin).
Proof. intros [_ Hw0]%reach_ok [_ Hw]%reach_ok. by apply scoped_tool_of. Qed.
End serve.

(** ** The callback *)

(** A call allowed of a callback with the state [st], after the calls [pre]: none before the context of [st] was found,
    those of a server only of the context's, and what follows a success only after the server was marked. *)
Definition found_ctx (st : str) (pre : list McpCall) (ctx : PatomPendingCtx) : Prop := CReadPending st (Ok (Some ctx)) ∈ pre.
Definition marked (ctx : PatomPendingCtx) (pre : list McpCall) : Prop :=
  CMarkConnected (pc_server_id ctx) (pc_org_id ctx) (Ok tt) ∈ pre.
Definition callback_allowed (st : str) (pre : list McpCall) (v : McpCall) : Prop :=
  match v with
  | CReadPending s _ => s = st
  | CServer id org _ | CReadCredential id org _ | CWriteCredential id org _ _ | CDeleteCredential id org _
  | CMarkConnected id org _ => ∃ ctx, found_ctx st pre ctx ∧ id = pc_server_id ctx ∧ org = pc_org_id ctx
  | CEntry org _ _ | CUserClient org _ _ => ∃ ctx, found_ctx st pre ctx ∧ org = pc_org_id ctx
  | CLoadPending _ _ | CDeletePending _ _ => ∃ ctx, found_ctx st pre ctx
  | CRequestRefresh => ∃ ctx, found_ctx st pre ctx ∧ marked ctx pre
  | CPing target _ => ∃ ctx, found_ctx st pre ctx ∧ marked ctx pre
      ∧ match target with
        | PingSlack _ => is_Some (pc_slack_ctx ctx)
        | PingLark _ => is_Some (pc_lark_ctx ctx)
        | PingDiscord _ => is_Some (pc_discord_ctx ctx)
        end
  | CSubmit p => ∃ ctx resume, found_ctx st pre ctx ∧ marked ctx pre ∧ pc_resume_ctx ctx = Some resume
      ∧ sm_user_id p = pc_user_id ctx ∧ sm_org_id p = pc_org_id ctx ∧ sm_thread_id p = rc_thread_id resume
      ∧ sm_agent_id p = rc_agent_id resume ∧ IdempotencyKey_try_from (resume_key_for st) = Ok (sm_idempotency_key p)
  | _ => False
  end.

Section obeys_more.
Context {W V : Type} (allowed : list V → V → Prop).
(** A part whose calls are all allowed from here on. *)
Lemma obeys_only {E A} pre (C : V → Prop) (m : Prog W V E A) :
  calls_only C m → (∀ xs v, C v → allowed (pre ++ xs) v) →
  obeys allowed pre m (λ r vs, no_panic r ∧ ∃ xs, vs = pre ++ xs).
Proof.
  intros Hm Ha. eapply traced_mono; [exact Hm|]. cbn. intros r vs [Hvs Hr]. split; [|by eauto].
  intros xs v ys ->. apply Forall_app in Hvs as [_ Hv]. apply Forall_cons in Hv as [Hv _]. by apply Ha.
Qed.
Lemma obeys_bind_only {E A B} pre (C : V → Prop) (m : Prog W V E A) (k : A → Prog W V E B) (Q : res E B → list V → Prop) :
  calls_only C m → (∀ xs v, C v → allowed (pre ++ xs) v) →
  (∀ a xs, obeys allowed (pre ++ xs) (k a) Q) → (∀ e xs, Q (Err e) (pre ++ xs)) →
  obeys allowed pre (pbind m k) Q.
Proof.
  intros Hm Ha Hk He. eapply obeys_bind; [by eapply obeys_only|..]; cbn.
  - intros a vs [_ _]. apply Hk.
  - intros e vs [_ _]. apply He.
  - intros p vs [[] _].
Qed.
End obeys_more.

Section callback.
Context `{Rmcp, UuidPrinter, HeaderNames, McpWire} (env : McpEnv) (platform_clients : gmap str PlatformOAuthClient).
Context (surfaces : ChatSurfaces) (cfg : OAuthConfig).

(** Calls whose permission rests on the context alone, and those that follow the mark. *)
Definition ctx_call (ctx : PatomPendingCtx) (v : McpCall) : Prop :=
  match v with
  | CServer id org _ | CReadCredential id org _ | CWriteCredential id org _ _ | CDeleteCredential id org _
  | CMarkConnected id org _ => id = pc_server_id ctx ∧ org = pc_org_id ctx
  | CEntry org _ _ | CUserClient org _ _ => org = pc_org_id ctx
  | CLoadPending _ _ | CDeletePending _ _ => True
  | _ => False
  end.
Definition late_call (st : str) (ctx : PatomPendingCtx) (v : McpCall) : Prop :=
  ctx_call ctx v ∨ ∀ pre, found_ctx st pre ctx → marked ctx pre → callback_allowed st pre v.

Lemma found_more st pre xs ctx : found_ctx st pre ctx → found_ctx st (pre ++ xs) ctx.
Proof. intros Hp. apply elem_of_app. by left. Qed.
Lemma found_start st ctx : found_ctx st ([] ++ [CReadPending st (Ok (Some ctx))]) ctx.
Proof. by apply list_elem_of_singleton. Qed.
Ltac grow Hf xs :=
  match type of Hf with found_ctx _ ?p _ => apply (found_more _ _ xs) in Hf; revert Hf; generalize (p ++ xs); clear p xs; let q := fresh "pre" in intros q Hf end.
Lemma ctx_call_allowed st ctx pre v : found_ctx st pre ctx → ctx_call ctx v → callback_allowed st pre v.
Proof. intros Hf. destruct v; cbn; naive_solver. Qed.
Lemma ctx_calls_allowed st ctx pre xs v : found_ctx st pre ctx → ctx_call ctx v → callback_allowed st (pre ++ xs) v.
Proof. intros Hf. by apply ctx_call_allowed, found_more. Qed.
Lemma late_calls_allowed st ctx pre xs v :
  found_ctx st pre ctx → marked ctx pre → late_call st ctx v → callback_allowed st (pre ++ xs) v.
Proof.
  intros Hf Hm [Hv|Hv]; [by eapply ctx_calls_allowed|]. apply Hv; [by apply found_more|]. apply elem_of_app. by left.
Qed.

Lemma only_server ctx : calls_only (ctx_call ctx) (read_server env (pc_server_id ctx) (pc_org_id ctx)).
Proof. apply only_mcp_read; [done|]. intros n t. unfold server_read. apply ok_or_no_panic. Qed.
Lemma only_entry ctx c : calls_only (ctx_call ctx) (read_entry env (pc_org_id ctx) c).
Proof. by apply only_mcp_read. Qed.
Lemma only_entry_for ctx : calls_only (ctx_call ctx) (catalog_entry_for_server env (pc_org_id ctx) (pc_server_id ctx)).
Proof. unfold catalog_entry_for_server. apply calls_bind; [apply only_server|]. intros s. apply only_entry. Qed.
Lemma only_mark ctx : calls_only (ctx_call ctx) (mark_connected env (pc_server_id ctx) (pc_org_id ctx)).
Proof. apply only_mcp_call; [done|auto with mcp_tx]. Qed.
Lemma flow_ctx_call ctx v : flow_call (pc_server_id ctx) (pc_org_id ctx) None v → ctx_call ctx v.
Proof. by destruct v. Qed.

Lemma only_after {E} ctx st : calls_only (late_call st ctx) (after_success (E := E) env surfaces ctx st).
Proof.
  assert (∀ (F : Type) t n, match t with PingSlack _ => is_Some (pc_slack_ctx ctx) | PingLark _ => is_Some (pc_lark_ctx ctx)
            | PingDiscord _ => is_Some (pc_discord_ctx ctx) end →
          calls_only (late_call st ctx) (ping (E := F) env t n)) as Hping.
  { intros F t n Ht. apply calls_local. intros _. right. intros pre Hf Hm. cbn. eauto. }
  assert (∀ F a (m : MP F unit), calls_only (late_call st ctx) m → calls_only (late_call st ctx) (asking a m)) as Hask.
  { intros F a m Hm s. unfold asking. destruct (a _); [apply Hm|]. apply (calls_ret (late_call st ctx) tt s). }
  assert (∀ v, ctx_call ctx v → late_call st ctx v) as Hc by (intros v Hv; by left).
  unfold after_success. apply calls_bind; [|intros name; apply calls_bind; [|intros _; apply calls_bind; [|intros _; apply calls_bind; [|intros _]]]].
  - unfold resolve_display_name. apply calls_bind; [apply calls_catch; eapply only_mono; [exact Hc|apply only_server]|].
    intros [e|server]; [apply calls_ret|].
    apply calls_bind; [apply calls_catch; eapply only_mono; [exact Hc|apply only_entry]|]. intros [e|[en|]]; apply calls_ret.
  - unfold do_auto_continue. destruct (pc_resume_ctx ctx) as [resume|] eqn:Er; [|apply calls_ret].
    destruct (Prompt_try_from _) as [content|e|p]; [|apply calls_ret..].
    destruct (IdempotencyKey_try_from _) as [key|e|p] eqn:Ek; [|apply calls_ret..].
    apply calls_local. intros _. right. intros pre Hf Hm. cbn. exists ctx, resume. by split_and!.
  - unfold do_slack_ping. destruct (pc_slack_ctx ctx); [|apply calls_ret]. repeat case_match; try apply calls_ret.
    by apply Hask, Hping.
  - unfold do_lark_ping. destruct (pc_lark_ctx ctx); [|apply calls_ret]. repeat case_match; try apply calls_ret.
    by apply Hask, Hping.
  - unfold do_discord_ping. destruct (pc_discord_ctx ctx); [|apply calls_ret]. repeat case_match; try apply calls_ret.
    by apply Hping.
Qed.

(** C19: a callback finds the context that the flow of its state was started with before it does anything else, and
    whatever rmcp does with its stores, touches the credentials and the row of that server and organisation only; it asks
    for a refresh, resumes the thread (as the person who started, under a key of the state) and posts to the chat it came
    from only once the server is marked as connected; and it reports success only then. *)
Theorem callback_confined q st :
  oq_state q = Some st → oq_error q = None → oq_code q ≠ None →
  obeys (callback_allowed st) [] (callback_flow env platform_clients surfaces cfg q) (λ r vs,
    match r with
    | Ok back => ∃ ctx, found_ctx st vs ctx ∧ marked ctx vs ∧ back = pc_redirect_to ctx
    | Err _ => True
    | Panic _ => False
    end).
Proof.
  intros Hst Herr Hcode. unfold callback_flow. rewrite Hst, Herr. destruct (oq_code q) as [code|]; [|done].
  apply (obeys_bind_call _ no_panic); [done|done|done| |done|done]. intros pending _.
  apply obeys_bind_lift; [|done|by destruct pending]. intros ctx Hctx. destruct pending as [c|]; [|done]. injection Hctx as ->.
  generalize (found_start st ctx). generalize ([] ++ [CReadPending st (Ok (Some ctx))]). intros pre Hf. cbv zeta.
  eapply obeys_bind_only; [apply calls_map_err, only_entry_for|by intros; eapply ctx_calls_allowed| |done]. intros found xs. grow Hf xs.
  apply obeys_bind_lift; [|done|by destruct found]. intros entry _.
  eapply obeys_bind_only; [apply calls_map_err, only_server|by intros; eapply ctx_calls_allowed| |done]. intros server xs. grow Hf xs.
  eapply (obeys_bind_only _ _ (ctx_call ctx)); [|by intros; eapply ctx_calls_allowed| |done].
  { case_bool_decide; [apply calls_map_err; by apply only_mcp_read|apply calls_ret]. }
  intros uc xs. grow Hf xs.
  eapply obeys_bind_only; [apply calls_map_err; eapply only_mono; [apply flow_ctx_call|apply flows_callback]
    |by intros; eapply ctx_calls_allowed| |done]. intros [] xs. grow Hf xs.
  apply (obeys_bind_call _ no_panic); [|done|intros r; exists ctx; by split_and!| |done|done].
  { intros n w. pose proof (trun_fine (mark_connected_tx (pc_server_id ctx) (pc_org_id ctx) (me_now env n)) (wd_tables w) (mark_fine _ _ _)).
    by destruct (trun _ _). }
  intros [] _. assert (marked ctx (pre ++ [CMarkConnected (pc_server_id ctx) (pc_org_id ctx) (Ok tt)])) as Hm.
  { apply elem_of_app. right. by apply list_elem_of_singleton. }
  apply (found_more _ _ [CMarkConnected (pc_server_id ctx) (pc_org_id ctx) (Ok tt)]) in Hf.
  revert Hf Hm. generalize (pre ++ [CMarkConnected (pc_server_id ctx) (pc_org_id ctx) (Ok tt)]). clear pre. intros pre Hf Hm.
  eapply (obeys_bind_only _ _ (late_call st ctx)); [|by intros; eapply late_calls_allowed| |done].
  { apply calls_local. intros _. right. intros pre' Hf' Hm'. by exists ctx. }
  intros [] xs. eapply (obeys_bind_only _ _ (late_call st ctx)); [apply only_after|by intros; eapply late_calls_allowed; [apply found_more|apply elem_of_app; left|]| |done].
  intros [] ys. apply obeys_ret. exists ctx. split_and!; [by do 2 apply found_more|by do 2 (apply elem_of_app; left)|done].
Qed.
End callback.
