(* ===== verification/McpDemo.v ===== *)
(** * Remote tools at work

    Concrete servers, an rmcp that follows its documented course, and what the code does
    with them: the witnesses of the theorems, and the surprises. *)

From Stdlib Require Import ZArith Lia Ascii String.
From stdpp Require Import base gmap list strings sets sorting relations.
From S2P Require Import Prelude Program Types Compaction Tools Responses Office Identity Signed ChatText McpStore McpRegistry McpOauth McpRefresh McpRoutes McpRouteLaws.

Module McpDemo.
#[local] Instance printer : UuidPrinter := λ n, lit "u" ++ show_Z (Z.of_N n).
#[local] Instance parser : UuidParser := λ _, None.
#[local] Instance macs : Macs := {| hmac_sha256 := λ _ m, m; sha256_of := λ m, m |}.
#[local] Instance base64 : Base64 := {| b64_encode := λ s, s; b64_decode := Some |}.
#[local] Instance names : HeaderNames := {| header_name_error := λ _, None; header_value_error := λ _, None |}.
(** Every server lists one tool, [search]. *)
#[local] Instance wire : McpWire := {|
  wire_initialize := λ _ _ _, Some (inr 7%N);
  wire_pages := λ _ _, [inr (mkPage [mkRemote (lit "search") None []] None)];
  wire_call := λ _ _ _ _, None |}.
(** A new client [c9] for a registration; the code is exchanged for the token [tok]. *)
#[local] Instance rmcp : Rmcp := {|
  rmcp_display := λ _, [];
  rmcp_new := λ _ _, Done (inr tt);
  rmcp_with_client := λ _, None;
  rmcp_discover := λ _ _, Done (inr (lit "meta"));
  rmcp_configure := λ _ _, None;
  rmcp_authorization_url := λ _ _ _,
    SaveState (lit "0123456789abcdef") (lit "0123456789abcdef0123456789abcdef") (λ _, Done (inr (lit "https://as/authorize")));
  rmcp_start_authorization := λ _ _ _ _,
    SaveState (lit "0123456789abcdef") (lit "0123456789abcdef0123456789abcdef")
      (λ _, Done (inr (Some (mkDcrSession (inr (lit "c9")) (lit "https://as/authorize")))));
  rmcp_handle_callback := λ _ _ _ _ st,
    LoadState st (λ found,
      match found with
      | inr (Some _) =>
          DeleteState st (λ _, SaveCredentials (mkStored (lit "c9") (Some (lit "tok")))
            (λ r, Done (match r with inl e => inl e | inr _ => inr tt end)))
      | _ => Done (inl (InternalError (lit "no state")))
      end);
  url_append_pairs := λ u _, Some u |}.

Definition env : McpEnv := mkMcpEnv calm (λ n, Z.of_nat n) (λ _, 20%N) (λ _, true).
Definition surfaces : ChatSurfaces := mkSurfaces true true true (λ _ _, None) (λ _ _ _, None) (λ _ _, true).
Definition cfg : OAuthConfig := mkOAuthConfig (lit "https://office") None.

Definition notion : McpCatalogEntry :=
  mkEntry (lit "notion") None (lit "Notion") (lit "Pages") None (Http (lit "https://notion")) OAuth2 None None SrcDcr None.
Definition docs : McpCatalogEntry :=
  mkEntry (lit "docs") None (lit "Docs") (lit "Pages") None (Http (lit "https://docs")) NoAuth None None SrcDcr None.
Definition custom : McpCatalogEntry :=
  mkEntry (lit "ours") (Some 1%N) (lit "Ours") (lit "Pages") None (Http (lit "https://ours")) OAuth2 None None SrcUserSupplied None.
Definition old_client : UserOAuthClient := mkUserClient (lit "old") None.
Definition catalog : list CatalogRow := [mkCatalogRow notion None; mkCatalogRow docs None; mkCatalogRow custom (Some old_client)].
Definition server (id : McpServerId) (org : OrgId) (entry url : string) (status : ConnectionStatus) : McpServerRecord :=
  mkServer id org (lit entry) true (Http (lit url)) None None None None 5 status 0 0.
Definition tables (servers : list McpServerRecord) (credentials : list CredentialRow) : mcp :=
  mkMcp catalog servers credentials [] [(5, 1); (5, 2)]%N.

Definition refreshed (w : mcp_world) : mcp_world := run_tables (refresh env ∅ (mkRun w [])).2.
Definition start (t : mcp) : mcp_world := mkWorld t McpState_default.

(** *** Two organisations *)

Definition own (id : McpServerId) : option (OrgId * str) :=
  if (id =? 11)%N then Some (1%N, lit "notion")
  else if (id =? 12)%N then Some (2%N, lit "notion")
  else if (id =? 20)%N then Some (1%N, lit "docs") else None.
Definition two : mcp := tables [server 11 1 "notion" "https://a" CsOk; server 12 2 "notion" "https://b" CsOk] [].
Definition both : mcp_world := refreshed (start two).
Definition all_of (entry : string) : AllowedMcpTools := [(lit entry, None)].
Definition seen (org : OrgId) (entry : string) (w : mcp_world) : list str :=
  spec_key <$> scoped_specs (wd_state w) (ScopedMcpSource_new (all_of entry) (catalog_to_server_for_org (wd_state w) org)).

(** The names are one for all organisations: the second to wire an entry gets none of its tools. *)
Lemma second_org_left_out :
  seen 1 "notion" both = [lit "mcp_notion_search"] ∧ seen 2 "notion" both = [].
Proof. vm_compute. repeat split. Qed.

Lemma two_ok : mcp_ok own two.
Proof.
  split.
  - apply (bool_decide_unpack _). vm_compute. exact I.
  - apply (bool_decide_unpack _). vm_compute. exact I.
  - intros org. etrans; [apply length_filter|]. apply Nat.leb_le. reflexivity.
  - intros k Hk. repeat (apply list_elem_of_cons in Hk as [->|Hk]; [done|]). set_solver.
  - intros k Hk. repeat (apply list_elem_of_cons in Hk as [->|Hk]; [done|]). set_solver.
  - apply NoDup_nil_2.
  - intros c Hc. set_solver.
  - apply NoDup_nil_2.
  - intros c Hc. set_solver.
Qed.
Lemma calm_world : Respects (world_ok own) (me_net env).
Proof. by intros n w. Qed.

Abbreviation reached := (mcp_reach own ∅ surfaces cfg [] [] []).
Lemma both_reached : reached both.
Proof. apply MrRefresh; [apply MrStart, two_ok|apply calm_world]. Defined.

Lemma mcp_reach_ok_witness : reached both ∧ mcp_ok own (wd_tables both).
Proof. split; [apply both_reached|]. apply (mcp_reach_ok own ∅ surfaces cfg [] [] [] both both_reached). Defined.

Definition found : McpTool * ToolOrigin :=
  (remote_tool (mkClient 7 (lit "https://a") (CustomHeaders ∅)) (mkToolName (lit "mcp_notion_search")) (mkRemote (lit "search") None []),
   mkOrigin 11 (lit "search")).
Lemma found_there :
  scoped_lookup (wd_state both) (ScopedMcpSource_new (all_of "notion") (catalog_to_server_for_org (wd_state both) 1))
    (lit "mcp_notion_search") = Some found.
Proof. vm_compute. reflexivity. Qed.
Lemma agent_tools_scoped_witness :
  ∃ catalog, tool_of own 1 catalog (lit "mcp_notion_search") found.1 found.2
    ∧ scope_allows (tools_for_catalog (all_of "notion") catalog) (lit "search").
Proof.
  apply (agent_tools_scoped own ∅ surfaces cfg [] [] [] both both 1%N (all_of "notion") (lit "mcp_notion_search") found.1 found.2).
  - apply both_reached.
  - apply both_reached.
  - apply NoDup_singleton.
  - apply found_there.
Defined.

(** *** The cap *)

(** 32 servers of the first organisation, and one of the second that comes after them. *)
Definition crowd : mcp :=
  tables (server 100 2 "z" "https://z" CsOk
          :: ((λ n, mkServer (N.of_nat n) 1 (lit "a" ++ show_Z (Z.of_nat n)) true (Http (lit "https://a")) None None None None 5 CsOk 0 0)
              <$> seq 1 32)) [].
(** Allowed when created, one is dropped by the refresh when others have 32. *)
Lemma cap_over_organisations :
  length (servers_of 2 crowd) = 1 ∧ size (catalog_to_server_for_org (wd_state (refreshed (start crowd))) 2) = 0
  ∧ size (catalog_to_server_for_org (wd_state (refreshed (start crowd))) 1) = 32.
Proof. vm_compute. repeat split. Qed.

(** *** Credentials *)

Definition secret : CredentialRow := mkCredentialRow 11 1 (PayStaticHeaders [(lit "authorization", lit "Bearer s")]).
Definition wired : mcp_world := refreshed (start (tables [server 11 1 "notion" "https://a" CsOk] [secret])).
Definition revoked : mcp_world :=
  refreshed (run_tables (delete_mcp_credentials env 5 1 11 (mkRun wired [])).2).
Definition sends (w : mcp_world) : list ClientAuth := (λ kv, cl_auth (mt_client kv.2)) <$> map_to_list (st_by_name (wd_state w)).
(** Credentials taken away are still sent: without any, the connection made with them is kept, refresh after refresh. *)
Lemma revoked_headers_stay :
  mc_credentials (wd_tables revoked) = [] ∧ sends revoked = sends wired
  ∧ sends revoked = [CustomHeaders {[lit "authorization" := lit "Bearer s"]}].
Proof. vm_compute. repeat split. Qed.

Definition authorized : mcp :=
  tables [server 11 1 "notion" "https://a" CsOk] [mkCredentialRow 11 1 (PayOauth2 (mkStored (lit "c1") (Some (lit "good"))))].
Definition reconnecting := start_oauth env ∅ cfg 5 1 11 (mkStartRequest None None None None) (mkRun (start authorized) []).
(** To start an authorization again, and leave it there, destroys the token that worked. *)
Lemma reconnect_destroys_token :
  reconnecting.1 = Ok (lit "https://as/authorize")
  ∧ mc_credentials (wd_tables (run_tables reconnecting.2)) = [mkCredentialRow 11 1 (PayOauth2 (mkStored (lit "c9") None))].
Proof. vm_compute. repeat split. Qed.

(** To disconnect leaves the server [ok]. *)
Lemma disconnected_is_ok :
  srv_connection_status <$> mc_servers (wd_tables (run_tables (disconnect_oauth env 5 1 11 (mkRun (start authorized) [])).2)) = [CsOk].
Proof. vm_compute. reflexivity. Qed.

(** *** Wiring *)

Definition installed := install_from_catalog env 1 5 (lit "docs") (mkRun (start (tables [] [])) []).
(** From a chat, an entry that needs no authorization is parked as if it did, and no refresh ever connects it. *)
Lemma installed_never_connects :
  srv_connection_status <$> mc_servers (wd_tables (run_tables installed.2)) = [CsAuthPending]
  ∧ list_enabled (wd_tables (run_tables installed.2)) = [].
Proof. vm_compute. repeat split. Qed.

Definition again : CreateMcpServerRequest :=
  mkCreateRequest (lit "ours") (Some (Http (lit "https://new"))) None None None None (Some (mkClientInput (Some (lit "new")) (Some (lit "sec")))).
Definition recreated := create_mcp_server env 5 1 again (mkRun (start (tables [] [])) []).
(** A connector created again, under the entry of the first: the new client is dropped without a word. *)
Lemma new_client_dropped :
  (srv_config <$> mc_servers (wd_tables (run_tables recreated.2))) = [Http (lit "https://new")]
  ∧ oauth_client 1 (lit "ours") (wd_tables (run_tables recreated.2)) = Some old_client.
Proof. vm_compute. repeat split. Qed.

(** A connector of the organisation's own client cannot be connected from a chat. *)
Lemma chat_has_no_client :
  (connect_start_oauth env ∅ cfg (mkPendingCtx 11 5 1 None None None None None 600)
     (mkRun (start (tables [server 11 1 "ours" "https://ours" CsAuthPending] [])) [])).1
  = Err "Couldn't start the OAuth flow."%string.
Proof. vm_compute. reflexivity. Qed.

(** A long complaint of a server is recorded nowhere. *)
Lemma long_error_dropped :
  let t := tables [server 11 1 "notion" "https://a" CsOk] [] in
  (report env 11 1 (lit "connect: " ++ repeat 0x78%N 1024) (mkRun (start t) [])).1 = Ok tt
  ∧ wd_tables (run_tables (report env 11 1 (lit "connect: " ++ repeat 0x78%N 1024) (mkRun (start t) [])).2) = t.
Proof. vm_compute. repeat split. Qed.

(** Remote names: one with a full stop has no name here, and the empty one passes as far as it should not. *)
Lemma names_that_fail :
  is_ok (prefixed_name (lit "github") (lit "issues.create")) = false
  ∧ is_ok (prefixed_name (lit "github") []) = true ∧ is_ok (McpToolRemoteName_try_from []) = false.
Proof. vm_compute. repeat split. Qed.

(** *** The whole flow *)

Definition started :=
  start_oauth env ∅ cfg 5 1 11 (mkStartRequest (Some (lit "/connections")) None (Some 77%N) (Some 9%N))
    (mkRun (start (tables [server 11 1 "notion" "https://a" CsAuthPending] [])) []).
Definition query : OAuthCallbackQuery := mkCallbackQuery (Some (lit "code")) (Some (lit "0123456789abcdef")) None.
Definition returned := handle_oauth_callback env ∅ surfaces cfg query (mkRun (run_tables started.2) []).
Definition submitted {A} (r : A * run_state mcp_world McpCall) : list (ThreadId * str) :=
  omap (λ v, match v with CSubmit p => Some (sm_thread_id p, Prompt_as_str (sm_content p)) | _ => None end) (run_trace r.2).
(** Once: the token is kept, the server is [ok], the thread goes on; a second time the state is unknown. *)
Lemma round_trip :
  started.1 = Ok (lit "https://as/authorize")
  ∧ returned.1 = Ok (lit "/connections?status=ok")
  ∧ mc_credentials (wd_tables (run_tables returned.2)) = [mkCredentialRow 11 1 (PayOauth2 (mkStored (lit "c9") (Some (lit "tok"))))]
  ∧ srv_connection_status <$> mc_servers (wd_tables (run_tables returned.2)) = [CsOk]
  ∧ submitted returned = [(77%N, lit "I've connected Notion. Please continue.")]
  ∧ (handle_oauth_callback env ∅ surfaces cfg query (mkRun (run_tables returned.2) [])).1
    = Ok (lit "/?status=failed&reason=unknown_or_expired_state").
Proof. vm_compute. repeat split. Qed.

Lemma callback_confined_witness :
  obeys (callback_allowed (lit "0123456789abcdef")) [] (callback_flow env ∅ surfaces cfg query) (λ r vs,
    match r with
    | Ok back => ∃ ctx, found_ctx (lit "0123456789abcdef") vs ctx ∧ marked ctx vs ∧ back = pc_redirect_to ctx
    | Err _ => True
    | Panic _ => False
    end).
Proof. apply (callback_confined env ∅ surfaces cfg query (lit "0123456789abcdef")); [reflexivity|reflexivity|discriminate]. Defined.

(** *** Pages *)

(** Two calls of one instant at the edge of a page: the cursor passes over the second. *)
Lemma page_edge_skips :
  tool_calls_page (Some 1) None [9; 9; 8]%Z = ([9], Some 9)%Z
  ∧ tool_calls_page (Some 1) (Some 9%Z) [9; 9; 8]%Z = ([8%Z], None).
Proof. split; reflexivity. Qed.
End McpDemo.
