(* ===== verification/Submit.v ===== *)
(** * Prompts

    [http/routes/prompts.rs]: a person's message posted into a thread, with the agents
    it wakes, and the cancellation of a request.  The handler reads the retry of its
    key, the sender and the tags, passes the gate of the billing, finds or makes the
    thread, posts the row and enqueues a trigger for each agent. *)

From Stdlib Require Import ZArith Lia String.
From stdpp Require Import base gmap list strings sets relations.
From S2P Require Import Prelude Program Types Queue Threads Colleagues Billing Office ChatText ChatPost.

Definition MAX_TAGS_PER_MESSAGE : nat := 8.
Definition MAX_ATTACHMENTS_PER_MESSAGE : nat := 8.

Inductive TagTarget := TagAgent (agent : AgentId) | TagHuman (user : UserId).
#[export] Instance TagTarget_eq_dec : EqDecision TagTarget.
Proof. solve_decision. Defined.

Record SubmitPromptParams := mkSubmitParams {
  sm_user_id : UserId; sm_org_id : OrgId; sm_thread_id : option ThreadId; sm_tags : list TagTarget;
  sm_content : option Prompt; sm_attachments : list Attachment; sm_idempotency_key : IdempotencyKey;
  sm_channel_id : option ChannelId; sm_counterpart : option TagTarget }.
Record SubmitOutcome := mkOutcome {
  su_request_id : option PromptRequestId; su_thread_id : ThreadId; su_status : option RequestStatus;
  su_triggered_agent_ids : list AgentId; su_existed : bool }.
Record ResolvedTag := mkTag { tg_colleague : ColleagueId; tg_agent : option AgentId }.

Inductive SubmitError :=
| SuBadRequest (msg : str)
| SuNotFound
| SuForbidden (code : string)
| SuInternal
| SuAssetStorageMissing
| SuAuth (msg : str)
| SuColleague (e : ColleagueError)
| SuBilling (e : BillingError)
| SuPrompt (e : PromptError).

(** The text, then a block for each attachment. *)
Definition user_content (content : option Prompt) (attachments : list Attachment) : res SubmitError (list UserContent) :=
  let out := match content with Some c => [UText (Prompt_as_str c)] | None => [] end ++ (UserContent_from <$> attachments) in
  rassert (negb (is_empty out)) "invariant: handler requires text or attachments" ;;? Ok out.

(** [format!("{key}:{agent}")] *)
Definition agent_key_text `{UuidPrinter} (key : IdempotencyKey) (agent : AgentId) : str :=
  IdempotencyKey_as_str key ++ lit ":" ++ uuid_to_string agent.
Definition per_agent_key `{UuidPrinter} (key : IdempotencyKey) (agent : AgentId) : res SubmitError IdempotencyKey :=
  res_map_err (λ e, SuBadRequest (lit "idempotency_key too long for tags: " ++ ParseError_to_string e))
    (IdempotencyKey_try_from (agent_key_text key agent)).

(** ** The stores *)

Record ChannelInfo := mkChannelInfo { ci_org_id : OrgId; ci_archived : bool }.
(** The office, the tables of the billing and the channels. *)
Record front := mkFront { fo_office : office; fo_billing : bdb; fo_channels : gmap ChannelId ChannelInfo }.
Definition with_office (o : office) (w : front) : front := mkFront o (fo_billing w) (fo_channels w).

(** [dm_counterpart], privileged. *)
Definition dm_counterpart (thread : ThreadId) (s : store) : res ThreadError (option ColleagueId) :=
  t <-? ok_or (threads s !! thread) (ThreadNotFound thread) ; Ok (th_dm_counterpart t).
(** [visible_to] of the thread store. *)
Definition thread_visible_to (caller : Caller) (thread : ThreadId) (w : front) : bool :=
  match visible_thread (of_store (fo_office w)) (user_id caller) thread with
  | Some t =>
      bool_decide (th_org_id t = org_id caller)
      && match th_channel_id t with
         | None => dm_visible_to (of_dir (fo_office w)) t (user_id caller)
         | Some channel =>
             in_channel (of_dir (fo_office w)) channel (user_id caller)
             && match fo_channels w !! channel with Some c => negb (ci_archived c) | None => false end
         end
  | None => false
  end.
Definition channel_member (user : UserId) (org : OrgId) (channel : ChannelId) (w : front) : bool :=
  sees (fo_office w) user org
  && match fo_channels w !! channel with
     | Some c => bool_decide (ci_org_id c = org) && negb (ci_archived c)
     | None => false
     end
  && in_channel (of_dir (fo_office w)) channel user.
(** The posted row of a key, where the person may look. *)
Definition posted_under (user : UserId) (org : OrgId) (key : IdempotencyKey) (s : store)
    : option (ThreadId * ThreadMessageId) :=
  (λ r, (fr_thread_id r, fr_id r))
    <$> List.find (λ r, same_key org (Some (IdempotencyKey_as_str key)) r && member s user (fr_org_id r)) (thread_messages s).
(** [auth::visible_to] of a request. *)
Definition request_visible (user : UserId) (org : OrgId) (id : PromptRequestId) (o : office) : bool :=
  existsb (λ r, bool_decide (pr_id r = id) && bool_decide (pr_org_id r = org)) (prompt_requests (of_queue o)) && sees o user org.

Inductive scall :=
| SFindPost (user : UserId) (org : OrgId) (key : IdempotencyKey) (r : res SubmitError (option (ThreadId * ThreadMessageId)))
| SResolveUser (org : OrgId) (user : UserId) (r : res SubmitError ColleagueId)
| SResolveAgent (org : OrgId) (agent : AgentId) (r : res SubmitError ColleagueId)
| SReadColleague (id : ColleagueId) (r : res SubmitError ResolvedColleague)
| SDmCounterpart (thread : ThreadId) (r : res ThreadError (option ColleagueId))
| SGate (user : UserId) (org : OrgId) (r : res SubmitError unit)
| SVisible (caller : Caller) (thread : ThreadId) (r : res SubmitError bool)
| SChannelMember (user : UserId) (org : OrgId) (channel : ChannelId) (r : res SubmitError bool)
| SCreateThread (caller : Caller) (channel : option ChannelId) (by_ : ColleagueId) (dm : option ColleagueId)
    (r : res SubmitError ThreadId)
| SAppend (caller : Caller) (thread : ThreadId) (m : NewMessage) (r : res SubmitError ThreadMessageId)
| SParticipation (caller : Caller) (thread : ThreadId) (agent : AgentId) (r : res SubmitError AgentThreadId)
| SEnqueue (trig : NewTrigger) (r : res SubmitError PromptRequestId)
| SRequestVisible (user : UserId) (org : OrgId) (id : PromptRequestId) (r : res SubmitError bool)
| SCancel (id : PromptRequestId) (r : res SubmitError unit).

(** The foreign keys, clocks and fresh ids of each moment, and the day of the gate. *)
Record SubmitEnv := mkSubmitEnv {
  sv_net : Net front; sv_now : nat → Z; sv_fresh : nat → N; sv_fk : nat → bool;
  sv_fk_request : nat → PromptRequest → bool; sv_traceparent : option str; sv_today : nat → NaiveDate }.
Abbreviation SP := (Prog front scall SubmitError).

Section submit.
Context `{UuidPrinter, Entitlements} (env : SubmitEnv).

Definition submit_read {A} (ev : res SubmitError A → scall) (f : nat → front → res SubmitError A) : SP A :=
  pcall (sv_net env) ev SuAuth (λ n w, (f n w, w)).
(** [thread_err]: whatever the thread store says is internal. *)
Definition thread_err {E} (_ : E) : SubmitError := SuInternal.
Definition store_step {A} (ev : res SubmitError A → scall) (f : nat → store → res ThreadError A * store) : SP A :=
  pcall (sv_net env) ev (λ _, SuInternal)
    (λ n w, let '(r, s) := f n (of_store (fo_office w)) in
            (res_map_err thread_err r, with_office (with_store s (fo_office w)) w)).
Definition queue_step {A} (ev : res SubmitError A → scall) (f : nat → db → res PromptError A * db) : SP A :=
  pcall (sv_net env) ev (λ m, SuPrompt (Db (ascii m)))
    (λ n w, let '(r, d) := f n (queue_view (fo_office w)) in
            (res_map_err SuPrompt r, with_office (with_queue d (fo_office w)) w)).

Definition find_existing_post (user : UserId) (org : OrgId) (key : IdempotencyKey)
    : SP (option (ThreadId * ThreadMessageId)) :=
  submit_read (SFindPost user org key) (λ _ w, Ok (posted_under user org key (of_store (fo_office w)))).
Definition ensure_channel_member (user : UserId) (org : OrgId) (channel : ChannelId) : SP unit :=
  allowed <-% submit_read (SChannelMember user org channel) (λ _ w, Ok (channel_member user org channel w)) ;
  if allowed : bool then pret tt else perr (SuForbidden "channel.not_member").

Definition resolve_user (org : OrgId) (user : UserId) : SP ColleagueId :=
  submit_read (SResolveUser org user) (λ _ w, res_map_err SuColleague (resolve_user_row (of_dir (fo_office w)) org user)).
Definition resolve_agent (org : OrgId) (agent : AgentId) : SP ColleagueId :=
  submit_read (SResolveAgent org agent) (λ _ w, res_map_err SuColleague (resolve_agent_row (of_dir (fo_office w)) org agent)).
Definition resolve_target_colleague (org : OrgId) (target : TagTarget) : SP ResolvedTag :=
  match target with
  | TagAgent agent =>
      colleague <-% pmap_err (λ _, SuBadRequest (lit "unknown agent tag " ++ uuid_to_string agent)) (resolve_agent org agent) ;
      pret (mkTag colleague (Some agent))
  | TagHuman user =>
      colleague <-% pmap_err (λ _, SuBadRequest (lit "unknown human tag " ++ uuid_to_string user)) (resolve_user org user) ;
      pret (mkTag colleague None)
  end.
Fixpoint resolve_tag_loop (org : OrgId) (tags : list TagTarget) : SP (list ResolvedTag) :=
  match tags with
  | [] => pret []
  | tag :: tags =>
      t <-% resolve_target_colleague org tag ;
      out <-% resolve_tag_loop org tags ;
      pret (t :: out)
  end.
Definition resolve_tags (org : OrgId) (tags : list TagTarget) : SP (list ResolvedTag) :=
  plift (rassert (length tags <=? MAX_TAGS_PER_MESSAGE) "invariant: capped above") ;;%
  resolve_tag_loop org tags.

(** The agent at the other end of a direct message. *)
Definition implicit_dm_receiver (org : OrgId) (p : SubmitPromptParams) (existing : option (ThreadId * ThreadMessageId))
    : SP (option ResolvedTag) :=
  match (match existing with Some (t, _) => Some t | None => sm_thread_id p end) with
  | None =>
      match sm_counterpart p, sm_channel_id p with
      | Some (TagAgent a), None => t <-% resolve_target_colleague org (TagAgent a) ; pret (Some t)
      | _, _ => pret None
      end
  | Some thread =>
      counterpart <-% pcatch (pcall (sv_net env) (SDmCounterpart thread) (λ m, ThreadDb (ascii m))
                                (λ _ w, (dm_counterpart thread (of_store (fo_office w)), w))) ;
      counterpart <-% (match counterpart with
                       | inr c => pret c
                       | inl (ThreadNotFound _) => pret None
                       | inl e => perr (thread_err e)
                       end) ;
      match counterpart with
      | None => pret None
      | Some counterpart =>
          colleague <-% submit_read (SReadColleague counterpart)
                          (λ _ w, res_map_err SuColleague (read_colleague (of_dir (fo_office w)) counterpart)) ;
          pret ((λ agent, mkTag counterpart (Some agent)) <$> rcol_agent_id colleague)
      end
  end.

Definition check_or_fail_for_user (user : UserId) (org : OrgId) : SP unit :=
  submit_read (SGate user org) (λ n w,
    res_map_err SuBilling (Billing.check_or_fail_for_user (sees (fo_office w) user) org (sv_today env n) (fo_billing w))).

Definition create_thread (caller : Caller) (channel : option ChannelId) (by_ : ColleagueId) (dm : option ColleagueId)
    : SP ThreadId :=
  store_step (SCreateThread caller channel by_ dm)
    (λ n, Threads.create_thread (sv_fk env n) caller channel None by_ dm (sv_fresh env n) (sv_now env n)).
Definition resolve_thread (caller : Caller) (p : SubmitPromptParams) (sender : ColleagueId) : SP ThreadId :=
  match sm_thread_id p, sm_channel_id p with
  | Some thread, _ =>
      visible <-% submit_read (SVisible caller thread) (λ _ w, Ok (thread_visible_to caller thread w)) ;
      if visible : bool then pret thread else perr SuNotFound
  | None, Some channel =>
      ensure_channel_member (user_id caller) (org_id caller) channel ;;%
      create_thread caller (Some channel) sender None
  | None, None =>
      target <-% plift (ok_or (sm_counterpart p) (SuBadRequest (lit "a direct message requires a counterpart"))) ;
      counterpart <-% resolve_target_colleague (org_id caller) target ;
      create_thread caller None sender (Some (tg_colleague counterpart))
  end.

Definition participate (caller : Caller) (thread : ThreadId) (agent : AgentId) : SP AgentThreadId :=
  store_step (SParticipation caller thread agent)
    (λ n, resolve_participation caller thread agent (sv_fresh env n) (sv_now env n)).
Definition enqueue_trigger (trig : NewTrigger) : SP PromptRequestId :=
  queue_step (SEnqueue trig)
    (λ n, enqueue_trigger_impl (sv_fk_request env n) (sv_fresh env n) (sv_now env n) (sv_traceparent env) trig).
Definition submit_trigger (p : SubmitPromptParams) (sender : ColleagueId) (thread : ThreadId) (message : ThreadMessageId)
    (agent : AgentId) (state : AgentThreadId) (key : IdempotencyKey) : NewTrigger :=
  mkNewTrigger (sm_org_id p) (sm_user_id p) (Some thread) (Some state) None sender agent None (Some message) key PNormal.
Fixpoint trigger_loop (caller : Caller) (p : SubmitPromptParams) (sender : ColleagueId) (thread : ThreadId)
    (message : ThreadMessageId) (agents : list AgentId) : SP (list PromptRequestId) :=
  match agents with
  | [] => pret []
  | agent :: agents =>
      state <-% participate caller thread agent ;
      key <-% plift (per_agent_key (sm_idempotency_key p) agent) ;
      id <-% enqueue_trigger (submit_trigger p sender thread message agent state key) ;
      ids <-% trigger_loop caller p sender thread message agents ;
      pret (id :: ids)
  end.
Definition enqueue_tag_triggers (caller : Caller) (p : SubmitPromptParams) (sender : ColleagueId) (thread : ThreadId)
    (message : ThreadMessageId) (agents : list AgentId) : SP (list PromptRequestId) :=
  plift (rassert (length agents <=? MAX_TAGS_PER_MESSAGE + 1)
           "invariant: explicit tags are capped; at most one implicit receiver joins") ;;%
  trigger_loop caller p sender thread message agents.

(** The row a submit posts. *)
Definition posted_row (p : SubmitPromptParams) (sender : ColleagueId) (receiver : option ColleagueId) (body : list UserContent)
    : NewMessage :=
  mkNewMessage KPosted (Some sender) None receiver (User body) None (Some (sm_idempotency_key p)).
Definition post_message (caller : Caller) (p : SubmitPromptParams) (sender : ColleagueId) (tags : list ResolvedTag)
    : SP (ThreadId * ThreadMessageId) :=
  thread <-% resolve_thread caller p sender ;
  body <-% plift (user_content (sm_content p) (sm_attachments p)) ;
  message <-% (let row := posted_row p sender (tg_colleague <$> head tags) body in
               store_step (SAppend caller thread row)
                 (λ n, append (sv_fk env n) caller thread row (sv_fresh env n) (sv_now env n))) ;
  pret (thread, message).

(** The three reads of the start run at once; here one after the other: they change
    nothing, and others may act between them. *)
Definition submit_internal (p : SubmitPromptParams) : SP SubmitOutcome :=
  plift (rassert (length (sm_tags p) <=? MAX_TAGS_PER_MESSAGE) "invariant: handler caps tags before submit_internal") ;;%
  plift (rassert (length (sm_attachments p) <=? MAX_ATTACHMENTS_PER_MESSAGE)
           "invariant: handler caps attachments before submit_internal") ;;%
  let caller := mkCaller (sm_user_id p) (sm_org_id p) in
  existing <-% find_existing_post (sm_user_id p) (sm_org_id p) (sm_idempotency_key p) ;
  sender <-% resolve_user (sm_org_id p) (sm_user_id p) ;
  tags <-% resolve_tags (sm_org_id p) (sm_tags p) ;
  tags <-% (if is_empty (omap tg_agent tags)
            then implicit <-% implicit_dm_receiver (sm_org_id p) p existing ;
                 pret (tags ++ match implicit with Some t => [t] | None => [] end)
            else pret tags) ;
  let agents := omap tg_agent tags in
  (if is_empty agents then pret tt else check_or_fail_for_user (sm_user_id p) (sm_org_id p)) ;;%
  at_ <-% (match existing with Some found => pret found | None => post_message caller p sender tags end) ;
  let existed := bool_decide (is_Some existing) in
  if is_empty agents then pret (mkOutcome None at_.1 None [] existed)
  else
    ids <-% enqueue_tag_triggers caller p sender at_.1 at_.2 agents ;
    pret (mkOutcome (head ids) at_.1 (Some Pending) agents existed).

(** ** The handlers *)

Record SubmitPromptRequest := mkSubmitRequest {
  rq_thread_id : option ThreadId; rq_tags : list TagTarget; rq_channel_id : option ChannelId;
  rq_counterpart : option TagTarget; rq_content : str; rq_attachments : list RawAttachment; rq_idempotency_key : str }.

Definition bad_request {A} (r : res ParseError A) : res SubmitError A :=
  res_map_err (λ e, SuBadRequest (ParseError_to_string e)) r.
Fixpoint parse_attachments (AssetUrl_try_from : str → res ParseError str) (raws : list RawAttachment)
    : res ParseError (list Attachment) :=
  match raws with
  | [] => Ok []
  | raw :: raws =>
      a <-? Attachment_try_from AssetUrl_try_from raw ;
      rest <-? parse_attachments AssetUrl_try_from raws ;
      Ok (a :: rest)
  end.
Definition too_many (what : string) (max got : nat) : SubmitError :=
  SuBadRequest (lit "too many " ++ lit what ++ lit ": max " ++ show_Z (Z.of_nat max) ++ lit ", got " ++ show_Z (Z.of_nat got)).

(** [public_host]: the origin of the asset store, where there is one. *)
Definition asset_guard (public_host : option str) (attachments : list Attachment) : res SubmitError unit :=
  if is_empty attachments then Ok tt
  else
    host <-? ok_or public_host SuAssetStorageMissing ;
    if forallb (λ a, starts_with (host ++ lit "/") (att_url a)) attachments then Ok tt
    else Err (SuBadRequest (lit "attachment url is not from the asset store")).

Definition parse_submit (AssetUrl_try_from : str → res ParseError str) (public_host : option str) (user : UserId) (org : OrgId)
    (rq : SubmitPromptRequest) : res SubmitError SubmitPromptParams :=
  key <-? bad_request (IdempotencyKey_try_from (rq_idempotency_key rq)) ;
  (if MAX_TAGS_PER_MESSAGE <? length (rq_tags rq)
   then Err (too_many "tags" MAX_TAGS_PER_MESSAGE (length (rq_tags rq))) else Ok tt) ;;?
  (if MAX_ATTACHMENTS_PER_MESSAGE <? length (rq_attachments rq)
   then Err (too_many "attachments" MAX_ATTACHMENTS_PER_MESSAGE (length (rq_attachments rq))) else Ok tt) ;;?
  attachments <-? bad_request (parse_attachments AssetUrl_try_from (rq_attachments rq)) ;
  asset_guard public_host attachments ;;?
  content <-? (if is_empty (trim (rq_content rq)) && negb (is_empty attachments) then Ok None
               else c <-? bad_request (Prompt_try_from (rq_content rq)) ; Ok (Some c)) ;
  Ok (mkSubmitParams user org (rq_thread_id rq) (rq_tags rq) content attachments key (rq_channel_id rq) (rq_counterpart rq)).

(** [true]: 200, the row existed; [false]: 202. *)
Definition submit_prompt (AssetUrl_try_from : str → res ParseError str) (public_host : option str) (user : UserId) (org : OrgId)
    (rq : SubmitPromptRequest) : SP (bool * SubmitOutcome) :=
  p <-% plift (parse_submit AssetUrl_try_from public_host user org rq) ;
  outcome <-% submit_internal p ;
  pret (su_existed outcome, outcome).

Definition cancel_request (user : UserId) (org : OrgId) (id : PromptRequestId) : SP unit :=
  visible <-% submit_read (SRequestVisible user org id) (λ _ w, Ok (request_visible user org id (fo_office w))) ;
  if negb (visible : bool) then perr SuNotFound
  else queue_step (SCancel id) (λ n, request_cancellation id (sv_now env n)).
End submit.
