(* ===== verification/SubmitLaws.v ===== *)
(** * What submitting a prompt promises

    The trace of a submit says what it may write: nothing before the gate when it wakes
    an agent, one thread and one row at most, in a thread the sender may see, and a
    trigger for each agent that is addressed.  It keeps the office well formed; and
    done again under the same key it answers the same and changes nothing. *)

From Stdlib Require Import ZArith Lia Ascii String.
From stdpp Require Import base gmap list strings sets relations.
From S2P Require Import Prelude Program Types Queue QueueSafety Threads ThreadLaws Colleagues Billing BillingLaws Office OfficeLaws ChatText ChatPost Submit.

Section protocol.
Context `{UuidPrinter} (p : SubmitPromptParams).

Definition the_sender : Caller := mkCaller (sm_user_id p) (sm_org_id p).

(** [target] was resolved to [tag]. *)
Definition resolved (pre : list scall) (target : TagTarget) (tag : ResolvedTag) : Prop :=
  match target with
  | TagAgent a => tg_agent tag = Some a ∧ SResolveAgent (sm_org_id p) a (Ok (tg_colleague tag)) ∈ pre
  | TagHuman u => tg_agent tag = None ∧ SResolveUser (sm_org_id p) u (Ok (tg_colleague tag)) ∈ pre
  end.

Definition found (pre : list scall) (f : option (ThreadId * ThreadMessageId)) : Prop :=
  SFindPost (sm_user_id p) (sm_org_id p) (sm_idempotency_key p) (Ok f) ∈ pre.

(** The agent at the other end, when the message is one of a direct conversation. *)
Definition other_end (pre : list scall) (f : option (ThreadId * ThreadMessageId)) (tag : option ResolvedTag) : Prop :=
  match (match f with Some (t, _) => Some t | None => sm_thread_id p end) with
  | None =>
      match sm_counterpart p, sm_channel_id p with
      | Some (TagAgent a), None => ∃ t, tag = Some t ∧ resolved pre (TagAgent a) t
      | _, _ => tag = None
      end
  | Some thread =>
      (tag = None ∧ (SDmCounterpart thread (Ok None) ∈ pre ∨ ∃ t, SDmCounterpart thread (Err (ThreadNotFound t)) ∈ pre))
      ∨ ∃ c col, SDmCounterpart thread (Ok (Some c)) ∈ pre ∧ SReadColleague c (Ok col) ∈ pre
          ∧ tag = (λ a, mkTag c (Some a)) <$> rcol_agent_id col
  end.

(** Whom the message addresses: the tags, and the other end where no agent is tagged. *)
Definition addresses (pre : list scall) (f : option (ThreadId * ThreadMessageId)) (tags : list ResolvedTag) : Prop :=
  ∃ explicit, Forall2 (resolved pre) (sm_tags p) explicit ∧
    if is_empty (omap tg_agent explicit)
    then ∃ implicit, other_end pre f implicit ∧ tags = explicit ++ match implicit with Some t => [t] | None => [] end
    else tags = explicit.

(** A message that wakes an agent passed the gate. *)
Definition admitted (pre : list scall) (tags : list ResolvedTag) : Prop :=
  omap tg_agent tags = [] ∨ SGate (sm_user_id p) (sm_org_id p) (Ok tt) ∈ pre.

Definition is_write (c : scall) : bool :=
  match c with SCreateThread _ _ _ _ _ | SAppend _ _ _ _ | SEnqueue _ _ => true | _ => false end.
Definition written (vs : list scall) : list scall := picked is_write vs.

(** [thread] may be posted into, after [made] was written. *)
Definition open_to (pre : list scall) (sender : ColleagueId) (made : list scall) (thread : ThreadId) : Prop :=
  match sm_thread_id p, sm_channel_id p with
  | Some t, _ => thread = t ∧ made = [] ∧ SVisible the_sender t (Ok true) ∈ pre
  | None, Some channel =>
      SChannelMember (sm_user_id p) (sm_org_id p) channel (Ok true) ∈ pre
      ∧ made = [SCreateThread the_sender (Some channel) sender None (Ok thread)]
  | None, None => ∃ target tag, sm_counterpart p = Some target ∧ resolved pre target tag
      ∧ made = [SCreateThread the_sender None sender (Some (tg_colleague tag)) (Ok thread)]
  end.

Definition the_row (sender : ColleagueId) (tags : list ResolvedTag) (m : NewMessage) : Prop :=
  ∃ body, user_content (sm_content p) (sm_attachments p) = Ok body
    ∧ m = posted_row p sender (tg_colleague <$> head tags) body.

(** The row is in the feed, after [made] was written. *)
Definition landed (pre : list scall) (f : option (ThreadId * ThreadMessageId)) (sender : ColleagueId)
    (tags : list ResolvedTag) (made : list scall) (thread : ThreadId) (message : ThreadMessageId) : Prop :=
  match f with
  | Some at_ => at_ = (thread, message) ∧ made = []
  | None => ∃ created m, open_to pre sender created thread ∧ the_row sender tags m
      ∧ made = created ++ [SAppend the_sender thread m (Ok message)]
  end.

(** [trig] wakes [agent] in its place in the thread, on the row, under its own key. *)
Definition wakes (pre : list scall) (sender : ColleagueId) (thread : ThreadId) (message : ThreadMessageId)
    (agent : AgentId) (trig : NewTrigger) : Prop :=
  ∃ state key, SParticipation the_sender thread agent (Ok state) ∈ pre
    ∧ per_agent_key (sm_idempotency_key p) agent = Ok key
    ∧ trig = submit_trigger p sender thread message agent state key.

(** The agents of [agents] are woken, in order, with requests [ids]. *)
Definition woken (pre : list scall) sender thread message (agents : list AgentId) (es : list scall)
    (ids : list PromptRequestId) : Prop :=
  ∃ trigs, Forall2 (wakes pre sender thread message) agents trigs ∧ length ids = length trigs
    ∧ es = zip_with (λ trig id, SEnqueue trig (Ok id)) trigs ids.

(** What a submit knows before it writes. *)
Definition known (pre : list scall) (f : option (ThreadId * ThreadMessageId)) (sender : ColleagueId)
    (tags : list ResolvedTag) : Prop :=
  found pre f ∧ SResolveUser (sm_org_id p) (sm_user_id p) (Ok sender) ∈ pre ∧ addresses pre f tags ∧ admitted pre tags.

(** What a submit may call after [pre]. *)
Definition submit_allowed (pre : list scall) (c : scall) : Prop :=
  match c with
  | SCreateThread caller channel by_ dm _ =>
      caller = the_sender ∧ written pre = [] ∧ sm_thread_id p = None ∧ (∃ tags, known pre None by_ tags) ∧
      match channel, dm with
      | Some ch, None => sm_channel_id p = Some ch ∧ SChannelMember (sm_user_id p) (sm_org_id p) ch (Ok true) ∈ pre
      | None, Some c => sm_channel_id p = None ∧ ∃ target tag, sm_counterpart p = Some target
          ∧ resolved pre target tag ∧ c = tg_colleague tag
      | _, _ => False
      end
  | SAppend caller thread m _ =>
      caller = the_sender ∧ ∃ sender tags, known pre None sender tags ∧ open_to pre sender (written pre) thread
        ∧ the_row sender tags m
  | SParticipation caller thread agent _ =>
      caller = the_sender ∧ ∃ f sender tags made message agents es ids, known pre f sender tags
        ∧ landed pre f sender tags made thread message ∧ woken pre sender thread message agents es ids
        ∧ written pre = made ++ es ∧ agents ++ [agent] `prefix_of` omap tg_agent tags
  | SEnqueue trig _ =>
      ∃ f sender tags made thread message agents es ids agent, known pre f sender tags
        ∧ landed pre f sender tags made thread message ∧ woken pre sender thread message agents es ids
        ∧ written pre = made ++ es ∧ agents ++ [agent] `prefix_of` omap tg_agent tags
        ∧ wakes pre sender thread message agent trig
  | SGate user org _ => user = sm_user_id p ∧ org = sm_org_id p
  | SCancel _ _ | SRequestVisible _ _ _ _ => False
  | _ => True
  end.

(** A submit that answers wrote the row, or found it, and woke whom it addresses. *)
Definition submitted (pre : list scall) (out : SubmitOutcome) : Prop :=
  ∃ f sender tags made message es ids, known pre f sender tags
    ∧ landed pre f sender tags made (su_thread_id out) message
    ∧ woken pre sender (su_thread_id out) message (omap tg_agent tags) es ids
    ∧ written pre = made ++ es
    ∧ out = mkOutcome (head ids) (su_thread_id out) (if is_empty ids then None else Some Pending)
              (omap tg_agent tags) (bool_decide (is_Some f)).

(** *** The facts only grow *)

Definition kept (F : list scall → Prop) : Prop := ∀ xs ys, F xs → F (xs ++ ys).

Lemma kept_in v : kept (λ pre, v ∈ pre).
Proof. intros xs ys Hv. apply elem_of_app. by left. Qed.
Lemma kept_resolved target tag : kept (λ pre, resolved pre target tag).
Proof. intros xs ys. destruct target; intros [? ?]; (split; [done|by apply kept_in]). Qed.
Lemma kept_other_end f tag : kept (λ pre, other_end pre f tag).
Proof.
  intros xs ys. unfold other_end. destruct (match f with Some (t, _) => Some t | None => sm_thread_id p end) as [t|].
  - intros [[-> [Hd|(t' & Hd)]]|(c & col & Hd & Hr & ->)].
    + left. split; [done|]. left. by apply kept_in.
    + left. split; [done|]. right. exists t'. by apply kept_in.
    + right. exists c, col. split_and!; [by apply kept_in..|done].
  - destruct (sm_counterpart p) as [[a|u]|], (sm_channel_id p); try done.
    intros (tag' & -> & Ht). exists tag'. by split; [|apply (kept_resolved (TagAgent a))].
Qed.
Lemma kept_addresses f tags : kept (λ pre, addresses pre f tags).
Proof.
  intros xs ys (explicit & He & Hi). exists explicit. split.
  - eapply Forall2_impl; [exact He|]. intros target tag. apply kept_resolved.
  - destruct (is_empty _); [|done]. destruct Hi as (i & Hi & Ht). exists i. split; [|done]. by apply kept_other_end.
Qed.
Lemma kept_known f sender tags : kept (λ pre, known pre f sender tags).
Proof.
  intros xs ys (? & ? & ? & Ha). split_and!; [by apply kept_in..|by apply kept_addresses|].
  destruct Ha; [by left|right; by apply kept_in].
Qed.
Lemma kept_open sender made thread : kept (λ pre, open_to pre sender made thread).
Proof.
  intros xs ys. unfold open_to. destruct (sm_thread_id p); [|destruct (sm_channel_id p)].
  - intros (? & ? & ?). split_and!; [done..|by apply kept_in].
  - intros (? & ?). split; [by apply kept_in|done].
  - intros (target & tag & ? & ? & ?). exists target, tag. split_and!; [done|by apply kept_resolved|done].
Qed.
Lemma kept_landed f sender tags made thread message : kept (λ pre, landed pre f sender tags made thread message).
Proof.
  intros xs ys. unfold landed. destruct f; [done|]. intros (created & m & ? & ?). exists created, m.
  split; [by apply kept_open|done].
Qed.
Lemma kept_wakes sender thread message agent trig : kept (λ pre, wakes pre sender thread message agent trig).
Proof. intros xs ys (state & key & ? & ?). exists state, key. split; [by apply kept_in|done]. Qed.
Lemma kept_woken sender thread message agents es ids : kept (λ pre, woken pre sender thread message agents es ids).
Proof.
  intros xs ys (trigs & Hf & ?). exists trigs. split; [|done].
  eapply Forall2_impl; [exact Hf|]. intros a trig. apply kept_wakes.
Qed.

(** *** Each part of the handler *)

Section parts.
Context `{Entitlements} (env : SubmitEnv).

(** Run after [pre], [m] makes allowed calls, and its value satisfies [P]. *)
Definition ends {A} (P : A → list scall → Prop) (r : res SubmitError A) (pre : list scall) : Prop :=
  ∀ a, r = Ok a → P a pre.
Abbreviation After pre m P := (obeys (W := front) (E := SubmitError) submit_allowed pre m (ends P)).

Lemma after_bind {A B} pre (m : SP A) (k : A → SP B) P R :
  After pre m P → (∀ a vs, P a (pre ++ vs) → After (pre ++ vs) (k a) R) → After pre (pbind m k) R.
Proof. intros Hm Hk. eapply obeys_bind; [exact Hm|..]; [|done..]. intros a vs HP. by apply Hk, HP. Qed.
Lemma after_lift {A B} pre (r : res SubmitError A) (k : A → SP B) R :
  (∀ a, r = Ok a → After pre (k a) R) → After pre (pbind (plift r) k) R.
Proof. intros Hk. by apply obeys_bind_lift. Qed.
Lemma after_ret {A} pre (a : A) (P : A → list scall → Prop) : P a pre → After pre (pret a) P.
Proof. intros Ha. apply obeys_ret. by intros b [= <-]. Qed.
Lemma after_err {A} pre (e : SubmitError) (P : A → list scall → Prop) : After pre (perr e) P.
Proof. by apply obeys_err. Qed.
Lemma after_call {E A} (pre : list scall) net (ev : res E A → scall) wrap f (Q : res E A → list scall → Prop) :
  (∀ r, submit_allowed pre (ev r)) → (∀ r, Q r (pre ++ [ev r])) →
  obeys (W := front) submit_allowed pre (pcall net ev wrap f) Q.
Proof. apply obeys_call. Qed.

(** A call, and what it says. *)
Lemma after_read {A} pre (ev : res SubmitError A → scall) f :
  (∀ r, submit_allowed pre (ev r)) → After pre (submit_read env ev f) (λ a pre', pre' = pre ++ [ev (Ok a)]).
Proof. intros Ha. apply after_call; [done|]. by intros r a ->. Qed.
Lemma after_store {A} pre (ev : res SubmitError A → scall) f :
  (∀ r, submit_allowed pre (ev r)) → After pre (store_step env ev f) (λ a pre', pre' = pre ++ [ev (Ok a)]).
Proof. intros Ha. apply after_call; [done|]. by intros r a ->. Qed.
Lemma after_queue {A} pre (ev : res SubmitError A → scall) f :
  (∀ r, submit_allowed pre (ev r)) → After pre (queue_step env ev f) (λ a pre', pre' = pre ++ [ev (Ok a)]).
Proof. intros Ha. apply after_call; [done|]. by intros r a ->. Qed.

Lemma in_snoc (pre : list scall) v : v ∈ pre ++ [v].
Proof. apply elem_of_app. right. by left. Qed.
Lemma written_quiet pre v : is_write v = false → written (pre ++ [v]) = written pre.
Proof. apply picked_quiet. Qed.

Lemma target_after pre target :
  After pre (resolve_target_colleague env (sm_org_id p) target)
    (λ tag pre', written pre' = written pre ∧ resolved pre' target tag).
Proof.
  assert (Hm : ∀ (ev : res SubmitError ColleagueId → scall) f msg, (∀ r, is_write (ev r) = false) → (∀ r, submit_allowed pre (ev r)) →
    After pre (pmap_err (λ _ : SubmitError, msg) (submit_read env ev f))
      (λ c pre', written pre' = written pre ∧ ev (Ok c) ∈ pre')).
  { intros ev f msg Hw Ha. apply obeys_map_err. eapply obeys_mono; [by apply after_read|].
    intros r vs Hr c Hc. destruct r as [c'| |]; [|done..]. injection Hc as ->. rewrite (Hr c eq_refl).
    split; [by apply written_quiet|apply in_snoc]. }
  destruct target as [a|u]; cbn [resolve_target_colleague].
  all: eapply after_bind; [by apply Hm|]; intros c vs [Hw Hc]; by apply after_ret.
Qed.

Lemma tags_after pre tags :
  After pre (resolve_tag_loop env (sm_org_id p) tags)
    (λ out pre', written pre' = written pre ∧ Forall2 (resolved pre') tags out).
Proof.
  revert pre. induction tags as [|target tags IH]; intros pre; cbn [resolve_tag_loop].
  { apply after_ret. by split. }
  eapply after_bind; [apply target_after|]. intros tag vs [Hw Ht].
  eapply after_bind; [apply IH|]. intros out vs' [Hw' Ho]. apply after_ret. split; [congruence|].
  constructor; [by apply kept_resolved|done].
Qed.

Lemma implicit_after pre f :
  After pre (implicit_dm_receiver env (sm_org_id p) p f) (λ tag pre', written pre' = written pre ∧ other_end pre' f tag).
Proof.
  unfold implicit_dm_receiver, other_end.
  destruct (match f with Some (t, _) => Some t | None => sm_thread_id p end) as [t|].
  2: { destruct (sm_counterpart p) as [[a|u]|], (sm_channel_id p); try (by apply after_ret).
       eapply after_bind; [apply target_after|]. intros tag vs [Hw Ht]. apply after_ret. split; [done|]. by exists tag. }
  eapply (after_bind _ _ _ (λ x pre', pre' = pre ++ [SDmCounterpart t (match x with inr c => Ok c | inl e => Err e end)])).
  { apply obeys_catch, after_call; [done|]. intros [] x Hx; [by injection Hx as <-..|done]. }
  intros x vs Hx. rewrite Hx. clear Hx vs.
  set (known' := λ (c : option ColleagueId) pre', written pre' = written pre ∧
    (SDmCounterpart t (Ok c) ∈ pre' ∨ c = None ∧ ∃ t', SDmCounterpart t (Err (ThreadNotFound t')) ∈ pre')).
  eapply (after_bind _ _ _ known').
  - destruct x as [e|c].
    + destruct e; try apply after_err. apply after_ret. split; [by apply written_quiet|].
      right. split; [done|]. eexists. apply in_snoc.
    + apply after_ret. split; [by apply written_quiet|]. left. apply in_snoc.
  - intros c vs [Hw Hc]. destruct c as [c|].
    2: { apply after_ret. split; [done|]. left. split; [done|]. destruct Hc as [|[_ ?]]; [by left|by right]. }
    destruct Hc as [Hc|[? _]]; [|done].
    eapply after_bind; [by apply after_read|]. intros col vs' ->. apply after_ret.
    split; [by rewrite written_quiet|]. right. exists c, col. split_and!; [by apply kept_in|apply in_snoc|done].
Qed.

Lemma thread_after pre sender tags :
  known pre None sender tags → written pre = [] →
  After pre (resolve_thread env the_sender p sender) (λ t pre', open_to pre' sender (written pre') t).
Proof.
  intros Hk Hw. unfold resolve_thread, open_to, create_thread. destruct (sm_thread_id p) as [t|] eqn:Et; [|destruct (sm_channel_id p) as [ch|] eqn:Ec].
  - eapply after_bind; [by apply after_read|]. intros [] vs ->; [|apply after_err]. apply after_ret.
    split_and!; [done|by rewrite written_quiet|apply in_snoc].
  - eapply (after_bind _ _ _ (λ _ pre', pre' = pre ++ [SChannelMember (sm_user_id p) (sm_org_id p) ch (Ok true)])).
    { unfold ensure_channel_member. eapply after_bind; [by apply after_read|]. intros [] vs ->; [by apply after_ret|apply after_err]. }
    intros _ vs Hvs. rewrite Hvs. clear Hvs vs. eapply obeys_mono; [apply after_store|].
    + intros r. split_and!; try done; [by rewrite written_quiet| |apply in_snoc]. exists tags. by apply kept_known.
    + intros r vs Hr t ->. rewrite (Hr t eq_refl). split; [apply kept_in, in_snoc|].
      unfold written. rewrite picked_snoc. cbn [is_write]. change (picked is_write) with written. by rewrite written_quiet, Hw.
  - apply after_lift. intros target Htarget. destruct (sm_counterpart p) as [target'|] eqn:Ect; [|done]. injection Htarget as ->.
    eapply after_bind; [apply target_after|]. intros tag vs [Hw' Htag]. eapply obeys_mono; [apply after_store|].
    + intros r. split_and!; try done; [congruence| |by exists target, tag]. exists tags. by apply kept_known.
    + intros r vs' Hr t ->. rewrite (Hr t eq_refl). exists target, tag. split_and!; [done|by apply kept_resolved|].
      unfold written. rewrite picked_snoc. cbn [is_write]. change (picked is_write) with written. by rewrite Hw', Hw.
Qed.

Lemma post_after pre sender tags :
  known pre None sender tags → written pre = [] →
  After pre (post_message env the_sender p sender tags)
    (λ x pre', landed pre' None sender tags (written pre') x.1 x.2).
Proof.
  intros Hk Hw. unfold post_message. eapply after_bind; [by apply (thread_after pre sender tags)|]. intros t vs Hopen.
  apply after_lift. intros body Hbody.
  assert (Hrow : the_row sender tags (posted_row p sender (tg_colleague <$> head tags) body)) by (by exists body).
  eapply after_bind; [apply after_store|].
  - intros r. split; [done|]. exists sender, tags. split_and!; [by apply kept_known|done..].
  - intros m vs' ->. apply after_ret. exists (written (pre ++ vs)). eexists. split_and!; [by apply kept_open|exact Hrow|].
    unfold written. by rewrite picked_snoc.
Qed.

Lemma triggers_after f sender tags made t m agents pre done_ es ids :
  known pre f sender tags → landed pre f sender tags made t m → woken pre sender t m done_ es ids →
  written pre = made ++ es → done_ ++ agents = omap tg_agent tags →
  After pre (trigger_loop env the_sender p sender t m agents) (λ ids' pre',
    ∃ es', woken pre' sender t m (done_ ++ agents) es' (ids ++ ids') ∧ written pre' = made ++ es').
Proof.
  revert pre done_ es ids. induction agents as [|agent agents IH]; intros pre done_ es ids Hk Hl Hwk Hw Hd.
  { apply after_ret. exists es. by rewrite !app_nil_r. }
  assert (Hpre : done_ ++ [agent] `prefix_of` omap tg_agent tags) by (exists agents; by rewrite <-Hd, <-app_assoc).
  cbn [trigger_loop]. unfold participate, enqueue_trigger. eapply after_bind; [apply after_store|].
  { intros r. split; [done|]. exists f, sender, tags, made, m, done_, es, ids. by split_and!. }
  intros st vs Hvs. rewrite Hvs. clear Hvs vs. apply after_lift. intros key Hkey.
  set (pre1 := pre ++ [_]). set (trig := submit_trigger _ _ _ _ _ _ _).
  assert (Hwake : wakes pre1 sender t m agent trig) by (exists st, key; split; [apply in_snoc|done]).
  assert (Hwk1 : woken pre1 sender t m done_ es ids) by (by apply kept_woken).
  assert (Hw1 : written pre1 = made ++ es) by (unfold pre1; by rewrite written_quiet).
  assert (Hk1 : known pre1 f sender tags) by (by apply kept_known).
  assert (Hl1 : landed pre1 f sender tags made t m) by (by apply kept_landed).
  eapply after_bind; [apply after_queue|].
  { intros r. exists f, sender, tags, made, t, m, done_, es, ids, agent. by split_and!. }
  intros id vs' ->. set (pre2 := pre1 ++ [_]).
  eapply after_bind; [apply (IH pre2 (done_ ++ [agent]) (es ++ [SEnqueue trig (Ok id)]) (ids ++ [id]))|].
  - by apply kept_known.
  - by apply kept_landed.
  - apply (kept_woken _ _ _ _ _ _ pre1 [SEnqueue trig (Ok id)]) in Hwk1 as (trigs & Hf & Hlen & ->).
    exists (trigs ++ [trig]). split_and!.
    + apply Forall2_app; [done|]. constructor; [by apply kept_wakes|constructor].
    + rewrite !length_app. cbn. lia.
    + by rewrite zip_with_app.
  - unfold pre2, written. rewrite picked_snoc. cbn [is_write]. change (picked is_write) with written.
    by rewrite Hw1, <-app_assoc.
  - by rewrite <-app_assoc.
  - intros ids' vs'' (es' & Hwk' & Hw'). apply after_ret. exists es'. by rewrite <-!app_assoc in Hwk'.
Qed.

Lemma woken_none pre sender t m : woken pre sender t m [] [] [].
Proof. by exists []. Qed.
Lemma woken_length pre sender t m agents es ids : woken pre sender t m agents es ids → length ids = length agents.
Proof. intros (trigs & Hf & Hl & _). apply Forall2_length in Hf. lia. Qed.

Lemma submit_after : After [] (submit_internal env p) (λ out pre', submitted pre' out).
Proof.
  unfold submit_internal. apply after_lift. intros _ _. apply after_lift. intros _ _.
  change (mkCaller (sm_user_id p) (sm_org_id p)) with the_sender.
  eapply after_bind; [by apply after_read|]. intros f vs Hvs. rewrite Hvs. clear Hvs vs.
  eapply after_bind; [by apply after_read|]. intros sender vs Hvs. rewrite Hvs. clear Hvs vs.
  set (pre := _ ++ [_]). assert (Hf : found pre f) by (apply kept_in, in_snoc).
  assert (Hs : SResolveUser (sm_org_id p) (sm_user_id p) (Ok sender) ∈ pre) by apply in_snoc.
  assert (Hw : written pre = []) by done. clearbody pre.
  unfold resolve_tags. eapply (after_bind _ _ _ (λ out pre', written pre' = written pre ∧ Forall2 (resolved pre') (sm_tags p) out)).
  { apply after_lift. intros _ _. apply tags_after. }
  intros explicit vs [Hw1 He].
  eapply (after_bind _ _ _ (λ tags pre', written pre' = [] ∧ addresses pre' f tags)).
  { destruct (is_empty (omap tg_agent explicit)) eqn:Ee.
    - eapply after_bind; [apply implicit_after|]. intros implicit vs' [Hw2 Hi]. apply after_ret. split; [congruence|].
      exists explicit. rewrite Ee. split; [|by exists implicit]. eapply Forall2_impl; [exact He|]. intros ??. apply kept_resolved.
    - apply after_ret. split; [congruence|]. exists explicit. by rewrite Ee. }
  intros tags vs' [Hw2 Ha]. set (pre2 := (pre ++ vs) ++ vs') in *.
  assert (Hf2 : found pre2 f) by (by apply kept_in, kept_in).
  assert (Hs2 : SResolveUser (sm_org_id p) (sm_user_id p) (Ok sender) ∈ pre2) by (by apply kept_in, kept_in).
  clearbody pre2. clear pre Hf Hs Hw vs vs' He Hw1 explicit.
  eapply (after_bind _ _ _ (λ _ pre', written pre' = [] ∧ known pre' f sender tags)).
  { destruct (is_empty (omap tg_agent tags)) eqn:Ee; bools.
    - apply after_ret. split; [done|]. split_and!; [done..|]. by left.
    - eapply obeys_mono; [by apply after_read|]. intros r vs Hr [] ->. rewrite (Hr tt eq_refl).
      split; [by rewrite written_quiet|]. split_and!; [by apply kept_in..|by apply kept_addresses|]. right. apply in_snoc. }
  intros _ vs [Hw3 Hk]. set (pre3 := pre2 ++ vs) in *. clearbody pre3. clear pre2 vs Hw2 Ha Hf2 Hs2.
  eapply (after_bind _ _ _ (λ x pre', known pre' f sender tags ∧ landed pre' f sender tags (written pre') x.1 x.2)).
  { destruct f as [at_|].
    - apply after_ret. rewrite Hw3. split; [done|]. by destruct at_.
    - apply (obeys_mono _ _ _ (λ r pre', ends (λ x pre', landed pre' None sender tags (written pre') x.1 x.2) r pre'
         ∧ known pre' None sender tags)).
      + eapply traced_mono; [by apply post_after|]. intros r vs [Hv He]. split_and!; [done..|by apply kept_known].
      + intros r vs [He Hk'] a Ha. split; [done|by apply He]. }
  intros [t m] vs [Hk4 Hl]. set (pre4 := pre3 ++ vs) in *. clearbody pre4. clear pre3 vs Hw3 Hk. cbn [fst snd] in *.
  destruct (is_empty (omap tg_agent tags)) eqn:Ee; bools.
  - apply after_ret. exists f, sender, tags, (written pre4), m, [], []. rewrite Ee.
    split_and!; try done; [apply woken_none|by rewrite app_nil_r].
  - unfold enqueue_tag_triggers. eapply after_bind.
    { apply after_lift. intros _ _. eapply (triggers_after f sender tags (written pre4) t m _ pre4 [] [] []); try done.
      - apply woken_none.
      - by rewrite app_nil_r. }
    intros ids vs (es & Hwk & Hw). apply after_ret. cbn [app] in Hwk.
    exists f, sender, tags, (written pre4), m, es, ids. split_and!; try done; [by apply kept_known|by apply kept_landed|].
    pose proof (woken_length _ _ _ _ _ _ _ Hwk). destruct ids; [|done]. by destruct (omap tg_agent tags).
Qed.
End parts.
End protocol.
Create HintDb patom_submit.
#[export] Hint Resolve kept_in kept_resolved kept_other_end kept_addresses kept_known kept_open kept_landed kept_wakes
  kept_woken : patom_submit.

(** ** The office stays well formed *)

Lemma res_bind_no_panic {E A B} (r : res E A) (k : A → res E B) :
  no_panic r → (∀ a, no_panic (k a)) → no_panic (res_bind r k).
Proof. destruct r; cbn; auto. Qed.

(** What the handler hands on. *)
Definition submittable (p : SubmitPromptParams) : Prop :=
  length (sm_tags p) ≤ MAX_TAGS_PER_MESSAGE ∧ length (sm_attachments p) ≤ MAX_ATTACHMENTS_PER_MESSAGE
  ∧ (is_Some (sm_content p) ∨ sm_attachments p ≠ []).

Lemma parse_attachments_length url raws out : parse_attachments url raws = Ok out → length out = length raws.
Proof.
  revert out. induction raws as [|raw raws IH]; intros out Hp; cbn [parse_attachments] in Hp; res_inv; [done|].
  cbn [length]. f_equal. by apply IH.
Qed.

Lemma parse_submit_ok url host user org rq p : parse_submit url host user org rq = Ok p → submittable p.
Proof.
  unfold parse_submit, bad_request. intros Hp. res_inv.
  destruct (MAX_TAGS_PER_MESSAGE <? length (rq_tags rq)) eqn:Et; [done|].
  destruct (MAX_ATTACHMENTS_PER_MESSAGE <? length (rq_attachments rq)) eqn:Ea; [done|]. bools.
  match goal with H : res_map_err _ (parse_attachments _ _) = Ok ?a |- _ =>
    destruct (parse_attachments _ _) as [a'| |] eqn:Epa; [|done..]; injection H as -> end.
  pose proof (parse_attachments_length _ _ _ Epa) as Hl. split_and!; cbn [sm_tags sm_attachments sm_content]; [lia|lia|].
  destruct (is_empty (trim (rq_content rq))); cbn [andb] in *.
  - match goal with |- context [is_Some ?c] => destruct c; [by left; eexists|] end. right.
    match goal with H : (if negb (is_empty ?a) then _ else _) = _ |- _ => destruct (is_empty a) eqn:Ee; cbn in H end; bools; [|done].
    res_inv. done.
  - res_inv. left. by eexists.
Qed.

Section keeps.
Context `{UuidPrinter, Entitlements} (env : SubmitEnv) (timing : LeaseTiming) (cap : nat).

Record front_ok (w : front) : Prop := {
  fo_office_ok : office_ok timing cap (fo_office w);
  fo_billing_ok : credit_ok (fo_billing w) }.
Context `{!Respects front_ok (sv_net env)}.
Abbreviation Safe m := (safe (V := scall) (E := SubmitError) front_ok m (λ _, True)).

Lemma safe_asked {A} (ev : res SubmitError A → scall) f :
  (∀ n w, front_ok w → no_panic (f n w)) → Safe (submit_read env ev f).
Proof. intros Hf. apply safe_call; [done|]. intros n w Hw. specialize (Hf n w Hw). split; [done|]. by destruct (f n w). Qed.
Lemma safe_stored {A} (ev : res SubmitError A → scall) f :
  (∀ n s, feed_ok s → feed_ok (f n s).2 ∧ no_panic (f n s).1) → Safe (store_step env ev f).
Proof.
  intros Hf. apply safe_call; [done|]. intros n w [Ho Hb]. specialize (Hf n _ (oo_feed _ _ _ Ho)).
  destruct (f n _) as [r s]. cbn in *. destruct Hf as [Hs Hn], Ho. split; [by split; [split|]|]. by destruct r.
Qed.
Lemma safe_queued {A} (ev : res SubmitError A → scall) f :
  (∀ n d, queue_ok timing d → queue_ok timing (f n d).2 ∧ no_panic (f n d).1) → Safe (queue_step env ev f).
Proof.
  intros Hf. apply safe_call; [done|]. intros n w [Ho Hb]. specialize (Hf n _ (queue_ok_view _ _ (oo_queue _ _ _ Ho))).
  destruct (f n _) as [r d]. cbn in *. destruct Hf as [Hd Hn], Ho. split; [by split; [split|]|]. by destruct r.
Qed.

Lemma safe_target_colleague org target : Safe (resolve_target_colleague env org target).
Proof.
  destruct target; cbn; (apply safe_seq; [apply safe_map_err, safe_asked|by intros; apply safe_ret]); intros n w _.
  - unfold resolve_agent_row. by case_match.
  - unfold resolve_user_row. by case_match.
Qed.
Lemma safe_tag_loop org tags : Safe (resolve_tag_loop env org tags).
Proof.
  induction tags as [|t tags IH]; cbn; [by apply safe_ret|].
  apply safe_seq; [apply safe_target_colleague|]. intros tag. apply safe_seq; [done|]. by intros; apply safe_ret.
Qed.
Lemma safe_implicit org p f : Safe (implicit_dm_receiver env org p f).
Proof.
  unfold implicit_dm_receiver. destruct (match f with Some (t, _) => Some t | None => sm_thread_id p end) as [t|].
  - apply safe_seq.
    { eapply safe_mono; [apply (safe_catch _ _ (λ _, True))|done]. apply safe_call; [done|]. intros n w Hw. split; [done|].
      unfold dm_counterpart. by destruct (_ !! _). }
    intros x. apply safe_seq; [destruct x as [[]|]; first [by apply safe_ret|by apply safe_err]|].
    intros [c|]; [|by apply safe_ret]. apply safe_seq; [|by intros; apply safe_ret].
    apply safe_asked. intros ? w _. apply map_err_no_panic.
    unfold read_colleague, ColleagueName_try_from, Colleague_try_new. repeat (case_match; simplify_eq/=; try done).
  - destruct (sm_counterpart p) as [[]|], (sm_channel_id p); try (by apply safe_ret).
    apply safe_seq; [apply safe_target_colleague|]. by intros; apply safe_ret.
Qed.

Lemma safe_resolve_thread caller p sender : Safe (resolve_thread env caller p sender).
Proof.
  unfold resolve_thread, create_thread. destruct (sm_thread_id p); [|destruct (sm_channel_id p)].
  - apply safe_seq; [by apply safe_asked|]. intros []; [by apply safe_ret|by apply safe_err].
  - apply safe_seq.
    + apply safe_seq; [by apply safe_asked|]. intros []; [by apply safe_ret|by apply safe_err].
    + intros _. apply safe_stored. intros ? s Hs. by apply create_thread_ok.
  - apply safe_seq; [apply safe_lift; by destruct (sm_counterpart p)|]. intros target.
    apply safe_seq; [apply safe_target_colleague|]. intros tag. apply safe_stored. intros ? s Hs. by apply create_thread_ok.
Qed.
Lemma user_content_no_panic p : submittable p → no_panic (user_content (sm_content p) (sm_attachments p)).
Proof.
  intros (_ & _ & Hc). unfold user_content, rassert. destruct Hc as [[c ->]|Ha]; [done|].
  destruct (sm_content p); [done|]. by destruct (sm_attachments p).
Qed.
Lemma safe_posted caller p sender tags : submittable p → Safe (post_message env caller p sender tags).
Proof.
  intros Hp. unfold post_message. apply safe_seq; [apply safe_resolve_thread|]. intros t.
  apply safe_seq; [apply safe_lift; pose proof (user_content_no_panic p Hp); by destruct (user_content _ _)|]. intros body.
  apply safe_seq; [|by intros; apply safe_ret]. apply safe_stored. intros ? s Hs. by apply append_ok.
Qed.

Lemma IdempotencyKey_no_panic raw : no_panic (IdempotencyKey_try_from raw).
Proof. unfold IdempotencyKey_try_from. repeat case_match; done. Qed.
Lemma safe_triggers caller p sender t m agents : Safe (trigger_loop env caller p sender t m agents).
Proof.
  induction agents as [|a agents IH]; cbn [trigger_loop]; [by apply safe_ret|].
  apply safe_seq; [apply safe_stored; intros n s Hs; by apply participation_ok|]. intros st.
  apply safe_seq.
  { apply safe_lift. unfold per_agent_key. pose proof (IdempotencyKey_no_panic (agent_key_text (sm_idempotency_key p) a)).
    by destruct (IdempotencyKey_try_from _). }
  intros key. apply safe_seq; [|intros id; apply safe_seq; [exact IH|by intros; apply safe_ret]].
  apply safe_queued. intros n d Hd. split; [|apply enqueue_no_panic].
  eapply queue_ok_step; [exact Hd|]. intros rds cs. apply step_enqueue.
Qed.

Lemma resolve_tag_loop_length org tags : safe (V := scall) (E := SubmitError) front_ok (resolve_tag_loop env org tags)
  (λ out, length out = length tags).
Proof.
  induction tags as [|t tags IH]; cbn [resolve_tag_loop]; [by apply safe_ret|].
  eapply safe_bind; [apply safe_target_colleague|]. intros tag _. eapply safe_bind; [exact IH|].
  intros out Ho. apply safe_ret. cbn. by rewrite Ho.
Qed.

Lemma safe_submit p : submittable p → Safe (submit_internal env p).
Proof.
  intros Hp. pose proof Hp as (Ht & Ha & _). unfold submit_internal, rassert.
  rewrite (proj2 (Nat.leb_le _ _) Ht), (proj2 (Nat.leb_le _ _) Ha).
  apply safe_seq; [by apply safe_lift|]. intros _. apply safe_seq; [by apply safe_lift|]. intros _. cbn zeta.
  apply safe_seq; [by apply safe_asked|]. intros f.
  apply safe_seq; [apply safe_asked; intros n w _; unfold resolve_user_row; by case_match|]. intros sender.
  eapply (safe_bind _ _ _ (λ out, length out = length (sm_tags p))).
  { unfold resolve_tags, rassert. rewrite (proj2 (Nat.leb_le _ _) Ht).
    apply safe_seq; [by apply safe_lift|]. intros _. apply resolve_tag_loop_length. }
  intros explicit He. eapply (safe_bind _ _ _ (λ tags, length (omap tg_agent tags) ≤ MAX_TAGS_PER_MESSAGE + 1)).
  { assert (Hle : ∀ l, length (omap tg_agent l) ≤ length l).
    { intros l. induction l as [|x l IH]; cbn; [done|]. destruct (tg_agent x); cbn; lia. }
    destruct (is_empty _).
    - apply safe_seq; [apply safe_implicit|]. intros i. apply safe_ret. etrans; [apply Hle|].
      rewrite length_app, He. destruct i; cbn [length]; cbv beta in He; lia.
    - apply safe_ret. etrans; [apply Hle|]. lia. }
  intros tags Htags. apply safe_seq.
  { destruct (is_empty _); [by apply safe_ret|]. apply safe_asked. intros n w Hw.
    apply map_err_no_panic, gate_no_panic, Hw. }
  intros _. apply safe_seq; [destruct f; [by apply safe_ret|by apply safe_posted]|]. intros at_.
  destruct (is_empty _); [by apply safe_ret|]. unfold enqueue_tag_triggers, rassert.
  rewrite (proj2 (Nat.leb_le _ _) Htags). apply safe_seq; [|by intros; apply safe_ret].
  apply safe_seq; [by apply safe_lift|]. intros _. apply safe_triggers.
Qed.

Lemma parse_submit_no_panic url host user org rq :
  (∀ raw, no_panic (url raw)) → no_panic (parse_submit url host user org rq).
Proof.
  intros Hurl. assert (Hatt : ∀ raws, no_panic (parse_attachments url raws)).
  { induction raws as [|raw raws IH]; cbn [parse_attachments]; [done|]. apply res_bind_no_panic.
    - unfold Attachment_try_from. apply res_bind_no_panic; [done|]. intros u. apply res_bind_no_panic; [apply ok_or_no_panic|].
      intros mime. apply res_bind_no_panic; [unfold FileName_try_from; repeat case_match; done|]. intros name. by repeat case_match.
    - intros a. apply res_bind_no_panic; [done|]. done. }
  unfold parse_submit, bad_request. apply res_bind_no_panic; [apply map_err_no_panic, IdempotencyKey_no_panic|]. intros key.
  apply res_bind_no_panic; [by case_match|]. intros _. apply res_bind_no_panic; [by case_match|]. intros _.
  apply res_bind_no_panic; [by apply map_err_no_panic|]. intros atts.
  apply res_bind_no_panic; [unfold asset_guard; destruct (is_empty atts); [done|]; destruct host; [cbn; by case_match|done]|].
  intros _. apply res_bind_no_panic; [|done]. case_match; [done|]. apply res_bind_no_panic; [|done].
  apply map_err_no_panic. unfold Prompt_try_from. repeat case_match; done.
Qed.

Lemma safe_cancel user org id : Safe (cancel_request env user org id).
Proof.
  unfold cancel_request. apply safe_seq; [by apply safe_asked|]. intros []; cbn [negb]; [|by apply safe_err].
  apply safe_queued. intros n d Hd. split.
  - eapply queue_ok_step; [exact Hd|]. intros rds cs. apply step_cancel.
  - unfold request_cancellation. cbn. by case_match.
Qed.

(** C17: Posting a prompt and cancelling a request keep the office well formed and the ledger
    balanced, whatever fails and whatever others who keep them do between the calls, and
    never panic: no request trips one of the assertions on the tags, the attachments,
    the body, the shape of a thread or the gate. *)
Theorem submit_keeps_office url host user org rq id s :
  (∀ raw, no_panic (url raw)) → front_ok (run_tables s) →
  (front_ok (run_tables (submit_prompt env url host user org rq s).2)
   ∧ no_panic (submit_prompt env url host user org rq s).1)
  ∧ front_ok (run_tables (cancel_request env user org id s).2) ∧ no_panic (cancel_request env user org id s).1.
Proof.
  intros Hurl Hs. assert (Hm : Safe (submit_prompt env url host user org rq)).
  { unfold submit_prompt. eapply (safe_bind _ _ _ submittable).
    - apply safe_lift. pose proof (parse_submit_no_panic url host user org rq Hurl).
      destruct (parse_submit _ _ _ _ _) eqn:E; [|done..]. by eapply parse_submit_ok.
    - intros p Hp. apply safe_seq; [by apply safe_submit|]. by intros; apply safe_ret. }
  destruct (Hm s Hs) as [H1 H2], (safe_cancel user org id s Hs) as [H3 H4].
  split_and!; [done| |done|]; [by destruct (submit_prompt _ _ _ _ _ _ _).1|by destruct (cancel_request _ _ _ _ _).1].
Qed.
End keeps.

(** C15: A request that does not parse calls nothing.  One that does reads first; when it wakes
    an agent it writes nothing before the gate said yes; unless a row has its key, it
    makes one thread at most, and posts one row, as the sender, in the thread it made or
    was shown to see; and it wakes the tagged agents, or the agent at the other end of
    the conversation, in order, on that row and each under its own key. *)
Theorem submit_follows_protocol `{UuidPrinter, Entitlements} (env : SubmitEnv) url host user org rq :
  match parse_submit url host user org rq with
  | Ok p => obeys (submit_allowed p) [] (submit_prompt env url host user org rq)
      (λ r pre, ∀ existed out, r = Ok (existed, out) → existed = su_existed out ∧ submitted p pre out)
  | Err e => ∀ s, submit_prompt env url host user org rq s = (Err e, s)
  | Panic m => ∀ s, submit_prompt env url host user org rq s = (Panic m, s)
  end.
Proof.
  unfold submit_prompt. destruct (parse_submit _ _ _ _ _) as [p| |]; [|done..].
  apply obeys_bind_lift; [|done..]. intros ? [= <-].
  eapply obeys_bind; [apply submit_after|..]; [|done..].
  intros out vs Ho. apply obeys_ret. intros existed out' [= <- <-]. split; [done|by apply Ho].
Qed.
