(* ===== verification/SubmitRetry.v ===== *)
(** * Submitting a prompt again

    A submit that answered is settled: its row is in the feed under its key, its agents
    have their places and their requests.  Submitting again finds all that, answers the
    same and writes nothing.
    The concrete offices at the end are the witnesses, and show what the model says of the keys. *)

From Stdlib Require Import ZArith Lia Ascii String.
From stdpp Require Import base gmap list strings sets relations.
From S2P Require Import Prelude Program Types Queue QueueSafety Threads ThreadLaws Colleagues Billing BillingLaws Office OfficeLaws SendLaws ChatText ChatPost Submit SubmitLaws.

(** ** A trigger enqueued again *)

Definition trigger_found (trig : NewTrigger) (d : db) : option PromptRequest :=
  List.find (λ r, same_idem (nt_org_id trig) (IdempotencyKey_as_str (nt_idempotency_key trig)) r
                  && is_member d (nt_acting_user_id trig) (pr_org_id r)) (prompt_requests d).

(** [trig] passes the checks of the table, and its row is there. *)
Definition enqueued (trig : NewTrigger) (rid : PromptRequestId) (d : db) : Prop :=
  ∃ co r, resolve_agent_colleague (nt_acting_user_id trig) (nt_org_id trig) (nt_receiver_agent_id trig) d = Ok (co, d)
    ∧ parent_org d (trigger_row 0 0 None trig co) = Some (nt_org_id trig)
    ∧ receiver_is_agent d (trigger_row 0 0 None trig co) = true
    ∧ claim_key_xor (trigger_row 0 0 None trig co) = true
    ∧ is_member d (nt_acting_user_id trig) (nt_org_id trig) = true
    ∧ trigger_found trig d = Some r ∧ pr_id r = rid.

(** The same directory, more places and more requests. *)
Record grows (d d' : db) : Prop := {
  gr_colleagues : colleagues d' = colleagues d;
  gr_members : memberships d' = memberships d;
  gr_turns : background_turns d' = background_turns d;
  gr_states : ∀ st o, agent_thread_state d !! st = Some o → agent_thread_state d' !! st = Some o;
  gr_requests : ∃ l, prompt_requests d' = prompt_requests d ++ l }.

Lemma find_app {A} (f : A → bool) l l' x : List.find f l = Some x → List.find f (l ++ l') = Some x.
Proof. induction l as [|y l IH]; cbn; [done|]. by destruct (f y). Qed.
Lemma find_snoc {A} (f : A → bool) l x : existsb f l = false → f x = true → List.find f (l ++ [x]) = Some x.
Proof. induction l as [|y l IH]; cbn; [by intros _ ->|]. by destruct (f y). Qed.

Lemma trigger_found_same trig d d' :
  memberships d' = memberships d → trigger_found trig d' = List.find (λ r,
    same_idem (nt_org_id trig) (IdempotencyKey_as_str (nt_idempotency_key trig)) r
    && is_member d (nt_acting_user_id trig) (pr_org_id r)) (prompt_requests d').
Proof. intros Hm. unfold trigger_found, is_member. by rewrite Hm. Qed.

Lemma enqueued_grows trig rid d d' : enqueued trig rid d → grows d d' → enqueued trig rid d'.
Proof.
  intros (co & r & Hco & Hp & Hr & Hx & Hm & Hf & Hid) [Hc Hme Hb Hs [l Hl]]. exists co, r. split_and!; try done.
  - by rewrite (resolve_same_directory _ _ _ d d'), Hco.
  - unfold parent_org in *. rewrite Hb. destruct (pr_state_id _); [by apply Hs|done].
  - unfold receiver_is_agent in *. by rewrite Hc.
  - unfold is_member in *. by rewrite Hme.
  - rewrite (trigger_found_same _ d d' Hme), Hl. by apply find_app.
Qed.

Lemma enqueue_settles fk id now tp trig d rid d' :
  enqueue_trigger_impl fk id now tp trig d = (Ok rid, d') →
  enqueued trig rid d' ∧ grows d d' ∧ agent_thread_state d' = agent_thread_state d.
Proof.
  unfold enqueue_trigger_impl, run, enqueue_trigger_tx, bind.
  destruct (resolve_agent_colleague _ _ _ d) as [[co d0]|e|e] eqn:Hco; cbn [res_bind fst snd]; [|discriminate..].
  pose proof (resolve_unchanged _ _ _ _ _ _ Hco) as ->.
  unfold insert_request.
  destruct (bool_decide (parent_org _ _ = _)) eqn:Ep; cbn [negb]; [|discriminate].
  destruct (receiver_is_agent _ _) eqn:Er; cbn [negb]; [|discriminate].
  destruct (claim_key_xor _) eqn:Ex; cbn [negb]; [|discriminate].
  destruct (is_member _ _ _) eqn:Em; cbn [negb]; [|discriminate]. bools.
  assert (Hsettled : ∀ d1 r, grows d d1 → trigger_found trig d1 = Some r → pr_id r = rid → enqueued trig rid d1).
  { intros d1 r [Hc Hme Hb Hs Hl] Hf Hr. exists co, r. split_and!; try done.
    - by rewrite (resolve_same_directory _ _ _ d d1), Hco.
    - unfold parent_org in *. rewrite Hb. cbn [pr_state_id pr_background_turn_id trigger_row pr_org_id] in *.
      destruct (nt_state_id trig); [by apply Hs|done].
    - unfold receiver_is_agent in *. rewrite Hc. exact Er.
    - unfold is_member in *. by rewrite Hme. }
  destruct (existsb _ (prompt_requests d)) eqn:Hex.
  - cbn [res_bind fst snd]. destruct (List.find _ _) as [r|] eqn:Hf; [|discriminate]. intros [= Hr <-].
    assert (grows d d) by (split; try done; exists []; by rewrite app_nil_r).
    split_and!; [|done..]. by eapply Hsettled.
  - destruct (bool_decide (_ ∈ _)); [discriminate|]. destruct (fk _); cbn [negb]; [|discriminate]. cbn [res_bind fst snd].
    assert (Hdone : ∀ dags, let d1 := set_dags dags (set_requests (prompt_requests d ++ [trigger_row id now tp trig co]) d) in
      rid = id → enqueued trig rid d1 ∧ grows d d1 ∧ agent_thread_state d1 = agent_thread_state d).
    { intros dags d1 ->. assert (Hg : grows d d1) by (split; try done; by eexists).
      split_and!; [|done..]. apply (Hsettled d1 (trigger_row id now tp trig co)); [done| |done].
      rewrite (trigger_found_same trig d d1) by done. unfold d1. cbn [prompt_requests set_dags set_requests].
      apply find_snoc.
      - clear -Hex. induction (prompt_requests d) as [|r l IH]; [done|]. cbn in *. apply orb_false_iff in Hex as [H1 H2].
        rewrite IH by done. by rewrite H1.
      - cbn. unfold same_idem. cbn. rewrite !bool_decide_true by done. exact Em. }
    destruct (nt_root_request_id trig) as [root|].
    + intros [= <- <-]. apply (Hdone (prompt_request_dags d) eq_refl).
    + unfold insert_dag. cbn [prompt_request_dags set_requests]. destruct (_ !! _); [discriminate|].
      cbn. intros [= <- <-]. by apply Hdone.
Qed.

Lemma enqueue_again fk id now tp trig d rid :
  enqueued trig rid d → enqueue_trigger_impl fk id now tp trig d = (Ok rid, d).
Proof.
  intros (co & r & Hco & Hp & Hr & Hx & Hm & Hf & Hid).
  unfold enqueue_trigger_impl, run, enqueue_trigger_tx, bind. rewrite Hco. cbn [res_bind fst snd].
  unfold insert_request.
  change (parent_org d (trigger_row id now tp trig co)) with (parent_org d (trigger_row 0 0 None trig co)).
  change (receiver_is_agent d (trigger_row id now tp trig co)) with (receiver_is_agent d (trigger_row 0 0 None trig co)).
  change (claim_key_xor (trigger_row id now tp trig co)) with (claim_key_xor (trigger_row 0 0 None trig co)).
  change (pr_org_id (trigger_row id now tp trig co)) with (nt_org_id trig).
  change (pr_idempotency_key (trigger_row id now tp trig co)) with (IdempotencyKey_as_str (nt_idempotency_key trig)).
  rewrite Hp, bool_decide_true, Hr, Hx, Hm by done. cbn [negb].
  assert (existsb (same_idem (nt_org_id trig) (IdempotencyKey_as_str (nt_idempotency_key trig))) (prompt_requests d) = true) as ->.
  { unfold trigger_found in Hf. apply List.find_some in Hf as [Hin Hb]. bools. apply existsb_exists. by exists r. }
  cbn [res_bind fst snd]. unfold trigger_found in Hf. by rewrite Hf, Hid.
Qed.

(** ** A place taken again, a row found again *)

Definition place_of (s : store) (thread : ThreadId) (agent : AgentId) : option StateRow :=
  List.find (λ r, bool_decide (st_thread r = thread) && bool_decide (st_agent r = agent)) (agent_thread_states s).
Definition placed_in (s : store) (user : UserId) (thread : ThreadId) (agent : AgentId) (st : AgentThreadId) : Prop :=
  is_Some (visible_thread s user thread) ∧ st_id <$> place_of s thread agent = Some st.
Definition more_places (s s' : store) : Prop := ∃ l, s' = set_states (agent_thread_states s ++ l) s.

Lemma participation_settles caller thread agent id now s st s' :
  resolve_participation caller thread agent id now s = (Ok st, s') →
  placed_in s' (user_id caller) thread agent st ∧ more_places s s'.
Proof.
  unfold resolve_participation, placed_in, place_of. destruct (visible_thread s _ _) as [t|] eqn:Ev; [|discriminate].
  destruct (List.find _ _) as [r|] eqn:Ef.
  - intros [= <- <-]. rewrite Ev, Ef. split; [done|]. exists []. rewrite app_nil_r. by destruct s.
  - case_bool_decide; [discriminate|]. intros [= <- <-]. split; [|by eexists]. split; [exists t; exact Ev|].
    cbn [agent_thread_states set_states].
    rewrite (find_snoc _ (agent_thread_states s)); [done| |].
    + apply not_true_iff_false. intros (x & Hx & Hb)%existsb_exists. by apply (List.find_none _ _ Ef) in Hx; congruence.
    + cbn. by rewrite !bool_decide_true.
Qed.
Lemma participation_again caller thread agent id now s st :
  placed_in s (user_id caller) thread agent st → resolve_participation caller thread agent id now s = (Ok st, s).
Proof.
  unfold resolve_participation, placed_in, place_of. intros [[t ->] Hp].
  destruct (List.find _ _) as [r|]; [|done]. by injection Hp as ->.
Qed.
Lemma placed_more s s' user thread agent st : placed_in s user thread agent st → more_places s s' → placed_in s' user thread agent st.
Proof.
  intros [Hv Hp] [l ->]. split; [exact Hv|]. unfold place_of in *. cbn [agent_thread_states set_states].
  destruct (List.find _ (agent_thread_states s)) as [r|] eqn:Ef; [|done]. by rewrite (find_app _ _ _ _ Ef).
Qed.

Lemma append_settles fk caller thread m key id now s mid s' :
  nm_idempotency_key m = Some key →
  th_org_id <$> visible_thread s (user_id caller) thread = Some (org_id caller) →
  posted_under (user_id caller) (org_id caller) key s = None →
  append fk caller thread m id now s = (Ok mid, s') →
  posted_under (user_id caller) (org_id caller) key s' = Some (thread, mid)
  ∧ (∀ t, th_dm_counterpart <$> threads s' !! t = th_dm_counterpart <$> threads s !! t).
Proof.
  intros Hkey Hv Hnone. pose proof (visible_member _ _ _ _ Hv) as Hm.
  unfold append, append_insert. destruct (visible_thread s (user_id caller) thread) as [t|] eqn:Et; [|done].
  injection Hv as Horg. rewrite Hkey. cbn [fmap option_fmap option_map] in *. cbn zeta.
  unfold posted_under in Hnone. destruct (List.find _ (thread_messages s)) eqn:Hfind; [done|].
  destruct (_ <? _)%Z; [discriminate|]. destruct (negb (owner_kind_ok m)); [discriminate|].
  destruct (existsb (same_key _ _) _).
  { cbn [thread_messages set_feed]. change (List.find _ _) with (List.find (λ r,
      same_key (org_id caller) (Some (IdempotencyKey_as_str key)) r && member s (user_id caller) (fr_org_id r)) (thread_messages s)).
    rewrite Hfind. discriminate. }
  destruct (existsb _ _); [discriminate|]. destruct (negb fk); [discriminate|]. intros [= <- <-]. split.
  - unfold posted_under. cbn [thread_messages set_feed]. rewrite find_snoc; [done| |].
    + apply not_true_iff_false. intros (x & Hx & Hb)%existsb_exists. apply (List.find_none _ _ Hfind) in Hx.
      unfold member in *. cbn [org_members set_feed] in Hb. congruence.
    + unfold same_key, member. cbn [fr_org_id fr_idempotency_key org_members set_feed].
      rewrite Horg, !bool_decide_true by done. exact Hm.
  - intros t'. cbn [threads set_feed]. destruct (decide (t' = thread)) as [->|Hne]; [|by rewrite lookup_insert_ne].
    rewrite lookup_insert_eq. unfold visible_thread in Et. destruct (threads s !! thread) as [t0|]; [|done].
    destruct (member _ _ _); [|done]. by injection Et as ->.
Qed.

(** ** Settled *)

Section settled.
Context `{UuidPrinter} (p : SubmitPromptParams).

Abbreviation store_of w := (of_store (fo_office w)).
Abbreviation dir_of w := (of_dir (fo_office w)).
Abbreviation sender_of_post := (mkCaller (sm_user_id p) (sm_org_id p)).

(** Each colleague reads back as what it was entered as. *)
Definition readable (d : directory) : Prop :=
  ∀ r, r ∈ dir_colleagues d → ∃ col, read_colleague d (cw_id r) = Ok col ∧ rcol_agent_id col = cw_agent_id r
    ∧ rcol_user_id col = cw_user_id r.

Definition tag_row (d : directory) (target : TagTarget) (tag : ResolvedTag) : Prop :=
  match target with
  | TagAgent a => tg_agent tag = Some a ∧ resolve_agent_row d (sm_org_id p) a = Ok (tg_colleague tag)
  | TagHuman u => tg_agent tag = None ∧ resolve_user_row d (sm_org_id p) u = Ok (tg_colleague tag)
  end.
(** The agent at the other end of a thread of [w]. *)
Definition at_end (w : front) (thread : ThreadId) (tag : option ResolvedTag) : Prop :=
  match threads (store_of w) !! thread ≫= th_dm_counterpart with
  | None => tag = None
  | Some c => ∃ col, read_colleague (dir_of w) c = Ok col ∧ tag = (λ a, mkTag c (Some a)) <$> rcol_agent_id col
  end.
(** Before there is a thread, the end it will have. *)
Definition to_end (w : front) (f : option (ThreadId * ThreadMessageId)) (tag : option ResolvedTag) : Prop :=
  match (match f with Some (t, _) => Some t | None => sm_thread_id p end) with
  | Some thread => at_end w thread tag
  | None =>
      match sm_counterpart p, sm_channel_id p with
      | Some (TagAgent a), None => ∃ t, tag = Some t ∧ tag_row (dir_of w) (TagAgent a) t
      | _, _ => tag = None
      end
  end.

Definition all_tags (explicit : list ResolvedTag) (implicit : option ResolvedTag) : list ResolvedTag :=
  if is_empty (omap tg_agent explicit) then explicit ++ match implicit with Some t => [t] | None => [] end else explicit.

(** [agent] has its place in [thread], and request [rid] wakes it there. *)
Definition awake (w : front) (sender : ColleagueId) (thread : ThreadId) (message : ThreadMessageId)
    (agent : AgentId) (rid : PromptRequestId) : Prop :=
  ∃ state key, placed_in (store_of w) (sm_user_id p) thread agent state
    ∧ per_agent_key (sm_idempotency_key p) agent = Ok key
    ∧ enqueued (submit_trigger p sender thread message agent state key) rid (queue_view (fo_office w)).

(** The queue's copies of the others' tables are up to date. *)
Definition synced (w : front) : Prop := of_queue (fo_office w) = queue_view (fo_office w).

(** What is known of a submit after its row is in the feed. *)
Record in_feed (w : front) (sender : ColleagueId) (explicit : list ResolvedTag) (implicit : option ResolvedTag)
    (thread : ThreadId) (message : ThreadMessageId) : Prop := {
  if_sender : resolve_user_row (dir_of w) (sm_org_id p) (sm_user_id p) = Ok sender;
  if_tags : Forall2 (tag_row (dir_of w)) (sm_tags p) explicit;
  if_end : omap tg_agent explicit = [] → at_end w thread implicit;
  if_posted : posted_under (sm_user_id p) (sm_org_id p) (sm_idempotency_key p) (store_of w) = Some (thread, message) }.

Definition settled (w : front) (out : SubmitOutcome) : Prop :=
  ∃ sender explicit implicit message ids,
    let agents := omap tg_agent (all_tags explicit implicit) in
    in_feed w sender explicit implicit (su_thread_id out) message
    ∧ Forall2 (awake w sender (su_thread_id out) message) agents ids
    ∧ (agents ≠ [] → synced w)
    ∧ out = mkOutcome (head ids) (su_thread_id out) (if is_empty agents then None else Some Pending) agents (su_existed out).

Lemma map_err_Ok {E F A} (g : E → F) (r : res E A) a : res_map_err g r = Ok a → r = Ok a.
Proof. destruct r; by intros [= <-]. Qed.

(** *** A submit that answers is settled *)

Section first.
Context `{Entitlements} (env : SubmitEnv) `{!Alone (sv_net env)}.

(** From tables of [P], if [m] answers, the answer and the tables are of [R]. *)
Definition gives {A} (P : front → Prop) (m : SP A) (R : A → front → Prop) : Prop :=
  ensures P m (λ r w, ∀ a, r = Ok a → R a w).

Lemma gives_bind {A B} P (m : SP A) (k : A → SP B) R Q :
  gives P m R → (∀ a, gives (R a) (k a) Q) → gives P (pbind m k) Q.
Proof.
  intros Hm Hk. eapply ensures_bind; [|exact Hk]. eapply ensures_mono; [exact Hm|done|].
  intros [a|e|m'] w HR; [by apply HR|done|done].
Qed.
Lemma gives_ret {A} (P : front → Prop) (a : A) (R : A → front → Prop) : (∀ w, P w → R a w) → gives P (pret a) R.
Proof. intros HR. apply ensures_ret. intros w Hw b [= <-]. by apply HR. Qed.
Lemma gives_err {A} P (e : SubmitError) (R : A → front → Prop) : gives P (perr e) R.
Proof. by apply ensures_err. Qed.
Lemma gives_lift {A B} P (r : res SubmitError A) (k : A → SP B) Q :
  (∀ a, r = Ok a → gives P (k a) Q) → gives P (pbind (plift r) k) Q.
Proof. intros Hk. by apply ensures_bind_lift. Qed.
Lemma gives_weaken {A} P (m : SP A) (R R' : A → front → Prop) : gives P m R → (∀ a w, R a w → R' a w) → gives P m R'.
Proof. intros Hm HR s Hs a Ha. by apply HR, Hm. Qed.

Lemma gives_read {A} (P : front → Prop) (ev : res SubmitError A → scall) f :
  gives P (submit_read env ev f) (λ a w, P w ∧ ∃ n, f n w = Ok a).
Proof.
  apply ensures_call; [done|]. intros n w Hw. cbn. split; [|done]. intros a Ha. split; [done|]. by exists n.
Qed.
Lemma gives_store {A} P (ev : res SubmitError A → scall) f (R : A → front → Prop) :
  (∀ n w a s, P w → f n (store_of w) = (Ok a, s) → R a (with_office (with_store s (fo_office w)) w)) →
  gives P (store_step env ev f) R.
Proof.
  intros Hf. apply ensures_call; [done|]. intros n w Hw. specialize (Hf n w).
  destruct (f n _) as [[a|e|m] s]; cbn; (split; [|done]); [|done..]. intros b [= <-]. by apply Hf.
Qed.
Lemma gives_queue {A} P (ev : res SubmitError A → scall) f (R : A → front → Prop) :
  (∀ n w a d, P w → f n (queue_view (fo_office w)) = (Ok a, d) → R a (with_office (with_queue d (fo_office w)) w)) →
  gives P (queue_step env ev f) R.
Proof.
  intros Hf. apply ensures_call; [done|]. intros n w Hw. specialize (Hf n w).
  destruct (f n _) as [[a|e|m] d]; cbn; (split; [|done]); [|done..]. intros b [= <-]. by apply Hf.
Qed.

Lemma gives_target P target :
  gives P (resolve_target_colleague env (sm_org_id p) target) (λ tag w, P w ∧ tag_row (dir_of w) target tag).
Proof.
  assert (Hread : ∀ (ev : res SubmitError ColleagueId → scall) f msg,
    gives P (pmap_err (λ _ : SubmitError, msg) (submit_read env ev f)) (λ a w, P w ∧ ∃ n, f n w = Ok a)).
  { intros ev f msg. apply ensures_map_err.
    refine (ensures_mono _ _ _ _ _ (gives_read P ev f) _ _); [done|]. cbn beta.
    intros r w Hr a Ha. destruct r as [a1|e|m]; cbn in Ha; [|discriminate Ha..]. injection Ha as ->. apply (Hr a eq_refl). }
  destruct target as [a|u]; cbn [resolve_target_colleague]; (eapply gives_bind; [apply Hread|]); intros c; apply gives_ret.
  - intros w (Hw & n & Hr). split; [done|]. split; [done|]. by eapply map_err_Ok.
  - intros w (Hw & n & Hr). split; [done|]. split; [done|]. by eapply map_err_Ok.
Qed.
Lemma gives_tags P tags :
  gives P (resolve_tag_loop env (sm_org_id p) tags) (λ out w, P w ∧ Forall2 (tag_row (dir_of w)) tags out).
Proof.
  revert P. induction tags as [|t tags IH]; intros P; cbn [resolve_tag_loop]; [by apply gives_ret|].
  eapply gives_bind; [apply gives_target|]. intros tag. eapply gives_bind; [apply IH|]. intros out.
  apply gives_ret. intros w [[Hw Ht] Ho]. split; [done|]. by constructor.
Qed.
Lemma gives_implicit P f :
  gives P (implicit_dm_receiver env (sm_org_id p) p f) (λ tag w, P w ∧ to_end w f tag).
Proof.
  unfold implicit_dm_receiver, to_end. destruct (match f with Some (t, _) => Some t | None => sm_thread_id p end) as [t|].
  2: { destruct (sm_counterpart p) as [[a|u]|], (sm_channel_id p); try (apply gives_ret; by intros).
       eapply gives_bind; [apply gives_target|]. intros tag. apply gives_ret. intros w [Hw Ht]. split; [done|]. by exists tag. }
  set (known := λ (c : option ColleagueId) w, P w ∧ c = threads (store_of w) !! t ≫= th_dm_counterpart).
  eapply (gives_bind _ _ _ (λ x w, match x with
     | inr c => known c w | inl (ThreadNotFound _) => known None w | inl _ => True end)).
  { apply ensures_catch. apply ensures_call; [done|]. intros n w Hw. cbn. unfold dm_counterpart, known.
    split; [|by intros msg; split; intros ? [= <-]]. destruct (threads (store_of w) !! t); cbn; by intros x [= <-]. }
  intros x. eapply (gives_bind _ _ _ known).
  { destruct x as [[]|c]; first [apply gives_err|by apply gives_ret]. }
  unfold known. intros [c|]; [|apply gives_ret; unfold at_end; by intros w [Hw <-]].
  eapply gives_bind; [apply gives_read|]. intros col. apply gives_ret. intros w ([Hw Hc] & n & Hr). split; [done|].
  unfold at_end. rewrite <-Hc. exists col. split; [|done]. by eapply map_err_Ok.
Qed.

(** What is known before the row is posted, and once its thread is open. *)
Record before (f : option (ThreadId * ThreadMessageId)) sender explicit implicit (w : front) : Prop := {
  be_dir : readable (dir_of w);
  be_sender : resolve_user_row (dir_of w) (sm_org_id p) (sm_user_id p) = Ok sender;
  be_tags : Forall2 (tag_row (dir_of w)) (sm_tags p) explicit;
  be_posted : posted_under (sm_user_id p) (sm_org_id p) (sm_idempotency_key p) (store_of w) = f;
  be_end : omap tg_agent explicit = [] → to_end w f implicit }.
Record opened sender explicit implicit (thread : ThreadId) (w : front) : Prop := {
  op_sender : resolve_user_row (dir_of w) (sm_org_id p) (sm_user_id p) = Ok sender;
  op_tags : Forall2 (tag_row (dir_of w)) (sm_tags p) explicit;
  op_posted : posted_under (sm_user_id p) (sm_org_id p) (sm_idempotency_key p) (store_of w) = None;
  op_org : th_org_id <$> visible_thread (store_of w) (sm_user_id p) thread = Some (sm_org_id p);
  op_end : omap tg_agent explicit = [] → at_end w thread implicit }.

(** A colleague a tag names reads back as the tag says. *)
Lemma tag_reads d target tag :
  readable d → tag_row d target tag → ∃ col, read_colleague d (tg_colleague tag) = Ok col ∧ rcol_agent_id col = tg_agent tag.
Proof.
  intros Hd Ht. destruct target as [a|u]; cbn in Ht; destruct Ht as [Ha Hr].
  - unfold resolve_agent_row in Hr. destruct (List.find _ _) as [r|] eqn:Ef; [|done]. injection Hr as <-.
    apply List.find_some in Ef as [Hin Hb]. bools. apply list_elem_of_In in Hin.
    destruct (Hd r Hin) as (col & Hc & Hag & _). exists col. split; [done|]. congruence.
  - unfold resolve_user_row in Hr. destruct (List.find _ _) as [r|] eqn:Ef; [|done]. injection Hr as <-.
    apply List.find_some in Ef as [Hin Hb]. bools. apply list_elem_of_In in Hin.
    destruct (Hd r Hin) as (col & Hc & Hag & Hu). exists col. split; [done|]. rewrite Ha.
    destruct (read_colleague_participant _ _ _ Hc) as (_ & q & Hq & _ & Hpu & Hpa & _).
    unfold Participant_from in Hq. destruct (rcol_kind col); cbn in Hq.
    + destruct (rcol_user_id col); [|done]. injection Hq as <-. by rewrite <-Hpa.
    + destruct (rcol_agent_id col); [|done]. injection Hq as <-. cbn in Hpu. congruence.
Qed.

Lemma create_settles fk channel by_ dm id now s t s' :
  Threads.create_thread fk sender_of_post channel None by_ dm id now s = (Ok t, s') →
  th_org_id <$> visible_thread s' (sm_user_id p) t = Some (sm_org_id p)
  ∧ threads s' !! t ≫= th_dm_counterpart = dm ∧ thread_messages s' = thread_messages s ∧ org_members s' = org_members s.
Proof.
  unfold Threads.create_thread. destruct (negb _); [discriminate|]. destruct (negb _); [discriminate|].
  cbn [user_id org_id]. destruct (member s _ _) eqn:Em; [|discriminate]. destruct (threads s !! id) eqn:Et; [discriminate|].
  destruct fk; [|discriminate]. intros [= <- <-]. cbn [threads thread_messages org_members set_feed].
  split_and!; [|by rewrite lookup_insert_eq|done..].
  unfold visible_thread, member in *. cbn [threads set_feed org_members]. rewrite lookup_insert_eq. cbn [th_org_id].
  by rewrite Em.
Qed.

Lemma opened_by sender explicit implicit w s t :
  before None sender explicit implicit w →
  thread_messages s = thread_messages (store_of w) → org_members s = org_members (store_of w) →
  th_org_id <$> visible_thread s (sm_user_id p) t = Some (sm_org_id p) →
  (omap tg_agent explicit = [] → at_end (with_office (with_store s (fo_office w)) w) t implicit) →
  opened sender explicit implicit t (with_office (with_store s (fo_office w)) w).
Proof.
  intros [Hd Hs Ht Hp He] Hm Ho Hv Ha. split; [exact Hs|exact Ht| |exact Hv|exact Ha].
  unfold posted_under, member in *. cbn. by rewrite Hm, Ho.
Qed.

Lemma gives_thread sender explicit implicit :
  gives (before None sender explicit implicit) (resolve_thread env sender_of_post p sender) (opened sender explicit implicit).
Proof.
  unfold resolve_thread, create_thread. destruct (sm_thread_id p) as [t|] eqn:Et; [|destruct (sm_channel_id p) as [ch|] eqn:Ec].
  - eapply gives_bind; [apply gives_read|]. intros [|]; [|apply gives_err]. apply gives_ret.
    intros w ([Hd Hs Ht Hp He] & n & [= Hv]). unfold thread_visible_to in Hv.
    destruct (visible_thread _ _ _) as [th|] eqn:Eth; [|done]. cbn [user_id org_id] in *. apply andb_true_iff in Hv as [Hv _]. bools.
    split; try done; [by rewrite Eth; cbn; f_equal|]. intros Hn. specialize (He Hn). unfold to_end in He. by rewrite Et in He.
  - eapply (gives_bind _ _ _ (λ _, before None sender explicit implicit)).
    { unfold ensure_channel_member. eapply gives_bind; [apply gives_read|]. intros [|]; [|apply gives_err].
      apply gives_ret. by intros w [? _]. }
    intros _. apply gives_store. intros n w t s Hb Hc. apply create_settles in Hc as (Hv & Hdm & Hm & Ho).
    apply opened_by; try done. intros Hn. pose proof (be_end _ _ _ _ _ Hb Hn) as He. unfold to_end in He. rewrite Et, Ec in He.
    unfold at_end. cbn. rewrite Hdm. by destruct (sm_counterpart p) as [[]|].
  - apply gives_lift. intros target Htarget. destruct (sm_counterpart p) as [target'|] eqn:Ect; [|done]. injection Htarget as ->.
    eapply gives_bind; [apply gives_target|]. intros tag. apply gives_store. intros n w t s [Hb Ht] Hc.
    apply create_settles in Hc as (Hv & Hdm & Hm & Ho). apply opened_by; try done. intros Hn.
    pose proof (be_end _ _ _ _ _ Hb Hn) as He. unfold to_end in He. rewrite Et, Ec, Ect in He.
    unfold at_end. cbn. rewrite Hdm. destruct (tag_reads _ _ _ (be_dir _ _ _ _ _ Hb) Ht) as (col & Hcol & Hag).
    exists col. split; [exact Hcol|]. rewrite Hag. destruct target as [a|u]; cbn in Ht; destruct Ht as [Ha Hr].
    + destruct He as ([c ag] & -> & Hag' & Hr'). cbn in *. rewrite Ha. cbn. congruence.
    + by rewrite Ha.
Qed.

Lemma gives_post sender tags explicit implicit :
  gives (before None sender explicit implicit) (post_message env sender_of_post p sender tags)
    (λ x w, in_feed w sender explicit implicit x.1 x.2).
Proof.
  unfold post_message. eapply gives_bind; [apply gives_thread|]. intros t. apply gives_lift. intros body _.
  eapply (gives_bind _ _ _ (λ m w, in_feed w sender explicit implicit t m)); [|intros m; by apply gives_ret].
  apply gives_store. intros n w m s [Hs Ht Hp Ho He] Ha.
  apply (append_settles _ _ _ _ (sm_idempotency_key p)) in Ha as [Hposted Hdm]; [|done..].
  split; [exact Hs|exact Ht| |exact Hposted]. intros Hn. specialize (He Hn). unfold at_end in *. cbn.
  assert (Heq : threads s !! t ≫= th_dm_counterpart = threads (store_of w) !! t ≫= th_dm_counterpart).
  { specialize (Hdm t). destruct (threads s !! t), (threads (store_of w) !! t); cbn in *; congruence. }
  by rewrite Heq.
Qed.

(** *** The agents are woken one after the other *)

Lemma view_synced fk id now tp trig (o : office) rid d :
  enqueue_trigger_impl fk id now tp trig (queue_view o) = (Ok rid, d) →
  queue_view (with_queue d o) = d ∧ enqueued trig rid d ∧ grows (queue_view o) d.
Proof.
  intros He. apply enqueue_settles in He as (Hq & Hg & Hs). split; [|done].
  destruct Hg as [Hc Hm _ _ _]. unfold queue_view at 1. cbn [of_queue of_dir of_store with_queue].
  unfold queue_view in Hc, Hm, Hs. cbn in Hc, Hm, Hs. destruct d. cbn in *. by subst.
Qed.

Lemma view_grows o s : more_places (of_store o) s → grows (queue_view o) (queue_view (with_store s o)).
Proof.
  intros [l ->]. split; try done; [|by exists []; rewrite app_nil_r]. intros st o'. cbn. rewrite fmap_app, list_to_map_app.
  intros Hst. by apply lookup_union_Some_l.
Qed.
Lemma awake_places w s sender t m a rid :
  awake w sender t m a rid → more_places (store_of w) s → awake (with_office (with_store s (fo_office w)) w) sender t m a rid.
Proof.
  intros (st & key & Hp & Hk & He) Hs. exists st, key. split_and!; [by eapply placed_more|done|].
  eapply enqueued_grows; [exact He|]. by apply view_grows.
Qed.
Lemma awake_requests w d sender t m a rid :
  awake w sender t m a rid → grows (queue_view (fo_office w)) d → queue_view (with_queue d (fo_office w)) = d →
  awake (with_office (with_queue d (fo_office w)) w) sender t m a rid.
Proof.
  intros (st & key & Hp & Hk & He) Hg Hv. exists st, key. split_and!; [done|done|]. cbn. rewrite Hv.
  by eapply enqueued_grows.
Qed.
Lemma in_feed_places w s sender explicit implicit t m :
  in_feed w sender explicit implicit t m → more_places (store_of w) s →
  in_feed (with_office (with_store s (fo_office w)) w) sender explicit implicit t m.
Proof. intros [Hs Ht He Hp] [l ->]. by split. Qed.

Lemma gives_triggers sender explicit implicit t m agents done_ ids :
  gives (λ w, in_feed w sender explicit implicit t m ∧ Forall2 (awake w sender t m) done_ ids ∧ (done_ ≠ [] → synced w))
    (trigger_loop env sender_of_post p sender t m agents)
    (λ ids' w, in_feed w sender explicit implicit t m ∧ Forall2 (awake w sender t m) (done_ ++ agents) (ids ++ ids')
      ∧ (done_ ++ agents ≠ [] → synced w)).
Proof.
  revert done_ ids. induction agents as [|a agents IH]; intros done_ ids; cbn [trigger_loop].
  { apply gives_ret. intros w. by rewrite !app_nil_r. }
  eapply (gives_bind _ _ _ (λ st w, in_feed w sender explicit implicit t m ∧ Forall2 (awake w sender t m) done_ ids
    ∧ placed_in (store_of w) (sm_user_id p) t a st)).
  { apply gives_store. intros n w st s (Hf & Hd & _) Hp. apply participation_settles in Hp as [Hp Hmore].
    split_and!; [by apply in_feed_places| |exact Hp]. eapply Forall2_impl; [exact Hd|]. intros. by apply awake_places. }
  intros st. apply gives_lift. intros key Hkey.
  eapply (gives_bind _ _ _ (λ id w, in_feed w sender explicit implicit t m
    ∧ Forall2 (awake w sender t m) (done_ ++ [a]) (ids ++ [id]) ∧ (done_ ++ [a] ≠ [] → synced w))).
  { apply gives_queue. intros n w id d (Hf & Hd & Hp) He. apply view_synced in He as (Hv & Hq & Hg).
    split_and!; [by destruct Hf| |by intros _; symmetry; exact Hv]. apply Forall2_app.
    - eapply Forall2_impl; [exact Hd|]. intros. by apply awake_requests.
    - constructor; [|constructor]. exists st, key. split_and!; [exact Hp|exact Hkey|]. cbn. by rewrite Hv. }
  intros id. eapply gives_bind; [apply (IH (done_ ++ [a]) (ids ++ [id]))|]. intros ids'. apply gives_ret.
  intros w. by rewrite <-!app_assoc.
Qed.

Lemma submit_settles :
  gives (λ w, readable (dir_of w)) (submit_internal env p) (λ out w, settled w out).
Proof.
  unfold submit_internal. apply gives_lift. intros _ _. apply gives_lift. intros _ _.
  eapply gives_bind; [apply gives_read|]. intros f. eapply gives_bind; [apply gives_read|]. intros sender.
  unfold resolve_tags. eapply (gives_bind _ _ _ (λ out w, _ ∧ Forall2 (tag_row (dir_of w)) (sm_tags p) out)).
  { apply gives_lift. intros _ _. apply gives_tags. }
  intros explicit. eapply (gives_bind _ _ _ (λ tags w, ∃ implicit, tags = all_tags explicit implicit ∧ before f sender explicit implicit w)).
  { unfold all_tags. destruct (is_empty (omap tg_agent explicit)) eqn:Ee; bools.
    - eapply gives_bind; [apply gives_implicit|]. intros implicit. apply gives_ret.
      intros w ((((Hd & n & [= Hf]) & n' & Hs) & Ht) & Hi). exists implicit. split; [done|]. split; try done. by eapply map_err_Ok.
    - apply gives_ret. intros w (((Hd & n & [= Hf]) & n' & Hs) & Ht). exists None. split; [done|]. split; try done.
      by eapply map_err_Ok. }
  intros tags. set (agents := omap tg_agent tags).
  eapply (gives_bind _ _ _ (λ _ w, ∃ implicit, tags = all_tags explicit implicit ∧ before f sender explicit implicit w)).
  { destruct (is_empty agents); [by apply gives_ret|]. eapply gives_weaken; [apply gives_read|].
    by intros _ w [? _]. }
  intros _. eapply (gives_bind _ _ _ (λ x w, ∃ implicit, tags = all_tags explicit implicit ∧ in_feed w sender explicit implicit x.1 x.2)).
  { destruct f as [[t m]|].
    - apply gives_ret. intros w (implicit & Htags & [Hd Hs Ht Hp He]). exists implicit. split; [done|]. by split.
    - intros s (implicit & Htags & Hb). intros x Hx. exists implicit. split; [done|].
      by apply (gives_post sender tags explicit implicit s Hb). }
  intros [t m]. cbn [fst snd]. destruct (is_empty agents) eqn:Ee; bools.
  - apply gives_ret. intros w (implicit & Htags & Hf). exists sender, explicit, implicit, m, []. cbn zeta.
    rewrite <-Htags. fold agents. rewrite Ee. by split_and!.
  - unfold enqueue_tag_triggers. eapply (gives_bind _ _ _ (λ ids w, ∃ implicit, tags = all_tags explicit implicit
      ∧ in_feed w sender explicit implicit t m ∧ Forall2 (awake w sender t m) agents ids ∧ synced w)).
    + apply gives_lift. intros _ _. intros s (implicit & Htags & Hf) ids Hids. exists implicit. split; [done|].
      destruct (gives_triggers sender explicit implicit t m agents [] [] s) with (a := ids) as (Hf' & Hw & Hs); [|exact Hids|].
      * by split_and!.
      * cbn [app] in *. by split_and!; [..|apply Hs].
    + intros ids. apply gives_ret. intros w (implicit & Htags & Hf & Hw & Hs).
      exists sender, explicit, implicit, m, ids. cbn zeta. rewrite <-Htags. fold agents. cbn [su_thread_id su_existed].
      split_and!; [done..|]. by destruct agents.
Qed.
End first.

(** *** A settled submit is found as it was left *)

Section second.
Context `{Entitlements} (env : SubmitEnv) `{!Alone (sv_net env)} (Hfaults : ∀ n, net_fault (sv_net env) n = None) (w : front).

(** From the tables [w], [m] answers [a] and leaves them. *)
Definition stays {A} (m : SP A) (a : A) : Prop :=
  ∀ s, run_tables s = w → (m s).1 = Ok a ∧ run_tables (m s).2 = w.

Lemma stays_bind {A B} (m : SP A) (k : A → SP B) a b : stays m a → stays (k a) b → stays (pbind m k) b.
Proof.
  intros Hm Hk s Hs. destruct (Hm s Hs) as [Ha Hw]. unfold pbind. destruct (m s) as [r s']. cbn in Ha, Hw. subst r.
  by apply Hk.
Qed.
Lemma stays_lift {A} (r : res SubmitError A) a : r = Ok a → stays (plift r) a.
Proof. by intros -> s Hs. Qed.
Lemma stays_ret {A} (a : A) : stays (pret a) a.
Proof. by apply stays_lift. Qed.
Lemma stays_call {E A} (ev : res E A → scall) (wrap : str → E) f r s :
  (∀ n, f n w = (r, w)) → run_tables s = w →
  (pcall (sv_net env) ev wrap f s).1 = r ∧ run_tables (pcall (sv_net env) ev wrap f s).2 = w.
Proof. intros Hf Hs. unfold pcall. rewrite alone, Hs, Hf, Hfaults. done. Qed.
Lemma stays_read {A} (ev : res SubmitError A → scall) f a : (∀ n, f n w = Ok a) → stays (submit_read env ev f) a.
Proof. intros Hf s Hs. apply stays_call; [|done]. intros n. by rewrite Hf. Qed.
Lemma stays_store {A} (ev : res SubmitError A → scall) f a :
  (∀ n, f n (store_of w) = (Ok a, store_of w)) → stays (store_step env ev f) a.
Proof.
  intros Hf s Hs. apply stays_call; [|done]. intros n. rewrite Hf. f_equal. by destruct w as [[] ? ?].
Qed.
Lemma stays_queue {A} (ev : res SubmitError A → scall) f a :
  (∀ n, f n (queue_view (fo_office w)) = (Ok a, of_queue (fo_office w))) → stays (queue_step env ev f) a.
Proof.
  intros Hf s Hs. apply stays_call; [|done]. intros n. rewrite Hf. f_equal. by destruct w as [[] ? ?].
Qed.

Lemma stays_target target tag :
  tag_row (dir_of w) target tag → stays (resolve_target_colleague env (sm_org_id p) target) tag.
Proof.
  assert (Hread : ∀ (ev : res SubmitError ColleagueId → scall) f msg c, (∀ n, f n w = Ok c) →
    stays (pmap_err (λ _ : SubmitError, msg) (submit_read env ev f)) c).
  { intros ev f msg c Hf s Hs. destruct (stays_read ev f c Hf s Hs) as [H1 H2]. unfold pmap_err.
    destruct (submit_read env ev f s) as [r s']. cbn in H1, H2. by rewrite H1. }
  destruct tag as [c ag]. destruct target as [a|u]; cbn [tag_row tg_agent tg_colleague resolve_target_colleague]; intros [-> Hr].
  all: eapply stays_bind; [apply Hread; intros n; by rewrite Hr|apply stays_ret].
Qed.
Lemma stays_tags tags out :
  Forall2 (tag_row (dir_of w)) tags out → stays (resolve_tag_loop env (sm_org_id p) tags) out.
Proof.
  induction 1 as [|target tag tags out Ht _ IH]; cbn [resolve_tag_loop]; [apply stays_ret|].
  eapply stays_bind; [by apply stays_target|]. eapply stays_bind; [exact IH|]. apply stays_ret.
Qed.
Lemma stays_implicit thread message tag :
  at_end w thread tag → stays (implicit_dm_receiver env (sm_org_id p) p (Some (thread, message))) tag.
Proof.
  intros Ht. unfold implicit_dm_receiver.
  set (answer := match threads (store_of w) !! thread with
    | Some th => inr (th_dm_counterpart th) | None => inl (ThreadNotFound thread) end : ThreadError + option ColleagueId).
  apply (stays_bind _ _ answer).
  { intros s Hs. pose proof (stays_call (SDmCounterpart thread) (λ m, ThreadDb (ascii m))
      (λ _ w, (dm_counterpart thread (store_of w), w)) _ s (λ _, eq_refl) Hs) as [H1 H2].
    unfold pcatch. destruct (pcall _ _ _ _ s) as [r s']. cbn [fst snd] in H1, H2. rewrite H1. unfold dm_counterpart, answer.
    by destruct (threads (store_of w) !! thread). }
  apply (stays_bind _ _ (threads (store_of w) !! thread ≫= th_dm_counterpart)).
  { unfold answer. destruct (threads (store_of w) !! thread); apply stays_ret. }
  unfold at_end in Ht. destruct (threads (store_of w) !! thread ≫= th_dm_counterpart) as [c|]; [|subst tag; apply stays_ret].
  destruct Ht as (col & Hc & ->). apply (stays_bind _ _ col); [|apply stays_ret].
  apply stays_read. intros n. by rewrite Hc.
Qed.

Lemma stays_triggers sender t m agents ids :
  Forall2 (awake w sender t m) agents ids → (agents ≠ [] → synced w) →
  stays (trigger_loop env sender_of_post p sender t m agents) ids.
Proof.
  intros Ha Hs. destruct agents as [|a0 agents0] eqn:E; [inversion Ha; apply stays_ret|]. rewrite <-E in *.
  assert (Hsync : synced w) by (apply Hs; by rewrite E). clear E Hs a0 agents0.
  induction Ha as [|a id agents ids (st & key & Hp & Hk & He) _ IH]; cbn [trigger_loop]; [apply stays_ret|].
  eapply stays_bind; [apply stays_store; intros n; by apply participation_again|].
  eapply stays_bind; [by apply stays_lift|].
  eapply stays_bind; [apply stays_queue; intros n; rewrite Hsync; by apply enqueue_again|].
  eapply stays_bind; [exact IH|]. apply stays_ret.
Qed.

Definition found_again (out : SubmitOutcome) : SubmitOutcome :=
  mkOutcome (su_request_id out) (su_thread_id out) (su_status out) (su_triggered_agent_ids out) true.

Lemma submit_stays out :
  submittable p → settled w out →
  (su_triggered_agent_ids out ≠ [] → ∀ n, Billing.check_or_fail_for_user (sees (fo_office w) (sm_user_id p)) (sm_org_id p)
     (sv_today env n) (fo_billing w) = Ok tt) →
  stays (submit_internal env p) (found_again out).
Proof.
  intros (Ht & Ha & _) (sender & explicit & implicit & m & ids & [Hs Htags He Hp] & Hw & Hsync & Hout) Hgate.
  set (agents := omap tg_agent (all_tags explicit implicit)) in *.
  assert (Htriggered : su_triggered_agent_ids out = agents) by (by rewrite Hout).
  unfold submit_internal, rassert. rewrite (proj2 (Nat.leb_le _ _) Ht), (proj2 (Nat.leb_le _ _) Ha).
  eapply stays_bind; [by apply stays_lift|]. eapply stays_bind; [by apply stays_lift|]. cbn zeta.
  eapply stays_bind; [apply stays_read; intros n; by rewrite Hp|].
  eapply stays_bind; [apply stays_read; intros n; by rewrite Hs|].
  eapply (stays_bind _ _ explicit).
  { unfold resolve_tags, rassert. rewrite (proj2 (Nat.leb_le _ _) Ht).
    eapply stays_bind; [by apply stays_lift|]. by apply stays_tags. }
  eapply (stays_bind _ _ (all_tags explicit implicit)).
  { unfold all_tags. destruct (is_empty (omap tg_agent explicit)) eqn:Ee; bools; [|apply stays_ret].
    eapply stays_bind; [apply stays_implicit; by apply He|]. apply stays_ret. }
  fold agents. eapply (stays_bind _ _ tt).
  { destruct (is_empty agents) eqn:Ee; bools; [apply stays_ret|]. apply stays_read. intros n. rewrite Hgate; [done|congruence]. }
  eapply (stays_bind _ _ (su_thread_id out, m)); [apply stays_ret|]. cbn [fst snd].
  destruct (is_empty agents) eqn:Ee; bools.
  - rewrite Ee in Hw, Hout. inversion Hw; subst ids. unfold found_again. rewrite Hout. apply stays_ret.
  - eapply (stays_bind _ _ ids).
    + unfold enqueue_tag_triggers, rassert. assert (Hlen : length agents ≤ MAX_TAGS_PER_MESSAGE + 1).
      { assert (Hle : ∀ l, length (omap tg_agent l) ≤ length l).
        { intros l. induction l as [|x l IH]; cbn; [done|]. destruct (tg_agent x); cbn in *; lia. }
        etrans; [apply Hle|]. pose proof (Forall2_length _ _ _ Htags). unfold all_tags.
        destruct (is_empty _); [rewrite length_app; destruct implicit; cbn [length]|]; lia. }
      rewrite (proj2 (Nat.leb_le _ _) Hlen). eapply stays_bind; [by apply stays_lift|]. by apply stays_triggers.
    + unfold found_again. rewrite Hout. cbn [su_request_id su_thread_id su_status su_triggered_agent_ids].
      destruct agents; [done|]. apply stays_ret.
Qed.
End second.
End settled.

(** C16: Posting again under the same key, through any server of the same tables, answers with
    the same request, thread and agents, says that it existed, and changes nothing — as
    long as the first one answered, the directory reads back, no other writes between
    and the gate still lets the retry through when it wakes an agent. *)
Theorem submit_again `{UuidPrinter, Entitlements} (env env' : SubmitEnv) `{!Alone (sv_net env), !Alone (sv_net env')}
    url host user org rq s existed out s' :
  (∀ n, net_fault (sv_net env') n = None) →
  readable (of_dir (fo_office (run_tables s))) →
  (submit_prompt env url host user org rq s).1 = Ok (existed, out) →
  let w := run_tables (submit_prompt env url host user org rq s).2 in
  (su_triggered_agent_ids out ≠ [] → ∀ n, Billing.check_or_fail_for_user (sees (fo_office w) user) org (sv_today env' n)
     (fo_billing w) = Ok tt) →
  run_tables s' = w →
  (submit_prompt env' url host user org rq s').1 = Ok (true, found_again out)
  ∧ run_tables (submit_prompt env' url host user org rq s').2 = w.
Proof.
  unfold submit_prompt. destruct (parse_submit url host user org rq) as [p| |] eqn:Hp; [|done..]. cbn [pbind plift].
  intros Hfaults Hd. pose proof (submit_settles p env s Hd) as Hs. pose proof (parse_submit_ok _ _ _ _ _ _ Hp) as Hsub.
  assert (sm_user_id p = user ∧ sm_org_id p = org) as [<- <-].
  { unfold parse_submit in Hp. res_inv. split; reflexivity. }
  unfold pbind. destruct (submit_internal env p s) as [[out1|e|m] s1] eqn:E; cbn [fst snd pret]; [|done..].
  intros [= <- <-]. intros Hgate Hw.
  destruct (submit_stays p env' Hfaults (run_tables s1) out1 Hsub (Hs out1 eq_refl) Hgate s' Hw) as [H1 H2].
  destruct (submit_internal env' p s') as [r s2]. cbn in H1, H2. by subst r.
Qed.

(** * Submitting prompts on concrete offices

    The witnesses of [SubmitLaws] and [SubmitRetry], and what the model shows on the
    keys: whose they are, how long they may be, and what a race of two submits leaves. *)

Module SubmitDemo.
#[local] Instance uuid : UuidPrinter := λ n, show_Z (Z.of_N n).
#[local] Instance free : Entitlements := UnlimitedEntitlements.

(** Users 1 and 2, agents 7 and 8, all of organisation 1. *)
Definition dir : directory :=
  mkDirectory [mkColleagueRow 3 1 CKAgent None (Some 7%N); mkColleagueRow 4 1 CKHuman (Some 1%N) None;
               mkColleagueRow 5 1 CKHuman (Some 2%N) None; mkColleagueRow 6 1 CKAgent None (Some 8%N)]
    {[ 7%N := lit "Ada"; 8%N := lit "Bo" ]}
    {[ 1%N := mkUserRow (Some (lit "Eve")) None; 2%N := mkUserRow (Some (lit "Dan")) None ]} [] [].
Definition members : store :=
  mkStore ∅ ∅ [] ∅ ∅ ∅ [] [(1, 1); (2, 1)]%N (λ _, None).
Definition here : front :=
  mkFront (mkOffice members Demo.db1 dir (of_log SendDemo.here) (of_hub SendDemo.here) (of_approvals SendDemo.here))
    empty_bdb ∅.
Definition env (base : N) : SubmitEnv :=
  mkSubmitEnv calm (λ n, Z.of_nat n + 100)%Z (λ n, N.of_nat n + base)%N (λ _, true) (λ _ _, true) None
    (λ _, (2026, 5, 3)%Z).
Definition request (key : string) (to : option TagTarget) (tags : list TagTarget) : SubmitPromptRequest :=
  mkSubmitRequest None tags None to (lit "Please check the figures.") [] (lit key).
Definition urls (raw : str) : res ParseError str := Ok raw.
Definition submit (base : N) (user : UserId) (rq : SubmitPromptRequest) (w : front) :=
  submit_prompt (env base) urls None user 1%N rq (mkRun w []).

(** User 1 writes to agent 7. *)
Definition first := submit 500 1%N (request "k" (Some (TagAgent 7%N)) []) here.
Definition then_ : front := run_tables first.2.

Lemma first_answers :
  first.1 = Ok (false, mkOutcome (Some 508%N) 505%N (Some Pending) [7%N] false)
  ∧ ((λ r, (fr_thread_id r, fr_sender r, fr_receiver r)) <$> thread_messages (of_store (fo_office then_)))
    = [(505, Some 4, Some 3)]%N.
Proof. vm_compute. done. Qed.

(** The retry is looked up by organisation: user 2, who may not see the thread of the
    row, names its key and wakes another agent in it. *)
Definition borrowed := submit 600 2%N (request "k" None [TagAgent 8%N]) then_.
Example borrowed_key :
  thread_visible_to (mkCaller 2 1) 505%N then_ = false
  ∧ borrowed.1 = Ok (true, mkOutcome (Some 605%N) 505%N (Some Pending) [8%N] true)
  ∧ ((λ r, (pr_id r, pr_thread_id r, pr_acting_user_id r)) <$> prompt_requests (of_queue (fo_office (run_tables borrowed.2))))
    = [(11, Some 9, Some 5); (508, Some 505, Some 1); (605, Some 505, Some 2)]%N.
Proof. vm_compute. done. Qed.

(** A key that is accepted, but leaves no room for the agent's id: the row is posted, and
    the agent that it is for is never woken. *)
Definition long_key : SubmitPromptRequest :=
  mkSubmitRequest None [] None (Some (TagAgent 7%N)) (lit "Please check the figures.") []
    (repeat 0x6b%N MAX_IDEMPOTENCY_KEY_BYTES).
Definition posted_then_refused := submit 500 1%N long_key here.
Example long_key_posts :
  (match posted_then_refused.1 with Err (SuBadRequest _) => true | _ => false end) = true
  ∧ length (thread_messages (of_store (fo_office (run_tables posted_then_refused.2)))) = 1
  ∧ length (prompt_requests (of_queue (fo_office (run_tables posted_then_refused.2)))) = 1.
Proof. vm_compute. done. Qed.

(** Two submits of one key at once: the second finds the row of the first only when it
    appends, and answers with the thread it made, which stays empty, and the request
    of the first. *)
Definition racing : Net front :=
  mkNet (λ n w, if n =? 6 then run_tables (submit 900 1%N (request "k" (Some (TagAgent 7%N)) []) w).2 else w) (λ _, None).
Definition raced :=
  submit_prompt (mkSubmitEnv racing (λ n, Z.of_nat n + 100)%Z (λ n, N.of_nat n + 500)%N (λ _, true) (λ _ _, true) None
    (λ _, (2026, 5, 3)%Z)) urls None 1%N 1%N (request "k" (Some (TagAgent 7%N)) []) (mkRun here []).
Example race_answers_with_empty_thread :
  raced.1 = Ok (false, mkOutcome (Some 908%N) 505%N (Some Pending) [7%N] false)
  ∧ ((λ r, fr_thread_id r) <$> thread_messages (of_store (fo_office (run_tables raced.2)))) = [905%N]
  ∧ ((λ r, (pr_id r, pr_thread_id r)) <$> prompt_requests (of_queue (fo_office (run_tables raced.2))))
    = [(11, Some 9); (908, Some 905)]%N.
Proof. vm_compute. done. Qed.

Lemma dir_readable : readable dir.
Proof.
  intros r Hr. set (reads := λ r, match read_colleague dir (cw_id r) with
    | Ok col => bool_decide (rcol_agent_id col = cw_agent_id r) && bool_decide (rcol_user_id col = cw_user_id r)
    | _ => false end).
  assert (Hall : forallb reads (dir_colleagues dir) = true) by (vm_compute; reflexivity).
  rewrite forallb_forall in Hall. specialize (Hall r). rewrite <-list_elem_of_In in Hall. specialize (Hall Hr).
  unfold reads in Hall. destruct (read_colleague dir (cw_id r)) as [col| |]; [|done..]. bools. by exists col.
Qed.
Lemma submit_here_ok : front_ok Demo.timing 2 here.
Proof.
  split; [|apply empty_credit_ok]. destruct SendDemo.here_ok as [_ Hq Hl Hh Ha]. split; try done.
  constructor; cbn; [set_solver| |constructor..]. intros t n. by rewrite lookup_empty.
Qed.
End SubmitDemo.

Lemma submit_keeps_office_witness : front_ok Demo.timing 2 SubmitDemo.then_.
Proof.
  unfold SubmitDemo.then_, SubmitDemo.first, SubmitDemo.submit.
  refine (proj1 (proj1 (submit_keeps_office (H := SubmitDemo.uuid) (H0 := SubmitDemo.free) (SubmitDemo.env 500) Demo.timing 2
    SubmitDemo.urls None 1%N 1%N (SubmitDemo.request "k" (Some (TagAgent 7%N)) []) 11%N (mkRun SubmitDemo.here []) _ _))).
  - done.
  - exact SubmitDemo.submit_here_ok.
Defined.

Lemma submit_again_witness :
  (SubmitDemo.submit 700 1%N (SubmitDemo.request "k" (Some (TagAgent 7%N)) []) SubmitDemo.then_).1
    = Ok (true, mkOutcome (Some 508%N) 505%N (Some Pending) [7%N] true)
  ∧ run_tables (SubmitDemo.submit 700 1%N (SubmitDemo.request "k" (Some (TagAgent 7%N)) []) SubmitDemo.then_).2
    = SubmitDemo.then_.
Proof.
  unfold SubmitDemo.then_, SubmitDemo.first, SubmitDemo.submit.
  apply (submit_again (H := SubmitDemo.uuid) (H0 := SubmitDemo.free) (SubmitDemo.env 500) (SubmitDemo.env 700)
    SubmitDemo.urls None 1%N 1%N (SubmitDemo.request "k" (Some (TagAgent 7%N)) []) (mkRun SubmitDemo.here []) false
    (mkOutcome (Some 508%N) 505%N (Some Pending) [7%N] false)).
  - done.
  - exact SubmitDemo.dir_readable.
  - vm_compute. reflexivity.
  - intros _ n. vm_compute. reflexivity.
  - done.
Defined.
